(* ===== verification/_CoqProject ===== *)
-Q . S2P
Prelude.v
Errors.v
Hoare.v
Buf.v
Varint.v
PacketNumber.v
Cursor.v
Http.v
Frame.v
PacketHeader.v
FlowControl.v
StreamMap.v
Recovery.v
Congestion.v
Loss.v
AckProcessing.v
HpackInteger.v
Huffman.v
Hpack.v
H2Frame.v
H2Stream.v
H2Connection.v
H2Inv.v
H2Receive.v
H2Send.v
H2Api.v
H2Exchange.v
Http1Parse.v
Http1Connection.v
Http1Inv.v
Http1Body.v
Http1Receive.v
Http1Api.v
Http1Deliver.v
Http1Exchange.v
TlsParams.v
TlsMessages.v
TlsExtensions.v
Crypto.v
Certificate.v
TlsHandshake.v
TlsExchange.v
TlsAuth.v
TlsRecord.v
TcpTls.v
TcpTlsStream.v
TcpTlsLink.v
TcpTlsConnect.v
Qpack.v
H3Frame.v
Dispatch.v
QuicPn.v
CryptoBuf.v
QuicKeys.v
QuicPacket.v
QuicIo.v
QuicConn.v
QuicRecv.v
QuicTransmit.v
QuicDemo.v
QuicLife.v
QuicSend.v
H3Connection.v
H3Message.v
HttpApi.v
BufShape.v
HttpIdle.v
AltSvc.v
Server.v
ServerLife.v
ServerKits.v
