(* ===== verification/Prelude.v ===== *)
(** * milli-http: a verification development

    milli-http is a sans-I/O HTTP/1.1, HTTP/2 and HTTP/3 stack in Rust for hosts
    and microcontrollers: TLS 1.3 and QUIC underneath, protocol codecs and
    connection state machines above, and a connection manager on top.  Every byte
    it parses comes from a peer, most state it keeps is bounded by constants, and
    [usize] is 32 or 64 bits wide.  This library models the stack from the codecs
    to the manager, and proves what makes it correct.

    ** The parts and how they interact

    [ServerManager] owns TCP connections, each a TLS connection in its handshake or
    an HTTP/1.1 or HTTP/2 connection over TLS (or HTTP/1.1 in the clear), and QUIC
    connections with HTTP/3 on top.  A TLS connection drives the handshake engine
    with the records it receives and shares its buffers with the HTTP connection
    above it.  A QUIC connection drives the same engine with CRYPTO frames and keeps
    packet numbers, keys, streams, flow control, recovery and congestion state;
    HTTP/3 calls its stream operations.  The caller moves bytes between sockets and
    the connections and passes the time.

    ** How the program is modelled

    Rust functions become Rocq functions with the source's names, structs become
    records, enums inductive types, traits classes.
    - [Result<A, E>] is [res E A], which adds [Panic] for the panics of the
      language (indexing and slicing out of range, arithmetic overflow,
      [unreachable!]); [Option] is [option].  A theorem that excludes [Panic]
      is a panic-freedom theorem.
    - A [&mut] receiver or buffer is state: [M E S A := S -> res E A * S].  The
      state is returned on errors too, as the source leaves it behind.  Buffers a
      caller lends to every call are fields of the state.
    - Integers are [Z] with the width's bound in the invariants ([uint w v]);
      additions that can overflow are [uadd], subtractions [usub], and [usize]
      arithmetic and casts follow [Platform]: the width (32 or 64) and whether
      overflow panics or wraps.
    - Slices are lists; [idx], [slice], [set_idx], [copy_at] panic where Rust does.
    - Allocation can fail: [grant] decides by its size which request the allocator
      serves, the same way throughout a run.
    - Loops are structural recursion, or recursion on fuel that the comment at
      the definition bounds.  Running out of fuel is [Panic], so every
      panic-freedom or exactness theorem also shows that the fuel is enough.
    - Cargo features that change behaviour ([alloc]) and const generics are
      fields of a [Config] class or arguments of the component; the connections are
      the build with [alloc].
    - Cryptographic primitives come from external crates: the class [Primitives] of
      [Crypto] names the calls, [PrimitiveLaws] what the source relies on (sizes,
      that opening inverts sealing, agreement of the key exchange, that signatures
      verify); the instance [Toy.toy] satisfies all of it and is what witnesses run.
      What a random generator fills is an argument.

    ** Files

    - [Prelude]: outcomes, stateful calls, record update, machine integers,
      slices, big-endian bytes, automation ([len_lia], [run_method], the [rust]
      hint database).  [Hoare]: weakest preconditions of stateful methods, and
      [keeps], what a method leaves alone however it ends.
    - [Errors] (src/error.rs): error enums and their wire codes.
    - [Cursor]: the judgements the codec proofs are built from: [Reads], [Safe]
      for readers, [Writes], [Puts], [Emits], [Fills] for writers.
    - [Buf], [BufShape] (src/buf.rs): the byte queue on the heap or in static
      memory, with its hidden tail.
    - [Varint] (src/varint.rs), [PacketNumber] (src/packet/number.rs): QUIC
      integers and packet-number truncation.
    - [Frame] (src/frame/mod.rs): the QUIC frame codec, all frame types.
    - [PacketHeader] (src/packet/long_header.rs, short_header.rs, decode_dcid.rs,
      coalesce.rs, mod.rs): headers and the splitting of datagrams.
    - [FlowControl] (src/transport/flow_control.rs), [StreamMap]
      (src/transport/stream.rs): credit and the stream table.
    - [Recovery], [Congestion], [Loss] (src/transport/recovery.rs, congestion.rs,
      loss.rs): sent packets, NewReno, RTT and loss detection; [AckProcessing]
      (the [Frame::Ack] arm of src/connection/recv.rs) puts them together.
    - [HpackInteger], [Huffman], [Hpack] (src/hpack/): header compression of
      HTTP/2 with its dynamic table.
    - [Http] (src/http/): status codes, methods, timeouts, server-sent events.
    - [H2Frame] (src/h2/frame.rs), [H2Stream] (stream.rs, flow_control.rs),
      [H2Connection] (connection.rs, io.rs): HTTP/2; its invariant in [H2Inv], kept
      by receiving in [H2Receive] and by the rest of the interface in [H2Send]; the
      properties in [H2Api] and [H2Exchange].
    - [Http1Parse] (src/http1/parse.rs), [Http1Connection] (connection.rs, io.rs):
      HTTP/1.1; the invariant in [Http1Inv], the reference decoder of bodies in
      [Http1Body], the receive loop against it in [Http1Receive], the properties in
      [Http1Api], [Http1Deliver] and [Http1Exchange].
    - [TlsParams], [TlsMessages], [TlsExtensions] (src/tls/transport_params.rs,
      messages.rs, alert.rs, extensions.rs): the codecs of the handshake.
    - [Crypto] (src/crypto/mod.rs, key_schedule.rs, rustcrypto.rs,
      src/tls/key_schedule_tls.rs, transcript.rs), [Certificate]
      (src/crypto/x509.rs, ed25519.rs, ecdsa_p256.rs).
    - [TlsHandshake] (src/tls/handshake.rs): the engine of both roles; two engines
      run against each other in [TlsExchange], one against anything in [TlsAuth].
    - [TlsRecord], [TcpTls] (src/tcp_tls/): records and the connection over TCP;
      its byte stream in [TcpTlsStream], two of them joined by TCP in [TcpTlsLink],
      their handshake in [TcpTlsConnect].
    - [Qpack] (src/h3/qpack/), [H3Frame] (src/h3/frame.rs): the HTTP/3 codecs.
    - [Dispatch] (dispatch_frames of src/connection/recv.rs): the loop over the
      frames of a packet, against the interface [FrameCodec] that the QUIC and
      HTTP/3 codecs implement.
    - [QuicPn], [CryptoBuf], [QuicKeys], [QuicPacket], [QuicIo] (parts of
      src/connection/ and src/crypto/): received packet numbers, reassembly of the
      handshake, keys and their update, packet protection, stream buffers.
    - [QuicConn] (src/connection/mod.rs, handshake_pool.rs), [QuicRecv] (recv.rs),
      [QuicTransmit] (transmit.rs): the QUIC connection.  [QuicDemo]: two endpoints
      to run.  Properties of every sequence of calls in [QuicLife], of streams in
      [QuicSend].
    - [H3Connection] (src/h3/connection.rs, client.rs, server.rs), [H3Message]: the
      HTTP/3 connection and the delivery of messages.
    - [HttpApi] (src/http/server_conn.rs, src/h2_tls.rs, src/https1.rs, the client
      and server wrappers, [TlsParts] of src/tcp_tls/mod.rs): the trait
      [HttpServerConn] as a class, and the stacks that implement it; [HttpIdle]:
      their idle clock and header deadline.
    - [AltSvc] (src/discovery/alt_svc.rs).
    - [Server] (src/server/mod.rs): the connection manager; [ServerLife]: what it
      tells the application; [ServerKits]: the buffers it lends.

    ** What the theorems show

    - TLS: a client that completes a handshake, whatever arrives, holds the
      signature and the Finished of the server it pinned ([tls_client_authenticates]);
      two engines that exchange their messages complete with the same secrets, and each
      holds the other's parameters and record size limit ([tls_handshake_agrees]), over TCP as well ([tcp_tls_connects]); what
      one side sends is what the other reads, however TCP cuts it
      ([tls_stream_integrity]).
    - QUIC: a server sends no more than three times what it received to an address
      that is not validated ([quic_anti_amplification]); no call undoes what must not
      be undone ([quic_lifecycle]); a stream delivers a prefix of what was sent, under
      any order, loss and repetition of frames, and all of it with its end if it fits
      the receive buffer ([quic_stream_end_to_end]); packets are opened to what was
      sealed ([packet_protection_roundtrip]); key updates stay within one generation of
      each other, and what a receiver that has updated first drops is part of the
      statement ([key_update_lockstep]); handshake bytes are reassembled exactly from
      the frames kept, which are all that fit the buffer and its 16 ranges
      ([crypto_reassembly_exact]).
    - HTTP: every sequence of calls to an HTTP/1.1 or HTTP/2 connection returns
      without a panic, whatever the peer sends, HTTP/2 in a build without overflow
      checks ([http1_never_panics], [h2_never_panics], [h2_recv_loop_terminates]); HTTP/2 loses no credit and keeps
      its bounds ([h2_credit_conserved], [h2_state_bounded], [h2_send_data_exact]);
      messages arrive unchanged ([http1_message_delivered], [http1_body_exact],
      [h2_headers_delivered], [h3_message_delivered]), and a chunked body arrives whole
      at an application that goes on reading ([http1_chunked_roundtrip]).
    - Server: connections that are silent or behind their header deadline are reaped,
      and no others ([tcp_connections_reap_idle]);
      the events of a connection come in order and end with its end
      ([server_event_protocol]), which is always announced
      ([server_closes_announced]); no buffer lent to a connection is lost
      ([server_kits_conserved]).
    - Round trips: encoding then decoding is the identity, into any buffer with
      room and whatever follows, and a short buffer is reported
      ([frame_roundtrip], [long_header_roundtrip], [varint_roundtrip],
      [pn_roundtrip], [hpack_roundtrip], [huffman_roundtrip],
      [hpack_integer_roundtrip], [h2_frame_roundtrip], [h3_frame_roundtrip],
      [qpack_roundtrip], [tls_message_roundtrip]).
    - Robustness: on every byte string the decoders terminate, do not panic and
      return well-formed values ([frame_decode_total], [header_parsers_total],
      [hpack_decode_safe], [h2_frame_decode_total], [h3_frame_decode_total],
      [coalesced_partition], [dispatch_frames_exact], [tls_parsers_total]); where
      they do panic or hang, the input is exhibited ([parse_initial_panics_32bit],
      [coalesced_stalls_32bit], [hpack_decode_panics], [qpack_decode_panics]).
    - Flow control and streams: limits hold between two endpoints under any
      delay, loss, reordering and duplication of updates, without deadlock for windows
      of two bytes and more;
      streams follow the RFC 9000 diagrams; the table's invariant
      ([flow_control_end_to_end], [flow_control_no_deadlock],
      [streams_follow_diagrams], [stream_table_invariant],
      [stream_slots_never_reclaimed]).
    - Recovery: an ACK removes exactly the packets it names, the lost packets are
      exactly RFC 9002's, the bytes in flight stay exact while at most 32 packets are
      tracked and all of them are in flight ([on_ack_received_exact],
      [detect_lost_exact], [handle_ack_flight_exact], [congestion_window_floor],
      [rtt_estimates_bounded], [expired_loss_timer_overflows]).
    - Storage: a [Buf] in static memory behaves as one on the heap
      ([buf_storages_equivalent]).

    The main theorems with hypotheses are followed by witnesses that apply them at
    concrete inputs.

    ** Bounds and fuel

    Decoder theorems assume a buffer of bytes; those whose code computes with
    positions assume a length below 2^31, or rely on [slice_ok], the limit
    Rust puts on every slice; [coalesced_partition] is about 64-bit targets.  The loss-detection theorems fix a horizon [T]
    for times in microseconds, under which no product overflows.  HPACK names
    are limited to 256 bytes by the decoder's buffer, which the round trip
    assumes.  Theorems about sequences of calls bound the traffic of one connection
    by 2^30 bytes, under which no counter overflows; the handshake theorems bound a
    certificate by 1600 bytes and the offered cipher suites by 100, which the
    engine's buffers hold; [tcp_tls_connects] takes buffers from 4096 bytes on; a
    header frame of [h3_message_delivered] has at most 2048 bytes, the size of the
    source's scratch buffer.

    Fuel of loops is what they consume: the bytes received for the receive loops
    and the loops over frames, extensions, parameters and messages; the queued events
    for loops that drain them; the number of slots or ranges for loops over tables;
    the visible length and 2 for HTTP/2's body pump; 3 flights for the engine of a TLS
    connection, which writes at most three before it waits.

    ** Not modelled

    The tasks of src/server/runner.rs, which move bytes between sockets and the
    manager; the zeroizing of dropped keys; debug printing; the traits of clocks,
    random generators and addresses, which the application implements; the constants
    of header names; the build without [alloc] above the codecs.

    * Prelude *)
From Stdlib Require Ascii String.
From stdpp Require Export base list numbers list_numbers.

Global Open Scope Z_scope.

(** ** Outcomes *)

(** What a Rust call can do: return [Ok a], return [Err e], or panic (an index
    or a slice out of range, an arithmetic overflow, [unreachable!]). *)
Inductive res (E A : Type) : Type :=
| Ok (a : A)
| Err (e : E)
| Panic.
Arguments Ok {E A} a.
Arguments Err {E A} e.
Arguments Panic {E A}.

Global Instance res_ret E : MRet (res E) := λ A, Ok.
Global Instance res_bind E : MBind (res E) := λ A B f m,
  match m with Ok a => f a | Err e => Err e | Panic => Panic end.
Global Instance res_fmap E : FMap (res E) := λ A B f m,
  match m with Ok a => Ok (f a) | Err e => Err e | Panic => Panic end.

(** [Result::map_err]. *)
Definition map_err {E F A} (f : E → F) (m : res E A) : res F A :=
  match m with Ok a => Ok a | Err e => Err (f e) | Panic => Panic end.

(** [Option::ok_or]. *)
Definition ok_or {E A} (e : E) (o : option A) : res E A :=
  match o with Some a => Ok a | None => Err e end.

Definition no_panic {E A} (m : res E A) : Prop := m ≠ Panic.

Definition is_ok {E A} (m : res E A) : bool :=
  match m with Ok _ => true | _ => false end.

(** ** Stateful calls *)

(** A method with a [&mut] receiver or buffer: it maps the old contents to an
    outcome and the new contents.  On [Err] the contents may have changed, as
    in the source. *)
Definition M (E S A : Type) : Type := S → res E A * S.

Global Instance M_ret E S : MRet (M E S) := λ A a s, (Ok a, s).
Global Instance M_bind E S : MBind (M E S) := λ A B f m s,
  match m s with
  | (Ok a, s') => f a s'
  | (Err e, s') => (Err e, s')
  | (Panic, s') => (Panic, s')
  end.

Definition throw {E S A} (e : E) : M E S A := λ s, (Err e, s).
Definition lift {E S A} (m : res E A) : M E S A := λ s, (m, s).
Definition get {E S} : M E S S := λ s, (Ok s, s).
Definition put {E S} (s' : S) : M E S unit := λ _, (Ok tt, s').
Definition modify {E S} (f : S → S) : M E S unit := λ s, (Ok tt, f s).
Definition run {E S A} (m : M E S A) (s : S) : res E A := (m s).1.

(** ** Record update *)

Declare Scope rust_scope.
Global Open Scope rust_scope.

(** [s <| f := v |>] is the assignment [s.f = v].  A record type declares its
    [Eta] expansion once; the updates of its fields are derived from it. *)
Class Eta (R : Type) := eta : R → R.
Class Update {R T} (f : R → T) := update : T → R → R.
Arguments update {R T} f {_} v s : simpl nomatch.
Notation "s <| f := v |>" := (update f v s)
  (at level 1, left associativity, f constr, v constr at level 200) : rust_scope.

Ltac derive_update :=
  match goal with
  | |- @Update ?R ?T ?f =>
    let e := eval hnf in (@eta R _) in
    let v := fresh "v" in
    let s := fresh "s" in
    let h := constr:(λ (v : T) (s : R), ltac:(
      let r := eval cbv beta in (e s) in
      let p := eval pattern (f s) in r in
      match p with ?g _ => let r' := eval cbv beta in (g v) in exact r' end)) in
    exact h
  end.
#[export] Hint Extern 0 (Update _) => derive_update : typeclass_instances.

(** ** Machine integers *)

(** [w]-bit unsigned values are the integers [0 <= v < 2^w]. *)
Definition uint (w v : Z) : Prop := 0 ≤ v < 2 ^ w.
Global Instance uint_dec w v : Decision (uint w v).
Proof. unfold uint. apply _. Defined.

(** Overflow-checked arithmetic: out of range is a panic, as in a build with
    overflow checks.  A theorem that excludes [Panic] therefore also covers
    the builds that wrap, where the two coincide. *)
Definition uadd {E} (w a b : Z) : res E Z :=
  if decide (a + b < 2 ^ w) then Ok (a + b) else Panic.
Definition usub {E} (a b : Z) : res E Z :=
  if decide (b ≤ a) then Ok (a - b) else Panic.
Definition umul {E} (w a b : Z) : res E Z :=
  if decide (a * b < 2 ^ w) then Ok (a * b) else Panic.
(** [saturating_sub]. *)
Definition sat_sub (a b : Z) : Z := Z.max 0 (a - b).
(** [e as uW]: truncation. *)
Definition trunc (w v : Z) : Z := v mod 2 ^ w.

Definition u64_max : Z := 2 ^ 64 - 1.

(** The width of [usize] and the build profile: the crate targets 32-bit
    microcontrollers and 64-bit hosts, and a varint read [as usize] is truncated
    on the former; [usize] additions either panic or wrap on overflow. *)
Class Platform := {
  usize_bits : Z;
  usize_bits_ok : usize_bits = 32 ∨ usize_bits = 64;
  overflow_checks : bool
}.
Definition platform32 : Platform :=
  {| usize_bits := 32; usize_bits_ok := or_introl eq_refl; overflow_checks := false |}.
Definition platform64 : Platform :=
  {| usize_bits := 64; usize_bits_ok := or_intror eq_refl; overflow_checks := false |}.

(** [v as usize]. *)
Definition as_usize `{Platform} (v : Z) : Z := trunc usize_bits v.

(** [a + b] on [usize]. *)
Definition usize_add `{Platform} {E} (a b : Z) : res E Z :=
  if decide (a + b < 2 ^ usize_bits) then Ok (a + b)
  else if overflow_checks then Panic else Ok (trunc usize_bits (a + b)).

(** ** Slices *)

(** [s.len()]; every Rust slice has at most [isize::MAX] bytes. *)
Abbreviation len l := (Z.of_nat (length l)).

Definition slice_ok `{Platform} {A} (l : list A) : Prop := len l < 2 ^ (usize_bits - 1).

(** [l[i]]. *)
Definition idx {E A} (l : list A) (i : Z) : res E A :=
  if decide (0 ≤ i < len l) then
    match l !! Z.to_nat i with Some a => Ok a | None => Panic end
  else Panic.
(** [&l[a..b]], [&l[a..]]. *)
Definition slice {E A} (l : list A) (a b : Z) : res E (list A) :=
  if decide (0 ≤ a ≤ b ∧ b ≤ len l)
  then Ok (take (Z.to_nat (b - a)) (drop (Z.to_nat a) l)) else Panic.
Definition slice_from {E A} (l : list A) (a : Z) : res E (list A) := slice l a (len l).
(** [l[i] = v]. *)
Definition set_idx {E} {A} (l : list A) (i : Z) (v : A) : res E (list A) :=
  if decide (0 ≤ i < len l) then Ok (<[Z.to_nat i := v]> l) else Panic.
(** [l[a..b].copy_from_slice(src)]: the lengths must agree. *)
Definition copy_at {E A} (l : list A) (a b : Z) (src : list A) : res E (list A) :=
  if decide (0 ≤ a ≤ b ∧ b ≤ len l ∧ b - a = len src)
  then Ok (take (Z.to_nat a) l ++ src ++ drop (Z.to_nat b) l) else Panic.

(** The same two stores as steps on a mutable buffer. *)
Definition store {E} {A} (i : Z) (v : A) : M E (list A) unit := λ l,
  match set_idx l i v with Ok l' => (Ok tt, l') | Err e => (Err e, l) | Panic => (Panic, l) end.
Definition store_slice {E A} (a b : Z) (src : list A) : M E (list A) unit := λ l,
  match copy_at l a b src with
  | Ok l' => (Ok tt, l') | Err e => (Err e, l) | Panic => (Panic, l)
  end.
(** [buf.len()] of the mutable buffer itself. *)
Definition buf_len {E} {A} : M E (list A) Z := λ l, (Ok (len l), l).

(** A call on the reborrowed suffix [&mut l[a..]]. *)
Definition with_from {E A B} (a : Z) (f : M E (list A) B) : M E (list A) B := λ l,
  if decide (0 ≤ a ≤ len l) then
    let '(r, suffix) := f (drop (Z.to_nat a) l) in
    (r, take (Z.to_nat a) l ++ suffix)
  else (Panic, l).

(** ** Iterators *)

(** [iter().position(p)]. *)
Fixpoint position {A} (p : A → bool) (l : list A) : option nat :=
  match l with
  | [] => None
  | a :: l' => if p a then Some O else S <$> position p l'
  end.

(** ** Vectors *)

(** [let _ = v.push(x)] on a [heapless::Vec] of capacity [cap]: a full vector
    drops the element. *)
Definition push_capped {A} (cap : nat) (l : list A) (x : A) : list A :=
  if (length l <? cap)%nat then l ++ [x] else l.

(** [v.swap_remove(i)] (the vector it leaves; the callers check the index). *)
Definition swap_remove {A} (i : nat) (l : list A) : list A :=
  match last l with
  | Some z => take (length l - 1) (<[i := z]> l)
  | None => l
  end.

(** ** Bytes *)

Definition byte_ok (b : Z) : Prop := 0 ≤ b < 256.
Global Instance byte_ok_dec b : Decision (byte_ok b).
Proof. unfold byte_ok. apply _. Defined.
Abbreviation bytes_ok := (Forall byte_ok).
(** A Rust byte-string literal. *)
Definition bytes (s : String.string) : list Z :=
  (λ c, Z.of_nat (Ascii.nat_of_ascii c)) <$> String.list_ascii_of_string s.

(** [uW::from_be_bytes] and [uW::to_be_bytes] ([n] bytes). *)
Fixpoint be_val (l : list Z) : Z :=
  match l with [] => 0 | b :: l' => b * 256 ^ len l' + be_val l' end.
Fixpoint be_bytes (n : nat) (v : Z) : list Z :=
  match n with O => [] | S n' => (v / 256 ^ Z.of_nat n') mod 256 :: be_bytes n' v end.

(** ** Automation *)

Create HintDb rust discriminated.
Create Rewrite HintDb len.
#[export] Hint Rewrite @length_app @length_take @length_drop @length_insert @length_cons
  @length_nil @length_replicate @length_reverse @length_fmap : len.

(** Normalise lengths, then linear arithmetic. *)
Ltac len_lia := intros; simpl length in *; autorewrite with len in *; lia.

(** Case split on the tests of the model: [decide], [if], [match]. *)
Ltac case_tests :=
  repeat match goal with
  | |- context [decide ?P] => destruct (decide P)
  | |- context [if ?b then _ else _] => destruct b eqn:?
  end.

(** Run a stateful method in the goal and the hypotheses: its steps, then its
    tests. *)
Ltac run_method :=
  unfold mbind, M_bind, get, lift, modify, throw, mret, M_ret, uadd in *; simpl in *; simplify_eq/=;
  repeat (case_match; simpl in *; simplify_eq/=).

(** Linear arithmetic with division and remainder by constants. *)
Ltac div_lia := intros; Z.div_mod_to_equations; lia.

(** Evaluate the [nat] images of numerals. *)
Ltac znat :=
  repeat match goal with
  | |- context [Z.to_nat (Zpos ?p)] =>
      let n := eval vm_compute in (Z.to_nat (Zpos p)) in change (Z.to_nat (Zpos p)) with n
  | |- context [Z.to_nat Z0] => change (Z.to_nat 0) with 0%nat
  end.

(** Evaluate closed powers. *)
Ltac zpow :=
  repeat match goal with
  | H : context [?a ^ ?e] |- _ =>
      let k := eval vm_compute in (a ^ e) in
      match k with Zpos _ => change (a ^ e) with k in H end
  | |- context [?a ^ ?e] =>
      let k := eval vm_compute in (a ^ e) in
      match k with Zpos _ => change (a ^ e) with k end
  end.

(** ** Lemmas on outcomes *)

Lemma res_bind_ok {E A B} (m : res E A) (f : A → res E B) b :
  m ≫= f = Ok b ↔ ∃ a, m = Ok a ∧ f a = Ok b.
Proof. destruct m; simpl; naive_solver. Qed.

Lemma M_bind_ok {E S A B} (m : M E S A) (f : A → M E S B) s b s'' :
  (m ≫= f) s = (Ok b, s'') ↔ ∃ a s', m s = (Ok a, s') ∧ f a s' = (Ok b, s'').
Proof. unfold mbind, M_bind. destruct (m s) as [[]]; naive_solver. Qed.

(** Running one step of a stateful computation. *)
Lemma M_step_ok {E S A B} (m : M E S A) (f : A → M E S B) s a s' :
  m s = (Ok a, s') → (m ≫= f) s = f a s'.
Proof. unfold mbind, M_bind. by intros ->. Qed.
Lemma M_step_err {E S A B} (m : M E S A) (f : A → M E S B) s e s' :
  m s = (Err e, s') → (m ≫= f) s = (Err e, s').
Proof. unfold mbind, M_bind. by intros ->. Qed.
Lemma M_bind_assoc {E S A B C} (m : M E S A) (f : A → M E S B) (g : B → M E S C) s :
  ((m ≫= f) ≫= g) s = (m ≫= λ a, f a ≫= g) s.
Proof. unfold mbind, M_bind. by destruct (m s) as [[]]. Qed.
Lemma M_step_lift {E S A B} (m : res E A) (f : A → M E S B) s a :
  m = Ok a → (lift m ≫= f) s = f a s.
Proof. by intros ->. Qed.

Lemma no_panic_bind {E A B} (m : res E A) (f : A → res E B) :
  no_panic m → (∀ a, m = Ok a → no_panic (f a)) → no_panic (m ≫= f).
Proof. unfold no_panic. destruct m; simpl; naive_solver. Qed.
#[export] Hint Resolve no_panic_bind : rust.

(** ** Lemmas on machine integers *)

Lemma uadd_ok {E} w a b : a + b < 2 ^ w → uadd (E:=E) w a b = Ok (a + b).
Proof. intros. unfold uadd. by rewrite decide_True. Qed.
Lemma usub_ok {E} a b : b ≤ a → usub (E:=E) a b = Ok (a - b).
Proof. intros. unfold usub. by rewrite decide_True. Qed.
Lemma umul_ok {E} w a b : a * b < 2 ^ w → umul (E:=E) w a b = Ok (a * b).
Proof. intros. unfold umul. by rewrite decide_True. Qed.

Lemma trunc_small w v : uint w v → trunc w v = v.
Proof. unfold uint, trunc. intros. by apply Z.mod_small. Qed.

Lemma trunc_range w v : 0 ≤ w → uint w (trunc w v).
Proof. unfold uint, trunc. intros. apply Z.mod_pos_bound. lia. Qed.

Lemma usize_bits_ge `{Platform} : 32 ≤ usize_bits ≤ 64.
Proof. destruct usize_bits_ok; lia. Qed.

Lemma as_usize_range `{Platform} v : 0 ≤ as_usize v < 2 ^ usize_bits.
Proof. apply trunc_range. pose proof usize_bits_ge; lia. Qed.

Lemma usize_add_ok `{Platform} {E} a b :
  a + b < 2 ^ usize_bits → usize_add (E:=E) a b = Ok (a + b).
Proof. intros. unfold usize_add. by rewrite decide_True. Qed.

Lemma pow_usize_ge `{Platform} : 2 ^ 32 ≤ 2 ^ usize_bits.
Proof. apply Z.pow_le_mono_r; pose proof usize_bits_ge; lia. Qed.

(** The size up to which the connections are shown not to overflow: buffers and
    the bytes received over a connection's life, a gigabyte. *)
Definition LIMIT : Z := 2 ^ 30.
Lemma size_usize `{Platform} n m : n ≤ LIMIT → m ≤ LIMIT → n + m < 2 ^ usize_bits.
Proof. unfold LIMIT. pose proof pow_usize_ge. lia. Qed.

Lemma as_usize_small `{Platform} v : uint usize_bits v → as_usize v = v.
Proof. apply trunc_small. Qed.

Lemma as_usize_u31 `{Platform} v : 0 ≤ v < 2 ^ 31 → as_usize v = v.
Proof. intros. apply as_usize_small. unfold uint. pose proof pow_usize_ge. lia. Qed.

Lemma slice_ok_usize `{Platform} {A} (l : list A) :
  slice_ok l → uint usize_bits (len l).
Proof.
  unfold slice_ok, uint. intros. split; [lia|].
  etrans; [eassumption|]. pose proof usize_bits_ge. apply Z.pow_lt_mono_r; lia.
Qed.

Lemma land_ones_mod a n : 0 ≤ n → Z.land a (Z.ones n) = a mod 2 ^ n.
Proof. intros. by apply Z.land_ones. Qed.

(** Or-ing into clear low bits is addition. *)
Lemma lor_disjoint_add a b n : 0 ≤ n → a mod 2 ^ n = 0 → 0 ≤ b < 2 ^ n → Z.lor a b = a + b.
Proof.
  intros Hn Ha Hb. rewrite <- Z.lxor_lor, <- Z.add_nocarry_lxor; try done.
  all: apply Z.bits_inj'; intros i Hi; rewrite Z.land_spec, Z.bits_0.
  all: destruct (Z.lt_ge_cases i n).
  1,3: rewrite <- (Z.mod_pow2_bits_low a n i) by lia; by rewrite Ha, Z.bits_0.
  all: rewrite <- (Z.mod_small b (2 ^ n)), Z.mod_pow2_bits_high by lia;
    apply andb_false_r.
Qed.

(** The low two bits. *)
Lemma land_mod4 x k : Z.land 3 k = k → Z.land x k = Z.land (x mod 4) k.
Proof.
  intros Hk. change 4 with (2 ^ 2). rewrite <- Z.land_ones by lia.
  rewrite <- Z.land_assoc. change (Z.ones 2) with 3. by rewrite Hk.
Qed.

(** A boolean test that holds of all 256 bytes, checked by computation. *)
Lemma byte_forall (f : Z → bool) :
  forallb f (seqZ 0 256) = true → ∀ b, byte_ok b → f b = true.
Proof.
  intros Hall b Hb. rewrite forallb_forall in Hall. apply Hall.
  apply list_elem_of_In, elem_of_seqZ. unfold byte_ok in Hb. lia.
Qed.

(** ** Lemmas on slices *)

Lemma idx_ok {E A} (l : list A) i a :
  0 ≤ i → l !! Z.to_nat i = Some a → idx (E:=E) l i = Ok a.
Proof.
  intros Hi Hl. pose proof (lookup_lt_Some _ _ _ Hl).
  unfold idx. rewrite decide_True by lia. by rewrite Hl.
Qed.

Lemma idx_no_panic {E A} (l : list A) i : 0 ≤ i < len l → ∃ a, idx (E:=E) l i = Ok a.
Proof.
  intros Hi. destruct (lookup_lt_is_Some_2 l (Z.to_nat i)) as [a Ha]; [lia|].
  exists a. apply idx_ok; [lia|done].
Qed.

Lemma idx_not_err {E A} (l : list A) i (e : E) : idx l i ≠ Err e.
Proof. unfold idx. case_decide; [|done]. by destruct (l !! Z.to_nat i). Qed.

Lemma idx_lookup {E A} (l : list A) i a :
  idx (E:=E) l i = Ok a → l !! Z.to_nat i = Some a.
Proof. unfold idx. case_decide; [|done]. by destruct (l !! Z.to_nat i); intros [= ->]. Qed.

Lemma idx_app {E A} (pre l : list A) i : 0 ≤ i → idx (E:=E) (pre ++ l) (len pre + i) = idx l i.
Proof.
  intros Hi. unfold idx. rewrite lookup_app_r by lia.
  replace (Z.to_nat (len pre + i) - length pre)%nat with (Z.to_nat i) by lia.
  repeat case_decide; try done; rewrite length_app in *; lia.
Qed.

Lemma idx_byte {E} (l : list Z) i b : bytes_ok l → idx (E:=E) l i = Ok b → byte_ok b.
Proof.
  unfold idx. intros Hl. case_decide; [|done].
  destruct (l !! Z.to_nat i) eqn:Hi; [|done]. intros [= <-].
  rewrite Forall_lookup in Hl. eauto.
Qed.

Lemma slice_eq {E A} (l : list A) a b :
  0 ≤ a ≤ b → b ≤ len l →
  slice (E:=E) l a b = Ok (take (Z.to_nat (b - a)) (drop (Z.to_nat a) l)).
Proof. intros. unfold slice. by rewrite decide_True. Qed.

Lemma slice_from_eq {E A} (l : list A) a :
  0 ≤ a ≤ len l → slice_from (E:=E) l a = Ok (drop (Z.to_nat a) l).
Proof.
  intros. unfold slice_from. rewrite slice_eq by lia.
  f_equal. apply take_ge. len_lia.
Qed.

Lemma slice_from_app {E A} (pre l : list A) i : i = len pre → slice_from (E:=E) (pre ++ l) i = Ok l.
Proof. intros ->. rewrite slice_from_eq by len_lia. by rewrite Nat2Z.id, drop_app_length. Qed.

Lemma slice_ok_inv {E A} (l : list A) a b s :
  slice (E:=E) l a b = Ok s → 0 ≤ a ≤ b ∧ b ≤ len l ∧ len s = b - a.
Proof. unfold slice. case_decide; [intros [= <-]|done]. len_lia. Qed.

Lemma slice_bytes {E} (l : list Z) a b s :
  bytes_ok l → slice (E:=E) l a b = Ok s → bytes_ok s.
Proof.
  unfold slice. intros. case_decide; simplify_eq. by apply Forall_take, Forall_drop.
Qed.

(** The middle of a concatenation. *)
Lemma slice_middle {E A} (pre mid post : list A) a b :
  a = len pre → b = len pre + len mid → slice (E:=E) (pre ++ mid ++ post) a b = Ok mid.
Proof.
  intros -> ->. rewrite slice_eq by len_lia. f_equal.
  replace (Z.to_nat _) with (length mid) by lia.
  rewrite Nat2Z.id, drop_app_length. by rewrite take_app_length.
Qed.

Lemma set_idx_eq {E A} (l : list A) i v :
  0 ≤ i < len l → set_idx (E:=E) l i v = Ok (<[Z.to_nat i := v]> l).
Proof. intros. unfold set_idx. by rewrite decide_True. Qed.

Lemma idx_middle {E A} (l1 l2 : list A) x n : n = len l1 → idx (E:=E) (l1 ++ x :: l2) n = Ok x.
Proof. intros ->. apply idx_ok; [lia|]. rewrite Nat2Z.id. by apply list_lookup_middle. Qed.
Lemma set_middle {E A} (l1 l2 : list A) x y n : n = len l1 → set_idx (E:=E) (l1 ++ x :: l2) n y = Ok (l1 ++ y :: l2).
Proof.
  intros ->. unfold set_idx. rewrite decide_True by (rewrite length_app; cbn [length]; lia). rewrite Nat2Z.id. f_equal.
  by rewrite insert_app_r_alt, Nat.sub_diag by lia.
Qed.

Lemma copy_at_eq {E A} (l : list A) a b src :
  0 ≤ a ≤ b → b ≤ len l → b - a = len src →
  copy_at (E:=E) l a b src = Ok (take (Z.to_nat a) l ++ src ++ drop (Z.to_nat b) l).
Proof. intros. unfold copy_at. by rewrite decide_True. Qed.

(** Overwriting after a prefix [done]. *)
Lemma copy_at_app {E A} (done rest src : list A) a b :
  a = len done → b = len done + len src → len src ≤ len rest →
  copy_at (E:=E) (done ++ rest) a b src = Ok ((done ++ src) ++ drop (length src) rest).
Proof.
  intros -> -> ?. rewrite copy_at_eq by len_lia. f_equal.
  rewrite Nat2Z.id, take_app_length, <- app_assoc. do 2 f_equal.
  rewrite drop_app. rewrite (drop_ge done) by lia. simpl. f_equal. lia.
Qed.

Lemma store_eq {E A} (l : list A) i v :
  0 ≤ i < len l → store (E:=E) i v l = (Ok tt, <[Z.to_nat i := v]> l).
Proof. intros. unfold store. by rewrite set_idx_eq. Qed.

Lemma store_slice_eq {E A} (l : list A) a b src :
  0 ≤ a ≤ b → b ≤ len l → b - a = len src →
  store_slice (E:=E) a b src l = (Ok tt, take (Z.to_nat a) l ++ src ++ drop (Z.to_nat b) l).
Proof. intros. unfold store_slice. by rewrite copy_at_eq. Qed.

Lemma with_from_app {E A B} (done rest : list A) a (f : M E (list A) B) :
  a = len done →
  with_from a f (done ++ rest) = ((f rest).1, done ++ (f rest).2).
Proof.
  intros ->. unfold with_from. rewrite decide_True by len_lia.
  rewrite Nat2Z.id, drop_app_length, take_app_length. by destruct (f rest).
Qed.

Lemma position_Some {A} (p : A → bool) l i :
  position p l = Some i ↔
  (∃ a, l !! i = Some a ∧ p a = true) ∧ (∀ j b, (j < i)%nat → l !! j = Some b → p b = false).
Proof.
  revert i. induction l as [|a l IH]; intros i; simpl; [naive_solver|].
  destruct (p a) eqn:Hp.
  - split; [intros [= <-]; split; [eauto|lia]|].
    intros [(b & Hb & Hpb) Hlt]. destruct i as [|i]; [done|].
    specialize (Hlt 0%nat a ltac:(lia) eq_refl). congruence.
  - destruct i as [|i].
    + split; [by destruct (position p l)|]. intros [(b & [= <-] & Hb) _]. congruence.
    + rewrite fmap_Some. split.
      * intros (j & Hj & [= <-]). apply IH in Hj as [(b & ? & ?) Hlt]. split; [eauto|].
        intros [|k] c ? Hc; simpl in Hc; [congruence|]. apply (Hlt k); [lia|done].
      * intros [(b & ? & ?) Hlt]. exists i. split; [|done]. apply IH. split; [eauto|].
        intros k c ? Hc. apply (Hlt (S k)); [lia|done].
Qed.

Lemma filter_all {A} (p : A → bool) l : Forall (λ a, p a = true) l → List.filter p l = l.
Proof. induction 1 as [|a l Ha _ IH]; simpl; [done|]. by rewrite Ha, IH. Qed.

Lemma position_lt {A} (p : A → bool) l i : position p l = Some i → (i < length l)%nat.
Proof. intros [(a & Ha & _) _]%position_Some. by apply lookup_lt_Some in Ha. Qed.
Lemma position_None {A} (p : A → bool) l :
  position p l = None ↔ Forall (λ a, p a = false) l.
Proof.
  induction l as [|a l IH]; simpl; [by split|]. rewrite Forall_cons.
  destruct (p a); [naive_solver|]. rewrite fmap_None, IH. naive_solver.
Qed.

(** ** Lemmas on vectors *)

Lemma length_swap_remove {A} i (l : list A) : length (swap_remove i l) = (length l - 1)%nat.
Proof.
  unfold swap_remove. destruct (last l) eqn:Hl; [len_lia|]. apply last_None in Hl as ->. done.
Qed.

Lemma swap_remove_perm {A} i (l : list A) x : l !! i = Some x → l ≡ₚ x :: swap_remove i l.
Proof.
  intros Hi. unfold swap_remove. pose proof (lookup_lt_Some _ _ _ Hi).
  destruct (last l) as [z|] eqn:Hl; [|by apply last_None in Hl as ->].
  apply last_Some in Hl as [l' ->]. rewrite length_app in *. simpl in *.
  replace (length l' + 1 - 1)%nat with (length l') by lia.
  destruct (decide (i = length l')) as [->|Hne].
  - rewrite list_lookup_middle in Hi by done. simplify_eq.
    rewrite take_insert_ge by lia. rewrite take_app_length. by rewrite <- Permutation_cons_append.
  - rewrite lookup_app_l in Hi by lia.
    rewrite insert_app_l by lia. replace (length l') with (length (<[i := z]> l')) by len_lia.
    rewrite take_app_length, (insert_take_drop l') by lia.
    rewrite <- (take_drop_middle l' i x) at 1 by done.
    by rewrite <- Permutation_cons_append, <- !Permutation_middle, Permutation_swap.
Qed.

Lemma swap_remove_lookup {A} i j (l : list A) :
  (j < i)%nat → (i < length l)%nat → swap_remove i l !! j = l !! j.
Proof.
  intros. unfold swap_remove. destruct (last l); [|done].
  rewrite lookup_take_lt by lia. by rewrite list_lookup_insert_ne by lia.
Qed.

Lemma foldl_push_capped {A} cap (l acc : list A) :
  (length acc ≤ cap)%nat → foldl (push_capped cap) acc l = take cap (acc ++ l).
Proof.
  revert acc. induction l as [|x l IH]; intros acc Hc; simpl.
  - by rewrite app_nil_r, take_ge.
  - unfold push_capped at 2. destruct (Nat.ltb_spec (length acc) cap).
    + rewrite IH by len_lia. by rewrite <- app_assoc.
    + rewrite IH by done. by rewrite !take_app_le by lia.
Qed.

(** ** Big-endian integers *)

Lemma length_be_bytes n v : length (be_bytes n v) = n.
Proof. induction n; simpl; congruence. Qed.
#[export] Hint Rewrite length_be_bytes : len.

Lemma bytes_ok_be_bytes n v : bytes_ok (be_bytes n v).
Proof.
  induction n; constructor; [|done]. apply Z.mod_pos_bound. lia.
Qed.
#[export] Hint Resolve bytes_ok_be_bytes : rust.

Lemma pow256_succ n : 256 ^ Z.of_nat (S n) = 256 * 256 ^ Z.of_nat n.
Proof. rewrite Nat2Z.inj_succ, Z.pow_succ_r by lia. done. Qed.

Lemma be_val_bound l : bytes_ok l → 0 ≤ be_val l < 256 ^ len l.
Proof.
  induction 1 as [|b l Hb _ IH]; simpl be_val; [simpl; lia|].
  simpl length. rewrite pow256_succ. unfold byte_ok in Hb. nia.
Qed.

(** Three bytes shifted together. *)
Lemma header_length_bits b0 b1 b2 :
  byte_ok b0 → byte_ok b1 → byte_ok b2 →
  Z.lor (Z.lor (Z.shiftl b0 16) (Z.shiftl b1 8)) b2 = be_val [b0; b1; b2].
Proof.
  unfold byte_ok. intros. rewrite !Z.shiftl_mul_pow2 by lia. simpl be_val. zpow.
  rewrite (lor_disjoint_add (b0 * 65536) (b1 * 256) 16); [|lia|zpow; div_lia|zpow; lia].
  rewrite (lor_disjoint_add _ b2 8); [|lia|zpow; div_lia|zpow; lia]. lia.
Qed.

Lemma be_val_be_bytes n v : be_val (be_bytes n v) = v mod 256 ^ Z.of_nat n.
Proof.
  induction n as [|n IH]; simpl be_val; [by rewrite Z.mod_1_r|].
  rewrite IH, length_be_bytes, pow256_succ.
  rewrite (Z.mul_comm 256), Z.rem_mul_r by lia. lia.
Qed.

Lemma be_val_be_bytes_id n v : 0 ≤ v < 256 ^ Z.of_nat n → be_val (be_bytes n v) = v.
Proof. intros. rewrite be_val_be_bytes. by apply Z.mod_small. Qed.

Lemma be_bytes_mod n k v :
  (n ≤ k)%nat → be_bytes n (v mod 256 ^ Z.of_nat k) = be_bytes n v.
Proof.
  induction n as [|n IH]; intros Hk; simpl; [done|]. f_equal; [|apply IH; lia].
  replace (Z.of_nat k) with (Z.of_nat n + (Z.of_nat k - Z.of_nat n)) by lia.
  rewrite Z.pow_add_r by lia. rewrite Z.rem_mul_r by lia.
  rewrite Z.add_comm, Z.mul_comm, Z.div_add_l by lia.
  rewrite (Z.div_small (_ mod _)) by (apply Z.mod_pos_bound; lia). rewrite Z.add_0_r.
  replace (Z.of_nat k - Z.of_nat n) with (1 + (Z.of_nat k - Z.of_nat n - 1)) by lia.
  rewrite Z.pow_add_r by lia. rewrite Z.rem_mul_r by lia.
  change (256 ^ 1) with 256. rewrite Z.mul_comm, Z.mod_add by lia. by rewrite Z.mod_mod by lia.
Qed.

Lemma be_bytes_be_val l : bytes_ok l → be_bytes (length l) (be_val l) = l.
Proof.
  induction 1 as [|b l Hb Hl IH]; simpl; [done|].
  pose proof (be_val_bound l Hl). unfold byte_ok in Hb. f_equal.
  - rewrite Z.div_add_l, Z.div_small, Z.add_0_r by lia. by apply Z.mod_small.
  - etrans; [|exact IH].
    rewrite <- (be_bytes_mod (length l) (length l)), Z.add_comm, Z.mod_add by lia.
    by rewrite be_bytes_mod by lia.
Qed.
