(* ===== verification/Errors.v ===== *)
(** * Errors: [src/error.rs]

    The wire error-code enums of QUIC, HTTP/3 and HTTP/2 with their code
    conversions, and the crate-wide [Error] every fallible operation of the
    development returns. *)
From S2P Require Import Prelude.

(** ** QUIC transport error codes *)
Module TransportError.

Inductive t : Type :=
| NoError
| InternalError
| ConnectionRefused
| FlowControlError
| StreamLimitError
| StreamStateError
| FinalSizeError
| FrameEncodingError
| TransportParameterError
| ConnectionIdLimitError
| ProtocolViolation
| InvalidToken
| ApplicationError
| CryptoBufferExceeded
| KeyUpdateError
| AeadLimitReached
| NoViablePath
| VersionNegotiationError.

Global Instance t_eq_dec : EqDecision t.
Proof. solve_decision. Defined.

Definition to_code (e : t) : Z :=
  match e with
  | NoError => 0x00
  | InternalError => 0x01
  | ConnectionRefused => 0x02
  | FlowControlError => 0x03
  | StreamLimitError => 0x04
  | StreamStateError => 0x05
  | FinalSizeError => 0x06
  | FrameEncodingError => 0x07
  | TransportParameterError => 0x08
  | ConnectionIdLimitError => 0x09
  | ProtocolViolation => 0x0a
  | InvalidToken => 0x0b
  | ApplicationError => 0x0c
  | CryptoBufferExceeded => 0x0d
  | KeyUpdateError => 0x0e
  | AeadLimitReached => 0x0f
  | NoViablePath => 0x10
  | VersionNegotiationError => 0x11
  end.

Definition from_code (code : Z) : option t :=
  match code with
  | 0x00 => Some NoError
  | 0x01 => Some InternalError
  | 0x02 => Some ConnectionRefused
  | 0x03 => Some FlowControlError
  | 0x04 => Some StreamLimitError
  | 0x05 => Some StreamStateError
  | 0x06 => Some FinalSizeError
  | 0x07 => Some FrameEncodingError
  | 0x08 => Some TransportParameterError
  | 0x09 => Some ConnectionIdLimitError
  | 0x0a => Some ProtocolViolation
  | 0x0b => Some InvalidToken
  | 0x0c => Some ApplicationError
  | 0x0d => Some CryptoBufferExceeded
  | 0x0e => Some KeyUpdateError
  | 0x0f => Some AeadLimitReached
  | 0x10 => Some NoViablePath
  | 0x11 => Some VersionNegotiationError
  | _ => None
  end.

(** A [CryptoError]: 0x0100 + the TLS alert. *)
Definition crypto_error (alert_code : Z) : Z := 0x0100 + alert_code.

End TransportError.

(** ** HTTP/3 error codes *)
Module H3Error.

Inductive t : Type :=
| NoError
| GeneralProtocolError
| InternalError
| StreamCreationError
| ClosedCriticalStream
| FrameUnexpected
| FrameError
| ExcessiveLoad
| IdError
| SettingsError
| MissingSettings
| RequestRejected
| RequestCancelled
| RequestIncomplete
| MessageError
| ConnectError
| VersionFallback
| QpackDecompressionFailed
| QpackEncoderStreamError
| QpackDecoderStreamError.

Global Instance t_eq_dec : EqDecision t.
Proof. solve_decision. Defined.

Definition to_code (e : t) : Z :=
  match e with
  | NoError => 0x0100
  | GeneralProtocolError => 0x0101
  | InternalError => 0x0102
  | StreamCreationError => 0x0103
  | ClosedCriticalStream => 0x0104
  | FrameUnexpected => 0x0105
  | FrameError => 0x0106
  | ExcessiveLoad => 0x0107
  | IdError => 0x0108
  | SettingsError => 0x0109
  | MissingSettings => 0x010a
  | RequestRejected => 0x010b
  | RequestCancelled => 0x010c
  | RequestIncomplete => 0x010d
  | MessageError => 0x010e
  | ConnectError => 0x010f
  | VersionFallback => 0x0110
  | QpackDecompressionFailed => 0x0200
  | QpackEncoderStreamError => 0x0201
  | QpackDecoderStreamError => 0x0202
  end.

End H3Error.

(** ** HTTP/2 error codes *)
Module H2Error.

Inductive t : Type :=
| NoError
| ProtocolError
| InternalError
| FlowControlError
| SettingsTimeout
| StreamClosed
| FrameSizeError
| RefusedStream
| Cancel
| CompressionError
| ConnectError
| EnhanceYourCalm
| InadequateSecurity
| Http11Required.

Global Instance t_eq_dec : EqDecision t.
Proof. solve_decision. Defined.

Definition to_code (e : t) : Z :=
  match e with
  | NoError => 0x0
  | ProtocolError => 0x1
  | InternalError => 0x2
  | FlowControlError => 0x3
  | SettingsTimeout => 0x4
  | StreamClosed => 0x5
  | FrameSizeError => 0x6
  | RefusedStream => 0x7
  | Cancel => 0x8
  | CompressionError => 0x9
  | ConnectError => 0xa
  | EnhanceYourCalm => 0xb
  | InadequateSecurity => 0xc
  | Http11Required => 0xd
  end.

Definition from_code (code : Z) : option t :=
  match code with
  | 0x0 => Some NoError
  | 0x1 => Some ProtocolError
  | 0x2 => Some InternalError
  | 0x3 => Some FlowControlError
  | 0x4 => Some SettingsTimeout
  | 0x5 => Some StreamClosed
  | 0x6 => Some FrameSizeError
  | 0x7 => Some RefusedStream
  | 0x8 => Some Cancel
  | 0x9 => Some CompressionError
  | 0xa => Some ConnectError
  | 0xb => Some EnhanceYourCalm
  | 0xc => Some InadequateSecurity
  | 0xd => Some Http11Required
  | _ => None
  end.

End H2Error.

(** ** The crate error *)
Inductive Error : Type :=
| Transport (e : TransportError.t)
| Http3 (e : H3Error.t)
| Http2 (e : H2Error.t)
| Crypto
| Tls
| BufferTooSmall (needed : Z)
| OutOfMemory
| StreamLimitExhausted
| Closed
| WouldBlock
| InvalidState
| HandshakePoolExhausted
| TooManyHeaders.

Global Instance Error_eq_dec : EqDecision Error.
Proof. solve_decision. Defined.

(** [Result<A, Error>], with the panics made explicit. *)
Abbreviation result A := (res Error A).

Definition too_small (e : Error) : Prop := ∃ n, e = BufferTooSmall n.

(** The wire codes are faithful.  For QUIC and for HTTP/2, [from_code]
    inverts [to_code] and accepts no code that [to_code] does not produce, so
    an error survives a trip over the wire and no two errors share a code. *)
Theorem error_codes_roundtrip :
  (∀ c e, TransportError.from_code c = Some e ↔ TransportError.to_code e = c) ∧
  (∀ c e, H2Error.from_code c = Some e ↔ H2Error.to_code e = c).
Proof.
  split; intros c e; (split; [|intros <-; by destruct e]).
  all: unfold TransportError.from_code, H2Error.from_code; repeat case_match; intros [= <-]; done.
Qed.

(** Crypto errors occupy their own code range, apart from the enum's. *)
Lemma crypto_error_disjoint a e :
  byte_ok a → TransportError.crypto_error a ≠ TransportError.to_code e.
Proof. unfold byte_ok, TransportError.crypto_error. destruct e; simpl; lia. Qed.
