(* ===== verification/Hoare.v ===== *)
(** * Weakest preconditions of stateful methods

    [wp X m Q R s]: run from [s], the method [m] either returns a value and a
    state that satisfy [Q], or an error and a state that satisfy [R]; it panics
    only if [X] holds.  The rules below follow the constructs the methods are
    written with, so that a method's proof is its specification read along its
    text.  [keeps P m] is the part of it that needs no precondition: what a call does
    not undo, however it ends. *)
From S2P Require Import Prelude Errors.

Definition wp {E S A} (X : Prop) (m : M E S A) (Q : A → S → Prop) (R : E → S → Prop) (s : S) : Prop :=
  match m s with (Ok a, s') => Q a s' | (Err e, s') => R e s' | (Panic, _) => X end.

Section rules.
Context {E S : Type} (X : Prop).
Implicit Types R : E → S → Prop.

Lemma wp_ret {A} (a : A) (Q : A → S → Prop) R s : Q a s → wp X (mret a) Q R s.
Proof. done. Qed.
Lemma wp_throw {A} e (Q : A → S → Prop) R s : R e s → wp X (throw e) Q R s.
Proof. done. Qed.
Lemma wp_bind {A B} (m : M E S A) (f : A → M E S B) Q R s :
  wp X m (λ a, wp X (f a) Q R) R s → wp X (m ≫= f) Q R s.
Proof. unfold wp, mbind, M_bind. by destruct (m s) as [[]]. Qed.
Lemma wp_get (Q : S → S → Prop) R s : Q s s → wp X get Q R s.
Proof. done. Qed.
Lemma wp_modify f (Q : unit → S → Prop) R s : Q tt (f s) → wp X (modify f) Q R s.
Proof. done. Qed.
Lemma wp_lift {A} (r : res E A) (Q : A → S → Prop) R s :
  match r with Ok a => Q a s | Err e => R e s | Panic => X end → wp X (lift r) Q R s.
Proof. unfold wp, lift. by destruct r. Qed.
Lemma wp_lift_ok {A} (r : res E A) a (Q : A → S → Prop) R s :
  r = Ok a → Q a s → wp X (lift r) Q R s.
Proof. by intros ->. Qed.
Lemma wp_mono {A} (m : M E S A) (Q Q' : A → S → Prop) R R' s :
  wp X m Q R s → (∀ a s', Q a s' → Q' a s') → (∀ e s', R e s' → R' e s') → wp X m Q' R' s.
Proof. unfold wp. destruct (m s) as [[]]; eauto. Qed.
Lemma wp_eq {A} (m : M E S A) a s s' (Q : A → S → Prop) R :
  m s = (Ok a, s') → Q a s' → wp X m Q R s.
Proof. unfold wp. by intros ->. Qed.
Lemma wp_eq_err {A} (m : M E S A) e s s' (Q : A → S → Prop) R :
  m s = (Err e, s') → R e s' → wp X m Q R s.
Proof. unfold wp. by intros ->. Qed.

End rules.

(** The straight-line steps. *)
Ltac wp_step :=
  lazymatch goal with
  | |- wp _ (_ ≫= _) _ _ _ => apply wp_bind
  | |- wp _ (mret _) _ _ _ => apply wp_ret
  | |- wp _ (throw _) _ _ _ => apply wp_throw
  | |- wp _ get _ _ _ => apply wp_get
  | |- wp _ (modify _) _ _ _ => apply wp_modify
  end.
Ltac wps := repeat wp_step; cbv beta.

(** Use the specification [H] of a call. *)
Tactic Notation "wp_use" uconstr(H) := eapply wp_mono; [eapply H|cbv beta|cbv beta].

(** ** Relations kept by a call

    [keeps P m]: the state before [m] is related by [P] to the state after it, whether
    it returns, fails or panics. *)
Definition keeps {S A} (P : S → S → Prop) (m : M Error S A) : Prop := ∀ s, P s (m s).2.

Create HintDb keeps.

Section rules.
Context {S : Type} (P : S → S → Prop) `{!PreOrder P}.

Lemma keeps_ret {A} (a : A) : keeps P (mret a).
Proof. intros s. reflexivity. Qed.
Lemma keeps_throw {A} e : keeps (A:=A) P (throw e).
Proof. intros s. reflexivity. Qed.
Lemma keeps_lift {A} (r : result A) : keeps P (lift r).
Proof. intros s. reflexivity. Qed.
Lemma keeps_get : keeps P get.
Proof. intros s. reflexivity. Qed.
Lemma keeps_modify f : (∀ s, P s (f s)) → keeps P (modify f).
Proof. intros H s. apply H. Qed.
Lemma keeps_bind {A B} (m : M Error S A) (f : A → M Error S B) :
  keeps P m → (∀ a, keeps P (f a)) → keeps P (m ≫= f).
Proof.
  intros Hm Hf s. specialize (Hm s). unfold mbind, M_bind.
  destruct (m s) as [[a|e|] s']; simpl in *; [|done..]. etrans; [exact Hm|apply Hf].
Qed.
(** The call after a look at the state may rely on what it saw. *)
Lemma keeps_get_look {A} (f : S → M Error S A) : (∀ s, P s (f s s).2) → keeps P (s ← get; f s).
Proof. intros Hf s. apply Hf. Qed.

End rules.

#[export] Hint Resolve keeps_ret keeps_throw keeps_lift keeps_get : keeps.

(** Along the text of a method. *)
Ltac keep_step :=
  lazymatch goal with
  | |- keeps _ (_ ≫= _) => apply keeps_bind; [apply _| |intros ?]
  | |- keeps _ (match ?x with _ => _ end) => destruct x eqn:?
  | |- keeps _ _ => solve [eauto with keeps typeclass_instances]
  end.
Ltac keep := intros; cbv zeta; repeat keep_step.
