(* ===== verification/Buf.v ===== *)
(** * Byte buffers: [src/buf.rs]

    [Buf<N>] holds at most [N] bytes, either in a [Vec] that grows on demand or
    in a caller-provided static slice, and can hide a tail of its contents:
    hidden bytes are invisible to every method but survive appends and
    front-drains, always abutting the visible end.  The contract of the type is
    the pair of byte lists (visible, hidden); both storages implement it, and
    no method touches bytes outside the logical length.

    The global allocator is a parameter: [grant n] says whether a request for a
    block of [n] bytes succeeds.  An infallible reservation that is refused
    aborts the program, which is a [Panic] here.

    Sums of two slice lengths are written with [+]: no slice is longer than
    [isize::MAX], so they cannot overflow [usize]. *)
From S2P Require Import Prelude Errors.

(** ** Slices and vectors of the standard library *)

(** [l.copy_within(a..b, dest)]. *)
Definition copy_within {E} (l : list Z) (a b dest : Z) : res E (list Z) :=
  if decide (0 ≤ a ≤ b ∧ b ≤ len l ∧ 0 ≤ dest ∧ dest + (b - a) ≤ len l)
  then Ok (take (Z.to_nat dest) l
           ++ take (Z.to_nat (b - a)) (drop (Z.to_nat a) l)
           ++ drop (Z.to_nat (dest + (b - a))) l)
  else Panic.

(** [l.rotate_left(k)]. *)
Definition rotate_left {E} (l : list Z) (k : Z) : res E (list Z) :=
  if decide (0 ≤ k ≤ len l) then Ok (drop (Z.to_nat k) l ++ take (Z.to_nat k) l) else Panic.

(** [Vec<u8>]: its elements and the size of its allocation. *)
Record vec := Vec { elems : list Z; vcap : Z }.
Global Instance vec_eta : Eta vec := λ v, Vec (elems v) (vcap v).
Definition vec_new : vec := Vec [] 0.

(** ** The buffer *)
Module Buf.

Inductive Storage : Type :=
| Heap (v : vec)
| Static (mem : list Z) (l : Z).

Record t := Mk { storage : Storage; hidden : Z }.
Global Instance eta_t : Eta t := λ b, Mk (storage b) (hidden b).

Section Buf.
Context `{Platform}.
(** The capacity bound, a const parameter of the type, and the allocator. *)
Variable N : Z.
Variable grant : Z → bool.

(** [Vec::try_reserve_exact] and [Vec::reserve_exact]. *)
Definition try_reserve_exact (additional : Z) : M unit vec unit := λ v,
  if decide (additional ≤ vcap v - len (elems v)) then (Ok tt, v)
  else if grant (len (elems v) + additional)
  then (Ok tt, v <| vcap := len (elems v) + additional |>)
  else (Err tt, v).
Definition reserve_exact {E} (additional : Z) (v : vec) : res E vec :=
  match try_reserve_exact additional v with (Ok _, v') => Ok v' | _ => Panic end.

(** [Vec::extend_from_slice]: amortised growth when the block is too small. *)
Definition vec_extend {E} (data : list Z) (v : vec) : res E vec :=
  let needed := len (elems v) + len data in
  if decide (needed ≤ vcap v) then Ok (v <| elems := elems v ++ data |>)
  else
    let target := Z.max (Z.max (2 * vcap v) needed) 8 in
    if grant target then Ok (Vec (elems v ++ data) target) else Panic.

(** [Vec::shrink_to_fit]. *)
Definition vec_shrink_to_fit {E} (v : vec) : res E vec :=
  if decide (vcap v ≤ len (elems v)) then Ok v
  else if decide (len (elems v) = 0) then Ok (v <| vcap := 0 |>)
  else if grant (len (elems v)) then Ok (v <| vcap := len (elems v) |>) else Panic.

Definition new : t := Mk (Heap vec_new) 0.

Definition from_static {E} (mem : list Z) : res E t :=
  if decide (N ≤ len mem) then Ok (Mk (Static mem 0) 0) else Panic.

Definition take_static (b : t) : option (list Z) * t :=
  match storage b with
  | Static mem _ => (Some mem, Mk (Heap vec_new) 0)
  | Heap _ => (None, b)
  end.

Definition phys_len (b : t) : Z :=
  match storage b with Heap v => len (elems v) | Static _ l => l end.

(** [self.phys_len() - self.hidden] on [usize]. *)
Definition blen {E} (b : t) : res E Z := usub (phys_len b) (hidden b).

Definition is_empty {E} (b : t) : res E bool := n ← blen b; mret (n =? 0).

Definition clear (b : t) : t :=
  Mk (match storage b with
      | Heap v => Heap (v <| elems := [] |>)
      | Static mem _ => Static mem 0
      end) 0.

Definition truncate {E} (n : Z) (b : t) : res E t :=
  vis ← blen b;
  if decide (vis ≤ n) then mret b
  else
    let h := hidden b in
    match storage b with
    | Heap v =>
        es ← (if decide (0 < h) then copy_within (elems v) vis (vis + h) n
              else mret (elems v));
        mret (b <| storage := Heap (v <| elems := take (Z.to_nat (n + h)) es |>) |>)
    | Static mem _ =>
        mem' ← (if decide (0 < h) then copy_within mem vis (vis + h) n else mret mem);
        mret (b <| storage := Static mem' (n + h) |>)
    end.

Definition hide_tail {E} (n : Z) (b : t) : res E t :=
  vis ← blen b;
  if decide (n ≤ vis) then mret (b <| hidden := hidden b + n |>) else Panic.

Definition unhide_tail (b : t) : Z * t := (hidden b, b <| hidden := 0 |>).

(** The amortised target, clamped to [N]. *)
Definition reserve_target (v : vec) (needed : Z) : Z :=
  Z.min (Z.max (Z.min (2 ^ usize_bits - 1) (2 * vcap v)) needed) N.

Definition reserve_clamped {E} (additional : Z) (b : t) : res E t :=
  match storage b with
  | Heap v =>
      let needed := len (elems v) + additional in
      if decide (needed ≤ vcap v) then mret b
      else
        extra ← usub (reserve_target v needed) (len (elems v));
        v' ← reserve_exact extra v;
        mret (b <| storage := Heap v' |>)
  | Static _ _ => mret b
  end.

Definition try_reserve (additional : Z) : M unit t unit := λ b,
  match storage b with
  | Heap v =>
      match usize_add (E:=unit) (len (elems v)) additional with
      | Ok needed =>
          if decide (needed ≤ vcap v) then (Ok tt, b)
          else
            match usub (E:=unit) (reserve_target v needed) (len (elems v)) with
            | Ok extra =>
                match try_reserve_exact extra v with
                | (Ok _, v') => (Ok tt, b <| storage := Heap v' |>)
                | (_, _) =>
                    match usub (E:=unit) needed (len (elems v)) with
                    | Ok exact =>
                        let '(r, v') := try_reserve_exact exact v in
                        (r, b <| storage := Heap v' |>)
                    | _ => (Panic, b)
                    end
                end
            | _ => (Panic, b)
            end
      | _ => (Panic, b)
      end
  | Static _ _ => (Ok tt, b)
  end.

Definition extend_from_slice (data : list Z) (b : t) : res unit t :=
  let h := hidden b in
  match storage b with
  | Heap _ =>
      if decide (N < phys_len b + len data) then Err tt
      else
        b1 ← reserve_clamped (len data) b;
        match storage b1 with
        | Heap v =>
            v1 ← vec_extend data v;
            if decide (0 < h ∧ data ≠ []) then
              vis ← (x ← usub (len (elems v1)) h; usub x (len data));
              tail ← slice_from (elems v1) vis;
              rotated ← rotate_left tail h;
              mret (b1 <| storage :=
                Heap (v1 <| elems := take (Z.to_nat vis) (elems v1) ++ rotated |>) |>)
            else mret (b1 <| storage := Heap v1 |>)
        | Static _ _ => mret b1
        end
  | Static mem l =>
      let cap := Z.min N (len mem) in
      if decide (cap < l + len data) then Err tt
      else
        vis ← usub l h;
        mem1 ← (if decide (0 < h ∧ data ≠ []) then copy_within mem vis l (vis + len data)
                else mret mem);
        mem2 ← copy_at mem1 vis (vis + len data) data;
        mret (b <| storage := Static mem2 (l + len data) |>)
  end.

Definition push (byte : Z) (b : t) : res Z t := map_err (λ _, byte) (extend_from_slice [byte] b).

Definition capacity (b : t) : Z := N.

Definition allocated_capacity (b : t) : Z :=
  match storage b with Heap v => vcap v | Static mem _ => len mem end.

Definition shrink_to_fit {E} (b : t) : res E t :=
  match storage b with
  | Heap v => v' ← vec_shrink_to_fit v; mret (b <| storage := Heap v' |>)
  | Static _ _ => mret b
  end.

Definition shrink_to {E} (min_capacity : Z) (b : t) : res E t :=
  match storage b with
  | Heap v =>
      if decide (vcap v ≤ min_capacity) then mret b
      else if decide (elems v = []) then mret (b <| storage := Heap vec_new |>)
      else
        match try_reserve_exact (Z.max (len (elems v)) min_capacity) vec_new with
        | (Ok _, smaller) =>
            smaller' ← vec_extend (elems v) smaller;
            mret (b <| storage := Heap smaller' |>)
        | (_, _) => mret b
        end
  | Static _ _ => mret b
  end.

Definition as_slice {E} (b : t) : res E (list Z) :=
  vis ← blen b;
  match storage b with
  | Heap v => slice (elems v) 0 vis
  | Static mem _ => slice mem 0 vis
  end.

(** A write through [as_mut_slice]: [f] maps the visible slice to its new
    contents, of the same length. *)
Definition with_mut_slice {E} (f : list Z → res E (list Z)) (b : t) : res E t :=
  vis ← blen b;
  match storage b with
  | Heap v =>
      s ← slice (elems v) 0 vis; s' ← f s;
      es ← copy_at (elems v) 0 vis s';
      mret (b <| storage := Heap (v <| elems := es |>) |>)
  | Static mem l =>
      s ← slice mem 0 vis; s' ← f s;
      mem' ← copy_at mem 0 vis s';
      mret (b <| storage := Static mem' l |>)
  end.

(** [Clone]: always a heap copy, hidden tail included; [Vec::from] allocates
    the exact size. *)
Definition clone {E} (b : t) : res E t :=
  let phys := phys_len b in
  contents ← match storage b with
             | Heap v => mret (elems v)
             | Static mem _ => slice mem 0 phys
             end;
  v ← reserve_exact (len contents) vec_new;
  mret (Mk (Heap (v <| elems := contents |>)) (hidden b)).

(** [BufExt for Buf<N>]. *)
Definition buf_extend_from_slice (data : list Z) (b : t) : res Error t :=
  n ← blen b;
  map_err (λ _, BufferTooSmall (n + len data)) (extend_from_slice data b).
Definition buf_push (byte : Z) (b : t) : res Error t :=
  n ← blen b;
  map_err (λ _, BufferTooSmall (n + 1)) (push byte b).
Definition buf_drain_front {E} (n : Z) (b : t) : res E t :=
  l ← blen b;
  b1 ← with_mut_slice (λ s, copy_within s n (len s) 0) b;
  l' ← usub l n;
  truncate l' b1.
Definition buf_try_reserve (additional : Z) : M Error t unit := λ b,
  let '(r, b') := try_reserve additional b in (map_err (λ _, OutOfMemory) r, b').


(** ** The contract *)

(** The abstract buffer: the visible bytes and the hidden tail. *)
Record view := View { visible : list Z; tail : list Z }.

(** [b] holds the visible bytes [visible v] followed by the hidden tail; what
    lies behind them in a static slice is arbitrary. *)
Definition Rep (b : t) (v : view) : Prop :=
  hidden b = len (tail v) ∧ len (visible v) + len (tail v) ≤ N ∧
  match storage b with
  | Heap w => elems w = visible v ++ tail v ∧ len (elems w) ≤ vcap w
  | Static mem l =>
      l = len (visible v) + len (tail v) ∧ N ≤ len mem ∧
      ∃ junk, mem = visible v ++ tail v ++ junk
  end.

(** The calls a client makes, with their outcome. *)
Inductive op : Type :=
| Extend (data : list Z)
| Push (byte : Z)
| Truncate (n : Z)
| DrainFront (n : Z)
| HideTail (n : Z)
| UnhideTail
| WriteAt (i byte : Z)
| ShrinkTo (min_capacity : Z)
| Clear.

(** What the type promises of each call. *)
Definition spec_step (o : op) (v : view) : res unit Z * view :=
  match o with
  | Extend data =>
      if decide (N < len (visible v) + len (tail v) + len data) then (Err tt, v)
      else (Ok 0, View (visible v ++ data) (tail v))
  | Push byte =>
      if decide (N < len (visible v) + len (tail v) + 1) then (Err tt, v)
      else (Ok 0, View (visible v ++ [byte]) (tail v))
  | Truncate n => (Ok 0, View (take (Z.to_nat n) (visible v)) (tail v))
  | DrainFront n =>
      if decide (n ≤ len (visible v))
      then (Ok 0, View (drop (Z.to_nat n) (visible v)) (tail v)) else (Panic, v)
  | HideTail n =>
      if decide (n ≤ len (visible v)) then
        let k := (length (visible v) - Z.to_nat n)%nat in
        (Ok 0, View (take k (visible v)) (drop k (visible v) ++ tail v))
      else (Panic, v)
  | UnhideTail => (Ok (len (tail v)), View (visible v ++ tail v) [])
  | WriteAt i byte =>
      if decide (i < len (visible v))
      then (Ok 0, View (<[Z.to_nat i := byte]> (visible v)) (tail v)) else (Panic, v)
  | ShrinkTo _ => (Ok 0, v)
  | Clear => (Ok 0, View [] [])
  end.

(** What the code does; the buffer is unchanged when a call fails. *)
Definition outcome (b : t) (m : res unit t) : res unit Z * t :=
  match m with Ok b' => (Ok 0, b') | Err e => (Err e, b) | Panic => (Panic, b) end.
Definition step (o : op) (b : t) : res unit Z * t :=
  match o with
  | Extend data => outcome b (extend_from_slice data b)
  | Push byte => outcome b (map_err (λ _, tt) (push byte b))
  | Truncate n => outcome b (truncate n b)
  | DrainFront n => outcome b (buf_drain_front n b)
  | HideTail n => outcome b (hide_tail n b)
  | UnhideTail => let '(n, b') := unhide_tail b in (Ok n, b')
  | WriteAt i byte => outcome b (with_mut_slice (λ s, set_idx s i byte) b)
  | ShrinkTo c => outcome b (shrink_to c b)
  | Clear => (Ok 0, clear b)
  end.

(** A program of calls, stopped by its first panic. *)
Fixpoint run_ops {B} (f : op → B → res unit Z * B) (os : list op) (b : B) :
    list (res unit Z) * B :=
  match os with
  | [] => ([], b)
  | o :: os' =>
      match f o b with
      | (Panic, b') => ([Panic], b')
      | (r, b') => let '(rs, b'') := run_ops f os' b' in (r :: rs, b'')
      end
  end.

(** The arguments are [usize] values. *)
Definition op_ok (o : op) : Prop :=
  match o with
  | Truncate n | DrainFront n | HideTail n | WriteAt n _ | ShrinkTo n => 0 ≤ n
  | _ => True
  end.

(** Growing cannot abort: static storage never allocates. *)
Definition infallible (b : t) : Prop :=
  match storage b with Heap _ => ∀ n, grant n = true | Static _ _ => True end.

(** [n] more bytes fit without a call to the allocator. *)
Definition spare (b : t) (n : Z) : Prop :=
  match storage b with Heap v => len (elems v) + n ≤ vcap v | Static _ _ => True end.

(** *** The storage operations on the representation *)

Lemma copy_within_front {E} (l : list Z) n :
  0 ≤ n ≤ len l →
  copy_within (E:=E) l n (len l) 0 =
    Ok (drop (Z.to_nat n) l ++ drop (length l - Z.to_nat n) l).
Proof.
  intros. unfold copy_within. rewrite decide_True by lia. f_equal.
  replace (Z.to_nat 0) with 0%nat by lia. simpl. f_equal; [|f_equal; lia].
  apply take_ge. len_lia.
Qed.

(** Moving the block [mid] to [dest], over what lies there. *)
Lemma copy_within_block {E} (pre mid post : list Z) a b dest :
  a = len pre → b = len pre + len mid → 0 ≤ dest → dest + len mid ≤ len (pre ++ mid ++ post) →
  copy_within (E:=E) (pre ++ mid ++ post) a b dest =
    Ok (take (Z.to_nat dest) (pre ++ mid ++ post) ++ mid
        ++ drop (Z.to_nat dest + length mid) (pre ++ mid ++ post)).
Proof.
  intros -> -> ??. unfold copy_within. rewrite decide_True by len_lia. f_equal. f_equal.
  rewrite Nat2Z.id, drop_app_length. f_equal; [|f_equal; lia].
  replace (Z.to_nat _) with (length mid) by lia. apply take_app_length.
Qed.

Lemma copy_within_end {E} (pre mid : list Z) a b dest :
  a = len pre → b = len pre + len mid → 0 ≤ dest ≤ len pre →
  copy_within (E:=E) (pre ++ mid) a b dest =
    Ok (take (Z.to_nat dest) pre ++ mid ++ drop (Z.to_nat dest + length mid) (pre ++ mid)).
Proof.
  intros ???. pose proof (copy_within_block (E:=E) pre mid [] a b dest) as Hc.
  rewrite app_nil_r in Hc. rewrite Hc by len_lia. by rewrite take_app_le by lia.
Qed.

(** The two shapes of a represented buffer. *)
Lemma Rep_cases b v :
  Rep b v ↔
  len (visible v) + len (tail v) ≤ N ∧
  ((∃ c, b = Mk (Heap (Vec (visible v ++ tail v) c)) (len (tail v)) ∧
         len (visible v) + len (tail v) ≤ c) ∨
   (∃ junk, b = Mk (Static (visible v ++ tail v ++ junk) (len (visible v) + len (tail v)))
                  (len (tail v)) ∧ N ≤ len (visible v) + len (tail v) + len junk)).
Proof.
  destruct b as [[[es c]|mem l] h]; unfold Rep; simpl. all: split.
  - intros (-> & ? & -> & Hc). split; [done|]. left. exists c. split; [done|]. len_lia.
  - intros (? & [(c' & [= -> -> ->] & ?)|(junk & [=] & _)]). repeat split; try done. len_lia.
  - intros (-> & ? & -> & ? & junk & ->). split; [done|]. right. exists junk. split; [done|]. len_lia.
  - intros (? & [(c' & [=] & ?)|(junk & [= -> -> ->] & ?)]). repeat split; try done; [len_lia|eauto].
Qed.

Ltac rep_cases H :=
  apply Rep_cases in H as (? & [(? & -> & ?)|(? & -> & ?)]); simpl in *.

Ltac buf_lia := simpl in *; len_lia.

Lemma Rep_heap vs hs c :
  len vs + len hs ≤ N → len vs + len hs ≤ c → Rep (Mk (Heap (Vec (vs ++ hs) c)) (len hs)) (View vs hs).
Proof. intros. apply Rep_cases. eauto 10. Qed.
Lemma Rep_static vs hs junk l :
  len vs + len hs ≤ N → N ≤ len vs + len hs + len junk → l = len vs + len hs →
  Rep (Mk (Static (vs ++ hs ++ junk) l) (len hs)) (View vs hs).
Proof. intros ?? ->. apply Rep_cases. eauto 10. Qed.

Lemma Rep_blen {E} b v : Rep b v → blen (E:=E) b = Ok (len (visible v)).
Proof.
  intros Hr. rep_cases Hr; unfold blen, phys_len; simpl; rewrite usub_ok by len_lia; f_equal; len_lia.
Qed.

Lemma Rep_truncate {E} n b v :
  Rep b v → 0 ≤ n →
  ∃ b', truncate (E:=E) n b = Ok b' ∧ Rep b' (View (take (Z.to_nat n) (visible v)) (tail v)).
Proof.
  intros Hr Hn. unfold truncate. rewrite (Rep_blen b v Hr). simpl.
  destruct (decide (len (visible v) ≤ n)).
  { exists b. split; [done|]. rewrite take_ge by lia. by destruct v. }
  destruct v as [vs hs]. rep_cases Hr.
  all: case_decide; [|destruct hs; [|simpl in *; lia]].
  - rewrite copy_within_end by len_lia. simpl. eexists; split; [done|].
    rewrite app_assoc, take_app_length' by len_lia. apply Rep_heap; buf_lia.
  - simpl. eexists; split; [done|]. rewrite app_nil_r.
    unfold update; simpl. rewrite <- (app_nil_r (take _ vs)).
    rewrite Z.add_0_r. apply (Rep_heap _ []); buf_lia.
  - rewrite copy_within_block by len_lia. simpl. eexists; split; [done|].
    rewrite take_app_le by len_lia. apply Rep_static; len_lia.
  - simpl. eexists; split; [done|]. unfold update; simpl.
    rewrite <- (take_drop (Z.to_nat n) vs) at 1. rewrite <- app_assoc.
    apply (Rep_static _ []); len_lia.
Qed.


Lemma slice_prefix {E} (l post : list Z) b : b = len l → slice (E:=E) (l ++ post) 0 b = Ok l.
Proof. intros ->. by apply (slice_middle []). Qed.

Lemma copy_at_prefix {E} (l post src : list Z) b :
  b = len l → length src = length l → copy_at (E:=E) (l ++ post) 0 b src = Ok (src ++ post).
Proof.
  intros -> Hl. rewrite copy_at_eq by len_lia. simpl. by rewrite Nat2Z.id, drop_app_length.
Qed.

Lemma with_mut_slice_Rep {E} (f : list Z → res E (list Z)) b v s' :
  Rep b v → f (visible v) = Ok s' → length s' = length (visible v) →
  ∃ b', with_mut_slice f b = Ok b' ∧ Rep b' (View s' (tail v)).
Proof.
  intros Hr Hf Hlen. unfold with_mut_slice. rewrite (Rep_blen b v Hr). simpl.
  destruct v as [vs hs]. rep_cases Hr.
  all: rewrite slice_prefix by done; simpl; rewrite Hf; simpl.
  all: rewrite copy_at_prefix by done; simpl; eexists; split; [done|].
  - apply Rep_heap; buf_lia.
  - apply Rep_static; buf_lia.
Qed.

Lemma Rep_drain_front {E} n b v :
  Rep b v → 0 ≤ n ≤ len (visible v) →
  ∃ b', buf_drain_front (E:=E) n b = Ok b' ∧
        Rep b' (View (drop (Z.to_nat n) (visible v)) (tail v)).
Proof.
  intros Hr Hn. unfold buf_drain_front. rewrite (Rep_blen b v Hr). simpl.
  set (f := λ s : list Z, copy_within s n (len s) 0).
  destruct (with_mut_slice_Rep (E:=E) f b v _ Hr (copy_within_front _ n Hn)) as (b1 & -> & Hr1);
    [len_lia|]. simpl.
  rewrite usub_ok by lia. simpl.
  destruct (Rep_truncate (E:=E) (len (visible v) - n) _ _ Hr1) as (b2 & -> & Hr2); [lia|].
  eexists; split; [done|]. simpl in Hr2. by rewrite take_app_length' in Hr2 by len_lia.
Qed.

(** Past its end a buffer cannot be drained. *)
Lemma drain_front_panics {E} n b v :
  Rep b v → len (visible v) < n → buf_drain_front (E:=E) n b = Panic.
Proof.
  intros Hr Hn. unfold buf_drain_front. rewrite (Rep_blen b v Hr). simpl.
  unfold with_mut_slice. rewrite (Rep_blen b v Hr). simpl.
  destruct v as [vs hs]. rep_cases Hr.
  all: rewrite slice_prefix by done; simpl; unfold copy_within;
    by rewrite decide_False by len_lia.
Qed.


Lemma reserve_target_ge v needed :
  0 ≤ vcap v → needed ≤ N → needed ≤ reserve_target v needed.
Proof. unfold reserve_target. lia. Qed.

Lemma reserve_clamped_heap {E} es c h k :
  0 ≤ k → len es + k ≤ N → 0 ≤ c →
  len es + k ≤ c ∨ (∀ n, grant n = true) →
  ∃ c', reserve_clamped (E:=E) k (Mk (Heap (Vec es c)) h) = Ok (Mk (Heap (Vec es c')) h) ∧
        len es + k ≤ c' ∧ c ≤ c'.
Proof.
  intros Hk HN Hc Hg. unfold reserve_clamped; simpl. case_decide; [eauto with lia|].
  destruct Hg as [|Hg]; [lia|].
  pose proof (reserve_target_ge (Vec es c) (len es + k) Hc HN).
  rewrite usub_ok by lia. simpl. unfold reserve_exact, try_reserve_exact. simpl.
  case_decide; simpl; [eexists; split; [done|lia]|].
  rewrite Hg. simpl. eexists; split; [done|]. simpl. lia.
Qed.

Lemma vec_extend_fits {E} data es c :
  len es + len data ≤ c → vec_extend (E:=E) data (Vec es c) = Ok (Vec (es ++ data) c).
Proof. intros. unfold vec_extend; simpl. by rewrite decide_True. Qed.

Lemma extend_err data b v :
  Rep b v → N < len (visible v) + len (tail v) + len data → extend_from_slice data b = Err tt.
Proof.
  intros Hr HN. destruct v as [vs hs]. unfold extend_from_slice, phys_len.
  rep_cases Hr; rewrite decide_True by (rewrite ?length_app; lia); done.
Qed.

(** Appending to a static slice: the hidden tail moves up first. *)
Lemma extend_static data vs hs junk h :
  h = len hs → len vs + len hs + len data ≤ N → N ≤ len vs + len hs + len junk →
  extend_from_slice data (Mk (Static (vs ++ hs ++ junk) (len vs + len hs)) h) =
  Ok (Mk (Static ((vs ++ data) ++ hs ++ drop (length data) junk)
                 (len vs + len hs + len data)) h).
Proof.
  intros -> HN Hj. unfold extend_from_slice; simpl. rewrite decide_False by len_lia.
  rewrite usub_ok by lia. simpl. replace (len vs + len hs - len hs) with (len vs) by lia.
  assert (Hmove : (if decide (0 < len hs ∧ data ≠ []) then
      copy_within (E:=unit) (vs ++ hs ++ junk) (len vs) (len vs + len hs) (len vs + len data)
    else mret (vs ++ hs ++ junk)) =
    Ok (vs ++ take (length data) (hs ++ junk) ++ hs ++ drop (length data) junk)).
  { case_decide as Hd.
    - rewrite copy_within_block by len_lia. f_equal.
      replace (Z.to_nat (len vs + len data)) with (length vs + length data)%nat by lia.
      rewrite take_app_add, <- app_assoc. do 3 f_equal.
      rewrite <- Nat.add_assoc, drop_app_add, drop_app. rewrite (drop_ge hs) by lia.
      simpl. f_equal. lia.
    - unfold mret, res_ret. do 2 f_equal.
      destruct data as [|x data]; [by rewrite take_0, drop_0|].
      destruct hs as [|y hs]; [by rewrite !app_nil_l, take_drop|].
      exfalso. apply Hd. split; [simpl; lia|done]. }
  rewrite Hmove. simpl. rewrite copy_at_app by len_lia. simpl.
  rewrite drop_app_length' by len_lia. done.
Qed.

(** Appending to a vector: the block is rotated behind the new bytes. *)
Lemma extend_heap data vs hs c h :
  h = len hs → len vs + len hs + len data ≤ N → len vs + len hs ≤ c →
  len vs + len hs + len data ≤ c ∨ (∀ n, grant n = true) →
  ∃ c', extend_from_slice data (Mk (Heap (Vec (vs ++ hs) c)) h) =
          Ok (Mk (Heap (Vec ((vs ++ data) ++ hs) c')) h) ∧ len vs + len hs + len data ≤ c' ∧ c ≤ c'.
Proof.
  intros -> HN Hc Hg. unfold extend_from_slice, phys_len; simpl.
  rewrite decide_False by len_lia.
  destruct (reserve_clamped_heap (E:=unit) (vs ++ hs) c (len hs) (len data)) as (c' & -> & Hc' & Hcc);
    [lia|len_lia|lia|rewrite length_app; destruct Hg; [left; lia|by right]|]. simpl.
  rewrite length_app in Hc'. rewrite vec_extend_fits by len_lia. simpl.
  exists c'. split; [|lia]. case_decide as Hd.
  - rewrite !usub_ok by len_lia. simpl. rewrite usub_ok by len_lia. simpl.
    replace (len ((vs ++ hs) ++ data) - len hs - len data) with (len vs) by len_lia.
    rewrite <- app_assoc, slice_from_app by done. simpl.
    unfold rotate_left. rewrite decide_True by len_lia. simpl.
    rewrite !Nat2Z.id, drop_app_length, !take_app_length. unfold update; simpl.
    by rewrite <- app_assoc.
  - unfold update; simpl. do 4 f_equal.
    destruct data as [|x data]; [by rewrite !app_nil_r|].
    destruct hs as [|y hs]; [by rewrite !app_nil_r|].
    exfalso. apply Hd. split; [simpl; lia|done].
Qed.

Lemma Rep_extend data b v :
  Rep b v → spare b (len data) ∨ infallible b →
  len (visible v) + len (tail v) + len data ≤ N →
  ∃ b', extend_from_slice data b = Ok b' ∧ Rep b' (View (visible v ++ data) (tail v)).
Proof.
  intros Hr Hs HN. destruct v as [vs hs]. rep_cases Hr.
  - destruct (extend_heap data vs hs x (len hs)) as (c' & -> & Hc' & _); [done|done|done| |].
    { unfold spare, infallible in Hs. simpl in Hs. rewrite length_app in Hs.
      destruct Hs; [left; lia|by right]. }
    eexists; split; [done|]. apply Rep_heap; buf_lia.
  - rewrite extend_static by (done || lia). eexists; split; [done|].
    apply Rep_static; buf_lia.
Qed.


(** Shrinking never aborts and keeps the contents, whatever the allocator does. *)
Lemma Rep_shrink_to {E} c b v :
  Rep b v → ∃ b', shrink_to (E:=E) c b = Ok b' ∧ Rep b' v.
Proof.
  intros Hr. destruct v as [vs hs]. rep_cases Hr; unfold shrink_to; simpl.
  2: { eexists; split; [done|]. by apply Rep_static. }
  case_decide; [eexists; split; [done|]; by apply Rep_heap|].
  case_decide as He.
  { apply app_nil in He as [-> ->]. eexists; split; [done|]. apply (Rep_heap [] []); buf_lia. }
  unfold try_reserve_exact. simpl. case_decide; [|destruct (grant _)]; simpl.
  - assert (0 < length (vs ++ hs))%nat by (destruct (vs ++ hs); [done|simpl; lia]). lia.
  - unfold update; simpl. rewrite vec_extend_fits by (simpl; lia). simpl.
    eexists; split; [done|]. apply Rep_heap; buf_lia.
  - eexists; split; [done|]. by apply Rep_heap.
Qed.

(** A reservation keeps the contents; when it is granted, the bytes asked for
    (up to the bound) fit without the allocator. *)
Lemma Rep_try_reserve n b v :
  Rep b v → 0 ≤ n → N + n < 2 ^ usize_bits →
  ∃ r b', try_reserve n b = (r, b') ∧ Rep b' v ∧
    (r = Ok tt ∧ (len (visible v) + len (tail v) + n ≤ N → spare b' n) ∨ r = Err tt).
Proof.
  intros Hr Hn HN. destruct v as [vs hs]. rep_cases Hr; unfold try_reserve; simpl.
  2: { do 2 eexists; split; [done|]. split; [by apply Rep_static|by left]. }
  rewrite usize_add_ok by len_lia. case_decide.
  { do 2 eexists; split; [done|]. split; [by apply Rep_heap|]. left. split; [done|].
    unfold spare; simpl. lia. }
  pose proof (reserve_target_ge (Vec (vs ++ hs) x) (len (vs ++ hs) + n)) as Ht. simpl in Ht.
  assert (len (vs ++ hs) ≤ reserve_target (Vec (vs ++ hs) x) (len (vs ++ hs) + n)).
  { unfold reserve_target. len_lia. }
  rewrite !usub_ok by lia. unfold try_reserve_exact. simpl.
  repeat case_decide; try (destruct (grant _); simpl).
  all: try (rewrite decide_False by lia).
  all: try (destruct (grant _); simpl).
  all: do 2 eexists; (split; [done|]); (split; [apply Rep_heap; buf_lia|]).
  all: first [by right | left; split; [done|]; unfold spare; buf_lia].
Qed.

Lemma Rep_clear b v : Rep b v → Rep (clear b) (View [] []).
Proof.
  intros (_ & HN & Hs). unfold Rep, clear; simpl. split; [done|]. split; [lia|].
  destruct (storage b); simpl; [split; [done|lia]|].
  split; [done|]. split; [apply Hs|]. eauto.
Qed.

(** Each call does what the contract says. *)
Lemma step_refines o b v :
  Rep b v → infallible b → op_ok o →
  (step o b).1 = (spec_step o v).1 ∧ Rep (step o b).2 (spec_step o v).2.
Proof.
  intros Hr Hi Ho.
  destruct o as [data|x|n|n|n| |j x|c|]; simpl in *; try case_decide as Hd; simpl.
  - by rewrite (extend_err _ _ _ Hr Hd).
  - destruct (Rep_extend data b v Hr) as (b' & -> & ?); [by right|lia|done].
  - unfold push. by rewrite (extend_err [x] _ _ Hr Hd).
  - unfold push. destruct (Rep_extend [x] b v Hr) as (b' & -> & ?); [by right|simpl; lia|done].
  - by destruct (Rep_truncate (E:=unit) n b v Hr Ho) as (b' & -> & ?).
  - by destruct (Rep_drain_front (E:=unit) n b v Hr) as (b' & -> & ?).
  - rewrite (drain_front_panics (E:=unit) n b v Hr) by lia. done.
  - unfold hide_tail. rewrite (Rep_blen b v Hr). simpl. rewrite decide_True by done. simpl.
    split; [done|]. destruct Hr as (Hh & HN & Hs). unfold Rep. simpl.
    rewrite !length_app, length_drop, length_take. split; [lia|]. split; [lia|].
    destruct (storage b); [by rewrite app_assoc, take_drop|].
    destruct Hs as (-> & ? & junk & ->). split; [lia|]. split; [done|]. exists junk.
    by rewrite !app_assoc, take_drop.
  - unfold hide_tail. rewrite (Rep_blen b v Hr). simpl. by rewrite decide_False by done.
  - destruct Hr as (Hh & HN & Hs). split; [by rewrite Hh|]. unfold Rep; simpl.
    rewrite length_app, app_nil_r. split; [done|]. split; [lia|].
    destruct (storage b); [done|].
    destruct Hs as (-> & ? & junk & ->). split; [lia|]. split; [done|]. exists junk.
    by rewrite <- app_assoc.
  - destruct (with_mut_slice_Rep (E:=unit) (λ s, set_idx s j x) b v _ Hr
      (set_idx_eq _ _ _ (conj Ho Hd))) as (b' & -> & ?); [len_lia|done].
  - unfold with_mut_slice. rewrite (Rep_blen b v Hr). simpl. split; [|].
    all: destruct v as [vs hs]; rep_cases Hr; rewrite slice_prefix by done; simpl;
      unfold set_idx; rewrite decide_False by lia; simpl; first [done|idtac].
    + by apply Rep_heap.
    + by apply Rep_static.
  - by destruct (Rep_shrink_to (E:=unit) c b v Hr) as (b' & -> & ?).
  - split; [done|]. by apply (Rep_clear b v).
Qed.


Lemma Rep_as_slice {E} b v : Rep b v → as_slice (E:=E) b = Ok (visible v).
Proof.
  intros Hr. unfold as_slice. rewrite (Rep_blen b v Hr). simpl. destruct v as [vs hs].
  rep_cases Hr; by apply slice_prefix.
Qed.

(** No call changes the kind of storage. *)
Definition is_static (b : t) : bool :=
  match storage b with Static _ _ => true | Heap _ => false end.

Lemma infallible_static b : infallible b ↔ is_static b = true ∨ (∀ n, grant n = true).
Proof. unfold infallible, is_static. destruct (storage b); naive_solver. Qed.

Lemma step_static o b : is_static b = true → is_static (step o b).2 = true.
Proof.
  destruct b as [[?|mem l] h]; [done|]. intros _.
  destruct o; unfold step, push, buf_drain_front, truncate, hide_tail, with_mut_slice,
    extend_from_slice, shrink_to, unhide_tail, outcome, clear, blen, map_err, usub;
    unfold mbind, res_bind, mret, res_ret; simpl;
    repeat (case_match; simpl in *; simplify_eq/=); done.
Qed.

Lemma step_infallible o b : infallible b → infallible (step o b).2.
Proof. rewrite !infallible_static. intros [?|?]; [left; by apply step_static|by right]. Qed.

(** Whole programs refine the contract. *)
Lemma run_refines os b v :
  Rep b v → infallible b → Forall op_ok os →
  (run_ops step os b).1 = (run_ops spec_step os v).1 ∧
  Rep (run_ops step os b).2 (run_ops spec_step os v).2.
Proof.
  intros Hr Hi Hos. revert b v Hr Hi. induction Hos as [|o os Ho _ IH]; intros b v Hr Hi; [done|].
  simpl. destruct (step_refines o b v Hr Hi Ho) as [Hs Hr'].
  pose proof (step_infallible o b Hi) as Hi'.
  destruct (step o b) as [r b'], (spec_step o v) as [r' v']; simpl in *; subst r'.
  destruct (IH b' v' Hr' Hi') as [Hrs Hr''].
  destruct (run_ops step os b'), (run_ops spec_step os v'); simpl in *; subst.
  by destruct r.
Qed.

Lemma Rep_new : 0 ≤ N → Rep new (View [] []).
Proof. intros. apply (Rep_heap [] []); simpl; lia. Qed.

Lemma Rep_from_static {E} mem b :
  0 ≤ N → from_static (E:=E) mem = Ok b → Rep b (View [] []) ∧ is_static b = true.
Proof.
  unfold from_static. intros ?. case_decide; intros [= <-]. split; [|done].
  apply (Rep_static [] []); simpl; lia.
Qed.

End Buf.

(** ** What the protocol layers rely on

    A buffer without a hidden tail, by its visible bytes. *)

(** The bytes the buffer dereferences to. *)
Definition vis (b : t) : list Z :=
  match storage b with
  | Heap v => take (Z.to_nat (len (elems v) - hidden b)) (elems v)
  | Static mem l => take (Z.to_nat (l - hidden b)) mem
  end.

Definition ok (N : Z) (b : t) : Prop := Rep N b (View (vis b) []).

Lemma Rep_vis N b v : Rep N b v → vis b = visible v.
Proof.
  intros Hr. apply Rep_cases in Hr as (? & [(? & -> & ?)|(? & -> & ?)]); unfold vis; simpl.
  all: apply take_app_length'; len_lia.
Qed.

Lemma Rep_ok N b l : Rep N b (View l []) → ok N b ∧ vis b = l.
Proof. intros Hr. pose proof (Rep_vis N b _ Hr) as Hv. unfold ok. by rewrite Hv. Qed.

Section client.
Context `{Platform} (N : Z) (grant : Z → bool).

Lemma ok_bound b : ok N b → len (vis b) ≤ N.
Proof. intros (_ & Hb & _). simpl in Hb. lia. Qed.

Lemma ok_new : 0 ≤ N → ok N new ∧ vis new = [].
Proof. intros. by apply Rep_ok, Rep_new. Qed.

Lemma ok_blen {E} b : ok N b → blen (E:=E) b = Ok (len (vis b)).
Proof. apply Rep_blen. Qed.

Lemma ok_as_slice {E} b : ok N b → as_slice (E:=E) b = Ok (vis b).
Proof. apply Rep_as_slice. Qed.

Lemma ok_clear b : 0 ≤ N → ok N b → ok N (clear b) ∧ vis (clear b) = [].
Proof. intros HN Hb. by apply Rep_ok, (Rep_clear N b _ Hb). Qed.

Lemma ok_truncate {E} n b :
  ok N b → 0 ≤ n → ∃ b', truncate (E:=E) n b = Ok b' ∧ ok N b' ∧ vis b' = take (Z.to_nat n) (vis b).
Proof.
  intros Hb Hn. destruct (Rep_truncate N (E:=E) n b _ Hb Hn) as (b' & ? & Hr).
  apply Rep_ok in Hr. eauto.
Qed.

Lemma ok_write {E} (f : list Z → res E (list Z)) b s' :
  ok N b → f (vis b) = Ok s' → length s' = length (vis b) →
  ∃ b', with_mut_slice f b = Ok b' ∧ ok N b' ∧ vis b' = s' ∧ ∀ n, spare b n → spare b' n.
Proof.
  intros Hb Hf Hl. destruct (with_mut_slice_Rep N f b _ s' Hb Hf Hl) as (b' & Hw & Hr).
  exists b'. split; [done|]. apply Rep_ok in Hr as [? ?]. split; [done|]. split; [done|].
  intros n. revert Hw. unfold with_mut_slice, spare. rewrite (ok_blen b Hb). simpl.
  destruct (storage b) as [v|mem l].
  - destruct (slice (E:=E) _ _ _) as [s| |]; [|done..]. simpl. destruct (f s) as [s2| |]; [|done..].
    simpl. unfold copy_at. case_decide; [|done]. intros [= <-].
    simpl. rewrite length_app, length_drop. lia.
  - destruct (slice (E:=E) _ _ _) as [s| |]; [|done..]. simpl. destruct (f s) as [s2| |]; [|done..].
    simpl. destruct (copy_at _ _ _ _); [|done..]. by intros [= <-].
Qed.

(** The drain of the connections: shift to the front, then truncate. *)
Lemma ok_drain {E} n b :
  ok N b → 0 ≤ n ≤ len (vis b) →
  ∃ b1 b2, with_mut_slice (E:=E) (λ s, copy_within s n (len s) 0) b = Ok b1 ∧
    blen (E:=E) b1 = Ok (len (vis b)) ∧ truncate (E:=E) (len (vis b) - n) b1 = Ok b2 ∧
    ok N b2 ∧ vis b2 = drop (Z.to_nat n) (vis b).
Proof.
  intros Hok Hn. set (f := λ s : list Z, copy_within s n (len s) 0).
  destruct (ok_write (E:=E) f b _ Hok (copy_within_front _ n Hn)) as (b1 & Hw & Hok1 & Hv1 & _); [len_lia|].
  assert (len (vis b1) = len (vis b)) as Hl1 by (rewrite Hv1; len_lia).
  destruct (ok_truncate (E:=E) (len (vis b) - n) b1 Hok1) as (b2 & Ht & Hok2 & Hv2); [lia|].
  exists b1, b2. split; [done|]. rewrite (ok_blen b1 Hok1), Hl1. split_and!; [done..|].
  rewrite Hv2, Hv1. apply take_app_length'. len_lia.
Qed.

Lemma ok_shrink_to {E} c b :
  ok N b → ∃ b', shrink_to grant (E:=E) c b = Ok b' ∧ ok N b' ∧ vis b' = vis b.
Proof.
  intros Hb. destruct (Rep_shrink_to N grant (E:=E) c b _ Hb) as (b' & ? & Hr).
  apply Rep_ok in Hr as [? ?]. eauto.
Qed.

(** Appending reserved bytes uses up the reservation. *)
Lemma ok_extend data b :
  ok N b → spare b (len data) → len (vis b) + len data ≤ N →
  ∃ b', extend_from_slice N grant data b = Ok b' ∧ ok N b' ∧ vis b' = vis b ++ data ∧
        ∀ n, spare b n → spare b' (n - len data).
Proof.
  intros Hb Hs HN. unfold ok in Hb. revert Hb Hs HN. generalize (vis b) as l. intros l Hb.
  apply Rep_cases in Hb as (? & [(c & -> & ?)|(junk & -> & ?)]); simpl in *;
    unfold spare; simpl; rewrite ?length_app; simpl; intros Hs HN;
    change (Z.of_nat 0) with 0 in *.
  - destruct (extend_heap N grant data l [] c 0) as (c' & He & Hc' & ?);
      [done|simpl; lia|simpl; lia|left; simpl; lia|].
    simpl in He. rewrite He. eexists; split; [done|].
    apply and_assoc; split; [apply Rep_ok, (Rep_heap N _ []); simpl; len_lia|].
    simpl. intros n Hn. len_lia.
  - pose proof (extend_static N grant data l [] junk 0) as He. simpl in He.
    change (Z.of_nat 0) with 0 in He.
    rewrite He by (done || lia). eexists; split; [done|]. apply and_assoc; split; [|done].
    apply Rep_ok, (Rep_static N _ []); simpl; len_lia.
Qed.

Lemma ok_extend_err data b :
  ok N b → N < len (vis b) + len data → extend_from_slice N grant data b = Err tt.
Proof. intros Hb HN. apply (extend_err N grant data b _ Hb). simpl. lia. Qed.

Lemma ok_try_reserve n b :
  ok N b → 0 ≤ n → N + n < 2 ^ usize_bits →
  ∃ r b', buf_try_reserve N grant n b = (r, b') ∧ ok N b' ∧ vis b' = vis b ∧
    (r = Ok tt ∧ (len (vis b) + n ≤ N → spare b' n) ∨ r = Err OutOfMemory).
Proof.
  intros Hb Hn HN. unfold buf_try_reserve.
  destruct (Rep_try_reserve N grant n b _ Hb Hn HN) as (r & b' & -> & Hr & Hc).
  apply Rep_ok in Hr as [? ?]. do 2 eexists. split; [done|]. split; [done|]. split; [done|].
  destruct Hc as [[-> Hsp]| ->]; [left|by right]. split; [done|]. intros. apply Hsp. simpl. lia.
Qed.

(** Out of memory is the allocator's refusal. *)
Lemma oom_refused n b :
  (buf_try_reserve N grant n b).1 = Err OutOfMemory → ∃ k, grant k = false.
Proof.
  assert (∀ k v, (try_reserve_exact grant k v).1 = Err tt → ∃ k, grant k = false) as Hx.
  { intros k v. unfold try_reserve_exact. case_decide; [done|].
    destruct (grant _) eqn:Hg; [done|]. by eexists. }
  unfold buf_try_reserve, try_reserve. destruct (storage b) as [v|]; [|done].
  destruct (usize_add _ _); [|done..]. case_decide; [done|].
  destruct (usub _ _) as [extra| |]; [|done..]. destruct (try_reserve_exact grant extra v) as [[] ?]; [done|..].
  all: destruct (usub _ _) as [exact| |]; [|done..].
  all: destruct (try_reserve_exact grant exact v) as [[|[]|] ?] eqn:Hr; [done| |done].
  all: intros _; apply (Hx exact v); by rewrite Hr.
Qed.

Lemma spare_le b m n : spare b n → m ≤ n → spare b m.
Proof. unfold spare. destruct (storage b); [lia|done]. Qed.

End client.

(** C34: The two storages cannot be told apart.  Any program of calls on a
    [Buf<N>], started empty on the heap and started empty on a static slice,
    returns the same outcome at every call (capacity errors, revealed counts
    and panics included) and leaves the same visible bytes, as long as the
    allocator grants what the heap variant asks for. *)
Theorem buf_storages_equivalent `{Platform} N grant mem bs os :
  0 ≤ N → (∀ n, grant n = true) → from_static (E:=Error) N mem = Ok bs → Forall op_ok os →
  (run_ops (step N grant) os new).1 = (run_ops (step N grant) os bs).1 ∧
  as_slice (E:=Error) (run_ops (step N grant) os new).2 =
    as_slice (run_ops (step N grant) os bs).2.
Proof.
  intros HN Hg Hbs Hos.
  destruct (Rep_from_static N mem bs HN Hbs) as [Hr Hst].
  destruct (run_refines N grant os new (View [] [])) as [Ho1 Hr1];
    [by apply Rep_new|done|done|].
  destruct (run_refines N grant os bs (View [] [])) as [Ho2 Hr2];
    [done|apply infallible_static; by left|done|].
  split; [congruence|].
  by rewrite (Rep_as_slice N _ _ Hr1), (Rep_as_slice N _ _ Hr2).
Qed.

Definition demo_ops : list op :=
  [Extend [1; 2; 3; 4; 5]; HideTail 2; DrainFront 1; Extend [9; 8]; Push 7; Truncate 3;
   UnhideTail; Extend [1; 1; 1; 1]; WriteAt 0 42; ShrinkTo 4].

Lemma buf_storages_equivalent_witness :
  (run_ops (step (H := platform64) 8 (λ _, true)) demo_ops new).1 =
    [Ok 0; Ok 0; Ok 0; Ok 0; Ok 0; Ok 0; Ok 2; Err tt; Ok 0; Ok 0] ∧
  (run_ops (step (H := platform64) 8 (λ _, true)) demo_ops new).1 =
    (run_ops (step (H := platform64) 8 (λ _, true)) demo_ops
      (Mk (Static (replicate 10 0) 0) 0)).1.
Proof.
  split; [reflexivity|].
  apply (@buf_storages_equivalent platform64 8 (λ _, true) (replicate 10 0)
    (Mk (Static (replicate 10 0) 0) 0) demo_ops); [lia|done|reflexivity|].
  repeat constructor; simpl; lia.
Defined.

(** Reserving makes appending safe.  Once [try_reserve n] has succeeded,
    appending at most [n] bytes within the bound succeeds even if the
    allocator refuses every later request, so code that reserves first never
    aborts on memory exhaustion; the new bytes land behind the visible ones
    and the hidden tail is untouched.  When [try_reserve] fails the contents
    are unchanged. *)
Theorem buf_reserve_then_extend `{Platform} N grant n b v data :
  Rep N b v → 0 ≤ n → N + n < 2 ^ usize_bits → len data ≤ n →
  len (visible v) + len (tail v) + len data ≤ N → 
  match try_reserve N grant n b with
  | (Ok _, b1) =>
      len (visible v) + len (tail v) + n ≤ N →
      ∃ b2, extend_from_slice N (λ _, false) data b1 = Ok b2 ∧
            Rep N b2 (View (visible v ++ data) (tail v))
  | (Err _, b1) => Rep N b1 v
  | (Panic, _) => False
  end.
Proof.
  intros Hr Hn HN Hd Hroom.
  destruct (Rep_try_reserve N grant n b v Hr Hn HN) as (r & b1 & -> & Hr1 & [[-> Hsp]| ->]); [|done].
  intros Hfit. apply Rep_extend; [done| |lia]. left.
  specialize (Hsp Hfit). unfold spare in *. destruct (storage b1); [lia|done].
Qed.

End Buf.
