(* ===== verification/Varint.v ===== *)
(** * QUIC variable-length integers: [src/varint.rs]

    [varint_len], [decode_varint] and [encode_varint], the wire form
    [varint_wire] they are specified against, and the facts the frame and
    packet codecs use. *)
From S2P Require Import Prelude Errors.

Definition MAX_VARINT : Z := Z.shiftl 1 62 - 1.

Definition varint_len (value : Z) : Z :=
  if value <=? 63 then 1
  else if value <=? 16383 then 2
  else if value <=? 1073741823 then 4
  else 8.

Definition decode_varint (buf : list Z) : result (Z * Z) :=
  if len buf =? 0 then Err (BufferTooSmall 1) else
  first ← idx buf 0;
  let n := Z.shiftl 1 (Z.shiftr first 6) in
  if len buf <? n then Err (BufferTooSmall n) else
  value ← match n with
    | 1 => Ok (Z.land first 0x3f)
    | 2 => b1 ← idx buf 1; Ok (be_val [Z.land first 0x3f; b1])
    | 4 => b1 ← idx buf 1; b2 ← idx buf 2; b3 ← idx buf 3;
           Ok (be_val [Z.land first 0x3f; b1; b2; b3])
    | 8 => b1 ← idx buf 1; b2 ← idx buf 2; b3 ← idx buf 3; b4 ← idx buf 4;
           b5 ← idx buf 5; b6 ← idx buf 6; b7 ← idx buf 7;
           Ok (be_val [Z.land first 0x3f; b1; b2; b3; b4; b5; b6; b7])
    | _ => Panic
    end;
  Ok (value, n).

(** [buf[i] = bytes[i]]. *)
Definition store_byte (bytes : list Z) (i : Z) : M Error (list Z) unit :=
  b ← lift (idx bytes i); store i b.

Definition encode_varint (value : Z) : M Error (list Z) Z :=
  if MAX_VARINT <? value then throw (Transport TransportError.InternalError) else
  let n := varint_len value in
  l ← buf_len;
  if l <? n then throw (BufferTooSmall n) else
  _ ← match n with
    | 1 => store 0 (trunc 8 value)
    | 2 => let bytes := be_bytes 2 (trunc 16 value) in
           b0 ← lift (idx bytes 0); _ ← store 0 (Z.lor b0 0x40);
           store_byte bytes 1
    | 4 => let bytes := be_bytes 4 (trunc 32 value) in
           b0 ← lift (idx bytes 0); _ ← store 0 (Z.lor b0 0x80);
           _ ← store_byte bytes 1; _ ← store_byte bytes 2; store_byte bytes 3
    | 8 => let bytes := be_bytes 8 value in
           b0 ← lift (idx bytes 0); _ ← store 0 (Z.lor b0 0xc0);
           _ ← store_byte bytes 1; _ ← store_byte bytes 2; _ ← store_byte bytes 3;
           _ ← store_byte bytes 4; _ ← store_byte bytes 5; _ ← store_byte bytes 6;
           store_byte bytes 7
    | _ => lift Panic
    end;
  mret n.

(** ** Specification *)

(** The two high bits of the first byte for an [n]-byte encoding. *)
Definition varint_tag (n : Z) : Z :=
  match n with 1 => 0 | 2 => 1 | 4 => 2 | _ => 3 end.

(** The wire form of [v] in RFC 9000's table: the tag and the value share a
    big-endian integer of [varint_len v] bytes. *)
Definition varint_wire (v : Z) : list Z :=
  let n := varint_len v in
  be_bytes (Z.to_nat n) (v + varint_tag n * 2 ^ (8 * n - 2)).

Definition varint_ok (v : Z) : Prop := 0 ≤ v ≤ MAX_VARINT.

Lemma varint_ok_const v : bool_decide (0 ≤ v ≤ MAX_VARINT) = true → varint_ok v.
Proof. by intros H%bool_decide_eq_true. Qed.

Lemma MAX_VARINT_eq : MAX_VARINT = 4611686018427387903.
Proof. reflexivity. Qed.

Global Arguments varint_wire : simpl never.
Global Arguments varint_len : simpl never.

Lemma varint_len_cases v :
  (v ≤ 63 ∧ varint_len v = 1) ∨ (63 < v ≤ 16383 ∧ varint_len v = 2) ∨
  (16383 < v ≤ 1073741823 ∧ varint_len v = 4) ∨ (1073741823 < v ∧ varint_len v = 8).
Proof. unfold varint_len. case_tests; lia. Qed.

Lemma len_varint_wire v : len (varint_wire v) = varint_len v.
Proof.
  unfold varint_wire. rewrite length_be_bytes.
  destruct (varint_len_cases v) as [[_ ->]|[[_ ->]|[[_ ->]|[_ ->]]]]; done.
Qed.

Lemma bytes_ok_varint_wire v : bytes_ok (varint_wire v).
Proof. apply bytes_ok_be_bytes. Qed.
#[export] Hint Resolve bytes_ok_varint_wire : rust.

(** Tagging the top two bits of a big-endian integer touches only its head. *)
Lemma be_bytes_tag n t v :
  0 ≤ t < 4 → 0 ≤ v < 64 * 256 ^ Z.of_nat n →
  be_bytes (S n) (v + t * (64 * 256 ^ Z.of_nat n)) =
  Z.lor (v / 256 ^ Z.of_nat n) (t * 64) :: be_bytes n v.
Proof.
  intros Ht Hv. assert (0 ≤ v / 256 ^ Z.of_nat n < 64) as Hq.
  { split; [apply Z.div_pos; lia|]. apply Z.div_lt_upper_bound; lia. }
  simpl. f_equal.
  - rewrite Z.mul_assoc, Z.div_add by lia. rewrite Z.mod_small by lia.
    rewrite Z.lor_comm, (lor_disjoint_add _ _ 6); try lia.
    change (2 ^ 6) with 64. by rewrite Z.mod_mul by lia.
  - rewrite <- (be_bytes_mod n n), Z.mul_assoc, Z.mod_add by lia.
    by apply be_bytes_mod.
Qed.

Lemma store_byte_eq bytes i b (l : list Z) :
  0 ≤ i < len l → bytes !! Z.to_nat i = Some b →
  store_byte bytes i l = (Ok tt, <[Z.to_nat i := b]> l).
Proof.
  intros. unfold store_byte, lift, mbind, M_bind. rewrite (idx_ok _ _ b) by (done || lia).
  by apply store_eq.
Qed.

(** Expose the first cells of a buffer known to be long enough. *)
Ltac explode buf n :=
  match n with
  | O => idtac
  | S ?m => let x := fresh "x" in
      destruct buf as [|x buf]; [exfalso; simpl in *; lia|]; explode buf m
  end.

(** Run straight-line stores whose bounds follow from the explicit cells. *)
Ltac run_stores :=
  repeat first
    [ rewrite M_bind_assoc
    | erewrite M_step_lift by reflexivity
    | erewrite M_step_ok by (first [ apply store_eq; len_lia
                                   | apply store_byte_eq; [len_lia|reflexivity] ])
    | rewrite store_eq by len_lia
    | erewrite store_byte_eq by (len_lia || reflexivity) ].

Lemma pow2_tagged n : 2 ^ (8 * Z.of_nat (S n) - 2) = 64 * 256 ^ Z.of_nat n.
Proof.
  replace (8 * Z.of_nat (S n) - 2) with (6 + 8 * Z.of_nat n) by lia.
  by rewrite Z.pow_add_r, (Z.pow_mul_r 2 8) by lia.
Qed.

Lemma varint_wire_tagged v n :
  varint_len v = Z.of_nat (S n) → 0 ≤ v < 64 * 256 ^ Z.of_nat n →
  varint_wire v = Z.lor (v / 256 ^ Z.of_nat n) (varint_tag (varint_len v) * 64) :: be_bytes n v.
Proof.
  intros E Hv. unfold varint_wire. rewrite <- be_bytes_tag by (unfold varint_tag; repeat case_match; lia).
  rewrite E at 1. rewrite Nat2Z.id. f_equal.
  by rewrite E, pow2_tagged.
Qed.

Lemma varint_quot_small v n :
  0 ≤ v < 64 * 256 ^ Z.of_nat n → (v / 256 ^ Z.of_nat n) mod 256 = v / 256 ^ Z.of_nat n.
Proof.
  intros. apply Z.mod_small. split; [apply Z.div_pos; lia|].
  apply Z.div_lt_upper_bound; lia.
Qed.

Lemma encode_varint_ok v buf :
  0 ≤ v ≤ MAX_VARINT → varint_len v ≤ len buf →
  encode_varint v buf = (Ok (varint_len v), varint_wire v ++ drop (Z.to_nat (varint_len v)) buf).
Proof.
  intros Hv Hl. unfold encode_varint.
  rewrite (proj2 (Z.ltb_ge _ _)) by lia.
  erewrite M_step_ok by reflexivity. rewrite (proj2 (Z.ltb_ge _ _)) by lia.
  change MAX_VARINT with 4611686018427387903 in Hv.
  destruct (varint_len_cases v) as [[Hr E]|[[Hr E]|[[Hr E]|[Hr E]]]].
  - rewrite (varint_wire_tagged v 0), E in * by (rewrite ?E; simpl Z.of_nat; lia).
    explode buf 1%nat. run_stores. rewrite trunc_small by (unfold uint; lia).
    znat. simpl. by rewrite Z.lor_0_r, Z.div_1_r.
  - rewrite (varint_wire_tagged v 1), E in * by (rewrite ?E; simpl Z.of_nat; lia).
    explode buf 2%nat. rewrite trunc_small by (unfold uint; lia). run_stores.
    znat. simpl. by rewrite (varint_quot_small v 1) by (simpl Z.of_nat; lia).
  - rewrite (varint_wire_tagged v 3), E in * by (rewrite ?E; simpl Z.of_nat; lia).
    explode buf 4%nat. rewrite trunc_small by (unfold uint; lia). run_stores.
    znat. simpl. by rewrite (varint_quot_small v 3) by (simpl Z.of_nat; lia).
  - rewrite (varint_wire_tagged v 7), E in * by (rewrite ?E; simpl Z.of_nat; lia).
    explode buf 8%nat. run_stores.
    znat. simpl. by rewrite (varint_quot_small v 7) by (simpl Z.of_nat; lia).
Qed.

(** ** Decoding *)

(** Masking the tag off the first byte is a reduction modulo [2^(8n-2)]. *)
Lemma be_val_untag b l :
  bytes_ok (b :: l) →
  be_val (Z.land b 0x3f :: l) = be_val (b :: l) mod (64 * 256 ^ len l).
Proof.
  intros Hl. inv Hl. pose proof (be_val_bound l ltac:(done)) as Hb. simpl.
  change 0x3f with (Z.ones 6). rewrite Z.land_ones by lia. change (2 ^ 6) with 64.
  rewrite (Z.mul_comm 64), Z.rem_mul_r by lia.
  rewrite (Z.add_comm (b * _)), Z.mod_add, Z.div_add by lia.
  rewrite (Z.mod_small (be_val l)), (Z.div_small (be_val l)), Z.add_0_l by lia. ring.
Qed.

(** The number of bytes announced by the first byte. *)
Definition announced (b : Z) : Z := 2 ^ (b / 64).

Lemma announced_cases b : byte_ok b →
  announced b = 1 ∨ announced b = 2 ∨ announced b = 4 ∨ announced b = 8.
Proof.
  unfold byte_ok, announced. intros.
  assert (b / 64 = 0 ∨ b / 64 = 1 ∨ b / 64 = 2 ∨ b / 64 = 3) as [->|[->|[->| ->]]] by div_lia; auto.
Qed.

Lemma decode_varint_eq b l :
  bytes_ok (b :: l) →
  decode_varint (b :: l) =
  let n := announced b in
  if decide (len (b :: l) < n) then Err (BufferTooSmall n)
  else Ok (be_val (take (Z.to_nat n) (b :: l)) mod 2 ^ (8 * n - 2), n).
Proof.
  intros Hl. cbn zeta. unfold decode_varint.
  rewrite (proj2 (Z.eqb_neq _ _)) by (simpl; lia).
  change (idx (b :: l) 0) with (Ok (E:=Error) b). cbn [mbind res_bind].
  rewrite Z.shiftr_div_pow2, Z.shiftl_1_l by lia. change (2 ^ 6) with 64.
  fold (announced b). unfold mbind, res_bind.
  assert (byte_ok b) as Hb by by inv Hl. 
  case_decide as Hs.
  { by rewrite (proj2 (Z.ltb_lt _ _)). }
  rewrite (proj2 (Z.ltb_ge _ _)) by lia.
  destruct (announced_cases b Hb) as [E|[E|[E|E]]]; rewrite E in *; znat.
  - change (2 ^ (8 * 1 - 2)) with (64 * 256 ^ len ([] : list Z)).
    replace (Z.land b 0x3f) with (be_val [Z.land b 0x3f]) by (simpl; lia).
    by rewrite (be_val_untag b []) by by constructor.
  - explode l 1%nat. repeat erewrite idx_ok by (lia || reflexivity).
    change (2 ^ (8 * 2 - 2)) with (64 * 256 ^ len [x]).
    rewrite (be_val_untag b [x]) by by apply (Forall_take _ 2) in Hl. done.
  - explode l 3%nat. repeat erewrite idx_ok by (lia || reflexivity).
    change (2 ^ (8 * 4 - 2)) with (64 * 256 ^ len [x; x0; x1]).
    rewrite (be_val_untag b [x; x0; x1]) by by apply (Forall_take _ 4) in Hl. done.
  - explode l 7%nat. repeat erewrite idx_ok by (lia || reflexivity).
    change (2 ^ (8 * 8 - 2)) with (64 * 256 ^ len [x; x0; x1; x2; x3; x4; x5]).
    rewrite (be_val_untag b [x; x0; x1; x2; x3; x4; x5]) by by apply (Forall_take _ 8) in Hl. done.
Qed.

Lemma decode_varint_wire v rest :
  0 ≤ v ≤ MAX_VARINT → bytes_ok rest →
  decode_varint (varint_wire v ++ rest) = Ok (v, varint_len v).
Proof.
  intros Hv Hr. change MAX_VARINT with 4611686018427387903 in Hv.
  assert (bytes_ok (varint_wire v ++ rest)) as Hok.
  { apply Forall_app. split; auto with rust. }
  pose proof (len_varint_wire v) as Hlen.
  assert (∃ n, varint_len v = Z.of_nat (S n) ∧ 0 ≤ v < 64 * 256 ^ Z.of_nat n ∧
               2 ^ varint_tag (varint_len v) = varint_len v ∧ 0 ≤ varint_tag (varint_len v) < 4)
    as (n & Hn & Hvn & Htag & Ht4).
  { destruct (varint_len_cases v) as [[Hr' ->]|[[Hr' ->]|[[Hr' ->]|[Hr' ->]]]];
      [exists 0%nat|exists 1%nat|exists 3%nat|exists 7%nat]; simpl Z.of_nat; simpl varint_tag; lia. }
  rewrite (varint_wire_tagged v n) in Hok, Hlen |- * by done.
  simpl app in Hok |- *. rewrite decode_varint_eq by done. cbn zeta.
  set (b := Z.lor _ _) in *.
  assert (b = varint_tag (varint_len v) * 64 + v / 256 ^ Z.of_nat n) as Hb.
  { unfold b. rewrite Z.lor_comm. apply (lor_disjoint_add _ _ 6); [lia| |].
    - by rewrite Z.mod_mul.
    - split; [apply Z.div_pos; lia|]. apply Z.div_lt_upper_bound; lia. }
  assert (announced b = varint_len v) as ->.
  { unfold announced. rewrite Hb, Z.div_add_l by lia.
    rewrite Z.div_small by (split; [apply Z.div_pos|apply Z.div_lt_upper_bound]; lia). by rewrite Z.add_0_r. }
  rewrite decide_False by len_lia. do 2 f_equal.
  rewrite Hn, pow2_tagged, Nat2Z.id. simpl take.
  rewrite take_app_le, take_ge by len_lia. simpl be_val.
  rewrite length_be_bytes, be_val_be_bytes, Hb.
  symmetry. apply (Z.mod_unique _ _ (varint_tag (varint_len v))); [lia|].
  pose proof (Z.div_mod v (256 ^ Z.of_nat n)). nia.
Qed.

(** What a successful decode of any byte string guarantees. *)
Lemma decode_varint_inv buf v n :
  bytes_ok buf → decode_varint buf = Ok (v, n) →
  0 ≤ v ≤ MAX_VARINT ∧ 1 ≤ n ≤ len buf ∧ n ≤ 8 ∧ varint_len v ≤ n.
Proof.
  intros Hok Hd. destruct buf as [|b l]; [done|].
  rewrite decode_varint_eq in Hd by done. cbn zeta in Hd.
  assert (byte_ok b) as Hb by by inv Hok. change MAX_VARINT with 4611686018427387903.
  destruct (announced_cases b Hb) as [E|[E|[E|E]]]; rewrite E in Hd; (case_decide; [done|]);
    injection Hd as Hv <-;
    match type of Hv with ?x mod ?k = _ => pose proof (Z.mod_pos_bound x k eq_refl) as Hr end;
    rewrite Hv in Hr; unfold varint_len; zpow; case_tests; lia.
Qed.

Lemma decode_varint_no_panic buf : bytes_ok buf → no_panic (decode_varint buf).
Proof.
  intros Hok. destruct buf; [done|].
  rewrite decode_varint_eq by done. cbn zeta. by case_decide.
Qed.
#[export] Hint Resolve decode_varint_no_panic : rust.

(** More input never changes a successful result. *)
Lemma decode_varint_app buf more v n :
  bytes_ok (buf ++ more) → decode_varint buf = Ok (v, n) → decode_varint (buf ++ more) = Ok (v, n).
Proof.
  intros Hok Hd. destruct buf as [|b l]; [done|].
  rewrite decode_varint_eq in Hd by by apply Forall_app in Hok as []. simpl app in *.
  rewrite decode_varint_eq by done. cbn zeta in *.
  case_decide; [done|]. injection Hd as Hv Hn. rewrite decide_False by len_lia.
  rewrite <- Hv, Hn. do 4 f_equal. apply (take_app_le (b :: l)). len_lia.
Qed.

(** The bytes past the announced length do not matter. *)
Lemma decode_varint_take buf v n :
  bytes_ok buf → decode_varint buf = Ok (v, n) →
  decode_varint (take (Z.to_nat n) buf) = Ok (v, n).
Proof.
  intros Hok Hd. destruct (decode_varint_inv _ _ _ Hok Hd) as (_ & Hn & _).
  destruct buf as [|b l]; [done|]. rewrite decode_varint_eq in Hd by done. cbn zeta in Hd.
  case_decide; [done|]. injection Hd as Hv Ha. rewrite Ha in *.
  destruct (Z.to_nat n) as [|k] eqn:Hk; [lia|]. simpl take.
  rewrite decode_varint_eq by (by apply (Forall_take _ (S k)) in Hok). cbn zeta.
  rewrite Ha, decide_False by len_lia. rewrite <- Hv, Hk. do 4 f_equal.
  apply (take_ge (b :: take k l)). len_lia.
Qed.

(** ** Properties *)

(** Encoding then decoding a varint is the identity.  For every value up to
    [MAX_VARINT] and every buffer with room, [encode_varint] writes exactly
    [varint_len] bytes and leaves the rest of the buffer alone, and
    [decode_varint] reads the value and that length back, whatever follows. *)
Theorem varint_roundtrip v buf :
  0 ≤ v ≤ MAX_VARINT → bytes_ok buf → varint_len v ≤ len buf →
  ∃ buf', encode_varint v buf = (Ok (varint_len v), buf') ∧
    decode_varint buf' = Ok (v, varint_len v) ∧
    decode_varint (take (Z.to_nat (varint_len v)) buf') = Ok (v, varint_len v) ∧
    drop (Z.to_nat (varint_len v)) buf' = drop (Z.to_nat (varint_len v)) buf ∧
    length buf' = length buf.
Proof.
  intros Hv Hok Hl. exists (varint_wire v ++ drop (Z.to_nat (varint_len v)) buf).
  pose proof (len_varint_wire v) as Hw.
  assert (Z.to_nat (varint_len v) = length (varint_wire v)) as Hn by lia.
  split_and!; [by apply encode_varint_ok| |..].
  - apply decode_varint_wire; [done|by apply Forall_drop].
  - rewrite take_app_le, take_ge by lia. rewrite <- (app_nil_r (varint_wire v)).
    by apply decode_varint_wire.
  - rewrite drop_app_le, drop_ge by lia. done.
  - len_lia.
Qed.

(** Decoding is total and bounded.  On any byte string [decode_varint]
    returns a value no larger than [MAX_VARINT] from at most [len buf] (and at
    most 8) bytes, no shorter than the value's own encoding, or reports that
    strictly more bytes than it was given are needed; it never panics and has
    no other error.  More input never changes a successful result. *)
Theorem varint_decode_total buf more :
  bytes_ok buf → bytes_ok more →
  match decode_varint buf with
  | Ok (v, n) => 0 ≤ v ≤ MAX_VARINT ∧ 1 ≤ n ≤ len buf ∧ varint_len v ≤ n ≤ 8 ∧
                 decode_varint (buf ++ more) = Ok (v, n)
  | Err e => ∃ k, e = BufferTooSmall k ∧ len buf < k
  | Panic => False
  end.
Proof.
  intros Hok Hm. destruct (decode_varint buf) as [[v n]|e|] eqn:Hd.
  - destruct (decode_varint_inv _ _ _ Hok Hd) as (?&?&?&?). split_and!; try lia.
    apply decode_varint_app; [by apply Forall_app|done].
  - destruct buf as [|b l]; [injection Hd as <-; exists 1; simpl; auto with lia|].
    rewrite decode_varint_eq in Hd by done. cbn zeta in Hd. case_decide; simplify_eq. eauto.
  - by apply decode_varint_no_panic in Hd.
Qed.

(** The failures of [encode_varint] are exactly a value beyond 62 bits
    ([InternalError]) and a short buffer, and neither touches the buffer. *)
Theorem varint_encode_error v buf :
  0 ≤ v →
  (MAX_VARINT < v → encode_varint v buf = (Err (Transport TransportError.InternalError), buf)) ∧
  (v ≤ MAX_VARINT → len buf < varint_len v →
     encode_varint v buf = (Err (BufferTooSmall (varint_len v)), buf)) ∧
  (is_ok (encode_varint v buf).1 = true ↔ v ≤ MAX_VARINT ∧ varint_len v ≤ len buf).
Proof.
  intros Hv. unfold encode_varint at 1 2. split_and!.
  - intros. by rewrite (proj2 (Z.ltb_lt _ _)).
  - intros. rewrite (proj2 (Z.ltb_ge _ _)) by lia. erewrite M_step_ok by reflexivity.
    by rewrite (proj2 (Z.ltb_lt _ _)).
  - destruct (decide (v ≤ MAX_VARINT ∧ varint_len v ≤ len buf)) as [[]|Hn].
    { rewrite encode_varint_ok; [done|lia|done]. }
    split; [|done]. unfold encode_varint. case_tests; [done|].
    erewrite M_step_ok by reflexivity. case_tests; [done|lia].
Qed.
