(* ===== verification/PacketNumber.v ===== *)
(** * Packet numbers: [src/packet/number.rs]

    Truncation of a packet number by the sender ([pn_length], [encode_pn]) and
    its reconstruction by the receiver ([decode_pn]). *)
From S2P Require Import Prelude Errors.

Definition pn_length (full_pn largest_acked : Z) : Z :=
  let num_unacked := if largest_acked <? full_pn then full_pn - largest_acked else 1 in
  if num_unacked <? Z.shiftl 1 7 then 1
  else if num_unacked <? Z.shiftl 1 15 then 2
  else if num_unacked <? Z.shiftl 1 23 then 3
  else 4.

Definition encode_pn (full_pn largest_acked : Z) : M Error (list Z) Z :=
  let n := pn_length full_pn largest_acked in
  l ← buf_len;
  if l <? n then throw (BufferTooSmall n) else
  let pn_bytes := be_bytes 8 full_pn in
  low ← lift (slice_from pn_bytes (8 - n));
  _ ← store_slice 0 n low;
  mret n.

Definition decode_pn (truncated_pn pn_len largest_pn : Z) : result Z :=
  let pn_nbits := pn_len * 8 in
  let pn_win := Z.shiftl 1 pn_nbits in
  let pn_hwin := pn_win / 2 in
  let pn_mask := pn_win - 1 in
  expected_pn ← uadd 64 largest_pn 1;
  let candidate_pn := Z.lor (Z.land expected_pn (u64_max - pn_mask)) truncated_pn in
  up ← uadd 64 candidate_pn pn_hwin;
  top ← (if up <=? expected_pn then uadd 64 candidate_pn pn_win else Ok 0);
  if (up <=? expected_pn) && (top <=? Z.shiftl 1 62) then uadd 64 candidate_pn pn_win
  else
    high ← uadd 64 expected_pn pn_hwin;
    if (high <? candidate_pn) && (pn_win <=? candidate_pn) then usub candidate_pn pn_win
    else Ok candidate_pn.

(** ** Lemmas *)

Lemma pn_length_range full la : 1 ≤ pn_length full la ≤ 4.
Proof. unfold pn_length. case_tests; lia. Qed.

(** The chosen width covers twice the number of unacknowledged packets. *)
Lemma pn_length_covers full la :
  la ≤ full → full - la < 2 ^ 31 → full - la < 2 ^ (8 * pn_length full la - 1).
Proof.
  intros. unfold pn_length. destruct (Z.ltb_spec la full).
  all: change (Z.shiftl 1 7) with 128; change (Z.shiftl 1 15) with 32768;
    change (Z.shiftl 1 23) with 8388608; case_tests; zpow; lia.
Qed.

(** Clearing the low [k] bits of a 64-bit value. *)
Lemma land_high_bits v k :
  0 ≤ k ≤ 64 → uint 64 v → Z.land v (u64_max - (2 ^ k - 1)) = v - v mod 2 ^ k.
Proof.
  intros Hk Hv. unfold uint in Hv.
  assert (v - v mod 2 ^ k = Z.ldiff v (Z.ones k)) as ->.
  { rewrite Z.ldiff_ones_r, Z.shiftr_div_pow2, Z.shiftl_mul_pow2 by lia.
    pose proof (Z.div_mod v (2 ^ k)). lia. }
  replace (u64_max - (2 ^ k - 1)) with (Z.ldiff (Z.ones 64) (Z.ones k)).
  2: { rewrite <- Z.sub_nocarry_ldiff; [by rewrite !Z.ones_equiv|].
       apply Z.bits_inj'. intros i Hi. rewrite Z.ldiff_spec, Z.bits_0, !Z.testbit_ones by lia. lia. }
  apply Z.bits_inj'. intros i Hi. rewrite Z.land_spec, !Z.ldiff_spec, !Z.testbit_ones by lia.
  destruct (Z.lt_ge_cases i 64).
  - rewrite (proj2 (Z.ltb_lt i 64)), (proj2 (Z.leb_le 0 i)) by lia. done.
  - replace (Z.testbit v i) with false; [done|]. symmetry.
    rewrite <- (Z.mod_small v (2 ^ 64)) by lia. by apply Z.mod_pow2_bits_high.
Qed.

(** [decode_pn] as a formula over the integers: the candidate that agrees with
    the expected packet number above the window, moved by one window when that
    is closer. *)
Lemma decode_pn_eq t n largest :
  1 ≤ n ≤ 4 → uint (8 * n) t → 0 ≤ largest < 2 ^ 62 →
  let win := 2 ^ (8 * n) in
  let e := largest + 1 in
  let c := e - e mod win + t in
  decode_pn t n largest = Ok (
    if (c + win / 2 <=? e) && (c + win <=? 2 ^ 62) then c + win
    else if (e + win / 2 <? c) && (win <=? c) then c - win
    else c).
Proof.
  intros Hn Ht Hl win e c. unfold uint in Ht. fold win in Ht.
  assert (0 < win ≤ 2 ^ 32) as Hw.
  { unfold win. split; [lia|]. apply Z.pow_le_mono_r; lia. }
  unfold decode_pn. rewrite !Z.shiftl_1_l, (Z.mul_comm n). fold win.
  unfold mbind, res_bind. rewrite uadd_ok by lia. cbn beta iota zeta. fold e.
  pose proof (land_high_bits e (8 * n) ltac:(lia) ltac:(unfold uint; lia)) as Hland.
  fold win in Hland. rewrite Hland.
  pose proof (Z.mod_pos_bound e win ltac:(lia)).
  rewrite (lor_disjoint_add _ _ (8 * n)); [|lia| |done].
  2: { fold win. rewrite Zminus_mod, Z.mod_mod, Z.sub_diag by lia. done. }
  fold c. assert (0 ≤ win / 2 ≤ win) by div_lia.
  assert (e mod win ≤ e) by (apply Z.mod_le; lia).
  assert (0 ≤ c < 2 ^ 62 + 2 ^ 33) by lia.
  rewrite !uadd_ok by lia. 
  destruct (Z.leb_spec (c + win / 2) e); cbn [andb].
  - destruct (Z.leb_spec (c + win) (2 ^ 62)); [done|].
    destruct (_ <? _) eqn:?; simpl; [lia|done].
  - destruct (e + win / 2 <? c); simpl; [|done].
    destruct (Z.leb_spec win c); [by rewrite usub_ok|done].
Qed.

(** Reconstruction: a packet number within half a window of the expected one
    is the only one with its low bits there. *)
Lemma decode_pn_window full n largest :
  1 ≤ n ≤ 4 → 0 ≤ full < 2 ^ 62 → 0 ≤ largest < 2 ^ 62 →
  let hwin := 2 ^ (8 * n - 1) in
  largest + 1 - hwin < full ≤ largest + 1 + hwin →
  decode_pn (full mod 2 ^ (8 * n)) n largest = Ok full.
Proof.
  intros Hn Hf Hl hwin Hwin.
  rewrite decode_pn_eq by (done || (apply Z.mod_pos_bound; lia)). f_equal. cbn zeta.
  assert (2 ^ (8 * n) = 2 * hwin) as ->.
  { unfold hwin. rewrite <- Z.pow_succ_r by lia. f_equal. lia. }
  replace (2 * hwin / 2) with hwin by (rewrite Z.mul_comm, Z.div_mul; lia).
  assert (0 < hwin) by (unfold hwin; lia). clearbody hwin.
  set (e := largest + 1) in *.
  pose proof (Z.div_mod full (2 * hwin)) as Df. pose proof (Z.div_mod e (2 * hwin)) as De.
  pose proof (Z.mod_pos_bound full (2 * hwin)). pose proof (Z.mod_pos_bound e (2 * hwin)).
  set (qf := full / _) in *. set (rf := full mod _) in *.
  set (qe := e / _) in *. set (re := e mod _) in *. clearbody qf rf qe re.
  assert (qf = qe - 1 ∨ qf = qe ∨ qf = qe + 1) as Hq by nia.
  destruct (Z.leb_spec (e - re + rf + hwin) e), (Z.leb_spec (e - re + rf + 2 * hwin) (2 ^ 62)),
    (Z.ltb_spec (e + hwin) (e - re + rf)), (Z.leb_spec (2 * hwin) (e - re + rf)); cbn [andb]; nia.
Qed.

(** Packet-number truncation loses nothing.  The sender writes
    [pn_length full largest_acked] bytes; a receiver whose largest processed
    packet number [largest_pn] is at least what it has acknowledged, and not
    more than half a window past [full], gets [full] back from them. *)
Theorem pn_roundtrip full largest_acked largest_pn buf :
  let n := pn_length full largest_acked in
  0 ≤ largest_acked ≤ full → full < 2 ^ 62 → full - largest_acked < 2 ^ 31 →
  largest_acked ≤ largest_pn < 2 ^ 62 → largest_pn + 1 - 2 ^ (8 * n - 1) < full →
  n ≤ len buf →
  ∃ buf', encode_pn full largest_acked buf = (Ok n, buf') ∧
    decode_pn (be_val (take (Z.to_nat n) buf')) n largest_pn = Ok full ∧
    drop (Z.to_nat n) buf' = drop (Z.to_nat n) buf ∧ length buf' = length buf.
Proof.
  intros n Hla Hf Hdist Hlp Hre Hbuf. pose proof (pn_length_range full largest_acked).
  pose proof (pn_length_covers full largest_acked ltac:(lia) Hdist) as Hcov. fold n in H, Hcov.
  exists (be_bytes (Z.to_nat n) full ++ drop (Z.to_nat n) buf). split_and!.
  - unfold encode_pn. fold n. erewrite M_step_ok by reflexivity.
    rewrite (proj2 (Z.ltb_ge _ _)) by lia.
    erewrite M_step_lift.
    2: { apply slice_from_eq. len_lia. }
    erewrite M_step_ok.
    2: { apply store_slice_eq; len_lia. }
    unfold mret, M_ret. f_equal. change (take (Z.to_nat 0) buf) with ([] : list Z). simpl app. f_equal.
    assert (n = 1 ∨ n = 2 ∨ n = 3 ∨ n = 4) as [->|[->|[->| ->]]] by lia; done.
  - rewrite take_app_le, take_ge by len_lia. rewrite be_val_be_bytes.
    replace (256 ^ Z.of_nat (Z.to_nat n)) with (2 ^ (8 * n))
      by (rewrite Z2Nat.id, Z.pow_mul_r by lia; done).
    apply decode_pn_window; lia.
  - rewrite drop_app_le, drop_ge by len_lia. done.
  - len_lia.
Qed.

(** At the very top of the packet-number space the reconstruction steps outside
    it: the guard admits a candidate equal to 2^62. *)
Example decode_pn_past_max : decode_pn 0 1 (2 ^ 62 - 2) = Ok (2 ^ 62).
Proof. reflexivity. Qed.
