(* ===== verification/Cursor.v ===== *)
(** * Cursors over byte buffers

    The codecs of the crate share one shape: a reader threads a position
    [&mut pos] through [&buf[pos..]], a writer threads the mutable buffer and
    its position.  This file gives the three judgements their correctness
    proofs are built from, each closed under sequencing:

    - [Reads buf m bs a]: wherever [bs] occurs in [buf], [m] started there
      consumes exactly [bs] and returns [a];
    - [Safe buf EP m Q]: from any valid position [m] does not panic, only moves
      forward inside [buf], fails only with errors in [EP] and returns values
      in [Q];
    - [Writes m bs]: [m] appends exactly [bs], or reports a short buffer. *)
From S2P Require Import Prelude Errors Varint.

(** A position in a shared buffer, and a mutable buffer with a position. *)
Abbreviation reader A := (M Error Z A).
Abbreviation writer A := (M Error (list Z * Z) A).

(** ** Readers *)

Definition Reads {A} (buf : list Z) (m : reader A) (bs : list Z) (a : A) : Prop :=
  ∀ pre post, buf = pre ++ bs ++ post → m (len pre) = (Ok a, len pre + len bs).

Definition Safe {A} (buf : list Z) (EP : Error → Prop) (m : reader A) (Q : A → Prop) : Prop :=
  ∀ pos, 0 ≤ pos ≤ len buf →
  match m pos with
  | (Ok a, pos') => pos ≤ pos' ≤ len buf ∧ Q a
  | (Err e, _) => EP e
  | (Panic, _) => False
  end.

(** ** Writers *)

Definition Writes (m : writer unit) (bs : list Z) : Prop :=
  ∀ done rest,
  (len bs ≤ len rest →
     m (done ++ rest, len done) =
     (Ok tt, ((done ++ bs) ++ drop (length bs) rest, len (done ++ bs)))) ∧
  (len rest < len bs →
     ∃ e s', m (done ++ rest, len done) = (Err e, s') ∧ too_small e).

(** The same for writers that index unchecked and rely on room. *)
Definition Puts (m : writer unit) (bs : list Z) : Prop :=
  ∀ done rest, len bs ≤ len rest →
  m (done ++ rest, len done) =
  (Ok tt, ((done ++ bs) ++ drop (length bs) rest, len (done ++ bs))).

(** The same for writers that also return a value. *)
Definition Emits {A} (m : writer A) (bs : list Z) (a : A) : Prop :=
  ∀ done rest, len bs ≤ len rest →
  m (done ++ rest, len done) =
  (Ok a, ((done ++ bs) ++ drop (length bs) rest, len (done ++ bs))).

(** [m] overwrites the bytes from index [i] on with [bs], in a buffer with room:
    for code that stores at absolute indices. *)
Definition Fills (i : Z) (m : M Error (list Z) unit) (bs : list Z) : Prop :=
  ∀ done rest, len done = i → len bs ≤ len rest →
  m (done ++ rest) = (Ok tt, (done ++ bs) ++ drop (length bs) rest).

(** ** Primitive writers *)

(** [buf[pos] = b; pos += 1] and [buf[pos..pos+n].copy_from_slice(src); pos += n]. *)
Definition put_u8 (b : Z) : writer unit := λ s,
  match set_idx (E:=Error) s.1 s.2 b with
  | Ok buf' => (Ok tt, (buf', s.2 + 1)) | Err e => (Err e, s) | Panic => (Panic, s)
  end.
Definition put_slice (src : list Z) : writer unit := λ s,
  match copy_at (E:=Error) s.1 s.2 (s.2 + len src) src with
  | Ok buf' => (Ok tt, (buf', s.2 + len src)) | Err e => (Err e, s) | Panic => (Panic, s)
  end.
(** [let written = encode_varint(v, &mut buf[pos..])?; pos += written]. *)
Definition put_varint (v : Z) : writer unit := λ s,
  let '(r, buf') := with_from s.2 (encode_varint v) s.1 in
  match r with
  | Ok n => (Ok tt, (buf', s.2 + n)) | Err e => (Err e, (buf', s.2)) | Panic => (Panic, (buf', s.2))
  end.

(** Run a writer from position 0 and return the position it reached. *)
Definition from_start (w : writer unit) : M Error (list Z) Z := λ buf,
  let '(r, s) := w (buf, 0) in
  match r with Ok _ => (Ok s.2, s.1) | Err e => (Err e, s.1) | Panic => (Panic, s.1) end.

(** [if buf.len() < needed { return Err } let mut off = 0; .. Ok(off)]. *)
Definition with_room (needed : Z) (w : writer unit) : M Error (list Z) Z := λ buf,
  if len buf <? needed then (Err (BufferTooSmall needed), buf) else from_start w buf.

(** [if buf.len() < off + n { return Err }]. *)
Definition room (n : Z) : writer unit := λ s,
  if len s.1 <? s.2 + n then (Err (BufferTooSmall (s.2 + n)), s) else (Ok tt, s).

Create HintDb cursor discriminated.

Section readers.
Context (buf : list Z).

Lemma Reads_ret {A} (a : A) : Reads buf (mret a) [] a.
Proof. intros pre post _. simpl. by rewrite Z.add_0_r. Qed.

Lemma Reads_bind {A B} (m : reader A) (k : A → reader B) bs bs' a b :
  Reads buf m bs a → Reads buf (k a) bs' b → Reads buf (m ≫= k) (bs ++ bs') b.
Proof.
  intros Hm Hk pre post Hbuf. rewrite <- app_assoc in Hbuf.
  erewrite M_step_ok by (apply (Hm pre (bs' ++ post)); done).
  specialize (Hk (pre ++ bs) post). rewrite <- app_assoc in Hk. specialize (Hk Hbuf).
  rewrite length_app, Nat2Z.inj_add in Hk. rewrite Hk. f_equal. len_lia.
Qed.

(** The last step of a sequence, when nothing follows it. *)
Lemma Reads_last {A B} (m : reader A) (f : A → B) bs a :
  Reads buf m bs a → Reads buf (m ≫= λ x, mret (f x)) bs (f a).
Proof.
  intros Hm. rewrite <- (app_nil_r bs). eapply Reads_bind; [exact Hm|apply Reads_ret].
Qed.

Lemma Reads_lift {A B} (r : res Error A) (k : A → reader B) bs a b :
  r = Ok a → Reads buf (k a) bs b → Reads buf (lift r ≫= k) bs b.
Proof. intros -> Hk pre post Hbuf. erewrite M_step_lift by done. by apply (Hk pre post). Qed.

Lemma Safe_ret {A} EP (a : A) (Q : A → Prop) : Q a → Safe buf EP (mret a) Q.
Proof. intros Ha pos Hpos. simpl. auto with lia. Qed.

Lemma Safe_throw {A} (EP : Error → Prop) e (Q : A → Prop) : EP e → Safe buf EP (throw e) Q.
Proof. intros He pos Hpos. done. Qed.

Lemma Safe_bind {A B} EP (m : reader A) (k : A → reader B) Q R :
  Safe buf EP m Q → (∀ a, Q a → Safe buf EP (k a) R) → Safe buf EP (m ≫= k) R.
Proof.
  intros Hm Hk pos Hpos. specialize (Hm pos Hpos). unfold mbind, M_bind.
  destruct (m pos) as [[a|e|] pos']; [|done..]. destruct Hm as [Hpos' Ha].
  specialize (Hk a Ha pos' ltac:(lia)). destruct (k a pos') as [[b|e|] pos'']; [|done..].
  split; [lia|]. by destruct Hk.
Qed.

(** A safe continuation entered after the cursor has moved. *)
Lemma Safe_from {A} EP (m : reader A) Q pos pos' :
  Safe buf EP m Q → 0 ≤ pos ≤ pos' → pos' ≤ len buf →
  match m pos' with
  | (Ok a, p) => pos ≤ p ≤ len buf ∧ Q a
  | (Err e, _) => EP e
  | (Panic, _) => False
  end.
Proof.
  intros Hm ? ?. specialize (Hm pos' ltac:(lia)).
  destruct (m pos') as [[a|e|] p]; [|done..]. split; [lia|apply Hm].
Qed.

Lemma Safe_lift {A B} EP (r : res Error A) (k : A → reader B) Q R :
  match r with Ok a => Q a | Err e => EP e | Panic => False end →
  (∀ a, Q a → Safe buf EP (k a) R) → Safe buf EP (lift r ≫= k) R.
Proof.
  intros Hr Hk pos Hpos. unfold mbind, M_bind, lift.
  destruct r; [|done..]. by apply Hk.
Qed.

Lemma Safe_weaken {A} EP (m : reader A) (Q R : A → Prop) :
  Safe buf EP m Q → (∀ a, Q a → R a) → Safe buf EP m R.
Proof.
  intros Hm HQR pos Hpos. specialize (Hm pos Hpos).
  destruct (m pos) as [[]]; naive_solver.
Qed.

Lemma Safe_if {A} EP (b : bool) (m1 m2 : reader A) Q :
  (b = true → Safe buf EP m1 Q) → (b = false → Safe buf EP m2 Q) →
  Safe buf EP (if b then m1 else m2) Q.
Proof. destruct b; auto. Qed.

End readers.

Section writers.

Lemma Writes_ret : Writes (mret tt) [].
Proof.
  intros done rest. split; [|simpl; lia]. intros _. unfold mret, M_ret.
  by rewrite app_nil_r, drop_0.
Qed.

Lemma Writes_bind m1 m2 bs1 bs2 :
  Writes m1 bs1 → Writes m2 bs2 → Writes (m1 ≫= λ _, m2) (bs1 ++ bs2).
Proof.
  intros H1 H2 done rest. destruct (H1 done rest) as [Hok1 Herr1].
  destruct (Z.le_gt_cases (len bs1) (len rest)) as [Hl|Hl].
  - specialize (Hok1 Hl). destruct (H2 (done ++ bs1) (drop (length bs1) rest)) as [Hok2 Herr2].
    split; intros Hlen; erewrite M_step_ok by exact Hok1.
    + rewrite Hok2 by len_lia. rewrite drop_drop, <- !app_assoc. by rewrite (length_app bs1 bs2).
    + apply Herr2. len_lia.
  - split; [len_lia|]. intros _. destruct (Herr1 Hl) as (e & s' & Hm & He).
    exists e, s'. split; [by apply M_step_err|done].
Qed.

Lemma Writes_lift {A} (r : result A) (k : A → writer unit) a bs :
  r = Ok a → Writes (k a) bs → Writes (lift r ≫= k) bs.
Proof. intros -> Hk done rest. erewrite M_step_lift by done. apply Hk. Qed.

Lemma Writes_Puts m bs : Writes m bs → Puts m bs.
Proof. intros Hm done rest. apply Hm. Qed.

Lemma Puts_bind m1 m2 bs1 bs2 :
  Puts m1 bs1 → Puts m2 bs2 → Puts (m1 ≫= λ _, m2) (bs1 ++ bs2).
Proof.
  intros H1 H2 done rest Hl. erewrite M_step_ok by (apply H1; len_lia).
  rewrite H2 by len_lia. rewrite drop_drop, <- !app_assoc. by rewrite (length_app bs1 bs2).
Qed.

Lemma Emits_ret {A} (a : A) : Emits (mret a) [] a.
Proof. intros done rest _. unfold mret, M_ret. by rewrite app_nil_r, drop_0. Qed.

Lemma Emits_bind {A B} (m : writer A) (k : A → writer B) bs bs' a b :
  Emits m bs a → Emits (k a) bs' b → Emits (m ≫= k) (bs ++ bs') b.
Proof.
  intros H1 H2 done rest Hl. erewrite M_step_ok by (apply H1; len_lia).
  rewrite H2 by len_lia. rewrite drop_drop, <- !app_assoc. by rewrite (length_app bs bs').
Qed.

Lemma Emits_lift {A B} (r : result A) (k : A → writer B) a bs b :
  r = Ok a → Emits (k a) bs b → Emits (lift r ≫= k) bs b.
Proof. intros -> Hk done rest Hl. erewrite M_step_lift by done. by apply Hk. Qed.

Lemma Fills_ret i : Fills i (mret tt) [].
Proof. intros done rest _ _. unfold mret, M_ret. by rewrite app_nil_r, drop_0. Qed.

Lemma Fills_bind i m1 m2 bs1 bs2 :
  Fills i m1 bs1 → Fills (i + len bs1) m2 bs2 → Fills i (m1 ≫= λ _, m2) (bs1 ++ bs2).
Proof.
  intros H1 H2 done rest Hi Hl. erewrite M_step_ok by (apply H1; len_lia).
  rewrite H2 by len_lia. rewrite drop_drop, <- !app_assoc. by rewrite (length_app bs1 bs2).
Qed.

Lemma Fills_slice i j src : j = i + len src → Fills i (store_slice i j src) src.
Proof.
  intros -> done rest <- Hl. unfold store_slice. by rewrite copy_at_app by (done || lia).
Qed.

Lemma Fills_store i v : Fills i (store i v) [v].
Proof.
  intros done rest <- Hl. destruct rest as [|x rest]; [simpl in Hl; lia|].
  rewrite store_eq by len_lia. rewrite Nat2Z.id, insert_app_r_alt, Nat.sub_diag by lia.
  simpl. by rewrite drop_0, <- app_assoc.
Qed.

Lemma Fills_lift {A} i (r : result A) (k : A → M Error (list Z) unit) a bs :
  r = Ok a → Fills i (k a) bs → Fills i (lift r ≫= k) bs.
Proof. intros -> Hk done rest Hi Hl. erewrite M_step_lift by done. by apply Hk. Qed.

(** From the start of the buffer. *)
Lemma Fills_start m bs buf :
  Fills 0 m bs → len bs ≤ len buf → m buf = (Ok tt, bs ++ drop (length bs) buf).
Proof. intros Hm Hl. by apply (Hm [] buf). Qed.

Lemma Writes_put_varint v : varint_ok v → Writes (put_varint v) (varint_wire v).
Proof.
  intros Hv done rest. pose proof (len_varint_wire v) as Hw.
  unfold put_varint; cbn [fst snd]. rewrite with_from_app by done. split; intros Hlen.
  - rewrite encode_varint_ok by (done || lia). cbn [fst snd].
    rewrite <- app_assoc. do 3 f_equal; [do 2 f_equal; lia|len_lia].
  - unfold encode_varint. rewrite (proj2 (Z.ltb_ge _ _)) by (destruct Hv; lia).
    erewrite M_step_ok by reflexivity. rewrite (proj2 (Z.ltb_lt _ _)) by lia. simpl.
    do 2 eexists. split; [done|by eexists].
Qed.

Lemma Puts_varint v : varint_ok v → Puts (put_varint v) (varint_wire v).
Proof. intros. by apply Writes_Puts, Writes_put_varint. Qed.

Lemma Puts_slice src : Puts (put_slice src) src.
Proof.
  intros done rest Hl. unfold put_slice; cbn [fst snd].
  rewrite copy_at_app by (done || lia). do 2 f_equal. len_lia.
Qed.

Lemma Puts_u8 b : Puts (put_u8 b) [b].
Proof.
  intros done rest Hl. unfold put_u8; cbn [fst snd]. rewrite set_idx_eq by len_lia.
  destruct rest as [|x rest]; [simpl in Hl; lia|].
  rewrite Nat2Z.id, (insert_app_r_alt done) by lia. rewrite Nat.sub_diag. simpl.
  rewrite drop_0, <- app_assoc. do 2 f_equal. len_lia.
Qed.

Lemma Puts_start w bs buf :
  Puts w bs → len bs ≤ len buf → from_start w buf = (Ok (len bs), bs ++ drop (length bs) buf).
Proof.
  intros Hw Hl. unfold from_start. specialize (Hw [] buf Hl). simpl app in Hw.
  change (len []) with 0 in Hw. by rewrite Hw.
Qed.

Lemma with_room_ok needed w bs buf :
  Puts w bs → needed = len bs →
  with_room needed w buf =
  if decide (len bs ≤ len buf) then (Ok (len bs), bs ++ drop (length bs) buf)
  else (Err (BufferTooSmall (len bs)), buf).
Proof.
  intros Hw ->. unfold with_room. destruct (decide _).
  - rewrite (proj2 (Z.ltb_ge _ _)) by lia. by apply Puts_start.
  - by rewrite (proj2 (Z.ltb_lt _ _)) by lia.
Qed.

Lemma Puts_ret : Puts (mret tt) [].
Proof. apply Writes_Puts, Writes_ret. Qed.

Lemma Writes_room n m bs : Puts m bs → n = len bs → Writes (_ ← room n; m) bs.
Proof.
  intros Hm -> done rest. unfold room, mbind, M_bind. cbn [fst snd]. split; intros Hl.
  - rewrite (proj2 (Z.ltb_ge _ _)) by len_lia. by apply Hm.
  - rewrite (proj2 (Z.ltb_lt _ _)) by len_lia. do 2 eexists. split; [done|by eexists].
Qed.

Lemma Writes_if (b : bool) m1 m2 bs1 bs2 :
  Writes m1 bs1 → Writes m2 bs2 → Writes (if b then m1 else m2) (if b then bs1 else bs2).
Proof. by destruct b. Qed.

(** A writer started on a whole buffer. *)
Lemma Writes_start m bs buf :
  Writes m bs →
  (len bs ≤ len buf → m (buf, 0) = (Ok tt, (bs ++ drop (length bs) buf, len bs))) ∧
  (len buf < len bs → ∃ e s', m (buf, 0) = (Err e, s') ∧ too_small e).
Proof. intros H. apply (H [] buf). Qed.

End writers.

#[export] Hint Resolve Writes_ret Writes_bind Writes_if : cursor.
#[export] Hint Resolve Reads_ret Safe_ret Safe_throw : cursor.
