(* ===== verification/Http.v ===== *)
(** * HTTP vocabulary: [src/http/mod.rs], [status.rs], [method.rs], [sse.rs]

    What the HTTP/1.1 and HTTP/2 connections share: timeout configuration and
    deadlines, status codes, methods; and the formatter of server-sent events
    with the event-stream reader of the WHATWG specification it is written for. *)
From stdpp Require Import strings.
From S2P Require Import Prelude Errors Varint Cursor.

(** ** Timeouts *)

Record TimeoutConfig := { idle_timeout_us : option Z; header_timeout_us : option Z }.

(** [a.saturating_add(b)] on [u64]. *)
Definition sat_add64 (a b : Z) : Z := Z.min u64_max (a + b).

(** [earliest = Some(earliest.map_or(deadline, |e| e.min(deadline)))]. *)
Definition earlier (e : option Z) (deadline : Z) : option Z :=
  Some (match e with None => deadline | Some e => Z.min e deadline end).

(** ** Methods *)
Module Method.

Inductive t : Type := GET | POST | PUT | DELETE | HEAD | OPTIONS | CONNECT | PATCH | TRACE.

Definition as_bytes (m : t) : list Z :=
  match m with
  | GET => bytes "GET"
  | POST => bytes "POST"
  | PUT => bytes "PUT"
  | DELETE => bytes "DELETE"
  | HEAD => bytes "HEAD"
  | OPTIONS => bytes "OPTIONS"
  | CONNECT => bytes "CONNECT"
  | PATCH => bytes "PATCH"
  | TRACE => bytes "TRACE"
  end.

Definition from_bytes (b : list Z) : option t :=
  if decide (b = bytes "GET") then Some GET
  else if decide (b = bytes "POST") then Some POST
  else if decide (b = bytes "PUT") then Some PUT
  else if decide (b = bytes "DELETE") then Some DELETE
  else if decide (b = bytes "HEAD") then Some HEAD
  else if decide (b = bytes "OPTIONS") then Some OPTIONS
  else if decide (b = bytes "CONNECT") then Some CONNECT
  else if decide (b = bytes "PATCH") then Some PATCH
  else if decide (b = bytes "TRACE") then Some TRACE
  else None.

(** Parsing and printing are inverse: exactly the nine names are methods. *)
Lemma from_as_bytes b m : from_bytes b = Some m ↔ b = as_bytes m.
Proof.
  split.
  - unfold from_bytes. intros Hb. repeat case_decide; by simplify_eq.
  - intros ->. by destruct m.
Qed.

End Method.

(** ** Status codes *)
Module StatusCode.

Definition is_informational (c : Z) : bool := (100 <=? c) && (c <? 200).
Definition is_success (c : Z) : bool := (200 <=? c) && (c <? 300).
Definition is_redirection (c : Z) : bool := (300 <=? c) && (c <? 400).
Definition is_client_error (c : Z) : bool := (400 <=? c) && (c <? 500).
Definition is_server_error (c : Z) : bool := (500 <=? c) && (c <? 600).

Definition to_bytes {E} (c : Z) : res E (list Z) :=
  let d0 := trunc 8 (c / 100) in
  let d1 := trunc 8 (c / 10 mod 10) in
  let d2 := trunc 8 (c mod 10) in
  b0 ← uadd 8 48 d0; b1 ← uadd 8 48 d1; b2 ← uadd 8 48 d2;
  mret [b0; b1; b2].

(** [b.wrapping_sub(b'0')]. *)
Definition digit (b : Z) : Z := trunc 8 (b - 48).

Definition from_bytes (b : list Z) : option Z :=
  match b with
  | [b0; b1; b2] =>
      let d0 := digit b0 in let d1 := digit b1 in let d2 := digit b2 in
      if (9 <? d0) || (9 <? d1) || (9 <? d2) then None else
      let code := d0 * 100 + d1 * 10 + d2 in
      if code <? 100 then None else Some code
  | _ => None
  end.

Lemma digit_of d : 0 ≤ d < 10 → digit (48 + d) = d.
Proof. intros. unfold digit, trunc. change (2 ^ 8) with 256. rewrite Z.mod_small; lia. Qed.
Lemma digit_inv b : byte_ok b → digit b ≤ 9 → b = 48 + digit b ∧ 0 ≤ digit b.
Proof.
  unfold digit, trunc, byte_ok. change (2 ^ 8) with 256. intros Hb Hd.
  destruct (decide (48 ≤ b)); [rewrite Z.mod_small in * by lia; lia|].
  rewrite <- (Z.mod_unique (b - 48) 256 (-1) (b + 208)) in Hd by lia. lia.
Qed.

(** Three digits, most significant first. *)
Lemma to_bytes_digits {E} c :
  0 ≤ c < 1000 →
  to_bytes (E:=E) c = Ok [48 + c / 100; 48 + c / 10 mod 10; 48 + c mod 10].
Proof.
  intros Hc. unfold to_bytes. assert (0 ≤ c / 100 < 10) by (split; [apply Z.div_pos|apply Z.div_lt_upper_bound]; lia).
  pose proof (Z.mod_pos_bound (c / 10) 10). pose proof (Z.mod_pos_bound c 10).
  rewrite !trunc_small by (unfold uint; lia). by rewrite !uadd_ok by lia.
Qed.

Lemma from_to_bytes {E} c b :
  100 ≤ c < 1000 → to_bytes (E:=E) c = Ok b → from_bytes b = Some c.
Proof.
  intros Hc. rewrite to_bytes_digits by lia. intros [= <-].
  assert (1 ≤ c / 100 < 10) by (split; [apply Z.div_le_lower_bound|apply Z.div_lt_upper_bound]; lia).
  pose proof (Z.mod_pos_bound (c / 10) 10). pose proof (Z.mod_pos_bound c 10).
  unfold from_bytes. rewrite !digit_of by lia.
  rewrite !(proj2 (Z.ltb_ge 9 _)) by lia. cbn [orb]. cbv zeta.
  assert (c / 100 * 100 + c / 10 mod 10 * 10 + c mod 10 = c) as ->.
  { pose proof (Z.div_mod c 10). pose proof (Z.div_mod (c / 10) 10).
    rewrite Z.div_div in * by lia. change (10 * 10) with 100 in *. lia. }
  by rewrite (proj2 (Z.ltb_ge _ _)) by lia.
Qed.

End StatusCode.

(** ** Server-sent events *)
Module Sse.

(** [put]: the copy behind its room check. *)
Definition put (src : list Z) : writer unit := λ s,
  let '(out, off) := s in
  let e := off + len src in
  if len out <? e then (Err (BufferTooSmall e), s) else put_slice src s.

(** [str::split('\n')]. *)
Fixpoint split_on (d : Z) (l : list Z) : list (list Z) :=
  match l with
  | [] => [[]]
  | b :: l' =>
      if b =? d then [] :: split_on d l'
      else match split_on d l' with [] => [[b]] | x :: xs => (b :: x) :: xs end
  end.

Fixpoint put_lines (ls : list (list Z)) : writer unit :=
  match ls with
  | [] => mret tt
  | line :: ls' => _ ← put (bytes "data: "); _ ← put line; _ ← put [10]; put_lines ls'
  end.

Definition format_event (event : option (list Z)) (data : list Z) : M Error (list Z) Z :=
  from_start (
    _ ← match event with
        | Some name => _ ← put (bytes "event: "); _ ← put name; put [10]
        | None => mret tt
        end;
    _ ← put_lines (split_on 10 data);
    put [10]).

Definition format_comment (text : list Z) : M Error (list Z) Z :=
  from_start (_ ← put (bytes ": "); _ ← put text; put [10; 10]).

(** The digits of [n], least significant last; ten suffice for a [u32]. *)
Fixpoint digits_loop (fuel : nat) (n pos : Z) (digits : list Z) : result (list Z * Z) :=
  match fuel with
  | O => Panic
  | S fuel =>
      pos ← usub pos 1;
      d ← uadd 8 48 (trunc 8 (n mod 10));
      digits ← set_idx digits pos d;
      let n := n / 10 in
      if n =? 0 then mret (digits, pos) else digits_loop fuel n pos digits
  end.

Definition format_retry (retry_ms : Z) : M Error (list Z) Z :=
  from_start (
    _ ← put (bytes "retry: ");
    '(digits, pos) ← lift (digits_loop 11 retry_ms 10 (replicate 10 0));
    ds ← lift (slice_from digits pos);
    _ ← put ds;
    put [10; 10]).

(** *** Reading an event stream

    The interpretation of the WHATWG specification: lines end with CR LF, LF or
    CR; a field is a name, a colon and a value with one leading space dropped; a
    blank line dispatches the event. *)

Fixpoint lines_from (cr : bool) (acc l : list Z) : list (list Z) :=
  match l with
  | [] => []
  | b :: l' =>
      if b =? 13 then acc :: lines_from true [] l'
      else if b =? 10 then if cr then lines_from false acc l' else acc :: lines_from false [] l'
      else lines_from false (acc ++ [b]) l'
  end.

(** The event being built: its type and its data. *)
Record building := Building { ev_type : list Z; ev_data : list Z }.

Definition strip_space (v : list Z) : list Z :=
  match v with b :: v' => if b =? 32 then v' else v | [] => [] end.

Definition field (name value : list Z) (e : building) : building :=
  if decide (name = bytes "event") then Building value (ev_data e)
  else if decide (name = bytes "data") then Building (ev_type e) (ev_data e ++ value ++ [10])
  else e.

Definition take_line (line : list Z) (e : building) : building :=
  match position (λ b, b =? 58) line with
  | Some O => e
  | Some i => field (take i line) (strip_space (drop (S i) line)) e
  | None => field line [] e
  end.

(** The events dispatched by a sequence of lines: type and data. *)
Fixpoint interpret (e : building) (lines : list (list Z)) : list (list Z * list Z) :=
  match lines with
  | [] => []
  | [] :: ls =>
      let rest := interpret (Building [] []) ls in
      if decide (ev_data e = []) then rest
      else (if decide (ev_type e = []) then bytes "message" else ev_type e,
            take (length (ev_data e) - 1) (ev_data e)) :: rest
  | line :: ls => interpret (take_line line e) ls
  end.

Definition read_stream (l : list Z) : list (list Z * list Z) :=
  interpret (Building [] []) (lines_from false [] l).

(** ** The formatter's output *)

Fixpoint lines_wire (ls : list (list Z)) : list Z :=
  match ls with
  | [] => []
  | line :: ls' => (bytes "data: " ++ line ++ [10]) ++ lines_wire ls'
  end.
Definition event_wire (event : option (list Z)) (data : list Z) : list Z :=
  match event with Some name => bytes "event: " ++ name ++ [10] | None => [] end
  ++ lines_wire (split_on 10 data) ++ [10].

Lemma Writes_put src : Writes (put src) src.
Proof.
  intros d rest. unfold put. pose proof (Puts_slice src d rest) as Hp. split; intros Hl.
  - rewrite (proj2 (Z.ltb_ge _ _)) by len_lia. by apply Hp.
  - rewrite (proj2 (Z.ltb_lt _ _)) by len_lia. do 2 eexists. split; [done|]. by eexists.
Qed.

Lemma Writes_text_lines ls : Writes (put_lines ls) (lines_wire ls).
Proof.
  induction ls as [|line ls IH]; [apply Writes_ret|]. cbn [put_lines lines_wire].
  rewrite <- !app_assoc. repeat (apply Writes_bind; [apply Writes_put|]). exact IH.
Qed.

Lemma Writes_event event data :
  Writes (_ ← match event with
              | Some name => _ ← put (bytes "event: "); _ ← put name; put [10]
              | None => mret tt
              end;
          _ ← put_lines (split_on 10 data); put [10]) (event_wire event data).
Proof.
  unfold event_wire. apply Writes_bind.
  - destruct event; [|apply Writes_ret]. repeat (apply Writes_bind; [apply Writes_put|]). apply Writes_put.
  - apply Writes_bind; [apply Writes_text_lines|apply Writes_put].
Qed.

Lemma split_on_nonempty d l : ∃ x xs, split_on d l = x :: xs.
Proof. induction l as [|b l (x & xs & IH)]; simpl; [eauto|]. rewrite IH. case_match; eauto. Qed.

(** The lines put back together with [d] between them. *)
Fixpoint join (d : Z) (ls : list (list Z)) : list Z :=
  match ls with [] => [] | x :: ls' => x ++ d :: join d ls' end.
Lemma join_split d l : join d (split_on d l) = l ++ [d].
Proof.
  induction l as [|b l IH]; simpl; [done|]. destruct (Z.eqb_spec b d) as [->|Hb]; simpl; [by rewrite IH|].
  destruct (split_on_nonempty d l) as (x & xs & Hx). rewrite Hx in *. simpl in *. by rewrite <- IH.
Qed.
Lemma split_on_free d l : Forall (Forall (λ b, b ≠ d)) (split_on d l).
Proof.
  induction l as [|b l IH]; simpl; [by repeat constructor|].
  destruct (Z.eqb_spec b d); [by constructor|].
  destruct (split_on_nonempty d l) as (x & xs & Hx). rewrite Hx in *.
  apply Forall_cons in IH as [? ?]. by repeat constructor.
Qed.
Lemma split_on_sub (P : Z → Prop) d l : Forall P l → Forall (Forall P) (split_on d l).
Proof.
  induction 1 as [|b l Hb Hl IH]; simpl; [by repeat constructor|].
  destruct (b =? d); [by constructor|].
  destruct (split_on_nonempty d l) as (x & xs & Hx). rewrite Hx in *.
  apply Forall_cons in IH as [? ?]. by repeat constructor.
Qed.

(** ** What the reader makes of it *)

(** A line without line ends. *)
Definition plain (l : list Z) : Prop := Forall (λ b, b ≠ 10 ∧ b ≠ 13) l.

Lemma lines_plain acc line rest :
  plain line → lines_from false acc (line ++ 10 :: rest) = (acc ++ line) :: lines_from false [] rest.
Proof.
  intros Hp. revert acc. induction Hp as [|b line [H1 H2] _ IH]; intros acc; simpl; [by rewrite app_nil_r|].
  rewrite (proj2 (Z.eqb_neq b 13)), (proj2 (Z.eqb_neq b 10)) by done.
  rewrite IH. by rewrite <- app_assoc.
Qed.

Lemma read_data e line rest :
  plain line → interpret e (lines_from false [] (bytes "data: " ++ line ++ 10 :: rest)) =
  interpret (Building (ev_type e) (ev_data e ++ line ++ [10])) (lines_from false [] rest).
Proof.
  intros Hp. rewrite app_assoc, lines_plain; [reflexivity|].
  apply Forall_app. split; [|exact Hp]. by repeat constructor.
Qed.

Lemma read_lines e ls rest :
  Forall plain ls → interpret e (lines_from false [] (lines_wire ls ++ rest)) =
  interpret (Building (ev_type e) (ev_data e ++ join 10 ls)) (lines_from false [] rest).
Proof.
  intros Hp. revert e. induction Hp as [|line ls Hl _ IH]; intros e; simpl.
  - rewrite app_nil_r. by destruct e.
  - pose proof (read_data e line (lines_wire ls ++ rest) Hl) as Hr.
    rewrite <- !app_assoc in *. simpl in *. rewrite Hr, IH. simpl. by rewrite <- !app_assoc.
Qed.

(** ** Properties *)

(** Server-sent events reach the client.  [format_event] writes the frame
    when it fits and refuses it otherwise; a client that reads the stream by the
    WHATWG rules dispatches one event with exactly the given type and data, in
    front of whatever follows, for a non-empty type without line ends and data
    without carriage returns (line feeds are allowed). *)
Theorem sse_event_roundtrip event data buf rest :
  match event with Some name => plain name ∧ name ≠ [] | None => True end →
  Forall (λ b, b ≠ 13) data →
  if decide (len (event_wire event data) ≤ len buf) then
    ∃ n buf', format_event event data buf = (Ok n, buf') ∧
      read_stream (take (Z.to_nat n) buf' ++ rest) =
      (default (bytes "message") event, data) :: read_stream rest
  else ∃ e buf', format_event event data buf = (Err e, buf') ∧ too_small e.
Proof.
  intros He Hd. destruct (Writes_start _ _ buf (Writes_event event data)) as [Hok Herr].
  case_decide as Hl.
  - exists (len (event_wire event data)), (event_wire event data ++ drop (length (event_wire event data)) buf).
    split. { by apply Puts_start; [apply Writes_Puts, Writes_event|]. }
    rewrite Nat2Z.id, take_app_length. unfold read_stream, event_wire.
    assert (Forall plain (split_on 10 data)) as Hp.
    { pose proof (split_on_free 10 data) as H1. pose proof (split_on_sub _ 10 data Hd) as H2.
      apply Forall_forall. intros l Hl'. rewrite Forall_forall in H1, H2.
      apply Forall_and. split; [by apply H1|by apply H2]. }
    assert (∀ e, interpret e (lines_from false [] ((lines_wire (split_on 10 data) ++ [10]) ++ rest)) =
      (if decide (ev_type e = []) then bytes "message" else ev_type e,
       take (length (ev_data e ++ data)) (ev_data e ++ data ++ [10])) :: read_stream rest) as Hbody.
    { intros e. rewrite <- app_assoc, read_lines by done. rewrite join_split. simpl.
      rewrite decide_False by (destruct (ev_data e); simpl; [by destruct data|done]).
      do 2 f_equal. rewrite !length_app. simpl. f_equal. lia. }
    destruct event as [name|]; rewrite <- ?app_assoc.
    + destruct He as (Hn & Hne). rewrite app_assoc. simpl ([10] ++ _). rewrite lines_plain.
      2: { apply Forall_app. split; [by repeat constructor|done]. }
      change (interpret (Building name []) (lines_from false [] (lines_wire (split_on 10 data) ++ 10 :: rest)) =
        (name, data) :: read_stream rest).
      specialize (Hbody (Building name [])). rewrite <- app_assoc in Hbody. simpl ([10] ++ _) in Hbody.
      rewrite Hbody. simpl. by rewrite decide_False, take_app_length by done.
    + specialize (Hbody (Building [] [])). rewrite <- app_assoc in Hbody. simpl in *.
      rewrite Hbody. by rewrite take_app_length.
  - destruct Herr as (e & s' & Hr & He'); [lia|]. unfold format_event, from_start. rewrite Hr. eauto.
Qed.

(** A carriage return is a line end to the client, so it does not survive. *)
Lemma sse_carriage_return_lost :
  ∃ n buf', format_event None [97; 13; 98] (replicate 64 0) = (Ok n, buf') ∧
    read_stream (take (Z.to_nat n) buf') = [(bytes "message", [97])].
Proof. vm_compute. eauto. Qed.

(** The decimal digits of the retry delay: their value is the delay, and ten
    always suffice. *)
Fixpoint decimal (l : list Z) (acc : Z) : Z :=
  match l with [] => acc | d :: l' => decimal l' (acc * 10 + (d - 48)) end.

Lemma decimal_snoc l d acc : decimal (l ++ [d]) acc = decimal l acc * 10 + (d - 48).
Proof. revert acc. induction l; intros acc; simpl; [done|]. by rewrite IHl. Qed.


Lemma digits_loop_eq k fuel n pre post :
  (0 < k)%nat → (k ≤ fuel)%nat → 0 ≤ n < 10 ^ Z.of_nat k → (k ≤ length pre)%nat →
  ∃ ds pre', digits_loop fuel n (len pre) (pre ++ post) = Ok (pre' ++ ds ++ post, len pre') ∧
    decimal ds 0 = n ∧ len pre' + len ds = len pre.
Proof.
  revert fuel n pre post. induction k as [|k IH]; intros fuel n pre post Hk Hf Hn Hl; [lia|].
  destruct fuel as [|fuel]; [lia|]. cbn [digits_loop].
  destruct pre as [|x pre _] using rev_ind; [simpl in Hl; lia|].
  rewrite length_app in *. simpl in Hl. rewrite usub_ok by (simpl; lia).
  pose proof (Z.mod_pos_bound n 10 ltac:(lia)).
  rewrite trunc_small by (unfold uint; lia). cbn [mbind res_bind]. rewrite uadd_ok by lia.
  cbn [mbind res_bind]. simpl (length [x]). rewrite <- app_assoc.
  assert (set_idx (E:=Error) (pre ++ [x] ++ post) (Z.of_nat (length pre + 1) - 1) (48 + n mod 10)
    = Ok (pre ++ [48 + n mod 10] ++ post)) as ->.
  { unfold set_idx. rewrite decide_True by (rewrite !length_app; simpl; lia). f_equal.
    replace (Z.to_nat _) with (length pre + 0)%nat by lia. by rewrite insert_app_r. }
  cbn [mbind res_bind]. destruct (Z.eqb_spec (n / 10) 0) as [Hz|Hz].
  - exists [48 + n mod 10], pre. split; [unfold mret, res_ret; do 2 f_equal; lia|].
    split; [simpl; pose proof (Z.div_mod n 10); lia|simpl; lia].
  - assert (0 < n / 10 < 10 ^ Z.of_nat k) as Hn'.
    { split; [pose proof (Z.div_pos n 10); lia|]. apply Z.div_lt_upper_bound; [lia|].
      rewrite Nat2Z.inj_succ, Z.pow_succ_r in Hn by lia. lia. }
    assert (0 < k)%nat. { destruct k; [simpl in Hn'; lia|lia]. }
    destruct (IH fuel (n / 10) pre ([48 + n mod 10] ++ post)) as (ds & pre' & Hd & Hv & Hlen); [lia..|].
    exists (ds ++ [48 + n mod 10]), pre'. split; [|split].
    + replace (Z.of_nat (length pre + 1) - 1) with (len pre) by lia. rewrite Hd. by rewrite <- app_assoc.
    + rewrite decimal_snoc, Hv. pose proof (Z.div_mod n 10). lia.
    + rewrite length_app. simpl. lia.
Qed.

(** [format_retry] writes the decimal digits of the delay. *)
Lemma format_retry_exact retry_ms buf :
  uint 32 retry_ms → 19 ≤ len buf →
  ∃ ds, decimal ds 0 = retry_ms ∧
    let w := bytes "retry: " ++ ds ++ [10; 10] in
    format_retry retry_ms buf = (Ok (len w), w ++ drop (length w) buf).
Proof.
  intros Hr Hl.
  destruct (digits_loop_eq 10 11 retry_ms (replicate 10 0) []) as (ds & pre' & Hd & Hv & Hlen);
    [lia|lia|unfold uint in Hr; simpl; lia|simpl; lia|].
  rewrite !app_nil_r in Hd. change (len (replicate 10 0)) with 10 in *.
  exists ds. split; [done|]. intros w. unfold format_retry. apply Puts_start; [|subst w; len_lia].
  apply Writes_Puts. apply Writes_bind; [apply Writes_put|].
  eapply Writes_lift; [exact Hd|]. eapply Writes_lift.
  - unfold slice_from. rewrite <- (app_nil_r ds) at 1. rewrite app_assoc, <- app_assoc.
    rewrite length_app, Nat2Z.inj_add. by apply slice_middle.
  - apply Writes_bind; apply Writes_put.
Qed.

End Sse.
