(* ===== verification/Frame.v ===== *)
(** * QUIC frames: [src/frame/mod.rs]

    The frame type, the cursor helpers, [decode] and [encode] arm by arm, the
    ACK-range iterator, and the wire form the encoder is shown to produce and
    the decoder to invert. *)
From S2P Require Import Prelude Errors Varint Cursor.

Module Frame.

(** ** Data *)

Record EcnCounts := { ect0 : Z; ect1 : Z; ecn_ce : Z }.
Record AckFrame := {
  largest_ack : Z; ack_delay : Z; first_ack_range : Z;
  (** raw bytes: pairs of gap + range varints *)
  ack_ranges : list Z;
  ecn : option EcnCounts
}.
Record ResetStreamFrame := { rs_stream_id : Z; rs_error_code : Z; rs_final_size : Z }.
Record StopSendingFrame := { ss_stream_id : Z; ss_error_code : Z }.
Record CryptoFrame := { cr_offset : Z; cr_data : list Z }.
Record StreamFrame := { st_stream_id : Z; st_offset : Z; st_data : list Z; st_fin : bool }.
Record MaxStreamDataFrame := { msd_stream_id : Z; msd_max_data : Z }.
Record MaxStreamsFrame := { ms_bidirectional : bool; ms_max_streams : Z }.
Record StreamDataBlockedFrame := { sdb_stream_id : Z; sdb_data_limit : Z }.
Record StreamsBlockedFrame := { sb_bidirectional : bool; sb_max_streams : Z }.
Record NewConnectionIdFrame := {
  sequence_number : Z; retire_prior_to : Z;
  connection_id : list Z; stateless_reset_token : list Z
}.
Record ConnectionCloseFrame := {
  is_application : bool; cc_error_code : Z; cc_frame_type : Z; reason : list Z
}.

Inductive t : Type :=
| Padding
| Ping
| Ack (f : AckFrame)
| ResetStream (f : ResetStreamFrame)
| StopSending (f : StopSendingFrame)
| Crypto (f : CryptoFrame)
| NewToken (token : list Z)
| Stream (f : StreamFrame)
| MaxData (v : Z)
| MaxStreamData (f : MaxStreamDataFrame)
| MaxStreams (f : MaxStreamsFrame)
| DataBlocked (v : Z)
| StreamDataBlocked (f : StreamDataBlockedFrame)
| StreamsBlocked (f : StreamsBlockedFrame)
| NewConnectionId (f : NewConnectionIdFrame)
| RetireConnectionId (seq : Z)
| PathChallenge (data : list Z)
| PathResponse (data : list Z)
| ConnectionClose (f : ConnectionCloseFrame)
| HandshakeDone.

(** ** ACK range iterator *)

(** [AckRangeIter::next]: the item and the iterator's remaining bytes. *)
Definition ack_range_next (buf : list Z) : option (result (Z * Z)) * list Z :=
  match buf with
  | [] => (None, buf)
  | _ =>
      match decode_varint buf with
      | Ok (gap, n1) =>
          if len buf <? n1 then (Some (Err (BufferTooSmall n1)), buf) else
          match slice_from (E:=Error) buf n1 with
          | Ok buf1 =>
              match decode_varint buf1 with
              | Ok (ack_range, n2) =>
                  match slice_from (E:=Error) buf1 n2 with
                  | Ok buf2 => (Some (Ok (gap, ack_range)), buf2)
                  | _ => (Some Panic, buf1)
                  end
              | Err e => (Some (Err e), buf1)
              | Panic => (Some Panic, buf1)
              end
          | _ => (Some Panic, buf)
          end
      | Err e => (Some (Err e), buf)
      | Panic => (Some Panic, buf)
      end
  end.

(** ** Helpers *)

Definition frame_encoding_error : Error := Transport TransportError.FrameEncodingError.

Definition read_varint (buf : list Z) : reader Z :=
  pos ← get;
  if len buf <=? pos then throw frame_encoding_error else
  sub ← lift (slice_from buf pos);
  vn ← lift (map_err (λ _, frame_encoding_error) (decode_varint sub));
  _ ← put (pos + vn.2);
  mret vn.1.

Definition write_varint (val : Z) : writer unit := λ s,
  let '(r, buf') := with_from s.2 (encode_varint val) s.1 in
  match r with
  | Ok n => (Ok tt, (buf', s.2 + n))
  | Err e => (Err e, (buf', s.2))
  | Panic => (Panic, (buf', s.2))
  end.

(** The subtraction [buf.len() - *pos] is guarded by the first disjunct, and
    the slice end [*pos + len] by both. *)
Definition read_bytes (buf : list Z) (n : Z) : reader (list Z) :=
  pos ← get;
  if (len buf <? pos) || (len buf - pos <? n) then throw frame_encoding_error else
  s ← lift (slice buf pos (pos + n));
  _ ← put (pos + n);
  mret s.

Definition write_bytes (data : list Z) : writer unit := λ s,
  let '(buf, pos) := s in
  if (len buf <? pos) || (len buf - pos <? len data)
  then (Err (BufferTooSmall (pos + len data)), (buf, pos)) else
  match copy_at (E:=Error) buf pos (pos + len data) data with
  | Ok buf' => (Ok tt, (buf', pos + len data))
  | Err e => (Err e, (buf, pos))
  | Panic => (Panic, (buf, pos))
  end.

(** [let mut data = [0u8; n]; data.copy_from_slice(bytes)] *)
Definition to_array (n : Z) (bytes : list Z) : result (list Z) :=
  copy_at (replicate (Z.to_nat n) 0) 0 n bytes.

(** ** Decode *)

Section decode.
Context `{Platform} (buf : list Z).

(** [for _ in 0..count { gap; ack range }].  Every iteration consumes bytes of
    [buf], so [length buf] iterations are enough fuel. *)
Fixpoint skip_ranges (fuel : nat) (count : Z) : reader unit :=
  if count <=? 0 then mret tt else
  match fuel with
  | O => lift Panic
  | S fuel =>
      _ ← read_varint buf;
      _ ← read_varint buf;
      skip_ranges fuel (count - 1)
  end.

Definition decode_ecn (frame_type : Z) : reader (option EcnCounts) :=
  if frame_type =? 0x03 then
    e0 ← read_varint buf;
    e1 ← read_varint buf;
    ce ← read_varint buf;
    mret (Some {| ect0 := e0; ect1 := e1; ecn_ce := ce |})
  else mret None.

Definition decode_ack (frame_type : Z) : reader t :=
  largest ← read_varint buf;
  delay ← read_varint buf;
  ack_range_count ← read_varint buf;
  first ← read_varint buf;
  ranges_start ← get;
  _ ← skip_ranges (S (length buf)) ack_range_count;
  pos ← get;
  ranges ← lift (slice buf ranges_start pos);
  ecn ← decode_ecn frame_type;
  mret (Ack {| largest_ack := largest; ack_delay := delay; first_ack_range := first;
               ack_ranges := ranges; ecn := ecn |}).

Definition decode_reset_stream : reader t :=
  stream_id ← read_varint buf;
  error_code ← read_varint buf;
  final_size ← read_varint buf;
  mret (ResetStream {| rs_stream_id := stream_id; rs_error_code := error_code;
                       rs_final_size := final_size |}).

Definition decode_stop_sending : reader t :=
  stream_id ← read_varint buf;
  error_code ← read_varint buf;
  mret (StopSending {| ss_stream_id := stream_id; ss_error_code := error_code |}).

Definition decode_crypto : reader t :=
  offset ← read_varint buf;
  length ← read_varint buf;
  data ← read_bytes buf (as_usize length);
  mret (Crypto {| cr_offset := offset; cr_data := data |}).

Definition decode_new_token : reader t :=
  length ← read_varint buf;
  token ← read_bytes buf (as_usize length);
  mret (NewToken token).

Definition decode_stream (frame_type : Z) : reader t :=
  let has_offset := negb (Z.land frame_type 0x04 =? 0) in
  let has_length := negb (Z.land frame_type 0x02 =? 0) in
  let fin := negb (Z.land frame_type 0x01 =? 0) in
  stream_id ← read_varint buf;
  offset ← (if has_offset then read_varint buf else mret 0);
  data ← (if has_length then
            length ← read_varint buf;
            read_bytes buf (as_usize length)
          else
            pos ← get;
            rest ← lift (slice_from buf pos);
            _ ← put (len buf);
            mret rest);
  mret (Stream {| st_stream_id := stream_id; st_offset := offset; st_data := data; st_fin := fin |}).

Definition decode_max_stream_data : reader t :=
  stream_id ← read_varint buf;
  max_data ← read_varint buf;
  mret (MaxStreamData {| msd_stream_id := stream_id; msd_max_data := max_data |}).

Definition decode_max_streams (frame_type : Z) : reader t :=
  max_streams ← read_varint buf;
  mret (MaxStreams {| ms_bidirectional := frame_type =? 0x12; ms_max_streams := max_streams |}).

Definition decode_stream_data_blocked : reader t :=
  stream_id ← read_varint buf;
  data_limit ← read_varint buf;
  mret (StreamDataBlocked {| sdb_stream_id := stream_id; sdb_data_limit := data_limit |}).

Definition decode_streams_blocked (frame_type : Z) : reader t :=
  max_streams ← read_varint buf;
  mret (StreamsBlocked {| sb_bidirectional := frame_type =? 0x16; sb_max_streams := max_streams |}).

Definition decode_new_connection_id : reader t :=
  seq ← read_varint buf;
  retire ← read_varint buf;
  cid_len ← read_varint buf;
  if 20 <? as_usize cid_len then throw frame_encoding_error else
  cid ← read_bytes buf (as_usize cid_len);
  token_bytes ← read_bytes buf 16;
  token ← lift (if len token_bytes =? 16 then Ok token_bytes else Err frame_encoding_error);
  mret (NewConnectionId {| sequence_number := seq; retire_prior_to := retire;
                           connection_id := cid; stateless_reset_token := token |}).

Definition decode_path (mk : list Z → t) : reader t :=
  bytes ← read_bytes buf 8;
  data ← lift (to_array 8 bytes);
  mret (mk data).

Definition decode_connection_close (frame_type : Z) : reader t :=
  let is_app := frame_type =? 0x1d in
  error_code ← read_varint buf;
  frame_type_field ← (if negb is_app then read_varint buf else mret 0);
  reason_len ← read_varint buf;
  reason ← read_bytes buf (as_usize reason_len);
  mret (ConnectionClose {| is_application := is_app; cc_error_code := error_code;
                           cc_frame_type := frame_type_field; reason := reason |}).

(** The arms of the match on the frame type. *)
Definition decode_body (frame_type : Z) : reader t :=
  match frame_type with
  | 0x00 => mret Padding
  | 0x01 => mret Ping
  | 0x02 | 0x03 => decode_ack frame_type
  | 0x04 => decode_reset_stream
  | 0x05 => decode_stop_sending
  | 0x06 => decode_crypto
  | 0x07 => decode_new_token
  | 0x08 | 0x09 | 0x0a | 0x0b | 0x0c | 0x0d | 0x0e | 0x0f => decode_stream frame_type
  | 0x10 => max_data ← read_varint buf; mret (MaxData max_data)
  | 0x11 => decode_max_stream_data
  | 0x12 | 0x13 => decode_max_streams frame_type
  | 0x14 => limit ← read_varint buf; mret (DataBlocked limit)
  | 0x15 => decode_stream_data_blocked
  | 0x16 | 0x17 => decode_streams_blocked frame_type
  | 0x18 => decode_new_connection_id
  | 0x19 => seq ← read_varint buf; mret (RetireConnectionId seq)
  | 0x1a => decode_path PathChallenge
  | 0x1b => decode_path PathResponse
  | 0x1c | 0x1d => decode_connection_close frame_type
  | 0x1e => mret HandshakeDone
  | _ => throw frame_encoding_error
  end.

Definition decode_frame : reader t :=
  frame_type ← read_varint buf; decode_body frame_type.

(** [decode]: run the cursor from position 0 and return it with the frame. *)
Definition decode : result (t * Z) :=
  match decode_frame 0 with
  | (Ok f, pos) => Ok (f, pos)
  | (Err e, _) => Err e
  | (Panic, _) => Panic
  end.

End decode.

(** ** Encode *)

(** Count the range pairs by walking the varints; a pair takes at least two
    bytes, so [length tmp] is enough fuel. *)
Fixpoint count_ranges (fuel : nat) (tmp : list Z) (count : Z) : result Z :=
  match tmp with
  | [] => Ok count
  | _ =>
      match fuel with
      | O => Panic
      | S fuel =>
          v1 ← map_err (λ _, frame_encoding_error) (decode_varint tmp);
          tmp1 ← slice_from tmp v1.2;
          v2 ← map_err (λ _, frame_encoding_error) (decode_varint tmp1);
          tmp2 ← slice_from tmp1 v2.2;
          count_ranges fuel tmp2 (count + 1)
      end
  end.

Definition encode_ecn (e : option EcnCounts) : writer unit :=
  match e with
  | Some e => _ ← write_varint (ect0 e); _ ← write_varint (ect1 e); write_varint (ecn_ce e)
  | None => mret tt
  end.

Definition encode_ack (ack : AckFrame) : writer unit :=
  _ ← write_varint (match ecn ack with Some _ => 0x03 | None => 0x02 end);
  _ ← write_varint (largest_ack ack);
  _ ← write_varint (ack_delay ack);
  count ← lift (count_ranges (length (ack_ranges ack)) (ack_ranges ack) 0);
  _ ← write_varint count;
  _ ← write_varint (first_ack_range ack);
  _ ← write_bytes (ack_ranges ack);
  encode_ecn (ecn ack).

Definition encode_stream (f : StreamFrame) : writer unit :=
  let ty := Z.lor 0x08 0x02 in
  let ty := if 0 <? st_offset f then Z.lor ty 0x04 else ty in
  let ty := if st_fin f then Z.lor ty 0x01 else ty in
  _ ← write_varint ty;
  _ ← write_varint (st_stream_id f);
  _ ← (if 0 <? st_offset f then write_varint (st_offset f) else mret tt);
  _ ← write_varint (len (st_data f));
  write_bytes (st_data f).

Definition encode_new_connection_id (f : NewConnectionIdFrame) : writer unit :=
  _ ← write_varint 0x18;
  _ ← write_varint (sequence_number f);
  _ ← write_varint (retire_prior_to f);
  _ ← write_varint (len (connection_id f));
  _ ← write_bytes (connection_id f);
  write_bytes (stateless_reset_token f).

Definition encode_connection_close (f : ConnectionCloseFrame) : writer unit :=
  _ ← write_varint (if is_application f then 0x1d else 0x1c);
  _ ← write_varint (cc_error_code f);
  _ ← (if negb (is_application f) then write_varint (cc_frame_type f) else mret tt);
  _ ← write_varint (len (reason f));
  write_bytes (reason f).

Definition encode_frame (frame : t) : writer unit :=
  match frame with
  | Padding => write_bytes [0x00]
  | Ping => write_varint 0x01
  | Ack ack => encode_ack ack
  | ResetStream f =>
      _ ← write_varint 0x04; _ ← write_varint (rs_stream_id f);
      _ ← write_varint (rs_error_code f); write_varint (rs_final_size f)
  | StopSending f =>
      _ ← write_varint 0x05; _ ← write_varint (ss_stream_id f); write_varint (ss_error_code f)
  | Crypto f =>
      _ ← write_varint 0x06; _ ← write_varint (cr_offset f);
      _ ← write_varint (len (cr_data f)); write_bytes (cr_data f)
  | NewToken token =>
      _ ← write_varint 0x07; _ ← write_varint (len token); write_bytes token
  | Stream f => encode_stream f
  | MaxData v => _ ← write_varint 0x10; write_varint v
  | MaxStreamData f =>
      _ ← write_varint 0x11; _ ← write_varint (msd_stream_id f); write_varint (msd_max_data f)
  | MaxStreams f =>
      _ ← write_varint (if ms_bidirectional f then 0x12 else 0x13); write_varint (ms_max_streams f)
  | DataBlocked v => _ ← write_varint 0x14; write_varint v
  | StreamDataBlocked f =>
      _ ← write_varint 0x15; _ ← write_varint (sdb_stream_id f); write_varint (sdb_data_limit f)
  | StreamsBlocked f =>
      _ ← write_varint (if sb_bidirectional f then 0x16 else 0x17); write_varint (sb_max_streams f)
  | NewConnectionId f => encode_new_connection_id f
  | RetireConnectionId seq => _ ← write_varint 0x19; write_varint seq
  | PathChallenge data => _ ← write_varint 0x1a; write_bytes data
  | PathResponse data => _ ← write_varint 0x1b; write_bytes data
  | ConnectionClose f => encode_connection_close f
  | HandshakeDone => write_varint 0x1e
  end.

(** [encode]: run the writer from position 0 and return the position. *)
Definition encode (frame : t) : M Error (list Z) Z := λ buf,
  let '(r, s) := encode_frame frame (buf, 0) in
  match r with
  | Ok _ => (Ok s.2, s.1)
  | Err e => (Err e, s.1)
  | Panic => (Panic, s.1)
  end.

(** ** Wire form *)

(** A byte string whose length a varint can carry and [usize] can hold. *)
Definition blob_ok `{Platform} (l : list Z) : Prop :=
  bytes_ok l ∧ len l ≤ MAX_VARINT ∧ uint usize_bits (len l).

Definition range_count (ranges : list Z) : Z :=
  match count_ranges (length ranges) ranges 0 with Ok c => c | _ => 0 end.

(** The frames [encode] can be asked to send: every field representable, the
    raw ACK ranges made of whole pairs, the fixed-size arrays of their size,
    no frame type on an application close. *)
Definition frame_ok `{Platform} (f : t) : Prop :=
  match f with
  | Padding | Ping | HandshakeDone => True
  | Ack f =>
      varint_ok (largest_ack f) ∧ varint_ok (ack_delay f) ∧ varint_ok (first_ack_range f) ∧
      bytes_ok (ack_ranges f) ∧ is_ok (count_ranges (length (ack_ranges f)) (ack_ranges f) 0) = true ∧
      len (ack_ranges f) ≤ MAX_VARINT ∧
      match ecn f with
      | Some e => varint_ok (ect0 e) ∧ varint_ok (ect1 e) ∧ varint_ok (ecn_ce e)
      | None => True
      end
  | ResetStream f => varint_ok (rs_stream_id f) ∧ varint_ok (rs_error_code f) ∧ varint_ok (rs_final_size f)
  | StopSending f => varint_ok (ss_stream_id f) ∧ varint_ok (ss_error_code f)
  | Crypto f => varint_ok (cr_offset f) ∧ blob_ok (cr_data f)
  | NewToken token => blob_ok token
  | Stream f => varint_ok (st_stream_id f) ∧ varint_ok (st_offset f) ∧ blob_ok (st_data f)
  | MaxData v | DataBlocked v | RetireConnectionId v => varint_ok v
  | MaxStreamData f => varint_ok (msd_stream_id f) ∧ varint_ok (msd_max_data f)
  | MaxStreams f => varint_ok (ms_max_streams f)
  | StreamDataBlocked f => varint_ok (sdb_stream_id f) ∧ varint_ok (sdb_data_limit f)
  | StreamsBlocked f => varint_ok (sb_max_streams f)
  | NewConnectionId f =>
      varint_ok (sequence_number f) ∧ varint_ok (retire_prior_to f) ∧
      bytes_ok (connection_id f) ∧ len (connection_id f) ≤ 20 ∧
      bytes_ok (stateless_reset_token f) ∧ len (stateless_reset_token f) = 16
  | PathChallenge d | PathResponse d => bytes_ok d ∧ len d = 8
  | ConnectionClose f =>
      varint_ok (cc_error_code f) ∧ varint_ok (cc_frame_type f) ∧ blob_ok (reason f) ∧
      (is_application f = true → cc_frame_type f = 0)
  end.

Definition blob_wire (l : list Z) : list Z := varint_wire (len l) ++ l.

(** The layouts of RFC 9000 section 19. *)
Definition frame_wire (f : t) : list Z :=
  match f with
  | Padding => [0x00]
  | Ping => varint_wire 0x01
  | Ack f =>
      varint_wire (match ecn f with Some _ => 0x03 | None => 0x02 end) ++
      varint_wire (largest_ack f) ++ varint_wire (ack_delay f) ++
      varint_wire (range_count (ack_ranges f)) ++ varint_wire (first_ack_range f) ++ ack_ranges f ++
      match ecn f with
      | Some e => varint_wire (ect0 e) ++ varint_wire (ect1 e) ++ varint_wire (ecn_ce e)
      | None => []
      end
  | ResetStream f =>
      varint_wire 0x04 ++ varint_wire (rs_stream_id f) ++ varint_wire (rs_error_code f) ++
      varint_wire (rs_final_size f)
  | StopSending f => varint_wire 0x05 ++ varint_wire (ss_stream_id f) ++ varint_wire (ss_error_code f)
  | Crypto f => varint_wire 0x06 ++ varint_wire (cr_offset f) ++ blob_wire (cr_data f)
  | NewToken token => varint_wire 0x07 ++ blob_wire token
  | Stream f =>
      varint_wire (0x0a + (if 0 <? st_offset f then 4 else 0) + (if st_fin f then 1 else 0)) ++
      varint_wire (st_stream_id f) ++
      (if 0 <? st_offset f then varint_wire (st_offset f) else []) ++ blob_wire (st_data f)
  | MaxData v => varint_wire 0x10 ++ varint_wire v
  | MaxStreamData f => varint_wire 0x11 ++ varint_wire (msd_stream_id f) ++ varint_wire (msd_max_data f)
  | MaxStreams f => varint_wire (if ms_bidirectional f then 0x12 else 0x13) ++ varint_wire (ms_max_streams f)
  | DataBlocked v => varint_wire 0x14 ++ varint_wire v
  | StreamDataBlocked f =>
      varint_wire 0x15 ++ varint_wire (sdb_stream_id f) ++ varint_wire (sdb_data_limit f)
  | StreamsBlocked f => varint_wire (if sb_bidirectional f then 0x16 else 0x17) ++ varint_wire (sb_max_streams f)
  | NewConnectionId f =>
      varint_wire 0x18 ++ varint_wire (sequence_number f) ++ varint_wire (retire_prior_to f) ++
      blob_wire (connection_id f) ++ stateless_reset_token f
  | RetireConnectionId v => varint_wire 0x19 ++ varint_wire v
  | PathChallenge d => varint_wire 0x1a ++ d
  | PathResponse d => varint_wire 0x1b ++ d
  | ConnectionClose f =>
      varint_wire (if is_application f then 0x1d else 0x1c) ++ varint_wire (cc_error_code f) ++
      (if negb (is_application f) then varint_wire (cc_frame_type f) else []) ++ blob_wire (reason f)
  | HandshakeDone => varint_wire 0x1e
  end.

(** ** Writing *)

Lemma Writes_varint v : varint_ok v → Writes (write_varint v) (varint_wire v).
Proof. apply Writes_put_varint. Qed.

Lemma Writes_bytes data : Writes (write_bytes data) data.
Proof.
  intros done rest. unfold write_bytes. split; intros Hlen.
  - rewrite (proj2 (Z.ltb_ge _ _)), (proj2 (Z.ltb_ge _ _)) by len_lia. simpl orb.
    rewrite copy_at_app by (done || lia). do 2 f_equal. len_lia.
  - rewrite (proj2 (Z.ltb_ge _ (len done))), (proj2 (Z.ltb_lt _ _)) by len_lia. simpl orb.
    do 2 eexists. split; [done|by eexists].
Qed.

Lemma Writes_blob l : varint_ok (len l) →
  Writes (write_varint (len l) ≫= λ _, write_bytes l) (blob_wire l).
Proof. intros. apply Writes_bind; [by apply Writes_varint|apply Writes_bytes]. Qed.

(** One iteration of the walk over the range pairs. *)
Lemma count_ranges_step fuel tmp c0 c :
  bytes_ok tmp → tmp ≠ [] → count_ranges fuel tmp c0 = Ok c →
  ∃ fuel' v1 n1 v2 n2, fuel = S fuel' ∧
    let tmp1 := drop (Z.to_nat n1) tmp in
    decode_varint tmp = Ok (v1, n1) ∧ 1 ≤ n1 ≤ len tmp ∧
    decode_varint tmp1 = Ok (v2, n2) ∧ 1 ≤ n2 ≤ len tmp1 ∧
    count_ranges fuel' (drop (Z.to_nat n2) tmp1) (c0 + 1) = Ok c.
Proof.
  intros Hok Hne Hc. destruct fuel as [|fuel], tmp as [|b tmp]; try done. simpl in Hc.
  apply res_bind_ok in Hc as ([v1 n1] & H1 & Hc).
  destruct (decode_varint (b :: tmp)) as [[w1 m1]| |] eqn:D1; simplify_eq/=.
  destruct (decode_varint_inv _ _ _ Hok D1) as (_ & Hn1 & _).
  rewrite slice_from_eq in Hc by lia. simpl in Hc.
  apply res_bind_ok in Hc as ([v2 n2] & H2 & Hc).
  destruct (decode_varint (drop _ _)) as [[w2 m2]| |] eqn:D2; simplify_eq/=.
  destruct (decode_varint_inv _ _ _ (Forall_drop _ _ _ Hok) D2) as (_ & Hn2 & _).
  rewrite slice_from_eq in Hc by lia.
  eexists fuel, v1, n1, v2, n2. done.
Qed.

Lemma count_ranges_bound fuel tmp c0 c :
  bytes_ok tmp → count_ranges fuel tmp c0 = Ok c → c0 ≤ c ≤ c0 + len tmp.
Proof.
  revert tmp c0. induction fuel as [|fuel IH]; intros tmp c0 Hok Hc;
    (destruct (decide (tmp = [])) as [->|Hne]; [by simplify_eq/=; lia|]);
    apply count_ranges_step in Hc as (fuel' & v1 & n1 & v2 & n2 & Hf & _ & ? & _ & ? & Hc); try done.
  injection Hf as <-. apply IH in Hc; [|by do 2 apply Forall_drop]. len_lia.
Qed.

Lemma range_count_ok f :
  bytes_ok f → is_ok (count_ranges (length f) f 0) = true → len f ≤ MAX_VARINT →
  count_ranges (length f) f 0 = Ok (range_count f) ∧ varint_ok (range_count f).
Proof.
  intros Hok Hc Hl. unfold range_count.
  destruct (count_ranges _ f 0) eqn:E; try done. split; [done|].
  apply count_ranges_bound in E; [|done]. unfold varint_ok. lia.
Qed.

Lemma blob_len_ok `{Platform} l : blob_ok l → varint_ok (len l).
Proof. unfold blob_ok, varint_ok. intros (_ & ? & _). lia. Qed.

Ltac solve_varint_ok :=
  first [ done | by apply varint_ok_const | by apply blob_len_ok
        | unfold varint_ok; rewrite MAX_VARINT_eq; lia ].

Ltac writes :=
  repeat first [ apply Writes_bind | apply Writes_bytes | apply Writes_ret
               | apply Writes_if | (apply Writes_varint; solve_varint_ok) ].

Lemma Writes_frame `{Platform} f : frame_ok f → Writes (encode_frame f) (frame_wire f).
Proof.
  destruct f as [| |f|f|f|f|l|f|v|f|f|v|f|f|f|v|d|d|f|]; cbn [frame_ok frame_wire encode_frame];
    intros Hok; destruct_and?;
    unfold blob_wire; rewrite <- ?app_assoc; try by writes.
  - unfold encode_ack. destruct (range_count_ok (ack_ranges f)) as [Hc Hv]; [done..|].
    do 3 (apply Writes_bind; [apply Writes_varint; [by destruct (ecn f); solve_varint_ok||done]|]).
    eapply Writes_lift; [exact Hc|]. writes.
    unfold encode_ecn. destruct (ecn f); destruct_and?; writes.
  - unfold encode_stream. apply Writes_bind.
    { destruct (0 <? st_offset f), (st_fin f); apply (Writes_varint _); solve_varint_ok. }
    writes.
  - destruct (ms_bidirectional f); writes.
  - destruct (sb_bidirectional f); writes.
  - unfold encode_connection_close. apply Writes_bind; [destruct (is_application f); writes|writes].
Qed.

(** ** Reading back *)

Create HintDb frame_arms discriminated.

Section reading.
Context `{Platform} (buf : list Z) (Hbuf : bytes_ok buf).

Lemma Reads_varint_raw bs v :
  decode_varint bs = Ok (v, len bs) → Reads buf (read_varint buf) bs v.
Proof.
  intros Hd pre post ->. destruct bs as [|b bs]; [done|].
  assert (bytes_ok ((b :: bs) ++ post)) as Hok by by apply Forall_app in Hbuf as [].
  unfold read_varint. erewrite M_step_ok by reflexivity.
  rewrite (proj2 (Z.leb_gt _ _)) by len_lia.
  rewrite slice_from_eq by len_lia. rewrite Nat2Z.id, drop_app_length.
  erewrite M_step_lift by reflexivity. rewrite (decode_varint_app _ _ _ _ Hok Hd).
  by erewrite M_step_lift by reflexivity.
Qed.

Lemma Reads_varint v : varint_ok v → Reads buf (read_varint buf) (varint_wire v) v.
Proof.
  intros Hv. apply Reads_varint_raw. rewrite <- (app_nil_r (varint_wire v)) at 1.
  rewrite len_varint_wire. by apply decode_varint_wire.
Qed.

Lemma Reads_bytes l : Reads buf (read_bytes buf (len l)) l l.
Proof.
  intros pre post Hb. unfold read_bytes. erewrite M_step_ok by reflexivity.
  rewrite (proj2 (Z.ltb_ge _ (len pre))), (proj2 (Z.ltb_ge _ _)) by (rewrite Hb; len_lia).
  cbn [orb]. rewrite Hb, slice_middle by done. by erewrite M_step_lift by reflexivity.
Qed.

Lemma Reads_bytes_usize l : blob_ok l → Reads buf (read_bytes buf (as_usize (len l))) l l.
Proof. intros (_ & _ & Hl). rewrite as_usize_small by done. apply Reads_bytes. Qed.

Lemma Reads_ranges fuel tmp c0 c fuel' :
  bytes_ok tmp → count_ranges fuel tmp c0 = Ok c → (length tmp ≤ fuel')%nat →
  Reads buf (skip_ranges buf fuel' (c - c0)) tmp tt.
Proof.
  revert tmp c0 fuel'. induction fuel as [|fuel IH]; intros tmp c0 fuel' Hok Hc Hf;
    (destruct (decide (tmp = [])) as [->|Hne];
     [simplify_eq/=; rewrite Z.sub_diag; destruct fuel'; apply Reads_ret|]);
    pose proof (count_ranges_bound _ _ _ _ Hok Hc);
    apply count_ranges_step in Hc as (fu & v1 & n1 & v2 & n2 & Hfu & D1 & ? & D2 & ? & Hc); try done.
  injection Hfu as <-. set (tmp1 := drop (Z.to_nat n1) tmp) in *.
  pose proof (count_ranges_bound _ _ _ _ (Forall_drop _ _ _ (Forall_drop _ _ _ Hok)) Hc).
  destruct fuel' as [|fuel']; [destruct tmp; simpl in *; [done|lia]|].
  simpl skip_ranges. rewrite (proj2 (Z.leb_gt _ _)) by lia.
  rewrite <- (take_drop (Z.to_nat n1) tmp). fold tmp1.
  eapply Reads_bind.
  { apply Reads_varint_raw. replace (len _) with n1 by len_lia. by apply decode_varint_take. }
  rewrite <- (take_drop (Z.to_nat n2) tmp1). eapply Reads_bind.
  { apply Reads_varint_raw. replace (len _) with n2 by len_lia.
    apply decode_varint_take; [by apply Forall_drop|done]. }
  replace (c - c0 - 1) with (c - (c0 + 1)) by lia.
  apply IH; [by do 2 apply Forall_drop|done|]. subst tmp1. len_lia.
Qed.

Lemma Reads_all_ranges tmp c :
  bytes_ok tmp → count_ranges (length tmp) tmp 0 = Ok c →
  Reads buf (skip_ranges buf (S (length buf)) c) tmp tt.
Proof.
  intros Hok Hc pre post Hb. rewrite <- (Z.sub_0_r c).
  apply (Reads_ranges _ _ _ _ (S (length buf)) Hok Hc) with post; [rewrite Hb; len_lia|done].
Qed.

(** Capturing the raw bytes a sub-reader consumed. *)
Lemma Reads_capture {A} m bs (k : list Z → reader A) bs' a :
  Reads buf m bs tt → Reads buf (k bs) bs' a →
  Reads buf (s ← get; _ ← m; e ← get; r ← lift (slice buf s e); k r) (bs ++ bs') a.
Proof.
  intros Hm Hk pre post Hb. erewrite M_step_ok by reflexivity.
  rewrite <- app_assoc in Hb. erewrite M_step_ok by (by apply (Hm pre (bs' ++ post))).
  erewrite M_step_ok by reflexivity.
  erewrite M_step_lift by (rewrite Hb; by apply slice_middle).
  specialize (Hk (pre ++ bs) post). rewrite <- app_assoc in Hk. specialize (Hk Hb).
  rewrite length_app, Nat2Z.inj_add in Hk. rewrite Hk. f_equal. len_lia.
Qed.

Lemma to_array_id n l : len l = n → to_array n l = Ok l.
Proof.
  intros. unfold to_array. rewrite copy_at_eq by len_lia. rewrite take_0, drop_ge by len_lia.
  by rewrite app_nil_r.
Qed.

#[local] Hint Unfold decode_reset_stream decode_stop_sending decode_crypto decode_new_token
  decode_max_stream_data decode_max_streams decode_stream_data_blocked decode_streams_blocked
  : frame_arms.

(** Read the next field; the last one ends the frame. *)
Ltac reads_field :=
  first [ apply Reads_varint; solve_varint_ok | by apply Reads_bytes_usize | apply Reads_bytes ].
Ltac reads :=
  repeat first [ apply Reads_ret
               | eapply (Reads_last _ _ (λ x, _)); solve [reads_field]
               | eapply Reads_bind; [solve [reads_field]|] ].
(** Dispatch on the frame type just read. *)
Ltac reads_type := eapply Reads_bind; [apply Reads_varint; solve_varint_ok|]; cbn [decode_body].

Lemma Reads_ecn ty e :
  ty = match e with Some _ => 0x03 | None => 0x02 end →
  match e with
  | Some e => varint_ok (ect0 e) ∧ varint_ok (ect1 e) ∧ varint_ok (ecn_ce e)
  | None => True
  end →
  Reads buf (decode_ecn buf ty)
    match e with
    | Some e => varint_wire (ect0 e) ++ varint_wire (ect1 e) ++ varint_wire (ecn_ce e)
    | None => []
    end e.
Proof. intros -> He. destruct e as [[]|]; cbn in *; destruct_and?; reads. Qed.

Lemma Reads_ack f : frame_ok (Ack f) → Reads buf (decode_frame buf) (frame_wire (Ack f)) (Ack f).
Proof.
  destruct f as [la ad fr ar e]. intros (? & ? & ? & Hok & Hc & ? & He). cbn in Hok, Hc, He.
  destruct (range_count_ok ar) as [Hcount Hv]; [done..|]. cbn [frame_wire ecn].
  set (ty := match e with Some _ => 0x03 | None => 0x02 end).
  eapply Reads_bind; [apply Reads_varint; subst ty; destruct e; solve_varint_ok|].
  replace (decode_body buf ty) with (decode_ack buf ty) by (by subst ty; destruct e).
  unfold decode_ack. cbn [largest_ack ack_delay ack_ranges first_ack_range]. do 4 (eapply Reads_bind; [reads_field|]).
  eapply Reads_capture; [by apply Reads_all_ranges|].
  eapply (Reads_last _ _ (λ x, _)). by apply Reads_ecn.
Qed.

(** Evaluate the flag bits of a known frame type. *)
Ltac eval_flags :=
  repeat match goal with
  | |- context [negb ?b] =>
      let v := eval vm_compute in (negb b) in
      match v with true => idtac | false => idtac end; change (negb b) with v
  end; cbv beta iota zeta.

Lemma Reads_stream f :
  frame_ok (Stream f) → Reads buf (decode_frame buf) (frame_wire (Stream f)) (Stream f).
Proof.
  destruct f as [sid off data fin]. intros (? & Ho & ?). cbn in *. cbn [frame_wire st_offset st_fin].
  unfold decode_frame, blob_wire. cbn [st_stream_id st_data].
  destruct (Z.ltb_spec 0 off) as [Hoff|Hoff].
  2: assert (off = 0) as -> by (destruct Ho; lia).
  all: destruct fin; reads_type; unfold decode_stream; eval_flags; eapply Reads_bind; try reads_field;
    (eapply Reads_bind; [first [reads_field|apply Reads_ret]|]);
    eapply (Reads_last _ _ (λ x, _)), Reads_bind; reads_field.
Qed.

Lemma Reads_new_connection_id f :
  frame_ok (NewConnectionId f) →
  Reads buf (decode_frame buf) (frame_wire (NewConnectionId f)) (NewConnectionId f).
Proof.
  destruct f as [seq ret cid tok]. intros (? & ? & Hc & Hl & Ht & Htl).
  cbn [sequence_number retire_prior_to connection_id stateless_reset_token] in *.
  cbn [frame_wire sequence_number retire_prior_to connection_id stateless_reset_token].
  unfold decode_frame, blob_wire. rewrite <- app_assoc. reads_type. unfold decode_new_connection_id.
  assert (blob_ok cid) as Hb.
  { split_and!; [done|rewrite MAX_VARINT_eq; lia|]. unfold uint. pose proof usize_bits_ge.
    split; [lia|]. apply Z.le_lt_trans with 20; [lia|]. apply (Z.lt_le_trans _ (2 ^ 32)); [done|].
    apply Z.pow_le_mono_r; lia. }
  do 3 (eapply Reads_bind; [reads_field|]).
  rewrite as_usize_small by apply Hb. rewrite (proj2 (Z.ltb_ge _ _)) by lia.
  eapply Reads_bind; [apply Reads_bytes|]. rewrite <- (app_nil_r tok) at 1.
  eapply Reads_bind; [rewrite <- Htl; apply Reads_bytes|]. rewrite Htl.
  eapply Reads_lift; [done|]. apply Reads_ret.
Qed.

Lemma Reads_path ty mk d :
  varint_ok ty → decode_body buf ty = decode_path buf mk → len d = 8 →
  Reads buf (decode_frame buf) (varint_wire ty ++ d) (mk d).
Proof.
  intros ? Hty Hd. eapply Reads_bind; [reads_field|]. rewrite Hty.
  unfold decode_path. rewrite <- (app_nil_r d) at 1.
  eapply Reads_bind; [rewrite <- Hd; apply Reads_bytes|].
  eapply Reads_lift; [by apply to_array_id|]. apply Reads_ret.
Qed.

Lemma Reads_connection_close f :
  frame_ok (ConnectionClose f) →
  Reads buf (decode_frame buf) (frame_wire (ConnectionClose f)) (ConnectionClose f).
Proof.
  destruct f as [app ec ft rs]. intros (? & ? & ? & Happ). cbn in *.
  cbn [frame_wire is_application cc_error_code cc_frame_type reason]. unfold decode_frame, blob_wire.
  destruct app; [rewrite Happ by done|]; cbn [negb]; reads_type;
    unfold decode_connection_close; eval_flags; (eapply Reads_bind; [reads_field|]);
    (eapply Reads_bind; [first [reads_field|apply Reads_ret]|]); reads.
Qed.

Lemma Reads_frame f : frame_ok f → Reads buf (decode_frame buf) (frame_wire f) f.
Proof.
  destruct f as [| |f|f|f|f|l|f|v|f|f|v|f|f|f|v|d|d|f|]; intros Hok.
  3: by apply Reads_ack.
  7: by apply Reads_stream.
  13: by apply Reads_new_connection_id.
  14: by apply (Reads_path 0x1a PathChallenge); [solve_varint_ok|done|apply Hok].
  14: by apply (Reads_path 0x1b PathResponse); [solve_varint_ok|done|apply Hok].
  14: by apply Reads_connection_close.
  1: rewrite <- (app_nil_r (frame_wire Padding)); change (frame_wire Padding) with (varint_wire 0).
  2: rewrite <- (app_nil_r (frame_wire Ping)).
  14: rewrite <- (app_nil_r (frame_wire HandshakeDone)).
  all: try destruct f; cbn in Hok; destruct_and?; unfold decode_frame; cbn [frame_wire];
    unfold blob_wire; try match goal with |- context [if ?b then _ else _] => destruct b eqn:? end;
    reads_type; autounfold with frame_arms; cbn in *; subst; reads.
Qed.

End reading.

(** ** Decoding arbitrary bytes *)

Lemma count_ranges_cons fuel r1 r2 r3 c0 v1 v2 :
  bytes_ok (r1 ++ r2 ++ r3) →
  decode_varint r1 = Ok (v1, len r1) → decode_varint r2 = Ok (v2, len r2) →
  count_ranges (S fuel) (r1 ++ r2 ++ r3) c0 = count_ranges fuel r3 (c0 + 1).
Proof.
  intros Hok D1 D2. pose proof (decode_varint_app _ _ _ _ Hok D1) as E1.
  apply Forall_app in Hok as [_ Hok]. pose proof (decode_varint_app _ _ _ _ Hok D2) as E2.
  destruct r1 as [|b r1]; [done|]. cbn [count_ranges app] in *.
  rewrite E1. cbn [map_err]. unfold mbind, res_bind; cbn [snd].
  rewrite slice_from_eq by len_lia. rewrite Nat2Z.id.
  change (b :: r1 ++ r2 ++ r3) with ((b :: r1) ++ r2 ++ r3).
  rewrite drop_app_length, E2. cbn [map_err snd].
  rewrite slice_from_eq by len_lia. by rewrite Nat2Z.id, drop_app_length.
Qed.

Section safety.
Context `{Platform} (buf : list Z) (Hbuf : bytes_ok buf) (Hlen : len buf < 2 ^ 31).

Abbreviation safe m Q := (Safe buf (λ e, e = frame_encoding_error) m Q).

(** [read_varint] advances by at least one byte, or fails in place. *)
Lemma read_varint_cases pos :
  0 ≤ pos ≤ len buf →
  (∃ v n, read_varint buf pos = (Ok v, pos + n) ∧ varint_ok v ∧ 1 ≤ n ∧ pos + n ≤ len buf ∧
          decode_varint (drop (Z.to_nat pos) buf) = Ok (v, n)) ∨
  read_varint buf pos = (Err frame_encoding_error, pos).
Proof.
  intros Hpos. unfold read_varint. erewrite M_step_ok by reflexivity.
  destruct (Z.leb_spec (len buf) pos); [by right|].
  rewrite slice_from_eq by lia. erewrite M_step_lift by reflexivity.
  assert (bytes_ok (drop (Z.to_nat pos) buf)) as Hok by by apply Forall_drop.
  pose proof (decode_varint_no_panic _ Hok).
  destruct (decode_varint _) as [[v n]|e|] eqn:D; [|by right|done].
  destruct (decode_varint_inv _ _ _ Hok D) as (Hv & Hn & _). left. exists v, n.
  split_and!; [done..|lia|len_lia|done].
Qed.

Lemma Safe_varint : safe (read_varint buf) varint_ok.
Proof.
  intros pos Hpos. destruct (read_varint_cases pos Hpos) as [(v & n & -> & ? & ? & ? & _)| ->];
    [split; [lia|done]|done].
Qed.

Lemma Safe_bytes n : 0 ≤ n → safe (read_bytes buf n) (λ l, len l = n ∧ n ≤ len buf ∧ bytes_ok l).
Proof.
  intros Hn pos Hpos. unfold read_bytes. erewrite M_step_ok by reflexivity.
  rewrite (proj2 (Z.ltb_ge (len buf) pos)) by lia. cbn [orb].
  destruct (Z.ltb_spec (len buf - pos) n); [done|].
  rewrite slice_eq by lia. erewrite M_step_lift by reflexivity.
  erewrite M_step_ok by reflexivity. unfold mret, M_ret. split_and!; [lia..|len_lia|lia|].
  by apply Forall_take, Forall_drop.
Qed.

(** The range loop stays in bounds, has enough fuel, and consumes whole pairs. *)
Lemma skip_ranges_safe fuel count pos :
  0 ≤ pos ≤ len buf → len buf - pos < Z.of_nat fuel →
  match skip_ranges buf fuel count pos with
  | (Ok _, pos') => pos ≤ pos' ≤ len buf ∧
      let raw := take (Z.to_nat (pos' - pos)) (drop (Z.to_nat pos) buf) in
      ∀ c0, ∃ c, ∀ fuel', (length raw ≤ fuel')%nat → count_ranges fuel' raw c0 = Ok c
  | (Err e, _) => e = frame_encoding_error
  | (Panic, _) => False
  end.
Proof.
  revert count pos. induction fuel as [|fuel IH]; intros count pos Hpos Hf; [lia|].
  simpl skip_ranges. destruct (Z.leb_spec count 0).
  { unfold mret, M_ret. split; [lia|]. rewrite Z.sub_diag. intros c0. exists c0. intros fuel' _. by destruct fuel'. }
  destruct (read_varint_cases pos Hpos) as [(v1 & n1 & R1 & _ & ? & ? & D1)|R1];
    [|by erewrite M_step_err by exact R1].
  erewrite M_step_ok by exact R1.
  destruct (read_varint_cases (pos + n1) ltac:(lia)) as [(v2 & n2 & R2 & _ & ? & ? & D2)|R2];
    [|by erewrite M_step_err by exact R2].
  erewrite M_step_ok by exact R2.
  specialize (IH (count - 1) (pos + n1 + n2) ltac:(lia) ltac:(lia)).
  destruct (skip_ranges _ _ _ _) as [[[]|e|] pos']; [|done..].
  destruct IH as [Hp Hc]. split; [lia|]. cbn zeta in *. intros c0. destruct (Hc (c0 + 1)) as [c Hc'].
  exists c. set (rest := drop (Z.to_nat pos) buf) in *.
  assert (take (Z.to_nat (pos' - pos)) rest =
    take (Z.to_nat n1) rest ++ take (Z.to_nat n2) (drop (Z.to_nat (pos + n1)) buf) ++
    take (Z.to_nat (pos' - (pos + n1 + n2))) (drop (Z.to_nat (pos + n1 + n2)) buf)) as ->.
  { replace (pos' - pos) with (n1 + (n2 + (pos' - (pos + n1 + n2)))) by lia.
    rewrite !(Z2Nat.inj_add n1), (Z2Nat.inj_add n2), <- !take_take_drop by lia.
    unfold rest. rewrite !drop_drop. do 3 f_equal; f_equal; lia. }
  set (r1 := take _ rest) in *. set (r2 := take (Z.to_nat n2) _) in *. set (r3 := take _ _) in *.
  assert (len r1 = n1 ∧ len r2 = n2) as [L1 L2] by (subst r1 r2 rest; len_lia).
  intros [|fuel'] Hfu; [len_lia|].
  rewrite (count_ranges_cons _ _ _ _ _ v1 v2).
  - apply Hc'. len_lia.
  - repeat apply Forall_app_2; by apply Forall_take, Forall_drop.
  - rewrite L1. apply decode_varint_take; [by apply Forall_drop|done].
  - rewrite L2. apply decode_varint_take; [by apply Forall_drop|done].
Qed.

Lemma blob_ok_sub l : bytes_ok l → len l ≤ len buf → blob_ok l.
Proof.
  intros. split_and!; [done|rewrite MAX_VARINT_eq; lia|]. unfold uint. split; [lia|].
  pose proof usize_bits_ge. apply (Z.lt_le_trans _ (2 ^ 31)); [lia|]. apply Z.pow_le_mono_r; lia.
Qed.

Lemma Safe_blob n : safe (read_bytes buf (as_usize n)) (λ l, blob_ok l ∧ len l = as_usize n).
Proof.
  eapply Safe_weaken; [apply Safe_bytes, as_usize_range|].
  intros l (? & ? & ?). split; [apply blob_ok_sub; [done|lia]|done].
Qed.

(** Close a [safe] goal field by field. *)
Ltac safe_arm :=
  repeat first
    [ apply Safe_ret; cbn; split_and?; done
    | eapply Safe_bind; [first [apply Safe_varint | apply Safe_blob]|intros ? ?; cbn beta in *; destruct_and?] ].

Lemma Safe_ack ty : ty = 0x02 ∨ ty = 0x03 → safe (decode_ack buf ty) frame_ok.
Proof.
  intros Hty. unfold decode_ack.
  do 4 (eapply Safe_bind; [apply Safe_varint|intros ? ?]).
  intros pos Hpos. erewrite M_step_ok by reflexivity.
  pose proof (skip_ranges_safe (S (length buf)) a1 pos Hpos ltac:(lia)) as Hskip.
  unfold mbind at 1, M_bind at 1.
  destruct (skip_ranges _ _ _ _) as [[[]|e|] pos']; [|done..].
  destruct Hskip as [Hp Hc]. erewrite M_step_ok by reflexivity.
  rewrite slice_eq by lia. erewrite M_step_lift by reflexivity.
  set (raw := take _ _) in *. cbn zeta in Hc. destruct (Hc 0) as [c Hc0].
  eapply Safe_from with (pos := pos) (pos' := pos'); [|lia..].
  assert (len raw ≤ len buf) by (subst raw; len_lia).
  assert (bytes_ok raw) as Hraw by by apply Forall_take, Forall_drop.
  assert (is_ok (count_ranges (length raw) raw 0) = true) by by rewrite Hc0.
  assert (len raw ≤ MAX_VARINT) by (rewrite MAX_VARINT_eq; lia).
  unfold decode_ecn. destruct Hty as [-> | ->]; simpl (_ =? _); cbv iota; clearbody raw.
  - eapply Safe_bind; [by apply (Safe_ret _ _ None (λ e, e = None))|]. intros ? ->. safe_arm.
  - eapply Safe_bind with (Q := λ e, match e with
      | Some e => varint_ok (ect0 e) ∧ varint_ok (ect1 e) ∧ varint_ok (ecn_ce e) | None => True end).
    + safe_arm.
    + intros. safe_arm.
Qed.

Lemma Safe_stream ty : safe (decode_stream buf ty) frame_ok.
Proof.
  unfold decode_stream. eapply Safe_bind; [apply Safe_varint|intros sid Hsid].
  eapply Safe_bind with (Q := varint_ok).
  { apply Safe_if; intros _; [apply Safe_varint|apply Safe_ret; solve_varint_ok]. }
  intros off Hoff. eapply Safe_bind with (Q := blob_ok).
  - apply Safe_if; intros _.
    + eapply Safe_bind; [apply Safe_varint|intros n Hn].
      eapply Safe_weaken; [apply Safe_blob|by intros l []].
    + intros pos Hpos. erewrite M_step_ok by reflexivity.
      rewrite slice_from_eq by lia. erewrite M_step_lift by reflexivity.
      erewrite M_step_ok by reflexivity. unfold mret, M_ret. split; [lia|].
      apply blob_ok_sub; [by apply Forall_drop|len_lia].
  - intros data Hd. safe_arm.
Qed.

Lemma Safe_new_connection_id : safe (decode_new_connection_id buf) frame_ok.
Proof.
  unfold decode_new_connection_id. do 3 (eapply Safe_bind; [apply Safe_varint|intros ? ?]).
  apply Safe_if; intros Hc; [by apply Safe_throw|].
  eapply Safe_bind; [apply Safe_blob|intros cid [Hcid Hl]].
  eapply Safe_bind; [by apply Safe_bytes|intros tok (Ht & _ & Hok)].
  apply Safe_lift with (Q := λ l, l = tok); [by rewrite Ht|].
  intros ? ->. apply Safe_ret. cbn. split_and!; try done; [apply Hcid|lia].
Qed.

Lemma Safe_path mk : (∀ d, bytes_ok d ∧ len d = 8 → frame_ok (mk d)) → safe (decode_path buf mk) frame_ok.
Proof.
  intros Hmk. eapply Safe_bind; [by apply Safe_bytes|intros l (Hl & _ & Hok)].
  apply Safe_lift with (Q := λ d, d = l); [by rewrite to_array_id|].
  intros ? ->. apply Safe_ret. by apply Hmk.
Qed.

Lemma Safe_connection_close ty : safe (decode_connection_close buf ty) frame_ok.
Proof.
  unfold decode_connection_close. eapply Safe_bind; [apply Safe_varint|intros ec Hec].
  eapply Safe_bind with (Q := λ v, varint_ok v ∧ ((ty =? 0x1d) = true → v = 0)).
  { destruct (ty =? 0x1d); cbn [negb]; [apply Safe_ret; split; [solve_varint_ok|done]|].
    eapply Safe_weaken; [apply Safe_varint|done]. }
  intros ft [Hft Happ]. eapply Safe_bind; [apply Safe_varint|intros n Hn].
  eapply Safe_bind; [apply Safe_blob|intros rs [Hrs _]]. by apply Safe_ret.
Qed.

Lemma Safe_body ty : safe (decode_body buf ty) frame_ok.
Proof.
  unfold decode_body.
  repeat case_match; try (by apply Safe_throw); try (by apply Safe_ret);
    first [ apply Safe_stream | by apply Safe_ack; auto | apply Safe_new_connection_id
          | by apply Safe_path | apply Safe_connection_close
          | autounfold with frame_arms; safe_arm ].
Qed.

Lemma decode_frame_safe : safe (decode_frame buf) frame_ok.
Proof. eapply Safe_bind; [apply Safe_varint|intros ty _; apply Safe_body]. Qed.

End safety.

Lemma bytes_ok_frame_wire `{Platform} f : frame_ok f → bytes_ok (frame_wire f).
Proof.
  destruct f as [| |f|f|f|f|l|f|v|f|f|v|f|f|f|v|d|d|f|]; cbn [frame_ok frame_wire];
    intros Hok; unfold blob_ok, blob_wire in *; destruct_and?;
    repeat first [ apply bytes_ok_varint_wire | assumption | apply Forall_nil_2
                 | (repeat constructor; done) | apply Forall_app_2 | case_match ].
Qed.

(** ** Properties *)

(** The encoder implements the wire format.  On a well-formed frame
    [encode] writes exactly [frame_wire] at the front of a buffer with room,
    leaves the rest of it alone and returns the length written; with less room
    it returns [BufferTooSmall].  It has no other outcome. *)
Theorem frame_encode_refines_wire `{Platform} f buf :
  frame_ok f →
  (len (frame_wire f) ≤ len buf →
     encode f buf = (Ok (len (frame_wire f)), frame_wire f ++ drop (length (frame_wire f)) buf)) ∧
  (len buf < len (frame_wire f) → ∃ e buf', encode f buf = (Err e, buf') ∧ too_small e).
Proof.
  intros Hf. destruct (Writes_start _ _ buf (Writes_frame f Hf)) as [Hok Herr]. unfold encode.
  split; intros Hl; [by rewrite Hok|].
  destruct (Herr Hl) as (e & s' & -> & He). eauto.
Qed.

Lemma frame_decode_wire `{Platform} f post :
  frame_ok f → bytes_ok post → decode (frame_wire f ++ post) = Ok (f, len (frame_wire f)).
Proof.
  intros Hf Hp. pose proof (bytes_ok_frame_wire f Hf) as Hw. unfold decode.
  pose proof (Reads_frame (frame_wire f ++ post) ltac:(by apply Forall_app) f Hf [] post eq_refl) as Hr.
  simpl length in Hr. change (Z.of_nat 0) with 0 in Hr. by rewrite Hr.
Qed.

Lemma frame_decode_cases `{Platform} buf :
  bytes_ok buf → len buf < 2 ^ 31 →
  match decode buf with
  | Ok (f, n) => frame_ok f ∧ 1 ≤ n ≤ len buf
  | Err e => e = Transport TransportError.FrameEncodingError
  | Panic => False
  end.
Proof.
  intros Hb Hl. pose proof (decode_frame_safe buf Hb Hl 0 ltac:(lia)) as Hs.
  unfold decode. unfold decode_frame in *.
  destruct (read_varint_cases buf Hb 0 ltac:(lia)) as [(v & n & Hr & _ & Hn & Hn' & _)|Hr].
  - erewrite M_step_ok in Hs |- * by exact Hr.
    pose proof (Safe_body buf Hb Hl v (0 + n) ltac:(lia)) as Hbody.
    destruct (decode_body buf v (0 + n)) as [[f|e|] pos]; [|done..]. split; [apply Hbody|lia].
  - by erewrite M_step_err by exact Hr.
Qed.

(** C23: decoding inverts encoding.  For every well-formed frame, decoding the
    encoder's output (with or without trailing bytes) gives the frame back and
    consumes exactly the bytes written, on 32-bit and 64-bit targets alike. *)
Theorem frame_roundtrip `{Platform} f buf :
  frame_ok f → bytes_ok buf → len (frame_wire f) ≤ len buf →
  ∃ n buf', encode f buf = (Ok n, buf') ∧ decode buf' = Ok (f, n) ∧
    decode (take (Z.to_nat n) buf') = Ok (f, n).
Proof.
  intros Hf Hb Hl. destruct (Writes_start _ _ buf (Writes_frame f Hf)) as [Hok _].
  exists (len (frame_wire f)), (frame_wire f ++ drop (length (frame_wire f)) buf).
  split_and!.
  - unfold encode. by rewrite Hok.
  - by apply frame_decode_wire, Forall_drop.
  - rewrite Nat2Z.id, take_app_length. rewrite <- (app_nil_r (frame_wire f)) at 1. by apply frame_decode_wire.
Qed.

Definition sample_stream : t :=
  Stream {| st_stream_id := 4; st_offset := 1200; st_data := [104; 105]; st_fin := true |}.

Lemma frame_roundtrip_witness :
  ∃ n buf', encode sample_stream (replicate 10 0) = (Ok n, buf') ∧
            decode (H:=platform32) buf' = Ok (sample_stream, n).
Proof.
  destruct (frame_roundtrip (H:=platform32) sample_stream (replicate 10 0))
    as (n & buf' & He & Hd & _);
    [unfold sample_stream, frame_ok, blob_ok; cbn; split_and!;
       first [by vm_compute | repeat constructor; by vm_compute]
    |by apply Forall_replicate|by vm_compute|]. by exists n, buf'.
Defined.

(** C26: decoding is safe on any input.  Whatever the (at most 2 GiB) bytes,
    [decode] does not panic, the loop over ACK ranges terminates, and the result
    is either [FRAME_ENCODING_ERROR] or a frame within the encoder's domain
    together with a byte count between 1 and the input's length. *)
Theorem frame_decode_total `{Platform} buf :
  bytes_ok buf → len buf < 2 ^ 31 →
  match decode buf with
  | Ok (f, n) => frame_ok f ∧ 1 ≤ n ≤ len buf
  | Err e => e = Transport TransportError.FrameEncodingError
  | Panic => False
  end.
Proof. apply frame_decode_cases. Qed.

Lemma frame_decode_total_witness :
  decode (H:=platform64) [0x02; 5; 0; 1; 0; 1; 2; 0xff] =
    Ok (Ack {| largest_ack := 5; ack_delay := 0; first_ack_range := 0;
               ack_ranges := [1; 2]; ecn := None |}, 7) ∧ 1 ≤ 7 ≤ 8.
Proof.
  split; [reflexivity|].
  pose proof (frame_decode_total (H:=platform64) [0x02; 5; 0; 1; 0; 1; 2; 0xff]
    ltac:(repeat constructor; done) ltac:(done)) as H. by destruct H.
Defined.

End Frame.
