(* ===== verification/PacketHeader.v ===== *)
(** * QUIC packet headers: [src/packet/]

    Long headers ([long_header.rs]), short headers ([short_header.rs]), the
    server's routing helper [decode_dcid] ([decode_dcid.rs]) and the iterator
    over the packets coalesced in a datagram ([coalesce.rs]). *)
From S2P Require Import Prelude Errors Varint Cursor.

Module Packet.

Definition QUIC_VERSION_1 : Z := 0x00000001.

Inductive LongPacketType := Initial | ZeroRtt | Handshake | Retry.

Record LongHeader := {
  lh_packet_type : LongPacketType; lh_version : Z;
  lh_dcid : list Z; lh_scid : list Z; lh_type_specific_bits : Z
}.
Record ShortHeader := { sh_dcid : list Z; sh_first_byte : Z }.
Record VersionNegotiationHeader := {
  vn_dcid : list Z; vn_scid : list Z; vn_supported_versions : list Z
}.
Inductive PacketHeader :=
| Long (h : LongHeader)
| Short (h : ShortHeader)
| VersionNegotiation (h : VersionNegotiationHeader).

Record InitialHeader := {
  ih_version : Z; ih_dcid : list Z; ih_scid : list Z; ih_token : list Z;
  ih_pn_offset : Z; ih_payload_length : Z
}.
Record HandshakeHeader := {
  hh_version : Z; hh_dcid : list Z; hh_scid : list Z;
  hh_pn_offset : Z; hh_payload_length : Z
}.

Definition protocol_violation : Error := Transport TransportError.ProtocolViolation.

(** ** Parsing *)

(** The fields the three long-header parsers start with (the source repeats the
    code in each): first byte, version, both connection IDs, and the position
    after them. *)
Record LongPrefix := {
  p_first_byte : Z; p_version : Z; p_dcid : list Z; p_scid : list Z; p_pos : Z
}.

Definition be_u32_at (buf : list Z) (i : Z) : result Z :=
  b0 ← idx buf i; b1 ← idx buf (i + 1); b2 ← idx buf (i + 2); b3 ← idx buf (i + 3);
  Ok (be_val [b0; b1; b2; b3]).

Section parsing.
Context `{Platform}.

Definition parse_prefix (buf : list Z) : result LongPrefix :=
  if len buf <? 7 then Err (BufferTooSmall 7) else
  first_byte ← idx buf 0;
  if Z.land first_byte 0x80 =? 0 then Err protocol_violation else
  version ← be_u32_at buf 1;
  dcid_len ← idx buf 5;
  let pos := 6 in
  dcid_end ← usize_add pos dcid_len;
  if len buf <? dcid_end then Err (BufferTooSmall dcid_end) else
  dcid ← slice buf pos dcid_end;
  let pos := dcid_end in
  if len buf <=? pos then needed ← usize_add pos 1; Err (BufferTooSmall needed) else
  scid_len ← idx buf pos;
  pos ← usize_add pos 1;
  scid_end ← usize_add pos scid_len;
  if len buf <? scid_end then Err (BufferTooSmall scid_end) else
  scid ← slice buf pos scid_end;
  Ok {| p_first_byte := first_byte; p_version := version; p_dcid := dcid; p_scid := scid;
        p_pos := scid_end |}.

Definition parse_long_header (buf : list Z) : result (PacketHeader * Z) :=
  p ← parse_prefix buf;
  if p_version p =? 0 then
    supported_versions ← slice_from buf (p_pos p);
    Ok (VersionNegotiation {| vn_dcid := p_dcid p; vn_scid := p_scid p;
                              vn_supported_versions := supported_versions |}, len buf)
  else
    packet_type ← match Z.shiftr (Z.land (p_first_byte p) 0x30) 4 with
      | 0 => Ok Initial | 1 => Ok ZeroRtt | 2 => Ok Handshake | 3 => Ok Retry
      | _ => Panic
      end;
    Ok (Long {| lh_packet_type := packet_type; lh_version := p_version p; lh_dcid := p_dcid p;
                lh_scid := p_scid p; lh_type_specific_bits := Z.land (p_first_byte p) 0x0f |},
        p_pos p).

Definition parse_initial_header (buf : list Z) : result (InitialHeader * Z) :=
  p ← parse_prefix buf;
  sub ← slice_from buf (p_pos p);
  tl ← decode_varint sub;
  pos ← usize_add (p_pos p) tl.2;
  let token_len := as_usize tl.1 in
  token_end ← usize_add pos token_len;
  if len buf <? token_end then Err (BufferTooSmall token_end) else
  token ← slice buf pos token_end;
  sub ← slice_from buf token_end;
  pl ← decode_varint sub;
  pos ← usize_add token_end pl.2;
  Ok ({| ih_version := p_version p; ih_dcid := p_dcid p; ih_scid := p_scid p; ih_token := token;
         ih_pn_offset := pos; ih_payload_length := as_usize pl.1 |}, pos).

Definition parse_handshake_header (buf : list Z) : result (HandshakeHeader * Z) :=
  p ← parse_prefix buf;
  sub ← slice_from buf (p_pos p);
  pl ← decode_varint sub;
  pos ← usize_add (p_pos p) pl.2;
  Ok ({| hh_version := p_version p; hh_dcid := p_dcid p; hh_scid := p_scid p;
         hh_pn_offset := pos; hh_payload_length := as_usize pl.1 |}, pos).

Definition parse_short_header (buf : list Z) (dcid_len : Z) : result (ShortHeader * Z) :=
  needed ← usize_add 1 dcid_len;
  if len buf <? needed then Err (BufferTooSmall needed) else
  first_byte ← idx buf 0;
  if negb (Z.land first_byte 0x80 =? 0) then Err protocol_violation else
  dcid_end ← usize_add 1 dcid_len;
  dcid ← slice buf 1 dcid_end;
  Ok ({| sh_dcid := dcid; sh_first_byte := first_byte |}, needed).

(** [decode_dcid]: [Ok None] is the source's [None]. *)
Definition decode_dcid (datagram : list Z) (short_header_dcid_len : Z) : result (option (list Z)) :=
  if len datagram =? 0 then Ok None else
  first_byte ← idx datagram 0;
  if negb (Z.land first_byte 0x80 =? 0) then
    if len datagram <? 6 then Ok None else
    dcid_len ← idx datagram 5;
    e ← usize_add 6 dcid_len;
    if len datagram <? e then Ok None else
    dcid ← slice datagram 6 e; Ok (Some dcid)
  else
    e ← usize_add 1 short_header_dcid_len;
    if len datagram <? e then Ok None else
    dcid ← slice datagram 1 e; Ok (Some dcid).

End parsing.

(** ** Encoding *)

(** [(pn_len as u8).wrapping_sub(1) & 0x03]. *)
Definition pn_len_bits (pn_len : Z) : Z := Z.land (trunc 8 (trunc 8 pn_len - 1)) 0x03.

Definition encode_initial_header (dcid scid token : list Z) (pn_len payload_len : Z)
    : M Error (list Z) Z :=
  let needed := 1 + 4 + 1 + len dcid + 1 + len scid + varint_len (len token) + len token +
                varint_len payload_len in
  l ← buf_len;
  if l <? needed then throw (BufferTooSmall needed) else
  from_start (
    _ ← put_u8 (Z.lor 0xC0 (pn_len_bits pn_len));
    _ ← put_slice (be_bytes 4 QUIC_VERSION_1);
    _ ← put_u8 (trunc 8 (len dcid));
    _ ← put_slice dcid;
    _ ← put_u8 (trunc 8 (len scid));
    _ ← put_slice scid;
    _ ← put_varint (len token);
    _ ← put_slice token;
    put_varint payload_len).

Definition encode_handshake_header (dcid scid : list Z) (pn_len payload_len : Z)
    : M Error (list Z) Z :=
  let needed := 1 + 4 + 1 + len dcid + 1 + len scid + varint_len payload_len in
  l ← buf_len;
  if l <? needed then throw (BufferTooSmall needed) else
  from_start (
    _ ← put_u8 (Z.lor 0xE0 (pn_len_bits pn_len));
    _ ← put_slice (be_bytes 4 QUIC_VERSION_1);
    _ ← put_u8 (trunc 8 (len dcid));
    _ ← put_slice dcid;
    _ ← put_u8 (trunc 8 (len scid));
    _ ← put_slice scid;
    put_varint payload_len).

Definition encode_short_header (dcid : list Z) (first_byte : Z) : M Error (list Z) Z :=
  let needed := 1 + len dcid in
  l ← buf_len;
  if l <? needed then throw (BufferTooSmall needed) else
  _ ← store 0 first_byte;
  _ ← store_slice 1 (1 + len dcid) dcid;
  mret needed.

(** ** Coalesced packets *)

Section coalesce.
Context `{Platform}.

(** The end of a long-header packet, from the position after its connection
    IDs: the token of an Initial packet is skipped, a Retry packet takes the
    rest, and the Length field says where the others end.  An [Err] makes the
    iterator skip to the end of the datagram before it is returned, so the last
    one reports an offset relative to [buf.len()]. *)
Definition long_packet_end (buf remaining : list Z) (first_byte pos : Z) : result Z :=
  let pkt_type := Z.shiftr (Z.land first_byte 0x30) 4 in
  pos ← (if pkt_type =? 0 then
           sub ← slice_from remaining pos;
           tl ← decode_varint sub;
           pos ← usize_add pos tl.2;
           pos ← usize_add pos (as_usize tl.1);
           if len remaining <? pos then Err (BufferTooSmall pos) else Ok pos
         else Ok pos);
  if pkt_type =? 3 then Ok (len remaining) else
  sub ← slice_from remaining pos;
  pl ← decode_varint sub;
  pos ← usize_add pos pl.2;
  total ← usize_add pos (as_usize pl.1);
  if len remaining <? total then needed ← usize_add (len buf) total; Err (BufferTooSmall needed)
  else Ok total.

(** The length of the packet [remaining] starts with. *)
Definition packet_extent (buf remaining : list Z) : result Z :=
  first_byte ← idx remaining 0;
  if negb (Z.land first_byte 0x80 =? 0) then
    if len remaining <? 6 then Err (BufferTooSmall 6) else
    version ← be_u32_at remaining 1;
    if version =? 0 then Ok (len remaining) else
    dcid_len ← idx remaining 5;
    pos ← usize_add 6 dcid_len;
    if len remaining <=? pos then needed ← usize_add pos 1; Err (BufferTooSmall needed) else
    scid_len ← idx remaining pos;
    pos ← usize_add pos 1;
    scid_end ← usize_add pos scid_len;
    if len remaining <? scid_end then Err (BufferTooSmall scid_end) else
    long_packet_end buf remaining first_byte scid_end
  else Ok (len remaining).

(** [CoalescedPackets::next]: the item and the new offset. *)
Definition coalesced_next (buf : list Z) (offset : Z) : option (result (list Z)) * Z :=
  if len buf <=? offset then (None, offset) else
  match slice_from buf offset with
  | Ok remaining =>
      match packet_extent buf remaining with
      | Ok n => (Some (slice buf offset (offset + n)), offset + n)
      | Err e => (Some (Err e), len buf)
      | Panic => (Some Panic, offset)
      end
  | Err e => (Some (Err e), offset)
  | Panic => (Some Panic, offset)
  end.

(** Drive the iterator to its end. *)
Fixpoint coalesced_all (fuel : nat) (buf : list Z) (offset : Z) : list (result (list Z)) :=
  match fuel with
  | O => [Panic]
  | S fuel =>
      match coalesced_next buf offset with
      | (None, _) => []
      | (Some Panic, _) => [Panic]
      | (Some item, offset') => item :: coalesced_all fuel buf offset'
      end
  end.

End coalesce.

(** ** Wire form of the long-header prefix *)

Definition prefix_wire (first_byte version : Z) (dcid scid : list Z) : list Z :=
  [first_byte] ++ be_bytes 4 version ++ [len dcid] ++ dcid ++ [len scid] ++ scid.

Definition cid_ok (cid : list Z) : Prop := bytes_ok cid ∧ len cid ≤ 255.

Lemma len_prefix_wire fb v dcid scid :
  len (prefix_wire fb v dcid scid) = 7 + len dcid + len scid.
Proof. unfold prefix_wire. len_lia. Qed.

Lemma be_u32_at_cells a b0 b1 b2 b3 l :
  be_u32_at (a :: b0 :: b1 :: b2 :: b3 :: l) 1 = Ok (be_val [b0; b1; b2; b3]).
Proof.
  unfold be_u32_at. repeat (erewrite idx_ok by (lia || reflexivity); simpl). done.
Qed.

(** A list known to be long enough, as explicit cells and a tail. *)
Lemma cells6 (buf : list Z) :
  6 ≤ len buf → ∃ a b0 b1 b2 b3 d l, buf = a :: b0 :: b1 :: b2 :: b3 :: d :: l.
Proof. intros. explode buf 6%nat. naive_solver. Qed.

Section prefix.
Context `{Platform}.

(** The connection IDs are found where the length bytes say. *)
Lemma prefix_cids_eq a b0 b1 b2 b3 dcid scid rest :
  len dcid ≤ 255 → len scid ≤ 255 →
  let buf := a :: b0 :: b1 :: b2 :: b3 :: len dcid :: dcid ++ len scid :: scid ++ rest in
  slice buf 6 (6 + len dcid) = Ok (E:=Error) dcid ∧
  idx buf (6 + len dcid) = Ok (E:=Error) (len scid) ∧
  slice buf (6 + len dcid + 1) (6 + len dcid + 1 + len scid) = Ok (E:=Error) scid.
Proof.
  intros Hd Hs buf. split_and!.
  - apply (slice_middle [a; b0; b1; b2; b3; len dcid] dcid); done.
  - apply idx_ok; [lia|]. subst buf.
    change (a :: b0 :: b1 :: b2 :: b3 :: len dcid :: dcid ++ len scid :: scid ++ rest)
      with ([a; b0; b1; b2; b3; len dcid] ++ dcid ++ len scid :: scid ++ rest).
    rewrite app_assoc, lookup_app_r by len_lia.
    replace (_ - _)%nat with 0%nat by len_lia. done.
  - assert (buf = ([a; b0; b1; b2; b3; len dcid] ++ dcid ++ [len scid]) ++ scid ++ rest) as ->
      by (subst buf; rewrite <- !app_assoc; done).
    apply slice_middle; len_lia.
Qed.

Lemma parse_prefix_cells a b0 b1 b2 b3 dcid scid rest :
  Z.land a 0x80 ≠ 0 → len dcid ≤ 255 → len scid ≤ 255 →
  parse_prefix (a :: b0 :: b1 :: b2 :: b3 :: len dcid :: dcid ++ len scid :: scid ++ rest) =
  Ok {| p_first_byte := a; p_version := be_val [b0; b1; b2; b3]; p_dcid := dcid; p_scid := scid;
        p_pos := 6 + len dcid + 1 + len scid |}.
Proof.
  intros Ha Hd Hs. destruct (prefix_cids_eq a b0 b1 b2 b3 dcid scid rest Hd Hs) as (E1 & E2 & E3).
  pose proof pow_usize_ge. set (buf := a :: _) in *.
  assert (7 + len dcid + len scid ≤ len buf) by (subst buf; len_lia).
  unfold parse_prefix, mbind, res_bind. rewrite (proj2 (Z.ltb_ge _ 7)) by lia.
  assert (idx buf 0 = Ok (E:=Error) a) as -> by (by apply idx_ok). cbv iota beta.
  rewrite (proj2 (Z.eqb_neq _ 0)) by done.
  unfold buf at 1. rewrite be_u32_at_cells. fold buf. cbv iota beta.
  assert (idx buf 5 = Ok (E:=Error) (len dcid)) as -> by (by apply idx_ok). cbv iota beta zeta.
  rewrite usize_add_ok by lia. rewrite (proj2 (Z.ltb_ge _ _)) by lia. rewrite E1.
  rewrite (proj2 (Z.leb_gt _ _)) by lia. rewrite E2, usize_add_ok by lia. cbv iota beta.
  rewrite usize_add_ok by lia. rewrite (proj2 (Z.ltb_ge _ _)) by lia. by rewrite E3.
Qed.

Lemma parse_prefix_wire fb v dcid scid rest :
  Z.land fb 0x80 ≠ 0 → uint 32 v → cid_ok dcid → cid_ok scid →
  parse_prefix (prefix_wire fb v dcid scid ++ rest) =
  Ok {| p_first_byte := fb; p_version := v; p_dcid := dcid; p_scid := scid;
        p_pos := len (prefix_wire fb v dcid scid) |}.
Proof.
  intros Hfb Hv [_ Hd] [_ Hs]. rewrite len_prefix_wire.
  replace (7 + len dcid + len scid) with (6 + len dcid + 1 + len scid) by lia.
  assert (be_val (be_bytes 4 v) = v) as Hbe by by apply be_val_be_bytes_id.
  unfold prefix_wire. rewrite <- !app_assoc. cbn [be_bytes app].
  rewrite parse_prefix_cells by done. do 2 f_equal. exact Hbe.
Qed.

(** Every successful parse is of that shape; a short or malformed prefix is an
    error, never a panic. *)
Lemma parse_prefix_inv buf :
  bytes_ok buf → len buf < 2 ^ 31 →
  match parse_prefix buf with
  | Ok p => p_pos p ≤ len buf ∧ 7 ≤ p_pos p ∧ uint 32 (p_version p) ∧
      cid_ok (p_dcid p) ∧ cid_ok (p_scid p) ∧ byte_ok (p_first_byte p) ∧
      ∃ rest, buf = prefix_wire (p_first_byte p) (p_version p) (p_dcid p) (p_scid p) ++ rest
  | Err _ => True
  | Panic => False
  end.
Proof.
  intros Hok Hl. pose proof pow_usize_ge. unfold parse_prefix, mbind, res_bind.
  destruct (Z.ltb_spec (len buf) 7); [done|].
  destruct (cells6 buf) as (a & b0 & b1 & b2 & b3 & d & l & Hbuf); [lia|].
  assert (bytes_ok [a; b0; b1; b2; b3; d]) as Hcells.
  { rewrite Hbuf in Hok. by apply (Forall_take _ 6) in Hok. }
  rewrite !Forall_cons in Hcells. destruct Hcells as (Ha & Hb0 & Hb1 & Hb2 & Hb3 & Hd & _).
  unfold byte_ok in Hd. rewrite (idx_ok _ 0 a) by (done || by rewrite Hbuf).
  destruct (Z.land a 0x80 =? 0); [done|].
  replace (be_u32_at buf 1) with (Ok (E:=Error) (be_val [b0; b1; b2; b3]))
    by (by rewrite Hbuf, be_u32_at_cells).
  rewrite (idx_ok _ 5 d) by (done || by rewrite Hbuf).
  rewrite usize_add_ok by lia. destruct (Z.ltb_spec (len buf) (6 + d)) as [|Hd']; [done|].
  rewrite slice_eq by lia. destruct (Z.leb_spec (len buf) (6 + d)); [by rewrite usize_add_ok by lia|].
  destruct (idx_no_panic (E:=Error) buf (6 + d)) as [sl Hsl]; [lia|]. rewrite Hsl.
  rewrite usize_add_ok by lia. cbv iota beta.
  assert (byte_ok sl) as Hs by (by eapply idx_byte).
  unfold byte_ok in Hs. rewrite usize_add_ok by lia.
  destruct (Z.ltb_spec (len buf) (6 + d + 1 + sl)) as [|Hs']; [done|].
  rewrite slice_eq by lia. cbn [p_pos p_version p_dcid p_scid p_first_byte].
  assert (bytes_ok [b0; b1; b2; b3]) as Hv by by rewrite !Forall_cons.
  set (dcid := take _ _). set (scid := take _ (drop (Z.to_nat (6 + d + 1)) _)).
  assert (len dcid = d ∧ len scid = sl) as [Ld Ls] by (subst dcid scid; len_lia).
  split_and!; [lia..|by apply be_val_bound|split; [by apply Forall_take, Forall_drop|lia]
    |split; [by apply Forall_take, Forall_drop|lia]|done|].
  exists (drop (Z.to_nat (6 + d + 1 + sl)) buf).
  pose proof (be_bytes_be_val [b0; b1; b2; b3] Hv) as Hbe. cbn [length] in Hbe.
  unfold prefix_wire. rewrite Hbe, Ld, Ls.
  assert (buf = [a; b0; b1; b2; b3; d] ++ drop 6 buf) as Hsplit by by rewrite Hbuf.
  rewrite Hsplit at 1. rewrite <- !app_assoc. simpl. do 6 f_equal.
  apply idx_lookup, drop_S in Hsl.
  rewrite <- (take_drop (Z.to_nat d) (drop 6 buf)), drop_drop.
  replace (6 + Z.to_nat d)%nat with (Z.to_nat (6 + d)) by lia. rewrite Hsl.
  subst dcid scid. f_equal; [do 2 f_equal; lia|]. f_equal.
  rewrite <- (take_drop (Z.to_nat sl) (drop (S _) buf)), drop_drop.
  do 2 f_equal; [lia|f_equal; lia|f_equal; lia].
Qed.

End prefix.

(** ** Encoded headers *)

Definition initial_wire (dcid scid token : list Z) (pn_len payload_len : Z) : list Z :=
  prefix_wire (Z.lor 0xC0 (pn_len_bits pn_len)) QUIC_VERSION_1 dcid scid ++
  varint_wire (len token) ++ token ++ varint_wire payload_len.
Definition handshake_wire (dcid scid : list Z) (pn_len payload_len : Z) : list Z :=
  prefix_wire (Z.lor 0xE0 (pn_len_bits pn_len)) QUIC_VERSION_1 dcid scid ++
  varint_wire payload_len.

Lemma pn_len_bits_eq pn_len : 1 ≤ pn_len ≤ 4 → pn_len_bits pn_len = pn_len - 1.
Proof.
  intros. assert (pn_len = 1 ∨ pn_len = 2 ∨ pn_len = 3 ∨ pn_len = 4) as [->|[->|[->| ->]]] by lia; done.
Qed.

(** The first byte of an encoded header has the form bit, its packet type and
    the packet-number length. *)
Lemma first_byte_bits base pn_len :
  base = 0xC0 ∨ base = 0xE0 → 1 ≤ pn_len ≤ 4 →
  let fb := Z.lor base (pn_len_bits pn_len) in
  byte_ok fb ∧ Z.land fb 0x80 ≠ 0 ∧
  Z.shiftr (Z.land fb 0x30) 4 = (if base =? 0xC0 then 0 else 2) ∧ Z.land fb 0x0f = pn_len - 1.
Proof.
  intros Hb Hp. unfold byte_ok.
  assert (pn_len = 1 ∨ pn_len = 2 ∨ pn_len = 3 ∨ pn_len = 4) as [->|[->|[->| ->]]] by lia;
    destruct Hb as [-> | ->]; vm_compute; intuition congruence.
Qed.

Lemma trunc8_len (l : list Z) : len l ≤ 255 → trunc 8 (len l) = len l.
Proof. intros. apply trunc_small. unfold uint. lia. Qed.

Lemma encode_initial_ok dcid scid token pn_len payload_len buf :
  cid_ok dcid → cid_ok scid → varint_ok (len token) → varint_ok payload_len →
  let w := initial_wire dcid scid token pn_len payload_len in
  len w ≤ len buf →
  encode_initial_header dcid scid token pn_len payload_len buf =
  (Ok (len w), w ++ drop (length w) buf).
Proof.
  intros [_ Hd] [_ Hs] Ht Hp w Hl. unfold encode_initial_header.
  pose proof (len_varint_wire (len token)). pose proof (len_varint_wire payload_len).
  pose proof (len_prefix_wire (Z.lor 0xC0 (pn_len_bits pn_len)) QUIC_VERSION_1 dcid scid).
  erewrite M_step_ok by reflexivity.
  rewrite (proj2 (Z.ltb_ge _ _)) by (subst w; unfold initial_wire in Hl; len_lia).
  apply Puts_start; [|done]. subst w. unfold initial_wire, prefix_wire.
  rewrite (trunc8_len dcid), (trunc8_len scid), <- !app_assoc by done.
  repeat first [ apply Puts_bind | apply Puts_u8 | apply Puts_slice | by apply Puts_varint ].
Qed.

Lemma encode_handshake_ok dcid scid pn_len payload_len buf :
  cid_ok dcid → cid_ok scid → varint_ok payload_len →
  let w := handshake_wire dcid scid pn_len payload_len in
  len w ≤ len buf →
  encode_handshake_header dcid scid pn_len payload_len buf = (Ok (len w), w ++ drop (length w) buf).
Proof.
  intros [_ Hd] [_ Hs] Hp w Hl. unfold encode_handshake_header.
  pose proof (len_varint_wire payload_len).
  pose proof (len_prefix_wire (Z.lor 0xE0 (pn_len_bits pn_len)) QUIC_VERSION_1 dcid scid).
  erewrite M_step_ok by reflexivity.
  rewrite (proj2 (Z.ltb_ge _ _)) by (subst w; unfold handshake_wire in Hl; len_lia).
  apply Puts_start; [|done]. subst w. unfold handshake_wire, prefix_wire.
  rewrite (trunc8_len dcid), (trunc8_len scid), <- !app_assoc by done.
  repeat first [ apply Puts_bind | apply Puts_u8 | apply Puts_slice | by apply Puts_varint ].
Qed.

Section headers.
Context `{Platform}.

(** The fields after the prefix of an Initial packet, found at their place. *)
Lemma parse_initial_wire fb dcid scid token payload_len rest :
  Z.land fb 0x80 ≠ 0 → cid_ok dcid → cid_ok scid → bytes_ok token → bytes_ok rest →
  varint_ok payload_len → uint usize_bits payload_len → len token < 2 ^ 31 →
  let p := prefix_wire fb QUIC_VERSION_1 dcid scid in
  let w := p ++ varint_wire (len token) ++ token ++ varint_wire payload_len in
  parse_initial_header (w ++ rest) =
  Ok ({| ih_version := QUIC_VERSION_1; ih_dcid := dcid; ih_scid := scid; ih_token := token;
         ih_pn_offset := len w; ih_payload_length := payload_len |}, len w).
Proof.
  intros Hfb Hd Hs Htok Hrest Hp Hpu Hl p w. pose proof pow_usize_ge.
  pose proof (len_prefix_wire fb QUIC_VERSION_1 dcid scid) as Lp. fold p in Lp.
  destruct Hd as [? Hd'], Hs as [? Hs'].
  assert (varint_ok (len token)) as Ht by (unfold varint_ok; rewrite MAX_VARINT_eq; lia).
  pose proof (len_varint_wire (len token)) as L1. pose proof (len_varint_wire payload_len) as L2.
  assert (varint_len (len token) ≤ 8 ∧ varint_len payload_len ≤ 8) as [B1 B2]
    by (unfold varint_len; case_tests; lia).
  unfold parse_initial_header, w. rewrite <- !app_assoc.
  pose proof (parse_prefix_wire fb QUIC_VERSION_1 dcid scid
    (varint_wire (len token) ++ token ++ varint_wire payload_len ++ rest)
    Hfb ltac:(done) ltac:(done) ltac:(done)) as Hpp. fold p in Hpp. rewrite Hpp.
  unfold mbind, res_bind; cbn [p_pos p_version p_dcid p_scid].
  rewrite slice_from_eq by len_lia. rewrite Nat2Z.id, drop_app_length.
  rewrite decode_varint_wire by (done || (repeat apply Forall_app_2; auto with rust)).
  cbn [fst snd]. rewrite usize_add_ok by lia.
  rewrite as_usize_small by (unfold uint; lia). rewrite usize_add_ok by lia.
  rewrite (proj2 (Z.ltb_ge _ _)) by len_lia.
  rewrite (app_assoc p), slice_middle by len_lia. rewrite (app_assoc (p ++ _)).
  rewrite slice_from_eq by len_lia.
  replace (Z.to_nat _) with (length ((p ++ varint_wire (len token)) ++ token)) by len_lia.
  rewrite drop_app_length, decode_varint_wire by done. cbn [fst snd].
  rewrite usize_add_ok by lia. rewrite as_usize_small by done.
  assert (len p + varint_len (len token) + len token + varint_len payload_len =
    len (p ++ varint_wire (len token) ++ token ++ varint_wire payload_len)) as -> by len_lia. done.
Qed.

Lemma parse_handshake_wire fb dcid scid payload_len rest :
  Z.land fb 0x80 ≠ 0 → cid_ok dcid → cid_ok scid → bytes_ok rest →
  varint_ok payload_len → uint usize_bits payload_len →
  let p := prefix_wire fb QUIC_VERSION_1 dcid scid in
  let w := p ++ varint_wire payload_len in
  parse_handshake_header (w ++ rest) =
  Ok ({| hh_version := QUIC_VERSION_1; hh_dcid := dcid; hh_scid := scid;
         hh_pn_offset := len w; hh_payload_length := payload_len |}, len w).
Proof.
  intros Hfb Hd Hs Hrest Hp Hpu p w. pose proof pow_usize_ge.
  pose proof (len_prefix_wire fb QUIC_VERSION_1 dcid scid) as Lp. fold p in Lp.
  pose proof (len_varint_wire payload_len) as L2.
  assert (varint_len payload_len ≤ 8) by (unfold varint_len; case_tests; lia).
  unfold parse_handshake_header, w. rewrite <- !app_assoc.
  pose proof (parse_prefix_wire fb QUIC_VERSION_1 dcid scid (varint_wire payload_len ++ rest)
    Hfb ltac:(done) ltac:(done) ltac:(done)) as Hpp. fold p in Hpp. rewrite Hpp.
  destruct Hd as [? Hd'], Hs as [? Hs'].
  unfold mbind, res_bind; cbn [p_pos p_version p_dcid p_scid].
  rewrite slice_from_eq by len_lia. rewrite Nat2Z.id, drop_app_length.
  rewrite decode_varint_wire by done. cbn [fst snd].
  rewrite usize_add_ok by lia. rewrite as_usize_small by done.
  by assert (len p + varint_len payload_len = len (p ++ varint_wire payload_len)) as -> by len_lia.
Qed.

Lemma bytes_ok_prefix_wire fb v dcid scid :
  byte_ok fb → cid_ok dcid → cid_ok scid → bytes_ok (prefix_wire fb v dcid scid).
Proof.
  intros Hfb [? ?] [? ?]. unfold prefix_wire.
  repeat apply Forall_app_2; auto with rust; repeat constructor; unfold byte_ok in *; lia.
Qed.

(** The generic long-header parser sees the same prefix and the packet type. *)
Lemma parse_long_wire base pn_len dcid scid rest :
  base = 0xC0 ∨ base = 0xE0 → 1 ≤ pn_len ≤ 4 → cid_ok dcid → cid_ok scid →
  let p := prefix_wire (Z.lor base (pn_len_bits pn_len)) QUIC_VERSION_1 dcid scid in
  parse_long_header (p ++ rest) =
  Ok (Long {| lh_packet_type := if base =? 0xC0 then Initial else Handshake;
              lh_version := QUIC_VERSION_1; lh_dcid := dcid; lh_scid := scid;
              lh_type_specific_bits := pn_len - 1 |}, len p).
Proof.
  intros Hb Hpn Hd Hs p. destruct (first_byte_bits base pn_len Hb Hpn) as (Hfb & Hform & Hty & Hbits).
  unfold parse_long_header, p. rewrite parse_prefix_wire by done.
  unfold mbind, res_bind; cbn [p_pos p_version p_dcid p_scid p_first_byte].
  rewrite Hty, Hbits. by destruct Hb as [-> | ->].
Qed.

(** ** Absence of panics on 64-bit targets *)

(** A varint read from inside a buffer ends inside it, and its value leaves
    room for any later position. *)
Lemma read_varint_inside buf pos :
  usize_bits = 64 → bytes_ok buf → 0 ≤ pos ≤ len buf → len buf < 2 ^ 31 →
  match slice_from (E:=Error) buf pos ≫= decode_varint with
  | Ok (v, n) => slice_from (E:=Error) buf pos = Ok (drop (Z.to_nat pos) buf) ∧
      decode_varint (drop (Z.to_nat pos) buf) = Ok (v, n) ∧
      0 ≤ v < 2 ^ 62 ∧ 1 ≤ n ∧ pos + n ≤ len buf ∧ as_usize v = v
  | Err e => slice_from (E:=Error) buf pos = Ok (drop (Z.to_nat pos) buf) ∧
      decode_varint (drop (Z.to_nat pos) buf) = Err e
  | Panic => False
  end.
Proof.
  intros H64 Hb Hp Hl. rewrite slice_from_eq by lia. unfold mbind, res_bind.
  assert (bytes_ok (drop (Z.to_nat pos) buf)) as Hd by by apply Forall_drop.
  pose proof (decode_varint_no_panic _ Hd) as Hnp.
  destruct (decode_varint _) as [[v n]|e|] eqn:Hv; [|done|by destruct Hnp].
  destruct (decode_varint_inv _ _ _ Hd Hv) as (Hr & Hn & _). rewrite MAX_VARINT_eq in Hr.
  rewrite length_drop in Hn. split_and!; try done; try lia.
  apply as_usize_small. unfold uint. rewrite H64. lia.
Qed.

Lemma parse_initial_no_panic buf :
  usize_bits = 64 → bytes_ok buf → len buf < 2 ^ 31 → no_panic (parse_initial_header buf).
Proof.
  intros H64 Hb Hl. unfold parse_initial_header, no_panic.
  pose proof (parse_prefix_inv buf Hb Hl) as Hp.
  destruct (parse_prefix buf) as [p| |]; [|done..]. destruct Hp as (Hp & Hp7 & _).
  unfold mbind, res_bind. pose proof (read_varint_inside buf (p_pos p) H64 Hb ltac:(lia) Hl) as Ht.
  destruct (slice_from buf (p_pos p) ≫= decode_varint) as [[tl n]| |] eqn:Et; [|by destruct Ht as [-> ->]|done].
  destruct Ht as (-> & -> & Hv & Hn & Hin & Hu). cbn [fst snd].
  rewrite usize_add_ok by (rewrite H64; lia). rewrite Hu, usize_add_ok by (rewrite H64; lia).
  destruct (Z.ltb_spec (len buf) (p_pos p + n + tl)); [done|]. rewrite slice_eq by lia.
  pose proof (read_varint_inside buf (p_pos p + n + tl) H64 Hb ltac:(lia) Hl) as Ht'.
  destruct (slice_from buf (p_pos p + n + tl) ≫= decode_varint) as [[pl m]| |] eqn:Et'; [|by destruct Ht' as [-> ->]|done].
  destruct Ht' as (-> & -> & _ & _ & Hin' & _). cbn [fst snd].
  by rewrite usize_add_ok by (rewrite H64; lia).
Qed.

Lemma parse_handshake_no_panic buf :
  usize_bits = 64 → bytes_ok buf → len buf < 2 ^ 31 → no_panic (parse_handshake_header buf).
Proof.
  intros H64 Hb Hl. unfold parse_handshake_header, no_panic.
  pose proof (parse_prefix_inv buf Hb Hl) as Hp.
  destruct (parse_prefix buf) as [p| |]; [|done..]. destruct Hp as (Hp & Hp7 & _).
  unfold mbind, res_bind. pose proof (read_varint_inside buf (p_pos p) H64 Hb ltac:(lia) Hl) as Ht.
  destruct (slice_from buf (p_pos p) ≫= decode_varint) as [[tl n]| |] eqn:Et; [|by destruct Ht as [-> ->]|done].
  destruct Ht as (-> & -> & _ & _ & Hin & _). cbn [fst snd].
  by rewrite usize_add_ok by (rewrite H64; lia).
Qed.

Lemma packet_type_range b : byte_ok b → 0 ≤ Z.shiftr (Z.land b 0x30) 4 ≤ 3.
Proof.
  intros Hb. pose proof (byte_forall (λ b, (0 <=? Z.shiftr (Z.land b 0x30) 4) &&
    (Z.shiftr (Z.land b 0x30) 4 <=? 3)) ltac:(vm_compute; reflexivity) b Hb) as Hr.
  cbv beta in Hr. apply andb_true_iff in Hr as [H1%Z.leb_le H2%Z.leb_le]. lia.
Qed.

Lemma parse_long_no_panic buf :
  bytes_ok buf → len buf < 2 ^ 31 → no_panic (parse_long_header buf).
Proof.
  intros Hb Hl. unfold parse_long_header, no_panic.
  pose proof (parse_prefix_inv buf Hb Hl) as Hp.
  destruct (parse_prefix buf) as [p| |]; [|done..]. destruct Hp as (Hp & Hp7 & _ & _ & _ & Hfb & _).
  unfold mbind, res_bind. pose proof (packet_type_range _ Hfb).
  destruct (p_version p =? 0); [by rewrite slice_from_eq by lia|].
  set (t := Z.shiftr _ 4) in *.
  assert (t = 0 ∨ t = 1 ∨ t = 2 ∨ t = 3) as [-> |[-> |[-> | ->]]] by lia; done.
Qed.

Lemma parse_short_no_panic buf dcid_len :
  0 ≤ dcid_len < 2 ^ 31 → no_panic (parse_short_header buf dcid_len).
Proof.
  intros Hd. pose proof pow_usize_ge. unfold parse_short_header, no_panic, mbind, res_bind.
  rewrite usize_add_ok by lia. destruct (Z.ltb_spec (len buf) (1 + dcid_len)); [done|].
  destruct (idx_no_panic (E:=Error) buf 0) as [a ->]; [lia|]. case_match; [done|].
  by rewrite slice_eq by lia.
Qed.

Lemma decode_dcid_no_panic buf dcid_len :
  bytes_ok buf → 0 ≤ dcid_len < 2 ^ 31 → no_panic (decode_dcid buf dcid_len).
Proof.
  intros Hb Hd. pose proof pow_usize_ge. unfold decode_dcid, no_panic, mbind, res_bind.
  destruct (Z.eqb_spec (len buf) 0); [done|].
  destruct (idx_no_panic (E:=Error) buf 0) as [a ->]; [lia|]. case_match.
  - destruct (Z.ltb_spec (len buf) 6); [done|].
    destruct (idx_no_panic (E:=Error) buf 5) as [d Hd5]; [lia|]. rewrite Hd5.
    assert (byte_ok d) as Hdb by (by eapply idx_byte). unfold byte_ok in Hdb.
    rewrite usize_add_ok by lia. destruct (Z.ltb_spec (len buf) (6 + d)); [done|].
    by rewrite slice_eq by lia.
  - rewrite usize_add_ok by lia. destruct (Z.ltb_spec (len buf) (1 + dcid_len)); [done|].
    by rewrite slice_eq by lia.
Qed.

(** ** Coalesced packets *)

Lemma be_u32_at_no_panic buf : 5 ≤ len buf → ∃ v, be_u32_at buf 1 = Ok v.
Proof.
  intros. unfold be_u32_at, mbind, res_bind.
  destruct (idx_no_panic (E:=Error) buf 1) as [? ->]; [lia|].
  destruct (idx_no_panic (E:=Error) buf (1 + 1)) as [? ->]; [lia|].
  destruct (idx_no_panic (E:=Error) buf (1 + 2)) as [? ->]; [lia|].
  destruct (idx_no_panic (E:=Error) buf (1 + 3)) as [? ->]; [lia|]. eauto.
Qed.

(** A packet ends after its connection IDs and inside the datagram. *)
Lemma long_packet_end_range buf remaining fb pos0 :
  usize_bits = 64 → bytes_ok remaining → len remaining ≤ len buf → len buf < 2 ^ 31 →
  0 < pos0 ≤ len remaining →
  match long_packet_end buf remaining fb pos0 with
  | Ok n => 0 < n ≤ len remaining | Err _ => True | Panic => False
  end.
Proof.
  intros H64 Hb Hle Hl H0. unfold long_packet_end, mbind, res_bind. cbv zeta.
  match goal with |- match match ?e with _ => _ end with _ => _ end =>
    assert (match e with Ok p => pos0 ≤ p ≤ len remaining | Err _ => True | Panic => False end) as Hmid
  end.
  { destruct (Z.shiftr _ 4 =? 0); [|lia].
    pose proof (read_varint_inside remaining pos0 H64 Hb ltac:(lia) ltac:(lia)) as Ht.
    destruct (slice_from remaining pos0 ≫= decode_varint) as [[tl n]| |] eqn:Et;
      [|by destruct Ht as [-> ->]|done].
    destruct Ht as (-> & -> & Hv & Hn & Hin & Hu). cbn [fst snd].
    rewrite usize_add_ok by (rewrite H64; lia). rewrite Hu, usize_add_ok by (rewrite H64; lia).
    destruct (Z.ltb_spec (len remaining) (pos0 + n + tl)); [done|lia]. }
  match goal with |- match match ?e with _ => _ end with _ => _ end =>
    destruct e as [pos| |]; [|done..] end.
  destruct (Z.shiftr _ 4 =? 3); [lia|].
  pose proof (read_varint_inside remaining pos H64 Hb ltac:(lia) ltac:(lia)) as Ht.
  destruct (slice_from remaining pos ≫= decode_varint) as [[pl n]| |] eqn:Et;
    [|by destruct Ht as [-> ->]|done].
  destruct Ht as (-> & -> & Hv & Hn & Hin & Hu). cbn [fst snd].
  rewrite usize_add_ok by (rewrite H64; lia). rewrite Hu, usize_add_ok by (rewrite H64; lia).
  destruct (Z.ltb_spec (len remaining) (pos + n + pl)); [by rewrite usize_add_ok by (rewrite H64; lia)|lia].
Qed.

Lemma packet_extent_range buf remaining :
  usize_bits = 64 → bytes_ok remaining → len remaining ≤ len buf → len buf < 2 ^ 31 →
  0 < len remaining →
  match packet_extent buf remaining with
  | Ok n => 0 < n ≤ len remaining | Err _ => True | Panic => False
  end.
Proof.
  intros H64 Hb Hle Hl H0. unfold packet_extent, mbind, res_bind.
  destruct (idx_no_panic (E:=Error) remaining 0) as [a ->]; [lia|]. destruct (negb _); [|lia].
  destruct (Z.ltb_spec (len remaining) 6); [done|].
  destruct (be_u32_at_no_panic remaining) as [v ->]; [lia|]. destruct (v =? 0); [lia|].
  destruct (idx_no_panic (E:=Error) remaining 5) as [d Hd]; [lia|]. rewrite Hd.
  assert (byte_ok d) as Hdb by (by eapply idx_byte). unfold byte_ok in Hdb.
  rewrite usize_add_ok by (rewrite H64; lia).
  destruct (Z.leb_spec (len remaining) (6 + d)); [by rewrite usize_add_ok by (rewrite H64; lia)|].
  destruct (idx_no_panic (E:=Error) remaining (6 + d)) as [s Hs]; [lia|]. rewrite Hs.
  assert (byte_ok s) as Hsb by (by eapply idx_byte). unfold byte_ok in Hsb.
  rewrite usize_add_ok by (rewrite H64; lia). cbv iota beta.
  rewrite usize_add_ok by (rewrite H64; lia).
  destruct (Z.ltb_spec (len remaining) (6 + d + 1 + s)) as [|Hpos]; [done|].
  apply long_packet_end_range; (done || lia).
Qed.

(** One call of the iterator: it ends at the end of the datagram, and otherwise
    returns the next [n] bytes, or an error that ends the iteration. *)
Lemma coalesced_next_cases buf offset :
  usize_bits = 64 → bytes_ok buf → len buf < 2 ^ 31 → 0 ≤ offset ≤ len buf →
  match coalesced_next buf offset with
  | (None, _) => offset = len buf
  | (Some (Ok pkt), offset') => pkt ≠ [] ∧ offset' = offset + len pkt ∧ offset' ≤ len buf ∧
      drop (Z.to_nat offset) buf = pkt ++ drop (Z.to_nat offset') buf
  | (Some (Err _), offset') => offset < len buf ∧ offset' = len buf
  | (Some Panic, _) => False
  end.
Proof.
  intros H64 Hb Hl Ho. unfold coalesced_next.
  destruct (Z.leb_spec (len buf) offset); [lia|]. rewrite slice_from_eq by lia.
  pose proof (packet_extent_range buf (drop (Z.to_nat offset) buf) H64) as Hn.
  destruct (packet_extent _ _) as [n| |];
    [|done|apply Hn; [by apply Forall_drop|len_lia..]].
  destruct Hn as [Hn Hn']; [by apply Forall_drop|len_lia..|]. rewrite length_drop in Hn'.
  rewrite slice_eq by lia. replace (offset + n - offset) with n by lia.
  set (pkt := take _ _). assert (len pkt = n) as Hlen by (subst pkt; len_lia).
  split_and!; try lia; [by destruct pkt; [simpl in Hlen; lia|]|].
  rewrite <- (take_drop (Z.to_nat n) (drop _ buf)) at 1. rewrite drop_drop.
  do 2 f_equal. lia.
Qed.

(** The packets from [offset] on. *)
Lemma coalesced_all_split fuel buf offset :
  usize_bits = 64 → bytes_ok buf → len buf < 2 ^ 31 → 0 ≤ offset ≤ len buf →
  len buf - offset < Z.of_nat fuel →
  ∃ pkts rest, Forall (λ p, p ≠ []) pkts ∧ drop (Z.to_nat offset) buf = concat pkts ++ rest ∧
    ((rest = [] ∧ coalesced_all fuel buf offset = Ok <$> pkts) ∨
     (rest ≠ [] ∧ ∃ e, coalesced_all fuel buf offset = (Ok <$> pkts) ++ [Err e])).
Proof.
  intros H64 Hb Hl. revert offset. induction fuel as [|fuel IH]; intros offset Ho Hf; [lia|].
  simpl coalesced_all. pose proof (coalesced_next_cases buf offset H64 Hb Hl Ho) as Hn.
  destruct (coalesced_next buf offset) as [[[pkt|e|]|] offset'].
  - destruct Hn as (Hne & -> & Hle & Hdrop).
    assert (0 < len pkt) by (destruct pkt; [done|simpl; lia]).
    destruct (IH (offset + len pkt)) as (pkts & rest & Hp & Hd & Hc); [lia..|].
    exists (pkt :: pkts), rest. split; [by constructor|]. split; [simpl; by rewrite <- app_assoc, <- Hd|].
    destruct Hc as [[? ->]|[? [e ->]]]; [left|right]; eauto.
  - destruct Hn as [Hlt ->]. exists [], (drop (Z.to_nat offset) buf). split; [done|]. split; [done|].
    right. split; [intros Hnil; apply (f_equal length) in Hnil; len_lia|]. exists e.
    destruct fuel; [lia|]. simpl. unfold coalesced_next. by rewrite (proj2 (Z.leb_le _ _)).
  - done.
  - subst. exists [], []. split_and!; [done|by rewrite Nat2Z.id, drop_all|by left].
Qed.

(** The iterator finds the end of the connection IDs where the parsers do. *)
Lemma packet_extent_prefix buf fb v dcid scid tail :
  Z.land fb 0x80 ≠ 0 → 0 < v < 2 ^ 32 → len dcid ≤ 255 → len scid ≤ 255 →
  let p := prefix_wire fb v dcid scid in
  packet_extent buf (p ++ tail) = long_packet_end buf (p ++ tail) fb (len p).
Proof.
  intros Hform Hv Hd Hs p. pose proof pow_usize_ge.
  assert (len p = 6 + len dcid + 1 + len scid) as Lp by (unfold p; rewrite len_prefix_wire; lia).
  assert (∃ b0 b1 b2 b3, be_bytes 4 v = [b0; b1; b2; b3]) as (b0 & b1 & b2 & b3 & Hbe)
    by (by do 4 eexists).
  assert (p ++ tail = fb :: b0 :: b1 :: b2 :: b3 :: len dcid :: dcid ++ len scid :: scid ++ tail) as Hcells
    by (subst p; unfold prefix_wire; rewrite Hbe, <- !app_assoc; done).
  destruct (prefix_cids_eq fb b0 b1 b2 b3 dcid scid tail Hd Hs) as (_ & E2 & _).
  rewrite <- Hcells in E2. assert (len (p ++ tail) = len p + len tail) as Lt by len_lia.
  unfold packet_extent, mbind, res_bind.
  assert (idx (p ++ tail) 0 = Ok (E:=Error) fb) as -> by (rewrite Hcells; by apply idx_ok).
  rewrite (proj2 (Z.eqb_neq _ 0)) by done. cbn [negb]. rewrite (proj2 (Z.ltb_ge _ 6)) by lia.
  assert (be_u32_at (p ++ tail) 1 = Ok v) as ->.
  { rewrite Hcells, be_u32_at_cells, <- Hbe. f_equal. apply be_val_be_bytes_id. lia. }
  rewrite (proj2 (Z.eqb_neq v 0)) by lia.
  assert (idx (p ++ tail) 5 = Ok (E:=Error) (len dcid)) as -> by (rewrite Hcells; by apply idx_ok).
  rewrite usize_add_ok by lia. rewrite (proj2 (Z.leb_gt _ _)) by lia. rewrite E2.
  rewrite usize_add_ok by lia. cbv iota beta. rewrite usize_add_ok by lia.
  rewrite (proj2 (Z.ltb_ge _ _)) by lia. by rewrite Lp.
Qed.

(** The Length field after a prefix [p]. *)
Lemma length_field_end (p payload rest : list Z) :
  bytes_ok (payload ++ rest) → len p < 2 ^ 31 → len payload < 2 ^ 30 →
  let w := p ++ varint_wire (len payload) in
  slice_from (E:=Error) (w ++ payload ++ rest) (len p) = Ok (varint_wire (len payload) ++ payload ++ rest) ∧
  decode_varint (varint_wire (len payload) ++ payload ++ rest) = Ok (len payload, varint_len (len payload)) ∧
  usize_add (E:=Error) (len p) (varint_len (len payload)) = Ok (len w) ∧
  usize_add (E:=Error) (len w) (as_usize (len payload)) = Ok (len w + len payload).
Proof.
  intros Hr Hp Hl w. pose proof pow_usize_ge. pose proof (len_varint_wire (len payload)) as L.
  assert (varint_len (len payload) ≤ 8) by (unfold varint_len; case_tests; lia).
  assert (len w = len p + varint_len (len payload)) as Lw by (subst w; len_lia).
  split_and!.
  - subst w. rewrite <- app_assoc, slice_from_eq, Nat2Z.id, drop_app_length by len_lia. done.
  - apply decode_varint_wire; [rewrite MAX_VARINT_eq; lia|done].
  - rewrite usize_add_ok, Lw by lia. done.
  - rewrite as_usize_small by (unfold uint; lia). apply usize_add_ok. lia.
Qed.

(** The extent of an encoded packet, whatever follows it in the datagram. *)
Lemma packet_extent_handshake buf dcid scid pn_len payload rest :
  cid_ok dcid → cid_ok scid → bytes_ok (payload ++ rest) → 1 ≤ pn_len ≤ 4 → len payload < 2 ^ 30 →
  let w := handshake_wire dcid scid pn_len (len payload) in
  packet_extent buf (w ++ payload ++ rest) = Ok (len w + len payload).
Proof.
  intros [_ Hd] [_ Hs] Hr Hpn Hl w.
  destruct (first_byte_bits 0xE0 pn_len ltac:(auto) Hpn) as (_ & Hform & Hty & _).
  unfold w, handshake_wire. set (fb := Z.lor _ _) in *. set (p := prefix_wire _ _ _ _).
  assert (len p < 2 ^ 31) as Hp by (unfold p; rewrite len_prefix_wire; lia).
  destruct (length_field_end p payload rest Hr Hp Hl) as (E1 & E2 & E3 & E4).
  rewrite <- app_assoc. unfold p at 1. rewrite packet_extent_prefix by done. fold p.
  rewrite app_assoc. unfold long_packet_end, mbind, res_bind. rewrite Hty.
  change (224 =? 192) with false. cbv iota zeta. change (2 =? 0) with false. change (2 =? 3) with false.
  cbv iota beta. rewrite E1, E2. cbn [fst snd]. rewrite E3, E4.
  by rewrite (proj2 (Z.ltb_ge _ _)) by len_lia.
Qed.

Lemma packet_extent_initial buf dcid scid token pn_len payload rest :
  cid_ok dcid → cid_ok scid → bytes_ok token → bytes_ok (payload ++ rest) → 1 ≤ pn_len ≤ 4 →
  len token < 2 ^ 30 → len payload < 2 ^ 30 →
  let w := initial_wire dcid scid token pn_len (len payload) in
  packet_extent buf (w ++ payload ++ rest) = Ok (len w + len payload).
Proof.
  intros [_ Hd] [_ Hs] Htok Hr Hpn Hlt Hl w.
  destruct (first_byte_bits 0xC0 pn_len ltac:(auto) Hpn) as (_ & Hform & Hty & _).
  unfold w, initial_wire. set (fb := Z.lor _ _) in *. set (p := prefix_wire _ _ _ _).
  assert (len p < 2 ^ 30) as Hp by (unfold p; rewrite len_prefix_wire; lia).
  set (body := varint_wire (len payload) ++ payload ++ rest).
  assert (bytes_ok (token ++ body)) as Hbody
    by (subst body; repeat apply Forall_app_2; auto with rust; by apply Forall_app in Hr as []).
  destruct (length_field_end p token body Hbody ltac:(lia) Hlt) as (T1 & T2 & T3 & T4).
  assert (varint_len (len token) ≤ 8) by (unfold varint_len; case_tests; lia).
  pose proof (len_varint_wire (len token)).
  destruct (length_field_end ((p ++ varint_wire (len token)) ++ token) payload rest Hr ltac:(len_lia) Hl)
    as (E1 & E2 & E3 & E4).
  replace ((p ++ _) ++ payload ++ rest) with ((p ++ varint_wire (len token)) ++ token ++ body)
    by (subst body; by rewrite <- !app_assoc).
  rewrite <- app_assoc. unfold p at 1. rewrite packet_extent_prefix by done. fold p.
  rewrite app_assoc. unfold long_packet_end, mbind, res_bind. rewrite Hty.
  change (192 =? 192) with true. cbv iota zeta. change (0 =? 0) with true. change (0 =? 3) with false.
  cbv iota beta. rewrite T1, T2. cbn [fst snd]. rewrite T3, T4.
  rewrite (proj2 (Z.ltb_ge _ _)) by len_lia.
  replace ((((p ++ varint_wire (len token)) ++ token) ++ varint_wire (len payload)) ++ payload ++ rest)
    with ((p ++ varint_wire (len token)) ++ token ++ body) in E1 by (subst body; by rewrite <- !app_assoc).
  rewrite (length_app (p ++ _) token), Nat2Z.inj_add in E1, E3.
  rewrite E1, E2. cbn [fst snd]. rewrite E3, E4.
  rewrite (proj2 (Z.ltb_ge _ _)) by (subst body; len_lia). by rewrite <- !app_assoc.
Qed.

(** The iterator standing at a packet whose extent is known. *)
Lemma coalesced_all_step fuel buf pre pkt post :
  buf = pre ++ pkt ++ post → pkt ≠ [] → packet_extent buf (pkt ++ post) = Ok (len pkt) →
  coalesced_all (S fuel) buf (len pre) = Ok pkt :: coalesced_all fuel buf (len (pre ++ pkt)).
Proof.
  intros Hbuf Hne Hext. assert (len buf = len pre + len pkt + len post) by (subst buf; len_lia).
  assert (0 < len pkt) by (destruct pkt; [done|simpl; lia]).
  simpl. unfold coalesced_next. rewrite (proj2 (Z.leb_gt _ _)), slice_from_eq by lia.
  replace (drop _ buf) with (pkt ++ post) by (subst buf; by rewrite Nat2Z.id, drop_app_length).
  rewrite Hext. replace (len (pre ++ pkt)) with (len pre + len pkt) by len_lia.
  assert (slice buf (len pre) (len pre + len pkt) = Ok (E:=Error) pkt) as ->; [|done].
  rewrite Hbuf. by apply slice_middle.
Qed.

Lemma coalesced_all_end fuel buf : coalesced_all (S fuel) buf (len buf) = [].
Proof. simpl. unfold coalesced_next. by rewrite (proj2 (Z.leb_le _ _)). Qed.

(** A short-header packet takes the rest. *)
Lemma packet_extent_short buf b l :
  Z.land b 0x80 = 0 → packet_extent buf (b :: l) = Ok (len (b :: l)).
Proof.
  intros Hform. unfold packet_extent, mbind, res_bind. rewrite (idx_ok _ 0 b) by done.
  by rewrite Hform.
Qed.

End headers.

(** ** Properties of the header codecs *)

(** A long header survives the wire.  An Initial header encoded into a
    buffer with room parses back to the same connection IDs, token, length and
    packet-number offset, and the generic parser reports an Initial packet with
    the requested packet-number length; the same for Handshake headers. *)
Theorem long_header_roundtrip `{Platform} dcid scid token pn_len payload_len buf :
  cid_ok dcid → cid_ok scid → bytes_ok token → len token < 2 ^ 31 → bytes_ok buf →
  1 ≤ pn_len ≤ 4 → varint_ok payload_len → uint usize_bits payload_len →
  len (initial_wire dcid scid token pn_len payload_len) ≤ len buf →
  (∃ n buf', encode_initial_header dcid scid token pn_len payload_len buf = (Ok n, buf') ∧
     parse_initial_header buf' = Ok ({| ih_version := QUIC_VERSION_1; ih_dcid := dcid;
       ih_scid := scid; ih_token := token; ih_pn_offset := n; ih_payload_length := payload_len |}, n) ∧
     ∃ m, parse_long_header buf' = Ok (Long {| lh_packet_type := Initial;
       lh_version := QUIC_VERSION_1; lh_dcid := dcid; lh_scid := scid;
       lh_type_specific_bits := pn_len - 1 |}, m)) ∧
  (∃ n buf', encode_handshake_header dcid scid pn_len payload_len buf = (Ok n, buf') ∧
     parse_handshake_header buf' = Ok ({| hh_version := QUIC_VERSION_1; hh_dcid := dcid;
       hh_scid := scid; hh_pn_offset := n; hh_payload_length := payload_len |}, n) ∧
     ∃ m, parse_long_header buf' = Ok (Long {| lh_packet_type := Handshake;
       lh_version := QUIC_VERSION_1; lh_dcid := dcid; lh_scid := scid;
       lh_type_specific_bits := pn_len - 1 |}, m)).
Proof.
  intros Hd Hs Htok Htl Hb Hpn Hp Hpu Hl.
  assert (varint_ok (len token)) as Ht by (unfold varint_ok; rewrite MAX_VARINT_eq; lia).
  assert (len (handshake_wire dcid scid pn_len payload_len) ≤ len buf) as Hl2.
  { unfold initial_wire, handshake_wire in *. rewrite !length_app in *.
    pose proof (len_prefix_wire (Z.lor 0xC0 (pn_len_bits pn_len)) QUIC_VERSION_1 dcid scid).
    pose proof (len_prefix_wire (Z.lor 0xE0 (pn_len_bits pn_len)) QUIC_VERSION_1 dcid scid). lia. }
  destruct (first_byte_bits 0xC0 pn_len ltac:(auto) Hpn) as (_ & F1 & _).
  destruct (first_byte_bits 0xE0 pn_len ltac:(auto) Hpn) as (_ & F2 & _).
  split.
  - rewrite encode_initial_ok by done. do 2 eexists. split; [done|]. split.
    + apply parse_initial_wire; try done. by apply Forall_drop.
    + eexists. unfold initial_wire. rewrite <- app_assoc. apply (parse_long_wire 0xC0); auto.
  - rewrite encode_handshake_ok by done. do 2 eexists. split; [done|]. split.
    + apply parse_handshake_wire; try done. by apply Forall_drop.
    + eexists. unfold handshake_wire. rewrite <- app_assoc. apply (parse_long_wire 0xE0); auto.
Qed.

(** On a 64-bit target no parser of [packet/] panics, whatever datagram it is
    given: every index, slice and addition of the four header parsers and of the
    routing helper [decode_dcid] is in range.  (The bound on the datagram is far
    above UDP's 65,535 bytes.) *)
Theorem header_parsers_total `{Platform} buf dcid_len :
  usize_bits = 64 → bytes_ok buf → len buf < 2 ^ 31 → 0 ≤ dcid_len < 2 ^ 31 →
  no_panic (parse_long_header buf) ∧ no_panic (parse_initial_header buf) ∧
  no_panic (parse_handshake_header buf) ∧ no_panic (parse_short_header buf dcid_len) ∧
  no_panic (decode_dcid buf dcid_len).
Proof.
  intros. split_and!; auto using parse_long_no_panic, parse_initial_no_panic,
    parse_handshake_no_panic, parse_short_no_panic, decode_dcid_no_panic.
Qed.

(** On a 32-bit target the same Initial packet, 15 bytes a peer can send
    unauthenticated, makes the parser panic whichever way [usize] additions
    overflow: the announced token length 2^32 - 1 passes the truncation, and
    [pos + token_len] overflows (a panic with overflow checks; without them it
    wraps to a slice whose end precedes its start). *)
Theorem parse_initial_panics_32bit `{Platform} :
  usize_bits = 32 →
  parse_initial_header [0xC0; 0; 0; 0; 1; 0; 0; 0xC0; 0; 0; 0; 0xFF; 0xFF; 0xFF; 0xFF] = Panic.
Proof.
  destruct H as [bits Hbits [|]]; simpl; intros ->; vm_compute; reflexivity.
Qed.

(** On a 32-bit target without overflow checks a datagram of 15 bytes keeps the
    iterator busy forever: the Length 2^32 - 15 of a Handshake packet wraps the end
    of the packet to its start, and the empty packet leaves the offset where it is. *)
Theorem coalesced_stalls_32bit `{Platform} :
  usize_bits = 32 → overflow_checks = false →
  coalesced_next [0xE0; 0; 0; 0; 1; 0; 0; 0xC0; 0; 0; 0; 0xFF; 0xFF; 0xFF; 0xF1] 0 = (Some (Ok []), 0).
Proof. destruct H as [bits Hbits checks]; cbn; intros -> ->. vm_compute. reflexivity. Qed.

(** C29: the coalesced-packet iterator partitions the datagram, on a 64-bit target and
    for datagrams below 2^31 bytes.  Driven to its end it returns non-empty packets
    whose concatenation is the whole datagram, or a proper prefix of it followed by
    exactly one error; it never panics, and one call per byte plus one is always
    enough to reach the end. *)
Theorem coalesced_partition `{Platform} buf :
  usize_bits = 64 → bytes_ok buf → len buf < 2 ^ 31 →
  ∃ pkts rest, Forall (λ p, p ≠ []) pkts ∧ buf = concat pkts ++ rest ∧
    ((rest = [] ∧ coalesced_all (S (length buf)) buf 0 = Ok <$> pkts) ∨
     (rest ≠ [] ∧ ∃ e, coalesced_all (S (length buf)) buf 0 = (Ok <$> pkts) ++ [Err e])).
Proof. intros. apply (coalesced_all_split (S (length buf)) buf 0); (done || lia). Qed.

Lemma coalesced_partition_witness :
  ∃ pkts rest, [0x40; 1; 2] = concat pkts ++ rest ∧ Forall (λ p, p ≠ []) pkts.
Proof.
  destruct (coalesced_partition (H:=platform64) [0x40; 1; 2]) as (pkts & rest & ? & ? & _);
    [done|repeat constructor; done|done|]. by exists pkts, rest.
Defined.

(** The iterator splits a datagram where the encoder's packets end: an
    Initial and a Handshake packet whose Length fields state their payloads,
    followed by a 1-RTT packet, come out as exactly those three packets. *)
Theorem coalesced_encoded `{Platform} dcid scid token pn1 pn2 payload1 payload2 short :
  cid_ok dcid → cid_ok scid → bytes_ok token → len token < 2 ^ 30 → 1 ≤ pn1 ≤ 4 → 1 ≤ pn2 ≤ 4 →
  bytes_ok payload1 → bytes_ok payload2 → len payload1 < 2 ^ 30 → len payload2 < 2 ^ 30 →
  bytes_ok short → (∃ b, head short = Some b ∧ Z.land b 0x80 = 0) →
  let i := initial_wire dcid scid token pn1 (len payload1) ++ payload1 in
  let h := handshake_wire dcid scid pn2 (len payload2) ++ payload2 in
  coalesced_all 4 (i ++ h ++ short) 0 = [Ok i; Ok h; Ok short].
Proof.
  intros Hd Hs Ht Hlt Hp1 Hp2 Hb1 Hb2 Hl1 Hl2 Hshort (b & Hb & Hform) i h.
  destruct short as [|b' short]; [done|]. injection Hb as ->.
  assert (bytes_ok h) as Hbh.
  { unfold h, handshake_wire. apply Forall_app_2; [|done]. apply Forall_app_2; [|auto with rust].
    apply bytes_ok_prefix_wire; try done. apply (first_byte_bits 0xE0 pn2); auto. }
  set (buf := i ++ h ++ b :: short).
  rewrite (coalesced_all_step 3 buf [] i (h ++ b :: short)); [|done|done|].
  2:{ unfold i. rewrite <- app_assoc, packet_extent_initial, length_app, Nat2Z.inj_add; try done.
      apply Forall_app_2; [done|]. by apply Forall_app_2. }
  f_equal. rewrite (coalesced_all_step 2 buf ([] ++ i) h (b :: short)); [|done|done|].
  2:{ unfold h. rewrite <- app_assoc, packet_extent_handshake, length_app, Nat2Z.inj_add; try done.
      by apply Forall_app_2. }
  f_equal. rewrite (coalesced_all_step 1 buf (([] ++ i) ++ h) (b :: short) []); [|by subst buf; rewrite app_nil_r, <- app_assoc|done|].
  2:{ rewrite app_nil_r. by apply packet_extent_short. }
  f_equal. replace ((([] ++ i) ++ h) ++ b :: short) with buf by (subst buf; by rewrite <- app_assoc).
  apply coalesced_all_end.
Qed.

End Packet.
