(* ===== verification/FlowControl.v ===== *)
(** * Connection-level flow control: [src/transport/flow_control.rs]

    The controller of one endpoint, its invariant, and the contract the two
    endpoints of a connection keep with each other: data the sender's controller
    lets through is never refused by the receiver's, however the MAX_DATA
    advertisements are delayed, lost, reordered or repeated. *)
From stdpp Require Import relations.
From S2P Require Import Prelude Errors.

Module FlowControl.

Record FlowController := {
  send_max_data : Z; send_data_offset : Z; send_blocked : bool;
  recv_max_data : Z; recv_max_data_next : Z; recv_data_offset : Z; recv_initial_window : Z;
  max_streams_bidi_local : Z; max_streams_uni_local : Z;
  max_streams_bidi_remote : Z; max_streams_uni_remote : Z;
  next_max_streams_bidi_remote : Z; next_max_streams_uni_remote : Z;
  closed_bidi_remote : Z; closed_uni_remote : Z
}.
#[global] Instance eta_FlowController : Eta FlowController := λ s, {|
  send_max_data := send_max_data s; send_data_offset := send_data_offset s;
  send_blocked := send_blocked s;
  recv_max_data := recv_max_data s; recv_max_data_next := recv_max_data_next s;
  recv_data_offset := recv_data_offset s; recv_initial_window := recv_initial_window s;
  max_streams_bidi_local := max_streams_bidi_local s;
  max_streams_uni_local := max_streams_uni_local s;
  max_streams_bidi_remote := max_streams_bidi_remote s;
  max_streams_uni_remote := max_streams_uni_remote s;
  next_max_streams_bidi_remote := next_max_streams_bidi_remote s;
  next_max_streams_uni_remote := next_max_streams_uni_remote s;
  closed_bidi_remote := closed_bidi_remote s; closed_uni_remote := closed_uni_remote s |}.

Definition new (initial_max_data initial_max_streams_bidi initial_max_streams_uni : Z)
    : FlowController := {|
  send_max_data := 0; send_data_offset := 0; send_blocked := false;
  recv_max_data := initial_max_data; recv_max_data_next := initial_max_data;
  recv_data_offset := 0; recv_initial_window := initial_max_data;
  max_streams_bidi_local := 0; max_streams_uni_local := 0;
  max_streams_bidi_remote := initial_max_streams_bidi;
  max_streams_uni_remote := initial_max_streams_uni;
  next_max_streams_bidi_remote := initial_max_streams_bidi;
  next_max_streams_uni_remote := initial_max_streams_uni;
  closed_bidi_remote := 0; closed_uni_remote := 0 |}.

Definition flow_control_error : Error := Transport TransportError.FlowControlError.

(** ** Send side *)

Definition send_capacity (self : FlowController) : Z :=
  sat_sub (send_max_data self) (send_data_offset self).

Definition on_send (bytes : Z) : M Error FlowController unit :=
  self ← get;
  new_offset ← lift (uadd 64 (send_data_offset self) bytes);
  if send_max_data self <? new_offset then
    _ ← modify (λ self, self <| send_blocked := true |>);
    throw flow_control_error
  else
    _ ← modify (λ self, self <| send_data_offset := new_offset |>);
    self ← get;
    if send_data_offset self =? send_max_data self
    then modify (λ self, self <| send_blocked := true |>)
    else mret tt.

Definition handle_max_data (max_data : Z) (self : FlowController) : FlowController :=
  if send_max_data self <? max_data
  then self <| send_max_data := max_data |> <| send_blocked := false |>
  else self.

Definition is_send_blocked (self : FlowController) : bool := send_blocked self.

(** ** Receive side *)

Definition on_recv (bytes : Z) : M Error FlowController unit :=
  self ← get;
  new_offset ← lift (uadd 64 (recv_data_offset self) bytes);
  if recv_max_data self <? new_offset then throw flow_control_error
  else modify (λ self, self <| recv_data_offset := new_offset |>).

Definition should_send_max_data (self : FlowController) : res Error (option Z) :=
  let remaining := sat_sub (recv_max_data self) (recv_data_offset self) in
  if remaining <? recv_initial_window self / 2 then
    next ← uadd 64 (recv_data_offset self) (recv_initial_window self);
    if recv_max_data self <? next then Ok (Some next) else Ok None
  else Ok None.

Definition max_data_sent : M Error FlowController unit :=
  self ← get;
  o ← lift (should_send_max_data self);
  match o with
  | Some next => modify (λ self, self <| recv_max_data := next |> <| recv_max_data_next := next |>)
  | None => mret tt
  end.

(** ** Stream counts *)

Definition can_open_bidi (current_count : Z) (self : FlowController) : bool :=
  current_count <? max_streams_bidi_local self.
Definition can_open_uni (current_count : Z) (self : FlowController) : bool :=
  current_count <? max_streams_uni_local self.

Definition handle_max_streams (bidirectional : bool) (max_streams : Z) (self : FlowController)
    : FlowController :=
  if bidirectional then
    if max_streams_bidi_local self <? max_streams
    then self <| max_streams_bidi_local := max_streams |> else self
  else if max_streams_uni_local self <? max_streams
    then self <| max_streams_uni_local := max_streams |> else self.

Definition should_send_max_streams (self : FlowController) : res Error (option (bool * Z)) :=
  bidi ← (if 0 <? closed_bidi_remote self then
            new_limit ← uadd 64 (max_streams_bidi_remote self) (closed_bidi_remote self);
            if next_max_streams_bidi_remote self <? new_limit
            then Ok (Some (true, new_limit)) else Ok None
          else Ok None);
  match bidi with
  | Some r => Ok (Some r)
  | None =>
      if 0 <? closed_uni_remote self then
        new_limit ← uadd 64 (max_streams_uni_remote self) (closed_uni_remote self);
        if next_max_streams_uni_remote self <? new_limit
        then Ok (Some (false, new_limit)) else Ok None
      else Ok None
  end.

Definition max_streams_sent (bidirectional : bool) : M Error FlowController unit :=
  self ← get;
  if bidirectional then
    new_limit ← lift (uadd 64 (max_streams_bidi_remote self) (closed_bidi_remote self));
    modify (λ self, self <| next_max_streams_bidi_remote := new_limit |>
      <| max_streams_bidi_remote := new_limit |> <| closed_bidi_remote := 0 |>)
  else
    new_limit ← lift (uadd 64 (max_streams_uni_remote self) (closed_uni_remote self));
    modify (λ self, self <| next_max_streams_uni_remote := new_limit |>
      <| max_streams_uni_remote := new_limit |> <| closed_uni_remote := 0 |>).

Definition on_remote_stream_closed (bidirectional : bool) : M Error FlowController unit :=
  self ← get;
  if bidirectional then
    n ← lift (uadd 64 (closed_bidi_remote self) 1);
    modify (λ self, self <| closed_bidi_remote := n |>)
  else
    n ← lift (uadd 64 (closed_uni_remote self) 1);
    modify (λ self, self <| closed_uni_remote := n |>).

(** ** One endpoint *)

(** The calls that change a controller, as the connection makes them. *)
Inductive op :=
| OnSend (bytes : Z) | HandleMaxData (max_data : Z) | OnRecv (bytes : Z) | MaxDataSent
| HandleMaxStreams (bidirectional : bool) (max_streams : Z) | MaxStreamsSent (bidirectional : bool)
| RemoteStreamClosed (bidirectional : bool).

Definition exec (o : op) : M Error FlowController unit :=
  match o with
  | OnSend n => on_send n
  | HandleMaxData m => modify (handle_max_data m)
  | OnRecv n => on_recv n
  | MaxDataSent => max_data_sent
  | HandleMaxStreams b m => modify (handle_max_streams b m)
  | MaxStreamsSent b => max_streams_sent b
  | RemoteStreamClosed b => on_remote_stream_closed b
  end.

(** The arguments are [u64] values. *)
Definition op_ok (o : op) : Prop :=
  match o with
  | OnSend n | OnRecv n | HandleMaxData n | HandleMaxStreams _ n => uint 64 n
  | _ => True
  end.

Record wf (s : FlowController) : Prop := {
  wf_send : 0 ≤ send_data_offset s ≤ send_max_data s;
  wf_send_u64 : send_max_data s < 2 ^ 64;
  wf_blocked : send_blocked s = false → send_data_offset s < send_max_data s ∨ send_max_data s = 0;
  wf_recv : 0 ≤ recv_data_offset s ≤ recv_max_data s;
  wf_recv_u64 : recv_max_data s < 2 ^ 64;
  wf_window : 0 ≤ recv_initial_window s;
  wf_credit : recv_max_data s ≤ recv_data_offset s + recv_initial_window s;
  wf_next_data : recv_max_data_next s = recv_max_data s;
  wf_streams : 0 ≤ max_streams_bidi_remote s ∧ 0 ≤ max_streams_uni_remote s;
  wf_closed : 0 ≤ closed_bidi_remote s ∧ 0 ≤ closed_uni_remote s;
  wf_next_streams : next_max_streams_bidi_remote s = max_streams_bidi_remote s ∧
    next_max_streams_uni_remote s = max_streams_uni_remote s
}.

(** Limits only ever grow. *)
Record grows (s s' : FlowController) : Prop := {
  grow_send_max : send_max_data s ≤ send_max_data s';
  grow_sent : send_data_offset s ≤ send_data_offset s';
  grow_recv_max : recv_max_data s ≤ recv_max_data s';
  grow_received : recv_data_offset s ≤ recv_data_offset s';
  grow_local : max_streams_bidi_local s ≤ max_streams_bidi_local s' ∧
    max_streams_uni_local s ≤ max_streams_uni_local s';
  grow_remote : max_streams_bidi_remote s ≤ max_streams_bidi_remote s' ∧
    max_streams_uni_remote s ≤ max_streams_uni_remote s';
  grow_window : recv_initial_window s' = recv_initial_window s
}.

Lemma grows_refl s : grows s s.
Proof. split; lia. Qed.
Lemma grows_trans s1 s2 s3 : grows s1 s2 → grows s2 s3 → grows s1 s3.
Proof. intros [] []. split; lia. Qed.
#[local] Hint Resolve grows_refl : core.

Lemma fc_wf_new d b u : uint 64 d → 0 ≤ b → 0 ≤ u → wf (new d b u).
Proof. intros [] ? ?. split; simpl; lia. Qed.

Lemma should_send_max_data_eq s :
  wf s → recv_data_offset s + recv_initial_window s < 2 ^ 64 →
  should_send_max_data s =
  Ok (if recv_max_data s - recv_data_offset s <? recv_initial_window s / 2
      then Some (recv_data_offset s + recv_initial_window s) else None).
Proof.
  intros [] Hu. unfold should_send_max_data, sat_sub. rewrite Z.max_r by lia.
  destruct (Z.ltb_spec (recv_max_data s - recv_data_offset s) (recv_initial_window s / 2)); [|done].
  rewrite uadd_ok by done. simpl. rewrite (proj2 (Z.ltb_lt _ _)); [done|]. div_lia.
Qed.

(** Every call keeps the invariant and every limit, whether it succeeds, fails
    or panics. *)
Lemma fc_exec_wf o s r s' : wf s → op_ok o → exec o s = (r, s') → wf s' ∧ grows s s'.
Proof.
  intros Hwf Ho. pose proof Hwf as [].
  destruct o as [n|m|n| |b m|b|b]; simpl in *; unfold uint in *;
    unfold on_send, handle_max_data, on_recv, max_data_sent, should_send_max_data,
      handle_max_streams, max_streams_sent, on_remote_stream_closed, sat_sub; intros; run_method.
  all: (split; [split|split]; simpl in *; try lia; try done).
Qed.

(** Any sequence of calls, failing ones included; a panic ends it. *)
Inductive calls (s : FlowController) : FlowController → Prop :=
| calls_nil : calls s s
| calls_snoc s1 o s2 r : calls s s1 → op_ok o → exec o s1 = (r, s2) → r ≠ Panic → calls s s2.

Lemma fc_calls_wf s s' : wf s → calls s s' → wf s' ∧ grows s s'.
Proof.
  intros Hwf. induction 1 as [|s1 o s2 r _ [? ?] Ho Hx _]; auto.
  destruct (fc_exec_wf o s1 r s2); eauto using grows_trans.
Qed.

(** ** Two endpoints *)

(** One direction of a connection: the controllers of the sender and of the
    receiver, the chunks of data in flight, and every limit advertised so far
    (each may reach the sender any number of times, at any time, or never). *)
Record net := { sender : FlowController; receiver : FlowController; data : list Z; limits : list Z }.

Definition net_init (window : Z) (sender0 receiver0 : FlowController) : net :=
  {| sender := handle_max_data window sender0; receiver := receiver0; data := []; limits := [window] |}.

Inductive net_step : net → net → Prop :=
| step_send s r d l n s' :
    uint 64 n → on_send n s = (Ok tt, s') →
    net_step (Build_net s r d l) (Build_net s' r (n :: d) l)
| step_blocked s r d l n e s' :
    uint 64 n → on_send n s = (Err e, s') → net_step (Build_net s r d l) (Build_net s' r d l)
| step_deliver s r d1 n d2 l r' :
    on_recv n r = (Ok tt, r') →
    net_step (Build_net s r (d1 ++ n :: d2) l) (Build_net s r' (d1 ++ d2) l)
| step_advertise s r d l next r' :
    should_send_max_data r = Ok (Some next) → max_data_sent r = (Ok tt, r') →
    net_step (Build_net s r d l) (Build_net s r' d (next :: l))
| step_learn s r d l m :
    m ∈ l → net_step (Build_net s r d l) (Build_net (handle_max_data m s) r d l).

Definition sum_list (l : list Z) : Z := foldr Z.add 0 l.

Lemma sum_list_app l1 l2 : sum_list (l1 ++ l2) = sum_list l1 + sum_list l2.
Proof. unfold sum_list. induction l1; simpl; lia. Qed.

Lemma sum_list_nonneg l : Forall (Z.le 0) l → 0 ≤ sum_list l.
Proof. unfold sum_list. induction 1; simpl; lia. Qed.

Record net_inv (w : Z) (c : net) : Prop := {
  ni_sender : wf (sender c);
  ni_receiver : wf (receiver c);
  ni_window : recv_initial_window (receiver c) = w;
  ni_data : Forall (Z.le 0) (data c);
  ni_sent : send_data_offset (sender c) = recv_data_offset (receiver c) + sum_list (data c);
  ni_limit : send_max_data (sender c) ≤ recv_max_data (receiver c);
  ni_limits : Forall (λ m, 0 ≤ m ≤ recv_max_data (receiver c)) (limits c);
  ni_current : recv_max_data (receiver c) ∈ limits c
}.

Lemma net_init_inv w b u b' u' : uint 64 w → 0 ≤ b → 0 ≤ u → 0 ≤ b' → 0 ≤ u' →
  net_inv w (net_init w (new 0 b u) (new w b' u')).
Proof.
  intros Hw ? ? ? ?. unfold net_init, uint in *.
  assert (wf (handle_max_data w (new 0 b u))).
  { apply (fc_exec_wf (HandleMaxData w) (new 0 b u) (Ok tt)); [by apply fc_wf_new|done|done]. }
  split; simpl; auto using fc_wf_new; unfold handle_max_data; simpl.
  - by case_match.
  - case_match; simpl; lia.
  - repeat constructor; lia.
  - by left.
Qed.

Lemma on_send_ok n s s' :
  on_send n s = (Ok tt, s') →
  send_data_offset s' = send_data_offset s + n ∧ send_max_data s' = send_max_data s.
Proof. unfold on_send. intros. run_method; auto. Qed.
Lemma on_send_err n s e s' :
  on_send n s = (Err e, s') →
  send_data_offset s' = send_data_offset s ∧ send_max_data s' = send_max_data s.
Proof. unfold on_send. intros. run_method; auto. Qed.
Lemma on_recv_ok n r r' :
  on_recv n r = (Ok tt, r') →
  recv_data_offset r' = recv_data_offset r + n ∧ recv_max_data r' = recv_max_data r ∧
  recv_initial_window r' = recv_initial_window r.
Proof. unfold on_recv. intros. run_method; auto. Qed.

Lemma max_data_sent_eq r next :
  should_send_max_data r = Ok (Some next) →
  max_data_sent r = (Ok tt, r <| recv_max_data := next |> <| recv_max_data_next := next |>).
Proof. intros H. unfold max_data_sent, mbind, M_bind, get, lift. simpl. by rewrite H. Qed.

Lemma should_send_max_data_gt r next :
  should_send_max_data r = Ok (Some next) → recv_max_data r < next.
Proof.
  unfold should_send_max_data, mbind, res_bind. intros. repeat (case_match; simplify_eq/=). lia.
Qed.

Lemma net_step_inv w c c' : net_step c c' → net_inv w c → net_inv w c'.
Proof.
  intros Hstep []. inv Hstep; simpl in *.
  - pose proof H0 as [? ?]%on_send_ok. apply (fc_exec_wf (OnSend n)) in H0 as [? _]; [|done..].
    destruct H. split; simpl; try done; try lia. by constructor.
  - pose proof H0 as [? ?]%on_send_err. apply (fc_exec_wf (OnSend n)) in H0 as [? _]; [|done..].
    split; simpl; try done; lia.
  - pose proof H as (Ho & Hm & Hw)%on_recv_ok. rewrite Forall_app, Forall_cons in ni_data0.
    destruct ni_data0 as (? & ? & ?). rewrite sum_list_app in ni_sent0.
    change (sum_list (n :: d2)) with (n + sum_list d2) in ni_sent0.
    pose proof (sum_list_nonneg d1 ltac:(done)). pose proof (sum_list_nonneg d2 ltac:(done)).
    assert (uint 64 n) as Hu by (destruct ni_sender0, ni_receiver0; unfold uint; split; [done|lia]).
    apply (fc_exec_wf (OnRecv n)) in H as [? _]; [|done..].
    split; simpl; rewrite ?sum_list_app; try done; try lia; [by apply Forall_app|by rewrite Hm..].
  - pose proof (should_send_max_data_gt _ _ H). rewrite (max_data_sent_eq _ _ H) in H0. simplify_eq.
    pose proof (fc_exec_wf MaxDataSent r _ _ ni_receiver0 I (max_data_sent_eq _ _ H)) as [? _].
    split; simpl; try done; try lia; [|by left].
    constructor; [destruct ni_receiver0; lia|]. eapply Forall_impl; [done|]. simpl. lia.
  - rewrite Forall_forall in ni_limits0. pose proof (ni_limits0 m H) as Hm. simpl in Hm.
    assert (wf (handle_max_data m s)).
    { apply (fc_exec_wf (HandleMaxData m) s (Ok tt)); [done| |done]. destruct ni_receiver0.
      simpl. unfold uint. lia. }
    split; simpl; try done; [|..].
    + unfold handle_max_data. by case_match.
    + unfold handle_max_data. case_match; simpl; lia.
    + by apply Forall_forall.
Qed.

Lemma net_steps_inv w c c' : rtc net_step c c' → net_inv w c → net_inv w c'.
Proof. induction 1; eauto using net_step_inv. Qed.

Lemma handle_max_data_max m s : send_max_data (handle_max_data m s) = Z.max (send_max_data s) m.
Proof. unfold handle_max_data. case_match; simpl; lia. Qed.
Lemma handle_max_data_offset m s : send_data_offset (handle_max_data m s) = send_data_offset s.
Proof. unfold handle_max_data. by case_match. Qed.

(** ** Properties *)

(** The controller's invariant.  From a fresh controller, any sequence of
    calls with any [u64] arguments keeps: bytes sent within the peer's limit,
    bytes accepted within the advertised limit, at most one initial window of
    credit outstanding, an exhausted limit marked as blocked; and no limit ever
    shrinks. *)
Theorem flow_controller_invariant d b u s1 s2 :
  uint 64 d → uint 64 b → uint 64 u →
  calls (new d b u) s1 → calls s1 s2 → wf s1 ∧ wf s2 ∧ grows s1 s2.
Proof.
  intros ? [] [] Hc1 Hc2. apply fc_calls_wf in Hc1 as [Hc1 _]; [|by apply fc_wf_new].
  apply fc_calls_wf in Hc2 as []; auto.
Qed.

(** What [on_send] does with a request.  It succeeds exactly when the
    request fits the remaining capacity, and then uses up that much of it;
    otherwise nothing is sent and the controller reports itself blocked. *)
Theorem on_send_credit s n :
  wf s → uint 63 n → send_data_offset s < 2 ^ 63 →
  if decide (n ≤ send_capacity s) then
    ∃ s', on_send n s = (Ok tt, s') ∧ send_capacity s' = send_capacity s - n ∧
      send_data_offset s' = send_data_offset s + n
  else on_send n s = (Err flow_control_error, s <| send_blocked := true |>).
Proof.
  intros [] [Hn Hn'] Ho. unfold send_capacity, sat_sub, on_send.
  assert (send_data_offset s + n < 2 ^ 64) as Hs by lia.
  rewrite decide_bool_decide. case_bool_decide.
  - run_method; try lia; eexists; (split; [done|]); simpl; lia.
  - run_method; try lia. done.
Qed.

(** Credit is restored.  When less than half the window is left the
    controller proposes a limit one full window ahead of the data received;
    once that is sent, a full window is open and no further update is due. *)
Theorem max_data_update_restores_window s :
  wf s → recv_data_offset s + recv_initial_window s < 2 ^ 64 →
  recv_max_data s - recv_data_offset s < recv_initial_window s / 2 →
  should_send_max_data s = Ok (Some (recv_data_offset s + recv_initial_window s)) ∧
  ∃ s', max_data_sent s = (Ok tt, s') ∧
    recv_max_data s' = recv_data_offset s' + recv_initial_window s' ∧
    should_send_max_data s' = Ok None.
Proof.
  intros Hwf Hu Hhalf.
  assert (should_send_max_data s = Ok (Some (recv_data_offset s + recv_initial_window s))) as Hss.
  { rewrite should_send_max_data_eq by done. by rewrite (proj2 (Z.ltb_lt _ _)). }
  split; [done|]. eexists. split; [by apply max_data_sent_eq|]. split; [done|].
  pose proof (fc_exec_wf MaxDataSent s _ _ Hwf I (max_data_sent_eq _ _ Hss)) as [Hwf' _].
  rewrite should_send_max_data_eq by done. destruct Hwf. simpl.
  rewrite (proj2 (Z.ltb_ge _ _)); [done|]. div_lia.
Qed.

(** C20: the two controllers of a connection agree.  However advertised limits
    are delayed, reordered, repeated or lost, and in whatever order chunks of data
    arrive, the receiver's controller accepts every chunk the sender's controller
    let through. *)
Theorem flow_control_end_to_end w b u b' u' c n :
  uint 64 w → uint 64 b → uint 64 u → uint 64 b' → uint 64 u' →
  rtc net_step (net_init w (new 0 b u) (new w b' u')) c → n ∈ data c →
  ∃ r', on_recv n (receiver c) = (Ok tt, r').
Proof.
  intros Hw [] [] [] [] Hsteps Hn.
  apply (net_steps_inv w) in Hsteps; [|by apply net_init_inv]. destruct Hsteps.
  apply list_elem_of_split in Hn as (d1 & d2 & Hd). rewrite Hd in *.
  rewrite Forall_app, Forall_cons in ni_data0. destruct ni_data0 as (? & ? & ?).
  rewrite sum_list_app in ni_sent0. change (sum_list (n :: d2)) with (n + sum_list d2) in ni_sent0.
  pose proof (sum_list_nonneg d1 ltac:(done)). pose proof (sum_list_nonneg d2 ltac:(done)).
  destruct ni_sender0, ni_receiver0. unfold on_recv. run_method; (lia || eauto).
Qed.

Lemma flow_control_end_to_end_witness :
  ∃ r', on_recv 70 (new 100 0 0) = (Ok tt, r').
Proof.
  apply (flow_control_end_to_end 100 0 0 0 0
    (Build_net (handle_max_data 100 (new 0 0 0)) <| send_data_offset := 70 |> (new 100 0 0) [70] [100]));
    [done..| |by left].
  apply rtc_once. by apply (step_send _ _ [] [100] 70).
Defined.

(** C40: flow control cannot deadlock.  Whenever all data has arrived (and the
    byte count is still in [u64] range), some advertised limit that reaches the
    sender lets it send again, with a window of two bytes or more. *)
Theorem flow_control_no_deadlock w b u b' u' c :
  uint 64 w → uint 64 b → uint 64 u → uint 64 b' → uint 64 u' → 2 ≤ w →
  rtc net_step (net_init w (new 0 b u) (new w b' u')) c → data c = [] →
  recv_data_offset (receiver c) + w < 2 ^ 64 →
  ∃ c', rtc net_step c c' ∧ data c' = [] ∧ 0 < send_capacity (sender c').
Proof.
  intros Hw [] [] [] [] Htwo Hsteps Hd Hu.
  apply (net_steps_inv w) in Hsteps; [|by apply net_init_inv]. destruct Hsteps as [? Hr Hwin _ Hsent _ _ Hcur].
  destruct c as [s r d l]; simpl in *. subst d. simpl in Hsent. rewrite Z.add_0_r in Hsent.
  rewrite <- Hwin in Hu. pose proof (should_send_max_data_eq r Hr Hu) as Hss.
  destruct (Z.ltb_spec (recv_max_data r - recv_data_offset r) (recv_initial_window r / 2)) as [Hlt|Hge].
  - eexists (Build_net (handle_max_data (recv_data_offset r + recv_initial_window r) s) _ [] _).
    split; [|split; [done|]].
    + eapply rtc_l; [by eapply step_advertise, max_data_sent_eq|]. apply rtc_once, step_learn. by left.
    + simpl. unfold send_capacity, sat_sub. rewrite handle_max_data_max, handle_max_data_offset. lia.
  - exists (Build_net (handle_max_data (recv_max_data r) s) r [] l).
    split; [by apply rtc_once, step_learn|split; [done|]].
    simpl. unfold send_capacity, sat_sub. rewrite handle_max_data_max, handle_max_data_offset.
    assert (1 ≤ recv_initial_window r / 2) by (subst w; div_lia). lia.
Qed.

Lemma flow_control_no_deadlock_witness :
  ∃ c', rtc net_step (net_init 100 (new 0 0 0) (new 100 0 0)) c' ∧ data c' = [] ∧
    0 < send_capacity (sender c').
Proof.
  apply (flow_control_no_deadlock 100 0 0 0 0); [done..|reflexivity|done|done].
Defined.

(** A MAX_STREAMS update is proposed as soon as one remote stream has closed; the
    comment in the source speaks of half of the advertised limit. *)
Lemma max_streams_after_one_close s :
  wf s → 0 < closed_bidi_remote s → max_streams_bidi_remote s + closed_bidi_remote s < 2 ^ 64 →
  should_send_max_streams s = Ok (Some (true, max_streams_bidi_remote s + closed_bidi_remote s)).
Proof.
  intros [] Hc Hu. unfold should_send_max_streams, mbind, res_bind.
  rewrite (proj2 (Z.ltb_lt _ _)) by done. rewrite uadd_ok by done.
  destruct wf_next_streams0 as [-> _]. by rewrite (proj2 (Z.ltb_lt _ _)) by lia.
Qed.

End FlowControl.
