(* ===== verification/StreamMap.v ===== *)
(** * QUIC streams: [src/transport/stream.rs]

    Stream identifiers, the send and receive state machines of a stream and the
    fixed-capacity table of a connection's streams. *)
From stdpp Require Import relations.
From S2P Require Import Prelude Errors.

Module Stream.

(** ** Stream identifiers *)

Definition is_client_initiated (stream_id : Z) : bool := Z.land stream_id 0x01 =? 0.
Definition is_server_initiated (stream_id : Z) : bool := Z.land stream_id 0x01 =? 1.
Definition is_bidirectional (stream_id : Z) : bool := Z.land stream_id 0x02 =? 0.
Definition is_unidirectional (stream_id : Z) : bool := negb (Z.land stream_id 0x02 =? 0).

Inductive StreamType := ClientBidi | ServerBidi | ClientUni | ServerUni.

Definition type_code (t : StreamType) : Z :=
  match t with ClientBidi => 0x00 | ServerBidi => 0x01 | ClientUni => 0x02 | ServerUni => 0x03 end.

Definition from_id (id : Z) : res Error StreamType :=
  match Z.land id 0x03 with
  | 0x00 => Ok ClientBidi | 0x01 => Ok ServerBidi | 0x02 => Ok ClientUni | 0x03 => Ok ServerUni
  | _ => Panic
  end.

(** [n * 4 + self as u64]. *)
Definition stream_id (t : StreamType) (n : Z) : res Error Z :=
  m ← umul 64 n 4; uadd 64 m (type_code t).

(** ** Per-stream state *)

Module SendStreamState.
Inductive t := Ready | Send | DataSent | ResetSent | DataRecvd | ResetRecvd.
Definition is_terminal (s : t) : bool := match s with DataRecvd | ResetRecvd => true | _ => false end.
#[global] Instance eq_dec : EqDecision t.
Proof. solve_decision. Defined.
End SendStreamState.

Module RecvStreamState.
Inductive t := Recv | SizeKnown | DataRecvd | ResetRecvd | DataRead | ResetRead.
Definition is_terminal (s : t) : bool := match s with DataRead | ResetRead => true | _ => false end.
#[global] Instance eq_dec : EqDecision t.
Proof. solve_decision. Defined.
End RecvStreamState.

Record SendState := {
  s_state : SendStreamState.t; s_offset : Z; s_acked : Z; s_fin_sent : bool;
  s_max_data : Z; s_blocked : bool
}.
#[global] Instance eta_SendState : Eta SendState := λ s, {|
  s_state := s_state s; s_offset := s_offset s; s_acked := s_acked s; s_fin_sent := s_fin_sent s;
  s_max_data := s_max_data s; s_blocked := s_blocked s |}.

Definition SendState_new (max_data : Z) : SendState := {|
  s_state := SendStreamState.Ready; s_offset := 0; s_acked := 0; s_fin_sent := false;
  s_max_data := max_data; s_blocked := false |}.

Record RecvState := {
  r_state : RecvStreamState.t; r_offset : Z; r_max_data : Z; r_max_data_next : Z;
  r_initial_window : Z; r_fin_offset : option Z
}.
#[global] Instance eta_RecvState : Eta RecvState := λ s, {|
  r_state := r_state s; r_offset := r_offset s; r_max_data := r_max_data s;
  r_max_data_next := r_max_data_next s; r_initial_window := r_initial_window s;
  r_fin_offset := r_fin_offset s |}.

Definition RecvState_new (max_data : Z) : RecvState := {|
  r_state := RecvStreamState.Recv; r_offset := 0; r_max_data := max_data;
  r_max_data_next := max_data; r_initial_window := max_data; r_fin_offset := None |}.

Record StreamState := { id : Z; send : option SendState; recv : option RecvState }.
#[global] Instance eta_StreamState : Eta StreamState := λ s,
  {| id := id s; send := send s; recv := recv s |}.

(** ** The stream table *)

Record StreamMap := {
  streams : list (option StreamState);
  next_bidi_local : Z; next_uni_local : Z; max_bidi_remote : Z; max_uni_remote : Z
}.
#[global] Instance eta_StreamMap : Eta StreamMap := λ s, {|
  streams := streams s; next_bidi_local := next_bidi_local s; next_uni_local := next_uni_local s;
  max_bidi_remote := max_bidi_remote s; max_uni_remote := max_uni_remote s |}.

Definition DEFAULT_INITIAL_MAX_STREAM_DATA : Z := 65536.

Definition stream_state_error : Error := Transport TransportError.StreamStateError.
Definition flow_control_error : Error := Transport TransportError.FlowControlError.
Definition final_size_error : Error := Transport TransportError.FinalSizeError.

(** The capacity [N] and the build: with the [alloc] feature the table is a
    vector that grows on demand, without it an array of [N] slots. *)
Class Config := { N : nat; alloc : bool }.

Definition stream_is_terminal (s : StreamState) : bool :=
  match send s with Some send => SendStreamState.is_terminal (s_state send) | None => true end &&
  match recv s with Some recv => RecvStreamState.is_terminal (r_state recv) | None => true end.

Definition find_stream (m : StreamMap) (stream_id : Z) : option nat :=
  position (λ s, match s with Some s => id s =? stream_id | None => false end) (streams m).

Definition get (m : StreamMap) (stream_id : Z) : option StreamState :=
  i ← find_stream m stream_id; o ← streams m !! i; o.

(** [self.streams[slot] = Some(state)]. *)
Definition set_slot (slot : nat) (s : StreamState) : M Error StreamMap unit := λ m,
  match set_idx (E:=Error) (streams m) (Z.of_nat slot) (Some s) with
  | Ok l => (Ok tt, m <| streams := l |>)
  | Err e => (Err e, m)
  | Panic => (Panic, m)
  end.

(** A method body that works on [&mut] the send (receive) side of a stream:
    [get_mut(id).ok_or(InvalidState)?] then [send.as_mut().ok_or(InvalidState)?]. *)
Definition with_send {A} (stream_id : Z) (f : M Error SendState A) : M Error StreamMap A := λ m,
  match find_stream m stream_id with
  | None => (Err InvalidState, m)
  | Some i =>
      match mjoin (streams m !! i) with
      | None => (Err InvalidState, m)
      | Some st =>
          match send st with
          | None => (Err InvalidState, m)
          | Some sd => let '(r, sd') := f sd in
              (r, m <| streams := <[i := Some (st <| send := Some sd' |>)]> (streams m) |>)
          end
      end
  end.
Definition with_recv {A} (stream_id : Z) (f : M Error RecvState A) : M Error StreamMap A := λ m,
  match find_stream m stream_id with
  | None => (Err InvalidState, m)
  | Some i =>
      match mjoin (streams m !! i) with
      | None => (Err InvalidState, m)
      | Some st =>
          match recv st with
          | None => (Err InvalidState, m)
          | Some rv => let '(r, rv') := f rv in
              (r, m <| streams := <[i := Some (st <| recv := Some rv' |>)]> (streams m) |>)
          end
      end
  end.

Section table.
Context `{Config}.

Definition StreamMap_new : StreamMap := {|
  streams := if alloc then [] else replicate N None;
  next_bidi_local := 0; next_uni_local := 0; max_bidi_remote := 0; max_uni_remote := 0 |}.

(** [find_free_slot]: with [alloc] it may push an empty slot. *)
Definition find_free_slot : M Error StreamMap (option nat) := λ m,
  match position (λ s, match s with None => true | Some _ => false end) (streams m) with
  | Some pos => (Ok (Some pos), m)
  | None =>
      if alloc then
        if (length (streams m) <? N)%nat
        then (Ok (Some (length (streams m))), m <| streams := streams m ++ [None] |>)
        else (Ok None, m)
      else (Ok None, m)
  end.

Definition open_bidi (is_client : bool) : M Error StreamMap Z :=
  self ← Prelude.get;
  let stype := if is_client then ClientBidi else ServerBidi in
  stream_id ← lift (stream_id stype (next_bidi_local self));
  o ← find_free_slot;
  slot ← lift (ok_or StreamLimitExhausted o);
  _ ← set_slot slot {| id := stream_id;
        send := Some (SendState_new DEFAULT_INITIAL_MAX_STREAM_DATA);
        recv := Some (RecvState_new DEFAULT_INITIAL_MAX_STREAM_DATA) |};
  n ← lift (uadd 64 (next_bidi_local self) 1);
  _ ← modify (λ m, m <| next_bidi_local := n |>);
  mret stream_id.

Definition open_uni (is_client : bool) : M Error StreamMap Z :=
  self ← Prelude.get;
  let stype := if is_client then ClientUni else ServerUni in
  stream_id ← lift (stream_id stype (next_uni_local self));
  o ← find_free_slot;
  slot ← lift (ok_or StreamLimitExhausted o);
  _ ← set_slot slot {| id := stream_id;
        send := Some (SendState_new DEFAULT_INITIAL_MAX_STREAM_DATA); recv := None |};
  n ← lift (uadd 64 (next_uni_local self) 1);
  _ ← modify (λ m, m <| next_uni_local := n |>);
  mret stream_id.

(** The returned reference is the slot it points into. *)
Definition get_or_create (stream_id : Z) (is_client : bool) (initial_max_stream_data : Z)
    : M Error StreamMap nat :=
  let peer_initiated :=
    if is_client then is_server_initiated stream_id else is_client_initiated stream_id in
  if negb peer_initiated then throw stream_state_error else
  self ← Prelude.get;
  match find_stream self stream_id with
  | Some idx => mret idx
  | None =>
      o ← find_free_slot;
      slot ← lift (ok_or StreamLimitExhausted o);
      let seq := stream_id / 4 in
      if is_bidirectional stream_id then
        _ ← (if max_bidi_remote self <=? seq
             then s ← lift (uadd 64 seq 1); modify (λ m, m <| max_bidi_remote := s |>)
             else mret tt);
        _ ← set_slot slot {| id := stream_id;
              send := Some (SendState_new initial_max_stream_data);
              recv := Some (RecvState_new initial_max_stream_data) |};
        mret slot
      else
        _ ← (if max_uni_remote self <=? seq
             then s ← lift (uadd 64 seq 1); modify (λ m, m <| max_uni_remote := s |>)
             else mret tt);
        _ ← set_slot slot {| id := stream_id; send := None;
              recv := Some (RecvState_new initial_max_stream_data) |};
        mret slot
  end.

End table.

(** ** Operations on one stream *)

Definition send_data (len : Z) (fin : bool) : M Error SendState unit :=
  send ← Prelude.get;
  match s_state send with
  | SendStreamState.Ready | SendStreamState.Send =>
      new_offset ← lift (uadd 64 (s_offset send) len);
      if s_max_data send <? new_offset then
        _ ← modify (λ s, s <| s_blocked := true |>);
        throw flow_control_error
      else
        _ ← modify (λ s, s <| s_offset := new_offset |>);
        _ ← (if decide (s_state send = SendStreamState.Ready)
             then modify (λ s, s <| s_state := SendStreamState.Send |>) else mret tt);
        if fin then modify (λ s, s <| s_fin_sent := true |> <| s_state := SendStreamState.DataSent |>)
        else mret tt
  | _ => throw stream_state_error
  end.
Definition mark_send (stream_id len : Z) (fin : bool) : M Error StreamMap unit :=
  with_send stream_id (send_data len fin).

(** The validation of a frame against a known final size. *)
Definition check_final_size (fin_offset : option Z) (endo : Z) (fin : bool) : res Error unit :=
  match fin_offset with
  | Some fin_off =>
      if fin_off <? endo then Err final_size_error
      else if fin && negb (endo =? fin_off) then Err final_size_error
      else Ok tt
  | None => Ok tt
  end.

Definition recv_data (offset len : Z) (fin : bool) : M Error RecvState Z :=
  recv ← Prelude.get;
  match r_state recv with
  | RecvStreamState.Recv | RecvStreamState.SizeKnown =>
      endo ← lift (uadd 64 offset len);
      _ ← lift (check_final_size (r_fin_offset recv) endo fin);
      _ ← (if fin then
             match r_fin_offset recv with
             | Some existing =>
                 if negb (existing =? endo) then throw final_size_error
                 else modify (λ r, r <| r_fin_offset := Some endo |>
                                     <| r_state := RecvStreamState.SizeKnown |>)
             | None => modify (λ r, r <| r_fin_offset := Some endo |>
                                      <| r_state := RecvStreamState.SizeKnown |>)
             end
           else mret tt);
      if r_max_data recv <? endo then throw flow_control_error else
      new_bytes ← (if r_offset recv <? endo then
                     _ ← modify (λ r, r <| r_offset := endo |>);
                     mret (endo - r_offset recv)
                   else mret 0);
      recv ← Prelude.get;
      _ ← match r_fin_offset recv with
          | Some fin_off =>
              if fin_off <=? r_offset recv
              then modify (λ r, r <| r_state := RecvStreamState.DataRecvd |>) else mret tt
          | None => mret tt
          end;
      let remaining := sat_sub (r_max_data recv) (r_offset recv) in
      _ ← (if remaining <? r_initial_window recv / 2 then
             n ← lift (uadd 64 (r_offset recv) (r_initial_window recv));
             modify (λ r, r <| r_max_data_next := n |>)
           else mret tt);
      mret new_bytes
  | _ => throw stream_state_error
  end.

Definition mark_recv (stream_id offset len : Z) (fin : bool) : M Error StreamMap Z :=
  with_recv stream_id (recv_data offset len fin).

Fixpoint first_update (l : list (option StreamState)) : option (Z * Z) :=
  match l with
  | [] => None
  | Some s :: l' =>
      match recv s with
      | Some recv =>
          if r_max_data recv <? r_max_data_next recv then Some (id s, r_max_data_next recv)
          else first_update l'
      | None => first_update l'
      end
  | None :: l' => first_update l'
  end.
Definition should_send_max_stream_data (m : StreamMap) : option (Z * Z) := first_update (streams m).

(** The [if let] chain does nothing when the stream or its receive side is
    missing. *)
Definition mark_max_stream_data_sent (stream_id : Z) (m : StreamMap) : StreamMap :=
  (with_recv stream_id (modify (λ r, r <| r_max_data := r_max_data_next r |>)) m).2.

Definition send_reset : M Error SendState unit :=
  send ← Prelude.get;
  match s_state send with
  | SendStreamState.Ready | SendStreamState.Send | SendStreamState.DataSent =>
      modify (λ s, s <| s_state := SendStreamState.ResetSent |>)
  | _ => throw stream_state_error
  end.
Definition mark_reset_sent (stream_id : Z) : M Error StreamMap unit :=
  with_send stream_id send_reset.

Definition recv_reset (final_size : Z) : M Error RecvState unit :=
  recv ← Prelude.get;
  match r_state recv with
  | RecvStreamState.Recv | RecvStreamState.SizeKnown | RecvStreamState.DataRecvd =>
      if match r_fin_offset recv with Some fin_off => negb (fin_off =? final_size) | None => false end
      then throw final_size_error
      else modify (λ r, r <| r_fin_offset := Some final_size |>
                          <| r_state := RecvStreamState.ResetRecvd |>)
  | _ => throw stream_state_error
  end.
Definition handle_reset (stream_id final_size : Z) : M Error StreamMap unit :=
  with_recv stream_id (recv_reset final_size).

Definition stop_sending : M Error SendState unit :=
  send ← Prelude.get;
  match s_state send with
  | SendStreamState.Ready | SendStreamState.Send | SendStreamState.DataSent =>
      modify (λ s, s <| s_state := SendStreamState.ResetSent |>)
  | SendStreamState.ResetSent => mret tt
  | _ => throw stream_state_error
  end.
Definition handle_stop_sending (stream_id : Z) : M Error StreamMap unit :=
  with_send stream_id stop_sending.

Definition set_windows (send_max recv_max : option Z) (s : StreamState) : StreamState :=
  let s := match send_max, send s with
           | Some max, Some sd => s <| send := Some (sd <| s_max_data := max |>) |>
           | _, _ => s
           end in
  match recv_max, recv s with
  | Some max, Some rv =>
      s <| recv := Some (rv <| r_max_data := max |> <| r_max_data_next := max |>
                            <| r_initial_window := max |>) |>
  | _, _ => s
  end.
Definition set_stream_windows (stream_id : Z) (send_max recv_max : option Z) (m : StreamMap)
    : StreamMap :=
  match find_stream m stream_id with
  | Some i =>
      match mjoin (streams m !! i) with
      | Some st => m <| streams := <[i := Some (set_windows send_max recv_max st)]> (streams m) |>
      | None => m
      end
  | None => m
  end.

Definition raise_max_data (max_data : Z) : M Error SendState unit :=
  send ← Prelude.get;
  if s_max_data send <? max_data
  then modify (λ s, s <| s_max_data := max_data |> <| s_blocked := false |>)
  else mret tt.
Definition handle_max_stream_data (stream_id max_data : Z) : M Error StreamMap unit :=
  with_send stream_id (raise_max_data max_data).

Definition active_count (m : StreamMap) : nat :=
  length (List.filter (λ s, match s with Some s => negb (stream_is_terminal s) | None => false end)
            (streams m)).

Definition is_terminal (m : StreamMap) (stream_id : Z) : bool :=
  match get m stream_id with Some s => stream_is_terminal s | None => false end.

Definition gc (m : StreamMap) : StreamMap :=
  m <| streams := (λ s, match s with
                        | Some st => if stream_is_terminal st then None else s
                        | None => None
                        end) <$> streams m |>.

(** ** The state machines *)

(** The edges of the sending and receiving state diagrams (RFC 9000, section 3). *)
Inductive send_edge : SendStreamState.t → SendStreamState.t → Prop :=
| Ready_Send : send_edge SendStreamState.Ready SendStreamState.Send
| Send_DataSent : send_edge SendStreamState.Send SendStreamState.DataSent
| Ready_ResetSent : send_edge SendStreamState.Ready SendStreamState.ResetSent
| Send_ResetSent : send_edge SendStreamState.Send SendStreamState.ResetSent
| DataSent_ResetSent : send_edge SendStreamState.DataSent SendStreamState.ResetSent
| DataSent_DataRecvd : send_edge SendStreamState.DataSent SendStreamState.DataRecvd
| ResetSent_ResetRecvd : send_edge SendStreamState.ResetSent SendStreamState.ResetRecvd.
Inductive recv_edge : RecvStreamState.t → RecvStreamState.t → Prop :=
| Recv_SizeKnown : recv_edge RecvStreamState.Recv RecvStreamState.SizeKnown
| SizeKnown_DataRecvd : recv_edge RecvStreamState.SizeKnown RecvStreamState.DataRecvd
| Recv_ResetRecvd : recv_edge RecvStreamState.Recv RecvStreamState.ResetRecvd
| SizeKnown_ResetRecvd : recv_edge RecvStreamState.SizeKnown RecvStreamState.ResetRecvd
| DataRecvd_ResetRecvd : recv_edge RecvStreamState.DataRecvd RecvStreamState.ResetRecvd
| DataRecvd_DataRead : recv_edge RecvStreamState.DataRecvd RecvStreamState.DataRead
| ResetRecvd_ResetRead : recv_edge RecvStreamState.ResetRecvd RecvStreamState.ResetRead.
#[local] Hint Constructors send_edge recv_edge : core.

Definition can_send (s : SendStreamState.t) : bool :=
  match s with SendStreamState.Ready | SendStreamState.Send => true | _ => false end.
Definition can_recv (s : RecvStreamState.t) : bool :=
  match s with RecvStreamState.Recv | RecvStreamState.SizeKnown => true | _ => false end.

(** How a side of a stream may change from one call to the next. *)
Record send_evolves (sd sd' : SendState) : Prop := {
  se_edges : rtc send_edge (s_state sd) (s_state sd');
  se_offset : s_offset sd ≤ s_offset sd';
  se_final : can_send (s_state sd) = false → s_offset sd' = s_offset sd;
  se_fin : s_fin_sent sd = true → s_fin_sent sd' = true
}.
Record recv_evolves (rv rv' : RecvState) : Prop := {
  re_edges : rtc recv_edge (r_state rv) (r_state rv');
  re_offset : r_offset rv ≤ r_offset rv';
  re_final : can_recv (r_state rv) = false → r_offset rv' = r_offset rv;
  re_fin : ∀ f, r_fin_offset rv = Some f → r_fin_offset rv' = Some f
}.
Record stream_evolves (s s' : StreamState) : Prop := {
  ev_id : id s' = id s;
  ev_send : option_Forall2 send_evolves (send s) (send s');
  ev_recv : option_Forall2 recv_evolves (recv s) (recv s')
}.
(** Streams stay in their slots. *)
Definition evolves (m m' : StreamMap) : Prop :=
  ∀ i s, streams m !! i = Some (Some s) →
    ∃ s', streams m' !! i = Some (Some s') ∧ stream_evolves s s'.

#[global] Instance send_evolves_refl : Reflexive send_evolves.
Proof. intros sd. split; [done|lia|done|done]. Qed.
#[global] Instance recv_evolves_refl : Reflexive recv_evolves.
Proof. intros sd. split; [done|lia|done|done]. Qed.
#[global] Instance stream_evolves_refl : Reflexive stream_evolves.
Proof. intros s. split; reflexivity. Qed.
#[global] Instance evolves_refl : Reflexive evolves.
Proof. intros m i s Hs. exists s. split; [done|reflexivity]. Qed.

Lemma can_send_edges s s' : rtc send_edge s s' → can_send s = false → can_send s' = false.
Proof. induction 1 as [|s1 s2 s3 []]; auto. Qed.
Lemma can_recv_edges s s' : rtc recv_edge s s' → can_recv s = false → can_recv s' = false.
Proof. induction 1 as [|s1 s2 s3 []]; auto. Qed.

#[global] Instance send_evolves_trans : Transitive send_evolves.
Proof.
  intros s1 s2 s3 [] []. split; [by etrans|lia| |auto].
  intros Hf. rewrite se_final1, se_final0; eauto using can_send_edges.
Qed.
#[global] Instance recv_evolves_trans : Transitive recv_evolves.
Proof.
  intros s1 s2 s3 [] []. split; [by etrans|lia| |auto].
  intros Hf. rewrite re_final1, re_final0; eauto using can_recv_edges.
Qed.
#[global] Instance stream_evolves_trans : Transitive stream_evolves.
Proof. intros s1 s2 s3 [] []. split; [congruence|by etrans|by etrans]. Qed.
#[global] Instance evolves_trans : Transitive evolves.
Proof.
  intros m1 m2 m3 H1 H2 i s Hs. destruct (H1 i s Hs) as (s' & Hs' & ?).
  destruct (H2 i s' Hs') as (s'' & ? & ?). exists s''. split; [done|by etrans].
Qed.

(** ** Invariant *)

Definition send_ok (sd : SendState) : Prop :=
  0 ≤ s_offset sd ≤ s_max_data sd ∧ s_max_data sd < 2 ^ 64 ∧
  SendStreamState.is_terminal (s_state sd) = false.
(** The advertised limit is at most one window ahead of the data received. *)
Definition recv_ok (rv : RecvState) : Prop :=
  0 ≤ r_offset rv ≤ r_max_data rv ∧ r_max_data rv ≤ r_max_data_next rv ∧
  r_max_data_next rv ≤ r_offset rv + r_initial_window rv ∧ r_max_data_next rv < 2 ^ 64 ∧
  RecvStreamState.is_terminal (r_state rv) = false ∧
  (r_fin_offset rv = None ↔ r_state rv = RecvStreamState.Recv).

Definition is_some {A} (o : option A) : bool := match o with Some _ => true | None => false end.

(** The sides a stream has are those its identifier calls for, and the
    sequence numbers in use are below the counters. *)
Definition sides_ok (is_client : bool) (m : StreamMap) (s : StreamState) : Prop :=
  let peer := if is_client then is_server_initiated (id s) else is_client_initiated (id s) in
  let bidi := is_bidirectional (id s) in
  is_some (send s) = bidi || negb peer ∧ is_some (recv s) = bidi || peer ∧
  id s / 4 < (match peer, bidi with
              | true, true => max_bidi_remote m | true, false => max_uni_remote m
              | false, true => next_bidi_local m | false, false => next_uni_local m
              end).

Record stream_ok (is_client : bool) (m : StreamMap) (s : StreamState) : Prop := {
  so_id : uint 64 (id s);
  so_sides : sides_ok is_client m s;
  so_send : ∀ sd, send s = Some sd → send_ok sd;
  so_recv : ∀ rv, recv s = Some rv → recv_ok rv
}.

Section invariant.
Context `{Config} (is_client : bool).

Record wf (m : StreamMap) : Prop := {
  wf_capacity : (length (streams m) ≤ N)%nat ∧ (alloc = false → length (streams m) = N);
  wf_counters : 0 ≤ next_bidi_local m ∧ 0 ≤ next_uni_local m;
  wf_unique : ∀ i j s t, streams m !! i = Some (Some s) → streams m !! j = Some (Some t) →
    id s = id t → i = j;
  wf_streams : ∀ i s, streams m !! i = Some (Some s) → stream_ok is_client m s
}.

Lemma sm_wf_new : wf StreamMap_new.
Proof.
  assert (∀ i s, streams StreamMap_new !! i ≠ Some (Some s)) as Hnone.
  { intros i s. unfold StreamMap_new. simpl. destruct alloc; [by rewrite lookup_nil|].
    rewrite lookup_replicate. naive_solver. }
  split; [|done|by intros i j s t ?%Hnone|by intros i s ?%Hnone].
  unfold StreamMap_new. simpl. destruct alloc; rewrite ?length_replicate; simpl; split; (done || lia).
Qed.

(** *** Updating a stream in its slot *)

Lemma sides_ok_update m s s' :
  id s' = id s → is_some (send s') = is_some (send s) → is_some (recv s') = is_some (recv s) →
  sides_ok is_client m s → sides_ok is_client m s'.
Proof. unfold sides_ok. by intros -> -> ->. Qed.

Lemma wf_update m i s s' :
  wf m → streams m !! i = Some (Some s) → stream_evolves s s' →
  (∀ sd, send s' = Some sd → send_ok sd) → (∀ rv, recv s' = Some rv → recv_ok rv) →
  wf (m <| streams := <[i := Some s']> (streams m) |>) ∧
  evolves m (m <| streams := <[i := Some s']> (streams m) |>).
Proof.
  intros [] Hs [Hid Hsend Hrecv] Hsok Hrok. pose proof (lookup_lt_Some _ _ _ Hs).
  split; [split|]; simpl; rewrite ?length_insert; try done.
  - intros j k t u. rewrite !list_lookup_insert_Some. intros Ht Hu Htu.
    destruct Ht as [(<- & [= <-] & _)|[? Ht]], Hu as [(<- & [= <-] & _)|[? Hu]];
      [done|apply (wf_unique0 _ _ _ _ Hs Hu); congruence
      |symmetry; apply (wf_unique0 _ _ _ _ Hs Ht); congruence|eauto].
  - intros j t. rewrite list_lookup_insert_Some. intros [(<- & [= <-] & _)|[? Ht]]; [|by destruct (wf_streams0 _ _ Ht)].
    destruct (wf_streams0 _ _ Hs). split; simpl; [by rewrite Hid| |done|done].
    apply (sides_ok_update _ s); [done|by inv Hsend|by inv Hrecv|done].
  - intros j t Ht. simpl. destruct (decide (i = j)) as [<-|].
    + exists s'. rewrite list_lookup_insert_eq by done. by simplify_eq.
    + exists t. rewrite list_lookup_insert_ne by done. split; [done|reflexivity].
Qed.

Lemma find_stream_Some m x i :
  find_stream m x = Some i → ∃ s, streams m !! i = Some (Some s) ∧ id s = x.
Proof.
  unfold find_stream. intros [(o & Hi & Ho) _]%position_Some. destruct o as [s|]; [|done].
  exists s. split; [done|]. by apply Z.eqb_eq.
Qed.
Lemma find_stream_None m x i s :
  find_stream m x = None → streams m !! i = Some (Some s) → id s ≠ x.
Proof.
  unfold find_stream. rewrite position_None, Forall_lookup. intros Hn Hs.
  by apply Hn, Z.eqb_neq in Hs.
Qed.

(** A call on the send (receive) side keeps the invariant when its body does. *)
Lemma wf_with_send {A} x (f : M Error SendState A) m r m' :
  (∀ sd r sd', send_ok sd → f sd = (r, sd') → send_ok sd' ∧ send_evolves sd sd') →
  wf m → with_send x f m = (r, m') → wf m' ∧ evolves m m'.
Proof.
  intros Hf Hwf. unfold with_send. destruct (find_stream m x) as [i|] eqn:Hx; [|by intros [= _ <-]].
  destruct (find_stream_Some _ _ _ Hx) as (s & Hs & _). rewrite Hs. simpl.
  destruct (send s) as [sd|] eqn:Hsd; [|by intros [= _ <-]].
  destruct (f sd) as [r' sd'] eqn:Hfs. intros [= _ <-].
  pose proof (wf_streams _ Hwf _ _ Hs) as [].
  destruct (Hf sd r' sd') as [Hok Hev]; [eauto|done|].
  apply (wf_update _ _ s); simpl; [done|done| |naive_solver|done].
  split; simpl; [done|rewrite Hsd; by constructor|reflexivity].
Qed.
Lemma wf_with_recv {A} x (f : M Error RecvState A) m r m' :
  (∀ rv r rv', recv_ok rv → f rv = (r, rv') → recv_ok rv' ∧ recv_evolves rv rv') →
  wf m → with_recv x f m = (r, m') → wf m' ∧ evolves m m'.
Proof.
  intros Hf Hwf. unfold with_recv. destruct (find_stream m x) as [i|] eqn:Hx; [|by intros [= _ <-]].
  destruct (find_stream_Some _ _ _ Hx) as (s & Hs & _). rewrite Hs. simpl.
  destruct (recv s) as [rv|] eqn:Hrv; [|by intros [= _ <-]].
  destruct (f rv) as [r' rv'] eqn:Hfs. intros [= _ <-].
  pose proof (wf_streams _ Hwf _ _ Hs) as [].
  destruct (Hf rv r' rv') as [Hok Hev]; [eauto|done|].
  apply (wf_update _ _ s); simpl; [done|done| |done|naive_solver].
  split; simpl; [done|reflexivity|rewrite Hrv; by constructor].
Qed.

(** *** Adding a stream *)

Lemma find_free_slot_spec m r m' :
  wf m → find_free_slot m = (r, m') →
  match r with
  | Ok (Some slot) => streams m' !! slot = Some None ∧ wf m' ∧ evolves m m' ∧
      (∀ i s, streams m' !! i = Some (Some s) → streams m !! i = Some (Some s)) ∧
      next_bidi_local m' = next_bidi_local m ∧ next_uni_local m' = next_uni_local m ∧
      max_bidi_remote m' = max_bidi_remote m ∧ max_uni_remote m' = max_uni_remote m
  | Ok None => m' = m ∧ Forall (λ o, o ≠ None) (streams m) ∧ length (streams m) = N
  | _ => False
  end.
Proof.
  intros Hwf. unfold find_free_slot.
  destruct (position _ _) as [pos|] eqn:Hpos.
  - intros [= <- <-]. apply position_Some in Hpos as [([|] & Hs & ?) _]; [done|].
    by split_and!.
  - apply position_None in Hpos. pose proof Hwf as [[Hcap Hfix] ? Hu Hst].
    assert (Forall (λ o, o ≠ None) (streams m)) as Hall
      by (eapply Forall_impl; [done|]; by intros []).
    destruct alloc eqn:Ha; [|intros [= <- <-]; auto].
    destruct (Nat.ltb_spec (length (streams m)) N) as [Hlt|]; intros [= <- <-];
      [|split_and!; [done..|lia]].
    assert (∀ i s, (streams m ++ [None]) !! i = Some (Some s) → streams m !! i = Some (Some s)) as Hold.
    { intros i s [?|[_ Hi]]%lookup_app_Some; [done|]. by apply list_lookup_singleton_Some in Hi as []. }
    simpl. split_and!; try done; [by rewrite lookup_app_r, Nat.sub_diag by lia|split; simpl; eauto|].
    + rewrite length_app, Ha. simpl. split; [lia|done].
    + intros i s Hi%Hold. destruct (Hst i s Hi). by split.
    + intros i s Hs. exists s. split; [|reflexivity]. simpl. by apply lookup_app_l_Some.
Qed.

(** The counters that only grow. *)
Definition counters_le (m m' : StreamMap) : Prop :=
  next_bidi_local m ≤ next_bidi_local m' ∧ next_uni_local m ≤ next_uni_local m' ∧
  max_bidi_remote m ≤ max_bidi_remote m' ∧ max_uni_remote m ≤ max_uni_remote m'.

Lemma stream_ok_counters m m' s : counters_le m m' → stream_ok is_client m s → stream_ok is_client m' s.
Proof.
  intros (? & ? & ? & ?) []. split; try done. unfold sides_ok in *.
  destruct so_sides0 as (? & ? & Hseq). split_and!; [done..|].
  destruct (if is_client then _ else _), (is_bidirectional (id s)); lia.
Qed.

(** A fresh identifier put in a free slot, the counters raised. *)
Lemma wf_insert m m' slot s :
  wf m → streams m !! slot = Some None → (∀ i t, streams m !! i = Some (Some t) → id t ≠ id s) →
  streams m' = <[slot := Some s]> (streams m) → counters_le m m' → stream_ok is_client m' s →
  wf m' ∧ evolves m m'.
Proof.
  intros [] Hfree Hfresh Hst Hle Hok. pose proof (lookup_lt_Some _ _ _ Hfree).
  split; [split|].
  - by rewrite Hst, length_insert.
  - unfold counters_le in Hle. lia.
  - intros i j t u. rewrite !Hst, !list_lookup_insert_Some. intros Ht Hu Htu.
    destruct Ht as [(<- & [= <-] & _)|[? Ht]], Hu as [(<- & [= <-] & _)|[? Hu]];
      [done|by apply Hfresh in Hu|by apply Hfresh in Ht|eauto].
  - intros i t. rewrite Hst, list_lookup_insert_Some. intros [(<- & [= <-] & _)|[? Ht]]; [done|].
    eauto using stream_ok_counters.
  - intros i t Ht. exists t. split; [|reflexivity]. rewrite Hst, list_lookup_insert_ne; [done|]. congruence.
Qed.

Lemma id_of_type t n :
  0 ≤ n → let x := 4 * n + type_code t in
  x / 4 = n ∧
  is_bidirectional x = (match t with ClientBidi | ServerBidi => true | _ => false end) ∧
  is_client_initiated x = (match t with ClientBidi | ClientUni => true | _ => false end) ∧
  is_server_initiated x = (match t with ClientBidi | ClientUni => false | _ => true end).
Proof.
  intros Hn x. unfold is_bidirectional, is_client_initiated, is_server_initiated.
  rewrite (land_mod4 x 2), (land_mod4 x 1) by done.
  assert (x mod 4 = type_code t) as -> by (subst x; destruct t; simpl; div_lia).
  split; [subst x; destruct t; simpl; div_lia|by destruct t].
Qed.

Lemma stream_id_eq t n x : stream_id t n = Ok x → x = 4 * n + type_code t ∧ x < 2 ^ 64.
Proof. unfold stream_id, umul, uadd, mbind, res_bind. intros. repeat (case_match; simplify_eq/=). lia. Qed.

Lemma set_slot_eq m slot s o :
  streams m !! slot = Some o → set_slot slot s m = (Ok tt, m <| streams := <[slot := Some s]> (streams m) |>).
Proof.
  intros Hs%lookup_lt_Some. unfold set_slot. rewrite set_idx_eq by lia. by rewrite Nat2Z.id.
Qed.

Lemma send_ok_new max : uint 64 max → send_ok (SendState_new max).
Proof. unfold send_ok, uint. simpl. lia. Qed.
Lemma recv_ok_new max : uint 64 max → recv_ok (RecvState_new max).
Proof. unfold recv_ok, uint. simpl. intuition (try lia; try done). Qed.

Lemma counters_le_refl m : counters_le m m.
Proof. unfold counters_le. lia. Qed.

(** After [find_free_slot]: the table is full and unchanged, or there is a slot
    into which a stream with a fresh identifier can be put. *)
Lemma add_stream_cases m r m1 :
  wf m → find_free_slot m = (r, m1) →
  (r = Ok None ∧ m1 = m) ∨
  ∃ slot, r = Ok (Some slot) ∧ streams m1 !! slot = Some None ∧
    (next_bidi_local m1 = next_bidi_local m ∧ next_uni_local m1 = next_uni_local m ∧
     max_bidi_remote m1 = max_bidi_remote m ∧ max_uni_remote m1 = max_uni_remote m) ∧
    ∀ m' s, (∀ i u, streams m !! i = Some (Some u) → id u ≠ id s) →
      streams m' = <[slot := Some s]> (streams m1) → counters_le m m' → stream_ok is_client m' s →
      wf m' ∧ evolves m m'.
Proof.
  intros Hwf Hf. apply find_free_slot_spec in Hf; [|done].
  destruct r as [[slot|]| |]; [right|left; by destruct Hf as [-> _]|done..].
  destruct Hf as (Hslot & Hwf1 & Hev & Hsame & Hcnt). exists slot. split_and!; try apply Hcnt; try done.
  intros m' s Hfresh Hst Hle Hok.
  destruct (wf_insert m1 m' slot s) as [? ?]; [done..|eauto|done| |done|split; [done|by etrans]].
  unfold counters_le in *. lia.
Qed.

(** A call that opens a local stream; a refusal leaves every stream alone. *)
Lemma open_bidi_wf m r m' : wf m → open_bidi is_client m = (r, m') → wf m' ∧ evolves m m'.
Proof.
  intros Hwf. unfold open_bidi, mbind, M_bind, Prelude.get, lift. simpl.
  set (t := if is_client then ClientBidi else ServerBidi).
  destruct (stream_id t (next_bidi_local m)) as [x| |] eqn:Hx; [|by intros [= _ <-]..].
  apply stream_id_eq in Hx as [Hx Hx64]. pose proof (wf_counters _ Hwf) as [Hpos _].
  destruct (id_of_type t (next_bidi_local m) Hpos) as (Hseq & Hbidi & Hc & Hs). rewrite <- Hx in *.
  destruct (find_free_slot m) as [r1 m1] eqn:Hf.
  destruct (add_stream_cases m r1 m1 Hwf Hf) as [[-> ->]|(slot & -> & Hslot & Hcnt & Hadd)];
    [by intros [= _ <-]|]. simpl. erewrite set_slot_eq by done.
  rewrite uadd_ok by (unfold t in *; destruct is_client; simpl in *; lia). intros [= _ <-].
  eapply Hadd; [|reflexivity|unfold counters_le in *; simpl; lia|split; simpl].
  - intros i u Hu Hid. destruct (so_sides _ _ _ (wf_streams _ Hwf _ _ Hu)) as (_ & _ & Hlt).
    simpl in Hid. rewrite Hid, Hseq, Hbidi, Hc, Hs in Hlt. subst t. destruct is_client; lia.
  - unfold uint. unfold t in *. destruct is_client; simpl in *; lia.
  - unfold sides_ok. simpl. rewrite Hseq, Hbidi, Hc, Hs. subst t. destruct is_client; simpl; split_and!; (done || lia).
  - intros ? [= <-]. by apply send_ok_new.
  - intros ? [= <-]. by apply recv_ok_new.
Qed.

Lemma open_uni_wf m r m' : wf m → open_uni is_client m = (r, m') → wf m' ∧ evolves m m'.
Proof.
  intros Hwf. unfold open_uni, mbind, M_bind, Prelude.get, lift. simpl.
  set (t := if is_client then ClientUni else ServerUni).
  destruct (stream_id t (next_uni_local m)) as [x| |] eqn:Hx; [|by intros [= _ <-]..].
  apply stream_id_eq in Hx as [Hx Hx64]. pose proof (wf_counters _ Hwf) as [_ Hpos].
  destruct (id_of_type t (next_uni_local m) Hpos) as (Hseq & Hbidi & Hc & Hs). rewrite <- Hx in *.
  destruct (find_free_slot m) as [r1 m1] eqn:Hf.
  destruct (add_stream_cases m r1 m1 Hwf Hf) as [[-> ->]|(slot & -> & Hslot & Hcnt & Hadd)];
    [by intros [= _ <-]|]. simpl. erewrite set_slot_eq by done.
  rewrite uadd_ok by (unfold t in *; destruct is_client; simpl in *; lia). intros [= _ <-].
  eapply Hadd; [|reflexivity|unfold counters_le in *; simpl; lia|split; simpl].
  - intros i u Hu Hid. destruct (so_sides _ _ _ (wf_streams _ Hwf _ _ Hu)) as (_ & _ & Hlt).
    simpl in Hid. rewrite Hid, Hseq, Hbidi, Hc, Hs in Hlt. subst t. destruct is_client; lia.
  - unfold uint. unfold t in *. destruct is_client; simpl in *; lia.
  - unfold sides_ok. simpl. rewrite Hseq, Hbidi, Hc, Hs. subst t. destruct is_client; simpl; split_and!; (done || lia).
  - intros ? [= <-]. by apply send_ok_new.
  - done.
Qed.

Lemma get_or_create_wf x max m r m' :
  uint 64 x → uint 64 max → wf m → get_or_create x is_client max m = (r, m') → wf m' ∧ evolves m m'.
Proof.
  intros Hx Hmax Hwf. unfold get_or_create.
  destruct (if is_client then _ else _) eqn:Hpeer; [|by intros [= _ <-]].
  unfold mbind, M_bind, Prelude.get, lift, modify, mret, M_ret. simpl.
  destruct (find_stream m x) as [i|] eqn:Hfind; [by intros [= _ <-]|].
  destruct (find_free_slot m) as [r1 m1] eqn:Hf.
  destruct (add_stream_cases m r1 m1 Hwf Hf) as [[-> ->]|(slot & -> & Hslot & Hcnt & Hadd)];
    [by intros [= _ <-]|]. simpl.
  assert (∀ i u, streams m !! i = Some (Some u) → id u ≠ x) as Hfresh by eauto using find_stream_None.
  unfold uint in Hx. assert (x / 4 + 1 < 2 ^ 64) by div_lia.
  destruct (is_bidirectional x) eqn:Hbidi; destruct (Z.leb_spec (if is_bidirectional x then max_bidi_remote m else max_uni_remote m) (x / 4)) as [Hle|Hlt];
    rewrite Hbidi in *; rewrite ?uadd_ok by done.
  all: repeat first [rewrite (proj2 (Z.leb_le _ _)) by lia | rewrite (proj2 (Z.leb_gt _ _)) by lia].
  all: rewrite ?uadd_ok by done; erewrite set_slot_eq by done; intros [= _ <-].
  all: eapply Hadd; [|reflexivity|unfold counters_le; simpl; lia|split; simpl; try done]; try exact Hfresh.
  all: try (unfold sides_ok; simpl; rewrite Hpeer, Hbidi; simpl; split_and!; (done || lia)).
  all: intros ? [= <-]; auto using send_ok_new, recv_ok_new.
Qed.

(** *** The bodies *)

Ltac edges := repeat first [ done | apply rtc_once; by constructor
  | eapply rtc_l; [by constructor|] ].
Ltac run_body :=
  unfold Prelude.get in *; run_method; simplify_eq/=; unfold send_ok, recv_ok, sat_sub in *; simpl in *.
Ltac finish_body :=
  split; [intuition (try lia; try done)|split; simpl; try done; try lia; edges;
    try (intros; simplify_eq; f_equal; lia)].

Lemma send_data_body n fin sd r sd' :
  uint 64 n → send_ok sd → send_data n fin sd = (r, sd') → send_ok sd' ∧ send_evolves sd sd'.
Proof.
  intros [Hn _] Hok Hrun. destruct sd as [st off acked fs max bl]. unfold send_data in Hrun.
  destruct st; run_body; finish_body.
Qed.
Lemma send_reset_body sd r sd' :
  send_ok sd → send_reset sd = (r, sd') → send_ok sd' ∧ send_evolves sd sd'.
Proof.
  intros Hok Hrun. destruct sd as [st off acked fs max bl]. unfold send_reset in Hrun.
  destruct st; run_body; finish_body.
Qed.
Lemma stop_sending_body sd r sd' :
  send_ok sd → stop_sending sd = (r, sd') → send_ok sd' ∧ send_evolves sd sd'.
Proof.
  intros Hok Hrun. destruct sd as [st off acked fs max bl]. unfold stop_sending in Hrun.
  destruct st; run_body; finish_body.
Qed.
Lemma raise_max_data_body n sd r sd' :
  uint 64 n → send_ok sd → raise_max_data n sd = (r, sd') → send_ok sd' ∧ send_evolves sd sd'.
Proof.
  intros [_ Hn] Hok Hrun. destruct sd as [st off acked fs max bl]. unfold raise_max_data in Hrun.
  run_body; finish_body.
Qed.
Lemma recv_reset_body n rv r rv' :
  recv_ok rv → recv_reset n rv = (r, rv') → recv_ok rv' ∧ recv_evolves rv rv'.
Proof.
  intros Hok Hrun. destruct rv as [st off max next win fo]. unfold recv_reset in Hrun.
  destruct st, fo as [f|]; run_body; finish_body.
Qed.


(** Data on the receive side; also what it returns: the growth of the largest
    offset. *)
Lemma recv_data_body off n fin rv r rv' :
  0 ≤ off → 0 ≤ n → recv_ok rv → recv_data off n fin rv = (r, rv') →
  recv_ok rv' ∧ recv_evolves rv rv' ∧ ∀ b, r = Ok b → b = r_offset rv' - r_offset rv.
Proof.
  intros Ho Hn Hok Hrun. rewrite (and_assoc (recv_ok rv')).
  destruct rv as [st o max next win fo]. unfold recv_data, check_final_size in Hrun.
  destruct st, fo as [f|], fin; run_body; (split; [finish_body|intros ? ?; simplify_eq; lia]).
Qed.

(** ** Sequences of calls *)

(** The public methods that change the table. *)
Inductive op :=
| OpenBidi | OpenUni | GetOrCreate (stream_id initial_max_stream_data : Z)
| MarkSend (stream_id len : Z) (fin : bool) | MarkRecv (stream_id offset len : Z) (fin : bool)
| MarkMaxStreamDataSent (stream_id : Z) | MarkResetSent (stream_id : Z)
| HandleReset (stream_id final_size : Z) | HandleStopSending (stream_id : Z)
| SetStreamWindows (stream_id : Z) (send_max recv_max : option Z)
| HandleMaxStreamData (stream_id max_data : Z) | Gc.

Definition void {A} (m : M Error StreamMap A) : M Error StreamMap unit := _ ← m; mret tt.

Definition exec (o : op) : M Error StreamMap unit :=
  match o with
  | OpenBidi => void (open_bidi is_client)
  | OpenUni => void (open_uni is_client)
  | GetOrCreate x max => void (get_or_create x is_client max)
  | MarkSend x n fin => mark_send x n fin
  | MarkRecv x off n fin => void (mark_recv x off n fin)
  | MarkMaxStreamDataSent x => modify (mark_max_stream_data_sent x)
  | MarkResetSent x => mark_reset_sent x
  | HandleReset x n => handle_reset x n
  | HandleStopSending x => handle_stop_sending x
  | SetStreamWindows x sm rm => modify (set_stream_windows x sm rm)
  | HandleMaxStreamData x n => handle_max_stream_data x n
  | Gc => modify gc
  end.

(** Arguments are [u64] values, and windows are only set on a stream that has
    not carried data yet ("a freshly opened stream"). *)
Definition op_ok (m : StreamMap) (o : op) : Prop :=
  match o with
  | GetOrCreate x n | HandleMaxStreamData x n => uint 64 x ∧ uint 64 n
  | MarkSend x n _ => uint 64 n
  | MarkRecv x off n _ => uint 64 off ∧ uint 64 n
  | SetStreamWindows x sm rm =>
      (∀ v, sm = Some v → uint 64 v) ∧ (∀ v, rm = Some v → uint 64 v) ∧
      ∀ s, get m x = Some s → (∀ sd, send s = Some sd → s_offset sd = 0) ∧
        (∀ rv, recv s = Some rv → r_offset rv = 0)
  | _ => True
  end.

Lemma void_run {A} (f : M Error StreamMap A) m r m' :
  void f m = (r, m') → ∃ r', f m = (r', m').
Proof.
  unfold void, mbind, M_bind, mret, M_ret. destruct (f m) as [[] ?]; intros [= <- <-]; eauto.
Qed.

Lemma get_find m x i s : find_stream m x = Some i → streams m !! i = Some (Some s) → get m x = Some s.
Proof. intros Hf Hs. unfold get. rewrite Hf. simpl. by rewrite Hs. Qed.

Lemma send_ok_window sd v :
  send_ok sd → s_offset sd = 0 → uint 64 v → send_ok (sd <| s_max_data := v |>).
Proof. unfold send_ok, uint. simpl. intuition lia. Qed.
Lemma recv_ok_window rv v :
  recv_ok rv → r_offset rv = 0 → uint 64 v →
  recv_ok (rv <| r_max_data := v |> <| r_max_data_next := v |> <| r_initial_window := v |>).
Proof. unfold recv_ok, uint. simpl. intuition lia. Qed.

Lemma set_stream_windows_wf x sm rm m :
  op_ok m (SetStreamWindows x sm rm) → wf m →
  wf (set_stream_windows x sm rm m) ∧ evolves m (set_stream_windows x sm rm m).
Proof.
  intros (Hsm & Hrm & Hfresh) Hwf. unfold set_stream_windows.
  destruct (find_stream m x) as [i|] eqn:Hx; [|done].
  destruct (find_stream_Some _ _ _ Hx) as (s & Hs & _). rewrite Hs. simpl.
  destruct (Hfresh s) as [Hs0 Hr0]; [by eapply get_find|].
  pose proof (wf_streams _ Hwf _ _ Hs) as [_ _ Hsend Hrecv].
  destruct s as [sid sd rv]; simpl in *.
  apply (wf_update _ _ (Build_StreamState sid sd rv)); [done|done|split|..];
    unfold set_windows; simpl.
  all: destruct sm as [a|], rm as [b|], sd as [sd|], rv as [rv|]; simpl; try done.
  all: try (constructor; split; simpl; done).
  all: intros ? [= <-]; auto using send_ok_window, recv_ok_window.
Qed.

Lemma not_terminal m i s : wf m → streams m !! i = Some (Some s) → stream_is_terminal s = false.
Proof.
  intros Hwf Hs. destruct (wf_streams _ Hwf _ _ Hs) as [_ (H1 & H2 & _) Hsend Hrecv].
  unfold stream_is_terminal. destruct (send s) as [sd|], (recv s) as [rv|]; simpl in *.
  - by destruct (Hsend sd) as (_ & _ & ->).
  - by destruct (Hsend sd) as (_ & _ & ->).
  - by destruct (Hrecv rv) as (_ & _ & _ & _ & -> & _).
  - destruct (is_bidirectional _), (if is_client then _ else _); done.
Qed.

Lemma gc_id m : wf m → gc m = m.
Proof.
  intros Hwf. unfold gc. destruct m as [l a b c d]; unfold update; simpl. f_equal.
  apply list_eq. intros i. rewrite list_lookup_fmap.
  destruct (l !! i) as [[s|]|] eqn:Hs; simpl; [|done..].
  by rewrite (not_terminal _ i s Hwf Hs).
Qed.

Lemma sm_exec_wf o m r m' : op_ok m o → wf m → exec o m = (r, m') → wf m' ∧ evolves m m'.
Proof.
  intros Hok Hwf. destruct o; simpl in *.
  - intros [? ?]%void_run. eauto using open_bidi_wf.
  - intros [? ?]%void_run. eauto using open_uni_wf.
  - intros [? ?]%void_run. destruct Hok. eauto using get_or_create_wf.
  - apply wf_with_send; eauto using send_data_body.
  - intros [? Hr]%void_run. destruct Hok as [[? _] [? _]].
    eapply wf_with_recv; [|done..]. intros rv r' rv' Hrv Hrun.
    by apply recv_data_body in Hrun as (? & ? & _).
  - intros [= _ <-]. unfold mark_max_stream_data_sent.
    destruct (with_recv _ _ m) as [r' m1] eqn:Hr. eapply wf_with_recv; [|done..].
    intros [st o mx nx w fo] ? ? Hrv [= _ <-]. unfold recv_ok in *; simpl in *.
    split; [intuition lia|split; simpl; done].
  - apply wf_with_send; eauto using send_reset_body.
  - apply wf_with_recv; eauto using recv_reset_body.
  - apply wf_with_send; eauto using stop_sending_body.
  - intros [= _ <-]. by apply set_stream_windows_wf.
  - destruct Hok. apply wf_with_send; eauto using raise_max_data_body.
  - intros [= _ <-]. by rewrite gc_id.
Qed.

Inductive calls (m : StreamMap) : StreamMap → Prop :=
| calls_nil : calls m m
| calls_snoc m1 o m2 r : calls m m1 → op_ok m1 o → exec o m1 = (r, m2) → calls m m2.

Lemma sm_calls_wf m m' : wf m → calls m m' → wf m' ∧ evolves m m'.
Proof.
  intros Hwf. induction 1 as [|m1 o m2 r _ [? ?] Ho Hx]; [done|].
  destruct (sm_exec_wf o m1 r m2) as []; auto. split; [done|by etrans].
Qed.

(** *** Lookups *)

Lemma get_Some m x s : wf m → get m x = Some s ↔ ∃ i, streams m !! i = Some (Some s) ∧ id s = x.
Proof.
  intros Hwf. split.
  - unfold get. intros (i & Hi & Ho)%bind_Some. destruct (find_stream_Some _ _ _ Hi) as (t & Ht & <-).
    rewrite Ht in Ho. simplify_eq/=. eauto.
  - intros (i & Hi & <-). destruct (find_stream m (id s)) as [j|] eqn:Hf.
    + destruct (find_stream_Some _ _ _ Hf) as (t & Ht & Hid).
      assert (i = j) as <- by eauto using wf_unique. simplify_eq. by eapply get_find.
    + by eapply find_stream_None in Hi.
Qed.

Lemma get_None m x : get m x = None ↔ find_stream m x = None.
Proof.
  unfold get. split; [|by intros ->]. destruct (find_stream m x) as [i|] eqn:Hf; [|done].
  destruct (find_stream_Some _ _ _ Hf) as (t & Ht & _). simpl. by rewrite Ht.
Qed.

(** A full table stays full: its streams evolve in place. *)
Definition full (m : StreamMap) : Prop := length (streams m) = N ∧ Forall (λ o, o ≠ None) (streams m).

Lemma full_calls m m' : wf m → full m → calls m m' → full m'.
Proof.
  intros Hwf [Hlen Hall] Hc. destruct (sm_calls_wf _ _ Hwf Hc) as [Hwf' Hev].
  assert (∀ i, (i < N)%nat → ∃ s, streams m' !! i = Some (Some s)) as Hocc.
  { intros i Hi. destruct (lookup_lt_is_Some_2 (streams m) i) as [[s|] Hs]; [lia| |].
    - destruct (Hev _ _ Hs) as (s' & Hs' & _). eauto.
    - rewrite Forall_lookup in Hall. by apply Hall in Hs. }
  assert (length (streams m') = N) as Hlen'.
  { pose proof (wf_capacity _ Hwf') as [Hle _]. destruct (decide (length (streams m') < N)%nat) as [Hlt|]; [|lia].
    destruct (Hocc (length (streams m')) Hlt) as [s Hs%lookup_lt_Some]. lia. }
  split; [done|]. rewrite Forall_lookup. intros i o Ho. pose proof (lookup_lt_Some _ _ _ Ho).
  destruct (Hocc i) as [s Hs]; [lia|]. congruence.
Qed.

Lemma find_free_slot_full m : full m → find_free_slot m = (Ok None, m).
Proof.
  intros [Hlen Hall]. unfold find_free_slot.
  rewrite (proj2 (position_None _ _)) by (eapply Forall_impl; [done|]; by intros []).
  destruct alloc; [|done]. by rewrite (proj2 (Nat.ltb_ge _ _)) by lia.
Qed.

End invariant.

(** ** Properties *)

(** C27: the stream table's invariant.  Under any sequence of calls from the empty
    table (errors included), the table stays within its capacity, no two slots
    hold the same stream, every stream has exactly the sides its identifier
    calls for, every side respects its flow-control limit, and an advertised limit
    is at most one window ahead of the data received. *)
Theorem stream_table_invariant `{Config} is_client m :
  calls is_client StreamMap_new m → wf is_client m.
Proof. intros Hc. by eapply sm_calls_wf in Hc as []; [|apply sm_wf_new]. Qed.

Definition config2 : Config := {| N := 2; alloc := true |}.

Lemma stream_table_invariant_witness :
  wf (H:=config2) true (open_bidi (H:=config2) true (StreamMap_new (H:=config2))).2.
Proof.
  apply (stream_table_invariant (H:=config2) true).
  eapply (calls_snoc _ _ _ OpenBidi); [constructor|done|reflexivity].
Defined.

(** C21: every stream follows its state diagrams.  Between any two points of a
    connection a stream stays in its slot, its send and receive states move
    along edges of the RFC 9000 diagrams, its offsets never go back, no data is
    added once a side is final, and a final size once known never changes. *)
Theorem streams_follow_diagrams `{Config} is_client m1 m2 x s :
  calls is_client StreamMap_new m1 → calls is_client m1 m2 → get m1 x = Some s →
  ∃ s', get m2 x = Some s' ∧ stream_evolves s s'.
Proof.
  intros Hc1 Hc2 Hs. eapply sm_calls_wf in Hc1 as [Hwf1 _]; [|apply sm_wf_new].
  destruct (sm_calls_wf _ _ _ Hwf1 Hc2) as [Hwf2 Hev].
  apply (get_Some is_client) in Hs as (i & Hi & <-); [|done].
  destruct (Hev _ _ Hi) as (s' & Hi' & He). exists s'. split; [|done].
  apply (get_Some is_client); [done|]. exists i. split; [done|by destruct He].
Qed.

Lemma streams_follow_diagrams_witness :
  let m1 := (open_bidi (H:=config2) true (StreamMap_new (H:=config2))).2 in
  let m2 := (mark_send 0 5 true m1).2 in
  ∃ s s', get m1 0 = Some s ∧ get m2 0 = Some s' ∧ stream_evolves s s'.
Proof.
  intros m1 m2.
  destruct (streams_follow_diagrams (H:=config2) true m1 m2 0
    {| id := 0; send := Some (SendState_new 65536); recv := Some (RecvState_new 65536) |}) as (s' & ? & ?).
  - eapply (calls_snoc _ _ _ OpenBidi); [constructor|done|reflexivity].
  - eapply (calls_snoc _ _ _ (MarkSend 0 5 true)); [constructor|done|reflexivity].
  - reflexivity.
  - by eexists _, s'.
Defined.

(** Accounting of received data.  On a stream still receiving, [mark_recv]
    refuses exactly the frames that contradict the known final size or end beyond
    the advertised limit; otherwise it returns how far the largest offset has
    moved, so that the sum of the results is that offset. *)
Theorem recv_data_accounting off n fin rv :
  recv_ok rv → can_recv (r_state rv) = true → uint 62 off → uint 62 n →
  r_max_data rv + r_initial_window rv < 2 ^ 64 →
  let endo := off + n in
  let conflict := match r_fin_offset rv with
                  | Some f => bool_decide (f < endo) || fin && negb (bool_decide (endo = f))
                  | None => false end in
  if conflict then recv_data off n fin rv = (Err final_size_error, rv)
  else if decide (r_max_data rv < endo) then (recv_data off n fin rv).1 = Err flow_control_error
  else ∃ rv', recv_data off n fin rv = (Ok (r_offset rv' - r_offset rv), rv') ∧
    r_offset rv' = Z.max (r_offset rv) endo ∧
    (fin = true → r_fin_offset rv' = Some endo) ∧ r_max_data rv' = r_max_data rv.
Proof.
  intros Hok Hst [Ho Ho'] [Hn Hn'] Hw endo. unfold recv_ok in Hok.
  destruct rv as [st o max next win fo]. simpl in *.
  unfold recv_data, check_final_size, sat_sub. subst endo.
  destruct st, fo as [f|], fin; try done; simpl in *; rewrite ?bool_decide_decide;
    unfold mbind, M_bind, res_bind, Prelude.get, lift, modify, throw, mret, M_ret; simpl; rewrite uadd_ok by lia; simpl;
    repeat (case_match; simplify_eq/=; try lia); try done; try (unfold uadd in *; repeat case_match; simplify_eq/=; lia);
    eexists; (split; [repeat f_equal; simpl; lia|]); simpl; split_and!; (done || lia).
Qed.

(** Opening a stream.  A successful [open_bidi] returns an identifier that
    was not in use, of the caller's own bidirectional kind, under which the new
    stream is found with default windows, and leaves every other lookup alone. *)
Theorem open_bidi_fresh `{Config} is_client m x m' :
  wf is_client m → open_bidi is_client m = (Ok x, m') →
  get m x = None ∧ is_bidirectional x = true ∧ is_client_initiated x = is_client ∧
  get m' x = Some {| id := x; send := Some (SendState_new DEFAULT_INITIAL_MAX_STREAM_DATA);
                     recv := Some (RecvState_new DEFAULT_INITIAL_MAX_STREAM_DATA) |} ∧
  ∀ y, y ≠ x → get m' y = get m y.
Proof.
  intros Hwf Hopen. pose proof (open_bidi_wf _ _ _ _ Hwf Hopen) as [Hwf' _]. revert Hopen.
  unfold open_bidi, mbind, M_bind, Prelude.get, lift. simpl.
  set (t := if is_client then ClientBidi else ServerBidi).
  destruct (stream_id t (next_bidi_local m)) as [x'| |] eqn:Hx; [|done..].
  apply stream_id_eq in Hx as [Hx Hx64]. pose proof (wf_counters _ _ Hwf) as [Hpos _].
  destruct (id_of_type t (next_bidi_local m) Hpos) as (Hseq & Hbidi & Hc & Hs). rewrite <- Hx in *.
  destruct (find_free_slot m) as [r1 m1] eqn:Hf. apply (find_free_slot_spec is_client) in Hf; [|done].
  destruct r1 as [[slot|]| |]; [|done..]. destruct Hf as (Hslot & _ & Hev & Hsame & _). simpl.
  erewrite set_slot_eq by done. unfold uadd. case_decide; [|done]. intros [= <- <-].
  set (s := Build_StreamState x' _ _) in *. set (m' := update _ _ _) in *.
  assert (streams m' = <[slot := Some s]> (streams m1)) as Hst by done.
  pose proof (lookup_lt_Some _ _ _ Hslot) as Hlt.
  assert (∀ i u, streams m !! i = Some (Some u) → id u ≠ x') as Hfresh.
  { intros i u Hu Hid. destruct (so_sides _ _ _ (wf_streams _ _ Hwf _ _ Hu)) as (_ & _ & Hq).
    rewrite Hid, Hseq, Hbidi, Hc, Hs in Hq. subst t. destruct is_client; lia. }
  split_and!.
  - destruct (get m x') as [u|] eqn:Hg; [|done]. apply (get_Some is_client) in Hg as (i & Hi & Hid); [|done].
    by apply Hfresh in Hi.
  - rewrite Hbidi. subst t. by destruct is_client.
  - rewrite Hc. subst t. by destruct is_client.
  - apply (get_Some is_client); [done|]. exists slot. rewrite Hst, list_lookup_insert_eq; auto.
  - intros y Hy. apply option_eq. intros u. rewrite !(get_Some is_client) by done.
    rewrite Hst. split; intros (i & Hi & Hid); exists i; split; try done.
    + apply list_lookup_insert_Some in Hi as [(_ & [= <-] & _)|[_ Hi]]; [by destruct Hy|by apply Hsame].
    + destruct (Hev _ _ Hi) as (u' & Hu' & He). pose proof (Hsame _ _ Hu'). simplify_eq.
      rewrite list_lookup_insert_ne; [done|]. congruence.
Qed.

(** Stream slots are never reclaimed.  No call ever brings a stream to a
    terminal state, so [gc] frees nothing, and once [N] streams have existed the
    connection refuses every further stream for good. *)
Theorem stream_slots_never_reclaimed `{Config} is_client m1 m2 x max :
  calls is_client StreamMap_new m1 → calls is_client m1 m2 → full m1 →
  gc m2 = m2 ∧ active_count m2 = N ∧
  (uint 62 (next_bidi_local m2) → open_bidi is_client m2 = (Err StreamLimitExhausted, m2)) ∧
  (get m2 x = None → (if is_client then is_server_initiated x else is_client_initiated x) = true →
   get_or_create x is_client max m2 = (Err StreamLimitExhausted, m2)).
Proof.
  intros Hc1 Hc2 Hfull. eapply sm_calls_wf in Hc1 as [Hwf1 _]; [|apply sm_wf_new].
  pose proof (full_calls _ _ _ Hwf1 Hfull Hc2) as Hfull2.
  destruct (sm_calls_wf _ _ _ Hwf1 Hc2) as [Hwf2 _]. pose proof (find_free_slot_full _ Hfull2) as Hff.
  split; [by eapply gc_id|]. split; [|split].
  - destruct Hfull2 as [<- Hall]. unfold active_count. f_equal. rewrite filter_all; [done|].
    rewrite Forall_lookup in Hall |- *. intros i [u|] Hu; [|by apply Hall in Hu].
    by rewrite (not_terminal _ _ _ _ Hwf2 Hu).
  - intros [Hn Hn']. unfold open_bidi, mbind, M_bind, Prelude.get, lift. simpl.
    unfold stream_id, umul, uadd. rewrite decide_True by lia. simpl.
    rewrite decide_True by (destruct is_client; simpl; lia). by rewrite Hff.
  - intros Hg%get_None Hpeer. unfold get_or_create. rewrite Hpeer. simpl.
    unfold mbind, M_bind, Prelude.get, lift. by rewrite Hg, Hff.
Qed.

Definition config1 : Config := {| N := 1; alloc := false |}.

(** A FIN below data already received is accepted and makes the stream complete
    at the smaller size, where RFC 9000, section 4.5, requires FINAL_SIZE_ERROR;
    RESET_STREAM likewise. *)
Example fin_below_received_accepted :
  let rv := (recv_data 0 100 false (RecvState_new 65536)).2 in
  (recv_data 0 40 true rv).1 = Ok 0 ∧
  r_fin_offset (recv_data 0 40 true rv).2 = Some 40 ∧ r_offset (recv_data 0 40 true rv).2 = 100 ∧
  (recv_reset 40 rv).1 = Ok tt.
Proof. vm_compute. auto. Qed.

End Stream.
