(* ===== verification/Recovery.v ===== *)
(** * Sent packets awaiting acknowledgement: [src/transport/recovery.rs] *)
From stdpp Require Import sets.
From S2P Require Import Prelude Errors.

(** [src/crypto/mod.rs]: the packet number spaces. *)
Module Level.
Inductive t := Initial | Handshake | Application.
#[global] Instance eq_dec : EqDecision t.
Proof. solve_decision. Defined.
Definition eqb (a b : t) : bool := bool_decide (a = b).
End Level.

Module Recovery.

Record SentPacket := {
  pn : Z; level : Level.t; time_sent : Z; size : Z; ack_eliciting : bool; in_flight : bool
}.

Record AckResult := {
  newly_acked : list SentPacket;   (* heapless::Vec<_, 32> *)
  largest_newly_acked : option SentPacket
}.

(** The tracker is its vector of entries; its capacity [N] is a parameter. *)
Definition SentPacketTracker : Type := list SentPacket.

Definition new : SentPacketTracker := [].

Definition on_packet_sent (N : nat) (pkt : SentPacket) : M Error SentPacketTracker unit := λ entries,
  if (N <=? length entries)%nat then (Err (BufferTooSmall (Z.of_nat N + 1)), entries)
  else (Ok tt, entries ++ [pkt]).

(** The ranges an ACK frame covers, collected in a vector of capacity 32. *)
Fixpoint collect_ranges (smallest : Z) (ranges acked_ranges : list (Z * Z)) : result (list (Z * Z)) :=
  match ranges with
  | [] => Ok acked_ranges
  | (gap, ack_range) :: ranges' =>
      g ← uadd 64 gap 2;
      if smallest <? g then Ok acked_ranges else
      range_largest ← usub smallest gap;
      range_largest ← usub range_largest 2;
      let range_smallest := sat_sub range_largest ack_range in
      collect_ranges range_smallest ranges'
        (push_capped 32 acked_ranges (range_smallest, range_largest))
  end.

Definition acked_ranges (largest_ack first_ack_range : Z) (ranges : list (Z * Z)) : result (list (Z * Z)) :=
  let first_lo := sat_sub largest_ack first_ack_range in
  collect_ranges first_lo ranges (push_capped 32 [] (first_lo, largest_ack)).

Definition covered (acked : list (Z * Z)) (n : Z) : bool :=
  existsb (λ r, (r.1 <=? n) && (n <=? r.2)) acked.

(** The bookkeeping for one acknowledged packet. *)
Definition record_ack (r : AckResult) (pkt : SentPacket) : AckResult := {|
  newly_acked := push_capped 32 (newly_acked r) pkt;
  largest_newly_acked :=
    match largest_newly_acked r with
    | None => Some pkt
    | Some prev => if pn prev <? pn pkt then Some pkt else Some prev
    end |}.

(** The [while i < self.entries.len()] loop; each iteration shortens
    [entries.len() - i] by one, so [fuel = entries.len()] runs it to its end. *)
Fixpoint ack_loop (fuel : nat) (is_acked : SentPacket → bool) (i : nat)
    (entries : list SentPacket) (r : AckResult) : AckResult * list SentPacket :=
  match fuel with
  | O => (r, entries)
  | S fuel =>
      match entries !! i with
      | None => (r, entries)
      | Some pkt =>
          if is_acked pkt then ack_loop fuel is_acked i (swap_remove i entries) (record_ack r pkt)
          else ack_loop fuel is_acked (S i) entries r
      end
  end.

Definition on_ack_received (lvl : Level.t) (largest_ack first_ack_range : Z) (ranges : list (Z * Z))
    : M Error SentPacketTracker AckResult := λ entries,
  match acked_ranges largest_ack first_ack_range ranges with
  | Ok acked =>
      let '(r, entries') := ack_loop (length entries)
        (λ pkt, Level.eqb (level pkt) lvl && covered acked (pn pkt)) 0 entries
        {| newly_acked := []; largest_newly_acked := None |} in
      (Ok r, entries')
  | Err e => (Err e, entries)
  | Panic => (Panic, entries)
  end.

Definition sent_before (entries : SentPacketTracker) (lvl : Level.t) (before : Z) : list SentPacket :=
  List.filter (λ p, Level.eqb (level p) lvl && (time_sent p <? before)) entries.

Definition sent_below_pn (entries : SentPacketTracker) (lvl : Level.t) (pn_threshold : Z)
    : list SentPacket :=
  List.filter (λ p, Level.eqb (level p) lvl && (pn p <? pn_threshold)) entries.

Definition remove (lvl : Level.t) (n : Z) (entries : SentPacketTracker)
    : option SentPacket * SentPacketTracker :=
  match position (λ p, Level.eqb (level p) lvl && (pn p =? n)) entries with
  | Some pos => (entries !! pos, swap_remove pos entries)
  | None => (None, entries)
  end.

(** The loop of [drop_space], as [ack_loop] without the result. *)
Fixpoint drop_loop (fuel : nat) (lvl : Level.t) (i : nat) (entries : list SentPacket)
    : list SentPacket :=
  match fuel with
  | O => entries
  | S fuel =>
      match entries !! i with
      | None => entries
      | Some pkt =>
          if Level.eqb (level pkt) lvl then drop_loop fuel lvl i (swap_remove i entries)
          else drop_loop fuel lvl (S i) entries
      end
  end.
Definition drop_space (lvl : Level.t) (entries : SentPacketTracker) : SentPacketTracker :=
  drop_loop (length entries) lvl 0 entries.

Definition count (entries : SentPacketTracker) : nat := length entries.

Definition has_ack_eliciting_in_flight (entries : SentPacketTracker) (lvl : Level.t) : bool :=
  existsb (λ p, Level.eqb (level p) lvl && ack_eliciting p && in_flight p) entries.

(** ** The sweep loops *)

Definition keep (f : SentPacket → bool) (l : list SentPacket) : list SentPacket :=
  List.filter (λ p, negb (f p)) l.

Lemma filter_Permutation {A} (f : A → bool) l l' : l ≡ₚ l' → List.filter f l ≡ₚ List.filter f l'.
Proof. induction 1; simpl; repeat case_match; eauto using Permutation. Qed.
#[global] Instance filter_proper {A} (f : A → bool) :
  Proper ((≡ₚ) ==> (≡ₚ)) (List.filter f).
Proof. intros l l' ?. by apply filter_Permutation. Qed.

Lemma keep_all f l : Forall (λ p, f p = false) l → keep f l = l.
Proof. intros Hf. apply filter_all. eapply Forall_impl; [done|]. by intros p ->. Qed.
Lemma filter_none {A} (f : A → bool) l : Forall (λ p, f p = false) l → List.filter f l = [].
Proof. induction 1 as [|p l Hp _ IH]; simpl; [done|]. by rewrite Hp. Qed.

(** The loop visits every entry once: what it removes, in some order, is what
    the test selects, and what it leaves is the rest. *)
Lemma ack_loop_spec f fuel i l r :
  (length l - i ≤ fuel)%nat → (i ≤ length l)%nat → Forall (λ p, f p = false) (take i l) →
  ∃ acked, acked ≡ₚ List.filter f l ∧ (ack_loop fuel f i l r).1 = foldl record_ack r acked ∧
    (ack_loop fuel f i l r).2 ≡ₚ keep f l.
Proof.
  revert i l r. induction fuel as [|fuel IH]; intros i l r Hf Hi Hpre; simpl.
  - rewrite take_ge in Hpre by lia. exists []. rewrite filter_none, keep_all by done. done.
  - destruct (l !! i) as [p|] eqn:Hp.
    2:{ apply lookup_ge_None in Hp. rewrite take_ge in Hpre by lia. exists [].
        rewrite filter_none, keep_all by done. done. }
    pose proof (lookup_lt_Some _ _ _ Hp). destruct (f p) eqn:Hfp.
    + pose proof (swap_remove_perm _ _ _ Hp) as Hperm.
      pose proof (length_swap_remove i l) as Hlen.
      destruct (IH i (swap_remove i l) (record_ack r p)) as (acked & Ha & H1 & H2); [lia|lia| |].
      { assert (take i (swap_remove i l) = take i l) as ->; [|done]. apply list_eq. intros j.
        destruct (decide (j < i)%nat); [|by rewrite !lookup_take_ge by lia].
        by rewrite !lookup_take_lt, swap_remove_lookup by lia. }
      exists (p :: acked). split_and!.
      * rewrite (filter_Permutation f _ _ Hperm). simpl. by rewrite Hfp, Ha.
      * by rewrite H1.
      * rewrite H2. unfold keep. rewrite (filter_Permutation _ _ _ Hperm). simpl. by rewrite Hfp.
    + apply IH; [lia|lia|]. rewrite (take_S_r _ _ p) by done. by apply Forall_app_2; [|repeat constructor].
Qed.

Lemma drop_loop_ack_loop lvl fuel i l r :
  drop_loop fuel lvl i l = (ack_loop fuel (λ p, Level.eqb (level p) lvl) i l r).2.
Proof.
  revert i l r. induction fuel as [|fuel IH]; intros i l r; simpl; [done|].
  destruct (l !! i); [|done]. case_match; apply IH.
Qed.

(** ** What an ACK frame acknowledges *)

(** RFC 9000, section 19.3.1: a range of [first + 1] packets ending at
    [largest]; each further range ends [gap + 2] below the previous one's start. *)
Inductive acks : Z → Z → list (Z * Z) → Z → Prop :=
| acks_first largest first ranges n : largest - first ≤ n ≤ largest → acks largest first ranges n
| acks_more largest first gap range ranges n :
    acks (largest - first - gap - 2) range ranges n → acks largest first ((gap, range) :: ranges) n.

(** No computed packet number is negative. *)
Fixpoint ranges_valid (largest first : Z) (ranges : list (Z * Z)) : Prop :=
  0 ≤ first ≤ largest ∧
  match ranges with
  | [] => True
  | (gap, range) :: ranges' => 0 ≤ gap ∧ ranges_valid (largest - first - gap - 2) range ranges'
  end.

Lemma covered_app a b n : covered (a ++ b) n = covered a n || covered b n.
Proof. apply existsb_app. Qed.

Lemma covered_single lo hi n : covered [(lo, hi)] n = true ↔ lo ≤ n ≤ hi.
Proof. unfold covered. simpl. rewrite orb_false_r, andb_true_iff, !Z.leb_le. done. Qed.

Lemma collect_ranges_spec ranges largest first acc :
  largest < 2 ^ 63 → ranges_valid largest first ranges → (length acc + length ranges ≤ 32)%nat →
  ∃ more, collect_ranges (largest - first) ranges acc = Ok (acc ++ more) ∧
    ∀ n, (largest - first ≤ n ≤ largest ∨ covered more n = true) ↔ acks largest first ranges n.
Proof.
  revert largest first acc. induction ranges as [|[gap range] ranges IH]; intros largest first acc Hl Hv Hc.
  - exists []. rewrite app_nil_r. split; [done|]. intros n. split; [intros [?|?]; [by constructor|done]|].
    inversion 1. by left.
  - destruct Hv as (Hf & Hg & Hv). cbn [collect_ranges].
    assert (0 ≤ range ≤ largest - first - gap - 2) as Hr by (destruct ranges as [|[]]; apply Hv).
    rewrite uadd_ok by lia. unfold mbind, res_bind. rewrite (proj2 (Z.ltb_ge _ _)) by lia.
    rewrite !usub_ok by lia.
    unfold push_capped. simpl in Hc. rewrite (proj2 (Nat.ltb_lt _ _)) by lia.
    assert (sat_sub (largest - first - gap - 2) range = largest - first - gap - 2 - range) as ->
      by (unfold sat_sub; lia).
    destruct (IH (largest - first - gap - 2) range
      (acc ++ [(largest - first - gap - 2 - range, largest - first - gap - 2)])) as (more & -> & Hcov);
      [lia|done|len_lia|].
    exists ((largest - first - gap - 2 - range, largest - first - gap - 2) :: more).
    rewrite <- app_assoc. split; [done|]. intros n.
    change (covered (?x :: more) n) with (covered ([x] ++ more) n).
    rewrite covered_app, orb_true_iff, covered_single, Hcov. split.
    + intros [?|?]; [by constructor|by apply acks_more].
    + inversion 1; auto.
Qed.

(** ** The accumulated result *)

Lemma newly_acked_fold r l :
  newly_acked (foldl record_ack r l) = foldl (push_capped 32) (newly_acked r) l.
Proof. revert r. induction l as [|p l IH]; intros r; simpl; [done|]. by rewrite IH. Qed.

Definition is_largest (l : list SentPacket) (o : option SentPacket) : Prop :=
  match o with
  | None => l = []
  | Some p => p ∈ l ∧ ∀ q, q ∈ l → pn q ≤ pn p
  end.

Lemma largest_fold l : is_largest l (largest_newly_acked
  (foldl record_ack {| newly_acked := []; largest_newly_acked := None |} l)).
Proof.
  induction l as [|p l IH] using rev_ind; [done|]. rewrite foldl_app. simpl.
  destruct (largest_newly_acked _) as [q|]; simpl in *.
  - destruct IH as [Hq Hmax]. destruct (Z.ltb_spec (pn q) (pn p)); simpl; split.
    + set_solver.
    + intros q'. rewrite elem_of_app, list_elem_of_singleton. intros [Hq'| ->]; [|lia].
      specialize (Hmax _ Hq'). lia.
    + set_solver.
    + intros q'. rewrite elem_of_app, list_elem_of_singleton. intros [Hq'| ->]; [auto|lia].
  - subst l. simpl. split; [set_solver|]. intros q' Hq. assert (q' = p) as -> by set_solver. done.
Qed.

Lemma is_largest_perm l l' o : l ≡ₚ l' → is_largest l o → is_largest l' o.
Proof.
  intros Hp. destruct o as [p|]; simpl.
  - intros [Hin Hmax]. split; [by rewrite <- Hp|]. intros q Hq. apply Hmax. by rewrite Hp.
  - intros ->. by apply Permutation_nil in Hp.
Qed.

Lemma on_ack_received_spec lvl largest first ranges entries :
  ranges_valid largest first ranges → largest < 2 ^ 62 → (length ranges ≤ 31)%nat →
  ∃ r entries' is_acked acked,
    on_ack_received lvl largest first ranges entries = (Ok r, entries') ∧
    (∀ p, is_acked p = true ↔ level p = lvl ∧ acks largest first ranges (pn p)) ∧
    acked ≡ₚ List.filter is_acked entries ∧ entries' ≡ₚ keep is_acked entries ∧
    newly_acked r = take 32 acked ∧
    is_largest (List.filter is_acked entries) (largest_newly_acked r).
Proof.
  intros Hv Hl Hn. unfold on_ack_received, acked_ranges.
  assert (0 ≤ first ≤ largest) as Hf by (destruct ranges as [|[]]; apply Hv).
  assert (sat_sub largest first = largest - first) as -> by (unfold sat_sub; lia).
  change (push_capped 32 [] (largest - first, largest)) with [(largest - first, largest)].
  destruct (collect_ranges_spec ranges largest first [(largest - first, largest)])
    as (more & -> & Hcov); [lia|done|simpl; lia|]. simpl app.
  set (f := λ pkt : SentPacket, Level.eqb _ _ && _). destruct (ack_loop_spec f (length entries) 0 entries
    {| newly_acked := []; largest_newly_acked := None |}) as (acked & Hp & H1 & H2); [lia|lia|constructor|].
  destruct (ack_loop _ _ _ _ _) as [r entries']. simpl in H1, H2.
  exists r, entries', f, acked. split_and!; try done.
  - intros p. unfold f. change (covered (?x :: more) _) with (covered ([x] ++ more) (pn p)).
    rewrite andb_true_iff, covered_app, orb_true_iff, covered_single, Hcov.
    unfold Level.eqb. by rewrite bool_decide_eq_true.
  - rewrite H1, newly_acked_fold. by rewrite foldl_push_capped by (simpl; lia).
  - eapply is_largest_perm; [done|]. rewrite H1. apply largest_fold.
Qed.

(** ** Properties *)

(** Processing an ACK.  For a well-formed ACK frame with at most 31 additional
    ranges, exactly the tracked packets of that space whose numbers the frame
    acknowledges leave the tracker, the others stay; the result names the
    largest of them, and lists them all when there are at most 32 (the first 32
    the loop met otherwise). *)
Theorem on_ack_received_exact lvl largest first ranges entries :
  ranges_valid largest first ranges → largest < 2 ^ 62 → (length ranges ≤ 31)%nat →
  ∃ r entries' is_acked acked,
    on_ack_received lvl largest first ranges entries = (Ok r, entries') ∧
    (∀ p, is_acked p = true ↔ level p = lvl ∧ acks largest first ranges (pn p)) ∧
    acked ≡ₚ List.filter is_acked entries ∧ entries' ≡ₚ keep is_acked entries ∧
    newly_acked r = take 32 acked ∧
    is_largest (List.filter is_acked entries) (largest_newly_acked r).
Proof. apply on_ack_received_spec. Qed.

Definition pkt_example (n : Z) : SentPacket :=
  {| pn := n; level := Level.Application; time_sent := 1; size := 100; ack_eliciting := true; in_flight := true |}.

(** Dropping a packet number space removes exactly its packets. *)
Lemma drop_space_exact lvl entries :
  drop_space lvl entries ≡ₚ keep (λ p, Level.eqb (level p) lvl) entries.
Proof.
  unfold drop_space. rewrite (drop_loop_ack_loop _ _ _ _ {| newly_acked := []; largest_newly_acked := None |}).
  by destruct (ack_loop_spec (λ p, Level.eqb (level p) lvl) (length entries) 0 entries
    {| newly_acked := []; largest_newly_acked := None |}) as (? & _ & _ & ->); [lia|lia|constructor|].
Qed.

(** Removing one packet. *)
Lemma remove_spec lvl n entries :
  match remove lvl n entries with
  | (Some p, entries') => level p = lvl ∧ pn p = n ∧ entries ≡ₚ p :: entries'
  | (None, entries') => entries' = entries ∧ ∀ p, p ∈ entries → ¬ (level p = lvl ∧ pn p = n)
  end.
Proof.
  unfold remove, Level.eqb. destruct (position _ _) as [i|] eqn:Hi.
  - apply position_Some in Hi as [(p & Hp & Ht) _]. unfold SentPacketTracker in *. rewrite Hp.
    apply andb_true_iff in Ht as [?%bool_decide_eq_true ?%Z.eqb_eq].
    split_and!; [done..|by apply swap_remove_perm].
  - apply position_None in Hi. rewrite Forall_forall in Hi. split; [done|].
    intros p Hp [Hl Hn]. apply Hi in Hp. by rewrite bool_decide_true, Hn, Z.eqb_refl in Hp.
Qed.

End Recovery.
