(* ===== verification/Congestion.v ===== *)
(** * NewReno congestion control: [src/transport/congestion.rs] *)
From S2P Require Import Prelude Errors.

Module Congestion.

Record CongestionController := {
  cwnd : Z; ssthresh : Z; bytes_in_flight : Z; recovery_start_time : option Z;
  persistent_congestion_threshold : Z; max_datagram_size : Z; minimum_window : Z
}.
#[global] Instance eta_CongestionController : Eta CongestionController := λ s, {|
  cwnd := cwnd s; ssthresh := ssthresh s; bytes_in_flight := bytes_in_flight s;
  recovery_start_time := recovery_start_time s;
  persistent_congestion_threshold := persistent_congestion_threshold s;
  max_datagram_size := max_datagram_size s; minimum_window := minimum_window s |}.

Definition new (max_datagram_size : Z) : res Error CongestionController :=
  minimum_window ← umul 64 2 max_datagram_size;
  w ← umul 64 10 max_datagram_size;
  let initial_window := Z.max w 14720 in
  Ok {| cwnd := initial_window; ssthresh := u64_max; bytes_in_flight := 0;
        recovery_start_time := None; persistent_congestion_threshold := 0;
        max_datagram_size := max_datagram_size; minimum_window := minimum_window |}.

Definition can_send (bytes : Z) (self : CongestionController) : res Error bool :=
  n ← uadd 64 (bytes_in_flight self) bytes; Ok (n <=? cwnd self).

Definition available_window (self : CongestionController) : Z :=
  sat_sub (cwnd self) (bytes_in_flight self).

Definition on_packet_sent (bytes : Z) : M Error CongestionController unit :=
  self ← get;
  n ← lift (uadd 64 (bytes_in_flight self) bytes);
  modify (λ self, self <| bytes_in_flight := n |>).

Definition in_slow_start (self : CongestionController) : bool := cwnd self <? ssthresh self.

Definition in_recovery (sent_time : Z) (self : CongestionController) : bool :=
  match recovery_start_time self with Some start => sent_time <=? start | None => false end.

Definition remove_from_flight (bytes : Z) (self : CongestionController) : CongestionController :=
  self <| bytes_in_flight := sat_sub (bytes_in_flight self) bytes |>.

(** [a / b] panics on a zero divisor. *)
Definition udiv (a b : Z) : res Error Z := if decide (b = 0) then Panic else Ok (a / b).

Definition on_packet_acked (bytes sent_time now : Z) : M Error CongestionController unit :=
  _ ← modify (remove_from_flight bytes);
  self ← get;
  if match recovery_start_time self with Some recovery_start => sent_time <=? recovery_start | None => false end
  then mret tt
  else if in_slow_start self then
    c ← lift (uadd 64 (cwnd self) bytes);
    modify (λ self, self <| cwnd := c |>)
  else
    p ← lift (umul 64 (max_datagram_size self) bytes);
    d ← lift (udiv p (cwnd self));
    c ← lift (uadd 64 (cwnd self) d);
    modify (λ self, self <| cwnd := c |>).

Definition on_packet_lost (bytes sent_time now : Z) (self : CongestionController)
    : CongestionController :=
  let self := remove_from_flight bytes self in
  if in_recovery sent_time self then self else
  let self := self <| recovery_start_time := Some now |> in
  let self := self <| ssthresh := Z.max (cwnd self / 2) (minimum_window self) |> in
  self <| cwnd := ssthresh self |>.

Definition on_persistent_congestion (self : CongestionController) : CongestionController :=
  self <| cwnd := minimum_window self |> <| recovery_start_time := None |>.

Definition set_persistent_congestion_threshold (threshold : Z) (self : CongestionController)
    : CongestionController := self <| persistent_congestion_threshold := threshold |>.

(** ** Invariant *)

Record wf (s : CongestionController) : Prop := {
  wf_mds : 0 < max_datagram_size s < 2 ^ 16;
  wf_min : minimum_window s = 2 * max_datagram_size s;
  wf_cwnd : minimum_window s ≤ cwnd s < 2 ^ 64;
  wf_ssthresh : minimum_window s ≤ ssthresh s < 2 ^ 64;
  wf_flight : 0 ≤ bytes_in_flight s < 2 ^ 64
}.

Inductive op :=
| PacketSent (bytes : Z) | PacketAcked (bytes sent_time now : Z) | PacketLost (bytes sent_time now : Z)
| PersistentCongestion | SetThreshold (threshold : Z).

Definition exec (o : op) : M Error CongestionController unit :=
  match o with
  | PacketSent n => on_packet_sent n
  | PacketAcked n t now => on_packet_acked n t now
  | PacketLost n t now => modify (on_packet_lost n t now)
  | PersistentCongestion => modify on_persistent_congestion
  | SetThreshold t => modify (set_persistent_congestion_threshold t)
  end.
(** Packet sizes are [u16] values widened to [u64]. *)
Definition op_ok (o : op) : Prop :=
  match o with PacketSent n | PacketAcked n _ _ | PacketLost n _ _ => uint 16 n | _ => True end.

Lemma new_wf mds s : 0 < mds < 2 ^ 16 → new mds = Ok s → wf s.
Proof.
  intros Hm. unfold new. rewrite !umul_ok by lia. intros [= <-]. split; simpl; unfold u64_max; lia.
Qed.

Lemma cc_exec_wf o s r s' : wf s → op_ok o → exec o s = (r, s') → wf s'.
Proof.
  intros [] Ho. destruct o; simpl in *; unfold uint in *.
  - unfold on_packet_sent. intros. run_method; split; simpl; lia.
  - unfold on_packet_acked, remove_from_flight, udiv, umul, sat_sub. intros. run_method; split; simpl in *; try lia.
    all: match goal with |- context [?a / ?b] => assert (0 ≤ a / b) by (apply Z.div_pos; lia); lia end.
  - unfold on_packet_lost, remove_from_flight, in_recovery, sat_sub. intros. run_method; split; simpl in *; try lia.
    all: assert (cwnd s / 2 < 2 ^ 64) by div_lia; lia.
  - unfold on_persistent_congestion. intros. run_method; split; simpl in *; lia.
  - unfold set_persistent_congestion_threshold. intros. run_method; split; simpl in *; lia.
Qed.

(** Within realistic bounds no call panics: in particular the divisor of
    congestion avoidance is positive. *)
Lemma exec_no_panic o s :
  wf s → op_ok o → cwnd s < 2 ^ 63 → bytes_in_flight s < 2 ^ 63 → ∃ s', exec o s = (Ok tt, s').
Proof.
  intros [] Ho Hc Hb. destruct o as [n|n t now|n t now| |]; simpl in *; unfold uint in *; [| |eexists; done..].
  - unfold on_packet_sent. run_method; (eauto || lia).
  - assert (max_datagram_size s * n < 2 ^ 32) by nia.
    assert (0 ≤ max_datagram_size s * n / cwnd s < 2 ^ 32).
    { split; [apply Z.div_pos; nia|]. apply Z.div_lt_upper_bound; nia. }
    unfold on_packet_acked, remove_from_flight, udiv, umul, sat_sub. run_method; eauto; lia.
Qed.

Inductive calls (s : CongestionController) : CongestionController → Prop :=
| calls_nil : calls s s
| calls_snoc s1 o s2 r : calls s s1 → op_ok o → exec o s1 = (r, s2) → r ≠ Panic → calls s s2.

Lemma cc_calls_wf s s' : wf s → calls s s' → wf s'.
Proof. intros Hwf. induction 1; eauto using cc_exec_wf. Qed.

(** ** Properties *)

(** The congestion window never falls below two datagrams.  From the initial
    state, after any sequence of sends, acknowledgements, losses and persistent
    congestion, [cwnd] and [ssthresh] are at least the minimum window, and the
    next call (with windows below 2^63) succeeds: the division of congestion
    avoidance never sees a zero window. *)
Theorem congestion_window_floor mds s0 s o :
  0 < mds < 2 ^ 16 → new mds = Ok s0 → calls s0 s → op_ok o →
  cwnd s < 2 ^ 63 → bytes_in_flight s < 2 ^ 63 →
  wf s ∧ ∃ s', exec o s = (Ok tt, s') ∧ wf s'.
Proof.
  intros Hm Hn Hc Ho Hw Hb. apply cc_calls_wf in Hc; [|by eapply new_wf]. split; [done|].
  destruct (exec_no_panic o s) as [s' Hx]; eauto using cc_exec_wf.
Qed.

Lemma on_packet_lost_enters s n t now :
  in_recovery t s = false →
  on_packet_lost n t now s =
  let w := Z.max (cwnd s / 2) (minimum_window s) in
  (remove_from_flight n s) <| recovery_start_time := Some now |> <| ssthresh := w |> <| cwnd := w |>.
Proof.
  intros Hr. unfold on_packet_lost.
  change (in_recovery t (remove_from_flight n s)) with (in_recovery t s). by rewrite Hr.
Qed.

(** One reduction per round trip.  The first loss of a packet sent after the
    last recovery started halves the window (not below the minimum) and enters
    recovery; until persistent congestion is declared, losses of packets sent
    before that moment leave the window alone, and acknowledgements of such
    packets do not grow it. *)
Theorem one_reduction_per_recovery s n t now n' t' now' :
  in_recovery t s = false → t' ≤ now →
  let s1 := on_packet_lost n t now s in
  cwnd s1 = Z.max (cwnd s / 2) (minimum_window s) ∧ ssthresh s1 = cwnd s1 ∧
  recovery_start_time s1 = Some now ∧
  cwnd (on_packet_lost n' t' now' s1) = cwnd s1 ∧
  ∃ s2, on_packet_acked n' t' now' s1 = (Ok tt, s2) ∧ cwnd s2 = cwnd s1 ∧
    bytes_in_flight s2 = sat_sub (bytes_in_flight s1) n'.
Proof.
  intros Hr Ht. rewrite (on_packet_lost_enters s n t now Hr). cbv zeta. split_and!; [done..| |].
  - unfold on_packet_lost, in_recovery. simpl. by rewrite (proj2 (Z.leb_le _ _)).
  - unfold on_packet_acked, mbind, M_bind, modify, get. simpl.
    rewrite (proj2 (Z.leb_le _ _)) by done. by eexists.
Qed.

End Congestion.
