(* ===== verification/Loss.v ===== *)
(** * RTT estimation, loss detection and probe timeouts: [src/transport/loss.rs] *)
From S2P Require Import Prelude Errors Recovery.

Module Loss.

Definition TIME_THRESHOLD_NUM : Z := 9.
Definition TIME_THRESHOLD_DEN : Z := 8.
Definition PACKET_THRESHOLD : Z := 3.
Definition GRANULARITY : Z := 1000.
Definition DEFAULT_INITIAL_RTT : Z := 333000.

(** [[Option<u64>; 3]] indexed by [space_index(level)]. *)
Record spaces := { sp_initial : option Z; sp_handshake : option Z; sp_application : option Z }.
Definition no_spaces : spaces := {| sp_initial := None; sp_handshake := None; sp_application := None |}.
Definition at_space (s : spaces) (lvl : Level.t) : option Z :=
  match lvl with
  | Level.Initial => sp_initial s | Level.Handshake => sp_handshake s
  | Level.Application => sp_application s
  end.
Definition set_space (s : spaces) (lvl : Level.t) (v : option Z) : spaces :=
  match lvl with
  | Level.Initial => {| sp_initial := v; sp_handshake := sp_handshake s; sp_application := sp_application s |}
  | Level.Handshake => {| sp_initial := sp_initial s; sp_handshake := v; sp_application := sp_application s |}
  | Level.Application => {| sp_initial := sp_initial s; sp_handshake := sp_handshake s; sp_application := v |}
  end.
(** [.iter()] over the array. *)
Definition all_spaces (s : spaces) : list (option Z) := [sp_initial s; sp_handshake s; sp_application s].

Record LossDetector := {
  largest_acked : spaces; smoothed_rtt_est : option Z; rttvar : Z; min_rtt : Z; latest_rtt : Z;
  pto_count : Z; time_of_last_ack_eliciting : spaces; max_ack_delay : Z; loss_time : spaces
}.
#[global] Instance eta_LossDetector : Eta LossDetector := λ s, {|
  largest_acked := largest_acked s; smoothed_rtt_est := smoothed_rtt_est s; rttvar := rttvar s;
  min_rtt := min_rtt s; latest_rtt := latest_rtt s; pto_count := pto_count s;
  time_of_last_ack_eliciting := time_of_last_ack_eliciting s; max_ack_delay := max_ack_delay s;
  loss_time := loss_time s |}.

Definition new (max_ack_delay_us : Z) : LossDetector := {|
  largest_acked := no_spaces; smoothed_rtt_est := None; rttvar := 0; min_rtt := u64_max; latest_rtt := 0;
  pto_count := 0; time_of_last_ack_eliciting := no_spaces; max_ack_delay := max_ack_delay_us;
  loss_time := no_spaces |}.

(** The accessor; the field of the same name is [smoothed_rtt_est] here. *)
Definition smoothed_rtt (self : LossDetector) : Z :=
  match smoothed_rtt_est self with Some v => v | None => DEFAULT_INITIAL_RTT end.

Definition update_rtt (latest ack_delay : Z) (handshake_confirmed : bool) : M Error LossDetector unit :=
  _ ← modify (λ self, self <| latest_rtt := latest |>);
  _ ← modify (λ self, if (min_rtt self =? u64_max) || (latest <? min_rtt self)
                      then self <| min_rtt := latest |> else self);
  self ← get;
  match smoothed_rtt_est self with
  | None => modify (λ self, self <| smoothed_rtt_est := Some latest |> <| rttvar := latest / 2 |>)
  | Some srtt =>
      adjusted_rtt ← (if handshake_confirmed then
          let capped_delay := Z.min ack_delay (max_ack_delay self) in
          m ← lift (uadd 64 (min_rtt self) capped_delay);
          if m <? latest then lift (usub latest capped_delay) else mret latest
        else mret latest);
      let rttvar_sample := Z.abs (srtt - adjusted_rtt) in
      v ← lift (umul 64 3 (rttvar self)); v ← lift (uadd 64 v rttvar_sample);
      s ← lift (umul 64 7 srtt); s ← lift (uadd 64 s adjusted_rtt);
      modify (λ self, self <| rttvar := v / 4 |> <| smoothed_rtt_est := Some (s / 8) |>)
  end.

Definition on_ack_received (lvl : Level.t) (largest : Z) (self : LossDetector) : LossDetector :=
  match at_space (largest_acked self) lvl with
  | None => self <| largest_acked := set_space (largest_acked self) lvl (Some largest) |>
  | Some prev =>
      if prev <? largest
      then self <| largest_acked := set_space (largest_acked self) lvl (Some largest) |> else self
  end.

(** The loop of [detect_lost_packets]: a 65th loss breaks out of it. *)
Fixpoint detect_loop (la loss_delay lost_send_time : Z) (pkts : list Recovery.SentPacket)
    (lost_pns : list Z) (loss_time : option Z) : result (list Z * option Z) :=
  match pkts with
  | [] => Ok (lost_pns, loss_time)
  | pkt :: pkts' =>
      if la <? Recovery.pn pkt then detect_loop la loss_delay lost_send_time pkts' lost_pns loss_time else
      t ← uadd 64 (Recovery.pn pkt) PACKET_THRESHOLD;
      if t <=? la then
        if (length lost_pns <? 64)%nat
        then detect_loop la loss_delay lost_send_time pkts' (lost_pns ++ [Recovery.pn pkt]) loss_time
        else Ok (lost_pns, loss_time)
      else if Recovery.time_sent pkt <=? lost_send_time then
        if (length lost_pns <? 64)%nat
        then detect_loop la loss_delay lost_send_time pkts' (lost_pns ++ [Recovery.pn pkt]) loss_time
        else Ok (lost_pns, loss_time)
      else
        deadline ← uadd 64 (Recovery.time_sent pkt) loss_delay;
        detect_loop la loss_delay lost_send_time pkts' lost_pns
          (Some (match loss_time with None => deadline | Some prev => Z.min prev deadline end))
  end.

Definition loss_delay_of (self : LossDetector) : result Z :=
  let rtt_base := Z.max (smoothed_rtt self) (latest_rtt self) in
  d ← umul 64 rtt_base TIME_THRESHOLD_NUM;
  Ok (Z.max (d / TIME_THRESHOLD_DEN) GRANULARITY).

Definition detect_lost_packets (lvl : Level.t) (tracker : Recovery.SentPacketTracker) (now : Z)
    : M Error LossDetector (list Z * option Z) :=
  self ← get;
  match at_space (largest_acked self) lvl with
  | None => mret ([], None)
  | Some la =>
      loss_delay ← lift (loss_delay_of self);
      let lost_send_time := sat_sub now loss_delay in
      la1 ← lift (uadd 64 la 1);
      r ← lift (detect_loop la loss_delay lost_send_time
                  (Recovery.sent_below_pn tracker lvl la1) [] None);
      _ ← modify (λ self, self <| loss_time := set_space (loss_time self) lvl r.2 |>);
      mret r
  end.

Definition pto_duration (self : LossDetector) : result Z :=
  let srtt := smoothed_rtt self in
  let rttvar := match smoothed_rtt_est self with Some _ => rttvar self | None => DEFAULT_INITIAL_RTT / 2 end in
  v ← umul 64 4 rttvar;
  a ← uadd 64 srtt (Z.max v GRANULARITY);
  uadd 64 a (max_ack_delay self).

(** The fold of the two loops over [time_of_last_ack_eliciting]; the first
    ([earliest], a minimum) is computed by the source and not used. *)
Definition fold_times (f : Z → Z → Z) (l : list (option Z)) : option Z :=
  foldl (λ acc t, match t with
                  | Some t => Some (match acc with None => t | Some prev => f prev t end)
                  | None => acc
                  end) None l.

Definition pto_timeout (tracker : Recovery.SentPacketTracker) (self : LossDetector) : result (option Z) :=
  d ← pto_duration self;
  pto ← umul 64 d (Z.shiftl 1 (Z.min (pto_count self) 62));
  let has_ae := existsb (Recovery.has_ack_eliciting_in_flight tracker)
                  [Level.Initial; Level.Handshake; Level.Application] in
  if negb has_ae then Ok None else
  match fold_times Z.max (all_spaces (time_of_last_ack_eliciting self)) with
  | Some t => r ← uadd 64 t pto; Ok (Some r)
  | None => Ok None
  end.

Definition on_pto : M Error LossDetector unit :=
  self ← get;
  n ← lift (uadd 32 (pto_count self) 1);
  modify (λ self, self <| pto_count := n |>).

Definition reset_pto_count (self : LossDetector) : LossDetector := self <| pto_count := 0 |>.

Definition next_timeout (tracker : Recovery.SentPacketTracker) (self : LossDetector) : result (option Z) :=
  let loss_timer := fold_times Z.min (all_spaces (loss_time self)) in
  pto ← pto_timeout tracker self;
  Ok (match loss_timer, pto with
      | Some l, Some p => Some (Z.min l p)
      | Some l, None => Some l
      | None, Some p => Some p
      | None, None => None
      end).

Definition on_ack_eliciting_sent (lvl : Level.t) (now : Z) (self : LossDetector) : LossDetector :=
  self <| time_of_last_ack_eliciting := set_space (time_of_last_ack_eliciting self) lvl (Some now) |>.

Definition drop_space (lvl : Level.t) (self : LossDetector) : LossDetector :=
  self <| largest_acked := set_space (largest_acked self) lvl None |>
       <| time_of_last_ack_eliciting := set_space (time_of_last_ack_eliciting self) lvl None |>
       <| loss_time := set_space (loss_time self) lvl None |>.

(** ** Loss detection *)

(** RFC 9002, section 6.1: three packets, or 9/8 of the round-trip time, behind
    the largest acknowledged packet. *)
Definition is_lost (la loss_delay now : Z) (p : Recovery.SentPacket) : bool :=
  (Recovery.pn p + PACKET_THRESHOLD <=? la) || (Recovery.time_sent p <=? sat_sub now loss_delay).

Definition min_opt (o : option Z) (d : Z) : option Z :=
  Some (match o with None => d | Some prev => Z.min prev d end).

Definition pkt_u64 (p : Recovery.SentPacket) : Prop :=
  0 ≤ Recovery.pn p < 2 ^ 62 ∧ 0 ≤ Recovery.time_sent p < 2 ^ 62.

Lemma detect_loop_spec la delay now pkts lost lt :
  0 ≤ delay < 2 ^ 62 → Forall pkt_u64 pkts → Forall (λ p, Recovery.pn p ≤ la) pkts →
  (length lost ≤ 64)%nat →
  ∃ lt', detect_loop la delay (sat_sub now delay) pkts lost lt =
      Ok (take 64 (lost ++ (Recovery.pn <$> List.filter (is_lost la delay now) pkts)), lt') ∧
    ((length lost + length (List.filter (is_lost la delay now) pkts) ≤ 64)%nat →
     lt' = foldl min_opt lt ((λ p, Recovery.time_sent p + delay) <$>
             Recovery.keep (is_lost la delay now) pkts)).
Proof.
  intros Hd. revert lost lt. induction pkts as [|p pkts IH]; intros lost lt Hu Hla Hl.
  - exists lt. simpl. rewrite app_nil_r, take_ge by done. done.
  - rewrite Forall_cons in Hu, Hla. destruct Hu as [[Hpn Ht] Hu], Hla as [Hp Hla]. cbn [detect_loop].
    rewrite (proj2 (Z.ltb_ge _ _)) by done. rewrite (uadd_ok _ (Recovery.pn p)) by (unfold PACKET_THRESHOLD; lia).
    unfold mbind, res_bind. cbv iota beta. unfold Recovery.keep. cbn [List.filter].
    assert (is_lost la delay now p = true → ∃ lt',
      (if (length lost <? 64)%nat then detect_loop la delay (sat_sub now delay) pkts (lost ++ [Recovery.pn p]) lt
       else Ok (lost, lt)) =
      Ok (take 64 (lost ++ (Recovery.pn <$> p :: List.filter (is_lost la delay now) pkts)), lt') ∧
      ((length lost + length (p :: List.filter (is_lost la delay now) pkts) ≤ 64)%nat →
       lt' = foldl min_opt lt ((λ p, Recovery.time_sent p + delay) <$>
               Recovery.keep (is_lost la delay now) pkts))) as Hlost.
    { intros Hlp. destruct (Nat.ltb_spec (length lost) 64).
      - destruct (IH (lost ++ [Recovery.pn p]) lt) as (lt' & -> & Hlt); [done|done|len_lia|].
        exists lt'. rewrite <- app_assoc. split; [done|]. intros. apply Hlt. len_lia.
      - exists lt. rewrite take_app_le, take_ge by lia. split; [done|]. simpl. lia. }
    destruct (is_lost la delay now p) eqn:E; unfold is_lost in E; cbn [negb].
    + destruct (Hlost eq_refl) as (lt' & Hr & Hlt). exists lt'. split; [|done]. rewrite <- Hr.
      apply orb_true_iff in E as [->|E]; [done|]. rewrite E. by destruct (_ <=? la).
    + apply orb_false_iff in E as [-> ->]. rewrite uadd_ok by lia.
      destruct (IH lost (min_opt lt (Recovery.time_sent p + delay)) Hu Hla Hl) as (lt' & Heq & Hlt).
      exists lt'. split; [exact Heq|exact Hlt].
Qed.

Lemma min_opt_fold lt l :
  match foldl min_opt lt l with
  | Some t => (lt = Some t ∨ t ∈ l) ∧ (∀ d, d ∈ l → t ≤ d) ∧ (∀ d, lt = Some d → t ≤ d)
  | None => lt = None ∧ l = []
  end.
Proof.
  revert lt. induction l as [|d l IH]; intros lt; simpl.
  - destruct lt; [|done]. split_and!; [by left|by intros ? ?%not_elem_of_nil|by intros ? [= ->]].
  - specialize (IH (min_opt lt d)). destruct (foldl _ _ _) as [t|]; [|by destruct IH].
    destruct IH as (Hin & Hmin & Hle). unfold min_opt in *.
    assert (t ≤ match lt with Some prev => Z.min prev d | None => d end) as Ht by by apply Hle.
    split_and!.
    + destruct Hin as [[= <-]|?]; [|right; by right]. destruct lt as [p|]; [|right; by left].
      destruct (Z.min_spec p d) as [[_ ->]|[_ ->]]; [by left|right; by left].
    + intros d' [->|?]%elem_of_cons; [|auto]. destruct lt; lia.
    + intros d' ->. lia.
Qed.

(** ** RTT estimates *)

(** The estimates while every sample is at most [hi]. *)
Record rtt_ok (hi : Z) (s : LossDetector) : Prop := {
  ro_srtt : match smoothed_rtt_est s with
            | None => min_rtt s = u64_max
            | Some v => 0 ≤ min_rtt s ≤ v ∧ v ≤ hi ∧ min_rtt s ≤ latest_rtt s
            end;
  ro_var : 0 ≤ rttvar s ≤ hi;
  ro_latest : 0 ≤ latest_rtt s ≤ hi;
  ro_delay : 0 ≤ max_ack_delay s < 2 ^ 60
}.

Lemma update_rtt_ok hi latest delay confirmed s :
  hi < 2 ^ 60 → 0 ≤ latest ≤ hi → 0 ≤ delay → rtt_ok hi s →
  ∃ s', update_rtt latest delay confirmed s = (Ok tt, s') ∧ rtt_ok hi s' ∧
    (∃ v, smoothed_rtt_est s' = Some v) ∧ pto_count s' = pto_count s ∧ loss_time s' = loss_time s ∧
    largest_acked s' = largest_acked s.
Proof.
  intros Hhi Hl Hd []. unfold update_rtt, mbind, M_bind, modify, get, lift. simpl.
  assert (∃ s1, (if (min_rtt s =? u64_max) || (latest <? min_rtt s)
     then s <| latest_rtt := latest |> <| min_rtt := latest |> else s <| latest_rtt := latest |>) = s1 ∧
     0 ≤ min_rtt s1 ≤ latest ∧ (∀ v, smoothed_rtt_est s = Some v → min_rtt s1 ≤ v) ∧
     smoothed_rtt_est s1 = smoothed_rtt_est s ∧ rttvar s1 = rttvar s ∧ latest_rtt s1 = latest ∧
     max_ack_delay s1 = max_ack_delay s ∧ pto_count s1 = pto_count s ∧ loss_time s1 = loss_time s ∧
     largest_acked s1 = largest_acked s)
    as (s1 & -> & Hmin & Hv & E1 & E2 & E3 & E4 & E5 & E6 & E7).
  { unfold u64_max in *. eexists. split; [done|]. destruct (smoothed_rtt_est s) as [w|] eqn:Es;
      case_match; simpl; split_and!; try done; try lia; intros v [= <-]; lia. }
  rewrite E1. destruct (smoothed_rtt_est s) as [srtt|].
  2:{ eexists. split; [done|]. simpl. split; [split|]; simpl; rewrite ?E3, ?E4; try lia; [div_lia|eauto 10]. }
  specialize (Hv _ eq_refl).
  match goal with |- context [match ?e s1 with _ => _ end] =>
    assert (∃ adj, e s1 = (Ok adj, s1) ∧ min_rtt s1 ≤ adj ≤ latest) as (adj & -> & Hadj) end.
  { destruct confirmed; [|exists latest; split; [done|lia]]. rewrite uadd_ok by lia.
    case_match; [|exists latest; split; [done|lia]]. rewrite usub_ok by lia.
    eexists. split; [done|]. lia. }
  rewrite E2. rewrite umul_ok by lia. cbv iota beta. rewrite uadd_ok by lia. cbv iota beta.
  rewrite umul_ok by lia. cbv iota beta. rewrite uadd_ok by lia. cbv iota beta.
  eexists. split; [done|]. simpl. split; [split|eauto 10]; simpl; rewrite ?E3, ?E4; try lia; div_lia.
Qed.

(** The probe timeout never falls below the timer granularity. *)
Lemma pto_duration_ge s d :
  (∀ v, smoothed_rtt_est s = Some v → 0 ≤ v) → 0 ≤ max_ack_delay s → pto_duration s = Ok d → GRANULARITY ≤ d.
Proof.
  intros Hv Hm. unfold pto_duration, mbind, res_bind, umul, uadd.
  assert (0 ≤ smoothed_rtt s).
  { unfold smoothed_rtt, DEFAULT_INITIAL_RTT. destruct (smoothed_rtt_est s); [auto|lia]. }
  intros. repeat (case_match; simplify_eq/=); lia.
Qed.

(** ** The timer *)

(** [Connection::handle_timeout], the probe part: when the loss detector's
    deadline has passed, back off; the result says whether it had. *)
Definition probe_timeout (tracker : Recovery.SentPacketTracker) (now : Z) : M Error LossDetector bool :=
  self ← get;
  deadline ← lift (next_timeout tracker self);
  match deadline with
  | Some deadline => if deadline <=? now then _ ← on_pto; mret true else mret false
  | None => mret false
  end.

(** The driver polls the timer [n] times. *)
Fixpoint poll_timer (n : nat) (tracker : Recovery.SentPacketTracker) (now : Z) : M Error LossDetector unit :=
  match n with
  | O => mret tt
  | S n => _ ← probe_timeout tracker now; poll_timer n tracker now
  end.

Lemma fold_times_min_le l acc t :
  Some t ∈ l → ∃ m, foldl (λ acc t, match t with
                  | Some t => Some (match acc with None => t | Some prev => Z.min prev t end)
                  | None => acc
                  end) acc l = Some m ∧ m ≤ t.
Proof.
  assert (∀ l a, ∃ m, foldl (λ acc t, match t with
                  | Some t => Some (match acc with None => t | Some prev => Z.min prev t end)
                  | None => acc
                  end) (Some a) l = Some m ∧ m ≤ a) as Hmono.
  { intros l0. induction l0 as [|[u|] l' IH]; intros a; simpl; [eauto with lia| |done].
    destruct (IH (Z.min a u)) as (m & -> & ?). exists m. split; [done|lia]. }
  revert acc. induction l as [|o l IH]; intros acc; [by intros ?%not_elem_of_nil|].
  intros [<-|Hin]%elem_of_cons; simpl; [|by apply IH].
  destruct (Hmono l (match acc with Some prev => Z.min prev t | None => t end)) as (m & -> & ?).
  exists m. split; [done|]. destruct acc; lia.
Qed.

Lemma next_timeout_due tracker s t o :
  Some t ∈ all_spaces (loss_time s) → next_timeout tracker s = Ok o → ∃ d, o = Some d ∧ d ≤ t.
Proof.
  intros Hin. unfold next_timeout, fold_times, mbind, res_bind.
  destruct (fold_times_min_le _ None t Hin) as (m & -> & Hm).
  destruct (pto_timeout tracker s) as [[p|]| |]; [|intros [= <-]; eauto|done..].
  intros [= <-]. eexists. split; [done|]. lia.
Qed.

(** Computing the timers has no error path. *)
Lemma next_timeout_no_err tracker s e : next_timeout tracker s ≠ Err e.
Proof.
  unfold next_timeout, pto_timeout, pto_duration, mbind, res_bind, umul, uadd.
  intros Hn. repeat (case_match; simplify_eq/=).
Qed.

(** A probe leaves an expired loss timer expired, and only the backoff moves. *)
Lemma probe_timeout_due tracker now s t r s' :
  Some t ∈ all_spaces (loss_time s) → t ≤ now → pto_count s < 2 ^ 31 →
  probe_timeout tracker now s = (r, s') →
  (r = Panic ∧ s' = s) ∨ (r = Ok true ∧ s' = s <| pto_count := pto_count s + 1 |>).
Proof.
  intros Hin Ht Hc. unfold probe_timeout, on_pto, mbind, M_bind, get, lift, mret, M_ret, modify.
  destruct (next_timeout tracker s) as [o| |] eqn:Hn; [|by apply next_timeout_no_err in Hn|intros [= <- <-]; eauto].
  destruct (next_timeout_due _ _ _ _ Hin Hn) as (d & -> & Hd).
  rewrite (proj2 (Z.leb_le _ _)) by lia. rewrite uadd_ok by lia. intros [= <- <-]. auto.
Qed.

Lemma pto_timeout_saturated tracker s :
  (∀ v, smoothed_rtt_est s = Some v → 0 ≤ v) → 0 ≤ max_ack_delay s → 55 ≤ pto_count s →
  (∃ d, pto_duration s = Ok d) → pto_timeout tracker s = Panic.
Proof.
  intros Hv Hm Hc [d Hd]. pose proof (pto_duration_ge s d Hv Hm Hd) as Hge. unfold GRANULARITY in Hge.
  unfold pto_timeout. rewrite Hd. unfold mbind, res_bind, umul.
  assert (2 ^ 55 ≤ Z.shiftl 1 (Z.min (pto_count s) 62)) as Hsh.
  { rewrite Z.shiftl_1_l. apply Z.pow_le_mono_r; lia. }
  by rewrite decide_False by nia.
Qed.

(** The hypotheses of the overflow: an expired loss timer and a computable PTO. *)
Definition overdue (now : Z) (s : LossDetector) : Prop :=
  (∃ t, Some t ∈ all_spaces (loss_time s) ∧ t ≤ now) ∧
  (∀ v, smoothed_rtt_est s = Some v → 0 ≤ v) ∧ 0 ≤ max_ack_delay s ∧ ∃ d, pto_duration s = Ok d.

Lemma poll_timer_overflow n tracker now s :
  overdue now s → 0 ≤ pto_count s < 2 ^ 30 → 55 - pto_count s < Z.of_nat n → (0 < n)%nat →
  ∃ s', poll_timer n tracker now s = (Panic, s').
Proof.
  revert s. induction n as [|n IH]; intros s Ho Hc Hn Hpos; [lia|].
  pose proof Ho as ((t & Hin & Ht) & Hv & Hm & Hd).
  cbn [poll_timer]. unfold mbind, M_bind. destruct (probe_timeout tracker now s) as [r1 s1] eqn:Hp.
  destruct (decide (55 ≤ pto_count s)) as [Hbig|Hsmall].
  - revert Hp. unfold probe_timeout, next_timeout, mbind, M_bind, get, lift, res_bind.
    rewrite pto_timeout_saturated by done. intros [= <- <-]. eauto.
  - apply (probe_timeout_due _ _ _ t) in Hp; [|done|done|lia].
    destruct Hp as [[-> _]|[-> ->]]; [eauto|]. apply IH; simpl; [exact Ho|lia..].
Qed.

Lemma detect_lost_spec lvl tracker now s la delay :
  at_space (largest_acked s) lvl = Some la → 0 ≤ la < 2 ^ 62 → loss_delay_of s = Ok delay →
  0 ≤ delay < 2 ^ 62 → Forall pkt_u64 tracker →
  let candidates := Recovery.sent_below_pn tracker lvl (la + 1) in
  let lost := List.filter (is_lost la delay now) candidates in
  ∃ lt, detect_lost_packets lvl tracker now s =
      (Ok (take 64 (Recovery.pn <$> lost), lt),
       s <| loss_time := set_space (loss_time s) lvl lt |>) ∧
    ((length lost ≤ 64)%nat →
     (∀ p, p ∈ Recovery.keep (is_lost la delay now) candidates →
       ∃ t, lt = Some t ∧ t ≤ Recovery.time_sent p + delay) ∧
     (∀ t, lt = Some t → now < t)).
Proof.
  intros Hla Hla0 Hd Hd0 Hu candidates lost.
  assert (Forall pkt_u64 candidates ∧ Forall (λ p, Recovery.pn p ≤ la) candidates) as [Hcu Hcla].
  { unfold candidates, Recovery.sent_below_pn. rewrite !Forall_forall in *.
    split; intros p [Hin Hp]%list_elem_of_In%filter_In; [by apply Hu, list_elem_of_In|].
    apply andb_true_iff in Hp as [_ ?%Z.ltb_lt]. lia. }
  destruct (detect_loop_spec la delay now candidates [] None Hd0 Hcu Hcla ltac:(simpl; lia)) as (lt & Hrun & Hlt).
  unfold detect_lost_packets, mbind, M_bind, get, lift. simpl. rewrite Hla, Hd, uadd_ok by lia.
  fold candidates. rewrite Hrun. exists lt. split; [done|]. intros Hlen. specialize (Hlt Hlen). subst lt.
  pose proof (min_opt_fold None ((λ p, Recovery.time_sent p + delay) <$>
    Recovery.keep (is_lost la delay now) candidates)) as Hmin.
  destruct (foldl _ _ _) as [t|].
  - destruct Hmin as ([?|Hin] & Hmin & _); [done|]. split.
    + intros p Hp. exists t. split; [done|]. apply Hmin. by apply (list_elem_of_fmap_2 (λ p, _ p + _)).
    + intros ? [= <-]. apply list_elem_of_fmap in Hin as (p & -> & Hp).
      apply list_elem_of_In, filter_In in Hp as [_ Hp]. unfold is_lost in Hp.
      apply negb_true_iff, orb_false_iff in Hp as [_ Hp%Z.leb_gt]. unfold sat_sub in Hp. lia.
  - destruct Hmin as [_ Hnil]. apply fmap_nil_inv in Hnil. split; [|done].
    rewrite Hnil. by intros p ?%not_elem_of_nil.
Qed.

(** ** Properties *)

(** Loss detection is exact.  After an ACK the packets reported lost are, in
    tracker order, the first 64 of those at or below the largest acknowledged
    number that RFC 9002's packet or time threshold condemns; when they fit, the
    loss timer is armed in the future, no later than the moment the first
    surviving candidate becomes lost, and is off when there is none. *)
Theorem detect_lost_exact lvl tracker now s la delay :
  at_space (largest_acked s) lvl = Some la → 0 ≤ la < 2 ^ 62 → loss_delay_of s = Ok delay →
  0 ≤ delay < 2 ^ 62 → Forall pkt_u64 tracker →
  let candidates := Recovery.sent_below_pn tracker lvl (la + 1) in
  let lost := List.filter (is_lost la delay now) candidates in
  ∃ lt, detect_lost_packets lvl tracker now s =
      (Ok (take 64 (Recovery.pn <$> lost), lt),
       s <| loss_time := set_space (loss_time s) lvl lt |>) ∧
    ((length lost ≤ 64)%nat →
     (∀ p, p ∈ Recovery.keep (is_lost la delay now) candidates →
       ∃ t, lt = Some t ∧ t ≤ Recovery.time_sent p + delay) ∧
     (∀ t, lt = Some t → now < t)).
Proof. apply detect_lost_spec. Qed.

(** RTT estimates stay within the samples.  As long as every sample is at most
    [hi] microseconds (below 2^60), [update_rtt] never overflows, the smoothed
    RTT stays between the minimum RTT and [hi], whatever ack delays the peer
    reports, and the probe timeout is computable. *)
Theorem rtt_estimates_bounded hi latest delay confirmed s :
  hi < 2 ^ 60 → 0 ≤ latest ≤ hi → 0 ≤ delay → rtt_ok hi s →
  ∃ s', update_rtt latest delay confirmed s = (Ok tt, s') ∧ rtt_ok hi s' ∧
    min_rtt s' ≤ latest ∧ min_rtt s' ≤ smoothed_rtt s' ≤ hi ∧
    ∃ d, pto_duration s' = Ok d ∧ GRANULARITY ≤ d.
Proof.
  intros Hhi Hl Hd Hok. destruct (update_rtt_ok hi latest delay confirmed s Hhi Hl Hd Hok)
    as (s' & Hr & Hok' & [v Hv] & _).
  exists s'. split; [done|]. split; [done|]. pose proof Hok' as []. rewrite Hv in ro_srtt0.
  unfold smoothed_rtt. rewrite Hv. split_and!; try lia.
  - revert Hr. unfold update_rtt, mbind, M_bind, modify, get, lift, mret, M_ret. simpl. intros.
    repeat (case_match; simplify_eq/=); lia.
  - assert (pto_duration s' = Ok (v + Z.max (4 * rttvar s') GRANULARITY + max_ack_delay s')) as ->.
    { unfold pto_duration, smoothed_rtt, mbind, res_bind, GRANULARITY. rewrite Hv.
      rewrite umul_ok by lia. cbv iota beta. rewrite uadd_ok by lia. cbv iota beta. apply uadd_ok. lia. }
    eexists. split; [done|]. unfold GRANULARITY. lia.
Qed.

(** An expired loss timer makes the connection panic.  The timer handler only
    backs off: it neither declares the overdue packets lost nor clears
    [loss_time], so the deadline stays in the past; a driver that keeps polling
    overflows the probe timeout within 56 polls, at
    [pto_duration() * (1 << pto_count)]. *)
Theorem expired_loss_timer_overflows tracker now s :
  overdue now s → 0 ≤ pto_count s < 2 ^ 30 →
  ∃ s', poll_timer 56 tracker now s = (Panic, s').
Proof. intros Ho Hc. apply poll_timer_overflow; (done || lia). Qed.

End Loss.
