(* ===== verification/AckProcessing.v ===== *)
(** * Acknowledgement processing: the recovery part of [src/connection/]

    How a connection composes the sent-packet tracker, the loss detector and the
    congestion controller when it sends a 1-RTT packet ([transmit.rs]), receives
    an ACK frame and discards a packet number space ([recv.rs]). *)
From S2P Require Import Prelude Errors Varint Frame Recovery Congestion Loss.

Module Ack.

(** The three fields of [Connection] concerned. *)
Record Path := {
  sent_tracker : Recovery.SentPacketTracker;
  loss_detector : Loss.LossDetector;
  congestion : Congestion.CongestionController
}.
#[global] Instance eta_Path : Eta Path := λ s, {|
  sent_tracker := sent_tracker s; loss_detector := loss_detector s; congestion := congestion s |}.

(** A method call on a field. *)
Definition on_tracker {A} (f : M Error Recovery.SentPacketTracker A) : M Error Path A := λ s,
  let '(r, t) := f (sent_tracker s) in (r, s <| sent_tracker := t |>).
Definition on_detector {A} (f : M Error Loss.LossDetector A) : M Error Path A := λ s,
  let '(r, d) := f (loss_detector s) in (r, s <| loss_detector := d |>).
Definition on_congestion {A} (f : M Error Congestion.CongestionController A) : M Error Path A := λ s,
  let '(r, c) := f (congestion s) in (r, s <| congestion := c |>).

(** A 1-RTT packet has been sealed: the tracker's error is ignored. *)
Definition record_sent (N : nat) (lvl : Level.t) (pn now total : Z) (ack_eliciting : bool) : M Error Path unit :=
  _ ← (λ s, (Ok tt, (on_tracker (Recovery.on_packet_sent N {|
         Recovery.pn := pn; Recovery.level := lvl; Recovery.time_sent := now;
         Recovery.size := trunc 16 total; Recovery.ack_eliciting := ack_eliciting;
         Recovery.in_flight := ack_eliciting |}) s).2));
  if ack_eliciting then
    _ ← on_detector (modify (Loss.on_ack_eliciting_sent lvl now));
    on_congestion (Congestion.on_packet_sent total)
  else mret tt.

(** The additional ranges of an ACK frame, in a vector of capacity 16; every
    item takes at least two bytes, so [fuel = length raw] suffices. *)
Fixpoint read_ranges (fuel : nat) (raw : list Z) (ranges : list (Z * Z)) : result (list (Z * Z)) :=
  match Frame.ack_range_next raw with
  | (None, _) => Ok ranges
  | (Some (Ok r), raw') =>
      match fuel with
      | O => Panic
      | S fuel => read_ranges fuel raw' (push_capped 16 ranges r)
      end
  | (Some (Err e), _) => Err e
  | (Some Panic, _) => Panic
  end.

Fixpoint ack_packets (now : Z) (acked : list Recovery.SentPacket) : M Error Path unit :=
  match acked with
  | [] => mret tt
  | pkt :: acked' =>
      _ ← on_congestion (Congestion.on_packet_acked (Recovery.size pkt) (Recovery.time_sent pkt) now);
      ack_packets now acked'
  end.

Fixpoint lose_packets (lvl : Level.t) (now : Z) (lost_pns : list Z) : M Error Path unit :=
  match lost_pns with
  | [] => mret tt
  | lost_pn :: lost_pns' =>
      o ← on_tracker (λ t, let '(o, t') := Recovery.remove lvl lost_pn t in (Ok o, t'));
      _ ← (match o with
           | Some lost => on_congestion (modify (Congestion.on_packet_lost
                            (Recovery.size lost) (Recovery.time_sent lost) now))
           | None => mret tt
           end);
      lose_packets lvl now lost_pns'
  end.

(** "Update RTT if we have a newly acked packet". *)
Definition sample_rtt (largest_newly_acked : option Recovery.SentPacket) (ack_delay now : Z)
    (confirmed : bool) : M Error Path unit :=
  match largest_newly_acked with
  | Some largest =>
      _ ← (if (0 <? Recovery.time_sent largest) && (Recovery.time_sent largest <=? now) then
             latest_rtt ← lift (usub now (Recovery.time_sent largest));
             on_detector (Loss.update_rtt latest_rtt ack_delay confirmed)
           else mret tt);
      on_detector (modify Loss.reset_pto_count)
  | None => mret tt
  end.

(** The [Frame::Ack] arm of [dispatch_frame]; [confirmed] is whether the state is
    [Active]. *)
Definition handle_ack (lvl : Level.t) (ack : Frame.AckFrame) (now : Z) (confirmed : bool) : M Error Path unit :=
  ranges ← lift (read_ranges (length (Frame.ack_ranges ack)) (Frame.ack_ranges ack) []);
  ack_result ← on_tracker (Recovery.on_ack_received lvl (Frame.largest_ack ack)
                             (Frame.first_ack_range ack) ranges);
  _ ← on_detector (modify (Loss.on_ack_received lvl (Frame.largest_ack ack)));
  _ ← sample_rtt (Recovery.largest_newly_acked ack_result) (Frame.ack_delay ack) now confirmed;
  _ ← ack_packets now (Recovery.newly_acked ack_result);
  s ← get;
  lost ← on_detector (Loss.detect_lost_packets lvl (sent_tracker s) now);
  lose_packets lvl now lost.1.

(** Discarding a space: the congestion controller is not told. *)
Definition drop_level (lvl : Level.t) (s : Path) : Path :=
  s <| sent_tracker := Recovery.drop_space lvl (sent_tracker s) |>
    <| loss_detector := Loss.drop_space lvl (loss_detector s) |>.

(** ** Accounting of bytes in flight *)

Definition sizes (l : list Recovery.SentPacket) : Z := foldr (λ p n, Recovery.size p + n) 0 l.
Definition flight (l : list Recovery.SentPacket) : Z :=
  sizes (List.filter Recovery.in_flight l).

Definition tracked_ok (p : Recovery.SentPacket) : Prop :=
  uint 16 (Recovery.size p) ∧ Loss.pkt_u64 p ∧ Recovery.in_flight p = true.

Lemma sizes_perm l l' : l ≡ₚ l' → sizes l = sizes l'.
Proof. unfold sizes. induction 1; simpl in *; lia. Qed.
Lemma sizes_app l l' : sizes (l ++ l') = sizes l + sizes l'.
Proof. unfold sizes. induction l; simpl; lia. Qed.
Lemma sizes_nonneg l : Forall tracked_ok l → 0 ≤ sizes l.
Proof. unfold sizes. induction 1 as [|p l [[] _] _ IH]; simpl; lia. Qed.
Lemma sizes_bound l : Forall tracked_ok l → sizes l ≤ 2 ^ 16 * len l.
Proof. unfold sizes. induction 1 as [|p l [[] _] _ IH]; simpl; lia. Qed.
Lemma flight_all l : Forall tracked_ok l → flight l = sizes l.
Proof.
  intros Hl. unfold flight. rewrite filter_all; [done|]. eapply Forall_impl; [done|]. by intros p (_ & _ & ?).
Qed.
Lemma filter_keep_perm {A} (f : A → bool) l : l ≡ₚ List.filter f l ++ List.filter (λ p, negb (f p)) l.
Proof.
  induction l as [|p l IH]; simpl; [done|]. destruct (f p); simpl; [by rewrite <- IH|].
  by rewrite <- Permutation_middle, <- IH.
Qed.

(** Acknowledging: every packet leaves the flight, the window grows by at most
    the bytes acknowledged. *)
Lemma on_packet_acked_ok c n t now :
  Congestion.wf c → uint 16 n → Congestion.cwnd c < 2 ^ 62 + 2 ^ 32 → n ≤ Congestion.bytes_in_flight c →
  ∃ c', Congestion.on_packet_acked n t now c = (Ok tt, c') ∧ Congestion.wf c' ∧
    Congestion.bytes_in_flight c' = Congestion.bytes_in_flight c - n ∧
    Congestion.cwnd c' ≤ Congestion.cwnd c + n.
Proof.
  intros Hwf [Hn Hn'] Hc Hb. pose proof Hwf as [].
  assert (0 ≤ Congestion.max_datagram_size c * n / Congestion.cwnd c ≤ n) as Hdiv.
  { split; [apply Z.div_pos; nia|]. apply Z.div_le_upper_bound; nia. }
  assert (∃ c', Congestion.on_packet_acked n t now c = (Ok tt, c') ∧
    Congestion.bytes_in_flight c' = Congestion.bytes_in_flight c - n ∧
    Congestion.cwnd c' ≤ Congestion.cwnd c + n) as (c' & Hr & ? & ?).
  { unfold Congestion.on_packet_acked, Congestion.remove_from_flight, Congestion.udiv, umul, sat_sub.
    assert (Congestion.max_datagram_size c * n < 2 ^ 32) by nia.
    run_method; try lia; (eexists; split; [done|]; simpl; lia). }
  exists c'. split_and!; try done.
  by eapply (Congestion.cc_exec_wf (Congestion.PacketAcked n t now) c).
Qed.

Lemma ack_packets_ok now l s :
  Forall tracked_ok l → Congestion.wf (congestion s) → (length l ≤ 32)%nat →
  Congestion.cwnd (congestion s) + sizes l < 2 ^ 62 + 2 ^ 32 →
  sizes l ≤ Congestion.bytes_in_flight (congestion s) →
  ∃ c', ack_packets now l s = (Ok tt, s <| congestion := c' |>) ∧ Congestion.wf c' ∧
    Congestion.bytes_in_flight c' = Congestion.bytes_in_flight (congestion s) - sizes l.
Proof.
  intros Hl. revert s. induction Hl as [|p l Hp Hl IH]; intros s Hwf Hlen Hc Hb.
  - exists (congestion s). destruct s. unfold sizes. simpl. split_and!; [done..|lia].
  - pose proof (sizes_nonneg l Hl). unfold sizes in Hc, Hb. simpl in Hc, Hb, Hlen. fold (sizes l) in Hc, Hb.
    destruct Hp as [Hsz _]. pose proof Hsz as [].
    destruct (on_packet_acked_ok (congestion s) (Recovery.size p) (Recovery.time_sent p) now)
      as (c1 & Hr & Hwf1 & Hb1 & Hc1); [done|done|lia|lia|].
    cbn [ack_packets]. unfold mbind, M_bind, on_congestion. rewrite Hr.
    destruct (IH (s <| congestion := c1 |>)) as (c' & Hr' & Hwf' & Hb'); simpl; [done|lia..|].
    exists c'. rewrite Hr'. split_and!; [done|done|].
    rewrite Hb'. simpl. unfold sizes. simpl. fold (sizes l). lia.
Qed.

(** Losing: whatever is removed from the tracker leaves the flight. *)
Lemma lose_packets_ok lvl now pns s :
  Forall tracked_ok (sent_tracker s) → Congestion.wf (congestion s) →
  Congestion.bytes_in_flight (congestion s) = sizes (sent_tracker s) →
  ∃ s', lose_packets lvl now pns s = (Ok tt, s') ∧ Congestion.wf (congestion s') ∧
    Forall tracked_ok (sent_tracker s') ∧
    Congestion.bytes_in_flight (congestion s') = sizes (sent_tracker s') ∧
    loss_detector s' = loss_detector s.
Proof.
  revert s. induction pns as [|n pns IH]; intros s Ht Hwf Hb; [by exists s|].
  cbn [lose_packets]. unfold mbind, M_bind, on_tracker.
  pose proof (Recovery.remove_spec lvl n (sent_tracker s)) as Hrem.
  destruct (Recovery.remove lvl n (sent_tracker s)) as [[p|] t'].
  - destruct Hrem as (_ & _ & Hperm). rewrite Hperm, Forall_cons in Ht. destruct Ht as [[Hsz _] Ht].
    unfold on_congestion, modify; simpl.
    match goal with |- context [lose_packets lvl now pns ?st] =>
      destruct (IH st) as (s' & ? & ? & ? & ? & Hd) end; [| | |by exists s']; simpl; [done| |].
    + by eapply (Congestion.cc_exec_wf (Congestion.PacketLost (Recovery.size p) (Recovery.time_sent p) now)).
    + rewrite (sizes_perm _ _ Hperm) in Hb. unfold sizes in Hb. simpl in Hb. fold (sizes t') in Hb.
      pose proof (sizes_nonneg t' Ht). destruct Hsz.
      assert (∀ c, Congestion.bytes_in_flight (Congestion.on_packet_lost (Recovery.size p)
        (Recovery.time_sent p) now c) = sat_sub (Congestion.bytes_in_flight c) (Recovery.size p)) as ->.
      { intros c. unfold Congestion.on_packet_lost. by case_match. }
      unfold sat_sub. lia.
  - destruct Hrem as [-> _]. simpl. match goal with |- context [lose_packets lvl now pns ?st] =>
      destruct (IH st) as (s' & ? & ? & ? & ? & Hd) end; [| | |by exists s']; done.
Qed.

(** The bound on times and RTT samples: [2^58] microseconds are over 9,000 years. *)
Definition T : Z := 2 ^ 58.

Lemma sample_rtt_ok o delay now confirmed s :
  Loss.rtt_ok T (loss_detector s) → 0 ≤ now < T → 0 ≤ delay →
  ∃ d', sample_rtt o delay now confirmed s = (Ok tt, s <| loss_detector := d' |>) ∧ Loss.rtt_ok T d' ∧
    Loss.largest_acked d' = Loss.largest_acked (loss_detector s).
Proof.
  intros Hok Hnow Hdelay. unfold sample_rtt, T in *. destruct o as [p|].
  2:{ exists (loss_detector s). destruct s. done. }
  assert (∀ d, Loss.rtt_ok (2 ^ 58) d → Loss.rtt_ok (2 ^ 58) (Loss.reset_pto_count d)) as Hreset
    by (intros d []; by split).
  unfold mbind, M_bind, on_detector, lift.
  destruct (_ && _) eqn:Ht; [|simpl; eexists; split; [done|]; auto].
  apply andb_true_iff in Ht as [?%Z.ltb_lt ?%Z.leb_le]. rewrite usub_ok by done.
  destruct (Loss.update_rtt_ok (2 ^ 58) (now - Recovery.time_sent p) delay confirmed (loss_detector s))
    as (d' & -> & Hd' & _ & _ & _ & Hla); [lia..|done|].
  eexists. split; [done|]. auto.
Qed.

Lemma loss_delay_ok d : Loss.rtt_ok T d → ∃ delay, Loss.loss_delay_of d = Ok delay ∧ 0 ≤ delay < 2 ^ 62.
Proof.
  intros []. unfold T in *. unfold Loss.loss_delay_of, Loss.TIME_THRESHOLD_NUM, Loss.TIME_THRESHOLD_DEN,
    Loss.GRANULARITY, Loss.smoothed_rtt, Loss.DEFAULT_INITIAL_RTT, mbind, res_bind.
  assert (0 ≤ match Loss.smoothed_rtt_est d with Some v => v | None => 333000 end ≤ 2 ^ 58)
    by (destruct (Loss.smoothed_rtt_est d); lia).
  rewrite umul_ok by lia. eexists. split; [done|]. div_lia.
Qed.

Lemma on_ack_received_la lvl n d :
  0 ≤ n < 2 ^ 62 → (∀ l la, Loss.at_space (Loss.largest_acked d) l = Some la → 0 ≤ la < 2 ^ 62) →
  ∀ l la, Loss.at_space (Loss.largest_acked (Loss.on_ack_received lvl n d)) l = Some la → 0 ≤ la < 2 ^ 62.
Proof.
  intros Hn Hd l la. unfold Loss.on_ack_received. repeat case_match; simpl; try apply Hd.
  all: destruct lvl, l; simpl; (by intros [= <-]) || apply (Hd Level.Initial) || apply (Hd Level.Handshake)
    || apply (Hd Level.Application).
Qed.
Lemma on_ack_received_some lvl n d :
  ∃ la, Loss.at_space (Loss.largest_acked (Loss.on_ack_received lvl n d)) lvl = Some la.
Proof.
  unfold Loss.on_ack_received. repeat case_match; simpl; destruct lvl; simpl in *; eauto.
Qed.

(** A path whose bookkeeping agrees: every tracked packet counts towards the
    congestion controller's bytes in flight, and nothing else does. *)
Record path_ok (s : Path) : Prop := {
  po_tracked : Forall tracked_ok (sent_tracker s);
  po_flight : Congestion.bytes_in_flight (congestion s) = flight (sent_tracker s);
  po_congestion : Congestion.wf (congestion s);
  po_rtt : Loss.rtt_ok T (loss_detector s);
  po_acked : ∀ l la, Loss.at_space (Loss.largest_acked (loss_detector s)) l = Some la → 0 ≤ la < 2 ^ 62
}.

(** ** Properties *)

(** With at most 32 packets tracked none is forgotten: the acknowledged ones are
    reported, the others stay. *)
Lemma ack_split lvl largest first ranges tracker :
  Recovery.ranges_valid largest first ranges → (length ranges ≤ 16)%nat → largest < 2 ^ 62 →
  (length tracker ≤ 32)%nat →
  ∃ r entries' acked, Recovery.on_ack_received lvl largest first ranges tracker = (Ok r, entries') ∧
    Recovery.newly_acked r = acked ∧ tracker ≡ₚ acked ++ entries' ∧ (length acked ≤ 32)%nat.
Proof.
  intros Hvalid Hlen Hlargest H32.
  destruct (Recovery.on_ack_received_spec lvl largest first ranges tracker)
    as (r & entries' & f & acked & Hr & _ & Hacked & Hkeep & Hnew & _); [done|done|lia|].
  pose proof (filter_keep_perm f tracker) as Hsplit.
  change (List.filter (λ p, negb (f p)) tracker) with (Recovery.keep f tracker) in Hsplit.
  rewrite <- Hacked, <- Hkeep in Hsplit. exists r, entries', acked.
  assert (length acked ≤ 32)%nat by (apply Permutation_length in Hsplit; rewrite length_app in Hsplit; lia).
  split_and!; [done|by rewrite Hnew, take_ge|done..].
Qed.

(** C24: processing an ACK keeps the books.  When at most 32 packets are tracked,
    all of them in flight, the handler succeeds on every well-formed frame, and
    afterwards the bytes in flight are again exactly those of the packets still
    tracked: acknowledged and lost packets have been subtracted once each. *)
Theorem handle_ack_flight_exact lvl ack ranges now confirmed s :
  path_ok s → Congestion.cwnd (congestion s) < 2 ^ 62 → 0 ≤ now < T →
  read_ranges (length (Frame.ack_ranges ack)) (Frame.ack_ranges ack) [] = Ok ranges →
  (length ranges ≤ 16)%nat → 0 ≤ Frame.ack_delay ack →
  Recovery.ranges_valid (Frame.largest_ack ack) (Frame.first_ack_range ack) ranges →
  Frame.largest_ack ack < 2 ^ 62 → (length (sent_tracker s) ≤ 32)%nat →
  ∃ s', handle_ack lvl ack now confirmed s = (Ok tt, s') ∧ path_ok s'.
Proof.
  intros [] Hcw Hnow Hranges Hlen Hdelay Hvalid Hlargest H32.
  assert (0 ≤ Frame.largest_ack ack) as Hl0 by (destruct ranges as [|[]]; simpl in Hvalid; lia).
  destruct (ack_split lvl (Frame.largest_ack ack) (Frame.first_ack_range ack) ranges (sent_tracker s))
    as (r & entries' & acked & Hr & Hnew & Hsplit & Hla); [done|done|lia|done|].
  pose proof po_tracked0 as Htr. rewrite Hsplit, Forall_app in Htr. destruct Htr as [Hta Hte].
  rewrite flight_all, (sizes_perm _ _ Hsplit), sizes_app in po_flight0 by done.
  pose proof (sizes_nonneg _ Hte). pose proof (sizes_bound _ Hta).
  unfold handle_ack. erewrite M_step_lift by done. erewrite M_step_ok.
  2:{ unfold on_tracker. rewrite Hr. reflexivity. }
  erewrite M_step_ok by reflexivity.
  set (d1 := Loss.on_ack_received lvl (Frame.largest_ack ack) (loss_detector s)).
  set (s1 := update loss_detector _ _). change (loss_detector (s <| sent_tracker := entries' |>)) with (loss_detector s) in s1.
  assert (Loss.rtt_ok T d1) as Hrtt1
    by (unfold d1, Loss.on_ack_received; repeat case_match; destruct po_rtt0; by split).
  destruct (sample_rtt_ok (Recovery.largest_newly_acked r) (Frame.ack_delay ack) now confirmed s1)
    as (d2 & Hsample & Hrtt2 & Hla2); [done|done|done|].
  erewrite M_step_ok by exact Hsample. rewrite Hnew.
  destruct (ack_packets_ok now acked (s1 <| loss_detector := d2 |>)) as (c' & Hack & Hwf' & Hb');
    [done|done|done|simpl; lia|simpl; lia|].
  erewrite M_step_ok by exact Hack. erewrite M_step_ok by reflexivity.
  destruct (loss_delay_ok d2 Hrtt2) as (delay & Hdel & Hdel0).
  assert (∀ l la, Loss.at_space (Loss.largest_acked d2) l = Some la → 0 ≤ la < 2 ^ 62) as Hacked2.
  { rewrite Hla2. by apply on_ack_received_la. }
  destruct (on_ack_received_some lvl (Frame.largest_ack ack) (loss_detector s)) as [la Hla'].
  assert (Loss.at_space (Loss.largest_acked d2) lvl = Some la) as Hla2' by (rewrite Hla2; exact Hla').
  destruct (Loss.detect_lost_spec lvl entries' now d2 la delay) as (lt & Hdet & _);
    [done|eauto|done|done| |].
  { eapply Forall_impl; [exact Hte|]. by intros p (_ & ? & _). }
  erewrite M_step_ok by (unfold on_detector; subst s1; simpl; rewrite Hdet; reflexivity).
  match goal with |- context [lose_packets lvl now ?pns ?st] =>
    destruct (lose_packets_ok lvl now pns st) as (s' & Hlose & Hwf'' & Ht'' & Hb'' & Hld) end;
    [done|done|subst s1; simpl; rewrite Hb'; simpl; lia|].
  exists s'. split; [exact Hlose|]. split; [done| |done| |].
  - by rewrite flight_all.
  - rewrite Hld. simpl. destruct Hrtt2. by split.
  - by rewrite Hld.
Qed.

Definition path_example (n : nat) : Path := {|
  sent_tracker := Recovery.pkt_example <$> seqZ 0 (Z.of_nat n);
  loss_detector := Loss.new 25000;
  congestion := {| Congestion.cwnd := 14720; Congestion.ssthresh := u64_max;
    Congestion.bytes_in_flight := 100 * Z.of_nat n; Congestion.recovery_start_time := None;
    Congestion.persistent_congestion_threshold := 0; Congestion.max_datagram_size := 1200;
    Congestion.minimum_window := 2400 |} |}.
Definition ack_example (largest : Z) : Frame.AckFrame := {|
  Frame.largest_ack := largest; Frame.ack_delay := 0; Frame.first_ack_range := largest;
  Frame.ack_ranges := []; Frame.ecn := None |}.

Lemma handle_ack_flight_exact_witness :
  ∃ s', handle_ack Level.Application (ack_example 1) 50 true (path_example 3) = (Ok tt, s') ∧ path_ok s'.
Proof.
  apply (handle_ack_flight_exact Level.Application (ack_example 1) [] 50 true (path_example 3));
    [|done|unfold T; lia|done|simpl; lia|simpl; lia|simpl; lia|simpl; lia|simpl; lia].
  split.
  - apply Forall_fmap, Forall_forall. intros n Hn%elem_of_seqZ.
    unfold tracked_ok, Loss.pkt_u64, uint. simpl. lia.
  - done.
  - split; simpl; unfold u64_max; lia.
  - split; simpl; unfold T, u64_max; lia.
  - by intros [] la.
Defined.

(** One ACK for 33 packets: the 33rd leaves the tracker without being subtracted,
    so its bytes count as in flight for the rest of the connection. *)
Example ack_of_33_leaks :
  let s' := (handle_ack Level.Application (ack_example 32) 50 true (path_example 33)).2 in
  sent_tracker s' = [] ∧ Congestion.bytes_in_flight (congestion s') = 100.
Proof. vm_compute. done. Qed.

(** An acknowledged ACK-only packet, which was never counted, is subtracted all
    the same: two 100-byte packets in flight, one 60-byte ACK-only packet
    acknowledged, and 140 bytes remain on the books for 200 in flight. *)
Example ack_only_packets_subtracted :
  let ack_only := {| Recovery.pn := 2; Recovery.level := Level.Application; Recovery.time_sent := 1;
    Recovery.size := 60; Recovery.ack_eliciting := false; Recovery.in_flight := false |} in
  let s := path_example 2 in
  let s := s <| sent_tracker := sent_tracker s ++ [ack_only] |> in
  let ack := {| Frame.largest_ack := 2; Frame.ack_delay := 0; Frame.first_ack_range := 0;
    Frame.ack_ranges := []; Frame.ecn := None |} in
  let s' := (handle_ack Level.Application ack 50 true s).2 in
  flight (sent_tracker s') = 200 ∧ Congestion.bytes_in_flight (congestion s') = 140.
Proof. vm_compute. done. Qed.

(** Discarding a space forgets its packets but not their bytes. *)
Example drop_level_leaks :
  let s' := drop_level Level.Application (path_example 5) in
  sent_tracker s' = [] ∧ Congestion.bytes_in_flight (congestion s') = 500.
Proof. vm_compute. done. Qed.

End Ack.
