(* ===== verification/HpackInteger.v ===== *)
(** * HPACK and QPACK integers: [src/hpack/integer.rs]

    The prefix-coded integers of RFC 7541, section 5.1. *)
From S2P Require Import Prelude Errors Varint Cursor.

Module Integer.

(** [if i >= buf.len() { return Err(BufferTooSmall { needed: i + 1 }) }]. *)
Definition check_room : writer unit := λ s,
  if len s.1 <=? s.2 then (Err (BufferTooSmall (s.2 + 1)), s) else (Ok tt, s).

(** [(1u64 << prefix_bits) - 1]. *)
Definition max_prefix (prefix_bits : Z) : Z := Z.shiftl 1 prefix_bits - 1.

(** The loop over continuation bytes; ten of them hold any [u64]. *)
Fixpoint encode_cont (fuel : nat) (remaining : Z) : writer unit :=
  match fuel with
  | O => lift Panic
  | S fuel =>
      _ ← check_room;
      if 128 <=? remaining then
        _ ← put_u8 (Z.lor 0x80 (Z.land remaining 0x7f));
        encode_cont fuel (Z.shiftr remaining 7)
      else put_u8 (trunc 8 remaining)
  end.

Definition encode_integer (value prefix_bits first_byte_mask : Z) : M Error (list Z) Z :=
  from_start (
    _ ← (if (1 <=? prefix_bits) && (prefix_bits <=? 8) then mret tt else lift Panic);
    _ ← check_room;
    if value <? max_prefix prefix_bits then put_u8 (Z.lor first_byte_mask (trunc 8 value))
    else
      _ ← put_u8 (Z.lor first_byte_mask (trunc 8 (max_prefix prefix_bits)));
      encode_cont 10 (value - max_prefix prefix_bits)).

Definition frame_encoding_error : Error := Transport TransportError.FrameEncodingError.

(** The loop over continuation bytes; [shift] exceeds 63 after ten of them.
    [checked_shl] only fails for a shift of 64 or more: bits pushed out of the
    top are lost. *)
Fixpoint decode_cont (fuel : nat) (buf : list Z) (value shift i : Z) : result (Z * Z) :=
  match fuel with
  | O => Panic
  | S fuel =>
      if len buf <=? i then Err (BufferTooSmall (i + 1)) else
      byte ← idx buf i;
      addition ← ok_or frame_encoding_error
        (if shift <? 64 then Some (trunc 64 (Z.shiftl (Z.land byte 0x7f) shift)) else None);
      value ← ok_or frame_encoding_error
        (if value + addition <? 2 ^ 64 then Some (value + addition) else None);
      if Z.land byte 0x80 =? 0 then Ok (value, i + 1) else
      if 63 <? shift + 7 then Err frame_encoding_error
      else decode_cont fuel buf value (shift + 7) (i + 1)
  end.

Definition decode_integer (buf : list Z) (prefix_bits : Z) : result (Z * Z) :=
  if (1 <=? prefix_bits) && (prefix_bits <=? 8) then
    if len buf =? 0 then Err (BufferTooSmall 1) else
    b ← idx buf 0;
    let value := Z.land b (max_prefix prefix_bits) in
    if value <? max_prefix prefix_bits then Ok (value, 1)
    else decode_cont 10 buf (max_prefix prefix_bits) 0 1
  else Panic.

(** ** Wire form *)

Fixpoint cont_wire (fuel : nat) (r : Z) : list Z :=
  match fuel with
  | O => []
  | S fuel => if 128 <=? r then (128 + r mod 128) :: cont_wire fuel (r / 128) else [r]
  end.

Definition int_wire (prefix_bits mask v : Z) : list Z :=
  if v <? 2 ^ prefix_bits - 1 then [mask + v]
  else (mask + (2 ^ prefix_bits - 1)) :: cont_wire 10 (v - (2 ^ prefix_bits - 1)).

(** The mask occupies the bits above the prefix. *)
Definition mask_ok (prefix_bits mask : Z) : Prop :=
  1 ≤ prefix_bits ≤ 8 ∧ 0 ≤ mask ∧ mask + 2 ^ prefix_bits ≤ 256 ∧ mask mod 2 ^ prefix_bits = 0.

Lemma max_prefix_eq p : 0 ≤ p → max_prefix p = 2 ^ p - 1.
Proof. intros. unfold max_prefix. by rewrite Z.shiftl_1_l. Qed.

Lemma mask_pow p mask : mask_ok p mask → 2 ≤ 2 ^ p ≤ 256.
Proof.
  intros [Hp _]. split; [change 2 with (2 ^ 1) at 1|change 256 with (2 ^ 8)]; apply Z.pow_le_mono_r; lia.
Qed.

Lemma mask_lor p mask v : mask_ok p mask → 0 ≤ v < 2 ^ p → Z.lor mask (trunc 8 v) = mask + v.
Proof.
  intros Hm Hv. pose proof (mask_pow _ _ Hm). destruct Hm as (Hp & Hm0 & Hm & Hmod).
  rewrite trunc_small by (unfold uint; lia). apply (lor_disjoint_add _ _ p); (done || lia).
Qed.

Lemma bytes_ok_cont_wire n r : 0 ≤ r → bytes_ok (cont_wire n r).
Proof.
  revert r. induction n as [|n IH]; intros r Hr; simpl; [constructor|].
  destruct (Z.leb_spec 128 r); repeat constructor; try apply IH; unfold byte_ok; div_lia.
Qed.
Lemma bytes_ok_int_wire p mask v : mask_ok p mask → 0 ≤ v → bytes_ok (int_wire p mask v).
Proof.
  intros Hm Hv. pose proof (mask_pow _ _ Hm). destruct Hm as (Hp & Hm0 & Hm & Hmod). unfold int_wire.
  destruct (Z.ltb_spec v (2 ^ p - 1)); repeat constructor; try apply bytes_ok_cont_wire; unfold byte_ok; lia.
Qed.

(** ** Encoding *)

Lemma Writes_checked b : Writes (_ ← check_room; put_u8 b) [b].
Proof.
  intros done rest. unfold check_room, mbind, M_bind; cbn [fst snd]. split; simpl length; intros Hl.
  - rewrite (proj2 (Z.leb_gt _ _)) by len_lia. by apply Puts_u8.
  - rewrite (proj2 (Z.leb_le _ _)) by len_lia. do 2 eexists. split; [done|by eexists].
Qed.

Lemma Emits_checked b : Emits (_ ← check_room; put_u8 b) [b] tt.
Proof. intros done rest Hl. by apply Writes_checked. Qed.

Lemma Emits_checked_then {A} b (k : writer A) bs a :
  Emits k bs a → Emits (_ ← check_room; _ ← put_u8 b; k) (b :: bs) a.
Proof.
  intros Hk done rest Hl. rewrite <- (M_bind_assoc check_room (λ _, put_u8 b) (λ _, k)).
  by apply (Emits_bind _ _ [b] bs tt a (Emits_checked b) Hk).
Qed.

Lemma Writes_ext m m' bs : (∀ s, m s = m' s) → Writes m bs → Writes m' bs.
Proof. intros He Hm done rest. rewrite <- He. apply Hm. Qed.

Lemma Writes_checked_then b k bs : Writes k bs → Writes (_ ← check_room; _ ← put_u8 b; k) (b :: bs).
Proof.
  intros Hk. apply (Writes_ext ((_ ← check_room; put_u8 b) ≫= λ _, k)); [intros s; apply M_bind_assoc|].
  apply (Writes_bind _ _ [b] bs); [apply Writes_checked|done].
Qed.

Lemma Writes_cont fuel r :
  0 ≤ r < 2 ^ (7 * Z.of_nat fuel) → (0 < fuel)%nat → Writes (encode_cont fuel r) (cont_wire fuel r).
Proof.
  revert r. induction fuel as [|fuel IH]; intros r Hr Hf; [lia|]. cbn [encode_cont cont_wire].
  destruct (Z.leb_spec 128 r).
  - rewrite Z.shiftr_div_pow2 by lia. change (2 ^ 7) with 128.
    change 0x7f with (Z.ones 7). rewrite Z.land_ones by lia. change (2 ^ 7) with 128.
    rewrite (lor_disjoint_add _ _ 7) by (done || apply Z.mod_pos_bound; lia).
    apply Writes_checked_then, IH.
    + split; [apply Z.div_pos; lia|]. apply Z.div_lt_upper_bound; [lia|].
      replace (7 * Z.of_nat (S fuel)) with (7 + 7 * Z.of_nat fuel) in Hr by lia.
      rewrite Z.pow_add_r in Hr by lia. change (2 ^ 7) with 128 in Hr. lia.
    + destruct fuel; [simpl in Hr; lia|lia].
  - rewrite trunc_small by (unfold uint; lia). apply Writes_checked.
Qed.

Lemma Writes_encode_integer v p mask :
  mask_ok p mask → uint 64 v → ∃ w, encode_integer v p mask = from_start w ∧ Writes w (int_wire p mask v).
Proof.
  intros Hm [Hv Hv']. pose proof (mask_pow _ _ Hm) as Hpow. eexists. split; [reflexivity|].
  assert (1 ≤ p ≤ 8) as Hp by apply Hm.
  rewrite (proj2 (Z.leb_le 1 p)), (proj2 (Z.leb_le p 8)), max_prefix_eq by lia. cbn [andb].
  apply (Writes_bind _ _ [] _ Writes_ret). unfold int_wire.
  destruct (Z.ltb_spec v (2 ^ p - 1)).
  - rewrite (mask_lor p) by (done || lia). apply Writes_checked.
  - rewrite (mask_lor p) by (done || lia). apply Writes_checked_then, Writes_cont; [|lia].
    change (2 ^ (7 * Z.of_nat 10)) with (2 ^ 70). lia.
Qed.

Lemma encode_integer_ok v p mask buf :
  mask_ok p mask → uint 64 v → len (int_wire p mask v) ≤ len buf →
  encode_integer v p mask buf =
  (Ok (len (int_wire p mask v)), int_wire p mask v ++ drop (length (int_wire p mask v)) buf).
Proof.
  intros Hm Hv Hl. destruct (Writes_encode_integer v p mask Hm Hv) as (w & -> & Hw).
  by apply Puts_start, Hl; apply Writes_Puts.
Qed.

Lemma encode_integer_short v p mask buf :
  mask_ok p mask → uint 64 v → len buf < len (int_wire p mask v) →
  ∃ e buf', encode_integer v p mask buf = (Err e, buf') ∧ too_small e.
Proof.
  intros Hm Hv Hl. destruct (Writes_encode_integer v p mask Hm Hv) as (w & -> & Hw).
  destruct (Writes_start w _ buf Hw) as [_ Herr]. destruct (Herr Hl) as (e & s' & Hr & He).
  unfold from_start. rewrite Hr. eauto.
Qed.

(** ** Decoding *)

Lemma land_7f b : Z.land b 0x7f = b mod 128.
Proof. change 0x7f with (Z.ones 7). by rewrite Z.land_ones. Qed.
Lemma land_80 b : byte_ok b → Z.land b 0x80 = 0 ↔ b < 128.
Proof.
  intros Hb. pose proof (byte_forall (λ b, Bool.eqb (Z.land b 0x80 =? 0) (b <? 128))
    ltac:(vm_compute; reflexivity) b Hb) as Hr. cbv beta in Hr.
  apply eqb_prop in Hr. destruct (Z.eqb_spec (Z.land b 0x80) 0), (Z.ltb_spec b 128); (done || lia).
Qed.

(** One iteration of the decoding loop, without overflow. *)
Lemma decode_cont_step fuel buf value shift i b :
  byte_ok b → buf !! Z.to_nat i = Some b → 0 ≤ i → 0 ≤ shift ≤ 63 → 0 ≤ value →
  value + (b mod 128) * 2 ^ shift < 2 ^ 64 →
  decode_cont (S fuel) buf value shift i =
  (if b <? 128 then Ok (value + (b mod 128) * 2 ^ shift, i + 1)
   else if 63 <? shift + 7 then Err frame_encoding_error
   else decode_cont fuel buf (value + (b mod 128) * 2 ^ shift) (shift + 7) (i + 1)).
Proof.
  intros Hb Hi H0 Hs Hv Hsum. cbn [decode_cont]. pose proof (lookup_lt_Some _ _ _ Hi).
  rewrite (proj2 (Z.leb_gt _ _)) by lia. unfold mbind, res_bind. rewrite (idx_ok _ _ b) by done.
  rewrite (proj2 (Z.ltb_lt shift 64)) by lia. cbn [ok_or].
  rewrite land_7f, Z.shiftl_mul_pow2 by lia.
  assert (0 ≤ b mod 128) by (apply Z.mod_pos_bound; lia).
  assert (0 < 2 ^ shift) by (apply Z.pow_pos_nonneg; lia).
  rewrite trunc_small by (unfold uint; nia). rewrite (proj2 (Z.ltb_lt _ (2 ^ 64))) by lia. cbn [ok_or].
  pose proof (land_80 b Hb). destruct (Z.eqb_spec (Z.land b 0x80) 0), (Z.ltb_spec b 128); (done || lia).
Qed.

Lemma decode_cont_wire k fuel buf pre rest value shift r :
  buf = pre ++ cont_wire k r ++ rest → 0 ≤ r < 2 ^ (7 * Z.of_nat k) → (0 < k ≤ fuel)%nat →
  0 ≤ shift ≤ 63 → 0 ≤ value → value + r * 2 ^ shift < 2 ^ 64 →
  decode_cont fuel buf value shift (len pre) =
  Ok (value + r * 2 ^ shift, len pre + len (cont_wire k r)).
Proof.
  revert fuel pre value shift r. induction k as [|k IH]; intros fuel pre value shift r Hbuf Hr Hk Hs Hv Hsum; [lia|].
  destruct fuel as [|fuel]; [lia|]. cbn [cont_wire] in *.
  assert (0 < 2 ^ shift) by (apply Z.pow_pos_nonneg; lia).
  destruct (Z.leb_spec 128 r).
  - set (b := 128 + r mod 128) in *. assert (0 ≤ r mod 128 < 128) by (apply Z.mod_pos_bound; lia).
    assert (b mod 128 = r mod 128) as Hbm by (subst b; div_lia).
    assert (r = 128 * (r / 128) + r mod 128) as Hdiv by (apply Z.div_mod; lia).
    assert (2 ^ (shift + 7) = 128 * 2 ^ shift) as Hpow by (rewrite Z.pow_add_r by lia; lia).
    assert (shift + 7 ≤ 63).
    { destruct (Z.le_gt_cases (shift + 7) 63) as [|Hgt]; [done|].
      assert (2 ^ 64 ≤ 2 ^ (shift + 7)) by (apply Z.pow_le_mono_r; lia). nia. }
    rewrite (decode_cont_step _ _ _ _ _ b); [|unfold byte_ok; lia| |lia|lia|lia|nia].
    2:{ rewrite Hbuf, Nat2Z.id. by rewrite lookup_app_r, Nat.sub_diag by lia. }
    rewrite (proj2 (Z.ltb_ge b 128)), (proj2 (Z.ltb_ge 63 _)), Hbm by lia.
    replace (len pre + 1) with (len (pre ++ [b])) by len_lia.
    rewrite (IH fuel (pre ++ [b]) _ (shift + 7) (r / 128)); try lia.
    + rewrite Hpow. f_equal. f_equal; [|simpl length; len_lia]. nia.
    + by rewrite <- app_assoc.
    + split; [apply Z.div_pos; lia|]. apply Z.div_lt_upper_bound; [lia|].
      replace (7 * Z.of_nat (S k)) with (7 + 7 * Z.of_nat k) in Hr by lia.
      rewrite Z.pow_add_r in Hr by lia. change (2 ^ 7) with 128 in Hr. lia.
    + destruct k; [simpl in Hr; lia|lia].
  - rewrite (decode_cont_step _ _ _ _ _ r); [|unfold byte_ok; lia| |lia|lia|lia|].
    + rewrite (proj2 (Z.ltb_lt r 128)), Z.mod_small by lia. f_equal.
    + rewrite Hbuf, Nat2Z.id. by rewrite lookup_app_r, Nat.sub_diag by lia.
    + by rewrite Z.mod_small by lia.
Qed.

Lemma land_prefix p mask v :
  mask_ok p mask → 0 ≤ v < 2 ^ p → Z.land (mask + v) (2 ^ p - 1) = v.
Proof.
  intros (Hp & Hm0 & Hm & Hmod) Hv.
  replace (2 ^ p - 1) with (Z.ones p) by (rewrite Z.ones_equiv; lia). rewrite Z.land_ones by lia.
  rewrite <- Z.add_mod_idemp_l, Hmod by lia. rewrite Z.add_0_l. by apply Z.mod_small.
Qed.

Lemma decode_integer_wire v p mask rest :
  mask_ok p mask → uint 64 v →
  decode_integer (int_wire p mask v ++ rest) p = Ok (v, len (int_wire p mask v)).
Proof.
  intros Hm [Hv Hv']. pose proof (mask_pow _ _ Hm) as Hpow. assert (1 ≤ p ≤ 8) as Hp by apply Hm.
  unfold decode_integer.
  rewrite (proj2 (Z.leb_le 1 p)), (proj2 (Z.leb_le p 8)), max_prefix_eq by lia. cbn [andb].
  unfold int_wire. destruct (Z.ltb_spec v (2 ^ p - 1)).
  - simpl app. rewrite (proj2 (Z.eqb_neq _ 0)) by len_lia. unfold mbind, res_bind.
    rewrite (idx_ok _ 0 (mask + v)) by done. rewrite land_prefix by (done || lia).
    by rewrite (proj2 (Z.ltb_lt _ _)) by lia.
  - simpl app. rewrite (proj2 (Z.eqb_neq _ 0)) by len_lia. unfold mbind, res_bind.
    rewrite (idx_ok _ 0 (mask + (2 ^ p - 1))) by done. rewrite land_prefix by (done || lia).
    rewrite (proj2 (Z.ltb_ge _ _)) by lia.
    change 1 with (len [mask + (2 ^ p - 1)]) at 3.
    erewrite (decode_cont_wire 10 10 _ [mask + (2 ^ p - 1)] rest _ 0 (v - (2 ^ p - 1)));
      [|reflexivity|change (2 ^ (7 * Z.of_nat 10)) with (2 ^ 70); lia|lia|lia|lia|rewrite Z.pow_0_r; lia].
    f_equal. f_equal; [rewrite Z.pow_0_r; lia|len_lia].
Qed.

(** Decoding is total. *)
Definition int_result (buf : list Z) (lo : Z) (r : result (Z * Z)) : Prop :=
  match r with
  | Ok (v, n) => uint 64 v ∧ lo < n ≤ len buf
  | Err e => too_small e ∨ e = frame_encoding_error
  | Panic => False
  end.

Lemma decode_cont_total fuel buf value shift i :
  bytes_ok buf → uint 64 value → 0 ≤ i → 0 ≤ shift → 70 ≤ shift + 7 * Z.of_nat fuel → shift ≤ 63 →
  int_result buf i (decode_cont fuel buf value shift i).
Proof.
  intros Hb. revert value shift i. induction fuel as [|fuel IH]; intros value shift i Hv Hi Hs Hf Hs'; [lia|].
  cbn [decode_cont]. destruct (Z.leb_spec (len buf) i); [left; by eexists|].
  unfold mbind, res_bind. destruct (idx_no_panic (E:=Error) buf i) as [b Hbi]; [lia|]. rewrite Hbi.
  rewrite (proj2 (Z.ltb_lt shift 64)) by lia. cbn [ok_or].
  pose proof (trunc_range 64 (Z.shiftl (Z.land b 0x7f) shift) ltac:(lia)) as [Ht _].
  destruct (Z.ltb_spec (value + trunc 64 (Z.shiftl (Z.land b 0x7f) shift)) (2 ^ 64)); cbn [ok_or]; [|by right].
  destruct Hv. destruct (Z.land b 0x80 =? 0); [split; [split; lia|lia]|].
  destruct (Z.ltb_spec 63 (shift + 7)); [by right|].
  specialize (IH (value + trunc 64 (Z.shiftl (Z.land b 0x7f) shift)) (shift + 7) (i + 1)).
  destruct (decode_cont _ _ _ _ _) as [[v n]| |]; [|apply IH; [split; lia|lia..]..].
  destruct IH as [? ?]; [split; lia|lia..|]. split; [done|lia].
Qed.

Lemma decode_integer_total buf p :
  bytes_ok buf → 1 ≤ p ≤ 8 → int_result buf 0 (decode_integer buf p).
Proof.
  intros Hb Hp. unfold decode_integer.
  rewrite (proj2 (Z.leb_le 1 p)), (proj2 (Z.leb_le p 8)), max_prefix_eq by lia. cbn [andb].
  assert (2 ^ 1 ≤ 2 ^ p ≤ 2 ^ 8) by (split; apply Z.pow_le_mono_r; lia).
  destruct (Z.eqb_spec (len buf) 0); [left; by eexists|]. unfold mbind, res_bind.
  destruct (idx_no_panic (E:=Error) buf 0) as [b Hbi]; [lia|]. rewrite Hbi.
  destruct (Z.ltb_spec (Z.land b (2 ^ p - 1)) (2 ^ p - 1)).
  - assert (0 ≤ Z.land b (2 ^ p - 1)) by (apply Z.land_nonneg; lia). split; [split; lia|lia].
  - pose proof (decode_cont_total 10 buf (2 ^ p - 1) 0 1 Hb ltac:(split; lia) ltac:(lia) ltac:(lia) ltac:(lia) ltac:(lia)) as Ht.
    destruct (decode_cont _ _ _ _ _) as [[v k]| |]; [|done..]. destruct Ht. split; [done|lia].
Qed.

(** ** Properties *)

(** Integers survive the wire.  For every prefix size from 1 to 8, every mask
    above the prefix and every [u64] value, [encode_integer] writes the RFC 7541
    form into a buffer with room (and reports a short buffer otherwise), and
    [decode_integer] reads the value and the number of bytes back whatever
    follows. *)
Theorem hpack_integer_roundtrip v p mask buf :
  mask_ok p mask → uint 64 v →
  if decide (len (int_wire p mask v) ≤ len buf) then
    ∃ n buf', encode_integer v p mask buf = (Ok n, buf') ∧ decode_integer buf' p = Ok (v, n)
  else ∃ e buf', encode_integer v p mask buf = (Err e, buf') ∧ too_small e.
Proof.
  intros Hm Hv. destruct (decide _) as [Hl|Hl].
  - do 2 eexists. split; [by apply encode_integer_ok|by apply decode_integer_wire].
  - apply encode_integer_short; (done || lia).
Qed.

(** The same number of bytes can overflow without being noticed: the tenth
    continuation byte is shifted by 63, which keeps only its lowest bit, so this
    encoding of 255 + 2^64 decodes to 255. *)
Example overlong_integer_accepted :
  decode_integer [255; 0x80; 0x80; 0x80; 0x80; 0x80; 0x80; 0x80; 0x80; 0x80; 0x02] 8 = Ok (255, 11).
Proof. reflexivity. Qed.

End Integer.
