(* ===== verification/Huffman.v ===== *)
(** * Huffman coding of header strings: [src/hpack/huffman.rs]

    The code table of RFC 7541, Appendix B, the compile-time decoding tables, the
    canonical bit-walk decoder, the encoder, and the proof that they are inverse. *)
From S2P Require Import Prelude Errors Varint Cursor HpackInteger.

Module Huffman.

(** [HUFF_TABLE]: code bits and their number for the 256 bytes and EOS. *)
Definition HUFF_TABLE : list (Z * Z) := [
  (0x1ff8, 13); (0x7fffd8, 23); (0xfffffe2, 28); (0xfffffe3, 28); (0xfffffe4, 28); (0xfffffe5, 28);
  (0xfffffe6, 28); (0xfffffe7, 28); (0xfffffe8, 28); (0xffffea, 24); (0x3ffffffc, 30);
  (0xfffffe9, 28); (0xfffffea, 28); (0x3ffffffd, 30); (0xfffffeb, 28); (0xfffffec, 28);
  (0xfffffed, 28); (0xfffffee, 28); (0xfffffef, 28); (0xffffff0, 28); (0xffffff1, 28);
  (0xffffff2, 28); (0x3ffffffe, 30); (0xffffff3, 28); (0xffffff4, 28); (0xffffff5, 28);
  (0xffffff6, 28); (0xffffff7, 28); (0xffffff8, 28); (0xffffff9, 28); (0xffffffa, 28);
  (0xffffffb, 28); (0x14, 6); (0x3f8, 10); (0x3f9, 10); (0xffa, 12); (0x1ff9, 13); (0x15, 6);
  (0xf8, 8); (0x7fa, 11); (0x3fa, 10); (0x3fb, 10); (0xf9, 8); (0x7fb, 11); (0xfa, 8); (0x16, 6);
  (0x17, 6); (0x18, 6); (0x0, 5); (0x1, 5); (0x2, 5); (0x19, 6); (0x1a, 6); (0x1b, 6); (0x1c, 6);
  (0x1d, 6); (0x1e, 6); (0x1f, 6); (0x5c, 7); (0xfb, 8); (0x7ffc, 15); (0x20, 6); (0xffb, 12);
  (0x3fc, 10); (0x1ffa, 13); (0x21, 6); (0x5d, 7); (0x5e, 7); (0x5f, 7); (0x60, 7); (0x61, 7);
  (0x62, 7); (0x63, 7); (0x64, 7); (0x65, 7); (0x66, 7); (0x67, 7); (0x68, 7); (0x69, 7);
  (0x6a, 7); (0x6b, 7); (0x6c, 7); (0x6d, 7); (0x6e, 7); (0x6f, 7); (0x70, 7); (0x71, 7);
  (0x72, 7); (0xfc, 8); (0x73, 7); (0xfd, 8); (0x1ffb, 13); (0x7fff0, 19); (0x1ffc, 13);
  (0x3ffc, 14); (0x22, 6); (0x7ffd, 15); (0x3, 5); (0x23, 6); (0x4, 5); (0x24, 6); (0x5, 5);
  (0x25, 6); (0x26, 6); (0x27, 6); (0x6, 5); (0x74, 7); (0x75, 7); (0x28, 6); (0x29, 6); (0x2a, 6);
  (0x7, 5); (0x2b, 6); (0x76, 7); (0x2c, 6); (0x8, 5); (0x9, 5); (0x2d, 6); (0x77, 7); (0x78, 7);
  (0x79, 7); (0x7a, 7); (0x7b, 7); (0x7ffe, 15); (0x7fc, 11); (0x3ffd, 14); (0x1ffd, 13);
  (0xffffffc, 28); (0xfffe6, 20); (0x3fffd2, 22); (0xfffe7, 20); (0xfffe8, 20); (0x3fffd3, 22);
  (0x3fffd4, 22); (0x3fffd5, 22); (0x7fffd9, 23); (0x3fffd6, 22); (0x7fffda, 23); (0x7fffdb, 23);
  (0x7fffdc, 23); (0x7fffdd, 23); (0x7fffde, 23); (0xffffeb, 24); (0x7fffdf, 23); (0xffffec, 24);
  (0xffffed, 24); (0x3fffd7, 22); (0x7fffe0, 23); (0xffffee, 24); (0x7fffe1, 23); (0x7fffe2, 23);
  (0x7fffe3, 23); (0x7fffe4, 23); (0x1fffdc, 21); (0x3fffd8, 22); (0x7fffe5, 23); (0x3fffd9, 22);
  (0x7fffe6, 23); (0x7fffe7, 23); (0xffffef, 24); (0x3fffda, 22); (0x1fffdd, 21); (0xfffe9, 20);
  (0x3fffdb, 22); (0x3fffdc, 22); (0x7fffe8, 23); (0x7fffe9, 23); (0x1fffde, 21); (0x7fffea, 23);
  (0x3fffdd, 22); (0x3fffde, 22); (0xfffff0, 24); (0x1fffdf, 21); (0x3fffdf, 22); (0x7fffeb, 23);
  (0x7fffec, 23); (0x1fffe0, 21); (0x1fffe1, 21); (0x3fffe0, 22); (0x1fffe2, 21); (0x7fffed, 23);
  (0x3fffe1, 22); (0x7fffee, 23); (0x7fffef, 23); (0xfffea, 20); (0x3fffe2, 22); (0x3fffe3, 22);
  (0x3fffe4, 22); (0x7ffff0, 23); (0x3fffe5, 22); (0x3fffe6, 22); (0x7ffff1, 23); (0x3ffffe0, 26);
  (0x3ffffe1, 26); (0xfffeb, 20); (0x7fff1, 19); (0x3fffe7, 22); (0x7ffff2, 23); (0x3fffe8, 22);
  (0x1ffffec, 25); (0x3ffffe2, 26); (0x3ffffe3, 26); (0x3ffffe4, 26); (0x7ffffde, 27);
  (0x7ffffdf, 27); (0x3ffffe5, 26); (0xfffff1, 24); (0x1ffffed, 25); (0x7fff2, 19); (0x1fffe3, 21);
  (0x3ffffe6, 26); (0x7ffffe0, 27); (0x7ffffe1, 27); (0x3ffffe7, 26); (0x7ffffe2, 27);
  (0xfffff2, 24); (0x1fffe4, 21); (0x1fffe5, 21); (0x3ffffe8, 26); (0x3ffffe9, 26);
  (0xffffffd, 28); (0x7ffffe3, 27); (0x7ffffe4, 27); (0x7ffffe5, 27); (0xfffec, 20);
  (0xfffff3, 24); (0xfffed, 20); (0x1fffe6, 21); (0x3fffe9, 22); (0x1fffe7, 21); (0x1fffe8, 21);
  (0x7ffff3, 23); (0x3fffea, 22); (0x3fffeb, 22); (0x1ffffee, 25); (0x1ffffef, 25); (0xfffff4, 24);
  (0xfffff5, 24); (0x3ffffea, 26); (0x7ffff4, 23); (0x3ffffeb, 26); (0x7ffffe6, 27);
  (0x3ffffec, 26); (0x3ffffed, 26); (0x7ffffe7, 27); (0x7ffffe8, 27); (0x7ffffe9, 27);
  (0x7ffffea, 27); (0x7ffffeb, 27); (0xffffffe, 28); (0x7ffffec, 27); (0x7ffffed, 27);
  (0x7ffffee, 27); (0x7ffffef, 27); (0x7fffff0, 27); (0x3ffffee, 26); (0x3fffffff, 30)].

(** ** Compile-time tables *)

(** [LEN_COUNT]: the loop that counts the codes of each length. *)
Definition len_count_loop : list Z :=
  foldl (λ count e, alter (Z.add 1) (Z.to_nat e.2) count) (replicate 31 0) HUFF_TABLE.
Definition LEN_COUNT : list Z := Eval vm_compute in len_count_loop.

(** [SYMBOLS]: for each length the symbols whose codes are the consecutive
    integers from [code] on. *)
Fixpoint symbols_loop (lens : nat) (ln code : Z) : list Z :=
  match lens with
  | O => []
  | S lens =>
      let count := default 0 (len_count_loop !! Z.to_nat ln) in
      concat ((λ c, match position (λ e : Z * Z, (e.2 =? ln) && (e.1 =? code + c)) HUFF_TABLE with
                    | Some s => [Z.of_nat s]
                    | None => []
                    end) <$> seqZ 0 count) ++
      symbols_loop lens (ln + 1) (Z.shiftl (code + count) 1)
  end.
Definition SYMBOLS : list Z := Eval vm_compute in symbols_loop 30 1 0.

(** ** Decoding *)

Definition decompression_failed : Error := Http3 H3Error.QpackDecompressionFailed.

(** The [while len < max] loop of [decode_one]; [fuel] is [max - len]. *)
Fixpoint decode_one_loop (fuel : nat) (acc acc_len code first index ln : Z) : result (option (Z * Z)) :=
  match fuel with
  | O => Ok None
  | S fuel =>
      let bit := Z.land (Z.shiftr acc (acc_len - 1 - ln)) 1 in
      let ln := ln + 1 in
      let code := Z.lor (Z.shiftl code 1) bit in
      count ← idx LEN_COUNT ln;
      if trunc 32 (code - first) <? count then
        sym ← idx SYMBOLS (index + (code - first)); Ok (Some (sym, ln))
      else decode_one_loop fuel acc acc_len code (Z.shiftl (first + count) 1) (index + count) ln
  end.
Definition decode_one (acc acc_len : Z) : result (option (Z * Z)) :=
  decode_one_loop (Z.to_nat (if acc_len <? 30 then acc_len else 30)) acc acc_len 0 0 0 0.

(** The [while acc_len >= 5] loop: the new accumulator and its length.  Every
    iteration uses at least one bit, so [fuel = acc_len] suffices. *)
Fixpoint emit_loop (fuel : nat) (acc acc_len : Z) : writer (Z * Z) :=
  match fuel with
  | O => lift Panic
  | S fuel =>
      if acc_len <? 5 then mret (acc, acc_len) else
      o ← lift (decode_one acc acc_len);
      match o with
      | Some (sym, used) =>
          if sym =? 256 then throw decompression_failed else
          _ ← Integer.check_room;
          _ ← put_u8 (trunc 8 sym);
          acc_len ← lift (usub acc_len used);
          emit_loop fuel (Z.land acc (Z.shiftl 1 acc_len - 1)) acc_len
      | None => if 30 <=? acc_len then throw decompression_failed else mret (acc, acc_len)
      end
  end.

Fixpoint decode_bytes (src : list Z) (acc acc_len : Z) : writer (Z * Z) :=
  match src with
  | [] => mret (acc, acc_len)
  | byte :: src' =>
      let acc := Z.lor (trunc 64 (Z.shiftl acc 8)) byte in
      let acc_len := acc_len + 8 in
      st ← emit_loop (S (Z.to_nat acc_len)) acc acc_len;
      decode_bytes src' st.1 st.2
  end.

Definition check_padding (acc acc_len : Z) : result unit :=
  if 7 <? acc_len then Err decompression_failed
  else if 0 <? acc_len then
    let mask := Z.shiftl 1 acc_len - 1 in
    if negb (Z.land acc mask =? mask) then Err decompression_failed else Ok tt
  else Ok tt.

Definition decode (src : list Z) : M Error (list Z) Z :=
  if len src =? 0 then mret 0 else
  from_start (st ← decode_bytes src 0 0; lift (check_padding st.1 st.2)).

(** ** Encoding *)

(** The [while bit_count >= 8] loop; [bit_count] is at most 37, so eight
    iterations are more than enough. *)
Fixpoint flush_loop (fuel : nat) (bit_buf bit_count : Z) : writer (Z * Z) :=
  match fuel with
  | O => lift Panic
  | S fuel =>
      if bit_count <? 8 then mret (bit_buf, bit_count) else
      let bit_count := bit_count - 8 in
      let out_byte := trunc 8 (Z.shiftr bit_buf bit_count) in
      _ ← Integer.check_room;
      _ ← put_u8 out_byte;
      flush_loop fuel (Z.land bit_buf (Z.shiftl 1 bit_count - 1)) bit_count
  end.

Fixpoint encode_bytes (src : list Z) (bit_buf bit_count : Z) : writer (Z * Z) :=
  match src with
  | [] => mret (bit_buf, bit_count)
  | byte :: src' =>
      entry ← lift (idx HUFF_TABLE byte);
      let bit_buf := Z.lor (trunc 64 (Z.shiftl bit_buf entry.2)) entry.1 in
      st ← flush_loop 8 bit_buf (bit_count + entry.2);
      encode_bytes src' st.1 st.2
  end.

Definition pad_last (bit_buf bit_count : Z) : writer unit :=
  if 0 <? bit_count then
    let padded := Z.lor (Z.shiftl bit_buf (8 - bit_count)) (Z.shiftl 1 (8 - bit_count) - 1) in
    _ ← Integer.check_room;
    put_u8 (trunc 8 padded)
  else mret tt.

Definition encode (src : list Z) : M Error (list Z) Z :=
  if len src =? 0 then mret 0 else
  from_start (st ← encode_bytes src 0 0; pad_last st.1 st.2).

Definition total_bits (src : list Z) : result Z :=
  foldl (λ acc byte, t ← acc; e ← idx HUFF_TABLE byte; Ok (t + e.2)) (Ok 0) src.
(** [total_bits.div_ceil(8)]. *)
Definition encoded_len (src : list Z) : result Z := t ← total_bits src; Ok ((t + 7) / 8).

(** ** Bit strings *)

(** The value of a bit string, most significant bit first: the accumulators hold
    [val] of the pending bits. *)
Fixpoint val_from (a : Z) (l : list bool) : Z :=
  match l with [] => a | b :: l' => val_from (2 * a + Z.b2z b) l' end.
Definition val (l : list bool) : Z := val_from 0 l.

(** The [n] low bits of [v], most significant first. *)
Fixpoint bits (n : nat) (v : Z) : list bool :=
  match n with O => [] | S n' => Z.testbit v (Z.of_nat n') :: bits n' v end.

Lemma length_bits n v : length (bits n v) = n.
Proof. induction n; simpl; congruence. Qed.
#[local] Hint Rewrite length_bits : len.

Lemma val_from_eq a l : val_from a l = a * 2 ^ len l + val l.
Proof.
  unfold val. revert a. induction l as [|b l IH]; intros a; [simpl; lia|]. cbn [val_from].
  rewrite (IH (2 * a + _)), (IH (2 * 0 + _)). simpl length. rewrite Nat2Z.inj_succ, Z.pow_succ_r by lia. lia.
Qed.

Lemma val_cons b l : val (b :: l) = Z.b2z b * 2 ^ len l + val l.
Proof. unfold val at 1. simpl. by rewrite val_from_eq. Qed.

Lemma val_app l l' : val (l ++ l') = val l * 2 ^ len l' + val l'.
Proof.
  induction l as [|b l IH]; simpl app; [unfold val; simpl; lia|].
  rewrite !val_cons, IH, length_app, Nat2Z.inj_add, Z.pow_add_r by lia. lia.
Qed.

Lemma val_bound l : 0 ≤ val l < 2 ^ len l.
Proof.
  induction l as [|b l IH]; [unfold val; simpl; lia|]. rewrite val_cons. simpl length.
  rewrite Nat2Z.inj_succ, Z.pow_succ_r by lia. destruct b; simpl Z.b2z; lia.
Qed.

Lemma val_bits n v : 0 ≤ v < 2 ^ Z.of_nat n → val (bits n v) = v.
Proof.
  revert v. induction n as [|n IH]; intros v Hv; [simpl in *; unfold val; simpl; lia|].
  cbn [bits]. rewrite val_cons, length_bits.
  rewrite Nat2Z.inj_succ, Z.pow_succ_r in Hv by lia.
  assert (0 < 2 ^ Z.of_nat n) by (apply Z.pow_pos_nonneg; lia).
  assert (bits n v = bits n (v mod 2 ^ Z.of_nat n)) as ->.
  { clear. assert (∀ k, (k ≤ n)%nat → bits k v = bits k (v mod 2 ^ Z.of_nat n)) as Hk; [|by apply Hk].
    induction k as [|k IH]; intros Hk; simpl; [done|]. rewrite IH by lia.
    by rewrite Z.mod_pow2_bits_low by lia. }
  rewrite IH by (apply Z.mod_pos_bound; lia). rewrite Z.testbit_spec' by lia.
  rewrite (Z.mod_small (v / _)) by (split; [apply Z.div_pos; lia|apply Z.div_lt_upper_bound; lia]).
  rewrite (Z.div_mod v (2 ^ Z.of_nat n)) at 3 by lia. lia.
Qed.

Lemma val_ones n : val (replicate n true) = 2 ^ Z.of_nat n - 1.
Proof.
  induction n as [|n IH]; [done|]. cbn [replicate]. rewrite val_cons, IH, length_replicate.
  simpl Z.b2z. rewrite Nat2Z.inj_succ, Z.pow_succ_r by lia. lia.
Qed.

(** What the accumulator operations do to the pending bits. *)
Lemma acc_push l l' :
  len l + len l' ≤ 64 → Z.lor (trunc 64 (Z.shiftl (val l) (len l'))) (val l') = val (l ++ l').
Proof.
  intros Hl. pose proof (val_bound l). pose proof (val_bound l').
  assert (0 < 2 ^ len l') by (apply Z.pow_pos_nonneg; lia).
  rewrite Z.shiftl_mul_pow2 by lia.
  assert (2 ^ len l * 2 ^ len l' ≤ 2 ^ 64) by (rewrite <- Z.pow_add_r by lia; apply Z.pow_le_mono_r; lia).
  rewrite trunc_small by (unfold uint; nia). rewrite val_app.
  apply (lor_disjoint_add _ _ (len l')); [lia|by rewrite Z.mod_mul by lia|lia].
Qed.
Lemma acc_drop l l' : Z.land (val (l ++ l')) (Z.shiftl 1 (len l') - 1) = val l'.
Proof.
  pose proof (val_bound l').
  replace (Z.shiftl 1 (len l') - 1) with (Z.ones (len l')) by (rewrite Z.ones_equiv, Z.shiftl_1_l; lia).
  rewrite Z.land_ones by lia.
  rewrite val_app, Z.add_comm, Z.mod_add by lia. by apply Z.mod_small.
Qed.
Lemma acc_top l l' : Z.shiftr (val (l ++ l')) (len l') = val l.
Proof.
  pose proof (val_bound l'). rewrite Z.shiftr_div_pow2, val_app by lia.
  rewrite Z.div_add_l by lia. rewrite Z.div_small by lia. lia.
Qed.
Lemma acc_bit l b l' :
  Z.land (Z.shiftr (val (l ++ b :: l')) (len (l ++ b :: l') - 1 - len l)) 1 = Z.b2z b.
Proof.
  replace (len (l ++ b :: l') - 1 - len l) with (len l') by len_lia.
  change (l ++ b :: l') with (l ++ [b] ++ l'). rewrite app_assoc, acc_top.
  change 1 with (Z.ones 1). rewrite Z.land_ones by lia. change (2 ^ 1) with 2.
  rewrite val_app. simpl length. change (2 ^ Z.of_nat 1) with 2. rewrite Z.add_comm, Z.mod_add by lia.
  by destruct b.
Qed.

(** ** The bit walk *)

(** [decode_one] as a fold over the bits. *)
Inductive walk_state := More (code first index ln : Z) | Found (sym ln : Z) | Stuck.

Definition walk_step (st : walk_state) (b : bool) : walk_state :=
  match st with
  | More code first index ln =>
      let ln := ln + 1 in
      let code := 2 * code + Z.b2z b in
      match idx (E:=Error) LEN_COUNT ln with
      | Ok count =>
          if trunc 32 (code - first) <? count then
            match idx (E:=Error) SYMBOLS (index + (code - first)) with
            | Ok sym => Found sym ln
            | _ => Stuck
            end
          else More code (2 * (first + count)) (index + count) ln
      | _ => Stuck
      end
  | _ => st
  end.
Definition walk : list bool → walk_state := foldl walk_step (More 0 0 0 0).

Definition walk_result (st : walk_state) : result (option (Z * Z)) :=
  match st with More _ _ _ _ => Ok None | Found s n => Ok (Some (s, n)) | Stuck => Panic end.

Lemma walk_found l s n : foldl walk_step (Found s n) l = Found s n.
Proof. by induction l. Qed.
Lemma walk_stuck l : foldl walk_step Stuck l = Stuck.
Proof. by induction l. Qed.

Lemma decode_one_loop_walk fuel l r code first index :
  0 ≤ code → (fuel ≤ length r)%nat →
  decode_one_loop fuel (val (l ++ r)) (len (l ++ r)) code first index (len l) =
  walk_result (foldl walk_step (More code first index (len l)) (take fuel r)).
Proof.
  revert l r code first index. induction fuel as [|fuel IH]; intros l r code first index Hc Hf; [done|].
  destruct r as [|b r]; [simpl in Hf; lia|]. cbn [decode_one_loop take foldl].
  rewrite acc_bit. assert (Z.lor (Z.shiftl code 1) (Z.b2z b) = 2 * code + Z.b2z b) as ->.
  { rewrite Z.shiftl_mul_pow2 by lia. change (2 ^ 1) with 2.
    rewrite (lor_disjoint_add _ _ 1); [lia|lia|by rewrite Z.mod_mul|destruct b; simpl; lia]. }
  unfold mbind, res_bind. cbn [walk_step].
  destruct (idx LEN_COUNT (len l + 1)) as [count|e|] eqn:Hcount;
    [|by apply idx_not_err in Hcount|by rewrite walk_stuck].
  destruct (trunc 32 _ <? count).
  - destruct (idx SYMBOLS _) as [sym|e|] eqn:Hsym;
      [by rewrite walk_found|by apply idx_not_err in Hsym|by rewrite walk_stuck].
  - rewrite Z.shiftl_mul_pow2 by lia. change (2 ^ 1) with 2.
    replace (l ++ b :: r) with ((l ++ [b]) ++ r) by by rewrite <- app_assoc.
    replace (len l + 1) with (len (l ++ [b])) by len_lia. rewrite (Z.mul_comm (first + count)).
    apply IH; [destruct b; simpl; lia|simpl in Hf; lia].
Qed.

Lemma decode_one_walk l : decode_one (val l) (len l) = walk_result (walk (take 30 l)).
Proof.
  unfold decode_one. set (n := Z.to_nat _).
  assert (n = Nat.min (length l) 30) as Hn by (subst n; destruct (Z.ltb_spec (len l) 30); lia).
  etrans; [apply (decode_one_loop_walk n [] l 0 0 0); lia|]. f_equal. unfold walk. f_equal.
  rewrite Hn. destruct (decide (length l ≤ 30)%nat); [rewrite !take_ge by lia; done|].
  by replace (Nat.min (length l) 30) with 30%nat by lia.
Qed.

(** ** Codes *)

Definition code_of (s : Z) : Z * Z := default (0, 0) (HUFF_TABLE !! Z.to_nat s).
Definition code_bits (s : Z) : list bool := bits (Z.to_nat (code_of s).2) (code_of s).1.

(** The table is a prefix code that the walk decodes, checked by computation. *)
Definition code_ok (s : Z) : bool :=
  match walk (code_bits s) with
  | Found s' n => (s' =? s) && (n =? (code_of s).2)
  | _ => false
  end && (5 <=? (code_of s).2) && ((code_of s).2 <=? 30) &&
  (0 <=? (code_of s).1) && ((code_of s).1 <? 2 ^ (code_of s).2).

Lemma codes_ok s : byte_ok s → code_ok s = true.
Proof. apply byte_forall. vm_compute. reflexivity. Qed.

Lemma code_facts s :
  byte_ok s → walk (code_bits s) = Found s (len (code_bits s)) ∧ 5 ≤ len (code_bits s) ≤ 30 ∧
    idx (E:=Error) HUFF_TABLE s = Ok (val (code_bits s), len (code_bits s)).
Proof.
  intros Hs. pose proof (codes_ok s Hs) as Hok. unfold code_ok in Hok. unfold byte_ok in Hs.
  rewrite !andb_true_iff, !Z.leb_le, Z.ltb_lt in Hok. destruct Hok as ((((Hw & H5) & H30) & H0) & Hb).
  unfold code_bits in *. rewrite length_bits, Z2Nat.id, val_bits by (rewrite ?Z2Nat.id; lia).
  destruct (walk _) as [|s' n|]; [done| |done].
  apply andb_true_iff in Hw as [->%Z.eqb_eq ->%Z.eqb_eq]. split; [done|]. split; [lia|].
  destruct (idx_no_panic (E:=Error) HUFF_TABLE s) as [e He]; [change (len HUFF_TABLE) with 257; lia|].
  rewrite He. apply idx_lookup in He. unfold code_of. rewrite He. by destruct e.
Qed.

Lemma decode_one_full s r :
  byte_ok s → decode_one (val (code_bits s ++ r)) (len (code_bits s ++ r)) = Ok (Some (s, len (code_bits s))).
Proof.
  intros Hs. destruct (code_facts s Hs) as (Hw & Hl & _). rewrite decode_one_walk.
  rewrite take_app_ge by lia. unfold walk in *. by rewrite foldl_app, Hw, walk_found.
Qed.

Lemma walk_len l c f i k s n : foldl walk_step (More c f i k) l = Found s n → n ≤ k + len l.
Proof.
  revert c f i k. induction l as [|b l IH]; intros c f i k; [done|]. cbn [foldl walk_step].
  destruct (idx LEN_COUNT (k + 1)) as [count|e|]; [|by rewrite walk_stuck..].
  destruct (_ <? count); [|intros ?%IH; simpl length; lia].
  destruct (idx SYMBOLS _); [|by rewrite walk_stuck..]. rewrite walk_found. intros [= <- <-]. simpl length. lia.
Qed.

Lemma decode_one_prefix s l r :
  byte_ok s → code_bits s = l ++ r → r ≠ [] → decode_one (val l) (len l) = Ok None.
Proof.
  intros Hs Hc Hr. destruct (code_facts s Hs) as (Hw & Hl & _). rewrite Hc in Hw, Hl.
  assert (0 < len r) by (destruct r; [done|simpl; lia]). rewrite length_app in Hl.
  rewrite decode_one_walk, take_ge by lia.
  unfold walk in *. rewrite foldl_app in Hw. destruct (foldl _ _ l) as [|s' n|] eqn:Hl'; [done| |].
  - rewrite walk_found in Hw. injection Hw as -> Hn. apply walk_len in Hl'. len_lia.
  - by rewrite walk_stuck in Hw.
Qed.

Lemma decode_one_ones k : (k ≤ 7)%nat → decode_one (val (replicate k true)) (Z.of_nat k) = Ok None.
Proof.
  intros Hk. assert (k ∈ seq 0 8) as Hin by (apply elem_of_seq; lia).
  revert k Hk Hin. assert (Forall (λ k, decode_one (val (replicate k true)) (Z.of_nat k) = Ok None) (seq 0 8)) as Hall.
  { repeat constructor. }
  rewrite Forall_forall in Hall. auto.
Qed.

(** ** Decoding a stream of codes *)

Definition codes (src : list Z) : list bool := concat (code_bits <$> src).
Definition stream (bytes : list Z) : list bool := concat (bits 8 <$> bytes).
Definition ones (k : nat) : list bool := replicate k true.

Lemma codes_cons s src : codes (s :: src) = code_bits s ++ codes src.
Proof. done. Qed.
Lemma stream_cons b bytes : stream (b :: bytes) = bits 8 b ++ stream bytes.
Proof. done. Qed.

(** The pending bits do not contain the next code. *)
Definition pending (src : list Z) (P : list bool) : Prop :=
  match src with [] => True | s :: _ => (length P < length (code_bits s))%nat end.

Lemma prefix_ones P F k : P ++ F = ones k → P = ones (length P) ∧ (length P ≤ k)%nat.
Proof.
  intros He. assert (length P ≤ k)%nat by (apply (f_equal length) in He; unfold ones in He; len_lia).
  split; [|done]. apply (f_equal (take (length P))) in He. rewrite take_app_length in He.
  rewrite He at 1. unfold ones. rewrite take_replicate. f_equal. lia.
Qed.

Lemma emit_loop_spec fuel src P F k :
  Forall byte_ok src → (k ≤ 7)%nat → P ++ F = codes src ++ ones k → (length P < fuel)%nat →
  ∃ src1 src2 P', src = src1 ++ src2 ∧ P' ++ F = codes src2 ++ ones k ∧ pending src2 P' ∧
    Emits (emit_loop fuel (val P) (len P)) src1 (val P', len P').
Proof.
  intros Hsrc Hk. revert src P Hsrc. induction fuel as [|fuel IH]; intros src P Hsrc Heq Hf; [lia|].
  cbn [emit_loop]. destruct (Z.ltb_spec (len P) 5) as [H5|H5].
  { exists [], src, P. split_and!; try done; [|apply Emits_ret].
    destruct Hsrc as [|s src Hs _]; [done|]. destruct (code_facts s Hs) as (_ & ? & _). simpl. lia. }
  destruct Hsrc as [|s src Hs Hsrc].
  - destruct (prefix_ones P F k Heq) as [HP Hlen]. exists [], [], P. split_and!; try done.
    eapply Emits_lift; [rewrite HP; unfold ones; rewrite length_replicate; apply decode_one_ones; lia|].
    cbv iota beta. rewrite (proj2 (Z.leb_gt _ _)) by lia. apply Emits_ret.
  - destruct (code_facts s Hs) as (_ & Hl & _). rewrite codes_cons, <- app_assoc in Heq.
    assert ((∃ P1, P = code_bits s ++ P1 ∧ P1 ++ F = codes src ++ ones k) ∨
      (∃ r, code_bits s = P ++ r ∧ r ≠ [])) as [(P1 & -> & HF)|(r & Hr & Hne)].
    { destruct (app_eq_inv _ _ _ _ Heq) as [(P1 & ? & HF)|(r & Hr & HF)]; [left; eauto|].
      destruct r; [left; exists []; by rewrite app_nil_r in *|right; eauto]. }
    + destruct (IH src P1 Hsrc HF) as (src1 & src2 & P' & -> & Heq' & Hpend & Hem);
        [rewrite length_app in Hf; lia|].
      exists (s :: src1), src2, P'. split_and!; try done.
      eapply Emits_lift; [by apply decode_one_full|]. cbv iota beta.
      unfold byte_ok in Hs. rewrite (proj2 (Z.eqb_neq s 256)), trunc_small by (unfold uint; lia).
      apply Integer.Emits_checked_then. eapply Emits_lift; [apply usub_ok; len_lia|].
      replace (len (code_bits s ++ P1) - len (code_bits s)) with (len P1) by len_lia.
      by rewrite acc_drop.
    + exists [], (s :: src), P. assert (length P < length (code_bits s))%nat as Hlt
        by (rewrite Hr, length_app; destruct r; [done|simpl; lia]).
      split_and!; [done| |done|].
      * by rewrite codes_cons, <- app_assoc.
      * eapply Emits_lift; [by eapply decode_one_prefix|]. cbv iota beta.
        rewrite (proj2 (Z.leb_gt _ _)) by lia. apply Emits_ret.
Qed.

Lemma val_bits8 b : byte_ok b → val (bits 8 b) = b.
Proof. intros Hb. by apply val_bits. Qed.

Lemma decode_bytes_spec bytes src P k :
  Forall byte_ok src → bytes_ok bytes → (k ≤ 7)%nat → (length P ≤ 29)%nat →
  P ++ stream bytes = codes src ++ ones k → pending src P →
  Emits (decode_bytes bytes (val P) (len P)) src (val (ones k), Z.of_nat k).
Proof.
  intros Hsrc Hb Hk. revert src P Hsrc. induction Hb as [|b bytes Hb Hbs IH]; intros src P Hsrc HP Heq Hpend.
  - unfold stream in Heq. simpl in Heq. rewrite app_nil_r in Heq. destruct src as [|s src].
    + simpl in Heq. subst P. unfold ones at 2. rewrite length_replicate. apply Emits_ret.
    + exfalso. simpl in Hpend. rewrite Heq, codes_cons in Hpend. len_lia.
  - rewrite stream_cons, app_assoc in Heq.
    cbn [decode_bytes]. pose proof (acc_push P (bits 8 b) ltac:(len_lia)) as Hpush.
    rewrite length_bits, (val_bits8 b Hb) in Hpush. change (Z.of_nat 8) with 8 in Hpush. rewrite Hpush.
    replace (len P + 8) with (len (P ++ bits 8 b)) by len_lia.
    destruct (emit_loop_spec (S (Z.to_nat (len (P ++ bits 8 b)))) src (P ++ bits 8 b) (stream bytes) k)
      as (src1 & src2 & P' & -> & Heq' & Hpend' & Hem); [done|done|done|lia|].
    apply Forall_app in Hsrc as [_ Hsrc2].
    eapply Emits_bind; [exact Hem|]. apply IH; try done.
    destruct Hsrc2 as [|s src2 Hs _]; [by apply prefix_ones in Heq' as [_ ?]; lia|].
    destruct (code_facts s Hs) as (_ & ? & _). simpl in Hpend'. lia.
Qed.

Lemma check_padding_ones k : (k ≤ 7)%nat → check_padding (val (ones k)) (Z.of_nat k) = Ok tt.
Proof.
  intros Hk. unfold check_padding. rewrite (proj2 (Z.ltb_ge 7 _)) by lia.
  destruct (Z.ltb_spec 0 (Z.of_nat k)); [|done].
  pose proof (acc_drop [] (ones k)) as Hd. simpl app in Hd. unfold ones in *. rewrite length_replicate in Hd.
  rewrite Hd, val_ones, Z.shiftl_1_l. by rewrite Z.eqb_refl.
Qed.

(** ** Encoding *)

Lemma bits_val l : bits (length l) (val l) = l.
Proof.
  induction l as [|b l IH]; [done|]. cbn [length bits]. rewrite val_cons. pose proof (val_bound l) as Hv. f_equal.
  - rewrite <- (Z.add_0_l (len l)) at 2. rewrite <- Z.shiftr_spec, Z.shiftr_div_pow2 by lia.
    rewrite Z.div_add_l, Z.div_small by lia. by destruct b.
  - etrans; [|exact IH]. assert (∀ k, (k ≤ length l)%nat →
      bits k (Z.b2z b * 2 ^ len l + val l) = bits k (val l)) as Hk; [|by apply Hk].
    induction k as [|k IHk]; intros Hk; simpl; [done|]. rewrite IHk by lia. f_equal.
    rewrite <- (Z.mod_pow2_bits_low (_ + _) (len l)) by lia.
    rewrite Z.add_comm, Z.mod_add by lia. by rewrite Z.mod_small by lia.
Qed.

Lemma flush_loop_spec fuel P :
  len P < 8 * Z.of_nat fuel →
  ∃ bytes P', P = stream bytes ++ P' ∧ (length P' < 8)%nat ∧ bytes_ok bytes ∧
    Emits (flush_loop fuel (val P) (len P)) bytes (val P', len P').
Proof.
  revert P. induction fuel as [|fuel IH]; intros P Hf; [lia|]. cbn [flush_loop].
  destruct (Z.ltb_spec (len P) 8) as [H8|H8].
  { exists [], P. split_and!; [done|lia|constructor|apply Emits_ret]. }
  destruct (IH (drop 8 P)) as (bytes & P' & Heq & HP' & Hb & Hem); [len_lia|].
  assert (length (take 8 P) = 8%nat) as Ht by len_lia.
  pose proof (val_bound (take 8 P)) as Hv. rewrite Ht in Hv. change (2 ^ Z.of_nat 8) with 256 in Hv.
  exists (val (take 8 P) :: bytes), P'. split_and!.
  - rewrite stream_cons. rewrite <- Ht at 1. by rewrite bits_val, <- app_assoc, <- Heq, take_drop.
  - done.
  - by constructor.
  - pose proof (acc_top (take 8 P) (drop 8 P)) as Htop. pose proof (acc_drop (take 8 P) (drop 8 P)) as Hd.
    rewrite take_drop in Htop, Hd. replace (len (drop 8 P)) with (len P - 8) in Htop, Hd by len_lia.
    rewrite Htop, Hd, trunc_small by (unfold uint; lia). apply Integer.Emits_checked_then.
    by replace (len P - 8) with (len (drop 8 P)) by len_lia.
Qed.

Lemma stream_app a b : stream (a ++ b) = stream a ++ stream b.
Proof. unfold stream. by rewrite fmap_app, concat_app. Qed.

Lemma encode_bytes_spec src P :
  Forall byte_ok src → (length P < 8)%nat →
  ∃ bytes P', P ++ codes src = stream bytes ++ P' ∧ (length P' < 8)%nat ∧ bytes_ok bytes ∧
    Emits (encode_bytes src (val P) (len P)) bytes (val P', len P').
Proof.
  intros Hsrc. revert P. induction Hsrc as [|s src Hs Hsrc IH]; intros P HP.
  - exists [], P. unfold codes, stream. simpl. rewrite app_nil_r. split_and!; [done|done|constructor|apply Emits_ret].
  - destruct (code_facts s Hs) as (_ & Hl & Hidx).
    destruct (flush_loop_spec 8 (P ++ code_bits s)) as (b1 & P1 & Heq1 & HP1 & Hb1 & He1); [len_lia|].
    destruct (IH P1 HP1) as (b2 & P2 & Heq2 & HP2 & Hb2 & He2).
    exists (b1 ++ b2), P2. split_and!; [|done|by apply Forall_app|].
    + rewrite codes_cons, app_assoc, Heq1, <- app_assoc, Heq2, stream_app.
      by rewrite <- app_assoc.
    + cbn [encode_bytes]. eapply Emits_lift; [exact Hidx|]. cbn [fst snd].
      rewrite acc_push by len_lia.
      replace (len P + len (code_bits s)) with (len (P ++ code_bits s)) by len_lia.
      eapply Emits_bind; [exact He1|exact He2].
Qed.

Lemma pad_last_spec P :
  (length P < 8)%nat →
  ∃ bytes k, P ++ ones k = stream bytes ∧ (k ≤ 7)%nat ∧ bytes_ok bytes ∧
    Emits (pad_last (val P) (len P)) bytes tt.
Proof.
  intros HP. unfold pad_last. destruct (Z.ltb_spec 0 (len P)) as [H0|H0].
  - set (Q := P ++ ones (8 - length P)). assert (length Q = 8%nat) as HQ by (subst Q; unfold ones; len_lia).
    pose proof (val_bound Q) as Hv. rewrite HQ in Hv. change (2 ^ Z.of_nat 8) with 256 in Hv.
    exists [val Q], (8 - length P)%nat. split_and!; [|lia|constructor; [exact Hv|constructor]|].
    + pose proof (bits_val Q) as Hbv. rewrite HQ in Hbv. rewrite stream_cons, Hbv.
      unfold stream. simpl. by rewrite app_nil_r.
    + assert (Z.lor (Z.shiftl (val P) (8 - len P)) (Z.shiftl 1 (8 - len P) - 1) = val Q) as ->.
      { subst Q. assert (8 - len P = len (ones (8 - length P))) as -> by (unfold ones; len_lia).
        pose proof (acc_push P (ones (8 - length P)) ltac:(unfold ones; len_lia)) as Hp.
        rewrite trunc_small in Hp.
        2:{ pose proof (val_bound P). rewrite Z.shiftl_mul_pow2 by lia. unfold uint.
            assert (2 ^ len P * 2 ^ len (ones (8 - length P)) = 256) as H256.
            { rewrite <- Z.pow_add_r by lia. unfold ones. rewrite length_replicate.
              by replace (len P + _) with 8 by lia. }
            assert (0 < 2 ^ len (ones (8 - length P))) by (apply Z.pow_pos_nonneg; lia). nia. }
        rewrite <- Hp. f_equal. unfold ones. rewrite val_ones, Z.shiftl_1_l, length_replicate. done. }
      rewrite trunc_small by (unfold uint; lia). apply Integer.Emits_checked.
  - exists [], 0%nat. destruct P; [|simpl in H0; lia]. split_and!; [done|lia|constructor|apply Emits_ret].
Qed.

(** The encoded form of [src], with its padding. *)
Lemma encode_stream_bits src :
  bytes_ok src → src ≠ [] →
  ∃ bytes k, stream bytes = codes src ++ ones k ∧ (k ≤ 7)%nat ∧ bytes_ok bytes ∧
    ∀ buf, len bytes ≤ len buf → encode src buf = (Ok (len bytes), bytes ++ drop (length bytes) buf).
Proof.
  intros Hsrc Hne. destruct (encode_bytes_spec src [] Hsrc) as (b1 & P & Heq1 & HP & Hb1 & He1); [simpl; lia|].
  destruct (pad_last_spec P HP) as (b2 & k & Heq2 & Hk & Hb2 & He2).
  exists (b1 ++ b2), k. split_and!.
  - simpl in Heq1. by rewrite Heq1, stream_app, <- Heq2, <- app_assoc.
  - done.
  - by apply Forall_app.
  - intros buf Hl. unfold encode. rewrite (proj2 (Z.eqb_neq _ 0)) by (destruct src; [done|simpl; lia]).
    apply Puts_start; [|done]. exact (Emits_bind _ _ _ _ _ tt He1 He2).
Qed.

Lemma decode_stream_bits bytes src k buf :
  bytes_ok src → bytes_ok bytes → bytes ≠ [] → stream bytes = codes src ++ ones k → (k ≤ 7)%nat →
  len src ≤ len buf → decode bytes buf = (Ok (len src), src ++ drop (length src) buf).
Proof.
  intros Hsrc Hb Hne Heq Hk Hl. unfold decode.
  rewrite (proj2 (Z.eqb_neq _ 0)) by (destruct bytes; [done|simpl; lia]).
  apply Puts_start; [|done]. rewrite <- (app_nil_r src). eapply Emits_bind.
  - apply (decode_bytes_spec bytes src [] k); try done; [simpl; lia|].
    destruct Hsrc as [|s src Hs _]; [done|]. destruct (code_facts s Hs) as (_ & ? & _). simpl. lia.
  - cbn [fst snd]. rewrite check_padding_ones by done. apply Emits_ret.
Qed.

Lemma total_bits_eq src a :
  bytes_ok src →
  foldl (λ acc byte, t ← acc; e ← idx HUFF_TABLE byte; Ok (t + e.2)) (Ok (E:=Error) a) src =
  Ok (a + len (codes src)).
Proof.
  intros Hsrc. revert a. induction Hsrc as [|s src Hs Hsrc IH]; intros a; [simpl; f_equal; lia|].
  cbn [foldl]. destruct (code_facts s Hs) as (_ & _ & Hidx). unfold mbind, res_bind in *. rewrite Hidx.
  rewrite IH, codes_cons. f_equal. cbn [snd]. len_lia.
Qed.

Lemma encoded_len_eq src bytes k :
  bytes_ok src → stream bytes = codes src ++ ones k → (k ≤ 7)%nat → encoded_len src = Ok (len bytes).
Proof.
  intros Hsrc Heq Hk. unfold encoded_len, total_bits. rewrite total_bits_eq by done.
  unfold mbind, res_bind. f_equal.
  assert (len (stream bytes) = 8 * len bytes) as Hs.
  { clear. induction bytes as [|b bytes IH]; [done|]. rewrite stream_cons, length_app, length_bits.
    simpl length. lia. }
  rewrite Heq in Hs. unfold ones in Hs. rewrite length_app, length_replicate in Hs. div_lia.
Qed.

(** ** Totality of the decoder *)

(** The first code and the first symbol index after [k] bits. *)
Fixpoint level (k : nat) : Z * Z :=
  match k with
  | O => (0, 0)
  | S k' => let c := default 0 (LEN_COUNT !! k) in let p := level k' in (2 * (p.1 + c), p.2 + c)
  end.

Definition level_ok (k : nat) : bool :=
  let c := default 0 (LEN_COUNT !! S k) in
  (0 <=? (level k).1) && ((level k).1 <? 2 ^ 31) && (0 <=? (level k).2) && (0 <=? c) && ((level k).2 + c <=? 257).

Lemma levels_ok k : (k < 30)%nat → level_ok k = true.
Proof.
  intros Hk. assert (forallb level_ok (seq 0 30) = true) as Hall by (vm_compute; reflexivity).
  rewrite forallb_forall in Hall. apply Hall, in_seq. lia.
Qed.

Lemma symbols_range i : 0 ≤ i < 257 → ∃ s, idx (E:=Error) SYMBOLS i = Ok s ∧ 0 ≤ s ≤ 256.
Proof.
  intros Hi. destruct (idx_no_panic (E:=Error) SYMBOLS i) as [s Hs]; [change (len SYMBOLS) with 257; lia|].
  exists s. split; [done|]. apply idx_lookup in Hs.
  assert (Forall (λ s, 0 ≤ s ≤ 256) SYMBOLS) as Hall.
  { apply List.Forall_forall. assert (forallb (λ s, (0 <=? s) && (s <=? 256)) SYMBOLS = true) as Hb by (vm_compute; reflexivity).
    rewrite forallb_forall in Hb. intros x Hx. specialize (Hb x Hx).
    apply andb_true_iff in Hb as [?%Z.leb_le ?%Z.leb_le]. lia. }
  rewrite Forall_lookup in Hall. eauto.
Qed.

Lemma walk_total l c k :
  0 ≤ c < 2 ^ Z.of_nat k → (k + length l ≤ 30)%nat →
  match foldl walk_step (More c (level k).1 (level k).2 (Z.of_nat k)) l with
  | Stuck => False
  | Found s n => 0 ≤ s ≤ 256 ∧ Z.of_nat k < n ≤ Z.of_nat k + len l
  | More _ _ _ _ => True
  end.
Proof.
  revert c k. induction l as [|b l IH]; intros c k Hc Hk; [done|]. simpl length in *.
  cbn [foldl walk_step].
  destruct (idx_no_panic (E:=Error) LEN_COUNT (Z.of_nat k + 1)) as [count Hcount].
  { change (len LEN_COUNT) with 31. lia. }
  rewrite Hcount. apply idx_lookup in Hcount. replace (Z.to_nat (Z.of_nat k + 1)) with (S k) in Hcount by lia.
  pose proof (levels_ok k ltac:(lia)) as Hl. unfold level_ok in Hl. rewrite Hcount in Hl. simpl default in Hl.
  rewrite !andb_true_iff, !Z.leb_le, Z.ltb_lt in Hl. destruct Hl as ((((? & ?) & ?) & ?) & ?).
  assert (2 ^ Z.of_nat (S k) = 2 * 2 ^ Z.of_nat k) as Hpow by (rewrite Nat2Z.inj_succ, Z.pow_succ_r; lia).
  assert (2 ^ Z.of_nat (S k) ≤ 2 ^ 30) by (apply Z.pow_le_mono_r; lia).
  assert (0 ≤ 2 * c + Z.b2z b < 2 ^ Z.of_nat (S k)) as Hc' by (destruct b; simpl Z.b2z; lia).
  destruct (Z.ltb_spec (trunc 32 (2 * c + Z.b2z b - (level k).1)) count) as [Hlt|_].
  - destruct (symbols_range ((level k).2 + (2 * c + Z.b2z b - (level k).1))) as (s & -> & Hs).
    { unfold trunc in Hlt. Z.div_mod_to_equations. lia. }
    rewrite walk_found. split; lia.
  - specialize (IH (2 * c + Z.b2z b) (S k) Hc' ltac:(lia)). cbn [level] in IH. rewrite Hcount in IH. simpl default in IH.
    replace (Z.of_nat (S k)) with (Z.of_nat k + 1) in IH by lia. cbn [fst snd] in IH.
    destruct (foldl _ _ _) as [|s n|]; [done| |done]. destruct IH. split; lia.
Qed.

Lemma decode_one_total P :
  match decode_one (val P) (len P) with
  | Ok (Some (s, n)) => 0 ≤ s ≤ 256 ∧ 0 < n ≤ len P
  | Ok None => True
  | _ => False
  end.
Proof.
  rewrite decode_one_walk. pose proof (walk_total (take 30 P) 0 0 ltac:(simpl; lia) ltac:(len_lia)) as Hw.
  unfold walk. change (More 0 0 0 0) with (More 0 (level 0).1 (level 0).2 (Z.of_nat 0)).
  destruct (foldl _ _ _) as [|s n|]; simpl; [done| |done]. destruct Hw. split; [done|len_lia].
Qed.

(** A writer that cannot panic: it returns a value in [Q], or an error. *)
Definition Total {A} (m : writer A) (Q : A → Prop) : Prop :=
  ∀ buf pos, 0 ≤ pos ≤ len buf →
  match m (buf, pos) with
  | (Ok a, (buf', pos')) => Q a ∧ length buf' = length buf ∧ pos ≤ pos' ≤ len buf
  | (Err e, (buf', _)) => length buf' = length buf ∧ (too_small e ∨ e = decompression_failed)
  | (Panic, _) => False
  end.

Lemma Total_ret {A} (a : A) (Q : A → Prop) : Q a → Total (mret a) Q.
Proof. intros Ha buf pos Hp. simpl. split_and!; (done || lia). Qed.
Lemma Total_bind {A B} (m : writer A) (k : A → writer B) Q R :
  Total m Q → (∀ a, Q a → Total (k a) R) → Total (m ≫= k) R.
Proof.
  intros Hm Hk buf pos Hp. specialize (Hm buf pos Hp). unfold mbind, M_bind.
  destruct (m (buf, pos)) as [[a| |] [buf' pos']]; [|done..]. destruct Hm as (Ha & Hl & Hp').
  specialize (Hk a Ha buf' pos'). rewrite Hl in Hk. specialize (Hk ltac:(lia)).
  destruct (k a (buf', pos')) as [[b|e|] [buf'' pos'']]; [|done..].
  destruct Hk as (? & ? & ?). split_and!; (done || lia).
Qed.
Lemma Total_checked_then {A} b (k : writer A) Q :
  Total k Q → Total (_ ← Integer.check_room; _ ← put_u8 b; k) Q.
Proof.
  intros Hk buf pos Hp. unfold Integer.check_room, put_u8, mbind, M_bind; cbn [fst snd].
  destruct (Z.leb_spec (len buf) pos); [split; [done|left; by eexists]|].
  cbn [fst snd]. rewrite set_idx_eq by lia. specialize (Hk (<[Z.to_nat pos := b]> buf) (pos + 1)).
  rewrite length_insert in Hk. specialize (Hk ltac:(lia)).
  destruct (k _) as [[a|e|] [buf'' pos'']]; [|done..].
  destruct Hk as (? & ? & ?). split_and!; (done || lia).
Qed.

Lemma emit_loop_total fuel P :
  (length P < fuel)%nat →
  Total (emit_loop fuel (val P) (len P)) (λ st, ∃ P', st = (val P', len P') ∧ (length P' < 30)%nat).
Proof.
  revert P. induction fuel as [|fuel IH]; intros P Hf; [lia|]. cbn [emit_loop].
  destruct (Z.ltb_spec (len P) 5); [apply Total_ret; exists P; split; [done|lia]|].
  pose proof (decode_one_total P) as Hd. intros buf pos Hp.
  destruct (decode_one (val P) (len P)) as [[[s n]|]| |] eqn:E; [| |done..]; erewrite M_step_lift by done; revert buf pos Hp.
  - destruct Hd as [Hs Hn]. destruct (Z.eqb_spec s 256); [intros ? ? ?; split; auto|].
    change (Total (_ ← Integer.check_room; _ ← put_u8 (trunc 8 s);
      acc_len ← lift (usub (len P) n); emit_loop fuel (Z.land (val P) (Z.shiftl 1 acc_len - 1)) acc_len)
      (λ st, ∃ P', st = (val P', len P') ∧ (length P' < 30)%nat)).
    apply Total_checked_then. intros buf pos Hp. erewrite M_step_lift by (apply usub_ok; lia).
    pose proof (acc_drop (take (Z.to_nat n) P) (drop (Z.to_nat n) P)) as Hd. rewrite take_drop in Hd.
    replace (len P - n) with (len (drop (Z.to_nat n) P)) by len_lia. rewrite Hd.
    revert buf pos Hp. apply IH. len_lia.
  - destruct (Z.leb_spec 30 (len P)); [intros ? ? ?; split; auto|].
    apply Total_ret. exists P. split; [done|lia].
Qed.

Lemma decode_bytes_total bytes P :
  bytes_ok bytes → (length P < 30)%nat →
  Total (decode_bytes bytes (val P) (len P)) (λ st, ∃ P', st = (val P', len P')).
Proof.
  intros Hb. revert P. induction Hb as [|b bytes Hb _ IH]; intros P HP; [apply Total_ret; eauto|].
  cbn [decode_bytes]. pose proof (acc_push P (bits 8 b) ltac:(len_lia)) as Hpush.
  rewrite length_bits, (val_bits8 b Hb) in Hpush. change (Z.of_nat 8) with 8 in Hpush. rewrite Hpush.
  replace (len P + 8) with (len (P ++ bits 8 b)) by len_lia.
  eapply Total_bind; [apply emit_loop_total; lia|]. intros st (P' & -> & HP'). by apply IH.
Qed.

Lemma decode_total src buf :
  bytes_ok src →
  match decode src buf with
  | (Ok n, buf') => 0 ≤ n ≤ len buf ∧ length buf' = length buf
  | (Err e, buf') => length buf' = length buf ∧ (too_small e ∨ e = decompression_failed)
  | (Panic, _) => False
  end.
Proof.
  intros Hb. unfold decode. destruct (len src =? 0); [simpl; lia|]. unfold from_start.
  pose proof (decode_bytes_total src [] Hb ltac:(simpl; lia) buf 0 ltac:(lia)) as Ht.
  change (val []) with 0 in Ht. change (len []) with 0 in Ht. unfold mbind, M_bind.
  destruct (decode_bytes src 0 0 (buf, 0)) as [[st|e|] [buf' pos']]; [|done..].
  destruct Ht as ((P & ->) & Hl & Hp). unfold lift, check_padding; cbn [fst snd].
  repeat case_match; simplify_eq/=; auto with lia.
Qed.

(** ** Properties *)

(** Huffman coding is lossless.  For every byte string, [encode] fills exactly
    the [encoded_len] bytes announced and leaves the rest of the buffer alone,
    and [decode] of those bytes, into any buffer with room, writes the original
    string back: the canonical bit walk, the one-bits of the padding and the
    flushing of both accumulators agree with the code table. *)
Theorem huffman_roundtrip src buf out n :
  bytes_ok src → encoded_len src = Ok n → n ≤ len buf → len src ≤ len out →
  ∃ w, encode src buf = (Ok n, w ++ drop (length w) buf) ∧ len w = n ∧
    decode w out = (Ok (len src), src ++ drop (length src) out).
Proof.
  intros Hsrc Hn Hbuf Hout. destruct (decide (src = [])) as [->|Hne].
  { injection Hn as <-. exists []. by rewrite !drop_0. }
  destruct (encode_stream_bits src Hsrc Hne) as (w & k & Heq & Hk & Hw & Henc).
  rewrite (encoded_len_eq src w k) in Hn by done. injection Hn as <-.
  exists w. split_and!; [by apply Henc|done|]. eapply decode_stream_bits; try done.
  intros ->. destruct Hsrc as [|s src Hs _]; [done|]. destruct (code_facts s Hs) as (_ & ? & _).
  apply (f_equal length) in Heq. rewrite codes_cons in Heq. unfold stream in Heq. simpl in Heq. len_lia.
Qed.

End Huffman.
