(* ===== verification/Hpack.v ===== *)
(** * HPACK header compression: [src/hpack/codec.rs], [src/hpack/static_table.rs]

    The static table, the static-only encoder, and the decoder with its dynamic
    table. *)
From Stdlib Require Import String Ascii.
From S2P Require Import Prelude Errors Varint Cursor HpackInteger Huffman.

Module Hpack.

(** ** The static table *)

Definition STATIC_TABLE : list (list Z * list Z) := Eval vm_compute in [
  (bytes ":authority", []);
  (bytes ":method", bytes "GET");
  (bytes ":method", bytes "POST");
  (bytes ":path", bytes "/");
  (bytes ":path", bytes "/index.html");
  (bytes ":scheme", bytes "http");
  (bytes ":scheme", bytes "https");
  (bytes ":status", bytes "200");
  (bytes ":status", bytes "204");
  (bytes ":status", bytes "206");
  (bytes ":status", bytes "304");
  (bytes ":status", bytes "400");
  (bytes ":status", bytes "404");
  (bytes ":status", bytes "500");
  (bytes "accept-charset", []);
  (bytes "accept-encoding", bytes "gzip, deflate");
  (bytes "accept-language", []);
  (bytes "accept-ranges", []);
  (bytes "accept", []);
  (bytes "access-control-allow-origin", []);
  (bytes "age", []);
  (bytes "allow", []);
  (bytes "authorization", []);
  (bytes "cache-control", []);
  (bytes "content-disposition", []);
  (bytes "content-encoding", []);
  (bytes "content-language", []);
  (bytes "content-length", []);
  (bytes "content-location", []);
  (bytes "content-range", []);
  (bytes "content-type", []);
  (bytes "cookie", []);
  (bytes "date", []);
  (bytes "etag", []);
  (bytes "expect", []);
  (bytes "expires", []);
  (bytes "from", []);
  (bytes "host", []);
  (bytes "if-match", []);
  (bytes "if-modified-since", []);
  (bytes "if-none-match", []);
  (bytes "if-range", []);
  (bytes "if-unmodified-since", []);
  (bytes "last-modified", []);
  (bytes "link", []);
  (bytes "location", []);
  (bytes "max-forwards", []);
  (bytes "proxy-authenticate", []);
  (bytes "proxy-authorization", []);
  (bytes "range", []);
  (bytes "referer", []);
  (bytes "refresh", []);
  (bytes "retry-after", []);
  (bytes "server", []);
  (bytes "set-cookie", []);
  (bytes "strict-transport-security", []);
  (bytes "transfer-encoding", []);
  (bytes "user-agent", []);
  (bytes "vary", []);
  (bytes "via", []);
  (bytes "www-authenticate", [])].

Inductive LookupResult := ExactMatch (i : Z) | NameMatch (i : Z) | NotFound.

(** The loop of [lookup] from entry [i] on. *)
Fixpoint lookup_loop (name value : list Z) (entries : list (list Z * list Z)) (i : Z)
    (name_match : option Z) : LookupResult :=
  match entries with
  | [] => match name_match with Some idx => NameMatch idx | None => NotFound end
  | (n, v) :: entries' =>
      if bool_decide (n = name) then
        if bool_decide (v = value) then ExactMatch (i + 1)
        else lookup_loop name value entries' (i + 1)
               (match name_match with None => Some (i + 1) | Some _ => name_match end)
      else lookup_loop name value entries' (i + 1) name_match
  end.
Definition lookup (name value : list Z) : LookupResult := lookup_loop name value STATIC_TABLE 0 None.

(** ** Encoder *)

(** [offset += f(&mut buf[offset..])?]. *)
Definition put_with (f : M Error (list Z) Z) : writer unit := λ s,
  let '(r, buf') := with_from s.2 f s.1 in
  match r with
  | Ok n => (Ok tt, (buf', s.2 + n)) | Err e => (Err e, (buf', s.2)) | Panic => (Panic, (buf', s.2))
  end.

Definition put_checked_slice (src : list Z) : writer unit := λ s,
  if len s.1 - s.2 <? len src then (Err (BufferTooSmall (s.2 + len src)), s) else put_slice src s.

Definition encode_string_literal (s : list Z) : M Error (list Z) Z :=
  from_start (
    _ ← put_with (Integer.encode_integer (len s) 7 0x00);
    put_checked_slice s).

Definition encode_header (h : list Z * list Z) : writer unit :=
  let '(name, value) := h in
  match lookup name value with
  | ExactMatch idx => put_with (Integer.encode_integer idx 7 0x80)
  | NameMatch idx =>
      _ ← put_with (Integer.encode_integer idx 4 0x00);
      put_with (encode_string_literal value)
  | NotFound =>
      _ ← Integer.check_room;
      _ ← put_u8 0x00;
      _ ← put_with (encode_string_literal name);
      put_with (encode_string_literal value)
  end.

Fixpoint encode_headers (headers : list (list Z * list Z)) : writer unit :=
  match headers with
  | [] => mret tt
  | h :: headers' => _ ← encode_header h; encode_headers headers'
  end.

Definition encode (headers : list (list Z * list Z)) : M Error (list Z) Z :=
  from_start (encode_headers headers).

(** ** Decoder *)

Definition INITIAL_DYNAMIC_TABLE_SIZE : Z := 4096.
Definition ENTRY_OVERHEAD : Z := 32.

Record HpackDecoder := {
  dynamic : list (list Z * list Z);   (* newest first *)
  dynamic_size : Z; max_size : Z
}.
#[global] Instance eta_HpackDecoder : Eta HpackDecoder := λ s, {|
  dynamic := dynamic s; dynamic_size := dynamic_size s; max_size := max_size s |}.

Definition new : HpackDecoder :=
  {| dynamic := []; dynamic_size := 0; max_size := INITIAL_DYNAMIC_TABLE_SIZE |}.

Definition entry_size (e : list Z * list Z) : Z := len e.1 + len e.2 + ENTRY_OVERHEAD.

(** [dynamic.pop_back()] with the size adjusted; [None] on an empty table. *)
Definition pop_back (d : HpackDecoder) : res Error (option HpackDecoder) :=
  match last (dynamic d) with
  | Some e =>
      n ← usub (dynamic_size d) (entry_size e);
      Ok (Some (d <| dynamic := take (length (dynamic d) - 1) (dynamic d) |> <| dynamic_size := n |>))
  | None => Ok None
  end.

(** [while self.dynamic_size + extra > self.max_size { pop_back }]: the result
    says whether the loop ended by its condition. *)
Fixpoint evict (fuel : nat) (extra : Z) (d : HpackDecoder) : res Error (bool * HpackDecoder) :=
  if max_size d <? dynamic_size d + extra then
    match fuel with
    | O => Panic
    | S fuel =>
        o ← pop_back d;
        match o with Some d' => evict fuel extra d' | None => Ok (false, d) end
    end
  else Ok (true, d).

(** The decoder and the headers it has emitted so far. *)
Record Decoding := { dec : HpackDecoder; emitted : list (list Z * list Z) }.
#[global] Instance eta_Decoding : Eta Decoding := λ s, {| dec := dec s; emitted := emitted s |}.

Definition emit (name value : list Z) : M Error Decoding unit :=
  modify (λ s, s <| emitted := emitted s ++ [(name, value)] |>).

(** The [alloc] feature: without it there is no dynamic table. *)
Class Config := { platform :: Platform; alloc : bool }.

Section decoder.
Context `{Config}.

Definition table_lookup (d : HpackDecoder) (index : Z) : res Error (list Z * list Z) :=
  if index =? 0 then Err InvalidState else
  if index <=? len STATIC_TABLE then idx STATIC_TABLE (index - 1) else
  if alloc then
    match dynamic d !! Z.to_nat (index - len STATIC_TABLE - 1) with
    | Some e => Ok e
    | None => Err InvalidState
    end
  else Err InvalidState.

Definition dynamic_insert (name value : list Z) (d : HpackDecoder) : res Error HpackDecoder :=
  if alloc then
    '(fits, d') ← evict (S (length (dynamic d))) (entry_size (name, value)) d;
    if (fits : bool) then
      Ok (d' <| dynamic := (name, value) :: dynamic d' |>
             <| dynamic_size := dynamic_size d' + entry_size (name, value) |>)
    else Ok d'
  else Ok d.

Definition resize (new_size : Z) (d : HpackDecoder) : res Error HpackDecoder :=
  if INITIAL_DYNAMIC_TABLE_SIZE <? new_size then Err InvalidState else
  if alloc then
    let d := d <| max_size := new_size |> in
    r ← evict (S (length (dynamic d))) 0 d; Ok r.2
  else Ok d.

(** A [&mut self] method of the decoder that may fail. *)
Definition on_dec (f : HpackDecoder → res Error HpackDecoder) : M Error Decoding unit := λ s,
  match f (dec s) with
  | Ok d => (Ok tt, s <| dec := d |>) | Err e => (Err e, s) | Panic => (Panic, s)
  end.

Definition parse_string_header (src : list Z) : res Error (bool * Z * Z) :=
  if len src =? 0 then Err (BufferTooSmall 1) else
  b ← idx src 0;
  let huffman := negb (Z.land b 0x80 =? 0) in
  r ← Integer.decode_integer src 7;
  let length := as_usize r.1 in
  rest ← usub (len src) r.2;
  if rest <? length then needed ← usize_add r.2 length; Err (BufferTooSmall needed)
  else Ok (huffman, length, r.2).

(** A string literal at [pos], decoded into a buffer of [cap] bytes: [limit] says
    whether a raw string is copied into that buffer (names) or borrowed
    (values).  The result is the string and the position after it. *)
Definition read_string (src : list Z) (pos cap : Z) (limit : bool) : res Error (list Z * Z) :=
  sub ← slice_from src pos;
  '(huf, n, lc) ← parse_string_header sub;
  raw ← slice src (pos + lc) (pos + lc + n);
  if (huf : bool) then
    let '(r, out) := Huffman.decode raw (replicate (Z.to_nat cap) 0) in
    k ← r;
    s ← slice out 0 k; Ok (s, pos + lc + n)
  else if limit && (cap <? n) then Err (BufferTooSmall n)
  else Ok (raw, pos + lc + n).

(** The name of a literal field: from a table, copied into a 256-byte buffer, or
    a literal. *)
Definition read_name (d : HpackDecoder) (src : list Z) (pos name_index : Z) : res Error (list Z * Z) :=
  if 0 <? name_index then
    e ← table_lookup d name_index;
    if 256 <? len e.1 then Err (BufferTooSmall (len e.1)) else Ok (e.1, pos)
  else read_string src pos 256 true.

Definition decode_literal_field (src : list Z) (start name_index : Z) (index : bool)
    : M Error Decoding Z :=
  s ← get;
  n ← lift (read_name (dec s) src start name_index);
  v ← lift (read_string src n.2 1024 false);
  _ ← (if index then on_dec (dynamic_insert n.1 v.1) else mret tt);
  _ ← emit n.1 v.1;
  mret (v.2 - start).

(** One iteration of the loop at [pos]: the new position. *)
Definition decode_step (src : list Z) (pos : Z) : M Error Decoding Z :=
  first ← lift (idx src pos);
  sub ← lift (slice_from src pos);
  if negb (Z.land first 0x80 =? 0) then
    r ← lift (Integer.decode_integer sub 7);
    s ← get;
    e ← lift (table_lookup (dec s) (as_usize r.1));
    _ ← emit e.1 e.2;
    mret (pos + r.2)
  else if Z.land first 0xC0 =? 0x40 then
    r ← lift (Integer.decode_integer sub 6);
    n ← decode_literal_field src (pos + r.2) (as_usize r.1) true;
    mret (pos + r.2 + n)
  else if Z.land first 0xF0 =? 0x00 then
    r ← lift (Integer.decode_integer sub 4);
    n ← decode_literal_field src (pos + r.2) (as_usize r.1) false;
    mret (pos + r.2 + n)
  else if Z.land first 0xF0 =? 0x10 then
    r ← lift (Integer.decode_integer sub 4);
    n ← decode_literal_field src (pos + r.2) (as_usize r.1) false;
    mret (pos + r.2 + n)
  else if Z.land first 0xE0 =? 0x20 then
    r ← lift (Integer.decode_integer sub 5);
    _ ← on_dec (resize (as_usize r.1));
    mret (pos + r.2)
  else throw InvalidState.

(** Each iteration consumes at least one byte, so [fuel = src.len()] suffices. *)
Fixpoint decode_loop (fuel : nat) (src : list Z) (pos : Z) : M Error Decoding Z :=
  if pos <? len src then
    match fuel with
    | O => lift Panic
    | S fuel => pos' ← decode_step src pos; decode_loop fuel src pos'
    end
  else mret pos.
Definition decode (src : list Z) : M Error Decoding Z := decode_loop (length src) src 0.

End decoder.

(** ** The static table *)

Lemma lookup_loop_spec name value pre entries nm :
  (∀ k, nm = Some k → 1 ≤ k ≤ len pre ∧ ∃ v, pre !! Z.to_nat (k - 1) = Some (name, v)) →
  match lookup_loop name value entries (len pre) nm with
  | ExactMatch i =>
      1 ≤ i ≤ len (pre ++ entries) ∧ (pre ++ entries) !! Z.to_nat (i - 1) = Some (name, value)
  | NameMatch i =>
      1 ≤ i ≤ len (pre ++ entries) ∧ ∃ v, (pre ++ entries) !! Z.to_nat (i - 1) = Some (name, v)
  | NotFound => nm = None ∧ Forall (λ e, e.1 ≠ name) entries
  end.
Proof.
  revert pre nm. induction entries as [|[n v] entries IH]; intros pre nm Hnm; cbn [lookup_loop].
  - rewrite app_nil_r. destruct nm as [k|]; [by apply Hnm|by split; [|constructor]].
  - assert (∀ j, 1 ≤ j ≤ len pre → pre !! Z.to_nat (j - 1) = (pre ++ [(n, v)]) !! Z.to_nat (j - 1)) as Hpre.
    { intros j Hj. by rewrite lookup_app_l by lia. }
    replace (len pre + 1) with (len (pre ++ [(n, v)])) by len_lia.
    rewrite (cons_middle (n, v) pre entries), app_assoc.
    destruct (bool_decide_reflect (n = name)) as [->|Hne].
    + destruct (bool_decide_reflect (v = value)) as [->|Hv].
      * split; [len_lia|]. rewrite lookup_app_l by len_lia. apply list_lookup_middle. len_lia.
      * set (nm' := match nm with None => _ | Some _ => _ end).
        assert (∀ k, nm' = Some k → 1 ≤ k ≤ len (pre ++ [(name, v)]) ∧
                 ∃ v', (pre ++ [(name, v)]) !! Z.to_nat (k - 1) = Some (name, v')) as Hnm'.
        { intros k Hk. subst nm'. destruct nm as [k'|]; simplify_eq.
          - destruct (Hnm k eq_refl) as [? ?]. split; [len_lia|by rewrite <- Hpre].
          - split; [len_lia|]. exists v. apply list_lookup_middle. len_lia. }
        specialize (IH _ _ Hnm'). destruct (lookup_loop _ _ _ _ _); [done..|].
        destruct IH as [Hn _]. subst nm'. by destruct nm.
    + assert (∀ k, nm = Some k → 1 ≤ k ≤ len (pre ++ [(n, v)]) ∧
               ∃ v', (pre ++ [(n, v)]) !! Z.to_nat (k - 1) = Some (name, v')) as Hnm'.
      { intros k Hk. destruct (Hnm k Hk) as [? ?]. split; [len_lia|by rewrite <- Hpre]. }
      specialize (IH _ _ Hnm'). destruct (lookup_loop _ _ _ _ _); [done..|].
      destruct IH. by split; [|constructor].
Qed.

Lemma lookup_spec name value :
  match lookup name value with
  | ExactMatch i => 1 ≤ i ≤ 61 ∧ STATIC_TABLE !! Z.to_nat (i - 1) = Some (name, value)
  | NameMatch i => 1 ≤ i ≤ 61 ∧ ∃ v, STATIC_TABLE !! Z.to_nat (i - 1) = Some (name, v)
  | NotFound => Forall (λ e, e.1 ≠ name) STATIC_TABLE
  end.
Proof.
  pose proof (lookup_loop_spec name value [] STATIC_TABLE None ltac:(done)) as Hs.
  unfold lookup. change (len []) with 0 in Hs. simpl app in Hs. change (len STATIC_TABLE) with 61 in Hs.
  destruct (lookup_loop _ _ _ _ _); [done..|apply Hs].
Qed.

(** ** Wire form *)

Definition string_wire (s : list Z) : list Z := Integer.int_wire 7 0 (len s) ++ s.
Definition field_wire (h : list Z * list Z) : list Z :=
  match lookup h.1 h.2 with
  | ExactMatch i => Integer.int_wire 7 128 i
  | NameMatch i => Integer.int_wire 4 0 i ++ string_wire h.2
  | NotFound => Integer.int_wire 4 0 0 ++ string_wire h.1 ++ string_wire h.2
  end.
Definition block_wire (headers : list (list Z * list Z)) : list Z := concat (field_wire <$> headers).

(** Strings the encoder's lengths hold on every platform, names the decoder's
    buffer holds. *)
Definition string_ok (s : list Z) : Prop := len s < 2 ^ 31.
Definition header_ok (h : list Z * list Z) : Prop := len h.1 ≤ 256 ∧ string_ok h.2.

Lemma string_ok_u64 s : string_ok s → uint 64 (len s).
Proof. unfold string_ok, uint. lia. Qed.

Lemma mask7 : Integer.mask_ok 7 0 ∧ Integer.mask_ok 7 128 ∧ Integer.mask_ok 4 0.
Proof. unfold Integer.mask_ok. split_and!; (lia || done). Qed.

(** ** Encoding *)

Lemma Writes_put_with w bs : Writes w bs → Writes (put_with (from_start w)) bs.
Proof.
  intros Hw done rest. unfold put_with; cbn [fst snd]. rewrite with_from_app by done.
  destruct (Writes_start w bs rest Hw) as [Hok Herr]. split; intros Hl.
  - rewrite (Puts_start w bs rest) by (by apply Writes_Puts || done). cbn [fst snd].
    rewrite <- app_assoc. do 2 f_equal. len_lia.
  - destruct (Herr Hl) as (e & s' & Hm & He). unfold from_start. rewrite Hm. cbn [fst snd]. eauto.
Qed.

Lemma Writes_put_integer v p mask :
  Integer.mask_ok p mask → uint 64 v →
  Writes (put_with (Integer.encode_integer v p mask)) (Integer.int_wire p mask v).
Proof.
  intros Hm Hv. destruct (Integer.Writes_encode_integer v p mask Hm Hv) as (w & -> & Hw).
  by apply Writes_put_with.
Qed.

Lemma Writes_checked_slice src : Writes (put_checked_slice src) src.
Proof.
  intros done rest. unfold put_checked_slice; cbn [fst snd]. split; intros Hl.
  - rewrite (proj2 (Z.ltb_ge _ _)) by len_lia. by apply Puts_slice.
  - rewrite (proj2 (Z.ltb_lt _ _)) by len_lia. do 2 eexists. split; [done|by eexists].
Qed.

Lemma Writes_string s : string_ok s → Writes (put_with (encode_string_literal s)) (string_wire s).
Proof.
  intros Hs. apply Writes_put_with, Writes_bind; [|apply Writes_checked_slice].
  apply Writes_put_integer; [apply mask7|by apply string_ok_u64].
Qed.

Lemma Writes_header h : header_ok h → Writes (encode_header h) (field_wire h).
Proof.
  destruct h as [n v]. intros [Hn Hv]. unfold encode_header, field_wire; cbn [fst snd].
  pose proof (lookup_spec n v) as Hl. destruct (lookup n v) as [i|i|].
  - destruct Hl. apply Writes_put_integer; [apply mask7|unfold uint; lia].
  - destruct Hl. apply Writes_bind; [|by apply Writes_string].
    apply Writes_put_integer; [apply mask7|unfold uint; lia].
  - apply (Integer.Writes_checked_then 0), Writes_bind; [|by apply Writes_string].
    apply Writes_string. unfold string_ok. simpl in Hn. lia.
Qed.

Lemma Writes_headers hs : Forall header_ok hs → Writes (encode_headers hs) (block_wire hs).
Proof.
  induction 1 as [|h hs Hh _ IH]; [apply Writes_ret|]. by apply Writes_bind; [apply Writes_header|].
Qed.

(** ** Decoding an encoded block *)

(** The first byte of a prefix-coded integer. *)
Lemma int_wire_head p mask v :
  Integer.mask_ok p mask → 0 ≤ v →
  ∃ b l, Integer.int_wire p mask v = b :: l ∧ mask ≤ b < mask + 2 ^ p.
Proof.
  intros Hm Hv. pose proof (Integer.mask_pow _ _ Hm). unfold Integer.int_wire.
  destruct (Z.ltb_spec v (2 ^ p - 1)); do 2 eexists; (split; [done|lia]).
Qed.

(** What the decoder's tests say of the representations the encoder uses. *)
Lemma representation b :
  (128 ≤ b < 256 → Z.land b 0x80 ≠ 0) ∧
  (0 ≤ b < 128 → Z.land b 0x80 = 0) ∧
  (0 ≤ b < 16 → Z.land b 0xC0 ≠ 0x40 ∧ Z.land b 0xF0 = 0).
Proof.
  pose proof (Integer.land_80 b) as H80. unfold byte_ok in H80. split_and!; [intros; lia..|].
  intros Hb. pose proof (byte_forall
    (λ b, (15 <? b) || (negb (Z.land b 0xC0 =? 0x40) && (Z.land b 0xF0 =? 0)))
    ltac:(vm_compute; reflexivity) b ltac:(unfold byte_ok; lia)) as Ht. cbv beta in Ht.
  rewrite (proj2 (Z.ltb_ge 15 b)) in Ht by lia. simpl in Ht.
  apply andb_prop in Ht as [Hc Hf]. split; [|by apply Z.eqb_eq].
  by apply Z.eqb_neq, negb_true_iff.
Qed.

Section decoding.
Context `{Config}.

Lemma parse_string_header_wire s rest :
  string_ok s →
  parse_string_header (string_wire s ++ rest) = Ok (false, len s, len (Integer.int_wire 7 0 (len s))).
Proof.
  intros Hs. unfold parse_string_header, string_wire. rewrite <- app_assoc.
  destruct (int_wire_head 7 0 (len s)) as (b & l & Hw & Hb); [apply mask7|lia|].
  rewrite (proj2 (Z.eqb_neq _ 0)) by (rewrite Hw; len_lia).
  unfold mbind, res_bind. rewrite (idx_ok _ 0 b); [|lia|by rewrite Hw].
  rewrite Integer.decode_integer_wire by (apply mask7 || by apply string_ok_u64). cbn [fst snd].
  rewrite as_usize_u31 by (unfold string_ok in Hs; lia).
  rewrite usub_ok, (proj2 (Z.ltb_ge _ _)) by len_lia.
  by rewrite (proj2 (Z.eqb_eq _ 0)) by (apply representation; lia).
Qed.

Lemma read_string_wire pre s post cap limit :
  string_ok s → (limit = true → len s ≤ cap) →
  read_string (pre ++ string_wire s ++ post) (len pre) cap limit =
  Ok (s, len pre + len (string_wire s)).
Proof.
  intros Hs Hc. unfold read_string. rewrite slice_from_eq by len_lia.
  rewrite Nat2Z.id, drop_app_length. unfold mbind, res_bind.
  rewrite parse_string_header_wire by done. unfold string_wire. rewrite <- app_assoc.
  rewrite (app_assoc pre). rewrite slice_middle by len_lia.
  destruct (limit && (cap <? len s)) eqn:Hl.
  - apply andb_prop in Hl as [-> Hl%Z.ltb_lt]. specialize (Hc eq_refl). lia.
  - f_equal. f_equal. len_lia.
Qed.

Lemma table_lookup_static d i e :
  1 ≤ i ≤ 61 → STATIC_TABLE !! Z.to_nat (i - 1) = Some e → table_lookup d i = Ok e.
Proof.
  intros Hi He. unfold table_lookup. rewrite (proj2 (Z.eqb_neq i 0)) by lia.
  change (len STATIC_TABLE) with 61. rewrite (proj2 (Z.leb_le i 61)) by lia.
  apply idx_ok; [lia|done].
Qed.


Lemma decode_literal_wire src start i n v pre post s :
  read_name (dec s) src start i = Ok (n, len pre) → src = pre ++ string_wire v ++ post → string_ok v →
  decode_literal_field src start i false s =
  (Ok (len pre + len (string_wire v) - start), s <| emitted := emitted s ++ [(n, v)] |>).
Proof.
  intros Hn -> Hv. unfold decode_literal_field. erewrite M_step_ok by reflexivity.
  erewrite M_step_lift by exact Hn. cbn [fst snd].
  by erewrite M_step_lift by (by apply read_string_wire).
Qed.

Lemma decode_step_indexed pre i post e s :
  1 ≤ i ≤ 61 → STATIC_TABLE !! Z.to_nat (i - 1) = Some e →
  decode_step (pre ++ Integer.int_wire 7 128 i ++ post) (len pre) s =
  (Ok (len pre + len (Integer.int_wire 7 128 i)), s <| emitted := emitted s ++ [e] |>).
Proof.
  intros Hi He. destruct (int_wire_head 7 128 i) as (b & l & Hw & Hb); [apply mask7|lia|].
  unfold decode_step. erewrite M_step_lift.
  2:{ apply idx_ok; [lia|]. rewrite Hw, Nat2Z.id. apply list_lookup_middle. done. }
  erewrite M_step_lift by (apply slice_from_eq; len_lia).
  rewrite (proj2 (Z.eqb_neq (Z.land b 0x80) 0)) by (apply representation; lia). cbn [negb].
  rewrite Nat2Z.id, drop_app_length.
  erewrite M_step_lift by (apply Integer.decode_integer_wire; [apply mask7|unfold uint; lia]).
  cbn [fst snd]. erewrite M_step_ok by reflexivity.
  rewrite as_usize_u31 by lia. erewrite M_step_lift by (by apply table_lookup_static).
  by destruct e.
Qed.

Lemma decode_step_literal pre i post s :
  0 ≤ i ≤ 61 →
  decode_step (pre ++ Integer.int_wire 4 0 i ++ post) (len pre) s =
  (n ← decode_literal_field (pre ++ Integer.int_wire 4 0 i ++ post)
         (len pre + len (Integer.int_wire 4 0 i)) i false;
   mret (len pre + len (Integer.int_wire 4 0 i) + n)) s.
Proof.
  intros Hi. destruct (int_wire_head 4 0 i) as (b & l & Hw & Hb); [apply mask7|lia|].
  unfold decode_step. erewrite M_step_lift.
  2:{ apply idx_ok; [lia|]. rewrite Hw, Nat2Z.id. apply list_lookup_middle. done. }
  erewrite M_step_lift by (apply slice_from_eq; len_lia).
  pose proof (representation b) as (_ & H80 & Hlit).
  destruct Hlit as [HC0 HF0]; [lia|].
  rewrite (proj2 (Z.eqb_eq (Z.land b 0x80) 0)) by (apply H80; lia). cbn [negb].
  rewrite (proj2 (Z.eqb_neq _ _) HC0), (proj2 (Z.eqb_eq _ _) HF0).
  rewrite Nat2Z.id, drop_app_length.
  erewrite M_step_lift by (apply Integer.decode_integer_wire; [apply mask7|unfold uint; lia]).
  cbn [fst snd]. by rewrite as_usize_u31 by lia.
Qed.

(** No static name is longer than the name buffer. *)
Lemma static_names i e : STATIC_TABLE !! i = Some e → len e.1 ≤ 256.
Proof.
  assert (Forall (λ e : list Z * list Z, len e.1 ≤ 256) STATIC_TABLE) as Hf by (repeat constructor; simpl; lia).
  rewrite Forall_lookup in Hf. apply Hf.
Qed.

Lemma decode_step_wire pre h post s :
  header_ok h →
  decode_step (pre ++ field_wire h ++ post) (len pre) s =
  (Ok (len pre + len (field_wire h)), s <| emitted := emitted s ++ [h] |>).
Proof.
  destruct h as [n v]. intros [Hn Hv]. unfold field_wire. cbn [fst snd] in *.
  pose proof (lookup_spec n v) as Hl. destruct (lookup n v) as [i|i|].
  - destruct Hl. by apply decode_step_indexed.
  - destruct Hl as [Hi [v' Hv']]. rewrite <- app_assoc, decode_step_literal by lia.
    erewrite M_step_ok.
    2:{ eapply (decode_literal_wire _ _ _ n v (pre ++ Integer.int_wire 4 0 i) post); [|by rewrite <- app_assoc|done].
        unfold read_name. rewrite (proj2 (Z.ltb_lt 0 i)) by lia. unfold mbind, res_bind.
        erewrite table_lookup_static by (done || lia). cbn [fst]. apply static_names in Hv'.
        rewrite (proj2 (Z.ltb_ge 256 _)) by (cbn in Hv'; lia). f_equal. f_equal. len_lia. }
    unfold mret, M_ret. do 2 f_equal. len_lia.
  - rewrite <- !app_assoc, decode_step_literal by lia.
    erewrite M_step_ok.
    2:{ eapply (decode_literal_wire _ _ _ n v (pre ++ Integer.int_wire 4 0 0 ++ string_wire n) post); [|by rewrite <- !app_assoc|done].
        unfold read_name. rewrite Z.ltb_irrefl. rewrite (app_assoc pre).
        rewrite <- Nat2Z.inj_add, <- length_app.
        rewrite read_string_wire by (done || unfold string_ok; lia). f_equal. f_equal. rewrite !length_app; lia. }
    unfold mret, M_ret. do 2 f_equal. len_lia.
Qed.

Lemma len_field_wire h : header_ok h → 0 < len (field_wire h).
Proof.
  destruct h as [n v]. intros _. unfold field_wire; cbn [fst snd]. pose proof (lookup_spec n v) as Hl.
  destruct (lookup n v) as [i|i|].
  - destruct (int_wire_head 7 128 i) as (b & l & -> & _); [apply mask7|lia|]. len_lia.
  - destruct (int_wire_head 4 0 i) as (b & l & -> & _); [apply mask7|lia|]. len_lia.
  - len_lia.
Qed.

Lemma block_wire_cons h hs : block_wire (h :: hs) = field_wire h ++ block_wire hs.
Proof. done. Qed.

Lemma decode_loop_wire fuel pre hs s :
  Forall header_ok hs → (length (block_wire hs) ≤ fuel)%nat →
  decode_loop fuel (pre ++ block_wire hs) (len pre) s =
  (Ok (len (pre ++ block_wire hs)), s <| emitted := emitted s ++ hs |>).
Proof.
  intros Hhs. revert fuel pre s. induction Hhs as [|h hs Hh _ IH]; intros fuel pre s Hf.
  - unfold block_wire. simpl. rewrite !app_nil_r.
    destruct fuel; cbn [decode_loop]; rewrite Z.ltb_irrefl; by destruct s.
  - rewrite block_wire_cons in *.
    pose proof (len_field_wire h Hh). rewrite length_app in Hf.
    destruct fuel as [|fuel]; [lia|]. cbn [decode_loop].
    rewrite (proj2 (Z.ltb_lt _ _)) by len_lia.
    erewrite M_step_ok by (by apply decode_step_wire).
    replace (len pre + _) with (len (pre ++ field_wire h)) by len_lia.
    rewrite (app_assoc pre), IH by lia. f_equal. cbn. by rewrite <- app_assoc.
Qed.

End decoding.

(** ** The dynamic table *)

Fixpoint table_size (l : list (list Z * list Z)) : Z :=
  match l with [] => 0 | e :: l' => entry_size e + table_size l' end.

(** RFC 7541, section 4: the entries that fit, newest first. *)
Fixpoint fit (max : Z) (l : list (list Z * list Z)) : list (list Z * list Z) :=
  match l with
  | [] => []
  | e :: l' => if entry_size e <=? max then e :: fit (max - entry_size e) l' else []
  end.

Lemma entry_size_pos e : 32 ≤ entry_size e.
Proof. unfold entry_size, ENTRY_OVERHEAD. lia. Qed.
Lemma table_size_app l l' : table_size (l ++ l') = table_size l + table_size l'.
Proof. induction l as [|e l IH]; simpl; [done|]. rewrite IH. lia. Qed.
Lemma table_size_nonneg l : 0 ≤ table_size l.
Proof. induction l as [|e l IH]; simpl; [done|]. pose proof (entry_size_pos e). lia. Qed.

Lemma fit_all max l : table_size l ≤ max → fit max l = l.
Proof.
  revert max. induction l as [|e l IH]; intros max Hm; simpl in *; [done|].
  pose proof (table_size_nonneg l). rewrite (proj2 (Z.leb_le _ _)) by lia. by rewrite IH by lia.
Qed.
Lemma fit_last max l e : max < table_size (l ++ [e]) → fit max (l ++ [e]) = fit max l.
Proof.
  revert max. induction l as [|x l IH]; intros max Hm; simpl in *.
  - by rewrite (proj2 (Z.leb_gt _ _)) by lia.
  - destruct (entry_size x <=? max); [|done]. by rewrite IH by lia.
Qed.
Lemma fit_size max l : 0 ≤ max → table_size (fit max l) ≤ max.
Proof.
  revert max. induction l as [|e l IH]; intros max Hm; simpl; [done|].
  destruct (Z.leb_spec (entry_size e) max); simpl; [|done].
  specialize (IH (max - entry_size e) ltac:(lia)). lia.
Qed.

Definition table_ok (d : HpackDecoder) : Prop :=
  dynamic_size d = table_size (dynamic d) ∧ dynamic_size d ≤ max_size d ∧
  0 ≤ max_size d ≤ INITIAL_DYNAMIC_TABLE_SIZE.

Lemma table_ok_new : table_ok new.
Proof. unfold table_ok, INITIAL_DYNAMIC_TABLE_SIZE. simpl. unfold INITIAL_DYNAMIC_TABLE_SIZE. lia. Qed.

Lemma evict_spec fuel extra d :
  dynamic_size d = table_size (dynamic d) → 0 ≤ extra → 0 ≤ max_size d →
  (length (dynamic d) < fuel)%nat →
  let l := fit (max_size d - extra) (dynamic d) in
  evict fuel extra d =
  Ok (extra <=? max_size d, d <| dynamic := l |> <| dynamic_size := table_size l |>).
Proof.
  destruct d as [l sz mx]. cbn. revert fuel sz.
  induction l as [|e l IH] using rev_ind; intros fuel sz -> He Hm Hf.
  - destruct fuel as [|fuel]; [simpl in Hf; lia|]. cbn.
    rewrite Z.add_0_l. destruct (Z.ltb_spec mx extra), (Z.leb_spec extra mx); (lia || done).
  - destruct fuel as [|fuel]; [lia|]. cbn [evict max_size dynamic_size].
    destruct (Z.ltb_spec mx (table_size (l ++ [e]) + extra)) as [Hlt|Hge].
    + unfold pop_back; cbn [dynamic dynamic_size]. rewrite last_snoc, length_app. cbn [length]. replace (length l + 1 - 1)%nat with (length l) by lia.
      rewrite take_app_length, fit_last by lia. rewrite table_size_app; cbn.
      pose proof (table_size_nonneg l). rewrite usub_ok by lia. unfold update. cbn.
      rewrite IH; [done|lia..|]. rewrite length_app in Hf; simpl in Hf; lia.
    + pose proof (table_size_nonneg (l ++ [e])). rewrite (proj2 (Z.leb_le _ _)) by lia.
      rewrite fit_all by lia. done.
Qed.

Definition with_table (l : list (list Z * list Z)) (d : HpackDecoder) : HpackDecoder :=
  d <| dynamic := l |> <| dynamic_size := table_size l |>.

Lemma table_ok_with l d :
  table_size l ≤ max_size d → 0 ≤ max_size d ≤ INITIAL_DYNAMIC_TABLE_SIZE → table_ok (with_table l d).
Proof. unfold table_ok, with_table, update. cbn. done. Qed.

(** ** Totality *)

Definition hpack_error (e : Error) : Prop :=
  too_small e ∨ e = InvalidState ∨ e = Integer.frame_encoding_error ∨ e = Huffman.decompression_failed.

Lemma hpack_error_int e : too_small e ∨ e = Integer.frame_encoding_error → hpack_error e.
Proof. unfold hpack_error. naive_solver. Qed.
Lemma hpack_error_huffman e : too_small e ∨ e = Huffman.decompression_failed → hpack_error e.
Proof. unfold hpack_error. naive_solver. Qed.
Lemma hpack_error_state : hpack_error InvalidState.
Proof. unfold hpack_error. naive_solver. Qed.
Lemma hpack_error_small n : hpack_error (BufferTooSmall n).
Proof. left. by eexists. Qed.
#[local] Hint Resolve hpack_error_int hpack_error_huffman hpack_error_state hpack_error_small : rust.

Section totality.
Context `{Config}.

Lemma dynamic_insert_eq name value d :
  table_ok d →
  dynamic_insert name value d =
  Ok (if alloc then with_table (fit (max_size d) ((name, value) :: dynamic d)) d else d).
Proof.
  intros (Hs & Hle & Hm). unfold dynamic_insert. destruct alloc; [|done].
  pose proof (entry_size_pos (name, value)) as He.
  unfold mbind, res_bind. rewrite evict_spec by (done || lia). cbn [fit].
  destruct (Z.leb_spec (entry_size (name, value)) (max_size d)); [|].
  - unfold with_table, update; cbn. do 2 f_equal. lia.
  - unfold with_table, update; cbn. do 2 f_equal; destruct (dynamic d) as [|e l]; try done; simpl.
    all: pose proof (entry_size_pos e); by rewrite (proj2 (Z.leb_gt (entry_size e) _)) by lia.
Qed.

Lemma resize_eq new_size d :
  table_ok d → 0 ≤ new_size →
  resize new_size d =
  if new_size <=? INITIAL_DYNAMIC_TABLE_SIZE
  then Ok (if alloc then with_table (fit new_size (dynamic d)) (d <| max_size := new_size |>) else d)
  else Err InvalidState.
Proof.
  intros (Hs & Hle & Hm) Hn. unfold resize.
  destruct (Z.ltb_spec INITIAL_DYNAMIC_TABLE_SIZE new_size), (Z.leb_spec new_size INITIAL_DYNAMIC_TABLE_SIZE);
    try (done || lia).
  destruct alloc; [|done]. unfold mbind, res_bind.
  rewrite evict_spec by (done || lia). cbn. by rewrite Z.sub_0_r.
Qed.

Lemma table_ok_insert name value d d' :
  table_ok d → dynamic_insert name value d = Ok d' → table_ok d'.
Proof.
  intros Hd. rewrite dynamic_insert_eq by done. intros [= <-]. destruct alloc; [|done].
  destruct Hd as (_ & _ & ?). apply table_ok_with; [apply (fit_size _ ((name, value) :: dynamic d)); lia|done].
Qed.
Lemma table_ok_resize n d d' : 0 ≤ n → table_ok d → resize n d = Ok d' → table_ok d'.
Proof.
  intros Hn Hd. rewrite resize_eq by done. destruct (Z.leb_spec n INITIAL_DYNAMIC_TABLE_SIZE); [|done].
  intros [= <-]. destruct alloc; [|done]. apply table_ok_with; [by apply fit_size|done].
Qed.

(** An outcome without panic, but for the one overflow check. *)
Definition total {A} (r : result A) (Q : A → Prop) : Prop :=
  match r with Ok a => Q a | Err e => hpack_error e | Panic => overflow_checks = true end.

Lemma total_bind {A B} (r : result A) (f : A → result B) Q R :
  total r Q → (∀ a, Q a → total (f a) R) → total (r ≫= f) R.
Proof. destruct r; simpl; auto. Qed.

Lemma total_integer buf p :
  bytes_ok buf → 1 ≤ p ≤ 8 → total (Integer.decode_integer buf p) (λ r, 0 ≤ r.1 ∧ 0 < r.2 ≤ len buf).
Proof.
  intros Hb Hp. pose proof (Integer.decode_integer_total buf p Hb Hp) as Ht.
  destruct (Integer.decode_integer buf p) as [[v n]|e|]; simpl in *; [|auto with rust|done].
  destruct Ht as [[? ?] ?]. done.
Qed.

Lemma total_idx {A} (l : list A) i : 0 ≤ i < len l → total (idx l i) (λ _, True).
Proof. intros Hi. destruct (idx_no_panic (E:=Error) l i Hi) as [a ->]. done. Qed.
Lemma total_slice (l : list Z) a b :
  bytes_ok l → 0 ≤ a ≤ b → b ≤ len l → total (slice l a b) (λ s, bytes_ok s ∧ len s = b - a).
Proof.
  intros. rewrite slice_eq by done. simpl. split; [by apply Forall_take, Forall_drop|]. len_lia.
Qed.
Lemma total_table_lookup d i : 0 ≤ i → total (table_lookup d i) (λ _, True).
Proof.
  intros Hi. unfold table_lookup. destruct (Z.eqb_spec i 0); [simpl; auto with rust|].
  destruct (Z.leb_spec i (len STATIC_TABLE)); [apply total_idx; lia|].
  destruct alloc; [|simpl; auto with rust]. destruct (dynamic d !! _); simpl; auto with rust.
Qed.

Lemma total_string_header src :
  bytes_ok src →
  total (parse_string_header src) (λ r, 0 ≤ r.1.2 ∧ 0 < r.2 ∧ r.2 + r.1.2 ≤ len src).
Proof.
  intros Hb. unfold parse_string_header. destruct (Z.eqb_spec (len src) 0) as [|Hne]; [simpl; auto with rust|].
  eapply total_bind; [apply total_idx; lia|]. intros b _. cbv beta zeta.
  eapply total_bind; [by apply total_integer|]. intros [v n] [Hv Hn]. simpl in Hv, Hn. cbn [fst snd].
  rewrite usub_ok by lia. simpl. pose proof (as_usize_range v).
  destruct (Z.ltb_spec (len src - n) (as_usize v)); simpl; [|lia].
  unfold usize_add. destruct (decide _); simpl; [auto with rust|].
  destruct overflow_checks eqn:?; simpl; auto with rust.
Qed.

(** The length a string claims is added to the header's size, unchecked. *)
Lemma parse_string_header_overflow :
  overflow_checks = true → parse_string_header (Integer.int_wire 7 0 (2 ^ 64 - 1)) = Panic.
Proof.
  intros Ho. unfold parse_string_header. set (w := Integer.int_wire 7 0 _).
  assert (len w = 11) as Hw by (vm_compute; reflexivity). rewrite Hw. simpl Z.eqb. unfold mbind, res_bind.
  rewrite (idx_ok w 0 127) by done.
  pose proof (Integer.decode_integer_wire (2 ^ 64 - 1) 7 0 [] ltac:(apply mask7) ltac:(unfold uint; lia)) as Hd.
  rewrite app_nil_r in Hd. fold w in Hd. rewrite Hd, Hw. cbn [fst snd]. rewrite usub_ok by lia.
  assert (as_usize (2 ^ 64 - 1) = 2 ^ usize_bits - 1) as ->.
  { unfold as_usize, trunc. by destruct usize_bits_ok as [-> | ->]. }
  pose proof pow_usize_ge. rewrite (proj2 (Z.ltb_lt _ _)) by lia.
  unfold usize_add. rewrite decide_False by lia. by rewrite Ho.
Qed.

Lemma read_string_overflow pre cap limit :
  overflow_checks = true →
  read_string (pre ++ Integer.int_wire 7 0 (2 ^ 64 - 1)) (len pre) cap limit = Panic.
Proof.
  intros Ho. unfold read_string. rewrite slice_from_eq by len_lia. unfold mbind, res_bind.
  rewrite Nat2Z.id, drop_app_length. by rewrite parse_string_header_overflow.
Qed.

Lemma decode_first_panic src s s' :
  0 < len src → decode_step src 0 s = (Panic, s') → (decode src s).1 = Panic.
Proof.
  intros Hl Hs. unfold decode. destruct src as [|b src]; [simpl in Hl; lia|].
  cbn [length decode_loop]. rewrite (proj2 (Z.ltb_lt 0 _)) by len_lia.
  unfold mbind, M_bind. by rewrite Hs.
Qed.

Lemma total_read_string src pos cap limit :
  bytes_ok src → 0 ≤ pos ≤ len src → 0 ≤ cap →
  total (read_string src pos cap limit) (λ r, pos < r.2 ≤ len src).
Proof.
  intros Hb Hp Hc. unfold read_string.
  eapply total_bind; [apply total_slice; (done || lia)|]. intros sub [Hsub Hl]. cbv beta.
  eapply total_bind; [by apply total_string_header|]. intros [[huf n] lc] (Hn & Hlc & Hle). simpl in *.
  eapply total_bind; [apply total_slice; (done || lia)|]. intros raw [Hraw Hrl]. cbv beta.
  destruct huf.
  - pose proof (Huffman.decode_total raw (replicate (Z.to_nat cap) 0) Hraw) as Hh.
    destruct (Huffman.decode _ _) as [[k|e|] out]; simpl; [|by apply hpack_error_huffman, Hh|done].
    destruct Hh as [Hk Hout]. unfold slice. rewrite decide_True by len_lia. simpl. lia.
  - destruct (limit && (cap <? n)); simpl; [auto with rust|lia].
Qed.

Lemma total_read_name d src pos i :
  bytes_ok src → 0 ≤ pos ≤ len src → 0 ≤ i → total (read_name d src pos i) (λ r, pos ≤ r.2 ≤ len src).
Proof.
  intros Hb Hp Hi. unfold read_name. destruct (0 <? i).
  - eapply total_bind; [by apply total_table_lookup|]. intros e _. cbv beta.
    destruct (256 <? len e.1); simpl; [auto with rust|lia].
  - pose proof (total_read_string src pos 256 true Hb Hp ltac:(lia)) as Ht.
    destruct (read_string _ _ _ _); simpl in *; [lia|done..].
Qed.

(** The effect of a call on the decoder's state. *)
Definition runs {A} (m : M Error Decoding A) (Q : A → Prop) : Prop := ∀ s,
  table_ok (dec s) →
  table_ok (dec (m s).2) ∧ emitted s `prefix_of` emitted (m s).2 ∧ total (m s).1 Q.

Lemma runs_ret {A} (a : A) (Q : A → Prop) : Q a → runs (mret a) Q.
Proof. intros Ha s Hs. by split_and!. Qed.
Lemma runs_bind {A B} (m : M Error Decoding A) (f : A → M Error Decoding B) Q R :
  runs m Q → (∀ a, Q a → runs (f a) R) → runs (m ≫= f) R.
Proof.
  intros Hm Hf s Hs. destruct (Hm s Hs) as (Ht & He & Hr). unfold mbind, M_bind.
  destruct (m s) as [[a|e|] s']; simpl in *; [|by split_and!..].
  destruct (Hf a Hr s' Ht) as (? & ? & ?). split_and!; [done| |done]. by etrans.
Qed.
Lemma runs_lift {A} (r : result A) Q : total r Q → runs (lift r) Q.
Proof. intros Hr s Hs. by split_and!. Qed.
Lemma runs_get_dec {A} (f : Decoding → M Error Decoding A) Q :
  (∀ s, runs (f s) Q) → runs (s ← get; f s) Q.
Proof. intros Hf s Hs. by apply (Hf s s). Qed.
Lemma runs_emit n v : runs (emit n v) (λ _, True).
Proof. intros s Hs. split_and!; [done| |done]. by eexists. Qed.
Lemma runs_on_dec f :
  (∀ d, table_ok d → total (f d) table_ok) → runs (on_dec f) (λ _, True).
Proof.
  intros Hf s Hs. unfold on_dec. specialize (Hf (dec s) Hs). destruct (f (dec s)); by split_and!.
Qed.

Lemma runs_literal_field src start i index :
  bytes_ok src → 0 ≤ start ≤ len src → 0 ≤ i →
  runs (decode_literal_field src start i index) (λ n, 0 < n ≤ len src - start).
Proof.
  intros Hb Hs Hi. unfold decode_literal_field. apply runs_get_dec. intros s.
  eapply runs_bind; [by apply runs_lift, total_read_name|]. intros [n p] Hp. cbn [fst snd] in *.
  eapply runs_bind; [apply runs_lift, total_read_string; (done || lia)|]. intros [v q] Hq. cbn [fst snd] in *.
  apply (runs_bind _ _ (λ _, True)).
  { destruct index; [|by apply runs_ret]. apply runs_on_dec. intros d Hd.
    rewrite dynamic_insert_eq by done. by eapply table_ok_insert, dynamic_insert_eq. }
  intros _ _. eapply runs_bind; [apply runs_emit|]. intros _ _. apply runs_ret. lia.
Qed.

Lemma runs_step src pos :
  bytes_ok src → 0 ≤ pos < len src → runs (decode_step src pos) (λ p, pos < p ≤ len src).
Proof.
  intros Hb Hp. unfold decode_step.
  eapply runs_bind; [by apply runs_lift, total_idx|]. intros first _. cbv beta.
  eapply runs_bind; [apply runs_lift, total_slice; (done || lia)|]. intros sub [Hsub Hl]. cbv beta.
  assert (∀ p index, 1 ≤ p ≤ 8 →
    runs (r ← lift (Integer.decode_integer sub p);
          n ← decode_literal_field src (pos + r.2) (as_usize r.1) index;
          mret (pos + r.2 + n)) (λ p, pos < p ≤ len src)) as Hlit.
  { intros p index Hp'. eapply runs_bind; [by apply runs_lift, total_integer|].
    intros [v k] [Hv Hk]. cbn [fst snd] in *.
    apply (runs_bind _ _ (λ n, 0 < n ≤ len src - (pos + k))).
    - apply runs_literal_field; [done|lia|apply as_usize_range].
    - intros n Hn. apply runs_ret. lia. }
  repeat match goal with |- context [if ?b then _ else _] => destruct b end; try (apply Hlit; lia).
  - eapply runs_bind; [by apply runs_lift, total_integer|]. intros [v k] [Hv Hk]. cbn [fst snd] in *.
    apply runs_get_dec. intros s.
    eapply runs_bind; [apply runs_lift, total_table_lookup, as_usize_range|]. intros e _. cbv beta.
    eapply runs_bind; [apply runs_emit|]. intros _ _. apply runs_ret. lia.
  - eapply runs_bind; [by apply runs_lift, total_integer|]. intros [v k] [Hv Hk]. cbn [fst snd] in *.
    apply (runs_bind _ _ (λ _, True)).
    + apply runs_on_dec. intros d Hd. pose proof (as_usize_range v).
      pose proof (table_ok_resize (as_usize v) d) as Hr. rewrite resize_eq in * by (done || lia).
      destruct (_ <=? _); [|apply hpack_error_state]. apply Hr; (done || lia).
    + intros _ _. apply runs_ret. lia.
  - intros s Hs. split_and!; [done..|apply hpack_error_state].
Qed.

Lemma runs_loop fuel src pos :
  bytes_ok src → 0 ≤ pos ≤ len src → len src - pos ≤ Z.of_nat fuel →
  runs (decode_loop fuel src pos) (λ n, n = len src).
Proof.
  intros Hb. revert pos. induction fuel as [|fuel IH]; intros pos Hp Hf; cbn [decode_loop].
  - rewrite (proj2 (Z.ltb_ge _ _)) by lia. apply runs_ret. lia.
  - destruct (Z.ltb_spec pos (len src)); [|apply runs_ret; lia].
    eapply runs_bind; [apply runs_step; (done || lia)|]. intros p' Hp'. cbv beta in Hp'. apply IH; lia.
Qed.

End totality.

(** ** Properties *)

(** C25: header lists survive compression.  Into a buffer with room the encoder
    writes a block that the decoder, in any state, reads back as exactly those
    headers in that order, consuming the whole block and leaving its dynamic
    table alone (static-only encoding never indexes); into a shorter buffer it
    reports a short buffer.  Names longer than the decoder's 256-byte buffer are
    excluded. *)
Theorem hpack_roundtrip `{Config} headers buf d :
  Forall header_ok headers →
  if decide (len (block_wire headers) ≤ len buf) then
    ∃ n buf', encode headers buf = (Ok n, buf') ∧
      decode (take (Z.to_nat n) buf') {| dec := d; emitted := [] |} =
      (Ok n, {| dec := d; emitted := headers |})
  else ∃ e buf', encode headers buf = (Err e, buf') ∧ too_small e.
Proof.
  intros Hh. pose proof (Writes_headers headers Hh) as Hw. destruct (decide _) as [Hl|Hl].
  - do 2 eexists. split; [by apply Puts_start, Hl; apply Writes_Puts|].
    rewrite Nat2Z.id, take_app_length.
    by apply (decode_loop_wire (length (block_wire headers)) [] headers {| dec := d; emitted := [] |}).
  - destruct (Writes_start _ _ buf Hw) as [_ Herr]. destruct Herr as (e & s' & Hr & He); [lia|].
    unfold encode, from_start. rewrite Hr. eauto.
Qed.

(** The dynamic table is the RFC 7541 one.  In a decoder whose table
    accounts for its entries, inserting keeps exactly the newest entries that fit
    in [max_size] together with the new one (none when it alone is too large),
    a size update keeps the newest entries that fit in the new size and is
    refused above 4096, neither panics, and both keep the accounting; without
    [alloc] the table does not change. *)
Theorem hpack_table_eviction `{Config} name value new_size d :
  table_ok d → 0 ≤ new_size →
  (∃ d', dynamic_insert name value d = Ok d' ∧ table_ok d' ∧ max_size d' = max_size d ∧
     dynamic d' = if alloc then fit (max_size d) ((name, value) :: dynamic d) else dynamic d) ∧
  (if decide (new_size ≤ 4096) then
     ∃ d', resize new_size d = Ok d' ∧ table_ok d' ∧
       if alloc then dynamic d' = fit new_size (dynamic d) ∧ max_size d' = new_size else d' = d
   else resize new_size d = Err InvalidState).
Proof.
  intros Hd Hn. split.
  - pose proof (dynamic_insert_eq name value d Hd) as He. eexists. split; [exact He|].
    split; [by eapply table_ok_insert|]. by destruct alloc.
  - pose proof (resize_eq new_size d Hd Hn) as He. unfold INITIAL_DYNAMIC_TABLE_SIZE in He.
    destruct (decide _); [rewrite (proj2 (Z.leb_le _ _)) in He by lia
      |rewrite (proj2 (Z.leb_gt _ _)) in He by lia; done].
    eexists. split; [exact He|]. split; [by eapply table_ok_resize|]. by destruct alloc.
Qed.

(** C28: decoding any bytes is safe.  On every input, from every decoder with a
    sound table, [decode] terminates, either consumes the whole block or fails
    with one of the codec's errors, keeps the table's accounting within its
    limit in both cases, and only ever appends to what it has emitted.  Its only
    panic is an overflow check, absent from a build that wraps. *)
Theorem hpack_decode_safe `{Config} src s :
  bytes_ok src → table_ok (dec s) →
  let '(r, s') := decode src s in
  table_ok (dec s') ∧ emitted s `prefix_of` emitted s' ∧
  match r with Ok n => n = len src | Err e => hpack_error e | Panic => overflow_checks = true end.
Proof.
  intros Hb Hs. destruct (runs_loop (length src) src 0 Hb ltac:(lia) ltac:(lia) s Hs) as (? & ? & Ht).
  unfold decode. destruct (decode_loop _ _ _ _). done.
Qed.

(** The overflow check can be reached from the network.  A literal header
    whose name claims a length of 2^64 - 1 makes [parse_string_header] compute
    [len_consumed + length] for its error value, which exceeds [usize] on every
    platform. *)
Theorem hpack_decode_panics `{Config} s :
  overflow_checks = true → (decode (0 :: Integer.int_wire 7 0 (2 ^ 64 - 1)) s).1 = Panic.
Proof.
  intros Ho. set (w := Integer.int_wire 7 0 (2 ^ 64 - 1)). assert (len w = 11) as Hw by (vm_compute; reflexivity).
  change (0 :: w) with ([] ++ Integer.int_wire 4 0 0 ++ w).
  eapply (decode_first_panic _ s s); [rewrite !length_app; lia|].
  change 0 with (len (@nil Z)) at 2. rewrite (decode_step_literal [] 0 w s) by lia.
  unfold decode_literal_field, read_name. rewrite Z.ltb_irrefl.
  change (len [] + _) with (len [0]). unfold mbind, M_bind, get, lift.
  change ([] ++ Integer.int_wire 4 0 0 ++ w) with ([0] ++ w). subst w.
  by rewrite (read_string_overflow [0] 256 true Ho).
Qed.

Definition hpack_config : Config := {| platform := platform64; alloc := true |}.
Definition checked_config : Config := {|
  platform := {| usize_bits := 64; usize_bits_ok := or_intror eq_refl; overflow_checks := true |};
  alloc := true |}.

Lemma hpack_roundtrip_witness :
  let hs := [(bytes ":method", bytes "GET"); (bytes ":path", bytes "/x"); (bytes "x-a", bytes "b")] in
  ∃ n buf', encode hs (replicate 32 0) = (Ok n, buf') ∧
    decode (H := hpack_config) (take (Z.to_nat n) buf') {| dec := new; emitted := [] |} =
    (Ok n, {| dec := new; emitted := hs |}).
Proof.
  apply (@hpack_roundtrip hpack_config
    [(bytes ":method", bytes "GET"); (bytes ":path", bytes "/x"); (bytes "x-a", bytes "b")] (replicate 32 0) new).
  repeat constructor; unfold header_ok, string_ok; simpl; lia.
Defined.

Lemma hpack_decode_safe_witness :
  let '(r, s') := decode (H := hpack_config) [0x40; 1; 97; 1; 98; 0xBE] {| dec := new; emitted := [] |} in
  table_ok (dec s') ∧ [] `prefix_of` emitted s' ∧
  match r with
  | Ok n => n = 6 | Err e => hpack_error e | Panic => overflow_checks (Platform := hpack_config.(platform)) = true
  end.
Proof.
  apply (@hpack_decode_safe hpack_config [0x40; 1; 97; 1; 98; 0xBE] {| dec := new; emitted := [] |}).
  - repeat constructor; done.
  - apply table_ok_new.
Defined.

(** An indexed literal is stored, and the next field can refer to it. *)
Example dynamic_reference :
  decode (H := hpack_config) [0x40; 1; 97; 1; 98; 0xBE] {| dec := new; emitted := [] |} =
  (Ok 6, {| dec := {| dynamic := [([97], [98])]; dynamic_size := 34; max_size := 4096 |};
            emitted := [([97], [98]); ([97], [98])] |}).
Proof. reflexivity. Qed.

End Hpack.
