(* ===== verification/H2Frame.v ===== *)
(** * HTTP/2 frames: [src/h2/frame.rs]

    The frame codec of RFC 9113, section 4, and the parameters of SETTINGS. *)
From S2P Require Import Prelude Errors Varint Cursor.

Module H2Frame.

(** ** Data *)

Definition FRAME_DATA : Z := 0x0.
Definition FRAME_HEADERS : Z := 0x1.
Definition FRAME_PRIORITY : Z := 0x2.
Definition FRAME_RST_STREAM : Z := 0x3.
Definition FRAME_SETTINGS : Z := 0x4.
Definition FRAME_PUSH_PROMISE : Z := 0x5.
Definition FRAME_PING : Z := 0x6.
Definition FRAME_GOAWAY : Z := 0x7.
Definition FRAME_WINDOW_UPDATE : Z := 0x8.
Definition FRAME_CONTINUATION : Z := 0x9.

Definition FLAG_ACK : Z := 0x1.
Definition FLAG_END_STREAM : Z := 0x1.
Definition FLAG_END_HEADERS : Z := 0x4.
Definition FLAG_PADDED : Z := 0x8.
Definition FLAG_PRIORITY : Z := 0x20.

Record H2FrameHeader := {
  h_length : Z; h_frame_type : Z; h_flags : Z; h_stream_id : Z
}.

Record H2Priority := { exclusive : bool; dependency : Z; weight : Z }.

Inductive t :=
| Data (stream_id : Z) (payload : list Z) (end_stream : bool)
| Headers (stream_id : Z) (fragment : list Z) (end_stream end_headers : bool) (priority : option H2Priority)
| Priority (stream_id : Z) (priority : H2Priority)
| RstStream (stream_id error_code : Z)
| Settings (ack : bool) (params : list Z)
| PushPromise (stream_id promised_id : Z) (fragment : list Z) (end_headers : bool)
| Ping (data : list Z) (ack : bool)
| GoAway (last_stream_id error_code : Z) (debug : list Z)
| WindowUpdate (stream_id increment : Z)
| Continuation (stream_id : Z) (fragment : list Z) (end_headers : bool)
| Unknown (frame_type stream_id flags : Z) (payload : list Z).

(** [hdr.flags & FLAG != 0]. *)
Definition has (flags flag : Z) : bool := negb (Z.land flags flag =? 0).

(** [u32::from_be_bytes] of the four bytes at [i], whole and with the reserved
    bit cleared. *)
Definition u32_at (data : list Z) (i : Z) : result Z :=
  b0 ← idx data i; b1 ← idx data (i + 1); b2 ← idx data (i + 2); b3 ← idx data (i + 3);
  Ok (be_val [b0; b1; b2; b3]).
Definition u31_at (data : list Z) (i : Z) : result Z :=
  b0 ← idx data i; b1 ← idx data (i + 1); b2 ← idx data (i + 2); b3 ← idx data (i + 3);
  Ok (be_val [Z.land b0 0x7f; b1; b2; b3]).

(** ** Decoding *)

Definition decode_frame_header (buf : list Z) : result H2FrameHeader :=
  if len buf <? 9 then Err (BufferTooSmall 9) else
  b0 ← idx buf 0; b1 ← idx buf 1; b2 ← idx buf 2;
  let length := Z.lor (Z.lor (Z.shiftl b0 16) (Z.shiftl b1 8)) b2 in
  frame_type ← idx buf 3;
  flags ← idx buf 4;
  stream_id ← u31_at buf 5;
  Ok {| h_length := length; h_frame_type := frame_type; h_flags := flags; h_stream_id := stream_id |}.

Definition strip_padding (payload : list Z) (flags : Z) : result (list Z * Z) :=
  if has flags FLAG_PADDED then
    if len payload =? 0 then Err (BufferTooSmall 1) else
    pad_len ← idx payload 0;
    if len payload <=? pad_len then Err InvalidState else
    data ← slice payload 1 (len payload - pad_len);
    Ok (data, pad_len)
  else Ok (payload, 0).

(** The five bytes of a priority, read in two places. *)
Definition read_priority (data : list Z) : result H2Priority :=
  b0 ← idx data 0;
  dep ← u31_at data 0;
  w ← idx data 4;
  Ok {| exclusive := has b0 0x80; dependency := dep; weight := w |}.

Definition decode_headers (hdr : H2FrameHeader) (payload : list Z) : result t :=
  d ← strip_padding payload (h_flags hdr);
  pf ← (if has (h_flags hdr) FLAG_PRIORITY then
          if len d.1 <? 5 then Err (BufferTooSmall 5) else
          p ← read_priority d.1;
          rest ← slice_from d.1 5;
          Ok (Some p, rest)
        else Ok (None, d.1));
  Ok (Headers (h_stream_id hdr) pf.2 (has (h_flags hdr) FLAG_END_STREAM)
        (has (h_flags hdr) FLAG_END_HEADERS) pf.1).

Definition decode_push_promise (hdr : H2FrameHeader) (payload : list Z) : result t :=
  d ← strip_padding payload (h_flags hdr);
  if len d.1 <? 4 then Err (BufferTooSmall 4) else
  promised_id ← u31_at d.1 0;
  fragment ← slice_from d.1 4;
  Ok (PushPromise (h_stream_id hdr) promised_id fragment (has (h_flags hdr) FLAG_END_HEADERS)).

Definition decode_goaway (hdr : H2FrameHeader) (payload : list Z) : result t :=
  if negb (h_stream_id hdr =? 0) then Err InvalidState else
  if len payload <? 8 then Err (BufferTooSmall 8) else
  last_stream_id ← u31_at payload 0;
  error_code ← u32_at payload 4;
  debug ← slice_from payload 8;
  Ok (GoAway last_stream_id error_code debug).

(** The match on the frame type. *)
Definition decode_payload (hdr : H2FrameHeader) (payload : list Z) : result t :=
  match h_frame_type hdr with
  | 0x0 =>
      d ← strip_padding payload (h_flags hdr);
      Ok (Data (h_stream_id hdr) d.1 (has (h_flags hdr) FLAG_END_STREAM))
  | 0x1 => decode_headers hdr payload
  | 0x2 =>
      if h_stream_id hdr =? 0 then Err InvalidState else
      if negb (len payload =? 5) then Err InvalidState else
      p ← read_priority payload; Ok (Priority (h_stream_id hdr) p)
  | 0x3 =>
      if h_stream_id hdr =? 0 then Err InvalidState else
      if negb (len payload =? 4) then Err InvalidState else
      error_code ← u32_at payload 0; Ok (RstStream (h_stream_id hdr) error_code)
  | 0x4 =>
      if negb (h_stream_id hdr =? 0) then Err InvalidState else
      Ok (Settings (has (h_flags hdr) FLAG_ACK) payload)
  | 0x5 => decode_push_promise hdr payload
  | 0x6 =>
      if negb (h_stream_id hdr =? 0) then Err InvalidState else
      if negb (len payload =? 8) then Err InvalidState else
      data ← copy_at (replicate 8 0) 0 8 payload;
      Ok (Ping data (has (h_flags hdr) FLAG_ACK))
  | 0x7 => decode_goaway hdr payload
  | 0x8 =>
      if negb (len payload =? 4) then Err InvalidState else
      increment ← u31_at payload 0; Ok (WindowUpdate (h_stream_id hdr) increment)
  | 0x9 => Ok (Continuation (h_stream_id hdr) payload (has (h_flags hdr) FLAG_END_HEADERS))
  | _ => Ok (Unknown (h_frame_type hdr) (h_stream_id hdr) (h_flags hdr) payload)
  end.

Definition decode_frame (buf : list Z) : result (t * Z) :=
  hdr ← decode_frame_header buf;
  let total := 9 + h_length hdr in
  if len buf <? total then Err (BufferTooSmall total) else
  payload ← slice buf 9 total;
  frame ← decode_payload hdr payload;
  Ok (frame, total).

(** ** Encoding *)

Definition encode_frame_header (hdr : H2FrameHeader) : M Error (list Z) unit :=
  l ← buf_len;
  if l <? 9 then throw (BufferTooSmall 9) else
  if 0x7fffffff <? h_stream_id hdr then throw InvalidState else
  _ ← store 0 (Z.land (Z.shiftr (h_length hdr) 16) 0xff);
  _ ← store 1 (Z.land (Z.shiftr (h_length hdr) 8) 0xff);
  _ ← store 2 (Z.land (h_length hdr) 0xff);
  _ ← store 3 (h_frame_type hdr);
  _ ← store 4 (h_flags hdr);
  let id_bytes := be_bytes 4 (trunc 32 (h_stream_id hdr)) in
  b0 ← lift (idx id_bytes 0); _ ← store 5 (Z.land b0 0x7f);
  b1 ← lift (idx id_bytes 1); _ ← store 6 b1;
  b2 ← lift (idx id_bytes 2); _ ← store 7 b2;
  b3 ← lift (idx id_bytes 3); store 8 b3.

(** What every arm does: check the room for the frame, write the header, then
    the payload. *)
Definition encode_with (hdr : H2FrameHeader) (total : Z) (body : M Error (list Z) unit) : M Error (list Z) Z :=
  l ← buf_len;
  if l <? total then throw (BufferTooSmall total) else
  _ ← encode_frame_header hdr;
  _ ← body;
  mret total.

Definition put_priority (off : Z) (p : H2Priority) : M Error (list Z) unit :=
  let dep := if exclusive p then Z.lor (dependency p) 0x80000000 else dependency p in
  _ ← store_slice off (off + 4) (be_bytes 4 dep);
  store (off + 4) (weight p).

Definition flag_if (b : bool) (flag : Z) : Z := if b then flag else 0.

Definition encode_frame (frame : t) : M Error (list Z) Z :=
  match frame with
  | Data stream_id payload end_stream =>
      let total := 9 + len payload in
      encode_with {| h_length := trunc 32 (len payload); h_frame_type := FRAME_DATA;
                     h_flags := flag_if end_stream FLAG_END_STREAM; h_stream_id := stream_id |} total
        (store_slice 9 (9 + len payload) payload)
  | Headers stream_id fragment end_stream end_headers priority =>
      let flags := 0 in
      let flags := if end_stream then Z.lor flags FLAG_END_STREAM else flags in
      let flags := if end_headers then Z.lor flags FLAG_END_HEADERS else flags in
      let '(flags, priority_len) :=
        match priority with Some _ => (Z.lor flags FLAG_PRIORITY, 5) | None => (flags, 0) end in
      let payload_len := priority_len + len fragment in
      encode_with {| h_length := trunc 32 payload_len; h_frame_type := FRAME_HEADERS;
                     h_flags := flags; h_stream_id := stream_id |} (9 + payload_len)
        (match priority with
         | Some p => _ ← put_priority 9 p; store_slice 14 (14 + len fragment) fragment
         | None => store_slice 9 (9 + len fragment) fragment
         end)
  | Priority stream_id priority =>
      encode_with {| h_length := 5; h_frame_type := FRAME_PRIORITY; h_flags := 0;
                     h_stream_id := stream_id |} 14 (put_priority 9 priority)
  | RstStream stream_id error_code =>
      encode_with {| h_length := 4; h_frame_type := FRAME_RST_STREAM; h_flags := 0;
                     h_stream_id := stream_id |} 13 (store_slice 9 13 (be_bytes 4 error_code))
  | Settings ack params =>
      let total := 9 + len params in
      encode_with {| h_length := trunc 32 (len params); h_frame_type := FRAME_SETTINGS;
                     h_flags := flag_if ack FLAG_ACK; h_stream_id := 0 |} total
        (store_slice 9 total params)
  | PushPromise stream_id promised_id fragment end_headers =>
      let payload_len := 4 + len fragment in
      let total := 9 + payload_len in
      encode_with {| h_length := trunc 32 payload_len; h_frame_type := FRAME_PUSH_PROMISE;
                     h_flags := flag_if end_headers FLAG_END_HEADERS; h_stream_id := stream_id |} total
        (_ ← store_slice 9 13 (be_bytes 4 (Z.land (trunc 32 promised_id) 0x7fffffff));
         store_slice 13 total fragment)
  | Ping data ack =>
      encode_with {| h_length := 8; h_frame_type := FRAME_PING; h_flags := flag_if ack FLAG_ACK;
                     h_stream_id := 0 |} 17 (store_slice 9 17 data)
  | GoAway last_stream_id error_code debug =>
      let payload_len := 8 + len debug in
      let total := 9 + payload_len in
      encode_with {| h_length := trunc 32 payload_len; h_frame_type := FRAME_GOAWAY; h_flags := 0;
                     h_stream_id := 0 |} total
        (_ ← store_slice 9 13 (be_bytes 4 (Z.land (trunc 32 last_stream_id) 0x7fffffff));
         _ ← store_slice 13 17 (be_bytes 4 error_code);
         store_slice 17 total debug)
  | WindowUpdate stream_id increment =>
      encode_with {| h_length := 4; h_frame_type := FRAME_WINDOW_UPDATE; h_flags := 0;
                     h_stream_id := stream_id |} 13
        (store_slice 9 13 (be_bytes 4 (Z.land increment 0x7fffffff)))
  | Continuation stream_id fragment end_headers =>
      let total := 9 + len fragment in
      encode_with {| h_length := trunc 32 (len fragment); h_frame_type := FRAME_CONTINUATION;
                     h_flags := flag_if end_headers FLAG_END_HEADERS; h_stream_id := stream_id |} total
        (store_slice 9 total fragment)
  | Unknown _ _ _ _ => mret 0
  end.

(** ** Settings *)

Definition encode_setting (id value : Z) : M Error (list Z) Z :=
  l ← buf_len;
  if l <? 6 then throw (BufferTooSmall 6) else
  _ ← store_slice 0 2 (be_bytes 2 id);
  _ ← store_slice 2 6 (be_bytes 4 value);
  mret 6.

Section settings.
Context {ST : Type} (emit : Z → Z → M Error ST unit).

(** Every iteration reads six bytes, so [fuel = payload.len()] suffices. *)
Fixpoint settings_loop (fuel : nat) (payload : list Z) (pos : Z) : M Error ST unit :=
  if pos + 6 <=? len payload then
    match fuel with
    | O => lift Panic
    | S fuel =>
        b0 ← lift (idx payload pos); b1 ← lift (idx payload (pos + 1));
        value ← lift (u32_at payload (pos + 2));
        _ ← emit (be_val [b0; b1]) value;
        settings_loop fuel payload (pos + 6)
    end
  else mret tt.
Definition decode_settings_params (payload : list Z) : M Error ST unit :=
  if negb (len payload mod 6 =? 0) then throw InvalidState
  else settings_loop (length payload) payload 0.

End settings.

(** ** Wire form *)

Definition header_wire (hdr : H2FrameHeader) : list Z :=
  be_bytes 3 (h_length hdr) ++ [h_frame_type hdr; h_flags hdr] ++ be_bytes 4 (h_stream_id hdr).

Definition priority_wire (p : H2Priority) : list Z :=
  be_bytes 4 (dependency p + if exclusive p then 2 ^ 31 else 0) ++ [weight p].

Definition payload_wire (f : t) : list Z :=
  match f with
  | Data _ payload _ => payload
  | Headers _ fragment _ _ (Some p) => priority_wire p ++ fragment
  | Headers _ fragment _ _ None => fragment
  | Priority _ p => priority_wire p
  | RstStream _ error_code => be_bytes 4 error_code
  | Settings _ params => params
  | PushPromise _ promised_id fragment _ => be_bytes 4 promised_id ++ fragment
  | Ping data _ => data
  | GoAway last_stream_id error_code debug => be_bytes 4 last_stream_id ++ be_bytes 4 error_code ++ debug
  | WindowUpdate _ increment => be_bytes 4 increment
  | Continuation _ fragment _ => fragment
  | Unknown _ _ _ payload => payload
  end.

Definition frame_type (f : t) : Z :=
  match f with
  | Data _ _ _ => 0 | Headers _ _ _ _ _ => 1 | Priority _ _ => 2 | RstStream _ _ => 3 | Settings _ _ => 4
  | PushPromise _ _ _ _ => 5 | Ping _ _ => 6 | GoAway _ _ _ => 7 | WindowUpdate _ _ => 8
  | Continuation _ _ _ => 9 | Unknown ty _ _ _ => ty
  end.
Definition frame_flags (f : t) : Z :=
  match f with
  | Data _ _ es => flag_if es FLAG_END_STREAM
  | Headers _ _ es eh p =>
      flag_if es FLAG_END_STREAM + flag_if eh FLAG_END_HEADERS +
      match p with Some _ => FLAG_PRIORITY | None => 0 end
  | Settings ack _ | Ping _ ack => flag_if ack FLAG_ACK
  | PushPromise _ _ _ eh | Continuation _ _ eh => flag_if eh FLAG_END_HEADERS
  | Unknown _ _ flags _ => flags
  | _ => 0
  end.
Definition frame_stream (f : t) : Z :=
  match f with
  | Data sid _ _ | Headers sid _ _ _ _ | Priority sid _ | RstStream sid _ | PushPromise sid _ _ _
  | WindowUpdate sid _ | Continuation sid _ _ | Unknown _ sid _ _ => sid
  | Settings _ _ | Ping _ _ | GoAway _ _ _ => 0
  end.
Definition frame_header (f : t) : H2FrameHeader :=
  {| h_length := len (payload_wire f); h_frame_type := frame_type f; h_flags := frame_flags f;
     h_stream_id := frame_stream f |}.
Definition frame_wire (f : t) : list Z := header_wire (frame_header f) ++ payload_wire f.

(** What the fields of a frame hold on the wire. *)
Definition priority_ok (p : H2Priority) : Prop := uint 31 (dependency p) ∧ byte_ok (weight p).
Definition fields_ok (f : t) : Prop :=
  match f with
  | Data _ _ _ | Settings _ _ | Continuation _ _ _ => True
  | Headers _ _ _ _ p => match p with Some p => priority_ok p | None => True end
  | Priority sid p => sid ≠ 0 ∧ priority_ok p
  | RstStream sid error_code => sid ≠ 0 ∧ uint 32 error_code
  | PushPromise _ promised_id _ _ => uint 31 promised_id
  | Ping data _ => len data = 8
  | GoAway last_stream_id error_code _ => uint 31 last_stream_id ∧ uint 32 error_code
  | WindowUpdate _ increment => uint 31 increment
  | Unknown _ _ _ _ => False
  end.
Definition frame_ok (f : t) : Prop :=
  uint 31 (frame_stream f) ∧ len (payload_wire f) < 2 ^ 24 ∧ fields_ok f.

(** ** Big-endian fields *)

Lemma be_bytes4 v : ∃ b0 b1 b2 b3, be_bytes 4 v = [b0; b1; b2; b3].
Proof. simpl. eauto. Qed.

Lemma u32_at_app pre l i : 0 ≤ i → u32_at (pre ++ l) (len pre + i) = u32_at l i.
Proof. intros. unfold u32_at. by rewrite <- !Z.add_assoc, !idx_app by lia. Qed.
Lemma u31_at_app pre l i : 0 ≤ i → u31_at (pre ++ l) (len pre + i) = u31_at l i.
Proof. intros. unfold u31_at. by rewrite <- !Z.add_assoc, !idx_app by lia. Qed.

Lemma u32_at_bytes v rest : uint 32 v → u32_at (be_bytes 4 v ++ rest) 0 = Ok v.
Proof.
  intros Hv. pose proof (be_val_be_bytes_id 4 v Hv) as He.
  destruct (be_bytes4 v) as (b0 & b1 & b2 & b3 & Hb). rewrite Hb in *. rewrite <- He. unfold u32_at. simpl app.
  by repeat (erewrite idx_ok by (lia || reflexivity); simpl).
Qed.

(** The first byte carries the reserved or exclusive bit. *)
Lemma u31_at_bytes v (r : bool) rest :
  uint 31 v → u31_at (be_bytes 4 (v + if r then 2 ^ 31 else 0) ++ rest) 0 = Ok v.
Proof.
  intros Hv. set (w := v + _). assert (uint 32 w) as Hw by (unfold uint in *; subst w; destruct r; lia).
  pose proof (be_val_be_bytes_id 4 w Hw) as He. pose proof (bytes_ok_be_bytes 4 w) as Hok.
  destruct (be_bytes4 w) as (b0 & b1 & b2 & b3 & Hb). rewrite Hb in *. unfold u31_at. simpl app.
  repeat (erewrite idx_ok by (lia || reflexivity); simpl).
  apply Forall_cons in Hok as [H0 [H1 [H2 [H3 _]%Forall_cons]%Forall_cons]%Forall_cons].
  f_equal. unfold be_val, byte_ok, uint in *. simpl in *.
  change 0x7f with (Z.ones 7). rewrite Z.land_ones by lia. subst w. destruct r; div_lia.
Qed.

Lemma first_bit v (r : bool) rest :
  uint 31 v → ∃ b0, idx (E:=Error) (be_bytes 4 (v + if r then 2 ^ 31 else 0) ++ rest) 0 = Ok b0 ∧ has b0 0x80 = r.
Proof.
  intros Hv. eexists. split; [by apply idx_ok|]. change (256 ^ Z.of_nat 3) with 16777216.
  unfold has, uint in *. destruct r.
  - assert ((v + 2 ^ 31) / 16777216 mod 256 = 128 + v / 16777216) as -> by div_lia.
    assert (0 ≤ v / 16777216 < 128) by div_lia.
    pose proof (byte_forall (λ b, (b <? 128) || negb (Z.land b 0x80 =? 0)) ltac:(vm_compute; reflexivity)
      (128 + v / 16777216) ltac:(unfold byte_ok; lia)) as Hf. cbv beta in Hf.
    by rewrite (proj2 (Z.ltb_ge _ 128)) in Hf by lia.
  - assert ((v + 0) / 16777216 mod 256 = v / 16777216) as -> by div_lia.
    assert (0 ≤ v / 16777216 < 128) by div_lia.
    pose proof (byte_forall (λ b, (127 <? b) || (Z.land b 0x80 =? 0)) ltac:(vm_compute; reflexivity)
      (v / 16777216) ltac:(unfold byte_ok; lia)) as Hf. cbv beta in Hf.
    rewrite (proj2 (Z.ltb_ge 127 _)) in Hf by lia. simpl in Hf. by rewrite Hf.
Qed.

(** ** Headers *)

Definition header_ok (hdr : H2FrameHeader) : Prop :=
  0 ≤ h_length hdr ∧ uint 31 (h_stream_id hdr).

Lemma len_header_wire hdr : len (header_wire hdr) = 9.
Proof. unfold header_wire. len_lia. Qed.

Lemma land_ff v : Z.land v 0xff = v mod 256.
Proof. change 0xff with (Z.ones 8). by rewrite Z.land_ones. Qed.

Lemma Fills_header_bytes hdr :
  uint 31 (h_stream_id hdr) →
  Fills 0 (
    _ ← store 0 (Z.land (Z.shiftr (h_length hdr) 16) 0xff);
    _ ← store 1 (Z.land (Z.shiftr (h_length hdr) 8) 0xff);
    _ ← store 2 (Z.land (h_length hdr) 0xff);
    _ ← store 3 (h_frame_type hdr);
    _ ← store 4 (h_flags hdr);
    let id_bytes := be_bytes 4 (trunc 32 (h_stream_id hdr)) in
    b0 ← lift (idx id_bytes 0); _ ← store 5 (Z.land b0 0x7f);
    b1 ← lift (idx id_bytes 1); _ ← store 6 b1;
    b2 ← lift (idx id_bytes 2); _ ← store 7 b2;
    b3 ← lift (idx id_bytes 3); store 8 b3) (header_wire hdr).
Proof.
  intros Hid. rewrite !land_ff, !Z.shiftr_div_pow2 by lia.
  unfold header_wire. rewrite trunc_small by (unfold uint in *; lia). cbv zeta.
  assert (∃ b0 b1 b2 b3, be_bytes 4 (h_stream_id hdr) = [b0; b1; b2; b3] ∧ Z.land b0 0x7f = b0)
    as (b0 & b1 & b2 & b3 & -> & Hb0).
  { do 4 eexists. split; [reflexivity|]. change 0x7f with (Z.ones 7). rewrite Z.land_ones by lia.
    change (256 ^ Z.of_nat 3) with 16777216. unfold uint in Hid. div_lia. }
  simpl be_bytes. rewrite Z.div_1_r. simpl app.
  repeat (apply (Fills_bind _ _ _ [_]); [apply Fills_store|]; simpl).
  repeat (apply (Fills_lift _ _ _ _ _ eq_refl); try (apply (Fills_bind _ _ _ [_]); [|]); simpl).
  all: rewrite ?Hb0; apply Fills_store.
Qed.

Lemma encode_header_ok hdr buf :
  uint 31 (h_stream_id hdr) → 9 ≤ len buf →
  encode_frame_header hdr buf = (Ok tt, header_wire hdr ++ drop 9 buf).
Proof.
  intros Hid Hl. unfold encode_frame_header. erewrite M_step_ok by reflexivity.
  rewrite (proj2 (Z.ltb_ge _ _)) by lia.
  rewrite (proj2 (Z.ltb_ge _ _)) by (unfold uint in Hid; lia).
  by rewrite (Fills_start _ _ _ (Fills_header_bytes hdr Hid)) by (rewrite len_header_wire; lia).
Qed.

Lemma encode_with_ok hdr total body payload buf :
  uint 31 (h_stream_id hdr) → Fills 9 body payload → total = 9 + len payload →
  encode_with hdr total body buf =
  if decide (total ≤ len buf)
  then (Ok total, header_wire hdr ++ payload ++ drop (Z.to_nat total) buf)
  else (Err (BufferTooSmall total), buf).
Proof.
  intros Hid Hb ->. unfold encode_with. erewrite M_step_ok by reflexivity.
  destruct (decide _); [rewrite (proj2 (Z.ltb_ge _ _)) by lia|by rewrite (proj2 (Z.ltb_lt _ _)) by lia].
  erewrite M_step_ok by (apply encode_header_ok; (done || lia)).
  erewrite M_step_ok by (apply Hb; [apply len_header_wire|len_lia]).
  unfold mret, M_ret. rewrite <- app_assoc, drop_drop. do 4 f_equal. lia.
Qed.

Lemma land_31 v : uint 31 v → Z.land v 0x7fffffff = v.
Proof.
  intros Hv. change 0x7fffffff with (Z.ones 31). rewrite Z.land_ones by lia. by apply Z.mod_small.
Qed.

Lemma Fills_priority i p : priority_ok p → Fills i (put_priority i p) (priority_wire p).
Proof.
  intros [Hd Hw]. unfold put_priority, priority_wire. cbv zeta.
  assert ((if exclusive p then Z.lor (dependency p) 0x80000000 else dependency p) =
          dependency p + if exclusive p then 2 ^ 31 else 0) as ->.
  { destruct (exclusive p); [|lia]. rewrite Z.lor_comm, (lor_disjoint_add _ _ 31); (done || lia). }
  apply Fills_bind; [by apply Fills_slice|]. apply Fills_store.
Qed.

(** The payload each arm of the encoder writes. *)
Lemma encode_frame_wire f buf :
  frame_ok f →
  encode_frame f buf =
  if decide (len (frame_wire f) ≤ len buf)
  then (Ok (len (frame_wire f)), frame_wire f ++ drop (length (frame_wire f)) buf)
  else (Err (BufferTooSmall (len (frame_wire f))), buf).
Proof.
  intros (Hid & Hlen & Hf).
  assert (len (frame_wire f) = 9 + len (payload_wire f)) as Hw.
  { unfold frame_wire. rewrite length_app, Nat2Z.inj_add, len_header_wire. done. }
  assert (∃ body, Fills 9 body (payload_wire f) ∧
    encode_frame f = encode_with (frame_header f) (9 + len (payload_wire f)) body) as (body & Hb & ->).
  { destruct f as [sid payload es|sid frag es eh [p|]|sid p|sid ec|ack params|sid pid frag eh|data ack
      |last ec debug|sid inc|sid frag eh|ty sid fl payload]; cbn [fields_ok frame_stream payload_wire] in *;
      [..|done]; unfold encode_frame, frame_header; cbn [payload_wire frame_type frame_flags frame_stream].
    all: rewrite ?(trunc_small 32) by (unfold uint in *; len_lia); rewrite ?land_31 by (unfold uint in *; naive_solver).
    all: eexists; (split; [|f_equal; f_equal; try done]).
    all: try (unfold priority_wire; len_lia); try (destruct es, eh; done); try (apply Fills_priority; naive_solver).
    all: repeat (apply Fills_bind; [by apply Fills_slice || by apply Fills_priority|]).
    all: apply Fills_slice; try done; len_lia. }
  rewrite (encode_with_ok _ _ _ (payload_wire f)) by done. rewrite Hw.
  destruct (decide _); [|done]. unfold frame_wire. rewrite <- app_assoc. do 4 f_equal.
  unfold frame_wire in Hw. lia.
Qed.

(** ** Decoding the wire form *)

Lemma decode_header_wire hdr rest :
  uint 31 (h_stream_id hdr) →
  decode_frame_header (header_wire hdr ++ rest) =
  Ok {| h_length := h_length hdr mod 2 ^ 24; h_frame_type := h_frame_type hdr; h_flags := h_flags hdr;
        h_stream_id := h_stream_id hdr |}.
Proof.
  intros Hid. unfold decode_frame_header. pose proof (len_header_wire hdr).
  rewrite (proj2 (Z.ltb_ge _ _)) by len_lia.
  pose proof (u31_at_app (be_bytes 3 (h_length hdr) ++ [h_frame_type hdr; h_flags hdr])
    (be_bytes 4 (h_stream_id hdr) ++ rest) 0 ltac:(lia)) as Hu.
  pose proof (u31_at_bytes (h_stream_id hdr) false rest Hid) as Hu'. rewrite Z.add_0_r in Hu'.
  rewrite Hu' in Hu. rewrite <- app_assoc, app_assoc in Hu.
  pose proof (be_val_be_bytes 3 (h_length hdr)) as Hl. pose proof (bytes_ok_be_bytes 3 (h_length hdr)) as Hok.
  unfold header_wire in *. rewrite <- !app_assoc in *.
  assert (∃ b0 b1 b2, be_bytes 3 (h_length hdr) = [b0; b1; b2]) as (b0 & b1 & b2 & Hb) by (simpl; eauto).
  rewrite Hb in *. simpl app in *. change (len _ + 0) with 5 in Hu.
  repeat (erewrite idx_ok by (lia || reflexivity); simpl). rewrite Hu. simpl.
  apply Forall_cons in Hok as [? [? [? _]%Forall_cons]%Forall_cons].
  by rewrite header_length_bits, Hl by done.
Qed.

Lemma read_priority_wire p rest : priority_ok p → read_priority (priority_wire p ++ rest) = Ok p.
Proof.
  intros [Hd Hw]. unfold read_priority, priority_wire. rewrite <- app_assoc.
  destruct (first_bit (dependency p) (exclusive p) ([weight p] ++ rest) Hd) as (b0 & -> & Hb). cbn [mbind res_bind].
  rewrite u31_at_bytes by done. cbn [mbind res_bind].
  pose proof (idx_app (E:=Error) (be_bytes 4 (dependency p + if exclusive p then 2 ^ 31 else 0)) ([weight p] ++ rest) 0
    ltac:(lia)) as Hi. rewrite length_be_bytes in Hi. change (Z.of_nat 4 + 0) with 4 in Hi. rewrite Hi.
  rewrite (idx_ok _ 0 (weight p)) by done. simpl. rewrite Hb. by destruct p.
Qed.

Lemma decode_payload_wire f :
  frame_ok f → decode_payload (frame_header f) (payload_wire f) = Ok f.
Proof.
  intros (Hid & Hlen & Hf).
  destruct f as [sid payload es|sid frag es eh p|sid p|sid ec|ack params|sid pid frag eh|data ack
      |last ec debug|sid inc|sid frag eh|ty sid fl payload]; [..|done];
    unfold decode_payload; cbn [frame_header h_frame_type frame_type h_flags h_stream_id frame_flags frame_stream
      payload_wire fields_ok] in *.
  - by destruct es.
  - unfold decode_headers. cbn [frame_header h_flags h_stream_id frame_flags frame_stream].
    destruct p as [p|].
    + assert (strip_padding (priority_wire p ++ frag) (flag_if es FLAG_END_STREAM + flag_if eh FLAG_END_HEADERS +
        FLAG_PRIORITY) = Ok (priority_wire p ++ frag, 0)) as -> by (by destruct es, eh).
      cbn [mbind res_bind fst snd].
      rewrite (proj2 (Z.ltb_ge _ 5)) by (unfold priority_wire; len_lia).
      rewrite read_priority_wire by done. cbn [mbind res_bind].
      rewrite slice_from_app by (unfold priority_wire; len_lia). by destruct es, eh.
    + by destruct es, eh.
  - destruct Hf as [Hs Hp]. rewrite (proj2 (Z.eqb_neq _ 0) Hs).
    pose proof (read_priority_wire p [] Hp) as Hr. rewrite app_nil_r in Hr. by rewrite Hr.
  - destruct Hf as [Hs Hp]. rewrite (proj2 (Z.eqb_neq _ 0) Hs).
    pose proof (u32_at_bytes ec [] Hp) as Hr. rewrite app_nil_r in Hr. by rewrite Hr.
  - by destruct ack.
  - unfold decode_push_promise. cbn [frame_header h_flags h_stream_id frame_flags frame_stream].
    assert (strip_padding (be_bytes 4 pid ++ frag) (flag_if eh FLAG_END_HEADERS) = Ok (be_bytes 4 pid ++ frag, 0))
      as -> by (by destruct eh). cbn [mbind res_bind fst snd].
    rewrite (proj2 (Z.ltb_ge _ 4)) by len_lia.
    pose proof (u31_at_bytes pid false frag Hf) as Hu. rewrite Z.add_0_r in Hu. rewrite Hu. cbn [mbind res_bind].
    rewrite slice_from_app by done. by destruct eh.
  - rewrite Hf. cbn [negb Z.eqb Pos.eqb]. rewrite copy_at_eq by (simpl; lia). simpl. rewrite app_nil_r.
    by destruct ack.
  - destruct Hf as [Hl He]. unfold decode_goaway. cbn [frame_header h_stream_id frame_stream].
    rewrite (proj2 (Z.ltb_ge _ 8)) by len_lia. cbn [negb Z.eqb].
    pose proof (u31_at_bytes last false (be_bytes 4 ec ++ debug) Hl) as Hu. rewrite Z.add_0_r in Hu. rewrite Hu.
    pose proof (u32_at_app (be_bytes 4 last) (be_bytes 4 ec ++ debug) 0 ltac:(lia)) as Hu'.
    rewrite u32_at_bytes in Hu' by done. cbn [mbind res_bind]. change (len (be_bytes 4 last) + 0) with 4 in Hu'.
    rewrite Hu'. cbn [mbind res_bind]. by rewrite app_assoc, slice_from_app by done.
  - pose proof (u31_at_bytes inc false [] Hf) as Hu. rewrite Z.add_0_r, app_nil_r in Hu. by rewrite Hu.
  - by destruct eh.
Qed.

Lemma decode_frame_wire f rest :
  frame_ok f → decode_frame (frame_wire f ++ rest) = Ok (f, len (frame_wire f)).
Proof.
  intros Hf. pose proof Hf as (Hid & Hlen & _). unfold decode_frame, frame_wire. rewrite <- app_assoc.
  rewrite decode_header_wire by done. cbn [mbind res_bind h_length].
  rewrite Z.mod_small by (simpl; lia). cbn [frame_header h_length].
  pose proof (len_header_wire (frame_header f)).
  rewrite (proj2 (Z.ltb_ge _ _)) by len_lia.
  rewrite slice_middle by lia. cbn [mbind res_bind].
  change ({| h_length := _; h_frame_type := _; h_flags := _; h_stream_id := _ |}) with (frame_header f).
  rewrite decode_payload_wire by done. simpl. do 2 f_equal. len_lia.
Qed.

(** ** Totality *)

Definition h2_error (e : Error) : Prop := too_small e ∨ e = InvalidState.
Definition settled {A} (r : result A) (Q : A → Prop) : Prop :=
  match r with Ok a => Q a | Err e => h2_error e | Panic => False end.

Lemma settled_bind {A B} (r : result A) (f : A → result B) Q R :
  settled r Q → (∀ a, Q a → settled (f a) R) → settled (r ≫= f) R.
Proof. destruct r; simpl; auto. Qed.
Lemma settled_small {A} n (Q : A → Prop) : settled (Err (BufferTooSmall n)) Q.
Proof. left. by eexists. Qed.
Lemma settled_state {A} (Q : A → Prop) : settled (Err InvalidState) Q.
Proof. by right. Qed.
#[local] Hint Resolve settled_small settled_state : rust.

Lemma settled_idx (l : list Z) i : bytes_ok l → 0 ≤ i < len l → settled (idx l i) byte_ok.
Proof.
  intros Hb Hi. destruct (idx_no_panic (E:=Error) l i Hi) as [a Ha]. rewrite Ha. by eapply idx_byte.
Qed.
Lemma settled_slice (l : list Z) a b :
  bytes_ok l → 0 ≤ a ≤ b → b ≤ len l → settled (slice l a b) (λ s, bytes_ok s ∧ len s = b - a).
Proof. intros. rewrite slice_eq by done. split; [by apply Forall_take, Forall_drop|len_lia]. Qed.

Lemma be_val4_bound b0 b1 b2 b3 : byte_ok b0 → byte_ok b1 → byte_ok b2 → byte_ok b3 → uint 32 (be_val [b0; b1; b2; b3]).
Proof. intros. apply (be_val_bound [b0; b1; b2; b3]). rewrite !Forall_cons. auto using Forall_nil_2. Qed.

Lemma settled_u32 l i : bytes_ok l → 0 ≤ i → i + 4 ≤ len l → settled (u32_at l i) (uint 32).
Proof.
  intros Hb Hi Hl. unfold u32_at.
  do 4 (eapply settled_bind; [apply settled_idx; (done || lia)|]; intros ? ?). by apply be_val4_bound.
Qed.
Lemma settled_u31 l i : bytes_ok l → 0 ≤ i → i + 4 ≤ len l → settled (u31_at l i) (uint 31).
Proof.
  intros Hb Hi Hl. unfold u31_at.
  do 4 (eapply settled_bind; [apply settled_idx; (done || lia)|]; intros ? ?).
  change 0x7f with (Z.ones 7). rewrite Z.land_ones by lia.
  unfold settled, uint, byte_ok, be_val in *. simpl. div_lia.
Qed.

Lemma settled_padding payload flags :
  bytes_ok payload → settled (strip_padding payload flags) (λ d, bytes_ok d.1 ∧ len d.1 ≤ len payload).
Proof.
  intros Hb. unfold strip_padding. destruct (has _ _); [|done].
  destruct (Z.eqb_spec (len payload) 0) as [|Hne]; [auto with rust|].
  eapply settled_bind; [apply settled_idx; (done || lia)|]. intros pad Hp.
  destruct (Z.leb_spec (len payload) pad); [auto with rust|]. destruct Hp.
  eapply settled_bind; [apply settled_slice; (done || lia)|]. intros d [Hd Hl]. simpl. split; [done|lia].
Qed.

Lemma settled_priority d : bytes_ok d → 5 ≤ len d → settled (read_priority d) priority_ok.
Proof.
  intros Hb Hl. unfold read_priority.
  eapply settled_bind; [apply settled_idx; (done || lia)|]. intros b0 _.
  eapply settled_bind; [apply settled_u31; (done || lia)|]. intros dep Hdep.
  eapply settled_bind; [apply settled_idx; (done || lia)|]. intros w Hw. done.
Qed.

(** A decoded frame is one the encoder accepts, or of an unknown type. *)
Definition decoded_ok (f : t) : Prop :=
  match f with Unknown _ _ _ _ => True | _ => frame_ok f end.

Section payload.
Context (hdr : H2FrameHeader) (payload : list Z).
Context (Hid : uint 31 (h_stream_id hdr)) (Hb : bytes_ok payload) (Hl : len payload < 2 ^ 24).

Lemma settled_headers : settled (decode_headers hdr payload) decoded_ok.
Proof.
  unfold decode_headers. eapply settled_bind; [by apply settled_padding|]. intros [d pad] [Hd Hdl]. cbn [fst snd] in *.
  apply (settled_bind _ _ (λ pf, len pf.2 + match pf.1 with Some _ => 5 | None => 0 end < 2 ^ 24 ∧
    match pf.1 with Some p => priority_ok p | None => True end)).
  - destruct (has _ _); [|simpl; split; [lia|done]]. destruct (Z.ltb_spec (len d) 5); [auto with rust|].
    eapply settled_bind; [by apply settled_priority|]. intros p Hp.
    eapply settled_bind; [apply settled_slice; (done || lia)|]. intros s [_ Hs]. simpl. split; [lia|done].
  - intros [[p|] frag] [Hf Hp]; cbn [fst snd] in *; split_and!; try done; cbn [payload_wire]; try lia.
    unfold priority_wire. len_lia.
Qed.

Lemma settled_push_promise : settled (decode_push_promise hdr payload) decoded_ok.
Proof.
  unfold decode_push_promise. eapply settled_bind; [by apply settled_padding|]. intros [d pad] [Hd Hdl]. cbn [fst snd] in *.
  destruct (Z.ltb_spec (len d) 4); [auto with rust|].
  eapply settled_bind; [apply settled_u31; (done || lia)|]. intros pid Hpid.
  eapply settled_bind; [apply settled_slice; (done || lia)|]. intros frag [_ Hf].
  split_and!; [done|cbn [payload_wire]; len_lia|done].
Qed.

Lemma settled_goaway : settled (decode_goaway hdr payload) decoded_ok.
Proof.
  unfold decode_goaway. destruct (negb _); [auto with rust|].
  destruct (Z.ltb_spec (len payload) 8); [auto with rust|].
  eapply settled_bind; [apply settled_u31; (done || lia)|]. intros lst Hlst.
  eapply settled_bind; [apply settled_u32; (done || lia)|]. intros ec Hec.
  eapply settled_bind; [apply settled_slice; (done || lia)|]. intros debug [_ Hf].
  split_and!; [done|cbn [payload_wire]; len_lia|done].
Qed.

Lemma settled_payload : settled (decode_payload hdr payload) decoded_ok.
Proof.
  unfold decode_payload. destruct (Z.eqb_spec (h_stream_id hdr) 0) as [H0|H0]; cbn [negb].
  all: destruct (h_frame_type hdr) as [|[[[|[]|]|[[]|[]|]|]|[[]|[[]|[]|]|]|]|]; try done.
  all: try (apply settled_headers || apply settled_push_promise || apply settled_goaway || apply settled_state).
  all: try (eapply settled_bind; [by apply settled_padding|]; intros d [Hd Hdl];
    split_and!; [done|cbn [payload_wire]; lia|done]).
  all: try (destruct (Z.eqb_spec (len payload) 5); [|apply settled_state]; cbn [negb];
    eapply settled_bind; [apply settled_priority; (done || lia)|]; intros p Hp; done).
  all: try (destruct (Z.eqb_spec (len payload) 4); [|apply settled_state]; cbn [negb];
    eapply settled_bind; [first [apply settled_u32; (done || lia)|apply settled_u31; (done || lia)]|]; intros p Hp; done).
  all: try (split_and!; done).
  all: destruct (Z.eqb_spec (len payload) 8); [|apply settled_state]; cbn [negb].
  all: rewrite copy_at_eq by (simpl; lia); simpl; rewrite app_nil_r; split_and!; cbn; (done || lia).
Qed.

End payload.

Lemma settled_frame_header buf :
  bytes_ok buf →
  settled (decode_frame_header buf) (λ hdr, uint 24 (h_length hdr) ∧ uint 31 (h_stream_id hdr) ∧ 9 ≤ len buf).
Proof.
  intros Hb. unfold decode_frame_header. destruct (Z.ltb_spec (len buf) 9); [auto with rust|].
  do 3 (eapply settled_bind; [apply settled_idx; (done || lia)|]; intros ? ?). cbv zeta.
  do 2 (eapply settled_bind; [apply settled_idx; (done || lia)|]; intros ? _).
  eapply settled_bind; [apply settled_u31; (done || lia)|]. intros sid Hsid. simpl.
  rewrite header_length_bits by done. split; [|done].
  apply (be_val_bound [a; a0; a1]). rewrite !Forall_cons. auto using Forall_nil_2.
Qed.

(** ** Settings *)

Definition setting_wire (p : Z * Z) : list Z := be_bytes 2 p.1 ++ be_bytes 4 p.2.
Definition settings_wire (l : list (Z * Z)) : list Z := concat (setting_wire <$> l).
Definition setting_ok (p : Z * Z) : Prop := uint 16 p.1 ∧ uint 32 p.2.

(** The callback applied to a list of parameters, stopping at its first error. *)
Fixpoint emit_all {ST} (emit : Z → Z → M Error ST unit) (l : list (Z * Z)) : M Error ST unit :=
  match l with [] => mret tt | p :: l' => _ ← emit p.1 p.2; emit_all emit l' end.

Lemma length_setting_wire p : length (setting_wire p) = 6%nat.
Proof. done. Qed.
Lemma settings_wire_cons p l : settings_wire (p :: l) = setting_wire p ++ settings_wire l.
Proof. done. Qed.
Lemma length_settings_wire l : length (settings_wire l) = (6 * length l)%nat.
Proof.
  induction l as [|p l IH]; [done|]. rewrite settings_wire_cons, length_app, length_setting_wire, IH. simpl. lia.
Qed.

Lemma u16_at_bytes v rest :
  uint 16 v → ∃ b0 b1, be_bytes 2 v ++ rest = b0 :: b1 :: rest ∧ be_val [b0; b1] = v.
Proof. intros Hv. do 2 eexists. split; [reflexivity|]. by apply (be_val_be_bytes_id 2 v). Qed.

Lemma settings_loop_wire {ST} (emit : Z → Z → M Error ST unit) fuel pre l s :
  Forall setting_ok l → (length l ≤ fuel)%nat →
  settings_loop emit fuel (pre ++ settings_wire l) (len pre) s = emit_all emit l s.
Proof.
  intros Hl. revert fuel pre s. induction Hl as [|[id v] l [Hi Hv] _ IH]; intros fuel pre s Hf.
  - destruct fuel; cbn [settings_loop]; by rewrite (proj2 (Z.leb_gt _ _)) by (unfold settings_wire; simpl; len_lia).
  - destruct fuel as [|fuel]; [simpl in Hf; lia|]. cbn [settings_loop emit_all fst snd] in *.
    rewrite (proj2 (Z.leb_le _ _)) by (rewrite length_app, length_settings_wire; simpl; lia).
    rewrite settings_wire_cons. unfold setting_wire. cbn [fst snd]. rewrite <- app_assoc.
    destruct (u16_at_bytes id (be_bytes 4 v ++ settings_wire l) Hi) as (b0 & b1 & Hb & <-). rewrite Hb.
    pose proof (idx_app (E:=Error) pre (b0 :: b1 :: be_bytes 4 v ++ settings_wire l) 0 ltac:(lia)) as H0.
    rewrite Z.add_0_r in H0. rewrite H0, idx_app by lia.
    rewrite (idx_ok _ 0 b0), (idx_ok _ 1 b1) by done.
    rewrite (cons_middle b0), (cons_middle b1), !app_assoc.
    replace (len pre + 2) with (len ((pre ++ [b0]) ++ [b1]) + 0) by len_lia.
    rewrite <- (app_assoc _ (be_bytes 4 v)), u32_at_app, u32_at_bytes by (done || lia).
    erewrite !M_step_lift by reflexivity. unfold mbind, M_bind. destruct (emit _ _ s) as [[[]|e|] s']; [|done..].
    specialize (IH fuel (((pre ++ [b0]) ++ [b1]) ++ be_bytes 4 v) s' ltac:(simpl in Hf; lia)).
    rewrite <- app_assoc in IH. rewrite <- IH. f_equal. len_lia.
Qed.

(** Any payload of whole parameters is the wire form of a list. *)
Lemma settings_wire_surj n payload :
  bytes_ok payload → length payload = (6 * n)%nat → ∃ l, payload = settings_wire l ∧ Forall setting_ok l.
Proof.
  revert payload. induction n as [|n IH]; intros payload Hb Hl.
  - destruct payload; [|simpl in Hl; lia]. exists []. by split; [|constructor].
  - destruct payload as [|a [|b [|c [|d [|e [|f rest]]]]]]; try (simpl in Hl; lia).
    rewrite !Forall_cons in Hb. destruct Hb as (? & ? & ? & ? & ? & ? & Hr).
    destruct (IH rest Hr ltac:(simpl in Hl; lia)) as (l & -> & Hok).
    assert (bytes_ok [a; b]) as Hab by (rewrite !Forall_cons; auto using Forall_nil_2).
    assert (bytes_ok [c; d; e; f]) as Hcf by (rewrite !Forall_cons; auto using Forall_nil_2).
    exists ((be_val [a; b], be_val [c; d; e; f]) :: l). split.
    + rewrite settings_wire_cons. unfold setting_wire. cbn [fst snd].
      pose proof (be_bytes_be_val _ Hab) as Ha. pose proof (be_bytes_be_val _ Hcf) as Hc.
      simpl length in Ha, Hc. by rewrite Ha, Hc.
    + constructor; [|done]. split; [apply (be_val_bound _ Hab)|apply (be_val_bound _ Hcf)].
Qed.

(** ** Properties *)

(** C37: HTTP/2 frames survive the wire.  A well-formed frame is written whole, as
    RFC 9113 lays it out, into a buffer with room, and decodes to itself and
    its length whatever follows; a shorter buffer is refused untouched, with the
    size needed. *)
Theorem h2_frame_roundtrip f buf :
  frame_ok f →
  if decide (len (frame_wire f) ≤ len buf) then
    ∃ n buf', encode_frame f buf = (Ok n, buf') ∧ take (Z.to_nat n) buf' = frame_wire f ∧
      decode_frame buf' = Ok (f, n)
  else encode_frame f buf = (Err (BufferTooSmall (len (frame_wire f))), buf).
Proof.
  intros Hf. rewrite encode_frame_wire by done. destruct (decide _); [|done].
  do 2 eexists. split; [done|]. rewrite Nat2Z.id, take_app_length. split; [done|by apply decode_frame_wire].
Qed.

Lemma h2_frame_roundtrip_witness :
  let f := Headers 5 [0x82] false true (Some {| exclusive := true; dependency := 3; weight := 255 |}) in
  ∃ n buf', encode_frame f (replicate 20 0) = (Ok n, buf') ∧ take (Z.to_nat n) buf' = frame_wire f ∧
    decode_frame buf' = Ok (f, n).
Proof.
  apply (h2_frame_roundtrip
    (Headers 5 [0x82] false true (Some {| exclusive := true; dependency := 3; weight := 255 |})) (replicate 20 0)).
  repeat split; simpl; (lia || done).
Defined.

(** HTTP/2 frame decoding is total.  On every byte string it does not panic;
    it fails only with a short-buffer or invalid-state error, and a frame it
    returns lies within the buffer and, unless of an unknown type, is
    well-formed: the encoder would write it back. *)
Theorem h2_frame_decode_total buf :
  bytes_ok buf →
  match decode_frame buf with
  | Ok (f, n) => 9 ≤ n ≤ len buf ∧ decoded_ok f
  | Err e => too_small e ∨ e = InvalidState
  | Panic => False
  end.
Proof.
  intros Hb.
  assert (settled (decode_frame buf) (λ r, 9 ≤ r.2 ≤ len buf ∧ decoded_ok r.1)) as Hs.
  { unfold decode_frame. eapply settled_bind; [by apply settled_frame_header|]. intros hdr ([Hl0 Hl1] & Hid & H9).
    cbv zeta. destruct (Z.ltb_spec (len buf) (9 + h_length hdr)); [auto with rust|].
    eapply settled_bind; [apply settled_slice; (done || lia)|]. intros payload [Hp Hpl].
    eapply settled_bind; [apply settled_payload; (done || lia)|]. intros f Hf. simpl. split; [lia|done]. }
  destruct (decode_frame buf) as [[f n]| |]; done.
Qed.

(** SETTINGS payloads are decoded exactly.  A payload of whole six-byte
    parameters is the concatenation of some parameter list, and decoding it
    hands those parameters to the callback in order, stopping at the callback's
    first error; any other length is refused before the callback runs. *)
Theorem h2_settings_exact payload :
  bytes_ok payload →
  if decide (len payload mod 6 = 0) then
    ∃ l, payload = settings_wire l ∧ Forall setting_ok l ∧
      ∀ ST (emit : Z → Z → M Error ST unit) s,
        decode_settings_params emit payload s = emit_all emit l s
  else ∀ ST (emit : Z → Z → M Error ST unit) s,
    decode_settings_params emit payload s = (Err InvalidState, s).
Proof.
  intros Hb. destruct (decide _) as [Hm|Hm].
  - destruct (settings_wire_surj (Z.to_nat (len payload / 6)) payload Hb) as (l & -> & Hl); [div_lia|].
    exists l. split_and!; [done..|]. intros ST emit s. unfold decode_settings_params.
    rewrite (proj2 (Z.eqb_eq _ 0)) by done. cbn [negb].
    apply (settings_loop_wire emit _ [] l s Hl). rewrite length_settings_wire. lia.
  - intros ST emit s. unfold decode_settings_params. by rewrite (proj2 (Z.eqb_neq _ 0)).
Qed.

(** The encoder does not refuse payloads that do not fit the 24-bit length: a
    DATA payload of 16 MiB is written under a header that announces none of
    it, and its bytes will be read as frames. *)
Lemma oversized_payload_misframed sid payload buf :
  uint 31 sid → len payload = 2 ^ 24 → len buf = 9 + 2 ^ 24 →
  ∃ buf', encode_frame (Data sid payload false) buf = (Ok (9 + 2 ^ 24), buf') ∧
    decode_frame buf' = Ok (Data sid [] false, 9).
Proof.
  intros Hid Hp Hbuf. unfold encode_frame. eexists. split.
  - rewrite (encode_with_ok _ _ _ payload); [|done|by apply Fills_slice|done].
    rewrite decide_True by lia. by rewrite Hp.
  - unfold decode_frame. rewrite decode_header_wire by done. cbn [mbind res_bind h_length].
    rewrite ?Hp. change (trunc 32 (2 ^ 24) mod 2 ^ 24) with 0.
    rewrite (proj2 (Z.ltb_ge _ _)) by (pose proof (len_header_wire {|
      h_length := 2 ^ 24; h_frame_type := 0; h_flags := 0; h_stream_id := 0 |}); len_lia).
    rewrite slice_eq by len_lia. done.
Qed.

End H2Frame.
