(* ===== verification/H2Stream.v ===== *)
(** * HTTP/2 flow control, streams and settings

    [src/h2/flow_control.rs] (the connection-level windows),
    [src/h2/stream.rs] (the stream state machine of RFC 9113, section 5.1) and
    the settings of [src/h2/connection.rs].  Windows are [i32]. *)
From S2P Require Import Prelude Errors Varint Cursor Buf H2Frame.

(** ** Signed 32-bit integers *)

Definition i32_max : Z := 0x7fffffff.
Definition i32_min : Z := - 2 ^ 31.
Definition i32 (v : Z) : Prop := i32_min ≤ v ≤ i32_max.
Global Instance i32_dec v : Decision (i32 v).
Proof. unfold i32. apply _. Defined.

(** [a + b] and [a - b] on [i32], overflow-checked. *)
Definition i32_add {E} (a b : Z) : res E Z := if decide (i32 (a + b)) then Ok (a + b) else Panic.
Definition i32_sub {E} (a b : Z) : res E Z := if decide (i32 (a - b)) then Ok (a - b) else Panic.
(** [a.checked_add(b)]. *)
Definition i32_checked_add (a b : Z) : option Z := if decide (i32 (a + b)) then Some (a + b) else None.
(** [v as i32]. *)
Definition as_i32 (v : Z) : Z := (v + 2 ^ 31) mod 2 ^ 32 - 2 ^ 31.

Lemma as_i32_small v : 0 ≤ v ≤ i32_max → as_i32 v = v.
Proof. unfold as_i32, i32_max. intros. rewrite Z.mod_small by lia. lia. Qed.
Lemma as_i32_id v : i32 v → as_i32 v = v.
Proof. unfold as_i32, i32, i32_min, i32_max. intros. rewrite Z.mod_small by lia. lia. Qed.
Lemma as_i32_range v : i32 (as_i32 v).
Proof. unfold as_i32, i32, i32_max, i32_min. pose proof (Z.mod_pos_bound (v + 2 ^ 31) (2 ^ 32)). lia. Qed.
Lemma i32_sub_ok {E} a b : i32 (a - b) → i32_sub (E:=E) a b = Ok (a - b).
Proof. intros. unfold i32_sub. by rewrite decide_True. Qed.

(** ** Flow controller *)
Module FlowController.

Record t := Mk { window : Z; initial_window : Z }.
Global Instance eta_t : Eta t := λ f, Mk (window f) (initial_window f).

Definition new (initial_window : Z) : t := Mk initial_window initial_window.

Definition consume (n : Z) : M Error t unit := λ f,
  if i32_max <? n then (Err InvalidState, f)
  else if window f <? n then (Err (Http2 H2Error.FlowControlError), f)
  else
    match i32_sub (window f) n with
    | Ok w => (Ok tt, f <| window := w |>)
    | Err e => (Err e, f)
    | Panic => (Panic, f)
    end.

Definition replenish (n : Z) : M Error t unit := λ f,
  let new_window := window f + n in
  if i32_max <? new_window then (Err InvalidState, f)
  else (Ok tt, f <| window := new_window |>).

Definition update_initial_window {E} (new_initial : Z) (f : t) : res E t :=
  delta ← i32_sub new_initial (initial_window f);
  w ← i32_add (window f) delta;
  mret (Mk w new_initial).

Definition ok (f : t) : Prop := i32 (window f).

Lemma consume_spec n f :
  ok f → 0 ≤ n →
  consume n f =
    if decide (n ≤ i32_max) then
      if decide (n ≤ window f) then (Ok tt, f <| window := window f - n |>)
      else (Err (Http2 H2Error.FlowControlError), f)
    else (Err InvalidState, f).
Proof.
  unfold ok, i32, consume, i32_min, i32_max. intros Hf Hn.
  repeat case_decide; repeat (case_match; simpl in *; try lia); try done.
  all: unfold i32_sub, i32, i32_min, i32_max in *; case_decide; simplify_eq; try lia; done.
Qed.

End FlowController.

Definition DEFAULT_INITIAL_WINDOW_SIZE : Z := 65535.
Definition DEFAULT_CONNECTION_WINDOW_SIZE : Z := 65535.

(** ** Streams *)
Module H2Stream.

Inductive H2StreamState : Type :=
| Idle
| Open
| ReservedLocal
| ReservedRemote
| HalfClosedLocal
| HalfClosedRemote
| Closed.

Global Instance state_eq_dec : EqDecision H2StreamState.
Proof. solve_decision. Defined.

Record t := Mk {
  id : Z;
  state : H2StreamState;
  send_window : Z;
  recv_window : Z;
  headers_data : Buf.t;
  headers_received : bool;
  data_buf : Buf.t;
  data_available : bool;
  fin_received : bool;
  fin_sent : bool;
  pending_recv_credit : Z;
  pending_rst : option Z
}.
Global Instance eta_t : Eta t := λ s,
  Mk (id s) (state s) (send_window s) (recv_window s) (headers_data s) (headers_received s)
     (data_buf s) (data_available s) (fin_received s) (fin_sent s) (pending_recv_credit s)
     (pending_rst s).

Definition new (id initial_send_window initial_recv_window : Z) : t := {|
  id := id;
  state := Idle;
  send_window := initial_send_window;
  recv_window := initial_recv_window;
  headers_data := Buf.new;
  headers_received := false;
  data_buf := Buf.new;
  data_available := false;
  fin_received := false;
  fin_sent := false;
  pending_recv_credit := 0;
  pending_rst := None
|}.

Definition open (s : t) : t :=
  if decide (state s = Idle) then s <| state := Open |> else s.

Definition recv_end_stream (s : t) : t :=
  let s := s <| fin_received := true |> in
  match state s with
  | Open => s <| state := HalfClosedRemote |>
  | HalfClosedLocal => s <| state := Closed |>
  | _ => s
  end.

Definition send_end_stream (s : t) : t :=
  let s := s <| fin_sent := true |> in
  match state s with
  | Open => s <| state := HalfClosedLocal |>
  | HalfClosedRemote => s <| state := Closed |>
  | _ => s
  end.

Definition can_recv (s : t) : bool :=
  match state s with Open | HalfClosedLocal => true | _ => false end.

Definition can_send (s : t) : bool :=
  match state s with Open | HalfClosedRemote => true | _ => false end.

Definition reset (s : t) : t := s <| state := Closed |>.

End H2Stream.

(** ** Settings *)
Module H2Settings.

Definition SETTINGS_HEADER_TABLE_SIZE : Z := 0x1.
Definition SETTINGS_ENABLE_PUSH : Z := 0x2.
Definition SETTINGS_MAX_CONCURRENT_STREAMS : Z := 0x3.
Definition SETTINGS_INITIAL_WINDOW_SIZE : Z := 0x4.
Definition SETTINGS_MAX_FRAME_SIZE : Z := 0x5.
Definition SETTINGS_MAX_HEADER_LIST_SIZE : Z := 0x6.

Record t := Mk {
  header_table_size : Z;
  enable_push : bool;
  max_concurrent_streams : Z;
  initial_window_size : Z;
  max_frame_size : Z;
  max_header_list_size : Z
}.
Global Instance eta_t : Eta t := λ s,
  Mk (header_table_size s) (enable_push s) (max_concurrent_streams s) (initial_window_size s)
     (max_frame_size s) (max_header_list_size s).

Definition default : t := {|
  header_table_size := 0;
  enable_push := false;
  max_concurrent_streams := 128;
  initial_window_size := DEFAULT_INITIAL_WINDOW_SIZE;
  max_frame_size := 16384;
  max_header_list_size := 8192
|}.

(** [off += encode_setting(id, value, &mut buf[off..])?]. *)
Definition put_setting (id value off : Z) : M Error (list Z) Z :=
  n ← with_from off (H2Frame.encode_setting id value); mret (off + n).

Definition encode_params (s : t) : M Error (list Z) Z :=
  let off := 0 in
  off ← put_setting SETTINGS_HEADER_TABLE_SIZE (header_table_size s) off;
  off ← (if negb (enable_push s) then put_setting SETTINGS_ENABLE_PUSH 0 off else mret off);
  off ← put_setting SETTINGS_MAX_CONCURRENT_STREAMS (max_concurrent_streams s) off;
  off ← put_setting SETTINGS_INITIAL_WINDOW_SIZE (initial_window_size s) off;
  off ← put_setting SETTINGS_MAX_FRAME_SIZE (max_frame_size s) off;
  off ← put_setting SETTINGS_MAX_HEADER_LIST_SIZE (max_header_list_size s) off;
  mret off.

Definition apply (id value : Z) : M Error t unit := λ s,
  match id with
  | 0x1 => (Ok tt, s <| header_table_size := value |>)
  | 0x2 =>
      if 1 <? value then (Err (Http2 H2Error.ProtocolError), s)
      else (Ok tt, s <| enable_push := negb (value =? 0) |>)
  | 0x3 => (Ok tt, s <| max_concurrent_streams := value |>)
  | 0x4 =>
      if 0x7fffffff <? value then (Err (Http2 H2Error.FlowControlError), s)
      else (Ok tt, s <| initial_window_size := value |>)
  | 0x5 =>
      if negb ((16384 <=? value) && (value <=? 16777215)) then (Err (Http2 H2Error.ProtocolError), s)
      else (Ok tt, s <| max_frame_size := value |>)
  | 0x6 => (Ok tt, s <| max_header_list_size := value |>)
  | _ => (Ok tt, s)
  end.

(** The values RFC 9113, section 6.5.2 allows. *)
Definition ok (s : t) : Prop :=
  uint 32 (header_table_size s) ∧ uint 32 (max_concurrent_streams s) ∧
  0 ≤ initial_window_size s ≤ i32_max ∧
  16384 ≤ max_frame_size s ≤ 16777215 ∧ uint 32 (max_header_list_size s).

Lemma ok_default : ok default.
Proof. unfold ok, uint, i32_max. simpl. unfold DEFAULT_INITIAL_WINDOW_SIZE. lia. Qed.

(** [apply] checks what it stores. *)
Lemma apply_ok id value s : uint 32 value → ok s → ok (apply id value s).2.
Proof.
  unfold apply, ok, uint, i32_max. intros Hv Hs.
  repeat (case_match; simpl; try done; try tauto); simpl; split_and!; try tauto; try lia.
Qed.

Lemma apply_total id value s : (apply id value s).1 ≠ Panic.
Proof. unfold apply. by repeat case_match. Qed.

(** *** The wire form *)

(** The parameters a SETTINGS frame announces. *)
Definition params (s : t) : list (Z * Z) :=
  [(SETTINGS_HEADER_TABLE_SIZE, header_table_size s)] ++
  (if enable_push s then [] else [(SETTINGS_ENABLE_PUSH, 0)]) ++
  [(SETTINGS_MAX_CONCURRENT_STREAMS, max_concurrent_streams s);
   (SETTINGS_INITIAL_WINDOW_SIZE, initial_window_size s);
   (SETTINGS_MAX_FRAME_SIZE, max_frame_size s);
   (SETTINGS_MAX_HEADER_LIST_SIZE, max_header_list_size s)].

(** One more parameter behind what is written. *)
Lemma put_setting_wire id value off written rest :
  off = len written → 6 ≤ len rest →
  put_setting id value off (written ++ rest) =
    (Ok (off + 6), (written ++ H2Frame.setting_wire (id, value)) ++ drop 6 rest).
Proof.
  intros -> Hl. unfold put_setting, mbind, M_bind. rewrite with_from_app by done.
  assert (H2Frame.encode_setting id value rest =
    (Ok 6, H2Frame.setting_wire (id, value) ++ drop 6 rest)) as ->;
    [|cbn [fst snd]; unfold mret, M_ret; by rewrite <- app_assoc].
  unfold H2Frame.encode_setting. erewrite M_step_ok by reflexivity.
  rewrite (proj2 (Z.ltb_ge _ _)) by lia.
  assert (Fills 0 (_ ← store_slice 0 2 (be_bytes 2 id); store_slice 2 6 (be_bytes 4 value))
    (H2Frame.setting_wire (id, value))) as Hf.
  { apply Fills_bind; apply Fills_slice; done. }
  rewrite <- M_bind_assoc. erewrite M_step_ok by (apply (Fills_start _ _ rest Hf); simpl; lia). done.
Qed.

Lemma encode_params_wire s buf :
  36 ≤ len buf →
  encode_params s buf =
    (Ok (len (H2Frame.settings_wire (params s))),
     H2Frame.settings_wire (params s) ++ drop (length (H2Frame.settings_wire (params s))) buf).
Proof.
  intros Hl. unfold encode_params, params.
  change buf with ([] ++ buf) at 1.
  erewrite M_step_ok by (apply put_setting_wire; [done|lia]).
  destruct (enable_push s); simpl negb; cbv iota.
  1: erewrite M_step_ok by reflexivity.
  2: erewrite M_step_ok by (apply put_setting_wire; len_lia).
  all: do 4 (erewrite M_step_ok by (apply put_setting_wire; [done|len_lia])).
  all: unfold mret, M_ret; rewrite !drop_drop; done.
Qed.

Lemma params_ok s : ok s → Forall H2Frame.setting_ok (params s).
Proof.
  unfold ok, i32_max, params, H2Frame.setting_ok, uint. intros Hs.
  destruct (enable_push s); simpl; rewrite !Forall_cons, Forall_nil;
    unfold SETTINGS_HEADER_TABLE_SIZE, SETTINGS_ENABLE_PUSH, SETTINGS_MAX_CONCURRENT_STREAMS,
      SETTINGS_INITIAL_WINDOW_SIZE, SETTINGS_MAX_FRAME_SIZE, SETTINGS_MAX_HEADER_LIST_SIZE; simpl; lia.
Qed.

(** Applying announced parameters. *)
Lemma apply_params s base :
  ok s → (enable_push s = true → enable_push base = true) →
  H2Frame.emit_all apply (params s) base = (Ok tt, s).
Proof.
  intros (_ & _ & Hw & Hf & _) Hp. unfold i32_max in Hw. unfold params.
  destruct s as [ts ep mc iw mf ml]; simpl in *.
  destruct ep; simpl; unfold mbind, M_bind, apply; simpl.
  all: rewrite (proj2 (Z.ltb_ge _ iw)) by lia.
  all: rewrite (proj2 (Z.leb_le 16384 mf)), (proj2 (Z.leb_le mf 16777215)) by lia.
  all: unfold update; simpl; rewrite ?Hp; done.
Qed.

(** Settings survive the exchange.  What [encode_params] writes for valid
    settings, decoded by the peer into its record of our settings, makes that
    record equal to them, whatever it held before; only an enabled push is not
    announced and must be enabled already. *)
Theorem h2_settings_roundtrip s base buf :
  ok s → (enable_push s = true → enable_push base = true) → 36 ≤ len buf →
  ∃ n buf', encode_params s buf = (Ok n, buf') ∧ n ≤ 36 ∧
    H2Frame.decode_settings_params apply (take (Z.to_nat n) buf') base = (Ok tt, s).
Proof.
  intros Hs Hp Hl. rewrite encode_params_wire by done. do 2 eexists. split; [done|].
  rewrite Nat2Z.id, take_app_length. split.
  { rewrite H2Frame.length_settings_wire. unfold params. destruct (enable_push s); simpl; lia. }
  unfold H2Frame.decode_settings_params.
  rewrite (proj2 (Z.eqb_eq _ 0)) by (rewrite H2Frame.length_settings_wire; div_lia). cbn [negb].
  rewrite (H2Frame.settings_loop_wire apply _ [] (params s) base (params_ok s Hs))
    by (rewrite H2Frame.length_settings_wire; lia).
  by apply apply_params.
Qed.

End H2Settings.
