(* ===== verification/H2Connection.v ===== *)
(** * The HTTP/2 connection: [src/h2/connection.rs], [src/h2/io.rs]

    The connection state machine: settings exchange, the stream table, the
    receive loop with its incremental DATA path, flow-control credit, header
    and body transmission, and the timeouts.

    A method takes the connection and the two I/O buffers it borrows
    ([H2Io]); both are the fields of one record here.  Const parameters of the
    type are section variables, and so is the allocator ([Buf]).  The source
    needs the [alloc] feature ([send_data] calls [Buf::allocated_capacity],
    which the fixed-capacity buffer does not have), so the stream table is a
    [Vec], the event queue a [VecDeque] of at most 64 entries, and the HPACK
    decoder has its dynamic table. *)
From S2P Require Import Prelude Errors Varint Cursor Buf Http HpackInteger Huffman Hpack H2Frame H2Stream.

Module H2.
Import H2Frame.

(** ** Data *)

(** [b"PRI * HTTP/2.0\r\n\r\nSM\r\n\r\n"]. *)
Definition CONNECTION_PREFACE : list Z :=
  [80; 82; 73; 32; 42; 32; 72; 84; 84; 80; 47; 50; 46; 48; 13; 10; 13; 10;
   83; 77; 13; 10; 13; 10].

Inductive H2Event : Type :=
| Connected
| EvHeaders (stream_id : Z)
| EvData (stream_id : Z)
| StreamReset (stream_id error_code : Z)
| EvGoAway (last_stream_id error_code : Z)
| Finished (stream_id : Z)
| Timeout.

Inductive Role : Type := Client | Server.
Global Instance role_eq_dec : EqDecision Role.
Proof. solve_decision. Defined.

Inductive H2ConnState : Type :=
| WaitingPreface
| WaitingSettings
| Active
| Closing
| ConnClosed.
Global Instance conn_state_eq_dec : EqDecision H2ConnState.
Proof. solve_decision. Defined.

Definition HEADERS_SCRATCH : Z := 1024.
Definition LARGE_BODY_CHUNK : Z := 4096.

Record PartialData := MkPartial {
  pd_stream_id : Z;
  pd_end_stream : bool;
  data_remaining : Z;
  pad_remaining : Z;
  deliver : bool
}.
Global Instance eta_PartialData : Eta PartialData := λ p,
  MkPartial (pd_stream_id p) (pd_end_stream p) (data_remaining p) (pad_remaining p) (deliver p).

(** [H2Connection], and the buffers of [H2Io]. *)
Record t := Mk {
  role : Role;
  state : H2ConnState;
  local_settings : H2Settings.t;
  peer_settings : H2Settings.t;
  streams : list H2Stream.t;
  decoder : Hpack.HpackDecoder;
  send_offset : Z;
  conn_send_fc : FlowController.t;
  conn_recv_fc : FlowController.t;
  pending_conn_credit : Z;
  events : list H2Event;
  next_stream_id : Z;
  last_peer_stream_id : Z;
  continuation_stream_id : option Z;
  settings_sent : bool;
  settings_ack_received : bool;
  peer_settings_received : bool;
  preface_sent : bool;
  preface_validated : bool;
  preface_bytes_seen : Z;
  goaway_sent : bool;
  timeout_config : TimeoutConfig;
  last_activity : Z;
  sent_since_tick : bool;
  connection_start : Z;
  headers_phase_complete : bool;
  partial_data : option PartialData;
  recv_buf : Buf.t;
  send_buf : Buf.t
}.
Global Instance eta_t : Eta t := λ c,
  Mk (role c) (state c) (local_settings c) (peer_settings c) (streams c) (decoder c)
     (send_offset c) (conn_send_fc c) (conn_recv_fc c) (pending_conn_credit c) (events c)
     (next_stream_id c) (last_peer_stream_id c) (continuation_stream_id c) (settings_sent c)
     (settings_ack_received c) (peer_settings_received c) (preface_sent c)
     (preface_validated c) (preface_bytes_seen c) (goaway_sent c) (timeout_config c)
     (last_activity c) (sent_since_tick c) (connection_start c) (headers_phase_complete c)
     (partial_data c) (recv_buf c) (send_buf c).

(** ** Lists of streams *)

(** [iter().find(|s| s.id == sid)] and the update through [iter_mut().find]. *)
Definition has_id (sid : Z) (s : H2Stream.t) : bool := H2Stream.id s =? sid.
Definition find_stream (sid : Z) (l : list H2Stream.t) : option H2Stream.t :=
  List.find (has_id sid) l.
Fixpoint update_stream (sid : Z) (f : H2Stream.t → H2Stream.t) (l : list H2Stream.t) :
    list H2Stream.t :=
  match l with
  | [] => []
  | s :: l' => if has_id sid s then f s :: l' else s :: update_stream sid f l'
  end.

(** The predicate of both sweeps of closed streams. *)
Definition retained (s : H2Stream.t) : bool :=
  negb (bool_decide (H2Stream.state s = H2Stream.Closed)) || H2Stream.data_available s
  || H2Stream.headers_received s || bool_decide (H2Stream.pending_rst s ≠ None).

(** Outcome of one iteration of a loop: [continue] or [break]. *)
Inductive flow : Type := Next | Stop.

(** [m.is_ok()]: the effects stay, a panic is a panic. *)
Definition is_ok_of {S A} (m : M Error S A) : M Error S bool := λ s,
  match m s with
  | (Ok _, s') => (Ok true, s')
  | (Err _, s') => (Ok false, s')
  | (Panic, s') => (Panic, s')
  end.
(** [let _ = m]. *)
Definition ignore {S A} (m : M Error S A) : M Error S unit := _ ← is_ok_of m; mret tt.

Section H2.
Context `{Platform}.
Variable grant : Z → bool.
Variables MAX_STREAMS HDRBUF DATABUF BUF : Z.

#[local] Instance hpack_alloc : Hpack.Config := {| Hpack.platform := _; Hpack.alloc := true |}.

Definition new (r : Role) : t := {|
  role := r;
  state := WaitingPreface;
  local_settings := H2Settings.default
    <| H2Settings.initial_window_size := trunc 32 DATABUF |>
    <| H2Settings.max_concurrent_streams := trunc 32 MAX_STREAMS |>;
  peer_settings := H2Settings.default;
  streams := [];
  decoder := Hpack.new;
  send_offset := 0;
  conn_send_fc := FlowController.new DEFAULT_CONNECTION_WINDOW_SIZE;
  conn_recv_fc := FlowController.new DEFAULT_CONNECTION_WINDOW_SIZE;
  pending_conn_credit := 0;
  events := [];
  next_stream_id := match r with Client => 1 | Server => 2 end;
  last_peer_stream_id := 0;
  continuation_stream_id := None;
  settings_sent := false;
  settings_ack_received := false;
  peer_settings_received := false;
  preface_sent := false;
  preface_validated := false;
  preface_bytes_seen := 0;
  goaway_sent := false;
  timeout_config := {| idle_timeout_us := None; header_timeout_us := None |};
  last_activity := 0;
  sent_since_tick := false;
  connection_start := 0;
  headers_phase_complete := false;
  partial_data := None;
  recv_buf := Buf.new;
  send_buf := Buf.new
|}.

(** ** The I/O buffers *)

Definition recv_len : M Error t Z := c ← get; lift (Buf.blen (recv_buf c)).
Definition send_len : M Error t Z := c ← get; lift (Buf.blen (send_buf c)).

(** [io.recv_buf[i]], [&io.recv_buf[a..b]]. *)
Definition recv_at (i : Z) : M Error t Z :=
  c ← get; v ← lift (Buf.as_slice (recv_buf c)); lift (idx v i).
Definition recv_slice (a b : Z) : M Error t (list Z) :=
  c ← get; v ← lift (Buf.as_slice (recv_buf c)); lift (slice v a b).

Definition drain_recv (n : Z) : M Error t unit :=
  c ← get;
  b1 ← lift (Buf.with_mut_slice (λ s, copy_within s n (len s) 0) (recv_buf c));
  l ← lift (Buf.blen b1);
  l' ← lift (usub l n);
  b2 ← lift (Buf.truncate l' b1);
  modify (λ c, c <| recv_buf := b2 |>).

Definition reserve_send (n : Z) : M Error t unit := λ c,
  let '(r, b) := Buf.buf_try_reserve BUF grant n (send_buf c) in (r, c <| send_buf := b |>).

(** [let _ = io.send_buf.extend_from_slice(data)]. *)
Definition extend_send (data : list Z) : M Error t unit := λ c,
  match Buf.extend_from_slice BUF grant data (send_buf c) with
  | Ok b => (Ok tt, c <| send_buf := b |>)
  | Err _ => (Ok tt, c)
  | Panic => (Panic, c)
  end.

Definition queue_send (data : list Z) : M Error t unit :=
  l ← send_len;
  if BUF <? l + len data then throw (BufferTooSmall (l + len data)) else
  _ ← reserve_send (len data);
  extend_send data.

(** A call on [&mut io.send_buf[a..b]]. *)
Definition with_send_slice {A} (a b : Z) (f : M Error (list Z) A) : M Error t A := λ c,
  match Buf.as_slice (send_buf c) with
  | Ok v =>
      match slice (E:=Error) v a b with
      | Ok sub =>
          let '(r, sub') := f sub in
          match Buf.with_mut_slice (E:=Error) (λ v, copy_at v a b sub') (send_buf c) with
          | Ok b' => (r, c <| send_buf := b' |>)
          | Err e => (Err e, c)
          | Panic => (Panic, c)
          end
      | Err e => (Err e, c)
      | Panic => (Panic, c)
      end
  | Err e => (Err e, c)
  | Panic => (Panic, c)
  end.

(** A frame encoded into a scratch buffer of [size] bytes and queued. *)
Definition send_frame (f : H2Frame.t) (size : nat) : M Error t unit :=
  let '(r, buf) := encode_frame f (replicate size 0) in
  n ← lift r; d ← lift (slice buf 0 n); queue_send d.

(** ** Streams and events *)

Definition with_stream (sid : Z) (f : H2Stream.t → H2Stream.t) : M Error t unit :=
  modify (λ c, c <| streams := update_stream sid f (streams c) |>).

Definition get_stream (sid : Z) (c : t) : option H2Stream.t := find_stream sid (streams c).

Definition ensure_stream (sid : Z) : M Error t bool :=
  c ← get;
  if bool_decide (is_Some (get_stream sid c)) then mret true else
  _ ← (if MAX_STREAMS <=? len (streams c)
       then modify (λ c, c <| streams := List.filter retained (streams c) |>) else mret tt);
  c ← get;
  if MAX_STREAMS <=? len (streams c) then mret false else
  let initial_send := as_i32 (H2Settings.initial_window_size (peer_settings c)) in
  let initial_recv := as_i32 (H2Settings.initial_window_size (local_settings c)) in
  _ ← modify (λ c, c <| streams := streams c ++ [H2Stream.new sid initial_send initial_recv] |>);
  mret true.

Definition push_event (e : H2Event) : M Error t unit :=
  modify (λ c,
    let evs := if 64 <=? len (events c) then tail (events c) else events c in
    c <| events := evs ++ [e] |>).

Definition poll_event : M Error t (option H2Event) :=
  c ← get;
  match events c with
  | [] => mret None
  | e :: evs => _ ← modify (λ c, c <| events := evs |>); mret (Some e)
  end.

(** ** Output *)

(** [if let Ok(n) = encode_frame(&f, &mut buf) && io.queue_send(&buf[..n]).is_ok()];
    [buf] is reused from frame to frame. *)
Definition try_queue (f : H2Frame.t) (buf : list Z) : M Error t (bool * list Z) :=
  let '(r, buf) := encode_frame f buf in
  match r with
  | Ok n => d ← lift (slice buf 0 n); ok ← is_ok_of (queue_send d); mret (ok, buf)
  | Err _ => mret (false, buf)
  | Panic => lift Panic
  end.

(** One stream of the flush loop: its credit, then its deferred reset. *)
Definition flush_stream (s : H2Stream.t) (buf : list Z) : M Error t (H2Stream.t * list Z) :=
  '(s, buf) ← (
    if 0 <? H2Stream.pending_recv_credit s then
      let inc := H2Stream.pending_recv_credit s in
      '(ok, buf) ← try_queue (WindowUpdate (H2Stream.id s) inc) buf;
      if (ok : bool) then
        let new_window := H2Stream.recv_window s + inc in
        mret (s <| H2Stream.recv_window := as_i32 (Z.min new_window 0x7fffffff) |>
                <| H2Stream.pending_recv_credit := 0 |>, buf)
      else mret (s, buf)
    else mret (s, buf));
  match H2Stream.pending_rst s with
  | Some error_code =>
      '(ok, buf) ← try_queue (RstStream (H2Stream.id s) error_code) buf;
      if (ok : bool) then mret (s <| H2Stream.pending_rst := None |>, buf) else mret (s, buf)
  | None => mret (s, buf)
  end.

Fixpoint flush_streams (l : list H2Stream.t) (buf : list Z) : M Error t (list H2Stream.t) :=
  match l with
  | [] => mret []
  | s :: l' =>
      '(s', buf) ← flush_stream s buf;
      rest ← flush_streams l' buf;
      mret (s' :: rest)
  end.

Definition flush_conn_credit (buf : list Z) : M Error t (list Z) :=
  c ← get;
  if 0 <? pending_conn_credit c then
    let inc := pending_conn_credit c in
    '(ok, buf) ← try_queue (WindowUpdate 0 inc) buf;
    if (ok : bool) then
      _ ← modify (λ c, c <| conn_recv_fc := (FlowController.replenish inc (conn_recv_fc c)).2 |>
                        <| pending_conn_credit := 0 |>);
      mret buf
    else mret buf
  else mret buf.

Definition flush_window_updates : M Error t unit :=
  buf ← flush_conn_credit (replicate 16 0);
  c ← get;
  l ← flush_streams (streams c) buf;
  modify (λ c, c <| streams := l |>).

(** [a.saturating_add(b)] on [u32]. *)
Definition sat_add32 (a b : Z) : Z := Z.min (2 ^ 32 - 1) (a + b).

Definition send_window_update (sid increment : Z) : M Error t unit :=
  if increment =? 0 then mret tt else
  _ ← (if sid =? 0
       then modify (λ c, c <| pending_conn_credit := sat_add32 (pending_conn_credit c) increment |>)
       else with_stream sid (λ s,
         s <| H2Stream.pending_recv_credit :=
           sat_add32 (H2Stream.pending_recv_credit s) increment |>));
  flush_window_updates.

Definition send_initial_settings : M Error t unit :=
  c ← get;
  let '(r, params) := H2Settings.encode_params (local_settings c) (replicate 64 0) in
  params_len ← lift r;
  ps ← lift (slice params 0 params_len);
  _ ← send_frame (Settings false ps) 128;
  modify (λ c, c <| settings_sent := true |>).

Definition send_settings_ack : M Error t unit := send_frame (Settings true []) 16.

Definition send_ping_ack (data : list Z) : M Error t unit := send_frame (Ping data true) 32.

Definition send_goaway (error_code : Z) : M Error t unit :=
  c ← get;
  _ ← send_frame (GoAway (last_peer_stream_id c) error_code []) 32;
  modify (λ c, c <| goaway_sent := true |> <| state := Closing |>).

Definition generate_output : M Error t unit :=
  c ← get;
  _ ← (if negb (preface_sent c) then
         _ ← (if decide (role c = Client) then ignore (queue_send CONNECTION_PREFACE) else mret tt);
         _ ← ignore send_initial_settings;
         modify (λ c, c <| preface_sent := true |>)
       else mret tt);
  flush_window_updates.

(** The chunk copied out to the caller's buffer of [cap] bytes. *)
Definition poll_output (cap : Z) : M Error t (option (list Z)) :=
  _ ← generate_output;
  c ← get;
  l ← send_len;
  if l <=? send_offset c then mret None else
  avail ← lift (usub l (send_offset c));
  let n := Z.min avail cap in
  v ← lift (Buf.as_slice (send_buf c));
  d ← lift (slice v (send_offset c) (send_offset c + n));
  _ ← modify (λ c, c <| send_offset := send_offset c + n |>);
  c ← get;
  _ ← (if l <=? send_offset c
       then modify (λ c, c <| send_buf := Buf.clear (send_buf c) |> <| send_offset := 0 |>)
       else mret tt);
  mret (Some d).

(** ** Receiving DATA *)

(** One chunk into the stream's [data_buf]: its size, or [None] for the
    [break]s (no space, or no memory). *)
Definition deliver_chunk (pd : PartialData) (stream : H2Stream.t) (avail : Z) : M Error t (option Z) :=
  l ← lift (Buf.blen (H2Stream.data_buf stream));
  free ← lift (usub (Buf.capacity DATABUF (H2Stream.data_buf stream)) l);
  if free =? 0 then mret None else
  let n := Z.min (Z.min (data_remaining pd) avail) free in
  let '(r, b) := Buf.buf_try_reserve DATABUF grant n (H2Stream.data_buf stream) in
  _ ← with_stream (pd_stream_id pd) (λ s, s <| H2Stream.data_buf := b |>);
  reserved ← is_ok_of (lift r);
  if negb reserved then mret None else
  chunk ← recv_slice 0 n;
  b' ← match Buf.extend_from_slice DATABUF grant chunk b with
       | Ok b' => mret b' | Err _ => mret b | Panic => lift Panic
       end;
  w ← lift (i32_sub (H2Stream.recv_window stream) (as_i32 n));
  _ ← with_stream (pd_stream_id pd) (λ s,
        s <| H2Stream.data_buf := b' |> <| H2Stream.data_available := true |>
          <| H2Stream.recv_window := w |>);
  _ ← drain_recv n;
  _ ← push_event (EvData (pd_stream_id pd));
  mret (Some n).

(** Step 1 of the pump.  Every iteration takes bytes off [recv_buf], except the
    one that notices that the stream is gone. *)
Fixpoint pump_loop (fuel : nat) (pd : PartialData) : M Error t PartialData :=
  if 0 <? data_remaining pd then
    match fuel with
    | O => lift Panic
    | S fuel =>
        avail ← recv_len;
        if avail =? 0 then mret pd else
        if deliver pd then
          c ← get;
          match get_stream (pd_stream_id pd) c with
          | None => pump_loop fuel (pd <| deliver := false |>)
          | Some stream =>
              o ← deliver_chunk pd stream avail;
              match o with
              | None => mret pd
              | Some n => pump_loop fuel (pd <| data_remaining := data_remaining pd - n |>)
              end
          end
        else
          let n := Z.min (data_remaining pd) avail in
          _ ← drain_recv n;
          _ ← (if 0 <? n then send_window_update 0 (trunc 32 n) else mret tt);
          pump_loop fuel (pd <| data_remaining := data_remaining pd - n |>)
    end
  else mret pd.

(** Steps 2 and 3: the padding, then the end of the frame. *)
Definition pump_padding (pd : PartialData) : M Error t PartialData :=
  if (data_remaining pd =? 0) && (0 <? pad_remaining pd) then
    l ← recv_len;
    let n := Z.min (pad_remaining pd) l in
    _ ← drain_recv n;
    mret (pd <| pad_remaining := pad_remaining pd - n |>)
  else mret pd.

Definition pump_finish (pd : PartialData) : M Error t unit :=
  if (data_remaining pd =? 0) && (pad_remaining pd =? 0) then
    if deliver pd then
      _ ← with_stream (pd_stream_id pd) (λ s,
            let s := s <| H2Stream.data_available := true |> in
            if pd_end_stream pd then H2Stream.recv_end_stream s else s);
      if pd_end_stream pd then push_event (Finished (pd_stream_id pd)) else mret tt
    else mret tt
  else modify (λ c, c <| partial_data := Some pd |>).

Definition pump_partial_data : M Error t unit :=
  c ← get;
  match partial_data c with
  | None => mret tt
  | Some pd =>
      _ ← modify (λ c, c <| partial_data := None |>);
      l ← recv_len;
      pd ← pump_loop (Z.to_nat l + 2) pd;
      pd ← pump_padding pd;
      pump_finish pd
  end.

(** The DATA arm of the receive loop. *)
Definition recv_data_frame (flags sid payload_len : Z) : M Error t flow :=
  if sid =? 0 then throw (Http2 H2Error.ProtocolError) else
  let padded := has flags FLAG_PADDED in
  let header_len := if padded then 10 else 9 in
  l ← recv_len;
  if l <? header_len then mret Stop else
  '(data_total, pad_total) ← (
    if padded then
      if payload_len =? 0 then throw (BufferTooSmall 1) else
      pad_len ← recv_at 9;
      if payload_len <=? pad_len then throw InvalidState
      else mret (payload_len - 1 - pad_len, pad_len)
    else mret (payload_len, 0));
  c ← get;
  let live := List.find (λ s, has_id sid s && negb (bool_decide (H2Stream.state s = H2Stream.Closed)))
                (streams c) in
  if settings_ack_received c &&
     match live with
     | Some stream => H2Stream.recv_window stream <? as_i32 data_total
     | None => false
     end
  then throw (Http2 H2Error.FlowControlError) else
  let '(r, fc) := FlowController.consume (trunc 32 data_total) (conn_recv_fc c) in
  _ ← modify (λ c, c <| conn_recv_fc := fc |>);
  _ ← lift r;
  _ ← drain_recv header_len;
  _ ← modify (λ c, c <| partial_data := Some {|
        pd_stream_id := sid;
        pd_end_stream := has flags FLAG_END_STREAM;
        data_remaining := data_total;
        pad_remaining := pad_total;
        deliver := bool_decide (is_Some live) |} |>);
  mret Next.

(** ** Receiving the other frames *)

(** [u32::from_be_bytes] of received bytes, whole and with the top bit cleared. *)
Definition recv_u32 (i : Z) : M Error t Z :=
  c ← get; v ← lift (Buf.as_slice (recv_buf c)); lift (u32_at v i).
Definition recv_u31 (i : Z) : M Error t Z :=
  c ← get; v ← lift (Buf.as_slice (recv_buf c)); lift (u31_at v i).

(** A method of the HPACK decoder; what it emits goes to the caller. *)
Definition hpack_decode (block : list Z) : M Error t (list (list Z * list Z)) := λ c,
  let '(r, d) := Hpack.decode block {| Hpack.dec := decoder c; Hpack.emitted := [] |} in
  ((λ _, Hpack.emitted d) <$> r, c <| decoder := Hpack.dec d |>).

(** [headers_data.buf_try_reserve(n).is_err() || headers_data.extend_from_slice(frag).is_err()],
    on the stream [sid]. *)
Definition append_headers (sid : Z) (frag : list Z) (b : Buf.t) : M Error t unit :=
  let '(r, b) := Buf.buf_try_reserve HDRBUF grant (len frag) b in
  _ ← with_stream sid (λ s, s <| H2Stream.headers_data := b |>);
  reserved ← is_ok_of (lift r);
  if negb reserved then throw (Http2 H2Error.EnhanceYourCalm) else
  match Buf.extend_from_slice HDRBUF grant frag b with
  | Ok b' => with_stream sid (λ s, s <| H2Stream.headers_data := b' |>)
  | Err _ => throw (Http2 H2Error.EnhanceYourCalm)
  | Panic => lift Panic
  end.

(** The bounds of the header block fragment in the frame. *)
Definition headers_bounds (flags payload_len : Z) : M Error t (Z * Z) :=
  let ps := 9 in
  let pe := 9 + payload_len in
  '(data_start, data_end) ← (
    if has flags FLAG_PADDED then
      if payload_len =? 0 then throw (BufferTooSmall 1) else
      pad_len ← recv_at ps;
      if payload_len <=? pad_len then throw InvalidState
      else e ← lift (usub pe pad_len); mret (ps + 1, e)
    else mret (ps, pe));
  frag_start ← (
    if has flags FLAG_PRIORITY then
      room ← lift (usub data_end data_start);
      if room <? 5 then throw (BufferTooSmall 5) else mret (data_start + 5)
    else mret data_start);
  mret (frag_start, data_end).

(** A stream of ours that is gone: in our ID space, below [next_stream_id]. *)
Definition reaped (sid : Z) (c : t) : bool :=
  (sid <? next_stream_id c) &&
  match role c with Client => sid mod 2 =? 1 | Server => sid mod 2 =? 0 end.

(** Opening or continuing a stream: the arm after its checks. *)
Definition accept_headers (sid frag_start data_end : Z) (end_stream end_headers : bool) :
    M Error t unit :=
  _ ← modify (λ c, c <| last_peer_stream_id := Z.max (last_peer_stream_id c) sid |>);
  known ← ensure_stream sid;
  if negb known then throw (Http2 H2Error.ProtocolError) else
  c ← get;
  _ ← match get_stream sid c with
      | Some s =>
          let b := Buf.clear (H2Stream.headers_data s) in
          _ ← with_stream sid (λ s, (H2Stream.open s) <| H2Stream.headers_data := b |>);
          frag ← recv_slice frag_start data_end;
          _ ← append_headers sid frag b;
          with_stream sid (λ s,
            let s := if end_headers then s <| H2Stream.headers_received := true |> else s in
            if end_stream then H2Stream.recv_end_stream s else s)
      | None => mret tt
      end;
  _ ← (if negb end_headers
       then modify (λ c, c <| continuation_stream_id := Some sid |>)
       else push_event (EvHeaders sid));
  if end_stream then push_event (Finished sid) else mret tt.

(** [Next] stands for the early [continue] of a closed stream; [Stop] falls
    through to the end of the arm. *)
Definition recv_headers_frame (flags sid payload_len : Z) : M Error t flow :=
  if sid =? 0 then throw (Http2 H2Error.ProtocolError) else
  let end_stream := has flags FLAG_END_STREAM in
  let end_headers := has flags FLAG_END_HEADERS in
  '(frag_start, data_end) ← headers_bounds flags payload_len;
  c ← get;
  let is_new := negb (bool_decide (is_Some (get_stream sid c))) in
  let closed :=
    existsb (λ s, has_id sid s && bool_decide (H2Stream.state s = H2Stream.Closed)) (streams c)
    || (is_new && reaped sid c) in
  if closed then
    if negb end_headers then throw (Http2 H2Error.CompressionError) else
    block ← recv_slice frag_start data_end;
    _ ← hpack_decode block;
    _ ← drain_recv (9 + payload_len);
    mret Next
  else
    if is_new && negb match role c with Server => sid mod 2 =? 1 | Client => false end
    then throw (Http2 H2Error.ProtocolError) else
    _ ← accept_headers sid frag_start data_end end_stream end_headers;
    mret Stop.

(** The loop over the send windows: the streams before an overflow keep their
    new window. *)
Fixpoint shift_windows (delta : Z) (l : list H2Stream.t) : result unit * list H2Stream.t :=
  match l with
  | [] => (Ok tt, [])
  | s :: l' =>
      match i32_checked_add (H2Stream.send_window s) delta with
      | Some w =>
          let '(r, l'') := shift_windows delta l' in
          (r, s <| H2Stream.send_window := w |> :: l'')
      | None => (Err (Http2 H2Error.FlowControlError), l)
      end
  end.

Definition become_active : M Error t unit :=
  _ ← modify (λ c, c <| state := Active |> <| headers_phase_complete := true |>);
  push_event Connected.

Definition recv_settings_frame (flags sid payload_len : Z) : M Error t unit :=
  if negb (sid =? 0) then throw (Http2 H2Error.ProtocolError) else
  if has flags FLAG_ACK then
    if negb (payload_len =? 0) then throw (Http2 H2Error.FrameSizeError) else
    _ ← modify (λ c, c <| settings_ack_received := true |>);
    c ← get;
    if peer_settings_received c && bool_decide (state c = WaitingSettings)
    then become_active else mret tt
  else
    c ← get;
    let old_initial := as_i32 (H2Settings.initial_window_size (peer_settings c)) in
    payload ← recv_slice 9 (9 + payload_len);
    let '(r, ps) := decode_settings_params H2Settings.apply payload (peer_settings c) in
    _ ← modify (λ c, c <| peer_settings := ps |>);
    _ ← lift r;
    _ ← modify (λ c, c <| peer_settings_received := true |>);
    _ ← send_settings_ack;
    c ← get;
    _ ← match state c with
        | WaitingPreface | WaitingSettings => become_active
        | _ => mret tt
        end;
    let new_initial := as_i32 (H2Settings.initial_window_size ps) in
    delta ← lift (i32_sub new_initial old_initial);
    if negb (delta =? 0) then
      c ← get;
      let '(r, l) := shift_windows delta (streams c) in
      _ ← modify (λ c, c <| streams := l |>);
      lift r
    else mret tt.

Definition recv_window_update_frame (sid payload_len : Z) : M Error t unit :=
  if negb (payload_len =? 4) then throw InvalidState else
  increment ← recv_u31 9;
  if increment =? 0 then throw (Http2 H2Error.ProtocolError) else
  c ← get;
  if sid =? 0 then
    let '(r, fc) := FlowController.replenish increment (conn_send_fc c) in
    _ ← modify (λ c, c <| conn_send_fc := fc |>);
    lift r
  else
    match get_stream sid c with
    | Some s =>
        let new_window := H2Stream.send_window s + increment in
        if 0x7fffffff <? new_window then throw (Http2 H2Error.FlowControlError)
        else with_stream sid (λ s, s <| H2Stream.send_window := as_i32 new_window |>)
    | None => mret tt
    end.

Definition recv_ping_frame (flags sid payload_len : Z) : M Error t unit :=
  if negb (sid =? 0) then throw (Http2 H2Error.ProtocolError) else
  if negb (payload_len =? 8) then throw (Http2 H2Error.FrameSizeError) else
  if negb (has flags FLAG_ACK) then
    payload ← recv_slice 9 (9 + 8);
    data ← lift (copy_at (replicate 8 0) 0 8 payload);
    send_ping_ack data
  else mret tt.

Definition recv_goaway_frame (sid payload_len : Z) : M Error t unit :=
  if negb (sid =? 0) then throw InvalidState else
  if payload_len <? 8 then throw (BufferTooSmall 8) else
  last_stream_id ← recv_u31 9;
  error_code ← recv_u32 13;
  _ ← modify (λ c, c <| state := Closing |>);
  push_event (EvGoAway last_stream_id error_code).

Definition discard_partial (sid : Z) (p : option PartialData) : option PartialData :=
  match p with
  | Some pd => Some (if pd_stream_id pd =? sid then pd <| deliver := false |> else pd)
  | None => None
  end.

Definition recv_rst_frame (sid payload_len : Z) : M Error t unit :=
  if sid =? 0 then throw InvalidState else
  if negb (payload_len =? 4) then throw InvalidState else
  error_code ← recv_u32 9;
  _ ← modify (λ c, c <| partial_data := discard_partial sid (partial_data c) |>);
  c ← get;
  buffered ← match get_stream sid c with
             | Some s =>
                 b ← lift (Buf.blen (H2Stream.data_buf s));
                 _ ← with_stream sid (λ s,
                       H2Stream.reset (s <| H2Stream.data_buf := Buf.clear (H2Stream.data_buf s) |>
                                         <| H2Stream.data_available := false |>));
                 mret (trunc 32 b)
             | None => mret 0
             end;
  _ ← (if 0 <? buffered then send_window_update 0 buffered else mret tt);
  push_event (StreamReset sid error_code).

Definition recv_continuation_frame (flags sid payload_len : Z) : M Error t unit :=
  if sid =? 0 then throw (Http2 H2Error.ProtocolError) else
  let end_headers := has flags FLAG_END_HEADERS in
  _ ← (if end_headers then modify (λ c, c <| continuation_stream_id := None |>) else mret tt);
  c ← get;
  match get_stream sid c with
  | Some s =>
      frag ← recv_slice 9 (9 + payload_len);
      _ ← append_headers sid frag (H2Stream.headers_data s);
      if end_headers then
        _ ← with_stream sid (λ s, s <| H2Stream.headers_received := true |>);
        push_event (EvHeaders sid)
      else mret tt
  | None => mret tt
  end.

(** The [match] on the frame type; [true] when the arm has consumed the frame
    itself. *)
Definition recv_frame (frame_type flags sid payload_len : Z) : M Error t bool :=
  match frame_type with
  | 0x1 =>
      f ← recv_headers_frame flags sid payload_len;
      mret (match f with Next => true | Stop => false end)
  | 0x4 => _ ← recv_settings_frame flags sid payload_len; mret false
  | 0x8 => _ ← recv_window_update_frame sid payload_len; mret false
  | 0x6 => _ ← recv_ping_frame flags sid payload_len; mret false
  | 0x7 => _ ← recv_goaway_frame sid payload_len; mret false
  | 0x3 => _ ← recv_rst_frame sid payload_len; mret false
  | 0x9 => _ ← recv_continuation_frame flags sid payload_len; mret false
  | _ => mret false
  end.

(** ** The receive loop *)

(** A frame whose nine-byte header is in [recv_buf]. *)
Definition recv_one : M Error t flow :=
  b0 ← recv_at 0; b1 ← recv_at 1; b2 ← recv_at 2;
  let payload_len := Z.lor (Z.lor (Z.shiftl b0 16) (Z.shiftl b1 8)) b2 in
  let total := 9 + payload_len in
  c ← get;
  if as_usize (H2Settings.max_frame_size (local_settings c)) <? payload_len
  then throw (Http2 H2Error.FrameSizeError) else
  frame_type ← recv_at 3;
  flags ← recv_at 4;
  sid ← recv_u31 5;
  if match continuation_stream_id c with
     | Some expected => negb (frame_type =? FRAME_CONTINUATION) || negb (sid =? expected)
     | None => false
     end
  then throw (Http2 H2Error.ProtocolError) else
  if frame_type =? FRAME_DATA then recv_data_frame flags sid payload_len else
  if BUF <? total then throw (Http2 H2Error.FrameSizeError) else
  l ← recv_len;
  if l <? total then mret Stop else
  consumed ← recv_frame frame_type flags sid payload_len;
  _ ← (if (consumed : bool) then mret tt else drain_recv total);
  mret Next.

(** One iteration: resume an unfinished DATA frame, or parse the next frame. *)
Definition recv_step : M Error t flow :=
  c ← get;
  match partial_data c with
  | Some _ =>
      _ ← pump_partial_data;
      c ← get;
      mret (match partial_data c with Some _ => Stop | None => Next end)
  | None =>
      l ← recv_len;
      if l <? 9 then mret Stop else recv_one
  end.

(** Every iteration but a resumed DATA frame takes at least nine bytes. *)
Fixpoint recv_loop (fuel : nat) : M Error t unit :=
  f ← recv_step;
  match f with
  | Stop => mret tt
  | Next => match fuel with O => lift Panic | S fuel => recv_loop fuel end
  end.

Fixpoint compare_preface (n : nat) (i : Z) (remaining : list Z) : M Error t unit :=
  match n with
  | O => mret tt
  | S n =>
      a ← recv_at i;
      b ← lift (idx remaining i);
      if negb (a =? b) then throw InvalidState else compare_preface n (i + 1) remaining
  end.

Definition validate_client_preface : M Error t unit :=
  c ← get;
  remaining ← lift (slice_from CONNECTION_PREFACE (preface_bytes_seen c));
  l ← recv_len;
  let check_len := Z.min (len remaining) l in
  _ ← compare_preface (Z.to_nat check_len) 0 remaining;
  _ ← modify (λ c, c <| preface_bytes_seen := preface_bytes_seen c + check_len |>);
  _ ← (if 0 <? check_len then drain_recv check_len else mret tt);
  c ← get;
  if len CONNECTION_PREFACE <=? preface_bytes_seen c
  then modify (λ c, c <| preface_validated := true |>) else mret tt.

Definition sweep : M Error t unit :=
  modify (λ c, c <| streams := List.filter retained (streams c) |>).

Definition recv_frames : M Error t unit :=
  l ← recv_len;
  _ ← recv_loop (2 * Z.to_nat l + 2);
  sweep.

Definition process_recv : M Error t unit :=
  c ← get;
  if bool_decide (role c = Server) && negb (preface_validated c) then
    _ ← validate_client_preface;
    c ← get;
    if negb (preface_validated c) then mret tt else recv_frames
  else recv_frames.

Definition feed_data (data : list Z) : M Error t unit :=
  _ ← generate_output;
  l ← recv_len;
  if BUF <? l + len data then throw (BufferTooSmall (l + len data)) else
  _ ← (λ c, let '(r, b) := Buf.buf_try_reserve BUF grant (len data) (recv_buf c) in
            (r, c <| recv_buf := b |>));
  _ ← (λ c, match Buf.extend_from_slice BUF grant data (recv_buf c) with
            | Ok b => (Ok tt, c <| recv_buf := b |>)
            | Err _ => (Ok tt, c)
            | Panic => (Panic, c)
            end);
  process_recv.

(** ** Sending *)

(** [for _ in 0..n { let _ = io.send_buf.push(0); }]. *)
Fixpoint push_zeros (n : nat) : M Error t unit :=
  match n with O => mret tt | S n => _ ← extend_send [0]; push_zeros n end.

(** [while io.send_buf.len() < BUF { let _ = io.send_buf.push(0); }]: at most
    [BUF] pushes when every push succeeds. *)
Fixpoint fill_zeros (fuel : nat) : M Error t unit :=
  l ← send_len;
  if l <? BUF then
    match fuel with O => lift Panic | S fuel => _ ← extend_send [0]; fill_zeros fuel end
  else mret tt.

Definition truncate_send (n : Z) : M Error t unit :=
  c ← get; b ← lift (Buf.truncate n (send_buf c)); modify (λ c, c <| send_buf := b |>).

(** The header block behind nine bytes kept for the frame header: through the
    stack scratch, or in place when it is too small. *)
Definition encode_block (headers : list (list Z * list Z)) (hdr_start : Z) : M Error t Z :=
  let '(r, scratch) := Hpack.encode headers (replicate (Z.to_nat HEADERS_SCRATCH) 0) in
  match r with
  | Ok n =>
      if BUF <? hdr_start + 9 + n then throw (BufferTooSmall (hdr_start + 9 + n)) else
      _ ← reserve_send (9 + n);
      _ ← push_zeros 9;
      block ← lift (slice scratch 0 n);
      _ ← extend_send block;
      mret n
  | Err (BufferTooSmall _) =>
      room ← lift (usub BUF hdr_start);
      _ ← reserve_send room;
      _ ← push_zeros 9;
      encode_start ← send_len;
      max_hpack ← lift (usub BUF encode_start);
      _ ← fill_zeros (Z.to_nat BUF);
      n ← with_send_slice encode_start (encode_start + max_hpack) (Hpack.encode headers);
      _ ← truncate_send (encode_start + n);
      mret n
  | Err e => throw e
  | Panic => lift Panic
  end.

Definition send_headers (sid : Z) (headers : list (list Z * list Z)) (end_stream : bool) :
    M Error t unit :=
  known ← ensure_stream sid;
  if negb known then throw InvalidState else
  hdr_start ← send_len;
  if BUF <? hdr_start + 9 then throw (BufferTooSmall (hdr_start + 9)) else
  hpack_len ← encode_block headers hdr_start;
  let flags := 0 in
  let flags := if end_stream then Z.lor flags FLAG_END_STREAM else flags in
  let flags := Z.lor flags FLAG_END_HEADERS in
  let hdr := {| h_length := trunc 32 hpack_len; h_frame_type := FRAME_HEADERS;
                h_flags := flags; h_stream_id := sid |} in
  _ ← with_send_slice hdr_start (hdr_start + 9) (encode_frame_header hdr);
  _ ← with_stream sid (λ s,
        let s := H2Stream.open s in
        if end_stream then H2Stream.send_end_stream s else s);
  modify (λ c, c <| sent_since_tick := true |>).

Definition open_stream (headers : list (list Z * list Z)) (end_stream : bool) : M Error t Z :=
  c ← get;
  if 0x7fffffff <? next_stream_id c then throw StreamLimitExhausted else
  let sid := next_stream_id c in
  next ← lift (uadd 64 (next_stream_id c) 2);
  _ ← modify (λ c, c <| next_stream_id := next |>);
  _ ← send_headers sid headers end_stream;
  mret sid.

Definition send_capacity (sid : Z) (c : t) : option Z :=
  stream ← get_stream sid c;
  if H2Stream.can_send stream then
    let by_conn := Z.max (FlowController.window (conn_send_fc c)) 0 in
    let by_stream := Z.max (H2Stream.send_window stream) 0 in
    Some (Z.min (Z.min by_conn by_stream) (as_usize (H2Settings.max_frame_size (peer_settings c))))
  else None.

(** Room for a frame of [n] payload bytes. *)
Definition reserve_data (n : Z) : M Error t unit :=
  l ← send_len;
  c ← get;
  if Buf.allocated_capacity (send_buf c) <? l + (9 + n) then
    grow ← (if LARGE_BODY_CHUNK <=? n then lift (usub BUF l) else mret (9 + n));
    reserve_send grow
  else mret tt.

(** The frame header, written over nine zeros, and the payload. *)
Definition write_data (sid : Z) (to_send : list Z) (actual_end : bool) : M Error t unit :=
  let hdr := {| h_length := trunc 32 (len to_send); h_frame_type := FRAME_DATA;
                h_flags := if actual_end then FLAG_END_STREAM else 0; h_stream_id := sid |} in
  hdr_start ← send_len;
  _ ← push_zeros 9;
  _ ← with_send_slice hdr_start (hdr_start + 9) (encode_frame_header hdr);
  extend_send to_send.

(** The windows the payload is charged to. *)
Definition charge_data (sid n : Z) : M Error t unit :=
  if negb (n =? 0) then
    c ← get;
    let '(r, fc) := FlowController.consume (trunc 32 n) (conn_send_fc c) in
    _ ← modify (λ c, c <| conn_send_fc := fc |>);
    _ ← lift r;
    match get_stream sid c with
    | Some s =>
        w ← lift (i32_sub (H2Stream.send_window s) (as_i32 n));
        with_stream sid (λ s, s <| H2Stream.send_window := w |>)
    | None => mret tt
    end
  else mret tt.

Definition send_data (sid : Z) (data : list Z) (end_stream : bool) : M Error t Z :=
  c ← get;
  if match get_stream sid c with Some s => negb (H2Stream.can_send s) | None => false end
  then throw InvalidState else
  let max_by_conn := Z.max (FlowController.window (conn_send_fc c)) 0 in
  let max_by_stream :=
    match get_stream sid c with Some s => Z.max (H2Stream.send_window s) 0 | None => 0 end in
  let max_frame := as_usize (H2Settings.max_frame_size (peer_settings c)) in
  let can_send := Z.min (Z.min (Z.min (len data) max_by_conn) max_by_stream) max_frame in
  if (can_send =? 0) && negb (len data =? 0) then throw WouldBlock else
  to_send ← (if len data =? 0 then mret data else lift (slice data 0 can_send));
  let actual_end := end_stream && (len to_send =? len data) in
  let total_needed := 9 + len to_send in
  l ← send_len;
  if BUF <? l + total_needed then throw (BufferTooSmall (l + total_needed)) else
  _ ← reserve_data (len to_send);
  _ ← write_data sid to_send actual_end;
  _ ← charge_data sid (len to_send);
  _ ← (if actual_end then with_stream sid H2Stream.send_end_stream else mret tt);
  _ ← modify (λ c, c <| sent_since_tick := true |>);
  mret (len to_send).

(** ** Reading *)

Definition recv_headers (sid : Z) : M Error t (list (list Z * list Z)) :=
  c ← get;
  match get_stream sid c with
  | None => throw InvalidState
  | Some s =>
      if negb (H2Stream.headers_received s) then throw WouldBlock else
      block ← lift (Buf.as_slice (H2Stream.headers_data s));
      hs ← hpack_decode block;
      _ ← with_stream sid (λ s,
            s <| H2Stream.headers_data := Buf.clear (H2Stream.headers_data s) |>
              <| H2Stream.headers_received := false |>);
      mret hs
  end.

Definition has_partial_data (c : t) : bool := bool_decide (is_Some (partial_data c)).

(** The bytes copied out to the caller's buffer of [cap] bytes, and whether the
    body is complete. *)
Definition recv_body (sid cap : Z) : M Error t (list Z * bool) :=
  c ← get;
  match get_stream sid c with
  | None => throw InvalidState
  | Some s =>
      l ← lift (Buf.blen (H2Stream.data_buf s));
      if l =? 0 then
        if H2Stream.fin_received s then
          _ ← with_stream sid (λ s, s <| H2Stream.data_available := false |>);
          mret ([], true)
        else throw WouldBlock
      else
        let copy_len := Z.min l cap in
        v ← lift (Buf.as_slice (H2Stream.data_buf s));
        out ← lift (slice v 0 copy_len);
        b1 ← lift (Buf.with_mut_slice (λ s, copy_within s copy_len (len s) 0) (H2Stream.data_buf s));
        l1 ← lift (Buf.blen b1);
        l2 ← lift (usub l1 copy_len);
        b2 ← lift (Buf.truncate l2 b1);
        left ← lift (Buf.blen b2);
        let fin := (left =? 0) && H2Stream.fin_received s in
        _ ← with_stream sid (λ s,
              s <| H2Stream.data_buf := b2 |>
                <| H2Stream.data_available := negb (left =? 0) |>);
        _ ← (if 0 <? copy_len then
               _ ← send_window_update 0 (trunc 32 copy_len);
               send_window_update sid (trunc 32 copy_len)
             else mret tt);
        mret (out, fin)
  end.

Definition discard_body (sid error_code : Z) : M Error t unit :=
  c ← get;
  match get_stream sid c with
  | None => throw InvalidState
  | Some s =>
      _ ← modify (λ c, c <| partial_data := discard_partial sid (partial_data c) |>);
      b ← lift (Buf.blen (H2Stream.data_buf s));
      let buffered := trunc 32 b in
      let send_rst := negb (H2Stream.fin_received s) in
      _ ← with_stream sid (λ s,
            let s := s <| H2Stream.data_buf := Buf.clear (H2Stream.data_buf s) |>
                       <| H2Stream.data_available := false |>
                       <| H2Stream.headers_data := Buf.clear (H2Stream.headers_data s) |>
                       <| H2Stream.headers_received := false |> in
            let s := if send_rst then s <| H2Stream.pending_rst := Some error_code |> else s in
            H2Stream.reset s);
      _ ← (if 0 <? buffered then send_window_update 0 buffered else mret tt);
      if send_rst then flush_window_updates else mret tt
  end.

(** ** Timeouts and connection state *)

Definition is_active (c : t) : bool := bool_decide (state c = Active).

Definition set_timeouts (config : TimeoutConfig) (now : Z) (c : t) : t :=
  c <| timeout_config := config |> <| last_activity := now |> <| connection_start := now |>.

Definition next_timeout (c : t) : option Z :=
  if bool_decide (state c = ConnClosed) then None else
  let earliest := None in
  let earliest :=
    if negb (headers_phase_complete c) then
      match header_timeout_us (timeout_config c) with
      | Some hdr_us => earlier earliest (sat_add64 (connection_start c) hdr_us)
      | None => earliest
      end
    else earliest in
  match idle_timeout_us (timeout_config c) with
  | Some idle_us => earlier earliest (sat_add64 (last_activity c) idle_us)
  | None => earliest
  end.

(** Both timeouts end the connection the same way. *)
Definition time_out : M Error t unit :=
  _ ← ignore (send_goaway 0);
  _ ← modify (λ c, c <| state := ConnClosed |>);
  push_event Timeout.

Definition handle_timeout (now : Z) : M Error t unit :=
  c ← get;
  if bool_decide (state c = ConnClosed) then mret tt else
  _ ← modify (λ c,
        (if sent_since_tick c then c <| last_activity := now |> else c)
        <| sent_since_tick := false |>);
  c ← get;
  let header_expired :=
    negb (headers_phase_complete c) &&
    match header_timeout_us (timeout_config c) with
    | Some hdr_us => sat_add64 (connection_start c) hdr_us <=? now
    | None => false
    end in
  if header_expired then time_out else
  match idle_timeout_us (timeout_config c) with
  | Some idle_us =>
      if sat_add64 (last_activity c) idle_us <=? now then time_out else mret tt
  | None => mret tt
  end.

Definition feed_data_timed (data : list Z) (now : Z) : M Error t unit :=
  _ ← (if len data =? 0 then mret tt else modify (λ c, c <| last_activity := now |>));
  feed_data data.

Definition note_recv_activity (now : Z) (c : t) : t := c <| last_activity := now |>.

Definition is_closed (c : t) : bool :=
  match state c with ConnClosed | Closing => true | _ => false end.

Definition is_established (c : t) : bool := bool_decide (state c = Active).

End H2.
End H2.
