(* ===== verification/H2Inv.v ===== *)
(** * Invariant of the HTTP/2 connection

    What every reachable [H2Connection] satisfies: sound buffers, a stream
    table of distinct streams within its bound, windows within [i32], and the
    conservation of receive credit.  The specifications of the buffer and
    output operations on states that satisfy it. *)
From S2P Require Import Prelude Errors Hoare Varint Cursor Buf Http HpackInteger Huffman Hpack H2Frame H2Stream H2Connection.
Import H2Frame H2.

(** ** Streams *)

Definition body_len (s : H2Stream.t) : Z := len (Buf.vis (H2Stream.data_buf s)).

(** Bytes of body received and not yet read, over all streams. *)
Fixpoint buffered (l : list H2Stream.t) : Z :=
  match l with [] => 0 | s :: l' => body_len s + buffered l' end.

Lemma buffered_app l1 l2 : buffered (l1 ++ l2) = buffered l1 + buffered l2.
Proof. induction l1; simpl; lia. Qed.
Lemma buffered_nonneg l : 0 ≤ buffered l.
Proof. induction l; simpl; unfold body_len in *; lia. Qed.

(** The stream a lookup finds, in its place. *)
Lemma find_stream_split sid l s :
  find_stream sid l = Some s →
  ∃ l1 l2, l = l1 ++ s :: l2 ∧ H2Stream.id s = sid ∧
    ∀ f, update_stream sid f l = l1 ++ f s :: l2.
Proof.
  unfold find_stream. induction l as [|x l IH]; simpl; [done|].
  destruct (has_id sid x) eqn:Hx.
  - intros [= <-]. exists [], l. split; [done|]. split; [|done]. by apply Z.eqb_eq in Hx.
  - intros (l1 & l2 & -> & Hid & Hu)%IH. exists (x :: l1), l2. split; [done|]. split; [done|].
    intros f. simpl. by rewrite Hu.
Qed.

Lemma find_stream_update sid f l s :
  find_stream sid l = Some s → H2Stream.id (f s) = H2Stream.id s →
  find_stream sid (update_stream sid f l) = Some (f s).
Proof.
  unfold find_stream. induction l as [|x l IH]; simpl; [done|].
  destruct (has_id sid x) eqn:Hx.
  - intros [= <-] Hid. simpl. unfold has_id in *. by rewrite Hid, Hx.
  - intros Hs Hid. simpl. rewrite Hx. by apply IH.
Qed.

Lemma update_stream_twice sid f g l s :
  find_stream sid l = Some s → H2Stream.id (f s) = H2Stream.id s →
  update_stream sid g (update_stream sid f l) = update_stream sid (λ s, g (f s)) l.
Proof.
  unfold find_stream. induction l as [|x l IH]; simpl; [done|].
  destruct (has_id sid x) eqn:Hx.
  - intros [= <-] Hid. simpl. unfold has_id in *. by rewrite Hid, Hx.
  - intros Hs Hid. simpl. rewrite Hx. f_equal. by apply IH.
Qed.

Lemma update_stream_none sid f l : find_stream sid l = None → update_stream sid f l = l.
Proof.
  unfold find_stream. induction l as [|x l IH]; simpl; [done|].
  destruct (has_id sid x); [done|]. intros. by rewrite IH.
Qed.

Lemma update_stream_same sid f l : (∀ s, f s = s) → update_stream sid f l = l.
Proof.
  intros Hf. induction l as [|s l IH]; simpl; [done|].
  destruct (has_id sid s); [by rewrite Hf|by rewrite IH].
Qed.

Lemma update_stream_ext sid f g l :
  (∀ s, find_stream sid l = Some s → f s = g s) → update_stream sid f l = update_stream sid g l.
Proof.
  unfold find_stream. induction l as [|s l IH]; simpl; [done|]. intros Hfg.
  destruct (has_id sid s); [by rewrite Hfg|by rewrite IH].
Qed.

Lemma find_stream_none sid l : find_stream sid l = None → sid ∉ (H2Stream.id <$> l).
Proof.
  unfold find_stream. induction l as [|x l IH]; simpl; [by intros _ ?%not_elem_of_nil|].
  unfold has_id at 1. destruct (Z.eqb_spec (H2Stream.id x) sid); [done|].
  intros Hn. apply not_elem_of_cons. split; [done|by apply IH].
Qed.

(** Four bytes within a slice are a number. *)
Lemma u32_at_total l i :
  bytes_ok l → 0 ≤ i → i + 4 ≤ len l → ∃ v, u32_at l i = Ok v ∧ uint 32 v.
Proof.
  intros Hb Hi Hl. pose proof (settled_u32 l i Hb Hi Hl) as Hs. unfold u32_at in *.
  do 4 (edestruct (idx_no_panic (E:=Error) l) as [? Hx]; [shelve|rewrite Hx in *; clear Hx; simpl in *]).
  eauto.
  Unshelve. all: lia.
Qed.
Lemma u31_at_total l i :
  bytes_ok l → 0 ≤ i → i + 4 ≤ len l → ∃ v, u31_at l i = Ok v ∧ uint 31 v.
Proof.
  intros Hb Hi Hl. pose proof (settled_u31 l i Hb Hi Hl) as Hs. unfold u31_at in *.
  do 4 (edestruct (idx_no_panic (E:=Error) l) as [? Hx]; [shelve|rewrite Hx in *; clear Hx; simpl in *]).
  eauto.
  Unshelve. all: lia.
Qed.

(** Bytes waiting in the receive buffer. *)
Abbreviation recv_count c := (len (Buf.vis (recv_buf c))).

(** ** The invariant *)

(** What a connection is instantiated with: the allocator and the const
    parameters, which stay below a gigabyte. *)
Class Params := {
  grant : Z → bool;
  MAX_STREAMS : Z;
  HDRBUF : Z;
  DATABUF : Z;
  BUF : Z;
  size_streams : 0 ≤ MAX_STREAMS < 2 ^ 32;
  size_hdr : 0 ≤ HDRBUF < LIMIT;
  size_data : 0 ≤ DATABUF < LIMIT;
  size_buf : 0 ≤ BUF < LIMIT
}.

(** A small connection, for examples. *)
Definition demo_params : Params.
Proof.
  refine {| grant := λ _, true; MAX_STREAMS := 4; HDRBUF := 2048; DATABUF := 4096; BUF := 1000 |};
    unfold LIMIT; lia.
Defined.

(** While [recv_body] runs, the bytes it has taken out of a stream's buffer and
    not yet credited to it; between calls there are none. *)
Class Debt := { debt : Z → Z; debt_nonneg i : 0 ≤ debt i }.
Definition no_debt : Debt := {| debt := λ _, 0; debt_nonneg _ := Z.le_refl 0 |}.

Section inv.
Context `{Platform} `{Params} `{Debt}.

(** A stream of which at most [k] bytes have been received.  What the peer may
    still send, what it is owed and what is buffered add up to the advertised
    window while the stream lives; a reset only drops buffered bytes. *)
Record stream_ok (k : Z) (s : H2Stream.t) : Prop := {
  st_id : 0 < H2Stream.id s < 2 ^ 31;
  st_headers : Buf.ok HDRBUF (H2Stream.headers_data s) ∧ bytes_ok (Buf.vis (H2Stream.headers_data s));
  st_data : Buf.ok DATABUF (H2Stream.data_buf s);
  st_send : i32 (H2Stream.send_window s);
  st_recv : - k ≤ H2Stream.recv_window s;
  st_pending : 0 ≤ H2Stream.pending_recv_credit s;
  st_credit :
    H2Stream.recv_window s + H2Stream.pending_recv_credit s + body_len s + debt (H2Stream.id s) ≤ DATABUF;
  st_conserved : H2Stream.state s ≠ H2Stream.Closed →
    H2Stream.recv_window s + H2Stream.pending_recv_credit s + body_len s + debt (H2Stream.id s) = DATABUF;
  st_readable : Buf.vis (H2Stream.data_buf s) ≠ [] → H2Stream.data_available s = true;
  st_rst : ∀ code, H2Stream.pending_rst s = Some code → uint 32 code
}.

(** Body bytes of an unfinished DATA frame that are still to come. *)
Definition owed (p : option PartialData) : Z :=
  match p with Some pd => data_remaining pd | None => 0 end.
Definition partial_ok (p : option PartialData) : Prop :=
  match p with
  | Some pd => 0 ≤ data_remaining pd < 2 ^ 24 ∧ 0 ≤ pad_remaining pd < 2 ^ 24
  | None => True
  end.

(** The invariant after [T] bytes from the peer, with the unfinished DATA frame
    [p]: the connection window, the credit not yet announced, the bytes buffered
    in the streams and the bytes of the unfinished frame always add up to the
    initial window. *)
Record inv (T : Z) (p : option PartialData) (c : t) : Prop := {
  inv_recv : Buf.ok BUF (recv_buf c) ∧ bytes_ok (Buf.vis (recv_buf c));
  inv_send : Buf.ok BUF (send_buf c) ∧ 0 ≤ send_offset c ≤ len (Buf.vis (send_buf c));
  inv_ids : NoDup (H2Stream.id <$> streams c) ∧ len (streams c) ≤ MAX_STREAMS;
  inv_streams : Forall (stream_ok (T - len (Buf.vis (recv_buf c)))) (streams c);
  inv_decoder : Hpack.table_ok (decoder c);
  inv_credit :
    FlowController.window (conn_recv_fc c) + pending_conn_credit c + buffered (streams c) + owed p
    = DEFAULT_CONNECTION_WINDOW_SIZE;
  inv_window : 0 ≤ FlowController.window (conn_recv_fc c) ∧ 0 ≤ pending_conn_credit c;
  inv_send_window : 0 ≤ FlowController.window (conn_send_fc c) ≤ i32_max;
  inv_peer : H2Settings.ok (peer_settings c);
  inv_local : H2Settings.ok (local_settings c) ∧
    H2Settings.initial_window_size (local_settings c) = DATABUF ∧
    H2Settings.max_frame_size (local_settings c) = 16384;
  inv_partial : partial_ok p;
  inv_events : len (events c) ≤ 64;
  inv_preface : 0 ≤ preface_bytes_seen c ≤ len CONNECTION_PREFACE;
  inv_ids31 : uint 31 (last_peer_stream_id c) ∧ 0 < next_stream_id c ≤ 2 ^ 31 + 1;
  inv_total : len (Buf.vis (recv_buf c)) ≤ T ≤ LIMIT
}.

Lemma inv_found T p c sid s :
  inv T p c → find_stream sid (streams c) = Some s → stream_ok (T - recv_count c) s.
Proof.
  intros Hi Hf. pose proof (inv_streams _ _ _ Hi) as Hs.
  destruct (find_stream_split _ _ _ Hf) as (l1 & l2 & Hl & _ & _).
  rewrite Hl, Forall_app, Forall_cons in Hs. naive_solver.
Qed.

(** ** The buffers *)

Definition with_send (c : t) (b : Buf.t) : t := c <| send_buf := b |>.
Definition with_recv (c : t) (b : Buf.t) : t := c <| recv_buf := b |>.

Lemma with_send_id c : with_send c (send_buf c) = c.
Proof. by destruct c. Qed.
Lemma with_recv_id c : with_recv c (recv_buf c) = c.
Proof. by destruct c. Qed.

(** The parts of the connection window. *)
Lemma inv_bounds T p c :
  inv T p c →
  FlowController.window (conn_recv_fc c) + pending_conn_credit c + buffered (streams c) + owed p = 65535 ∧
  0 ≤ FlowController.window (conn_recv_fc c) ∧ 0 ≤ pending_conn_credit c ∧
  0 ≤ buffered (streams c) ∧ 0 ≤ owed p.
Proof.
  intros []. pose proof (buffered_nonneg (streams c)). split_and!; try (done || lia).
  destruct p; simpl in *; lia.
Qed.

(** More output does not disturb the invariant. *)
Lemma inv_with_send T p c b :
  inv T p c → Buf.ok BUF b → send_offset c ≤ len (Buf.vis b) → inv T p (with_send c b).
Proof. intros [] ? ?. constructor; simpl; try done. naive_solver. Qed.

Section wp.
Context {X : Prop}.

Lemma wp_is_ok {A} (m : M Error t A) (Q : bool → t → Prop) R c :
  wp X m (λ _, Q true) (λ _, Q false) c → wp X (is_ok_of m) Q R c.
Proof. unfold wp, is_ok_of. by destruct (m c) as [[]]. Qed.

Lemma wp_recv_len T p c (Q : Z → t → Prop) R :
  inv T p c → Q (len (Buf.vis (recv_buf c))) c → wp X recv_len Q R c.
Proof.
  intros Hi HQ. unfold recv_len. wps. eapply wp_lift_ok; [|exact HQ].
  apply (Buf.ok_blen BUF), (inv_recv _ _ _ Hi).
Qed.

Lemma wp_recv_at T p c i (Q : Z → t → Prop) R :
  inv T p c → 0 ≤ i < len (Buf.vis (recv_buf c)) →
  (∀ b, byte_ok b → Buf.vis (recv_buf c) !! Z.to_nat i = Some b → Q b c) → wp X (recv_at i) Q R c.
Proof.
  intros Hi Hl HQ. unfold recv_at. destruct (inv_recv _ _ _ Hi) as [Hok Hb]. wps.
  eapply wp_lift_ok; [by apply (Buf.ok_as_slice BUF)|].
  destruct (idx_no_panic (E:=Error) (Buf.vis (recv_buf c)) i Hl) as [b Hi'].
  eapply wp_lift_ok; [done|]. apply HQ; [by eapply idx_byte|by eapply idx_lookup].
Qed.

Lemma wp_recv_slice T p c a b (Q : list Z → t → Prop) R :
  inv T p c → 0 ≤ a ≤ b → b ≤ len (Buf.vis (recv_buf c)) →
  (∀ l, bytes_ok l → len l = b - a → Q l c) → wp X (recv_slice a b) Q R c.
Proof.
  intros Hi Ha Hl HQ. unfold recv_slice. destruct (inv_recv _ _ _ Hi) as [Hok Hb]. wps.
  eapply wp_lift_ok; [by apply (Buf.ok_as_slice BUF)|].
  eapply wp_lift_ok; [by apply slice_eq|]. apply HQ; [by apply Forall_take, Forall_drop|len_lia].
Qed.

Lemma wp_recv_u31 T p c i (Q : Z → t → Prop) R :
  inv T p c → 0 ≤ i → i + 4 ≤ len (Buf.vis (recv_buf c)) →
  (∀ v, uint 31 v → Q v c) → wp X (recv_u31 i) Q R c.
Proof.
  intros Hi Ha Hl HQ. unfold recv_u31. destruct (inv_recv _ _ _ Hi) as [Hok Hb]. wps.
  eapply wp_lift_ok; [by apply (Buf.ok_as_slice BUF)|].
  destruct (u31_at_total (Buf.vis (recv_buf c)) i) as (v & ? & ?); [done..|].
  eapply wp_lift_ok; eauto.
Qed.

Lemma wp_recv_u32 T p c i (Q : Z → t → Prop) R :
  inv T p c → 0 ≤ i → i + 4 ≤ len (Buf.vis (recv_buf c)) →
  (∀ v, uint 32 v → Q v c) → wp X (recv_u32 i) Q R c.
Proof.
  intros Hi Ha Hl HQ. unfold recv_u32. destruct (inv_recv _ _ _ Hi) as [Hok Hb]. wps.
  eapply wp_lift_ok; [by apply (Buf.ok_as_slice BUF)|].
  destruct (u32_at_total (Buf.vis (recv_buf c)) i) as (v & ? & ?); [done..|].
  eapply wp_lift_ok; eauto.
Qed.

(** Draining shifts the received bytes; the count of bytes received stays. *)
Lemma drain_recv_eq c n :
  Buf.ok BUF (recv_buf c) → 0 ≤ n ≤ len (Buf.vis (recv_buf c)) →
  ∃ b, drain_recv n c = (Ok tt, with_recv c b) ∧ Buf.ok BUF b ∧
       Buf.vis b = drop (Z.to_nat n) (Buf.vis (recv_buf c)).
Proof.
  intros Hok Hn. unfold drain_recv.
  destruct (Buf.ok_drain (E:=Error) BUF n (recv_buf c) Hok Hn) as (b1 & b2 & Hw & Hl & Ht & ? & ?).
  exists b2. split; [|done]. erewrite M_step_ok by reflexivity. rewrite (M_step_lift _ _ _ _ Hw).
  rewrite (M_step_lift _ _ _ _ Hl). erewrite M_step_lift by (apply usub_ok; lia).
  by rewrite (M_step_lift _ _ _ _ Ht).
Qed.

(** Queueing either appends all of [data] or changes nothing. *)
Lemma queue_send_cases c data :
  Buf.ok BUF (send_buf c) → len data ≤ LIMIT →
  ∃ r b, queue_send grant BUF data c = (r, with_send c b) ∧ Buf.ok BUF b ∧
    ((r = Ok tt ∧ Buf.vis b = Buf.vis (send_buf c) ++ data) ∨
     (∃ e, r = Err e ∧ Buf.vis b = Buf.vis (send_buf c))).
Proof.
  intros Hok Hd. unfold queue_send, send_len. rewrite M_bind_assoc.
  erewrite M_step_ok by reflexivity. rewrite (M_step_lift _ _ _ _ (Buf.ok_blen BUF _ Hok)).
  destruct (Z.ltb_spec BUF (len (Buf.vis (send_buf c)) + len data)) as [Hlt|Hge].
  { exists (Err (BufferTooSmall (len (Buf.vis (send_buf c)) + len data))), (send_buf c).
    rewrite with_send_id. split; [done|]. eauto. }
  pose proof size_buf. unfold mbind, M_bind, reserve_send.
  destruct (Buf.ok_try_reserve BUF grant (len data) (send_buf c) Hok) as (r & b & -> & Hb & Hv & Hr);
    [lia|apply size_usize; lia|].
  destruct Hr as [[-> Hsp]| ->]; [|exists (Err OutOfMemory), b; split; [done|]; eauto].
  unfold extend_send.
  destruct (Buf.ok_extend BUF grant data b Hb) as (b' & He & Hb' & Hv' & _);
    [apply Hsp; lia|rewrite Hv; lia|]. simpl. rewrite He.
  exists (Ok tt), b'. split; [done|]. split; [done|]. left. by rewrite Hv', Hv.
Qed.

Lemma len_h2_frame_wire f : len (frame_wire f) = 9 + len (payload_wire f).
Proof. unfold frame_wire. rewrite length_app, Nat2Z.inj_add, len_header_wire. done. Qed.

Lemma send_frame_eq c f size :
  frame_ok f → len (frame_wire f) ≤ Z.of_nat size →
  send_frame grant BUF f size c = queue_send grant BUF (frame_wire f) c.
Proof.
  intros Hf Hs. unfold send_frame. rewrite encode_frame_wire by done.
  rewrite decide_True by len_lia. rewrite (M_step_lift _ _ _ _ eq_refl).
  by rewrite (M_step_lift _ _ _ _ (Buf.slice_prefix _ _ _ eq_refl)).
Qed.

(** Deferred frames: queued, or left for a later call. *)
Lemma try_queue_cases c f buf :
  Buf.ok BUF (send_buf c) → frame_ok f → len (frame_wire f) ≤ 16 → len buf = 16 →
  ∃ ok buf' b, try_queue grant BUF f buf c = (Ok (ok, buf'), with_send c b) ∧ len buf' = 16 ∧
    Buf.ok BUF b ∧
    Buf.vis b = Buf.vis (send_buf c) ++ (if (ok : bool) then frame_wire f else []).
Proof.
  intros Hok Hf Hl Hbuf. unfold try_queue. rewrite encode_frame_wire by done.
  rewrite decide_True by lia. rewrite (M_step_lift _ _ _ _ (Buf.slice_prefix _ _ _ eq_refl)).
  destruct (queue_send_cases c (frame_wire f) Hok) as (r & b & Hq & Hb & Hr);
    [unfold LIMIT; lia|].
  unfold is_ok_of, mbind, M_bind. rewrite Hq.
  destruct Hr as [[-> Hv]|(e & -> & Hv)]; do 3 eexists; (split; [done|]);
    (split; [len_lia|]); (split; [done|]); [done|by rewrite app_nil_r].
Qed.

(** ** What receiving keeps *)

(** The bytes to process and the unfinished frame are untouched. *)
Definition kept (c c' : t) : Prop :=
  recv_buf c' = recv_buf c ∧ partial_data c' = partial_data c.
Definition good (T : Z) (p : option PartialData) (c c' : t) : Prop := inv T p c' ∧ kept c c'.

Lemma good_refl T p c : inv T p c → good T p c c.
Proof. by split. Qed.
Lemma good_trans T p q c1 c2 c3 : good T p c1 c2 → good T q c2 c3 → good T q c1 c3.
Proof. unfold good, kept. intros (_ & -> & ->) (? & <- & <-). done. Qed.

(** *** Lists of streams *)

Lemma update_stream_spec sid f l (P : H2Stream.t → Prop) :
  Forall P l → (∀ s, P s → P (f s) ∧ H2Stream.id (f s) = H2Stream.id s ∧ body_len (f s) = body_len s) →
  Forall P (update_stream sid f l) ∧
  H2Stream.id <$> update_stream sid f l = H2Stream.id <$> l ∧
  buffered (update_stream sid f l) = buffered l.
Proof.
  intros Hl Hf. induction Hl as [|s l Hs Hl (IH1 & IH2 & IH3)]; [done|].
  cbn [update_stream]. destruct (has_id sid s); rewrite !fmap_cons; cbn [buffered].
  - destruct (Hf s Hs) as (? & -> & ->). split_and!; [by constructor|done..].
  - rewrite IH2, IH3. split_and!; [by constructor|done..].
Qed.

(** Changes to streams that keep their credit. *)
Lemma inv_with_streams T p c l :
  inv T p c → Forall (stream_ok (T - len (Buf.vis (recv_buf c)))) l →
  H2Stream.id <$> l = H2Stream.id <$> streams c → buffered l = buffered (streams c) →
  inv T p (c <| streams := l |>).
Proof.
  intros [] Hl Hids Hb. assert (length l = length (streams c)) as Hlen.
  { rewrite <- (length_fmap H2Stream.id), Hids, length_fmap. done. }
  constructor; simpl; try done; [|by rewrite Hb]. by rewrite Hids, Hlen.
Qed.

Lemma with_stream_good T p c sid f :
  inv T p c →
  (∀ k s, stream_ok k s →
     stream_ok k (f s) ∧ H2Stream.id (f s) = H2Stream.id s ∧ body_len (f s) = body_len s) →
  good T p c (c <| streams := update_stream sid f (streams c) |>).
Proof.
  intros Hi Hf. split; [|done].
  edestruct (update_stream_spec sid f (streams c)) as (? & ? & ?); [apply (inv_streams _ _ _ Hi)|apply Hf|].
  by apply inv_with_streams.
Qed.

Lemma wp_with_stream T p c sid f (Q : unit → t → Prop) R :
  inv T p c →
  (∀ k s, stream_ok k s →
     stream_ok k (f s) ∧ H2Stream.id (f s) = H2Stream.id s ∧ body_len (f s) = body_len s) →
  (∀ c', good T p c c' → Q tt c') → wp X (with_stream sid f) Q R c.
Proof. intros Hi Hf HQ. unfold with_stream. wps. by apply HQ, with_stream_good. Qed.

Lemma wp_push_event T p c e (Q : unit → t → Prop) R :
  inv T p c → (∀ c', good T p c c' → Q tt c') → wp X (push_event e) Q R c.
Proof.
  intros Hi HQ. unfold push_event. wps. apply HQ. split; [|done].
  destruct Hi. constructor; simpl; try done. rewrite length_app. simpl.
  destruct (Z.leb_spec 64 (len (events c))); [|lia].
  destruct (events c); simpl in *; lia.
Qed.

(** *** Announcing credit *)

Lemma window_update_ok sid inc : uint 31 sid → uint 31 inc → frame_ok (WindowUpdate sid inc).
Proof. intros. split_and!; [done|simpl; len_lia|done]. Qed.
Lemma rst_ok sid code : 0 < sid < 2 ^ 31 → uint 32 code → frame_ok (RstStream sid code).
Proof. intros. split_and!; [unfold uint; simpl; lia|simpl; len_lia|split; [lia|done]]. Qed.

(** Applying announced credit. *)
Lemma stream_ok_credited k s :
  stream_ok k s → 0 ≤ k ≤ LIMIT →
  stream_ok k (s <| H2Stream.recv_window :=
                      as_i32 (Z.min (H2Stream.recv_window s + H2Stream.pending_recv_credit s) 0x7fffffff) |>
                 <| H2Stream.pending_recv_credit := 0 |>).
Proof.
  intros [] Hk. pose proof size_data. pose proof (debt_nonneg (H2Stream.id s)). unfold LIMIT, body_len in *.
  assert (as_i32 (Z.min (H2Stream.recv_window s + H2Stream.pending_recv_credit s) 0x7fffffff) =
          H2Stream.recv_window s + H2Stream.pending_recv_credit s) as Hw.
  { rewrite Z.min_l by lia. apply as_i32_id. unfold i32, i32_min, i32_max. lia. }
  constructor; simpl; rewrite ?Hw; unfold body_len; simpl; try done; try lia.
  intros Hs. specialize (st_conserved0 Hs). lia.
Qed.

Lemma flush_stream_cases k c s buf :
  Buf.ok BUF (send_buf c) → stream_ok k s → 0 ≤ k ≤ LIMIT → len buf = 16 →
  ∃ s' buf' b, flush_stream grant BUF s buf c = (Ok (s', buf'), with_send c b) ∧ len buf' = 16 ∧
    Buf.ok BUF b ∧ Buf.vis (send_buf c) `prefix_of` Buf.vis b ∧
    stream_ok k s' ∧ H2Stream.id s' = H2Stream.id s ∧ body_len s' = body_len s.
Proof.
  intros Hc Hs Hk Hbuf. unfold flush_stream.
  set (first := if 0 <? H2Stream.pending_recv_credit s then _ else _).
  assert (∃ s1 buf1 b1, first c = (Ok (s1, buf1), with_send c b1) ∧ len buf1 = 16 ∧
    Buf.ok BUF b1 ∧ Buf.vis (send_buf c) `prefix_of` Buf.vis b1 ∧
    stream_ok k s1 ∧ H2Stream.id s1 = H2Stream.id s ∧ body_len s1 = body_len s)
    as (s1 & buf1 & b1 & Hf & Hbuf1 & Hb1 & Hp1 & Hs1 & Hid & Hlen).
  { subst first. destruct (Z.ltb_spec 0 (H2Stream.pending_recv_credit s)).
    2: { exists s, buf, (send_buf c). rewrite with_send_id. by split_and!. }
    destruct (try_queue_cases c (WindowUpdate (H2Stream.id s) (H2Stream.pending_recv_credit s)) buf)
      as ([] & buf' & b & Hq & ? & Hb & Hv); [done| |done|done|..].
    { destruct Hs. pose proof size_data. pose proof (debt_nonneg (H2Stream.id s)). apply window_update_ok;
        unfold uint, LIMIT, body_len in *; lia. }
    all: assert (Buf.vis (send_buf c) `prefix_of` Buf.vis b) by (by eexists).
    all: rewrite (M_step_ok _ _ _ _ _ Hq); do 3 eexists; (split; [done|]).
    all: split_and!; try done. by apply stream_ok_credited. }
  rewrite (M_step_ok _ _ _ _ _ Hf).
  destruct (H2Stream.pending_rst s1) as [code|] eqn:Hrst.
  2: { do 3 eexists. split; [done|]. by split_and!. }
  destruct (try_queue_cases (with_send c b1) (RstStream (H2Stream.id s1) code) buf1)
    as (ok & buf' & b & Hq & ? & Hb & Hv); [done| |done|done|].
  { destruct Hs1. apply rst_ok; eauto. }
  rewrite (M_step_ok _ _ _ _ _ Hq). simpl in Hv.
  assert (Buf.vis (send_buf c) `prefix_of` Buf.vis b) by (rewrite Hv; by apply prefix_app_r).
  destruct ok; do 3 eexists; (split; [done|]); split_and!; try done.
  by destruct Hs1.
Qed.

Lemma flush_streams_cases k c l buf :
  Buf.ok BUF (send_buf c) → Forall (stream_ok k) l → 0 ≤ k ≤ LIMIT → len buf = 16 →
  ∃ l' b, flush_streams grant BUF l buf c = (Ok l', with_send c b) ∧
    Buf.ok BUF b ∧ Buf.vis (send_buf c) `prefix_of` Buf.vis b ∧
    Forall (stream_ok k) l' ∧ H2Stream.id <$> l' = H2Stream.id <$> l ∧ buffered l' = buffered l.
Proof.
  intros Hc Hl Hk. revert c buf Hc. induction Hl as [|s l Hs Hl IH]; intros c buf Hc Hbuf.
  { exists [], (send_buf c). rewrite with_send_id. by split_and!. }
  cbn [flush_streams].
  destruct (flush_stream_cases k c s buf) as (s' & buf' & b & Hf & ? & Hb & Hp & ? & Hid & Hbl); [done..|].
  rewrite (M_step_ok _ _ _ _ _ Hf).
  destruct (IH (with_send c b) buf') as (l' & b' & Hr & ? & Hp' & ? & Hids & Hbuf'); [done..|].
  rewrite (M_step_ok _ _ _ _ _ Hr).
  exists (s' :: l'), b'. split; [done|]. split; [done|]. split; [by etrans|].
  rewrite !fmap_cons, Hid, Hids. cbn [buffered]. rewrite Hbl, Hbuf'.
  split_and!; [by constructor|done..].
Qed.

Lemma replenish_ok n f :
  FlowController.window f + n ≤ i32_max →
  FlowController.replenish n f =
    (Ok tt, f <| FlowController.window := FlowController.window f + n |>).
Proof. intros. unfold FlowController.replenish. by rewrite (proj2 (Z.ltb_ge _ _)) by lia. Qed.

Lemma wp_flush_conn_credit T p c buf :
  inv T p c → len buf = 16 →
  wp X (flush_conn_credit grant BUF buf) (λ buf' c', len buf' = 16 ∧ good T p c c') (λ _ _, False) c.
Proof.
  intros Hi Hbuf. unfold flush_conn_credit. wps.
  destruct (Z.ltb_spec 0 (pending_conn_credit c)); [|wps; split; [done|by apply good_refl]].
  pose proof (inv_bounds _ _ _ Hi).
  destruct (inv_send _ _ _ Hi) as [Hs Ho].
  destruct (try_queue_cases c (WindowUpdate 0 (pending_conn_credit c)) buf)
    as (ok & buf' & b & Hq & Hl & Hb & Hv); [done|apply window_update_ok; unfold uint; lia|done|done|].
  wps. eapply wp_eq; [exact Hq|]. cbv beta iota.
  assert (inv T p (with_send c b)) as Hi'.
  { apply inv_with_send; [done..|]. rewrite Hv. len_lia. }
  destruct ok; wps; (split; [done|]); [|done]. split; [|done].
  destruct Hi'. constructor; try done.
  all: simpl; rewrite replenish_ok by (unfold i32_max; lia); simpl in *;
    unfold DEFAULT_CONNECTION_WINDOW_SIZE; lia.
Qed.

Lemma wp_flush T p c :
  inv T p c → wp X (flush_window_updates grant BUF) (λ _, good T p c) (λ _ _, False) c.
Proof.
  intros Hi. unfold flush_window_updates. wps.
  wp_use wp_flush_conn_credit; [done|done| |done].
  intros buf c1 (Hbuf & Hi1 & Hk1). wps.
  destruct (inv_send _ _ _ Hi1) as [Hs Ho]. pose proof (inv_total _ _ _ Hi1).
  destruct (flush_streams_cases (T - len (Buf.vis (recv_buf c1))) c1 (streams c1) buf)
    as (l & b & Hf & Hb & Hp & Hl & Hids & Hbl); [done|apply (inv_streams _ _ _ Hi1)|lia|done|].
  eapply wp_eq; [exact Hf|]. wps. split; [|done].
  apply prefix_length in Hp.
  apply (inv_with_streams _ _ (with_send c1 b)); try done.
  apply inv_with_send; [done..|lia].
Qed.

(** Crediting the connection for [n] bytes that are no longer owed or buffered. *)
Lemma wp_credit_conn T p c n :
  0 < n → 
  inv T p (c <| pending_conn_credit := pending_conn_credit c + n |>) →
  wp X (send_window_update grant BUF 0 n) (λ _, good T p c) (λ _ _, False) c.
Proof.
  intros Hn Hi. unfold send_window_update.
  rewrite (proj2 (Z.eqb_neq _ _)) by lia. simpl. wps.
  assert (sat_add32 (pending_conn_credit c) n = pending_conn_credit c + n) as ->.
  { unfold sat_add32. apply Z.min_r. pose proof (inv_bounds _ _ _ Hi). simpl in *. lia. }
  wp_use wp_flush; [done| |done]. intros _ c' [Hi' Hk]. by split.
Qed.

(** *** Taking bytes off the receive buffer *)

Lemma stream_ok_mono k k' s : k ≤ k' → stream_ok k s → stream_ok k' s.
Proof. intros ? []. constructor; try done. lia. Qed.

Lemma inv_drained T p c b n :
  inv T p c → Buf.ok BUF b → Buf.vis b = drop n (Buf.vis (recv_buf c)) → inv T p (with_recv c b).
Proof.
  intros [] Hb Hv. constructor; simpl; try done; rewrite Hv.
  - split; [done|]. by apply Forall_drop, inv_recv0.
  - eapply Forall_impl; [exact inv_streams0|]. intros s. apply stream_ok_mono. len_lia.
  - len_lia.
Qed.

Lemma wp_drain T p c n (Q : unit → t → Prop) R :
  inv T p c → 0 ≤ n ≤ len (Buf.vis (recv_buf c)) →
  (∀ b, inv T p (with_recv c b) → len (Buf.vis b) = len (Buf.vis (recv_buf c)) - n →
        Q tt (with_recv c b)) →
  wp X (drain_recv n) Q R c.
Proof.
  intros Hi Hn HQ. destruct (drain_recv_eq c n) as (b & Hd & Hb & Hv); [apply (inv_recv _ _ _ Hi)|done|].
  eapply wp_eq; [exact Hd|]. apply HQ; [by eapply inv_drained|]. rewrite Hv. len_lia.
Qed.

(** *** One stream and the connection credit change together *)

Lemma inv_stream_change T p p' c sid f s q :
  inv T p c → find_stream sid (streams c) = Some s → H2Stream.id (f s) = H2Stream.id s →
  stream_ok (T - len (Buf.vis (recv_buf c))) (f s) → 0 ≤ q → partial_ok p' →
  q + body_len (f s) + owed p' = pending_conn_credit c + body_len s + owed p →
  inv T p' (c <| streams := update_stream sid f (streams c) |> <| pending_conn_credit := q |>).
Proof.
  intros [] Hf Hid Hok Hq Hp Hcr.
  destruct (find_stream_split _ _ _ Hf) as (l1 & l2 & Hl & _ & Hu).
  rewrite Hl in inv_ids0, inv_streams0, inv_credit0.
  constructor; simpl; rewrite ?Hu; try done.
  - rewrite fmap_app, fmap_cons, length_app in *. by rewrite Hid.
  - rewrite Forall_app, Forall_cons in *. naive_solver.
  - rewrite buffered_app in *. cbn [buffered] in *. lia.
  - lia.
Qed.

End wp.
End inv.
