(* ===== verification/H2Receive.v ===== *)
(** * Receiving on an HTTP/2 connection

    Every frame arm, the DATA pump and the receive loop keep the connection
    invariant, return on every input, and panic only where the HPACK decoder's
    overflow check does. *)
From stdpp Require Import sets.
From S2P Require Import Prelude Errors Hoare Varint Cursor Buf Http HpackInteger Huffman Hpack H2Frame H2Stream H2Connection H2Inv.
Import H2Frame H2.
#[local] Existing Instance no_debt.

Section receive.
Context `{Platform} `{Params} {X : Prop}.

(** ** The DATA pump *)

(** A chunk moved from the receive buffer into a stream. *)
Lemma inv_delivered T pd c s b rb n :
  inv T (Some pd) c → find_stream (pd_stream_id pd) (streams c) = Some s →
  0 ≤ n ≤ data_remaining pd → n ≤ recv_count c →
  Buf.ok DATABUF b → len (Buf.vis b) = body_len s + n →
  Buf.ok BUF rb → Buf.vis rb = drop (Z.to_nat n) (Buf.vis (recv_buf c)) →
  inv T (Some (pd <| data_remaining := data_remaining pd - n |>))
    (with_recv (c <| streams := update_stream (pd_stream_id pd) (λ s',
       s' <| H2Stream.data_buf := b |> <| H2Stream.data_available := true |>
          <| H2Stream.recv_window := H2Stream.recv_window s - n |>) (streams c) |>) rb).
Proof.
  intros Hi Hf Hn Hr Hb Hv Hrb Hvr.
  pose proof (inv_drained _ _ _ _ _ Hi Hrb Hvr) as Hd.
  set (f := λ s : H2Stream.t, _).
  refine (inv_stream_change _ _ (Some (pd <| data_remaining := data_remaining pd - n |>))
    (with_recv c rb) _ f s (pending_conn_credit c) Hd Hf _ _ _ _ _); [done|..].
  - destruct (inv_found _ _ _ _ _ Hi Hf).
    simpl. rewrite Hvr. unfold f. constructor; simpl; unfold body_len in *; simpl; rewrite ?Hv; try done.
    + len_lia.
    + simpl in *. lia.
    + intros Hc. specialize (st_conserved Hc). simpl in *. lia.
  - apply (inv_window _ _ _ Hi).
  - pose proof (inv_partial _ _ _ Hi) as Hp. simpl in *. lia.
  - unfold f, body_len in *. simpl. lia.
Qed.

(** A stream whose data buffer was only reallocated. *)
Lemma inv_data_buf T p c sid s b :
  inv T p c → find_stream sid (streams c) = Some s → Buf.ok DATABUF b →
  Buf.vis b = Buf.vis (H2Stream.data_buf s) →
  inv T p (c <| streams := update_stream sid (λ s, s <| H2Stream.data_buf := b |>) (streams c) |>).
Proof.
  intros Hi Hf Hb Hv. set (f := λ s : H2Stream.t, _).
  refine (inv_stream_change _ _ p c _ f s (pending_conn_credit c) Hi Hf _ _ _ _ _); [done|..].
  - destruct (inv_found _ _ _ _ _ Hi Hf). unfold f.
    constructor; simpl; unfold body_len in *; simpl; rewrite ?Hv; done.
  - apply (inv_window _ _ _ Hi).
  - apply (inv_partial _ _ _ Hi).
  - unfold f, body_len. simpl. by rewrite Hv.
Qed.

(** Progress of the pump: bytes only leave the receive buffer. *)
Definition pump_post (T : Z) (c : t) (pd : PartialData) (c' : t) : Prop :=
  inv T (Some pd) c' ∧ partial_data c' = partial_data c ∧ recv_count c' ≤ recv_count c.

Lemma wp_deliver_chunk T pd c s :
  inv T (Some pd) c → find_stream (pd_stream_id pd) (streams c) = Some s →
  0 < data_remaining pd → 0 < recv_count c →
  wp X (deliver_chunk grant DATABUF pd s (recv_count c))
    (λ o c', match o with
             | None => pump_post T c pd c'
             | Some n => pump_post T c (pd <| data_remaining := data_remaining pd - n |>) c' ∧
                         recv_count c' < recv_count c
             end) (λ _ _, False) c.
Proof.
  intros Hi Hf Hrem Havail. pose proof (inv_found _ _ _ _ _ Hi Hf) as Hs.
  pose proof (st_data _ _ Hs) as Hdata. pose proof (Buf.ok_bound _ _ Hdata) as Hbound.
  pose proof size_data as Hsz. pose proof (inv_total _ _ _ Hi) as HT.
  unfold deliver_chunk. wps. eapply wp_lift_ok; [by apply (Buf.ok_blen DATABUF)|]. wps.
  eapply wp_lift_ok; [by apply usub_ok|]. unfold Buf.capacity.
  destruct (Z.eqb_spec (DATABUF - len (Buf.vis (H2Stream.data_buf s))) 0) as [|Hfree]; [by wps|].
  set (n := Z.min _ _).
  assert (0 < n ≤ recv_count c ∧ n ≤ data_remaining pd ∧
          len (Buf.vis (H2Stream.data_buf s)) + n ≤ DATABUF) as (Hn & Hnr & Hnf) by (subst n; lia).
  clearbody n.
  destruct (Buf.ok_try_reserve DATABUF grant n (H2Stream.data_buf s) Hdata)
    as (r & b & -> & Hb & Hv & Hr); [lia|apply size_usize; lia|].
  pose proof (inv_data_buf _ _ _ _ _ b Hi Hf Hb Hv) as Hi1.
  unfold with_stream. wps. set (c1 := c <| streams := _ |>) in *.
  apply wp_is_ok, wp_lift. destruct Hr as [[-> Hsp]| ->]; simpl; [|by wps].
  wps. eapply (wp_recv_slice T (Some pd)); [done|lia|simpl; lia|]. intros chunk Hcb Hcl.
  destruct (Buf.ok_extend DATABUF grant chunk b Hb) as (b' & He & Hb' & Hv' & _);
    [apply (Buf.spare_le _ _ n); [apply Hsp; lia|lia]|rewrite Hv; lia|].
  wps. rewrite He. wps.
  eapply wp_lift_ok.
  { apply i32_sub_ok. rewrite as_i32_small by (unfold i32_max, LIMIT in *; lia).
    destruct Hs. simpl in *. unfold i32, i32_min, i32_max, LIMIT, body_len in *. lia. }
  wps. rewrite as_i32_small by (unfold i32_max, LIMIT in *; lia).
  set (c2 := c1 <| streams := _ |>).
  destruct (drain_recv_eq c2 n) as (rb & Hd & Hrb & Hvr); [apply (inv_recv _ _ _ Hi1)|simpl; lia|].
  eapply wp_eq; [exact Hd|].
  assert (find_stream (pd_stream_id pd) (streams c1) = Some (s <| H2Stream.data_buf := b |>)) as Hf1.
  { by apply (find_stream_update _ (λ s, s <| H2Stream.data_buf := b |>)). }
  wps. eapply wp_push_event.
  { apply (inv_delivered T pd c1 _ b' rb n Hi1 Hf1); try done; [lia|simpl; lia|].
    rewrite Hv'. unfold body_len. simpl. len_lia. }
  intros c' [Hi' [Hr' Hp']]. wps. unfold pump_post. rewrite Hr'. simpl. rewrite Hvr. simpl.
  split_and!; [done..|len_lia|len_lia].
Qed.

Lemma wp_pump_loop fuel T pd c :
  inv T (Some pd) c → recv_count c + (if deliver pd then 1 else 0) < Z.of_nat fuel →
  wp X (pump_loop grant DATABUF BUF fuel pd) (pump_post T c) (λ _ _, False) c.
Proof.
  revert pd c. induction fuel as [|fuel IH]; intros pd c Hi Hfuel.
  { destruct (deliver pd); lia. }
  cbn [pump_loop]. destruct (Z.ltb_spec 0 (data_remaining pd)) as [Hrem|]; [|by wps].
  wps. eapply wp_recv_len; [done|]. destruct (Z.eqb_spec (recv_count c) 0) as [|Hne]; [by wps|].
  destruct (deliver pd) eqn:Hdel.
  - wps. unfold get_stream. destruct (find_stream (pd_stream_id pd) (streams c)) as [s|] eqn:Hf.
    2: { wp_use (IH (pd <| deliver := false |>) c); [|simpl; lia|done|done].
         destruct Hi; constructor; done. }
    wps. wp_use wp_deliver_chunk; [done..|lia| |done].
    intros [n|] c'; [|by intros; wps]. intros [(Hi' & Hp' & Hr') Hlt].
    wp_use IH; [done|simpl; rewrite Hdel; lia| |done].
    intros pd' c'' (? & ? & ?). split_and!; [done|congruence|lia].
  - set (n := Z.min _ _). assert (0 < n ≤ recv_count c ∧ n ≤ data_remaining pd) as [Hn Hnr] by (subst n; lia).
    clearbody n. wps.
    destruct (drain_recv_eq c n) as (rb & Hd & Hrb & Hvr); [apply (inv_recv _ _ _ Hi)|lia|].
    eapply wp_eq; [exact Hd|]. rewrite (proj2 (Z.ltb_lt _ _)) by lia.
    wps. rewrite trunc_small by (pose proof (inv_total _ _ _ Hi); unfold uint, LIMIT in *; lia).
    wp_use (wp_credit_conn T (Some (pd <| data_remaining := data_remaining pd - n |>))); [lia| | |done].
    { pose proof (inv_drained _ _ _ _ _ Hi Hrb Hvr) as []. constructor; simpl in *; try done; lia. }
    intros _ c1 (Hi1 & Hr1 & Hp1). simpl in Hr1, Hp1.
    wp_use IH; [done|simpl; rewrite Hdel, Hr1, Hvr; len_lia| |done].
    intros pd' c'' (? & ? & Hle). rewrite Hr1, Hvr in Hle.
    split_and!; [done|congruence|len_lia].
Qed.

(** A connection between calls. *)
Definition conn_ok (T : Z) (c : t) : Prop := inv T (partial_data c) c.

(** Fields the invariant does not mention. *)
Lemma inv_partial_data T p q c : inv T p c → inv T p (c <| partial_data := q |>).
Proof. intros []; constructor; done. Qed.

Lemma wp_pump_padding T pd c :
  inv T (Some pd) c → wp X (pump_padding pd) (pump_post T c) (λ _ _, False) c.
Proof.
  intros Hi. unfold pump_padding. destruct (_ && _) eqn:Hc; [|wps; by split_and!].
  apply andb_prop in Hc as [_ Hp%Z.ltb_lt]. wps. eapply wp_recv_len; [done|].
  wps. eapply wp_drain; [done|lia|]. intros b Hb Hl. wps. split_and!; [|done|simpl; lia].
  destruct Hb; constructor; simpl in *; try done. lia.
Qed.

(** The end of a DATA frame keeps a stream's credit. *)
Lemma recv_end_stream_ok k s :
  stream_ok k s →
  stream_ok k (H2Stream.recv_end_stream s) ∧
  H2Stream.id (H2Stream.recv_end_stream s) = H2Stream.id s ∧
  body_len (H2Stream.recv_end_stream s) = body_len s.
Proof.
  intros []. split; [|by unfold H2Stream.recv_end_stream; simpl; destruct (H2Stream.state s)].
  constructor; unfold H2Stream.recv_end_stream, body_len in *; simpl;
    destruct (H2Stream.state s) eqn:?; simpl; try done; intros; by apply st_conserved.
Qed.

Lemma data_available_ok k s :
  stream_ok k s → stream_ok k (s <| H2Stream.data_available := true |>).
Proof. intros []; by constructor. Qed.

Lemma wp_pump_finish T pd c :
  inv T (Some pd) c → partial_data c = None →
  wp X (pump_finish pd) (λ _ c', conn_ok T c' ∧ recv_count c' = recv_count c) (λ _ _, False) c.
Proof.
  intros Hi Hn. unfold pump_finish, conn_ok. destruct (_ && _) eqn:Hc.
  2: { wps. split; [by apply inv_partial_data|done]. }
  apply andb_prop in Hc as [Hd%Z.eqb_eq _].
  assert (inv T None c) as Hi0 by (destruct Hi; constructor; simpl in *; try done; lia).
  destruct (deliver pd); [|wps; by rewrite Hn].
  wps. eapply wp_with_stream; [done| |].
  { intros k s Hs. apply data_available_ok in Hs. destruct (pd_end_stream pd); [|done].
    by apply recv_end_stream_ok in Hs. }
  intros c1 (Hi1 & Hr1 & Hp1). destruct (pd_end_stream pd); wps; [|by rewrite Hp1, Hn, Hr1].
  eapply wp_push_event; [done|]. intros c2 (Hi2 & Hr2 & Hp2). by rewrite Hp2, Hp1, Hn, Hr2, Hr1.
Qed.

Lemma wp_pump T c :
  conn_ok T c →
  wp X (pump_partial_data grant DATABUF BUF) (λ _ c', conn_ok T c' ∧ recv_count c' ≤ recv_count c)
    (λ _ _, False) c.
Proof.
  intros Hi. unfold pump_partial_data. wps. unfold conn_ok in Hi.
  destruct (partial_data c) as [pd|] eqn:Hpd; wps; [|by unfold conn_ok; rewrite Hpd].
  apply (inv_partial_data _ _ None) in Hi. eapply wp_recv_len; [done|]. wps.
  wp_use wp_pump_loop; [done|simpl; destruct (deliver pd); lia| |done].
  intros pd1 c1 (Hi1 & Hp1 & Hr1). wps. wp_use wp_pump_padding; [done| |done].
  intros pd2 c2 (Hi2 & Hp2 & Hr2). wp_use wp_pump_finish; [done| | |done].
  { by rewrite Hp2, Hp1. }
  intros _ c3 [? ?]. simpl in Hr1. split; [done|lia].
Qed.

(** ** The loop *)

(** Each iteration that continues makes this smaller. *)
Definition measure (c : t) : Z :=
  2 * recv_count c + match partial_data c with Some _ => 1 | None => 0 end.

(** What an iteration of the loop leaves. *)
Definition step_post (T : Z) (c : t) (f : flow) (c' : t) : Prop :=
  conn_ok T c' ∧ (f = Next → measure c' < measure c).

Lemma wp_recv_data_frame T c flags sid payload_len :
  conn_ok T c → partial_data c = None → 9 ≤ recv_count c → uint 31 sid → 0 ≤ payload_len < 2 ^ 24 →
  wp X (recv_data_frame flags sid payload_len) (step_post T c) (λ _, conn_ok T) c.
Proof.
  intros Hi Hpd Hl Hsid Hpl. unfold recv_data_frame. destruct (sid =? 0); [by wps|].
  wps. eapply wp_recv_len; [done|].
  destruct (Z.ltb_spec (recv_count c) (if has flags FLAG_PADDED then 10 else 9)); [by wps|].
  wps.
  set (sized := if has flags FLAG_PADDED then _ else _).
  assert (wp X sized (λ r c', c' = c ∧ 0 ≤ r.1 ≤ payload_len ∧ 0 ≤ r.2 ≤ payload_len)
    (λ _, conn_ok T) c) as Hsized.
  { subst sized. destruct (has flags FLAG_PADDED); [|wps; simpl; split_and!; (done || lia)].
    destruct (payload_len =? 0); [by wps|]. wps. eapply wp_recv_at; [done|lia|].
    intros pad Hpad _. unfold byte_ok in Hpad.
    destruct (Z.leb_spec payload_len pad); wps; [done|]. simpl. split_and!; (done || lia). }
  wp_use Hsized; [|done]. intros [data_total pad_total] c' (-> & Hd & Hp). simpl in Hd, Hp. wps.
  destruct (_ && _); [by wps|].
  rewrite trunc_small by (unfold uint; lia).
  pose proof (inv_bounds _ _ _ Hi) as Hb. pose proof (inv_send_window _ _ _ Hi).
  rewrite FlowController.consume_spec; [|unfold FlowController.ok, i32, i32_min, i32_max; lia|lia].
  rewrite decide_True by (unfold i32_max; lia).
  case_decide as Hw; wps; (eapply wp_lift; cbv iota).
  2: { destruct Hi; constructor; done. }
  set (pd := {| pd_stream_id := sid; pd_end_stream := _; data_remaining := data_total;
                pad_remaining := pad_total; deliver := _ |}).
  wps. eapply (wp_drain T (Some pd)).
  { unfold conn_ok in Hi. rewrite Hpd in Hi.
    destruct Hi; constructor; simpl in *; try done; lia. }
  { simpl. destruct (has flags FLAG_PADDED); lia. }
  intros b Hib Hlb. wps. split; [by apply inv_partial_data|].
  intros _. unfold measure. simpl in *. rewrite Hlb, Hpd. destruct (has flags FLAG_PADDED); lia.
Qed.

(** ** Frames other than DATA *)

(** The states an arm may leave: the invariant, with the input untouched. *)
Abbreviation arm m T c := (wp X m (λ _ c', good T None c c') (λ _ c', good T None c c') c).

Lemma wp_queue_send T p c data :
  inv T p c → len data ≤ LIMIT →
  wp X (queue_send grant BUF data) (λ _ c', good T p c c') (λ _ c', good T p c c') c.
Proof.
  intros Hi Hd. destruct (inv_send _ _ _ Hi) as [Hs Ho].
  destruct (queue_send_cases c data Hs Hd) as (r & b & Hq & Hb & Hr).
  unfold wp. rewrite Hq.
  assert (good T p c (with_send c b)).
  { split; [|done]. apply inv_with_send; [done..|].
    destruct Hr as [[_ ->]|(? & _ & ->)]; [len_lia|lia]. }
  by destruct Hr as [[-> _]|(? & -> & _)].
Qed.

Lemma wp_send_frame T p c f size :
  inv T p c → frame_ok f → len (frame_wire f) ≤ Z.of_nat size → Z.of_nat size ≤ LIMIT →
  wp X (send_frame grant BUF f size) (λ _ c', good T p c c') (λ _ c', good T p c c') c.
Proof.
  intros Hi Hf Hs HL. unfold wp. rewrite send_frame_eq by done. apply wp_queue_send; [done|lia].
Qed.

(** *** HEADERS *)

Lemma wp_headers_bounds T c flags payload_len :
  conn_ok T c → 9 + payload_len ≤ recv_count c → 0 ≤ payload_len →
  wp X (headers_bounds flags payload_len)
    (λ r c', c' = c ∧ 9 ≤ r.1 ≤ r.2 ∧ r.2 ≤ 9 + payload_len) (λ _ c', c' = c) c.
Proof.
  intros Hi Hl Hp. unfold headers_bounds.
  set (padded := if has flags FLAG_PADDED then _ else _).
  assert (wp X padded (λ r c', c' = c ∧ 9 ≤ r.1 ≤ r.2 ∧ r.2 ≤ 9 + payload_len) (λ _ c', c' = c) c) as Hpad.
  { subst padded. destruct (has flags FLAG_PADDED); [|wps; simpl; split_and!; (done || lia)].
    destruct (Z.eqb_spec payload_len 0); [by wps|]. wps. eapply wp_recv_at; [done|lia|].
    intros pad Hpad _. unfold byte_ok in Hpad.
    destruct (Z.leb_spec payload_len pad); wps; [done|].
    eapply wp_lift_ok; [apply usub_ok; lia|]. wps. simpl. split_and!; (done || lia). }
  wps. wp_use Hpad; [|done]. intros [a e] c' (-> & Hae & He). simpl in Hae, He. wps.
  destruct (has flags FLAG_PRIORITY); wps; [|simpl; split_and!; (done || lia)].
  eapply wp_lift_ok; [apply usub_ok; lia|]. destruct (Z.ltb_spec (e - a) 5); wps; [done|].
  simpl. split_and!; (done || lia).
Qed.

(** Sweeping drops only streams without unread bytes. *)
Lemma swept_empty k s : stream_ok k s → retained s = false → body_len s = 0.
Proof.
  intros [] Hr. unfold retained in Hr. apply orb_false_elim in Hr as [Hr _].
  apply orb_false_elim in Hr as [Hr _]. apply orb_false_elim in Hr as [_ Hr].
  unfold body_len. destruct (Buf.vis (H2Stream.data_buf s)); [done|].
  rewrite st_readable in Hr; done.
Qed.

Lemma sweep_list k l :
  Forall (stream_ok k) l → NoDup (H2Stream.id <$> l) →
  let l' := List.filter retained l in
  Forall (stream_ok k) l' ∧ NoDup (H2Stream.id <$> l') ∧ buffered l' = buffered l ∧
  (length l' ≤ length l)%nat ∧ ∀ i, i ∈ H2Stream.id <$> l' → i ∈ H2Stream.id <$> l.
Proof.
  intros Hl. simpl. induction Hl as [|s l Hs Hl IH]; intros Hnd; simpl.
  { split_and!; [done..|set_solver]. }
  rewrite fmap_cons, NoDup_cons in Hnd. destruct Hnd as [Hin Hnd].
  destruct (IH Hnd) as (IH1 & IH2 & IH3 & IH4 & IH5).
  destruct (retained s) eqn:Hr; cbn [buffered length]; rewrite ?fmap_cons.
  - split_and!; [by constructor| |lia|lia|set_solver].
    apply NoDup_cons. split; [|done]. intros Hi. by apply Hin, IH5.
  - split_and!; [done|done| |lia|set_solver]. by rewrite IH3, (swept_empty k s Hs Hr).
Qed.

Lemma inv_sweep T p c :
  inv T p c → inv T p (c <| streams := List.filter retained (streams c) |>).
Proof.
  intros []. destruct inv_ids as [Hnd Hlen].
  destruct (sweep_list _ _ inv_streams Hnd) as (H1 & H2 & H3 & H4 & _).
  constructor; simpl; try done; [split; [done|lia]|by rewrite H3].
Qed.

Lemma new_stream_ok k sid send : 
  0 < sid < 2 ^ 31 → 0 ≤ k → stream_ok k (H2Stream.new sid (as_i32 send) DATABUF).
Proof.
  intros Hs Hk. pose proof size_hdr. pose proof size_data.
  destruct (Buf.ok_new HDRBUF) as [Hh Hvh]; [lia|].
  destruct (Buf.ok_new DATABUF) as [Hd Hvd]; [lia|].
  constructor; unfold body_len; simpl; rewrite ?Hvh, ?Hvd; simpl; try done; try lia.
  apply as_i32_range.
Qed.

Lemma find_stream_snoc l s :
  find_stream (H2Stream.id s) l = None → find_stream (H2Stream.id s) (l ++ [s]) = Some s.
Proof.
  unfold find_stream. induction l as [|x l IH]; simpl; [unfold has_id; by rewrite Z.eqb_refl|].
  destruct (has_id _ x); [done|apply IH].
Qed.

(** A stream is found, or created within the bound. *)
Lemma wp_ensure_stream T p c sid :
  inv T p c → 0 < sid < 2 ^ 31 →
  wp X (ensure_stream MAX_STREAMS sid)
    (λ b c', good T p c c' ∧ send_buf c' = send_buf c ∧
       (b = true → ∃ s, find_stream sid (streams c') = Some s))
    (λ _ _, False) c.
Proof.
  intros Hi Hsid. unfold ensure_stream, get_stream. wps.
  destruct (find_stream sid (streams c)) as [s|] eqn:Hf.
  { rewrite bool_decide_true by done. wps. split; [by apply good_refl|]. split; [done|]. eauto. }
  rewrite bool_decide_false by (intros []; congruence).
  set (swept := if MAX_STREAMS <=? len (streams c) then _ else _).
  assert (wp X swept (λ _ c', good T p c c' ∧ send_buf c' = send_buf c ∧ find_stream sid (streams c') = None) (λ _ _, False) c) as Hsw.
  { subst swept. case_match; wps; [|split; [by apply good_refl|done]].
    split; [split; [by apply inv_sweep|done]|]. split; [done|]. simpl. destruct (find_stream sid (List.filter _ _)) eqn:Hf2; [|done].
    destruct (inv_ids _ _ _ Hi) as [Hnd _].
    destruct (sweep_list _ _ (inv_streams _ _ _ Hi) Hnd) as (_ & _ & _ & _ & Hin).
    apply find_stream_none in Hf. destruct Hf. apply Hin.
    destruct (find_stream_split _ _ _ Hf2) as (l1 & l2 & -> & <- & _). set_solver. }
  wps. wp_use Hsw; [|done]. intros _ c1 ([Hi1 Hk1] & Hsb & Hf1). wps.
  destruct (Z.leb_spec MAX_STREAMS (len (streams c1))) as [|Hroom]; wps; [by split|].
  destruct (inv_local _ _ _ Hi1) as (_ & Hw & _).
  pose proof size_data. rewrite Hw, (as_i32_small DATABUF) by (unfold i32_max, LIMIT in *; lia).
  pose proof (inv_total _ _ _ Hi1).
  pose proof (new_stream_ok (T - recv_count c1) sid
    (H2Settings.initial_window_size (peer_settings c1)) Hsid) as Hn. 
  split; [split; [|done]|split; [done|]].
  - apply find_stream_none in Hf1. destruct Hi1. constructor; simpl; try done.
    + rewrite fmap_app, length_app. simpl. split; [|lia].
      destruct inv_ids as [Hnd _]. apply NoDup_app. split_and!; [done| |apply NoDup_singleton].
      intros x Hx ->%list_elem_of_singleton. done.
    + apply Forall_app. split; [done|]. apply Forall_singleton, Hn. lia.
    + rewrite buffered_app. cbn [buffered].
      change (body_len (H2Stream.new _ _ _)) with 0. lia.
  - intros _. eexists. by apply (find_stream_snoc _ (H2Stream.new sid _ _)).
Qed.

(** Accumulating a header block. *)
Lemma headers_data_ok b k s :
  Buf.ok HDRBUF b → bytes_ok (Buf.vis b) → stream_ok k s →
  stream_ok k (s <| H2Stream.headers_data := b |>).
Proof. intros ?? []; by constructor. Qed.

Lemma wp_append_headers T c sid frag b :
  inv T None c → bytes_ok frag → len frag ≤ LIMIT → Buf.ok HDRBUF b → bytes_ok (Buf.vis b) →
  arm (append_headers grant HDRBUF sid frag b) T c.
Proof.
  intros Hi Hfb Hfl Hb Hbb. pose proof size_hdr. unfold append_headers.
  destruct (Buf.ok_try_reserve HDRBUF grant (len frag) b Hb) as (r & b1 & -> & Hb1 & Hv1 & Hr);
    [lia|apply size_usize; lia|].
  wps. eapply wp_with_stream; [done| |].
  { intros k s Hs. split_and!; [|done..]. apply headers_data_ok; [done|by rewrite Hv1|done]. }
  intros c1 Hg1. wps. apply wp_is_ok, wp_lift.
  destruct Hr as [[-> Hsp]| ->]; simpl; [|by wps].
  destruct (decide (HDRBUF < len (Buf.vis b1) + len frag)) as [Hlt|Hge].
  { rewrite (Buf.ok_extend_err HDRBUF grant frag b1) by done. by wps. }
  destruct (Buf.ok_extend HDRBUF grant frag b1 Hb1) as (b2 & -> & Hb2 & Hv2 & _);
    [apply Hsp; rewrite Hv1 in Hge; lia|lia|].
  eapply wp_with_stream; [apply Hg1| |].
  { intros k s Hs. split_and!; [|done..]. apply headers_data_ok; [done| |done].
    rewrite Hv2, Hv1. by apply Forall_app. }
  intros c2 Hg2. by eapply good_trans.
Qed.

(** The HPACK decoder is the only source of a panic. *)
Hypothesis HX : overflow_checks = true → X.

Lemma wp_hpack_decode T p c block :
  inv T p c → bytes_ok block →
  wp X (hpack_decode block) (λ _ c', good T p c c') (λ _ c', good T p c c') c.
Proof.
  intros Hi Hb. unfold hpack_decode, wp.
  destruct (Hpack.runs_loop (H := hpack_alloc) (length block) block 0 Hb ltac:(lia) ltac:(lia)
    {| Hpack.dec := decoder c; Hpack.emitted := [] |}) as (Ht & _ & Hr).
  { apply (inv_decoder _ _ _ Hi). }
  unfold Hpack.decode. destruct (Hpack.decode_loop _ _ _ _) as [r d]. simpl in *.
  assert (good T p c (c <| decoder := Hpack.dec d |>)).
  { split; [|done]. destruct Hi; by constructor. }
  destruct r; simpl in *; [done|done|by apply HX].
Qed.

Lemma open_ok k s :
  stream_ok k s →
  stream_ok k (H2Stream.open s) ∧ H2Stream.id (H2Stream.open s) = H2Stream.id s ∧
  body_len (H2Stream.open s) = body_len s.
Proof.
  intros []. unfold H2Stream.open. case_decide as Hs; [|done].
  split; [|done]. constructor; simpl; try done. intros _. apply st_conserved. by rewrite Hs.
Qed.

Lemma wp_accept_headers T c sid a e end_stream end_headers :
  inv T None c → 0 < sid < 2 ^ 31 → 0 ≤ a ≤ e → e ≤ recv_count c →
  arm (accept_headers grant MAX_STREAMS HDRBUF sid a e end_stream end_headers) T c.
Proof.
  intros Hi Hsid Ha He. unfold accept_headers. wps.
  set (c0 := c <| last_peer_stream_id := _ |>).
  assert (good T None c c0) as Hg0.
  { split; [|done]. destruct Hi. constructor; simpl; try done. unfold uint in *. lia. }
  wp_use (wp_ensure_stream T None c0); [apply Hg0|done| |done].
  intros known c1 (Hg1 & _ & Hknown). pose proof (good_trans _ _ _ _ _ _ Hg0 Hg1) as Hg. clear Hg0 Hg1.
  destruct known; simpl; [|by wps]. destruct (Hknown eq_refl) as [s Hf].
  wps. unfold get_stream. rewrite Hf.
  pose proof (inv_found _ _ _ _ _ (proj1 Hg) Hf) as Hs.
  pose proof size_hdr as Hsz.
  destruct (Buf.ok_clear HDRBUF (H2Stream.headers_data s)) as [Hb Hv]; [lia|apply Hs|].
  wps. eapply wp_with_stream; [apply Hg| |].
  { intros k s' Hs'. apply open_ok in Hs' as (? & Hid & Hbl). split_and!; [|exact Hid|exact Hbl].
    apply headers_data_ok; [done|by rewrite Hv|done]. }
  intros c2 Hg2. apply (good_trans _ _ _ _ _ _ Hg) in Hg2. wps.
  eapply (wp_recv_slice T None); [apply Hg2|done|by rewrite (proj1 (proj2 Hg2))|].
  intros frag Hfb Hfl.
  assert (len frag ≤ LIMIT) as HfL by (pose proof (inv_total _ _ _ Hi); lia).
  wps. wp_use (wp_append_headers T); [apply Hg2|done|done|done|by rewrite Hv| |].
  2: { intros _ c3 Hg3. by eapply good_trans. }
  intros _ c3 Hg3. apply (good_trans _ _ _ _ _ _ Hg2) in Hg3.
  eapply wp_with_stream; [apply Hg3| |].
  { intros k s' Hs'.
    assert (stream_ok k (s' <| H2Stream.headers_received := true |>)) as Hr by (destruct Hs'; by constructor).
    destruct end_headers, end_stream; try done; [|by apply recv_end_stream_ok].
    destruct (recv_end_stream_ok _ _ Hr) as (? & Hid & Hbl). split_and!; [done|exact Hid|exact Hbl]. }
  intros c4 Hg4. apply (good_trans _ _ _ _ _ _ Hg3) in Hg4. wps.
  eapply (wp_mono X _ (λ _, good T None c) _ (λ _ _, False)); [|intros _ c5 Hg5|done].
  - destruct end_headers; simpl.
    + eapply wp_push_event; [apply Hg4|]. intros. by eapply good_trans.
    + wps. eapply good_trans; [exact Hg4|]. split; [|done]. destruct Hg4 as [[] _]; by constructor.
  - destruct end_stream; [|by wps].
    eapply wp_push_event; [apply Hg5|]. intros. by eapply good_trans.
Qed.

(** An arm that consumes the frame itself has shortened the input. *)
Lemma wp_recv_headers_frame T c flags sid payload_len :
  inv T None c → partial_data c = None → uint 31 sid → 0 ≤ payload_len →
  9 + payload_len ≤ recv_count c →
  wp X (recv_headers_frame grant MAX_STREAMS HDRBUF flags sid payload_len)
    (λ f c', match f with
             | Stop => good T None c c'
             | Next => inv T None c' ∧ partial_data c' = None ∧ recv_count c' < recv_count c
             end) (λ _ c', good T None c c') c.
Proof.
  intros Hi Hpd Hsid Hp Hl. unfold recv_headers_frame.
  destruct (Z.eqb_spec sid 0); [wps; by apply good_refl|].
  assert (conn_ok T c) by (unfold conn_ok; by rewrite Hpd).
  wps. wp_use wp_headers_bounds; [done..| |intros _ c' ->; by apply good_refl].
  intros [a e] c' (-> & Ha & He). simpl in Ha, He. wps.
  destruct (_ || _).
  - destruct (negb _); [wps; by apply good_refl|]. wps.
    eapply (wp_recv_slice T None); [done|lia|lia|]. intros block Hb _. wps.
    wp_use (wp_hpack_decode T None); [done..| |done]. intros _ c1 (Hi1 & Hr1 & Hp1). wps.
    eapply (wp_drain T None); [done|rewrite Hr1; lia|]. intros b Hib Hlb. wps.
    rewrite Hr1 in Hlb. simpl. split_and!; [done|congruence|lia].
  - destruct (_ && _); [wps; by apply good_refl|]. wps.
    wp_use wp_accept_headers; [done|unfold uint in *; lia|lia|lia| |]; intros; by wps.
Qed.

(** *** SETTINGS *)

Lemma shift_windows_ok k delta l :
  Forall (stream_ok k) l →
  Forall (stream_ok k) (shift_windows delta l).2 ∧
  H2Stream.id <$> (shift_windows delta l).2 = H2Stream.id <$> l ∧
  buffered (shift_windows delta l).2 = buffered l ∧ (shift_windows delta l).1 ≠ Panic.
Proof.
  induction 1 as [|s l Hs Hl (IH1 & IH2 & IH3 & IH4)]; [done|]. cbn [shift_windows].
  unfold i32_checked_add. case_decide; [|split_and!; [by constructor|done..]].
  destruct (shift_windows delta l) as [r l']. cbn [fst snd] in *. rewrite !fmap_cons, IH2.
  cbn [buffered]. rewrite IH3. split_and!; [|done..]. constructor; [|done].
  destruct Hs; by constructor.
Qed.

Lemma settings_loop_ok fuel payload pos ps :
  bytes_ok payload → 0 ≤ pos → len payload - pos ≤ Z.of_nat fuel → H2Settings.ok ps →
  wp False (settings_loop H2Settings.apply fuel payload pos)
    (λ _, H2Settings.ok) (λ _, H2Settings.ok) ps.
Proof.
  intros Hb. revert pos ps. induction fuel as [|fuel IH]; intros pos ps Hpos Hf Hps;
    cbn [settings_loop]; (destruct (Z.leb_spec (pos + 6) (len payload)); [|by wps]); [lia|].
  wps. destruct (idx_no_panic (E:=Error) payload pos) as [b0 H0']; [lia|].
  destruct (idx_no_panic (E:=Error) payload (pos + 1)) as [b1 H1']; [lia|].
  destruct (u32_at_total payload (pos + 2)) as (v & Hv & Hvr); [done|lia|lia|].
  eapply wp_lift_ok; [exact H0'|]. wps. eapply wp_lift_ok; [exact H1'|]. wps.
  eapply wp_lift_ok; [exact Hv|]. wps.
  pose proof (H2Settings.apply_ok (be_val [b0; b1]) v ps Hvr Hps) as Hok.
  pose proof (H2Settings.apply_total (be_val [b0; b1]) v ps) as Ht.
  unfold wp at 1. destruct (H2Settings.apply _ _ _) as [[]]; simpl in *; [|done|done].
  apply IH; [lia..|done].
Qed.

Lemma decode_settings_ok payload ps :
  bytes_ok payload → H2Settings.ok ps →
  wp False (decode_settings_params H2Settings.apply payload) (λ _, H2Settings.ok) (λ _, H2Settings.ok) ps.
Proof.
  intros. unfold decode_settings_params. case_match; [by wps|]. apply settings_loop_ok; (done || lia).
Qed.

Lemma wp_become_active T c : inv T None c → arm become_active T c.
Proof.
  intros Hi. unfold become_active. wps. eapply wp_push_event.
  - instantiate (1 := None). instantiate (1 := T). destruct Hi; by constructor.
  - intros c' [? ?]. by split.
Qed.

Lemma initial_window_range ps :
  H2Settings.ok ps → as_i32 (H2Settings.initial_window_size ps) = H2Settings.initial_window_size ps.
Proof. intros (_ & _ & ? & _). by apply as_i32_small. Qed.

Lemma wp_recv_settings_frame T c flags sid payload_len :
  inv T None c → 0 ≤ payload_len → 9 + payload_len ≤ recv_count c →
  arm (recv_settings_frame grant BUF flags sid payload_len) T c.
Proof.
  intros Hi Hp Hl. unfold recv_settings_frame. destruct (negb _); [wps; by apply good_refl|].
  destruct (has flags FLAG_ACK).
  - destruct (negb _); [wps; by apply good_refl|]. wps.
    set (c0 := c <| settings_ack_received := true |>).
    assert (inv T None c0) by (destruct Hi; by constructor).
    destruct (_ && _); [|wps; by split]. wp_use wp_become_active; [done|..]; by intros _ c' [? ?].
  - wps. eapply (wp_recv_slice T None); [done|lia|lia|]. intros payload Hb _.
    pose proof (decode_settings_ok payload (peer_settings c) Hb (inv_peer _ _ _ Hi)) as Hd. unfold wp in Hd.
    destruct (decode_settings_params _ _ _) as [r ps].
    assert (H2Settings.ok ps ∧ r ≠ Panic) as [Hps Hr] by (by destruct r).
    wps. set (c0 := c <| peer_settings := ps |>).
    assert (good T None c c0) as Hg0 by (split; [destruct Hi; by constructor|done]).
    apply wp_lift. destruct r; [|done|done]. wps.
    wp_use (wp_send_frame T None); [|by repeat split|done|done| |].
    { destruct Hg0 as [[] _]; by constructor. }
    2: { intros _ c1 [? ?]. by split. }
    intros _ c1 [Hi1 Hk1]. assert (good T None c c1) as Hg by (by split).
    clear Hg0 Hi1 Hk1. wps. eapply (wp_mono X _ (λ _, good T None c) _ (λ _, good T None c)); [|intros _ c2 Hg2|done].
    { destruct (state c1); wps; try done.
      all: wp_use wp_become_active; [apply Hg|..]; intros _ c' Hg'; by eapply good_trans. }
    wps. pose proof (inv_peer _ _ _ Hi) as Hold. rewrite !initial_window_range by done.
    destruct Hps as (_ & _ & Hw & _), Hold as (_ & _ & Hw' & _).
    eapply wp_lift_ok; [apply i32_sub_ok; unfold i32, i32_min, i32_max in *; lia|].
    destruct (negb _); wps; [|done].
    destruct (shift_windows_ok _ (H2Settings.initial_window_size ps - H2Settings.initial_window_size (peer_settings c))
      (streams c2) (inv_streams _ _ _ (proj1 Hg2))) as (? & ? & ? & Hnp).
    destruct (shift_windows _ _) as [r l]. wps. apply wp_lift. simpl in *.
    assert (good T None c (c2 <| streams := l |>)).
    { eapply good_trans; [exact Hg2|]. split; [|done]. apply inv_with_streams; try done. apply Hg2. }
    by destruct r.
Qed.

(** *** The control frames *)

Lemma wp_recv_window_update_frame T c sid payload_len :
  inv T None c → 9 + payload_len ≤ recv_count c → arm (recv_window_update_frame sid payload_len) T c.
Proof.
  intros Hi Hl. unfold recv_window_update_frame.
  destruct (Z.eqb_spec payload_len 4); simpl; [|wps; by apply good_refl]. wps.
  eapply (wp_recv_u31 T None); [done|lia|lia|]. intros inc Hinc.
  destruct (Z.eqb_spec inc 0); wps; [by apply good_refl|].
  destruct (sid =? 0).
  - unfold FlowController.replenish. cbv zeta.
    destruct (Z.ltb_spec i32_max (FlowController.window (conn_send_fc c) + inc)); wps; apply wp_lift; cbv iota.
    all: split; [|done]; destruct Hi; constructor; simpl; try done.
    unfold i32_max, uint in *. lia.
  - unfold get_stream. destruct (find_stream sid (streams c)) as [s|] eqn:Hf; [|wps; by apply good_refl].
    case_match eqn:Hm; [wps; by apply good_refl|].
    eapply wp_with_stream; [done| |done]. intros k s' Hs'. split_and!; [|done..].
    destruct Hs'; constructor; simpl; try done. apply as_i32_range.
Qed.

Lemma wp_recv_ping_frame T c flags sid payload_len :
  inv T None c → 9 + payload_len ≤ recv_count c → arm (recv_ping_frame grant BUF flags sid payload_len) T c.
Proof.
  intros Hi Hl. unfold recv_ping_frame. destruct (negb _); [wps; by apply good_refl|].
  destruct (Z.eqb_spec payload_len 8); simpl; [|wps; by apply good_refl].
  destruct (negb _); wps; [|by apply good_refl].
  eapply (wp_recv_slice T None); [done|lia|lia|]. intros d Hb Hld. wps.
  eapply wp_lift_ok; [apply copy_at_eq; simpl; lia|].
  eapply wp_send_frame; [done| |rewrite len_h2_frame_wire; simpl; len_lia|done].
  split_and!; [done|simpl; len_lia|simpl; len_lia].
Qed.

Lemma wp_recv_goaway_frame T c sid payload_len :
  inv T None c → 9 + payload_len ≤ recv_count c → arm (recv_goaway_frame sid payload_len) T c.
Proof.
  intros Hi Hl. unfold recv_goaway_frame. destruct (negb _); [wps; by apply good_refl|].
  destruct (Z.ltb_spec payload_len 8); [wps; by apply good_refl|]. wps.
  eapply (wp_recv_u31 T None); [done|lia|lia|]. intros last Hlast. wps.
  eapply (wp_recv_u32 T None); [done|lia|lia|]. intros code Hcode. wps.
  eapply (wp_push_event T None); [destruct Hi; by constructor|]. intros c' [? ?]. by split.
Qed.

(** Dropping what a stream has buffered: the connection is credited for it. *)
Lemma inv_drop_body T c sid s f :
  inv T None c → find_stream sid (streams c) = Some s → H2Stream.id (f s) = H2Stream.id s →
  (∀ k, stream_ok k s → stream_ok k (f s)) → body_len (f s) = 0 →
  inv T None (c <| streams := update_stream sid f (streams c) |>
                <| pending_conn_credit := pending_conn_credit c + body_len s |>).
Proof.
  intros Hi Hf Hid Hok Hbl.
  refine (inv_stream_change _ _ None c _ f s _ Hi Hf Hid _ _ _ _).
  - apply Hok. by eapply inv_found.
  - pose proof (inv_bounds _ _ _ Hi). unfold body_len. lia.
  - done.
  - simpl. lia.
Qed.

Lemma clear_body_ok k s :
  stream_ok k s →
  stream_ok k (H2Stream.reset (s <| H2Stream.data_buf := Buf.clear (H2Stream.data_buf s) |>
                                 <| H2Stream.data_available := false |>)) ∧
  Buf.vis (Buf.clear (H2Stream.data_buf s)) = [].
Proof.
  intros []. pose proof size_data.
  destruct (Buf.ok_clear DATABUF (H2Stream.data_buf s)) as [Hb Hv]; [lia|done|].
  split; [|done]. constructor; simpl; unfold body_len in *; simpl in *; rewrite ?Hv; simpl; try done. lia.
Qed.

(** [n] bytes of credit, or none. *)
Lemma wp_credit T p c n :
  0 ≤ n → inv T p (c <| pending_conn_credit := pending_conn_credit c + n |>) →
  wp X (if 0 <? n then send_window_update grant BUF 0 n else mret tt)
    (λ _, good T p c) (λ _ _, False) c.
Proof.
  intros Hn Hi. destruct (Z.ltb_spec 0 n); [by apply wp_credit_conn|]. wps.
  replace n with 0 in Hi by lia. rewrite Z.add_0_r in Hi. split; [|done].
  destruct Hi; by constructor.
Qed.

Lemma wp_recv_rst_frame T c sid payload_len :
  inv T None c → partial_data c = None → 9 + payload_len ≤ recv_count c →
  arm (recv_rst_frame grant BUF sid payload_len) T c.
Proof.
  intros Hi Hpd Hl. unfold recv_rst_frame. destruct (sid =? 0); [wps; by apply good_refl|].
  destruct (Z.eqb_spec payload_len 4); simpl; [|wps; by apply good_refl]. wps.
  eapply (wp_recv_u32 T None); [done|lia|lia|]. intros code Hcode. wps.
  rewrite Hpd. cbn [discard_partial]. set (c0 := c <| partial_data := None |>).
  assert (good T None c c0) as Hg0 by (split; [destruct Hi; by constructor|done]).
  unfold get_stream. change (streams c0) with (streams c).
  eapply (wp_mono X _ (λ n c', 0 ≤ n ∧ kept c c' ∧
    inv T None (c' <| pending_conn_credit := pending_conn_credit c' + n |>)) _ (λ _ _, False));
    [|intros n c1 (Hn & Hk & Hi1)|done].
  - destruct (find_stream sid (streams c)) as [s|] eqn:Hf.
    2: { wps. split; [done|]. split; [apply Hg0|]. rewrite Z.add_0_r. destruct Hg0 as [[] _]; by constructor. }
    pose proof (inv_found _ _ _ _ _ Hi Hf) as Hs. pose proof (st_data _ _ Hs) as Hd. pose proof size_data.
    pose proof (Buf.ok_bound _ _ Hd).
    wps. eapply wp_lift_ok; [by apply (Buf.ok_blen DATABUF)|]. unfold with_stream. wps.
    rewrite trunc_small by (unfold uint, LIMIT in *; lia).
    split; [lia|]. split; [apply Hg0|].
    set (f := λ s : H2Stream.t, _).
    apply (inv_drop_body T c0 sid s f); [apply Hg0|done|done| |].
    + intros k Hk. by apply clear_body_ok in Hk as [? _].
    + apply clear_body_ok in Hs as [_ Hv]. unfold f, body_len; simpl. by rewrite Hv.
  - wps. wp_use wp_credit; [done..| |done]. intros _ c2 [Hi2 Hk2].
    eapply wp_push_event; [exact Hi2|]. intros c3 [Hi3 Hk3]. split; [done|].
    unfold kept in *. intuition congruence.
Qed.

Lemma wp_recv_continuation_frame T c flags sid payload_len :
  inv T None c → 0 ≤ payload_len → 9 + payload_len ≤ recv_count c →
  arm (recv_continuation_frame grant HDRBUF flags sid payload_len) T c.
Proof.
  intros Hi Hp Hl. unfold recv_continuation_frame. destruct (sid =? 0); [wps; by apply good_refl|].
  wps. eapply (wp_mono X _ (λ _, good T None c) _ (λ _ _, False)); [|intros _ c1 Hg1|done].
  { destruct (has flags FLAG_END_HEADERS); wps; [|by apply good_refl].
    split; [|done]. destruct Hi; by constructor. }
  wps. unfold get_stream. destruct (find_stream sid (streams c1)) as [s|] eqn:Hf; [|by wps].
  pose proof (inv_found _ _ _ _ _ (proj1 Hg1) Hf) as Hs. destruct (st_headers _ _ Hs) as [Hh Hhb].
  wps. eapply (wp_recv_slice T None); [apply Hg1|lia|by rewrite (proj1 (proj2 Hg1))|].
  intros frag Hfb Hfl. wps.
  wp_use (wp_append_headers T); [apply Hg1|done| |done|done| |].
  { pose proof (inv_total _ _ _ Hi). lia. }
  2: { intros _ c2 Hg2. by eapply good_trans. }
  intros _ c2 Hg2. apply (good_trans _ _ _ _ _ _ Hg1) in Hg2.
  destruct (has flags FLAG_END_HEADERS); wps; [|done].
  eapply wp_with_stream; [apply Hg2| |].
  { intros k s' Hs'. split_and!; [|done..]. destruct Hs'; by constructor. }
  intros c3 Hg3. apply (good_trans _ _ _ _ _ _ Hg2) in Hg3.
  eapply wp_push_event; [apply Hg3|]. intros. by eapply good_trans.
Qed.

(** ** The whole loop *)

Lemma wp_recv_frame T c frame_type flags sid payload_len :
  inv T None c → partial_data c = None → uint 31 sid → 0 ≤ payload_len →
  9 + payload_len ≤ recv_count c →
  wp X (recv_frame grant MAX_STREAMS HDRBUF BUF frame_type flags sid payload_len)
    (λ consumed c', if (consumed : bool)
       then inv T None c' ∧ partial_data c' = None ∧ recv_count c' < recv_count c
       else good T None c c') (λ _ c', good T None c c') c.
Proof.
  intros Hi Hpd Hsid Hp Hl. unfold recv_frame.
  assert (∀ m : M Error t unit, arm m T c →
    wp X (_ ← m; mret false) (λ consumed c', if (consumed : bool)
       then inv T None c' ∧ partial_data c' = None ∧ recv_count c' < recv_count c
       else good T None c c') (λ _ c', good T None c c') c) as Harm.
  { intros m Hm. wps. wp_use Hm; [|done]. intros. by wps. }
  repeat case_match; try (wps; by apply good_refl).
  all: try (apply Harm; first [by apply wp_recv_settings_frame | by apply wp_recv_ping_frame
    | by apply wp_recv_goaway_frame | by apply wp_recv_window_update_frame
    | by apply wp_recv_rst_frame | by apply wp_recv_continuation_frame]).
  wps. wp_use wp_recv_headers_frame; [done..| |done]. intros [] c' Hc'; by wps.
Qed.

Lemma good_conn_ok T c c' : good T None c c' → partial_data c = None → conn_ok T c'.
Proof. intros (Hi & _ & Hp) Hn. unfold conn_ok. by rewrite Hp, Hn. Qed.

Lemma wp_recv_one T c :
  conn_ok T c → partial_data c = None → 9 ≤ recv_count c →
  wp X (recv_one grant MAX_STREAMS HDRBUF BUF) (step_post T c) (λ _, conn_ok T) c.
Proof.
  intros Hc Hpd Hl. pose proof Hc as Hi. unfold conn_ok in Hi. rewrite Hpd in Hi.
  unfold recv_one. wps. eapply (wp_recv_at T None); [done|lia|]. intros b0 Hb0 _. wps.
  eapply (wp_recv_at T None); [done|lia|]. intros b1 Hb1 _. wps.
  eapply (wp_recv_at T None); [done|lia|]. intros b2 Hb2 _. wps.
  rewrite header_length_bits by done. set (payload_len := be_val [b0; b1; b2]).
  assert (0 ≤ payload_len < 2 ^ 24) as Hpl.
  { apply (be_val_bound [b0; b1; b2]). rewrite !Forall_cons. auto using Forall_nil_2. }
  clearbody payload_len. case_match; [by wps|]. wps.
  eapply (wp_recv_at T None); [done|lia|]. intros frame_type _ _. wps.
  eapply (wp_recv_at T None); [done|lia|]. intros flags _ _. wps.
  eapply (wp_recv_u31 T None); [done|lia|lia|]. intros sid Hsid.
  destruct (match continuation_stream_id c with Some _ => _ | None => _ end); [by wps|].
  destruct (frame_type =? FRAME_DATA); [by apply wp_recv_data_frame|].
  destruct (BUF <? 9 + payload_len); [by wps|].
  wps. eapply (wp_recv_len T None); [done|].
  destruct (Z.ltb_spec (recv_count c) (9 + payload_len)); [by wps|]. wps.
  wp_use wp_recv_frame; [done|done|done|lia|lia| |].
  2: { intros _ c' Hg. by eapply good_conn_ok. }
  intros [] c1 Hc1; wps.
  - destruct Hc1 as (Hi1 & Hp1 & Hlt). unfold step_post, measure, conn_ok. rewrite Hp1, Hpd.
    split; [done|lia].
  - destruct Hc1 as (Hi1 & Hr1 & Hp1). eapply (wp_drain T None); [done|rewrite Hr1; lia|].
    intros b Hib Hlb. wps. unfold step_post, measure, conn_ok. simpl. rewrite Hp1, Hpd, Hlb, Hr1.
    split; [done|lia].
Qed.

Lemma wp_recv_step T c :
  conn_ok T c →
  wp X (recv_step grant MAX_STREAMS HDRBUF DATABUF BUF) (step_post T c) (λ _, conn_ok T) c.
Proof.
  intros Hc. unfold recv_step. wps. destruct (partial_data c) as [pd|] eqn:Hpd.
  - wps. wp_use wp_pump; [done| |done]. intros _ c1 [Hc1 Hl1]. wps.
    split; [done|]. unfold measure. rewrite Hpd. destruct (partial_data c1); [done|lia].
  - wps. eapply wp_recv_len; [done|]. destruct (Z.ltb_spec (recv_count c) 9); [by wps|].
    by apply wp_recv_one.
Qed.

Lemma wp_recv_loop fuel T c :
  conn_ok T c → measure c ≤ Z.of_nat fuel →
  wp X (recv_loop grant MAX_STREAMS HDRBUF DATABUF BUF fuel) (λ _, conn_ok T) (λ _, conn_ok T) c.
Proof.
  revert c. induction fuel as [|fuel IH]; intros c Hc Hm; cbn [recv_loop]; wps.
  all: wp_use wp_recv_step; [done| |done]; intros [] c1 [Hc1 Hlt]; wps; try done.
  - specialize (Hlt eq_refl). assert (0 ≤ measure c1) by (unfold measure; case_match; lia). lia.
  - specialize (Hlt eq_refl). apply IH; [done|lia].
Qed.

Lemma wp_recv_frames T c :
  conn_ok T c →
  wp X (recv_frames grant MAX_STREAMS HDRBUF DATABUF BUF) (λ _, conn_ok T) (λ _, conn_ok T) c.
Proof.
  intros Hc. unfold recv_frames. wps. eapply wp_recv_len; [done|]. wps.
  wp_use wp_recv_loop; [done| | |done].
  { unfold measure. case_match; lia. }
  intros _ c1 Hc1. unfold sweep. wps. by apply inv_sweep.
Qed.

(** ** The preface *)

Lemma wp_compare_preface n i T c remaining :
  conn_ok T c → 0 ≤ i → i + Z.of_nat n ≤ recv_count c → i + Z.of_nat n ≤ len remaining →
  wp X (compare_preface n i remaining) (λ _ c', c' = c) (λ _ c', c' = c) c.
Proof.
  intros Hc. revert i. induction n as [|n IH]; intros i Hi Hr Hl; cbn [compare_preface]; [by wps|].
  wps. eapply wp_recv_at; [done|lia|]. intros a _ _.
  destruct (idx_no_panic (E:=Error) remaining i) as [b Hb]; [lia|].
  wps. eapply wp_lift_ok; [exact Hb|]. destruct (negb _); wps; [done|]. apply IH; lia.
Qed.

Lemma wp_validate_client_preface T c :
  conn_ok T c →
  wp X validate_client_preface (λ _, conn_ok T) (λ _, conn_ok T) c.
Proof.
  intros Hc. pose proof (inv_preface _ _ _ Hc) as Hp. unfold validate_client_preface. wps.
  eapply wp_lift_ok; [by apply slice_from_eq|].
  set (remaining := drop _ CONNECTION_PREFACE).
  assert (len remaining = len CONNECTION_PREFACE - preface_bytes_seen c) as Hrl by (subst remaining; rewrite length_drop; lia).
  clearbody remaining. wps. eapply wp_recv_len; [done|]. wps.
  wp_use wp_compare_preface; [done|lia|lia|lia| |by intros _ c' ->]. intros _ c' ->. wps.
  set (n := Z.min _ _). assert (0 ≤ n ≤ len remaining ∧ n ≤ recv_count c) as [Hn Hnr] by (subst n; lia).
  clearbody n. set (c0 := c <| preface_bytes_seen := _ |>).
  assert (conn_ok T c0) as Hc0.
  { destruct Hc; constructor; simpl in *; try done. lia. }
  eapply (wp_mono X _ (λ _, conn_ok T) _ (λ _ _, False)); [|intros _ c1 Hc1|done].
  { case_match; wps; [|done]. eapply wp_drain; [done|simpl; lia|]. by intros. }
  wps. case_match; wps; [|done]. destruct Hc1; by constructor.
Qed.

Lemma wp_process_recv T c :
  conn_ok T c →
  wp X (process_recv grant MAX_STREAMS HDRBUF DATABUF BUF) (λ _, conn_ok T) (λ _, conn_ok T) c.
Proof.
  intros Hc. unfold process_recv. wps. destruct (_ && _); [|by apply wp_recv_frames].
  wps. wp_use wp_validate_client_preface; [done| |done]. intros _ c1 Hc1. wps.
  destruct (negb _); [by wps|by apply wp_recv_frames].
Qed.

End receive.
