(* ===== verification/H2Send.v ===== *)
(** * Sending and reading on an HTTP/2 connection

    The rest of the connection's interface keeps the invariant: generating
    output, opening streams, sending headers and data, reading headers and
    bodies, discarding a body, closing and timing out. *)
From stdpp Require Import sets.
From S2P Require Import Prelude Errors Hoare Varint Cursor Buf Http HpackInteger Huffman Hpack H2Frame H2Stream H2Connection H2Inv H2Receive.
Import H2Frame H2.
#[local] Existing Instance no_debt.

(** ** Encoders write within their buffer *)

(** A writer never changes the length of the buffer, whatever its outcome. *)
Definition Sized {A} (w : writer A) : Prop := ∀ s, length (w s).2.1 = length s.1.
Definition SizedM {A} (m : M Error (list Z) A) : Prop := ∀ buf, length (m buf).2 = length buf.

Lemma Sized_ret {A} (a : A) : Sized (mret a).
Proof. done. Qed.
Lemma Sized_bind {A B} (w : writer A) (k : A → writer B) :
  Sized w → (∀ a, Sized (k a)) → Sized (w ≫= k).
Proof.
  intros Hw Hk s. specialize (Hw s). unfold mbind, M_bind.
  destruct (w s) as [[a|e|] s']; simpl in *; [by rewrite Hk|done..].
Qed.
Lemma Sized_put_u8 b : Sized (put_u8 b).
Proof. intros s. unfold put_u8, set_idx. case_decide; simpl; len_lia. Qed.
Lemma Sized_put_slice src : Sized (put_slice src).
Proof. intros s. unfold put_slice, copy_at. case_decide; simpl; len_lia. Qed.
Lemma SizedM_from_start w : Sized w → SizedM (from_start w).
Proof.
  intros Hw buf. specialize (Hw (buf, 0)). unfold from_start.
  destruct (w (buf, 0)) as [[] []]; done.
Qed.
Lemma Sized_put_with f : SizedM f → Sized (Hpack.put_with f).
Proof.
  intros Hf s. unfold Hpack.put_with, with_from. case_decide; [|done].
  specialize (Hf (drop (Z.to_nat s.2) s.1)). destruct (f _) as [[] suffix]; simpl in *.
  all: rewrite length_app, Hf, length_take, length_drop; lia.
Qed.
#[local] Hint Resolve Sized_ret Sized_put_u8 Sized_put_slice SizedM_from_start Sized_put_with : rust.

Lemma Sized_check_room : Sized Integer.check_room.
Proof. intros s. unfold Integer.check_room. by case_match. Qed.
#[local] Hint Resolve Sized_check_room : rust.

Lemma Sized_encode_cont fuel v : Sized (Integer.encode_cont fuel v).
Proof.
  revert v. induction fuel as [|fuel IH]; intros v; simpl; [done|].
  repeat first [apply Sized_bind; [|intros]|case_match]; auto with rust.
Qed.
#[local] Hint Resolve Sized_encode_cont : rust.

Lemma SizedM_encode_integer v p m : SizedM (Integer.encode_integer v p m).
Proof.
  apply SizedM_from_start. unfold Integer.encode_integer.
  repeat first [apply Sized_bind; [|intros]|case_match]; auto with rust; done.
Qed.
#[local] Hint Resolve SizedM_encode_integer : rust.

Lemma SizedM_string_literal s : SizedM (Hpack.encode_string_literal s).
Proof.
  apply SizedM_from_start, Sized_bind; [auto with rust|intros _].
  intros st. unfold Hpack.put_checked_slice. case_match; [done|apply Sized_put_slice].
Qed.
#[local] Hint Resolve SizedM_string_literal : rust.

Lemma SizedM_encode hs : SizedM (Hpack.encode hs).
Proof.
  apply SizedM_from_start. induction hs as [|[n v] hs IH]; [done|].
  cbn [Hpack.encode_headers]. apply Sized_bind; [|by intros _].
  unfold Hpack.encode_header. destruct (Hpack.lookup n v).
  all: repeat (apply Sized_bind; [|intros]); auto with rust.
Qed.

(** A header list, encoded or too long. *)
Lemma encode_cases hs buf :
  Forall Hpack.header_ok hs →
  (len (Hpack.block_wire hs) ≤ len buf ∧
   Hpack.encode hs buf = (Ok (len (Hpack.block_wire hs)),
     Hpack.block_wire hs ++ drop (length (Hpack.block_wire hs)) buf)) ∨
  (len buf < len (Hpack.block_wire hs) ∧
   ∃ n buf', Hpack.encode hs buf = (Err (BufferTooSmall n), buf') ∧ length buf' = length buf).
Proof.
  intros Hh. pose proof (Hpack.Writes_headers hs Hh) as Hw.
  destruct (decide (len (Hpack.block_wire hs) ≤ len buf)) as [Hl|Hl]; [left|right]; (split; [lia|]).
  - by apply Puts_start, Hl; apply Writes_Puts.
  - destruct (Writes_start _ _ buf Hw) as [_ Herr]. destruct Herr as (e & s' & Hr & [n ->]); [lia|].
    pose proof (SizedM_encode hs buf) as Hs. unfold Hpack.encode, from_start in *.
    rewrite Hr in *. simpl in Hs. eauto.
Qed.

Section send.
Context `{Platform} `{Params} {X : Prop}.

(** ** The send buffer *)

Lemma extend_send_eq c data :
  Buf.ok BUF (send_buf c) → Buf.spare (send_buf c) (len data) →
  len (Buf.vis (send_buf c)) + len data ≤ BUF →
  ∃ b, extend_send grant BUF data c = (Ok tt, with_send c b) ∧ Buf.ok BUF b ∧
    Buf.vis b = Buf.vis (send_buf c) ++ data ∧
    ∀ n, Buf.spare (send_buf c) n → Buf.spare b (n - len data).
Proof.
  intros Hb Hs Hl. destruct (Buf.ok_extend BUF grant data (send_buf c) Hb Hs Hl) as (b & He & ? & ? & ?).
  exists b. unfold extend_send. by rewrite He.
Qed.

Lemma push_zeros_eq n c :
  Buf.ok BUF (send_buf c) → Buf.spare (send_buf c) (Z.of_nat n) →
  len (Buf.vis (send_buf c)) + Z.of_nat n ≤ BUF →
  ∃ b, push_zeros grant BUF n c = (Ok tt, with_send c b) ∧ Buf.ok BUF b ∧
    Buf.vis b = Buf.vis (send_buf c) ++ replicate n 0 ∧
    ∀ m, Buf.spare (send_buf c) m → Buf.spare b (m - Z.of_nat n).
Proof.
  revert c. induction n as [|n IH]; intros c Hb Hs Hl; cbn [push_zeros].
  { exists (send_buf c). rewrite with_send_id, app_nil_r. split_and!; try done.
    intros m Hm. eapply Buf.spare_le; [done|lia]. }
  destruct (extend_send_eq c [0]) as (b1 & He & Hb1 & Hv1 & Hs1);
    [done|eapply Buf.spare_le; [done|simpl; lia]|simpl; lia|].
  rewrite (M_step_ok _ _ _ _ _ He).
  destruct (IH (with_send c b1)) as (b2 & Hp & Hb2 & Hv2 & Hs2);
    [done|eapply Buf.spare_le; [by apply Hs1|simpl; lia]|simpl; rewrite Hv1; len_lia|].
  exists b2. split; [done|]. split; [done|]. split.
  - rewrite Hv2. simpl. rewrite Hv1, <- app_assoc. done.
  - intros m Hm. eapply Buf.spare_le; [apply Hs2, (Hs1 m Hm)|simpl; lia].
Qed.

Lemma fill_zeros_eq fuel c :
  Buf.ok BUF (send_buf c) → BUF - len (Buf.vis (send_buf c)) ≤ Z.of_nat fuel →
  Buf.spare (send_buf c) (BUF - len (Buf.vis (send_buf c))) →
  ∃ b, fill_zeros grant BUF fuel c = (Ok tt, with_send c b) ∧ Buf.ok BUF b ∧
    Buf.vis b = Buf.vis (send_buf c) ++ replicate (Z.to_nat (BUF - len (Buf.vis (send_buf c)))) 0.
Proof.
  revert c. induction fuel as [|fuel IH]; intros c Hb Hf Hs; cbn [fill_zeros]; unfold send_len;
    rewrite M_bind_assoc; erewrite M_step_ok by reflexivity;
    rewrite (M_step_lift _ _ _ _ (Buf.ok_blen BUF _ Hb));
    pose proof (Buf.ok_bound _ _ Hb);
    (destruct (Z.ltb_spec (len (Buf.vis (send_buf c))) BUF);
      [|exists (send_buf c); rewrite with_send_id; split; [done|]; split; [done|];
        replace (Z.to_nat _) with 0%nat by lia; by rewrite app_nil_r]); [lia|].
  destruct (extend_send_eq c [0]) as (b1 & He & Hb1 & Hv1 & Hs1);
    [done|eapply Buf.spare_le; [done|simpl; lia]|simpl; lia|].
  assert (len (Buf.vis b1) = len (Buf.vis (send_buf c)) + 1) as Hl1 by (rewrite Hv1; len_lia).
  rewrite (M_step_ok _ _ _ _ _ He).
  destruct (IH (with_send c b1)) as (b2 & Hp & Hb2 & Hv2); [done|simpl; lia| |].
  { simpl. eapply Buf.spare_le; [by apply (Hs1 _ Hs)|simpl; lia]. }
  exists b2. split; [done|]. split; [done|]. rewrite Hv2. simpl. rewrite Hl1, Hv1, <- app_assoc.
  replace (Z.to_nat (BUF - len (Buf.vis (send_buf c))))
    with (S (Z.to_nat (BUF - (len (Buf.vis (send_buf c)) + 1)))) by lia. done.
Qed.

(** Writing into a part of the buffer that is already there. *)
Lemma with_send_slice_eq {A} (f : M Error (list Z) A) c pre mid post :
  Buf.ok BUF (send_buf c) → Buf.vis (send_buf c) = pre ++ mid ++ post →
  length (f mid).2 = length mid →
  ∃ b, with_send_slice (len pre) (len pre + len mid) f c = ((f mid).1, with_send c b) ∧
    Buf.ok BUF b ∧ Buf.vis b = pre ++ (f mid).2 ++ post ∧
    ∀ n, Buf.spare (send_buf c) n → Buf.spare b n.
Proof.
  intros Hb Hv Hf. unfold with_send_slice. rewrite (Buf.ok_as_slice BUF _ Hb), Hv.
  rewrite slice_middle by done. destruct (f mid) as [r sub]. simpl in *.
  destruct (Buf.ok_write (E:=Error) BUF (λ v, copy_at v (len pre) (len pre + len mid) sub) (send_buf c)
    (pre ++ sub ++ post) Hb) as (b & Hw & ? & ? & ?).
  - rewrite Hv. rewrite copy_at_app by len_lia. f_equal. rewrite <- app_assoc.
    by rewrite drop_app_length'.
  - rewrite Hv. len_lia.
  - rewrite Hw. eauto.
Qed.

Lemma reserve_send_cases n c :
  Buf.ok BUF (send_buf c) → 0 ≤ n ≤ LIMIT →
  ∃ r b, reserve_send grant BUF n c = (r, with_send c b) ∧ Buf.ok BUF b ∧
    Buf.vis b = Buf.vis (send_buf c) ∧
    ((r = Ok tt ∧ (len (Buf.vis (send_buf c)) + n ≤ BUF → Buf.spare b n)) ∨ r = Err OutOfMemory).
Proof.
  intros Hb Hn. pose proof size_buf. unfold reserve_send.
  destruct (Buf.ok_try_reserve BUF grant n (send_buf c) Hb) as (r & b & -> & ? & ? & ?);
    [lia|apply size_usize; lia|]. eauto 10.
Qed.

Lemma with_send_twice c b b' : with_send (with_send c b) b' = with_send c b'.
Proof. done. Qed.

(** ** The header block *)

(** In place: nine bytes and everything behind them are zeroed first. *)
Lemma encode_in_place c hs :
  Buf.ok BUF (send_buf c) → Forall Hpack.header_ok hs →
  let start := len (Buf.vis (send_buf c)) in
  Buf.spare (send_buf c) (BUF - start) → start + 9 ≤ BUF →
  ∃ r b, (_ ← push_zeros grant BUF 9;
          encode_start ← send_len;
          max_hpack ← lift (usub BUF encode_start);
          _ ← fill_zeros grant BUF (Z.to_nat BUF);
          n ← with_send_slice encode_start (encode_start + max_hpack) (Hpack.encode hs);
          _ ← truncate_send (encode_start + n);
          mret n) c = (r, with_send c b) ∧ Buf.ok BUF b ∧
    if decide (start + 9 + len (Hpack.block_wire hs) ≤ BUF) then
      r = Ok (len (Hpack.block_wire hs)) ∧
      Buf.vis b = Buf.vis (send_buf c) ++ replicate 9 0 ++ Hpack.block_wire hs
    else
      (∃ n, r = Err (BufferTooSmall n)) ∧
      ∃ junk, Buf.vis b = Buf.vis (send_buf c) ++ replicate 9 0 ++ junk ∧ len (Buf.vis b) = BUF.
Proof.
  intros Hb Hh start Hsp Hl. subst start.
  destruct (push_zeros_eq 9 c Hb) as (b1 & Hp & Hb1 & Hv1 & Hs1);
    [eapply Buf.spare_le; [done|lia]|lia|].
  rewrite (M_step_ok _ _ _ _ _ Hp).
  assert (len (Buf.vis b1) = len (Buf.vis (send_buf c)) + 9) as Hl1 by (rewrite Hv1; len_lia).
  unfold send_len. rewrite M_bind_assoc. erewrite M_step_ok by reflexivity.
  rewrite (M_step_lift _ _ _ _ (Buf.ok_blen BUF b1 Hb1)), Hl1.
  erewrite M_step_lift by (apply usub_ok; lia).
  set (a := len (Buf.vis (send_buf c)) + 9) in *.
  destruct (fill_zeros_eq (Z.to_nat BUF) (with_send c b1) Hb1) as (b2 & Hf & Hb2 & Hv2);
    [simpl; lia|simpl; rewrite Hl1; eapply Buf.spare_le; [apply (Hs1 _ Hsp)|simpl; lia]|].
  rewrite (M_step_ok _ _ _ _ _ Hf), with_send_twice. simpl in Hv2. rewrite Hl1 in Hv2.
  set (zeros := replicate (Z.to_nat (BUF - a)) 0) in *.
  assert (len zeros = BUF - a) as Hz by (subst zeros; len_lia).
  destruct (with_send_slice_eq (Hpack.encode hs) (with_send c b2) (Buf.vis b1) zeros [])
    as (b3 & Hw & Hb3 & Hv3 & _); [done|by rewrite app_nil_r|apply SizedM_encode|].
  rewrite Hl1, Hz, with_send_twice in Hw. rewrite app_nil_r in Hv3.
  unfold mbind at 1, M_bind at 1. rewrite Hw.
  destruct (encode_cases hs zeros Hh) as [[Hfit He]|(Hbig & n & buf' & He & Hlen)]; rewrite He in *; simpl in *.
  - unfold truncate_send. rewrite M_bind_assoc.
    erewrite M_step_ok by reflexivity. rewrite M_bind_assoc.
    destruct (Buf.ok_truncate (E:=Error) BUF (a + len (Hpack.block_wire hs)) b3 Hb3)
      as (b4 & Ht & Hb4 & Hv4); [lia|].
    rewrite (M_step_lift _ _ _ _ Ht). exists (Ok (len (Hpack.block_wire hs))), b4.
    split; [done|]. split; [done|]. rewrite decide_True by lia. split; [done|].
    rewrite Hv4, Hv3, app_assoc, take_app_length' by len_lia. by rewrite Hv1, <- app_assoc.
  - exists (Err (BufferTooSmall n)), b3.
    split; [done|]. split; [done|]. rewrite decide_False by lia. split; [eauto|]. exists buf'.
    assert (len (Buf.vis b3) = BUF) as Hl3 by (rewrite Hv3, length_app; lia).
    split; [|done]. by rewrite Hv3, Hv1, <- app_assoc.
Qed.

(** The outcomes of [encode_block]: the block behind nine zeros; nothing
    written; or, when a block too long for the scratch is too long for the
    buffer as well, a send buffer filled to its end. *)
Definition block_outcome (hs : list (list Z * list Z)) (c : t) (r : result Z) (b : Buf.t) : Prop :=
  (r = Ok (len (Hpack.block_wire hs)) ∧
   Buf.vis b = Buf.vis (send_buf c) ++ replicate 9 0 ++ Hpack.block_wire hs) ∨
  ((∃ e, r = Err e) ∧ Buf.vis b = Buf.vis (send_buf c)) ∨
  ((∃ n, r = Err (BufferTooSmall n)) ∧
   HEADERS_SCRATCH < len (Hpack.block_wire hs) ∧
   BUF < len (Buf.vis (send_buf c)) + 9 + len (Hpack.block_wire hs) ∧
   len (Buf.vis b) = BUF ∧
   ∃ junk, Buf.vis b = Buf.vis (send_buf c) ++ replicate 9 0 ++ junk).

Lemma encode_block_cases c hs :
  Buf.ok BUF (send_buf c) → Forall Hpack.header_ok hs → len (Buf.vis (send_buf c)) + 9 ≤ BUF →
  ∃ r b, encode_block grant BUF hs (len (Buf.vis (send_buf c))) c = (r, with_send c b) ∧
    Buf.ok BUF b ∧ block_outcome hs c r b.
Proof.
  intros Hb Hh Hl. pose proof size_buf. unfold encode_block.
  set (scratch := replicate _ 0).
  assert (len scratch = HEADERS_SCRATCH) as Hsc by (subst scratch; unfold HEADERS_SCRATCH; len_lia).
  destruct (encode_cases hs scratch Hh) as [[Hfit ->]|(Hbig & n & buf' & -> & _)].
  - destruct (Z.ltb_spec BUF (len (Buf.vis (send_buf c)) + 9 + len (Hpack.block_wire hs))).
    { exists (Err (BufferTooSmall (len (Buf.vis (send_buf c)) + 9 + len (Hpack.block_wire hs)))), (send_buf c).
      rewrite with_send_id. split; [done|]. split; [done|]. right. left.
      split; [by eexists|done]. }
    destruct (reserve_send_cases (9 + len (Hpack.block_wire hs)) c Hb) as (r & b1 & Hr & Hb1 & Hv1 & Hc1); [lia|].
    unfold mbind at 1, M_bind at 1. rewrite Hr.
    destruct Hc1 as [[-> Hsp]| ->]; [|exists (Err OutOfMemory), b1;
      split; [done|]; split; [done|]; right; left; split; [by eexists|done]].
    specialize (Hsp ltac:(lia)).
    destruct (push_zeros_eq 9 (with_send c b1) Hb1) as (b2 & Hp & Hb2 & Hv2 & Hs2);
      [eapply Buf.spare_le; [done|lia]|simpl; rewrite Hv1; lia|]. simpl in Hv2, Hs2.
    rewrite (M_step_ok _ _ _ _ _ Hp), with_send_twice.
    erewrite M_step_lift by (by apply Buf.slice_prefix).
    destruct (extend_send_eq (with_send c b2) (Hpack.block_wire hs)) as (b3 & He & Hb3 & Hv3 & _);
      [done|simpl; eapply Buf.spare_le; [apply (Hs2 _ Hsp)|lia]|simpl; rewrite Hv2, Hv1; len_lia|].
    rewrite (M_step_ok _ _ _ _ _ He), with_send_twice.
    exists (Ok (len (Hpack.block_wire hs))), b3. split; [done|]. split; [done|]. left. split; [done|].
    rewrite Hv3. simpl. by rewrite Hv2, Hv1, <- app_assoc.
  - erewrite M_step_lift by (apply usub_ok; lia).
    destruct (reserve_send_cases (BUF - len (Buf.vis (send_buf c))) c Hb) as (r & b1 & Hr & Hb1 & Hv1 & Hc1); [lia|].
    unfold mbind at 1, M_bind at 1. rewrite Hr.
    destruct Hc1 as [[-> Hsp]| ->]; [|exists (Err OutOfMemory), b1;
      split; [done|]; split; [done|]; right; left; split; [by eexists|done]].
    destruct (encode_in_place (with_send c b1) hs Hb1 Hh) as (r & b & He & Hb' & Ho);
      [simpl; rewrite Hv1; apply Hsp; lia|simpl; rewrite Hv1; lia|].
    exists r, b. split; [exact He|]. split; [done|]. simpl in Ho. rewrite Hv1 in Ho. case_decide.
    + by left.
    + right. right. destruct Ho as (? & junk & ? & ?). split_and!; [done|lia|lia|done|by exists junk].
Qed.

(** ** The API keeps the invariant *)

Lemma good_partial T c c' : good T (partial_data c) c c' → conn_ok T c'.
Proof. intros (Hi & _ & Hp). unfold conn_ok. by rewrite Hp. Qed.

(** A call that leaves the received bytes alone. *)
Abbreviation quiet m T c :=
  (wp X m (λ _ c', good T (partial_data c) c c') (λ _ c', good T (partial_data c) c c') c).

Lemma send_end_stream_ok k s :
  stream_ok k s →
  stream_ok k (H2Stream.send_end_stream s) ∧
  H2Stream.id (H2Stream.send_end_stream s) = H2Stream.id s ∧
  body_len (H2Stream.send_end_stream s) = body_len s.
Proof.
  intros []. split; [|by unfold H2Stream.send_end_stream; simpl; destruct (H2Stream.state s)].
  constructor; unfold H2Stream.send_end_stream, body_len in *; simpl;
    destruct (H2Stream.state s) eqn:?; simpl; try done; intros; by apply st_conserved.
Qed.

(** The frame [send_headers] queues. *)
Definition headers_frame (sid : Z) (hs : list (list Z * list Z)) (end_stream : bool) : H2Frame.t :=
  Headers sid (Hpack.block_wire hs) end_stream true None.

(** On success exactly the HEADERS frame is appended; on failure nothing is,
    except that a block too long for scratch and buffer leaves the send buffer
    filled with zeros and part of the block. *)
Definition headers_sent (T sid : Z) (hs : list (list Z * list Z)) (end_stream : bool) (c c' : t) : Prop :=
  good T (partial_data c) c c' ∧
  Buf.vis (send_buf c') = Buf.vis (send_buf c) ++ frame_wire (headers_frame sid hs end_stream).
Definition headers_not_sent (T : Z) (hs : list (list Z * list Z)) (c c' : t) : Prop :=
  good T (partial_data c) c c' ∧
  (Buf.vis (send_buf c') = Buf.vis (send_buf c) ∨
   (HEADERS_SCRATCH < len (Hpack.block_wire hs) ∧
    BUF < len (Buf.vis (send_buf c)) + 9 + len (Hpack.block_wire hs))).

Lemma headers_wire sid hs (end_stream : bool) :
  len (Hpack.block_wire hs) < 2 ^ 32 →
  header_wire {| h_length := trunc 32 (len (Hpack.block_wire hs)); h_frame_type := FRAME_HEADERS;
    h_flags := Z.lor (if end_stream then Z.lor 0 FLAG_END_STREAM else 0) FLAG_END_HEADERS;
    h_stream_id := sid |} ++ Hpack.block_wire hs = frame_wire (headers_frame sid hs end_stream).
Proof.
  intros Hl. rewrite trunc_small by (unfold uint; lia).
  unfold frame_wire, headers_frame, frame_header, header_wire. simpl. by destruct end_stream.
Qed.

Lemma wp_send_headers T c sid hs end_stream :
  conn_ok T c → 0 < sid < 2 ^ 31 → Forall Hpack.header_ok hs →
  wp X (send_headers grant MAX_STREAMS BUF sid hs end_stream)
    (λ _, headers_sent T sid hs end_stream c) (λ _, headers_not_sent T hs c) c.
Proof.
  intros Hc Hsid Hh. unfold send_headers. wps.
  wp_use wp_ensure_stream; [exact Hc|done| |done]. intros known c1 (Hg1 & Hsb & _).
  unfold headers_sent, headers_not_sent. rewrite <- Hsb.
  destruct known; simpl; [|wps; by auto]. pose proof (inv_send _ _ _ (proj1 Hg1)) as [Hb Ho].
  unfold send_len. wps. eapply wp_lift_ok; [by apply (Buf.ok_blen BUF)|].
  destruct (Z.ltb_spec BUF (len (Buf.vis (send_buf c1)) + 9)); [wps; by auto|].
  destruct (encode_block_cases c1 hs Hb Hh) as (r & b & He & Hb' & Hout); [lia|].
  assert (∀ b', Buf.ok BUF b' → len (Buf.vis (send_buf c1)) ≤ len (Buf.vis b') →
    good T (partial_data c) c (with_send c1 b')) as Hg.
  { intros b' Hb2 Hl2. eapply good_trans; [exact Hg1|]. split; [|done].
    apply inv_with_send; [apply Hg1|done|lia]. }
  wps. unfold wp at 1. rewrite He.
  destruct Hout as [(-> & Hv)|[([e ->] & Hv)|([n ->] & Hs1 & Hs2 & Hl2 & _)]].
  2: { split; [apply Hg; [done|rewrite Hv; lia]|by left]. }
  2: { split; [apply Hg; [done|lia]|by right]. }
  wps. set (hdr := {| h_length := _ |}).
  assert (encode_frame_header hdr (replicate 9 0) = (Ok tt, header_wire hdr)) as Hhdr.
  { rewrite encode_header_ok by (simpl; unfold uint; lia). by rewrite app_nil_r. }
  destruct (with_send_slice_eq (encode_frame_header hdr) (with_send c1 b) (Buf.vis (send_buf c1))
    (replicate 9 0) (Hpack.block_wire hs)) as (b' & Hw & Hb2 & Hv2 & _); [done|done|by rewrite Hhdr|].
  rewrite Hhdr in Hw, Hv2. cbn [fst snd] in Hv2. eapply wp_eq; [exact Hw|].
  assert (len (Hpack.block_wire hs) < 2 ^ 32).
  { pose proof size_buf. pose proof (Buf.ok_bound _ _ Hb') as Hbd. rewrite Hv, !length_app in Hbd.
    unfold LIMIT in *. lia. }
  unfold hdr in Hv2. rewrite headers_wire in Hv2 by done.
  assert (good T (partial_data c) c (with_send c1 b')) as Hg'.
  { apply Hg; [done|]. rewrite Hv2. len_lia. }
  unfold with_stream. wps. split; [|done].
  set (f := λ s : H2Stream.t, _ : H2Stream.t).
  pose proof (with_stream_good T (partial_data c) (with_send c1 b') sid f (proj1 Hg')) as Hgs.
  assert (good T (partial_data c) c ((with_send c1 b') <| streams := update_stream sid f (streams c1) |>)) as Hgf.
  { eapply good_trans; [exact Hg'|]. apply Hgs. intros k s Hs. unfold f.
    apply open_ok in Hs as (Hs & Hid & Hbl). destruct end_stream; [|done].
    apply send_end_stream_ok in Hs as (? & -> & ->). done. }
  split; [|apply Hgf]. destruct Hgf as [[] _]; by constructor.
Qed.

Lemma wp_open_stream T c hs end_stream :
  conn_ok T c → Forall Hpack.header_ok hs →
  quiet (open_stream grant MAX_STREAMS BUF hs end_stream) T c.
Proof.
  intros Hc Hh. unfold open_stream. wps. pose proof (inv_ids31 _ _ _ Hc) as [_ Hid].
  destruct (Z.ltb_spec 0x7fffffff (next_stream_id c)); [wps; by apply good_refl|].
  wps. eapply wp_lift_ok; [apply uadd_ok; lia|]. wps.
  set (c0 := c <| next_stream_id := _ |>).
  assert (conn_ok T c0) as Hc0.
  { destruct Hc; constructor; simpl; try done. split; [by apply inv_ids31|lia]. }
  wp_use (wp_send_headers T c0); [done|lia|done|..].
  all: intros _ c' [[? ?] _]; wps; by split.
Qed.

(** ** Data *)

Definition data_frame (sid : Z) (data : list Z) (end_stream : bool) (n : Z) : H2Frame.t :=
  Data sid (take (Z.to_nat n) data) (end_stream && (n =? len data)).

(** What flow control and the peer's frame size let [send_data] write. *)
Definition allowance (sid : Z) (c : t) : Z :=
  Z.min (Z.min (FlowController.window (conn_send_fc c))
    (match find_stream sid (streams c) with Some s => Z.max (H2Stream.send_window s) 0 | None => 0 end))
    (as_usize (H2Settings.max_frame_size (peer_settings c))).

(** A DATA frame queued: its bytes, and the windows it is charged to. *)
Definition data_sent (T sid : Z) (data : list Z) (end_stream : bool) (c : t) (n : Z) (c' : t) : Prop :=
  good T (partial_data c) c c' ∧ n = Z.min (len data) (allowance sid c) ∧
  Buf.vis (send_buf c') = Buf.vis (send_buf c) ++ frame_wire (data_frame sid data end_stream n) ∧
  FlowController.window (conn_send_fc c') = FlowController.window (conn_send_fc c) - n ∧
  ∀ s, find_stream sid (streams c) = Some s →
    ∃ s', find_stream sid (streams c') = Some s' ∧
          H2Stream.send_window s' = H2Stream.send_window s - n.

(** Why [send_data] refuses. *)
Definition data_refused (sid : Z) (data : list Z) (c : t) (e : Error) : Prop :=
  match e with
  | InvalidState => ∃ s, find_stream sid (streams c) = Some s ∧ H2Stream.can_send s = false
  | WouldBlock => data ≠ [] ∧ allowance sid c = 0
  | BufferTooSmall needed =>
      needed = len (Buf.vis (send_buf c)) + (9 + Z.min (len data) (allowance sid c)) ∧ BUF < needed
  | OutOfMemory => ∃ n, grant n = false
  | _ => False
  end.

(** Nothing queued, nothing charged. *)
Definition data_not_sent (T sid : Z) (data : list Z) (c : t) (e : Error) (c' : t) : Prop :=
  good T (partial_data c) c c' ∧ data_refused sid data c e ∧
  Buf.vis (send_buf c') = Buf.vis (send_buf c) ∧
  conn_send_fc c' = conn_send_fc c ∧ streams c' = streams c.

(** Room for the frame is reserved before anything is written. *)
Lemma reserve_frame c n :
  Buf.ok BUF (send_buf c) → 0 ≤ n → len (Buf.vis (send_buf c)) + (9 + n) ≤ BUF →
  ∃ r b, reserve_data grant BUF n c = (r, with_send c b) ∧ Buf.ok BUF b ∧
    Buf.vis b = Buf.vis (send_buf c) ∧ ((r = Ok tt ∧ Buf.spare b (9 + n)) ∨ r = Err OutOfMemory).
Proof.
  intros Hb Hn Hl. pose proof size_buf. unfold reserve_data, send_len. rewrite M_bind_assoc.
  erewrite M_step_ok by reflexivity. rewrite (M_step_lift _ _ _ _ (Buf.ok_blen BUF _ Hb)).
  erewrite M_step_ok by reflexivity.
  destruct (Z.ltb_spec (Buf.allocated_capacity (send_buf c)) (len (Buf.vis (send_buf c)) + (9 + n))) as [Hcap|Hcap].
  - set (grow := if LARGE_BODY_CHUNK <=? n then BUF - len (Buf.vis (send_buf c)) else 9 + n).
    assert (9 + n ≤ grow ≤ BUF - len (Buf.vis (send_buf c))) as Hg by (subst grow; case_match; lia).
    destruct (reserve_send_cases grow c Hb) as (r & b & Hr & Hb' & Hv & Hc); [lia|].
    exists r, b. split.
    + rewrite <- Hr. erewrite M_step_ok; [done|]. subst grow.
      case_match; [|done]. unfold lift. by rewrite usub_ok by lia.
    + split; [done|]. split; [done|]. destruct Hc as [[-> Hsp]| ->]; [left|by right].
      split; [done|]. eapply Buf.spare_le; [apply Hsp; lia|lia].
  - exists (Ok tt), (send_buf c). rewrite with_send_id. split; [done|]. split; [done|]. split; [done|].
    left. split; [done|]. unfold Buf.spare, Buf.allocated_capacity in *.
    destruct Hb as (_ & _ & Hs). destruct (Buf.storage (send_buf c)); [|done].
    destruct Hs as [-> _]. simpl. rewrite app_nil_r. lia.
Qed.

Lemma reserve_data_oom n c :
  Buf.ok BUF (send_buf c) →
  (reserve_data grant BUF n c).1 = Err OutOfMemory → ∃ k, grant k = false.
Proof.
  intros Hb. unfold reserve_data, send_len, mbind, M_bind, get, lift, mret, M_ret. simpl.
  rewrite (Buf.ok_blen BUF _ Hb). destruct (_ <? _); [|done].
  assert (∀ k, (reserve_send grant BUF k c).1 = Err OutOfMemory → ∃ k, grant k = false) as Hr.
  { intros k. unfold reserve_send. pose proof (Buf.oom_refused BUF grant k (send_buf c)) as Ho.
    by destruct (Buf.buf_try_reserve _ _ _ _). }
  destruct (LARGE_BODY_CHUNK <=? n); [|apply Hr]. unfold usub. case_decide; [apply Hr|done].
Qed.

(** Header and payload, behind what is there. *)
Lemma write_data_frame c sid payload fin :
  Buf.ok BUF (send_buf c) → uint 31 sid → Buf.spare (send_buf c) (9 + len payload) →
  len (Buf.vis (send_buf c)) + (9 + len payload) ≤ BUF →
  ∃ b, write_data grant BUF sid payload fin c = (Ok tt, with_send c b) ∧ Buf.ok BUF b ∧
    Buf.vis b = Buf.vis (send_buf c) ++ frame_wire (Data sid payload fin).
Proof.
  intros Hb Hsid Hsp Hl. pose proof size_buf. unfold write_data, send_len. rewrite M_bind_assoc.
  erewrite M_step_ok by reflexivity. rewrite (M_step_lift _ _ _ _ (Buf.ok_blen BUF _ Hb)).
  destruct (push_zeros_eq 9 c Hb) as (b1 & Hp & Hb1 & Hv1 & Hs1); [eapply Buf.spare_le; [done|lia]|lia|].
  rewrite (M_step_ok _ _ _ _ _ Hp).
  set (hdr := {| h_length := _ |}).
  assert (encode_frame_header hdr (replicate 9 0) = (Ok tt, header_wire hdr)) as Hhdr.
  { rewrite encode_header_ok by (simpl; (done || lia)). by rewrite app_nil_r. }
  destruct (with_send_slice_eq (encode_frame_header hdr) (with_send c b1) (Buf.vis (send_buf c))
    (replicate 9 0) []) as (b2 & Hw & Hb2 & Hv2 & Hs2); [done|by rewrite app_nil_r|by rewrite Hhdr|].
  rewrite Hhdr in Hw, Hv2. cbn [fst snd] in Hw, Hv2. rewrite app_nil_r in Hv2.
  rewrite (M_step_ok _ _ _ _ _ Hw), with_send_twice.
  destruct (extend_send_eq (with_send c b2) payload) as (b3 & He & Hb3 & Hv3 & _).
  - done.
  - simpl. apply Hs2. simpl. eapply Buf.spare_le; [apply (Hs1 _ Hsp)|simpl; lia].
  - simpl. rewrite Hv2, length_app. pose proof (len_header_wire hdr). lia.
  - exists b3. split; [done|]. split; [done|]. rewrite Hv3. simpl. rewrite Hv2, <- app_assoc. f_equal.
    unfold frame_wire, hdr. rewrite trunc_small by (unfold uint, LIMIT in *; lia). done.
Qed.

(** Charging bytes that both windows have. *)
Lemma charge_data_eq T c sid n :
  conn_ok T c → 0 ≤ n ≤ FlowController.window (conn_send_fc c) →
  (∀ s, find_stream sid (streams c) = Some s → n ≤ Z.max 0 (H2Stream.send_window s)) →
  ∃ f, charge_data sid n c = (Ok tt,
    c <| conn_send_fc := (conn_send_fc c) <| FlowController.window := FlowController.window (conn_send_fc c) - n |> |>
      <| streams := update_stream sid f (streams c) |>) ∧
    (∀ s, find_stream sid (streams c) = Some s →
       f s = s <| H2Stream.send_window := H2Stream.send_window s - n |> ∧
       i32 (H2Stream.send_window s - n)).
Proof.
  intros Hc Hn Hs. pose proof (inv_send_window _ _ _ Hc) as Hw. unfold charge_data.
  destruct (Z.eqb_spec n 0) as [->|Hnz]; cbn [negb].
  { exists (λ s, s <| H2Stream.send_window := H2Stream.send_window s - 0 |>). split.
    - unfold mret, M_ret. f_equal. rewrite Z.sub_0_r. rewrite update_stream_same.
      { by destruct c as [? ? ? ? ? ? ? []]. }
      intros s. rewrite Z.sub_0_r. by destruct s.
    - intros s Hf. split; [done|]. rewrite Z.sub_0_r. apply (st_send _ _ (inv_found _ _ _ _ _ Hc Hf)). }
  set (fc := (conn_send_fc c) <| FlowController.window := _ |>).
  assert (FlowController.consume (trunc 32 n) (conn_send_fc c) = (Ok tt, fc)) as Hcons.
  { rewrite trunc_small by (unfold uint, i32_max in *; lia).
    rewrite FlowController.consume_spec by (unfold FlowController.ok, i32, i32_min in *; lia).
    by rewrite !decide_True by (unfold i32_max in *; lia). }
  unfold get_stream. destruct (find_stream sid (streams c)) as [s|] eqn:Hf.
  - specialize (Hs s eq_refl). pose proof (st_send _ _ (inv_found _ _ _ _ _ Hc Hf)) as Hi.
    assert (i32 (H2Stream.send_window s - n)) by (unfold i32, i32_min, i32_max in *; lia).
    exists (λ s', s' <| H2Stream.send_window := H2Stream.send_window s - n |>).
    split; [|by intros s' [= <-]].
    erewrite M_step_ok by reflexivity. rewrite Hcons, Hf. erewrite M_step_ok by reflexivity.
    rewrite (M_step_lift _ _ _ _ eq_refl).
    rewrite as_i32_small by (unfold i32_max in *; lia). by erewrite M_step_lift by (by apply i32_sub_ok).
  - exists id. split; [|done]. erewrite M_step_ok by reflexivity. rewrite Hcons, Hf.
    erewrite M_step_ok by reflexivity. rewrite (M_step_lift _ _ _ _ eq_refl).
    rewrite update_stream_none by done. by destruct c.
Qed.

(** Charging keeps the invariant: it only lowers send windows. *)
Lemma charged_good T c sid n f :
  conn_ok T c → 0 ≤ n ≤ FlowController.window (conn_send_fc c) →
  (∀ s, find_stream sid (streams c) = Some s →
     f s = s <| H2Stream.send_window := H2Stream.send_window s - n |> ∧
     i32 (H2Stream.send_window s - n)) →
  good T (partial_data c) c
    (c <| conn_send_fc := (conn_send_fc c) <| FlowController.window := FlowController.window (conn_send_fc c) - n |> |>
       <| streams := update_stream sid f (streams c) |>).
Proof.
  intros Hc Hn Hf. split; [|done].
  set (c1 := c <| conn_send_fc := _ |>).
  assert (inv T (partial_data c) c1) as Hi1.
  { destruct Hc; constructor; simpl; try done. lia. }
  destruct (find_stream sid (streams c)) as [s|] eqn:Hs.
  - destruct (Hf s eq_refl) as [Hfs Hi]. pose proof (inv_found _ _ _ _ _ Hc Hs) as Hok.
    refine (inv_stream_change _ _ _ c1 _ f s (pending_conn_credit c) Hi1 Hs _ _ _ _ _); rewrite ?Hfs.
    + done.
    + destruct Hok; by constructor.
    + apply (inv_window _ _ _ Hc).
    + apply (inv_partial _ _ _ Hc).
    + done.
  - rewrite update_stream_none by done. destruct Hi1; by constructor.
Qed.

Lemma find_send_end sid l s :
  find_stream sid l = Some s →
  ∃ s', find_stream sid (update_stream sid H2Stream.send_end_stream l) = Some s' ∧
        H2Stream.send_window s' = H2Stream.send_window s.
Proof.
  intros Hf. assert (H2Stream.id (H2Stream.send_end_stream s) = H2Stream.id s ∧
    H2Stream.send_window (H2Stream.send_end_stream s) = H2Stream.send_window s) as [Hid Hw].
  { unfold H2Stream.send_end_stream; simpl. by destruct (H2Stream.state s). }
  eexists. split; [by apply find_stream_update|done].
Qed.

(** The state change of a frame that is accepted: header and payload written,
    both windows charged, and the stream half closed by its last frame. *)
Lemma wp_put_data T c b sid data end_stream n :
  conn_ok T c → uint 31 sid → n = Z.min (len data) (allowance sid c) → 0 ≤ n →
  Buf.ok BUF b → Buf.vis b = Buf.vis (send_buf c) → Buf.spare b (9 + n) →
  len (Buf.vis b) + (9 + n) ≤ BUF →
  let fin := end_stream && (n =? len data) in
  wp X (_ ← write_data grant BUF sid (take (Z.to_nat n) data) fin;
        _ ← charge_data sid n;
        _ ← (if fin then with_stream sid H2Stream.send_end_stream else mret tt);
        _ ← modify (λ c, c <| sent_since_tick := true |>);
        mret n)
    (data_sent T sid data end_stream c) (λ _ _, False) (with_send c b).
Proof.
  intros Hc Hsid Hn Hn0 Hb1 Hv1 Hsp Hl fin. set (d := take (Z.to_nat n) data).
  assert (len d = n) as Hd by (subst d; len_lia). rewrite <- Hd in Hsp.
  pose proof (inv_send _ _ _ Hc) as [_ Ho]. wps.
  destruct (write_data_frame (with_send c b) sid d fin Hb1 Hsid Hsp) as (b2 & Hw & Hb2 & Hv2);
    [simpl; lia|].
  eapply wp_eq; [exact Hw|]. rewrite with_send_twice. simpl in Hv2. rewrite Hv1 in Hv2.
  assert (conn_ok T (with_send c b2)) as Hc2.
  { apply inv_with_send; [done..|]. rewrite Hv2. len_lia. }
  assert (n ≤ FlowController.window (conn_send_fc c)) as Hnc by (subst n; unfold allowance; lia).
  wps. destruct (charge_data_eq T (with_send c b2) sid n Hc2) as (f & Hch & Hf); [simpl; lia| |].
  { intros s Hs. simpl in Hs. subst n. unfold allowance. rewrite Hs. lia. }
  eapply wp_eq; [exact Hch|].
  pose proof (charged_good T _ sid n f Hc2 (conj Hn0 Hnc) Hf) as Hg3. simpl in Hf.
  set (c3 := _ <| streams := _ |>) in *.
  assert (∀ s, find_stream sid (streams c) = Some s → find_stream sid (streams c3) = Some (f s)) as Hfind.
  { intros s Hs. apply find_stream_update; [done|]. by rewrite (proj1 (Hf s Hs)). }
  assert (good T (partial_data c) c c3) as Hgc3.
  { apply (good_trans T (partial_data c) (partial_data c) c (with_send c b2) c3); [|exact Hg3]. by split. }
  assert (∀ g : H2Stream.t → H2Stream.t,
    (∀ k s, stream_ok k s → stream_ok k (g s) ∧ H2Stream.id (g s) = H2Stream.id s ∧ body_len (g s) = body_len s) →
    (∀ s, find_stream sid (streams c3) = Some s → ∃ s', find_stream sid (update_stream sid g (streams c3)) = Some s' ∧
       H2Stream.send_window s' = H2Stream.send_window s) →
    data_sent T sid data end_stream c n
      (c3 <| streams := update_stream sid g (streams c3) |> <| sent_since_tick := true |>)) as Hend.
  { intros g Hg Hfs. split.
    - assert (good T (partial_data c) c (c3 <| streams := update_stream sid g (streams c3) |>)) as Hg4.
      { eapply good_trans; [exact Hgc3|]. apply with_stream_good; [apply Hgc3|done]. }
      split; [destruct Hg4 as [[] _]; by constructor|apply Hg4].
    - split; [done|]. split; [done|]. split; [done|]. intros s Hs.
      destruct (Hfs _ (Hfind s Hs)) as (s' & ? & Hw'). exists s'. split; [done|].
      by rewrite Hw', (proj1 (Hf s Hs)). }
  destruct fin; unfold with_stream; wps.
  - apply Hend; [intros k s Hs; by apply send_end_stream_ok in Hs|]. apply find_send_end.
  - pose proof (Hend id) as Hid. rewrite (update_stream_same sid id) in Hid by done. apply Hid; [done|].
    intros s Hs. by exists s.
Qed.

Lemma wp_send_data T c sid data end_stream :
  conn_ok T c → uint 31 sid →
  wp X (send_data grant BUF sid data end_stream) (data_sent T sid data end_stream c)
    (data_not_sent T sid data c) c.
Proof.
  intros Hc Hsid. unfold send_data, get_stream. wps.
  pose proof (inv_send_window _ _ _ Hc) as Hwin. pose proof (inv_send _ _ _ Hc) as [Hb Ho].
  assert (∀ e, data_refused sid data c e → data_not_sent T sid data c e c) as Hnone
    by (intros e ?; split; [by apply good_refl|done]).
  destruct (match find_stream sid (streams c) with Some _ => _ | None => _ end) eqn:Hcan.
  { wps. apply Hnone. simpl. destruct (find_stream sid (streams c)) as [s|]; [|done].
    exists s. by apply negb_true_iff in Hcan. }
  set (n := Z.min (Z.min (Z.min _ _) _) _).
  assert (0 ≤ allowance sid c) as Hal.
  { unfold allowance. pose proof (as_usize_range (H2Settings.max_frame_size (peer_settings c))).
    case_match; lia. }
  assert (n = Z.min (len data) (allowance sid c)) as Hn by (subst n; unfold allowance; case_match; lia).
  clearbody n.
  destruct ((n =? 0) && negb (len data =? 0)) eqn:Hblk.
  { wps. apply Hnone. simpl. split; [intros ->; simpl in Hblk; by rewrite andb_false_r in Hblk|]. lia. }
  clear Hblk. wps.
  eapply (wp_mono X _ (λ d c', c' = c ∧ d = take (Z.to_nat n) data) _ (λ _ _, False)); [|intros d c' [-> ->]|done].
  { destruct (Z.eqb_spec (len data) 0) as [Hz|Hz]; wps.
    - split; [done|]. destruct data; [by rewrite take_nil|simpl in Hz; lia].
    - eapply wp_lift_ok; [apply slice_eq; lia|]. split; [done|]. by rewrite Z.sub_0_r. }
  assert (len (take (Z.to_nat n) data) = n) as -> by len_lia.
  unfold send_len. wps. eapply wp_lift_ok; [by apply (Buf.ok_blen BUF)|].
  destruct (Z.ltb_spec BUF (len (Buf.vis (send_buf c)) + (9 + n))); [wps; apply Hnone; simpl; lia|]. wps.
  destruct (reserve_frame c n Hb) as (r & b & Hr & Hb1 & Hv1 & Hcs); [lia|lia|].
  unfold wp at 1. rewrite Hr. destruct Hcs as [[-> Hsp]| ->];
    [apply (wp_mono X _ _ _ _ _ _ (wp_put_data T c b sid data end_stream n Hc Hsid Hn ltac:(lia) Hb1 Hv1 Hsp ltac:(rewrite Hv1; lia))); done|].
  split; [split; [|done]; apply inv_with_send; [done..|]; rewrite Hv1; lia|].
  split; [|done]. apply (reserve_data_oom n c Hb). by rewrite Hr.
Qed.

(** ** Output *)

Lemma wp_ignore {A} (m : M Error t A) T c c0 :
  wp X m (λ _, good T (partial_data c0) c0) (λ _, good T (partial_data c0) c0) c →
  wp X (ignore m) (λ _, good T (partial_data c0) c0) (λ _ _, False) c.
Proof. intros Hm. unfold ignore. wps. apply wp_is_ok. wp_use Hm; intros; by wps. Qed.

Lemma wp_send_initial_settings T c : conn_ok T c → quiet (send_initial_settings grant BUF) T c.
Proof.
  intros Hc. unfold send_initial_settings. wps.
  destruct (inv_local _ _ _ Hc) as (Hok & _).
  rewrite H2Settings.encode_params_wire by (simpl; lia). wps. apply wp_lift. wps.
  eapply wp_lift_ok; [by apply Buf.slice_prefix|].
  assert (len (settings_wire (H2Settings.params (local_settings c))) ≤ 36) as Hl.
  { rewrite length_settings_wire. unfold H2Settings.params. destruct (H2Settings.enable_push _); simpl; lia. }
  wps. wp_use wp_send_frame; [exact Hc| |rewrite len_h2_frame_wire; cbn [payload_wire]; lia|done| |done].
  { split_and!; [done|cbn [payload_wire]; lia|done]. }
  intros _ c1 Hg1. wps. eapply good_trans; [exact Hg1|]. split; [|done].
  destruct Hg1 as [[] _]; by constructor.
Qed.

Lemma wp_generate_output T c : conn_ok T c → quiet (generate_output grant BUF) T c.
Proof.
  intros Hc. unfold generate_output. wps.
  eapply (wp_mono X _ (λ _, good T (partial_data c) c) _ (λ _ _, False)); [|intros [] c1 Hg1|done].
  - destruct (negb _); [|wps; by apply good_refl]. wps.
    eapply (wp_mono X _ (λ _, good T (partial_data c) c) _ (λ _ _, False)); [|intros [] c1 Hg1|done].
    + destruct (decide (role c = Client)); [|wps; by apply good_refl].
      apply wp_ignore. wp_use wp_queue_send; [exact Hc|done|done|done].
    + wps. wp_use (wp_ignore (send_initial_settings grant BUF) T c1 c); [| |done].
      { wp_use wp_send_initial_settings; [by eapply good_partial|..].
        all: intros _ c2 Hg2; rewrite (proj2 (proj2 Hg1)) in Hg2; by eapply good_trans. }
      intros _ c2 Hg2. wps. eapply good_trans; [exact Hg2|]. split; [|done].
      destruct Hg2 as [[] _]; by constructor.
  - wp_use wp_flush; [apply Hg1| |done]. intros _ c2 Hg2. by eapply good_trans.
Qed.

Lemma wp_send_goaway T c code : conn_ok T c → uint 32 code → quiet (send_goaway grant BUF code) T c.
Proof.
  intros Hc Hcode. unfold send_goaway. wps.
  wp_use wp_send_frame; [exact Hc| |done|done| |done].
  { destruct (inv_ids31 _ _ _ Hc) as [? _]. split_and!; [done|simpl; len_lia|done]. }
  intros _ c1 Hg1. wps. eapply good_trans; [exact Hg1|]. split; [|done].
  destruct Hg1 as [[] _]; by constructor.
Qed.

(** A chunk of output is the next bytes of the send buffer. *)
Lemma wp_poll_output T c cap :
  conn_ok T c → 0 ≤ cap → wp X (poll_output grant BUF cap) (λ _, conn_ok T) (λ _, conn_ok T) c.
Proof.
  intros Hc Hcap. unfold poll_output. wps.
  wp_use wp_generate_output; [done| |intros _ c1; apply good_partial].
  intros _ c1 Hc1%good_partial. destruct (inv_send _ _ _ Hc1) as [Hb Ho].
  unfold send_len. wps. eapply wp_lift_ok; [by apply (Buf.ok_blen BUF)|].
  destruct (Z.leb_spec (len (Buf.vis (send_buf c1))) (send_offset c1)); [by wps|].
  wps. eapply wp_lift_ok; [apply usub_ok; lia|]. wps.
  eapply wp_lift_ok; [by apply (Buf.ok_as_slice BUF)|]. wps.
  eapply wp_lift_ok; [apply slice_eq; lia|]. wps.
  set (n := Z.min _ _). assert (0 ≤ n ≤ len (Buf.vis (send_buf c1)) - send_offset c1) by (subst n; lia).
  clearbody n. simpl.
  destruct (Z.leb_spec (len (Buf.vis (send_buf c1))) (send_offset c1 + n)); wps.
  - pose proof size_buf. destruct (Buf.ok_clear BUF (send_buf c1)) as [Hb' Hv']; [lia|done|].
    destruct Hc1; constructor; simpl; try done. rewrite Hv'. simpl. split; [done|lia].
  - destruct Hc1; constructor; simpl; try done. split; [done|lia].
Qed.

(** ** Timeouts *)

Lemma wp_time_out T c : conn_ok T c → wp X (time_out grant BUF) (λ _, conn_ok T) (λ _, conn_ok T) c.
Proof.
  intros Hc. unfold time_out. wps.
  wp_use (wp_ignore (send_goaway grant BUF 0) T c c); [by apply wp_send_goaway| |done].
  intros _ c1 Hc1%good_partial. wps. eapply (wp_push_event T).
  - instantiate (1 := partial_data c1). destruct Hc1; by constructor.
  - intros c2 Hg2. eapply good_partial. exact Hg2.
Qed.

Lemma wp_handle_timeout T c now :
  conn_ok T c → wp X (handle_timeout grant BUF now) (λ _, conn_ok T) (λ _, conn_ok T) c.
Proof.
  intros Hc. unfold handle_timeout. wps. case_match; [by wps|]. wps.
  set (c0 := (if sent_since_tick c then _ else _) <| sent_since_tick := false |>).
  assert (conn_ok T c0) as Hc0.
  { subst c0. destruct (sent_since_tick c); destruct Hc; by constructor. }
  clearbody c0. destruct (negb _ && _); [by apply wp_time_out|].
  destruct (idle_timeout_us _); [|by wps]. destruct (_ <=? now); [by apply wp_time_out|by wps].
Qed.

(** ** Reading *)

(** Crediting a stream for bytes taken out of its buffer. *)
Lemma wp_credit_stream T c sid n :
  0 < sid → 0 < n → n ≤ LIMIT →
  inv T (partial_data c) (c <| streams := update_stream sid (λ s,
    s <| H2Stream.pending_recv_credit := H2Stream.pending_recv_credit s + n |>) (streams c) |>) →
  (∀ s, find_stream sid (streams c) = Some s → H2Stream.pending_recv_credit s + n < 2 ^ 32) →
  wp X (send_window_update grant BUF sid n) (λ _, good T (partial_data c) c) (λ _ _, False) c.
Proof.
  intros Hsid Hn HnL Hi Hlt. unfold send_window_update.
  rewrite (proj2 (Z.eqb_neq n 0)), (proj2 (Z.eqb_neq sid 0)) by lia. unfold with_stream. wps.
  erewrite update_stream_ext; [wp_use wp_flush; [exact Hi| |done]|].
  - intros _ c' [Hi' Hk]. by split.
  - intros s Hs. simpl. unfold sat_add32. rewrite Z.min_r; [done|]. specialize (Hlt s Hs). lia.
Qed.

(** A change to one stream that also settles what it is owed. *)
Lemma inv_change_debt (d d' : Debt) T p c sid f s q :
  inv (H1 := d) T p c → find_stream sid (streams c) = Some s → H2Stream.id (f s) = H2Stream.id s →
  stream_ok (H1 := d') (T - recv_count c) (f s) →
  (∀ i, i ≠ sid → debt (Debt := d') i = debt (Debt := d) i) →
  0 ≤ q → q + body_len (f s) = pending_conn_credit c + body_len s →
  inv (H1 := d') T p (c <| streams := update_stream sid f (streams c) |> <| pending_conn_credit := q |>).
Proof.
  intros [] Hf Hid Hok Hd Hq Hcr.
  destruct (find_stream_split _ _ _ Hf) as (l1 & l2 & Hl & Hsid & Hu).
  rewrite Hl in inv_ids, inv_streams, inv_credit.
  rewrite fmap_app, fmap_cons, length_app in inv_ids. destruct inv_ids as [Hnd Hlen].
  pose proof Hnd as (_ & Hn1 & Hn2)%NoDup_app. apply NoDup_cons in Hn2 as [Hn2 _].
  assert (∀ x, x ∈ l1 ∨ x ∈ l2 → stream_ok (H1 := d) (T - recv_count c) x →
    stream_ok (H1 := d') (T - recv_count c) x) as Hothers.
  { intros x Hx []. assert (H2Stream.id x ≠ sid) as Hne; [|rewrite <- (Hd _ Hne) in st_credit, st_conserved; by constructor].
    intros Heq. destruct Hx as [Hx|Hx]; apply (list_elem_of_fmap_2 H2Stream.id) in Hx.
    - apply (Hn1 _ Hx). rewrite Heq, <- Hsid. apply list_elem_of_here.
    - apply Hn2. by rewrite Hsid, <- Heq. }
  rewrite Forall_app, Forall_cons in inv_streams. destruct inv_streams as (Hs1 & _ & Hs2).
  constructor; simpl; rewrite ?Hu; try done.
  - rewrite fmap_app, fmap_cons, length_app, Hid. done.
  - rewrite Forall_app, Forall_cons. split_and!; [|done|].
    all: rewrite Forall_forall in *; eauto.
  - rewrite buffered_app in *. cbn [buffered] in *. lia.
  - lia.
Qed.

Definition one_debt (sid n : Z) (Hn : 0 ≤ n) : Debt.
Proof. refine {| debt := λ i, if i =? sid then n else 0 |}. intros i. case_match; lia. Defined.

(** What is owed to a stream that is gone does not matter. *)
Lemma inv_absent_debt T p c sid n Hn :
  inv (H1 := one_debt sid n Hn) T p c → find_stream sid (streams c) = None → inv T p c.
Proof.
  intros [] Hf%find_stream_none. constructor; try done.
  rewrite Forall_forall in *. intros s Hs. destruct (inv_streams s Hs).
  assert (H2Stream.id s ≠ sid).
  { intros <-. by apply Hf, (list_elem_of_fmap_2 H2Stream.id). }
  simpl in *. rewrite (proj2 (Z.eqb_neq _ _)) in * by done. by constructor.
Qed.

(** The two credits for [n] bytes read from a stream. *)
Lemma wp_credit_both T c sid n (Hn : 0 ≤ n) :
  0 < sid → 0 < n → n ≤ LIMIT →
  inv (H1 := one_debt sid n Hn) T (partial_data c)
    (c <| pending_conn_credit := pending_conn_credit c + n |>) →
  wp X (_ ← send_window_update grant BUF 0 n; send_window_update grant BUF sid n)
    (λ _, conn_ok T) (λ _, conn_ok T) c.
Proof.
  intros Hsid Hpos HnL Hi. wps.
  wp_use (wp_credit_conn (H1 := one_debt sid n Hn) T (partial_data c) c); [done|done| |done].
  intros _ c1 (Hi1 & Hr1 & Hp1).
  assert (0 ≤ pending_conn_credit c1) as Hq by apply (inv_window _ _ _ Hi1).
  set (f := λ s : H2Stream.t, s <| H2Stream.pending_recv_credit := H2Stream.pending_recv_credit s + n |>).
  assert (inv T (partial_data c1) (c1 <| streams := update_stream sid f (streams c1) |>)) as Hi2.
  { rewrite Hp1. destruct (find_stream sid (streams c1)) as [s|] eqn:Hf.
    - refine (inv_change_debt _ _ T (partial_data c) c1 sid f s (pending_conn_credit c1) Hi1 Hf _ _ _ _ _);
        [done| | |done|done].
      + destruct (find_stream_split _ _ _ Hf) as (_ & _ & _ & Hid & _).
        destruct (inv_found _ _ _ _ _ Hi1 Hf). simpl in *. rewrite Hid, Z.eqb_refl in *.
        constructor; unfold f, body_len in *; simpl; rewrite ?Hid; try done; try lia.
        intros Hst. specialize (st_conserved Hst). lia.
      + intros i Hne. simpl. by rewrite (proj2 (Z.eqb_neq _ _)).
    - rewrite update_stream_none by done.
      assert (inv T (partial_data c) c1) as [] by (by eapply inv_absent_debt). by constructor. }
  wp_use (wp_credit_stream T c1 sid n); [done..| |intros _ c2; apply good_partial|done].
  intros s Hf. destruct (inv_found _ _ _ _ _ Hi1 Hf). pose proof size_data. pose proof (inv_total _ _ _ Hi1).
  pose proof (debt_nonneg (Debt := one_debt sid n Hn) (H2Stream.id s)).
  unfold body_len, LIMIT in *. lia.
Qed.

(** The stream after [n] bytes of its body were read. *)
Definition body_read (b : Buf.t) (avail : bool) (s : H2Stream.t) : H2Stream.t :=
  s <| H2Stream.data_buf := b |> <| H2Stream.data_available := avail |>.

Lemma body_read_ok (d : Debt) k b avail s n :
  stream_ok (H1 := no_debt) k s → Buf.ok DATABUF b → (Buf.vis b ≠ [] → avail = true) →
  len (Buf.vis b) = body_len s - n → debt (Debt := d) (H2Stream.id s) = n →
  stream_ok (H1 := d) k (body_read b avail s).
Proof.
  intros [] Hb Ha Hl Hd. simpl in *. constructor; unfold body_read, body_len in *; simpl; rewrite ?Hd; try done; try lia.
  intros Hst. specialize (st_conserved Hst). lia.
Qed.

Lemma inv_body_kept T c sid s b avail :
  conn_ok T c → find_stream sid (streams c) = Some s → Buf.ok DATABUF b →
  (Buf.vis b ≠ [] → avail = true) → len (Buf.vis b) = body_len s →
  conn_ok T (c <| streams := update_stream sid (body_read b avail) (streams c) |>).
Proof.
  intros Hc Hf Hb Ha Hl.
  refine (inv_stream_change T _ (partial_data c) c sid (body_read b avail) s (pending_conn_credit c) Hc Hf _ _ _ _ _).
  - done.
  - eapply (body_read_ok _ _ _ _ _ 0); [by eapply inv_found|done..|lia|done].
  - apply (inv_window _ _ _ Hc).
  - apply (inv_partial _ _ _ Hc).
  - unfold body_read, body_len in *. simpl. lia.
Qed.

Lemma wp_recv_body T c sid cap :
  conn_ok T c → 0 < sid → 0 ≤ cap →
  wp X (recv_body grant BUF sid cap) (λ _, conn_ok T) (λ _, conn_ok T) c.
Proof.
  intros Hc Hsid Hcap. unfold recv_body, get_stream. wps.
  destruct (find_stream sid (streams c)) as [s|] eqn:Hf; [|by wps].
  pose proof (inv_found _ _ _ _ _ Hc Hf) as Hs. pose proof (st_data _ _ Hs) as Hd.
  pose proof (Buf.ok_bound _ _ Hd) as Hbd. pose proof size_data as Hsz.
  wps. eapply wp_lift_ok; [by apply (Buf.ok_blen DATABUF)|].
  destruct (Z.eqb_spec (len (Buf.vis (H2Stream.data_buf s))) 0) as [Hz|Hnz].
  { destruct (H2Stream.fin_received s); [|by wps]. unfold with_stream. wps.
    erewrite update_stream_ext; [apply (inv_body_kept T c sid s (H2Stream.data_buf s) false); try done|].
    - by destruct (Buf.vis (H2Stream.data_buf s)).
    - intros s' Hs'. replace s' with s by congruence. by destruct s. }
  set (n := Z.min _ cap). assert (0 ≤ n ≤ len (Buf.vis (H2Stream.data_buf s))) as Hn by (subst n; lia).
  clearbody n. wps. eapply wp_lift_ok; [by apply (Buf.ok_as_slice DATABUF)|]. wps.
  eapply wp_lift_ok; [apply slice_eq; lia|]. wps.
  set (g := λ s : list Z, copy_within s n (len s) 0).
  destruct (Buf.ok_write (E:=Error) DATABUF g (H2Stream.data_buf s) _ Hd
    (Buf.copy_within_front _ n Hn)) as (b1 & Hw & Hok1 & Hv1 & _); [len_lia|].
  assert (len (Buf.vis b1) = len (Buf.vis (H2Stream.data_buf s))) as Hl1 by (rewrite Hv1; len_lia).
  eapply wp_lift_ok; [exact Hw|]. wps. eapply wp_lift_ok; [by apply (Buf.ok_blen DATABUF)|]. wps.
  rewrite Hl1. eapply wp_lift_ok; [apply usub_ok; lia|]. wps.
  destruct (Buf.ok_truncate (E:=Error) DATABUF (len (Buf.vis (H2Stream.data_buf s)) - n) b1 Hok1)
    as (b2 & Ht & Hok2 & Hv2); [lia|].
  eapply wp_lift_ok; [exact Ht|]. wps. eapply wp_lift_ok; [by apply (Buf.ok_blen DATABUF)|].
  assert (Buf.vis b2 = drop (Z.to_nat n) (Buf.vis (H2Stream.data_buf s))) as Hv.
  { rewrite Hv2, Hv1. apply take_app_length'. len_lia. }
  set (avail := negb (len (Buf.vis b2) =? 0)).
  assert (Buf.vis b2 ≠ [] → avail = true) as Hav.
  { intros Hne. subst avail. destruct (Buf.vis b2); done. }
  assert (len (Buf.vis b2) = body_len s - n) as Hl2 by (rewrite Hv; unfold body_len; len_lia).
  unfold with_stream. wps.
  change (λ s0 : H2Stream.t, s0 <| H2Stream.data_buf := b2 |> <| H2Stream.data_available := avail |>)
    with (body_read b2 avail).
  destruct (find_stream_split _ _ _ Hf) as (_ & _ & _ & Hid & _).
  destruct (Z.ltb_spec 0 n) as [Hpos|Hz].
  - rewrite trunc_small by (unfold uint, LIMIT in *; lia).
    wp_use (wp_credit_both T _ sid n (proj1 Hn)); [done..|unfold LIMIT in *; lia| |by intros; wps|done].
    pose proof (inv_bounds _ _ _ Hc).
    refine (inv_change_debt no_debt _ T (partial_data c) c sid (body_read b2 avail) s
      (pending_conn_credit c + n) Hc Hf _ _ _ _ _); [done| | |lia|].
    + eapply (body_read_ok _ _ _ _ _ n); [done..|]. simpl. by rewrite Hid, Z.eqb_refl.
    + intros i Hne. simpl. by rewrite (proj2 (Z.eqb_neq _ _)).
    + unfold body_read, body_len in *. simpl. lia.
  - wps. apply (inv_body_kept T c sid s b2 avail); try done. lia.
Qed.

Lemma clear_headers_ok k s :
  stream_ok k s →
  stream_ok k (s <| H2Stream.headers_data := Buf.clear (H2Stream.headers_data s) |>
                 <| H2Stream.headers_received := false |>).
Proof.
  intros []. pose proof size_hdr.
  destruct (Buf.ok_clear HDRBUF (H2Stream.headers_data s)) as [Hb Hv]; [lia|apply st_headers|].
  constructor; simpl; try done. by rewrite Hv.
Qed.

Lemma wp_discard_body T c sid code :
  conn_ok T c → uint 32 code →
  wp X (discard_body grant BUF sid code) (λ _, conn_ok T) (λ _, conn_ok T) c.
Proof.
  intros Hc Hcode. unfold discard_body, get_stream. wps.
  destruct (find_stream sid (streams c)) as [s|] eqn:Hf; [|by wps]. wps.
  pose proof (inv_found _ _ _ _ _ Hc Hf) as Hs. pose proof (st_data _ _ Hs) as Hd.
  pose proof (Buf.ok_bound _ _ Hd) as Hbd. pose proof size_data as Hsz.
  eapply wp_lift_ok; [by apply (Buf.ok_blen DATABUF)|]. unfold with_stream. wps.
  rewrite trunc_small by (unfold uint, LIMIT in *; lia).
  set (p := discard_partial sid (partial_data c)).
  set (f := λ s : H2Stream.t, H2Stream.reset _).
  assert (∀ k, stream_ok k s → stream_ok k (f s) ∧ body_len (f s) = 0) as Hfs.
  { intros k Hk. apply clear_headers_ok in Hk. apply clear_body_ok in Hk as [[] Hv]. simpl in Hv.
    split; [|unfold f, body_len; simpl; destruct (negb _); simpl; by rewrite Hv].
    unfold f. destruct (negb (H2Stream.fin_received s)); [|by constructor].
    constructor; try done. simpl. by intros ? [= <-]. }
  assert (inv T p ((c <| partial_data := p |>) <| streams := update_stream sid f (streams c) |>
    <| pending_conn_credit := pending_conn_credit c + body_len s |>)) as Hi.
  { refine (inv_stream_change T (partial_data c) p (c <| partial_data := p |>) sid f s _
      (inv_partial_data T (partial_data c) p c Hc) Hf _ _ _ _ _).
    - unfold f. by destruct (negb _).
    - by apply Hfs.
    - pose proof (inv_bounds _ _ _ Hc). unfold body_len. lia.
    - pose proof (inv_partial _ _ _ Hc) as Hp. subst p. destruct (partial_data c) as [pd|]; [|done].
      simpl in *. by destruct (pd_stream_id pd =? sid).
    - destruct (Hfs _ Hs) as [_ ->]. subst p. destruct (partial_data c) as [pd|]; simpl; [|lia].
      destruct (pd_stream_id pd =? sid); simpl; lia. }
  wp_use wp_credit; [|exact Hi| |done]; [unfold body_len; lia|].
  intros _ c1 Hg1. destruct (negb (H2Stream.fin_received s)).
  - wp_use wp_flush; [apply Hg1| |done]. intros _ c2 Hg2.
    apply (good_partial T (c <| partial_data := p |>)).
    eapply good_trans; [|exact Hg2]. destruct Hg1 as [? ?]. by split.
  - wps. apply (good_partial T (c <| partial_data := p |>)). destruct Hg1 as [? ?]. by split.
Qed.

(** ** Calls that decode headers *)
Hypothesis HX : overflow_checks = true → X.

Lemma wp_recv_headers T c sid : conn_ok T c → quiet (recv_headers sid) T c.
Proof.
  intros Hc. unfold recv_headers, get_stream. wps.
  destruct (find_stream sid (streams c)) as [s|] eqn:Hf; [|wps; by apply good_refl].
  destruct (negb _); [wps; by apply good_refl|].
  destruct (st_headers _ _ (inv_found _ _ _ _ _ Hc Hf)) as [Hh Hb].
  wps. eapply wp_lift_ok; [by apply (Buf.ok_as_slice HDRBUF)|]. wps.
  wp_use (wp_hpack_decode HX); [exact Hc|done| |done]. intros hs c1 Hg1. wps.
  eapply wp_with_stream; [apply Hg1| |].
  { intros k s' Hs'. split_and!; [|done..]. by apply clear_headers_ok. }
  intros c2 Hg2. wps. by eapply good_trans.
Qed.

Lemma inv_mono T T' p c : inv T p c → T ≤ T' ≤ LIMIT → inv T' p c.
Proof.
  intros [] HT. constructor; try done; [|lia].
  eapply Forall_impl; [exact inv_streams|]. intros s. apply stream_ok_mono. lia.
Qed.

Lemma wp_feed_data T c data :
  conn_ok T c → bytes_ok data → T + len data ≤ LIMIT →
  wp X (feed_data grant MAX_STREAMS HDRBUF DATABUF BUF data)
    (λ _, conn_ok (T + len data)) (λ _, conn_ok (T + len data)) c.
Proof.
  intros Hc Hd HT. unfold feed_data. wps. pose proof size_buf.
  wp_use wp_generate_output; [done| |].
  2: { intros _ c1 Hc1%good_partial. eapply inv_mono; [done|lia]. }
  intros _ c1 Hc1%good_partial. wps. eapply wp_recv_len; [done|].
  assert (conn_ok (T + len data) c1) as Hc1' by (eapply inv_mono; [done|lia]).
  destruct (Z.ltb_spec BUF (recv_count c1 + len data)); [by wps|].
  destruct (inv_recv _ _ _ Hc1) as [Hb Hbb]. pose proof (inv_total _ _ _ Hc1).
  destruct (Buf.ok_try_reserve BUF grant (len data) (recv_buf c1) Hb) as (r & b & Hr & Hb1 & Hv1 & Hcs);
    [lia|apply size_usize; lia|].
  wps. unfold wp at 1. rewrite Hr.
  assert (conn_ok (T + len data) (with_recv c1 b)) as Hc2.
  { destruct Hc1'; constructor; simpl; rewrite ?Hv1; done. }
  destruct Hcs as [[-> Hsp]| ->]; [|done].
  destruct (Buf.ok_extend BUF grant data b Hb1) as (b2 & He & Hb2 & Hv2 & _);
    [apply Hsp; lia|rewrite Hv1; lia|].
  wps. unfold wp at 1. simpl. rewrite He. apply wp_process_recv; [done|].
  assert (recv_count c1 + len data = len (Buf.vis b2)) as Hl2 by (rewrite Hv2, Hv1; len_lia).
  destruct Hc1; constructor; simpl; try done; rewrite <- ?Hl2.
  - split; [done|]. rewrite Hv2, Hv1. apply Forall_app. naive_solver.
  - by replace (T + len data - (recv_count c1 + len data)) with (T - recv_count c1) by lia.
  - lia.
Qed.

End send.
