(* ===== verification/H2Api.v ===== *)
(** * Properties of the HTTP/2 connection

    A connection is driven by a sequence of calls to its public interface; the
    states such sequences reach satisfy the invariant, so no call panics and no
    receive credit is lost, whatever the peer sends. *)
From stdpp Require Import sets strings.
From S2P Require Import Prelude Errors Hoare Varint Cursor Buf Http HpackInteger Huffman Hpack H2Frame H2Stream H2Connection H2Inv H2Receive H2Send.
Import H2Frame H2.
#[local] Existing Instance no_debt.

(** ** Calls *)

Inductive call : Type :=
| FeedData (data : list Z)
| FeedDataTimed (data : list Z) (now : Z)
| PollOutput (cap : Z)
| PollEvent
| SendHeaders (sid : Z) (headers : list (list Z * list Z)) (end_stream : bool)
| OpenStream (headers : list (list Z * list Z)) (end_stream : bool)
| SendData (sid : Z) (data : list Z) (end_stream : bool)
| RecvHeaders (sid : Z)
| RecvBody (sid cap : Z)
| DiscardBody (sid error_code : Z)
| SendGoaway (error_code : Z)
| SetTimeouts (config : TimeoutConfig) (now : Z)
| HandleTimeout (now : Z)
| NoteRecvActivity (now : Z).

(** Bytes a call takes from the peer. *)
Definition fed (a : call) : Z :=
  match a with FeedData data | FeedDataTimed data _ => len data | _ => 0 end.

(** Arguments of their Rust types; stream identifiers are 31-bit and not 0. *)
Definition call_ok (a : call) : Prop :=
  match a with
  | FeedData data | FeedDataTimed data _ => bytes_ok data
  | PollOutput cap => 0 ≤ cap
  | SendHeaders sid hs _ => 0 < sid < 2 ^ 31 ∧ Forall Hpack.header_ok hs
  | OpenStream hs _ => Forall Hpack.header_ok hs
  | SendData sid _ _ => uint 31 sid
  | RecvBody sid cap => 0 < sid ∧ 0 ≤ cap
  | DiscardBody _ code | SendGoaway code => uint 32 code
  | _ => True
  end.

Section api.
Context `{Platform} `{Params}.

Definition perform (a : call) : M Error t unit :=
  match a with
  | FeedData data => feed_data grant MAX_STREAMS HDRBUF DATABUF BUF data
  | FeedDataTimed data now => feed_data_timed grant MAX_STREAMS HDRBUF DATABUF BUF data now
  | PollOutput cap => _ ← poll_output grant BUF cap; mret tt
  | PollEvent => _ ← poll_event; mret tt
  | SendHeaders sid hs fin => send_headers grant MAX_STREAMS BUF sid hs fin
  | OpenStream hs fin => _ ← open_stream grant MAX_STREAMS BUF hs fin; mret tt
  | SendData sid data fin => _ ← send_data grant BUF sid data fin; mret tt
  | RecvHeaders sid => _ ← recv_headers sid; mret tt
  | RecvBody sid cap => _ ← recv_body grant BUF sid cap; mret tt
  | DiscardBody sid code => discard_body grant BUF sid code
  | SendGoaway code => send_goaway grant BUF code
  | SetTimeouts config now => modify (set_timeouts config now)
  | HandleTimeout now => handle_timeout grant BUF now
  | NoteRecvActivity now => modify (note_recv_activity now)
  end.

(** A program of calls; the application goes on after an error, [None] is a
    panic. *)
Fixpoint run_calls (l : list call) (c : t) : option t :=
  match l with
  | [] => Some c
  | a :: l' =>
      match perform a c with
      | (Panic, _) => None
      | (_, c') => run_calls l' c'
      end
  end.

Fixpoint total_fed (l : list call) : Z :=
  match l with [] => 0 | a :: l' => fed a + total_fed l' end.

Lemma total_fed_nonneg l : 0 ≤ total_fed l.
Proof. induction l as [|[] l IH]; simpl; lia. Qed.

(** ** Every call keeps the invariant *)

Lemma conn_ok_new r : conn_ok 0 (new MAX_STREAMS DATABUF r).
Proof.
  pose proof size_streams. pose proof size_data as Hd. pose proof size_buf as Hb. unfold LIMIT in *.
  destruct (Buf.ok_new BUF) as [Hok Hv]; [lia|].
  constructor; simpl; rewrite ?Hv; try done.
  - split; [apply NoDup_nil_2|lia].
  - unfold H2Settings.ok, uint, i32_max. simpl. rewrite !trunc_small by (unfold uint; lia). lia.
  - unfold uint. destruct r; simpl; lia.
Qed.

Lemma perform_ok a T c :
  conn_ok T c → call_ok a → T + fed a ≤ LIMIT →
  wp (overflow_checks = true) (perform a) (λ _, conn_ok (T + fed a)) (λ _, conn_ok (T + fed a)) c.
Proof.
  intros Hc Ha HT.
  assert (∀ {A} (m : M Error t A),
    wp (overflow_checks = true) m (λ _, conn_ok T) (λ _, conn_ok T) c →
    wp (overflow_checks = true) (_ ← m; mret tt) (λ _, conn_ok T) (λ _, conn_ok T) c) as Hm.
  { intros A m Hm. wps. wp_use Hm; [|done]. intros. by wps. }
  destruct a; simpl in Ha, HT |- *; rewrite ?Z.add_0_r; try apply Hm.
  - by apply wp_feed_data.
  - unfold feed_data_timed. wps. case_match; wps; apply wp_feed_data; try done. destruct Hc; by constructor.
  - by apply wp_poll_output.
  - unfold poll_event. wps. destruct (events c) as [|e evs] eqn:He; wps; [done|].
    destruct Hc; constructor; simpl; try done. rewrite He in inv_events. simpl in inv_events. lia.
  - wp_use wp_send_headers; [done|apply Ha|apply Ha|..]; intros _ c' [Hg _]; by eapply good_partial.
  - wp_use wp_open_stream; [done..| |]; intros _ c'; apply good_partial.
  - wp_use wp_send_data; [done..| |]; intros ? c' [Hg _]; by eapply good_partial.
  - wp_use wp_recv_headers; [done..| |]; intros ? c'; apply good_partial.
  - apply wp_recv_body; [done|apply Ha..].
  - by apply wp_discard_body.
  - wp_use wp_send_goaway; [done..| |]; intros _ c'; apply good_partial.
  - wps. destruct Hc; by constructor.
  - by apply wp_handle_timeout.
  - wps. destruct Hc; by constructor.
Qed.

Lemma run_calls_ok l T c :
  overflow_checks = false → conn_ok T c → Forall call_ok l → T + total_fed l ≤ LIMIT →
  ∃ c', run_calls l c = Some c' ∧ conn_ok (T + total_fed l) c'.
Proof.
  intros Ho Hc Hl. revert T c Hc. induction Hl as [|a l Ha _ IH]; intros T c Hc HT; simpl in *.
  { exists c. by rewrite Z.add_0_r. }
  pose proof (total_fed_nonneg l).
  pose proof (perform_ok a T c Hc Ha ltac:(lia)) as Hp. unfold wp in Hp.
  destruct (perform a c) as [[| |] c1]; [| |congruence].
  all: destruct (IH (T + fed a) c1 Hp) as (c' & -> & Hc'); [lia|]; exists c'; split; [done|].
  all: by replace (T + (fed a + total_fed l)) with (T + fed a + total_fed l) by lia.
Qed.

(** The invariant in whatever state is reached. *)
Lemma run_calls_inv l T c c' :
  conn_ok T c → Forall call_ok l → T + total_fed l ≤ LIMIT →
  run_calls l c = Some c' → conn_ok (T + total_fed l) c'.
Proof.
  intros Hc Hl. revert T c Hc. induction Hl as [|a l Ha _ IH]; intros T c Hc HT; simpl in *.
  { intros [= <-]. by rewrite Z.add_0_r. }
  pose proof (total_fed_nonneg l).
  pose proof (perform_ok a T c Hc Ha ltac:(lia)) as Hp. unfold wp in Hp.
  rewrite Z.add_assoc.
  destruct (perform a c) as [[| |] c1]; [apply IH; (done || lia)|apply IH; (done || lia)|done].
Qed.

(** ** Termination of the receive loop *)

(** More fuel does not change a result. *)
Lemma recv_loop_more fuel k c :
  (recv_loop grant MAX_STREAMS HDRBUF DATABUF BUF fuel c).1 ≠ Panic →
  recv_loop grant MAX_STREAMS HDRBUF DATABUF BUF (fuel + k) c =
  recv_loop grant MAX_STREAMS HDRBUF DATABUF BUF fuel c.
Proof.
  revert c. induction fuel as [|fuel IH]; intros c; simpl.
  - destruct k as [|k]; [done|]. simpl. unfold mbind, M_bind.
    destruct (recv_step _ _ _ _ _ c) as [[[]| |] c1]; done.
  - unfold mbind, M_bind. destruct (recv_step _ _ _ _ _ c) as [[[]| |] c1]; try done. apply IH.
Qed.

End api.

(** ** Properties *)

(** C16: Nothing the peer sends can crash the connection, in a build without overflow
    checks.  Whatever the role, the buffer sizes and the sizes the allocator grants,
    every sequence of calls to
    the public interface with arbitrary received bytes, up to a gigabyte in
    total, runs without a panic: no index out of range, no integer overflow, no
    allocation that aborts, and the receive loops return.  (With overflow checks the
    peer can make the HPACK string decoder panic, [hpack_decode_panics].) *)
Theorem h2_never_panics `{Platform} `{Params} r l :
  overflow_checks = false → Forall call_ok l → total_fed l ≤ LIMIT →
  is_Some (run_calls l (new MAX_STREAMS DATABUF r)).
Proof.
  intros Ho Hl HT. destruct (run_calls_ok l 0 _ Ho (conn_ok_new r) Hl HT) as (c' & -> & _). by eexists.
Qed.

(** C17: Receive credit is conserved.  In every state a sequence of calls reaches,
    the connection window, the credit waiting to be announced, the body bytes
    buffered in streams and the rest of an unfinished DATA frame add up to
    65535; on every stream that is not closed its window, its waiting credit and
    its buffered bytes add up to the advertised window.  So no discarded,
    reset or unread byte is ever lost from the peer's allowance. *)
Theorem h2_credit_conserved `{Platform} `{Params} r l c :
  Forall call_ok l → total_fed l ≤ LIMIT →
  run_calls l (new MAX_STREAMS DATABUF r) = Some c →
  FlowController.window (conn_recv_fc c) + pending_conn_credit c + buffered (streams c)
    + owed (partial_data c) = 65535 ∧
  Forall (λ s, H2Stream.state s ≠ H2Stream.Closed →
    H2Stream.recv_window s + H2Stream.pending_recv_credit s
      + len (Buf.vis (H2Stream.data_buf s)) = DATABUF) (streams c).
Proof.
  intros Hl HT Hr. pose proof (run_calls_inv l 0 _ c (conn_ok_new r) Hl HT Hr) as [].
  split; [done|]. eapply Forall_impl; [exact inv_streams|]. intros s [] Hs.
  specialize (st_conserved Hs). simpl in st_conserved. unfold body_len in st_conserved. lia.
Qed.

(** C36: The tables stay within their bounds.  In every reachable state the
    streams have distinct identifiers and are at most [MAX_STREAMS], at most 64
    events are queued, both I/O buffers hold at most [BUF] bytes, every window
    is an [i32] (the connection's are not negative), and each stream's buffers
    respect [HDRBUF] and [DATABUF]. *)
Theorem h2_state_bounded `{Platform} `{Params} r l c :
  Forall call_ok l → total_fed l ≤ LIMIT →
  run_calls l (new MAX_STREAMS DATABUF r) = Some c →
  NoDup (H2Stream.id <$> streams c) ∧ len (streams c) ≤ MAX_STREAMS ∧ len (events c) ≤ 64 ∧
  len (Buf.vis (recv_buf c)) ≤ BUF ∧ len (Buf.vis (send_buf c)) ≤ BUF ∧
  0 ≤ FlowController.window (conn_send_fc c) ≤ i32_max ∧
  0 ≤ FlowController.window (conn_recv_fc c) ≤ i32_max ∧
  Forall (λ s, i32 (H2Stream.send_window s) ∧ i32 (H2Stream.recv_window s) ∧
    len (Buf.vis (H2Stream.headers_data s)) ≤ HDRBUF ∧
    len (Buf.vis (H2Stream.data_buf s)) ≤ DATABUF) (streams c).
Proof.
  intros Hl HT Hr. pose proof (run_calls_inv l 0 _ c (conn_ok_new r) Hl HT Hr) as Hc.
  pose proof (inv_bounds _ _ _ Hc). pose proof size_data. destruct Hc.
  split_and!; try tauto; try (apply Buf.ok_bound; tauto); try (unfold i32_max; lia).
  eapply Forall_impl; [exact inv_streams|]. intros s []. simpl in *.
  split_and!; try done; try (by apply Buf.ok_bound); try (by apply Buf.ok_bound, st_headers).
  all: unfold i32, i32_min, i32_max, body_len, LIMIT in *; lia.
Qed.

(** C35: The receive loop terminates, in a build without overflow checks.  On every
    connection state that satisfies the invariant, the loop over the received frames has finished after at most
    [2 * recv_buf.len() + 2] iterations: allowing more changes nothing, and the
    bound is never reached, nor is a panic.  (With overflow checks a header block can
    end the loop with the panic of the HPACK string decoder.) *)
Theorem h2_recv_loop_terminates `{Platform} `{Params} T c k :
  overflow_checks = false → conn_ok T c →
  let fuel := (2 * length (Buf.vis (recv_buf c)) + 2)%nat in
  (recv_loop grant MAX_STREAMS HDRBUF DATABUF BUF fuel c).1 ≠ Panic ∧
  recv_loop grant MAX_STREAMS HDRBUF DATABUF BUF (fuel + k) c =
    recv_loop grant MAX_STREAMS HDRBUF DATABUF BUF fuel c.
Proof.
  intros Ho Hc fuel.
  assert ((recv_loop grant MAX_STREAMS HDRBUF DATABUF BUF fuel c).1 ≠ Panic) as Hp.
  { assert (wp False (recv_loop grant MAX_STREAMS HDRBUF DATABUF BUF fuel) (λ _, conn_ok T) (λ _, conn_ok T) c) as Hw.
    { apply wp_recv_loop; [congruence|done|]. unfold measure, fuel. case_match; lia. }
    unfold wp in Hw. by destruct (recv_loop _ _ _ _ _ _ c) as [[]]. }
  split; [done|]. by apply recv_loop_more.
Qed.


(** C33: [send_data] writes exactly what flow control allows.  In every reachable
    state a successful call appends one DATA frame with the first [n] bytes,
    where [n] is the least of the data, both send windows and the peer's frame
    size, ends the stream only with the last byte, and lowers both windows by
    [n]; a refused call changes neither the output nor a window nor a stream,
    and is refused only because the stream cannot send, the allowance is used
    up, the frame does not fit the send buffer or the allocator has no memory.
    It does not panic. *)
Theorem h2_send_data_exact `{Platform} `{Params} r l c sid data end_stream :
  Forall call_ok l → total_fed l ≤ LIMIT → run_calls l (new MAX_STREAMS DATABUF r) = Some c →
  uint 31 sid →
  match send_data grant BUF sid data end_stream c with
  | (Ok n, c') =>
      n = Z.min (len data) (allowance sid c) ∧
      Buf.vis (send_buf c') =
        Buf.vis (send_buf c) ++ frame_wire (Data sid (take (Z.to_nat n) data) (end_stream && (n =? len data))) ∧
      FlowController.window (conn_send_fc c') = FlowController.window (conn_send_fc c) - n ∧
      ∀ s, find_stream sid (streams c) = Some s →
        ∃ s', find_stream sid (streams c') = Some s' ∧ H2Stream.send_window s' = H2Stream.send_window s - n
  | (Err e, c') =>
      data_refused sid data c e ∧ Buf.vis (send_buf c') = Buf.vis (send_buf c) ∧
      conn_send_fc c' = conn_send_fc c ∧ streams c' = streams c
  | (Panic, _) => False
  end.
Proof.
  intros Hl HT Hr Hsid. pose proof (run_calls_inv l 0 _ c (conn_ok_new r) Hl HT Hr) as Hc.
  pose proof (wp_send_data (X:=False) _ c sid data end_stream Hc Hsid) as Hw. unfold wp in Hw.
  destruct (send_data _ _ _ _ _ c) as [[n|e|] c']; [apply Hw|apply Hw|done].
Qed.

(** ** A session *)

#[local] Existing Instance platform64.
#[local] Existing Instance demo_params.

(** A server that reads a request with a body and answers it. *)
Definition demo_calls : list call :=
  [FeedData (CONNECTION_PREFACE ++ frame_wire (Settings false [])
     ++ frame_wire (headers_frame 1 [(bytes ":method", bytes "GET")] false)
     ++ frame_wire (Data 1 [10; 11; 12] true));
   RecvHeaders 1; RecvBody 1 2;
   SendHeaders 1 [(bytes ":status", bytes "200")] false; SendData 1 [7; 8] false].
Definition demo_conn : t :=
  match run_calls demo_calls (new MAX_STREAMS DATABUF Server) with
  | Some c => c | None => new MAX_STREAMS DATABUF Server end.
Lemma demo_runs : run_calls demo_calls (new MAX_STREAMS DATABUF Server) = Some demo_conn.
Proof. vm_compute. reflexivity. Qed.
Lemma demo_calls_ok : Forall call_ok demo_calls.
Proof.
  repeat apply Forall_cons_2; try apply Forall_nil_2; unfold call_ok; try (split; [lia|]); try done.
  apply Forall_singleton. by split.
Qed.
Lemma demo_fed : total_fed demo_calls ≤ LIMIT.
Proof. vm_compute. done. Qed.
Lemma demo_conn_ok : conn_ok (total_fed demo_calls) demo_conn.
Proof. apply (run_calls_inv demo_calls 0 _ demo_conn (conn_ok_new Server) demo_calls_ok demo_fed demo_runs). Qed.

Lemma h2_never_panics_witness :
  Forall call_ok demo_calls ∧ is_Some (run_calls demo_calls (new MAX_STREAMS DATABUF Server)).
Proof. split; [exact demo_calls_ok|]. apply (h2_never_panics Server demo_calls); [reflexivity|exact demo_calls_ok|exact demo_fed]. Defined.

(** One byte of the body is still buffered. *)
Lemma h2_credit_conserved_witness :
  buffered (streams demo_conn) = 1 ∧
  FlowController.window (conn_recv_fc demo_conn) + pending_conn_credit demo_conn
    + buffered (streams demo_conn) + owed (partial_data demo_conn) = 65535.
Proof.
  split; [vm_compute; reflexivity|].
  apply (h2_credit_conserved Server demo_calls demo_conn demo_calls_ok demo_fed demo_runs).
Defined.

Lemma h2_state_bounded_witness :
  len (streams demo_conn) = 1 ∧ NoDup (H2Stream.id <$> streams demo_conn) ∧
  len (Buf.vis (send_buf demo_conn)) ≤ 1000.
Proof.
  split; [vm_compute; reflexivity|].
  destruct (h2_state_bounded Server demo_calls demo_conn demo_calls_ok demo_fed demo_runs)
    as (? & _ & _ & _ & ? & _). by split.
Defined.

Lemma h2_recv_loop_terminates_witness :
  (recv_loop grant MAX_STREAMS HDRBUF DATABUF BUF
    (2 * length (Buf.vis (recv_buf demo_conn)) + 2) demo_conn).1 ≠ Panic.
Proof. apply (h2_recv_loop_terminates (total_fed demo_calls) demo_conn 0); [reflexivity|exact demo_conn_ok]. Defined.

(** The next byte of the response goes out and is charged. *)
Lemma h2_send_data_exact_witness :
  ∃ c', send_data grant BUF 1 [9] true demo_conn = (Ok 1, c') ∧
    Buf.vis (send_buf c') = Buf.vis (send_buf demo_conn) ++ frame_wire (Data 1 [9] true) ∧
    FlowController.window (conn_send_fc c') = FlowController.window (conn_send_fc demo_conn) - 1.
Proof.
  pose proof (h2_send_data_exact Server demo_calls demo_conn 1 [9] true demo_calls_ok demo_fed demo_runs
    ltac:(unfold uint; lia)) as Hs.
  destruct (send_data grant BUF 1 [9] true demo_conn) as [[n|e|] c'] eqn:Hd.
  - destruct Hs as (Hn & Hv & Hw & _). exists c'.
    assert (n = 1) as -> by (rewrite Hn; vm_compute; reflexivity). split; [done|]. split; [exact Hv|exact Hw].
  - exfalso. clear Hs. revert Hd. vm_compute. discriminate.
  - destruct Hs.
Defined.
