(* ===== verification/H2Exchange.v ===== *)
(** * Headers from one HTTP/2 connection to the other

    What [send_headers] queues on one connection is what [recv_headers] returns
    on the other: the receive loop takes the frame off the input, opens the
    stream, reports it, and the decoder reads the block back. *)
From stdpp Require Import sets strings.
From S2P Require Import Prelude Errors Hoare Varint Cursor Buf Http HpackInteger Huffman Hpack H2Frame H2Stream H2Connection H2Inv H2Receive H2Send H2Api.
Import H2Frame H2.
#[local] Existing Instance no_debt.

Section exchange.
Context `{Platform} `{Params}.

(** The last stream of the table, when no other has its identifier. *)
Lemma find_stream_last sid l s :
  find_stream sid l = None → H2Stream.id s = sid → find_stream sid (l ++ [s]) = Some s.
Proof.
  unfold find_stream. intros Hn Hid. induction l as [|x l IH]; simpl in *.
  - unfold has_id. by rewrite Hid, Z.eqb_refl.
  - destruct (has_id sid x); [done|by apply IH].
Qed.
Lemma update_stream_last sid f l s :
  find_stream sid l = None → H2Stream.id s = sid → update_stream sid f (l ++ [s]) = l ++ [f s].
Proof.
  unfold find_stream. intros Hn Hid. induction l as [|x l IH]; simpl in *.
  - unfold has_id. by rewrite Hid, Z.eqb_refl.
  - destruct (has_id sid x); [done|]. by rewrite IH.
Qed.

(** A frame header read where it lies. *)
Lemma header_fields hdr rest :
  uint 24 (h_length hdr) → uint 31 (h_stream_id hdr) →
  let l := header_wire hdr ++ rest in
  ∃ b0 b1 b2, idx (E:=Error) l 0 = Ok b0 ∧ idx (E:=Error) l 1 = Ok b1 ∧ idx (E:=Error) l 2 = Ok b2 ∧
    Z.lor (Z.lor (Z.shiftl b0 16) (Z.shiftl b1 8)) b2 = h_length hdr ∧
    idx (E:=Error) l 3 = Ok (h_frame_type hdr) ∧ idx (E:=Error) l 4 = Ok (h_flags hdr) ∧
    u31_at l 5 = Ok (h_stream_id hdr).
Proof.
  intros Hl Hid l. pose proof (decode_header_wire hdr rest Hid) as Hd. fold l in Hd.
  unfold decode_frame_header in Hd.
  assert (9 ≤ len l) by (subst l; pose proof (len_header_wire hdr); len_lia).
  rewrite (proj2 (Z.ltb_ge _ _)) in Hd by done.
  do 3 (edestruct (idx_no_panic (E:=Error) l) as [? Hx]; [shelve|rewrite Hx in *; clear Hx; simpl in Hd]).
  do 2 (edestruct (idx_no_panic (E:=Error) l) as [? Hx]; [shelve|rewrite Hx in *; clear Hx; simpl in Hd]).
  destruct (u31_at l 5) as [sid| |]; simpl in Hd; [|done..]. injection Hd as Hlen -> -> ->.
  rewrite Z.mod_small in Hlen by (unfold uint in Hl; lia). do 3 eexists. by rewrite <- Hlen.
  Unshelve. all: lia.
Qed.

Lemma recv_at_eq c i v :
  Buf.ok BUF (recv_buf c) → idx (E:=Error) (Buf.vis (recv_buf c)) i = Ok v → recv_at i c = (Ok v, c).
Proof.
  intros Hb Hi. unfold recv_at. erewrite M_step_ok by reflexivity.
  rewrite (M_step_lift _ _ _ _ (Buf.ok_as_slice BUF _ Hb)). unfold lift. by rewrite Hi.
Qed.

(** With an allocator that grants, a fragment that fits is appended. *)
Lemma append_headers_eq c sid frag b l s :
  (∀ n, grant n = true) → Buf.ok HDRBUF b → len (Buf.vis b) + len frag ≤ HDRBUF →
  streams c = l ++ [s] → find_stream sid l = None → H2Stream.id s = sid →
  ∃ b', append_headers grant HDRBUF sid frag b c =
      (Ok tt, c <| streams := l ++ [s <| H2Stream.headers_data := b' |>] |>) ∧
    Buf.ok HDRBUF b' ∧ Buf.vis b' = Buf.vis b ++ frag.
Proof.
  intros Hg Hb Hl Hs Hn Hid. pose proof size_hdr. unfold append_headers.
  pose proof (Buf.oom_refused HDRBUF grant (len frag) b) as Hoom.
  destruct (Buf.ok_try_reserve HDRBUF grant (len frag) b Hb) as (r & b1 & Hr & Hb1 & Hv1 & Hc);
    [lia|apply size_usize; lia|].
  rewrite Hr in Hoom |- *. destruct Hc as [[-> Hsp]| ->].
  2: { destruct (Hoom eq_refl) as [k Hk]. by rewrite Hg in Hk. }
  destruct (Buf.ok_extend HDRBUF grant frag b1 Hb1) as (b2 & He & Hb2 & Hv2 & _);
    [by apply Hsp|by rewrite Hv1|].
  exists b2. split; [|split; [done|by rewrite Hv2, Hv1]].
  unfold with_stream. erewrite M_step_ok by reflexivity. erewrite M_step_ok by reflexivity. simpl.
  rewrite He, Hs, update_stream_last by done. unfold modify. simpl.
  by rewrite update_stream_last.
Qed.
(** The stream a HEADERS frame opens, with its block. *)
Definition opened (sid : Z) (block : list Z) (s : H2Stream.t) : Prop :=
  H2Stream.id s = sid ∧ H2Stream.headers_received s = true ∧
  Buf.ok HDRBUF (H2Stream.headers_data s) ∧ Buf.vis (H2Stream.headers_data s) = block.

(** What accepting the frame does to a connection that does not know the
    stream. *)
Definition accepted (sid : Z) (block : list Z) (end_stream : bool) (c c' : t) : Prop :=
  recv_buf c' = recv_buf c ∧ decoder c' = decoder c ∧ partial_data c' = partial_data c ∧
  (∃ s, streams c' = streams c ++ [s] ∧ opened sid block s) ∧
  ∃ evs, events c' = evs ++ EvHeaders sid :: (if end_stream then [Finished sid] else []).

Lemma recv_end_stream_opened sid block s :
  opened sid block s → opened sid block (H2Stream.recv_end_stream s).
Proof.
  intros (? & ? & ? & ?). unfold opened, H2Stream.recv_end_stream. simpl.
  by destruct (H2Stream.state s).
Qed.

Lemma wp_push_events sid (end_stream : bool) c (Q : unit → t → Prop) R :
  (∀ evs, Q tt (c <| events := evs ++ EvHeaders sid :: (if end_stream then [Finished sid] else []) |>)) →
  wp False (push_event (EvHeaders sid))
    (λ _, wp False (if end_stream then push_event (Finished sid) else mret tt) Q R) R c.
Proof.
  intros HQ. unfold push_event. wps. set (evs := if 64 <=? len (events c) then _ else _).
  destruct end_stream; wps; [|apply HQ]. cbn [events].
  specialize (HQ (if 64 <=? len (evs ++ [EvHeaders sid]) then tail evs else evs)). simpl.
  destruct (Z.leb_spec 64 (len (evs ++ [EvHeaders sid]))) as [Hl|_].
  - destruct evs as [|e evs]; [simpl in Hl; lia|]. simpl in *. by rewrite <- app_assoc.
  - by rewrite <- app_assoc.
Qed.

Lemma ensure_stream_new c sid :
  find_stream sid (streams c) = None → len (streams c) < MAX_STREAMS →
  ∃ s, ensure_stream MAX_STREAMS sid c = (Ok true, c <| streams := streams c ++ [s] |>) ∧
    H2Stream.id s = sid ∧ H2Stream.headers_data s = Buf.new.
Proof.
  intros Hn Hl. unfold ensure_stream, get_stream. erewrite M_step_ok by reflexivity.
  rewrite Hn, bool_decide_false by (by intros []).
  rewrite (proj2 (Z.leb_gt _ _)) by done. erewrite M_step_ok by reflexivity.
  erewrite M_step_ok by reflexivity. rewrite (proj2 (Z.leb_gt _ _)) by done. by eexists.
Qed.

Lemma accept_headers_eq c sid a e end_stream block :
  (∀ n, grant n = true) → Buf.ok BUF (recv_buf c) →
  find_stream sid (streams c) = None → len (streams c) < MAX_STREAMS →
  slice (E:=Error) (Buf.vis (recv_buf c)) a e = Ok block → len block ≤ HDRBUF →
  wp False (accept_headers grant MAX_STREAMS HDRBUF sid a e end_stream true)
    (λ _, accepted sid block end_stream c) (λ _ _, False) c.
Proof.
  intros Hg Hrb Hn Hmax Hsl Hl. pose proof size_hdr as Hhdr. unfold accept_headers. wps.
  set (c0 := c <| last_peer_stream_id := _ |>).
  destruct (ensure_stream_new c0 sid Hn Hmax) as (s & He & Hid & Hd). eapply wp_eq; [exact He|].
  simpl. unfold get_stream, with_stream, recv_slice. wps. simpl. rewrite find_stream_last by done. wps.
  simpl. rewrite update_stream_last by done.
  set (s1 := (H2Stream.open s) <| H2Stream.headers_data := _ |>).
  assert (H2Stream.id s1 = sid) as Hid1 by (subst s1; unfold H2Stream.open; simpl; by case_decide).
  eapply wp_lift_ok; [by apply (Buf.ok_as_slice BUF)|]. eapply wp_lift_ok; [exact Hsl|].
  destruct (Buf.ok_new HDRBUF) as [Hok Hv]; [lia|].
  destruct (Buf.ok_clear HDRBUF Buf.new) as [Hbc Hvc]; [lia|done|]. rewrite Hd. wps.
  match goal with |- wp _ _ _ _ ?st =>
    destruct (append_headers_eq st sid block (Buf.clear Buf.new) (streams c) s1 Hg Hbc)
      as (b' & Ha & Hb' & Hv') end; [by rewrite Hvc|by subst s1; rewrite Hd|done|done|].
  eapply wp_eq; [exact Ha|]. wps. simpl. rewrite update_stream_last by done.
  set (s2 := (if end_stream then _ else _) : H2Stream.t).
  assert (opened sid block s2) as Hop.
  { assert (opened sid block (s1 <| H2Stream.headers_data := b' |> <| H2Stream.headers_received := true |>)) as Ho.
    { split; [done|]. split; [done|]. split; [done|]. simpl. by rewrite Hv', Hvc. }
    subst s2. destruct end_stream; [by apply recv_end_stream_opened|exact Ho]. }
  clearbody s2. apply wp_push_events. intros evs. do 3 (split; [done|]). split; [by exists s2|by exists evs].
Qed.
(** A HEADERS frame in front of the input of a server. *)
Definition ready (c : t) : Prop :=
  Buf.ok BUF (recv_buf c) ∧ role c = Server ∧ partial_data c = None ∧ continuation_stream_id c = None.

Lemma headers_frame_flags sid hs end_stream :
  let fl := h_flags (frame_header (headers_frame sid hs end_stream)) in
  has fl FLAG_END_STREAM = end_stream ∧ has fl FLAG_END_HEADERS = true ∧
  has fl FLAG_PADDED = false ∧ has fl FLAG_PRIORITY = false.
Proof. by destruct end_stream. Qed.

Lemma recv_headers_frame_eq c sid hs end_stream rest :
  (∀ n, grant n = true) → ready c → 0 < sid → sid mod 2 = 1 →
  find_stream sid (streams c) = None → len (streams c) < MAX_STREAMS →
  len (Hpack.block_wire hs) ≤ HDRBUF →
  Buf.vis (recv_buf c) = frame_wire (headers_frame sid hs end_stream) ++ rest →
  wp False (recv_headers_frame grant MAX_STREAMS HDRBUF
      (h_flags (frame_header (headers_frame sid hs end_stream))) sid (len (Hpack.block_wire hs)))
    (λ f c', f = Stop ∧ accepted sid (Hpack.block_wire hs) end_stream c c') (λ _ _, False) c.
Proof.
  intros Hg (Hb & Hrole & _) Hsid Hodd Hn Hmax Hl Hv. unfold recv_headers_frame.
  destruct (headers_frame_flags sid hs end_stream) as (Hf1 & Hf2 & Hf3 & Hf4).
  rewrite (proj2 (Z.eqb_neq sid 0)) by lia. rewrite Hf1, Hf2. unfold headers_bounds. rewrite Hf3, Hf4. wps.
  unfold get_stream. rewrite Hn, bool_decide_false by (by intros []). simpl.
  unfold reaped. rewrite Hrole, Hodd, andb_false_r.
  assert (existsb (λ s, has_id sid s && bool_decide (H2Stream.state s = H2Stream.Closed)) (streams c) = false) as ->.
  { apply not_true_iff_false. intros (s & Hin & Hs)%existsb_exists. apply andb_true_iff in Hs as [Hs _].
    apply find_stream_none in Hn. apply Hn. apply list_elem_of_fmap. exists s. apply Z.eqb_eq in Hs.
    split; [done|]. by apply list_elem_of_In. }
  simpl. wps. eapply wp_mono; [apply (accept_headers_eq c sid _ _ end_stream (Hpack.block_wire hs)); [done..| |done]
    |intros [] c' Ha; wps; by split|done].
  rewrite Hv. unfold frame_wire.
  change (payload_wire _) with (Hpack.block_wire hs). rewrite <- app_assoc.
  pose proof (len_header_wire (frame_header (headers_frame sid hs end_stream))) as Hh. 
  pose proof (slice_middle (E:=Error) (header_wire (frame_header (headers_frame sid hs end_stream))) (Hpack.block_wire hs) rest) as Hs.
  rewrite Hh in Hs. by rewrite Hs.
Qed.

Lemma recv_step_headers c sid hs end_stream rest :
  (∀ n, grant n = true) → ready c → 0 < sid < 2 ^ 31 → sid mod 2 = 1 →
  find_stream sid (streams c) = None → len (streams c) < MAX_STREAMS →
  len (Hpack.block_wire hs) ≤ HDRBUF → len (Hpack.block_wire hs) < 2 ^ 24 →
  len (Hpack.block_wire hs) ≤ as_usize (H2Settings.max_frame_size (local_settings c)) →
  Buf.vis (recv_buf c) = frame_wire (headers_frame sid hs end_stream) ++ rest →
  wp False (recv_step grant MAX_STREAMS HDRBUF DATABUF BUF)
    (λ f c', f = Next ∧ Buf.ok BUF (recv_buf c') ∧ Buf.vis (recv_buf c') = rest ∧
       ∃ c1, accepted sid (Hpack.block_wire hs) end_stream c c1 ∧ c' = with_recv c1 (recv_buf c'))
    (λ _ _, False) c.
Proof.
  intros Hg Hr Hsid Hodd Hn Hmax Hl Hl24 Hmf Hv. pose proof Hr as (Hb & _ & Hp & Hc).
  set (hdr := frame_header (headers_frame sid hs end_stream)).
  assert (Buf.vis (recv_buf c) = header_wire hdr ++ (Hpack.block_wire hs ++ rest)) as Hv'.
  { rewrite Hv. unfold frame_wire. by rewrite <- app_assoc. }
  destruct (header_fields hdr (Hpack.block_wire hs ++ rest)) as (b0 & b1 & b2 & H0' & H1' & H2' & Hlen & H3' & H4' & H5');
    [simpl; unfold uint; lia|simpl; unfold uint; lia|]. rewrite <- Hv' in *.
  pose proof (len_header_wire hdr) as Hhl.
  unfold recv_step. wps. rewrite Hp. unfold recv_len. wps.
  eapply wp_lift_ok; [by apply (Buf.ok_blen BUF)|].
  rewrite (proj2 (Z.ltb_ge _ _)) by (rewrite Hv'; len_lia). unfold recv_one. wps.
  eapply wp_eq; [by apply recv_at_eq|]. wps. eapply wp_eq; [by apply recv_at_eq|]. wps.
  eapply wp_eq; [by apply recv_at_eq|]. wps. rewrite Hlen.
  assert (h_length hdr = len (Hpack.block_wire hs)) as -> by (simpl; lia).
  rewrite (proj2 (Z.ltb_ge _ _)) by done. wps.
  eapply wp_eq; [by apply recv_at_eq|]. wps. eapply wp_eq; [by apply recv_at_eq|]. wps.
  unfold recv_u31. wps. eapply wp_lift_ok; [by apply (Buf.ok_as_slice BUF)|].
  eapply wp_lift_ok; [exact H5'|]. rewrite Hc. simpl (h_frame_type hdr).
  pose proof (Buf.ok_bound _ _ Hb) as Hbd.
  assert (9 + len (Hpack.block_wire hs) ≤ len (Buf.vis (recv_buf c))) by (rewrite Hv'; len_lia).
  change (1 =? FRAME_DATA) with false. cbv iota.
  rewrite (proj2 (Z.ltb_ge _ _)) by lia. unfold recv_len. wps.
  eapply wp_lift_ok; [by apply (Buf.ok_blen BUF)|]. rewrite (proj2 (Z.ltb_ge _ _)) by lia.
  unfold recv_frame. wps.
  wp_use (recv_headers_frame_eq c sid hs end_stream rest); [done..|lia|done|done|done|done|done| |done].
  intros f c1 [-> Ha]. pose proof Ha as (Hrb & _). wps. 
  destruct (drain_recv_eq c1 (9 + len (Hpack.block_wire hs))) as (b & Hd & Hb' & Hvb); [by rewrite Hrb|rewrite Hrb; lia|].
  eapply wp_eq; [exact Hd|]. wps. split; [done|]. split; [done|]. split.
  - simpl. rewrite Hvb, Hrb, Hv', app_assoc. apply drop_app_length'. len_lia.
  - by exists c1.
Qed.
(** The whole receive pass over an input that holds just the frame. *)
Lemma process_recv_headers c sid hs end_stream :
  (∀ n, grant n = true) → ready c → preface_validated c = true → 0 < sid < 2 ^ 31 → sid mod 2 = 1 →
  find_stream sid (streams c) = None → len (streams c) < MAX_STREAMS →
  len (Hpack.block_wire hs) ≤ HDRBUF → len (Hpack.block_wire hs) < 2 ^ 24 →
  len (Hpack.block_wire hs) ≤ as_usize (H2Settings.max_frame_size (local_settings c)) →
  Buf.vis (recv_buf c) = frame_wire (headers_frame sid hs end_stream) →
  wp False (process_recv grant MAX_STREAMS HDRBUF DATABUF BUF)
    (λ _ c', Buf.vis (recv_buf c') = [] ∧ decoder c' = decoder c ∧ EvHeaders sid ∈ events c' ∧
       ∃ s, find_stream sid (streams c') = Some s ∧ opened sid (Hpack.block_wire hs) s)
    (λ _ _, False) c.
Proof.
  intros Hg Hr Hpv Hsid Hodd Hn Hmax Hl Hl24 Hmf Hv. pose proof Hr as (Hb & _ & Hp & _).
  unfold process_recv. wps. rewrite Hpv, andb_false_r. unfold recv_frames, recv_len. wps.
  eapply wp_lift_ok; [by apply (Buf.ok_blen BUF)|]. set (fuel := (2 * _ + 2)%nat).
  assert (∃ k, fuel = S k) as [k ->] by (exists (2 * Z.to_nat (recv_count c) + 1)%nat; lia).
  cbn [recv_loop]. wps.
  wp_use (recv_step_headers c sid hs end_stream []); [done..|by rewrite app_nil_r| |done].
  intros f c' (-> & Hb' & Hv' & c1 & (_ & Hdec & Hpd & (s & Hs & Ho) & (evs & He)) & ->).
  destruct k as [|k]; cbn [recv_loop]; unfold recv_step; wps; simpl in *; rewrite Hpd, Hp; unfold recv_len; wps;
    (eapply wp_lift_ok; [by apply (Buf.ok_blen BUF)|]); simpl; rewrite Hv'; wps; unfold sweep; wps; simpl.
  all: split; [done|]; split; [done|]; split; [change (EvHeaders sid ∈ events c1); rewrite He; set_solver|].
  all: exists s; split; [|done]; change (find_stream sid (List.filter retained (streams c1)) = Some s); rewrite Hs, List.filter_app; simpl.
  all: assert (retained s = true) as -> by (unfold retained; rewrite (proj1 (proj2 Ho)); by rewrite orb_true_r).
  all: apply find_stream_last; [|apply Ho].
  all: apply find_stream_none in Hn; unfold find_stream; apply eq_None_not_Some; intros [s' Hs'].
  all: apply find_some in Hs' as [Hin Hid]; apply Hn, list_elem_of_fmap; exists s'.
  all: split; [symmetry; by apply Z.eqb_eq|]; apply list_elem_of_In; by apply List.filter_In in Hin as [? _].
Qed.

(** Reading the headers of an opened stream. *)
Lemma recv_headers_opened c sid hs s :
  Forall Hpack.header_ok hs → find_stream sid (streams c) = Some s →
  opened sid (Hpack.block_wire hs) s →
  ∃ c', recv_headers sid c = (Ok hs, c') ∧ decoder c' = decoder c.
Proof.
  intros Hh Hf (_ & Hr & Hb & Hv). unfold recv_headers, get_stream. erewrite M_step_ok by reflexivity.
  rewrite Hf, Hr. cbn [negb]. rewrite (M_step_lift _ _ _ _ (Buf.ok_as_slice HDRBUF _ Hb)).
  erewrite M_step_ok.
  2: { unfold hpack_decode, Hpack.decode. rewrite Hv.
       rewrite (Hpack.decode_loop_wire (length (Hpack.block_wire hs)) [] hs) by (done || lia). reflexivity. }
  by eexists.
Qed.
End exchange.

(** ** Properties *)

(** C22: Headers reach the peer.  When a client in any reachable state sends
    headers on a stream, and the bytes that this appended to its output arrive
    at a server that does not know the stream, has room for it and allows a
    frame and a block of that size, then the server's receive pass consumes
    them all, reports the stream, and [recv_headers] returns exactly the headers
    the client passed, leaving the decoder's dynamic table as it was. *)
Theorem h2_headers_delivered `{Platform} `{Params} l client client' server sid hs end_stream :
  (∀ n, grant n = true) → Forall Hpack.header_ok hs → 0 < sid < 2 ^ 31 → sid mod 2 = 1 →
  Forall call_ok l → total_fed l ≤ LIMIT → run_calls l (new MAX_STREAMS DATABUF Client) = Some client →
  send_headers grant MAX_STREAMS BUF sid hs end_stream client = (Ok tt, client') →
  ready server → preface_validated server = true →
  find_stream sid (streams server) = None → len (streams server) < MAX_STREAMS →
  let sent := drop (length (Buf.vis (send_buf client))) (Buf.vis (send_buf client')) in
  len sent ≤ 9 + Z.min HDRBUF (Z.min (2 ^ 24 - 1) (as_usize (H2Settings.max_frame_size (local_settings server)))) →
  Buf.vis (recv_buf server) = sent →
  ∃ server' server'',
    process_recv grant MAX_STREAMS HDRBUF DATABUF BUF server = (Ok tt, server') ∧
    Buf.vis (recv_buf server') = [] ∧ EvHeaders sid ∈ events server' ∧
    recv_headers sid server' = (Ok hs, server'') ∧ decoder server'' = decoder server.
Proof.
  intros Hg Hh Hsid Hodd Hl HT Hrun Hsend Hr Hpv Hn Hmax sent Hlen Hv.
  pose proof (run_calls_inv l 0 _ client (conn_ok_new Client) Hl HT Hrun) as Hc.
  pose proof (wp_send_headers (X:=False) _ client sid hs end_stream Hc Hsid Hh) as Hw.
  unfold wp in Hw. rewrite Hsend in Hw. destruct Hw as [_ Hw].
  assert (sent = frame_wire (headers_frame sid hs end_stream)) as Hs
    by (subst sent; by rewrite Hw, drop_app_length).
  assert (len sent = 9 + len (Hpack.block_wire hs)) as Hls.
  { rewrite Hs. unfold frame_wire. rewrite length_app, Nat2Z.inj_add, len_header_wire. done. }
  assert (wp False _ _ _ server) as Hp
    by (apply (process_recv_headers server sid hs end_stream); try done; (lia || congruence)).
  unfold wp in Hp. destruct (process_recv _ _ _ _ _ server) as [[[]| |] server']; [|done..].
  destruct Hp as (? & Hdec & ? & s & Hf & Ho).
  destruct (recv_headers_opened server' sid hs s Hh Hf Ho) as (server'' & ? & Hd).
  exists server', server''. by rewrite Hd.
Qed.

(** Timeouts fire exactly at the announced deadline.  On a connection that is
    open, [handle_timeout] returns normally; it closes the connection, with a
    [Timeout] event last in the queue, exactly when [next_timeout] gives a
    deadline that is not after [now], where output queued since the last tick
    counts as activity at [now]; otherwise it changes nothing else.  On a closed
    connection it does nothing. *)
Theorem h2_timeout_deadline `{Platform} `{Params} T c now :
  conn_ok T c →
  let seen := if sent_since_tick c then c <| last_activity := now |> else c in
  let '(r, c') := handle_timeout grant BUF now c in
  r = Ok tt ∧
  if decide (state c = ConnClosed) then c' = c
  else match next_timeout seen with
       | Some deadline =>
           if decide (deadline ≤ now)
           then state c' = ConnClosed ∧ last (events c') = Some Timeout
           else c' = seen <| sent_since_tick := false |>
       | None => c' = seen <| sent_since_tick := false |>
       end.
Proof.
  intros Hc seen.
  set (c0 := seen <| sent_since_tick := false |>).
  assert (conn_ok T c0) as Hc0 by (subst c0 seen; destruct (sent_since_tick c); destruct Hc; by constructor).
  assert (wp False (time_out grant BUF) (λ _ c', state c' = ConnClosed ∧ last (events c') = Some Timeout)
    (λ _ _, False) c0) as Hto.
  { unfold time_out. wps. wp_use (wp_ignore (X:=False) (send_goaway grant BUF 0) T c0 c0);
      [by apply wp_send_goaway| |done]. intros _ c1 _. unfold push_event. wps. simpl.
    split; [done|]. apply last_snoc. }
  unfold wp in Hto. destruct (time_out grant BUF c0) as [[[]| |] c1] eqn:Hto1; try done.
  unfold handle_timeout. erewrite M_step_ok by reflexivity.
  destruct (decide (state c = ConnClosed)) as [Hs|Hs]; [by rewrite bool_decide_true by done|].
  rewrite bool_decide_false by done. rewrite (M_step_ok _ _ c tt c0) by reflexivity.
  erewrite M_step_ok by reflexivity. cbv beta zeta.
  assert (state seen = state c) as Hst by (subst seen; by destruct (sent_since_tick c)).
  unfold next_timeout. rewrite Hst, bool_decide_false by done.
  change (headers_phase_complete c0) with (headers_phase_complete seen).
  change (timeout_config c0) with (timeout_config seen).
  change (connection_start c0) with (connection_start seen).
  change (last_activity c0) with (last_activity seen).
  unfold earlier.
  destruct (headers_phase_complete seen), (header_timeout_us (timeout_config seen)), (idle_timeout_us (timeout_config seen));
    cbn [negb andb];
    repeat match goal with |- context [?d <=? now] => destruct (Z.leb_spec d now) end;
    rewrite ?Hto1; unfold mret, M_ret; cbn; (split; [done|]); try case_decide; done || lia.
Qed.

(** ** Sessions *)

#[local] Existing Instance platform64.
#[local] Existing Instance demo_params.

Definition demo_headers : list (list Z * list Z) :=
  [(bytes ":method", bytes "POST"); (bytes "x-trace", bytes "17")].
Definition demo_client : t := new MAX_STREAMS DATABUF Client.
(** A server after the preface, with the client's frame in its input. *)
Definition demo_server : t :=
  (new MAX_STREAMS DATABUF Server) <| preface_validated := true |>
    <| recv_buf := Buf.Mk (Buf.Heap (Vec (frame_wire (headers_frame 1 demo_headers true)) 1000)) 0 |>.

Lemma h2_headers_delivered_witness :
  ∃ server' server'',
    process_recv grant MAX_STREAMS HDRBUF DATABUF BUF demo_server = (Ok tt, server') ∧
    Buf.vis (recv_buf server') = [] ∧ EvHeaders 1 ∈ events server' ∧
    recv_headers 1 server' = (Ok demo_headers, server'') ∧ decoder server'' = decoder demo_server.
Proof.
  apply (h2_headers_delivered [] demo_client
    (send_headers grant MAX_STREAMS BUF 1 demo_headers true demo_client).2 demo_server 1 demo_headers true).
  - done.
  - repeat apply Forall_cons_2; try apply Forall_nil_2; by split.
  - lia.
  - done.
  - constructor.
  - vm_compute. discriminate.
  - reflexivity.
  - vm_compute. reflexivity.
  - split; [|done]. vm_compute. repeat split; discriminate.
  - done.
  - done.
  - vm_compute. reflexivity.
  - vm_compute. discriminate.
  - vm_compute. reflexivity.
Defined.

(** A header block that fits neither the scratch nor the send buffer damages
    the output.  [send_headers] reports [BufferTooSmall] but leaves the send
    buffer filled to its capacity with nine zero bytes and part of the block,
    which [poll_output] then hands to the transport as if they were frames. *)
Theorem h2_send_headers_corrupts :
  let big := [(bytes "x-big", replicate 1100 123)] in
  let '(r, c) := send_headers grant MAX_STREAMS BUF 1 big true demo_client in
  Buf.vis (send_buf demo_client) = [] ∧
  (∃ n, r = Err (BufferTooSmall n)) ∧ len (Buf.vis (send_buf c)) = 1000 ∧
  take 9 (Buf.vis (send_buf c)) = replicate 9 0 ∧
  match poll_output grant BUF 2000 c with
  | (Ok (Some out), _) => len out = 1000
  | _ => False
  end.
Proof. vm_compute. repeat split. by eexists. Qed.

(** Padding is not flow controlled.  After a DATA frame with one byte of data
    and 200 bytes of padding has been received and its body read, the
    connection counts and credits a single byte: the 201 bytes of pad length and
    padding that the peer charged to its window (RFC 9113, section 6.1: the
    whole payload counts) are never returned. *)
Theorem h2_padding_not_credited :
  let padded := header_wire {| h_length := 202; h_frame_type := FRAME_DATA; h_flags := FLAG_PADDED; h_stream_id := 1 |}
                ++ 200 :: 42 :: replicate 200 0 in
  match run_calls [FeedData (CONNECTION_PREFACE ++ frame_wire (Settings false [])
                     ++ frame_wire (headers_frame 1 demo_headers false) ++ padded)]
          (new MAX_STREAMS DATABUF Server) with
  | Some c =>
      FlowController.window (conn_recv_fc c) = 65534 ∧ pending_conn_credit c = 0 ∧
      match recv_body grant BUF 1 10 c with
      | (Ok (body, _), c') =>
          body = [42] ∧ FlowController.window (conn_recv_fc c') + pending_conn_credit c' = 65535 ∧
          Buf.vis (send_buf c') = Buf.vis (send_buf c)
            ++ frame_wire (WindowUpdate 0 1) ++ frame_wire (WindowUpdate 1 1)
      | _ => False
      end
  | None => False
  end.
Proof. vm_compute. repeat split. Qed.
