(* ===== verification/Http1Parse.v ===== *)
(** * HTTP/1.1 parser: [src/http1/parse.rs], helpers of [src/http1/connection.rs]

    Lines, header fields, chunk sizes.  The parsers work on slices and return
    offsets; they cannot panic, which their types show: the search functions
    return [option], the rest only chains them. *)
From stdpp Require Import strings.
From S2P Require Import Prelude Errors.

Module Parse.

(** [buf.starts_with(pat)]. *)
Definition starts_with (pat buf : list Z) : bool := bool_decide (take (length pat) buf = pat).

(** [buf.windows(pat.len()).position(|w| w == pat)]. *)
Fixpoint find_window (pat buf : list Z) : option nat :=
  if starts_with pat buf then Some O
  else match buf with [] => None | _ :: buf' => S <$> find_window pat buf' end.

Definition CRLF : list Z := [13; 10].

Definition find_end_of_headers (buf : list Z) : option Z :=
  i ← find_window (CRLF ++ CRLF) buf; Some (Z.of_nat i + 4).

Definition split_line (buf : list Z) : option (list Z * Z) :=
  e ← find_window CRLF buf; Some (take e buf, Z.of_nat e + 2).

Definition split_once (buf : list Z) (delim : Z) : option (list Z * list Z) :=
  i ← position (λ b, b =? delim) buf;
  Some (take i buf, drop (S i) buf).

Definition ows (b : Z) : bool := (b =? 32) || (b =? 9).

(** The two loops of [trim_ows], from the front and, on the reversed slice,
    from the back. *)
Fixpoint trim_front (buf : list Z) : list Z :=
  match buf with b :: rest => if ows b then trim_front rest else buf | [] => [] end.
Definition trim_ows (buf : list Z) : list Z := rev (trim_front (rev (trim_front buf))).

(** [n.checked_mul(base)?.checked_add(d)?] in [w] bits. *)
Definition push_digit (w base n d : Z) : option Z :=
  if decide (n * base < 2 ^ w) then
    if decide (n * base + d < 2 ^ w) then Some (n * base + d) else None
  else None.

(** [b.wrapping_sub(b'0')]. *)
Definition digit (b : Z) : Z := trunc 8 (b - 48).

(** The digit loops of [parse_decimal_u16] and [parse_usize_ascii]. *)
Fixpoint decimal_loop (w n : Z) (buf : list Z) : option Z :=
  match buf with
  | [] => Some n
  | b :: buf' =>
      let d := digit b in
      if 9 <? d then None else
      n ← push_digit w 10 n d; decimal_loop w n buf'
  end.
Definition parse_decimal_u16 (buf : list Z) : option Z := decimal_loop 16 0 buf.

Definition hex_digit (b : Z) : option Z :=
  if (48 <=? b) && (b <=? 57) then Some (b - 48)
  else if (97 <=? b) && (b <=? 102) then Some (b - 97 + 10)
  else if (65 <=? b) && (b <=? 70) then Some (b - 65 + 10)
  else None.

Section platform.
Context `{Platform}.

Fixpoint hex_loop (n : Z) (buf : list Z) : option Z :=
  match buf with
  | [] => Some n
  | b :: buf' => d ← hex_digit b; n ← push_digit usize_bits 16 n d; hex_loop n buf'
  end.
Definition parse_hex (buf : list Z) : option Z :=
  match buf with [] => None | _ => hex_loop 0 buf end.

Definition parse_usize_ascii (buf : list Z) : option Z :=
  match buf with [] => None | _ => decimal_loop usize_bits 0 buf end.

Definition parse_request_line (buf : list Z) : result (list Z * list Z * Z) :=
  '(line, consumed) ← ok_or WouldBlock (split_line buf);
  '(method, rest) ← ok_or InvalidState (split_once line 32);
  '(path, version) ← ok_or InvalidState (split_once rest 32);
  if (len method =? 0) || (len path =? 0) || negb (starts_with (bytes "HTTP/1.") version)
  then Err InvalidState
  else Ok (method, path, consumed).

Definition parse_status_line (buf : list Z) : result (Z * list Z * Z) :=
  '(line, consumed) ← ok_or WouldBlock (split_line buf);
  if negb (starts_with (bytes "HTTP/1.") line) then Err InvalidState else
  '(_, rest) ← ok_or InvalidState (split_once line 32);
  if len rest <? 3 then Err InvalidState else
  status ← ok_or InvalidState (parse_decimal_u16 (take 3 rest));
  if status <? 100 then Err InvalidState else
  let rest := drop 3 rest in
  let reason := if starts_with [32] rest then drop 1 rest else [] in
  Ok (status, reason, consumed).

(** [b < 0x20 && b != b'\t' || b == 0x7f]. *)
Definition control (b : Z) : bool := ((b <? 0x20) && negb (b =? 9)) || (b =? 0x7f).

Definition parse_header_line (buf : list Z) : result (list Z * list Z * Z) :=
  if starts_with CRLF buf then Ok ([], [], 2) else
  '(line, consumed) ← ok_or WouldBlock (split_line buf);
  '(name, value) ← ok_or InvalidState (split_once line 58);
  if len name =? 0 then Err InvalidState else
  if existsb ows name then Err InvalidState else
  let value := trim_ows value in
  if existsb control value then Err InvalidState else
  Ok (name, value, consumed).

(** [line.split(|b| b == ';' || b == ' ').next()]. *)
Fixpoint before_ext (line : list Z) : list Z :=
  match line with
  | b :: line' => if (b =? 59) || (b =? 32) then [] else b :: before_ext line'
  | [] => []
  end.

Definition parse_chunk_size (buf : list Z) : result (Z * Z) :=
  '(line, consumed) ← ok_or WouldBlock (split_line buf);
  size ← ok_or InvalidState (parse_hex (before_ext line));
  Ok (size, consumed).

End platform.

(** ** Helpers of the connection *)

(** [u8::to_ascii_lowercase]. *)
Definition lower (b : Z) : Z := if (65 <=? b) && (b <=? 90) then b + 32 else b.

Definition eq_ignore_case (a b : list Z) : bool :=
  if negb (len a =? len b) then false
  else forallb (λ p, lower p.1 =? lower p.2) (zip a b).

(** The loop over the starting positions [0..=haystack.len() - needle.len()]. *)
Fixpoint contains_from (haystack needle : list Z) (n : nat) : bool :=
  eq_ignore_case (take (length needle) haystack) needle
  || match n, haystack with S n, _ :: h => contains_from h needle n | _, _ => false end.
Definition contains_ignore_case (haystack needle : list Z) : bool :=
  if len haystack <? len needle then false
  else contains_from haystack needle (length haystack - length needle).

Definition status_reason (status : list Z) : list Z :=
  let table :=
    [("100", "Continue"); ("101", "Switching Protocols"); ("200", "OK"); ("201", "Created");
     ("204", "No Content"); ("301", "Moved Permanently"); ("302", "Found");
     ("304", "Not Modified"); ("307", "Temporary Redirect"); ("308", "Permanent Redirect");
     ("400", "Bad Request"); ("401", "Unauthorized"); ("403", "Forbidden"); ("404", "Not Found");
     ("405", "Method Not Allowed"); ("408", "Request Timeout"); ("413", "Payload Too Large");
     ("429", "Too Many Requests"); ("500", "Internal Server Error"); ("502", "Bad Gateway");
     ("503", "Service Unavailable")]%string in
  match List.find (λ p, bool_decide (bytes p.1 = status)) table with
  | Some p => bytes p.2
  | None => []
  end.

(** ** Searching *)

Lemma starts_with_app pat rest : starts_with pat (pat ++ rest) = true.
Proof. apply bool_decide_eq_true. by rewrite take_app_length. Qed.
Lemma starts_with_spec pat buf : starts_with pat buf = true ↔ ∃ rest, buf = pat ++ rest.
Proof.
  unfold starts_with. rewrite bool_decide_eq_true. split.
  - intros Hp. exists (drop (length pat) buf). rewrite <- Hp at 1. by rewrite take_drop.
  - intros [rest ->]. by rewrite take_app_length.
Qed.

(** The window found is there, within the buffer. *)
Lemma find_window_spec pat buf i :
  find_window pat buf = Some i → ∃ rest, buf = take i buf ++ pat ++ rest ∧ (i + length pat ≤ length buf)%nat.
Proof.
  revert i. induction buf as [|b buf IH]; intros i; cbn [find_window].
  - destruct (starts_with pat []) eqn:Hs; [|done]. intros [= <-].
    apply starts_with_spec in Hs as [rest Hr]. exists rest. split; [done|].
    destruct pat; [simpl; lia|done].
  - destruct (starts_with pat (b :: buf)) eqn:Hs.
    + intros [= <-]. apply starts_with_spec in Hs as [rest Hr]. exists rest. rewrite Hr. simpl.
      split; [done|]. rewrite length_app. lia.
    + destruct (find_window pat buf) as [j|] eqn:Hf; [|done]. intros [= <-].
      destruct (IH j eq_refl) as (rest & Hb & Hl). exists rest. simpl. split; [by rewrite <- Hb|lia].
Qed.

Lemma find_end_bounds buf e : find_end_of_headers buf = Some e → 4 ≤ e ≤ len buf.
Proof.
  unfold find_end_of_headers. destruct (find_window _ buf) as [i|] eqn:Hf; simpl; [|done].
  intros [= <-]. apply find_window_spec in Hf as (_ & _ & Hl). simpl in Hl. lia.
Qed.

Lemma split_line_bounds buf line consumed :
  split_line buf = Some (line, consumed) → consumed = len line + 2 ∧ consumed ≤ len buf.
Proof.
  unfold split_line. destruct (find_window _ buf) as [i|] eqn:Hf; simpl; [|done].
  intros [= <- <-]. apply find_window_spec in Hf as (_ & _ & Hl). simpl in Hl.
  rewrite length_take. lia.
Qed.

(** A line without CR ends at its CR LF. *)
Lemma find_crlf line rest :
  Forall (λ b, b ≠ 13) line → find_window CRLF (line ++ CRLF ++ rest) = Some (length line).
Proof.
  induction 1 as [|b line Hb _ IH]; cbn [app find_window].
  - by change (13 :: 10 :: rest) with (CRLF ++ rest).
  - destruct (starts_with CRLF (b :: line ++ CRLF ++ rest)) eqn:Hs.
    + apply starts_with_spec in Hs as [r Hr]. by injection Hr.
    + rewrite IH. done.
Qed.
Lemma split_line_crlf line rest :
  Forall (λ b, b ≠ 13) line → split_line (line ++ CRLF ++ rest) = Some (line, len line + 2).
Proof. intros Hl. unfold split_line. rewrite (find_crlf _ rest Hl). simpl. by rewrite take_app_length. Qed.

(** Every parser is total and consumes a line within the slice. *)
Definition line_parsed {A} (buf : list Z) (r : result (A * Z)) : Prop :=
  match r with
  | Ok (_, consumed) => 2 ≤ consumed ≤ len buf
  | Err e => e = WouldBlock ∨ e = InvalidState
  | Panic => False
  end.

Section platform.
Context `{Platform}.

Ltac walk :=
  simpl; repeat (match goal with
  | |- context [split_once ?l ?d] => destruct (split_once l d) as [[? ?]|]
  | |- context [if ?b then _ else _] => destruct b
  end; simpl); (tauto || lia).

Lemma request_line_parsed buf : line_parsed buf (parse_request_line buf).
Proof.
  unfold parse_request_line. destruct (split_line buf) as [[line consumed]|] eqn:Hl; [|simpl; tauto].
  apply split_line_bounds in Hl. walk.
Qed.
Lemma header_line_parsed buf : line_parsed buf (parse_header_line buf).
Proof.
  unfold parse_header_line. destruct (starts_with CRLF buf) eqn:Hs.
  - apply starts_with_spec in Hs as [rest ->]. simpl. lia.
  - destruct (split_line buf) as [[line consumed]|] eqn:Hl; [|simpl; tauto].
    apply split_line_bounds in Hl. walk.
Qed.
Lemma chunk_size_parsed buf : line_parsed buf (parse_chunk_size buf).
Proof.
  unfold parse_chunk_size. destruct (split_line buf) as [[line consumed]|] eqn:Hl; [|simpl; tauto].
  apply split_line_bounds in Hl. simpl. destruct (parse_hex _); simpl; [lia|tauto].
Qed.

Lemma decimal_loop_bound w n buf v :
  decimal_loop w n buf = Some v → 0 ≤ n → 0 ≤ v < (n + 1) * 10 ^ len buf.
Proof.
  revert n. induction buf as [|b buf IH]; intros n; cbn [decimal_loop].
  - intros [= <-]. simpl. lia.
  - destruct (Z.ltb_spec 9 (digit b)) as [|Hd]; [done|]. unfold push_digit.
    pose proof (trunc_range 8 (b - 48) ltac:(lia)) as Hr. fold (digit b) in Hr.
    case_decide; [|done]. case_decide; [|done]. simpl. intros Hl Hn. apply IH in Hl; [|unfold uint in Hr; lia].
    cbn [length]. rewrite Nat2Z.inj_succ, Z.pow_succ_r by lia. nia.
Qed.

Lemma status_line_parsed buf :
  line_parsed buf (parse_status_line buf) ∧
  ∀ status reason consumed, parse_status_line buf = Ok (status, reason, consumed) → 100 ≤ status < 1000.
Proof.
  unfold parse_status_line. destruct (split_line buf) as [[line consumed]|] eqn:Hl; [|simpl; split; [tauto|done]].
  apply split_line_bounds in Hl. simpl. destruct (negb _); [split; [simpl; tauto|done]|].
  destruct (split_once line 32) as [[v rest]|]; simpl; [|split; [tauto|done]].
  destruct (Z.ltb_spec (len rest) 3); [split; [simpl; tauto|done]|].
  destruct (parse_decimal_u16 (take 3 rest)) as [status|] eqn:Hs; simpl; [|split; [tauto|done]].
  destruct (Z.ltb_spec status 100); [split; [simpl; tauto|done]|]. split; [simpl; lia|].
  intros ? ? ? [= -> _ _]. apply decimal_loop_bound in Hs; [|lia].
  assert (len (take 3 rest) = 3) as Hl3 by (rewrite length_take; lia). rewrite Hl3 in Hs. lia.
Qed.

End platform.

End Parse.
