(* ===== verification/Http1Connection.v ===== *)
(** * HTTP/1.1 connection: [src/http1/connection.rs], [src/http1/io.rs]

    The message state machine over the parser and the byte queues: start line
    and headers, the three body framings, keep-alive, and the text encoder.  The
    borrowed I/O buffers of [Http1Io] are fields of the state. *)
From stdpp Require Import strings.
From S2P Require Import Prelude Errors Varint Cursor Buf Http Http1Parse.

Module Http1.
Import Parse.

Definition SHRINK_RETAIN : Z := 2048.

Inductive Http1Event : Type :=
| Connected
| Headers (sid : Z)
| Data (sid : Z)
| Finished (sid : Z)
| Timeout.
Global Instance http1_event_eq_dec : EqDecision Http1Event.
Proof. solve_decision. Defined.

Inductive Role : Type := Client | Server.
Global Instance http1_role_eq_dec : EqDecision Role.
Proof. solve_decision. Defined.

Inductive ParseState : Type :=
| Idle
| BodyContentLength (remaining : Z)
| BodyChunked
| BodyUntilClose
| Done.

Inductive ChunkState : Type :=
| Size
| ChunkData (remaining : Z)
| DataTrailer
| Trailers.

(** [Http1Connection], and the buffers of [Http1Io]. *)
Record t := Mk {
  role : Role;
  state : ParseState;
  send_offset : Z;
  header_buf : Buf.t;
  headers_available : bool;
  data_buf : Buf.t;
  events : list Http1Event;
  current_stream_id : Z;
  chunk_state : ChunkState;
  keep_alive : bool;
  body_finished : bool;
  body_parked : bool;
  connected_emitted : bool;
  timeout_config : TimeoutConfig;
  last_activity : Z;
  sent_since_tick : bool;
  connection_start : Z;
  headers_phase_complete : bool;
  closed : bool;
  recv_buf : Buf.t;
  send_buf : Buf.t
}.
Global Instance eta_http1 : Eta t := λ c,
  Mk (role c) (state c) (send_offset c) (header_buf c) (headers_available c) (data_buf c)
     (events c) (current_stream_id c) (chunk_state c) (keep_alive c) (body_finished c)
     (body_parked c) (connected_emitted c) (timeout_config c) (last_activity c)
     (sent_since_tick c) (connection_start c) (headers_phase_complete c) (closed c)
     (recv_buf c) (send_buf c).

Section Http1.
Context `{Platform}.
Variable grant : Z → bool.
Variables HDRBUF DATABUF BUF : Z.

Definition new (r : Role) : t := {|
  role := r;
  state := Idle;
  send_offset := 0;
  header_buf := Buf.new;
  headers_available := false;
  data_buf := Buf.new;
  events := [];
  current_stream_id := 0;
  chunk_state := Size;
  keep_alive := true;
  body_finished := false;
  body_parked := false;
  connected_emitted := false;
  timeout_config := {| idle_timeout_us := None; header_timeout_us := None |};
  last_activity := 0;
  sent_since_tick := false;
  connection_start := 0;
  headers_phase_complete := false;
  closed := false;
  recv_buf := Buf.new;
  send_buf := Buf.new
|}.

(** ** Buffers and events *)

Definition recv_len : M Error t Z := c ← get; lift (Buf.blen (recv_buf c)).
Definition recv_bytes : M Error t (list Z) := c ← get; lift (Buf.as_slice (recv_buf c)).
(** [&io.recv_buf[a..b]]. *)
Definition recv_slice (a b : Z) : M Error t (list Z) := v ← recv_bytes; lift (slice v a b).

Definition drain_recv (n : Z) : M Error t unit :=
  c ← get;
  b1 ← lift (Buf.with_mut_slice (λ s, copy_within s n (len s) 0) (recv_buf c));
  l ← lift (Buf.blen b1);
  l' ← lift (usub l n);
  b2 ← lift (Buf.truncate l' b1);
  modify (λ c, c <| recv_buf := b2 |>).

Definition reserve_send (n : Z) : M Error t unit := λ c,
  let '(r, b) := Buf.buf_try_reserve BUF grant n (send_buf c) in (r, c <| send_buf := b |>).
(** [let _ = self.send_buf.extend_from_slice(data)]. *)
Definition extend_send (data : list Z) : M Error t unit := λ c,
  match Buf.extend_from_slice BUF grant data (send_buf c) with
  | Ok b => (Ok tt, c <| send_buf := b |>)
  | Err _ => (Ok tt, c)
  | Panic => (Panic, c)
  end.

Definition queue_send (data : list Z) : M Error t unit :=
  c ← get;
  l ← lift (Buf.blen (send_buf c));
  if BUF <? l + len data then throw (BufferTooSmall (l + len data)) else
  _ ← reserve_send (len data);
  extend_send data.

(** [let _ = self.events.push_back(e)]: the deque holds 32 events and drops the
    new one when it is full. *)
Definition push_event (e : Http1Event) : M Error t unit :=
  modify (λ c, c <| events := push_capped 32 (events c) e |>).

Definition poll_event : M Error t (option Http1Event) :=
  c ← get;
  if negb (connected_emitted c) then
    _ ← modify (λ c, c <| connected_emitted := true |>); mret (Some Connected)
  else
    match events c with
    | [] => mret None
    | e :: evs => _ ← modify (λ c, c <| events := evs |>); mret (Some e)
    end.

(** The chunk copied out to the caller's buffer of [cap] bytes. *)
Definition poll_output (cap : Z) : M Error t (option (list Z)) :=
  c ← get;
  l ← lift (Buf.blen (send_buf c));
  if l <=? send_offset c then mret None else
  avail ← lift (usub l (send_offset c));
  let n := Z.min avail cap in
  v ← lift (Buf.as_slice (send_buf c));
  d ← lift (slice v (send_offset c) (send_offset c + n));
  _ ← modify (λ c, c <| send_offset := send_offset c + n |>);
  c ← get;
  _ ← (if l <=? send_offset c then
         b ← lift (Buf.shrink_to grant SHRINK_RETAIN (Buf.clear (send_buf c)));
         modify (λ c, c <| send_buf := b |> <| send_offset := 0 |>)
       else mret tt);
  mret (Some d).

(** ** Encoding *)

Definition check_stream_id (sid : Z) : M Error t unit :=
  c ← get; if negb (sid =? current_stream_id c) then throw InvalidState else mret tt.

(** The value of the last header with a name, as the loops over the
    pseudo-headers leave it. *)
Definition last_value (name : list Z) (default : list Z) (headers : list (list Z * list Z)) : list Z :=
  fold_left (λ acc h, if decide (h.1 = name) then h.2 else acc) headers default.

Fixpoint queue_headers (headers : list (list Z * list Z)) : M Error t unit :=
  match headers with
  | [] => mret tt
  | (name, value) :: hs =>
      if starts_with (bytes ":") name then queue_headers hs else
      _ ← queue_send name; _ ← queue_send (bytes ": "); _ ← queue_send value; _ ← queue_send CRLF;
      queue_headers hs
  end.

Definition encode_request (headers : list (list Z * list Z)) : M Error t unit :=
  let method := last_value (bytes ":method") (bytes "GET") headers in
  let path := last_value (bytes ":path") (bytes "/") headers in
  let host := last_value (bytes ":authority") [] headers in
  _ ← queue_send method; _ ← queue_send (bytes " "); _ ← queue_send path;
  _ ← queue_send (bytes " HTTP/1.1" ++ CRLF);
  _ ← (if negb (len host =? 0) then
         _ ← queue_send (bytes "Host: "); _ ← queue_send host; queue_send CRLF
       else mret tt);
  _ ← queue_headers headers;
  queue_send CRLF.

Definition encode_response (headers : list (list Z * list Z)) : M Error t unit :=
  let status := last_value (bytes ":status") (bytes "200") headers in
  let reason := status_reason status in
  _ ← queue_send (bytes "HTTP/1.1 "); _ ← queue_send status; _ ← queue_send (bytes " ");
  _ ← queue_send reason; _ ← queue_send CRLF;
  _ ← queue_headers headers;
  queue_send CRLF.

Definition send_headers (sid : Z) (headers : list (list Z * list Z)) : M Error t unit :=
  _ ← check_stream_id sid;
  c ← get;
  _ ← match role c with
      | Client => encode_request headers
      | Server => encode_response headers
      end;
  modify (λ c, c <| sent_since_tick := true |>).

Definition send_data (sid : Z) (data : list Z) : M Error t Z :=
  _ ← check_stream_id sid;
  _ ← queue_send data;
  _ ← (if negb (len data =? 0) then modify (λ c, c <| sent_since_tick := true |>) else mret tt);
  mret (len data).

Definition open_stream (headers : list (list Z * list Z)) : M Error t Z :=
  c ← get;
  sid ← lift (uadd 64 (current_stream_id c) 1);
  _ ← modify (λ c, c <| current_stream_id := sid |>);
  _ ← send_headers sid headers;
  mret sid.

(** ** Storing and reading headers *)

(** [let _ = self.header_buf.extend_from_slice(data)]. *)
Definition extend_header (data : list Z) : M Error t unit := λ c,
  match Buf.extend_from_slice HDRBUF grant data (header_buf c) with
  | Ok b => (Ok tt, c <| header_buf := b |>)
  | Err _ => (Ok tt, c)
  | Panic => (Panic, c)
  end.

Definition store_header_kv (name value : list Z) : M Error t unit :=
  let needed := len name + 1 + len value + 1 in
  c ← get;
  l ← lift (Buf.blen (header_buf c));
  if HDRBUF <? l + needed then throw (BufferTooSmall needed) else
  _ ← (λ c, let '(r, b) := Buf.buf_try_reserve HDRBUF grant needed (header_buf c) in
            (r, c <| header_buf := b |>)) : M Error t unit;
  _ ← extend_header name; _ ← extend_header [0]; _ ← extend_header value; extend_header [0].

Definition store_header (method path : list Z) : M Error t unit :=
  _ ← store_header_kv (bytes ":method") method;
  store_header_kv (bytes ":path") path.

(** The loop of [recv_headers]; every iteration moves past at least one
    separator. *)
Fixpoint emit_headers (fuel : nat) (buf : list Z) (pos : Z) : result (list (list Z * list Z)) :=
  if pos <? len buf then
    match fuel with
    | O => Panic
    | S fuel =>
        rest ← slice_from buf pos;
        let name_end := match position (λ b, b =? 0) rest with
                        | Some i => pos + Z.of_nat i | None => len buf end in
        if len buf <=? name_end then Ok [] else
        name ← slice buf pos name_end;
        let value_start := name_end + 1 in
        rest ← slice_from buf value_start;
        let value_end := match position (λ b, b =? 0) rest with
                         | Some i => value_start + Z.of_nat i | None => len buf end in
        value ← slice buf value_start value_end;
        hs ← emit_headers fuel buf (value_end + 1);
        Ok ((name, value) :: hs)
    end
  else Ok [].

(** The headers passed to the callback. *)
Definition recv_headers (sid : Z) : M Error t (list (list Z * list Z)) :=
  _ ← check_stream_id sid;
  c ← get;
  if negb (headers_available c) then throw WouldBlock else
  buf ← lift (Buf.as_slice (header_buf c));
  hs ← lift (emit_headers (length buf) buf 0);
  _ ← modify (λ c, c <| header_buf := Buf.clear (header_buf c) |> <| headers_available := false |>);
  mret hs.

(** The bytes copied to the caller's buffer of [cap] bytes, and whether the body
    is complete. *)
Definition recv_body (sid cap : Z) : M Error t (list Z * bool) :=
  _ ← check_stream_id sid;
  c ← get;
  l ← lift (Buf.blen (data_buf c));
  if l =? 0 then
    if body_finished c then mret ([], true) else throw WouldBlock
  else
    let copy_len := Z.min l cap in
    v ← lift (Buf.as_slice (data_buf c));
    out ← lift (slice v 0 copy_len);
    b1 ← lift (Buf.with_mut_slice (λ s, copy_within s copy_len (len s) 0) (data_buf c));
    l1 ← lift (Buf.blen b1);
    l2 ← lift (usub l1 copy_len);
    b2 ← lift (Buf.truncate l2 b1);
    _ ← modify (λ c, c <| data_buf := b2 |>);
    left ← lift (Buf.blen b2);
    mret (out, (left =? 0) && body_finished c).

(** ** Receiving *)

(** What the header loop collects. *)
Record framing := Framing { content_length : option Z; chunked : bool; connection_close : bool }.

(** One field: its effect on the framing. *)
Definition note_field (name value : list Z) (f : framing) : framing :=
  if eq_ignore_case name (bytes "content-length") then
    Framing (parse_usize_ascii value) (chunked f) (connection_close f)
  else if eq_ignore_case name (bytes "transfer-encoding") then
    if contains_ignore_case value (bytes "chunked")
    then Framing (content_length f) true (connection_close f) else f
  else if eq_ignore_case name (bytes "connection") && contains_ignore_case value (bytes "close")
  then Framing (content_length f) (chunked f) true
  else f.

(** The header loop; every field takes at least two bytes. *)
Fixpoint parse_headers (fuel : nat) (offset e : Z) (f : framing) : M Error t framing :=
  line ← recv_slice offset e;
  '(name, value, consumed) ← lift (parse_header_line line);
  let offset := offset + consumed in
  if len name =? 0 then mret f else
  if existsb (λ b, b =? 0) name || existsb (λ b, b =? 0) value then throw InvalidState else
  _ ← store_header_kv name value;
  match fuel with
  | O => lift Panic
  | S fuel => parse_headers fuel offset e (note_field name value f)
  end.

(** The start line, stored as pseudo-headers; the offset behind it. *)
Definition parse_start (e : Z) : M Error t Z :=
  c ← get;
  line ← recv_slice 0 e;
  match role c with
  | Server =>
      '(method, path, consumed) ← lift (parse_request_line line);
      _ ← store_header method path;
      mret consumed
  | Client =>
      '(status, _, consumed) ← lift (parse_status_line line);
      status_bytes ← lift (StatusCode.to_bytes status);
      _ ← store_header_kv (bytes ":status") status_bytes;
      mret consumed
  end.

(** The body framing of the message and its events. *)
Definition set_framing (f : framing) : M Error t unit :=
  _ ← modify (λ c, c <| headers_available := true |> <| keep_alive := negb (connection_close f) |>);
  _ ← modify (λ c,
        if chunked f then c <| state := BodyChunked |> <| chunk_state := Size |>
        else match content_length f with
             | Some l =>
                 if l =? 0 then c <| state := Done |> <| body_finished := true |>
                 else c <| state := BodyContentLength l |>
             | None =>
                 match role c with
                 | Server => c <| state := Done |> <| body_finished := true |>
                 | Client => c <| state := BodyUntilClose |>
                 end
             end);
  _ ← modify (λ c, c <| headers_phase_complete := true |>);
  c ← get;
  _ ← match role c with
      | Server =>
          sid ← lift (uadd 64 (current_stream_id c) 1);
          _ ← modify (λ c, c <| current_stream_id := sid |>);
          push_event (Headers sid)
      | Client => push_event (Headers (current_stream_id c))
      end;
  c ← get;
  if body_finished c then push_event (Finished (current_stream_id c)) else mret tt.

Definition try_parse_start_line : M Error t bool :=
  buf ← recv_bytes;
  match find_end_of_headers buf with
  | None => mret false
  | Some e =>
      _ ← modify (λ c, c <| header_buf := Buf.clear (header_buf c) |> <| headers_available := false |>);
      offset ← parse_start e;
      f ← parse_headers (Z.to_nat e) offset e (Framing None false false);
      if chunked f && bool_decide (is_Some (content_length f)) then throw InvalidState else
      _ ← drain_recv e;
      _ ← set_framing f;
      mret true
  end.

(** [self.data_buf.buf_try_reserve(n)], and the append of the first [n] received
    bytes that follows it. *)
Definition reserve_data (n : Z) : M Error t unit := λ c,
  let '(r, b) := Buf.buf_try_reserve DATABUF grant n (data_buf c) in (r, c <| data_buf := b |>).
Definition append_data (d : list Z) : M Error t unit := λ c,
  match Buf.extend_from_slice DATABUF grant d (data_buf c) with
  | Ok b => (Ok tt, c <| data_buf := b |>)
  | Err _ => (Ok tt, c)
  | Panic => (Panic, c)
  end.
Definition extend_data (n : Z) : M Error t unit := d ← recv_slice 0 n; append_data d.

(** [m.is_err()]: the effects stay, a panic is a panic. *)
Definition is_err {A} (m : M Error t A) : M Error t bool := λ c,
  match m c with
  | (Ok _, c') => (Ok false, c')
  | (Err _, c') => (Ok true, c')
  | (Panic, c') => (Panic, c')
  end.

(** The part the two counted framings share: body bytes from [recv_buf] to
    [data_buf].  What remains of the count, or [None] for [Ok(false)]. *)
Definition take_body (remaining : Z) : M Error t (option Z) :=
  l ← recv_len;
  if l =? 0 then mret None else
  let to_consume := Z.min l remaining in
  c ← get;
  dl ← lift (Buf.blen (data_buf c));
  room ← lift (usub DATABUF dl);
  let can_store := Z.min room to_consume in
  if 0 <? can_store then
    refused ← is_err (reserve_data can_store);
    if (refused : bool) then _ ← modify (λ c, c <| body_parked := true |>); mret None else
    _ ← extend_data can_store;
    _ ← drain_recv can_store;
    new_remaining ← lift (usub remaining can_store);
    _ ← modify (λ c, c <| body_parked := can_store <? to_consume |>);
    c ← get;
    _ ← push_event (Data (current_stream_id c));
    mret (Some new_remaining)
  else _ ← modify (λ c, c <| body_parked := true |>); mret None.

Definition finish_body : M Error t unit :=
  _ ← modify (λ c, c <| body_finished := true |> <| state := Done |>);
  c ← get;
  push_event (Finished (current_stream_id c)).

Definition process_content_length_body (remaining : Z) : M Error t bool :=
  o ← take_body remaining;
  match o with
  | None => mret false
  | Some new_remaining =>
      _ ← (if new_remaining =? 0 then finish_body
           else modify (λ c, c <| state := BodyContentLength new_remaining |>));
      mret true
  end.

(** [io.recv_buf[0] == b'\r' && io.recv_buf[1] == b'\n']. *)
Definition at_crlf : M Error t bool :=
  v ← recv_bytes;
  b0 ← lift (idx v 0);
  if b0 =? 13 then b1 ← lift (idx v 1); mret (b1 =? 10) else mret false.

Definition process_chunked_body : M Error t bool :=
  c ← get;
  match chunk_state c with
  | Size =>
      v ← recv_bytes;
      match parse_chunk_size v with
      | Ok (size, consumed) =>
          _ ← drain_recv consumed;
          _ ← modify (λ c, c <| chunk_state := if size =? 0 then Trailers else ChunkData size |>);
          mret true
      | Err WouldBlock => mret false
      | Err e => throw e
      | Panic => lift Panic
      end
  | ChunkData remaining =>
      o ← take_body remaining;
      match o with
      | None => mret false
      | Some new_remaining =>
          _ ← modify (λ c, c <| chunk_state :=
                if new_remaining =? 0 then DataTrailer else ChunkData new_remaining |>);
          mret true
      end
  | DataTrailer =>
      l ← recv_len;
      if l <? 2 then mret false else
      crlf ← at_crlf;
      if (crlf : bool) then
        _ ← drain_recv 2; _ ← modify (λ c, c <| chunk_state := Size |>); mret true
      else throw InvalidState
  | Trailers =>
      l ← recv_len;
      if l <? 2 then mret false else
      crlf ← at_crlf;
      if (crlf : bool) then _ ← drain_recv 2; _ ← finish_body; mret true
      else
        v ← recv_bytes;
        '(_, _, consumed) ← lift (parse_header_line v);
        _ ← drain_recv consumed;
        mret true
  end.

Definition process_until_close_body : M Error t unit :=
  l ← recv_len;
  if l =? 0 then mret tt else
  c ← get;
  dl ← lift (Buf.blen (data_buf c));
  room ← lift (usub DATABUF dl);
  let n := Z.min l room in
  refused ← (
    if 0 <? n then
      refused ← is_err (reserve_data n);
      if (refused : bool) then mret true else
      _ ← extend_data n;
      _ ← drain_recv n;
      c ← get;
      _ ← push_event (Data (current_stream_id c));
      mret false
    else mret false);
  if (refused : bool) then modify (λ c, c <| body_parked := true |>) else
  l ← recv_len;
  modify (λ c, c <| body_parked := negb (l =? 0) |>).

(** The reset between two messages of a keep-alive connection. *)
Definition next_message : M Error t bool :=
  c ← get;
  dl ← lift (Buf.blen (data_buf c));
  if headers_available c || negb (dl =? 0) then mret false else
  _ ← modify (λ c,
        c <| body_finished := false |> <| chunk_state := Size |>
          <| headers_phase_complete := false |> <| connection_start := last_activity c |>
          <| state := Idle |>);
  c ← get;
  hb ← lift (Buf.shrink_to grant SHRINK_RETAIN (header_buf c));
  _ ← modify (λ c, c <| header_buf := hb |>);
  db ← lift (Buf.shrink_to grant SHRINK_RETAIN (data_buf c));
  _ ← modify (λ c, c <| data_buf := db |>);
  rb ← lift (Buf.shrink_to grant SHRINK_RETAIN (recv_buf c));
  _ ← modify (λ c, c <| recv_buf := rb |>);
  mret true.

(** One iteration; [false] returns from [process_recv]. *)
Definition recv_step : M Error t bool :=
  c ← get;
  match state c with
  | Idle => try_parse_start_line
  | BodyContentLength remaining => process_content_length_body remaining
  | BodyChunked => process_chunked_body
  | BodyUntilClose => _ ← process_until_close_body; mret false
  | Done => next_message
  end.

(** Every iteration that goes on takes received bytes, except the reset between
    two messages. *)
Fixpoint recv_loop (fuel : nat) : M Error t unit :=
  go ← recv_step;
  if (go : bool) then match fuel with O => lift Panic | S fuel => recv_loop fuel end
  else mret tt.

Definition process_recv : M Error t unit :=
  l ← recv_len; recv_loop (2 * Z.to_nat l + 2).

Definition feed_data (data : list Z) : M Error t unit :=
  l ← recv_len;
  if BUF <? l + len data then throw (BufferTooSmall (l + len data)) else
  _ ← (λ c, let '(r, b) := Buf.buf_try_reserve BUF grant (len data) (recv_buf c) in
            (r, c <| recv_buf := b |>)) : M Error t unit;
  _ ← (λ c, match Buf.extend_from_slice BUF grant data (recv_buf c) with
            | Ok b => (Ok tt, c <| recv_buf := b |>)
            | Err _ => (Ok tt, c)
            | Panic => (Panic, c)
            end) : M Error t unit;
  process_recv.

(** ** Timeouts and connection state *)

Definition set_timeouts (config : TimeoutConfig) (now : Z) (c : t) : t :=
  c <| timeout_config := config |> <| last_activity := now |> <| connection_start := now |>.

Definition next_timeout (c : t) : option Z :=
  if closed c then None else
  let earliest := None in
  let earliest :=
    if negb (headers_phase_complete c) then
      match header_timeout_us (timeout_config c) with
      | Some hdr_us => earlier earliest (sat_add64 (connection_start c) hdr_us)
      | None => earliest
      end
    else earliest in
  match idle_timeout_us (timeout_config c) with
  | Some idle_us => earlier earliest (sat_add64 (last_activity c) idle_us)
  | None => earliest
  end.

(** Both timeouts end the connection the same way. *)
Definition time_out : M Error t unit :=
  _ ← modify (λ c, c <| closed := true |>); push_event Timeout.

Definition handle_timeout (now : Z) : M Error t unit :=
  c ← get;
  if closed c then mret tt else
  _ ← modify (λ c,
        (if sent_since_tick c then c <| last_activity := now |> else c)
        <| sent_since_tick := false |>);
  c ← get;
  let header_expired :=
    negb (headers_phase_complete c) &&
    match header_timeout_us (timeout_config c) with
    | Some hdr_us => sat_add64 (connection_start c) hdr_us <=? now
    | None => false
    end in
  if header_expired then time_out else
  match idle_timeout_us (timeout_config c) with
  | Some idle_us =>
      if sat_add64 (last_activity c) idle_us <=? now then time_out else mret tt
  | None => mret tt
  end.

Definition feed_data_timed (data : list Z) (now : Z) : M Error t unit :=
  _ ← (if len data =? 0 then mret tt else modify (λ c, c <| last_activity := now |>));
  feed_data data.

Definition note_recv_activity (now : Z) (c : t) : t := c <| last_activity := now |>.
Definition is_closed (c : t) : bool := closed c.
Definition is_established (c : t) : bool := negb (closed c).

End Http1.
End Http1.
