(* ===== verification/Http1Inv.v ===== *)
(** * Invariant of the HTTP/1.1 connection

    Sound buffers, a bounded event queue and a stream counter that received
    bytes pay for; every operation of the interface keeps it, whatever the peer
    sends, and none panics. *)
From stdpp Require Import strings.
From S2P Require Import Prelude Errors Hoare Varint Cursor Buf Http Http1Parse Http1Connection.
Import Parse Http1.

(** What a connection is instantiated with: the allocator and the const
    parameters, which stay below a gigabyte. *)
Class Sizes := {
  grant : Z → bool;
  HDRBUF : Z;
  DATABUF : Z;
  BUF : Z;
  hdr_size : 0 ≤ HDRBUF < LIMIT;
  data_size : 0 ≤ DATABUF < LIMIT;
  buf_size : 0 ≤ BUF < LIMIT
}.

(** A small connection, for examples. *)
Definition demo_sizes : Sizes.
Proof.
  refine {| grant := λ _, true; HDRBUF := 256; DATABUF := 64; BUF := 512 |}; unfold LIMIT; lia.
Defined.

Abbreviation received c := (Buf.vis (recv_buf c)).
Abbreviation sent c := (Buf.vis (send_buf c)).
Abbreviation stored c := (Buf.vis (header_buf c)).
Abbreviation body c := (Buf.vis (data_buf c)).

Section inv.
Context `{Platform} `{Sizes}.

(** [K] bounds the messages seen: every message of the peer takes bytes. *)
Record inv (K : Z) (c : t) : Prop := {
  inv_hdr : Buf.ok HDRBUF (header_buf c);
  inv_data : Buf.ok DATABUF (data_buf c);
  inv_recv : Buf.ok BUF (recv_buf c);
  inv_send : Buf.ok BUF (send_buf c) ∧ 0 ≤ send_offset c ≤ len (sent c);
  inv_events : len (events c) ≤ 32;
  inv_sid : 0 ≤ current_stream_id c ∧ current_stream_id c + len (received c) ≤ K
}.

(** Buffers before and after a call. *)
Definition with_send (c : t) (b : Buf.t) : t := c <| send_buf := b |>.
Definition with_recv (c : t) (b : Buf.t) : t := c <| recv_buf := b |>.
Definition with_header (c : t) (b : Buf.t) : t := c <| header_buf := b |>.
Definition with_data (c : t) (b : Buf.t) : t := c <| data_buf := b |>.

Lemma h1_inv_with_send K c b :
  inv K c → Buf.ok BUF b → len (sent c) ≤ len (Buf.vis b) → inv K (with_send c b).
Proof. intros [] ? ?. constructor; simpl; try done. split; [done|lia]. Qed.
Lemma inv_with_header K c b : inv K c → Buf.ok HDRBUF b → inv K (with_header c b).
Proof. intros [] ?. by constructor. Qed.
Lemma inv_with_data K c b : inv K c → Buf.ok DATABUF b → inv K (with_data c b).
Proof. intros [] ?. by constructor. Qed.

(** ** Buffers *)

Lemma h1_queue_send_cases c d :
  Buf.ok BUF (send_buf c) →
  ∃ r b, queue_send grant BUF d c = (r, with_send c b) ∧ Buf.ok BUF b ∧
    ((r = Ok tt ∧ Buf.vis b = sent c ++ d) ∨
     ((∃ e, r = Err e ∧ (e = OutOfMemory → ∃ n, grant n = false)) ∧ Buf.vis b = sent c ∧
      (BUF < len (sent c) + len d ∨ r = Err OutOfMemory))).
Proof.
  intros Hok. unfold queue_send. erewrite M_step_ok by reflexivity.
  rewrite (M_step_lift _ _ _ _ (Buf.ok_blen BUF _ Hok)).
  destruct (Z.ltb_spec BUF (len (sent c) + len d)) as [Hlt|Hge].
  { do 2 eexists. split; [unfold throw; f_equal; by instantiate (1 := send_buf c); destruct c|].
    split; [done|]. right. split; [by eexists|]. split; [done|by left]. }
  pose proof buf_size. unfold mbind, M_bind, reserve_send.
  pose proof (Buf.oom_refused BUF grant (len d) (send_buf c)) as Hoom.
  destruct (Buf.ok_try_reserve BUF grant (len d) (send_buf c) Hok) as (r & b & Hr & Hb & Hv & Hc);
    [lia|apply size_usize; lia|]. rewrite Hr in *.
  destruct Hc as [[-> Hsp]| ->].
  - unfold extend_send. simpl.
    destruct (Buf.ok_extend BUF grant d b Hb) as (b' & -> & Hb' & Hv' & _);
      [apply Hsp; lia|rewrite Hv; lia|].
    exists (Ok tt), b'. split; [done|]. split; [done|]. left. by rewrite Hv', Hv.
  - exists (Err OutOfMemory), b. split; [done|]. split; [done|]. right.
    split; [exists OutOfMemory; split; [done|intros _; by apply Hoom]|]. split; [done|by right].
Qed.

Lemma h1_drain_recv_eq c n :
  Buf.ok BUF (recv_buf c) → 0 ≤ n ≤ len (received c) →
  ∃ b, drain_recv n c = (Ok tt, with_recv c b) ∧ Buf.ok BUF b ∧ Buf.vis b = drop (Z.to_nat n) (received c).
Proof.
  intros Hok Hn. unfold drain_recv.
  destruct (Buf.ok_drain (E:=Error) BUF n (recv_buf c) Hok Hn) as (b1 & b2 & Hw & Hl & Ht & ? & ?).
  exists b2. split; [|done]. erewrite M_step_ok by reflexivity. rewrite (M_step_lift _ _ _ _ Hw).
  rewrite (M_step_lift _ _ _ _ Hl). erewrite M_step_lift by (apply usub_ok; lia).
  by rewrite (M_step_lift _ _ _ _ Ht).
Qed.

Lemma recv_bytes_eq c : Buf.ok BUF (recv_buf c) → recv_bytes c = (Ok (received c), c).
Proof.
  intros Hb. unfold recv_bytes. erewrite M_step_ok by reflexivity. unfold lift.
  by rewrite (Buf.ok_as_slice BUF _ Hb).
Qed.
Lemma recv_slice_eq c a b :
  Buf.ok BUF (recv_buf c) → 0 ≤ a ≤ b → b ≤ len (received c) →
  recv_slice a b c = (Ok (take (Z.to_nat (b - a)) (drop (Z.to_nat a) (received c))), c).
Proof.
  intros Hb Ha Hl. unfold recv_slice. rewrite (M_step_ok _ _ _ _ _ (recv_bytes_eq c Hb)).
  unfold lift. by rewrite slice_eq.
Qed.

Lemma extend_header_eq c d :
  Buf.ok HDRBUF (header_buf c) → Buf.spare (header_buf c) (len d) → len (stored c) + len d ≤ HDRBUF →
  ∃ b, extend_header grant HDRBUF d c = (Ok tt, with_header c b) ∧ Buf.ok HDRBUF b ∧
    Buf.vis b = stored c ++ d ∧ ∀ n, Buf.spare (header_buf c) n → Buf.spare b (n - len d).
Proof.
  intros Hb Hs Hl. unfold extend_header.
  destruct (Buf.ok_extend HDRBUF grant d (header_buf c) Hb Hs Hl) as (b & -> & ?). by exists b.
Qed.

(** The entry of a header in [header_buf]. *)
Definition entry (h : list Z * list Z) : list Z := h.1 ++ [0] ++ h.2 ++ [0].

Lemma store_header_kv_cases c name value :
  Buf.ok HDRBUF (header_buf c) →
  ∃ r b, store_header_kv grant HDRBUF name value c = (r, with_header c b) ∧ Buf.ok HDRBUF b ∧
    ((r = Ok tt ∧ Buf.vis b = stored c ++ entry (name, value)) ∨
     ((∃ e, r = Err e ∧ (e = OutOfMemory → ∃ n, grant n = false)) ∧ Buf.vis b = stored c ∧
      (HDRBUF < len (stored c) + len (entry (name, value)) ∨ r = Err OutOfMemory))).
Proof.
  intros Hok. unfold store_header_kv. cbv zeta. erewrite M_step_ok by reflexivity.
  rewrite (M_step_lift _ _ _ _ (Buf.ok_blen HDRBUF _ Hok)).
  set (needed := len name + 1 + len value + 1).
  assert (len (entry (name, value)) = needed) as Hen by (unfold entry, needed; simpl; len_lia).
  destruct (Z.ltb_spec HDRBUF (len (stored c) + needed)) as [Hlt|Hge].
  { do 2 eexists. split; [unfold throw; f_equal; by instantiate (1 := header_buf c); destruct c|].
    split; [done|]. right. split; [by eexists|]. split; [done|left; lia]. }
  pose proof hdr_size. unfold mbind at 1, M_bind at 1.
  pose proof (Buf.oom_refused HDRBUF grant needed (header_buf c)) as Hoom.
  destruct (Buf.ok_try_reserve HDRBUF grant needed (header_buf c) Hok) as (r & b & Hr & Hb & Hv & Hc);
    [lia|apply size_usize; lia|]. rewrite Hr in *.
  destruct Hc as [[-> Hsp]| ->].
  2: { exists (Err OutOfMemory), b. split; [done|]. split; [done|]. right.
       split; [exists OutOfMemory; split; [done|intros _; by apply Hoom]|]. split; [done|by right]. }
  specialize (Hsp ltac:(lia)). subst needed.
  destruct (extend_header_eq (with_header c b) name) as (b1 & E1 & Hb1 & Hv1 & Hs1);
    [done|eapply Buf.spare_le; [exact Hsp|lia]|simpl; rewrite Hv; lia|].
  simpl in Hv1, Hs1. specialize (Hs1 _ Hsp). rewrite Hv in Hv1.
  destruct (extend_header_eq (with_header c b1) [0]) as (b2 & E2 & Hb2 & Hv2 & Hs2);
    [done|eapply Buf.spare_le; [exact Hs1|simpl; lia]|simpl; rewrite Hv1; len_lia|].
  simpl in Hv2, Hs2. specialize (Hs2 _ Hs1). rewrite Hv1 in Hv2.
  destruct (extend_header_eq (with_header c b2) value) as (b3 & E3 & Hb3 & Hv3 & Hs3);
    [done|eapply Buf.spare_le; [exact Hs2|simpl; lia]|simpl; rewrite Hv2; len_lia|].
  simpl in Hv3, Hs3. specialize (Hs3 _ Hs2). rewrite Hv2 in Hv3.
  destruct (extend_header_eq (with_header c b3) [0]) as (b4 & E4 & Hb4 & Hv4 & _);
    [done|eapply Buf.spare_le; [exact Hs3|simpl; lia]|simpl; rewrite Hv3; len_lia|].
  exists (Ok tt), b4. rewrite (M_step_ok _ _ _ _ _ E1), (M_step_ok _ _ _ _ _ E2), (M_step_ok _ _ _ _ _ E3).
  split; [exact E4|]. split; [done|]. left. split; [done|]. simpl in Hv4. rewrite Hv4, Hv3.
  unfold entry. simpl. by rewrite <- !app_assoc.
Qed.

(** ** Sending and storing keep the invariant *)

(** The received bytes and the message counter are left alone. *)
Definition calm (K : Z) (c c' : t) : Prop :=
  inv K c' ∧ recv_buf c' = recv_buf c ∧ current_stream_id c' = current_stream_id c.
Lemma calm_refl K c : inv K c → calm K c c.
Proof. by split. Qed.
Lemma calm_trans K c1 c2 c3 : calm K c1 c2 → calm K c2 c3 → calm K c1 c3.
Proof. intros (? & Hr & Hs) (? & Hr' & Hs'). split; [done|]. by rewrite Hr', Hs'. Qed.

Abbreviation quiet m K c := (wp False m (λ _, calm K c) (λ _, calm K c) c).

Lemma quiet_bind {A B} (m : M Error t A) (f : A → M Error t B) K c :
  quiet m K c → (∀ a c', calm K c c' → quiet (f a) K c') → quiet (m ≫= f) K c.
Proof.
  intros Hm Hf. wps. wp_use Hm; [|done]. intros a c' Hc'.
  wp_use (Hf a c' Hc'); intros; by eapply calm_trans.
Qed.

Lemma quiet_ret {A} (a : A) K c : inv K c → quiet (mret a : M Error t A) K c.
Proof. intros. wps. by apply calm_refl. Qed.

Lemma h1_wp_queue_send K c d : inv K c → quiet (queue_send grant BUF d) K c.
Proof.
  intros Hi. destruct (h1_queue_send_cases c d (proj1 (inv_send _ _ Hi))) as (r & b & Hq & Hb & Hc).
  assert (calm K c (with_send c b)) as Hcalm.
  { split; [|done]. apply h1_inv_with_send; [done..|]. destruct Hc as [[_ ->]|(_ & -> & _)]; len_lia. }
  unfold wp. rewrite Hq. by destruct Hc as [[-> _]|((e & -> & _) & _)].
Qed.
Lemma wp_store_header_kv K c name value : inv K c → quiet (store_header_kv grant HDRBUF name value) K c.
Proof.
  intros Hi. destruct (store_header_kv_cases c name value (inv_hdr _ _ Hi)) as (r & b & Hq & Hb & Hc).
  assert (calm K c (with_header c b)) by (split; [by apply inv_with_header|done]).
  unfold wp. rewrite Hq. by destruct Hc as [[-> _]|((e & -> & _) & _)].
Qed.

(** A sequence of calls that keep it. *)
Ltac quiets :=
  repeat match goal with
  | H : calm ?K _ ?c |- quiet _ ?K ?c => apply proj1 in H
  | |- quiet (_ ≫= _) _ _ => apply quiet_bind; [|intros ? ? ?]
  | |- quiet (mret _) _ _ => by apply quiet_ret
  | |- quiet (queue_send _ _ _) _ _ => by apply h1_wp_queue_send
  | |- quiet (store_header_kv _ _ _ _) _ _ => by apply wp_store_header_kv
  end.

Lemma wp_queue_headers K hs c : inv K c → quiet (queue_headers grant BUF hs) K c.
Proof.
  revert c. induction hs as [|[name value] hs IH]; intros c Hi; cbn [queue_headers]; [by quiets|].
  destruct (starts_with _ _); [by apply IH|]. quiets. by apply IH.
Qed.
Lemma wp_encode_request K hs c : inv K c → quiet (encode_request grant BUF hs) K c.
Proof.
  intros Hi. unfold encode_request. cbv zeta. quiets; [|by apply wp_queue_headers].
  destruct (negb _); quiets.
Qed.
Lemma wp_encode_response K hs c : inv K c → quiet (encode_response grant BUF hs) K c.
Proof. intros Hi. unfold encode_response. cbv zeta. quiets. by apply wp_queue_headers. Qed.

Lemma wp_check_stream_id K c sid : inv K c → quiet (check_stream_id sid) K c.
Proof. intros Hi. unfold check_stream_id. wps. case_match; wps; by apply calm_refl. Qed.

(** A change of fields the invariant does not mention. *)
Lemma wp_flags K c f :
  inv K c → (∀ c, inv K c → calm K c (f c)) → quiet (modify f : M Error t unit) K c.
Proof. intros Hi Hf. wps. by apply Hf. Qed.

Lemma h1_wp_send_headers K c sid hs : inv K c → quiet (send_headers grant BUF sid hs) K c.
Proof.
  intros Hi. unfold send_headers. apply quiet_bind; [by apply wp_check_stream_id|].
  intros [] c1 Hc1. apply quiet_bind; [wps; by apply calm_refl, Hc1|].
  intros cc c1' Hc1'. apply quiet_bind.
  - destruct (role cc); [by apply wp_encode_request, Hc1'|by apply wp_encode_response, Hc1'].
  - intros _ c2 Hc2. apply wp_flags; [apply Hc2|]. intros ? []. split; [by constructor|done].
Qed.

Lemma h1_wp_send_data K c sid d : inv K c → quiet (send_data grant BUF sid d) K c.
Proof.
  intros Hi. unfold send_data. apply quiet_bind; [by apply wp_check_stream_id|]. intros [] c1 Hc1.
  apply quiet_bind; [apply h1_wp_queue_send, Hc1|]. intros [] c2 Hc2.
  apply quiet_bind; [|intros; apply quiet_ret; by match goal with H : calm _ _ _ |- _ => apply H end].
  case_match; [|by apply quiet_ret, Hc2]. apply wp_flags; [apply Hc2|].
  intros ? []. split; [by constructor|done].
Qed.

Lemma h1_wp_open_stream K c hs :
  inv K c → K < LIMIT →
  wp False (open_stream grant BUF hs) (λ _, inv (K + 1)) (λ _, inv (K + 1)) c.
Proof.
  intros Hi HK. unfold open_stream. wps. pose proof (inv_sid _ _ Hi) as [Hs0 Hs1].
  eapply wp_lift_ok; [apply uadd_ok; unfold LIMIT in *; lia|]. wps.
  set (c0 := c <| current_stream_id := _ |>).
  assert (inv (K + 1) c0) as Hi0 by (destruct Hi; constructor; simpl; try done; lia).
  wp_use (h1_wp_send_headers (K + 1) c0 (current_stream_id c + 1) hs Hi0); [|intros _ c' []; done].
  intros _ c' [? _]. by wps.
Qed.

(** ** Reading *)

Lemma emit_headers_total fuel buf pos :
  0 ≤ pos → len buf - pos ≤ Z.of_nat fuel → ∃ hs, emit_headers fuel buf pos = Ok hs.
Proof.
  revert pos. induction fuel as [|fuel IH]; intros pos Hp Hf; cbn [emit_headers];
    destruct (Z.ltb_spec pos (len buf)) as [Hlt|]; try (by eexists); [lia|].
  unfold slice_from. rewrite slice_eq by lia. cbn [mbind res_bind].
  set (rest := take _ _). assert (len rest = len buf - pos) as Hlr by (subst rest; len_lia).
  destruct (position _ rest) as [i|] eqn:Hi; cbv zeta.
  - apply position_lt in Hi. rewrite (proj2 (Z.leb_gt _ _)) by lia.
    rewrite (slice_eq buf (pos + Z.of_nat i + 1) (len buf)), (slice_eq buf pos) by lia. cbn [mbind res_bind].
    set (rest2 := take _ (drop (Z.to_nat (pos + Z.of_nat i + 1)) buf)).
    assert (len rest2 = len buf - (pos + Z.of_nat i + 1)) as Hl2 by (subst rest2; len_lia).
    destruct (position _ rest2) as [j|] eqn:Hj.
    + apply position_lt in Hj. rewrite slice_eq by lia. cbn [mbind res_bind].
      destruct (IH (pos + Z.of_nat i + 1 + Z.of_nat j + 1)) as [hs ->]; [lia..|]. by eexists.
    + rewrite slice_eq by lia. cbn [mbind res_bind].
      destruct (IH (len buf + 1)) as [hs ->]; [lia..|]. by eexists.
  - rewrite (proj2 (Z.leb_le _ _)) by lia. by eexists.
Qed.

Lemma h1_wp_recv_headers K c sid : inv K c → quiet (recv_headers sid) K c.
Proof.
  intros Hi. unfold recv_headers. apply quiet_bind; [by apply wp_check_stream_id|]. intros [] c1 [Hc1 _].
  wps. destruct (headers_available c1); simpl; [|wps; by apply calm_refl]. wps.
  eapply wp_lift_ok; [by apply (Buf.ok_as_slice HDRBUF), Hc1|].
  destruct (emit_headers_total (length (stored c1)) (stored c1) 0) as [hs Hhs]; [lia..|].
  wps. eapply wp_lift_ok; [exact Hhs|]. wps. split; [|done]. pose proof hdr_size.
  destruct (Buf.ok_clear HDRBUF (header_buf c1)) as [? _]; [lia|apply Hc1|]. destruct Hc1; by constructor.
Qed.

(** Reading takes a prefix of the buffered body. *)
Lemma h1_wp_recv_body K c sid cap :
  inv K c → 0 ≤ cap →
  wp False (recv_body sid cap)
    (λ r c', inv K c' ∧ (∃ b, c' = with_data c b) ∧ body c = r.1 ++ body c' ∧ len r.1 = Z.min (len (body c)) cap ∧
             r.2 = (len (body c') =? 0) && body_finished c)
    (λ e c', c' = c ∧ (e = InvalidState ∧ sid ≠ current_stream_id c ∨ e = WouldBlock ∧ body c = [] ∧ body_finished c = false)) c.
Proof.
  intros Hi Hcap. unfold recv_body, check_stream_id. wps.
  destruct (Z.eqb_spec sid (current_stream_id c)); cbn [negb]; wps; [|tauto]. pose proof (inv_data _ _ Hi) as Hd.
  eapply wp_lift_ok; [by apply (Buf.ok_blen DATABUF)|].
  destruct (Z.eqb_spec (len (body c)) 0) as [Hz|Hnz].
  { assert (body c = []) as He by (by destruct (body c)). rewrite He.
    destruct (body_finished c) eqn:Hf; wps; [|tauto]. rewrite He.
    split; [done|]. split; [exists (data_buf c); by destruct c|]. split; [done|]. simpl. split; [lia|done]. }
  set (n := Z.min _ cap). assert (0 ≤ n ≤ len (body c)) as Hn by (subst n; lia). wps.
  eapply wp_lift_ok; [by apply (Buf.ok_as_slice DATABUF)|]. wps.
  eapply wp_lift_ok; [apply slice_eq; lia|]. wps.
  destruct (Buf.ok_drain (E:=Error) DATABUF n (data_buf c) Hd Hn) as (b1 & b2 & Hw & Hl & Ht & Hb2 & Hv2).
  eapply wp_lift_ok; [exact Hw|]. wps. eapply wp_lift_ok; [exact Hl|]. wps.
  eapply wp_lift_ok; [apply usub_ok; lia|]. wps. eapply wp_lift_ok; [exact Ht|]. wps.
  eapply wp_lift_ok; [by apply (Buf.ok_blen DATABUF)|]. wps. simpl.
  split; [by apply (inv_with_data K c b2)|]. split; [by exists b2|]. rewrite Hv2, Z.sub_0_r. simpl.
  split; [by rewrite take_drop|]. split; [len_lia|done].
Qed.

End inv.
