(* ===== verification/Http1Body.v ===== *)
(** * HTTP/1.1 body framing

    The reference decoder of a message body ([deframe]): what the bytes that
    follow the headers mean under Content-Length or chunked framing, with no
    buffers and no network in between; and the encoder of chunked bodies whose
    inverse it is. *)
From stdpp Require Import strings.
From S2P Require Import Prelude Errors Http1Parse.
Import Parse.

(** ** Parsers and longer input *)

Lemma find_window_more pat buf i l :
  find_window pat buf = Some i → find_window pat (buf ++ l) = Some i.
Proof.
  revert i. induction buf as [|b buf IH]; intros i; cbn [find_window].
  - destruct (starts_with pat []) eqn:Hs; [|done]. intros [= <-].
    apply starts_with_spec in Hs as [rest Hr]. destruct pat; [|done].
    destruct l; done.
  - destruct (starts_with pat (b :: buf)) eqn:Hs.
    + intros [= <-]. apply starts_with_spec in Hs as [rest Hr].
      cbn [app find_window]. change (b :: buf ++ l) with ((b :: buf) ++ l).
      by rewrite Hr, <- app_assoc, starts_with_app.
    + destruct (find_window pat buf) as [j|] eqn:Hf; [|done]. intros [= <-].
      cbn [app find_window]. rewrite (IH j eq_refl).
      destruct (starts_with pat (b :: buf ++ l)) eqn:Hs'; [|done]. exfalso.
      apply find_window_spec in Hf as (rest & Hb & Hl).
      apply starts_with_spec in Hs' as [r' Hr']. unfold starts_with in Hs.
      rewrite bool_decide_eq_false in Hs. apply Hs.
      change (b :: buf ++ l) with ((b :: buf) ++ l) in Hr'.
      apply (f_equal (take (length pat))) in Hr'. rewrite take_app_length in Hr'.
      rewrite take_app_le in Hr' by (simpl; lia). done.
Qed.

Lemma split_line_more buf line consumed l :
  split_line buf = Some (line, consumed) → split_line (buf ++ l) = Some (line, consumed).
Proof.
  unfold split_line. destruct (find_window CRLF buf) as [i|] eqn:Hf; simpl; [|done].
  rewrite (find_window_more _ _ _ l Hf). simpl. intros [= <- <-].
  apply find_window_spec in Hf as (_ & _ & Hl). by rewrite take_app_le by lia.
Qed.

Section body.
Context `{Platform}.

Lemma chunk_size_more buf r l :
  parse_chunk_size buf = Ok r → parse_chunk_size (buf ++ l) = Ok r.
Proof.
  unfold parse_chunk_size. destruct (split_line buf) as [[line consumed]|] eqn:Hl; simpl; [|done].
  by rewrite (split_line_more _ _ _ l Hl).
Qed.

Lemma header_line_more buf r l :
  parse_header_line buf = Ok r → parse_header_line (buf ++ l) = Ok r.
Proof.
  unfold parse_header_line. destruct (starts_with CRLF buf) eqn:Hs.
  - apply starts_with_spec in Hs as [rest ->]. by rewrite <- app_assoc, starts_with_app.
  - destruct (split_line buf) as [[line consumed]|] eqn:Hl; simpl; [|done].
    rewrite (split_line_more _ _ _ l Hl). simpl.
    assert (starts_with CRLF (buf ++ l) = false) as ->; [|done].
    apply split_line_bounds in Hl as [-> Hl]. unfold starts_with in *. simpl length in *.
    by rewrite take_app_le by lia.
Qed.

(** A line is parsed the same with nothing behind it. *)
Lemma find_window_take pat buf i n :
  find_window pat buf = Some i → (i + length pat ≤ n)%nat → find_window pat (take n buf) = Some i.
Proof.
  revert i n. induction buf as [|b buf IH]; intros i n; cbn [find_window]; [by rewrite take_nil|].
  destruct (starts_with pat (b :: buf)) eqn:Hs.
  - intros [= <-] Hn. assert (starts_with pat (take n (b :: buf)) = true) as Hs'.
    { unfold starts_with in *. rewrite take_take, Nat.min_l by (simpl in Hn; lia). done. }
    destruct (take n (b :: buf)); cbn [find_window]; by rewrite Hs'.
  - destruct (find_window pat buf) as [j|] eqn:Hf; [|done]. intros [= <-] Hn.
    destruct n as [|n]; [lia|]. cbn [take find_window].
    change (b :: take n buf) with (take (S n) (b :: buf)).
    assert (starts_with pat (take (S n) (b :: buf)) = false) as ->.
    { unfold starts_with in *. rewrite take_take, Nat.min_l by lia. done. }
    by rewrite (IH j n eq_refl ltac:(lia)).
Qed.
Lemma split_line_take buf line consumed :
  split_line buf = Some (line, consumed) → split_line (take (Z.to_nat consumed) buf) = Some (line, consumed).
Proof.
  unfold split_line. destruct (find_window CRLF buf) as [i|] eqn:Hf; simpl; [|done].
  intros [= <- <-]. rewrite (find_window_take _ _ _ _ Hf) by (simpl; lia). simpl.
  rewrite take_take. by rewrite Nat.min_l by lia.
Qed.
Lemma chunk_size_line buf size consumed :
  parse_chunk_size buf = Ok (size, consumed) →
  parse_chunk_size (take (Z.to_nat consumed) buf) = Ok (size, consumed).
Proof.
  unfold parse_chunk_size. destruct (split_line buf) as [[line c]|] eqn:Hl; simpl; [|done].
  destruct (parse_hex _) eqn:Hh; simpl; [|done]. intros [= <- <-].
  rewrite (split_line_take _ _ _ Hl). simpl. by rewrite Hh.
Qed.
Lemma header_line_line buf name value consumed r :
  starts_with CRLF buf = false → parse_header_line buf = Ok (name, value, consumed) →
  r = Ok (name, value, consumed) → parse_header_line (take (Z.to_nat consumed) buf) = r.
Proof.
  unfold parse_header_line. intros Hs. rewrite Hs.
  destruct (split_line buf) as [[line c]|] eqn:Hl; simpl; [|done].
  pose proof (split_line_bounds _ _ _ Hl) as [Hc _].
  destruct (split_once line 58) as [[n v]|] eqn:Ho; simpl; [|done].
  intros Hp ->. assert (c = consumed) as <-.
  { repeat case_match; by simplify_eq. }
  assert (starts_with CRLF (take (Z.to_nat c) buf) = false) as ->.
  { unfold starts_with in *. rewrite take_take, Nat.min_l by (simpl; lia). done. }
  rewrite (split_line_take _ _ _ Hl). simpl. by rewrite Ho.
Qed.

(** ** The reference decoder *)

Inductive bstate : Type :=
| Counted (remaining : Z)
| ChunkLine
| InChunk (remaining : Z)
| ChunkEnd
| Trailing
| Complete
| Broken.

(** The body bytes, the state reached and the bytes not consumed. *)
Fixpoint deframe_loop (fuel : nat) (st : bstate) (l : list Z) : list Z * bstate * list Z :=
  match fuel with
  | O => ([], st, l)
  | S fuel =>
      match st with
      | Counted r =>
          if r <=? len l then (take (Z.to_nat r) l, Complete, drop (Z.to_nat r) l)
          else (l, Counted (r - len l), [])
      | ChunkLine =>
          match parse_chunk_size l with
          | Ok (size, consumed) =>
              deframe_loop fuel (if size =? 0 then Trailing else InChunk size) (drop (Z.to_nat consumed) l)
          | Err WouldBlock => ([], ChunkLine, l)
          | _ => ([], Broken, l)
          end
      | InChunk r =>
          if r <=? len l then
            let '(out, st', rest) := deframe_loop fuel ChunkEnd (drop (Z.to_nat r) l) in
            (take (Z.to_nat r) l ++ out, st', rest)
          else (l, InChunk (r - len l), [])
      | ChunkEnd =>
          if len l <? 2 then ([], ChunkEnd, l)
          else if starts_with CRLF l then deframe_loop fuel ChunkLine (drop 2 l)
          else ([], Broken, l)
      | Trailing =>
          if len l <? 2 then ([], Trailing, l)
          else if starts_with CRLF l then ([], Complete, drop 2 l)
          else match parse_header_line l with
               | Ok (_, _, consumed) => deframe_loop fuel Trailing (drop (Z.to_nat consumed) l)
               | Err WouldBlock => ([], Trailing, l)
               | _ => ([], Broken, l)
               end
      | Complete | Broken => ([], st, l)
      end
  end.
(** Every continuing step takes at least a byte. *)
Definition deframe (st : bstate) (l : list Z) : list Z * bstate * list Z :=
  deframe_loop (S (length l)) st l.

(** Counts in progress are positive. *)
Definition bstate_ok (st : bstate) : Prop :=
  match st with Counted r | InChunk r => 0 < r | _ => True end.

Lemma parse_hex_nonneg buf v : parse_hex buf = Some v → 0 ≤ v.
Proof.
  assert (∀ buf n v, 0 ≤ n → hex_loop n buf = Some v → 0 ≤ v) as Hl.
  { clear buf v. intros buf. induction buf as [|b buf IH]; intros n v Hn; cbn [hex_loop]; [by intros [= <-]|].
    unfold hex_digit, push_digit.
    repeat (case_match; simpl; try done); repeat (case_decide; simpl; try done).
    all: apply IH; repeat match goal with Hb : (_ && _) = true |- _ => apply andb_true_iff in Hb as [??] end; lia. }
  destruct buf as [|b buf]; [done|]. apply Hl. lia.
Qed.
Lemma chunk_size_nonneg buf size consumed : parse_chunk_size buf = Ok (size, consumed) → 0 ≤ size.
Proof.
  unfold parse_chunk_size. destruct (split_line buf) as [[line c]|]; simpl; [|done].
  destruct (parse_hex _) as [v|] eqn:Hv; simpl; [|done]. intros [= <- _]. by apply parse_hex_nonneg in Hv.
Qed.

Lemma deframe_fuel f1 f2 st l :
  bstate_ok st → (length l < f1)%nat → (length l < f2)%nat → deframe_loop f1 st l = deframe_loop f2 st l.
Proof.
  revert f2 st l. induction f1 as [|f1 IH]; intros [|f2] st l Hok H1 H2; [lia..|]. cbn [deframe_loop].
  destruct st as [r| |r| | | |]; try done; simpl in Hok.
  - pose proof (chunk_size_parsed l) as Hp. pose proof (chunk_size_nonneg l) as Hz.
    destruct (parse_chunk_size l) as [[size consumed]|e|]; [|done..]. simpl in Hp.
    specialize (Hz _ _ eq_refl).
    apply IH; [by destruct (Z.eqb_spec size 0); simpl; lia|rewrite length_drop; lia..].
  - destruct (Z.leb_spec r (len l)); [|done].
    by rewrite (IH f2 ChunkEnd (drop (Z.to_nat r) l)) by (try done; rewrite length_drop; lia).
  - destruct (Z.ltb_spec (len l) 2); [done|]. destruct (starts_with CRLF l); [|done].
    apply IH; [done|rewrite length_drop; lia..].
  - destruct (Z.ltb_spec (len l) 2); [done|]. destruct (starts_with CRLF l); [done|].
    pose proof (header_line_parsed l) as Hp. destruct (parse_header_line l) as [[[n v] consumed]|e|]; [|done..].
    simpl in Hp. apply IH; [done|rewrite length_drop; lia..].
Qed.

(** ** Steps *)

(** [eats st x out st']: in state [st] the bytes [x] are consumed as one piece,
    which contributes [out] to the body. *)
Inductive eats : bstate → list Z → list Z → bstate → Prop :=
| eats_counted r x :
    0 < len x ≤ r → eats (Counted r) x x (if r - len x =? 0 then Complete else Counted (r - len x))
| eats_line x size :
    parse_chunk_size x = Ok (size, len x) →
    eats ChunkLine x [] (if size =? 0 then Trailing else InChunk size)
| eats_data r x :
    0 < len x ≤ r → eats (InChunk r) x x (if r - len x =? 0 then ChunkEnd else InChunk (r - len x))
| eats_end : eats ChunkEnd CRLF [] ChunkLine
| eats_last : eats Trailing CRLF [] Complete
| eats_trailer x name value :
    starts_with CRLF x = false → parse_header_line x = Ok (name, value, len x) → eats Trailing x [] Trailing.

Lemma eats_ok st x out st' : eats st x out st' → 0 < len x ∧ bstate_ok st'.
Proof.
  intros He. destruct He as [r x Hx|x size Hp|r x Hx| | |x name value Hs Hp].
  - split; [lia|]. destruct (Z.eqb_spec (r - len x) 0); simpl; lia.
  - pose proof (chunk_size_parsed x) as Hl. pose proof (chunk_size_nonneg _ _ _ Hp). rewrite Hp in Hl. simpl in Hl.
    split; [lia|]. destruct (Z.eqb_spec size 0); simpl; lia.
  - split; [lia|]. destruct (Z.eqb_spec (r - len x) 0); simpl; lia.
  - by split.
  - by split.
  - pose proof (header_line_parsed x) as Hl. rewrite Hp in Hl. simpl in Hl. split; [lia|done].
Qed.

(** A piece can be taken off the input of the reference decoder. *)
Lemma eats_deframe st x out st' l :
  eats st x out st' →
  deframe st (x ++ l) = let '(o, s, r) := deframe st' l in (out ++ o, s, r).
Proof.
  intros He. pose proof (eats_ok _ _ _ _ He) as [Hx0 Hok].
  assert (∀ o s r (f : nat), (length l < f)%nat → deframe st' l = (o, s, r) → deframe_loop f st' l = (o, s, r)) as Hf.
  { intros o s r f Hl <-. apply deframe_fuel; [done|lia|lia]. }
  destruct (deframe st' l) as [[o s] r] eqn:Hd. specialize (Hf _ _ _ (length (x ++ l)) ltac:(len_lia) eq_refl).
  unfold deframe. cbn [deframe_loop].
  destruct He as [n x Hx|x size Hp|n x Hx| | |x name value Hs Hp]; cbn [deframe_loop] in *.
  - destruct (Z.eqb_spec (n - len x) 0).
    + rewrite (proj2 (Z.leb_le _ _)) by len_lia. replace (Z.to_nat n) with (length x) by lia.
      rewrite take_app_length, drop_app_length. injection Hd as <- <- <-. by rewrite app_nil_r.
    + unfold deframe in Hd. cbn [deframe_loop] in Hd. rewrite length_app, Nat2Z.inj_add.
      destruct (Z.leb_spec (n - len x) (len l)).
      * rewrite (proj2 (Z.leb_le _ _)) by lia. injection Hd as <- <- <-.
        rewrite take_app_ge, drop_app_ge by lia. by replace (Z.to_nat n - length x)%nat with (Z.to_nat (n - len x)) by lia.
      * rewrite (proj2 (Z.leb_gt _ _)) by lia. injection Hd as <- <- <-. do 3 f_equal. lia.
  - rewrite (chunk_size_more _ _ l Hp), Nat2Z.id, drop_app_length. by rewrite Hf.
  - destruct (Z.eqb_spec (n - len x) 0).
    + rewrite (proj2 (Z.leb_le _ _)) by len_lia. replace (Z.to_nat n) with (length x) by lia.
      rewrite take_app_length, drop_app_length. by rewrite Hf.
    + unfold deframe in Hd. cbn [deframe_loop] in Hd. rewrite length_app, Nat2Z.inj_add.
      destruct (Z.leb_spec (n - len x) (len l)).
      * rewrite (proj2 (Z.leb_le _ _)) by lia.
        rewrite take_app_ge, drop_app_ge by lia. replace (Z.to_nat n - length x)%nat with (Z.to_nat (n - len x)) by lia.
        rewrite (deframe_fuel _ (length l) ChunkEnd) by (try done; rewrite length_drop; lia).
        destruct (deframe_loop (length l) ChunkEnd _) as [[o' s'] r']. injection Hd as <- <- <-.
        by rewrite <- app_assoc.
      * rewrite (proj2 (Z.leb_gt _ _)) by lia. injection Hd as <- <- <-. do 3 f_equal. lia.
  - rewrite (proj2 (Z.ltb_ge _ _)) by len_lia. rewrite starts_with_app. exact Hf.
  - rewrite (proj2 (Z.ltb_ge _ _)) by len_lia. rewrite starts_with_app. unfold deframe in Hd. simpl in Hd.
    by injection Hd as <- <- <-.
  - pose proof (header_line_parsed x) as Hl. rewrite Hp in Hl. simpl in Hl.
    rewrite (proj2 (Z.ltb_ge _ _)) by len_lia.
    assert (starts_with CRLF (x ++ l) = false) as ->.
    { unfold starts_with in *. simpl length in *. by rewrite take_app_le by lia. }
    rewrite (header_line_more _ _ l Hp), Nat2Z.id, drop_app_length. by rewrite Hf.
Qed.

(** ** Chunked encoding *)

(** A size in hexadecimal, as a sender writes it. *)
Definition hex_char (d : Z) : Z := if d <? 10 then 48 + d else 87 + d.
Fixpoint hex_of (fuel : nat) (n : Z) : list Z :=
  match fuel with
  | O => []
  | S fuel => (if n <? 16 then [] else hex_of fuel (n / 16)) ++ [hex_char (n mod 16)]
  end.
Definition chunk (data : list Z) : list Z := hex_of 16 (len data) ++ CRLF ++ data ++ CRLF.
Definition chunked_wire (chunks : list (list Z)) : list Z :=
  mjoin (chunk <$> chunks) ++ hex_of 16 0 ++ CRLF ++ CRLF.

Lemma hex_char_spec d :
  0 ≤ d < 16 → hex_digit (hex_char d) = Some d ∧ hex_char d ≠ 13 ∧ hex_char d ≠ 59 ∧ hex_char d ≠ 32.
Proof.
  intros Hd. unfold hex_char, hex_digit. destruct (Z.ltb_spec d 10).
  - rewrite !(proj2 (Z.leb_le _ _)) by lia. simpl. split; [f_equal; lia|lia].
  - rewrite (proj2 (Z.leb_le 48 _)), (proj2 (Z.leb_gt (87 + d) 57)) by lia. simpl.
    rewrite !(proj2 (Z.leb_le _ _)) by lia. simpl. split; [f_equal; lia|lia].
Qed.

Lemma hex_loop_snoc n l b :
  hex_loop n (l ++ [b]) =
  (v ← hex_loop n l; d ← hex_digit b; push_digit usize_bits 16 v d).
Proof.
  revert n. induction l as [|x l IH]; intros n; simpl.
  - destruct (hex_digit b); simpl; [|done]. by destruct (push_digit _ _ _ _).
  - destruct (hex_digit x) as [d|]; simpl; [|done]. destruct (push_digit usize_bits 16 n d); simpl; [|done]. apply IH.
Qed.

Lemma hex_of_spec fuel n :
  0 ≤ n < 16 ^ Z.of_nat fuel → n < 2 ^ usize_bits → (0 < fuel)%nat →
  hex_loop 0 (hex_of fuel n) = Some n ∧ hex_of fuel n ≠ [] ∧
  Forall (λ b, b ≠ 13 ∧ b ≠ 59 ∧ b ≠ 32) (hex_of fuel n).
Proof.
  revert n. induction fuel as [|fuel IH]; intros n Hn Hu Hf; [lia|]. cbn [hex_of].
  pose proof (Z.mod_pos_bound n 16 ltac:(lia)) as Hm. destruct (hex_char_spec (n mod 16) Hm) as [Hd Hc].
  assert (∀ v, 16 * v + n mod 16 = n → 0 ≤ v → push_digit usize_bits 16 v (n mod 16) = Some n) as Hp.
  { intros v Hv Hv0. unfold push_digit. rewrite !decide_True by lia. f_equal. lia. }
  destruct (Z.ltb_spec n 16).
  - cbn [app]. split; [|split; [done|by constructor]]. simpl. rewrite Hd. simpl. rewrite Hp; [done| |done].
    rewrite Z.mod_small; lia.
  - assert (0 < n / 16 < 16 ^ Z.of_nat fuel) as Hn'.
    { split; [apply Z.div_str_pos; lia|]. apply Z.div_lt_upper_bound; [lia|].
      rewrite Nat2Z.inj_succ, Z.pow_succ_r in Hn by lia. lia. }
    destruct (IH (n / 16)) as (Hl & _ & Hfa); [lia| |destruct fuel; [simpl in Hn'; lia|lia]|].
    { pose proof (Z.div_le_upper_bound n 16 n). lia. }
    split; [|split].
    + rewrite hex_loop_snoc, Hl. simpl. rewrite Hd. simpl. apply Hp; [|lia].
      pose proof (Z.div_mod n 16). lia.
    + by intros [_ ?]%app_nil.
    + apply Forall_app. split; [done|by constructor].
Qed.

Lemma before_ext_plain l : Forall (λ b, b ≠ 13 ∧ b ≠ 59 ∧ b ≠ 32) l → before_ext l = l.
Proof.
  induction 1 as [|b l (_ & ? & ?) _ IH]; cbn [before_ext]; [done|].
  by rewrite (proj2 (Z.eqb_neq b 59)), (proj2 (Z.eqb_neq b 32)), IH by done.
Qed.

Lemma parse_size_line n :
  0 ≤ n < 2 ^ 31 → parse_chunk_size (hex_of 16 n ++ CRLF) = Ok (n, len (hex_of 16 n ++ CRLF)).
Proof.
  intros Hn. pose proof pow_usize_ge.
  destruct (hex_of_spec 16 n) as (Hl & Hne & Hfa); [simpl; lia|lia|lia|]. unfold parse_chunk_size.
  rewrite <- (app_nil_r CRLF) at 1. rewrite split_line_crlf by (eapply Forall_impl; [exact Hfa|tauto]).
  cbn [ok_or mbind res_bind].
  rewrite before_ext_plain by done.
  assert (parse_hex (hex_of 16 n) = Some n) as -> by (unfold parse_hex; by destruct (hex_of 16 n)).
  cbn [ok_or mbind res_bind]. do 2 f_equal. rewrite length_app. change (length CRLF) with 2%nat. lia.
Qed.

(** The decoder inverts the encoding of any sequence of chunks. *)
Lemma deframe_chunked chunks rest :
  Forall (λ d, 0 < len d < 2 ^ 31) chunks →
  deframe ChunkLine (chunked_wire chunks ++ rest) = (mjoin chunks, Complete, rest).
Proof.
  unfold chunked_wire. induction 1 as [|d chunks Hd _ IH].
  - change (mjoin (chunk <$> [])) with (@nil Z). rewrite app_nil_l, <- !app_assoc, (app_assoc (hex_of 16 0)).
    rewrite (eats_deframe _ _ _ _ _ (eats_line _ _ (parse_size_line 0 ltac:(lia)))). cbn [Z.eqb].
    by rewrite (eats_deframe _ _ _ _ _ eats_last).
  - change (mjoin (chunk <$> d :: chunks))
      with ((hex_of 16 (len d) ++ CRLF ++ d ++ CRLF) ++ mjoin (chunk <$> chunks)).
    rewrite <- !app_assoc, (app_assoc (hex_of _ (len d))).
    rewrite (eats_deframe _ _ _ _ _ (eats_line _ _ (parse_size_line (len d) ltac:(lia)))).
    rewrite (proj2 (Z.eqb_neq (len d) 0)) by lia.
    rewrite (eats_deframe _ d _ _ _ (eats_data (len d) d ltac:(lia))), Z.sub_diag. cbn [Z.eqb].
    rewrite (eats_deframe _ _ _ _ _ eats_end). rewrite <- !app_assoc in IH. rewrite IH. done.
Qed.

End body.
