(* ===== verification/Http1Receive.v ===== *)
(** * Receiving on an HTTP/1.1 connection

    The receive loop keeps the invariant, terminates, and moves body bytes
    exactly as the reference decoder [deframe] says. *)
From stdpp Require Import strings.
From S2P Require Import Prelude Errors Hoare Varint Cursor Buf Http Http1Parse Http1Connection Http1Inv Http1Body.
Import Parse Http1.

Section receive.
Context `{Platform} `{Sizes}.

(** ** Bodies *)

(** The framing state of the connection. *)
Definition bst (c : t) : bstate :=
  match state c with
  | BodyContentLength r => Counted r
  | BodyChunked =>
      match chunk_state c with
      | Size => ChunkLine
      | ChunkData r => InChunk r
      | DataTrailer => ChunkEnd
      | Trailers => Trailing
      end
  | Done => Complete
  | Idle | BodyUntilClose => Broken
  end.

(** Fields that no body step touches. *)
Definition steady (c c' : t) : Prop :=
  state c' = state c ∧ chunk_state c' = chunk_state c ∧ headers_available c' = headers_available c ∧
  header_buf c' = header_buf c ∧ current_stream_id c' = current_stream_id c ∧ role c' = role c ∧
  body_finished c' = body_finished c.
Definition unmoved (c c' : t) : Prop :=
  steady c c' ∧ received c' = received c ∧ body c' = body c.

Lemma len_push_capped {A} n (l : list A) x : len l ≤ Z.of_nat n → len (push_capped n l x) ≤ Z.of_nat n.
Proof.
  intros Hl. unfold push_capped. destruct (Nat.ltb_spec (length l) n); [|done].
  rewrite length_app. simpl. lia.
Qed.

Lemma wp_is_err {A} (m : M Error t A) (Q : bool → t → Prop) R c :
  wp False m (λ _, Q false) (λ _, Q true) c → wp False (is_err m) Q R c.
Proof. unfold wp, is_err. by destruct (m c) as [[]]. Qed.

(** The copy of [n] received bytes to the body: reserved, appended, drained, or
    refused by the allocator. *)
Lemma wp_reserve_data K c n :
  inv K c → 0 ≤ n → len (body c) + n ≤ DATABUF →
  wp False (reserve_data grant DATABUF n)
    (λ _ c', ∃ b, c' = with_data c b ∧ Buf.ok DATABUF b ∧ Buf.vis b = body c ∧ Buf.spare b n)
    (λ _ c', ∃ b, c' = with_data c b ∧ Buf.ok DATABUF b ∧ Buf.vis b = body c ∧ ∃ k, grant k = false) c.
Proof.
  intros Hi Hn Hl. pose proof data_size. unfold wp, reserve_data.
  destruct (Buf.ok_try_reserve DATABUF grant n (data_buf c) (inv_data _ _ Hi)) as (r & b & Hq & Hb & Hv & Hc);
    [lia|apply size_usize; lia|]. rewrite Hq.
  destruct Hc as [[-> Hsp]| ->]; exists b; [auto|]. do 3 (split; [done|]). eapply (Buf.oom_refused DATABUF). by rewrite Hq.
Qed.

Lemma move_body {A} (k : unit → M Error t A) K c n b Q R :
  inv K c → 0 < n ≤ len (received c) → len (body c) + n ≤ DATABUF →
  Buf.ok DATABUF b → Buf.vis b = body c → Buf.spare b n →
  (∀ b' rb x, inv K (with_recv (with_data c b') rb) → len x = n → received c = x ++ Buf.vis rb →
     Buf.vis b' = body c ++ x → wp False (k tt) Q R (with_recv (with_data c b') rb)) →
  wp False (extend_data grant DATABUF n ≫= λ _, drain_recv n ≫= k) Q R (with_data c b).
Proof.
  intros Hi Hn Hl Hb Hv Hsp HQ. unfold extend_data. wps.
  eapply wp_eq; [apply recv_slice_eq; [apply Hi|lia|simpl; lia]|].
  rewrite Z.sub_0_r. change (drop (Z.to_nat 0) (received (with_data c b))) with (received c).
  set (x := take (Z.to_nat n) (received c)).
  assert (len x = n) as Hx by (subst x; len_lia).
  destruct (Buf.ok_extend DATABUF grant x b Hb) as (b' & He & Hb' & Hv' & _);
    [by rewrite Hx|rewrite Hv; lia|].
  eapply wp_eq; [unfold append_data, with_data; simpl; by rewrite He|]. wps.
  destruct (h1_drain_recv_eq (with_data c b') n) as (rb & Hd & Hrb & Hvr); [apply Hi|simpl; lia|].
  eapply wp_eq; [exact Hd|]. change (received (with_data c b')) with (received c) in Hvr. apply (HQ b' rb x).
  - destruct Hi. constructor; simpl; try done. rewrite Hvr. len_lia.
  - done.
  - rewrite Hvr. subst x. by rewrite take_drop.
  - by rewrite Hv', Hv.
Qed.

(** Why body bytes are not moved: there are none, none are due, the body buffer is
    full, or the allocator has refused. *)
Definition held (r : Z) (c : t) : Prop :=
  received c = [] ∨ r ≤ 0 ∨ DATABUF ≤ len (body c) ∨ ∃ k, grant k = false.

Lemma wp_take_body K c r :
  inv K c →
  wp False (take_body grant DATABUF r)
    (λ o c', inv K c' ∧ steady c c' ∧
       match o with
       | None => received c' = received c ∧ body c' = body c ∧ held r c
       | Some r' => ∃ x, 0 < len x ≤ r ∧ r' = r - len x ∧
                         received c = x ++ received c' ∧ body c' = body c ++ x
       end)
    (λ _ _, False) c.
Proof.
  intros Hi. unfold take_body, recv_len. wps. pose proof Hi as [_ Hd Hr _ _ _].
  eapply wp_lift_ok; [by apply (Buf.ok_blen BUF)|].
  destruct (Z.eqb_spec (len (received c)) 0) as [|Hne];
    [wps; do 4 (split; [done|]); left; by destruct (received c)|]. wps.
  eapply wp_lift_ok; [by apply (Buf.ok_blen DATABUF)|]. wps.
  pose proof (Buf.ok_bound _ _ Hd). eapply wp_lift_ok; [by apply usub_ok|].
  set (n := Z.min (DATABUF - len (body c)) (Z.min (len (received c)) r)).
  assert (∀ b, Buf.ok DATABUF b → Buf.vis b = body c → held r c →
    let c' := (with_data c b) <| body_parked := true |> in
    inv K c' ∧ steady c c' ∧ received c' = received c ∧ body c' = body c ∧ held r c) as Hpark.
  { intros b Hb Hv Hh c'. split; [|done]. apply (inv_with_data _ _ b) in Hi; [|done]. destruct Hi; by constructor. }
  destruct (Z.ltb_spec 0 n).
  2: { wps. specialize (Hpark (data_buf c) Hd eq_refl). destruct c. apply Hpark. unfold held. lia. }
  wps. apply wp_is_err. wp_use (wp_reserve_data K c n Hi); [lia|lia| |].
  2: { intros _ c' (b & -> & Hb & Hv & Hk). wps. apply Hpark; [done..|]. do 3 right. done. }
  intros _ c' (b & -> & Hb & Hv & Hsp).
  apply (move_body _ K c n b); try done; [lia..|]. intros b' rb x Hi' Hx Hrx Hbx.
  wps. eapply wp_lift_ok; [apply usub_ok; lia|]. unfold push_event. wps. split; [|split; [done|]].
  - destruct Hi'. constructor; try done. by apply len_push_capped.
  - exists x. split; [lia|]. split; [by rewrite Hx|]. done.
Qed.

(** A body step: it stands still, or consumes one piece as the framing says. *)
Definition body_step (K : Z) (c : t) (go : bool) (c' : t) : Prop :=
  inv K c' ∧ headers_available c' = headers_available c ∧ header_buf c' = header_buf c ∧
  body_finished c' = match bst c' with Complete => true | _ => body_finished c end ∧
  if go then ∃ x out, eats (bst c) x out (bst c') ∧ received c = x ++ received c' ∧ body c' = body c ++ out
  else bst c' = bst c ∧ received c' = received c ∧ body c' = body c.

Lemma wp_finish_body K c c0 x out :
  inv K c → headers_available c = headers_available c0 → header_buf c = header_buf c0 →
  eats (bst c0) x out Complete → received c0 = x ++ received c → body c = body c0 ++ out →
  wp False finish_body (λ _, body_step K c0 true) (λ _ _, False) c.
Proof.
  intros Hi ? ? He Hx Hb. unfold finish_body, push_event. wps. split; [|split; [done|split; [done|split; [done|]]]].
  - destruct Hi. constructor; try done. by apply len_push_capped.
  - by exists x, out.
Qed.

Lemma wp_content_length K c r :
  inv K c → state c = BodyContentLength r →
  wp False (process_content_length_body grant DATABUF r) (body_step K c) (λ _ _, False) c.
Proof.
  intros Hi Hst. unfold process_content_length_body. wps. wp_use (wp_take_body K c r Hi); [|done].
  intros [r'|] c' (Hi' & (S1 & S2 & S3 & S4 & S5 & S6 & S7) & Hc').
  - destruct Hc' as (x & Hx & -> & Hrx & Hbx).
    pose proof (eats_counted r x Hx) as He. assert (Counted r = bst c) as Hb by (unfold bst; by rewrite Hst).
    rewrite Hb in He. destruct (Z.eqb_spec (r - len x) 0); wps.
    + wp_use (wp_finish_body K c' c x x); done.
    + split; [destruct Hi'; by constructor|]. split; [done|]. split; [done|]. split; [done|]. exists x, x.
      split; [exact He|done].
  - assert (bst c' = bst c) as Hb by (unfold bst; by rewrite S1, S2).
    wps. split; [done|]. split; [done|]. split; [done|]. split; [|by destruct Hc' as (? & ? & _)].
    rewrite Hb. unfold bst. by rewrite Hst.
Qed.

Lemma h1_wp_recv_len K c (Q : Z → t → Prop) R :
  inv K c → Q (len (received c)) c → wp False recv_len Q R c.
Proof. intros Hi HQ. unfold recv_len. wps. eapply wp_lift_ok; [apply (Buf.ok_blen BUF), Hi|done]. Qed.
Lemma wp_recv_bytes K c (Q : list Z → t → Prop) R :
  inv K c → Q (received c) c → wp False recv_bytes Q R c.
Proof. intros Hi HQ. eapply wp_eq; [apply recv_bytes_eq, Hi|done]. Qed.

(** Draining a prefix. *)
Lemma h1_wp_drain K c n (Q : unit → t → Prop) R :
  inv K c → 0 ≤ n ≤ len (received c) →
  (∀ b x, inv K (with_recv c b) → len x = n → received c = x ++ Buf.vis b →
     current_stream_id c + len (Buf.vis b) + n ≤ K → Q tt (with_recv c b)) →
  wp False (drain_recv n) Q R c.
Proof.
  intros Hi Hn HQ. destruct (h1_drain_recv_eq c n (inv_recv _ _ Hi) Hn) as (b & Hd & Hb & Hv).
  eapply wp_eq; [exact Hd|]. pose proof (inv_sid _ _ Hi).
  apply (HQ b (take (Z.to_nat n) (received c))).
  - destruct Hi. constructor; simpl; try done. rewrite Hv. len_lia.
  - len_lia.
  - rewrite Hv. by rewrite take_drop.
  - rewrite Hv. len_lia.
Qed.

(** CR LF at the front, or something else. *)
Lemma wp_at_crlf K c (Q : bool → t → Prop) R :
  inv K c → 2 ≤ len (received c) → Q (starts_with CRLF (received c)) c → wp False at_crlf Q R c.
Proof.
  intros Hi Hl HQ. unfold at_crlf. wps. eapply wp_recv_bytes; [done|].
  destruct (received c) as [|b0 [|b1 l]]; [simpl in Hl; lia..|]. clear Hl.
  wps. eapply wp_lift_ok; [reflexivity|].
  assert (starts_with CRLF (b0 :: b1 :: l) = (b0 =? 13) && (b1 =? 10)) as Hs.
  { unfold starts_with.
    destruct (bool_decide_reflect (take (length CRLF) (b0 :: b1 :: l) = CRLF)) as [Hc|Hc]; unfold CRLF in Hc; simpl in Hc; change (take 0 l) with (@nil Z) in Hc;
      destruct (Z.eqb_spec b0 13), (Z.eqb_spec b1 10); simpl; congruence. }
  rewrite Hs in HQ. destruct (b0 =? 13); wps; [|done]. eapply wp_lift_ok; [by apply (idx_ok _ 1 b1)|]. by wps.
Qed.

(** A piece with no body bytes, taken off the input; [k] is the rest of the arm. *)
Lemma wp_eat {A} (k : unit → M Error t A) K c n x rest Q R :
  inv K c → received c = x ++ rest → len x = n →
  (∀ b, inv K (with_recv c b) → Buf.vis b = rest → wp False (k tt) Q R (with_recv c b)) →
  wp False (drain_recv n ≫= k) Q R c.
Proof.
  intros Hi Hx Hn HQ. wps. eapply (h1_wp_drain K); [done|rewrite Hx; len_lia|].
  intros b x' Hi' Hx' Hr _. apply HQ; [done|]. rewrite Hx in Hr.
  apply app_inj_1 in Hr as [_ ->]; [done|lia].
Qed.

Lemma wp_chunked K c :
  inv K c → state c = BodyChunked →
  wp False (process_chunked_body grant DATABUF) (body_step K c) (λ _ c', c' = c) c.
Proof.
  intros Hi Hst. unfold process_chunked_body. wps.
  assert (∀ st, state st = state c → chunk_state st = chunk_state c → bst st = bst c) as Hbst
    by (intros st H1 H2; unfold bst; by rewrite H1, H2).
  assert (body_step K c false c) as Hstay.
  { do 3 (split; [done|]). split; [|done]. unfold bst. rewrite Hst. by destruct (chunk_state c). }
  assert (bst c = match chunk_state c with Size => ChunkLine | ChunkData r => InChunk r
                  | DataTrailer => ChunkEnd | Trailers => Trailing end) as Hb by (unfold bst; by rewrite Hst).
  destruct (chunk_state c) as [|r| |] eqn:Hcs.
  - wps. eapply wp_recv_bytes; [done|]. pose proof (chunk_size_parsed (received c)) as Hp.
    destruct (parse_chunk_size (received c)) as [[size consumed]|e|] eqn:Hps; simpl in Hp; [| |done].
    + assert (received c = take (Z.to_nat consumed) (received c) ++ drop (Z.to_nat consumed) (received c)) as Hsp
        by (by rewrite take_drop).
      apply (wp_eat _ K c consumed _ _ _ _ Hi Hsp); [len_lia|]. intros b Hi' Hvb. wps.
      split; [destruct Hi'; by constructor|]. split; [done|]. split; [done|].
      split; [unfold bst; simpl; rewrite Hst; by destruct (size =? 0)|].
      exists (take (Z.to_nat consumed) (received c)), []. rewrite app_nil_r, Hb. simpl. rewrite Hvb.
      split; [|done]. unfold bst. simpl. rewrite Hst.
      replace (match (if size =? 0 then _ else _) with Size => _ | ChunkData _ => _ | DataTrailer => _ | Trailers => _ end)
        with (if size =? 0 then Trailing else InChunk size) by (by destruct (size =? 0)).
      apply eats_line. apply chunk_size_line in Hps. rewrite Hps. do 2 f_equal. len_lia.
    + destruct Hp as [-> | ->]; by wps.
  - wps. wp_use (wp_take_body K c r Hi); [|done].
    intros [r'|] c' (Hi' & (S1 & S2 & S3 & S4 & S5 & S6 & S7) & Hc').
    + destruct Hc' as (x & Hx & -> & Hrx & Hbx). wps.
      split; [destruct Hi'; by constructor|]. split; [done|]. split; [done|].
      split; [unfold bst; simpl; rewrite S1, Hst, S7; by destruct (r - len x =? 0)|]. exists x, x. rewrite Hb.
      split; [|done]. pose proof (eats_data r x Hx) as He. unfold bst. simpl. rewrite S1, Hst.
      by destruct (r - len x =? 0).
    + assert (bst c' = bst c) as Hb' by (apply Hbst; congruence).
      wps. split; [done|]. split; [done|]. split; [done|]. split; [by rewrite Hb', Hb|by destruct Hc' as (? & ? & _)].
  - wps. eapply h1_wp_recv_len; [done|]. destruct (Z.ltb_spec (len (received c)) 2); [by wps|]. wps.
    eapply wp_at_crlf; [done..|]. destruct (starts_with CRLF (received c)) eqn:Hs; [|by wps].
    apply starts_with_spec in Hs as [rest Hrest].
    apply (wp_eat _ K c 2 _ _ _ _ Hi Hrest); [done|]. intros b Hi' Hvb. wps.
    split; [destruct Hi'; by constructor|]. split; [done|]. split; [done|].
    split; [unfold bst; simpl; by rewrite Hst|]. exists CRLF, [].
    rewrite app_nil_r, Hb. simpl. rewrite Hvb. split; [|done]. unfold bst. simpl. rewrite Hst. apply eats_end.
  - wps. eapply h1_wp_recv_len; [done|]. destruct (Z.ltb_spec (len (received c)) 2); [by wps|]. wps.
    eapply wp_at_crlf; [done..|]. destruct (starts_with CRLF (received c)) eqn:Hs.
    + apply starts_with_spec in Hs as [rest Hrest].
      apply (wp_eat _ K c 2 _ _ _ _ Hi Hrest); [done|]. intros b Hi' Hvb. wps.
      wp_use (wp_finish_body K (with_recv c b) c CRLF []); [done..| | | | |done].
      * rewrite Hb. apply eats_last.
      * simpl. by rewrite Hvb.
      * simpl. by rewrite app_nil_r.
      * intros [] c2 ?. by wps.
    + wps. eapply wp_recv_bytes; [done|]. pose proof (header_line_parsed (received c)) as Hp.
      destruct (parse_header_line (received c)) as [[[name value] consumed]|e|] eqn:Hph; simpl in Hp; [| |done].
      2: { apply wp_lift. done. }
      wps. eapply wp_lift_ok; [reflexivity|].
      assert (received c = take (Z.to_nat consumed) (received c) ++ drop (Z.to_nat consumed) (received c)) as Hsp
        by (by rewrite take_drop).
      apply (wp_eat _ K c consumed _ _ _ _ Hi Hsp); [len_lia|]. intros b Hi' Hvb. wps.
      split; [done|]. split; [done|]. split; [done|].
      split; [unfold bst; simpl; by rewrite Hst, Hcs|].
      exists (take (Z.to_nat consumed) (received c)), []. rewrite app_nil_r, Hb. simpl. rewrite Hvb.
      split; [|done]. unfold bst. simpl. rewrite Hst, Hcs.
      eapply eats_trailer.
      * unfold starts_with in *. simpl length in *. by rewrite take_take, Nat.min_l by lia.
      * apply (header_line_line _ name value consumed); [done..|]. do 3 f_equal. len_lia.
Qed.

(** ** The other states *)

Lemma wp_until_close K c :
  inv K c →
  wp False (process_until_close_body grant DATABUF)
    (λ _ c', inv K c' ∧ headers_available c' = headers_available c ∧
             ∃ x, received c = x ++ received c' ∧ body c' = body c ++ x) (λ _ _, False) c.
Proof.
  intros Hi. unfold process_until_close_body. wps. eapply h1_wp_recv_len; [done|].
  pose proof Hi as [_ Hd Hr _ _ _].
  destruct (Z.eqb_spec (len (received c)) 0) as [|Hne]; [wps; split; [done|]; split; [done|]; exists []; by rewrite app_nil_r|].
  wps. eapply wp_lift_ok; [by apply (Buf.ok_blen DATABUF)|]. wps.
  pose proof (Buf.ok_bound _ _ Hd). eapply wp_lift_ok; [by apply usub_ok|].
  set (n := Z.min (len (received c)) (DATABUF - len (body c))).
  wps. eapply (wp_mono False _ (λ refused c', inv K c' ∧ headers_available c' = headers_available c ∧ ∃ x, received c = x ++ received c' ∧ body c' = body c ++ x)
    _ (λ _ _, False)); [|intros refused c' [Hi' Hx]|done].
  - destruct (Z.ltb_spec 0 n); [|wps; split; [done|]; split; [done|]; exists []; by rewrite app_nil_r].
    wps. apply wp_is_err. wp_use (wp_reserve_data K c n Hi); [lia|lia| |].
    2: { intros _ c' (b & -> & Hb & Hv & _). wps. split; [by apply inv_with_data|]. split; [done|]. exists [].
         split; [done|]. by rewrite app_nil_r. }
    intros _ c' (b & -> & Hb & Hv & Hsp). apply (move_body _ K c n b); try done; [lia..|].
    intros b' rb x Hi' Hx Hrx Hbx. unfold push_event. wps. split.
    + destruct Hi'. constructor; try done. by apply len_push_capped.
    + split; [done|]. by exists x.
  - destruct refused; wps.
    + split; [destruct Hi'; by constructor|exact Hx].
    + eapply h1_wp_recv_len; [done|]. wps. split; [destruct Hi'; by constructor|exact Hx].
Qed.

(** The reset happens when headers and body are read, and only then. *)
Lemma wp_next_message K c :
  inv K c →
  wp False (next_message grant)
    (λ go c', inv K c' ∧ received c' = received c ∧ body c' = body c ∧
       if go then state c' = Idle ∧ headers_available c = false ∧ body c = []
       else c' = c ∧ (headers_available c = true ∨ body c ≠ []))
    (λ _ _, False) c.
Proof.
  intros Hi. unfold next_message. wps. pose proof Hi as [Hh Hd Hr _ _ _].
  eapply wp_lift_ok; [by apply (Buf.ok_blen DATABUF)|].
  destruct (headers_available c || negb (len (body c) =? 0)) eqn:Hbusy.
  { wps. split_and!; try done. apply orb_true_iff in Hbusy as [Hb|Hb]; [by left|right].
    intros Hnil. by rewrite Hnil in Hb. }
  apply orb_false_iff in Hbusy as [Ha Hb]. wps.
  destruct (Buf.ok_shrink_to (E:=Error) HDRBUF grant SHRINK_RETAIN (header_buf c) Hh) as (hb & Eh & ? & ?).
  destruct (Buf.ok_shrink_to (E:=Error) DATABUF grant SHRINK_RETAIN (data_buf c) Hd) as (db & Ed & ? & Hvd).
  destruct (Buf.ok_shrink_to (E:=Error) BUF grant SHRINK_RETAIN (recv_buf c) Hr) as (rb & Er & ? & Hvr).
  eapply wp_lift_ok; [exact Eh|]. wps. eapply wp_lift_ok; [exact Ed|]. wps. eapply wp_lift_ok; [exact Er|]. wps.
  split; [destruct Hi; constructor; simpl; try done; by rewrite Hvr|]. split; [done|]. split; [done|].
  split; [done|]. split; [done|]. by destruct (body c).
Qed.

(** ** Start line and headers *)

Lemma wp_parse_start K c e :
  inv K c → 0 ≤ e ≤ len (received c) →
  wp False (parse_start grant HDRBUF e) (λ n c', calm K c c' ∧ role c' = role c ∧ 2 ≤ n ≤ e) (λ _, calm K c) c.
Proof.
  intros Hi He. unfold parse_start. wps.
  eapply wp_eq; [apply recv_slice_eq; [apply Hi|lia|lia]|].
  rewrite Z.sub_0_r. set (line := take _ _).
  assert (len line = e) as Hl by (subst line; simpl; len_lia).
  assert (∀ name value, wp False (store_header_kv grant HDRBUF name value)
    (λ _ c', calm K c c' ∧ role c' = role c) (λ _, calm K c) c) as Hst.
  { intros name value. destruct (store_header_kv_cases c name value (inv_hdr _ _ Hi)) as (r & b & Hq & Hb & Hc).
    assert (calm K c (with_header c b)) by (split; [by apply inv_with_header|done]).
    unfold wp. rewrite Hq. by destruct Hc as [[-> _]|((err & -> & _) & _)]. }
  destruct (role c) eqn:Hrole.
  - pose proof (status_line_parsed line) as [Hp Hrange]. wps. apply wp_lift.
    destruct (parse_status_line line) as [[[status reason] consumed]|err|]; simpl in Hp; [|by apply calm_refl|done].
    specialize (Hrange _ _ _ eq_refl). wps.
    eapply wp_lift_ok; [apply StatusCode.to_bytes_digits; lia|]. wps.
    wp_use Hst; [|done]. intros [] c' [? ?]. wps. by rewrite Hl in Hp.
  - pose proof (request_line_parsed line) as Hp. wps. apply wp_lift.
    destruct (parse_request_line line) as [[[method path] consumed]|err|]; simpl in Hp; [|by apply calm_refl|done].
    rewrite Hl in Hp. unfold store_header. wps. wp_use Hst; [|done]. intros [] c1 [Hc1 Hr1].
    destruct (store_header_kv_cases c1 (bytes ":path") path (inv_hdr _ _ (proj1 Hc1))) as (r & b & Hq & Hb & Hc).
    assert (calm K c (with_header c1 b)).
    { eapply calm_trans; [exact Hc1|]. split; [apply inv_with_header; [apply Hc1|done]|done]. }
    unfold wp at 1. rewrite Hq. by destruct Hc as [[-> _]|((err & -> & _) & _)].
Qed.

Lemma wp_parse_headers K fuel c offset e f :
  inv K c → 0 ≤ offset ≤ e → e ≤ len (received c) → e - offset ≤ Z.of_nat fuel →
  wp False (parse_headers grant HDRBUF fuel offset e f)
    (λ _, calm K c) (λ _, calm K c) c.
Proof.
  revert c offset f. induction fuel as [|fuel IH]; intros c offset f Hi Ho He Hf; cbn [parse_headers]; wps.
  all: eapply wp_eq; [apply recv_slice_eq; [apply Hi|lia|lia]|]; wps.
  all: set (line := take _ _); assert (len line = e - offset) as Hl by (subst line; len_lia).
  all: pose proof (header_line_parsed line) as Hp; apply wp_lift.
  all: destruct (parse_header_line line) as [[[name value] consumed]|err|]; simpl in Hp; [|by apply calm_refl|done].
  - lia.
  - destruct (len name =? 0); [wps; by apply calm_refl|]. destruct (_ || _); [wps; by apply calm_refl|]. wps.
    wp_use (wp_store_header_kv K c name value Hi); [|done]. intros [] c1 Hc1.
    wp_use (IH c1 (offset + consumed) (note_field name value f)); [apply Hc1|lia|by rewrite (proj1 (proj2 Hc1))|lia| |].
    all: intros; by eapply calm_trans.
Qed.

Lemma wp_set_framing K c f :
  inv K c → current_stream_id c + 1 + len (received c) ≤ K → K ≤ LIMIT →
  wp False (set_framing f)
    (λ _ c', inv K c' ∧ recv_buf c' = recv_buf c ∧ headers_available c' = true) (λ _ _, False) c.
Proof.
  intros Hi Hk HK. unfold set_framing, push_event. wps.
  set (c1 := _ <| headers_phase_complete := true |>).
  assert (inv K c1 ∧ recv_buf c1 = recv_buf c ∧ current_stream_id c1 = current_stream_id c ∧
          headers_available c1 = true) as (Hi1 & Hr1 & Hs1 & Ha1).
  { subst c1. destruct (chunked f); [|destruct (content_length f) as [l|]; [destruct (l =? 0)|destruct (role _)]];
      (split; [destruct Hi; by constructor|done]). }
  clearbody c1. rewrite <- Hr1, <- Hs1 in *.
  eapply (wp_mono False _
    (λ _ c', inv K c' ∧ recv_buf c' = recv_buf c1 ∧ headers_available c' = true) _ (λ _ _, False)); [| |done].
  - pose proof (inv_sid _ _ Hi1). destruct (role c1); wps.
    + split; [|done]. destruct Hi1. constructor; try done. by apply len_push_capped.
    + eapply wp_lift_ok; [apply uadd_ok; unfold LIMIT in *; lia|]. wps. split; [|done].
      destruct Hi1. constructor; simpl; try done; [by apply len_push_capped|lia].
  - intros [] c2 (Hi2 & Hr2 & Ha2). wps. destruct (body_finished c2); wps; [|done]. split; [|done].
    destruct Hi2. constructor; try done. by apply len_push_capped.
Qed.

Lemma wp_start_line K c :
  inv K c → K ≤ LIMIT →
  wp False (try_parse_start_line grant HDRBUF)
    (λ go c', inv K c' ∧ if go then len (received c') + 4 ≤ len (received c) ∧ headers_available c' = true else c' = c)
    (λ _, inv K) c.
Proof.
  intros Hi HK. unfold try_parse_start_line. wps. eapply wp_recv_bytes; [done|].
  destruct (find_end_of_headers (received c)) as [e|] eqn:He; [|by wps].
  apply find_end_bounds in He. wps. set (c0 := _ <| headers_available := false |>).
  assert (calm K c c0) as Hc0.
  { split; [|done]. pose proof hdr_size. destruct (Buf.ok_clear HDRBUF (header_buf c)) as [? _]; [lia|apply Hi|].
    destruct Hi; by constructor. }
  wp_use (wp_parse_start K c0 e (proj1 Hc0)); [change (received c0) with (received c); lia| |intros _ c' [? _]; done].
  intros n c1 (Hc1 & _ & Hn). apply (calm_trans _ _ _ _ Hc0) in Hc1 as (Hi1 & Hr1 & Hs1).
  wps. wp_use (wp_parse_headers K (Z.to_nat e) c1 n e (Framing None false false) Hi1);
    [lia|rewrite Hr1; lia|lia| |intros _ c' [? _]; done].
  intros f c2 (Hi2 & Hr2 & Hs2). destruct (_ && _); [by wps|]. wps.
  eapply (h1_wp_drain K); [done|rewrite Hr2, Hr1; lia|]. intros b x Hi3 Hx Hrx Hk.
  rewrite Hr2, Hr1 in Hrx. wps. wp_use (wp_set_framing K (with_recv c2 b) f Hi3); [simpl; lia|done| |done].
  intros [] c4 (Hi4 & Hr4 & Ha4). wps. split; [done|]. split; [|done]. rewrite Hr4. simpl. rewrite Hrx. len_lia.
Qed.

(** ** The loop *)

Definition measure (c : t) : Z :=
  2 * len (received c) + match state c with Done => 1 | _ => 0 end.

Lemma body_step_measure K c c' : body_step K c true c' → measure c' < measure c.
Proof.
  intros (_ & _ & _ & _ & x & out & He & Hr & _). apply eats_ok in He as [Hx _]. unfold measure. rewrite Hr.
  rewrite length_app. repeat case_match; lia.
Qed.

(** Between two messages, or in one whose headers nobody has read. *)
Definition fresh (c : t) : Prop := state c = Idle ∨ headers_available c = true.

Lemma body_step_goes K c c' go :
  body_step K c go c' → state c ≠ Idle →
  inv K c' ∧ (go = true → measure c' < measure c) ∧ (fresh c → fresh c').
Proof.
  intros Hb Hs. split; [apply Hb|]. split; [intros ->; by eapply body_step_measure|].
  intros [?|Ha]; [done|]. right. destruct Hb as (_ & -> & _). done.
Qed.

Lemma h1_wp_recv_step K c :
  inv K c → K ≤ LIMIT →
  wp False (recv_step grant HDRBUF DATABUF)
    (λ go c', inv K c' ∧ (go = true → measure c' < measure c) ∧ (fresh c → fresh c')) (λ _, inv K) c.
Proof.
  intros Hi HK. unfold recv_step. wps. destruct (state c) as [|r| | |] eqn:Hst.
  - wp_use (wp_start_line K c Hi HK); [|done]. intros go c' [Hi' Hgo]. split; [done|]. split.
    + intros ->. unfold measure. rewrite Hst. repeat case_match; lia.
    + intros Hf. destruct go; [right; apply Hgo|by subst c'].
  - wp_use (wp_content_length K c r Hi Hst); [|done]. intros go c' Hb. apply (body_step_goes K c c' go Hb). by rewrite Hst.
  - wp_use (wp_chunked K c Hi Hst); [|by intros e c' ->]. intros go c' Hb. apply (body_step_goes K c c' go Hb). by rewrite Hst.
  - wps. wp_use (wp_until_close K c Hi); [|done]. intros [] c' (? & Ha & _). wps. split; [done|]. split; [done|].
    unfold fresh. rewrite Hst, Ha. intros [?|?]; [done|by right].
  - wp_use (wp_next_message K c Hi); [|done]. intros go c' (Hi' & Hr' & _ & Hgo). split; [done|]. split.
    + intros ->. destruct Hgo as [Hgo _]. unfold measure. by rewrite Hr', Hgo, Hst; lia.
    + intros Hf. destruct go; [left; apply Hgo|]. by destruct Hgo as [-> _].
Qed.

Lemma h1_wp_recv_loop K fuel c :
  inv K c → K ≤ LIMIT → measure c ≤ Z.of_nat fuel →
  wp False (recv_loop grant HDRBUF DATABUF fuel) (λ _ c', inv K c' ∧ (fresh c → fresh c')) (λ _, inv K) c.
Proof.
  revert c. induction fuel as [|fuel IH]; intros c Hi HK Hm; cbn [recv_loop]; wps;
    (wp_use (h1_wp_recv_step K c Hi HK); [|done]); intros go c' (Hi' & Hgo & Hf); destruct go; try (by wps);
    specialize (Hgo eq_refl).
  - unfold measure in *. exfalso. repeat case_match; lia.
  - wp_use (IH c' Hi' HK ltac:(lia)); [|done]. intros _ c2 [? ?]. split; [done|auto].
Qed.

Lemma h1_wp_feed_data K c d :
  inv K c → K + len d ≤ LIMIT →
  wp False (feed_data grant HDRBUF DATABUF BUF d) (λ _, inv (K + len d)) (λ _, inv (K + len d)) c.
Proof.
  intros Hi HK. unfold feed_data. wps. eapply h1_wp_recv_len; [done|].
  assert (∀ b, Buf.ok BUF b → len (Buf.vis b) ≤ len (received c) + len d → inv (K + len d) (with_recv c b)) as Hw.
  { intros b Hb Hl. destruct Hi. constructor; simpl; try done. lia. }
  pose proof (Hw (recv_buf c) (inv_recv _ _ Hi) ltac:(lia)) as Hsame.
  assert (with_recv c (recv_buf c) = c) as Hid by (by destruct c). rewrite Hid in Hsame.
  destruct (Z.ltb_spec BUF (len (received c) + len d)); [by wps|]. wps. pose proof buf_size.
  unfold wp at 1. destruct (Buf.ok_try_reserve BUF grant (len d) (recv_buf c) (inv_recv _ _ Hi))
    as (r & b & -> & Hb & Hv & Hc); [lia|apply size_usize; lia|].
  destruct Hc as [[-> Hsp]| ->]; [|apply Hw; [done|rewrite Hv; lia]].
  wps. unfold wp at 1. simpl.
  destruct (Buf.ok_extend BUF grant d b Hb) as (b' & -> & Hb' & Hv' & _); [apply Hsp; lia|rewrite Hv; lia|].
  rewrite Hv in Hv'. unfold process_recv. wps.
  change (c <| recv_buf := b |> <| recv_buf := b' |>) with (with_recv c b').
  assert (inv (K + len d) (with_recv c b')) as Hi' by (apply Hw; [done|rewrite Hv'; len_lia]).
  eapply h1_wp_recv_len; [exact Hi'|].
  wp_use (h1_wp_recv_loop (K + len d) (2 * Z.to_nat (len (received (with_recv c b'))) + 2) (with_recv c b') Hi' HK);
    [unfold measure; case_match; lia|by intros _ c' [? _]|done].
Qed.

End receive.
