(* ===== verification/Http1Api.v ===== *)
(** * Properties of the HTTP/1.1 connection

    Sequences of calls with arbitrary input, and the delivery of bodies through
    bounded buffers. *)
From stdpp Require Import strings.
From S2P Require Import Prelude Errors Hoare Varint Cursor Buf Http Http1Parse Http1Connection Http1Inv Http1Body Http1Receive.
Import Parse Http1.

(** ** Calls *)

Inductive call : Type :=
| FeedData (data : list Z)
| FeedDataTimed (data : list Z) (now : Z)
| PollOutput (cap : Z)
| PollEvent
| SendHeaders (sid : Z) (headers : list (list Z * list Z))
| SendData (sid : Z) (data : list Z)
| OpenStream (headers : list (list Z * list Z))
| RecvHeaders (sid : Z)
| RecvBody (sid cap : Z)
| SetTimeouts (config : TimeoutConfig) (now : Z)
| HandleTimeout (now : Z)
| NoteRecvActivity (now : Z).

(** Output buffers have a length. *)
Definition call_ok (a : call) : Prop :=
  match a with PollOutput cap | RecvBody _ cap => 0 ≤ cap | _ => True end.

(** Bytes and streams a call adds. *)
Definition cost (a : call) : Z :=
  match a with FeedData d | FeedDataTimed d _ => len d | OpenStream _ => 1 | _ => 0 end.

Section api.
Context `{Platform} `{Sizes}.

Definition perform (a : call) : M Error t unit :=
  match a with
  | FeedData d => feed_data grant HDRBUF DATABUF BUF d
  | FeedDataTimed d now => feed_data_timed grant HDRBUF DATABUF BUF d now
  | PollOutput cap => _ ← poll_output grant cap; mret tt
  | PollEvent => _ ← poll_event; mret tt
  | SendHeaders sid hs => send_headers grant BUF sid hs
  | SendData sid d => _ ← send_data grant BUF sid d; mret tt
  | OpenStream hs => _ ← open_stream grant BUF hs; mret tt
  | RecvHeaders sid => _ ← recv_headers sid; mret tt
  | RecvBody sid cap => _ ← recv_body sid cap; mret tt
  | SetTimeouts config now => modify (set_timeouts config now)
  | HandleTimeout now => handle_timeout now
  | NoteRecvActivity now => modify (note_recv_activity now)
  end.

(** The application goes on after an error; [None] is a panic. *)
Fixpoint run_calls (l : list call) (c : t) : option t :=
  match l with
  | [] => Some c
  | a :: l' => match perform a c with (Panic, _) => None | (_, c') => run_calls l' c' end
  end.

Fixpoint total_cost (l : list call) : Z :=
  match l with [] => 0 | a :: l' => cost a + total_cost l' end.
Lemma total_cost_nonneg l : 0 ≤ total_cost l.
Proof. induction l as [|[] l IH]; simpl; lia. Qed.

Lemma inv_new r : inv 0 (new r).
Proof.
  pose proof hdr_size. pose proof data_size. pose proof buf_size.
  destruct (Buf.ok_new HDRBUF) as [? _]; [lia|]. destruct (Buf.ok_new DATABUF) as [? _]; [lia|].
  destruct (Buf.ok_new BUF) as [? Hv]; [lia|]. constructor; simpl; try done; rewrite Hv; done.
Qed.

Lemma h1_wp_handle_timeout K c now : inv K c → wp False (handle_timeout now) (λ _, inv K) (λ _, inv K) c.
Proof.
  intros Hi. unfold handle_timeout, time_out, push_event. wps. destruct (closed c); [by wps|]. wps.
  set (c0 := (if sent_since_tick c then _ else _) <| sent_since_tick := false |>).
  assert (inv K c0) as Hi0 by (subst c0; destruct (sent_since_tick c); destruct Hi; by constructor).
  clearbody c0.
  assert (inv K (c0 <| closed := true |> <| events := push_capped 32 (events c0) Timeout |>)).
  { destruct Hi0. constructor; try done. by apply len_push_capped. }
  destruct (_ && _); [by wps|]. destruct (idle_timeout_us _); [|by wps]. destruct (_ <=? now); by wps.
Qed.

Lemma h1_wp_poll_output K c cap :
  inv K c → 0 ≤ cap → wp False (poll_output grant cap) (λ _, inv K) (λ _, inv K) c.
Proof.
  intros Hi Hcap. unfold poll_output. wps. pose proof (inv_send _ _ Hi) as [Hb Ho].
  eapply wp_lift_ok; [by apply (Buf.ok_blen BUF)|].
  destruct (Z.leb_spec (len (sent c)) (send_offset c)); [by wps|]. wps.
  eapply wp_lift_ok; [apply usub_ok; lia|]. wps. eapply wp_lift_ok; [by apply (Buf.ok_as_slice BUF)|]. wps.
  eapply wp_lift_ok; [apply slice_eq; lia|]. wps. simpl.
  set (n := Z.min _ cap). destruct (Z.leb_spec (len (sent c)) (send_offset c + n)); wps.
  - pose proof buf_size. destruct (Buf.ok_clear BUF (send_buf c)) as [Hb' Hv']; [lia|done|].
    destruct (Buf.ok_shrink_to (E:=Error) BUF grant SHRINK_RETAIN _ Hb') as (b & Es & ? & Hvb).
    eapply wp_lift_ok; [exact Es|]. wps. destruct Hi; constructor; simpl; try done.
    rewrite Hvb, Hv'. simpl. split; [done|lia].
  - destruct Hi; constructor; simpl; try done. split; [done|lia].
Qed.

Lemma h1_perform_ok a K c :
  inv K c → call_ok a → K + cost a ≤ LIMIT →
  wp False (perform a) (λ _, inv (K + cost a)) (λ _, inv (K + cost a)) c.
Proof.
  intros Hi Ha HK.
  assert (∀ {A} (m : M Error t A) K, wp False m (λ _, inv K) (λ _, inv K) c →
    wp False (_ ← m; mret tt) (λ _, inv K) (λ _, inv K) c) as Hm.
  { intros A m K' Hm. wps. wp_use Hm; [|done]. intros. by wps. }
  assert (∀ {A} (m : M Error t A), wp False m (λ _, calm K c) (λ _, calm K c) c →
    wp False m (λ _, inv K) (λ _, inv K) c) as Hq.
  { intros A m Hc. wp_use Hc; by intros ? ? [? _]. }
  destruct a; simpl in Ha, HK |- *; rewrite ?Z.add_0_r; try apply Hm.
  - by apply h1_wp_feed_data.
  - unfold feed_data_timed. wps. case_match; wps; apply h1_wp_feed_data; try done. destruct Hi; by constructor.
  - by apply h1_wp_poll_output.
  - unfold poll_event. wps. destruct (connected_emitted c); simpl; wps; [|destruct Hi; by constructor].
    destruct (events c) as [|e evs] eqn:He; wps; [done|].
    destruct Hi; constructor; simpl; try done. rewrite He in inv_events. simpl in inv_events. lia.
  - by apply Hq, h1_wp_send_headers.
  - by apply Hq, h1_wp_send_data.
  - apply h1_wp_open_stream; [done|lia].
  - by apply Hq, h1_wp_recv_headers.
  - wp_use (h1_wp_recv_body K c sid cap Hi Ha); [by intros r c' [? _]|by intros e c' [-> _]].
  - wps. destruct Hi; by constructor.
  - by apply h1_wp_handle_timeout.
  - wps. destruct Hi; by constructor.
Qed.

Lemma h1_run_calls_ok l K c :
  inv K c → Forall call_ok l → K + total_cost l ≤ LIMIT →
  ∃ c', run_calls l c = Some c' ∧ inv (K + total_cost l) c'.
Proof.
  intros Hc Hl. revert K c Hc. induction Hl as [|a l Ha _ IH]; intros K c Hc HK; simpl in *.
  { exists c. by rewrite Z.add_0_r. }
  pose proof (total_cost_nonneg l).
  pose proof (h1_perform_ok a K c Hc Ha ltac:(lia)) as Hp. unfold wp in Hp.
  destruct (perform a c) as [[| |] c1]; [| |done].
  all: destruct (IH (K + cost a) c1 Hp) as (c' & -> & Hc'); [lia|]; exists c'; split; [done|].
  all: by replace (K + (cost a + total_cost l)) with (K + cost a + total_cost l) by lia.
Qed.

(** ** Bodies *)

(** A message with a counted body in progress, or complete and not left yet. *)
Definition in_body (K : Z) (c : t) : Prop :=
  inv K c ∧
  match state c with
  | BodyContentLength _ | BodyChunked => body_finished c = false
  | Done => body_finished c = true
  | Idle | BodyUntilClose => False
  end.

(** From [c] to [c'] the bytes [x] joined the body, as the framing of the
    received bytes demands, whatever comes behind them. *)
Definition moves (c c' : t) (x : list Z) : Prop :=
  body c' = body c ++ x ∧
  ∀ l, deframe (bst c) (received c ++ l) =
       let '(o, s, r) := deframe (bst c') (received c' ++ l) in (x ++ o, s, r).

Lemma moves_refl c c' :
  bst c' = bst c → received c' = received c → body c' = body c → moves c c' [].
Proof.
  intros Hs Hr Hb. unfold moves. rewrite Hs, Hr, Hb. split; [by rewrite app_nil_r|].
  intros l. by destruct (deframe _ _) as [[? ?] ?].
Qed.
Lemma moves_trans c1 c2 c3 x y : moves c1 c2 x → moves c2 c3 y → moves c1 c3 (x ++ y).
Proof.
  intros [B1 D1] [B2 D2]. split; [by rewrite B2, B1, app_assoc|]. intros l. rewrite D1, D2.
  destruct (deframe _ _) as [[? ?] ?]. by rewrite app_assoc.
Qed.

(** The connection is still in the message, or went on to the next one after the
    whole body was read. *)
Definition stays (K : Z) (c c' : t) : Prop :=
  in_body K c' ∧ headers_available c' = headers_available c ∧ ∃ x, moves c c' x.
Definition leaves (K : Z) (c c' : t) : Prop :=
  inv K c' ∧ headers_available c = false ∧ fresh c' ∧
  ∃ c1 x, moves c c1 x ∧ bst c1 = Complete ∧ body c1 = [].

Lemma stays_trans K c1 c2 c3 : stays K c1 c2 → stays K c2 c3 → stays K c1 c3.
Proof.
  intros (_ & Ha & x & Hx) (Hi & Ha' & y & Hy). split; [done|]. split; [congruence|]. exists (x ++ y).
  by eapply moves_trans.
Qed.
Lemma stays_leaves K c1 c2 c3 : stays K c1 c2 → leaves K c2 c3 → leaves K c1 c3.
Proof.
  intros (_ & Ha & x & Hx) (Hi & Ha' & Hf & c & y & Hy & Hc). split; [done|]. split; [congruence|]. split; [done|].
  exists c, (x ++ y). split; [by eapply moves_trans|done].
Qed.

Lemma body_step_stays K c c' go :
  body_finished c = false → bst c ≠ Broken → body_step K c go c' → stays K c c'.
Proof.
  intros Hbf Hnb (Hi & Ha' & _ & Hf & Hgo).
  assert (∃ x, moves c c' x) as Hm.
  { destruct go; [|destruct Hgo as (? & ? & ?); exists []; by apply moves_refl].
    destruct Hgo as (x & out & He & Hr & Hb). exists out. split; [done|]. intros l.
    rewrite Hr, <- app_assoc. by apply eats_deframe. }
  split; [|done]. split; [done|].
  assert (bst c' ≠ Broken) as Hnb'.
  { destruct go; [|by destruct Hgo as [-> _]]. destruct Hgo as (x & out & He & _).
    destruct He; repeat case_match; done. }
  unfold bst in Hf, Hnb'. rewrite Hbf in Hf. destruct (state c'); try done. by destruct (chunk_state c').
Qed.

Lemma wp_body_step K c :
  in_body K c → K ≤ LIMIT →
  wp False (recv_step grant HDRBUF DATABUF)
    (λ go c', (stays K c c' ∨ leaves K c c') ∧ (go = true → measure c' < measure c))
    (λ _ _, True) c.
Proof.
  intros Hib HK. pose proof Hib as (Hi & Hst). unfold recv_step. wps.
  assert (moves c c []) as Hstay by (by apply moves_refl).
  destruct (state c) as [|r| | |] eqn:Hs; try done.
  - wp_use (wp_content_length K c r Hi Hs); [|done]. intros go c' Hb. split.
    + left. apply (body_step_stays K c c' go); try done. unfold bst. by rewrite Hs.
    + intros ->. by eapply body_step_measure.
  - wp_use (wp_chunked K c Hi Hs); [|done]. intros go c' Hb. split.
    + left. apply (body_step_stays K c c' go); try done. unfold bst. rewrite Hs. by destruct (chunk_state c).
    + intros ->. by eapply body_step_measure.
  - wp_use (wp_next_message K c Hi); [|done]. intros go c' (Hi' & Hr' & _ & Hgo). destruct go.
    + destruct Hgo as (Hs' & Ha & Hb). split.
      * right. split; [done|]. split; [done|]. split; [by left|]. exists c, []. split; [done|].
        split; [|done]. unfold bst. by rewrite Hs.
      * intros _. unfold measure. rewrite Hr', Hs', Hs. lia.
    + destruct Hgo as [-> _]. split; [|done]. left. split; [done|]. split; [done|]. by exists [].
Qed.

Lemma wp_body_loop K fuel c :
  in_body K c → K ≤ LIMIT → measure c ≤ Z.of_nat fuel →
  wp False (recv_loop grant HDRBUF DATABUF fuel) (λ _ c', stays K c c' ∨ leaves K c c') (λ _ _, True) c.
Proof.
  revert c. induction fuel as [|fuel IH]; intros c Hib HK Hm; cbn [recv_loop]; wps;
    (wp_use (wp_body_step K c Hib HK); [|done]); intros go c' [Hc' Hgo]; destruct go; try (by wps);
    specialize (Hgo eq_refl).
  - unfold measure in *. exfalso. repeat case_match; lia.
  - destruct Hc' as [Hs|Hl].
    + wp_use (IH c' (proj1 Hs) HK ltac:(lia)); [|done]. intros _ c2 [?|?]; [left; by eapply stays_trans|].
      right. by eapply stays_leaves.
    + destruct Hl as (Hi' & Ha & Hf & Hx). wp_use (h1_wp_recv_loop K fuel c' Hi' HK ltac:(lia)); [|done].
      intros _ c2 [? Hf2]. right. split; [done|]. split; [done|]. split; [by apply Hf2|done].
Qed.

(** Feeding appends to the input first. *)
Lemma feed_moves K c d :
  in_body K c → K + len d ≤ LIMIT →
  match feed_data grant HDRBUF DATABUF BUF d c with
  | (Ok _, c') => ∃ b, Buf.vis b = received c ++ d ∧
                       (stays (K + len d) (with_recv c b) c' ∨ leaves (K + len d) (with_recv c b) c')
  | (Err _, _) => True
  | (Panic, _) => False
  end.
Proof.
  intros Hib HK. pose proof Hib as (Hi & Hst).
  enough (wp False (feed_data grant HDRBUF DATABUF BUF d)
    (λ _ c', ∃ b, Buf.vis b = received c ++ d ∧
       (stays (K + len d) (with_recv c b) c' ∨ leaves (K + len d) (with_recv c b) c'))
    (λ _ _, True) c) as Hw by (unfold wp in Hw; by destruct (feed_data _ _ _ _ _ _) as [[]]).
  unfold feed_data. wps. eapply h1_wp_recv_len; [done|].
  destruct (Z.ltb_spec BUF (len (received c) + len d)); [by wps|]. wps. pose proof buf_size.
  unfold wp at 1. destruct (Buf.ok_try_reserve BUF grant (len d) (recv_buf c) (inv_recv _ _ Hi))
    as (r & b & -> & Hb & Hv & Hc); [lia|apply size_usize; lia|].
  destruct Hc as [[-> Hsp]| ->]; [|done]. wps. unfold wp at 1. simpl.
  destruct (Buf.ok_extend BUF grant d b Hb) as (b' & -> & Hb' & Hv' & _); [apply Hsp; lia|rewrite Hv; lia|].
  rewrite Hv in Hv'. unfold process_recv. wps.
  change (c <| recv_buf := b |> <| recv_buf := b' |>) with (with_recv c b').
  assert (in_body (K + len d) (with_recv c b')) as Hib'.
  { split; [|done]. destruct Hi. constructor; simpl; try done. rewrite Hv'. len_lia. }
  eapply h1_wp_recv_len; [apply Hib'|].
  eapply wp_mono; [apply (wp_body_loop (K + len d)); [done|done|unfold measure; destruct (state (with_recv c b')); lia]|cbv beta|done].
  intros _ c' Hc'. by exists b'.
Qed.

(** *** Feeds and reads *)

Inductive body_op : Type := Feed (data : list Z) | Read (cap : Z).

(** The next message has begun, or nothing of it is there yet. *)
Definition moved_on (c c' : t) : bool :=
  match state c' with
  | Idle => true
  | _ => negb (headers_available c) && headers_available c'
  end.

(** The bytes read up to the end of the message, whether it was reached, and the
    state; feeds must be accepted, a read that finds nothing returns nothing. *)
Fixpoint run_body (ops : list body_op) (c : t) : option (list Z * bool * t) :=
  match ops with
  | [] => Some ([], false, c)
  | Feed d :: ops' =>
      match feed_data grant HDRBUF DATABUF BUF d c with
      | (Ok _, c') => if moved_on c c' then Some ([], true, c') else run_body ops' c'
      | _ => None
      end
  | Read cap :: ops' =>
      match recv_body (current_stream_id c) cap c with
      | (Ok (out, true), c') => Some (out, true, c')
      | (Ok (out, false), c') =>
          '(rest, over, c2) ← run_body ops' c'; Some (out ++ rest, over, c2)
      | (Err WouldBlock, c') => run_body ops' c'
      | _ => None
      end
  end.

Fixpoint fed_bytes (ops : list body_op) : list Z :=
  match ops with [] => [] | Feed d :: ops' => d ++ fed_bytes ops' | Read _ :: ops' => fed_bytes ops' end.
Definition op_ok (o : body_op) : Prop := match o with Read cap => 0 ≤ cap | Feed _ => True end.

(** What was read against what the reference decoder makes of the input: all of
    it when the message is over; before that what is read, what is buffered and
    what the input still holds, in this order. *)
Definition decoded (c : t) (fed out : list Z) (over : bool) (c' : t) : Prop :=
  ∃ x s r, deframe (bst c) (received c ++ fed) = (x, s, r) ∧
    if over then s = Complete ∧ out = body c ++ x
    else ∃ o, deframe (bst c') (received c') = (o, s, r) ∧ out ++ body c' ++ o = body c ++ x.

Lemma decoded_feed c c1 b d fed out over c' x :
  Buf.vis b = received c ++ d → moves (with_recv c b) c1 x →
  decoded c1 fed out over c' → decoded c (d ++ fed) out over c'.
Proof.
  intros Hb [Hmb Hmd] (y & s & r & Hd & Ho). specialize (Hmd fed).
  change (body (with_recv c b)) with (body c) in Hmb. change (bst (with_recv c b)) with (bst c) in Hmd.
  change (received (with_recv c b)) with (Buf.vis b) in Hmd. rewrite Hb, Hd, <- app_assoc in Hmd.
  exists (x ++ y), s, r. split; [done|]. by rewrite app_assoc, <- Hmb.
Qed.
Lemma decoded_end c b d fed c1 c' x :
  Buf.vis b = received c ++ d → moves (with_recv c b) c1 x → bst c1 = Complete → body c1 = [] →
  decoded c (d ++ fed) [] true c'.
Proof.
  intros Hb Hm Hs Hn. eapply decoded_feed; [done|exact Hm|]. exists [], Complete, (received c1 ++ fed).
  rewrite Hs, Hn. done.
Qed.
Lemma decoded_read c b fed out1 out over c' :
  body c = out1 ++ Buf.vis b → decoded (with_data c b) fed out over c' → decoded c fed (out1 ++ out) over c'.
Proof.
  intros Hb (y & s & r & Hd & Ho). exists y, s, r. split; [done|]. simpl in Ho. rewrite Hb.
  destruct over.
  - destruct Ho as [-> ->]. by rewrite app_assoc.
  - destruct Ho as (o & ? & Ho). exists o. split; [done|]. by rewrite <- !app_assoc, Ho.
Qed.

Lemma run_body_decoded ops K c out over c' :
  in_body K c → Forall op_ok ops → K + len (fed_bytes ops) ≤ LIMIT →
  run_body ops c = Some (out, over, c') → decoded c (fed_bytes ops) out over c'.
Proof.
  intros Hib Hok. revert K c out over Hib. induction Hok as [|o ops Ho Hok IH]; intros K c out over Hib HK Hrun.
  { injection Hrun as <- <- <-. destruct (deframe (bst c) (received c)) as [[o s] r] eqn:Hd.
    exists o, s, r. cbn [fed_bytes]. rewrite app_nil_r. split; [done|]. by exists o. }
  destruct o as [d|cap]; cbn [run_body fed_bytes] in *.
  - rewrite length_app in HK. pose proof (feed_moves K c d Hib ltac:(lia)) as Hf.
    destruct (feed_data _ _ _ _ _ _) as [[u| |] c1]; [|done..]. unfold moved_on in Hrun.
    destruct Hf as (b & Hb & [(Hib1 & Ha & x & Hm)|(_ & Ha & Hf & c2 & x & Hm & Hs & Hn)]).
    + change (headers_available (with_recv c b)) with (headers_available c) in Ha. rewrite Ha in Hrun.
      eapply decoded_feed; [exact Hb|exact Hm|]. apply (IH (K + len d) c1 out over Hib1); [lia|].
      destruct Hib1 as [_ Hst]. destruct (state c1), (headers_available c); done.
    + change (headers_available (with_recv c b)) with (headers_available c) in Ha. rewrite Ha in Hrun.
      assert (Some ([] : list Z, true, c1) = Some (out, over, c')) as [= <- <- <-].
      { destruct Hf as [Hf|Hf]; rewrite Hf in Hrun; [done|]. by destruct (state c1). }
      by eapply decoded_end.
  - pose proof Hib as (Hi & Hst).
    pose proof (h1_wp_recv_body K c (current_stream_id c) cap Hi Ho) as Hr. unfold wp in Hr.
    destruct (recv_body _ _ _) as [[[out1 fin1]|e|] c1]; [| |done].
    + destruct Hr as (Hi1 & (b & ->) & Hb & _ & Hfin). simpl in Hb, Hfin. destruct fin1.
      * injection Hrun as <- <- <-. symmetry in Hfin. apply andb_true_iff in Hfin as [Hz Hbf].
        apply Z.eqb_eq in Hz. assert (bst c = Complete) as Hc by (unfold bst; rewrite Hbf in Hst; by destruct (state c)).
        exists [], Complete, (received c ++ fed_bytes ops). rewrite Hc, app_nil_r. split; [done|]. split; [done|].
        rewrite Hb. destruct (Buf.vis b); [by rewrite app_nil_r|done].
      * destruct (run_body ops (with_data c b)) as [[[rest over'] c2]|] eqn:Hrest; [|done].
        injection Hrun as <- <- <-. apply (decoded_read c b); [done|]. by apply (IH K (with_data c b)).
    + destruct Hr as [-> _]. destruct e; try done. by apply (IH K).
Qed.

End api.

(** ** Properties *)

(** C31: No input crashes an HTTP/1.1 connection.  Whatever the role, the buffer
    sizes and the sizes the allocator grants, every sequence of calls to the
    interface with arbitrary received bytes, up to a gigabyte in total, runs
    without a panic: no index out of range, no overflow, and the receive loop
    returns. *)
Theorem http1_never_panics `{Platform} `{Sizes} r l :
  Forall call_ok l → total_cost l ≤ LIMIT → is_Some (run_calls l (new r)).
Proof.
  intros Hl HT. destruct (h1_run_calls_ok l 0 (new r) (inv_new r) Hl HT) as (c' & -> & _). by eexists.
Qed.

(** C19: Bodies are delivered exactly.  From a message with a counted or chunked
    body, under any sequence of feeds and reads of any sizes, whatever the body
    buffer's capacity and the allocator's refusals: when the end of the message
    is reached, the bytes read (with what was buffered before) are the body the
    reference decoder finds in the input, and it is complete; before that,
    the bytes read, the bytes buffered and the bytes the decoder still finds in
    the unread input are together that body, in order. *)
Theorem http1_body_exact `{Platform} `{Sizes} K c ops out over c' :
  in_body K c → Forall op_ok ops → K + len (fed_bytes ops) ≤ LIMIT →
  run_body ops c = Some (out, over, c') →
  ∃ x s rest, deframe (bst c) (received c ++ fed_bytes ops) = (x, s, rest) ∧
    if over then s = Complete ∧ out = body c ++ x
    else ∃ y, deframe (bst c') (received c') = (y, s, rest) ∧ out ++ body c' ++ y = body c ++ x.
Proof. intros Hib Hok HK Hr. exact (run_body_decoded ops K c out over c' Hib Hok HK Hr). Qed.

(** ** Sessions *)

#[local] Existing Instance platform64.
#[local] Existing Instance demo_sizes.

Definition demo_head : list Z := bytes "POST /a HTTP/1.1" ++ CRLF ++ bytes "Transfer-Encoding: chunked" ++ CRLF ++ CRLF.
Definition demo_start : list call := [FeedData demo_head; PollEvent; PollEvent; RecvHeaders 1].
Definition demo_server : t := default (new Server) (run_calls demo_start (new Server)).

Lemma http1_never_panics_witness : is_Some (run_calls demo_start (new Server)).
Proof.
  apply (http1_never_panics Server demo_start); [|vm_compute; done].
  repeat apply Forall_cons_2; try apply Forall_nil_2; done.
Defined.

Lemma demo_in_body : in_body (total_cost demo_start) demo_server.
Proof.
  destruct (h1_run_calls_ok demo_start 0 (new Server) (inv_new Server)) as (c & Hc & Hi);
    [repeat apply Forall_cons_2; try apply Forall_nil_2; done|vm_compute; done|].
  split; [|vm_compute; done]. unfold demo_server. rewrite Hc. exact Hi.
Qed.

Definition demo_ops : list body_op :=
  [Feed (bytes "3"); Feed (CRLF ++ bytes "ab"); Read 10; Feed (bytes "c" ++ CRLF ++ bytes "0" ++ CRLF ++ CRLF); Read 10].
Definition demo_end : t := match run_body demo_ops demo_server with Some (_, _, c) => c | None => demo_server end.

Lemma http1_body_exact_witness :
  ∃ x s rest, deframe (bst demo_server) (received demo_server ++ fed_bytes demo_ops) = (x, s, rest) ∧
    s = Complete ∧ bytes "abc" = body demo_server ++ x.
Proof.
  apply (http1_body_exact (total_cost demo_start) demo_server demo_ops (bytes "abc") true demo_end demo_in_body).
  - repeat apply Forall_cons_2; try apply Forall_nil_2; unfold op_ok; lia || done.
  - vm_compute. done.
  - vm_compute. reflexivity.
Defined.

(** The state and the results after a list of calls. *)
Definition after (l : list call) (r : Role) : t := default (new r) (run_calls l (new r)).

(** The end of a body can be lost.  When the last chunk arrives after the
    application has read the headers and all the body data, the receive loop goes
    on to the next message within the same call and clears the end marker: the
    following [recv_body] answers [WouldBlock] and never reports the end, although
    the message is complete. *)
Theorem http1_end_of_body_lost :
  let c := after (demo_start ++ [FeedData (bytes "3" ++ CRLF ++ bytes "abc" ++ CRLF); RecvBody 1 10;
                                 FeedData (bytes "0" ++ CRLF ++ CRLF)]) Server in
  state c = Idle ∧ (recv_body 1 10 c).1 = Err WouldBlock ∧ last (events c) = Some (Finished 1).
Proof. vm_compute. done. Qed.

(** A NUL in the request target forges header fields.  [parse_request_line]
    accepts the byte and the store is NUL-separated, so the peer's request line
    [GET /<NUL>x-admin<NUL>1 HTTP/1.1] is reported as the path [/] followed by a
    field [x-admin: 1] that was never sent as a field. *)
Theorem http1_nul_forges_field :
  let line := bytes "GET /" ++ [0] ++ bytes "x-admin" ++ [0] ++ bytes "1 HTTP/1.1" ++ CRLF ++ CRLF in
  let c := after [FeedData line] Server in
  (recv_headers 1 c).1 = Ok [(bytes ":method", bytes "GET"); (bytes ":path", bytes "/"); (bytes "x-admin", bytes "1")].
Proof. vm_compute. done. Qed.

(** A malformed Content-Length is taken for none.  A request with
    [Content-Length: 3x] is reported complete without a body, and the bytes
    behind its headers are read as the next request. *)
Theorem http1_bad_length_smuggles :
  let head := bytes "POST / HTTP/1.1" ++ CRLF ++ bytes "Content-Length: 3x" ++ CRLF ++ CRLF in
  let inner := bytes "GET /x HTTP/1.1" ++ CRLF ++ CRLF in
  let c := after [FeedData (head ++ inner); RecvHeaders 1; FeedData []] Server in
  current_stream_id c = 2 ∧
  (recv_headers 2 c).1 = Ok [(bytes ":method", bytes "GET"); (bytes ":path", bytes "/x")].
Proof. vm_compute. done. Qed.
