(* ===== verification/Http1Deliver.v ===== *)
(** * Delivery of chunked bodies on an HTTP/1.1 connection

    A chunked body arrives whole: the receive loop refuses none of a well-formed
    encoding, stops only for want of input or of room, and an application that
    goes on reading reaches the end. *)
From stdpp Require Import strings.
From S2P Require Import Prelude Errors Hoare Buf Http Http1Parse Http1Connection Http1Inv Http1Body Http1Receive Http1Api.
Import Parse Http1.

(** ** The encoding as it is consumed *)
Section wire.
Context `{Platform}.

Abbreviation sendable := (λ d : list Z, 0 < len d < 2 ^ 31).

(** [awaits st w y]: in the framing state [st] the rest [w] of an encoding is still
    to come, with the body bytes [y] in it. *)
Inductive awaits : bstate → list Z → list Z → Prop :=
| awaits_line chunks : Forall sendable chunks → awaits ChunkLine (chunked_wire chunks) (mjoin chunks)
| awaits_data r x chunks : 0 < len x → r = len x → Forall sendable chunks →
    awaits (InChunk r) (x ++ CRLF ++ chunked_wire chunks) (x ++ mjoin chunks)
| awaits_end chunks : Forall sendable chunks → awaits ChunkEnd (CRLF ++ chunked_wire chunks) (mjoin chunks)
| awaits_last : awaits Trailing CRLF []
| awaits_over : awaits Complete [] [].

(** The size line in front of an encoding. *)
Lemma wire_line chunks :
  Forall sendable chunks →
  ∃ line size rest, chunked_wire chunks = line ++ rest ∧ parse_chunk_size line = Ok (size, len line) ∧
    awaits (if size =? 0 then Trailing else InChunk size) rest (mjoin chunks).
Proof.
  destruct 1 as [|d chunks Hd Hch].
  - exists (hex_of 16 0 ++ CRLF), 0, CRLF. split; [done|]. split; [by apply parse_size_line|apply awaits_last].
  - exists (hex_of 16 (len d) ++ CRLF), (len d), (d ++ CRLF ++ chunked_wire chunks).
    split; [|split; [apply parse_size_line; lia|]].
    + unfold chunked_wire. rewrite fmap_cons. cbn [mjoin list_join]. unfold chunk. by rewrite <- !app_assoc.
    + rewrite (proj2 (Z.eqb_neq _ 0)) by lia. apply awaits_data; [lia|done..].
Qed.

(** What is consumed leaves the rest of the encoding. *)
Lemma awaits_eats st x l y out st' :
  awaits st (x ++ l) y → eats st x out st' → ∃ y', awaits st' l y' ∧ y = out ++ y'.
Proof.
  intros Ha He. destruct He as [r x Hx|x size Hp|r x Hx| | |x name value Hs Hp].
  - inversion Ha.
  - inversion Ha as [chunks Hch Es Hw| | | |]; subst.
    destruct (wire_line chunks Hch) as (line & n & rest & Hl & Hn & Ht).
    pose proof (chunk_size_more _ _ rest Hn) as Hm. rewrite <- Hl, Hw, (chunk_size_more _ _ l Hp) in Hm.
    injection Hm as -> Hlen. rewrite Hl in Hw. apply app_inj_1 in Hw as [_ ->]; [|lia]. by eexists.
  - inversion Ha as [|r' d chunks Hd Hr Hch Es Hw| | |]; subst.
    pose proof (app_inj_1 x (take (length x) d) l (drop (length x) d ++ CRLF ++ chunked_wire chunks)) as Hsp.
    rewrite app_assoc, take_drop in Hsp. destruct Hsp as [Hx1 Hl]; [len_lia|done|].
    exists (drop (length x) d ++ mjoin chunks). split; [|rewrite Hx1 at 1; by rewrite app_assoc, take_drop].
    rewrite Hl. destruct (Z.eqb_spec (len d - len x) 0).
    + rewrite drop_ge by lia. by apply awaits_end.
    + apply awaits_data; [len_lia..|done].
  - inversion Ha as [| |chunks Hch| |]; subst. eexists. split; [by apply awaits_line|done].
  - inversion Ha; subst. exists []. split; [apply awaits_over|done].
  - inversion Ha as [| | |Es Hw|]; subst. pose proof (header_line_parsed x) as Hl. rewrite Hp in Hl. simpl in Hl.
    destruct l; [rewrite app_nil_r in Hw; by rewrite <- Hw in Hs|].
    apply (f_equal length) in Hw. rewrite length_app in Hw. simpl in Hw. lia.
Qed.

(** A size line that is wrong stays wrong, and one that is not there yet is the only
    reason to wait for it. *)
Lemma wire_line_parsed buf l y e :
  awaits ChunkLine (buf ++ l) y → parse_chunk_size buf = Err e → e = WouldBlock ∧ l ≠ [].
Proof.
  intros Ha He. inversion Ha as [chunks Hch Es Hw| | | |]; subst.
  destruct (wire_line chunks Hch) as (line & n & rest & Hl & Hn & _). apply (chunk_size_more _ _ rest) in Hn.
  rewrite <- Hl, Hw in Hn. split; [|intros ->; rewrite app_nil_r in Hn; congruence].
  unfold parse_chunk_size in He, Hn. destruct (split_line buf) as [[ln c]|] eqn:Hs; cbn in He; [|by injection He].
  rewrite (split_line_more _ _ _ l Hs) in Hn. cbn in Hn. by destruct (parse_hex _).
Qed.

Lemma awaits_crlf st buf l y :
  awaits st (buf ++ l) y → st = ChunkEnd ∨ st = Trailing → 2 ≤ len buf ∨ l = [] → 2 ≤ len buf ∧ starts_with CRLF buf = true.
Proof.
  intros Ha Hst Hb. assert (∃ w, buf ++ l = CRLF ++ w) as [w Hw].
  { destruct Hst as [-> | ->]; inversion Ha; [by eexists|by exists []]. }
  assert (2 ≤ len buf) as Hl.
  { destruct Hb as [| ->]; [done|]. rewrite app_nil_r in Hw. rewrite Hw. len_lia. }
  split; [done|]. unfold starts_with. apply bool_decide_eq_true.
  rewrite <- (take_app_le buf l) by (simpl; lia). by rewrite Hw, take_app_length.
Qed.

End wire.

(** ** The receive loop *)
Section deliver.
Context `{Platform} `{Sizes}.
Hypothesis granted : ∀ k, grant k = true.
Hypothesis data_room : 0 < DATABUF.

(** The body bytes [total] are still to be read: those in the buffer, and those of
    the encoding whose rest is received or arrives as [fut]. *)
Definition pending (fut total : list Z) (c : t) : Prop :=
  ∃ y, awaits (bst c) (received c ++ fut) y ∧ body c ++ y = total.
(** Nothing more can be done without input or room. *)
Definition settled (fut : list Z) (c : t) : Prop := bst c = Complete ∨ fut ≠ [] ∨ DATABUF ≤ len (body c).
(** The body is over and the connection waits for the next message. *)
Definition at_rest (c : t) : Prop := state c = Idle ∧ received c = [] ∧ Buf.ok BUF (recv_buf c).

Lemma wp_and {A} (m : M Error t A) Q Q' R R' c :
  wp False m Q R c → wp False m Q' R' c → wp False m (λ a s, Q a s ∧ Q' a s) (λ e s, R e s ∧ R' e s) c.
Proof. unfold wp. by destruct (m c) as [[]]. Qed.

(** A step on a well-formed encoding is no error, and stands still for want of input
    or room only. *)
Lemma wp_chunked_goes K c fut y :
  inv K c → state c = BodyChunked → awaits (bst c) (received c ++ fut) y →
  wp False (process_chunked_body grant DATABUF)
    (λ go _, go = true ∨ fut ≠ [] ∨ DATABUF ≤ len (body c)) (λ _ _, False) c.
Proof.
  intros Hi Hst Ha. unfold process_chunked_body. wps. unfold bst in Ha. rewrite Hst in Ha.
  destruct (chunk_state c) as [|r| |].
  - wps. eapply wp_recv_bytes; [done|]. pose proof (chunk_size_parsed (received c)) as Hp.
    destruct (parse_chunk_size (received c)) as [[size consumed]|e|] eqn:Hps; simpl in Hp; [| |done].
    + wps. eapply (h1_wp_drain K); [done|lia|]. intros. wps. by left.
    + destruct (wire_line_parsed _ _ _ _ Ha Hps) as [-> Hf]. wps. by right; left.
  - wps. wp_use (wp_take_body K c r Hi); [|done]. intros [r'|] c' (_ & _ & Hc'); [wps; by left|]. wps. right.
    destruct Hc' as (_ & _ & Hh). inversion Ha as [|r1 x chunks Hx Hr Hch Es Hw| | |]; subst.
    destruct Hh as [Hh|[Hh|[Hh|[k Hk]]]]; [left|lia|by right|by rewrite granted in Hk].
    rewrite Hh in Hw. cbn in Hw. rewrite <- Hw. by destruct x.
  - wps. eapply h1_wp_recv_len; [done|]. destruct (Z.ltb_spec (len (received c)) 2) as [Hl|Hl].
    { wps. right; left. intros ->. destruct (awaits_crlf _ _ _ _ Ha) as [? _]; [auto..|lia]. }
    destruct (awaits_crlf _ _ _ _ Ha) as [_ Hs]; [auto..|]. wps. eapply wp_at_crlf; [done..|]. rewrite Hs. wps.
    eapply (h1_wp_drain K); [done|lia|]. intros. wps. by left.
  - wps. eapply h1_wp_recv_len; [done|]. destruct (Z.ltb_spec (len (received c)) 2) as [Hl|Hl].
    { wps. right; left. intros ->. destruct (awaits_crlf _ _ _ _ Ha) as [? _]; [auto..|lia]. }
    destruct (awaits_crlf _ _ _ _ Ha) as [_ Hs]; [auto..|]. wps. eapply wp_at_crlf; [done..|]. rewrite Hs. wps.
    eapply (h1_wp_drain K); [done|lia|]. intros. unfold finish_body, push_event. wps. by left.
Qed.

(** The step, and what is pending after it. *)
Definition advances (K : Z) (fut total : list Z) (c : t) (go : bool) (c' : t) : Prop :=
  in_body K c' ∧ headers_available c' = headers_available c ∧ pending fut total c' ∧
  if go then measure c' < measure c else settled fut c'.

Lemma chunked_advances K c c' fut y go :
  inv K c → state c = BodyChunked → body_finished c = false → awaits (bst c) (received c ++ fut) y →
  body_step K c go c' → go = true ∨ fut ≠ [] ∨ DATABUF ≤ len (body c) → advances K fut (body c ++ y) c go c'.
Proof.
  intros Hi Hst Hbf Ha Hb Hgo.
  assert (bst c ≠ Broken) as Hnb by (intros Hbr; rewrite Hbr in Ha; inversion Ha).
  destruct (body_step_stays K c c' go Hbf Hnb Hb) as (Hib & Hav & _). split; [done|]. split; [done|].
  destruct go.
  - split; [|by eapply body_step_measure]. destruct Hb as (_ & _ & _ & _ & x & out & He & Hr & Hbo).
    rewrite Hr, <- app_assoc in Ha. destruct (awaits_eats _ _ _ _ _ _ Ha He) as (y' & Ha' & ->).
    exists y'. split; [done|]. by rewrite Hbo, app_assoc.
  - destruct Hb as (_ & _ & _ & _ & Hs & Hr & Hbo). split; [exists y; by rewrite Hs, Hr, Hbo|].
    right. rewrite Hbo. by destruct Hgo.
Qed.

Lemma wp_deliver_step K c fut total :
  in_body K c → K ≤ LIMIT → pending fut total c →
  wp False (recv_step grant HDRBUF DATABUF)
    (λ go c', advances K fut total c go c' ∨ go = true ∧ measure c' < measure c ∧ at_rest c' ∧ total = [] ∧ fut = [])
    (λ _ _, False) c.
Proof.
  intros Hib HK (y & Ha & <-). pose proof Hib as (Hi & Hst). unfold recv_step. wps.
  destruct (state c) as [|r| | |] eqn:Hs; try done.
  - unfold bst in Ha. rewrite Hs in Ha. inversion Ha.
  - pose proof (wp_and _ _ _ _ _ _ (wp_chunked K c Hi Hs) (wp_chunked_goes K c fut y Hi Hs Ha)) as Hw.
    wp_use Hw; [|tauto]. intros go c' [Hb Hgo]. left. by apply (chunked_advances K c c' fut y).
  - assert (bst c = Complete) as Hc by (unfold bst; by rewrite Hs). pose proof Ha as Ha0. rewrite Hc in Ha. inversion Ha as [| | | |Es Hw]; subst.
    symmetry in Hw. apply app_nil in Hw as [Hr ->].
    wp_use (wp_next_message K c Hi); [|done]. intros [] c' (Hi' & Hr' & _ & Hgo).
    + right. destruct Hgo as (Hs' & _ & ->). split; [done|].
      split; [unfold measure; rewrite Hr', Hs', Hs; lia|]. split; [|done]. split; [done|]. split; [congruence|apply Hi'].
    + left. destruct Hgo as [-> _]. split; [done|]. split; [done|]. split; [by exists []|by left].
Qed.

Lemma rest_loop fuel c : at_rest c → recv_loop grant HDRBUF DATABUF fuel c = (Ok tt, c).
Proof.
  intros (Hs & Hr & Hb). assert (recv_step grant HDRBUF DATABUF c = (Ok false, c)) as Hstep.
  { unfold recv_step. erewrite M_step_ok by reflexivity. rewrite Hs. unfold try_parse_start_line.
    erewrite M_step_ok by (by apply recv_bytes_eq). by rewrite Hr. }
  destruct fuel; cbn [recv_loop]; by erewrite M_step_ok by exact Hstep.
Qed.

(** What a call has made of what is pending: it is still pending and nothing more
    can be done, or it was nothing and the message is left. *)
Definition delivered (K : Z) (fut total : list Z) (c c' : t) : Prop :=
  advances K fut total c false c' ∨ at_rest c' ∧ total = [] ∧ fut = [].

Lemma wp_deliver_loop K fuel c fut total :
  in_body K c → K ≤ LIMIT → pending fut total c → measure c ≤ Z.of_nat fuel →
  wp False (recv_loop grant HDRBUF DATABUF fuel) (λ _, delivered K fut total c) (λ _ _, False) c.
Proof.
  revert c. induction fuel as [|fuel IH]; intros c Hib HK Hp Hm; cbn [recv_loop]; wps;
    (wp_use (wp_deliver_step K c fut total Hib HK Hp); [|done]);
    intros go c' [(Hib' & Hav & Hp' & Hgo)|(-> & Hgo & Hr & Ht)].
  - destruct go; [|wps; by left]. unfold measure in *. exfalso. repeat case_match; lia.
  - unfold measure in *. exfalso. repeat case_match; lia.
  - destruct go; [|wps; by left]. wp_use (IH c' Hib' HK Hp' ltac:(lia)); [|done].
    intros _ c2 [(? & ? & ?)|?]; [left|by right]. split; [done|]. split; [congruence|done].
  - eapply wp_eq; [by apply rest_loop|]. by right.
Qed.

Lemma feed_delivers K c d fut total :
  in_body K c → K + len d ≤ LIMIT → pending (d ++ fut) total c → len (received c) + len d ≤ BUF →
  ∃ c', feed_data grant HDRBUF DATABUF BUF d c = (Ok tt, c') ∧ delivered (K + len d) fut total c c'.
Proof.
  intros Hib HK Hp Hfit. pose proof Hib as (Hi & Hst).
  enough (wp False (feed_data grant HDRBUF DATABUF BUF d) (λ _, delivered (K + len d) fut total c) (λ _ _, False) c) as Hw
    by (unfold wp in Hw; destruct (feed_data _ _ _ _ _ _) as [[[]| |] c']; [by exists c'|done..]).
  unfold feed_data. wps. eapply h1_wp_recv_len; [done|]. rewrite (proj2 (Z.ltb_ge _ _)) by lia. wps. pose proof buf_size.
  unfold wp at 1. destruct (Buf.ok_try_reserve BUF grant (len d) (recv_buf c) (inv_recv _ _ Hi))
    as (r & b & Hq & Hb & Hv & Hc); [lia|apply size_usize; lia|]. rewrite Hq.
  destruct Hc as [[-> Hsp]| ->].
  2: { destruct (Buf.oom_refused BUF grant (len d) (recv_buf c)) as [k Hk]; [by rewrite Hq|]. by rewrite granted in Hk. }
  wps. unfold wp at 1. simpl.
  destruct (Buf.ok_extend BUF grant d b Hb) as (b' & -> & Hb' & Hv' & _); [apply Hsp; lia|rewrite Hv; lia|].
  rewrite Hv in Hv'. unfold process_recv. wps.
  change (c <| recv_buf := b |> <| recv_buf := b' |>) with (with_recv c b').
  assert (in_body (K + len d) (with_recv c b')) as Hib'.
  { split; [|done]. destruct Hi. constructor; simpl; try done. rewrite Hv'. len_lia. }
  eapply h1_wp_recv_len; [apply Hib'|].
  wp_use (wp_deliver_loop (K + len d) _ (with_recv c b') fut total Hib' HK); [|unfold measure; destruct (state (with_recv c b')); lia|done|done].
  destruct Hp as (y & Ha & Hy). exists y. split; [|done]. simpl. by rewrite Hv', <- app_assoc.
Qed.

(** A read takes the first of the pending bytes. *)
Lemma read_delivers K c fut total cap :
  in_body K c → pending fut total c → 0 ≤ cap →
  match recv_body (current_stream_id c) cap c with
  | (Ok (out, fin), c') => ∃ rest, total = out ++ rest ∧ in_body K c' ∧ pending fut rest c' ∧
      len out = Z.min (len (body c)) cap ∧
      (if fin then rest = [] else body c = [] → bst c ≠ Complete)
  | (Err e, c') => e = WouldBlock ∧ c' = c ∧ body c = [] ∧ bst c ≠ Complete
  | (Panic, _) => False
  end.
Proof.
  intros Hib (y & Ha & <-) Hcap. pose proof Hib as (Hi & Hst).
  pose proof (h1_wp_recv_body K c (current_stream_id c) cap Hi Hcap) as Hr. unfold wp in Hr.
  destruct (recv_body _ _ _) as [[[out fin]|e|] c1]; [| |done].
  - destruct Hr as (Hi1 & (b & ->) & Hb & Hl & Hfin). simpl in Hb, Hl, Hfin.
    exists (Buf.vis b ++ y). split; [by rewrite Hb, app_assoc|]. split; [by split|]. split; [by exists y|]. split; [done|].
    destruct fin.
    2: { intros Hn Hc. rewrite Hn in Hb. symmetry in Hb. apply app_nil in Hb as [_ Hv]. rewrite Hv in Hfin. simpl in Hfin.
         rewrite <- Hfin in Hst. unfold bst in Hc. destruct (state c); try done. by destruct (chunk_state c). }
    symmetry in Hfin. apply andb_true_iff in Hfin as [Hz Hbf]. apply Z.eqb_eq in Hz.
    assert (bst c = Complete) as Hc by (unfold bst; rewrite Hbf in Hst; by destruct (state c)).
    rewrite Hc in Ha. inversion Ha. by destruct (Buf.vis b).
  - destruct Hr as [-> [[_ ?]|(-> & Hb & Hbf)]]; [done|]. do 3 (split; [done|]).
    unfold bst. rewrite Hbf in Hst. destruct (state c); try done. by destruct (chunk_state c).
Qed.

(** *** Applications *)

(** Every feed fits the space the receive buffer has at that point. *)
Fixpoint paced (ops : list body_op) (c : t) : Prop :=
  match ops with
  | [] => True
  | Feed d :: ops' => len (received c) + len d ≤ BUF ∧ paced ops' (feed_data grant HDRBUF DATABUF BUF d c).2
  | Read cap :: ops' => paced ops' (recv_body (current_stream_id c) cap c).2
  end.

(** The connection is driven on and read, [n] times. *)
Fixpoint rounds (n : nat) (cap : Z) : list body_op :=
  match n with O => [] | S n => Feed [] :: Read cap :: rounds n cap end.

Lemma delivered_cases K fut total c c' :
  delivered K fut total c c' →
  moved_on c c' = true ∧ total = [] ∧ fut = [] ∨
  moved_on c c' = false ∧ in_body K c' ∧ pending fut total c' ∧ settled fut c'.
Proof.
  unfold moved_on. intros [(Hib & Hav & Hp & Hs)|((-> & _) & -> & ->)]; [right|by left]. split; [|done].
  rewrite Hav. destruct Hib as [_ Hst]. destruct (state c'), (headers_available c); done.
Qed.

Lemma rounds_deliver K c total cap n :
  in_body K c → K ≤ LIMIT → pending [] total c → 0 < cap → len total < Z.of_nat n →
  ∃ c', run_body (rounds n cap) c = Some (total, true, c').
Proof.
  intros Hib HK Hp Hcap. revert c total Hib Hp. induction n as [|n IH]; intros c total Hib Hp Hn; [lia|].
  cbn [rounds run_body]. pose proof (Buf.ok_bound _ _ (inv_recv _ _ (proj1 Hib))).
  destruct (feed_delivers K c [] [] total Hib) as (c1 & -> & Hd); [simpl; lia|done|simpl; lia|].
  rewrite Z.add_0_r in Hd. apply delivered_cases in Hd as [(-> & -> & _)|(-> & Hib1 & Hp1 & Hs1)]; [by eexists|].
  pose proof (read_delivers K c1 [] total cap Hib1 Hp1 ltac:(lia)) as Hr.
  destruct (recv_body _ _ _) as [[[out fin]|e|] c2]; [| |done].
  - destruct Hr as (rest & -> & Hib2 & Hp2 & Hl & Hfin). destruct fin.
    { rewrite Hfin, app_nil_r. by eexists. }
    destruct (IH c2 rest Hib2 Hp2) as (c' & ->); [|by eexists].
    assert (body c1 ≠ []) as Hb; [|destruct (body c1); [done|]; rewrite length_app in Hn; simpl in Hl; lia].
    intros Hb. destruct Hs1 as [?|[?|Hs1]]; [by apply Hfin|done|]. rewrite Hb in Hs1. simpl in Hs1. lia.
  - destruct Hr as (-> & -> & Hb & Hc). exfalso. destruct Hs1 as [?|[?|Hs1]]; [done..|]. rewrite Hb in Hs1. simpl in Hs1. lia.
Qed.

(** Any accepted pieces of the encoding, and then enough rounds. *)
Lemma ops_deliver ops K c total cap n :
  in_body K c → Forall op_ok ops → K + len (fed_bytes ops) ≤ LIMIT → pending (fed_bytes ops) total c → paced ops c →
  0 < cap → len total < Z.of_nat n →
  ∃ c', run_body (ops ++ rounds n cap) c = Some (total, true, c').
Proof.
  intros Hib Hok. revert K c total Hib. induction Hok as [|o ops Ho Hok IH]; intros K c total Hib HK Hp Hpace Hcap Hn.
  { apply (rounds_deliver K); try done. simpl in HK. lia. }
  destruct o as [d|cap']; cbn [run_body fed_bytes app paced] in *.
  - destruct Hpace as [Hfit Hpace]. rewrite length_app in HK.
    destruct (feed_delivers K c d (fed_bytes ops) total Hib) as (c1 & Hf & Hd); [lia|done..|].
    rewrite Hf in *. apply delivered_cases in Hd as [(-> & -> & _)|(-> & Hib1 & Hp1 & _)]; [by eexists|].
    apply (IH (K + len d)); try done. lia.
  - pose proof (read_delivers K c _ total cap' Hib Hp Ho) as Hr.
    destruct (recv_body _ _ _) as [[[out fin]|e|] c2]; [| |done].
    + destruct Hr as (rest & -> & Hib2 & Hp2 & Hl & Hfin). destruct fin.
      { rewrite Hfin, app_nil_r. by eexists. }
      destruct (IH K c2 rest Hib2) as (c' & ->); try done; [|by eexists]. rewrite length_app in Hn. lia.
    + destruct Hr as (-> & -> & _). by apply (IH K).
Qed.

End deliver.

(** C30: Chunked bodies are delivered.  To a message in the chunked framing whose size
    line is next, with nothing received or buffered, the encoding of any list of
    non-empty chunks is fed in pieces of any size, with reads of any size in between.
    If the end of the message is reached, whatever follows the encoding, what was read
    is the concatenation of the chunks.  And it is reached: when every piece fits the
    space the receive buffer has at that point, the allocator grants what is asked and
    the body buffer holds at least one byte, no call is refused, and an application
    that goes on driving and reading the connection reads all of the body and reaches
    the end, after at most one more round than the body has bytes.  (The end is told by a
    read, or by the connection going on to the next message, which can hide it from the
    reader: [http1_end_of_body_lost].) *)
Theorem http1_chunked_roundtrip `{Platform} `{Sizes} K c ops chunks rest :
  in_body K c → bst c = ChunkLine → received c = [] → body c = [] →
  Forall (λ d, 0 < len d < 2 ^ 31) chunks → Forall op_ok ops →
  fed_bytes ops = chunked_wire chunks ++ rest → K + len (fed_bytes ops) ≤ LIMIT →
  (∀ out c', run_body ops c = Some (out, true, c') → out = mjoin chunks) ∧
  (rest = [] → (∀ k, grant k = true) → 0 < DATABUF → paced ops c →
   ∀ cap n, 0 < cap → len (mjoin chunks) < Z.of_nat n →
   ∃ c', run_body (ops ++ rounds n cap) c = Some (mjoin chunks, true, c')).
Proof.
  intros Hib Hst Hr Hb Hch Hok Hfed HK. split.
  - intros out c' Hrun. destruct (run_body_decoded ops K c out true c' Hib Hok HK Hrun) as (x & s & r & Hd & _ & ->).
    rewrite Hr, Hst, Hfed in Hd. cbn [app] in Hd. rewrite deframe_chunked in Hd by done.
    injection Hd as <- _ _. by rewrite Hb.
  - intros -> Hg Hroom Hpace cap n Hcap Hn. apply (ops_deliver Hg Hroom ops K); try done.
    exists (mjoin chunks). rewrite Hst, Hr, Hb, Hfed, app_nil_r. split; [by apply awaits_line|done].
Qed.

(** ** A session *)

#[local] Existing Instance platform64.
#[local] Existing Instance demo_sizes.

(** Two chunks in three pieces, one of them read early, and then one byte at a time. *)
Definition demo_pieces : list body_op :=
  [Feed (bytes "3"); Feed (CRLF ++ bytes "ab"); Read 10; Feed (bytes "c" ++ CRLF ++ bytes "2" ++ CRLF ++ bytes "de" ++ CRLF ++ bytes "0" ++ CRLF ++ CRLF)].

Lemma http1_chunked_roundtrip_witness :
  ∃ c', run_body (demo_pieces ++ rounds 6 1) demo_server = Some (bytes "abcde", true, c').
Proof.
  destruct (http1_chunked_roundtrip (total_cost demo_start) demo_server demo_pieces [bytes "abc"; bytes "de"] [] demo_in_body) as [_ Hd].
  - vm_compute. reflexivity.
  - vm_compute. reflexivity.
  - vm_compute. reflexivity.
  - repeat apply Forall_cons_2; try apply Forall_nil_2; split; vm_compute; done.
  - repeat apply Forall_cons_2; try apply Forall_nil_2; unfold op_ok; lia || done.
  - vm_compute. reflexivity.
  - vm_compute. done.
  - apply (Hd eq_refl (λ _, eq_refl)); [done| |done|vm_compute; reflexivity].
    vm_compute. repeat split; discriminate.
Defined.
