(* ===== verification/Http1Exchange.v ===== *)
(** * Messages from one HTTP/1.1 connection to the other

    The text the encoders queue ([request_wire], [response_wire]) and what the
    receive loop of the peer makes of it: the same pseudo-headers and fields,
    through the start-line and field parsers and the NUL-separated store. *)
From stdpp Require Import strings.
From S2P Require Import Prelude Errors Hoare Varint Cursor Buf Http Http1Parse Http1Connection Http1Inv Http1Body Http1Receive Http1Api.
Import Parse Http1.

(** ** The wire *)

Definition field_line (h : list Z * list Z) : list Z := h.1 ++ bytes ": " ++ h.2.
Definition lines_wire (lines : list (list Z)) : list Z := mjoin ((λ l, l ++ CRLF) <$> lines) ++ CRLF.

Definition pseudo (h : list Z * list Z) : bool := starts_with (bytes ":") h.1.
Definition regular (hs : list (list Z * list Z)) : list (list Z * list Z) := List.filter (λ h, negb (pseudo h)) hs.

(** What the peer of a sender of [hs] is to see. *)
Definition method_of hs := last_value (bytes ":method") (bytes "GET") hs.
Definition path_of hs := last_value (bytes ":path") (bytes "/") hs.
Definition host_of hs : list (list Z * list Z) :=
  let host := last_value (bytes ":authority") [] hs in
  if len host =? 0 then [] else [(bytes "Host", host)].
Definition status_of hs := last_value (bytes ":status") (bytes "200") hs.

Definition request_line hs : list Z := method_of hs ++ bytes " " ++ path_of hs ++ bytes " HTTP/1.1".
Definition request_wire hs : list Z := lines_wire (request_line hs :: (field_line <$> host_of hs ++ regular hs)).
Definition request_headers hs : list (list Z * list Z) :=
  (bytes ":method", method_of hs) :: (bytes ":path", path_of hs) :: host_of hs ++ regular hs.

Definition response_line hs : list Z :=
  bytes "HTTP/1.1 " ++ status_of hs ++ bytes " " ++ status_reason (status_of hs).
Definition response_wire hs : list Z := lines_wire (response_line hs :: (field_line <$> regular hs)).
Definition response_headers hs : list (list Z * list Z) := (bytes ":status", status_of hs) :: regular hs.

(** What can be carried: tokens without separators, fields without control
    characters and without blanks around the value. *)
Definition token_byte (b : Z) : Prop := b ≠ 0 ∧ b ≠ 9 ∧ b ≠ 13 ∧ b ≠ 32.
Definition token (l : list Z) : Prop := l ≠ [] ∧ Forall token_byte l.
Definition field_ok (h : list Z * list Z) : Prop :=
  token h.1 ∧ Forall (λ b, b ≠ 58) h.1 ∧ trim_ows h.2 = h.2 ∧ Forall (λ b, control b = false ∧ b ≠ 0) h.2.

(** ** Sending *)

Section sending.
Context `{Platform} `{Sizes}.

(** A successful call appended [w]. *)
Definition writes {A} (m : M Error t A) (w : list Z) : Prop :=
  ∀ c r c', Buf.ok BUF (send_buf c) → m c = (Ok r, c') → ∃ b, c' = with_send c b ∧ Buf.ok BUF b ∧ Buf.vis b = sent c ++ w.

Lemma writes_send d : writes (queue_send grant BUF d) d.
Proof.
  intros c r c' Hb Hq. destruct (h1_queue_send_cases c d Hb) as (r' & b & Hq' & Hb' & Hc). rewrite Hq in Hq'.
  injection Hq' as <- ->. exists b. destruct Hc as [[_ Hv]|[(e & ? & _) _]]; [|done]. by split_and!.
Qed.
Lemma writes_bind {A B} (m : M Error t A) (f : A → M Error t B) w1 w2 :
  writes m w1 → (∀ a, writes (f a) w2) → writes (m ≫= f) (w1 ++ w2).
Proof.
  intros Hm Hf c r c' Hb. unfold mbind, M_bind. destruct (m c) as [[a| |] c1] eqn:E; [|done..]. intros Hr.
  destruct (Hm _ _ _ Hb E) as (b1 & -> & Hb1 & Hv1).
  destruct (Hf a (with_send c b1) r c' Hb1 Hr) as (b2 & -> & Hb2 & Hv2).
  exists b2. split; [done|]. split; [done|]. by rewrite Hv2; simpl; rewrite Hv1, app_assoc.
Qed.
Lemma writes_ret {A} (a : A) : writes (mret a) [].
Proof. intros c r c' Hb [= _ <-]. exists (send_buf c). rewrite app_nil_r. split; [by destruct c|done]. Qed.
Lemma writes_eq {A} (m : M Error t A) w w' : w = w' → writes m w → writes m w'.
Proof. by intros ->. Qed.

Ltac writing :=
  repeat match goal with
  | |- writes (_ ≫= _) _ => apply writes_bind; [|intros ?]
  | |- writes (queue_send _ _ _) _ => apply writes_send
  | |- writes (mret _) _ => apply writes_ret
  end.

Lemma writes_headers hs : writes (queue_headers grant BUF hs) (mjoin ((λ h, field_line h ++ CRLF) <$> regular hs)).
Proof.
  induction hs as [|[name value] hs IH]; cbn [queue_headers]; [apply writes_ret|].
  unfold regular, pseudo in *. cbn [List.filter fst]. destruct (starts_with _ _); [done|]. cbn [negb].
  eapply writes_eq; [|writing; exact IH]. unfold field_line. cbn. by rewrite <- !app_assoc.
Qed.
Lemma writes_request hs : writes (encode_request grant BUF hs) (request_wire hs).
Proof.
  unfold encode_request. cbv zeta.
  assert (writes (if negb (len (last_value (bytes ":authority") [] hs) =? 0) then
    _ ← queue_send grant BUF (bytes "Host: "); _ ← queue_send grant BUF (last_value (bytes ":authority") [] hs);
    queue_send grant BUF CRLF else mret tt) (mjoin ((λ h, field_line h ++ CRLF) <$> host_of hs))) as Hh.
  { unfold host_of. destruct (_ =? 0); simpl; [apply writes_ret|]. eapply writes_eq; [|writing].
    unfold field_line. by rewrite <- !app_assoc, app_nil_r. }
  eapply writes_eq; [|writing; [exact Hh|apply writes_headers]].
  unfold request_wire, lines_wire, request_line. cbn [fmap list_fmap mjoin list_join].
  rewrite <- list_fmap_compose, fmap_app. unfold compose.
  fold (method_of hs) (path_of hs). rewrite join_app, <- !app_assoc. done.
Qed.
Lemma writes_response hs : writes (encode_response grant BUF hs) (response_wire hs).
Proof.
  unfold encode_response. cbv zeta. eapply writes_eq; [|writing; apply writes_headers].
  unfold response_wire, lines_wire, response_line. cbn [fmap list_fmap mjoin list_join].
  rewrite <- list_fmap_compose. unfold compose. fold (status_of hs). by rewrite <- !app_assoc.
Qed.

Definition message_wire (r : Role) := match r with Client => request_wire | Server => response_wire end.

Lemma send_headers_writes K c sid hs c' :
  inv K c → send_headers grant BUF sid hs c = (Ok tt, c') → sent c' = sent c ++ message_wire (role c) hs.
Proof.
  intros Hi. unfold send_headers, check_stream_id, mbind, M_bind, get.
  destruct (negb (sid =? current_stream_id c)); [done|]. cbn -[encode_request encode_response].
  destruct (role c); cbn -[encode_request encode_response request_wire response_wire]; [pose proof (writes_request hs c) as Hw|pose proof (writes_response hs c) as Hw].
  1: destruct (encode_request _ _ _ c) as [[a| |] c1]; [|done..].
  2: destruct (encode_response _ _ _ c) as [[a| |] c1]; [|done..].
  all: destruct (Hw a c1 (proj1 (inv_send _ _ Hi)) eq_refl) as (b & -> & _ & Hv); intros [= <-]; done.
Qed.

End sending.

(** ** Parsing *)

Lemma text_lines_cons l ls : lines_wire (l :: ls) = l ++ CRLF ++ lines_wire ls.
Proof. unfold lines_wire. cbn. by rewrite <- !app_assoc. Qed.

Lemma lines_long ls : (length ls ≤ length (lines_wire ls))%nat.
Proof. induction ls as [|l ls IH]; [simpl; lia|]. rewrite text_lines_cons, !length_app. simpl. lia. Qed.

Lemma find_window_skip pat b buf :
  starts_with pat (b :: buf) = false → find_window pat (b :: buf) = S <$> find_window pat buf.
Proof. intros Hs. cbn [find_window]. by rewrite Hs. Qed.
Lemma starts_with_head x pat b buf : b ≠ x → starts_with (x :: pat) (b :: buf) = false.
Proof. intros Hb. apply not_true_is_false. by intros [r [= -> _]]%starts_with_spec. Qed.

(** The end of the header block is the first empty line. *)
Lemma find_end_line line rest :
  Forall (λ b, b ≠ 13) line →
  find_window (CRLF ++ CRLF) (line ++ CRLF ++ rest) =
  (λ i, (length line + i)%nat) <$> find_window (CRLF ++ CRLF) (CRLF ++ rest).
Proof.
  induction 1 as [|b line Hb _ IH]; [by destruct (find_window _ _)|]. change ((b :: line) ++ ?x) with (b :: line ++ x).
  rewrite find_window_skip, IH by (by apply (starts_with_head 13 [10; 13; 10])).
  by rewrite <- option_fmap_compose.
Qed.
Definition line_ok (l : list Z) : Prop := l ≠ [] ∧ Forall (λ b, b ≠ 13) l.
Lemma find_end_lines lines rest :
  Forall line_ok lines → lines ≠ [] →
  find_end_of_headers (lines_wire lines ++ rest) = Some (len (lines_wire lines)).
Proof.
  intros Hl Hn.
  enough (find_window (CRLF ++ CRLF) (lines_wire lines ++ rest) = Some (length (lines_wire lines) - 4)%nat ∧
          4 ≤ len (lines_wire lines)) as [Hw ?]
    by (unfold find_end_of_headers; rewrite Hw; simpl; f_equal; lia).
  induction Hl as [|l ls [Hl0 Hl1] Hls IH]; [done|]. rewrite text_lines_cons, <- !app_assoc, find_end_line by done.
  assert (0 < len l) by (destruct l; simpl; [done|lia]). destruct ls as [|l2 ls].
  - change (CRLF ++ lines_wire [] ++ rest) with ((CRLF ++ CRLF) ++ rest).
    replace (find_window (CRLF ++ CRLF) ((CRLF ++ CRLF) ++ rest)) with (Some O) by done.
    cbn. split; [f_equal|]; rewrite length_app; change (length (13 :: 10 :: CRLF)) with 4%nat; lia.
  - destruct IH as [IH ?]; [done|]. apply Forall_cons in Hls as [[H2 H2'] _].
    assert (∃ b x, lines_wire (l2 :: ls) ++ rest = b :: x ∧ b ≠ 13) as (b & x & Hx & Hb).
    { rewrite text_lines_cons. destruct l2 as [|b l2]; [done|]. apply Forall_cons in H2' as [? _].
      exists b. eexists. split; [reflexivity|done]. }
    set (L := lines_wire (l2 :: ls)) in *. clearbody L. rewrite Hx in IH. rewrite Hx. change (CRLF ++ b :: x) with (13 :: 10 :: b :: x).
    rewrite find_window_skip, find_window_skip, IH.
    + rewrite !length_app. change (length CRLF) with 2%nat. cbn [fmap option_fmap option_map]. split; [f_equal; lia|lia].
    + by apply (starts_with_head 13 [10; 13; 10]).
    + apply not_true_is_false. intros [r [= ?]]%starts_with_spec. lia.
Qed.

Lemma split_once_at a d b : Forall (λ x, x ≠ d) a → split_once (a ++ d :: b) d = Some (a, b).
Proof.
  intros Ha. unfold split_once.
  assert (position (λ b, b =? d) (a ++ d :: b) = Some (length a)) as ->.
  { induction Ha as [|x a Hx _ IH]; simpl; [by rewrite Z.eqb_refl|]. by rewrite (proj2 (Z.eqb_neq _ _)), IH by done. }
  simpl. rewrite take_app_length. change (d :: b) with ([d] ++ b). rewrite app_assoc, drop_app_length'; [done|].
  rewrite length_app. simpl. lia.
Qed.

Section parsing.
Context `{Platform}.

Lemma request_line_back m p rest :
  token m → token p →
  let line := m ++ bytes " " ++ p ++ bytes " HTTP/1.1" in
  parse_request_line (line ++ CRLF ++ rest) = Ok (m, p, len line + 2).
Proof.
  intros [Hm0 Hm] [Hp0 Hp] line. unfold parse_request_line.
  assert (Forall (λ b, b ≠ 13) line) as Hl.
  { subst line. repeat apply Forall_app_2; try (by repeat constructor); eapply Forall_impl; try done; by intros b (_ & _ & ? & _). }
  rewrite split_line_crlf by done. simpl. subst line. change (bytes " ") with [32].
  change ([32] ++ p ++ bytes " HTTP/1.1") with (32 :: p ++ 32 :: bytes "HTTP/1.1").
  rewrite split_once_at by (eapply Forall_impl; [done|by intros b (_ & _ & _ & ?)]). simpl.
  rewrite split_once_at by (eapply Forall_impl; [done|by intros b (_ & _ & _ & ?)]). simpl.
  destruct m; [done|]. destruct p; [done|]. done.
Qed.

Lemma status_line_back c st reason rest :
  100 ≤ c < 1000 → StatusCode.to_bytes (E:=Error) c = Ok st → Forall (λ b, b ≠ 13) reason →
  let line := bytes "HTTP/1.1 " ++ st ++ bytes " " ++ reason in
  parse_status_line (line ++ CRLF ++ rest) = Ok (c, reason, len line + 2).
Proof.
  intros Hc Hst Hr line. unfold parse_status_line. rewrite StatusCode.to_bytes_digits in Hst by lia.
  injection Hst as <-. set (d0 := c / 100) in *. set (d1 := c / 10 mod 10) in *. set (d2 := c mod 10) in *.
  assert (1 ≤ d0 < 10) by (split; [apply Z.div_le_lower_bound|apply Z.div_lt_upper_bound]; lia).
  pose proof (Z.mod_pos_bound (c / 10) 10 ltac:(lia)) as Hd1. pose proof (Z.mod_pos_bound c 10 ltac:(lia)) as Hd2.
  fold d1 d2 in Hd1, Hd2.
  assert (d0 * 100 + d1 * 10 + d2 = c) as Hsum.
  { pose proof (Z.div_mod c 10). pose proof (Z.div_mod (c / 10) 10). rewrite Z.div_div in * by lia.
    change (10 * 10) with 100 in *. subst d0 d1 d2. lia. }
  assert (Forall (λ b, b ≠ 13) line) as Hl.
  { subst line. apply Forall_app_2; [by repeat constructor|]. apply Forall_app_2; [|by apply Forall_app_2; [repeat constructor|]].
    repeat (apply Forall_cons_2; [lia|]). by apply Forall_nil_2. }
  rewrite split_line_crlf by done. simpl.
  assert (parse_decimal_u16 [48 + d0; 48 + d1; 48 + d2] = Some c) as Hp.
  { unfold parse_decimal_u16. cbn [decimal_loop]. unfold digit, push_digit.
    rewrite !trunc_small by (unfold uint; lia). replace (48 + d0 - 48) with d0 by lia.
    replace (48 + d1 - 48) with d1 by lia. replace (48 + d2 - 48) with d2 by lia.
    rewrite !(proj2 (Z.ltb_ge 9 _)) by lia. repeat (rewrite decide_True by lia; simpl). f_equal. lia. }
  rewrite Hp. simpl. by rewrite (proj2 (Z.ltb_ge _ 3)), (proj2 (Z.ltb_ge c 100)) by lia.
Qed.

Lemma existsb_none {A} (p : A → bool) l : Forall (λ a, p a = false) l → existsb p l = false.
Proof. induction 1 as [|a l Ha _ IH]; simpl; [done|]. by rewrite Ha. Qed.

Lemma header_line_back h rest :
  field_ok h → parse_header_line (field_line h ++ CRLF ++ rest) = Ok (h.1, h.2, len (field_line h) + 2).
Proof.
  destruct h as [name value]. intros ([Hn0 Hn] & Hc & Ht & Hv). cbn [fst snd] in *. unfold parse_header_line.
  assert (Forall (λ b, b ≠ 13) (field_line (name, value))) as Hl.
  { unfold field_line. apply Forall_app_2; [|apply Forall_app_2; [by repeat constructor|]].
    - eapply Forall_impl; [exact Hn|]. by intros b (_ & _ & ? & _).
    - eapply Forall_impl; [exact Hv|]. by intros b [Hb _] ->. }
  assert (starts_with CRLF (field_line (name, value) ++ CRLF ++ rest) = false) as ->.
  { unfold field_line. simpl. destruct name as [|b name]; [done|]. apply Forall_cons in Hn as [(_ & _ & ? & _) _].
    by apply (starts_with_head 13 [10]). }
  rewrite split_line_crlf by done. cbn [ok_or mbind res_bind].
  generalize (len (field_line (name, value)) + 2) as n. intros n.
  change (field_line (name, value)) with (name ++ 58 :: 32 :: value). rewrite split_once_at by done. cbn [ok_or mbind res_bind].
  rewrite (proj2 (Z.eqb_neq (len name) 0)) by (destruct name; simpl; [done|lia]).
  rewrite (existsb_none ows).
  2: { eapply Forall_impl; [exact Hn|]. intros b (_ & ? & _ & ?). unfold ows.
       by rewrite (proj2 (Z.eqb_neq b 32)), (proj2 (Z.eqb_neq b 9)). }
  change (trim_ows (32 :: value)) with (trim_ows value). rewrite Ht, existsb_none; [done|].
  eapply Forall_impl; [done|]. by intros b [? _].
Qed.

(** ** The store *)

Lemma position_zero a b : Forall (λ x, x ≠ 0) a → position (λ b, b =? 0) (a ++ 0 :: b) = Some (length a).
Proof. induction 1 as [|x a Hx _ IH]; simpl; [done|]. by rewrite (proj2 (Z.eqb_neq _ _)), IH by done. Qed.

Definition storable (h : list Z * list Z) : Prop := Forall (λ b, b ≠ 0) h.1 ∧ Forall (λ b, b ≠ 0) h.2.

(** Reading the store back gives the fields that were put there. *)
Lemma emit_entries fuel pre hs :
  Forall storable hs → (length hs ≤ fuel)%nat →
  emit_headers fuel (pre ++ mjoin (entry <$> hs)) (len pre) = Ok hs.
Proof.
  intros Hs. revert fuel pre. induction Hs as [|[name value] hs [Hn Hv] Hs IH]; intros fuel pre Hf.
  { cbn [fmap list_fmap mjoin list_join]. rewrite app_nil_r.
    destruct fuel; cbn [emit_headers]; by rewrite Z.ltb_irrefl. }
  destruct fuel as [|fuel]; [simpl in Hf; lia|]. cbn [fmap list_fmap mjoin list_join].
  set (tail := mjoin (entry <$> hs)). unfold entry at 1. cbn [fst snd] in *.
  set (buf := pre ++ _). cbn [emit_headers].
  assert (buf = pre ++ name ++ 0 :: value ++ 0 :: tail) as Hb by (subst buf; rewrite <- !app_assoc; done).
  assert (len buf = len pre + len name + 1 + len value + 1 + len tail) as Hlb by (rewrite Hb; len_lia).
  rewrite (proj2 (Z.ltb_lt _ _)) by lia. rewrite slice_from_eq by lia.
  rewrite Nat2Z.id. rewrite Hb at 1. rewrite drop_app_length. cbn [mbind res_bind].
  rewrite position_zero by done. cbv zeta. rewrite (proj2 (Z.leb_gt _ _)) by lia.
  rewrite slice_eq by lia. cbn [mbind res_bind]. rewrite slice_from_eq by lia. cbn [mbind res_bind].
  assert (drop (Z.to_nat (len pre + len name + 1)) buf = value ++ 0 :: tail) as Hd.
  { rewrite Hb. change (0 :: value ++ 0 :: tail) with ([0] ++ value ++ 0 :: tail). rewrite !app_assoc.
    rewrite <- (app_assoc _ value). apply drop_app_length'. rewrite !length_app. simpl. lia. }
  rewrite Hd, position_zero by done. rewrite slice_eq by lia. cbn [mbind res_bind]. rewrite Hd.
  assert (take (Z.to_nat (len pre + len name - len pre)) (drop (Z.to_nat (len pre)) buf) = name) as ->.
  { rewrite Nat2Z.id, Hb, drop_app_length. apply take_app_length'. lia. }
  rewrite take_app_length' by lia.
  specialize (IH fuel (pre ++ name ++ [0] ++ value ++ [0]) ltac:(simpl in Hf; lia)).
  replace (len (pre ++ name ++ [0] ++ value ++ [0])) with (len pre + len name + 1 + len value + 1) in IH by len_lia.
  assert ((pre ++ name ++ [0] ++ value ++ [0]) ++ tail = buf) as Hb' by (rewrite Hb, <- !app_assoc; done).
  assert (emit_headers fuel buf (len pre + len name + 1 + len value + 1) = Ok hs) as -> by (rewrite <- Hb'; exact IH).
  done.
Qed.

End parsing.

(** ** Receiving *)

Section receiving.
Context `{Platform} `{Sizes} (granted : ∀ n, grant n = true).

Lemma store_fits c h :
  Buf.ok HDRBUF (header_buf c) → len (stored c) + len (entry h) ≤ HDRBUF →
  ∃ b, store_header_kv grant HDRBUF h.1 h.2 c = (Ok tt, with_header c b) ∧ Buf.ok HDRBUF b ∧
       Buf.vis b = stored c ++ entry h.
Proof.
  intros Hb Hl. destruct h as [name value]. simpl fst. simpl snd.
  destruct (store_header_kv_cases c name value Hb) as (r & b & Hs & Hb' & [[-> Hv]|[(e & -> & He) (_ & Hc)]]); [by exists b|].
  destruct Hc as [?|[= ->]]; [lia|]. destruct (He eq_refl) as [n Hn]. by rewrite granted in Hn.
Qed.

Definition noted (fs : list (list Z * list Z)) (f : framing) : framing :=
  fold_left (λ f h, note_field h.1 h.2 f) fs f.

(** [c'] is [c] with [hs] added to the store. *)
Definition filed (c : t) (hs : list (list Z * list Z)) (c' : t) : Prop :=
  ∃ b, c' = with_header c b ∧ Buf.ok HDRBUF b ∧ Buf.vis b = stored c ++ mjoin (entry <$> hs).
Lemma filed_trans c1 c2 c3 hs hs' : filed c1 hs c2 → filed c2 hs' c3 → filed c1 (hs ++ hs') c3.
Proof.
  intros (b & -> & Hb & Hv) (b' & -> & Hb' & Hv'). exists b'. split; [done|]. split; [done|].
  rewrite Hv'. simpl. by rewrite Hv, fmap_app, join_app, app_assoc.
Qed.
Lemma filed_one c h b : Buf.ok HDRBUF b → Buf.vis b = stored c ++ entry h → filed c [h] (with_header c b).
Proof. intros Hb Hv. exists b. split; [done|]. split; [done|]. cbn. by rewrite app_nil_r. Qed.

Lemma entries_cons h hs : mjoin (entry <$> h :: hs) = entry h ++ mjoin (entry <$> hs).
Proof. done. Qed.
Lemma recv_tail c pre l :
  Buf.ok BUF (recv_buf c) → received c = pre ++ l → recv_slice (len pre) (len (received c)) c = (Ok l, c).
Proof.
  intros Hb Hr. rewrite recv_slice_eq by (done || rewrite Hr, length_app; lia).
  rewrite Hr, Nat2Z.id, drop_app_length, length_app, take_ge by lia. done.
Qed.

Lemma wp_fields fs fuel c pre f :
  Buf.ok BUF (recv_buf c) → Buf.ok HDRBUF (header_buf c) → Forall field_ok fs →
  received c = pre ++ lines_wire (field_line <$> fs) → (length fs ≤ fuel)%nat →
  len (stored c) + len (mjoin (entry <$> fs)) ≤ HDRBUF →
  wp False (parse_headers grant HDRBUF fuel (len pre) (len (received c)) f)
    (λ f' c', f' = noted fs f ∧ filed c fs c') (λ _ _, False) c.
Proof.
  intros Hrb Hhb Hfs. revert fuel c pre f Hrb Hhb. induction Hfs as [|h fs Hh Hfs IH]; intros fuel c pre f Hrb Hhb Hr Hf Hl.
  - destruct fuel; cbn [parse_headers]; wps; (eapply wp_eq; [by apply (recv_tail c pre _ Hrb Hr)|]); wps; (eapply wp_lift_ok; [reflexivity|]); cbn [len length];
      wps; (split; [done|]); exists (header_buf c); rewrite app_nil_r; (split; [by destruct c|done]).
  - destruct fuel as [|fuel]; [simpl in Hf; lia|]. cbn [parse_headers]. wps.
    rewrite fmap_cons, text_lines_cons in Hr. rewrite entries_cons in Hl.
    eapply wp_eq; [by apply (recv_tail c pre _ Hrb Hr)|]. wps.
    eapply wp_lift_ok; [by apply header_line_back|]. cbv zeta.
    destruct Hh as ([Hn0 Hn] & _ & _ & Hv).
    rewrite (proj2 (Z.eqb_neq (len h.1) 0)) by (destruct h.1; simpl; [done|lia]).
    rewrite !existsb_none; [| |].
    2: { eapply Forall_impl; [exact Hv|]. intros b [_ ?]. by apply Z.eqb_neq. }
    2: { eapply Forall_impl; [exact Hn|]. intros b (? & _). by apply Z.eqb_neq. }
    cbn [orb]. wps. rewrite length_app, Nat2Z.inj_add in Hl.
    destruct (store_fits c h Hhb) as (b & Hs & Hb & Hvb); [lia|]. eapply wp_eq; [exact Hs|].
    replace (len pre + (len (field_line h) + 2)) with (len (pre ++ field_line h ++ CRLF))
      by (rewrite !length_app; change (length CRLF) with 2%nat; lia).
    change (len (received c)) with (len (received (with_header c b))).
    wp_use (IH fuel (with_header c b) (pre ++ field_line h ++ CRLF) (note_field h.1 h.2 f)); [done|done| |simpl in Hf; lia| | |done].
    + simpl. by rewrite Hr, <- !app_assoc.
    + simpl. rewrite Hvb, length_app. lia.
    + intros f' c' [-> Hc']. split; [done|]. apply (filed_trans c (with_header c b) c' [h] fs); [by apply filed_one|done].
Qed.

(** Between messages. *)
Definition idle (K : Z) (c : t) : Prop := inv K c ∧ state c = Idle ∧ body_finished c = false.

(** The framing decides the state; a message with nothing behind its headers
    leaves the loop there. *)
Lemma wp_framed K c f :
  inv K c → received c = [] → body_finished c = false → current_stream_id c + 1 ≤ K → K ≤ LIMIT →
  wp False (set_framing f)
    (λ _ c', inv K c' ∧ received c' = [] ∧ header_buf c' = header_buf c ∧ headers_available c' = true ∧
       role c' = role c ∧ current_stream_id c' = current_stream_id c + (match role c with Server => 1 | Client => 0 end) ∧
       recv_step grant HDRBUF DATABUF c' = (Ok false, c')) (λ _ _, False) c.
Proof.
  intros Hi Hr Hbf Hk HK. pose proof (wp_set_framing K c f Hi) as Hw. specialize (Hw ltac:(rewrite Hr; simpl; lia) HK).
  unfold wp in *. destruct (set_framing f c) as [[[]| |] c'] eqn:E; [|done..]. destruct Hw as (Hi' & Hrb & Ha).
  assert (header_buf c' = header_buf c ∧ role c' = role c ∧
    current_stream_id c' = current_stream_id c + (match role c with Server => 1 | Client => 0 end) ∧
    match state c' with BodyChunked => chunk_state c' = Size | Idle => False | _ => True end) as (Hh & Hro & Hs & Hst).
  { pose proof (inv_sid _ _ Hi). revert E. unfold set_framing, push_event, mbind, M_bind, modify, get. cbn.
    destruct f as [cl ch cc]; simpl. destruct (role c) eqn:Hrole, ch; [|destruct cl as [l|]; [destruct (l =? 0)|]| |destruct cl as [l|]; [destruct (l =? 0)|]];
      simpl; rewrite ?Hrole; simpl; rewrite ?uadd_ok by (unfold LIMIT in *; lia); simpl; rewrite ?Hbf; simpl;
      intros [= <-]; simpl; split_and!; try done; lia. }
  assert (received c' = []) as Hr' by (by rewrite Hrb).
  split_and!; try done. unfold recv_step. erewrite M_step_ok by reflexivity.
  assert (recv_len c' = (Ok 0, c')) as Hlen.
  { unfold recv_len. erewrite M_step_ok by reflexivity. unfold lift. rewrite (Buf.ok_blen BUF _ (inv_recv _ _ Hi')), Hr'. done. }
  destruct (state c'); [done| | | |].
  - unfold process_content_length_body, take_body. by unfold mbind, M_bind; rewrite Hlen.
  - unfold process_chunked_body. erewrite M_step_ok by reflexivity. rewrite Hst.
    rewrite (M_step_ok _ _ _ _ _ (recv_bytes_eq c' (inv_recv _ _ Hi'))), Hr'. done.
  - unfold process_until_close_body. by unfold mbind, M_bind; rewrite Hlen.
  - unfold next_message. erewrite M_step_ok by reflexivity.
    rewrite (M_step_lift _ _ _ _ (Buf.ok_blen DATABUF _ (inv_data _ _ Hi'))), Ha. done.
Qed.

(** The start line, for a line that parses to the pseudo-headers [hs]. *)
Definition starts (r : Role) (line : list Z) (hs : list (list Z * list Z)) : Prop :=
  ∀ c rest, Buf.ok BUF (recv_buf c) → Buf.ok HDRBUF (header_buf c) → role c = r →
    received c = line ++ CRLF ++ rest → len (stored c) + len (mjoin (entry <$> hs)) ≤ HDRBUF →
    wp False (parse_start grant HDRBUF (len (received c)))
      (λ n c', n = len line + 2 ∧ filed c hs c') (λ _ _, False) c.

Lemma wp_message K c line hs fs :
  inv K c → K ≤ LIMIT → body_finished c = false → line_ok line → Forall field_ok fs →
  starts (role c) line hs → received c = lines_wire (line :: (field_line <$> fs)) →
  len (mjoin (entry <$> hs ++ fs)) ≤ HDRBUF →
  (let f := noted fs (Framing None false false) in chunked f && bool_decide (is_Some (content_length f)) = false) →
  wp False (try_parse_start_line grant HDRBUF)
    (λ go c', go = true ∧ inv K c' ∧ received c' = [] ∧ stored c' = mjoin (entry <$> hs ++ fs) ∧
       headers_available c' = true ∧
       current_stream_id c' = current_stream_id c + (match role c with Server => 1 | Client => 0 end) ∧
       recv_step grant HDRBUF DATABUF c' = (Ok false, c')) (λ _ _, False) c.
Proof.
  intros Hi HK Hbf Hline Hfs Hst Hr Hl Hfr. cbv zeta in Hfr. unfold try_parse_start_line. wps.
  eapply wp_recv_bytes; [done|].
  assert (Forall line_ok (line :: (field_line <$> fs))) as Hlines.
  { constructor; [done|]. apply Forall_fmap. eapply Forall_impl; [exact Hfs|].
    intros h ([Hn0 Hn] & _ & _ & Hv). split; [unfold field_line; by destruct h.1|]. unfold field_line. apply Forall_app_2; [|apply Forall_app_2; [by repeat constructor|]].
    - eapply Forall_impl; [exact Hn|]. by intros b (_ & _ & ? & _).
    - eapply Forall_impl; [exact Hv|]. by intros b [? _] ->. }
  assert (find_end_of_headers (received c) = Some (len (received c))) as ->.
  { rewrite Hr at 1. rewrite <- (app_nil_r (lines_wire _)), find_end_lines by done. by rewrite <- Hr. }
  wps. set (c0 := _ <| headers_available := false |>). pose proof hdr_size.
  destruct (Buf.ok_clear HDRBUF (header_buf c)) as [Hh0 Hv0]; [lia|apply Hi|].
  assert (inv K c0) as Hi0 by (destruct Hi; by constructor).
  rewrite text_lines_cons in Hr. rewrite fmap_app, join_app, length_app in Hl.
  change (len (received c)) with (len (received c0)).
  wp_use (Hst c0 (lines_wire (field_line <$> fs))); [apply Hi|done|done|done| | |done].
  { change (stored c0) with (Buf.vis (Buf.clear (header_buf c))). rewrite Hv0. simpl. lia. }
  intros n c1 [-> (b1 & -> & Hb1 & Hv1)]. change (stored c0) with (Buf.vis (Buf.clear (header_buf c))) in Hv1. rewrite Hv0 in Hv1. simpl in Hv1.
  wps. replace (len line + 2) with (len (line ++ CRLF)) by (rewrite length_app; change (length CRLF) with 2%nat; lia).
  change (len (received c0)) with (len (received (with_header c0 b1))).
  assert (length fs ≤ length (received c))%nat as Hlf.
  { rewrite Hr, !length_app. pose proof (lines_long (field_line <$> fs)) as Hll. rewrite length_fmap in Hll. lia. }
  wp_use (wp_fields fs (Z.to_nat (len (received (with_header c0 b1)))) (with_header c0 b1) (line ++ CRLF)); [apply Hi|done|done| | | | |done].
  { simpl. by rewrite Hr, <- app_assoc. }
  { simpl. by rewrite Nat2Z.id. }
  { simpl. rewrite Hv1. lia. }
  intros f' c2 [-> (b2 & -> & Hb2 & Hv2)]. rewrite Hfr. simpl in Hv2. rewrite Hv1 in Hv2. wps.
  assert (inv K (with_header (with_header c0 b1) b2)) as Hi2 by (apply inv_with_header; [by apply inv_with_header|done]).
  eapply (h1_wp_drain K); [done|simpl; lia|]. intros rb x Hi3 Hx Hrx Hk. simpl in Hx, Hrx, Hk. wps.
  assert (Buf.vis rb = []) as Hnil.
  { apply (f_equal length) in Hrx. rewrite length_app in Hrx. destruct (Buf.vis rb); [done|simpl in Hrx; lia]. }
  assert (0 < len (received c)) by (rewrite Hr, !length_app; change (length CRLF) with 2%nat; lia).
  wp_use (wp_framed K (with_recv (with_header (with_header c0 b1) b2) rb)); [done|done|done| |done| |done].
  { simpl. rewrite Hnil in Hk. simpl in Hk. lia. }
  intros [] c' (Hi' & Hr' & Hh' & Ha' & Hro & Hs' & Hstep). wps. split_and!; try done.
  rewrite Hh'. simpl. by rewrite Hv2, fmap_app, join_app.
Qed.

Lemma feed_message K c line hs fs :
  let w := lines_wire (line :: (field_line <$> fs)) in
  idle K c → received c = [] → K + len w ≤ LIMIT → len w ≤ BUF → line_ok line → Forall field_ok fs →
  starts (role c) line hs → len (mjoin (entry <$> hs ++ fs)) ≤ HDRBUF →
  (let f := noted fs (Framing None false false) in chunked f && bool_decide (is_Some (content_length f)) = false) →
  ∃ c', feed_data grant HDRBUF DATABUF BUF w c = (Ok tt, c') ∧ received c' = [] ∧
    stored c' = mjoin (entry <$> hs ++ fs) ∧ headers_available c' = true ∧ inv (K + len w) c' ∧
    current_stream_id c' = current_stream_id c + (match role c with Server => 1 | Client => 0 end).
Proof.
  intros w (Hi & Hidle & Hbf) Hr HK Hw Hline Hfs Hst Hl Hfr.
  enough (wp False (feed_data grant HDRBUF DATABUF BUF w) (λ _ c', received c' = [] ∧
    stored c' = mjoin (entry <$> hs ++ fs) ∧ headers_available c' = true ∧ inv (K + len w) c' ∧
    current_stream_id c' = current_stream_id c + (match role c with Server => 1 | Client => 0 end)) (λ _ _, False) c) as Hwp.
  { unfold wp in Hwp. destruct (feed_data _ _ _ _ _ _) as [[[]| |] c']; [|done..]. by exists c'. }
  unfold feed_data. wps. eapply h1_wp_recv_len; [done|]. rewrite Hr. rewrite (proj2 (Z.ltb_ge _ _)) by (simpl; lia).
  wps. pose proof buf_size.
  unfold wp at 1. destruct (Buf.ok_try_reserve BUF grant (len w) (recv_buf c) (inv_recv _ _ Hi))
    as (r & b & Hres & Hb & Hv & Hc); [lia|apply size_usize; lia|].
  pose proof (Buf.oom_refused BUF grant (len w) (recv_buf c)) as Hoom. rewrite Hres in *.
  destruct Hc as [[-> Hsp]| ->]; [|destruct Hoom as [n Hn]; [done|by rewrite granted in Hn]].
  wps. unfold wp at 1. simpl.
  destruct (Buf.ok_extend BUF grant w b Hb) as (b' & -> & Hb' & Hv' & _); [apply Hsp; rewrite Hr; simpl; lia|rewrite Hv, Hr; simpl; lia|].
  rewrite Hv, Hr in Hv'. simpl in Hv'. unfold process_recv. wps.
  change (c <| recv_buf := b |> <| recv_buf := b' |>) with (with_recv c b').
  assert (inv (K + len w) (with_recv c b')) as Hi'.
  { destruct Hi. constructor; simpl; try done. rewrite Hv'. rewrite Hr in *. simpl in *. lia. }
  eapply h1_wp_recv_len; [exact Hi'|]. set (fuel := (2 * _ + 2)%nat).
  assert (∃ k, fuel = S (S k)) as [k ->] by (exists (2 * Z.to_nat (len (received (with_recv c b'))))%nat; subst fuel; lia).
  cbn [recv_loop]. wps. unfold recv_step at 1. wps. simpl (state _). rewrite Hidle.
  wp_use (wp_message (K + len w) (with_recv c b') line hs fs); try done.
  intros go c1 (-> & Hi1 & Hr1 & Hs1 & Ha1 & Hsid & Hstep). wps. eapply wp_eq; [exact Hstep|]. wps. done.
Qed.

(** Reading what was stored. *)
Lemma recv_headers_stored K c hs :
  inv K c → headers_available c = true → stored c = mjoin (entry <$> hs) → Forall storable hs →
  ∃ c', recv_headers (current_stream_id c) c = (Ok hs, c').
Proof.
  intros Hi Ha Hs Hst. unfold recv_headers, check_stream_id.
  erewrite M_step_ok by (erewrite M_step_ok by reflexivity; by rewrite Z.eqb_refl).
  erewrite M_step_ok by reflexivity. rewrite Ha. cbn [negb].
  rewrite (M_step_lift _ _ _ _ (Buf.ok_as_slice HDRBUF _ (inv_hdr _ _ Hi))). rewrite Hs.
  assert (length hs ≤ length (mjoin (entry <$> hs)))%nat as Hle.
  { clear. induction hs as [|h hs IH]; [done|]. rewrite entries_cons, length_app. unfold entry at 1.
    rewrite !length_app. simpl. lia. }
  rewrite (M_step_lift _ _ _ hs); [|by apply (emit_entries _ [] hs)]. erewrite M_step_ok by reflexivity. by eexists.
Qed.

Lemma request_starts m p : token m → token p →
  starts Server (m ++ bytes " " ++ p ++ bytes " HTTP/1.1") [(bytes ":method", m); (bytes ":path", p)].
Proof.
  intros Hm Hp c rest Hrb Hhb Hro Hr Hl. unfold parse_start. wps.
  eapply wp_eq; [by apply (recv_tail c [] (received c))|]. wps. rewrite Hro. wps.
  eapply wp_lift_ok; [rewrite Hr; by apply request_line_back|]. unfold store_header. wps.
  rewrite !entries_cons, !length_app in Hl.
  destruct (store_fits c (bytes ":method", m) Hhb) as (b & Hs & Hb & Hv); [lia|].
  eapply wp_eq; [exact Hs|].
  destruct (store_fits (with_header c b) (bytes ":path", p) Hb) as (b' & Hs' & Hb' & Hv'); [change (stored (with_header c b)) with (Buf.vis b); rewrite Hv, length_app; lia|].
  eapply wp_eq; [exact Hs'|]. wps. split; [done|]. exists b'. split; [done|]. split; [done|].
  rewrite Hv'. change (stored (with_header c b)) with (Buf.vis b). rewrite Hv, !entries_cons. change (mjoin (entry <$> [])) with (@nil Z). by rewrite app_nil_r, app_assoc.
Qed.
Lemma response_starts c st reason :
  100 ≤ c < 1000 → StatusCode.to_bytes (E:=Error) c = Ok st → Forall (λ b, b ≠ 13) reason →
  starts Client (bytes "HTTP/1.1 " ++ st ++ bytes " " ++ reason) [(bytes ":status", st)].
Proof.
  intros Hc Hst Hre s rest Hrb Hhb Hro Hr Hl. unfold parse_start. wps.
  eapply wp_eq; [by apply (recv_tail s [] (received s))|]. wps. rewrite Hro. wps.
  eapply wp_lift_ok; [rewrite Hr; by apply (status_line_back c st)|]. cbv beta iota. wps. eapply wp_lift_ok; [exact Hst|]. wps.
  rewrite !entries_cons, !length_app in Hl.
  destruct (store_fits s (bytes ":status", st) Hhb) as (b & Hs & Hb & Hv); [lia|].
  eapply wp_eq; [exact Hs|]. wps. split; [done|]. by apply filed_one.
Qed.

End receiving.

(** ** Delivery *)

Definition peer (r : Role) : Role := match r with Client => Server | Server => Client end.

(** The fields and the headers of a message of a sender with role [r]. *)
Definition message_fields (r : Role) hs := match r with Client => host_of hs ++ regular hs | Server => regular hs end.
Definition message_headers (r : Role) := match r with Client => request_headers | Server => response_headers end.
Definition start_line (r : Role) := match r with Client => request_line | Server => response_line end.
Definition start_headers (r : Role) hs : list (list Z * list Z) :=
  match r with
  | Client => [(bytes ":method", method_of hs); (bytes ":path", path_of hs)]
  | Server => [(bytes ":status", status_of hs)]
  end.

Definition start_ok (r : Role) hs : Prop :=
  match r with
  | Client => token (method_of hs) ∧ token (path_of hs)
  | Server => ∃ c, 100 ≤ c < 1000 ∧ StatusCode.to_bytes (E:=Error) c = Ok (status_of hs)
  end.

Section delivery.
Context `{Platform} `{Sizes}.

(** Not both framings. *)
Definition framing_ok (fs : list (list Z * list Z)) : Prop :=
  let f := noted fs (Framing None false false) in
  chunked f = false ∨ content_length f = None.
Definition message_ok (r : Role) hs : Prop :=
  start_ok r hs ∧ Forall field_ok (message_fields r hs) ∧ framing_ok (message_fields r hs).

Lemma message_split r hs :
  message_wire r hs = lines_wire (start_line r hs :: (field_line <$> message_fields r hs)) ∧
  message_headers r hs = start_headers r hs ++ message_fields r hs.
Proof. by destruct r. Qed.

Lemma status_reason_line st : Forall (λ b, b ≠ 13) (status_reason st).
Proof.
  unfold status_reason. destruct (List.find _ _) as [[a b]|] eqn:Hf; [|constructor].
  apply List.find_some in Hf as [Hin _]. cbn [List.In] in Hin.
  repeat destruct Hin as [[= <- <-]|Hin]; try by repeat constructor.
Qed.

Lemma token_plain l : token l → l ≠ [] ∧ Forall (λ b, b ≠ 13) l ∧ Forall (λ b, b ≠ 0) l.
Proof. intros [Hn Hl]. split; [done|]. split; (eapply Forall_impl; [exact Hl|]); by intros b (? & ? & ? & ?). Qed.

Lemma status_digits c st :
  100 ≤ c < 1000 → StatusCode.to_bytes (E:=Error) c = Ok st → Forall (λ b, 48 ≤ b < 58) st.
Proof.
  intros Hc. rewrite StatusCode.to_bytes_digits by lia. intros [= <-].
  assert (1 ≤ c / 100 < 10) by (split; [apply Z.div_le_lower_bound|apply Z.div_lt_upper_bound]; lia).
  pose proof (Z.mod_pos_bound (c / 10) 10 ltac:(lia)). pose proof (Z.mod_pos_bound c 10 ltac:(lia)).
  repeat (apply Forall_cons_2; [lia|]). by apply Forall_nil_2.
Qed.

Lemma start_line_ok r hs : start_ok r hs → line_ok (start_line r hs).
Proof.
  destruct r; simpl.
  - intros [(Hm0 & Hm & _)%token_plain (_ & Hp & _)%token_plain]. split; [unfold request_line; by destruct (method_of hs)|].
    unfold request_line. repeat apply Forall_app_2; try done; by repeat constructor.
  - intros (c & Hc & Hst). split; [done|]. unfold response_line.
    repeat apply Forall_app_2; [by repeat constructor| |by repeat constructor|apply status_reason_line].
    eapply Forall_impl; [by eapply status_digits|]. simpl. lia.
Qed.
Lemma start_starts r hs : (∀ n, grant n = true) → start_ok r hs → starts (peer r) (start_line r hs) (start_headers r hs).
Proof.
  intros Hg. destruct r; simpl.
  - intros [Hm Hp]. by apply request_starts.
  - intros (c & Hc & Hst). eapply response_starts; [done|exact Hc|done|apply status_reason_line].
Qed.
Lemma start_storable r hs : start_ok r hs → Forall storable (start_headers r hs).
Proof.
  destruct r; simpl.
  - intros [(_ & _ & Hm)%token_plain (_ & _ & Hp)%token_plain].
    repeat constructor; try done; simpl; lia.
  - intros (c & Hc & Hst). apply Forall_cons_2; [|done]. split; [by repeat constructor|].
    eapply Forall_impl; [by eapply status_digits|]. simpl. lia.
Qed.
Lemma field_storable h : field_ok h → storable h.
Proof.
  intros ([_ Hn] & _ & _ & Hv). split; eapply Forall_impl; try done; [by intros b (? & _)|by intros b [_ ?]].
Qed.

Lemma deliver K c r hs :
  (∀ n, grant n = true) → idle K c → role c = peer r → received c = [] → message_ok r hs →
  K + len (message_wire r hs) ≤ LIMIT → len (message_wire r hs) ≤ BUF →
  len (mjoin (entry <$> message_headers r hs)) ≤ HDRBUF →
  ∃ c' c'', feed_data grant HDRBUF DATABUF BUF (message_wire r hs) c = (Ok tt, c') ∧ received c' = [] ∧
    recv_headers (current_stream_id c + (match r with Client => 1 | Server => 0 end)) c' = (Ok (message_headers r hs), c'').
Proof.
  intros Hg Hidle Hro Hr (Hst & Hfs & Hfr). destruct (message_split r hs) as [-> ->]. intros HK HB HH.
  destruct (feed_message Hg K c (start_line r hs) (start_headers r hs) (message_fields r hs)) as (c' & Hf & Hr' & Hs' & Ha' & Hi' & Hsid); try done.
  - by apply start_line_ok.
  - rewrite Hro. by apply start_starts.
  - cbv zeta. destruct Hfr as [-> | ->]; [done|]. by rewrite andb_false_r.
  - destruct (recv_headers_stored _ c' _ Hi' Ha' Hs') as [c'' Hrh].
    { apply Forall_app_2; [by apply start_storable|]. eapply Forall_impl; [exact Hfs|apply field_storable]. }
    exists c', c''. split; [done|]. split; [done|]. rewrite Hro in Hsid. rewrite Hsid in Hrh. by destruct r.
Qed.

End delivery.

(** ** Property *)

(** C18: Messages reach the peer.  When a connection in any reachable state sends
    the headers of a request or a response, and the bytes this queued arrive
    at a peer of the other role that is between messages, with room for them,
    then the peer consumes them all and [recv_headers] returns the message as it
    was meant: method and path, or status, the authority as a Host field, and
    every regular field with its name and value, in order.  (Tokens are without
    blanks, CR and NUL, values without control characters and outer blanks;
    the message does not carry both framings.) *)
Theorem http1_message_delivered `{Platform} `{Sizes} r l1 sender sender' l2 receiver sid hs :
  (∀ n, grant n = true) → Forall call_ok l1 → total_cost l1 ≤ LIMIT → Forall call_ok l2 →
  run_calls l1 (new r) = Some sender → role sender = r →
  send_headers grant BUF sid hs sender = (Ok tt, sender') →
  run_calls l2 (new (peer r)) = Some receiver → role receiver = peer r →
  state receiver = Idle → body_finished receiver = false → received receiver = [] →
  message_ok r hs →
  let queued := drop (length (sent sender)) (sent sender') in
  total_cost l2 + len queued ≤ LIMIT → len queued ≤ BUF →
  len (mjoin (entry <$> message_headers r hs)) ≤ HDRBUF →
  ∃ receiver' receiver'',
    feed_data grant HDRBUF DATABUF BUF queued receiver = (Ok tt, receiver') ∧ received receiver' = [] ∧
    recv_headers (current_stream_id receiver + (match r with Client => 1 | Server => 0 end)) receiver'
      = (Ok (message_headers r hs), receiver'').
Proof.
  intros Hg Hl1 HT1 Hl2 Hr1 Hro1 Hsend Hr2 Hro2 Hst Hbf Hrec Hok queued HK HB HH.
  destruct (h1_run_calls_ok l1 0 (new r) (inv_new r) Hl1 HT1) as (c1 & Hc1 & Hi1).
  rewrite Hr1 in Hc1. injection Hc1 as <-.
  pose proof (send_headers_writes _ _ _ _ _ Hi1 Hsend) as Hw. rewrite Hro1 in Hw.
  assert (queued = message_wire r hs) as Hq by (subst queued; by rewrite Hw, drop_app_length).
  rewrite Hq in *.
  destruct (h1_run_calls_ok l2 0 (new (peer r)) (inv_new _) Hl2) as (c2 & Hc2 & Hi2); [lia|].
  rewrite Hr2 in Hc2. injection Hc2 as <-. by apply (deliver (0 + total_cost l2) receiver r hs).
Qed.

(** *** A request on a fresh connection *)

#[local] Existing Instance platform64.
#[local] Existing Instance demo_sizes.

Definition demo_request : list (list Z * list Z) :=
  [(bytes ":method", bytes "PUT"); (bytes ":path", bytes "/a"); (bytes ":authority", bytes "h");
   (bytes "x", bytes "y z"); (bytes "content-length", bytes "3")].
Definition demo_sent : t := snd (send_headers grant BUF 0 demo_request (new Client)).

Lemma demo_request_ok : message_ok Client demo_request.
Proof.
  split; [split; (split; [done|repeat constructor; done])|]. split; [|left; vm_compute; reflexivity].
  assert (message_fields Client demo_request =
    [(bytes "Host", bytes "h"); (bytes "x", bytes "y z"); (bytes "content-length", bytes "3")]) as -> by (vm_compute; reflexivity).
  repeat apply Forall_cons_2; try apply Forall_nil_2; (split; [split; [done|repeat constructor; done]|]).
  all: split; [repeat constructor; done|]; split; [reflexivity|repeat constructor; done].
Qed.

Lemma http1_message_delivered_witness :
  ∃ receiver' receiver'',
    feed_data grant HDRBUF DATABUF BUF (drop (length (sent (new Client))) (sent demo_sent)) (new Server) = (Ok tt, receiver') ∧
    received receiver' = [] ∧
    recv_headers 1 receiver' =
      (Ok [(bytes ":method", bytes "PUT"); (bytes ":path", bytes "/a"); (bytes "Host", bytes "h");
           (bytes "x", bytes "y z"); (bytes "content-length", bytes "3")], receiver'').
Proof.
  apply (http1_message_delivered Client [] (new Client) demo_sent [] (new Server) 0 demo_request).
  - intros n. reflexivity.
  - apply Forall_nil_2.
  - vm_compute. discriminate.
  - apply Forall_nil_2.
  - reflexivity.
  - reflexivity.
  - vm_compute. reflexivity.
  - reflexivity.
  - reflexivity.
  - reflexivity.
  - reflexivity.
  - reflexivity.
  - exact demo_request_ok.
  - vm_compute. discriminate.
  - vm_compute. discriminate.
  - vm_compute. discriminate.
Defined.
