(* ===== verification/TlsParams.v ===== *)
(** * QUIC transport parameters: [src/tls/transport_params.rs]

    The codec of the extension that carries a peer's limits: a sequence of
    identifier, length and value. *)
From S2P Require Import Prelude Errors Varint Cursor.

Module TransportParams.

Record t := Mk {
  max_idle_timeout : Z;
  max_udp_payload_size : Z;
  initial_max_data : Z;
  initial_max_stream_data_bidi_local : Z;
  initial_max_stream_data_bidi_remote : Z;
  initial_max_stream_data_uni : Z;
  initial_max_streams_bidi : Z;
  initial_max_streams_uni : Z;
  ack_delay_exponent : Z;
  max_ack_delay : Z;
  active_connection_id_limit : Z;
  original_dcid : list Z;
  original_dcid_len : Z;
  initial_scid : list Z;
  initial_scid_len : Z
}.
Global Instance eta_params : Eta t := λ p,
  Mk (max_idle_timeout p) (max_udp_payload_size p) (initial_max_data p)
     (initial_max_stream_data_bidi_local p) (initial_max_stream_data_bidi_remote p)
     (initial_max_stream_data_uni p) (initial_max_streams_bidi p) (initial_max_streams_uni p)
     (ack_delay_exponent p) (max_ack_delay p) (active_connection_id_limit p)
     (original_dcid p) (original_dcid_len p) (initial_scid p) (initial_scid_len p).

Definition PARAM_ORIGINAL_DCID : Z := 0x00.
Definition PARAM_MAX_IDLE_TIMEOUT : Z := 0x01.
Definition PARAM_MAX_UDP_PAYLOAD_SIZE : Z := 0x03.
Definition PARAM_INITIAL_MAX_DATA : Z := 0x04.
Definition PARAM_INITIAL_MAX_STREAM_DATA_BIDI_LOCAL : Z := 0x05.
Definition PARAM_INITIAL_MAX_STREAM_DATA_BIDI_REMOTE : Z := 0x06.
Definition PARAM_INITIAL_MAX_STREAM_DATA_UNI : Z := 0x07.
Definition PARAM_INITIAL_MAX_STREAMS_BIDI : Z := 0x08.
Definition PARAM_INITIAL_MAX_STREAMS_UNI : Z := 0x09.
Definition PARAM_ACK_DELAY_EXPONENT : Z := 0x0a.
Definition PARAM_MAX_ACK_DELAY : Z := 0x0b.
Definition PARAM_ACTIVE_CONNECTION_ID_LIMIT : Z := 0x0e.
Definition PARAM_INITIAL_SCID : Z := 0x0f.

Definition default_params : t := {|
  max_idle_timeout := 30000;
  max_udp_payload_size := 65527;
  initial_max_data := 1048576;
  initial_max_stream_data_bidi_local := 262144;
  initial_max_stream_data_bidi_remote := 262144;
  initial_max_stream_data_uni := 262144;
  initial_max_streams_bidi := 100;
  initial_max_streams_uni := 100;
  ack_delay_exponent := 3;
  max_ack_delay := 25;
  active_connection_id_limit := 2;
  original_dcid := replicate 20 0;
  original_dcid_len := 0;
  initial_scid := replicate 20 0;
  initial_scid_len := 0
|}.

(** ** Encoding *)

Definition encode_param (id value : Z) : writer unit :=
  let val_len := varint_len value in
  _ ← room (varint_len id + varint_len val_len + val_len);
  _ ← put_varint id; _ ← put_varint val_len; put_varint value.

Definition encode_bytes_param (id : Z) (data : list Z) : writer unit :=
  _ ← room (varint_len id + varint_len (len data) + len data);
  _ ← put_varint id; _ ← put_varint (len data); put_slice data.

(** [if len > 0 { encode_bytes_param(id, &cid[..len]) }]. *)
Definition encode_cid (id : Z) (cid : list Z) (l : Z) : writer unit :=
  if 0 <? l then data ← lift (slice cid 0 l); encode_bytes_param id data else mret tt.

Definition encode (self : t) : M Error (list Z) Z := from_start (
  _ ← encode_cid PARAM_ORIGINAL_DCID (original_dcid self) (original_dcid_len self);
  _ ← encode_param PARAM_MAX_IDLE_TIMEOUT (max_idle_timeout self);
  _ ← encode_param PARAM_MAX_UDP_PAYLOAD_SIZE (max_udp_payload_size self);
  _ ← encode_param PARAM_INITIAL_MAX_DATA (initial_max_data self);
  _ ← encode_param PARAM_INITIAL_MAX_STREAM_DATA_BIDI_LOCAL (initial_max_stream_data_bidi_local self);
  _ ← encode_param PARAM_INITIAL_MAX_STREAM_DATA_BIDI_REMOTE (initial_max_stream_data_bidi_remote self);
  _ ← encode_param PARAM_INITIAL_MAX_STREAM_DATA_UNI (initial_max_stream_data_uni self);
  _ ← encode_param PARAM_INITIAL_MAX_STREAMS_BIDI (initial_max_streams_bidi self);
  _ ← encode_param PARAM_INITIAL_MAX_STREAMS_UNI (initial_max_streams_uni self);
  _ ← encode_param PARAM_ACK_DELAY_EXPONENT (ack_delay_exponent self);
  _ ← encode_param PARAM_MAX_ACK_DELAY (max_ack_delay self);
  _ ← encode_param PARAM_ACTIVE_CONNECTION_ID_LIMIT (active_connection_id_limit self);
  encode_cid PARAM_INITIAL_SCID (initial_scid self) (initial_scid_len self)).

(** ** Decoding *)

(** The parameters before anything is decoded. *)
Definition absent : t := {|
  max_idle_timeout := 0;
  max_udp_payload_size := 65527;
  initial_max_data := 0;
  initial_max_stream_data_bidi_local := 0;
  initial_max_stream_data_bidi_remote := 0;
  initial_max_stream_data_uni := 0;
  initial_max_streams_bidi := 0;
  initial_max_streams_uni := 0;
  ack_delay_exponent := 3;
  max_ack_delay := 25;
  active_connection_id_limit := 2;
  original_dcid := replicate 20 0;
  original_dcid_len := 0;
  initial_scid := replicate 20 0;
  initial_scid_len := 0
|}.

(** [cid[..copy_len].copy_from_slice(&data[..copy_len])] and the length stored
    with it. *)
Definition copy_cid (cid data : list Z) : result (list Z * Z) :=
  let copy_len := Z.min (len data) 20 in
  src ← slice data 0 copy_len;
  cid' ← copy_at cid 0 copy_len src;
  Ok (cid', trunc 8 copy_len).

Definition set_int (id value : Z) (p : t) : t :=
  if id =? PARAM_MAX_IDLE_TIMEOUT then p <| max_idle_timeout := value |>
  else if id =? PARAM_MAX_UDP_PAYLOAD_SIZE then p <| max_udp_payload_size := value |>
  else if id =? PARAM_INITIAL_MAX_DATA then p <| initial_max_data := value |>
  else if id =? PARAM_INITIAL_MAX_STREAM_DATA_BIDI_LOCAL then p <| initial_max_stream_data_bidi_local := value |>
  else if id =? PARAM_INITIAL_MAX_STREAM_DATA_BIDI_REMOTE then p <| initial_max_stream_data_bidi_remote := value |>
  else if id =? PARAM_INITIAL_MAX_STREAM_DATA_UNI then p <| initial_max_stream_data_uni := value |>
  else if id =? PARAM_INITIAL_MAX_STREAMS_BIDI then p <| initial_max_streams_bidi := value |>
  else if id =? PARAM_INITIAL_MAX_STREAMS_UNI then p <| initial_max_streams_uni := value |>
  else if id =? PARAM_ACK_DELAY_EXPONENT then p <| ack_delay_exponent := value |>
  else if id =? PARAM_MAX_ACK_DELAY then p <| max_ack_delay := value |>
  else p <| active_connection_id_limit := value |>.

Definition int_params : list Z :=
  [PARAM_MAX_IDLE_TIMEOUT; PARAM_MAX_UDP_PAYLOAD_SIZE; PARAM_INITIAL_MAX_DATA;
   PARAM_INITIAL_MAX_STREAM_DATA_BIDI_LOCAL; PARAM_INITIAL_MAX_STREAM_DATA_BIDI_REMOTE;
   PARAM_INITIAL_MAX_STREAM_DATA_UNI; PARAM_INITIAL_MAX_STREAMS_BIDI;
   PARAM_INITIAL_MAX_STREAMS_UNI; PARAM_ACK_DELAY_EXPONENT; PARAM_MAX_ACK_DELAY;
   PARAM_ACTIVE_CONNECTION_ID_LIMIT].

(** The match on the identifier. *)
Definition apply_param (id : Z) (data : list Z) (p : t) : result t :=
  if id =? PARAM_ORIGINAL_DCID then
    '(cid, l) ← copy_cid (original_dcid p) data;
    Ok (p <| original_dcid := cid |> <| original_dcid_len := l |>)
  else if id =? PARAM_INITIAL_SCID then
    '(cid, l) ← copy_cid (initial_scid p) data;
    Ok (p <| initial_scid := cid |> <| initial_scid_len := l |>)
  else if existsb (Z.eqb id) int_params then
    '(value, _) ← decode_varint data; Ok (set_int id value p)
  else Ok p.

Section decode.
Context `{Platform}.

(** The while loop; every iteration moves on by the identifier and the length. *)
Fixpoint decode_loop (fuel : nat) (buf : list Z) (off : Z) (p : t) : result t :=
  if off <? len buf then
    match fuel with
    | O => Panic
    | S fuel =>
        rest ← slice_from buf off;
        '(id, id_len) ← decode_varint rest;
        let off := off + id_len in
        rest ← slice_from buf off;
        '(param_len, len_len) ← decode_varint rest;
        let off := off + len_len in
        e ← usize_add off (as_usize param_len);
        if len buf <? e then Err Tls else
        param_data ← slice buf off e;
        p ← apply_param id param_data p;
        decode_loop fuel buf e p
    end
  else Ok p.

Definition decode (buf : list Z) : result t := decode_loop (length buf) buf 0 absent.

(** ** The wire *)

Definition param_wire (id : Z) (data : list Z) : list Z := varint_wire id ++ varint_wire (len data) ++ data.
Definition int_entry (id value : Z) : Z * list Z := (id, varint_wire value).
Definition cid_entry (id : Z) (cid : list Z) (l : Z) : list (Z * list Z) :=
  if 0 <? l then [(id, take (Z.to_nat l) cid)] else [].
Definition entries (p : t) : list (Z * list Z) :=
  cid_entry PARAM_ORIGINAL_DCID (original_dcid p) (original_dcid_len p) ++
  [int_entry PARAM_MAX_IDLE_TIMEOUT (max_idle_timeout p);
   int_entry PARAM_MAX_UDP_PAYLOAD_SIZE (max_udp_payload_size p);
   int_entry PARAM_INITIAL_MAX_DATA (initial_max_data p);
   int_entry PARAM_INITIAL_MAX_STREAM_DATA_BIDI_LOCAL (initial_max_stream_data_bidi_local p);
   int_entry PARAM_INITIAL_MAX_STREAM_DATA_BIDI_REMOTE (initial_max_stream_data_bidi_remote p);
   int_entry PARAM_INITIAL_MAX_STREAM_DATA_UNI (initial_max_stream_data_uni p);
   int_entry PARAM_INITIAL_MAX_STREAMS_BIDI (initial_max_streams_bidi p);
   int_entry PARAM_INITIAL_MAX_STREAMS_UNI (initial_max_streams_uni p);
   int_entry PARAM_ACK_DELAY_EXPONENT (ack_delay_exponent p);
   int_entry PARAM_MAX_ACK_DELAY (max_ack_delay p);
   int_entry PARAM_ACTIVE_CONNECTION_ID_LIMIT (active_connection_id_limit p)] ++
  cid_entry PARAM_INITIAL_SCID (initial_scid p) (initial_scid_len p).
Definition wire (l : list (Z * list Z)) : list Z := mjoin ((λ e, param_wire e.1 e.2) <$> l).

(** A connection ID in its array, zeros behind it. *)
Definition cid_ok (cid : list Z) (l : Z) : Prop :=
  0 ≤ l ≤ 20 ∧ bytes_ok cid ∧ ∃ c, len c = l ∧ cid = c ++ replicate (20 - length c) 0.
Record wf (p : t) : Prop := {
  wf_ints : Forall varint_ok [max_idle_timeout p; max_udp_payload_size p; initial_max_data p;
    initial_max_stream_data_bidi_local p; initial_max_stream_data_bidi_remote p;
    initial_max_stream_data_uni p; initial_max_streams_bidi p; initial_max_streams_uni p;
    ack_delay_exponent p; max_ack_delay p; active_connection_id_limit p];
  wf_dcid : cid_ok (original_dcid p) (original_dcid_len p);
  wf_scid : cid_ok (initial_scid p) (initial_scid_len p)
}.

(** ** Encoding writes the wire form *)

Lemma small_varint v : 0 ≤ v < 2 ^ 31 → varint_ok v.
Proof. intros. unfold varint_ok. rewrite MAX_VARINT_eq. lia. Qed.
Lemma wf_default : wf default_params.
Proof.
  constructor; [|split; [done|]; split; [by repeat constructor|by exists []]..].
  repeat (apply Forall_cons_2; [apply small_varint; simpl; lia|]). by apply Forall_nil_2.
Qed.

Lemma Writes_param id v :
  varint_ok id → varint_ok v → Writes (encode_param id v) (param_wire id (varint_wire v)).
Proof.
  intros Hid Hv. unfold encode_param, param_wire. pose proof (varint_len_cases v).
  rewrite len_varint_wire. apply Writes_room.
  - repeat apply Puts_bind; apply Puts_varint; try done. apply small_varint. lia.
  - rewrite !length_app, !Nat2Z.inj_add, !len_varint_wire. lia.
Qed.
Lemma Writes_bytes_param id data :
  varint_ok id → len data < 2 ^ 31 → Writes (encode_bytes_param id data) (param_wire id data).
Proof.
  intros Hid Hl. unfold encode_bytes_param, param_wire. apply Writes_room.
  - repeat apply Puts_bind; [by apply Puts_varint|apply Puts_varint, small_varint; lia|apply Puts_slice].
  - rewrite !length_app, !Nat2Z.inj_add, !len_varint_wire. lia.
Qed.
Lemma cid_ok_len cid l : cid_ok cid l → len cid = 20.
Proof. intros (Hl & _ & c & Hc & ->). rewrite length_app, length_replicate. lia. Qed.
Lemma Writes_cid id cid l :
  varint_ok id → cid_ok cid l → Writes (encode_cid id cid l) (wire (cid_entry id cid l)).
Proof.
  intros Hid Hc. pose proof (cid_ok_len _ _ Hc) as Hlc. destruct Hc as [Hl _].
  unfold encode_cid, cid_entry. destruct (Z.ltb_spec 0 l); [|apply Writes_ret].
  eapply Writes_lift; [apply slice_eq; lia|]. rewrite Z.sub_0_r. cbn. rewrite app_nil_r.
  apply Writes_bytes_param; [done|]. rewrite length_take. lia.
Qed.
Lemma wire_app l l' : wire (l ++ l') = wire l ++ wire l'.
Proof. unfold wire. by rewrite fmap_app, join_app. Qed.
Lemma wire_cons e l : wire (e :: l) = param_wire e.1 e.2 ++ wire l.
Proof. done. Qed.

Lemma id_ok id : bool_decide (0 ≤ id ≤ 15) = true → varint_ok id.
Proof. intros ?%bool_decide_eq_true. apply small_varint. lia. Qed.
Lemma encode_wire p buf :
  wf p → let w := wire (entries p) in
  (len w ≤ len buf → encode p buf = (Ok (len w), w ++ drop (length w) buf)) ∧
  (len buf < len w → ∃ e b, encode p buf = (Err e, b) ∧ too_small e).
Proof.
  intros [Hi Hd Hs] w.
  assert (∃ m, encode p = from_start m ∧ Writes m w) as (m & -> & Hm).
  { eexists. split; [reflexivity|]. subst w. unfold entries. rewrite wire_app. cbn [app]. rewrite !wire_cons.
    repeat (apply Forall_cons in Hi as [? Hi]). unfold int_entry. cbn [fst snd].
    repeat first [by apply Writes_cid; [apply id_ok|]|by apply Writes_param; [apply id_ok|]|apply Writes_bind]. }
  destruct (Writes_start m w buf Hm) as [Hok Herr]. unfold from_start. split; intros Hl.
  - by rewrite Hok.
  - destruct (Herr Hl) as (e & s' & -> & He). by exists e, s'.1.
Qed.

(** ** Decoding the wire form *)

Fixpoint apply_all (l : list (Z * list Z)) (p : t) : result t :=
  match l with [] => Ok p | e :: l' => p' ← apply_param e.1 e.2 p; apply_all l' p' end.

Definition entry_ok (e : Z * list Z) : Prop := varint_ok e.1 ∧ bytes_ok e.2 ∧ len e.2 < 2 ^ 30.

Lemma bytes_ok_param e : entry_ok e → bytes_ok (param_wire e.1 e.2).
Proof. intros (_ & ? & _). unfold param_wire. repeat apply Forall_app_2; auto using bytes_ok_varint_wire. Qed.
Lemma bytes_ok_wire l : Forall entry_ok l → bytes_ok (wire l).
Proof. induction 1; [constructor|]. rewrite wire_cons. apply Forall_app_2; [by apply bytes_ok_param|done]. Qed.

Lemma params_loop_wire fuel pre l p :
  bytes_ok pre → Forall entry_ok l → len (pre ++ wire l) < 2 ^ 30 → (length l ≤ fuel)%nat →
  decode_loop fuel (pre ++ wire l) (len pre) p = apply_all l p.
Proof.
  intros Hpre Hl. revert fuel pre p Hpre. induction Hl as [|e l He Hl IH]; intros fuel pre p Hpre Hlen Hf.
  { cbn [wire fmap list_fmap mjoin list_join apply_all]. rewrite app_nil_r.
    destruct fuel; cbn [decode_loop]; by rewrite Z.ltb_irrefl. }
  destruct fuel as [|fuel]; [simpl in Hf; lia|]. cbn [decode_loop apply_all].
  pose proof He as (Hid & Hd & Hld). pose proof (bytes_ok_wire _ Hl) as Hw.
  rewrite wire_cons in *. unfold param_wire in *. set (buf := pre ++ _) in *.
  assert (len buf = len pre + varint_len e.1 + varint_len (len e.2) + len e.2 + len (wire l)) as Hlb.
  { subst buf. rewrite !length_app, !Nat2Z.inj_add, !len_varint_wire. lia. }
  pose proof (varint_len_cases e.1). pose proof (varint_len_cases (len e.2)).
  assert (0 < varint_len e.1 ∧ 0 < varint_len (len e.2)) as [? ?] by lia.
  rewrite (proj2 (Z.ltb_lt _ _)) by lia.
  rewrite slice_from_eq, Nat2Z.id by lia. subst buf. rewrite drop_app_length. cbn [mbind res_bind].
  rewrite <- !app_assoc.
  rewrite decode_varint_wire by (done || (repeat apply Forall_app_2; auto using bytes_ok_varint_wire)).
  cbn [mbind res_bind]. cbv zeta. rewrite <- (len_varint_wire e.1).
  rewrite slice_from_eq by len_lia. cbn [mbind res_bind].
  rewrite app_assoc, drop_app_length' by len_lia.
  rewrite decode_varint_wire; [|by apply small_varint; lia|by apply Forall_app_2].
  cbn [mbind res_bind]. rewrite as_usize_u31 by lia. rewrite usize_add_ok by (pose proof pow_usize_ge; rewrite len_varint_wire; lia).
  cbn [mbind res_bind]. rewrite (proj2 (Z.ltb_ge _ _)) by (rewrite !length_app, !Nat2Z.inj_add, !len_varint_wire; lia).
  rewrite <- (len_varint_wire (len e.2)).
  assert (slice (E:=Error) ((pre ++ varint_wire e.1) ++ varint_wire (len e.2) ++ e.2 ++ wire l)
    (len pre + len (varint_wire e.1) + len (varint_wire (len e.2)))
    (len pre + len (varint_wire e.1) + len (varint_wire (len e.2)) + len e.2) = Ok e.2) as ->.
  { rewrite app_assoc. apply slice_middle; len_lia. }
  cbn [mbind res_bind]. destruct (apply_param e.1 e.2 p) as [p'| |]; [|done..]. cbn [mbind res_bind].
  specialize (IH fuel (((pre ++ varint_wire e.1) ++ varint_wire (len e.2)) ++ e.2) p').
  rewrite <- IH.
  - rewrite <- !app_assoc. f_equal. rewrite !length_app. lia.
  - repeat apply Forall_app_2; auto using bytes_ok_varint_wire.
  - rewrite !length_app in Hlen |- *. lia.
  - simpl in Hf. lia.
Qed.

Lemma decode_wire l :
  Forall entry_ok l → len (wire l) < 2 ^ 30 → decode (wire l) = apply_all l absent.
Proof.
  intros Hl Hlen. apply (params_loop_wire (length (wire l)) [] l absent); [constructor|done|done|].
  clear Hlen. induction Hl as [|e l He _ IH]; [done|]. rewrite wire_cons, length_app. unfold param_wire.
  rewrite length_app. pose proof (len_varint_wire e.1). pose proof (varint_len_cases e.1). simpl. lia.
Qed.

Lemma copy_cid_absent c :
  len c ≤ 20 → copy_cid (replicate 20 0) c = Ok (c ++ replicate (20 - length c) 0, len c).
Proof.
  intros Hl. unfold copy_cid. cbv zeta. rewrite Z.min_l by done. rewrite slice_eq by lia. cbn [mbind res_bind].
  rewrite Z.sub_0_r, Nat2Z.id, drop_0, firstn_all, copy_at_eq by (rewrite ?length_replicate; lia). cbn [mbind res_bind].
  rewrite take_0, Nat2Z.id, drop_replicate, trunc_small by (unfold uint; lia). done.
Qed.
Lemma apply_cid_entry id cid l (p : t) k :
  cid_ok cid l →
  (∀ c, len c = l → cid = c ++ replicate (20 - length c) 0 → 0 < l → apply_param id c p = Ok (k cid l)) →
  (l = 0 → cid = replicate 20 0 → k cid l = p) →
  apply_all (cid_entry id cid l) p = Ok (k cid l).
Proof.
  intros (Hl & _ & c & Hc & ->) Hpos Hz. unfold cid_entry. destruct (Z.ltb_spec 0 l).
  - rewrite take_app_length' by lia. cbn [apply_all fst snd]. by rewrite (Hpos c).
  - assert (c = []) as -> by (destruct c; [done|simpl in *; lia]). cbn [apply_all]. rewrite Hz; [done|lia|done].
Qed.
Lemma apply_all_app l l' p : apply_all (l ++ l') p = (p' ← apply_all l p; apply_all l' p').
Proof.
  revert p. induction l as [|e l IH]; intros p; simpl; [done|]. destruct (apply_param _ _ _); simpl; [apply IH|done..].
Qed.

Lemma apply_int id v p :
  existsb (Z.eqb id) int_params = true → varint_ok v → apply_param id (varint_wire v) p = Ok (set_int id v p).
Proof.
  intros Hid Hv. unfold apply_param.
  assert (id ≠ PARAM_ORIGINAL_DCID ∧ id ≠ PARAM_INITIAL_SCID) as [? ?].
  { split; intros ->; done. }
  rewrite !(proj2 (Z.eqb_neq _ _)) by done. rewrite Hid.
  rewrite <- (app_nil_r (varint_wire v)). rewrite decode_varint_wire by (done || constructor). done.
Qed.

Lemma apply_entries p : wf p → apply_all (entries p) absent = Ok p.
Proof.
  intros [Hi Hd Hs]. unfold entries. rewrite apply_all_app.
  rewrite (apply_cid_entry _ _ _ absent (λ cid l, absent <| original_dcid := cid |> <| original_dcid_len := l |>) Hd).
  2: { intros c Hl Hc H0. unfold apply_param. cbn [Z.eqb PARAM_ORIGINAL_DCID]. cbn [original_dcid absent].
       rewrite copy_cid_absent by (destruct Hd; lia). simpl. by rewrite Hl, Hc. }
  2: { intros -> ->. done. }
  repeat (apply Forall_cons in Hi as [? Hi]). unfold int_entry.
  cbn [app mbind res_bind apply_all fst snd]. repeat (rewrite apply_int by done; cbn [mbind res_bind]).
  match goal with |- apply_all _ ?q = _ =>
    assert (q = p <| initial_scid := replicate 20 0 |> <| initial_scid_len := 0 |>) as -> by (by destruct p) end.
  set (p0 := p <| initial_scid := _ |> <| initial_scid_len := _ |>).
  rewrite (apply_cid_entry _ _ _ p0 (λ cid l, p0 <| initial_scid := cid |> <| initial_scid_len := l |>) Hs).
  - by destruct p.
  - intros c Hl Hc Hpos. unfold apply_param. cbn [Z.eqb PARAM_INITIAL_SCID PARAM_ORIGINAL_DCID].
    change (initial_scid p0) with (replicate 20 0). rewrite copy_cid_absent by (destruct Hs; lia). simpl. by rewrite Hl, Hc.
  - intros -> ->. done.
Qed.

Lemma entries_ok p : wf p → Forall entry_ok (entries p).
Proof.
  intros [Hi Hd Hs]. repeat (apply Forall_cons in Hi as [? Hi]).
  assert (∀ id cid l, varint_ok id → cid_ok cid l → Forall entry_ok (cid_entry id cid l)) as Hc.
  { intros id cid l Hid Hc. pose proof (cid_ok_len _ _ Hc). destruct Hc as (Hl & Hb & _). unfold cid_entry.
    destruct (0 <? l); [|constructor]. apply Forall_singleton. split; [done|]. split; [by apply Forall_take|].
    simpl. rewrite length_take. lia. }
  assert (∀ id v, varint_ok id → entry_ok (int_entry id v)) as Hint.
  { intros id v ?. split; [done|]. split; [apply bytes_ok_varint_wire|]. simpl. rewrite len_varint_wire.
    pose proof (varint_len_cases v). lia. }
  unfold entries. apply Forall_app_2; [by apply Hc; [apply id_ok|]|]. apply Forall_app_2; [|by apply Hc; [apply id_ok|]].
  repeat (apply Forall_cons_2; [by apply Hint, id_ok|]). by apply Forall_nil_2.
Qed.

Lemma wire_bound l n :
  Forall (λ e, 0 ≤ e.1 ≤ 63 ∧ len e.2 ≤ n) l → n ≤ 63 → len (wire l) ≤ len l * (2 + n).
Proof.
  induction 1 as [|e l [Hid He] _ IH]; intros Hn; [done|]. rewrite wire_cons, length_app, Nat2Z.inj_add. unfold param_wire.
  rewrite !length_app, !Nat2Z.inj_add, !len_varint_wire. pose proof (varint_len_cases e.1).
  pose proof (varint_len_cases (len e.2)). cbn [length]. specialize (IH Hn). lia.
Qed.
(** Well below the 256 bytes of the extension encoders. *)
Lemma len_wire_entries p : wf p → len (wire (entries p)) ≤ 154.
Proof.
  intros [_ Hd Hs].
  assert (∀ id cid l, 0 ≤ id ≤ 63 → cid_ok cid l → len (wire (cid_entry id cid l)) ≤ 22) as Hc.
  { intros id cid l Hid Hc. pose proof (cid_ok_len _ _ Hc). destruct Hc as (Hl & _ & _).
    pose proof (wire_bound (cid_entry id cid l) 20) as Hb. unfold cid_entry in *.
    destruct (0 <? l); [|simpl; lia]. apply Hb; [|lia]. apply Forall_singleton. simpl. rewrite length_take. lia. }
  unfold entries. rewrite !wire_app, !length_app.
  pose proof (Hc PARAM_ORIGINAL_DCID _ _ ltac:(done) Hd). pose proof (Hc PARAM_INITIAL_SCID _ _ ltac:(done) Hs).
  match goal with |- context [wire (int_entry ?i ?v :: ?l)] =>
    assert (len (wire (int_entry i v :: l)) ≤ len (int_entry i v :: l) * (2 + 8)) as Hi end.
  { apply wire_bound; [|lia]. repeat (apply Forall_cons_2; [split; [done|]|]); [..|by apply Forall_nil_2].
    all: simpl; rewrite len_varint_wire; match goal with |- varint_len ?v ≤ _ => pose proof (varint_len_cases v); lia end. }
  cbn [length] in Hi. lia.
Qed.

(** ** Decoding anything *)

(** The values a decoder can return. *)
Definition sane (p : t) : Prop :=
  Forall varint_ok [max_idle_timeout p; max_udp_payload_size p; initial_max_data p;
    initial_max_stream_data_bidi_local p; initial_max_stream_data_bidi_remote p;
    initial_max_stream_data_uni p; initial_max_streams_bidi p; initial_max_streams_uni p;
    ack_delay_exponent p; max_ack_delay p; active_connection_id_limit p] ∧
  (len (original_dcid p) = 20 ∧ 0 ≤ original_dcid_len p ≤ 20) ∧
  (len (initial_scid p) = 20 ∧ 0 ≤ initial_scid_len p ≤ 20).

Definition expected (r : result t) : Prop :=
  match r with Ok p => sane p | Err e => e = Tls ∨ too_small e | Panic => False end.

Lemma copy_cid_ok cid data :
  len cid = 20 → ∃ cid' l, copy_cid cid data = Ok (cid', l) ∧ len cid' = 20 ∧ 0 ≤ l ≤ 20.
Proof.
  intros Hc. unfold copy_cid. cbv zeta. set (n := Z.min (len data) 20).
  rewrite slice_eq by lia. cbn [mbind res_bind]. rewrite Z.sub_0_r, drop_0.
  rewrite copy_at_eq by (rewrite ?length_take; lia). cbn [mbind res_bind]. do 2 eexists. split; [done|].
  rewrite trunc_small by (unfold uint; lia). split; [|lia]. rewrite !length_app, !length_take, length_drop. lia.
Qed.

Lemma varint_errors buf : bytes_ok buf →
  match decode_varint buf with
  | Ok (v, n) => varint_ok v ∧ 1 ≤ n ≤ len buf
  | Err e => too_small e
  | Panic => False
  end.
Proof.
  intros Hb. destruct (decode_varint buf) as [[v n]|e|] eqn:Hd.
  - apply decode_varint_inv in Hd; [|done]. unfold varint_ok; tauto.
  - destruct buf as [|b l]; [injection Hd as <-; by eexists|]. rewrite decode_varint_eq in Hd by done.
    cbv zeta in Hd. case_decide; [|done]. injection Hd as <-. by eexists.
  - by apply decode_varint_no_panic in Hd.
Qed.

Lemma apply_param_ok id data p : bytes_ok data → sane p → expected (apply_param id data p).
Proof.
  intros Hb (Hi & Hd & Hs). unfold apply_param.
  destruct (id =? _); [|destruct (id =? _)].
  - destruct (copy_cid_ok (original_dcid p) data) as (c & l & -> & ? & ?); [apply Hd|]. split; [exact Hi|by split].
  - destruct (copy_cid_ok (initial_scid p) data) as (c & l & -> & ? & ?); [apply Hs|]. split; [exact Hi|by split].
  - destruct (existsb _ _); [|split; [exact Hi|by split]].
    pose proof (varint_errors data Hb) as Hv. destruct (decode_varint data) as [[v n]|e|]; [|by right|done].
    destruct Hv as [Hv _]. cbn [mbind res_bind]. repeat (apply Forall_cons in Hi as [? Hi]). unfold set_int.
    repeat (case_match; [split; [repeat (apply Forall_cons_2; [done|]); by apply Forall_nil_2|by split]|]).
    split; [repeat (apply Forall_cons_2; [done|]); by apply Forall_nil_2|by split].
Qed.

Lemma decode_loop_total fuel buf off p :
  usize_bits = 64 → bytes_ok buf → len buf < 2 ^ 62 → 0 ≤ off ≤ len buf → len buf - off ≤ Z.of_nat fuel → sane p →
  expected (decode_loop fuel buf off p).
Proof.
  intros H64 Hb Hl. revert off p. induction fuel as [|fuel IH]; intros off p Ho Hf Hp; cbn [decode_loop];
    destruct (Z.ltb_spec off (len buf)) as [Hlt|]; try done; [lia|].
  rewrite slice_from_eq by lia. cbn [mbind res_bind].
  pose proof (varint_errors (drop (Z.to_nat off) buf) ltac:(by apply Forall_drop)) as Hv.
  destruct (decode_varint (drop (Z.to_nat off) buf)) as [[id n1]|e|]; [|by right|done].
  destruct Hv as [_ Hn1]. rewrite length_drop in Hn1. cbn [mbind res_bind]. cbv zeta. rewrite slice_from_eq by lia. cbn [mbind res_bind].
  pose proof (varint_errors (drop (Z.to_nat (off + n1)) buf) ltac:(by apply Forall_drop)) as Hv.
  destruct (decode_varint (drop (Z.to_nat (off + n1)) buf)) as [[pl n2]|e|]; [|by right|done].
  destruct Hv as [[Hpl0 Hpl] Hn2]. rewrite length_drop in Hn2. cbn [mbind res_bind]. rewrite MAX_VARINT_eq in Hpl.
  assert (as_usize pl = pl) as -> by (apply as_usize_small; unfold uint; rewrite H64; lia).
  rewrite usize_add_ok by (rewrite H64; lia). cbn [mbind res_bind].
  destruct (Z.ltb_spec (len buf) (off + n1 + n2 + pl)); [by left|].
  rewrite slice_eq by lia. cbn [mbind res_bind].
  match goal with |- context [apply_param id ?d p] =>
    pose proof (apply_param_ok id d p ltac:(by apply Forall_take, Forall_drop) Hp) as Ha; destruct (apply_param id d p) as [p'| |] end; [|done..].
  cbn [mbind res_bind]. apply IH; [lia|lia|done].
Qed.

Lemma sane_absent : sane absent.
Proof.
  split; [|done]. repeat (apply Forall_cons_2; [apply small_varint; simpl; lia|]). by apply Forall_nil_2.
Qed.

(** On a 64-bit target every input is answered. *)
Lemma params_decode_total buf :
  usize_bits = 64 → bytes_ok buf → len buf < 2 ^ 62 → expected (decode buf).
Proof. intros. apply decode_loop_total; [done..|lia|lia|apply sane_absent]. Qed.

(** Transport parameters survive the exchange. *)
Lemma params_roundtrip p buf :
  wf p →
  (154 ≤ len buf → ∃ n buf', encode p buf = (Ok n, buf') ∧ n ≤ 154 ∧ decode (take (Z.to_nat n) buf') = Ok p).
Proof.
  intros Hp Hl. pose proof (len_wire_entries p Hp). destruct (encode_wire p buf Hp) as [He _].
  do 2 eexists. split; [apply He; lia|]. split; [done|]. rewrite Nat2Z.id, take_app_length.
  rewrite decode_wire by (try lia; by apply entries_ok). by apply apply_entries.
Qed.

End decode.

(** On a 32-bit target the end of the parameter is computed with an overflow:
    ten bytes of a ClientHello panic whether [usize] additions are checked or
    wrap. *)
Lemma params_decode_panics_32bit `{Platform} :
  usize_bits = 32 → decode [0x40; 0x40; 0xC0; 0; 0; 0; 0xFF; 0xFF; 0xFF; 0xFF] = Panic.
Proof. destruct H as [bits Hbits [|]]; cbn [usize_bits]; intros ->; vm_compute; reflexivity. Qed.

End TransportParams.
