(* ===== verification/TlsMessages.v ===== *)
(** * TLS 1.3 handshake messages: [src/tls/messages.rs], [src/tls/alert.rs]

    Encoders and parsers of the handshake messages, the cipher suites and the
    alert codes. *)
From S2P Require Import Prelude Errors Varint Cursor.

Module Alert.

Inductive t : Type :=
| CloseNotify | UnexpectedMessage | BadRecordMac | DecryptionFailed | HandshakeFailure
| BadCertificate | CertificateExpired | CertificateUnknown | IllegalParameter | UnknownCa
| DecodeError | DecryptError | ProtocolVersion | InsufficientSecurity | InternalError
| MissingExtension | UnsupportedExtension | NoApplicationProtocol.

Definition to_u8 (a : t) : Z :=
  match a with
  | CloseNotify => 0 | UnexpectedMessage => 10 | BadRecordMac => 20 | DecryptionFailed => 21
  | HandshakeFailure => 40 | BadCertificate => 42 | CertificateExpired => 45
  | CertificateUnknown => 46 | IllegalParameter => 47 | UnknownCa => 48 | DecodeError => 50
  | DecryptError => 51 | ProtocolVersion => 70 | InsufficientSecurity => 71 | InternalError => 80
  | MissingExtension => 109 | UnsupportedExtension => 110 | NoApplicationProtocol => 120
  end.

Definition from_u8 (v : Z) : option t :=
  match v with
  | 0 => Some CloseNotify | 10 => Some UnexpectedMessage | 20 => Some BadRecordMac
  | 21 => Some DecryptionFailed | 40 => Some HandshakeFailure | 42 => Some BadCertificate
  | 45 => Some CertificateExpired | 46 => Some CertificateUnknown | 47 => Some IllegalParameter
  | 48 => Some UnknownCa | 50 => Some DecodeError | 51 => Some DecryptError
  | 70 => Some ProtocolVersion | 71 => Some InsufficientSecurity | 80 => Some InternalError
  | 109 => Some MissingExtension | 110 => Some UnsupportedExtension
  | 120 => Some NoApplicationProtocol | _ => None
  end.

Lemma alert_codes v a : from_u8 v = Some a ↔ to_u8 a = v.
Proof. split; [|intros <-; by destruct a]. unfold from_u8. repeat case_match; intros [= <-]; done. Qed.

End Alert.

Module HandshakeType.

Inductive t : Type :=
| ClientHello | ServerHello | EncryptedExtensions | Certificate | CertificateVerify | Finished.

(** [self as u8]. *)
Definition to_u8 (ty : t) : Z :=
  match ty with
  | ClientHello => 1 | ServerHello => 2 | EncryptedExtensions => 8 | Certificate => 11
  | CertificateVerify => 15 | Finished => 20
  end.
Definition from_u8 (v : Z) : option t :=
  match v with
  | 1 => Some ClientHello | 2 => Some ServerHello | 8 => Some EncryptedExtensions
  | 11 => Some Certificate | 15 => Some CertificateVerify | 20 => Some Finished | _ => None
  end.

Lemma type_codes v ty : from_u8 v = Some ty ↔ to_u8 ty = v.
Proof. split; [|intros <-; by destruct ty]. unfold from_u8. repeat case_match; intros [= <-]; done. Qed.

End HandshakeType.

Module CipherSuite.

Inductive t : Type := TlsAes128GcmSha256 | TlsChacha20Poly1305Sha256.
Global Instance cipher_suite_eq_dec : EqDecision t.
Proof. solve_decision. Defined.

Definition to_u16 (c : t) : Z :=
  match c with TlsAes128GcmSha256 => 0x1301 | TlsChacha20Poly1305Sha256 => 0x1303 end.
Definition from_u16 (v : Z) : option t :=
  match v with
  | 0x1301 => Some TlsAes128GcmSha256 | 0x1303 => Some TlsChacha20Poly1305Sha256 | _ => None
  end.
Definition key_len (c : t) : Z :=
  match c with TlsAes128GcmSha256 => 16 | TlsChacha20Poly1305Sha256 => 32 end.
Definition hp_key_len (c : t) : Z :=
  match c with TlsAes128GcmSha256 => 16 | TlsChacha20Poly1305Sha256 => 32 end.

Lemma suite_codes v c : from_u16 v = Some c ↔ to_u16 c = v.
Proof. split; [|intros <-; by destruct c]. unfold from_u16. repeat case_match; intros [= <-]; done. Qed.

End CipherSuite.

Module Messages.

Record ClientHello := MkClientHello {
  ch_random : list Z;
  ch_session_id : list Z;
  ch_cipher_suites : list Z;
  ch_extensions : list Z
}.
Record ServerHello := MkServerHello {
  sh_random : list Z;
  sh_session_id : list Z;
  sh_cipher_suite : CipherSuite.t;
  sh_extensions : list Z
}.
Record CertificatePayload := MkCertificatePayload { context : list Z; entries : list Z }.
Record CertificateEntry := MkCertificateEntry { cert_data : list Z; cert_extensions : list Z }.
Record CertificateVerify := MkCertificateVerify { algorithm : Z; signature : list Z }.

(** ** Parsing *)

(** [u16::from_be_bytes([data[off], data[off + 1]])], and three bytes shifted
    together. *)
Definition be16 (data : list Z) (off : Z) : result Z :=
  b0 ← idx data off; b1 ← idx data (off + 1); Ok (be_val [b0; b1]).
Definition be24 (data : list Z) (off : Z) : result Z :=
  b0 ← idx data off; b1 ← idx data (off + 1); b2 ← idx data (off + 2);
  Ok (Z.lor (Z.lor (Z.shiftl b0 16) (Z.shiftl b1 8)) b2).

(** [if off + n > data.len() { return Err } &data[off..off + n]]. *)
Definition sub (data : list Z) (off n : Z) : result (list Z) :=
  if len data <? off + n then Err Tls else slice data off (off + n).

Definition read_handshake_header (data : list Z) : result (Z * Z) :=
  if len data <? 4 then Err Tls else
  msg_type ← idx data 0; l ← be24 data 1; Ok (msg_type, l).

(** The part the two hellos share: random, session ID and the offset behind. *)
Definition hello_prefix (data : list Z) : result (list Z * list Z * Z) :=
  if len data <? 2 + 32 + 1 then Err Tls else
  _ ← be16 data 0;
  random ← slice data 2 (2 + 32);
  sid_len ← idx data 34;
  session_id ← sub data 35 sid_len;
  Ok (random, session_id, 35 + sid_len).

(** The optional extensions at the end of the two hellos. *)
Definition hello_extensions (data : list Z) (off : Z) : result (list Z) :=
  if off + 2 <=? len data then ext_len ← be16 data off; sub data (off + 2) ext_len else Ok [].

Definition parse_server_hello (data : list Z) : result ServerHello :=
  '(random, session_id, off) ← hello_prefix data;
  if len data <? off + 2 then Err Tls else
  cs_val ← be16 data off;
  cipher_suite ← ok_or Tls (CipherSuite.from_u16 cs_val);
  let off := off + 2 in
  if len data <=? off then Err Tls else
  _ ← idx data off;
  extensions ← hello_extensions data (off + 1);
  Ok (MkServerHello random session_id cipher_suite extensions).

Definition parse_client_hello (data : list Z) : result ClientHello :=
  '(random, session_id, off) ← hello_prefix data;
  if len data <? off + 2 then Err Tls else
  cs_len ← be16 data off;
  cipher_suites ← sub data (off + 2) cs_len;
  let off := off + 2 + cs_len in
  if len data <=? off then Err Tls else
  comp_len ← idx data off;
  let off := off + 1 in
  if len data <? off + comp_len then Err Tls else
  extensions ← hello_extensions data (off + comp_len);
  Ok (MkClientHello random session_id cipher_suites extensions).

Definition parse_encrypted_extensions (data : list Z) : result (list Z) :=
  if len data <? 2 then Err Tls else
  ext_len ← be16 data 0; sub data 2 ext_len.

Definition parse_certificate (data : list Z) : result CertificatePayload :=
  if len data =? 0 then Err Tls else
  ctx_len ← idx data 0;
  context ← sub data 1 ctx_len;
  let off := 1 + ctx_len in
  if len data <? off + 3 then Err Tls else
  list_len ← be24 data off;
  entries ← sub data (off + 3) list_len;
  Ok (MkCertificatePayload context entries).

(** One call of the iterator's closure: what it yields and the data it keeps. *)
Definition next_certificate_entry (data : list Z) : res Error (option (result CertificateEntry)) * list Z :=
  if len data =? 0 then (Ok None, data) else
  if len data <? 3 then (Ok (Some (Err Tls)), []) else
  match be24 data 0 with
  | Ok cert_len =>
      let data := drop 3 data in
      if len data <? cert_len then (Ok (Some (Err Tls)), []) else
      let cert := take (Z.to_nat cert_len) data in
      let data := drop (Z.to_nat cert_len) data in
      if len data <? 2 then (Ok (Some (Err Tls)), []) else
      match be16 data 0 with
      | Ok ext_len =>
          let data := drop 2 data in
          if len data <? ext_len then (Ok (Some (Err Tls)), []) else
          (Ok (Some (Ok (MkCertificateEntry cert (take (Z.to_nat ext_len) data)))),
           drop (Z.to_nat ext_len) data)
      | _ => (Panic, data)
      end
  | _ => (Panic, data)
  end.

(** The iterator driven to its end; every call that yields shortens the data. *)
Fixpoint iter_certificate_entries (fuel : nat) (data : list Z) : res Error (list (result CertificateEntry)) :=
  match next_certificate_entry data with
  | (Ok None, _) => Ok []
  | (Ok (Some r), data') =>
      match fuel with
      | O => Panic
      | S fuel => rs ← iter_certificate_entries fuel data'; Ok (r :: rs)
      end
  | (Err e, _) => Err e
  | (Panic, _) => Panic
  end.

Definition parse_certificate_verify (data : list Z) : result CertificateVerify :=
  if len data <? 4 then Err Tls else
  algorithm ← be16 data 0;
  sig_len ← be16 data 2;
  signature ← sub data 4 sig_len;
  Ok (MkCertificateVerify algorithm signature).

Definition parse_finished (data : list Z) : result (list Z) :=
  if len data <? 32 then Err Tls else slice data 0 32.

(** [data.chunks_exact(2)] read as 16-bit values. *)
Fixpoint iter_cipher_suites (data : list Z) : list Z :=
  match data with b0 :: b1 :: rest => be_val [b0; b1] :: iter_cipher_suites rest | _ => [] end.

(** ** Encoding *)

(** [((v >> 8) & 0xFF) as u8], [(v & 0xFF) as u8], and three of them. *)
Definition put_be16 (v : Z) : writer unit :=
  _ ← put_u8 (Z.land (Z.shiftr v 8) 0xFF); put_u8 (Z.land v 0xFF).
Definition put_be24 (v : Z) : writer unit :=
  _ ← put_u8 (Z.land (Z.shiftr v 16) 0xFF);
  _ ← put_u8 (Z.land (Z.shiftr v 8) 0xFF); put_u8 (Z.land v 0xFF).

Definition write_handshake_header (msg_type : HandshakeType.t) (body_len : Z) : writer unit :=
  _ ← room 4;
  _ ← put_u8 (HandshakeType.to_u8 msg_type);
  put_be24 (trunc 32 body_len).

(** Version, random and session ID of a hello. *)
Definition put_hello_prefix (random session_id : list Z) : writer unit :=
  _ ← put_u8 0x03; _ ← put_u8 0x03;
  _ ← put_slice random;
  _ ← put_u8 (trunc 8 (len session_id));
  if negb (len session_id =? 0) then put_slice session_id else mret tt.

Fixpoint put_suites (cs : list CipherSuite.t) : writer unit :=
  match cs with [] => mret tt | c :: cs => _ ← put_be16 (CipherSuite.to_u16 c); put_suites cs end.

(** A length in two bytes and the bytes. *)
Definition put_vec16 (data : list Z) : writer unit := _ ← put_be16 (len data); put_slice data.

Definition encode_client_hello (random session_id : list Z) (cipher_suites : list CipherSuite.t)
    (extensions : list Z) : M Error (list Z) Z :=
  let cs_len := len cipher_suites * 2 in
  let body_len := 2 + 32 + 1 + len session_id + 2 + cs_len + 2 + 2 + len extensions in
  with_room (4 + body_len) (
    _ ← write_handshake_header HandshakeType.ClientHello body_len;
    _ ← put_hello_prefix random session_id;
    _ ← put_be16 cs_len; _ ← put_suites cipher_suites;
    _ ← put_u8 1; _ ← put_u8 0;
    put_vec16 extensions).

Definition encode_server_hello (random session_id : list Z) (cipher_suite : CipherSuite.t)
    (extensions : list Z) : M Error (list Z) Z :=
  let body_len := 2 + 32 + 1 + len session_id + 2 + 1 + 2 + len extensions in
  with_room (4 + body_len) (
    _ ← write_handshake_header HandshakeType.ServerHello body_len;
    _ ← put_hello_prefix random session_id;
    _ ← put_be16 (CipherSuite.to_u16 cipher_suite);
    _ ← put_u8 0;
    put_vec16 extensions).

Definition encode_encrypted_extensions (extensions : list Z) : M Error (list Z) Z :=
  let body_len := 2 + len extensions in
  with_room (4 + body_len) (
    _ ← write_handshake_header HandshakeType.EncryptedExtensions body_len;
    put_vec16 extensions).

Definition encode_certificate (cert_der : list Z) : M Error (list Z) Z :=
  let entry_len := 3 + len cert_der + 2 in
  let body_len := 1 + 3 + entry_len in
  with_room (4 + body_len) (
    _ ← write_handshake_header HandshakeType.Certificate body_len;
    _ ← put_u8 0;
    _ ← put_be24 entry_len;
    _ ← put_be24 (len cert_der);
    _ ← put_slice cert_der;
    _ ← put_u8 0; put_u8 0).

Definition encode_certificate_verify (algorithm : Z) (signature : list Z) : M Error (list Z) Z :=
  let body_len := 2 + 2 + len signature in
  with_room (4 + body_len) (
    _ ← write_handshake_header HandshakeType.CertificateVerify body_len;
    _ ← put_be16 algorithm;
    put_vec16 signature).

Definition encode_finished (verify_data : list Z) : M Error (list Z) Z :=
  with_room (4 + len verify_data) (
    _ ← write_handshake_header HandshakeType.Finished (len verify_data);
    put_slice verify_data).

(** ** Reading where the offset points *)

(** Behind [off] the data is [rest]. *)
Definition At (data : list Z) (off : Z) (rest : list Z) : Prop :=
  0 ≤ off ∧ ∃ pre, data = pre ++ rest ∧ len pre = off.

Lemma At_start data : At data 0 data.
Proof. split; [done|]. by exists []. Qed.
Lemma At_app data off off' x rest : At data off (x ++ rest) → off' = off + len x → At data off' rest.
Proof.
  intros (Ho & pre & -> & <-) ->. split; [lia|]. exists (pre ++ x). rewrite <- app_assoc. split; [done|len_lia].
Qed.
Lemma At_cons data off off' b rest : At data off (b :: rest) → off' = off + 1 → At data off' rest.
Proof. intros Ha ->. by apply (At_app data off _ [b] rest). Qed.
Lemma At_len data off rest : At data off rest → len data = off + len rest.
Proof. intros (_ & pre & -> & <-). len_lia. Qed.

Lemma idx_At data off b rest : At data off (b :: rest) → idx (E:=Error) data off = Ok b.
Proof.
  intros (_ & pre & -> & <-). unfold idx. rewrite decide_True by len_lia.
  by rewrite Nat2Z.id, lookup_app_r, Nat.sub_diag by lia.
Qed.
Lemma slice_At data off off' x rest : At data off (x ++ rest) → off' = off + len x → slice (E:=Error) data off off' = Ok x.
Proof. intros (_ & pre & -> & <-) ->. by apply slice_middle. Qed.
Lemma sub_At data off n x rest : At data off (x ++ rest) → n = len x → sub data off n = Ok x.
Proof.
  intros Ha ->. pose proof (At_len _ _ _ Ha). unfold sub. rewrite (proj2 (Z.ltb_ge _ _)) by len_lia. by eapply slice_At.
Qed.

Lemma be16_At data off v rest : At data off (be_bytes 2 v ++ rest) → uint 16 v → be16 data off = Ok v.
Proof.
  intros Ha Hv. unfold be16. pose proof (be_val_be_bytes_id 2 v) as Hb.
  change (be_bytes 2 v) with [v / 256 ^ 1 mod 256; v / 256 ^ 0 mod 256] in *. cbn [app] in Ha.
  rewrite (idx_At _ _ _ _ Ha). apply At_cons with (off' := off + 1) in Ha; [|done].
  rewrite (idx_At _ _ _ _ Ha). cbn [mbind res_bind]. f_equal. apply Hb. exact Hv.
Qed.
Lemma be24_At data off v rest : At data off (be_bytes 3 v ++ rest) → uint 24 v → be24 data off = Ok v.
Proof.
  intros Ha Hv. unfold be24. pose proof (be_val_be_bytes_id 3 v) as Hb. pose proof (bytes_ok_be_bytes 3 v) as Hok.
  change (be_bytes 3 v) with [v / 256 ^ 2 mod 256; v / 256 ^ 1 mod 256; v / 256 ^ 0 mod 256] in *. cbn [app] in Ha.
  rewrite (idx_At _ _ _ _ Ha). apply At_cons with (off' := off + 1) in Ha; [|done].
  rewrite (idx_At _ _ _ _ Ha). apply At_cons with (off' := off + 2) in Ha; [|lia].
  rewrite (idx_At _ _ _ _ Ha). cbn [mbind res_bind]. f_equal.
  apply Forall_cons in Hok as [? [? [? _]%Forall_cons]%Forall_cons]. rewrite header_length_bits by done. apply Hb. exact Hv.
Qed.

(** ** Encoders write the wire form *)

Lemma land_byte v n : 0 ≤ n → Z.land (Z.shiftr v (8 * n)) 0xFF = v / 256 ^ n mod 256.
Proof.
  intros Hn. change 0xFF with (Z.ones 8). rewrite Z.land_ones, Z.shiftr_div_pow2 by lia.
  by rewrite Z.pow_mul_r by lia.
Qed.
Lemma Puts_be16 v : Puts (put_be16 v) (be_bytes 2 v).
Proof.
  change (be_bytes 2 v) with ([v / 256 ^ 1 mod 256] ++ [v / 256 ^ 0 mod 256]).
  rewrite <- !land_byte by lia. apply Puts_bind; apply Puts_u8.
Qed.
Lemma Puts_be24 v : Puts (put_be24 v) (be_bytes 3 v).
Proof.
  change (be_bytes 3 v) with ([v / 256 ^ 2 mod 256] ++ [v / 256 ^ 1 mod 256] ++ [v / 256 ^ 0 mod 256]).
  rewrite <- !land_byte by lia. repeat apply Puts_bind; apply Puts_u8.
Qed.

Definition vec16_wire (data : list Z) : list Z := be_bytes 2 (len data) ++ data.
Definition header_wire (ty : HandshakeType.t) (body_len : Z) : list Z := HandshakeType.to_u8 ty :: be_bytes 3 body_len.
Definition prefix_wire (random session_id : list Z) : list Z :=
  [3; 3] ++ random ++ [trunc 8 (len session_id)] ++ session_id.
Definition suites_wire (cs : list CipherSuite.t) : list Z := mjoin (be_bytes 2 ∘ CipherSuite.to_u16 <$> cs).

Lemma Puts_header ty n : 0 ≤ n < 2 ^ 32 → Puts (write_handshake_header ty n) (header_wire ty n).
Proof.
  intros Hn. unfold write_handshake_header. rewrite trunc_small by done.
  apply Writes_Puts, Writes_room; [|done]. apply (Puts_bind _ _ [_]); [apply Puts_u8|apply Puts_be24].
Qed.
Lemma Puts_prefix random session_id : Puts (put_hello_prefix random session_id) (prefix_wire random session_id).
Proof.
  unfold put_hello_prefix, prefix_wire. apply (Puts_bind _ _ [3]); [apply Puts_u8|].
  apply (Puts_bind _ _ [3]); [apply Puts_u8|]. apply Puts_bind; [apply Puts_slice|].
  apply Puts_bind; [apply Puts_u8|]. destruct session_id; [apply Puts_ret|]. apply Puts_slice.
Qed.
Lemma Puts_suites cs : Puts (put_suites cs) (suites_wire cs).
Proof. induction cs as [|c cs IH]; [apply Puts_ret|]. apply Puts_bind; [apply Puts_be16|exact IH]. Qed.
Lemma len_suites_wire cs : len (suites_wire cs) = len cs * 2.
Proof.
  induction cs as [|c cs IH]; [done|].
  change (suites_wire (c :: cs)) with (be_bytes 2 (CipherSuite.to_u16 c) ++ suites_wire cs). len_lia.
Qed.
Lemma Puts_vec16 data : Puts (put_vec16 data) (vec16_wire data).
Proof. apply Puts_bind; [apply Puts_be16|apply Puts_slice]. Qed.

(** *** A message and its wire form *)

Inductive message : Type :=
| MClientHello (random session_id : list Z) (suites : list CipherSuite.t) (extensions : list Z)
| MServerHello (random session_id : list Z) (suite : CipherSuite.t) (extensions : list Z)
| MEncryptedExtensions (extensions : list Z)
| MCertificate (cert_der : list Z)
| MCertificateVerify (algorithm : Z) (signature : list Z)
| MFinished (verify_data : list Z).

Definition message_type (m : message) : HandshakeType.t :=
  match m with
  | MClientHello _ _ _ _ => HandshakeType.ClientHello
  | MServerHello _ _ _ _ => HandshakeType.ServerHello
  | MEncryptedExtensions _ => HandshakeType.EncryptedExtensions
  | MCertificate _ => HandshakeType.Certificate
  | MCertificateVerify _ _ => HandshakeType.CertificateVerify
  | MFinished _ => HandshakeType.Finished
  end.
Definition encode_message (m : message) : M Error (list Z) Z :=
  match m with
  | MClientHello r sid cs ext => encode_client_hello r sid cs ext
  | MServerHello r sid c ext => encode_server_hello r sid c ext
  | MEncryptedExtensions ext => encode_encrypted_extensions ext
  | MCertificate der => encode_certificate der
  | MCertificateVerify alg sig => encode_certificate_verify alg sig
  | MFinished vd => encode_finished vd
  end.
Definition body_wire (m : message) : list Z :=
  match m with
  | MClientHello r sid cs ext =>
      prefix_wire r sid ++ be_bytes 2 (len cs * 2) ++ suites_wire cs ++ [1] ++ [0] ++ vec16_wire ext
  | MServerHello r sid c ext =>
      prefix_wire r sid ++ be_bytes 2 (CipherSuite.to_u16 c) ++ [0] ++ vec16_wire ext
  | MEncryptedExtensions ext => vec16_wire ext
  | MCertificate der =>
      [0] ++ be_bytes 3 (3 + len der + 2) ++ be_bytes 3 (len der) ++ der ++ [0] ++ [0]
  | MCertificateVerify alg sig => be_bytes 2 alg ++ vec16_wire sig
  | MFinished vd => vd
  end.
Definition message_wire (m : message) : list Z := header_wire (message_type m) (len (body_wire m)) ++ body_wire m.

(** The lengths the format can express. *)
Definition message_ok (m : message) : Prop :=
  match m with
  | MClientHello r sid cs ext => len r = 32 ∧ len sid ≤ 255 ∧ len cs * 2 < 2 ^ 16 ∧ len ext < 2 ^ 16
  | MServerHello r sid _ ext => len r = 32 ∧ len sid ≤ 255 ∧ len ext < 2 ^ 16
  | MEncryptedExtensions ext => len ext < 2 ^ 16
  | MCertificate der => len der < 2 ^ 24 - 9
  | MCertificateVerify alg sig => uint 16 alg ∧ len sig < 2 ^ 16
  | MFinished vd => len vd = 32
  end.

Lemma len_hello_prefix_wire r sid : len (prefix_wire r sid) = 2 + len r + 1 + len sid.
Proof. unfold prefix_wire. len_lia. Qed.
Lemma len_vec16_wire d : len (vec16_wire d) = 2 + len d.
Proof. unfold vec16_wire. len_lia. Qed.

Lemma encode_message_wire m buf :
  message_ok m → let w := message_wire m in
  encode_message m buf = if decide (len w ≤ len buf) then (Ok (len w), w ++ drop (length w) buf)
                         else (Err (BufferTooSmall (len w)), buf).
Proof.
  intros Hm w.
  assert (∀ ty n bs p, 0 ≤ n < 2 ^ 32 → n = len bs → Puts p bs →
    with_room (4 + n) (_ ← write_handshake_header ty n; p) buf =
    let w := header_wire ty (len bs) ++ bs in
    if decide (len w ≤ len buf) then (Ok (len w), w ++ drop (length w) buf) else (Err (BufferTooSmall (len w)), buf)) as Hgen.
  { intros ty n bs p Hn -> Hp. cbv zeta. apply with_room_ok.
    - apply Puts_bind; [by apply Puts_header|done].
    - unfold header_wire. len_lia. }
  subst w. unfold message_wire.
  destruct m as [r sid cs ext|r sid c ext|ext|der|alg sig|vd]; cbn [encode_message message_type message_ok body_wire] in *;
    apply Hgen; try done; try (rewrite ?length_app, ?Nat2Z.inj_add, ?len_hello_prefix_wire, ?len_vec16_wire, ?len_suites_wire; len_lia).
  - repeat first [apply Puts_prefix|apply Puts_be16|apply Puts_suites|apply Puts_u8|apply Puts_vec16|apply Puts_bind].
  - repeat first [apply Puts_prefix|apply Puts_be16|apply Puts_u8|apply Puts_vec16|apply Puts_bind].
  - apply Puts_vec16.
  - repeat first [apply Puts_be24|apply Puts_u8|apply Puts_slice|apply Puts_bind].
  - apply Puts_bind; [apply Puts_be16|apply Puts_vec16].
  - apply Puts_slice.
Qed.

(** ** Parsers read the wire form back *)

Lemma header_back m rest :
  message_ok m → read_handshake_header (message_wire m ++ rest) = Ok (HandshakeType.to_u8 (message_type m), len (body_wire m)).
Proof.
  intros Hm. unfold read_handshake_header, message_wire, header_wire.
  assert (uint 24 (len (body_wire m))) as Hl.
  { unfold uint. destruct m; cbn [message_ok body_wire] in *;
      rewrite ?length_app, ?Nat2Z.inj_add, ?len_hello_prefix_wire, ?len_vec16_wire, ?len_suites_wire; len_lia. }
  rewrite (proj2 (Z.ltb_ge _ _)) by len_lia.
  set (data := ((_ :: be_bytes 3 _) ++ _) ++ rest).
  assert (At data 0 (HandshakeType.to_u8 (message_type m) :: be_bytes 3 (len (body_wire m)) ++ body_wire m ++ rest)) as Ha.
  { split; [done|]. exists []. split; [|done]. subst data. rewrite <- app_assoc. done. }
  rewrite (idx_At _ _ _ _ Ha). apply At_cons with (off' := 1) in Ha; [|done]. by rewrite (be24_At _ _ _ _ Ha).
Qed.

Lemma prefix_back data r sid rest :
  data = prefix_wire r sid ++ rest → len r = 32 → len sid ≤ 255 →
  hello_prefix data = Ok (r, sid, 35 + len sid) ∧ At data (35 + len sid) rest.
Proof.
  intros Hd Hr Hs. unfold hello_prefix. pose proof (At_start data) as Ha. rewrite Hd in Ha at 2.
  unfold prefix_wire in Ha. rewrite <- !app_assoc in Ha. rewrite trunc_small in Ha by (unfold uint; lia).
  assert (len data = 35 + len sid + len rest) as Hl by (rewrite Hd, length_app, Nat2Z.inj_add, len_hello_prefix_wire; lia).
  rewrite (proj2 (Z.ltb_ge _ _)) by lia. change [3; 3] with (be_bytes 2 0x0303) in Ha.
  rewrite (be16_At _ _ _ _ Ha) by done. apply At_app with (off' := 2) in Ha; [|done]. cbn [mbind res_bind].
  rewrite (slice_At _ _ (2 + 32) _ _ Ha) by lia. apply At_app with (off' := 34) in Ha; [|lia]. cbn [mbind res_bind].
  rewrite (idx_At _ _ _ _ Ha). apply At_cons with (off' := 35) in Ha; [|lia]. cbn [mbind res_bind].
  rewrite (sub_At _ _ _ _ _ Ha) by done. cbn [mbind res_bind]. split; [done|]. by apply At_app with (off' := 35 + len sid) in Ha.
Qed.
Lemma extensions_back data off ext : At data off (vec16_wire ext) → len ext < 2 ^ 16 → hello_extensions data off = Ok ext.
Proof.
  intros Ha Hl. pose proof (At_len _ _ _ Ha) as Hd. rewrite len_vec16_wire in Hd. unfold hello_extensions.
  rewrite (proj2 (Z.leb_le _ _)) by lia. unfold vec16_wire in Ha.
  rewrite (be16_At _ _ _ _ Ha) by (unfold uint; lia). cbn [mbind res_bind].
  apply At_app with (off' := off + 2) in Ha; [|len_lia]. rewrite <- (app_nil_r ext) in Ha. by apply (sub_At _ _ _ _ _ Ha).
Qed.

Lemma client_hello_back r sid cs ext :
  message_ok (MClientHello r sid cs ext) →
  parse_client_hello (body_wire (MClientHello r sid cs ext)) = Ok (MkClientHello r sid (suites_wire cs) ext).
Proof.
  intros (Hr & Hs & Hc & He). cbn [body_wire]. unfold parse_client_hello. set (data := prefix_wire r sid ++ _).
  destruct (prefix_back data r sid _ eq_refl Hr Hs) as [-> Ha]. cbn [mbind res_bind]. cbv zeta.
  pose proof (At_len _ _ _ Ha) as Hl. pose proof (len_suites_wire cs) as Hcs. pose proof (len_vec16_wire ext) as Hv.
  rewrite !length_app, length_be_bytes in Hl. cbn [length] in Hl.
  rewrite (proj2 (Z.ltb_ge _ _)) by lia.
  rewrite (be16_At _ _ _ _ Ha) by (unfold uint; lia). cbn [mbind res_bind].
  apply At_app with (off' := 35 + len sid + 2) in Ha; [|len_lia]. rewrite (sub_At _ _ _ _ _ Ha) by lia. cbn [mbind res_bind].
  apply At_app with (off' := 35 + len sid + 2 + len cs * 2) in Ha; [|lia]. cbn [app] in Ha.
  rewrite (proj2 (Z.leb_gt _ _)) by lia. rewrite (idx_At _ _ _ _ Ha). cbn [mbind res_bind].
  rewrite (proj2 (Z.ltb_ge _ _)) by lia. apply (At_app _ _ (35 + len sid + 2 + len cs * 2 + 1 + 1) [1; 0]) in Ha; [|simpl; lia].
  by rewrite (extensions_back _ _ _ Ha He).
Qed.
Lemma server_hello_back r sid c ext :
  message_ok (MServerHello r sid c ext) →
  parse_server_hello (body_wire (MServerHello r sid c ext)) = Ok (MkServerHello r sid c ext).
Proof.
  intros (Hr & Hs & He). cbn [body_wire]. unfold parse_server_hello. set (data := prefix_wire r sid ++ _).
  destruct (prefix_back data r sid _ eq_refl Hr Hs) as [-> Ha]. cbn [mbind res_bind]. cbv zeta.
  pose proof (At_len _ _ _ Ha) as Hl. pose proof (len_vec16_wire ext) as Hv.
  rewrite !length_app, length_be_bytes in Hl. cbn [length] in Hl.
  rewrite (proj2 (Z.ltb_ge _ _)) by lia.
  rewrite (be16_At _ _ _ _ Ha) by (unfold uint; destruct c; simpl; lia). cbn [mbind res_bind].
  rewrite (proj2 (CipherSuite.suite_codes _ c) eq_refl). cbn [ok_or mbind res_bind].
  apply At_app with (off' := 35 + len sid + 2) in Ha; [|len_lia]. cbn [app] in Ha.
  rewrite (proj2 (Z.leb_gt _ _)) by lia. rewrite (idx_At _ _ _ _ Ha). cbn [mbind res_bind].
  apply At_cons with (off' := 35 + len sid + 2 + 1) in Ha; [|lia]. by rewrite (extensions_back _ _ _ Ha He).
Qed.
Lemma suites_back cs : iter_cipher_suites (suites_wire cs) = CipherSuite.to_u16 <$> cs.
Proof.
  induction cs as [|c cs IH]; [done|].
  change (suites_wire (c :: cs)) with (be_bytes 2 (CipherSuite.to_u16 c) ++ suites_wire cs).
  rewrite fmap_cons, <- IH. by destruct c.
Qed.

(** A field with a two-byte length. *)
Lemma vec16_back data off x : At data off (vec16_wire x) → len x < 2 ^ 16 →
  be16 data off = Ok (len x) ∧ sub data (off + 2) (len x) = Ok x.
Proof.
  intros Ha Hl. unfold vec16_wire in Ha. split; [apply (be16_At _ _ _ _ Ha); unfold uint; lia|].
  apply At_app with (off' := off + 2) in Ha; [|len_lia]. rewrite <- (app_nil_r x) in Ha. by apply (sub_At _ _ _ _ _ Ha).
Qed.

Definition certificate_entry_wire (der : list Z) : list Z := be_bytes 3 (len der) ++ der ++ [0] ++ [0].
Lemma certificate_back der :
  message_ok (MCertificate der) →
  parse_certificate (body_wire (MCertificate der)) = Ok (MkCertificatePayload [] (certificate_entry_wire der)).
Proof.
  intros Hl. cbn [message_ok] in Hl. cbn [body_wire]. unfold parse_certificate. set (data := [0] ++ _).
  pose proof (At_start data) as Ha. subst data. cbn [app] in *. set (data := 0 :: _) in Ha at 1 |- *.
  pose proof (At_len _ _ _ Ha) as Hd. cbn [length] in Hd. rewrite !length_app, !length_be_bytes in Hd. cbn [length] in Hd.
  rewrite (proj2 (Z.eqb_neq _ _)) by lia. rewrite (idx_At _ _ _ _ Ha). cbn [mbind res_bind].
  apply At_cons with (off' := 1) in Ha; [|done].
  rewrite (sub_At data 1 0 [] _ Ha) by done. cbn [mbind res_bind]. cbv zeta. rewrite Z.add_0_r.
  rewrite (proj2 (Z.ltb_ge _ _)) by lia. rewrite (be24_At _ _ _ _ Ha) by (unfold uint; lia). cbn [mbind res_bind].
  apply At_app with (off' := 1 + 3) in Ha; [|len_lia]. rewrite <- (app_nil_r (be_bytes 3 (len der) ++ _)) in Ha.
  rewrite (sub_At _ _ _ _ _ Ha); [done|]. len_lia.
Qed.
Lemma certificate_entries_back der :
  len der < 2 ^ 24 →
  iter_certificate_entries (length (certificate_entry_wire der)) (certificate_entry_wire der) = Ok [Ok (MkCertificateEntry der [])].
Proof.
  intros Hl. assert (next_certificate_entry (certificate_entry_wire der) = (Ok (Some (Ok (MkCertificateEntry der []))), [])) as Hn.
  { unfold next_certificate_entry, certificate_entry_wire. set (data := be_bytes 3 _ ++ _).
    pose proof (At_start data) as Ha. subst data. set (data := be_bytes 3 _ ++ _) in Ha at 1 |- *.
    pose proof (At_len _ _ _ Ha) as Hd. rewrite !length_app, length_be_bytes in Hd. cbn [length] in Hd.
    rewrite (proj2 (Z.eqb_neq _ _)), (proj2 (Z.ltb_ge _ _)) by lia. rewrite (be24_At _ _ _ _ Ha) by (unfold uint; lia).
    subst data. rewrite drop_app_length' by (by rewrite length_be_bytes).
    rewrite (proj2 (Z.ltb_ge _ _)) by len_lia. rewrite Nat2Z.id, drop_app_length, take_app_length. done. }
  assert (∃ f, length (certificate_entry_wire der) = S (S f)) as [f ->] by (eexists; reflexivity).
  cbn [iter_certificate_entries]. rewrite Hn. done.
Qed.

(** What the parser of its type makes of the body of a message. *)
Definition parses_to (m : message) (body : list Z) : Prop :=
  match m with
  | MClientHello r sid cs ext =>
      ∃ suites, parse_client_hello body = Ok (MkClientHello r sid suites ext) ∧
                iter_cipher_suites suites = CipherSuite.to_u16 <$> cs
  | MServerHello r sid c ext => parse_server_hello body = Ok (MkServerHello r sid c ext)
  | MEncryptedExtensions ext => parse_encrypted_extensions body = Ok ext
  | MCertificate der =>
      ∃ es, parse_certificate body = Ok (MkCertificatePayload [] es) ∧
            iter_certificate_entries (length es) es = Ok [Ok (MkCertificateEntry der [])]
  | MCertificateVerify alg sig => parse_certificate_verify body = Ok (MkCertificateVerify alg sig)
  | MFinished vd => parse_finished body = Ok vd
  end.
Lemma body_back m : message_ok m → parses_to m (body_wire m).
Proof.
  intros Hm. destruct m as [r sid cs ext|r sid c ext|ext|der|alg sig|vd]; cbn [parses_to].
  - eexists. split; [by apply client_hello_back|apply suites_back].
  - by apply server_hello_back.
  - cbn [message_ok body_wire] in *. unfold parse_encrypted_extensions.
    rewrite (proj2 (Z.ltb_ge _ _)) by (rewrite len_vec16_wire; lia).
    destruct (vec16_back _ 0 ext (At_start _) Hm) as [-> Hs]. exact Hs.
  - eexists. split; [by apply certificate_back|apply certificate_entries_back]. cbn [message_ok] in Hm. lia.
  - cbn [message_ok body_wire] in *. destruct Hm as [Ha Hs]. unfold parse_certificate_verify.
    rewrite (proj2 (Z.ltb_ge _ _)) by (rewrite length_app, Nat2Z.inj_add, len_vec16_wire; len_lia).
    pose proof (At_start (be_bytes 2 alg ++ vec16_wire sig)) as HA. rewrite (be16_At _ _ _ _ HA Ha). cbn [mbind res_bind].
    apply At_app with (off' := 2) in HA; [|len_lia]. destruct (vec16_back _ 2 sig HA Hs) as [-> Hsub]. cbn [mbind res_bind].
    change (2 + 2) with 4 in Hsub. by rewrite Hsub.
  - cbn [message_ok body_wire] in *. unfold parse_finished. rewrite (proj2 (Z.ltb_ge _ _)) by lia.
    rewrite slice_eq by lia. f_equal. apply take_ge. lia.
Qed.

(** ** Parsers answer anything *)

(** A value, or the TLS error. *)
Definition answered {A} (r : result A) : Prop :=
  match r with Ok _ => True | Err e => e = Tls | Panic => False end.
Lemma answered_bind {A B} (r : result A) (f : A → result B) :
  answered r → (∀ a, r = Ok a → answered (f a)) → answered (r ≫= f).
Proof. destruct r; simpl; auto. Qed.

Lemma be16_total data off :
  bytes_ok data → 0 ≤ off → off + 2 ≤ len data → ∃ v, be16 data off = Ok v ∧ uint 16 v.
Proof.
  intros Hb Ho Hl. unfold be16. destruct (idx_no_panic (E:=Error) data off) as [b0 H0]; [lia|].
  destruct (idx_no_panic (E:=Error) data (off + 1)) as [b1 H1]; [lia|]. rewrite H0, H1. eexists. split; [done|].
  apply idx_byte in H0, H1; [|done..]. unfold byte_ok, uint in *. simpl. lia.
Qed.
Lemma be24_total data off :
  bytes_ok data → 0 ≤ off → off + 3 ≤ len data → ∃ v, be24 data off = Ok v ∧ uint 24 v.
Proof.
  intros Hb Ho Hl. unfold be24. destruct (idx_no_panic (E:=Error) data off) as [b0 H0]; [lia|].
  destruct (idx_no_panic (E:=Error) data (off + 1)) as [b1 H1]; [lia|].
  destruct (idx_no_panic (E:=Error) data (off + 2)) as [b2 H2]; [lia|]. rewrite H0, H1, H2. eexists. split; [done|].
  apply idx_byte in H0, H1, H2; [|done..]. rewrite header_length_bits by done. unfold byte_ok, uint in *. simpl. lia.
Qed.
Lemma sub_total data off n :
  0 ≤ off → 0 ≤ n → sub data off n = Err Tls ∨ ∃ x, sub data off n = Ok x ∧ len x = n ∧ off + n ≤ len data.
Proof.
  intros Ho Hn. unfold sub. destruct (Z.ltb_spec (len data) (off + n)); [by left|]. right.
  rewrite slice_eq by lia. eexists. split; [done|]. split; [len_lia|lia].
Qed.

Lemma hello_prefix_total data :
  bytes_ok data → hello_prefix data = Err Tls ∨
  ∃ r sid off, hello_prefix data = Ok (r, sid, off) ∧ 35 ≤ off ≤ len data.
Proof.
  intros Hb. unfold hello_prefix. destruct (Z.ltb_spec (len data) (2 + 32 + 1)); [by left|].
  destruct (be16_total data 0 Hb) as (v & -> & _); [lia..|]. cbn [mbind res_bind].
  rewrite slice_eq by lia. cbn [mbind res_bind]. destruct (idx_no_panic (E:=Error) data 34) as [b Hi]; [lia|]. rewrite Hi.
  apply idx_byte in Hi; [|done]. unfold byte_ok in Hi. cbn [mbind res_bind].
  destruct (sub_total data 35 b) as [->|(x & -> & ? & ?)]; [lia..|by left|]. right. do 3 eexists. split; [done|lia].
Qed.
Lemma hello_extensions_total data off : bytes_ok data → 0 ≤ off → answered (hello_extensions data off).
Proof.
  intros Hb Ho. unfold hello_extensions. destruct (Z.leb_spec (off + 2) (len data)); [|done].
  destruct (be16_total data off Hb Ho) as (v & -> & Hv); [lia|]. cbn [mbind res_bind]. unfold uint in Hv.
  by destruct (sub_total data (off + 2) v) as [->|(x & -> & _)]; [lia..| |].
Qed.

Lemma client_hello_total data : bytes_ok data → answered (parse_client_hello data).
Proof.
  intros Hb. unfold parse_client_hello. destruct (hello_prefix_total data Hb) as [->|(r & sid & off & -> & Ho)]; [done|].
  cbn [mbind res_bind]. cbv zeta. destruct (Z.ltb_spec (len data) (off + 2)); [done|].
  destruct (be16_total data off Hb) as (v & -> & Hv); [lia..|]. cbn [mbind res_bind]. unfold uint in Hv.
  destruct (sub_total data (off + 2) v) as [->|(x & -> & ? & ?)]; [lia..|done|]. cbn [mbind res_bind].
  destruct (Z.leb_spec (len data) (off + 2 + v)); [done|].
  destruct (idx_no_panic (E:=Error) data (off + 2 + v)) as [b Hi]; [lia|]. rewrite Hi.
  apply idx_byte in Hi; [|done]. unfold byte_ok in Hi. cbn [mbind res_bind]. case_match; [done|].
  apply answered_bind; [apply hello_extensions_total; [done|lia]|done].
Qed.
Lemma server_hello_total data : bytes_ok data → answered (parse_server_hello data).
Proof.
  intros Hb. unfold parse_server_hello. destruct (hello_prefix_total data Hb) as [->|(r & sid & off & -> & Ho)]; [done|].
  cbn [mbind res_bind]. cbv zeta. destruct (Z.ltb_spec (len data) (off + 2)); [done|].
  destruct (be16_total data off Hb) as (v & -> & Hv); [lia..|]. cbn [mbind res_bind].
  destruct (CipherSuite.from_u16 v); [|done]. cbn [ok_or mbind res_bind].
  destruct (Z.leb_spec (len data) (off + 2)); [done|].
  destruct (idx_no_panic (E:=Error) data (off + 2)) as [b Hi]; [lia|]. rewrite Hi. cbn [mbind res_bind].
  apply answered_bind; [apply hello_extensions_total; [done|lia]|done].
Qed.
Lemma encrypted_extensions_total data : bytes_ok data → answered (parse_encrypted_extensions data).
Proof.
  intros Hb. unfold parse_encrypted_extensions. destruct (Z.ltb_spec (len data) 2); [done|].
  destruct (be16_total data 0 Hb) as (v & -> & Hv); [lia..|]. cbn [mbind res_bind]. unfold uint in Hv.
  by destruct (sub_total data 2 v) as [->|(x & -> & _)]; [lia..| |].
Qed.
Lemma certificate_total data : bytes_ok data → answered (parse_certificate data).
Proof.
  intros Hb. unfold parse_certificate. destruct (Z.eqb_spec (len data) 0); [done|].
  destruct (idx_no_panic (E:=Error) data 0) as [b Hi]; [lia|]. rewrite Hi. apply idx_byte in Hi; [|done]. unfold byte_ok in Hi.
  cbn [mbind res_bind]. destruct (sub_total data 1 b) as [->|(x & -> & ? & ?)]; [lia..|done|]. cbn [mbind res_bind]. cbv zeta.
  destruct (Z.ltb_spec (len data) (1 + b + 3)); [done|].
  destruct (be24_total data (1 + b) Hb) as (v & -> & Hv); [lia..|]. cbn [mbind res_bind]. unfold uint in Hv.
  by destruct (sub_total data (1 + b + 3) v) as [->|(y & -> & _)]; [lia..| |].
Qed.
Lemma certificate_verify_total data : bytes_ok data → answered (parse_certificate_verify data).
Proof.
  intros Hb. unfold parse_certificate_verify. destruct (Z.ltb_spec (len data) 4); [done|].
  destruct (be16_total data 0 Hb) as (a & -> & _); [lia..|]. cbn [mbind res_bind].
  destruct (be16_total data 2 Hb) as (v & -> & Hv); [lia..|]. cbn [mbind res_bind]. unfold uint in Hv.
  by destruct (sub_total data 4 v) as [->|(x & -> & _)]; [lia..| |].
Qed.
Lemma finished_total data : answered (parse_finished data).
Proof. unfold parse_finished. destruct (Z.ltb_spec (len data) 32); [done|]. by rewrite slice_eq by lia. Qed.

Lemma next_entry_total data :
  bytes_ok data →
  ∃ o data', next_certificate_entry data = (Ok o, data') ∧ bytes_ok data' ∧
    match o with None => data = [] | Some r => answered r ∧ (length data' < length data)%nat end.
Proof.
  intros Hb. unfold next_certificate_entry. destruct (Z.eqb_spec (len data) 0) as [|Hne].
  { do 2 eexists. split; [done|]. split; [done|]. by destruct data. }
  assert (0 < length data)%nat by lia. destruct (Z.ltb_spec (len data) 3); [by do 2 eexists|].
  destruct (be24_total data 0 Hb) as (n & -> & Hn); [lia..|]. unfold uint in Hn. cbv zeta.
  rewrite length_drop. destruct (Z.ltb_spec (Z.of_nat (length data - 3)) n); [by do 2 eexists|].
  rewrite !length_drop. destruct (Z.ltb_spec (Z.of_nat (length data - 3 - Z.to_nat n)) 2); [by do 2 eexists|].
  destruct (be16_total (drop (Z.to_nat n) (drop 3 data)) 0) as (v & -> & Hv); [by do 2 apply Forall_drop|lia|rewrite !length_drop; lia|].
  rewrite ?length_drop. case_match; [by do 2 eexists|]. do 2 eexists. split; [done|].
  split; [by repeat apply Forall_drop|]. split; [done|]. rewrite !length_drop. unfold uint in Hv. lia.
Qed.
Lemma entries_total fuel data :
  bytes_ok data → (length data ≤ fuel)%nat →
  ∃ rs, iter_certificate_entries fuel data = Ok rs ∧ Forall answered rs.
Proof.
  revert data. induction fuel as [|fuel IH]; intros data Hb Hf; cbn [iter_certificate_entries];
    destruct (next_entry_total data Hb) as ([r|] & data' & -> & Hb' & Ho); try (by eexists).
  - lia.
  - destruct Ho as [Hr Hl]. destruct (IH data' Hb') as (rs & -> & Hrs); [lia|]. eexists. split; [done|]. by constructor.
Qed.

(** *** Properties *)

(** Handshake messages survive the wire.  Every message whose lengths the
    format can express is written whole, or refused when the buffer is too small;
    its header announces the type and the length of the body, and the parser of
    that type returns from the body exactly what was encoded. *)
Theorem tls_message_roundtrip m buf rest :
  message_ok m →
  let w := message_wire m in
  encode_message m buf = (if decide (len w ≤ len buf) then (Ok (len w), w ++ drop (length w) buf)
                          else (Err (BufferTooSmall (len w)), buf)) ∧
  ∃ body, w = take 4 w ++ body ∧ read_handshake_header (w ++ rest) = Ok (HandshakeType.to_u8 (message_type m), len body) ∧
    parses_to m body.
Proof.
  intros Hm w. split; [by apply encode_message_wire|]. exists (body_wire m).
  split; [by subst w|]. split; [by apply header_back|by apply body_back].
Qed.

(** No input makes a parser of handshake messages panic: each returns a value or
    the TLS error, and the iterator over certificate entries ends within one call
    per byte. *)
Theorem tls_parsers_total data :
  bytes_ok data →
  answered (read_handshake_header data) ∧ answered (parse_client_hello data) ∧ answered (parse_server_hello data) ∧
  answered (parse_encrypted_extensions data) ∧ answered (parse_certificate data) ∧
  answered (parse_certificate_verify data) ∧ answered (parse_finished data) ∧
  ∃ rs, iter_certificate_entries (length data) data = Ok rs ∧ Forall answered rs.
Proof.
  intros Hb. split.
  { unfold read_handshake_header. destruct (Z.ltb_spec (len data) 4); [done|].
    destruct (idx_no_panic (E:=Error) data 0) as [b ->]; [lia|]. by destruct (be24_total data 1 Hb) as (v & -> & _); [lia..|]. }
  split_and!; auto using client_hello_total, server_hello_total, encrypted_extensions_total, certificate_total,
    certificate_verify_total, finished_total, entries_total.
Qed.

End Messages.
