(* ===== verification/TlsExtensions.v ===== *)
(** * TLS 1.3 extensions: [src/tls/extensions.rs]

    The extensions of the two hellos and of EncryptedExtensions, in both
    directions. *)
From S2P Require Import Prelude Errors Varint Cursor TlsParams TlsMessages.

Module Extensions.
Import Messages.

Definition EXT_SERVER_NAME : Z := 0x0000.
Definition EXT_SIGNATURE_ALGORITHMS : Z := 0x000d.
Definition EXT_ALPN : Z := 0x0010.
Definition EXT_SUPPORTED_VERSIONS : Z := 0x002b.
Definition EXT_KEY_SHARE : Z := 0x0033.
Definition EXT_QUIC_TRANSPORT_PARAMS : Z := 0x0039.
Definition EXT_RECORD_SIZE_LIMIT : Z := 0x001c.
Definition GROUP_X25519 : Z := 0x001d.

Record ServerHelloExtensions := MkServerHelloExtensions {
  selected_version : Z;
  sh_key_share : option (list Z)
}.
Record EncryptedExtensionsData := MkEncryptedExtensionsData {
  alpn : option (list Z);
  ee_transport_params : option TransportParams.t;
  ee_record_size_limit : option Z
}.
Record ClientHelloExtensions := MkClientHelloExtensions {
  key_share : option (list Z);
  supports_tls13 : bool;
  alpn_protocols : list (list Z);
  transport_params : option TransportParams.t;
  record_size_limit : option Z
}.
Global Instance eta_sh : Eta ServerHelloExtensions := λ r,
  MkServerHelloExtensions (selected_version r) (sh_key_share r).
Global Instance eta_ee : Eta EncryptedExtensionsData := λ r,
  MkEncryptedExtensionsData (alpn r) (ee_transport_params r) (ee_record_size_limit r).
Global Instance eta_ch : Eta ClientHelloExtensions := λ r,
  MkClientHelloExtensions (key_share r) (supports_tls13 r) (alpn_protocols r) (transport_params r) (record_size_limit r).

(** ** Encoding *)

Definition put_u16 (val : Z) : writer unit :=
  _ ← room 2; _ ← put_u8 (trunc 8 (Z.shiftr val 8)); put_u8 (trunc 8 (Z.land val 0xFF)).

(** [if buf.len() < off + n { return Err } buf[off..off + n].copy_from_slice(data)]. *)
Definition put_checked (data : list Z) : writer unit := _ ← room (len data); put_slice data.

Definition put_server_name (name : list Z) : writer unit :=
  if len name =? 0 then mret tt else
  _ ← put_u16 EXT_SERVER_NAME;
  _ ← put_u16 (trunc 16 (2 + 1 + 2 + len name));
  _ ← put_u16 (trunc 16 (1 + 2 + len name));
  _ ← room 1; _ ← put_u8 0;
  _ ← put_u16 (trunc 16 (len name));
  put_checked name.

Definition put_client_versions : writer unit :=
  _ ← put_u16 EXT_SUPPORTED_VERSIONS; _ ← put_u16 3;
  _ ← room 3; _ ← put_u8 2; _ ← put_u8 0x03; put_u8 0x04.

(** A KeyShareEntry. *)
Definition put_share (public_key : list Z) : writer unit :=
  _ ← put_u16 GROUP_X25519; _ ← put_u16 32; put_checked public_key.

Definition put_client_share (public_key : list Z) : writer unit :=
  _ ← put_u16 EXT_KEY_SHARE; _ ← put_u16 (2 + 36); _ ← put_u16 36; put_share public_key.

Definition sig_algs : list Z := [0x0807; 0x0403; 0x0804].
Fixpoint put_u16s (l : list Z) : writer unit :=
  match l with [] => mret tt | v :: l => _ ← put_u16 v; put_u16s l end.
Definition put_sig_algs : writer unit :=
  let list_len := len sig_algs * 2 in
  _ ← put_u16 EXT_SIGNATURE_ALGORITHMS; _ ← put_u16 (2 + list_len); _ ← put_u16 list_len; put_u16s sig_algs.

Definition alpn_len (protos : list (list Z)) : Z := fold_left (λ n p, n + (1 + len p)) protos 0.
Fixpoint put_protocols (protos : list (list Z)) : writer unit :=
  match protos with
  | [] => mret tt
  | p :: ps => _ ← room (1 + len p); _ ← put_u8 (trunc 8 (len p)); _ ← put_slice p; put_protocols ps
  end.
Definition put_alpn (protos : list (list Z)) : writer unit :=
  match protos with
  | [] => mret tt
  | _ =>
      let list_len := alpn_len protos in
      _ ← put_u16 EXT_ALPN; _ ← put_u16 (trunc 16 (2 + list_len)); _ ← put_u16 (trunc 16 list_len);
      put_protocols protos
  end.

(** The parameters go through a scratch buffer of 256 bytes. *)
Definition put_transport_params (tp : option TransportParams.t) : writer unit :=
  match tp with
  | None => mret tt
  | Some tp =>
      let '(r, tp_buf) := TransportParams.encode tp (replicate 256 0) in
      tp_len ← lift r;
      _ ← put_u16 EXT_QUIC_TRANSPORT_PARAMS; _ ← put_u16 (trunc 16 tp_len);
      _ ← room tp_len;
      src ← lift (slice tp_buf 0 tp_len); put_slice src
  end.

Definition put_record_size_limit (limit : option Z) : writer unit :=
  match limit with
  | None => mret tt
  | Some limit => _ ← put_u16 EXT_RECORD_SIZE_LIMIT; _ ← put_u16 2; put_u16 limit
  end.

Definition encode_client_hello_extensions (server_name public_key : list Z) (alpn : list (list Z))
    (tp : option TransportParams.t) (limit : option Z) : M Error (list Z) Z := from_start (
  _ ← put_server_name server_name;
  _ ← put_client_versions;
  _ ← put_client_share public_key;
  _ ← put_sig_algs;
  _ ← put_alpn alpn;
  _ ← put_transport_params tp;
  put_record_size_limit limit).

Definition encode_server_hello_extensions (public_key : list Z) : M Error (list Z) Z := from_start (
  _ ← put_u16 EXT_SUPPORTED_VERSIONS; _ ← put_u16 2; _ ← put_u16 0x0304;
  _ ← put_u16 EXT_KEY_SHARE; _ ← put_u16 36;
  put_share public_key).

Definition encode_encrypted_extensions_data (selected_alpn : list Z) (tp : option TransportParams.t)
    (limit : option Z) : M Error (list Z) Z := from_start (
  _ ← (if len selected_alpn =? 0 then mret tt else
         let list_len := 1 + len selected_alpn in
         _ ← put_u16 EXT_ALPN; _ ← put_u16 (trunc 16 (2 + list_len)); _ ← put_u16 (trunc 16 list_len);
         _ ← room (1 + len selected_alpn);
         _ ← put_u8 (trunc 8 (len selected_alpn)); put_slice selected_alpn);
  _ ← put_transport_params tp;
  put_record_size_limit limit).

(** ** Parsing *)

Definition parse_record_size_limit (ext_data : list Z) : result Z :=
  if negb (len ext_data =? 2) then Err Tls else
  limit ← be16 ext_data 0;
  if limit <? 64 then Err Tls else Ok limit.

Definition get_u16 (data : list Z) (off : Z) : result (Z * Z) :=
  if len data <? off + 2 then Err Tls else v ← be16 data off; Ok (v, off + 2).

(** [for b in l { v.push(b).map_err(|_| Error::Tls)? }] into a vector of capacity
    [cap]. *)
Definition push_all (cap : Z) (l : list Z) : result (list Z) := if cap <? len l then Err Tls else Ok l.

Section parse.
Context `{Platform}.

(** The loop over the extensions; the three parsers differ in the match on the
    type. *)
Fixpoint ext_loop {R} (on_ext : Z → list Z → R → result R) (fuel : nat) (data : list Z) (off : Z) (r : R) : result R :=
  if off + 4 <=? len data then
    match fuel with
    | O => Panic
    | S fuel =>
        '(ext_type, off) ← get_u16 data off;
        '(ext_len, off) ← get_u16 data off;
        ext_data ← sub data off ext_len;
        r ← on_ext ext_type ext_data r;
        ext_loop on_ext fuel data (off + ext_len) r
    end
  else Ok r.
Definition parse_exts {R} (on_ext : Z → list Z → R → result R) (data : list Z) (r : R) : result R :=
  ext_loop on_ext (length data) data 0 r.

Definition on_server_hello_ext (ext_type : Z) (d : list Z) (r : ServerHelloExtensions) : result ServerHelloExtensions :=
  if ext_type =? EXT_SUPPORTED_VERSIONS then
    if len d <? 2 then Err Tls else v ← be16 d 0; Ok (r <| selected_version := v |>)
  else if ext_type =? EXT_KEY_SHARE then
    if len d <? 4 then Err Tls else
    group ← be16 d 0;
    key_len ← be16 d 2;
    if negb (group =? GROUP_X25519) || negb (key_len =? 32) then Err Tls else
    if len d <? 4 + 32 then Err Tls else
    key ← slice d 4 36;
    Ok (r <| sh_key_share := Some key |>)
  else Ok r.
Definition parse_server_hello_extensions (data : list Z) : result ServerHelloExtensions :=
  parse_exts on_server_hello_ext data (MkServerHelloExtensions 0 None).

Definition on_encrypted_ext (ext_type : Z) (d : list Z) (r : EncryptedExtensionsData) : result EncryptedExtensionsData :=
  if ext_type =? EXT_ALPN then
    if len d <? 2 then Err Tls else
    list_len ← be16 d 0;
    l ← sub d 2 list_len;
    if len l =? 0 then Err Tls else
    proto_len ← idx l 0;
    proto ← sub l 1 proto_len;
    a ← push_all 16 proto;
    Ok (r <| alpn := Some a |>)
  else if ext_type =? EXT_QUIC_TRANSPORT_PARAMS then
    tp ← TransportParams.decode d; Ok (r <| ee_transport_params := Some tp |>)
  else if ext_type =? EXT_RECORD_SIZE_LIMIT then
    limit ← parse_record_size_limit d; Ok (r <| ee_record_size_limit := Some limit |>)
  else Ok r.
Definition parse_encrypted_extensions_data (data : list Z) : result EncryptedExtensionsData :=
  parse_exts on_encrypted_ext data (MkEncryptedExtensionsData None None None).

(** The loops inside the match of [parse_client_hello_extensions]. *)
Fixpoint versions_loop (fuel : nat) (d : list Z) (voff list_len : Z) (found : bool) : result bool :=
  if voff + 1 <? 1 + list_len then
    match fuel with
    | O => Panic
    | S fuel => v ← be16 d voff; versions_loop fuel d (voff + 2) list_len (found || (v =? 0x0304))
    end
  else Ok found.
Fixpoint shares_loop (fuel : nat) (d : list Z) (soff shares_len : Z) (key : option (list Z)) : result (option (list Z)) :=
  if soff + 4 <=? 2 + shares_len then
    match fuel with
    | O => Panic
    | S fuel =>
        group ← be16 d soff;
        key_len ← be16 d (soff + 2);
        let soff := soff + 4 in
        if 2 + shares_len <? soff + key_len then Err Tls else
        key ← (if (group =? GROUP_X25519) && (key_len =? 32)
               then k ← slice d soff (soff + 32); Ok (Some k) else Ok key);
        shares_loop fuel d (soff + key_len) shares_len key
    end
  else Ok key.
Fixpoint protocols_loop (fuel : nat) (d : list Z) (aoff list_len : Z) (ps : list (list Z)) : result (list (list Z)) :=
  if aoff <? 2 + list_len then
    match fuel with
    | O => Panic
    | S fuel =>
        proto_len ← idx d aoff;
        let aoff := aoff + 1 in
        if 2 + list_len <? aoff + proto_len then Err Tls else
        proto ← slice d aoff (aoff + proto_len);
        p ← push_all 16 proto;
        if 4 <=? len ps then Err Tls else
        protocols_loop fuel d (aoff + proto_len) list_len (ps ++ [p])
    end
  else Ok ps.

Definition on_client_hello_ext (ext_type : Z) (d : list Z) (r : ClientHelloExtensions) : result ClientHelloExtensions :=
  if ext_type =? EXT_SUPPORTED_VERSIONS then
    if len d =? 0 then Err Tls else
    list_len ← idx d 0;
    if len d <? 1 + list_len then Err Tls else
    found ← versions_loop (length d) d 1 list_len (supports_tls13 r);
    Ok (r <| supports_tls13 := found |>)
  else if ext_type =? EXT_KEY_SHARE then
    if len d <? 2 then Err Tls else
    shares_len ← be16 d 0;
    if len d <? 2 + shares_len then Err Tls else
    key ← shares_loop (length d) d 2 shares_len (key_share r);
    Ok (r <| key_share := key |>)
  else if ext_type =? EXT_ALPN then
    if len d <? 2 then Err Tls else
    list_len ← be16 d 0;
    if len d <? 2 + list_len then Err Tls else
    ps ← protocols_loop (length d) d 2 list_len (alpn_protocols r);
    Ok (r <| alpn_protocols := ps |>)
  else if ext_type =? EXT_QUIC_TRANSPORT_PARAMS then
    tp ← TransportParams.decode d; Ok (r <| transport_params := Some tp |>)
  else if ext_type =? EXT_RECORD_SIZE_LIMIT then
    limit ← parse_record_size_limit d; Ok (r <| record_size_limit := Some limit |>)
  else Ok r.
Definition parse_client_hello_extensions (data : list Z) : result ClientHelloExtensions :=
  parse_exts on_client_hello_ext data (MkClientHelloExtensions None false [] None None).

End parse.
(** ** The wire *)

Definition ext_wire (e : Z * list Z) : list Z := be_bytes 2 e.1 ++ vec16_wire e.2.
Definition exts_wire (l : list (Z * list Z)) : list Z := mjoin (ext_wire <$> l).
Definition share_wire (public_key : list Z) : list Z := be_bytes 2 GROUP_X25519 ++ be_bytes 2 32 ++ public_key.
Definition proto_wire (p : list Z) : list Z := len p :: p.
Definition protos_wire (ps : list (list Z)) : list Z := mjoin (proto_wire <$> ps).

Definition sni_exts (name : list Z) : list (Z * list Z) :=
  if len name =? 0 then [] else [(EXT_SERVER_NAME, be_bytes 2 (1 + 2 + len name) ++ [0] ++ be_bytes 2 (len name) ++ name)].
Definition alpn_exts (ps : list (list Z)) : list (Z * list Z) :=
  match ps with [] => [] | _ => [(EXT_ALPN, vec16_wire (protos_wire ps))] end.
Definition params_exts (tp : option TransportParams.t) : list (Z * list Z) :=
  match tp with None => [] | Some tp => [(EXT_QUIC_TRANSPORT_PARAMS, TransportParams.wire (TransportParams.entries tp))] end.
Definition limit_exts (limit : option Z) : list (Z * list Z) :=
  match limit with None => [] | Some l => [(EXT_RECORD_SIZE_LIMIT, be_bytes 2 l)] end.
Definition sig_algs_data : list Z := be_bytes 2 6 ++ mjoin (be_bytes 2 <$> sig_algs).

Definition client_exts (name public_key : list Z) (ps : list (list Z)) tp limit : list (Z * list Z) :=
  sni_exts name ++
  [(EXT_SUPPORTED_VERSIONS, [2; 3; 4]); (EXT_KEY_SHARE, be_bytes 2 36 ++ share_wire public_key);
   (EXT_SIGNATURE_ALGORITHMS, sig_algs_data)] ++
  alpn_exts ps ++ params_exts tp ++ limit_exts limit.
Definition server_exts (public_key : list Z) : list (Z * list Z) :=
  [(EXT_SUPPORTED_VERSIONS, be_bytes 2 0x0304); (EXT_KEY_SHARE, share_wire public_key)].
Definition encrypted_exts (selected : list Z) tp limit : list (Z * list Z) :=
  alpn_exts (if len selected =? 0 then [] else [selected]) ++ params_exts tp ++ limit_exts limit.

Lemma exts_cons e l : exts_wire (e :: l) = ext_wire e ++ exts_wire l.
Proof. done. Qed.
Lemma exts_app l l' : exts_wire (l ++ l') = exts_wire l ++ exts_wire l'.
Proof. unfold exts_wire. by rewrite fmap_app, join_app. Qed.
Lemma exts_one e : exts_wire [e] = ext_wire e.
Proof. unfold exts_wire. cbn. by rewrite app_nil_r. Qed.
Lemma protos_cons p ps : protos_wire (p :: ps) = proto_wire p ++ protos_wire ps.
Proof. done. Qed.

(** What can be carried. *)
Definition protos_ok (ps : list (list Z)) : Prop := len ps ≤ 4 ∧ Forall (λ p, len p ≤ 16) ps.
Definition params_ok (tp : option TransportParams.t) : Prop := match tp with Some tp => TransportParams.wf tp | None => True end.
Definition limit_ok (limit : option Z) : Prop := match limit with Some l => 64 ≤ l < 2 ^ 16 | None => True end.

(** ** Encoding writes the wire form *)

Lemma Writes_eq m bs bs' : bs = bs' → Writes m bs → Writes m bs'.
Proof. by intros ->. Qed.
Lemma Writes_room_then n m bs k bs' :
  Puts m bs → n = len bs → Writes k bs' → Writes (_ ← room n; _ ← m; k) (bs ++ bs').
Proof.
  intros Hm Hn Hk. assert (Writes (_ ← (_ ← room n; m); k) (bs ++ bs')) as Hw
    by (apply Writes_bind; [by apply Writes_room|done]).
  intros done rest. specialize (Hw done rest). by rewrite M_bind_assoc in Hw.
Qed.
Lemma Writes_u16 v : uint 16 v → Writes (put_u16 v) (be_bytes 2 v).
Proof.
  intros Hv. unfold uint in Hv. unfold put_u16. change (be_bytes 2 v) with ([v / 256 ^ 1 mod 256] ++ [v / 256 ^ 0 mod 256]).
  assert (trunc 8 (Z.shiftr v 8) = v / 256 ^ 1 mod 256) as ->.
  { unfold trunc. by rewrite Z.shiftr_div_pow2 by lia. }
  assert (trunc 8 (Z.land v 255) = v / 256 ^ 0 mod 256) as ->.
  { unfold trunc. change 255 with (Z.ones 8). rewrite Z.land_ones by lia. change (256 ^ 0) with 1.
    by rewrite Z.div_1_r, Z.mod_mod by lia. }
  apply Writes_room; [|done]. apply Puts_bind; apply Puts_u8.
Qed.
Lemma Writes_put_checked d : Writes (put_checked d) d.
Proof. by apply Writes_room; [apply Puts_slice|]. Qed.

(** The length and the contents of an extension. *)
Ltac exts := rewrite ?exts_one; unfold ext_wire, vec16_wire, share_wire; cbn [fst snd].
Ltac u16 := apply Writes_u16; unfold uint; first [lia|split; done].

Lemma Writes_server_name name : len name < 2 ^ 16 - 5 → Writes (put_server_name name) (exts_wire (sni_exts name)).
Proof.
  intros Hl. unfold put_server_name, sni_exts. destruct (Z.eqb_spec (len name) 0); [apply Writes_ret|].
  rewrite !trunc_small by (unfold uint; lia). exts. rewrite <- ?app_assoc.
  apply Writes_bind; [u16|]. apply Writes_bind.
  { eapply Writes_eq; [|u16]. f_equal. len_lia. }
  apply Writes_bind; [u16|]. apply Writes_room_then; [apply Puts_u8|done|]. apply Writes_bind; [u16|apply Writes_put_checked].
Qed.
Lemma Writes_versions : Writes put_client_versions (ext_wire (EXT_SUPPORTED_VERSIONS, [2; 3; 4])).
Proof.
  exts. apply Writes_bind; [u16|]. apply Writes_bind; [u16|].
  apply Writes_room; [|done]. apply (Puts_bind _ _ [2]); [apply Puts_u8|]. apply (Puts_bind _ _ [3] [4]); apply Puts_u8.
Qed.
Lemma Writes_share pk : Writes (put_share pk) (share_wire pk).
Proof. unfold share_wire. apply Writes_bind; [u16|]. apply Writes_bind; [u16|apply Writes_put_checked]. Qed.
Lemma Writes_client_share pk :
  len pk = 32 → Writes (put_client_share pk) (ext_wire (EXT_KEY_SHARE, be_bytes 2 36 ++ share_wire pk)).
Proof.
  intros Hl. unfold ext_wire, vec16_wire; cbn [fst snd].
  replace (len (be_bytes 2 36 ++ share_wire pk)) with 38 by (unfold share_wire; len_lia).
  repeat first [apply Writes_share|u16|apply Writes_bind].
Qed.
Lemma Writes_u16s l : Forall (uint 16) l → Writes (put_u16s l) (mjoin (be_bytes 2 <$> l)).
Proof. induction 1; [apply Writes_ret|]. apply Writes_bind; [by apply Writes_u16|done]. Qed.
Lemma Writes_sig_algs : Writes put_sig_algs (ext_wire (EXT_SIGNATURE_ALGORITHMS, sig_algs_data)).
Proof.
  exts. unfold sig_algs_data. apply Writes_bind; [u16|]. apply Writes_bind; [u16|]. apply Writes_bind; [u16|].
  apply Writes_u16s. unfold sig_algs. repeat constructor; done.
Qed.

Lemma alpn_len_eq ps : alpn_len ps = len (protos_wire ps).
Proof.
  unfold alpn_len. assert (∀ n, fold_left (λ n p, n + (1 + len p)) ps n = n + len (protos_wire ps)) as Hf; [|by rewrite Hf].
  induction ps as [|p ps IH]; intros n; cbn [fold_left]; [simpl; lia|]. rewrite IH, protos_cons. unfold proto_wire. len_lia.
Qed.
Lemma Writes_protocols ps : Forall (λ p, len p ≤ 16) ps → Writes (put_protocols ps) (protos_wire ps).
Proof.
  induction 1 as [|p ps Hp _ IH]; [apply Writes_ret|]. cbn [put_protocols]. rewrite protos_cons.
  rewrite trunc_small by (unfold uint; lia).
  assert (Writes (_ ← room (1 + len p); _ ← (_ ← put_u8 (len p); put_slice p); put_protocols ps) (proto_wire p ++ protos_wire ps)) as Hw.
  { apply Writes_room_then; [|unfold proto_wire; len_lia|done]. apply (Puts_bind _ _ [_]); [apply Puts_u8|apply Puts_slice]. }
  intros done rest. specialize (Hw done rest). unfold room in *. unfold mbind, M_bind in *. cbn [fst snd] in *.
  destruct (_ <? _); [exact Hw|]. by destruct (put_u8 _ _) as [[]].
Qed.
Lemma protos_bound ps : protos_ok ps → len (protos_wire ps) ≤ 68.
Proof.
  intros [Hl Hp]. enough (len (protos_wire ps) ≤ len ps * 17) by lia. clear Hl.
  induction Hp as [|p ps Hp _ IH]; [done|]. rewrite protos_cons. unfold proto_wire. len_lia.
Qed.
Lemma Writes_alpn ps : protos_ok ps → Writes (put_alpn ps) (exts_wire (alpn_exts ps)).
Proof.
  intros Hp. pose proof (protos_bound ps Hp) as Hb. destruct Hp as [_ Hp]. unfold put_alpn, alpn_exts.
  destruct ps as [|p ps]; [apply Writes_ret|]. cbv zeta. rewrite alpn_len_eq.
  rewrite !trunc_small by (unfold uint; lia). exts. set (w := protos_wire (p :: ps)) in *.
  apply Writes_bind; [u16|]. apply Writes_bind.
  { eapply Writes_eq; [|u16]. f_equal. len_lia. }
  apply Writes_bind; [u16|]. by apply Writes_protocols.
Qed.
Lemma Writes_transport_params tp : params_ok tp → Writes (put_transport_params tp) (exts_wire (params_exts tp)).
Proof.
  destruct tp as [tp|]; cbn [params_ok put_transport_params params_exts]; [|intros _; apply Writes_ret].
  intros Hw. pose proof (TransportParams.len_wire_entries tp Hw) as Hl.
  destruct (TransportParams.encode_wire tp (replicate 256 0) Hw) as [He _].
  rewrite He by (rewrite length_replicate; lia). set (w := TransportParams.wire _) in *.
  eapply Writes_lift; [done|]. rewrite trunc_small by (unfold uint; lia). exts.
  apply Writes_bind; [u16|]. apply Writes_bind; [u16|]. apply Writes_room; [|done].
  assert (slice (E:=Error) (w ++ drop (length w) (replicate 256 0)) 0 (len w) = Ok w) as Hs.
  { rewrite slice_eq by len_lia. rewrite Z.sub_0_r, Nat2Z.id. change (Z.to_nat 0) with O.
    by rewrite drop_0, take_app_length. }
  intros done rest Hr. erewrite M_step_lift by exact Hs. by apply Puts_slice.
Qed.
Lemma Writes_limit limit : limit_ok limit → Writes (put_record_size_limit limit) (exts_wire (limit_exts limit)).
Proof.
  destruct limit as [l|]; cbn [limit_ok put_record_size_limit limit_exts]; [|intros _; apply Writes_ret]. intros Hl. exts.
  repeat first [u16|apply Writes_bind].
Qed.

(** An encoder run on a buffer. *)
Definition emits (m : M Error (list Z) Z) (w : list Z) : Prop :=
  ∀ buf, (len w ≤ len buf → m buf = (Ok (len w), w ++ drop (length w) buf)) ∧
         (len buf < len w → ∃ e b, m buf = (Err e, b) ∧ too_small e).
Lemma emits_start m w : Writes m w → emits (from_start m) w.
Proof.
  intros Hm buf. destruct (Writes_start m w buf Hm) as [Hok Herr]. unfold from_start. split; intros Hl.
  - by rewrite Hok.
  - destruct (Herr Hl) as (e & s' & -> & He). by exists e, s'.1.
Qed.

Lemma client_extensions_wire name pk ps tp limit :
  len name < 2 ^ 16 - 5 → len pk = 32 → protos_ok ps → params_ok tp → limit_ok limit →
  emits (encode_client_hello_extensions name pk ps tp limit) (exts_wire (client_exts name pk ps tp limit)).
Proof.
  intros. apply emits_start. unfold client_exts. rewrite exts_app. cbn [app]. rewrite !exts_cons, !exts_app.
  repeat first [by apply Writes_server_name|apply Writes_versions|by apply Writes_client_share|apply Writes_sig_algs
    |by apply Writes_alpn|by apply Writes_transport_params|by apply Writes_limit|apply Writes_bind].
Qed.
Lemma server_extensions_wire pk :
  len pk = 32 → emits (encode_server_hello_extensions pk) (exts_wire (server_exts pk)).
Proof.
  intros Hl. apply emits_start. unfold server_exts. rewrite exts_cons, exts_one. unfold ext_wire, vec16_wire; cbn [fst snd].
  rewrite <- !app_assoc. replace (len (share_wire pk)) with 36 by (unfold share_wire; len_lia).
  repeat first [apply Writes_share|u16|apply Writes_bind].
Qed.
Lemma encrypted_extensions_wire sel tp limit :
  len sel ≤ 16 → params_ok tp → limit_ok limit →
  emits (encode_encrypted_extensions_data sel tp limit) (exts_wire (encrypted_exts sel tp limit)).
Proof.
  intros Hs Htp Hli. apply emits_start. unfold encrypted_exts. rewrite !exts_app.
  apply Writes_bind; [|apply Writes_bind; [by apply Writes_transport_params|by apply Writes_limit]].
  destruct (Z.eqb_spec (len sel) 0); [apply Writes_ret|]. cbv zeta. cbn [alpn_exts]. exts.
  rewrite !trunc_small by (unfold uint; lia). rewrite protos_cons. cbn [protos_wire fmap list_fmap mjoin list_join]. rewrite app_nil_r.
  unfold proto_wire. apply Writes_bind; [u16|]. apply Writes_bind; [eapply Writes_eq; [|u16]; f_equal; len_lia|].
  apply Writes_bind; [eapply Writes_eq; [|u16]; f_equal; len_lia|].
  apply Writes_room; [|len_lia]. apply (Puts_bind _ _ [_]); [apply Puts_u8|apply Puts_slice].
Qed.

(** ** Parsing reads the wire form back *)

Section back.
Context `{Platform}.

Fixpoint apply_exts {R} (on_ext : Z → list Z → R → result R) (l : list (Z * list Z)) (r : R) : result R :=
  match l with [] => Ok r | e :: l => r' ← on_ext e.1 e.2 r; apply_exts on_ext l r' end.
Definition ext_ok (e : Z * list Z) : Prop := uint 16 e.1 ∧ len e.2 < 2 ^ 16.

Lemma ext_loop_wire {R} (on_ext : Z → list Z → R → result R) l fuel data off r :
  Forall ext_ok l → At data off (exts_wire l) → (length l ≤ fuel)%nat →
  ext_loop on_ext fuel data off r = apply_exts on_ext l r.
Proof.
  intros Hl. revert fuel off r. induction Hl as [|e l [Ht Hd] _ IH]; intros fuel off r Ha Hf; pose proof (At_len _ _ _ Ha) as Hlen.
  { simpl in Hlen. destruct fuel; cbn [ext_loop apply_exts]; by rewrite (proj2 (Z.leb_gt _ _)) by lia. }
  destruct fuel as [|fuel]; [simpl in Hf; lia|]. cbn [ext_loop apply_exts]. rewrite exts_cons in Ha, Hlen.
  unfold ext_wire, vec16_wire in *. rewrite !length_app, !length_be_bytes in Hlen.
  rewrite (proj2 (Z.leb_le _ _)) by lia. rewrite <- !app_assoc in Ha. unfold get_u16.
  rewrite (proj2 (Z.ltb_ge _ _)) by lia. rewrite (be16_At _ _ _ _ Ha Ht). cbn [mbind res_bind].
  apply At_app with (off' := off + 2) in Ha; [|len_lia]. rewrite (proj2 (Z.ltb_ge _ _)) by lia.
  rewrite (be16_At _ _ _ _ Ha) by (unfold uint; lia). cbn [mbind res_bind].
  apply At_app with (off' := off + 2 + 2) in Ha; [|len_lia]. rewrite (sub_At _ _ _ _ _ Ha) by done. cbn [mbind res_bind].
  destruct (on_ext e.1 e.2 r) as [r'| |]; [|done..]. cbn [mbind res_bind].
  apply IH; [|simpl in Hf; lia]. by apply At_app with (off' := off + 2 + 2 + len e.2) in Ha.
Qed.
Lemma exts_long l : (length l ≤ length (exts_wire l))%nat.
Proof.
  induction l as [|e l IH]; [done|]. rewrite exts_cons, length_app. unfold ext_wire. rewrite length_app, length_be_bytes. simpl. lia.
Qed.
Lemma parse_exts_wire {R} (on_ext : Z → list Z → R → result R) l r :
  Forall ext_ok l → parse_exts on_ext (exts_wire l) r = apply_exts on_ext l r.
Proof. intros Hl. apply ext_loop_wire; [done|apply At_start|apply exts_long]. Qed.
Lemma apply_exts_app {R} (on_ext : Z → list Z → R → result R) l l' r :
  apply_exts on_ext (l ++ l') r = (r' ← apply_exts on_ext l r; apply_exts on_ext l' r').
Proof. revert r. induction l as [|e l IH]; intros r; simpl; [done|]. destruct (on_ext _ _ _); simpl; [apply IH|done..]. Qed.

(** *** The contents of the extensions *)

Lemma share_back data off pk rest : At data off (share_wire pk ++ rest) → len pk = 32 →
  be16 data off = Ok GROUP_X25519 ∧ be16 data (off + 2) = Ok 32 ∧ At data (off + 4) (pk ++ rest).
Proof.
  intros Ha Hl. unfold share_wire in Ha. rewrite <- !app_assoc in Ha.
  split; [apply (be16_At _ _ _ _ Ha); done|]. apply At_app with (off' := off + 2) in Ha; [|len_lia].
  split; [apply (be16_At _ _ _ _ Ha); done|]. apply At_app with (off' := off + 4) in Ha; [done|len_lia].
Qed.
Lemma len_share_wire pk : len pk = 32 → len (share_wire pk) = 36.
Proof. unfold share_wire. len_lia. Qed.

Lemma server_share_back pk r :
  len pk = 32 → on_server_hello_ext EXT_KEY_SHARE (share_wire pk) r = Ok (r <| sh_key_share := Some pk |>).
Proof.
  intros Hl. unfold on_server_hello_ext. pose proof (len_share_wire pk Hl) as Hlw.
  change (EXT_KEY_SHARE =? EXT_SUPPORTED_VERSIONS) with false. change (EXT_KEY_SHARE =? EXT_KEY_SHARE) with true. cbv iota.
  rewrite (proj2 (Z.ltb_ge _ _)) by lia. pose proof (At_start (share_wire pk)) as Ha.
  rewrite <- (app_nil_r (share_wire pk)) in Ha at 2. destruct (share_back _ _ _ _ Ha Hl) as (-> & Hk & Ha').
  cbn [mbind res_bind]. change (0 + 2) with 2 in Hk. rewrite Hk. cbn [mbind res_bind]. rewrite !Z.eqb_refl. cbn [negb orb].
  rewrite (proj2 (Z.ltb_ge _ _)) by lia. by rewrite (slice_At _ _ _ _ _ Ha') by lia.
Qed.
Lemma client_share_back pk r :
  len pk = 32 → on_client_hello_ext EXT_KEY_SHARE (be_bytes 2 36 ++ share_wire pk) r = Ok (r <| key_share := Some pk |>).
Proof.
  intros Hl. unfold on_client_hello_ext. pose proof (len_share_wire pk Hl) as Hlw. set (d := be_bytes 2 36 ++ _).
  change (EXT_KEY_SHARE =? EXT_SUPPORTED_VERSIONS) with false. change (EXT_KEY_SHARE =? EXT_KEY_SHARE) with true. cbv iota.
  assert (At d 0 (be_bytes 2 36 ++ share_wire pk ++ [])) as Ha by (rewrite app_nil_r; apply At_start).
  pose proof (At_len _ _ _ Ha) as Hd. rewrite !length_app, length_be_bytes in Hd. cbn [length] in Hd.
  rewrite (proj2 (Z.ltb_ge _ _)) by lia. rewrite (be16_At _ _ _ _ Ha) by done. cbn [mbind res_bind].
  rewrite (proj2 (Z.ltb_ge _ _)) by lia. apply At_app with (off' := 2) in Ha; [|len_lia].
  destruct (share_back _ _ _ _ Ha Hl) as (Hg & Hk & Ha').
  destruct (length d) as [|n] eqn:Hn; [lia|]. cbn [shares_loop].
  rewrite (proj2 (Z.leb_le _ _)) by lia. rewrite Hg. cbn [mbind res_bind]. rewrite Hk. cbn [mbind res_bind]. cbv zeta.
  rewrite (proj2 (Z.ltb_ge _ _)) by lia. rewrite !Z.eqb_refl. cbn [andb].
  rewrite (slice_At _ _ _ _ _ Ha') by lia. cbn [mbind res_bind].
  destruct n as [|n]; [lia|]. cbn [shares_loop]. by rewrite (proj2 (Z.leb_gt _ _)) by lia.
Qed.

Lemma protocols_back ps fuel d aoff list_len acc :
  At d aoff (protos_wire ps) → 2 + list_len = aoff + len (protos_wire ps) → (length ps ≤ fuel)%nat →
  Forall (λ p, len p ≤ 16) ps → len acc + len ps ≤ 4 →
  protocols_loop fuel d aoff list_len acc = Ok (acc ++ ps).
Proof.
  intros Ha Hl Hf Hp. revert fuel aoff acc Ha Hl Hf. induction Hp as [|p ps Hp _ IH]; intros fuel aoff acc Ha Hl Hf Hacc.
  { simpl in Hl. rewrite app_nil_r. destruct fuel; cbn [protocols_loop]; by rewrite (proj2 (Z.ltb_ge _ _)) by lia. }
  destruct fuel as [|fuel]; [simpl in Hf; lia|]. cbn [protocols_loop]. rewrite protos_cons in Ha, Hl. unfold proto_wire in *.
  rewrite length_app in Hl. cbn [app length] in Ha, Hl.
  rewrite (proj2 (Z.ltb_lt _ _)) by lia. rewrite (idx_At _ _ _ _ Ha). cbn [mbind res_bind]. cbv zeta.
  rewrite (proj2 (Z.ltb_ge _ _)) by lia. apply At_cons with (off' := aoff + 1) in Ha; [|done].
  rewrite (slice_At _ _ _ _ _ Ha) by done. cbn [mbind res_bind]. unfold push_all.
  rewrite (proj2 (Z.ltb_ge _ _)) by lia. cbn [mbind res_bind]. cbn [length] in Hacc. rewrite (proj2 (Z.leb_gt _ _)) by lia.
  rewrite IH; [by rewrite <- app_assoc| | | |].
  - by apply At_app with (off' := aoff + 1 + len p) in Ha.
  - lia.
  - simpl in Hf. lia.
  - rewrite length_app. simpl. lia.
Qed.
Lemma protos_long ps : (length ps ≤ length (protos_wire ps))%nat.
Proof. induction ps as [|p ps IH]; [done|]. rewrite protos_cons, length_app. simpl. lia. Qed.

Lemma client_alpn_back ps r :
  protos_ok ps → alpn_protocols r = [] →
  apply_exts on_client_hello_ext (alpn_exts ps) r = Ok (r <| alpn_protocols := ps |>).
Proof.
  intros Hp Hr. pose proof (protos_bound ps Hp) as Hb. destruct Hp as [Hl Hp]. unfold alpn_exts.
  destruct ps as [|p ps]; [cbn [apply_exts]; rewrite <- Hr; by destruct r|]. cbn [apply_exts fst snd].
  set (w := protos_wire (p :: ps)) in *. unfold on_client_hello_ext.
  change (EXT_ALPN =? EXT_SUPPORTED_VERSIONS) with false. change (EXT_ALPN =? EXT_KEY_SHARE) with false.
  change (EXT_ALPN =? EXT_ALPN) with true. cbv iota.
  rewrite (proj2 (Z.ltb_ge _ _)) by (rewrite len_vec16_wire; lia).
  destruct (vec16_back _ 0 w (At_start _)) as [-> _]; [lia|]. cbn [mbind res_bind].
  rewrite (proj2 (Z.ltb_ge _ _)) by (rewrite len_vec16_wire; lia). rewrite Hr.
  pose proof (At_start (vec16_wire w)) as Ha. apply (At_app (vec16_wire w) 0 2 (be_bytes 2 (len w)) w) in Ha; [|len_lia].
  rewrite (protocols_back (p :: ps)); [done|exact Ha|fold w; lia| |done|simpl in *; lia].
  pose proof (protos_long (p :: ps)). fold w in H0. unfold vec16_wire. rewrite length_app. lia.
Qed.
Lemma encrypted_alpn_back sel r :
  len sel ≤ 16 → len sel ≠ 0 →
  on_encrypted_ext EXT_ALPN (vec16_wire (protos_wire [sel])) r = Ok (r <| alpn := Some sel |>).
Proof.
  intros Hs Hn. set (w := protos_wire [sel]). assert (w = len sel :: sel) as Hw by (unfold w, protos_wire, proto_wire; cbn; by rewrite app_nil_r).
  assert (len w = 1 + len sel) as Hlw by (rewrite Hw; len_lia). unfold on_encrypted_ext.
  change (EXT_ALPN =? EXT_ALPN) with true. cbv iota. rewrite (proj2 (Z.ltb_ge _ _)) by (rewrite len_vec16_wire; lia).
  destruct (vec16_back _ 0 w (At_start _)) as [-> Hsub]; [lia|]. cbn [mbind res_bind]. change (0 + 2) with 2 in Hsub. rewrite Hsub.
  cbn [mbind res_bind]. rewrite (proj2 (Z.eqb_neq _ _)) by lia.
  assert (At w 0 (len sel :: sel ++ [])) as Ha by (rewrite app_nil_r, <- Hw; apply At_start).
  rewrite (idx_At _ _ _ _ Ha). cbn [mbind res_bind]. apply At_cons with (off' := 1) in Ha; [|done].
  rewrite (sub_At _ _ _ _ _ Ha) by done. cbn [mbind res_bind]. unfold push_all. by rewrite (proj2 (Z.ltb_ge _ _)) by lia.
Qed.
Lemma params_back tp : TransportParams.wf tp →
  TransportParams.decode (TransportParams.wire (TransportParams.entries tp)) = Ok tp.
Proof.
  intros Hw. pose proof (TransportParams.len_wire_entries tp Hw).
  rewrite TransportParams.decode_wire by (try lia; by apply TransportParams.entries_ok). by apply TransportParams.apply_entries.
Qed.
Lemma limit_back l : 64 ≤ l < 2 ^ 16 → parse_record_size_limit (be_bytes 2 l) = Ok l.
Proof.
  intros Hl. unfold parse_record_size_limit. rewrite length_be_bytes. cbn [negb Z.eqb Z.of_nat Pos.of_succ_nat Pos.succ Pos.eqb].
  assert (At (be_bytes 2 l) 0 (be_bytes 2 l ++ [])) as Ha by (rewrite app_nil_r; apply At_start).
  rewrite (be16_At _ _ _ _ Ha) by (unfold uint; lia). cbn [mbind res_bind]. by rewrite (proj2 (Z.ltb_ge _ _)) by lia.
Qed.

Lemma exts_ok_tail ps tp limit :
  protos_ok ps → params_ok tp → limit_ok limit → Forall ext_ok (alpn_exts ps ++ params_exts tp ++ limit_exts limit).
Proof.
  intros Hp Htp Hl. pose proof (protos_bound ps Hp). repeat apply Forall_app_2.
  - unfold alpn_exts. destruct ps as [|p ps]; [constructor|]. apply Forall_singleton. split; [done|]. cbn [fst snd]. rewrite len_vec16_wire. lia.
  - destruct tp as [tp|]; [|constructor]. apply Forall_singleton. split; [done|]. cbn [fst snd].
    pose proof (TransportParams.len_wire_entries tp Htp). lia.
  - destruct limit as [l|]; [|constructor]. apply Forall_singleton. split; [done|]. cbn [snd]. rewrite length_be_bytes. done.
Qed.

Lemma client_back name pk ps tp limit :
  len name < 2 ^ 16 - 5 → len pk = 32 → protos_ok ps → params_ok tp → limit_ok limit →
  parse_client_hello_extensions (exts_wire (client_exts name pk ps tp limit)) =
  Ok (MkClientHelloExtensions (Some pk) true ps tp limit).
Proof.
  intros Hn Hk Hp Htp Hl. unfold parse_client_hello_extensions. rewrite parse_exts_wire.
  2: { unfold client_exts. apply Forall_app_2; [|apply Forall_app_2; [|by apply exts_ok_tail]].
       - unfold sni_exts. destruct (_ =? 0); [constructor|]. apply Forall_singleton. split; [done|]. cbn [fst snd]. len_lia.
       - repeat (apply Forall_cons_2; [split; [done|]; cbn [fst snd]|]); [done| |done|by apply Forall_nil_2].
         rewrite length_app, Nat2Z.inj_add, len_share_wire by done. len_lia. }
  unfold client_exts. rewrite apply_exts_app.
  assert (∀ r, apply_exts on_client_hello_ext (sni_exts name) r = Ok r) as -> by (intros r; unfold sni_exts; by destruct (_ =? 0)).
  cbn [mbind res_bind app apply_exts fst snd].
  assert (∀ r, on_client_hello_ext EXT_SUPPORTED_VERSIONS [2; 3; 4] r = Ok (r <| supports_tls13 := true |>)) as ->.
  { intros r. unfold on_client_hello_ext. cbn -[idx be16]. change (be16 [2; 3; 4] 1) with (Ok (E:=Error) 0x0304). cbn. by rewrite orb_true_r. }
  cbn [mbind res_bind]. rewrite client_share_back by done. cbn [mbind res_bind].
  assert (∀ r, on_client_hello_ext EXT_SIGNATURE_ALGORITHMS sig_algs_data r = Ok r) as -> by done. cbn [mbind res_bind].
  rewrite apply_exts_app, client_alpn_back by done. cbn [mbind res_bind]. rewrite apply_exts_app.
  assert (∀ r, transport_params r = None → apply_exts on_client_hello_ext (params_exts tp) r = Ok (r <| transport_params := tp |>)) as ->; [| |done].
  { intros r Hr. destruct tp as [tp|]; cbn [params_exts apply_exts fst snd]; [|rewrite <- Hr; by destruct r].
    unfold on_client_hello_ext. cbn [Z.eqb Pos.eqb EXT_QUIC_TRANSPORT_PARAMS EXT_SUPPORTED_VERSIONS EXT_KEY_SHARE EXT_ALPN].
    by rewrite params_back. }
  cbn [mbind res_bind]. destruct limit as [l|]; cbn [limit_exts apply_exts fst snd]; [|done].
  unfold on_client_hello_ext. cbn [Z.eqb Pos.eqb EXT_QUIC_TRANSPORT_PARAMS EXT_SUPPORTED_VERSIONS EXT_KEY_SHARE EXT_ALPN EXT_RECORD_SIZE_LIMIT].
  by rewrite limit_back.
Qed.
Lemma server_back pk :
  len pk = 32 → parse_server_hello_extensions (exts_wire (server_exts pk)) = Ok (MkServerHelloExtensions 0x0304 (Some pk)).
Proof.
  intros Hk. unfold parse_server_hello_extensions. rewrite parse_exts_wire.
  2: { repeat (apply Forall_cons_2; [split; [done|]; cbn [fst snd]|]); [done| |by apply Forall_nil_2]. rewrite len_share_wire; done. }
  unfold server_exts. cbn [apply_exts fst snd].
  change (on_server_hello_ext EXT_SUPPORTED_VERSIONS (be_bytes 2 0x0304) (MkServerHelloExtensions 0 None))
    with (Ok (E:=Error) (MkServerHelloExtensions 0x0304 None)). cbn [mbind res_bind]. by rewrite server_share_back.
Qed.
Lemma encrypted_back sel tp limit :
  len sel ≤ 16 → params_ok tp → limit_ok limit →
  parse_encrypted_extensions_data (exts_wire (encrypted_exts sel tp limit)) =
  Ok (MkEncryptedExtensionsData (if len sel =? 0 then None else Some sel) tp limit).
Proof.
  intros Hs Htp Hl. unfold parse_encrypted_extensions_data. rewrite parse_exts_wire.
  2: { apply exts_ok_tail; try done. destruct (_ =? 0); (split; [simpl; lia|]); by repeat constructor. }
  unfold encrypted_exts. rewrite apply_exts_app.
  assert (∀ r, alpn r = None → apply_exts on_encrypted_ext (alpn_exts (if len sel =? 0 then [] else [sel])) r =
    Ok (r <| alpn := if len sel =? 0 then None else Some sel |>)) as ->; [| |done].
  { intros r Hr. destruct (Z.eqb_spec (len sel) 0); cbn [alpn_exts apply_exts fst snd]; [rewrite <- Hr; by destruct r|].
    by rewrite encrypted_alpn_back. }
  cbn [mbind res_bind]. rewrite apply_exts_app.
  assert (∀ r, ee_transport_params r = None → apply_exts on_encrypted_ext (params_exts tp) r = Ok (r <| ee_transport_params := tp |>)) as ->; [| |done].
  { intros r Hr. destruct tp as [tp|]; cbn [params_exts apply_exts fst snd]; [|rewrite <- Hr; by destruct r].
    unfold on_encrypted_ext. cbn [Z.eqb Pos.eqb EXT_QUIC_TRANSPORT_PARAMS EXT_ALPN]. by rewrite params_back. }
  cbn [mbind res_bind]. destruct limit as [l|]; cbn [limit_exts apply_exts fst snd]; [|done].
  unfold on_encrypted_ext. cbn [Z.eqb Pos.eqb EXT_QUIC_TRANSPORT_PARAMS EXT_ALPN EXT_RECORD_SIZE_LIMIT]. by rewrite limit_back.
Qed.

(** ** Parsing anything *)

Definition polite {A} (r : result A) : Prop :=
  match r with Ok _ => True | Err e => e = Tls ∨ too_small e | Panic => False end.
Lemma polite_bind {A B} (r : result A) (f : A → result B) :
  polite r → (∀ a, r = Ok a → polite (f a)) → polite (r ≫= f).
Proof. destruct r; simpl; auto. Qed.
Lemma polite_params d : usize_bits = 64 → bytes_ok d → len d < 2 ^ 62 → polite (TransportParams.decode d).
Proof.
  intros H64 Hb Hl. pose proof (TransportParams.params_decode_total d H64 Hb Hl) as Ht.
  by destruct (TransportParams.decode d).
Qed.
Lemma sub_bytes data off n x : bytes_ok data → sub data off n = Ok x → bytes_ok x.
Proof.
  unfold sub. intros Hb. case_match; [done|]. intros Hs. unfold slice in Hs. case_match; [|done]. injection Hs as <-.
  by apply Forall_take, Forall_drop.
Qed.

Lemma ext_loop_total {R} (on_ext : Z → list Z → R → result R) fuel data off r :
  (∀ ty d r, bytes_ok d → len d < 2 ^ 16 → polite (on_ext ty d r)) →
  bytes_ok data → 0 ≤ off → len data - off ≤ Z.of_nat fuel → polite (ext_loop on_ext fuel data off r).
Proof.
  intros Hon Hb. revert off r. induction fuel as [|fuel IH]; intros off r Ho Hf; cbn [ext_loop];
    destruct (Z.leb_spec (off + 4) (len data)) as [Hle|]; try done; [lia|].
  unfold get_u16. rewrite !(proj2 (Z.ltb_ge _ _)) by lia.
  destruct (be16_total data off Hb) as (ty & -> & _); [lia..|]. cbn [mbind res_bind]. rewrite !(proj2 (Z.ltb_ge _ _)) by lia.
  destruct (be16_total data (off + 2) Hb) as (n & -> & Hn); [lia..|]. cbn [mbind res_bind]. unfold uint in Hn.
  destruct (sub_total data (off + 2 + 2) n) as [->|(d & Hd & Hl & _)]; [lia..|by left|].
  pose proof (sub_bytes _ _ _ _ Hb Hd) as Hbd. rewrite Hd. cbn [mbind res_bind].
  apply polite_bind; [apply Hon; [done|lia]|]. intros r' _. apply IH; lia.
Qed.

Lemma limit_total d : bytes_ok d → polite (parse_record_size_limit d).
Proof.
  intros Hb. unfold parse_record_size_limit. destruct (Z.eqb_spec (len d) 2); cbn [negb]; [|by left].
  destruct (be16_total d 0 Hb) as (v & -> & _); [lia..|]. cbn [mbind res_bind]. case_match; [by left|done].
Qed.
Lemma polite_push cap l : polite (push_all cap l).
Proof. unfold push_all. case_match; [by left|done]. Qed.

Lemma server_ext_total ty d r : bytes_ok d → polite (on_server_hello_ext ty d r).
Proof.
  intros Hb. unfold on_server_hello_ext. case_match; [|case_match; [|done]].
  - destruct (Z.ltb_spec (len d) 2); [by left|]. by destruct (be16_total d 0 Hb) as (v & -> & _); [lia..|].
  - destruct (Z.ltb_spec (len d) 4); [by left|]. destruct (be16_total d 0 Hb) as (g & -> & _); [lia..|].
    destruct (be16_total d 2 Hb) as (k & -> & _); [lia..|]. cbn [mbind res_bind]. case_match; [by left|].
    destruct (Z.ltb_spec (len d) (4 + 32)); [by left|]. by rewrite slice_eq by lia.
Qed.
Lemma encrypted_ext_total ty d r :
  usize_bits = 64 → bytes_ok d → len d < 2 ^ 16 → polite (on_encrypted_ext ty d r).
Proof.
  intros H64 Hb Hl. unfold on_encrypted_ext. case_match; [|case_match; [|case_match; [|done]]].
  - destruct (Z.ltb_spec (len d) 2); [by left|]. destruct (be16_total d 0 Hb) as (n & -> & Hn); [lia..|]. cbn [mbind res_bind].
    unfold uint in Hn. destruct (sub_total d 2 n) as [->|(l & Hs & ? & _)]; [lia..|by left|].
    pose proof (sub_bytes _ _ _ _ Hb Hs) as Hbl. rewrite Hs. cbn [mbind res_bind].
    destruct (Z.eqb_spec (len l) 0); [by left|]. destruct (idx_no_panic (E:=Error) l 0) as [b Hi]; [lia|]. rewrite Hi.
    apply idx_byte in Hi; [|done]. unfold byte_ok in Hi. cbn [mbind res_bind].
    destruct (sub_total l 1 b) as [->|(x & -> & _)]; [lia..|by left|]. cbn [mbind res_bind].
    apply polite_bind; [apply polite_push|done].
  - apply polite_bind; [apply polite_params; [done..|lia]|done].
  - apply polite_bind; [by apply limit_total|done].
Qed.

Lemma versions_total fuel d voff n b :
  bytes_ok d → 0 ≤ voff → 1 + n ≤ len d → n - voff ≤ Z.of_nat fuel → polite (versions_loop fuel d voff n b).
Proof.
  intros Hb. revert voff b. induction fuel as [|fuel IH]; intros voff b Hv Hn Hf; cbn [versions_loop];
    destruct (Z.ltb_spec (voff + 1) (1 + n)); try done; [lia|].
  destruct (be16_total d voff Hb) as (v & -> & _); [lia..|]. cbn [mbind res_bind]. apply IH; lia.
Qed.
Lemma shares_total fuel d soff n k :
  bytes_ok d → 0 ≤ soff → 2 + n ≤ len d → 2 + n - soff ≤ Z.of_nat fuel → polite (shares_loop fuel d soff n k).
Proof.
  intros Hb. revert soff k. induction fuel as [|fuel IH]; intros soff k Hv Hn Hf; cbn [shares_loop];
    destruct (Z.leb_spec (soff + 4) (2 + n)); try done; [lia|].
  destruct (be16_total d soff Hb) as (g & -> & _); [lia..|]. destruct (be16_total d (soff + 2) Hb) as (kl & -> & Hk); [lia..|].
  cbn [mbind res_bind]. cbv zeta. unfold uint in Hk. destruct (Z.ltb_spec (2 + n) (soff + 4 + kl)); [by left|].
  apply polite_bind; [|intros; apply IH; lia]. destruct (_ && _) eqn:Hc; [|done].
  apply andb_true_iff in Hc as [_ Hc%Z.eqb_eq]. by rewrite slice_eq by lia.
Qed.
Lemma protocols_total fuel d aoff n ps :
  bytes_ok d → 0 ≤ aoff → 2 + n ≤ len d → 2 + n - aoff ≤ Z.of_nat fuel → polite (protocols_loop fuel d aoff n ps).
Proof.
  intros Hb. revert aoff ps. induction fuel as [|fuel IH]; intros aoff ps Hv Hn Hf; cbn [protocols_loop];
    destruct (Z.ltb_spec aoff (2 + n)); try done; [lia|].
  destruct (idx_no_panic (E:=Error) d aoff) as [b Hi]; [lia|]. rewrite Hi. apply idx_byte in Hi; [|done]. unfold byte_ok in Hi.
  cbn [mbind res_bind]. cbv zeta. destruct (Z.ltb_spec (2 + n) (aoff + 1 + b)); [by left|].
  rewrite slice_eq by lia. cbn [mbind res_bind]. apply polite_bind; [apply polite_push|]. intros p _.
  case_match; [by left|]. apply IH; lia.
Qed.
Lemma client_ext_total ty d r :
  usize_bits = 64 → bytes_ok d → len d < 2 ^ 16 → polite (on_client_hello_ext ty d r).
Proof.
  intros H64 Hb Hl. unfold on_client_hello_ext. case_match; [|case_match; [|case_match; [|case_match; [|case_match; [|done]]]]].
  - destruct (Z.eqb_spec (len d) 0); [by left|]. destruct (idx_no_panic (E:=Error) d 0) as [b ->]; [lia|]. cbn [mbind res_bind].
    destruct (Z.ltb_spec (len d) (1 + b)); [by left|]. apply polite_bind; [apply versions_total; [done|lia..]|done].
  - destruct (Z.ltb_spec (len d) 2); [by left|]. destruct (be16_total d 0 Hb) as (n & -> & _); [lia..|]. cbn [mbind res_bind].
    destruct (Z.ltb_spec (len d) (2 + n)); [by left|]. apply polite_bind; [apply shares_total; [done|lia..]|done].
  - destruct (Z.ltb_spec (len d) 2); [by left|]. destruct (be16_total d 0 Hb) as (n & -> & _); [lia..|]. cbn [mbind res_bind].
    destruct (Z.ltb_spec (len d) (2 + n)); [by left|]. apply polite_bind; [apply protocols_total; [done|lia..]|done].
  - apply polite_bind; [apply polite_params; [done..|lia]|done].
  - apply polite_bind; [by apply limit_total|done].
Qed.

(** Every block of extensions is answered on a 64-bit target: the parsers return
    a value, the TLS error, or the error of a truncated integer. *)
Theorem tls_extensions_total data :
  usize_bits = 64 → bytes_ok data →
  polite (parse_client_hello_extensions data) ∧ polite (parse_server_hello_extensions data) ∧
  polite (parse_encrypted_extensions_data data).
Proof.
  intros H64 Hb. split_and!; (apply ext_loop_total; [|done|lia..]); intros;
    auto using client_ext_total, server_ext_total, encrypted_ext_total.
Qed.

(** The negotiation a hello carries survives it.  The client's server name,
    key share, protocols, transport parameters and record size limit are written
    as one block of extensions (or refused when the buffer is too small), and the
    server's parser returns that key share, TLS 1.3 support, those protocols in
    order, those parameters and that limit; the server's two blocks likewise
    return its version, key share, chosen protocol, parameters and limit. *)
Theorem tls_extensions_roundtrip name pk ps tp limit sel :
  len name < 2 ^ 16 - 5 → len pk = 32 → protos_ok ps → len sel ≤ 16 → params_ok tp → limit_ok limit →
  (∃ w, emits (encode_client_hello_extensions name pk ps tp limit) w ∧
        parse_client_hello_extensions w = Ok (MkClientHelloExtensions (Some pk) true ps tp limit)) ∧
  (∃ w, emits (encode_server_hello_extensions pk) w ∧
        parse_server_hello_extensions w = Ok (MkServerHelloExtensions 0x0304 (Some pk))) ∧
  (∃ w, emits (encode_encrypted_extensions_data sel tp limit) w ∧
        parse_encrypted_extensions_data w =
          Ok (MkEncryptedExtensionsData (if len sel =? 0 then None else Some sel) tp limit)).
Proof.
  intros. split_and!; eexists.
  - split; [by apply client_extensions_wire|by apply client_back].
  - split; [by apply server_extensions_wire|by apply server_back].
  - split; [by apply encrypted_extensions_wire|by apply encrypted_back].
Qed.

End back.

End Extensions.
