(* ===== verification/Crypto.v ===== *)
(** * Cryptography: [src/crypto/mod.rs], [key_schedule.rs], [rustcrypto.rs],
      [src/tls/key_schedule_tls.rs], [src/tls/transcript.rs]

    The primitives come from external crates and are parameters: the class
    [Primitives] names what the source calls, [PrimitiveLaws] what it relies on.  The
    key schedules, the AEAD wrappers and the transcript are the source's. *)
From stdpp Require Import strings.
From S2P Require Import Prelude Errors Varint Cursor Recovery TlsMessages.

(** What the crates sha2, hkdf, x25519-dalek, ed25519-dalek, p256, aes-gcm and
    chacha20poly1305 compute, and the suites of the provider in use.
    - [sha256 d]: the digest of everything fed to the hasher;
    - [hkdf_extract salt ikm], [hkdf_expand prk info n]: [None] is the crate's error;
    - [x25519_public secret], [x25519 secret point];
    - [ed25519_public seed], [ed25519_sign seed msg]; [ed25519_verify key msg sig] is
      false also for a key that is not a point;
    - [p256_public scalar], [p256_sign scalar msg] (a DER signature): [None] for a
      scalar out of range; [p256_verify key msg sig] is false also for a malformed
      key or signature;
    - [encrypt key nonce aad text] is the ciphertext and the tag,
      [decrypt key nonce aad text tag] the plaintext of an authentic message; the
      cipher is AES-128-GCM for a key of 16 bytes and ChaCha20-Poly1305 for one of
      32;
    - [aes128_block key block]: one block; [chacha20_stream key nonce counter n]: [n]
      bytes of key stream from block [counter] on. *)
Class Primitives := {
  cipher_suites : list CipherSuite.t;
  sha256 : list Z → list Z;
  hkdf_extract : list Z → list Z → list Z;
  hkdf_expand : list Z → list Z → Z → option (list Z);
  x25519_public : list Z → list Z;
  x25519 : list Z → list Z → list Z;
  ed25519_public : list Z → list Z;
  ed25519_sign : list Z → list Z → list Z;
  ed25519_verify : list Z → list Z → list Z → bool;
  p256_public : list Z → option (list Z);
  p256_sign : list Z → list Z → option (list Z);
  p256_verify : list Z → list Z → list Z → bool;
  encrypt : list Z → list Z → list Z → list Z → option (list Z * list Z);
  decrypt : list Z → list Z → list Z → list Z → list Z → option (list Z);
  aes128_block : list Z → list Z → list Z;
  chacha20_stream : list Z → list Z → Z → Z → list Z
}.

(** What the protocol code relies on. *)
Class PrimitiveLaws `(C : Primitives) : Prop := {
  sha256_len d : len (sha256 d) = 32;
  extract_len salt ikm : len (hkdf_extract salt ikm) = 32;
  expand_ok prk info n :
    len prk = 32 → 0 ≤ n ≤ 255 * 32 → ∃ okm, hkdf_expand prk info n = Some okm ∧ len okm = n;
  x25519_public_len s : len (x25519_public s) = 32;
  x25519_len s p : len (x25519 s p) = 32;
  x25519_agree a b : x25519 a (x25519_public b) = x25519 b (x25519_public a);
  ed25519_sign_len s m : len (ed25519_sign s m) = 64;
  ed25519_correct s m : len s = 32 → ed25519_verify (ed25519_public s) m (ed25519_sign s m) = true;
  p256_sign_some s m pk : p256_public s = Some pk → ∃ sig, p256_sign s m = Some sig ∧ len sig ≤ 72;
  p256_correct s m pk sig :
    p256_public s = Some pk → p256_sign s m = Some sig → p256_verify pk m sig = true;
  encrypt_ok k n a m :
    len k = 16 ∨ len k = 32 → len n = 12 → len m < 2 ^ 31 →
    ∃ c t, encrypt k n a m = Some (c, t) ∧ len c = len m ∧ len t = 16 ∧ decrypt k n a c t = Some m;
  decrypt_len k n a c t m : decrypt k n a c t = Some m → len m = len c;
  aes128_len k b : len (aes128_block k b) = 16;
  chacha20_len k n c l : 0 ≤ l → len (chacha20_stream k n c l) = l
}.

(** ** AEAD: [Aead for Aes128GcmAead], [ChaCha20Poly1305Aead], [AnySuiteAead] *)
Module Aead.
Section Aead.
Context `{Primitives}.

Definition TAG_LEN : Z := 16.

(** [C::aead(key)] of [AnySuiteProvider]: the AEAD is its key. *)
Definition aead (key : list Z) : result (list Z) :=
  if (len key =? 16) || (len key =? 32) then Ok key else Err Crypto.

(** The default [CryptoProvider::cipher_suites] for an AEAD with keys of [key_len]
    bytes, and that of [AnySuiteProvider]. *)
Definition default_suites (key_len : Z) : list CipherSuite.t :=
  if key_len =? 16 then [CipherSuite.TlsAes128GcmSha256]
  else if key_len =? 32 then [CipherSuite.TlsChacha20Poly1305Sha256] else [].
Definition any_suites : list CipherSuite.t :=
  [CipherSuite.TlsChacha20Poly1305Sha256; CipherSuite.TlsAes128GcmSha256].

Definition seal_in_place (key nonce aad : list Z) (payload_len : Z) : M Error (list Z) Z := λ buf,
  if negb (len nonce =? 12) then (Err Crypto, buf) else
  let total := payload_len + TAG_LEN in
  if len buf <? total then (Err (BufferTooSmall total), buf) else
  match slice (E:=Error) buf 0 payload_len with
  | Ok text =>
      match encrypt key nonce aad text with
      | Some (c, tag) =>
          match copy_at (E:=Error) buf 0 payload_len c with
          | Ok buf =>
              match copy_at (E:=Error) buf payload_len total tag with
              | Ok buf => (Ok total, buf)
              | _ => (Panic, buf)
              end
          | _ => (Panic, buf)
          end
      | None => (Err Crypto, buf)
      end
  | _ => (Panic, buf)
  end.

(** A failed decryption leaves the ciphertext. *)
Definition open_in_place (key nonce aad : list Z) (ciphertext_len : Z) : M Error (list Z) Z := λ buf,
  if negb (len nonce =? 12) then (Err Crypto, buf) else
  if ciphertext_len <? TAG_LEN then (Err Crypto, buf) else
  let plaintext_len := ciphertext_len - TAG_LEN in
  match slice (E:=Error) buf plaintext_len ciphertext_len, slice (E:=Error) buf 0 plaintext_len with
  | Ok tag, Ok text =>
      match decrypt key nonce aad text tag with
      | Some m =>
          match copy_at (E:=Error) buf 0 plaintext_len m with
          | Ok buf => (Ok plaintext_len, buf)
          | _ => (Panic, buf)
          end
      | None => (Err Crypto, buf)
      end
  | _, _ => (Panic, buf)
  end.

End Aead.
End Aead.

(** ** Header protection *)
Module HeaderProtection.
Section HeaderProtection.
Context `{Primitives}.

(** [AnySuiteProvider::header_protection(key)]: the cipher is its key. *)
Definition header_protection (key : list Z) : result (list Z) :=
  if (len key =? 16) || (len key =? 32) then Ok key else Err Crypto.

Definition aes_mask (key sample : list Z) : result (list Z) :=
  block ← slice sample 0 16;
  slice (aes128_block key block) 0 5.

Definition chacha_mask (key sample : list Z) : result (list Z) :=
  b0 ← idx sample 0; b1 ← idx sample 1; b2 ← idx sample 2; b3 ← idx sample 3;
  let counter := b0 + 2 ^ 8 * b1 + 2 ^ 16 * b2 + 2 ^ 24 * b3 in
  nonce_bytes ← slice sample 4 16;
  Ok (chacha20_stream key nonce_bytes counter 5).

Definition mask (key sample : list Z) : result (list Z) :=
  if len key =? 16 then aes_mask key sample else chacha_mask key sample.

End HeaderProtection.
End HeaderProtection.

(** ** HKDF labels *)
Module KeySchedule.
Section KeySchedule.
Context `{Primitives}.

(** [Hkdf for HkdfSha256]. *)
Definition extract (salt ikm : list Z) : list Z := hkdf_extract salt ikm.
Definition expand (prk info : list Z) (n : Z) : result (list Z) := ok_or Crypto (hkdf_expand prk info n).

Definition INITIAL_SALT_V1 : list Z :=
  [0x38; 0x76; 0x2c; 0xf7; 0xf5; 0x59; 0x34; 0xb3; 0x4d; 0x17; 0x9a; 0xe6; 0xa4; 0xc8; 0x0c; 0xad;
   0xcc; 0xbb; 0x7f; 0x0a].

Definition tls13_prefix : list Z := bytes "tls13 ".

(** The stores into [info]. *)
Definition put_label (out_len : Z) (label context : list Z) : writer unit :=
  let out_len := trunc 16 out_len in
  _ ← put_u8 (trunc 8 (Z.shiftr out_len 8));
  _ ← put_u8 (trunc 8 out_len);
  _ ← put_u8 (trunc 8 (len tls13_prefix + len label));
  _ ← put_slice tls13_prefix;
  _ ← put_slice label;
  _ ← put_u8 (trunc 8 (len context));
  if len context =? 0 then mret tt else put_slice context.

Definition hkdf_expand_label (secret label context : list Z) (out_len : Z) : result (list Z) :=
  let info_len := 2 + 1 + (len tls13_prefix + len label) + 1 + len context in
  if 80 <? info_len then Err Crypto else
  let '(r, s) := put_label out_len label context (replicate 80 0, 0) in
  _ ← r;
  info ← slice s.1 0 info_len;
  expand secret info out_len.

(** Two secrets of [n] bytes, written one after the other into the pair
    (client, server). *)
Definition derive_pair (secret client server context : list Z) (n : Z) : M Error (list Z * list Z) unit :=
  c ← lift (hkdf_expand_label secret client context n);
  _ ← modify (λ p, (c, p.2));
  s ← lift (hkdf_expand_label secret server context n);
  modify (λ p, (p.1, s)).

Definition derive_initial_secrets (dcid : list Z) (n : Z) : M Error (list Z * list Z) unit :=
  derive_pair (extract INITIAL_SALT_V1 dcid) (bytes "client in") (bytes "server in") [] n.

Definition derive_packet_keys (secret : list Z) (key_len iv_len hp_len : Z) : result (list Z * list Z * list Z) :=
  key ← hkdf_expand_label secret (bytes "quic key") [] key_len;
  iv ← hkdf_expand_label secret (bytes "quic iv") [] iv_len;
  hp ← hkdf_expand_label secret (bytes "quic hp") [] hp_len;
  Ok (key, iv, hp).

Definition derive_tls_record_keys (secret : list Z) (key_len : Z) : result (list Z * list Z) :=
  key ← hkdf_expand_label secret (bytes "key") [] key_len;
  iv ← hkdf_expand_label secret (bytes "iv") [] 12;
  Ok (key, iv).

Definition derive_next_application_secret (current : list Z) (n : Z) : result (list Z) :=
  hkdf_expand_label current (bytes "quic ku") [] n.

End KeySchedule.
End KeySchedule.

(** ** The TLS 1.3 key schedule *)
Module TlsKeySchedule.
Import KeySchedule.

Record t := Mk { early_secret : list Z; handshake_secret : list Z; master_secret : list Z }.
Global Instance eta_key_schedule : Eta t := λ k, Mk (early_secret k) (handshake_secret k) (master_secret k).

Section TlsKeySchedule.
Context `{Primitives}.

Definition zeros32 : list Z := replicate 32 0.

Definition new : t := Mk (extract zeros32 zeros32) zeros32 zeros32.

Definition empty_transcript_hash : list Z := sha256 [].

Definition derive_handshake_secret (shared_secret : list Z) (k : t) : result t :=
  salt ← hkdf_expand_label (early_secret k) (bytes "derived") empty_transcript_hash 32;
  Ok (k <| handshake_secret := extract salt shared_secret |>).

Definition derive_handshake_traffic_secrets (transcript_hash : list Z) (k : t) : M Error (list Z * list Z) unit :=
  derive_pair (handshake_secret k) (bytes "c hs traffic") (bytes "s hs traffic") transcript_hash 32.

Definition derive_master_secret (k : t) : result t :=
  salt ← hkdf_expand_label (handshake_secret k) (bytes "derived") empty_transcript_hash 32;
  Ok (k <| master_secret := extract salt zeros32 |>).

Definition derive_app_traffic_secrets (transcript_hash : list Z) (k : t) : M Error (list Z * list Z) unit :=
  derive_pair (master_secret k) (bytes "c ap traffic") (bytes "s ap traffic") transcript_hash 32.

Definition derive_finished_key (base_key : list Z) : result (list Z) :=
  hkdf_expand_label base_key (bytes "finished") [] 32.

(** HMAC is HKDF-Extract. *)
Definition compute_finished_verify_data (finished_key transcript_hash : list Z) : result (list Z) :=
  Ok (extract finished_key transcript_hash).

End TlsKeySchedule.
End TlsKeySchedule.

(** ** The transcript: the bytes fed to the hasher *)
Module Transcript.
Section Transcript.
Context `{Primitives}.
Definition new : list Z := [].
Definition update (message t : list Z) : list Z := t ++ message.
Definition current_hash (t : list Z) : list Z := sha256 t.
End Transcript.
End Transcript.

(** ** Labels and derived secrets *)

Lemma Puts_lift {A} (r : result A) (k : A → writer unit) a bs : r = Ok a → Puts (k a) bs → Puts (lift r ≫= k) bs.
Proof. intros -> Hk done rest Hl. erewrite M_step_lift by done. by apply Hk. Qed.
(** The bytes a writer left at the front of a buffer. *)
Lemma slice_head {E A} (w rest : list A) n : n = len w → slice (E:=E) (w ++ rest) 0 n = Ok w.
Proof.
  intros ->. rewrite slice_eq by len_lia. rewrite Z.sub_0_r, Nat2Z.id. change (Z.to_nat 0) with O.
  by rewrite drop_0, take_app_length.
Qed.

(** The HkdfLabel structure of RFC 8446 section 7.1. *)
Definition hkdf_label_wire (n : Z) (label context : list Z) : list Z :=
  let full := KeySchedule.tls13_prefix ++ label in
  be_bytes 2 n ++ [len full] ++ full ++ [len context] ++ context.

Section labels.
Context `{Primitives}.
Import KeySchedule.

Lemma Puts_label n label context :
  uint 16 n → len label ≤ 32 → len context ≤ 32 →
  Puts (put_label n label context) (hkdf_label_wire n label context).
Proof.
  intros Hn Hl Hc. unfold uint in Hn. unfold put_label, hkdf_label_wire. rewrite (trunc_small 16) by done.
  assert (trunc 8 (Z.shiftr n 8) = n / 256 ^ 1 mod 256) as ->
    by (unfold trunc; by rewrite Z.shiftr_div_pow2 by lia).
  assert (trunc 8 n = n / 256 ^ 0 mod 256) as -> by (unfold trunc; change (256 ^ 0) with 1; by rewrite Z.div_1_r).
  change (be_bytes 2 n) with ([n / 256 ^ 1 mod 256] ++ [n / 256 ^ 0 mod 256]).
  rewrite !trunc_small by (unfold uint; simpl length; lia). rewrite length_app, Nat2Z.inj_add, <- !app_assoc.
  repeat first [apply Puts_u8|apply Puts_slice|apply Puts_bind].
  destruct (Z.eqb_spec (len context) 0) as [Hz|]; [|apply Puts_slice].
  destruct context; [apply Puts_ret|simpl in Hz; lia].
Qed.

Lemma expand_label_eq secret label context n :
  uint 16 n → len label ≤ 32 → len context ≤ 32 →
  hkdf_expand_label secret label context n = expand secret (hkdf_label_wire n label context) n.
Proof.
  intros Hn Hl Hc. unfold hkdf_expand_label. cbv zeta.
  set (w := hkdf_label_wire n label context). assert (len w = 2 + 1 + (len tls13_prefix + len label) + 1 + len context) as Hw.
  { unfold w, hkdf_label_wire. autorewrite with len. simpl length. lia. }
  rewrite (proj2 (Z.ltb_ge _ _)) by (simpl length; lia). rewrite <- Hw.
  pose proof (Puts_label n label context Hn Hl Hc [] (replicate 80 0)) as Hp. fold w in Hp.
  rewrite !app_nil_l in Hp. change (len []) with 0 in Hp.
  rewrite Hp by (rewrite Hw, length_replicate; simpl length; lia). cbn [mbind res_bind fst].
  by rewrite slice_head.
Qed.

Lemma expand_label_ok `{!PrimitiveLaws _} secret label context n :
  len secret = 32 → 0 ≤ n ≤ 255 * 32 → len label ≤ 32 → len context ≤ 32 →
  ∃ okm, hkdf_expand_label secret label context n = Ok okm ∧ len okm = n.
Proof.
  intros Hs Hn Hl Hc. rewrite expand_label_eq by (unfold uint; lia). unfold expand.
  destruct (expand_ok secret (hkdf_label_wire n label context) n Hs Hn) as (okm & -> & ?). by exists okm.
Qed.

Lemma derive_pair_ok `{!PrimitiveLaws _} secret lc ls context n p :
  len secret = 32 → 0 ≤ n ≤ 255 * 32 → len lc ≤ 32 → len ls ≤ 32 → len context ≤ 32 →
  ∃ c s, derive_pair secret lc ls context n p = (Ok tt, (c, s)) ∧
    hkdf_expand_label secret lc context n = Ok c ∧ hkdf_expand_label secret ls context n = Ok s ∧
    len c = n ∧ len s = n.
Proof.
  intros Hs Hn Hc Hl Hx. destruct (expand_label_ok secret lc context n) as (c & Ec & Lc); [done..|].
  destruct (expand_label_ok secret ls context n) as (s & Es & Ls); [done..|]. exists c, s.
  unfold derive_pair. rewrite Ec, Es. done.
Qed.

End labels.

(** ** The AEAD round trip *)

Section aead.
Context `{PrimitiveLaws}.
Import Aead.

Lemma seal_ok key nonce aad m rest :
  len key = 16 ∨ len key = 32 → len nonce = 12 → len m < 2 ^ 31 → 16 ≤ len rest →
  ∃ c, len c = len m + 16 ∧
    seal_in_place key nonce aad (len m) (m ++ rest) = (Ok (len m + 16), c ++ drop 16 rest) ∧
    ∀ rest', open_in_place key nonce aad (len m + 16) (c ++ rest') = (Ok (len m), m ++ drop (length m) c ++ rest').
Proof.
  intros Hk Hn Hm Hr. destruct (encrypt_ok key nonce aad m Hk Hn Hm) as (c & t & He & Hc & Ht & Hd).
  exists (c ++ t). split; [len_lia|]. unfold seal_in_place, open_in_place, TAG_LEN.
  rewrite (proj2 (Z.eqb_eq _ _)) by done. cbn [negb]. split.
  - rewrite (proj2 (Z.ltb_ge _ _)) by len_lia. rewrite slice_eq by len_lia. rewrite Z.sub_0_r, Nat2Z.id, drop_0, take_app_length, He.
    rewrite copy_at_eq by len_lia. change (Z.to_nat 0) with O. rewrite take_0, app_nil_l, Nat2Z.id, drop_app_length.
    rewrite copy_at_eq by len_lia. f_equal. rewrite take_app_le by lia. rewrite take_ge by lia.
    rewrite drop_app_ge by lia. rewrite <- app_assoc. do 3 f_equal. lia.
  - intros rest'. rewrite (proj2 (Z.ltb_ge _ _)) by lia. replace (len m + 16 - 16) with (len m) by lia.
    rewrite <- app_assoc. rewrite !slice_eq by len_lia. rewrite Z.sub_0_r, !drop_0. replace (len m + 16 - len m) with 16 by lia.
    rewrite Nat2Z.id. replace (length m) with (length c) by lia. rewrite drop_app_length, take_app_length.
    rewrite take_app_le by lia. rewrite (take_ge t) by lia. rewrite Hd.
    rewrite copy_at_eq by len_lia. change (Z.to_nat 0) with O. rewrite take_0, app_nil_l.
    by rewrite Nat2Z.id, !drop_app_length.
Qed.

End aead.

(** ** A concrete instance *)

(** Arithmetic stand-ins for which every law holds. *)
Module Toy.

Definition pad (n : nat) (l : list Z) : list Z := take n (l ++ replicate n 0).
Definition digest (n : nat) (v : Z) : list Z := be_bytes n v.

Definition toy : Primitives := {|
  cipher_suites := Aead.any_suites;
  sha256 d := digest 32 (be_val d + 1);
  hkdf_extract salt ikm := digest 32 (be_val salt + 3 * be_val ikm + 1);
  hkdf_expand prk info n := if len prk =? 32 then Some (digest (Z.to_nat n) (be_val prk + be_val info)) else None;
  x25519_public s := pad 32 s;
  x25519 s p := zip_with (λ x y, (x + y + 1) mod 256) (pad 32 s) (pad 32 p);
  ed25519_public s := pad 32 s;
  ed25519_sign s m := digest 64 (be_val (pad 32 s) + be_val m);
  ed25519_verify k m sig := bool_decide (sig = digest 64 (be_val k + be_val m));
  p256_public s := Some (4 :: pad 64 s);
  p256_sign s m := Some (digest 64 (be_val (4 :: pad 64 s) + be_val m));
  p256_verify k m sig := bool_decide (sig = digest 64 (be_val k + be_val m));
  encrypt k n a m := Some (m, digest 16 (be_val k + be_val n + be_val a + be_val m));
  decrypt k n a c t := if bool_decide (t = digest 16 (be_val k + be_val n + be_val a + be_val c)) then Some c else None;
  aes128_block k b := digest 16 (be_val k + be_val b);
  chacha20_stream k n c l := digest (Z.to_nat l) (be_val k + be_val n + c)
|}.

Lemma length_pad n l : length (pad n l) = n.
Proof. unfold pad. rewrite length_take, length_app, length_replicate. lia. Qed.
Lemma pad_pad n l : pad n (pad n l) = pad n l.
Proof.
  unfold pad at 1. rewrite take_app_le by (rewrite length_pad; lia). apply take_ge. rewrite length_pad. lia.
Qed.

Global Instance toy_laws : PrimitiveLaws toy.
Proof.
  assert (∀ n v, length (digest n v) = n) as Hd by (intros; apply length_be_bytes).
  constructor; cbn -[digest pad be_val]; intros; rewrite ?Hd, ?length_zip_with, ?length_pad; try done.
  - rewrite (proj2 (Z.eqb_eq _ _)) by done. eexists. split; [done|]. rewrite Hd. lia.
  - rewrite !pad_pad. clear. generalize (pad 32 a) (pad 32 b). intros l. induction l as [|x l IH]; intros [|y l']; simpl; [done..|].
    rewrite IH. f_equal. f_equal. lia.
  - by rewrite bool_decide_eq_true_2.
  - eexists. split; [done|]. by rewrite Hd.
  - simplify_eq. by rewrite bool_decide_eq_true_2.
  - do 2 eexists. split; [done|]. rewrite Hd. split_and!; [done..|]. by rewrite bool_decide_eq_true_2.
  - case_bool_decide; by simplify_eq.
  - lia.
Qed.

End Toy.
