(* ===== verification/Certificate.v ===== *)
(** * Certificates: [src/crypto/x509.rs], [ed25519.rs], [ecdsa_p256.rs]

    The DER the crate writes (self-signed leaves with subject alternative names),
    the keys it finds in a certificate, and the CertificateVerify signatures. *)
From stdpp Require Import strings.
From S2P Require Import Prelude Errors Varint Cursor TlsMessages Crypto.

(** [o += f(.., &mut out[o..])?]. *)
Definition put_call (f : M Error (list Z) Z) : writer unit := λ s,
  let '(r, buf') := with_from s.2 f s.1 in
  match r with Ok n => (Ok tt, (buf', s.2 + n)) | Err e => (Err e, (buf', s.2)) | Panic => (Panic, (buf', s.2)) end.

(** [let mut b = [0u8; n]; let l = f(&mut b)?; &b[..l]]. *)
Definition scratch (n : nat) (f : M Error (list Z) Z) : result (list Z) :=
  let '(r, buf) := f (replicate n 0) in l ← r; slice buf 0 l.

(** ** DER: [src/crypto/x509.rs] *)
Module X509.

Inductive IpAddr : Type := V4 (octets : list Z) | V6 (octets : list Z).
Definition octets (ip : IpAddr) : list Z := match ip with V4 o => o | V6 o => o end.

Definition asn1_len_size (n : Z) : Z := if n <? 0x80 then 1 else if n <? 0x100 then 2 else 3.

Definition write_asn1_len (n : Z) : M Error (list Z) Z :=
  let k := asn1_len_size n in
  with_room k (
    if k =? 1 then put_u8 (trunc 8 n)
    else if k =? 2 then _ ← put_u8 0x81; put_u8 (trunc 8 n)
    else _ ← put_u8 0x82; _ ← put_u8 (trunc 8 (Z.shiftr n 8)); put_u8 (trunc 8 n)).

Definition put_general_name (tag : Z) (b : list Z) : writer unit :=
  if 0xff <? len b then throw Tls else
  _ ← room (2 + len b);
  _ ← put_u8 tag; _ ← put_u8 (trunc 8 (len b)); put_slice b.

Fixpoint put_names (tag : Z) (l : list (list Z)) : writer unit :=
  match l with [] => mret tt | b :: l => _ ← put_general_name tag b; put_names tag l end.

Definition SAN_OID : list Z := [0x06; 0x03; 0x55; 0x1d; 0x11].

Definition encode_san_extensions (dns_names : list (list Z)) (ip_addrs : list IpAddr) : M Error (list Z) Z := λ out,
  if (len dns_names =? 0) && (len ip_addrs =? 0) then (Ok 0, out) else
  let '(r, s) := (_ ← put_names 0x82 dns_names; put_names 0x87 (octets <$> ip_addrs)) (replicate 256 0, 0) in
  match r with
  | Err e => (Err e, out)
  | Panic => (Panic, out)
  | Ok _ =>
      let names_len := s.2 in
      let gn_seq_len := 1 + asn1_len_size names_len + names_len in
      let octet_len := 1 + asn1_len_size gn_seq_len + gn_seq_len in
      let ext_content_len := len SAN_OID + octet_len in
      let ext_seq_len := 1 + asn1_len_size ext_content_len + ext_content_len in
      let exts_seq_len := 1 + asn1_len_size ext_seq_len + ext_seq_len in
      let total := 1 + asn1_len_size exts_seq_len + exts_seq_len in
      with_room total (
        _ ← put_u8 0xa3; _ ← put_call (write_asn1_len exts_seq_len);
        _ ← put_u8 0x30; _ ← put_call (write_asn1_len ext_seq_len);
        _ ← put_u8 0x30; _ ← put_call (write_asn1_len ext_content_len);
        _ ← put_slice SAN_OID;
        _ ← put_u8 0x04; _ ← put_call (write_asn1_len gn_seq_len);
        _ ← put_u8 0x30; _ ← put_call (write_asn1_len names_len);
        names ← lift (slice s.1 0 names_len);
        put_slice names) out
  end.

(** The first occurrence of [needle] (both copies of the function). *)
Fixpoint find_at (needle haystack : list Z) (i : Z) : option Z :=
  if bool_decide (take (length needle) haystack = needle) then Some i
  else match haystack with [] => None | _ :: h => find_at needle h (i + 1) end.
Definition find_subsequence (haystack needle : list Z) : option Z :=
  if (len needle =? 0) || (len haystack <? len needle) then None else find_at needle haystack 0.

End X509.

(** ** Ed25519: [src/crypto/ed25519.rs] *)
Module Ed25519.
Import X509.

Definition ED25519_ALGORITHM : Z := 0x0807.
Definition SERVER_CONTEXT : list Z := bytes "TLS 1.3, server CertificateVerify".

(** The buffer of 130 bytes and the length used. *)
Definition build_certificate_verify_content (context transcript_hash : list Z) : result (list Z * Z) :=
  let '(r, s) := (
    _ ← put_slice (replicate 64 0x20);
    _ ← put_slice context;
    _ ← put_u8 0x00;
    put_slice transcript_hash) (replicate 130 0, 0) in
  _ ← r; Ok s.
Definition build_server_cv_content (transcript_hash : list Z) : result (list Z * Z) :=
  build_certificate_verify_content SERVER_CONTEXT transcript_hash.

Definition oid : list Z := [0x06; 0x03; 0x2b; 0x65; 0x70].

(** [cert_der.get(i).ok_or(Error::Tls)]. *)
Definition get_byte (cert : list Z) (i : Z) : result Z := ok_or Tls (if 0 <=? i then cert !! Z.to_nat i else None).

Fixpoint scan_key (fuel : nat) (cert : list Z) (i hi : Z) : result (list Z) :=
  if i <? hi then
    match fuel with
    | O => Panic
    | S fuel =>
        b ← idx cert i;
        if b =? 0x03 then
          bit_string_len ← get_byte cert (i + 1);
          if bit_string_len =? 33 then
            padding ← get_byte cert (i + 2);
            if negb (padding =? 0) then Err Tls else
            let key_start := i + 3 in
            let key_end := key_start + 32 in
            if len cert <? key_end then Err Tls else slice cert key_start key_end
          else scan_key fuel cert (i + 1) hi
        else scan_key fuel cert (i + 1) hi
    end
  else Err Tls.
Definition extract_ed25519_pubkey_from_cert (cert : list Z) : result (list Z) :=
  match find_subsequence cert oid with
  | Some oid_pos => scan_key (length cert) cert (oid_pos + len oid) (sat_sub (len cert) 34)
  | None => Err Tls
  end.

Section Ed25519.
Context `{Primitives}.

Definition sign_certificate_verify (signing_key transcript_hash : list Z) : result (list Z) :=
  '(content, content_len) ← build_server_cv_content transcript_hash;
  c ← slice content 0 content_len;
  Ok (ed25519_sign signing_key c).

(** [VerifyingKey::from_bytes], the length of the signature, then [verify]. *)
Definition verify_certificate_verify (public_key signature transcript_hash : list Z) : result unit :=
  if negb (len signature =? 64) then Err Tls else
  '(content, content_len) ← build_server_cv_content transcript_hash;
  c ← slice content 0 content_len;
  if ed25519_verify public_key c signature then Ok tt else Err Tls.

Definition ed25519_public_key_from_seed (seed : list Z) : list Z := ed25519_public seed.

End Ed25519.

Definition VERSION : list Z := [0xa0; 0x03; 0x02; 0x01; 0x02].
Definition SERIAL : list Z := [0x02; 0x01; 0x01].
Definition SIG_ALGO : list Z := [0x30; 0x05; 0x06; 0x03; 0x2b; 0x65; 0x70].
Definition NAME : list Z :=
  [0x30; 0x15; 0x31; 0x13; 0x30; 0x11; 0x06; 0x03; 0x55; 0x04; 0x03; 0x0c; 0x0a] ++ bytes "milli-quic".
Definition VALIDITY : list Z :=
  [0x30; 0x1e; 0x17; 0x0d] ++ bytes "250101000000Z" ++ [0x17; 0x0d] ++ bytes "350101000000Z".
Definition SPKI_HEADER : list Z := [0x30; 0x2a; 0x30; 0x05; 0x06; 0x03; 0x2b; 0x65; 0x70; 0x03; 0x21; 0x00].

Fixpoint put_all (l : list (list Z)) : writer unit :=
  match l with [] => mret tt | b :: l => _ ← put_slice b; put_all l end.

Definition build_ed25519_cert_der_with_san (public_key : list Z) (dns_names : list (list Z))
    (ip_addrs : list IpAddr) : M Error (list Z) Z := λ out,
  let '(r, ext) := encode_san_extensions dns_names ip_addrs (replicate 320 0) in
  match r with
  | Err e => (Err e, out)
  | Panic => (Panic, out)
  | Ok ext_len =>
      let '(r, s) := (
        _ ← put_all [VERSION; SERIAL; SIG_ALGO; NAME; VALIDITY; NAME; SPKI_HEADER];
        _ ← put_slice public_key;
        e ← lift (slice ext 0 ext_len);
        put_slice e) (replicate 512 0, 0) in
      match r with
      | Ok _ =>
          let tbs_len := s.2 in
          let tbs_wrapped := 1 + asn1_len_size tbs_len + tbs_len in
          let outer_content := tbs_wrapped + len SIG_ALGO + (3 + 64) in
          let total := 1 + asn1_len_size outer_content + outer_content in
          with_room total (
            _ ← put_u8 0x30; _ ← put_call (write_asn1_len outer_content);
            _ ← put_u8 0x30; _ ← put_call (write_asn1_len tbs_len);
            tbs ← lift (slice s.1 0 tbs_len);
            _ ← put_slice tbs;
            _ ← put_slice SIG_ALGO;
            _ ← put_u8 0x03; _ ← put_u8 0x41; _ ← put_u8 0x00;
            put_slice (replicate 64 0)) out
      | Err e => (Err e, out)
      | Panic => (Panic, out)
      end
  end.
Definition build_ed25519_cert_der (public_key : list Z) : M Error (list Z) Z :=
  build_ed25519_cert_der_with_san public_key [] [].

End Ed25519.

(** ** ECDSA P-256: [src/crypto/ecdsa_p256.rs] *)
Module P256.
Import X509.

Definition ECDSA_SECP256R1_SHA256 : Z := 0x0403.
Definition oid : list Z := [0x06; 0x08; 0x2a; 0x86; 0x48; 0xce; 0x3d; 0x03; 0x01; 0x07].

Definition parse_asn1_length (data : list Z) : result (Z * Z) :=
  if len data =? 0 then Err Tls else
  b0 ← idx data 0;
  if b0 <? 0x80 then Ok (b0, 1)
  else if b0 =? 0x81 then
    if len data <? 2 then Err Tls else b1 ← idx data 1; Ok (b1, 2)
  else if b0 =? 0x82 then
    if len data <? 3 then Err Tls else
    b1 ← idx data 1; b2 ← idx data 2; Ok (Z.lor (Z.shiftl b1 8) b2, 3)
  else Err Tls.

Fixpoint scan_key (fuel : nat) (cert : list Z) (i hi : Z) : result (list Z) :=
  if i <? hi then
    match fuel with
    | O => Panic
    | S fuel =>
        b ← idx cert i;
        if b =? 0x03 then
          d ← slice_from cert (i + 1);
          '(bit_string_len, hdr_len) ← parse_asn1_length d;
          if bit_string_len =? 66 then
            let content_start := i + 1 + hdr_len in
            padding ← Ed25519.get_byte cert content_start;
            if negb (padding =? 0) then Err Tls else
            let key_start := content_start + 1 in
            let key_end := key_start + 65 in
            if len cert <? key_end then Err Tls else slice cert key_start key_end
          else scan_key fuel cert (i + 1) hi
        else scan_key fuel cert (i + 1) hi
    end
  else Err Tls.
Definition extract_p256_pubkey_from_cert (cert : list Z) : result (list Z) :=
  match find_subsequence cert oid with
  | Some oid_pos => scan_key (length cert) cert (oid_pos + len oid) (sat_sub (len cert) 66)
  | None => Err Tls
  end.

Definition cert_has_p256_key (cert : list Z) : bool :=
  match find_subsequence cert oid with Some _ => true | None => false end.

Section P256.
Context `{Primitives}.

(** The signature goes into a vector of 128 bytes. *)
Definition sign_certificate_verify (signing_key transcript_hash : list Z) : result (list Z) :=
  if negb (len signing_key =? 32) then Err Tls else
  '(content, content_len) ← Ed25519.build_server_cv_content transcript_hash;
  c ← slice content 0 content_len;
  sig ← ok_or Tls (p256_sign signing_key c);
  if 128 <? len sig then Err Tls else Ok sig.

Definition verify_certificate_verify (public_key signature transcript_hash : list Z) : result unit :=
  '(content, content_len) ← Ed25519.build_server_cv_content transcript_hash;
  c ← slice content 0 content_len;
  if p256_verify public_key c signature then Ok tt else Err Tls.

Definition p256_public_key_from_scalar (scalar : list Z) : result (list Z) :=
  pk ← ok_or Tls (p256_public scalar);
  if 128 <? len pk then Err Tls else Ok pk.

End P256.

Definition algo_seq_inner : list Z :=
  [0x06; 0x07; 0x2a; 0x86; 0x48; 0xce; 0x3d; 0x02; 0x01;
   0x06; 0x08; 0x2a; 0x86; 0x48; 0xce; 0x3d; 0x03; 0x01; 0x07].
Definition cn_rdn : list Z :=
  [0x31; 0x13; 0x30; 0x11; 0x06; 0x03; 0x55; 0x04; 0x03; 0x0c; 0x0a] ++ bytes "milli-quic".
Definition ecdsa_sha256_algo : list Z := [0x30; 0x0a; 0x06; 0x08; 0x2a; 0x86; 0x48; 0xce; 0x3d; 0x04; 0x03; 0x02].

(** [write_asn1_length] and [asn1_length_size] of this file are the functions of
    [x509] written out again. *)
Definition build_p256_tbs_content (public_key : list Z) (dns_names : list (list Z)) (ip_addrs : list IpAddr) :
    M Error (list Z) Z := λ out,
  let b0 := if len public_key =? 65 then idx (E:=Error) public_key 0 else Ok 0 in
  match b0 with
  | Ok b0 =>
      if negb (len public_key =? 65) || negb (b0 =? 0x04) then (Err Tls, out) else
      let algo_seq_len := len algo_seq_inner in
      let bit_string_len := 1 + 65 in
      let spki_inner_len := (2 + algo_seq_len) + (2 + bit_string_len) in
      from_start (
        _ ← put_slice Ed25519.VERSION;
        _ ← put_slice Ed25519.SERIAL;
        _ ← put_slice ecdsa_sha256_algo;
        _ ← put_slice [0x30; 0x15]; _ ← put_slice cn_rdn;
        _ ← put_slice Ed25519.VALIDITY;
        _ ← put_slice [0x30; 0x15]; _ ← put_slice cn_rdn;
        _ ← put_u8 0x30; _ ← put_call (write_asn1_len spki_inner_len);
        _ ← put_u8 0x30; _ ← put_u8 (trunc 8 algo_seq_len); _ ← put_slice algo_seq_inner;
        _ ← put_u8 0x03; _ ← put_u8 (trunc 8 bit_string_len); _ ← put_u8 0x00;
        _ ← put_slice public_key;
        put_call (encode_san_extensions dns_names ip_addrs)) out
  | _ => (Panic, out)
  end.

Definition wrap_tbs_seq (content : list Z) : M Error (list Z) Z :=
  with_room (1 + asn1_len_size (len content) + len content) (
    _ ← put_u8 0x30; _ ← put_call (write_asn1_len (len content)); put_slice content).

Definition assemble_p256_cert (tbs_seq sig : list Z) : M Error (list Z) Z :=
  let sig_bitstring_len := 1 + len sig in
  let outer_content_len := len tbs_seq + len ecdsa_sha256_algo + 1 + asn1_len_size sig_bitstring_len + sig_bitstring_len in
  let total := 1 + asn1_len_size outer_content_len + outer_content_len in
  with_room total (
    _ ← put_u8 0x30; _ ← put_call (write_asn1_len outer_content_len);
    _ ← put_slice tbs_seq;
    _ ← put_slice ecdsa_sha256_algo;
    _ ← put_u8 0x03; _ ← put_call (write_asn1_len sig_bitstring_len);
    _ ← put_u8 0x00;
    put_slice sig).

Definition tbs_of (public_key : list Z) (dns_names : list (list Z)) (ip_addrs : list IpAddr) : result (list Z) :=
  content ← scratch 512 (build_p256_tbs_content public_key dns_names ip_addrs);
  scratch 600 (wrap_tbs_seq content).

Definition build_p256_cert_der_with_san (public_key : list Z) (dns_names : list (list Z)) (ip_addrs : list IpAddr) :
    M Error (list Z) Z :=
  tbs_seq ← lift (tbs_of public_key dns_names ip_addrs);
  assemble_p256_cert tbs_seq (replicate 8 0xAA).
Definition build_p256_cert_der (public_key : list Z) : M Error (list Z) Z :=
  build_p256_cert_der_with_san public_key [] [].

Definition build_p256_self_signed_cert_der_with_san `{Primitives} (scalar : list Z) (dns_names : list (list Z))
    (ip_addrs : list IpAddr) : M Error (list Z) Z :=
  public_key ← lift (p256_public_key_from_scalar scalar);
  tbs_seq ← lift (tbs_of public_key dns_names ip_addrs);
  signature ← lift (ok_or Tls (p256_sign scalar tbs_seq));
  assemble_p256_cert tbs_seq signature.

End P256.

(** ** DER is written as laid out *)

Import X509.

Definition der (n : Z) : list Z :=
  if n <? 0x80 then [n] else if n <? 0x100 then [0x81; n] else [0x82; n / 256; n mod 256].
Arguments der : simpl never.
Lemma len_der n : len (der n) = asn1_len_size n.
Proof. unfold der, asn1_len_size. by repeat case_match. Qed.

Lemma Puts_call f bs :
  (∀ buf, len bs ≤ len buf → f buf = (Ok (len bs), bs ++ drop (length bs) buf)) → Puts (put_call f) bs.
Proof.
  intros Hf done rest Hl. unfold put_call; cbn [fst snd]. rewrite with_from_app by done. rewrite Hf by done. cbn [fst snd].
  rewrite app_assoc. do 2 f_equal. len_lia.
Qed.
Lemma write_len_ok n buf :
  0 ≤ n < 2 ^ 16 → len (der n) ≤ len buf → write_asn1_len n buf = (Ok (len (der n)), der n ++ drop (length (der n)) buf).
Proof.
  intros Hn Hl. unfold write_asn1_len. rewrite (with_room_ok _ _ (der n)); [by rewrite decide_True| |by rewrite len_der].
  unfold der, asn1_len_size. destruct (Z.ltb_spec n 0x80); [|destruct (Z.ltb_spec n 0x100)]; cbn [Z.eqb Pos.eqb].
  - rewrite trunc_small by (unfold uint; lia). apply Puts_u8.
  - rewrite trunc_small by (unfold uint; lia). apply (Puts_bind _ _ [_] [_]); apply Puts_u8.
  - assert (trunc 8 (Z.shiftr n 8) = n / 256) as ->
      by (rewrite Z.shiftr_div_pow2 by lia; change (2 ^ 8) with 256; apply trunc_small;
        split; [apply Z.div_pos; lia|apply Z.div_lt_upper_bound; lia]).
    change (trunc 8 n) with (n mod 256).
    apply (Puts_bind _ _ [_] [_; _]); [apply Puts_u8|]. apply (Puts_bind _ _ [_] [_]); apply Puts_u8.
Qed.
Lemma Puts_len n : 0 ≤ n < 2 ^ 16 → Puts (put_call (write_asn1_len n)) (der n).
Proof. intros Hn. apply Puts_call. intros. by apply write_len_ok. Qed.
Lemma len_der_bound n : 1 ≤ len (der n) ≤ 3.
Proof. rewrite len_der. unfold asn1_len_size. repeat case_match; lia. Qed.

(** An element: tag, length, contents. *)
Definition wrap (tag : Z) (d : list Z) : list Z := [tag] ++ der (len d) ++ d.
Arguments wrap : simpl never.
Lemma len_wrap tag d : len (wrap tag d) = 1 + asn1_len_size (len d) + len d.
Proof. unfold wrap. rewrite <- len_der. len_lia. Qed.
Lemma wrap_bound tag d : len (wrap tag d) ≤ 4 + len d.
Proof. rewrite len_wrap, <- len_der. pose proof (len_der_bound (len d)). lia. Qed.

Lemma scratch_ok n f bs :
  f (replicate n 0) = (Ok (len bs), bs ++ drop (length bs) (replicate n 0)) → scratch n f = Ok bs.
Proof.
  intros Hf. unfold scratch. rewrite Hf. by apply slice_head.
Qed.

(** The general names, and whether they fit. *)
Definition names_wire (tag : Z) (l : list (list Z)) : list Z := mjoin ((λ b, tag :: len b :: b) <$> l).
Definition san_names (dns : list (list Z)) (ips : list IpAddr) : list Z :=
  names_wire 0x82 dns ++ names_wire 0x87 (octets <$> ips).
Definition names_ok (dns : list (list Z)) (ips : list IpAddr) : Prop :=
  Forall (λ b, len b ≤ 255) dns ∧ Forall (λ ip, len (octets ip) ≤ 255) ips ∧ len (san_names dns ips) ≤ 256.

Lemma Writes_names tag l : Forall (λ b, len b ≤ 255) l → Writes (put_names tag l) (names_wire tag l).
Proof.
  induction 1 as [|b l Hb _ IH]; [apply Writes_ret|]. cbn [put_names]. apply Writes_bind; [|exact IH].
  unfold put_general_name. rewrite (proj2 (Z.ltb_ge _ _)) by lia. rewrite trunc_small by (unfold uint; lia).
  apply Writes_room; [|len_lia]. apply (Puts_bind _ _ [_] (_ :: _)); [apply Puts_u8|].
  apply (Puts_bind _ _ [_]); [apply Puts_u8|apply Puts_slice].
Qed.

Lemma san_ok dns ips :
  names_ok dns ips →
  ∃ w, len w ≤ 281 ∧ ∀ buf, len w ≤ len buf → encode_san_extensions dns ips buf = (Ok (len w), w ++ drop (length w) buf).
Proof.
  intros (Hd & Hi & Hn). unfold encode_san_extensions. destruct (_ && _) eqn:Hz.
  { exists []. split; [done|]. intros buf _. by rewrite drop_0. }
  set (ns := san_names dns ips) in *.
  destruct (Writes_start (_ ← put_names 0x82 dns; put_names 0x87 (octets <$> ips)) ns (replicate 256 0)) as [Hw _].
  { apply Writes_bind; apply Writes_names; [done|]. by apply Forall_fmap. }
  rewrite Hw by (rewrite length_replicate; lia). cbn [fst snd].
  cbv zeta. rewrite <- (len_wrap 0x30 ns). set (gn := wrap 0x30 ns). rewrite <- (len_wrap 0x04 gn), <- Nat2Z.inj_add, <- length_app.
  set (oct := SAN_OID ++ wrap 0x04 gn). rewrite <- (len_wrap 0x30 oct). set (es := wrap 0x30 oct).
  rewrite <- (len_wrap 0x30 es). set (xs := wrap 0x30 es). rewrite <- (len_wrap 0xa3 xs).
  assert (len gn ≤ 260 ∧ len oct ≤ 269 ∧ len es ≤ 273 ∧ len xs ≤ 277) as (? & ? & ? & ?).
  { pose proof (wrap_bound 0x30 ns). fold gn in H. pose proof (wrap_bound 0x04 gn).
    assert (len oct = 5 + len (wrap 0x04 gn)) by (unfold oct; rewrite length_app; change (length SAN_OID) with 5%nat; lia).
    pose proof (wrap_bound 0x30 oct). fold es in H2. pose proof (wrap_bound 0x30 es). fold xs in H3. lia. }
  exists (wrap 0xa3 xs). split; [pose proof (wrap_bound 0xa3 xs); lia|]. intros buf Hb.
  rewrite (with_room_ok _ _ (wrap 0xa3 xs)); [by rewrite decide_True| |done].
  assert (wrap 0xa3 xs = [0xa3] ++ der (len xs) ++ [0x30] ++ der (len es) ++ [0x30] ++ der (len oct) ++
    SAN_OID ++ [0x04] ++ der (len gn) ++ [0x30] ++ der (len ns) ++ ns) as -> by done.
  repeat first [apply Puts_u8|apply Puts_slice|apply Puts_len; lia|apply Puts_bind].
  eapply Puts_lift; [by apply slice_head|apply Puts_slice].
Qed.

(** ** Keys are found again *)

Lemma find_shift needle h i k : find_at needle h (i + k) = (λ j, j + k) <$> find_at needle h i.
Proof.
  revert i. induction h as [|x h IH]; intros i; cbn [find_at]; case_bool_decide; try done.
  replace (i + k + 1) with (i + 1 + k) by lia. apply IH.
Qed.
Lemma find_fits needle h i j : find_at needle h i = Some j → (length needle ≤ length h)%nat.
Proof.
  revert i. induction h as [|x h IH]; intros i; cbn [find_at]; case_bool_decide as Hm; try done.
  - intros _. rewrite take_nil in Hm. by rewrite <- Hm.
  - intros _. rewrite <- Hm at 1. rewrite length_take. lia.
  - intros Hf. apply IH in Hf. simpl. lia.
Qed.
Lemma find_app needle h rest i j : find_at needle h i = Some j → find_at needle (h ++ rest) i = Some j.
Proof.
  revert i. induction h as [|x h IH]; intros i Hf; pose proof (find_fits _ _ _ _ Hf) as Hl; cbn [find_at] in Hf.
  - destruct needle; [|simpl in Hl; lia]. rewrite bool_decide_eq_true_2 in Hf by done.
    destruct rest; cbn [app find_at]; by rewrite bool_decide_eq_true_2.
  - cbn [app find_at]. change (x :: h ++ rest) with ((x :: h) ++ rest). rewrite take_app_le by done.
    case_bool_decide; [done|]. by apply IH.
Qed.

(** One byte that starts no match. *)
Lemma find_skip needle x h i j :
  take (length needle) (x :: h) ≠ needle → find_at needle h 0 = Some j → find_at needle (x :: h) i = Some (i + 1 + j).
Proof.
  intros Hm Hf. cbn [find_at]. rewrite bool_decide_eq_false_2 by done.
  replace (i + 1) with (0 + (i + 1)) at 1 by lia. rewrite find_shift, Hf. simpl. f_equal. lia.
Qed.

Ltac find_step := eapply find_skip; [simpl; intros [=]; congruence|].

(** A length hides no object identifier. *)
Lemma find_der n1 n2 needle n c h j :
  n1 ≠ c → n2 ≠ c → find_at (6 :: n1 :: n2 :: needle) (c :: h) 0 = Some j →
  find_at (6 :: n1 :: n2 :: needle) (der n ++ c :: h) 0 = Some (len (der n) + j).
Proof.
  intros C1 C2 Hf. unfold der. repeat case_match; cbn [app length];
    (eapply eq_trans; [repeat find_step; exact Hf|f_equal; lia]).
Qed.
Lemma find_wrapped n1 n2 needle a b c h j :
  n1 ≠ c → n2 ≠ c → n1 ≠ 0x30 → n2 ≠ 0x30 → find_at (6 :: n1 :: n2 :: needle) (c :: h) 0 = Some j →
  find_at (6 :: n1 :: n2 :: needle) ([0x30] ++ der a ++ [0x30] ++ der b ++ c :: h) 0 =
  Some (2 + len (der a) + len (der b) + j).
Proof.
  intros C1 C2 D1 D2 Hf. cbn [app].
  eapply eq_trans; [find_step; apply find_der; [done..|]; find_step; by apply find_der|f_equal; lia].
Qed.

(** Bytes in which the scan finds no key. *)
Fixpoint barren (l : list Z) : bool :=
  match l with
  | [] => true
  | [b] => negb (b =? 3)
  | b :: (b' :: _) as l' => negb ((b =? 3) && (b' =? 33)) && barren l'
  end.

Import Messages.

Lemma get_byte_At cert i b rest : At cert i (b :: rest) → Ed25519.get_byte cert i = Ok b.
Proof.
  intros Ha. pose proof (idx_At _ _ _ _ Ha) as Hi. unfold idx in Hi. unfold Ed25519.get_byte.
  case_decide; [|done]. rewrite (proj2 (Z.leb_le _ _)) by lia. by destruct (cert !! Z.to_nat i); simplify_eq/=.
Qed.
Lemma scan_barren cert l rest i hi f :
  barren l = true → At cert i (l ++ rest) → i + len l ≤ hi →
  Ed25519.scan_key (length l + f) cert i hi = Ed25519.scan_key f cert (i + len l) hi.
Proof.
  revert i. induction l as [|b l IH]; intros i Hb Ha Hi; [simpl; f_equal; lia|].
  cbn [length Nat.add Ed25519.scan_key]. rewrite length_cons in Hi. rewrite (proj2 (Z.ltb_lt _ _)) by lia. cbn [app] in Ha.
  rewrite (idx_At _ _ _ _ Ha). cbn [mbind res_bind]. pose proof Ha as Ha'. apply At_cons with (off' := i + 1) in Ha'; [|done].
  assert (barren l = true ∧ (b = 3 → ∃ b' l', l = b' :: l' ∧ b' ≠ 33)) as [Hb' Hbad].
  { destruct l as [|b' l']; cbn [barren] in Hb.
    - split; [done|]. intros ->. done.
    - apply andb_true_iff in Hb as [Hn Hb]. split; [done|]. intros ->. exists b', l'. split; [done|]. intros ->. done. }
  replace (i + Z.of_nat (S (length l))) with (i + 1 + len l) by lia.
  destruct (Z.eqb_spec b 3) as [->|]; [|apply IH; [done..|lia]].
  destruct (Hbad eq_refl) as (b' & l' & -> & Hne). rewrite (get_byte_At _ _ _ _ Ha'). cbn [mbind res_bind].
  rewrite (proj2 (Z.eqb_neq _ _)) by done. apply IH; [done..|lia].
Qed.

Definition ed25519_tbs (pk ext : list Z) : list Z :=
  (Ed25519.VERSION ++ Ed25519.SERIAL ++ Ed25519.SIG_ALGO ++ Ed25519.NAME ++ Ed25519.VALIDITY ++ Ed25519.NAME ++
   Ed25519.SPKI_HEADER) ++ pk ++ ext.
Definition ed25519_cert (pk ext : list Z) : list Z :=
  let tbs := ed25519_tbs pk ext in
  let content := [0x30] ++ der (len tbs) ++ tbs ++ Ed25519.SIG_ALGO ++ [0x03] ++ [0x41] ++ [0x00] ++ replicate 64 0 in
  [0x30] ++ der (len content) ++ content.

Lemma build_ed25519_ok pk dns ips :
  len pk = 32 → names_ok dns ips →
  ∃ ext, len ext ≤ 281 ∧ let cert := ed25519_cert pk ext in
    len cert ≤ 512 ∧ ∀ out, len cert ≤ len out →
    Ed25519.build_ed25519_cert_der_with_san pk dns ips out = (Ok (len cert), cert ++ drop (length cert) out).
Proof.
  intros Hpk Hn. destruct (san_ok dns ips Hn) as (ext & Hx & Hsan). exists ext. split; [done|].
  assert (len (ed25519_tbs pk ext) = 137 + len ext) as Ht.
  { unfold ed25519_tbs. rewrite !length_app. change (length Ed25519.VERSION) with 5%nat. change (length Ed25519.SERIAL) with 3%nat.
    change (length Ed25519.SIG_ALGO) with 7%nat. change (length Ed25519.NAME) with 23%nat. change (length Ed25519.VALIDITY) with 32%nat.
    change (length Ed25519.SPKI_HEADER) with 12%nat. lia. }
  unfold ed25519_cert. cbv zeta. remember (ed25519_tbs pk ext) as tbs eqn:Etbs. remember (Ed25519.SIG_ALGO ++ [0x03] ++ [0x41] ++ [0x00] ++ replicate 64 0) as tail eqn:Etail.
  assert (length tail = 74%nat) as Htail by (by rewrite Etail).
  remember ([48] ++ der (len tbs) ++ tbs ++ tail) as content eqn:Econtent.
  assert (len content = 1 + asn1_len_size (len tbs) + len tbs + 74) as Hc.
  { rewrite Econtent, !length_app, Htail, <- len_der, !Nat2Z.inj_add. change (len [48]) with 1. lia. }
  pose proof (len_der_bound (len tbs)). pose proof (len_der_bound (len content)).
  pose proof Hc as Hc'. rewrite <- len_der in Hc'.
  split; [rewrite !length_app, !Nat2Z.inj_add; change (len [48]) with 1; lia|].
  intros out Ho. unfold Ed25519.build_ed25519_cert_der_with_san. rewrite Hsan by (rewrite length_replicate; lia).
  assert (Puts (_ ← Ed25519.put_all [Ed25519.VERSION; Ed25519.SERIAL; Ed25519.SIG_ALGO; Ed25519.NAME; Ed25519.VALIDITY; Ed25519.NAME; Ed25519.SPKI_HEADER];
        _ ← put_slice pk; e ← lift (slice (ext ++ drop (length ext) (replicate 320 0)) 0 (len ext)); put_slice e) tbs) as Hp.
  { rewrite Etbs. unfold ed25519_tbs. apply Puts_bind; [|apply Puts_bind; [apply Puts_slice|]].
    - cbn [Ed25519.put_all]. repeat (apply Puts_bind; [apply Puts_slice|]). rewrite <- (app_nil_r Ed25519.SPKI_HEADER).
      apply Puts_bind; [apply Puts_slice|apply Puts_ret].
    - eapply Puts_lift; [by apply slice_head|apply Puts_slice]. }
  specialize (Hp [] (replicate 512 0)). rewrite !app_nil_l in Hp. change (len []) with 0 in Hp.
  rewrite Hp by (rewrite length_replicate; lia). cbn [fst snd]. change (len Ed25519.SIG_ALGO) with 7.
  replace (1 + asn1_len_size (len tbs) + len tbs + 7 + (3 + 64)) with (len content) by lia.
  rewrite (with_room_ok _ _ ([48] ++ der (len content) ++ content)); [by rewrite decide_True| |].
  2: { rewrite !length_app, <- len_der, !Nat2Z.inj_add. change (len [48]) with 1. lia. }
  rewrite Econtent at 2. repeat first [apply Puts_u8|apply Puts_slice|apply Puts_len; lia|apply Puts_bind].
  eapply Puts_lift; [by apply slice_head|]. apply Puts_bind; [apply Puts_slice|].
  rewrite Etail. apply Puts_bind; [apply Puts_slice|]. repeat (apply Puts_bind; [apply Puts_u8|]). apply Puts_slice.
Qed.

Lemma extract_ed25519_ok pk ext :
  len pk = 32 → len ext ≤ 281 → Ed25519.extract_ed25519_pubkey_from_cert (ed25519_cert pk ext) = Ok pk.
Proof.
  intros Hpk Hx. set (cert := ed25519_cert pk ext). unfold Ed25519.extract_ed25519_pubkey_from_cert.
  set (pre := Ed25519.VERSION ++ Ed25519.SERIAL ++ [0x30; 0x05]).
  set (mid := Ed25519.NAME ++ Ed25519.VALIDITY ++ Ed25519.NAME ++ take 9 Ed25519.SPKI_HEADER).
  set (tl := pk ++ ext ++ Ed25519.SIG_ALGO ++ [0x03] ++ [0x41] ++ [0x00] ++ replicate 64 0).
  assert (∃ a b, cert = [0x30] ++ der a ++ [0x30] ++ der b ++ pre ++ Ed25519.oid ++ mid ++ [0x03; 0x21; 0x00] ++ tl) as (a & b & Hcert).
  { do 2 eexists. unfold cert, ed25519_cert, ed25519_tbs. unfold tl. rewrite <- !app_assoc. reflexivity. }
  assert (100 ≤ len tl ∧ ∃ r, tl = pk ++ r) as (Htl & r & Er).
  { split; [|by eexists]. unfold tl. rewrite !length_app, length_replicate. change (length Ed25519.SIG_ALGO) with 7%nat. lia. }
  assert (find_at Ed25519.oid cert 0 = Some (2 + len (der a) + len (der b) + len pre)) as Hfind.
  { rewrite Hcert. change pre with (0xa0 :: drop 1 pre). cbn [app]. apply find_wrapped; [done..|].
    change (0xa0 :: drop 1 pre ++ ?x) with (pre ++ x). rewrite app_assoc. apply find_app. vm_compute. done. }
  assert (length mid = 87%nat ∧ barren mid = true) as [Hmid Hbarren] by done. assert (len Ed25519.oid = 5) as Hoid by done.
  clearbody cert pre mid tl. set (off := 2 + len (der a) + len (der b) + len pre) in *.
  assert (At cert (off + 5) (mid ++ [0x03; 0x21; 0x00] ++ tl)) as Ha.
  { pose proof (At_start cert) as Ha. rewrite Hcert in Ha at 2. do 6 (eapply At_app in Ha; [|reflexivity]).
    replace (off + 5) with (0 + len [48] + len (der a) + len [48] + len (der b) + len pre + len Ed25519.oid); [done|].
    rewrite Hoid. change (len [48]) with 1. unfold off. lia. }
  pose proof (At_len _ _ _ Ha) as Hlen. rewrite !length_app, Hmid in Hlen. assert (0 ≤ off) by (unfold off; lia). clearbody off.
  unfold find_subsequence. rewrite Hoid, (proj2 (Z.ltb_ge _ _)) by lia. cbn [Z.eqb orb]. rewrite Hfind.
  replace (length cert) with (length mid + S (length cert - length mid - 1))%nat by lia.
  rewrite (scan_barren _ mid ([0x03; 0x21; 0x00] ++ tl)); [|done|done|unfold sat_sub; lia].
  apply At_app with (off' := off + 5 + len mid) in Ha; [|done]. cbn [Ed25519.scan_key].
  rewrite (proj2 (Z.ltb_lt _ _)) by (unfold sat_sub; lia).
  cbn [app] in Ha. rewrite (idx_At _ _ _ _ Ha). cbn [mbind res_bind Z.eqb Pos.eqb].
  apply At_cons with (off' := off + 5 + len mid + 1) in Ha; [|done]. rewrite (get_byte_At _ _ _ _ Ha). cbn [mbind res_bind Z.eqb Pos.eqb].
  apply At_cons with (off' := off + 5 + len mid + 2) in Ha; [|lia]. rewrite (get_byte_At _ _ _ _ Ha). cbn [mbind res_bind Z.eqb Pos.eqb negb].
  apply At_cons with (off' := off + 5 + len mid + 3) in Ha; [|lia]. pose proof (At_len _ _ _ Ha).
  rewrite (proj2 (Z.ltb_ge _ _)) by lia. rewrite Er in Ha. apply (slice_At _ _ _ _ _ Ha). lia.
Qed.

Definition p256_head : list Z :=
  Ed25519.VERSION ++ Ed25519.SERIAL ++ P256.ecdsa_sha256_algo ++ [0x30; 0x15] ++ P256.cn_rdn ++ Ed25519.VALIDITY ++
  [0x30; 0x15] ++ P256.cn_rdn ++ [0x30] ++ [89] ++ [0x30] ++ [19] ++ P256.algo_seq_inner ++ [0x03] ++ [66] ++ [0x00].
Definition p256_tbs (pk ext : list Z) : list Z := wrap 0x30 (p256_head ++ pk ++ ext).
Definition p256_cert (pk ext sig : list Z) : list Z :=
  wrap 0x30 (p256_tbs pk ext ++ P256.ecdsa_sha256_algo ++ wrap 0x03 ([0x00] ++ sig)).

Lemma tbs_of_ok pk dns ips :
  len pk = 65 → pk !! 0%nat = Some 4 → names_ok dns ips →
  ∃ ext, len ext ≤ 281 ∧ P256.tbs_of pk dns ips = Ok (p256_tbs pk ext).
Proof.
  intros Hpk H4 Hn. destruct (san_ok dns ips Hn) as (ext & Hx & Hsan). exists ext. split; [done|].
  unfold P256.tbs_of. assert (length p256_head = 189%nat - 65)%nat as Hh by done.
  assert (len (p256_head ++ pk ++ ext) = 189 + len ext) as Hl by (rewrite !length_app, Hh; lia).
  erewrite (scratch_ok _ _ (p256_head ++ pk ++ ext)).
  - cbn [mbind res_bind]. apply scratch_ok. unfold P256.wrap_tbs_seq.
    rewrite (with_room_ok _ _ (p256_tbs pk ext)); [|unfold p256_tbs, wrap|by rewrite <- (len_wrap 0x30)].
    + rewrite decide_True; [done|]. rewrite length_replicate. pose proof (wrap_bound 0x30 (p256_head ++ pk ++ ext)). unfold p256_tbs. lia.
    + repeat first [apply Puts_u8|apply Puts_slice|apply Puts_len; lia|apply Puts_bind].
  - unfold P256.build_p256_tbs_content. rewrite (proj2 (Z.eqb_eq _ _)) by done.
    destruct pk as [|b pk]; [done|]. simpl in H4. simplify_eq.
    assert (idx (E:=Error) (4 :: pk) 0 = Ok 4) as -> by (unfold idx; case_decide as Hd; [done|]; simpl in Hd; lia).
    cbn [negb orb Z.eqb Pos.eqb]. apply Puts_start; [|rewrite Hl, length_replicate; lia].
    unfold p256_head. rewrite <- !app_assoc. change [89] with (der (2 + len P256.algo_seq_inner + (2 + (1 + 65)))).
    repeat (apply Puts_bind; [first [apply Puts_u8|apply Puts_slice|apply Puts_len; simpl; lia]|]).
    by apply Puts_call.
Qed.

Lemma assemble_ok tbs sig :
  len tbs ≤ 600 → len sig ≤ 200 →
  let cert := wrap 0x30 (tbs ++ P256.ecdsa_sha256_algo ++ wrap 0x03 ([0x00] ++ sig)) in
  ∀ out, len cert ≤ len out → P256.assemble_p256_cert tbs sig out = (Ok (len cert), cert ++ drop (length cert) out).
Proof.
  intros Ht Hs cert out Ho. unfold P256.assemble_p256_cert.
  assert (len P256.ecdsa_sha256_algo = 12) as Ha by done.
  assert (1 + len sig = len ([0x00] ++ sig)) as -> by (rewrite length_app; simpl length; lia).
  assert (len tbs + len P256.ecdsa_sha256_algo + 1 + asn1_len_size (len ([0] ++ sig)) + len ([0] ++ sig) =
          len (tbs ++ P256.ecdsa_sha256_algo ++ wrap 0x03 ([0x00] ++ sig))) as ->.
  { rewrite (length_app tbs), (length_app P256.ecdsa_sha256_algo), !Nat2Z.inj_add, len_wrap. lia. }
  rewrite <- (len_wrap 0x30). fold cert. rewrite (with_room_ok _ _ cert); [by rewrite decide_True| |done].
  assert (len ([0x00] ++ sig) ≤ 201) as Hz by (rewrite length_app, Nat2Z.inj_add; change (len [0]) with 1; lia).
  pose proof (wrap_bound 0x03 ([0x00] ++ sig)) as Hw.
  assert (len (tbs ++ P256.ecdsa_sha256_algo ++ wrap 0x03 ([0x00] ++ sig)) ≤ 900) by (rewrite !(length_app _ (_ ++ _)), length_app, !Nat2Z.inj_add; lia).
  unfold cert, wrap. repeat first [apply Puts_u8|apply Puts_slice|apply Puts_len; unfold wrap in *; lia|apply Puts_bind].
Qed.

Lemma extract_p256_ok pk ext sig :
  len pk = 65 → P256.extract_p256_pubkey_from_cert (p256_cert pk ext sig) = Ok pk ∧
  P256.cert_has_p256_key (p256_cert pk ext sig) = true.
Proof.
  intros Hpk. set (cert := p256_cert pk ext sig). unfold P256.extract_p256_pubkey_from_cert, P256.cert_has_p256_key.
  set (pre := take 111 p256_head). set (tl := pk ++ ext ++ P256.ecdsa_sha256_algo ++ wrap 0x03 ([0x00] ++ sig)).
  assert (∃ a b, cert = [0x30] ++ der a ++ [0x30] ++ der b ++ pre ++ P256.oid ++ [0x03; 66; 0x00] ++ tl) as (a & b & Hcert).
  { do 2 eexists. unfold cert, p256_cert, p256_tbs. unfold wrap at 1 2. unfold tl. rewrite <- !app_assoc. reflexivity. }
  assert (77 ≤ len tl ∧ ∃ r, tl = pk ++ r) as (Htl & r & Er).
  { split; [|by eexists]. unfold tl. rewrite !length_app. change (length P256.ecdsa_sha256_algo) with 12%nat. lia. }
  assert (find_at P256.oid cert 0 = Some (2 + len (der a) + len (der b) + len pre)) as Hfind.
  { rewrite Hcert. change pre with (0xa0 :: drop 1 pre). cbn [app]. apply find_wrapped; [done..|].
    change (0xa0 :: drop 1 pre ++ ?x) with (pre ++ x). rewrite app_assoc. apply find_app. vm_compute. done. }
  assert (len P256.oid = 10) as Hoid by done.
  clearbody cert pre tl. set (off := 2 + len (der a) + len (der b) + len pre) in *.
  assert (At cert (off + 10) ([0x03; 66; 0x00] ++ tl)) as Ha.
  { pose proof (At_start cert) as Ha. rewrite Hcert in Ha at 2. do 6 (eapply At_app in Ha; [|reflexivity]).
    replace (off + 10) with (0 + len [48] + len (der a) + len [48] + len (der b) + len pre + len P256.oid); [done|].
    rewrite Hoid. change (len [48]) with 1. unfold off. lia. }
  pose proof (At_len _ _ _ Ha) as Hlen. rewrite !length_app in Hlen. simpl length in Hlen. assert (0 ≤ off) by (unfold off; lia). clearbody off.
  unfold find_subsequence. rewrite Hoid, (proj2 (Z.ltb_ge _ _)) by lia. cbn [Z.eqb orb]. rewrite Hfind. split; [|done].
  destruct (length cert) as [|f] eqn:Hf; [lia|]. cbn [P256.scan_key].
  rewrite (proj2 (Z.ltb_lt _ _)) by (unfold sat_sub; lia). cbn [app] in Ha. rewrite (idx_At _ _ _ _ Ha). cbn [mbind res_bind Z.eqb Pos.eqb].
  apply At_cons with (off' := off + 10 + 1) in Ha; [|done]. rewrite slice_from_eq by lia. cbn [mbind res_bind].
  assert (drop (Z.to_nat (off + 10 + 1)) cert = 66 :: 0 :: tl) as ->
    by (destruct Ha as (_ & q & -> & <-); by rewrite Nat2Z.id, drop_app_length).
  assert (P256.parse_asn1_length (66 :: 0 :: tl) = Ok (66, 1)) as -> by done. cbn [mbind res_bind Z.eqb Pos.eqb].
  apply At_cons with (off' := off + 10 + 1 + 1) in Ha; [|done]. rewrite (get_byte_At _ _ _ _ Ha). cbn [mbind res_bind Z.eqb negb].
  apply At_cons with (off' := off + 10 + 1 + 1 + 1) in Ha; [|lia]. pose proof (At_len _ _ _ Ha).
  rewrite (proj2 (Z.ltb_ge _ _)) by lia. rewrite Er in Ha. apply (slice_At _ _ _ _ _ Ha). lia.
Qed.

(** The crate finds its own keys.  A certificate built for an Ed25519 or a
    P-256 key, with any names that fit, is written whole into a buffer with room,
    and the extraction a TLS client runs on it returns exactly that key (although
    it only searches for an object identifier and a BIT STRING of the right
    length); the server recognises the P-256 certificate as such. *)
Theorem certificate_keys_found pk pk' dns ips :
  len pk = 32 → len pk' = 65 → pk' !! 0%nat = Some 4 → names_ok dns ips →
  (∃ cert, len cert ≤ 512 ∧ Ed25519.extract_ed25519_pubkey_from_cert cert = Ok pk ∧
     ∀ out, len cert ≤ len out → Ed25519.build_ed25519_cert_der_with_san pk dns ips out =
       (Ok (len cert), cert ++ drop (length cert) out)) ∧
  (∃ cert, len cert ≤ 512 ∧ P256.extract_p256_pubkey_from_cert cert = Ok pk' ∧ P256.cert_has_p256_key cert = true ∧
     ∀ out, len cert ≤ len out → P256.build_p256_cert_der_with_san pk' dns ips out =
       (Ok (len cert), cert ++ drop (length cert) out)).
Proof.
  intros Hpk Hpk' H4 Hn. split.
  - destruct (build_ed25519_ok pk dns ips Hpk Hn) as (ext & Hx & Hl & Hb). eexists. split; [exact Hl|].
    split; [by apply extract_ed25519_ok|exact Hb].
  - destruct (tbs_of_ok pk' dns ips Hpk' H4 Hn) as (ext & Hx & Ht). exists (p256_cert pk' ext (replicate 8 0xAA)).
    destruct (extract_p256_ok pk' ext (replicate 8 0xAA) Hpk') as [He Hh].
    assert (len (p256_tbs pk' ext) ≤ 474) as Htl.
    { unfold p256_tbs. pose proof (wrap_bound 0x30 (p256_head ++ pk' ++ ext)) as Hw.
      assert (len (p256_head ++ pk' ++ ext) = 189 + len ext)
        by (rewrite !length_app; change (length p256_head) with 124%nat; lia). lia. }
    split; [|split; [done|split; [done|]]].
    + unfold p256_cert. set (content := p256_tbs pk' ext ++ P256.ecdsa_sha256_algo ++ wrap 3 ([0] ++ replicate 8 170)).
      pose proof (wrap_bound 0x30 content) as Hw.
      assert (len content = len (p256_tbs pk' ext) + 12 + 11) by (unfold content; rewrite !(length_app (p256_tbs pk' ext)), Nat2Z.inj_add;
        change (length (P256.ecdsa_sha256_algo ++ wrap 3 ([0] ++ replicate 8 170))) with 23%nat; lia). lia.
    + intros out Ho. unfold P256.build_p256_cert_der_with_san. erewrite M_step_lift by exact Ht.
      apply assemble_ok; [lia|simpl; lia|exact Ho].
Qed.
