(* ===== verification/TlsHandshake.v ===== *)
(** * TLS 1.3 handshake engine: [src/tls/handshake.rs], [src/tls/mod.rs]

    The client and server state machines over the message codecs, the key
    schedule and the certificates.  The engine holds the buffers, secrets and
    transcript of one handshake. *)
From S2P Require Import Prelude Errors Varint Cursor Buf TlsParams TlsMessages TlsExtensions Recovery Crypto Certificate.

(** [DerivedKeys]. *)
Record DerivedKeys := MkDerivedKeys {
  level : Level.t;
  keys_suite : CipherSuite.t;
  send_secret : list Z;
  recv_secret : list Z;
  secret_len : Z
}.

Module Tls.
Import Messages Extensions.

Inductive Role : Type := Client | Server.
Global Instance tls_role_eq_dec : EqDecision Role.
Proof. solve_decision. Defined.

Inductive HandshakeState : Type :=
| Start
| WaitServerHello
| WaitEncryptedExtensions
| WaitCertificate
| WaitCertificateVerify
| WaitFinished
| SendFinished
| WaitClientHello
| SendServerFlightInitial
| SendServerFlightHandshake
| WaitClientFinished
| Complete.
Global Instance tls_state_eq_dec : EqDecision HandshakeState.
Proof. solve_decision. Defined.

Record TlsConfig := {
  config_server_name : list Z;
  config_alpn : list (list Z);
  config_params : TransportParams.t;
  config_pinned : list (list Z)
}.
Record ServerTlsConfig := {
  config_cert_der : list Z;
  config_private_key : list Z;
  config_server_alpn : list (list Z);
  config_server_params : TransportParams.t
}.

(** [TlsEngine]. *)
Record t := Mk {
  role : Role;
  state : HandshakeState;
  private_key : list Z;
  public_key : list Z;
  client_random : list Z;
  cipher_suite : option CipherSuite.t;
  key_schedule : TlsKeySchedule.t;
  client_handshake_secret : list Z;
  server_handshake_secret : list Z;
  client_app_secret : list Z;
  server_app_secret : list Z;
  transcript : list Z;
  pending_write : Buf.t;
  pending_level : Level.t;
  pending_write_hs : Buf.t;
  pending_keys : option DerivedKeys;
  server_name : list Z;
  engine_alpn : list (list Z);
  params : TransportParams.t;
  peer_params : option TransportParams.t;
  local_record_size_limit : option Z;
  peer_record_size_limit : option Z;
  negotiated_alpn : option (list Z);
  pinned_certs : list (list Z);
  server_cert_data : Buf.t;
  server_cert_der : list Z;
  server_private_key_der : list Z;
  complete : bool;
  quic_mode : bool;
  legacy_session_id : list Z
}.
Global Instance eta_engine : Eta t := λ e,
  Mk (role e) (state e) (private_key e) (public_key e) (client_random e) (cipher_suite e) (key_schedule e)
     (client_handshake_secret e) (server_handshake_secret e) (client_app_secret e) (server_app_secret e)
     (transcript e) (pending_write e) (pending_level e) (pending_write_hs e) (pending_keys e) (server_name e)
     (engine_alpn e) (params e) (peer_params e) (local_record_size_limit e) (peer_record_size_limit e)
     (negotiated_alpn e) (pinned_certs e) (server_cert_data e) (server_cert_der e) (server_private_key_der e)
     (complete e) (quic_mode e) (legacy_session_id e).

(** The constant-time comparison. *)
Fixpoint ct_diff (diff : Z) (a b : list Z) : Z :=
  match a, b with x :: a, y :: b => ct_diff (Z.lor diff (Z.lxor x y)) a b | _, _ => diff end.
Definition ct_eq (a b : list Z) : bool :=
  if negb (len a =? len b) then false else ct_diff 0 a b =? 0.

Section Tls.
Context `{Platform} `{Primitives}.
(** The allocator behind the buffers. *)
Variable grant : Z → bool.

Definition BUF : Z := 2048.
Definition zeros32 : list Z := replicate 32 0.

Definition new_engine (r : Role) (st : HandshakeState) (secret random name : list Z) (protos : list (list Z))
    (tp : TransportParams.t) (pinned : list (list Z)) (cert key : list Z) : t := {|
  role := r;
  state := st;
  private_key := secret;
  public_key := x25519_public secret;
  client_random := random;
  cipher_suite := None;
  key_schedule := TlsKeySchedule.new;
  client_handshake_secret := zeros32;
  server_handshake_secret := zeros32;
  client_app_secret := zeros32;
  server_app_secret := zeros32;
  transcript := Transcript.new;
  pending_write := Buf.new;
  pending_level := Level.Initial;
  pending_write_hs := Buf.new;
  pending_keys := None;
  server_name := name;
  engine_alpn := protos;
  params := tp;
  peer_params := None;
  local_record_size_limit := None;
  peer_record_size_limit := None;
  negotiated_alpn := None;
  pinned_certs := pinned;
  server_cert_data := Buf.new;
  server_cert_der := cert;
  server_private_key_der := key;
  complete := false;
  quic_mode := true;
  legacy_session_id := zeros32
|}.

Definition new_client (config : TlsConfig) (secret random : list Z) : t :=
  new_engine Client Start secret random (config_server_name config) (config_alpn config) (config_params config)
    (config_pinned config) [] [].
Definition new_server (config : ServerTlsConfig) (secret random : list Z) : t :=
  new_engine Server WaitClientHello secret random [] (config_server_alpn config) (config_server_params config)
    [] (config_cert_der config) (config_private_key config).
Definition new_tcp_client (config : TlsConfig) (secret random : list Z) : t :=
  (new_client config secret random) <| quic_mode := false |> <| legacy_session_id := random |>.
Definition new_tcp_server (config : ServerTlsConfig) (secret random : list Z) : t :=
  (new_server config secret random) <| quic_mode := false |>.
Definition new_placeholder : t :=
  new_engine Client Start zeros32 zeros32 [] [] TransportParams.default_params [] [] [].

Definition set_local_record_size_limit (limit : Z) (e : t) : t := e <| local_record_size_limit := Some limit |>.

(** [cid[..n].copy_from_slice(&new[..n])] with [n] at most 20. *)
Definition set_cid (new cid : list Z) : result (list Z * Z) :=
  let n := Z.min (len new) 20 in
  src ← slice new 0 n;
  cid ← copy_at cid 0 n src;
  Ok (cid, trunc 8 n).
Definition set_transport_param_cids (original_dcid initial_scid : list Z) : M Error t unit :=
  e ← get;
  '(c, n) ← lift (set_cid original_dcid (TransportParams.original_dcid (params e)));
  _ ← modify (λ e, e <| params := (params e) <| TransportParams.original_dcid := c |> <| TransportParams.original_dcid_len := n |> |>);
  '(c, n) ← lift (set_cid initial_scid (TransportParams.initial_scid (params e)));
  modify (λ e, e <| params := (params e) <| TransportParams.initial_scid := c |> <| TransportParams.initial_scid_len := n |> |>).

(** ** Steps shared by both sides *)

Definition add_transcript (msg : list Z) : M Error t unit :=
  modify (λ e, e <| transcript := Transcript.update msg (transcript e) |>).
Definition current_hash : M Error t (list Z) := e ← get; mret (Transcript.current_hash (transcript e)).
Definition set_state (s : HandshakeState) : M Error t unit := modify (λ e, e <| state := s |>).

(** [self.pending_write.clear(); self.pending_write.buf_extend_from_slice(msg)?]. *)
Definition set_pending (msg : list Z) : M Error t unit :=
  _ ← modify (λ e, e <| pending_write := Buf.clear (pending_write e) |>);
  e ← get;
  b ← lift (Buf.buf_extend_from_slice BUF grant msg (pending_write e));
  modify (λ e, e <| pending_write := b |>).
Definition set_pending_hs (msg : list Z) : M Error t unit :=
  _ ← modify (λ e, e <| pending_write_hs := Buf.clear (pending_write_hs e) |>);
  e ← get;
  b ← lift (Buf.buf_extend_from_slice BUF grant msg (pending_write_hs e));
  modify (λ e, e <| pending_write_hs := b |>).

(** A secret at the front of an array of 48 bytes. *)
Definition secret48 (s : list Z) : list Z := s ++ replicate 16 0.
Definition emit_keys (lvl : Level.t) (send recv : list Z) : M Error t unit :=
  e ← get;
  suite ← lift (ok_or Tls (cipher_suite e));
  modify (λ e, e <| pending_keys := Some (MkDerivedKeys lvl suite (secret48 send) (secret48 recv) 32) |>).

(** [derive_handshake_traffic_secrets(.., &mut self.client_handshake_secret, ..)]
    and its counterpart. *)
Definition store_handshake_secrets (th : list Z) : M Error t unit := λ e,
  let '(r, (c, s)) := TlsKeySchedule.derive_handshake_traffic_secrets th (key_schedule e)
                        (client_handshake_secret e, server_handshake_secret e) in
  (r, e <| client_handshake_secret := c |> <| server_handshake_secret := s |>).
Definition store_app_secrets (th : list Z) : M Error t unit := λ e,
  let '(r, (c, s)) := TlsKeySchedule.derive_app_traffic_secrets th (key_schedule e)
                        (client_app_secret e, server_app_secret e) in
  (r, e <| client_app_secret := c |> <| server_app_secret := s |>).

(** The Diffie-Hellman step, the rejection of low-order points and the handshake
    traffic secrets of ClientHello..ServerHello. *)
Definition derive_handshake (peer_public : list Z) : M Error t unit :=
  e ← get;
  let shared := x25519 (private_key e) peer_public in
  if forallb (λ b, b =? 0) shared then throw Tls else
  k ← lift (TlsKeySchedule.derive_handshake_secret shared (key_schedule e));
  _ ← modify (λ e, e <| key_schedule := k |>);
  th ← current_hash;
  store_handshake_secrets th.

(** The application secrets of the transcript hash [th]. *)
Definition derive_application (th : list Z) : M Error t unit :=
  e ← get;
  k ← lift (TlsKeySchedule.derive_master_secret (key_schedule e));
  _ ← modify (λ e, e <| key_schedule := k |>);
  store_app_secrets th.

(** The Finished MAC under the traffic secret [base] over the transcript hash. *)
Definition finished_mac (base th : list Z) : result (list Z) :=
  key ← TlsKeySchedule.derive_finished_key base;
  TlsKeySchedule.compute_finished_verify_data key th.

(** ** The client *)

Definition build_client_hello (random : list Z) : M Error t unit :=
  e ← get;
  let tp := if quic_mode e then Some (params e) else None in
  ext ← lift (scratch 1024 (encode_client_hello_extensions (server_name e) (public_key e) (engine_alpn e) tp
                              (local_record_size_limit e)));
  if len cipher_suites =? 0 then throw Tls else
  let session_id := if quic_mode e then [] else legacy_session_id e in
  msg ← lift (scratch 2048 (encode_client_hello random session_id cipher_suites ext));
  _ ← add_transcript msg;
  _ ← set_pending msg;
  _ ← modify (λ e, e <| pending_level := Level.Initial |>);
  set_state WaitServerHello.

Definition process_server_hello (msg_body : list Z) : M Error t unit :=
  sh ← lift (parse_server_hello msg_body);
  if negb (bool_decide (sh_cipher_suite sh ∈ cipher_suites)) then throw Tls else
  _ ← modify (λ e, e <| cipher_suite := Some (sh_cipher_suite sh) |>);
  ext ← lift (parse_server_hello_extensions (sh_extensions sh));
  if negb (selected_version ext =? 0x0304) then throw Tls else
  server_public ← lift (ok_or Tls (sh_key_share ext));
  _ ← derive_handshake server_public;
  e ← get;
  _ ← emit_keys Level.Handshake (client_handshake_secret e) (server_handshake_secret e);
  set_state WaitEncryptedExtensions.

Definition process_encrypted_extensions (msg_body : list Z) : M Error t unit :=
  ext_data ← lift (parse_encrypted_extensions msg_body);
  parsed ← lift (parse_encrypted_extensions_data ext_data);
  _ ← modify (λ e, e <| negotiated_alpn := alpn parsed |> <| peer_params := ee_transport_params parsed |>);
  e ← get;
  match ee_record_size_limit parsed, local_record_size_limit e with
  | Some _, None => throw Tls
  | limit, _ =>
      _ ← modify (λ e, e <| peer_record_size_limit := limit |>);
      set_state WaitCertificate
  end.

(** [let _ = self.server_cert_data.buf_extend_from_slice(data)]. *)
Definition store_certificate (data : list Z) : M Error t unit := λ e,
  match Buf.buf_extend_from_slice BUF grant data (server_cert_data e) with
  | Ok b => (Ok tt, e <| server_cert_data := b |>)
  | Err _ => (Ok tt, e)
  | Panic => (Panic, e)
  end.
(** Only the first entry is looked at, and one that does not fit is dropped. *)
Definition process_certificate (msg_body : list Z) : M Error t unit :=
  cert ← lift (parse_certificate msg_body);
  _ ← modify (λ e, e <| server_cert_data := Buf.clear (server_cert_data e) |>);
  first ← lift (next_certificate_entry (entries cert)).1;
  _ ← match first with
      | None => mret tt
      | Some entry_result =>
          entry ← lift entry_result; store_certificate (cert_data entry)
      end;
  set_state WaitCertificateVerify.

Definition process_certificate_verify (msg_body transcript_before_cv : list Z) : M Error t unit :=
  cv ← lift (parse_certificate_verify msg_body);
  e ← get;
  cert ← lift (Buf.as_slice (server_cert_data e));
  if negb (len (pinned_certs e) =? 0) && negb (bool_decide (cert ∈ pinned_certs e)) then throw Tls else
  _ ← lift (
    if algorithm cv =? Ed25519.ED25519_ALGORITHM then
      pubkey ← Ed25519.extract_ed25519_pubkey_from_cert cert;
      Ed25519.verify_certificate_verify pubkey (signature cv) transcript_before_cv
    else if algorithm cv =? P256.ECDSA_SECP256R1_SHA256 then
      pubkey ← P256.extract_p256_pubkey_from_cert cert;
      P256.verify_certificate_verify pubkey (signature cv) transcript_before_cv
    else Err Tls);
  set_state WaitFinished.

Definition process_server_finished (msg_body transcript_before_finished : list Z) : M Error t unit :=
  verify_data ← lift (parse_finished msg_body);
  e ← get;
  expected ← lift (finished_mac (server_handshake_secret e) transcript_before_finished);
  if negb (ct_eq expected verify_data) then throw Tls else
  th ← current_hash;
  _ ← derive_application th;
  e ← get;
  _ ← emit_keys Level.Application (client_app_secret e) (server_app_secret e);
  client_verify ← lift (finished_mac (client_handshake_secret e) th);
  fin ← lift (scratch 36 (encode_finished client_verify));
  _ ← add_transcript fin;
  _ ← set_pending fin;
  _ ← modify (λ e, e <| pending_level := Level.Handshake |>);
  set_state SendFinished.

(** ** The server *)

(** A message written at [hs_buf[hs_off..]]. *)
Definition append (f : M Error (list Z) Z) (hs : list Z * Z) : result (list Z * (list Z * Z)) :=
  let '(r, b) := with_from hs.2 f hs.1 in
  n ← r;
  msg ← slice b hs.2 (hs.2 + n);
  Ok (msg, (b, hs.2 + n)).

Definition select_suite (offered : list Z) : option CipherSuite.t :=
  list_find (λ ours, CipherSuite.to_u16 ours ∈ iter_cipher_suites offered) cipher_suites ≫= λ p, Some p.2.
(** The first protocol of the client's that the server has. *)
Definition select_alpn (client server : list (list Z)) : option (list Z) :=
  list_find (λ p, p ∈ server) client ≫= λ p, Some p.2.

(** The CertificateVerify message, signed with the key the certificate suggests. *)
Definition build_certificate_verify (e : t) (th : list Z) : result (list Z) :=
  if P256.cert_has_p256_key (server_cert_der e) then
    sig ← P256.sign_certificate_verify (server_private_key_der e) th;
    scratch 256 (encode_certificate_verify P256.ECDSA_SECP256R1_SHA256 sig)
  else if negb (len (server_private_key_der e) =? 32) then Err Tls
  else
    sig ← Ed25519.sign_certificate_verify (server_private_key_der e) th;
    scratch 256 (encode_certificate_verify Ed25519.ED25519_ALGORITHM sig).

(** EncryptedExtensions, Certificate, CertificateVerify and Finished: the flight
    sent at the handshake level. *)
Definition build_flight (selected_alpn : option (list Z)) : M Error t (list Z) :=
  e ← get;
  let tp := if quic_mode e then Some (params e) else None in
  let limit := match peer_record_size_limit e with Some _ => local_record_size_limit e | None => None end in
  ee_ext ← lift (scratch 512 (encode_encrypted_extensions_data (default [] selected_alpn) tp limit));
  '(ee, hs) ← lift (append (encode_encrypted_extensions ee_ext) (replicate 2048 0, 0));
  _ ← add_transcript ee;
  if 2048 - hs.2 <? 256 then throw (BufferTooSmall (hs.2 + 256)) else
  '(cert, hs) ← lift (append (encode_certificate (server_cert_der e)) hs);
  _ ← add_transcript cert;
  cv_hash ← current_hash;
  cv ← lift (build_certificate_verify e cv_hash);
  if 2048 <? hs.2 + len cv then throw (BufferTooSmall (hs.2 + len cv)) else
  b ← lift (copy_at hs.1 hs.2 (hs.2 + len cv) cv);
  let hs := (b, hs.2 + len cv) in
  _ ← add_transcript cv;
  key ← lift (TlsKeySchedule.derive_finished_key (server_handshake_secret e));
  th ← current_hash;
  server_verify ← lift (TlsKeySchedule.compute_finished_verify_data key th);
  '(fin, hs) ← lift (append (encode_finished server_verify) hs);
  _ ← add_transcript fin;
  lift (slice hs.1 0 hs.2).

Definition process_client_hello (msg_body : list Z) : M Error t unit :=
  ch ← lift (parse_client_hello msg_body);
  ext ← lift (parse_client_hello_extensions (ch_extensions ch));
  if negb (supports_tls13 ext) then throw Tls else
  client_public ← lift (ok_or Tls (key_share ext));
  selected_suite ← lift (ok_or Tls (select_suite (ch_cipher_suites ch)));
  _ ← modify (λ e, e <| cipher_suite := Some selected_suite |>);
  e ← get;
  let selected_alpn := select_alpn (alpn_protocols ext) (engine_alpn e) in
  if bool_decide (selected_alpn = None) && negb (len (engine_alpn e) =? 0) && negb (len (alpn_protocols ext) =? 0)
  then throw Tls else
  _ ← modify (λ e, e <| peer_params := transport_params ext |> <| peer_record_size_limit := record_size_limit ext |>
                     <| negotiated_alpn := selected_alpn |>);
  sh_ext ← lift (scratch 128 (encode_server_hello_extensions (public_key e)));
  sh ← lift (scratch 512 (encode_server_hello (client_random e) (ch_session_id ch) selected_suite sh_ext));
  _ ← add_transcript sh;
  _ ← derive_handshake client_public;
  e ← get;
  _ ← emit_keys Level.Handshake (server_handshake_secret e) (client_handshake_secret e);
  flight ← build_flight selected_alpn;
  _ ← set_pending sh;
  _ ← modify (λ e, e <| pending_level := Level.Initial |>);
  _ ← set_pending_hs flight;
  set_state SendServerFlightInitial.

Definition process_client_finished (msg_body transcript_before_finished : list Z) : M Error t unit :=
  verify_data ← lift (parse_finished msg_body);
  e ← get;
  expected ← lift (finished_mac (client_handshake_secret e) transcript_before_finished);
  if negb (ct_eq expected verify_data) then throw Tls else
  _ ← derive_application transcript_before_finished;
  e ← get;
  _ ← emit_keys Level.Application (server_app_secret e) (client_app_secret e);
  _ ← set_state Complete;
  modify (λ e, e <| complete := true |>).

(** ** Reading and writing *)

Definition client_message (ty : HandshakeType.t) (full_msg msg_body : list Z) : M Error t unit :=
  e ← get;
  match state e, ty with
  | WaitServerHello, HandshakeType.ServerHello =>
      _ ← add_transcript full_msg; process_server_hello msg_body
  | WaitEncryptedExtensions, HandshakeType.EncryptedExtensions =>
      _ ← add_transcript full_msg; process_encrypted_extensions msg_body
  | WaitCertificate, HandshakeType.Certificate =>
      _ ← add_transcript full_msg; process_certificate msg_body
  | WaitCertificateVerify, HandshakeType.CertificateVerify =>
      th ← current_hash; _ ← add_transcript full_msg; process_certificate_verify msg_body th
  | WaitFinished, HandshakeType.Finished =>
      th ← current_hash; _ ← add_transcript full_msg; process_server_finished msg_body th
  | _, _ => throw Tls
  end.
Definition server_message (ty : HandshakeType.t) (full_msg msg_body : list Z) : M Error t unit :=
  e ← get;
  match state e, ty with
  | WaitClientHello, HandshakeType.ClientHello =>
      _ ← add_transcript full_msg; process_client_hello msg_body
  | WaitClientFinished, HandshakeType.Finished =>
      th ← current_hash; _ ← add_transcript full_msg; process_client_finished msg_body th
  | _, _ => throw Tls
  end.

(** The loop over the messages of a CRYPTO frame (both sides). *)
Fixpoint read_messages (on_message : HandshakeType.t → list Z → list Z → M Error t unit) (fuel : nat)
    (data : list Z) (off : Z) : M Error t unit :=
  if off <? len data then
    match fuel with
    | O => lift Panic
    | S fuel =>
        remaining ← lift (slice_from data off);
        '(msg_type_byte, body_len) ← lift (read_handshake_header remaining);
        let msg_len := 4 + body_len in
        if len remaining <? msg_len then throw Tls else
        full_msg ← lift (slice remaining 0 msg_len);
        msg_body ← lift (slice remaining 4 msg_len);
        msg_type ← lift (ok_or Tls (HandshakeType.from_u8 msg_type_byte));
        _ ← on_message msg_type full_msg msg_body;
        read_messages on_message fuel data (off + msg_len)
    end
  else mret tt.

(** The level a state expects; the check is made once per call. *)
Definition client_level (s : HandshakeState) : option Level.t :=
  match s with
  | WaitServerHello => Some Level.Initial
  | WaitEncryptedExtensions | WaitCertificate | WaitCertificateVerify | WaitFinished => Some Level.Handshake
  | _ => None
  end.
Definition server_level (s : HandshakeState) : option Level.t :=
  match s with
  | WaitClientHello => Some Level.Initial
  | WaitClientFinished => Some Level.Handshake
  | _ => None
  end.
Definition check_level (expected : option Level.t) (lvl : Level.t) : result unit :=
  match expected with
  | None => Err InvalidState
  | Some l => if bool_decide (lvl = l) then Ok tt else Err (Transport TransportError.ProtocolViolation)
  end.

Definition read_client (lvl : Level.t) (data : list Z) : M Error t unit :=
  e ← get;
  _ ← lift (check_level (client_level (state e)) lvl);
  read_messages client_message (length data) data 0.
Definition read_server (lvl : Level.t) (data : list Z) : M Error t unit :=
  e ← get;
  _ ← lift (check_level (server_level (state e)) lvl);
  read_messages server_message (length data) data 0.

(** The writers return the bytes stored at the front of the caller's buffer of
    [cap] bytes, and their level. *)
Definition write_client (cap : Z) : M Error t (list Z * Level.t) :=
  e ← get;
  _ ← match state e with Start => build_client_hello (client_random e) | _ => mret tt end;
  e ← get;
  n ← lift (Buf.blen (pending_write e));
  if n =? 0 then mret ([], Level.Initial) else
  if cap <? n then throw (BufferTooSmall n) else
  out ← lift (Buf.as_slice (pending_write e));
  _ ← modify (λ e, e <| pending_write := Buf.clear (pending_write e) |>);
  _ ← (if bool_decide (state e = SendFinished)
       then modify (λ e, e <| state := Complete |> <| complete := true |>) else mret tt);
  mret (out, pending_level e).

Definition write_server (cap : Z) : M Error t (list Z * Level.t) :=
  e ← get;
  match state e with
  | SendServerFlightInitial =>
      n ← lift (Buf.blen (pending_write e));
      if n =? 0 then mret ([], Level.Initial) else
      if cap <? n then throw (BufferTooSmall n) else
      out ← lift (Buf.as_slice (pending_write e));
      _ ← modify (λ e, e <| pending_write := Buf.clear (pending_write e) |>);
      _ ← set_state SendServerFlightHandshake;
      mret (out, Level.Initial)
  | SendServerFlightHandshake =>
      n ← lift (Buf.blen (pending_write_hs e));
      if n =? 0 then mret ([], Level.Handshake) else
      if cap <? n then throw (BufferTooSmall n) else
      out ← lift (Buf.as_slice (pending_write_hs e));
      _ ← modify (λ e, e <| pending_write_hs := Buf.clear (pending_write_hs e) |>);
      _ ← set_state WaitClientFinished;
      mret (out, Level.Handshake)
  | _ => mret ([], Level.Initial)
  end.

(** [TlsSession for TlsEngine]. *)
Definition read_handshake (lvl : Level.t) (data : list Z) : M Error t unit := λ e,
  match role e with Client => read_client lvl data e | Server => read_server lvl data e end.
Definition write_handshake (cap : Z) : M Error t (list Z * Level.t) := λ e,
  match role e with Client => write_client cap e | Server => write_server cap e end.
Definition derived_keys (e : t) : option DerivedKeys * t := (pending_keys e, e <| pending_keys := None |>).
Definition is_complete (e : t) : bool := complete e.
Definition set_transport_params (tp : TransportParams.t) (e : t) : t := e <| params := tp |>.

Definition shrink_post_handshake : M Error t unit :=
  _ ← modify (λ e, e <| pending_write := Buf.clear (pending_write e) |>
                     <| pending_write_hs := Buf.clear (pending_write_hs e) |>
                     <| server_cert_data := Buf.clear (server_cert_data e) |>);
  e ← get;
  b1 ← lift (Buf.shrink_to_fit grant (pending_write e));
  _ ← modify (λ e, e <| pending_write := b1 |>);
  b2 ← lift (Buf.shrink_to_fit grant (pending_write_hs e));
  _ ← modify (λ e, e <| pending_write_hs := b2 |>);
  b3 ← lift (Buf.shrink_to_fit grant (server_cert_data e));
  modify (λ e, e <| server_cert_data := b3 |>).

End Tls.
End Tls.
