(* ===== verification/TlsExchange.v ===== *)
(** * The TLS 1.3 handshake between a client and a server

    The two engines run against each other; both sides agree on everything, and
    neither completes without proof of the other's key. *)
From stdpp Require Import strings.
From S2P Require Import Prelude Errors Hoare Varint Cursor Buf TlsParams TlsMessages TlsExtensions Recovery Crypto Certificate TlsHandshake.

Import Messages Extensions Tls.
Arguments message_wire : simpl never.
Arguments body_wire : simpl never.

(** ** Messages through scratch buffers *)

Lemma scratch_emits n m w : emits m w → len w ≤ Z.of_nat n → scratch n m = Ok w.
Proof. intros Hm Hl. apply scratch_ok. apply Hm. by rewrite length_replicate. Qed.
Lemma scratch_message n m :
  message_ok m → len (message_wire m) ≤ Z.of_nat n → scratch n (encode_message m) = Ok (message_wire m).
Proof.
  intros Hm Hl. apply scratch_ok. rewrite encode_message_wire by done. by rewrite length_replicate, decide_True.
Qed.
Lemma append_message m done rest :
  message_ok m → len (message_wire m) ≤ len rest →
  append (encode_message m) (done ++ rest, len done) =
  Ok (message_wire m, ((done ++ message_wire m) ++ drop (length (message_wire m)) rest, len (done ++ message_wire m))).
Proof.
  intros Hm Hl. unfold append; cbn [fst snd]. rewrite with_from_app by done. rewrite encode_message_wire, decide_True by done.
  cbn [fst snd mbind res_bind]. rewrite slice_eq by len_lia. rewrite app_assoc.
  replace (len done + len (message_wire m) - len done) with (len (message_wire m)) by lia. rewrite !Nat2Z.id.
  rewrite <- app_assoc, drop_app_length, take_app_length. cbn [mbind res_bind]. do 3 f_equal. rewrite length_app. lia.
Qed.

Lemma body_length m : message_ok m → len (body_wire m) < 2 ^ 24.
Proof.
  intros Hm. destruct m; unfold body_wire; cbn [message_ok] in *;
    rewrite ?length_app, ?Nat2Z.inj_add, ?len_hello_prefix_wire, ?len_vec16_wire, ?len_suites_wire; len_lia.
Qed.
Lemma len_message_wire m : len (message_wire m) = 4 + len (body_wire m).
Proof. unfold message_wire, header_wire. len_lia. Qed.

Section exchange.
Context `{Platform} `{PrimitiveLaws}.
Variable grant : Z → bool.
Hypothesis granted : ∀ n, grant n = true.

(** ** A call that succeeds *)

Definition succeeds {A} (m : M Error t A) (Q : A → t → Prop) (e : t) : Prop := wp False m Q (λ _ _, False) e.
Lemma succeeds_run {A} (m : M Error t A) Q e : succeeds m Q e → ∃ a e', m e = (Ok a, e') ∧ Q a e'.
Proof. unfold succeeds, wp. destruct (m e) as [[a| |] e']; [|done..]. eauto. Qed.

Ltac lift_ok H := apply wp_bind; eapply wp_lift_ok; [exact H|cbv beta iota zeta].

(** Reading one message of a flight. *)
Lemma read_one on_message m fuel pre post off (Q : unit → t → Prop) R e :
  message_ok m → off = len pre →
  wp False (on_message (message_type m) (message_wire m) (body_wire m))
    (λ _, wp False (read_messages on_message fuel (pre ++ message_wire m ++ post) (off + len (message_wire m))) Q R) R e →
  wp False (read_messages on_message (S fuel) (pre ++ message_wire m ++ post) off) Q R e.
Proof.
  intros Hm -> Hw. pose proof (len_message_wire m) as Hl. cbn [read_messages].
  rewrite (proj2 (Z.ltb_lt _ _)) by (rewrite !length_app; lia).
  assert (slice_from (E:=Error) (pre ++ message_wire m ++ post) (len pre) = Ok (message_wire m ++ post)) as Hs.
  { rewrite slice_from_eq by len_lia. by rewrite Nat2Z.id, drop_app_length. }
  lift_ok Hs. lift_ok (header_back m post Hm). rewrite <- Hl.
  rewrite (proj2 (Z.ltb_ge _ _)) by len_lia.
  lift_ok (slice_head (E:=Error) (message_wire m) post _ eq_refl).
  assert (slice (E:=Error) (message_wire m ++ post) 4 (len (message_wire m)) = Ok (body_wire m)) as Hb.
  { rewrite slice_eq by len_lia. rewrite Hl. replace (4 + len (body_wire m) - 4) with (len (body_wire m)) by lia.
    rewrite Nat2Z.id. change (Z.to_nat 4) with 4%nat. unfold message_wire, header_wire. rewrite <- app_assoc.
    change (drop 4 ((?x :: be_bytes 3 ?n) ++ ?l)) with l. by rewrite take_app_length. }
  lift_ok Hb. rewrite (proj2 (HandshakeType.type_codes _ _) eq_refl). apply wp_bind, wp_lift. cbn [ok_or].
  apply wp_bind. exact Hw.
Qed.

Lemma read_end on_message fuel data (Q : unit → t → Prop) R e :
  Q tt e → wp False (read_messages on_message fuel data (len data)) Q R e.
Proof. intros HQ. destruct fuel; cbn [read_messages]; by rewrite Z.ltb_irrefl. Qed.

Lemma read_single on_message m (Q : unit → t → Prop) R e :
  message_ok m → wp False (on_message (message_type m) (message_wire m) (body_wire m)) Q R e →
  wp False (read_messages on_message (length (message_wire m)) (message_wire m) 0) Q R e.
Proof.
  intros Hm Hw. pose proof (len_message_wire m). destruct (length (message_wire m)) as [|fuel] eqn:Hf; [lia|].
  pose proof (read_one on_message m fuel [] [] 0 Q R e Hm eq_refl) as Hone. rewrite app_nil_r, app_nil_l in Hone. apply Hone.
  eapply wp_mono; [exact Hw| |done]. intros [] e' HQ. rewrite Z.add_0_l. by apply read_end.
Qed.

(** ** Buffers *)

Lemma extend_cleared msg b :
  Buf.ok BUF b → len msg ≤ BUF →
  ∃ b', Buf.buf_extend_from_slice BUF grant msg (Buf.clear b) = Ok b' ∧ Buf.ok BUF b' ∧ Buf.vis b' = msg.
Proof.
  intros Hb Hl. destruct (Buf.ok_clear BUF b) as [Hc Hv]; [done..|]. unfold Buf.buf_extend_from_slice.
  rewrite (Buf.ok_blen BUF _ Hc). cbn [mbind res_bind].
  destruct (Buf.Rep_extend BUF grant msg (Buf.clear b) _ Hc) as (b' & -> & Hr).
  - right. apply Buf.infallible_static. by right.
  - simpl. rewrite Hv. simpl. lia.
  - simpl in Hr. rewrite Hv in Hr. apply Buf.Rep_ok in Hr as [? ?]. by exists b'.
Qed.
Lemma set_pending_ok msg (Q : unit → t → Prop) R e :
  Buf.ok BUF (pending_write e) → len msg ≤ BUF →
  (∀ b, Buf.ok BUF b → Buf.vis b = msg → Q tt (e <| pending_write := b |>)) → wp False (set_pending grant msg) Q R e.
Proof.
  intros Hb Hl HQ. destruct (extend_cleared msg _ Hb Hl) as (b & He & Hb' & Hv). unfold set_pending. wps.
  eapply wp_lift_ok; [exact He|]. wps. by apply HQ.
Qed.
Lemma set_pending_hs_ok msg (Q : unit → t → Prop) R e :
  Buf.ok BUF (pending_write_hs e) → len msg ≤ BUF →
  (∀ b, Buf.ok BUF b → Buf.vis b = msg → Q tt (e <| pending_write_hs := b |>)) → wp False (set_pending_hs grant msg) Q R e.
Proof.
  intros Hb Hl HQ. destruct (extend_cleared msg _ Hb Hl) as (b & He & Hb' & Hv). unfold set_pending_hs. wps.
  eapply wp_lift_ok; [exact He|]. wps. by apply HQ.
Qed.

(** ** The key schedule as functions *)

Definition label (secret l context : list Z) : list Z :=
  match KeySchedule.hkdf_expand_label secret l context 32 with Ok s => s | _ => [] end.
Lemma label_ok secret l context :
  len secret = 32 → len l ≤ 32 → len context ≤ 32 →
  KeySchedule.hkdf_expand_label secret l context 32 = Ok (label secret l context) ∧ len (label secret l context) = 32.
Proof.
  intros Hs Hl Hc. unfold label. destruct (expand_label_ok secret l context 32) as (okm & -> & ?); [lia..|]. done.
Qed.

Definition K0 : TlsKeySchedule.t := TlsKeySchedule.new.
Definition derived (s : list Z) : list Z := label s (bytes "derived") TlsKeySchedule.empty_transcript_hash.
Definition K1 (shared : list Z) : TlsKeySchedule.t :=
  K0 <| TlsKeySchedule.handshake_secret := hkdf_extract (derived (TlsKeySchedule.early_secret K0)) shared |>.
Definition K2 (k : TlsKeySchedule.t) : TlsKeySchedule.t :=
  k <| TlsKeySchedule.master_secret := hkdf_extract (derived (TlsKeySchedule.handshake_secret k)) TlsKeySchedule.zeros32 |>.
Definition c_hs shared th := label (TlsKeySchedule.handshake_secret (K1 shared)) (bytes "c hs traffic") th.
Definition s_hs shared th := label (TlsKeySchedule.handshake_secret (K1 shared)) (bytes "s hs traffic") th.
Definition c_ap k th := label (TlsKeySchedule.master_secret (K2 k)) (bytes "c ap traffic") th.
Definition s_ap k th := label (TlsKeySchedule.master_secret (K2 k)) (bytes "s ap traffic") th.
Definition mac (base th : list Z) : list Z := hkdf_extract (label base (bytes "finished") []) th.

Lemma empty_hash_len : len TlsKeySchedule.empty_transcript_hash = 32.
Proof. apply sha256_len. Qed.
Lemma K0_len : len (TlsKeySchedule.early_secret K0) = 32.
Proof. apply extract_len. Qed.
Lemma K1_len shared : len (TlsKeySchedule.handshake_secret (K1 shared)) = 32.
Proof. apply extract_len. Qed.
Lemma K2_len k : len (TlsKeySchedule.master_secret (K2 k)) = 32.
Proof. apply extract_len. Qed.
Ltac small := first [done|rewrite ?sha256_len, ?empty_hash_len, ?K0_len, ?K1_len, ?K2_len; first [done|lia]|vm_compute; done].

Lemma derive_pair_label secret lc ls th p :
  len secret = 32 → len lc ≤ 32 → len ls ≤ 32 → len th ≤ 32 →
  KeySchedule.derive_pair secret lc ls th 32 p = (Ok tt, (label secret lc th, label secret ls th)).
Proof.
  intros Hs Hc Hl Ht. unfold KeySchedule.derive_pair.
  erewrite M_step_lift by (by apply label_ok). erewrite M_step_ok by reflexivity. by erewrite M_step_lift by (by apply label_ok).
Qed.

Lemma derive_handshake_ok pk (Q : unit → t → Prop) R e :
  key_schedule e = K0 → forallb (λ b, b =? 0) (x25519 (private_key e) pk) = false →
  (let shared := x25519 (private_key e) pk in let th := sha256 (transcript e) in
   Q tt (e <| key_schedule := K1 shared |> <| client_handshake_secret := c_hs shared th |>
           <| server_handshake_secret := s_hs shared th |>)) →
  wp False (derive_handshake pk) Q R e.
Proof.
  intros Hk Hz HQ. unfold derive_handshake. wps. rewrite Hz, Hk. apply wp_bind.
  unfold TlsKeySchedule.derive_handshake_secret. destruct (label_ok (TlsKeySchedule.early_secret K0) (bytes "derived")
    TlsKeySchedule.empty_transcript_hash) as [Hl _]; [small..|]. rewrite Hl. apply (wp_lift_ok _ _ (K1 (x25519 (private_key e) pk))); [reflexivity|]. unfold current_hash. wps.
  unfold wp, store_handshake_secrets, TlsKeySchedule.derive_handshake_traffic_secrets. cbn [key_schedule update].
  rewrite derive_pair_label by small. exact HQ.
Qed.
Lemma derive_application_ok th (Q : unit → t → Prop) R e shared :
  key_schedule e = K1 shared → len th ≤ 32 →
  Q tt (e <| key_schedule := K2 (K1 shared) |> <| client_app_secret := c_ap (K1 shared) th |>
          <| server_app_secret := s_ap (K1 shared) th |>) →
  wp False (derive_application th) Q R e.
Proof.
  intros Hk Ht HQ. unfold derive_application. wps. rewrite Hk.
  unfold TlsKeySchedule.derive_master_secret. destruct (label_ok (TlsKeySchedule.handshake_secret (K1 shared)) (bytes "derived")
    TlsKeySchedule.empty_transcript_hash) as [Hl _]; [small..|]. rewrite Hl. apply (wp_lift_ok _ _ (K2 (K1 shared))); [reflexivity|]. wps.
  unfold wp, store_app_secrets, TlsKeySchedule.derive_app_traffic_secrets. cbn [key_schedule update].
  rewrite derive_pair_label by small. exact HQ.
Qed.
Lemma finished_mac_ok base th : len base = 32 → finished_mac base th = Ok (mac base th) ∧ len (mac base th) = 32.
Proof.
  intros Hb. unfold finished_mac, TlsKeySchedule.derive_finished_key.
  destruct (label_ok base (bytes "finished") []) as [-> _]; [small..|]. split; [done|]. apply extract_len.
Qed.

Lemma ct_diff_refl a d : ct_diff d a a = d.
Proof. induction a as [|x a IH] in d |- *; [done|]. cbn [ct_diff]. by rewrite Z.lxor_nilpotent, Z.lor_0_r. Qed.
Lemma ct_eq_refl a : ct_eq a a = true.
Proof. unfold ct_eq. by rewrite Z.eqb_refl, ct_diff_refl. Qed.

(** ** The two engines *)

(** The fields no call of the exchange changes. *)
Definition config (e : t) :=
  (role e, private_key e, public_key e, client_random e, server_name e, engine_alpn e, params e,
   local_record_size_limit e, pinned_certs e, server_cert_der e, server_private_key_der e, quic_mode e,
   legacy_session_id e).
Ltac config_inv Hc :=
  injection Hc as Erole Epriv Epub Erand Ename Ealpn Eparams Elimit Epinned Ecert Ekey Equic Esid.

(** An engine of the configuration of [e0], with what every state has. *)
Record at_state (e0 : t) (st : HandshakeState) (tr : list Z) (e : t) : Prop := {
  at_config : config e = config e0;
  at_st : state e = st;
  at_tr : transcript e = tr;
  at_pending : Buf.ok BUF (pending_write e);
  at_pending_hs : Buf.ok BUF (pending_write_hs e);
  at_cert : Buf.ok BUF (server_cert_data e)
}.

Record ready (e : t) : Prop := {
  ready_public : public_key e = x25519_public (private_key e);
  ready_random : len (client_random e) = 32;
  ready_sid : len (legacy_session_id e) = 32;
  ready_keys : key_schedule e = K0;
  ready_params : TransportParams.wf (params e);
  ready_limit : limit_ok (local_record_size_limit e)
}.

(** The private key belongs to the certificate. *)
Definition certified (cert key : list Z) : Prop :=
  len key = 32 ∧
  if P256.cert_has_p256_key cert
  then ∃ pk, p256_public key = Some pk ∧ P256.extract_p256_pubkey_from_cert cert = Ok pk
  else Ed25519.extract_ed25519_pubkey_from_cert cert = Ok (ed25519_public key).

Record client_ready (c : t) : Prop := {
  client_ready_ready : ready c;
  client_ready_role : role c = Client;
  client_ready_at : at_state c Start [] c;
  client_ready_name : len (server_name c) ≤ 64;
  client_ready_alpn : protos_ok (engine_alpn c);
  client_ready_named : [] ∉ engine_alpn c
}.
Record server_ready (s : t) : Prop := {
  server_ready_ready : ready s;
  server_ready_role : role s = Server;
  server_ready_at : at_state s WaitClientHello [] s;
  server_ready_cert : len (server_cert_der s) ≤ 1600 ∧ certified (server_cert_der s) (server_private_key_der s)
}.
Record compatible (c s : t) : Prop := {
  compatible_suites : 1 ≤ len cipher_suites ≤ 100;
  compatible_alpn : engine_alpn c = [] ∨ engine_alpn s = [] ∨ select_alpn (engine_alpn c) (engine_alpn s) ≠ None;
  compatible_pin : pinned_certs c = [] ∨ server_cert_der s ∈ pinned_certs c;
  compatible_shares : forallb (λ b, b =? 0) (x25519 (private_key c) (x25519_public (private_key s))) = false
}.

Section messages.
Variables c s : t.

Definition params_of (e : t) : option TransportParams.t := if quic_mode e then Some (params e) else None.
Definition sid : list Z := if quic_mode c then [] else legacy_session_id c.
Definition suite : CipherSuite.t := default CipherSuite.TlsAes128GcmSha256 (head cipher_suites).
Definition sel_alpn : option (list Z) := select_alpn (engine_alpn c) (engine_alpn s).
Definition server_limit : option Z :=
  match local_record_size_limit c with Some _ => local_record_size_limit s | None => None end.

Definition CH : message :=
  MClientHello (client_random c) sid cipher_suites
    (exts_wire (client_exts (server_name c) (public_key c) (engine_alpn c) (params_of c) (local_record_size_limit c))).
Definition SH : message := MServerHello (client_random s) sid suite (exts_wire (server_exts (public_key s))).
Definition EE : message :=
  MEncryptedExtensions (exts_wire (encrypted_exts (default [] sel_alpn) (params_of s) server_limit)).
Definition CT : message := MCertificate (server_cert_der s).
Definition T1 : list Z := message_wire CH ++ message_wire SH.
Definition T2 : list Z := T1 ++ message_wire EE ++ message_wire CT.
Definition CV : message :=
  if P256.cert_has_p256_key (server_cert_der s)
  then MCertificateVerify P256.ECDSA_SECP256R1_SHA256
         (match P256.sign_certificate_verify (server_private_key_der s) (sha256 T2) with Ok sig => sig | _ => [] end)
  else MCertificateVerify Ed25519.ED25519_ALGORITHM
         (match Ed25519.sign_certificate_verify (server_private_key_der s) (sha256 T2) with Ok sig => sig | _ => [] end).
Definition T3 : list Z := T2 ++ message_wire CV.
Definition shared : list Z := x25519 (private_key c) (public_key s).
Definition chs : list Z := c_hs shared (sha256 T1).
Definition shs : list Z := s_hs shared (sha256 T1).
Definition SF : message := MFinished (mac shs (sha256 T3)).
Definition T4 : list Z := T3 ++ message_wire SF.
Definition CF : message := MFinished (mac chs (sha256 T4)).
Definition flight : list Z := message_wire EE ++ message_wire CT ++ message_wire CV ++ message_wire SF.
Definition cap_ : list Z := c_ap (K1 shared) (sha256 T4).
Definition sap : list Z := s_ap (K1 shared) (sha256 T4).
Definition keys lvl send recv : DerivedKeys := MkDerivedKeys lvl suite (secret48 send) (secret48 recv) 32.

Hypothesis Hc : client_ready c.
Hypothesis Hs : server_ready s.
Hypothesis Hcs : compatible c s.

Lemma params_of_ok e : ready e → params_ok (params_of e).
Proof. intros He. unfold params_of. destruct (quic_mode e); [apply ready_params, He|done]. Qed.
Lemma sid_len : len sid ≤ 32.
Proof. unfold sid. destruct Hc as [[] _ _ _ _ _]. destruct (quic_mode c); simpl; lia. Qed.

Lemma ext_len e : len (ext_wire e) = 4 + len e.2.
Proof. unfold ext_wire. rewrite length_app, Nat2Z.inj_add, len_vec16_wire, length_be_bytes. lia. Qed.
Lemma exts_app_len l l' : len (exts_wire (l ++ l')) = len (exts_wire l) + len (exts_wire l').
Proof. rewrite exts_app. len_lia. Qed.
Lemma tail_exts_len ps tp limit :
  protos_ok ps → params_ok tp → len (exts_wire (alpn_exts ps ++ params_exts tp ++ limit_exts limit)) ≤ 238.
Proof.
  intros Hp Htp. rewrite !exts_app_len. pose proof (protos_bound ps Hp).
  assert (len (exts_wire (alpn_exts ps)) ≤ 74).
  { unfold alpn_exts. destruct ps; [done|]. rewrite exts_one, ext_len. cbn [snd]. rewrite len_vec16_wire. lia. }
  assert (len (exts_wire (params_exts tp)) ≤ 158).
  { destruct tp as [tp|]; [|done]. unfold params_exts. rewrite exts_one, ext_len. cbn [snd]. pose proof (TransportParams.len_wire_entries tp Htp). lia. }
  assert (len (exts_wire (limit_exts limit)) ≤ 6).
  { destruct limit; [|done]. unfold limit_exts. rewrite exts_one, ext_len. cbn [snd]. rewrite length_be_bytes. lia. }
  lia.
Qed.
Lemma client_exts_len :
  len (exts_wire (client_exts (server_name c) (public_key c) (engine_alpn c) (params_of c) (local_record_size_limit c))) ≤ 372.
Proof.
  destruct Hc as [Hr _ _ Hn Ha _]. unfold client_exts. rewrite !exts_app_len.
  pose proof (tail_exts_len (engine_alpn c) (params_of c) (local_record_size_limit c) Ha (params_of_ok c Hr)) as Ht.
  rewrite !exts_app_len in Ht.
  assert (len (exts_wire (sni_exts (server_name c))) ≤ 73).
  { unfold sni_exts. destruct (_ =? 0); [simpl; lia|]. rewrite exts_one, ext_len. cbn [snd]. len_lia. }
  assert (len (exts_wire [(EXT_SUPPORTED_VERSIONS, [2; 3; 4]); (EXT_KEY_SHARE, be_bytes 2 36 ++ share_wire (public_key c));
    (EXT_SIGNATURE_ALGORITHMS, sig_algs_data)]) = 61).
  { rewrite !exts_cons, !length_app, !Nat2Z.inj_add, !ext_len. cbn [snd]. rewrite length_app, Nat2Z.inj_add, len_share_wire.
    - done.
    - rewrite (ready_public c Hr). apply x25519_public_len. }
  lia.
Qed.

Lemma CH_ok : message_ok CH ∧ len (message_wire CH) ≤ 2048.
Proof.
  pose proof client_exts_len. pose proof sid_len. destruct Hc as [[] _ _ _ _ _], Hcs as [Hsu _ _ _].
  rewrite len_message_wire. unfold CH. split; [cbn [message_ok]; lia|]. unfold body_wire.
  rewrite !length_app, !Nat2Z.inj_add, len_hello_prefix_wire, len_vec16_wire, len_suites_wire, length_be_bytes. simpl length. lia.
Qed.
Lemma SH_ok : message_ok SH ∧ len (message_wire SH) ≤ 512.
Proof.
  pose proof sid_len. destruct Hs as [[] _ _ _]. assert (len (exts_wire (server_exts (public_key s))) = 46) as He.
  { unfold server_exts. rewrite exts_cons, exts_one, length_app, Nat2Z.inj_add, !ext_len. cbn [snd].
    rewrite len_share_wire, length_be_bytes; [done|]. rewrite ready_public0. apply x25519_public_len. }
  rewrite len_message_wire. unfold SH. split; [cbn [message_ok]; lia|]. unfold body_wire.
  rewrite !length_app, !Nat2Z.inj_add, len_hello_prefix_wire, len_vec16_wire, length_be_bytes. change (len [0]) with 1. lia.
Qed.
Lemma sel_in : default [] sel_alpn ∈ engine_alpn c ∨ sel_alpn = None.
Proof.
  unfold sel_alpn, select_alpn. destruct (list_find _ _) as [[i p]|] eqn:Hf; [|by right]. left.
  apply list_find_Some in Hf as (Hf & _). simpl. by eapply list_elem_of_lookup_2.
Qed.
Lemma sel_len : len (default [] sel_alpn) ≤ 16.
Proof.
  destruct sel_in as [Hi| ->]; [|done]. destruct Hc as [_ _ _ _ [_ Ha] _]. rewrite Forall_forall in Ha. by apply Ha.
Qed.
Lemma server_limit_ok : limit_ok server_limit.
Proof. unfold server_limit. destruct (local_record_size_limit c); [|done]. apply ready_limit, Hs. Qed.
Lemma EE_ok : message_ok EE ∧ len (message_wire EE) ≤ 244 ∧
  len (exts_wire (encrypted_exts (default [] sel_alpn) (params_of s) server_limit)) ≤ 238.
Proof.
  pose proof sel_len. destruct Hs as [Hr _ _ _].
  assert (len (exts_wire (encrypted_exts (default [] sel_alpn) (params_of s) server_limit)) ≤ 238).
  { apply tail_exts_len; [|by apply params_of_ok]. destruct (_ =? 0); (split; [simpl; lia|]); by repeat constructor. }
  rewrite len_message_wire. unfold EE, body_wire. cbn [message_ok]. rewrite len_vec16_wire. lia.
Qed.
Lemma CT_ok : message_ok CT ∧ len (message_wire CT) = 13 + len (server_cert_der s) ∧ len (message_wire CT) ≤ 1613.
Proof.
  destruct Hs as [_ _ _ [Hl _]]. rewrite len_message_wire. unfold CT, body_wire. cbn [message_ok].
  rewrite !length_app, !length_be_bytes. simpl length. lia.
Qed.

(** The signature verifies. *)
Lemma cv_content th : len th = 32 → ∃ content, Ed25519.build_server_cv_content th = Ok content ∧
  ∃ m, slice (E:=Error) content.1 0 content.2 = Ok m.
Proof.
  intros Hl. unfold Ed25519.build_server_cv_content, Ed25519.build_certificate_verify_content.
  set (w := replicate 64 0x20 ++ Ed25519.SERVER_CONTEXT ++ [0] ++ th).
  assert (len w = 130) as Hw by (unfold w; rewrite !length_app; change (length Ed25519.SERVER_CONTEXT) with 33%nat; simpl length; lia).
  assert (Puts (_ ← put_slice (replicate 64 0x20); _ ← put_slice Ed25519.SERVER_CONTEXT; _ ← put_u8 0x00; put_slice th) w) as Hp.
  { unfold w. repeat first [apply Puts_u8|apply Puts_slice|apply Puts_bind]. }
  specialize (Hp [] (replicate 130 0)). rewrite !app_nil_l in Hp. change (len []) with 0 in Hp.
  rewrite Hp by (rewrite length_replicate; lia). eexists. split; [reflexivity|]. cbn [fst snd]. exists w. by apply slice_head.
Qed.
Definition verifies (alg : Z) (cert sig th : list Z) : result unit :=
  if alg =? Ed25519.ED25519_ALGORITHM then
    pubkey ← Ed25519.extract_ed25519_pubkey_from_cert cert;
    Ed25519.verify_certificate_verify pubkey sig th
  else if alg =? P256.ECDSA_SECP256R1_SHA256 then
    pubkey ← P256.extract_p256_pubkey_from_cert cert;
    P256.verify_certificate_verify pubkey sig th
  else Err Tls.
Lemma CV_ok : ∃ alg sig, CV = MCertificateVerify alg sig ∧ uint 16 alg ∧ len sig ≤ 72 ∧
  build_certificate_verify s (sha256 T2) = Ok (message_wire CV) ∧ verifies alg (server_cert_der s) sig (sha256 T2) = Ok tt.
Proof.
  destruct Hs as [_ _ _ [_ [Hk Hcert]]]. destruct (cv_content (sha256 T2)) as (content & Hb & m & Hm); [apply sha256_len|].
  unfold CV, build_certificate_verify. destruct (P256.cert_has_p256_key (server_cert_der s)).
  - destruct Hcert as (pk & Hpk & Hx). destruct (p256_sign_some _ m _ Hpk) as (sig & Hsig & Hl).
    assert (P256.sign_certificate_verify (server_private_key_der s) (sha256 T2) = Ok sig) as Hsign.
    { unfold P256.sign_certificate_verify. rewrite Hk, Hb. destruct content. cbn [mbind res_bind negb Z.eqb Pos.eqb fst snd] in *.
      rewrite Hm. cbn [mbind res_bind]. rewrite Hsig. cbn [ok_or mbind res_bind]. by rewrite (proj2 (Z.ltb_ge _ _)) by lia. }
    rewrite Hsign. do 2 eexists. split; [done|]. split; [done|]. split; [done|]. split.
    + apply (scratch_message 256 (MCertificateVerify _ sig)); [split; [done|lia]|]. rewrite len_message_wire. unfold body_wire.
      rewrite length_app, Nat2Z.inj_add, len_vec16_wire, length_be_bytes. lia.
    + unfold verifies. cbn [Z.eqb Pos.eqb Ed25519.ED25519_ALGORITHM P256.ECDSA_SECP256R1_SHA256]. rewrite Hx. cbn [mbind res_bind].
      unfold P256.verify_certificate_verify. rewrite Hb. destruct content. cbn [mbind res_bind fst snd] in *. rewrite Hm. cbn [mbind res_bind].
      by rewrite (p256_correct _ m _ _ Hpk Hsig).
  - assert (Ed25519.sign_certificate_verify (server_private_key_der s) (sha256 T2) = Ok (ed25519_sign (server_private_key_der s) m)) as Hsign.
    { unfold Ed25519.sign_certificate_verify. rewrite Hb. destruct content. cbn [mbind res_bind fst snd] in *. by rewrite Hm. }
    pose proof (ed25519_sign_len (server_private_key_der s) m) as Hl. rewrite Hsign, Hk. cbn [negb Z.eqb Pos.eqb].
    do 2 eexists. split; [done|]. split; [done|]. split; [lia|]. split.
    + apply (scratch_message 256 (MCertificateVerify _ _)); [split; [done|lia]|]. rewrite len_message_wire. unfold body_wire.
      rewrite length_app, Nat2Z.inj_add, len_vec16_wire, length_be_bytes. lia.
    + unfold verifies. cbn [Z.eqb Pos.eqb Ed25519.ED25519_ALGORITHM]. rewrite Hcert. cbn [mbind res_bind].
      unfold Ed25519.verify_certificate_verify. rewrite Hl, Hb. destruct content. cbn [mbind res_bind fst snd negb Z.eqb Pos.eqb] in *.
      rewrite Hm. cbn [mbind res_bind]. by rewrite ed25519_correct.
Qed.

(** ** The client's hello *)

Ltac step_ok H := eapply wp_lift_ok; [exact H|cbv beta iota zeta].
(** The fields of an updated engine. *)
Ltac at_state := constructor; cbn -[Buf.ok message_wire]; first [done|by rewrite ?app_nil_l|assumption].

Lemma client_hello_written cap :
  2048 ≤ cap →
  succeeds (write_client grant cap) (λ r e, r = (message_wire CH, Level.Initial) ∧
    at_state c WaitServerHello (message_wire CH) e ∧ key_schedule e = K0 ∧ complete e = complete c ∧
    pending_keys e = pending_keys c ∧ Buf.vis (pending_write e) = []) c.
Proof.
  intros Hcap. destruct CH_ok as [Hm Hl]. destruct Hc as [Hr Hrole Hat Hn Ha _]. destruct Hat as [_ Hst Htr Hp Hph Hcd].
  unfold succeeds, write_client. wps. rewrite Hst. unfold build_client_hello. wps.
  assert (scratch 1024 (encode_client_hello_extensions (server_name c) (public_key c) (engine_alpn c) (params_of c)
    (local_record_size_limit c)) = Ok (exts_wire (client_exts (server_name c) (public_key c) (engine_alpn c) (params_of c)
      (local_record_size_limit c)))) as Hx.
  { apply scratch_emits; [|pose proof client_exts_len; lia]. apply client_extensions_wire; [lia| |done|by apply params_of_ok|apply ready_limit, Hr].
    rewrite (ready_public c Hr). apply x25519_public_len. }
  step_ok Hx. destruct Hcs as [Hsu _ _ _]. rewrite (proj2 (Z.eqb_neq _ _)) by lia. apply wp_bind.
  step_ok (scratch_message 2048 CH Hm Hl). unfold add_transcript. wps.
  apply set_pending_ok; [done|exact Hl|]. intros b Hb Hv. unfold set_state. wps.
  cbn [pending_write update]. step_ok (Buf.ok_blen BUF (E:=Error) b Hb). rewrite Hv.
  pose proof (len_message_wire CH). rewrite (proj2 (Z.eqb_neq _ _)) by lia. rewrite (proj2 (Z.ltb_ge _ _)) by lia.
  apply wp_bind. step_ok (Buf.ok_as_slice BUF (E:=Error) b Hb). wps. cbn [state update].
  destruct (Buf.ok_clear BUF b) as [Hcl Hcv]; [done..|].
  rewrite bool_decide_eq_false_2 by done. wps. rewrite Hv. split; [done|].
  split; [|split; [exact (ready_keys c Hr)|split; [done|split; [done|exact Hcv]]]].
  constructor; cbn -[Buf.ok message_wire]; try done. by rewrite Htr.
Qed.

(** ** The server's flights *)

Lemma emit_keys_ok lvl send recv (Q : unit → t → Prop) R e :
  cipher_suite e = Some suite → Q tt (e <| pending_keys := Some (keys lvl send recv) |>) →
  wp False (emit_keys lvl send recv) Q R e.
Proof. intros He HQ. unfold emit_keys. wps. rewrite He. apply wp_lift. cbn [ok_or]. wps. exact HQ. Qed.

Lemma select_suite_ok : ∃ suites, parse_client_hello (body_wire CH) = Ok (MkClientHello (client_random c) sid suites
    (exts_wire (client_exts (server_name c) (public_key c) (engine_alpn c) (params_of c) (local_record_size_limit c)))) ∧
  select_suite suites = Some suite.
Proof.
  destruct CH_ok as [Hm _]. destruct (body_back CH Hm) as (suites & Hp & Hi). exists suites. split; [exact Hp|].
  unfold select_suite. rewrite Hi. destruct Hcs as [Hsu _ _ _]. unfold suite.
  destruct cipher_suites as [|c0 l] eqn:E; [simpl in Hsu; lia|]. cbn [list_find head default].
  rewrite decide_True; [done|]. rewrite fmap_cons. apply list_elem_of_here.
Qed.

Lemma suite_in : suite ∈ cipher_suites.
Proof.
  destruct Hcs as [Hsu _ _ _]. unfold suite. destruct cipher_suites as [|c0 l]; [simpl in Hsu; lia|]. apply list_elem_of_here.
Qed.
Lemma shared_sym : x25519 (private_key s) (public_key c) = shared.
Proof.
  destruct Hc as [[] _ _ _ _ _], Hs as [[] _ _ _]. unfold shared. rewrite ready_public0, ready_public1. apply x25519_agree.
Qed.

Lemma secrets_len : len chs = 32 ∧ len shs = 32.
Proof.
  split; (apply label_ok; [apply K1_len|vm_compute; done|by rewrite sha256_len]).
Qed.
Lemma SF_ok : message_ok SF ∧ len (message_wire SF) = 36.
Proof.
  rewrite len_message_wire. unfold SF, body_wire. cbn [message_ok].
  assert (len (mac shs (sha256 T3)) = 32) as -> by apply extract_len. done.
Qed.
Lemma CF_ok : message_ok CF ∧ len (message_wire CF) = 36.
Proof.
  rewrite len_message_wire. unfold CF, body_wire. cbn [message_ok].
  assert (len (mac chs (sha256 T4)) = 32) as -> by apply extract_len. done.
Qed.

Lemma flight_built (Q : list Z → t → Prop) R e :
  config e = config s → transcript e = T1 → server_handshake_secret e = shs →
  peer_record_size_limit e = local_record_size_limit c →
  Q flight (e <| transcript := T4 |>) → wp False (build_flight sel_alpn) Q R e.
Proof.
  intros Hcfg Htr Hsec Hlim HQ. config_inv Hcfg. destruct EE_ok as (Hee & Leele & Lext). destruct CT_ok as (Hct & Lct & Lctle).
  destruct CV_ok as (alg & sig & Ecv & Ha & Lsig & Hbuild & _). destruct SF_ok as [Hsf Lsf]. destruct secrets_len as [_ Lshs].
  unfold build_flight. wps. rewrite Equic, Eparams, Hlim, Elimit.
  assert (scratch 512 (encode_encrypted_extensions_data (default [] sel_alpn) (params_of s) server_limit) =
    Ok (exts_wire (encrypted_exts (default [] sel_alpn) (params_of s) server_limit))) as Hx.
  { apply scratch_emits; [|lia]. destruct Hs as [Hr _ _ _]. apply encrypted_extensions_wire; [apply sel_len|by apply params_of_ok|apply server_limit_ok]. }
  step_ok Hx. apply wp_bind. step_ok (append_message EE [] (replicate 2048 0) Hee ltac:(rewrite length_replicate; lia)).
  rewrite app_nil_l. unfold add_transcript. wps. cbn [snd]. rewrite (proj2 (Z.ltb_ge _ _)) by lia. apply wp_bind.
  rewrite Ecert. step_ok (append_message CT (message_wire EE) (drop (length (message_wire EE)) (replicate 2048 0)) Hct
    ltac:(rewrite length_drop, length_replicate; lia)).
  unfold current_hash. wps. cbn [transcript update]. rewrite Htr. unfold Transcript.update, Transcript.current_hash.
  replace ((T1 ++ message_wire EE) ++ message_wire CT) with T2 by (unfold T2; by rewrite app_assoc).
  assert (build_certificate_verify e (sha256 T2) = Ok (message_wire CV)) as Hbuild'.
  { rewrite <- Hbuild. unfold build_certificate_verify. by rewrite Ecert, Ekey. }
  assert (len (message_wire CV) ≤ 80) as Lcv.
  { rewrite len_message_wire, Ecv. unfold body_wire. rewrite length_app, Nat2Z.inj_add, len_vec16_wire, length_be_bytes. lia. }
  step_ok Hbuild'. cbn [fst snd]. set (pre := message_wire EE ++ message_wire CT). set (rest := drop _ (drop _ _)).
  assert (len pre ≤ 1857 ∧ len rest = 2048 - len pre) as [Lpre Lrest].
  { unfold rest, pre. rewrite !length_drop, length_replicate, length_app. lia. }
  rewrite (proj2 (Z.ltb_ge _ _)) by lia. apply wp_bind.
  step_ok (copy_at_app (E:=Error) pre rest (message_wire CV) _ _ eq_refl eq_refl ltac:(lia)). wps. rewrite Hsec.
  destruct (label_ok shs (bytes "finished") []) as [Hfk _]; [done|vm_compute; done|done|]. step_ok Hfk. wps.
  cbn [transcript update]. unfold Transcript.current_hash, Transcript.update. fold T3.
  unfold TlsKeySchedule.compute_finished_verify_data. eapply wp_lift_ok; [reflexivity|]. cbv beta iota zeta. apply wp_bind.
  replace (len pre + len (message_wire CV)) with (len (pre ++ message_wire CV)) by (rewrite length_app; lia).
  step_ok (append_message SF (pre ++ message_wire CV) (drop (length (message_wire CV)) rest) Hsf
    ltac:(rewrite length_drop; lia)). wps. cbn [fst snd].
  eapply wp_lift_ok; [by apply slice_head|]. unfold flight in HQ.
  replace ((pre ++ message_wire CV) ++ message_wire SF) with (message_wire EE ++ message_wire CT ++ message_wire CV ++ message_wire SF)
    by (unfold pre; by rewrite <- !app_assoc).
  exact HQ.
Qed.

(** What the hello exchange leaves in an engine. *)
Record keyed (e : t) : Prop := {
  keyed_schedule : key_schedule e = K1 shared;
  keyed_client : client_handshake_secret e = chs;
  keyed_server : server_handshake_secret e = shs;
  keyed_suite : cipher_suite e = Some suite
}.
Record negotiated (e peer : t) (limit : option Z) : Prop := {
  negotiated_protocol : negotiated_alpn e = sel_alpn;
  negotiated_params : peer_params e = params_of peer;
  negotiated_limit : peer_record_size_limit e = limit
}.

Lemma no_overlap_ok :
  bool_decide (sel_alpn = None) && negb (len (engine_alpn s) =? 0) && negb (len (engine_alpn c) =? 0) = false.
Proof.
  destruct Hcs as [_ Ha _ _]. destruct Ha as [-> |[-> |Hn]]; [by rewrite andb_false_r|by rewrite andb_false_r|].
  by rewrite bool_decide_eq_false_2.
Qed.

Lemma shared_nonzero : forallb (λ b, b =? 0) shared = false.
Proof. destruct Hcs as [_ _ _ Hz]. destruct Hs as [[Hp _ _ _ _ _] _ _ _]. unfold shared. by rewrite Hp. Qed.
Lemma CV_len : len (message_wire CV) ≤ 80.
Proof.
  destruct CV_ok as (alg & sig & -> & _ & Lsig & _). rewrite len_message_wire. unfold body_wire.
  rewrite length_app, Nat2Z.inj_add, len_vec16_wire, length_be_bytes. lia.
Qed.

Lemma server_hello_read :
  succeeds (read_server grant Level.Initial (message_wire CH)) (λ _ e,
    at_state s SendServerFlightInitial T4 e ∧ keyed e ∧ negotiated e c (local_record_size_limit c) ∧
    Buf.vis (pending_write e) = message_wire SH ∧ Buf.vis (pending_write_hs e) = flight ∧
    pending_keys e = Some (keys Level.Handshake shs chs) ∧ complete e = complete s) s.
Proof.
  destruct CH_ok as [Hm _]. destruct SH_ok as [Hsh Lsh]. destruct EE_ok as (_ & Lee & _). destruct CT_ok as (_ & _ & Lct).
  destruct CV_ok as (alg & sig & Ecv & _ & Lsig & _). destruct SF_ok as [_ Lsf]. destruct Hs as [Hr Hrole Hat Hcert].
  destruct Hat as [_ Hst Htr Hp Hph Hcd].
  unfold succeeds, read_server. wps. rewrite Hst. eapply wp_lift_ok; [reflexivity|]. cbv beta. apply read_single; [done|].
  unfold server_message. wps. rewrite Hst. cbn [message_type CH]. unfold add_transcript. wps. unfold process_client_hello. apply wp_bind.
  destruct select_suite_ok as (suites & Hparse & Hsel). step_ok Hparse. apply wp_bind. cbn [ch_extensions].
  assert (parse_client_hello_extensions (exts_wire (client_exts (server_name c) (public_key c) (engine_alpn c) (params_of c)
    (local_record_size_limit c))) = Ok (MkClientHelloExtensions (Some (public_key c)) true (engine_alpn c) (params_of c) (local_record_size_limit c))) as Hx.
  { destruct Hc as [Hrc _ _ Hn Ha _]. apply client_back; [lia| |done|by apply params_of_ok|apply ready_limit, Hrc].
    rewrite (ready_public c Hrc). apply x25519_public_len. }
  step_ok Hx. cbn [negb supports_tls13 key_share ok_or]. apply wp_bind. eapply wp_lift_ok; [reflexivity|]. cbv beta. apply wp_bind.
  cbn [ch_cipher_suites]. rewrite Hsel. eapply wp_lift_ok; [reflexivity|]. cbv beta. wps. cbn [engine_alpn update alpn_protocols]. fold sel_alpn.
  rewrite no_overlap_ok. wps. cbn [public_key update client_random ch_session_id].
  assert (scratch 128 (encode_server_hello_extensions (public_key s)) = Ok (exts_wire (server_exts (public_key s)))) as Hse.
  { apply scratch_emits.
    - apply server_extensions_wire. rewrite (ready_public s Hr). apply x25519_public_len.
    - unfold server_exts. rewrite exts_cons, exts_one, length_app, Nat2Z.inj_add, !ext_len. cbn [snd].
      rewrite len_share_wire, length_be_bytes; [done|]. rewrite (ready_public s Hr). apply x25519_public_len. }
  step_ok Hse. apply wp_bind. step_ok (scratch_message 512 SH Hsh Lsh). wps. cbn [transcript update].
  apply wp_bind, derive_handshake_ok; [exact (ready_keys s Hr)|cbn [private_key update]; rewrite shared_sym; apply shared_nonzero|].
  cbv zeta. cbn [private_key transcript update]. rewrite shared_sym, Htr. unfold Transcript.update. rewrite app_nil_l. fold T1 chs shs. wps.
  apply emit_keys_ok; [done|]. wps. apply flight_built; [done|done|done|done|]. wps.
  apply set_pending_ok; [exact Hp|unfold BUF; lia|]. intros b1 Hb1 Hv1. wps. assert (len flight ≤ BUF) as Lfl.
  { unfold flight, BUF. rewrite !length_app. pose proof CV_len. lia. }
  apply set_pending_hs_ok; [exact Hph|exact Lfl|]. intros b2 Hb2 Hv2. unfold set_state. wps.
  split; [constructor; done|]. split; [constructor; done|]. split; [constructor; done|]. split; [exact Hv1|]. split; [exact Hv2|]. split; reflexivity.
Qed.

Lemma server_writes cap e :
  2048 ≤ cap → at_state s SendServerFlightInitial T4 e → Buf.vis (pending_write e) = message_wire SH →
  Buf.vis (pending_write_hs e) = flight →
  ∃ e1 e2, write_server cap e = (Ok (message_wire SH, Level.Initial), e1) ∧
    write_server cap e1 = (Ok (flight, Level.Handshake), e2) ∧ at_state s WaitClientFinished T4 e2 ∧ role e1 = role s ∧
    pending_keys e1 = pending_keys e ∧ pending_keys e2 = pending_keys e ∧ complete e2 = complete e ∧
    (keyed e → keyed e2) ∧ (∀ p l, negotiated e p l → negotiated e2 p l).
Proof.
  intros Hcap [Hcfg Hst Htr Hp Hph Hcd] Hv Hvh.
  exists (e <| pending_write := Buf.clear (pending_write e) |> <| state := SendServerFlightHandshake |>).
  exists (e <| pending_write := Buf.clear (pending_write e) |> <| state := SendServerFlightHandshake |>
            <| pending_write_hs := Buf.clear (pending_write_hs e) |> <| state := WaitClientFinished |>).
  destruct (Buf.ok_clear BUF _ ltac:(done) Hp) as [Hcl _]. destruct (Buf.ok_clear BUF _ ltac:(done) Hph) as [Hclh _].
  pose proof (Buf.ok_bound BUF _ Hp) as Lp. pose proof (Buf.ok_bound BUF _ Hph) as Lph. unfold BUF in Lp, Lph.
  pose proof (len_message_wire SH) as Lsh. assert (0 < len flight) as Lfl by (unfold flight; rewrite !length_app; pose proof (len_message_wire EE); lia).
  split.
  { unfold write_server. erewrite M_step_ok by reflexivity. rewrite Hst. erewrite M_step_lift by exact (Buf.ok_blen BUF _ Hp).
    rewrite Hv in *. rewrite (proj2 (Z.eqb_neq _ _)), (proj2 (Z.ltb_ge _ _)) by lia.
    erewrite M_step_lift by exact (Buf.ok_as_slice BUF _ Hp). by rewrite Hv. }
  split.
  { unfold write_server. erewrite M_step_ok by reflexivity. cbn [state update pending_write_hs].
    erewrite M_step_lift by exact (Buf.ok_blen BUF _ Hph).
    rewrite Hvh in *. rewrite (proj2 (Z.eqb_neq _ _)), (proj2 (Z.ltb_ge _ _)) by lia.
    erewrite M_step_lift by exact (Buf.ok_as_slice BUF _ Hph). by rewrite Hvh. }
  split; [constructor; done|]. split; [by injection Hcfg|]. split; [done|]. split; [done|]. split; [done|].
  split; [intros []; constructor; done|]. intros p l []. constructor; done.
Qed.

(** ** The client reads the server's flights *)

Lemma client_server_hello e :
  at_state c WaitServerHello (message_wire CH) e → key_schedule e = K0 →
  succeeds (read_client grant Level.Initial (message_wire SH)) (λ _ e',
    at_state c WaitEncryptedExtensions T1 e' ∧ keyed e' ∧ pending_keys e' = Some (keys Level.Handshake chs shs) ∧
    complete e' = complete e) e.
Proof.
  intros [Hcfg Hst Htr Hp Hph Hcd] Hk. config_inv Hcfg. destruct SH_ok as [Hm _]. destruct Hs as [Hr _ _ _].
  unfold succeeds, read_client. wps. rewrite Hst. eapply wp_lift_ok; [reflexivity|]. cbv beta. apply read_single; [done|].
  unfold client_message. wps. rewrite Hst. cbn [message_type SH]. unfold add_transcript. wps. unfold process_server_hello. apply wp_bind.
  step_ok (body_back SH Hm). cbn [sh_cipher_suite sh_extensions].
  rewrite bool_decide_eq_true_2 by apply suite_in. cbn [negb]. wps.
  assert (len (public_key s) = 32) as Lpk by (rewrite (ready_public s Hr); apply x25519_public_len).
  step_ok (server_back (public_key s) Lpk). cbn [selected_version Z.eqb Pos.eqb negb sh_key_share ok_or]. apply wp_bind.
  eapply wp_lift_ok; [reflexivity|]. cbv beta. apply wp_bind.
  apply derive_handshake_ok; [exact Hk|cbn [private_key update]; rewrite Epriv; apply shared_nonzero|].
  cbv zeta. cbn [private_key transcript update]. rewrite Epriv, Htr. unfold Transcript.update. fold T1 shared chs shs. wps.
  apply emit_keys_ok; [done|]. unfold set_state. wps.
  split; [constructor; try done; unfold config in *; cbn; congruence|]. split; [constructor; done|]. split; [reflexivity|done].
Qed.

Lemma sel_back : (if len (default [] sel_alpn) =? 0 then None else Some (default [] sel_alpn)) = sel_alpn.
Proof.
  destruct sel_in as [Hi| ->]; [|done]. destruct Hc as [_ _ _ _ _ Hne].
  destruct sel_alpn as [[|b l]|]; cbn [default] in *; [done|done|done].
Qed.
Lemma client_encrypted_extensions (Q : unit → t → Prop) R e :
  at_state c WaitEncryptedExtensions T1 e →
  Q tt (e <| transcript := T1 ++ message_wire EE |> <| negotiated_alpn := sel_alpn |>
          <| peer_params := params_of s |> <| peer_record_size_limit := server_limit |> <| state := WaitCertificate |>) →
  wp False (client_message grant (message_type EE) (message_wire EE) (body_wire EE)) Q R e.
Proof.
  intros [Hcfg Hst Htr Hp Hph Hcd] HQ. config_inv Hcfg. destruct EE_ok as (Hm & _).
  unfold client_message. wps. rewrite Hst. cbn [message_type EE]. unfold add_transcript. wps. unfold process_encrypted_extensions. apply wp_bind.
  step_ok (body_back EE Hm). apply wp_bind. destruct Hs as [Hr _ _ _].
  step_ok (encrypted_back (default [] sel_alpn) (params_of s) server_limit sel_len (params_of_ok s Hr) server_limit_ok). wps.
  cbn [ee_record_size_limit alpn ee_transport_params local_record_size_limit update]. rewrite Elimit, Htr, sel_back. unfold set_state, Transcript.update.
  unfold server_limit in HQ |- *. destruct (local_record_size_limit c) as [lc|].
  - destruct (local_record_size_limit s); wps; exact HQ.
  - wps. exact HQ.
Qed.
Lemma client_certificate (Q : unit → t → Prop) R e :
  at_state c WaitCertificate (T1 ++ message_wire EE) e →
  (∀ b, Buf.ok BUF b → Buf.vis b = server_cert_der s →
    Q tt (e <| transcript := T2 |> <| server_cert_data := b |> <| state := WaitCertificateVerify |>)) →
  wp False (client_message grant (message_type CT) (message_wire CT) (body_wire CT)) Q R e.
Proof.
  intros [Hcfg Hst Htr Hp Hph Hcd] HQ. destruct CT_ok as (Hm & _ & Lct). destruct Hs as [_ _ _ [Lcert _]].
  unfold client_message. wps. rewrite Hst. cbn [message_type CT]. unfold add_transcript. wps. unfold process_certificate. apply wp_bind.
  destruct (body_back CT Hm) as (es & Hparse & Hes). step_ok Hparse. wps. cbn [entries].
  assert (∃ rest, next_certificate_entry es = (Ok (Some (Ok (MkCertificateEntry (server_cert_der s) []))), rest)) as [rest Hnext].
  { destruct es as [|x es']; [done|]. cbn [length iter_certificate_entries] in Hes.
    destruct (next_certificate_entry (x :: es')) as [[[r|]| |] rest]; try done.
    destruct (iter_certificate_entries (length es') rest) as [rs| |]; simplify_eq/=. by exists rest. }
  rewrite Hnext. eapply wp_lift_ok; [reflexivity|]. cbv beta iota. apply wp_bind. apply wp_bind. eapply wp_lift_ok; [reflexivity|]. cbv beta.
  cbn [cert_data]. destruct (extend_cleared (server_cert_der s) (server_cert_data e) Hcd) as (b & He & Hb & Hv); [unfold BUF; lia|].
  eapply wp_eq; [unfold store_certificate; cbn [server_cert_data update]; rewrite He; reflexivity|]. unfold set_state. wps.
  rewrite Htr. unfold Transcript.update. specialize (HQ b Hb Hv). unfold T2 in HQ. rewrite app_assoc in HQ. exact HQ.
Qed.

Lemma client_certificate_verify (Q : unit → t → Prop) R e :
  at_state c WaitCertificateVerify T2 e → Buf.vis (server_cert_data e) = server_cert_der s →
  Q tt (e <| transcript := T3 |> <| state := WaitFinished |>) →
  wp False (client_message grant (message_type CV) (message_wire CV) (body_wire CV)) Q R e.
Proof.
  intros [Hcfg Hst Htr Hp Hph Hcd] Hv HQ. config_inv Hcfg. destruct CV_ok as (alg & sig & Ecv & Ha & Lsig & _ & Hver).
  assert (message_ok CV) as Hm by (rewrite Ecv; split; [done|lia]). assert (message_type CV = HandshakeType.CertificateVerify) as -> by (by rewrite Ecv).
  assert (parse_certificate_verify (body_wire CV) = Ok (MkCertificateVerify alg sig)) as Hparse
    by (pose proof (body_back CV Hm) as Hb; rewrite Ecv in Hb |- *; exact Hb).
  unfold client_message. wps. rewrite Hst. unfold current_hash, add_transcript. wps. unfold process_certificate_verify. apply wp_bind.
  step_ok Hparse. wps. cbn [server_cert_data update]. step_ok (Buf.ok_as_slice BUF (E:=Error) _ Hcd). rewrite Hv.
  cbn [pinned_certs update]. rewrite Epinned.
  assert (negb (len (pinned_certs c) =? 0) && negb (bool_decide (server_cert_der s ∈ pinned_certs c)) = false) as ->.
  { destruct Hcs as [_ _ Hpin _]. destruct Hpin as [-> |Hin]; [done|]. by rewrite bool_decide_eq_true_2, andb_false_r. }
  apply wp_bind. cbn [algorithm signature]. unfold verifies in Hver. rewrite Htr. unfold Transcript.current_hash. step_ok Hver.
  unfold set_state. wps. unfold Transcript.update. exact HQ.
Qed.

Lemma client_finished (Q : unit → t → Prop) R e :
  at_state c WaitFinished T3 e → keyed e →
  (∀ b, Buf.ok BUF b → Buf.vis b = message_wire CF →
    Q tt (e <| transcript := T4 ++ message_wire CF |> <| key_schedule := K2 (K1 shared) |> <| client_app_secret := cap_ |>
            <| server_app_secret := sap |> <| pending_keys := Some (keys Level.Application cap_ sap) |>
            <| pending_write := b |> <| pending_level := Level.Handshake |> <| state := SendFinished |>)) →
  wp False (client_message grant (message_type SF) (message_wire SF) (body_wire SF)) Q R e.
Proof.
  intros [Hcfg Hst Htr Hp Hph Hcd] [Hk Hch Hsh Hsuite] HQ. destruct SF_ok as [Hm _]. destruct CF_ok as [Hcf Lcf]. destruct secrets_len as [Lc Ls].
  unfold client_message. wps. rewrite Hst. cbn [message_type SF]. unfold current_hash, add_transcript. wps. unfold process_server_finished. apply wp_bind.
  step_ok (body_back SF Hm). wps. cbn [server_handshake_secret update]. rewrite Hsh, Htr. unfold Transcript.current_hash.
  destruct (finished_mac_ok shs (sha256 T3) Ls) as [Hmac _]. step_ok Hmac. rewrite ct_eq_refl. cbn [negb]. unfold current_hash. wps.
  cbn [transcript update]. unfold Transcript.current_hash, Transcript.update. fold T4.
  apply (derive_application_ok _ _ _ _ shared); [exact Hk|by rewrite sha256_len|]. fold cap_ sap. wps.
  apply emit_keys_ok; [exact Hsuite|]. apply wp_bind. cbn [client_handshake_secret update]. rewrite Hch.
  destruct (finished_mac_ok chs (sha256 T4) Lc) as [Hmac' _]. step_ok Hmac'. apply wp_bind. step_ok (scratch_message 36 CF Hcf ltac:(lia)).
  unfold add_transcript. wps. apply set_pending_ok; [exact Hp|unfold BUF; lia|]. intros b Hb Hv. unfold set_state. wps. exact (HQ b Hb Hv).
Qed.

Lemma client_flight e :
  at_state c WaitEncryptedExtensions T1 e → keyed e →
  succeeds (read_client grant Level.Handshake flight) (λ _ e',
    at_state c SendFinished (T4 ++ message_wire CF) e' ∧ negotiated e' s server_limit ∧
    pending_keys e' = Some (keys Level.Application cap_ sap) ∧ pending_level e' = Level.Handshake ∧
    Buf.vis (pending_write e') = message_wire CF ∧ complete e' = complete e) e.
Proof.
  intros Hat Hkey. destruct EE_ok as (Hee & _). destruct CT_ok as (Hct & _). destruct SF_ok as [Hsf _].
  destruct CV_ok as (alg & sig & Ecv & Ha & Lsig & _). assert (message_ok CV) as Hcv by (rewrite Ecv; split; [done|lia]). clear alg sig Ecv Ha Lsig.
  pose proof (len_message_wire EE). pose proof (len_message_wire CT). pose proof (len_message_wire CV). pose proof (len_message_wire SF).
  unfold succeeds, read_client. wps. rewrite (at_st _ _ _ _ Hat). eapply wp_lift_ok; [reflexivity|]. cbv beta.
  assert (∃ f, length flight = S (S (S (S f)))) as [f ->].
  { exists (length flight - 4)%nat. assert (4 ≤ length flight)%nat; [|lia]. unfold flight. rewrite !length_app. lia. }
  unfold flight.
  apply (read_one _ EE _ [] (message_wire CT ++ message_wire CV ++ message_wire SF)); [done|done|]. apply client_encrypted_extensions; [done|].
  rewrite app_nil_l. apply (read_one _ CT _ (message_wire EE) (message_wire CV ++ message_wire SF)); [done|lia|].
  destruct Hat as [Hcfg Hst Htr Hp Hph Hcd]. destruct Hkey as [Hk Hch Hsh Hsuite].
  apply client_certificate; [by constructor|]. intros b1 Hb1 Hv1. rewrite app_assoc.
  apply (read_one _ CV _ (message_wire EE ++ message_wire CT) (message_wire SF)); [done|rewrite length_app; lia|].
  apply client_certificate_verify; [by constructor|done|]. rewrite <- (app_nil_r (message_wire SF)), app_assoc.
  apply (read_one _ SF _ ((message_wire EE ++ message_wire CT) ++ message_wire CV) []); [done|rewrite !length_app; lia|].
  apply client_finished; [by constructor|by constructor|]. intros b2 Hb2 Hv2.
  match goal with |- wp _ (read_messages _ _ ?d ?o) _ _ _ => replace o with (len d) by (rewrite !length_app; change (length (A:=Z) []) with O; lia) end.
  apply read_end. split; [constructor; done|]. split; [constructor; done|]. split; [reflexivity|]. split; [reflexivity|]. split; [exact Hv2|reflexivity].
Qed.
Lemma client_writes_finished cap e :
  2048 ≤ cap → at_state c SendFinished (T4 ++ message_wire CF) e → pending_level e = Level.Handshake →
  Buf.vis (pending_write e) = message_wire CF →
  ∃ e', write_client grant cap e = (Ok (message_wire CF, Level.Handshake), e') ∧
    at_state c Complete (T4 ++ message_wire CF) e' ∧ complete e' = true ∧ pending_keys e' = pending_keys e ∧
    Buf.vis (pending_write e') = [] ∧ (∀ p l, negotiated e p l → negotiated e' p l).
Proof.
  intros Hcap [Hcfg Hst Htr Hp Hph Hcd] Hlev Hv. destruct CF_ok as [_ Lcf]. destruct (Buf.ok_clear BUF _ ltac:(done) Hp) as [Hcl Hcv].
  exists (e <| pending_write := Buf.clear (pending_write e) |> <| state := Complete |> <| complete := true |>).
  split; [|split; [constructor; done|split; [done|split; [done|split; [exact Hcv|intros p l []; constructor; done]]]]].
  unfold write_client. erewrite M_step_ok by reflexivity. rewrite Hst. erewrite M_step_ok by reflexivity. erewrite M_step_ok by reflexivity.
  erewrite M_step_lift by exact (Buf.ok_blen BUF _ Hp). rewrite Hv, Lcf. cbn [Z.eqb Pos.eqb]. rewrite (proj2 (Z.ltb_ge _ _)) by lia.
  erewrite M_step_lift by exact (Buf.ok_as_slice BUF _ Hp). erewrite M_step_ok by reflexivity. rewrite Hst, Hlev, Hv.
  by rewrite bool_decide_eq_true_2.
Qed.

Lemma server_finished e :
  at_state s WaitClientFinished T4 e → keyed e →
  succeeds (read_server grant Level.Handshake (message_wire CF)) (λ _ e',
    at_state s Complete (T4 ++ message_wire CF) e' ∧ complete e' = true ∧ pending_keys e' = Some (keys Level.Application sap cap_) ∧
    (∀ p l, negotiated e p l → negotiated e' p l)) e.
Proof.
  intros [Hcfg Hst Htr Hp Hph Hcd] [Hk Hch Hsh Hsuite]. destruct CF_ok as [Hm _]. destruct secrets_len as [Lc Ls].
  unfold succeeds, read_server. wps. rewrite Hst. eapply wp_lift_ok; [reflexivity|]. cbv beta. apply read_single; [done|].
  unfold server_message. wps. rewrite Hst. cbn [message_type CF]. unfold current_hash, add_transcript. wps. unfold process_client_finished. apply wp_bind.
  step_ok (body_back CF Hm). wps. cbn [client_handshake_secret update]. rewrite Hch, Htr. unfold Transcript.current_hash.
  destruct (finished_mac_ok chs (sha256 T4) Lc) as [Hmac _]. step_ok Hmac. rewrite ct_eq_refl. cbn [negb]. wps.
  apply (derive_application_ok _ _ _ _ shared); [exact Hk|by rewrite sha256_len|]. fold cap_ sap. wps.
  apply emit_keys_ok; [exact Hsuite|]. unfold set_state. wps. split; [constructor; done|]. split; [done|]. split; [reflexivity|].
  intros p l []. constructor; done.
Qed.
End messages.
End exchange.

(** The whole exchange, step by step. *)
Lemma handshake_runs `{Platform} `{PrimitiveLaws} grant c s :
  (∀ n, grant n = true) → client_ready c → server_ready s → compatible c s →
  ∃ ch c1 s1 sh s2 fl s3 c2 c3 fin c4 s4 (hc hs ac as_ : list Z),
    write_handshake grant 2048 c = (Ok (ch, Level.Initial), c1) ∧
    read_handshake grant Level.Initial ch s = (Ok tt, s1) ∧
    write_handshake grant 2048 s1 = (Ok (sh, Level.Initial), s2) ∧
    write_handshake grant 2048 s2 = (Ok (fl, Level.Handshake), s3) ∧
    read_handshake grant Level.Initial sh c1 = (Ok tt, c2) ∧
    read_handshake grant Level.Handshake fl c2 = (Ok tt, c3) ∧
    write_handshake grant 2048 c3 = (Ok (fin, Level.Handshake), c4) ∧
    read_handshake grant Level.Handshake fin s3 = (Ok tt, s4) ∧
    is_complete c4 = true ∧ is_complete s4 = true ∧
    pending_keys c2 = Some (keys Level.Handshake hc hs) ∧ pending_keys s1 = Some (keys Level.Handshake hs hc) ∧
    pending_keys c4 = Some (keys Level.Application ac as_) ∧ pending_keys s4 = Some (keys Level.Application as_ ac) ∧
    negotiated_alpn c4 = select_alpn (engine_alpn c) (engine_alpn s) ∧ negotiated_alpn s4 = negotiated_alpn c4 ∧
    peer_params c4 = params_of s ∧ peer_params s4 = params_of c ∧
    peer_record_size_limit s4 = local_record_size_limit c ∧
    peer_record_size_limit c4 = match local_record_size_limit c with Some _ => local_record_size_limit s | None => None end.
Proof.
  intros Hg Hc Hs Hcs. pose proof (client_ready_role c Hc) as Rc. pose proof (server_ready_role s Hs) as Rs.
  assert (∀ e0 st tr e, at_state e0 st tr e → role e = role e0) as Hrole by (intros ? ? ? ? [Hcfg _ _ _ _ _]; by injection Hcfg).
  destruct (succeeds_run _ _ _ (client_hello_written grant Hg c s Hc Hcs 2048 ltac:(done))) as (r1 & c1 & E1 & -> & A1 & K1' & _ & _).
  destruct (succeeds_run _ _ _ (server_hello_read grant Hg c s Hc Hs Hcs)) as (? & s1 & E2 & A2 & Ky & Ng & V1 & V2 & P2 & _).
  destruct (server_writes c s 2048 s1 ltac:(done) A2 V1 V2) as (s2 & s3 & E3 & E4 & A4 & R3 & P3 & P4 & _ & Ky' & Ng').
  destruct (succeeds_run _ _ _ (client_server_hello grant c s Hc Hs Hcs c1 A1 K1')) as (? & c2 & E5 & A5 & Ky5 & P5 & _).
  destruct (succeeds_run _ _ _ (client_flight grant Hg c s Hc Hs Hcs c2 A5 Ky5)) as (? & c3 & E6 & A6 & Ng6 & P6 & L6 & V6 & _).
  destruct (client_writes_finished grant c s 2048 c3 ltac:(done) A6 L6 V6) as (c4 & E7 & _ & D7 & P7 & _ & Ng7).
  destruct (succeeds_run _ _ _ (server_finished grant c s s3 A4 (Ky' Ky))) as (? & s4 & E8 & _ & D8 & P8 & Ng8).
  repeat match goal with x : unit |- _ => destruct x end.
  exists (message_wire (CH c)), c1, s1, (message_wire (SH c s)), s2, (flight c s), s3, c2, c3, (message_wire (CF c s)), c4, s4,
    (chs c s), (shs c s), (cap_ c s), (sap c s).
  unfold write_handshake, read_handshake, is_complete.
  rewrite R3.
  rewrite Rc, Rs, (Hrole _ _ _ _ A1), (Hrole _ _ _ _ A2), (Hrole _ _ _ _ A4), (Hrole _ _ _ _ A5), (Hrole _ _ _ _ A6), Rc, Rs.
  destruct (Ng7 _ _ Ng6) as [N1 N2 N3]. destruct (Ng8 _ _ (Ng' _ _ Ng)) as [M1 M2 M3]. unfold server_limit in N3.
  split_and!; try done; congruence.
Qed.

(** C2: A client and a server that fit together complete the handshake and agree.
    With buffers of 2048 bytes, whatever their keys, random values, protocols,
    transport parameters and mode (QUIC or TCP): the client's hello, the server's
    two flights and the client's Finished are accepted in turn, both sides end
    complete, and what one derives to send with is what the other derives to
    receive with, at the handshake and at the application level; they agree on the
    protocol (the first of the client's the server has), and each holds the other's
    transport parameters and record size limit; a server that was sent no limit
    sends none back, and then the client holds none. *)
Theorem tls_handshake_agrees `{Platform} `{PrimitiveLaws} grant c s :
  (∀ n, grant n = true) → client_ready c → server_ready s → compatible c s →
  ∃ ch c1 s1 sh s2 fl s3 c2 c3 fin c4 s4 (hc hs ac as_ : list Z),
    write_handshake grant 2048 c = (Ok (ch, Level.Initial), c1) ∧
    read_handshake grant Level.Initial ch s = (Ok tt, s1) ∧
    write_handshake grant 2048 s1 = (Ok (sh, Level.Initial), s2) ∧
    write_handshake grant 2048 s2 = (Ok (fl, Level.Handshake), s3) ∧
    read_handshake grant Level.Initial sh c1 = (Ok tt, c2) ∧
    read_handshake grant Level.Handshake fl c2 = (Ok tt, c3) ∧
    write_handshake grant 2048 c3 = (Ok (fin, Level.Handshake), c4) ∧
    read_handshake grant Level.Handshake fin s3 = (Ok tt, s4) ∧
    is_complete c4 = true ∧ is_complete s4 = true ∧
    pending_keys c2 = Some (keys Level.Handshake hc hs) ∧ pending_keys s1 = Some (keys Level.Handshake hs hc) ∧
    pending_keys c4 = Some (keys Level.Application ac as_) ∧ pending_keys s4 = Some (keys Level.Application as_ ac) ∧
    negotiated_alpn c4 = select_alpn (engine_alpn c) (engine_alpn s) ∧ negotiated_alpn s4 = negotiated_alpn c4 ∧
    peer_params c4 = params_of s ∧ peer_params s4 = params_of c ∧
    peer_record_size_limit s4 = local_record_size_limit c ∧
    peer_record_size_limit c4 = match local_record_size_limit c with Some _ => local_record_size_limit s | None => None end.
Proof. apply handshake_runs. Qed.

(** ** Fresh engines are ready *)

Lemma new_client_ready `{Platform} `{PrimitiveLaws} conf secret random :
  len random = 32 → TransportParams.wf (config_params conf) → len (config_server_name conf) ≤ 64 →
  protos_ok (config_alpn conf) → [] ∉ config_alpn conf →
  client_ready (new_client conf secret random) ∧ client_ready (new_tcp_client conf secret random).
Proof.
  intros. assert (Buf.ok BUF Buf.new) by (by apply Buf.ok_new).
  split; constructor; try done; constructor; done.
Qed.
Lemma new_server_ready `{Platform} `{PrimitiveLaws} conf secret random :
  len random = 32 → TransportParams.wf (config_server_params conf) →
  len (config_cert_der conf) ≤ 1600 → certified (config_cert_der conf) (config_private_key conf) →
  server_ready (new_server conf secret random) ∧ server_ready (new_tcp_server conf secret random).
Proof.
  intros. assert (Buf.ok BUF Buf.new) by (by apply Buf.ok_new).
  split; constructor; try done; constructor; done.
Qed.

(** A server with an Ed25519 certificate of its own and a client that pins it. *)
Definition demo_seed : list Z := replicate 32 5.
Definition demo_cert : list Z :=
  Eval vm_compute in
    match scratch 512 (Ed25519.build_ed25519_cert_der demo_seed) with Ok c => c | _ => [] end.
Definition demo_client `{Primitives} : t :=
  new_client {| config_server_name := bytes "a.example"; config_alpn := [bytes "h2"; bytes "h3"];
                config_params := TransportParams.default_params; config_pinned := [demo_cert] |}
    (replicate 32 9) (replicate 32 1).
Definition demo_server `{Primitives} : t :=
  new_server {| config_cert_der := demo_cert; config_private_key := demo_seed; config_server_alpn := [bytes "h3"];
                config_server_params := TransportParams.default_params |} (replicate 32 7) (replicate 32 2).

#[local] Existing Instance platform64.
#[local] Existing Instance Toy.toy.
Lemma demo_ready : client_ready demo_client ∧ server_ready demo_server ∧ compatible demo_client demo_server.
Proof.
  split_and!.
  - apply new_client_ready; [done|apply TransportParams.wf_default|by vm_compute| |].
    + split; [by vm_compute|]. repeat constructor; by vm_compute.
    + by apply (bool_decide_unpack _).
  - apply new_server_ready; [done|apply TransportParams.wf_default|by vm_compute|].
    split; [done|]. vm_compute. reflexivity.
  - constructor.
    + by vm_compute.
    + right; right. by vm_compute.
    + right. apply list_elem_of_here.
    + by vm_compute.
Qed.
Lemma tls_handshake_agrees_witness :
  ∃ ch c1 s1, write_handshake (λ _, true) 2048 demo_client = (Ok (ch, Level.Initial), c1) ∧
    read_handshake (λ _, true) Level.Initial ch demo_server = (Ok tt, s1).
Proof.
  destruct demo_ready as (Hc & Hs & Hcs).
  destruct (tls_handshake_agrees (λ _, true) demo_client demo_server (λ _, eq_refl) Hc Hs Hcs)
    as (ch & c1 & s1 & ? & ? & ? & ? & ? & ? & ? & ? & ? & ? & ? & ? & ? & H1 & H2 & _).
  exists ch, c1, s1. split; [exact H1|exact H2].
Defined.
