(* ===== verification/TlsAuth.v ===== *)
(** * What a completed handshake proves about the peer

    Whatever bytes arrive, at whatever level and however the calls interleave: an
    engine that finishes has checked the peer's Finished, and a client the
    server's certificate and signature, over the transcript the keys are bound
    to. *)
From stdpp Require Import strings.
From S2P Require Import Prelude Errors Hoare Buf TlsParams TlsMessages TlsExtensions Recovery Crypto Certificate TlsHandshake TlsExchange.

Import Messages Extensions Tls.

(** ** Runs of an engine *)

Section auth.
Context `{Platform} `{PrimitiveLaws}.
Variable grant : Z → bool.

(** Any sequence of the calls of [TlsSession]; a failed call may be followed by
    others, a panic ends the program. *)
Inductive run : t → t → Prop :=
| run_done e : run e e
| run_read lvl data r e e' e'' :
    read_handshake grant lvl data e = (r, e') → r ≠ Panic → run e' e'' → run e e''
| run_write cap r e e' e'' :
    write_handshake grant cap e = (r, e') → r ≠ Panic → run e' e'' → run e e''
| run_keys e e'' : run (derived_keys e).2 e'' → run e e''.

Lemma run_invariant (I : t → Prop) :
  (∀ lvl data e, I e → wp True (read_handshake grant lvl data) (λ _, I) (λ _, I) e) →
  (∀ cap e, I e → wp True (write_handshake grant cap) (λ _, I) (λ _, I) e) →
  (∀ e, I e → I (derived_keys e).2) →
  ∀ e e', run e e' → I e → I e'.
Proof.
  intros Hr Hw Hk e e' Hrun. induction Hrun as [| lvl data r e e' e'' E Hp _ IH| cap r e e' e'' E Hp _ IH|]; intros HI; [done|..].
  - apply IH. specialize (Hr lvl data e HI). unfold wp in Hr. rewrite E in Hr. by destruct r.
  - apply IH. specialize (Hw cap e HI). unfold wp in Hw. rewrite E in Hw. by destruct r.
  - by apply IHHrun, Hk.
Qed.

(** The message loop hands each message over as its header and body. *)
Lemma read_messages_invariant (I : t → Prop) on_message fuel data off e :
  (∀ ty hdr body e, len hdr = 4 → I e → wp True (on_message ty (hdr ++ body) body) (λ _, I) (λ _, I) e) →
  I e → wp True (read_messages on_message fuel data off) (λ _, I) (λ _, I) e.
Proof.
  intros Hm. revert off e. induction fuel as [|fuel IH]; intros off e HI; cbn [read_messages]; (destruct (off <? len data); [|done]); [done|].
  apply wp_bind, wp_lift. destruct (slice_from data off) as [rem| |]; [|done..].
  apply wp_bind, wp_lift. destruct (read_handshake_header rem) as [[ty n]| |] eqn:Eh; [|done..].
  destruct (Z.ltb_spec (len rem) (4 + n)); [done|]. apply wp_bind, wp_lift. destruct (slice rem 0 (4 + n)) as [full| |] eqn:E1; [|done..].
  apply wp_bind, wp_lift. destruct (slice rem 4 (4 + n)) as [body| |] eqn:E2; [|done..].
  apply wp_bind, wp_lift. destruct (ok_or Tls (HandshakeType.from_u8 ty)) as [mt| |]; [|done..]. apply wp_bind.
  assert (∃ hdr, len hdr = 4 ∧ full = hdr ++ body) as (hdr & Lh & ->).
  { revert E1 E2. unfold slice. case_decide as Hd; [|done]. case_decide; [|done]. intros [= <-] [= <-].
    exists (take 4 rem). split; [rewrite length_take; lia|]. rewrite Z.sub_0_r, drop_0.
    replace (Z.to_nat (4 + n)) with (4 + Z.to_nat (4 + n - 4))%nat by lia. symmetry. apply take_take_drop. }
  eapply wp_mono; [by apply Hm| |done]. intros [] e' HI'. by apply IH.
Qed.

(** ** What has been checked, and over which transcript *)

(** The transcript [t] ends with a message of body [body]. *)
Definition ends (before body t : list Z) : Prop := ∃ hdr, len hdr = 4 ∧ t = before ++ hdr ++ body.

(** Up to [t1] the hellos: the traffic secrets come from the exchange of [secret]
    with the share of the server's hello, and depend on [t1]. *)
Definition server_hello_share (body pk : list Z) : Prop :=
  ∃ sh ext, parse_server_hello body = Ok sh ∧ sh_cipher_suite sh ∈ cipher_suites ∧
    parse_server_hello_extensions (sh_extensions sh) = Ok ext ∧ selected_version ext = 0x0304 ∧ sh_key_share ext = Some pk.
Definition traffic_secrets (shared t1 : list Z) (e : t) : Prop :=
  forallb (λ b, b =? 0) shared = false ∧ client_handshake_secret e = c_hs shared (sha256 t1) ∧
  server_handshake_secret e = s_hs shared (sha256 t1) ∧
  TlsKeySchedule.handshake_secret (key_schedule e) = TlsKeySchedule.handshake_secret (K1 shared).
Definition client_keyed (shared t1 : list Z) (e : t) : Prop :=
  ∃ before body pk, ends before body t1 ∧ server_hello_share body pk ∧ shared = x25519 (private_key e) pk ∧
    traffic_secrets shared t1 e.

(** The certificate held is an accepted one, and its key signed a transcript that
    extends [t1]. *)
Definition signed (t1 t2 : list Z) (e : t) : Prop :=
  ∃ before body cv cert, t1 `prefix_of` before ∧ ends before body t2 ∧ parse_certificate_verify body = Ok cv ∧
    Buf.as_slice (E:=Error) (server_cert_data e) = Ok cert ∧ (pinned_certs e = [] ∨ cert ∈ pinned_certs e) ∧
    verifies (algorithm cv) cert (signature cv) (sha256 before) = Ok tt.

(** A Finished message under [secret] for a transcript that extends [t2]. *)
Definition confirmed (secret t2 before t3 : list Z) : Prop :=
  ∃ body, t2 `prefix_of` before ∧ ends before body t3 ∧ parse_finished body = Ok (mac secret (sha256 before)).

Definition app_secrets (shared t3 : list Z) (e : t) : Prop :=
  client_app_secret e = c_ap (K1 shared) (sha256 t3) ∧ server_app_secret e = s_ap (K1 shared) (sha256 t3).

Definition client_checked (e : t) : Prop :=
  ∃ shared t1 t2 before t3, client_keyed shared t1 e ∧ signed t1 t2 e ∧
    confirmed (server_handshake_secret e) t2 before t3 ∧ t3 `prefix_of` transcript e ∧ app_secrets shared t3 e.

(** What no call changes. *)
Variables (sk : list Z) (pins : list (list Z)).
Definition ident (e : t) : Role * list Z * list (list Z) := (role e, private_key e, pinned_certs e).
Lemma ident_inv r e : ident e = (r, sk, pins) → role e = r ∧ private_key e = sk ∧ pinned_certs e = pins.
Proof. by intros [= -> -> ->]. Qed.

(** What a client has established in each state. *)
Definition client_inv (e : t) : Prop :=
  ident e = (Client, sk, pins) ∧ (complete e = true → state e = Complete) ∧
  TlsKeySchedule.early_secret (key_schedule e) = TlsKeySchedule.early_secret K0 ∧
  match state e with
  | Start | WaitServerHello => True
  | WaitEncryptedExtensions | WaitCertificate | WaitCertificateVerify =>
      ∃ shared t1, client_keyed shared t1 e ∧ t1 `prefix_of` transcript e
  | WaitFinished => ∃ shared t1 t2, client_keyed shared t1 e ∧ signed t1 t2 e ∧ t2 `prefix_of` transcript e
  | SendFinished | Complete => client_checked e
  | _ => False
  end.

Lemma ct_diff_zero d a b : length a = length b → ct_diff d a b = 0 → d = 0 ∧ a = b.
Proof.
  revert d b. induction a as [|x a IH]; intros d [|y b] Hl Hd; [done..|]. simpl in *.
  apply IH in Hd as [Hd ->]; [|lia]. apply Z.lor_eq_0_iff in Hd as [-> Hx]. by apply Z.lxor_eq in Hx as ->.
Qed.
Lemma ct_eq_true a b : ct_eq a b = true → a = b.
Proof.
  unfold ct_eq. destruct (Z.eqb_spec (len a) (len b)); [|done]. cbn [negb]. intros Hd%Z.eqb_eq. eapply ct_diff_zero; [lia|done].
Qed.

Lemma derive_handshake_keyed pk (Q : unit → t → Prop) (R : Error → t → Prop) e :
  TlsKeySchedule.early_secret (key_schedule e) = TlsKeySchedule.early_secret K0 → R Tls e →
  (let shared := x25519 (private_key e) pk in forallb (λ b, b =? 0) shared = false →
   Q tt (e <| key_schedule := (key_schedule e) <| TlsKeySchedule.handshake_secret := TlsKeySchedule.handshake_secret (K1 shared) |> |>
           <| client_handshake_secret := c_hs shared (sha256 (transcript e)) |>
           <| server_handshake_secret := s_hs shared (sha256 (transcript e)) |>)) →
  wp True (derive_handshake pk) Q R e.
Proof.
  intros Hk HR HQ. unfold derive_handshake. wps. cbv zeta in HQ. set (shared := x25519 _ pk) in *.
  destruct (forallb _ shared); [done|]. specialize (HQ eq_refl). apply wp_bind. unfold TlsKeySchedule.derive_handshake_secret. rewrite Hk.
  destruct (label_ok (TlsKeySchedule.early_secret K0) (bytes "derived") TlsKeySchedule.empty_transcript_hash) as [Hl _];
    [rewrite K0_len; done|by vm_compute|rewrite empty_hash_len; done|]. rewrite Hl. eapply wp_lift_ok; [reflexivity|]. unfold current_hash. wps.
  unfold wp, store_handshake_secrets, TlsKeySchedule.derive_handshake_traffic_secrets. cbn [key_schedule update].
  rewrite derive_pair_label; [exact HQ|apply extract_len|by vm_compute..|]. unfold Transcript.current_hash. by rewrite sha256_len.
Qed.

Lemma derive_application_keyed th (Q : unit → t → Prop) R shared e :
  TlsKeySchedule.handshake_secret (key_schedule e) = TlsKeySchedule.handshake_secret (K1 shared) → len th = 32 →
  Q tt (e <| key_schedule := (key_schedule e) <| TlsKeySchedule.master_secret := TlsKeySchedule.master_secret (K2 (K1 shared)) |> |>
          <| client_app_secret := c_ap (K1 shared) th |> <| server_app_secret := s_ap (K1 shared) th |>) →
  wp True (derive_application th) Q R e.
Proof.
  intros Hk Ht HQ. unfold derive_application. wps. unfold TlsKeySchedule.derive_master_secret. rewrite Hk.
  destruct (label_ok (TlsKeySchedule.handshake_secret (K1 shared)) (bytes "derived") TlsKeySchedule.empty_transcript_hash) as [Hl _];
    [rewrite K1_len; done|by vm_compute|rewrite empty_hash_len; done|]. rewrite Hl. eapply wp_lift_ok; [reflexivity|]. wps.
  unfold wp, store_app_secrets, TlsKeySchedule.derive_app_traffic_secrets. cbn [key_schedule update].
  rewrite derive_pair_label; [exact HQ|apply extract_len|by vm_compute..|lia].
Qed.

(** A fallible call: the goal for its value is left, an error keeps the invariant. *)
Tactic Notation "branch" ident(x) ident(E) :=
  lazymatch goal with |- wp _ (_ ≫= _) _ _ _ => apply wp_bind | _ => idtac end;
  lazymatch goal with
  | |- wp _ (lift ?r) _ _ _ => apply wp_lift; destruct r as [x|?|] eqn:E; [| |done]
  end.
Tactic Notation "fails" ident(x) ident(E) := branch x E; [|first [assumption|done]].

Lemma client_inv_transcript m e : client_inv e → client_inv (e <| transcript := transcript e ++ m |>).
Proof.
  assert (∀ t1, t1 `prefix_of` transcript e → t1 `prefix_of` transcript e ++ m) as Hp by (intros; by apply prefix_app_r).
  intros (Hr & Hc & He & HI). split_and!; [done..|]. cbn [state update transcript]. destruct (state e); try done.
  1-3: destruct HI as (sh & t1 & Hk & Ht); exists sh, t1; split; [exact Hk|by apply Hp].
  - destruct HI as (sh & t1 & t2 & Hk & Hs & Ht). exists sh, t1, t2. split_and!; [exact Hk|exact Hs|by apply Hp].
  - destruct HI as (sh & t1 & t2 & b & t3 & Hk & Hs & Hf & Ht & Ha). exists sh, t1, t2, b, t3. split_and!; [exact Hk|exact Hs|exact Hf|by apply Hp|apply Ha..].
  - destruct HI as (sh & t1 & t2 & b & t3 & Hk & Hs & Hf & Ht & Ha). exists sh, t1, t2, b, t3. split_and!; [exact Hk|exact Hs|exact Hf|by apply Hp|apply Ha..].
Qed.

Definition keeps (P : t → Prop) {A} (m : M Error t A) (e : t) : Prop := wp True m (λ _, P) (λ _, P) e.

Lemma server_hello_inv before body e :
  client_inv e → state e = WaitServerHello → ends before body (transcript e) →
  keeps client_inv (process_server_hello body) e.
Proof.
  intros HI Hst Hends. unfold keeps, process_server_hello. fails sh E1. case_bool_decide as Hin; [|exact HI]. cbn [negb]. wps.
  fails ext E2. destruct (Z.eqb_spec (selected_version ext) 0x0304) as [Hv|]; [|exact HI]. cbn [negb].
  apply wp_bind, wp_lift. destruct (sh_key_share ext) as [pk|] eqn:Hpk; [|exact HI]. cbn [ok_or].
  destruct HI as (Hr & Hc & He & HI). apply wp_bind, derive_handshake_keyed; [exact He|by split_and!; [..|cbn; rewrite Hst]|].
  cbv zeta. cbn [private_key update transcript]. intros Hz. unfold emit_keys, set_state. wps. apply wp_lift. cbn. wps.
  split_and!; [done|intros Hx; rewrite (Hc Hx) in Hst; done|exact He|]. cbn [state update transcript].
  eexists _, (transcript e). split; [|done]. exists before, body, pk. split_and!; [done|by exists sh, ext|done|done..].
Qed.

(** A state with the same facts as [e] and a later stage of the same ones. *)
Lemma client_keyed_stage st e shared t1 :
  ident e = (Client, sk, pins) → (complete e = true → state e = Complete) → state e ≠ Complete →
  TlsKeySchedule.early_secret (key_schedule e) = TlsKeySchedule.early_secret K0 →
  client_keyed shared t1 e → t1 `prefix_of` transcript e →
  st = WaitEncryptedExtensions ∨ st = WaitCertificate ∨ st = WaitCertificateVerify → client_inv (e <| state := st |>).
Proof.
  intros Hr Hc Hn He Hk Ht Hin. split_and!; [exact Hr|intros Hx; by destruct Hn; apply Hc|exact He|]. cbn [state update].
  assert (∃ shared t1, client_keyed shared t1 (e <| state := st |>) ∧ t1 `prefix_of` transcript e) by (exists shared, t1; split; [exact Hk|done]).
  by destruct Hin as [-> |[-> | ->]].
Qed.

Lemma encrypted_extensions_inv body e :
  client_inv e → state e = WaitEncryptedExtensions → keeps client_inv (process_encrypted_extensions body) e.
Proof.
  intros HI Hst. unfold keeps, process_encrypted_extensions. fails d E1. fails p E2. wps.
  assert (client_inv (e <| negotiated_alpn := alpn p |> <| peer_params := ee_transport_params p |>
    <| peer_record_size_limit := ee_record_size_limit p |> <| state := WaitCertificate |>)) as HI'.
  { destruct HI as (Hr & Hc & He & HI). rewrite Hst in HI. destruct HI as (shared & t1 & Hk & Ht).
    apply (client_keyed_stage WaitCertificate (e <| negotiated_alpn := alpn p |> <| peer_params := ee_transport_params p |>
      <| peer_record_size_limit := ee_record_size_limit p |>) shared t1); try done.
    - cbn. by rewrite Hst.
    - right; by left. }
  unfold set_state. cbn [local_record_size_limit update]. destruct (ee_record_size_limit p), (local_record_size_limit e); wps; exact HI || exact HI'.
Qed.

Lemma certificate_inv body e :
  client_inv e → state e = WaitCertificate → keeps client_inv (process_certificate grant body) e.
Proof.
  intros HI Hst. unfold keeps, process_certificate. fails ct E1. wps.
  assert (∀ b, client_inv (e <| server_cert_data := b |>)) as Hb.
  { intros b. destruct HI as (Hr & Hc & He & HI). rewrite Hst in HI. split_and!; [done..|]. cbn. rewrite Hst. exact HI. }
  fails first E2.
  assert (∀ b, client_inv (e <| server_cert_data := b |> <| state := WaitCertificateVerify |>)) as Hb'.
  { intros b. destruct HI as (Hr & Hc & He & HI). rewrite Hst in HI. destruct HI as (shared & t1 & Hk & Ht).
    apply (client_keyed_stage WaitCertificateVerify (e <| server_cert_data := b |>) shared t1); try done; [cbn; by rewrite Hst|by right; right]. }
  unfold set_state. destruct first as [r|]; wps; [|exact (Hb' _)]. apply wp_lift. destruct r as [en| |]; [|exact (Hb _)|done].
  unfold store_certificate, wp. destruct (Buf.buf_extend_from_slice _ _ _ _); [exact (Hb' _)|exact (Hb' _)|done].
Qed.

Lemma certificate_verify_inv hdr body e :
  client_inv e → state e = WaitCertificateVerify → len hdr = 4 →
  keeps client_inv (process_certificate_verify body (sha256 (transcript e))) (e <| transcript := transcript e ++ hdr ++ body |>).
Proof.
  intros HI Hst Lh. pose proof (client_inv_transcript (hdr ++ body) e HI) as HI'. unfold keeps, process_certificate_verify.
  fails cv E1. wps. fails cert E2. destruct (_ && _) eqn:Hpin; [exact HI'|]. fails u E3. destruct u. unfold set_state. wps.
  destruct HI as (Hr & Hc & He & HI). rewrite Hst in HI. destruct HI as (shared & t1 & Hk & Ht).
  split_and!; [done|intros Hx; by rewrite (Hc Hx) in Hst|exact He|]. cbn [state update transcript].
  exists shared, t1, (transcript e ++ hdr ++ body). split_and!; [exact Hk| |done].
  exists (transcript e), body, cv, cert. split_and!; [done|by exists hdr|done|done| |done].
  apply andb_false_iff in Hpin as [Hp|Hp]; apply negb_false_iff in Hp.
  - left. apply Z.eqb_eq in Hp. cbn in Hp |- *. by destruct (pinned_certs e).
  - right. by apply bool_decide_eq_true in Hp.
Qed.

Lemma finished_mac_eq base th m : len base = 32 → finished_mac base th = Ok m → m = mac base th.
Proof. intros Hb. destruct (finished_mac_ok base th Hb) as [-> _]. by intros [= <-]. Qed.
Lemma secret_len32 shared t1 : len (s_hs shared (sha256 t1)) = 32 ∧ len (c_hs shared (sha256 t1)) = 32.
Proof. split; (apply label_ok; [apply K1_len|by vm_compute|by rewrite sha256_len]). Qed.

(** Setting [pending_write] aside. *)
Lemma set_pending_inv (P : t → Prop) msg (Q : unit → t → Prop) e :
  P e → (∀ b, P (e <| pending_write := b |>)) → (∀ b, Q tt (e <| pending_write := b |>)) →
  wp True (set_pending grant msg) Q (λ _, P) e.
Proof. intros HP Hb HQ. unfold set_pending. wps. apply wp_lift. case_match; [wps; exact (HQ _)|exact (Hb _)|done]. Qed.

Lemma server_finished_inv hdr body e :
  client_inv e → state e = WaitFinished → len hdr = 4 →
  keeps client_inv (process_server_finished grant body (sha256 (transcript e))) (e <| transcript := transcript e ++ hdr ++ body |>).
Proof.
  intros HI Hst Lh. pose proof (client_inv_transcript (hdr ++ body) e HI) as HI'. unfold keeps, process_server_finished.
  fails vd E1. wps. fails expected E2. destruct (ct_eq expected vd) eqn:Hct; [|exact HI']. cbn [negb]. apply ct_eq_true in Hct as <-.
  destruct HI as (Hr & Hc & He & HI). rewrite Hst in HI. destruct HI as (shared & t1 & t2 & Hk & Hs & Ht).
  assert (complete e = false) as Hnc by (destruct (complete e); [rewrite Hc in Hst|]; done).
  destruct (Hk) as (before & b0 & pk & _ & _ & _ & Hz & Hcs & Hss & Hks). destruct (secret_len32 shared t1) as [L1 L2].
  cbn [server_handshake_secret update] in E2. apply finished_mac_eq in E2 as ->; [|by rewrite Hss].
  set (T := transcript e ++ hdr ++ body) in *.
  set (done_ := λ T' ks b, e <| transcript := T' |>
    <| key_schedule := (key_schedule e) <| TlsKeySchedule.master_secret := TlsKeySchedule.master_secret (K2 (K1 shared)) |> |>
    <| client_app_secret := c_ap (K1 shared) (sha256 T) |> <| server_app_secret := s_ap (K1 shared) (sha256 T) |>
    <| pending_keys := ks |> <| pending_write := b |>).
  assert (t2 `prefix_of` T) as Ht' by by apply prefix_app_r.
  assert (∀ T' ks b, T `prefix_of` T' → client_inv (done_ T' ks b)) as Hstay.
  { intros T' ks b HT. split_and!; [done|exact Hc|exact He|]. cbn -[prefix]. rewrite Hst. exists shared, t1, t2.
    split_and!; [exact Hk|exact Hs|by transitivity T]. }
  assert (∀ T' ks b, T `prefix_of` T' → client_inv ((done_ T' ks b) <| pending_level := Level.Handshake |> <| state := SendFinished |>)) as Hgo.
  { intros T' ks b HT. split_and!; [done|by cbn; rewrite Hnc|exact He|]. cbn [state update].
    exists shared, t1, t2, (transcript e), T. split_and!; [exact Hk|exact Hs| |exact HT|done..].
    exists body. split_and!; [done|by exists hdr|exact E1]. }
  unfold current_hash. wps. cbn [transcript update]. unfold Transcript.current_hash.
  apply (derive_application_keyed _ _ _ shared); [exact Hks|apply sha256_len|]. unfold emit_keys. wps.
  branch suite E3; [|exact (Hstay T (pending_keys e) (pending_write e) ltac:(done))]. wps.
  set (ks := Some (MkDerivedKeys Level.Application suite _ _ 32)).
  branch cv E4; [|exact (Hstay T ks (pending_write e) ltac:(done))]. branch fin E5; [|exact (Hstay T ks (pending_write e) ltac:(done))]. unfold add_transcript. wps.
  assert (T `prefix_of` T ++ fin) as Hfin by by apply prefix_app_r.
  apply (set_pending_inv client_inv); [exact (Hstay (T ++ fin) ks (pending_write e) Hfin)|intros b; exact (Hstay (T ++ fin) ks b Hfin)|]. intros b. unfold set_state. wps. exact (Hgo (T ++ fin) ks b Hfin).
Qed.

Lemma client_message_inv ty hdr body e :
  len hdr = 4 → client_inv e → keeps client_inv (client_message grant ty (hdr ++ body) body) e.
Proof.
  intros Lh HI. pose proof (client_inv_transcript (hdr ++ body) e HI) as HI'. unfold keeps, client_message. wps.
  destruct (state e) eqn:Hst, ty; try exact HI; unfold current_hash, add_transcript; wps.
  - eapply server_hello_inv; [exact HI'|exact Hst|by exists hdr].
  - by apply encrypted_extensions_inv.
  - by apply certificate_inv.
  - by apply certificate_verify_inv.
  - by apply server_finished_inv.
Qed.

Lemma client_hello_inv random e :
  client_inv e → state e = Start → keeps (λ e', client_inv e' ∧ (state e' = Start ∨ state e' = WaitServerHello)) (build_client_hello grant random) e.
Proof.
  intros HI Hst. set (P := λ e' : t, client_inv e' ∧ (state e' = Start ∨ state e' = WaitServerHello)).
  assert (P e) as HP by (split; [done|by left]). unfold keeps, build_client_hello. wps. fails ext E1.
  destruct (_ =? 0); [exact HP|]. fails msg E2. unfold add_transcript. wps.
  assert (∀ b, P (e <| transcript := transcript e ++ msg |> <| pending_write := b |>)) as Hb.
  { intros b. split; [|by left]. pose proof (client_inv_transcript msg e HI) as (? & ? & ? & _). split_and!; [done..|]. cbn. by rewrite Hst. }
  apply (set_pending_inv P); [exact (Hb (pending_write e))|exact Hb|]. intros b. unfold set_state. wps.
  destruct (Hb b) as [(Hr & Hc & He & _) _]. split; [|by right]. split_and!; [done| |done|done].
  intros Hx. specialize (Hc Hx). cbn in Hc. by rewrite Hst in Hc.
Qed.

(** What is left once there is something to write, or not. *)
Lemma client_inv_pending b e : client_inv e → client_inv (e <| pending_write := b |>).
Proof. intros (Hr & Hc & He & HI). split_and!; [done..|]. cbn. destruct (state e); exact HI. Qed.

Lemma write_client_inv cap e : client_inv e → keeps client_inv (write_client grant cap) e.
Proof.
  intros HI. unfold keeps, write_client. apply wp_bind, wp_get, wp_bind.
  apply (wp_mono _ _ (λ _, client_inv) _ (λ _, client_inv)); [| |done].
  - destruct (state e) eqn:Hst; try exact HI. wp_use client_hello_inv; [done|done|by intros ? ? []..].
  - clear e HI. intros [] e HI. wps. fails n E1. destruct (_ =? 0); [exact HI|]. destruct (_ <? _); [exact HI|]. fails out E2. wps.
    pose proof (client_inv_pending (Buf.clear (pending_write e)) e HI) as HI'. case_bool_decide as Hst; wps; [|exact HI'].
    destruct HI' as (Hr & Hc & He & HI'). split_and!; [done..|]. cbn in HI' |- *. rewrite Hst in HI'. exact HI'.
Qed.

Lemma client_run_inv e e' : run e e' → client_inv e → client_inv e'.
Proof.
  apply run_invariant.
  - intros lvl data e0 HI. unfold wp, read_handshake. pose proof HI as ((Hr & _)%ident_inv & _). rewrite Hr.
    assert (keeps client_inv (read_client grant lvl data) e0) as Hk; [|exact Hk].
    unfold keeps, read_client. wps. fails u E1. apply read_messages_invariant; [|done]. intros. by apply client_message_inv.
  - intros cap e0 HI. unfold wp, write_handshake. pose proof HI as ((Hr & _)%ident_inv & _). rewrite Hr. by apply write_client_inv.
  - intros e0 (Hr & Hc & He & HI). split_and!; [done..|]. cbn. destruct (state e0); exact HI.
Qed.

(** ** The server *)

Definition client_hello_share (body pk : list Z) : Prop :=
  ∃ ch ext, parse_client_hello body = Ok ch ∧ parse_client_hello_extensions (ch_extensions ch) = Ok ext ∧
    supports_tls13 ext = true ∧ key_share ext = Some pk.
Definition server_keyed (shared t1 : list Z) (e : t) : Prop :=
  ∃ before body pk t0 sh, ends before body t0 ∧ client_hello_share body pk ∧ t1 = t0 ++ sh ∧
    shared = x25519 (private_key e) pk ∧ traffic_secrets shared t1 e.
Definition server_checked (e : t) : Prop :=
  ∃ shared t1 before t3, server_keyed shared t1 e ∧ confirmed (client_handshake_secret e) t1 before t3 ∧
    t3 `prefix_of` transcript e ∧ app_secrets shared before e.

Definition server_inv (e : t) : Prop :=
  ident e = (Server, sk, pins) ∧ (complete e = true → state e = Complete) ∧
  TlsKeySchedule.early_secret (key_schedule e) = TlsKeySchedule.early_secret K0 ∧
  match state e with
  | WaitClientHello => True
  | SendServerFlightInitial | SendServerFlightHandshake | WaitClientFinished =>
      ∃ shared t1, server_keyed shared t1 e ∧ t1 `prefix_of` transcript e
  | Complete => server_checked e
  | _ => False
  end.

Lemma server_inv_transcript m e : server_inv e → server_inv (e <| transcript := transcript e ++ m |>).
Proof.
  assert (∀ t1, t1 `prefix_of` transcript e → t1 `prefix_of` transcript e ++ m) as Hp by (intros; by apply prefix_app_r).
  intros (Hr & Hc & He & HI). split_and!; [done..|]. cbn [state update transcript]. destruct (state e); try done.
  1-3: destruct HI as (sh & t1 & Hk & Ht); exists sh, t1; split; [exact Hk|by apply Hp].
  destruct HI as (sh & t1 & b & t3 & Hk & Hf & Ht & Ha). exists sh, t1, b, t3. split_and!; [exact Hk|exact Hf|by apply Hp|apply Ha..].
Qed.

(** Building the flight only extends the transcript. *)
Lemma build_flight_keeps (P : t → Prop) alpn e :
  (∀ m e, P e → P (e <| transcript := transcript e ++ m |>)) → P e → keeps P (build_flight alpn) e.
Proof.
  intros HP He. unfold keeps, build_flight. wps. fails x E1. fails r1 E2. destruct r1 as [ee hs]. unfold add_transcript, current_hash. wps.
  apply (HP ee) in He. destruct (_ <? _); [exact He|]. fails r2 E3. destruct r2 as [ct hs2]. wps. apply (HP ct) in He. fails cv E4.
  destruct (_ <? _); [exact He|]. fails b E5. wps. apply (HP cv) in He. fails k E6. wps. fails vd E7. fails r3 E8. destruct r3 as [fin hs3].
  wps. apply (HP fin) in He. fails out E9. exact He.
Qed.

Lemma client_finished_inv hdr body e :
  server_inv e → state e = WaitClientFinished → len hdr = 4 →
  keeps server_inv (process_client_finished body (sha256 (transcript e))) (e <| transcript := transcript e ++ hdr ++ body |>).
Proof.
  intros HI Hst Lh. pose proof (server_inv_transcript (hdr ++ body) e HI) as HI'. unfold keeps, process_client_finished.
  fails vd E1. wps. fails expected E2. destruct (ct_eq expected vd) eqn:Hct; [|exact HI']. cbn [negb]. apply ct_eq_true in Hct as <-.
  destruct HI as (Hr & Hc & He & HI). rewrite Hst in HI. destruct HI as (shared & t1 & Hk & Ht).
  destruct (Hk) as (before & b0 & pk & t0 & sh & _ & _ & _ & _ & Hz & Hcs & Hss & Hks). destruct (secret_len32 shared t1) as [L1 L2].
  cbn [client_handshake_secret update] in E2. apply finished_mac_eq in E2 as ->; [|by rewrite Hcs].
  apply wp_bind, (derive_application_keyed _ _ _ shared); [exact Hks|apply sha256_len|]. unfold emit_keys, set_state. wps.
  set (T := transcript e ++ hdr ++ body) in *. assert (t1 `prefix_of` T) as Ht' by by apply prefix_app_r.
  branch suite E3.
  - wps. split_and!; [done|done|exact He|]. cbn [state update transcript]. exists shared, t1, (transcript e), T.
    split_and!; [exact Hk| |done|done..]. exists body. split_and!; [done|by exists hdr|exact E1].
  - split_and!; [done|exact Hc|exact He|]. cbn -[prefix]. rewrite Hst. exists shared, t1. split; [exact Hk|done].
Qed.

(** The server's state between a hello and its flights. *)
Definition server_waits (e : t) : Prop :=
  ident e = (Server, sk, pins) ∧ complete e = false ∧ state e = WaitClientHello ∧
  TlsKeySchedule.early_secret (key_schedule e) = TlsKeySchedule.early_secret K0.
Lemma server_waits_inv e : server_waits e → server_inv e.
Proof. intros (Hr & Hc & Hst & He). split_and!; [done|by rewrite Hc|done|by rewrite Hst]. Qed.

Lemma finish_hello_inv shared t1 alpn sh e :
  server_waits e → server_keyed shared t1 e → t1 `prefix_of` transcript e →
  keeps server_inv (flight ← build_flight alpn; _ ← set_pending grant sh;
    _ ← modify (λ e, e <| pending_level := Level.Initial |>); _ ← set_pending_hs grant flight;
    set_state SendServerFlightInitial) e.
Proof.
  intros Hw Hk Ht. unfold keeps. set (P := λ e' : t, server_waits e' ∧ server_keyed shared t1 e' ∧ t1 `prefix_of` transcript e').
  apply wp_bind, (wp_mono _ _ (λ _, P) _ (λ _, P)).
  - apply build_flight_keeps; [|done]. intros m e' (Hw' & Hk' & Ht'). split_and!; [exact Hw'|exact Hk'|by apply prefix_app_r].
  - clear e Hw Hk Ht. intros flight e (Hw & Hk & Ht). apply wp_bind.
    apply (set_pending_inv server_inv); [by apply server_waits_inv|intros b; by apply server_waits_inv|]. intros b1. wps.
    unfold set_pending_hs, set_state. wps. destruct Hw as (Hr & Hc & Hst & He). branch b2 E1; wps.
    + split_and!; [done|by cbn; rewrite Hc|done|]. cbn [state update]. exists shared, t1. split; [exact Hk|done].
    + apply server_waits_inv. by split_and!.
  - intros _ e' (Hw' & _). by apply server_waits_inv.
Qed.

Lemma client_hello_read_inv before body e :
  server_waits e → ends before body (transcript e) → keeps server_inv (process_client_hello grant body) e.
Proof.
  intros Hw Hends. pose proof (server_waits_inv e Hw) as HI. unfold keeps, process_client_hello. fails ch E1. fails ext E2.
  destruct (supports_tls13 ext) eqn:Hv; [|exact HI]. cbn [negb]. fails pk E3. fails suite E4.
  assert (key_share ext = Some pk) as Hpk by (destruct (key_share ext); by simplify_eq/=). wps.
  destruct (_ && _); [exact HI|]. wps. fails x E5. fails sh E6. unfold add_transcript. wps.
  apply derive_handshake_keyed; [exact (proj2 (proj2 (proj2 Hw)))|apply server_waits_inv; exact Hw|]. cbv zeta. cbn [private_key transcript update]. unfold Transcript.update. intros Hz.
  unfold emit_keys. wps. apply wp_lift. cbn [ok_or cipher_suite update]. apply wp_modify.
  apply (finish_hello_inv (x25519 (private_key e) pk) (transcript e ++ sh)); [exact Hw| |cbn [transcript update]; reflexivity].
  exists before, body, pk, (transcript e), sh. split; [exact Hends|]. split; [exists ch, ext; split_and!; assumption|]. split; [reflexivity|].
  split; [reflexivity|]. split; [exact Hz|]. cbn [client_handshake_secret server_handshake_secret key_schedule update TlsKeySchedule.handshake_secret].
  split; [reflexivity|]. split; reflexivity.
Qed.

Lemma server_message_inv ty hdr body e :
  len hdr = 4 → server_inv e → keeps server_inv (server_message grant ty (hdr ++ body) body) e.
Proof.
  intros Lh HI. unfold keeps, server_message. wps.
  destruct (state e) eqn:Hst, ty; try exact HI; unfold current_hash, add_transcript; wps.
  - apply (client_hello_read_inv (transcript e)); [|by exists hdr]. destruct HI as (Hr & Hc & He & _).
    split_and!; [done| |done|done]. cbn. destruct (complete e); [rewrite Hc in Hst|]; done.
  - by apply client_finished_inv.
Qed.

Lemma write_server_inv cap e : server_inv e → keeps server_inv (write_server cap) e.
Proof.
  intros HI. unfold keeps, write_server. wps. destruct (state e) eqn:Hst; try exact HI; unfold set_state.
  all: fails n E1; destruct (_ =? 0); [exact HI|]; destruct (_ <? _); [exact HI|]; fails out E2; wps.
  all: destruct HI as (Hr & Hc & He & HI); rewrite Hst in HI;
    (split_and!; [done|intros Hx; by rewrite (Hc Hx) in Hst|done|exact HI]).
Qed.

Lemma server_run_inv e e' : run e e' → server_inv e → server_inv e'.
Proof.
  apply run_invariant.
  - intros lvl data e0 HI. unfold wp, read_handshake. pose proof HI as ((Hr & _)%ident_inv & _). rewrite Hr.
    assert (keeps server_inv (read_server grant lvl data) e0) as Hk; [|exact Hk].
    unfold keeps, read_server. wps. fails u E1. apply read_messages_invariant; [|done]. intros. by apply server_message_inv.
  - intros cap e0 HI. unfold wp, write_handshake. pose proof HI as ((Hr & _)%ident_inv & _). rewrite Hr. by apply write_server_inv.
  - intros e0 (Hr & Hc & He & HI). split_and!; [done..|]. cbn. destruct (state e0); exact HI.
Qed.
End auth.

(** C1: A client finishes only with an authenticated server.  From a fresh client
    (QUIC or TCP), after any calls with any bytes at any level, failed ones
    included, and whatever the allocator does: once its Finished is ready or it is
    complete, its transcript shows a server hello whose share gave the non-zero
    secret behind its traffic secrets; after it a CertificateVerify whose signature
    checks, under the key in the certificate held, over the transcript before it,
    the certificate being a pinned one if any is pinned; after that a Finished that
    is exactly the MAC under the server's traffic secret of the transcript before
    it; and the application secrets are those of the transcript up to there. *)
Theorem tls_client_authenticates `{Platform} `{PrimitiveLaws} grant conf secret random e0 e :
  e0 = new_client conf secret random ∨ e0 = new_tcp_client conf secret random → run grant e0 e →
  state e = SendFinished ∨ is_complete e = true →
  private_key e = secret ∧ pinned_certs e = config_pinned conf ∧ client_checked e.
Proof.
  intros Hnew Hrun Hst. assert (client_inv secret (config_pinned conf) e) as (Hid & Hc & _ & HI).
  { eapply client_run_inv; [exact Hrun|]. by destruct Hnew as [-> | ->]. }
  apply ident_inv in Hid as (_ & -> & ->). split_and!; [done..|].
  destruct Hst as [Hst|Hst%Hc]; by rewrite Hst in HI.
Qed.

(** A server completes only for the client it shares the keys with.  From a
    fresh server, after any calls with any bytes, failed ones included: once it is
    complete, its transcript shows a client hello whose share gave the non-zero
    secret behind its traffic secrets, and after its own hello a Finished that is
    exactly the MAC under the client's traffic secret of the transcript before it;
    the application secrets are those of that transcript. *)
Theorem tls_server_confirms `{Platform} `{PrimitiveLaws} grant conf secret random e0 e :
  e0 = new_server conf secret random ∨ e0 = new_tcp_server conf secret random → run grant e0 e →
  is_complete e = true → private_key e = secret ∧ server_checked e.
Proof.
  intros Hnew Hrun Hst. assert (server_inv secret [] e) as (Hid & Hc & _ & HI).
  { eapply server_run_inv; [exact Hrun|]. by destruct Hnew as [-> | ->]. }
  apply ident_inv in Hid as (_ & -> & _). split; [done|]. by rewrite (Hc Hst) in HI.
Qed.

(** The exchange of [demo_client] and [demo_server] as runs. *)
#[local] Existing Instance platform64.
#[local] Existing Instance Toy.toy.
Definition all_granted : Z → bool := λ _, true.
Lemma demo_handshake_runs :
  (∃ e, run all_granted demo_client e ∧ is_complete e = true) ∧ (∃ e, run all_granted demo_server e ∧ is_complete e = true).
Proof.
  destruct demo_ready as (Hc & Hs & Hcs).
  destruct (handshake_runs all_granted _ _ (λ _, eq_refl) Hc Hs Hcs)
    as (ch & c1 & s1 & sh & s2 & fl & s3 & c2 & c3 & fin & c4 & s4 & _ & _ & _ & _ & E1 & E2 & E3 & E4 & E5 & E6 & E7 & E8 & D1 & D2 & _).
  split; [exists c4|exists s4]; (split; [|done]).
  - eapply run_write; [exact E1|done|]. eapply run_read; [exact E5|done|]. eapply run_read; [exact E6|done|].
    eapply run_write; [exact E7|done|]. apply run_done.
  - eapply run_read; [exact E2|done|]. eapply run_write; [exact E3|done|]. eapply run_write; [exact E4|done|].
    eapply run_read; [exact E8|done|]. apply run_done.
Qed.

Lemma tls_client_authenticates_witness : ∃ e, run all_granted demo_client e ∧ is_complete e = true ∧ client_checked e.
Proof.
  destruct demo_handshake_runs as [(e & Hrun & Hd) _]. exists e. split; [exact Hrun|]. split; [exact Hd|].
  refine (proj2 (proj2 (tls_client_authenticates all_granted
    {| config_server_name := bytes "a.example"; config_alpn := [bytes "h2"; bytes "h3"];
       config_params := TransportParams.default_params; config_pinned := [demo_cert] |}
    (replicate 32 9) (replicate 32 1) demo_client e _ Hrun _))).
  - left. reflexivity.
  - right. exact Hd.
Defined.
