(* ===== verification/TlsRecord.v ===== *)
(** * TLS 1.3 records: [src/tcp_tls/record.rs]

    Record headers, the per-record nonce, and the protection of one record. *)
From S2P Require Import Prelude Errors Varint Cursor Buf TlsMessages Crypto.

Module TlsRecord.

Inductive ContentType : Type := ChangeCipherSpec | Alert | Handshake | ApplicationData.
Global Instance content_type_eq_dec : EqDecision ContentType.
Proof. solve_decision. Defined.

(** [ct as u8]. *)
Definition to_byte (ct : ContentType) : Z :=
  match ct with ChangeCipherSpec => 20 | Alert => 21 | Handshake => 22 | ApplicationData => 23 end.
Definition from_byte (b : Z) : option ContentType :=
  match b with
  | 20 => Some ChangeCipherSpec
  | 21 => Some Alert
  | 22 => Some Handshake
  | 23 => Some ApplicationData
  | _ => None
  end.

Record RecordHeader := MkRecordHeader {
  content_type : ContentType;
  legacy_version : Z;
  length_ : Z
}.

Definition RECORD_HEADER_LEN : Z := 5.
Definition MAX_RECORD_PAYLOAD : Z := 16384 + 256.

Definition encode_record_header (ct : ContentType) (length : Z) : M Error (list Z) Z :=
  l ← buf_len;
  if l <? RECORD_HEADER_LEN then throw (BufferTooSmall RECORD_HEADER_LEN) else
  _ ← (_ ← store 0 (to_byte ct);
       _ ← store 1 0x03;
       _ ← store 2 0x03;
       _ ← store 3 (trunc 8 (Z.shiftr length 8));
       store 4 (trunc 8 (Z.land length 0xff)));
  mret RECORD_HEADER_LEN.

Definition decode_record_header (data : list Z) : result RecordHeader :=
  if len data <? RECORD_HEADER_LEN then Err (BufferTooSmall RECORD_HEADER_LEN) else
  b0 ← idx data 0;
  ct ← ok_or Tls (from_byte b0);
  b1 ← idx data 1; b2 ← idx data 2;
  b3 ← idx data 3; b4 ← idx data 4;
  Ok (MkRecordHeader ct (Z.lor (Z.shiftl b1 8) b2) (Z.lor (Z.shiftl b3 8) b4)).

(** [for i in 0..8 { nonce[12 - 8 + i] ^= seq_bytes[i]; }]. *)
Fixpoint xor_seq (nonce seq_bytes : list Z) (i : Z) (fuel : nat) : result (list Z) :=
  match fuel with
  | O => Ok nonce
  | S fuel =>
      a ← idx nonce (12 - 8 + i); b ← idx seq_bytes i;
      nonce ← set_idx nonce (12 - 8 + i) (Z.lxor a b);
      xor_seq nonce seq_bytes (i + 1) fuel
  end.
Definition build_nonce (iv : list Z) (seq : Z) : result (list Z) := xor_seq iv (be_bytes 8 seq) 0 8.

Section Record.
Context `{Primitives}.

Definition seal_record (key nonce : list Z) (payload_len : Z) (inner_content_type : ContentType) : M Error (list Z) Z :=
  let inner_len := payload_len + 1 in
  l ← buf_len;
  if l <? inner_len + Aead.TAG_LEN then throw (BufferTooSmall (inner_len + Aead.TAG_LEN)) else
  _ ← store payload_len (to_byte inner_content_type);
  let outer_len := trunc 16 (inner_len + Aead.TAG_LEN) in
  let aad := [to_byte ApplicationData; 0x03; 0x03; trunc 8 (Z.shiftr outer_len 8); trunc 8 (Z.land outer_len 0xff)] in
  Aead.seal_in_place key nonce aad inner_len.

(** [while pos > 0 && buf[pos - 1] == 0 { pos -= 1 }], on [buf[..pos]]. *)
Fixpoint skip_zeros (buf : list Z) (pos : nat) : result nat :=
  match pos with
  | O => Ok O
  | S p => b ← idx buf (Z.of_nat p); if b =? 0 then skip_zeros buf p else Ok pos
  end.
Definition inner_type (buf : list Z) (plaintext_len : Z) : result (Z * ContentType) :=
  pos ← skip_zeros buf (Z.to_nat plaintext_len);
  if Z.of_nat pos =? 0 then Err Tls else
  b ← idx buf (Z.of_nat pos - 1);
  ct ← ok_or Tls (from_byte b);
  Ok (Z.of_nat pos - 1, ct).

Definition open_record (key nonce : list Z) (ciphertext_len : Z) (record_header_bytes : list Z) :
    M Error (list Z) (Z * ContentType) :=
  plaintext_len ← Aead.open_in_place key nonce record_header_bytes ciphertext_len;
  buf ← get;
  lift (inner_type buf plaintext_len).

End Record.

(** ** Headers *)

Lemma be16_bits b0 b1 : byte_ok b0 → byte_ok b1 → Z.lor (Z.shiftl b0 8) b1 = be_val [b0; b1].
Proof.
  unfold byte_ok. intros. rewrite Z.shiftl_mul_pow2 by lia. simpl be_val. zpow.
  rewrite (lor_disjoint_add _ b1 8); [lia|lia|zpow; div_lia|zpow; lia].
Qed.

Definition header_wire (ct : ContentType) (n : Z) : list Z := to_byte ct :: 0x03 :: 0x03 :: be_bytes 2 n.

Lemma from_to_byte ct : from_byte (to_byte ct) = Some ct.
Proof. by destruct ct. Qed.
Lemma to_byte_range ct : 0 < to_byte ct < 256.
Proof. destruct ct; simpl; lia. Qed.
Lemma len_header_wire_tls ct n : len (header_wire ct n) = 5.
Proof. done. Qed.

Lemma be16_split n : uint 16 n → [trunc 8 (Z.shiftr n 8); trunc 8 (Z.land n 0xff)] = be_bytes 2 n.
Proof.
  intros Hn. unfold uint in Hn. cbn [be_bytes]. unfold trunc. rewrite Z.shiftr_div_pow2 by lia.
  change 0xff with (Z.ones 8). rewrite Z.land_ones by lia. rewrite Z.mod_mod by lia. change (256 ^ Z.of_nat 1) with (2 ^ 8).
  change (256 ^ Z.of_nat 0) with 1. rewrite Z.div_1_r. done.
Qed.

Lemma encode_header_wire ct n buf :
  uint 16 n → 5 ≤ len buf → encode_record_header ct n buf = (Ok 5, header_wire ct n ++ drop 5 buf).
Proof.
  intros Hn Hl. unfold encode_record_header. erewrite M_step_ok by reflexivity.
  rewrite (proj2 (Z.ltb_ge _ _)) by (unfold RECORD_HEADER_LEN; lia).
  assert (Fills 0 (_ ← store 0 (to_byte ct); _ ← store 1 0x03; _ ← store 2 0x03;
    _ ← store 3 (trunc 8 (Z.shiftr n 8)); store 4 (trunc 8 (Z.land n 0xff))) (header_wire ct n)) as Hf.
  { unfold header_wire. rewrite <- be16_split by done. repeat (apply (Fills_bind _ _ _ [_]); [apply Fills_store|]; simpl). apply Fills_store. }
  erewrite M_step_ok by (apply (Fills_start _ _ _ Hf); rewrite len_header_wire_tls; lia). done.
Qed.

Lemma tls_decode_header_wire ct n rest :
  uint 16 n → decode_record_header (header_wire ct n ++ rest) = Ok (MkRecordHeader ct 0x0303 n).
Proof.
  intros Hn. unfold decode_record_header, header_wire. rewrite (proj2 (Z.ltb_ge _ _)) by (unfold RECORD_HEADER_LEN; simpl; len_lia).
  assert (bytes_ok (be_bytes 2 n)) as Hb by apply bytes_ok_be_bytes. pose proof (be_val_be_bytes_id 2 n Hn) as Hv.
  remember (be_bytes 2 n) as l. assert (length l = 2%nat) as Hl by (subst l; apply length_be_bytes).
  destruct l as [|b0 [|b1 [|]]]; [done..| |done]. inversion_clear Hb as [|? ? H0 Hb']. inversion_clear Hb' as [|? ? H1 _].
  cbn [app]. rewrite (idx_ok _ 0 (to_byte ct)) by done. cbn [mbind res_bind]. rewrite from_to_byte. cbn [ok_or mbind res_bind].
  rewrite (idx_ok _ 1 3), (idx_ok _ 2 3), (idx_ok _ 3 b0), (idx_ok _ 4 b1) by done. cbn [mbind res_bind].
  do 2 f_equal. rewrite <- Hv. by apply be16_bits.
Qed.

(** ** Nonces *)

Definition nonce (iv : list Z) (seq : Z) : list Z := take 4 iv ++ zip_with Z.lxor (drop 4 iv) (be_bytes 8 seq).

Lemma build_nonce_ok iv seq : len iv = 12 → build_nonce iv seq = Ok (nonce iv seq) ∧ len (nonce iv seq) = 12.
Proof.
  intros Hl. unfold build_nonce, nonce. assert (length (be_bytes 8 seq) = 8%nat) as Hb by apply length_be_bytes.
  generalize dependent (be_bytes 8 seq). intros bs Hb. assert (length iv = 12%nat) as Hi by lia.
  do 13 (destruct iv as [|? iv]; try done). do 9 (destruct bs as [|? bs]; try done).
Qed.

Lemma xor_inj (ks a b : list Z) :
  length a = length ks → length b = length ks → zip_with Z.lxor ks a = zip_with Z.lxor ks b → a = b.
Proof.
  revert a b. induction ks as [|k ks IH]; intros [|x a] [|y b] Ha Hb Hz; try done. simpl in *. injection Hz as Hx Hz.
  f_equal; [|apply IH; [lia..|done]]. apply (f_equal (Z.lxor k)) in Hx. by rewrite <- !Z.lxor_assoc, Z.lxor_nilpotent, !Z.lxor_0_l in Hx.
Qed.
(** No two records of one direction and epoch share a nonce. *)
Lemma nonce_inj iv s s' : len iv = 12 → uint 64 s → uint 64 s' → nonce iv s = nonce iv s' → s = s'.
Proof.
  intros Hl Hs Hs' Hn. unfold nonce in Hn. apply app_inv_head in Hn.
  rewrite <- (be_val_be_bytes_id 8 s), <- (be_val_be_bytes_id 8 s') by done. f_equal.
  eapply xor_inj; [..|exact Hn]; rewrite length_be_bytes, length_drop; lia.
Qed.

(** ** Inner content type *)

Lemma skip_zeros_ok buf n b k :
  buf !! n = Some b → b ≠ 0 → (∀ i, (i < k)%nat → buf !! (n + 1 + i)%nat = Some 0) →
  skip_zeros buf (k + S n) = Ok (S n).
Proof.
  intros Hn Hb Hz. induction k as [|k IH]; cbn [skip_zeros Nat.add].
  - rewrite (idx_ok _ _ b) by (lia || by rewrite Nat2Z.id). cbn [mbind res_bind]. by rewrite (proj2 (Z.eqb_neq _ _)).
  - rewrite (idx_ok _ _ 0); [|lia|]; [|rewrite Nat2Z.id, <- (Hz k) by lia; f_equal; lia]. cbn [mbind res_bind Z.eqb].
    apply IH. intros i Hi. apply Hz. lia.
Qed.

(** Whatever zeros pad the record. *)
Lemma inner_type_ok m ct k rest :
  inner_type (m ++ to_byte ct :: replicate k 0 ++ rest) (len m + 1 + Z.of_nat k) = Ok (len m, ct).
Proof.
  unfold inner_type. pose proof (to_byte_range ct). replace (Z.to_nat (len m + 1 + Z.of_nat k)) with (k + S (length m))%nat by lia.
  rewrite (skip_zeros_ok _ _ (to_byte ct)).
  - cbn [mbind res_bind]. rewrite (proj2 (Z.eqb_neq _ _)) by lia.
    rewrite (idx_ok _ _ (to_byte ct)); [|lia|]; [|replace (Z.to_nat (Z.of_nat (S (length m)) - 1)) with (length m) by lia; by apply list_lookup_middle].
    cbn [mbind res_bind]. rewrite from_to_byte. cbn [ok_or mbind res_bind]. do 2 f_equal. lia.
  - by apply list_lookup_middle.
  - lia.
  - intros i Hi. rewrite lookup_app_r by lia. replace (length m + 1 + i - length m)%nat with (S i) by lia. simpl.
    rewrite lookup_app_l by (rewrite length_replicate; lia). by apply lookup_replicate_2.
Qed.

(** ** Protection *)

Section protection.
Context `{PrimitiveLaws}.

(** The protected form of [m]. *)
Lemma record_sealed key nonce ct m rest :
  len key = 16 ∨ len key = 32 → len nonce = 12 → len m ≤ 2 ^ 14 → 17 ≤ len rest →
  ∃ c, len c = len m + 17 ∧
    seal_record key nonce (len m) ct (m ++ rest) = (Ok (len m + 17), c ++ drop 17 rest) ∧
    (∀ rest', Aead.open_in_place key nonce (header_wire ApplicationData (len m + 17)) (len m + 17) (c ++ rest') =
       (Ok (len m + 1), m ++ to_byte ct :: drop (length m + 1) c ++ rest')).
Proof.
  intros Hk Hn Hm Hr. destruct (seal_ok key nonce (header_wire ApplicationData (len m + 17)) (m ++ [to_byte ct]) (drop 1 rest))
    as (c & Hc & Hs & Ho); [done|done|rewrite length_app; simpl; lia|rewrite length_drop; lia|].
  rewrite length_app, Nat2Z.inj_add in Hc, Hs, Ho. change (len [to_byte ct]) with 1 in Hc, Hs, Ho.
  exists c. split; [lia|]. split.
  - unfold seal_record. erewrite M_step_ok by reflexivity. unfold Aead.TAG_LEN.
    rewrite (proj2 (Z.ltb_ge _ _)) by (rewrite length_app; lia).
    destruct rest as [|r rest]; [simpl in Hr; lia|].
    erewrite M_step_ok by (apply store_eq; rewrite length_app; simpl length; lia).
    rewrite Nat2Z.id, insert_app_r_alt, Nat.sub_diag by lia. cbn [insert list_insert].
    replace (m ++ to_byte ct :: rest) with ((m ++ [to_byte ct]) ++ rest) by (by rewrite <- app_assoc).
    replace (trunc 16 (len m + 1 + 16)) with (len m + 17) by (unfold trunc; rewrite Z.mod_small; lia).
    change [to_byte ApplicationData; 3; 3; ?x; ?y] with (to_byte ApplicationData :: 3 :: 3 :: [x; y]).
    rewrite be16_split by (unfold uint; lia). fold (header_wire ApplicationData (len m + 17)).
    cbn [drop] in Hs. rewrite drop_0 in Hs. rewrite Hs. f_equal. f_equal. lia.
  - intros rest'. replace (len m + 17) with (len m + 1 + 16) at 2 by lia. rewrite Ho. f_equal. rewrite <- app_assoc. cbn [app].
    do 2 f_equal.
Qed.

(** A protected record opens to what was sealed. *)
Lemma record_roundtrip key nonce ct m rest rest' :
  len key = 16 ∨ len key = 32 → len nonce = 12 → len m ≤ 2 ^ 14 → 17 ≤ len rest →
  ∃ c, seal_record key nonce (len m) ct (m ++ rest) = (Ok (len c), c ++ drop 17 rest) ∧
    ∃ b, open_record key nonce (len c) (header_wire ApplicationData (len c)) (c ++ rest') = (Ok (len m, ct), m ++ b).
Proof.
  intros Hk Hn Hm Hr. destruct (record_sealed key nonce ct m rest Hk Hn Hm Hr) as (c & Hc & Hs & Ho). exists c. rewrite Hc.
  split; [exact Hs|]. exists (to_byte ct :: drop (length m + 1) c ++ rest'). unfold open_record.
  erewrite M_step_ok by apply Ho. erewrite M_step_ok by reflexivity. unfold lift.
  pose proof (inner_type_ok m ct 0 (drop (length m + 1) c ++ rest')) as Hi. rewrite Z.add_0_r in Hi. cbn [replicate app] in Hi. by rewrite Hi.
Qed.
End protection.
End TlsRecord.
