(* ===== verification/TcpTls.v ===== *)
(** * TLS over TCP: [src/tcp_tls/connection.rs], [src/tcp_tls/io.rs]

    The connection: records in and out of three byte buffers around the handshake
    engine.  Received bytes are decrypted in place: the visible part of [recv_buf]
    is plaintext for the application, its hidden tail ciphertext.  The buffers the
    callers lend on every call are fields of the state. *)
From S2P Require Import Prelude Errors Varint Cursor Buf TlsParams TlsMessages TlsExtensions Recovery Crypto Certificate TlsHandshake TlsRecord.

Module TcpTls.
Import TlsRecord.

Inductive TlsEvent : Type := HandshakeComplete | AppData | PeerClosed.
Inductive ConnState : Type := InHandshake | HandshakeEncrypted | Active | Closing | Closed.
Global Instance conn_state_eq_dec : EqDecision ConnState.
Proof. solve_decision. Defined.

(** [DirectionalRecordKeys]: the AEAD is its key. *)
Record DirectionalRecordKeys := MkKeys { aead_key : list Z; iv : list Z }.

(** [TlsConnection] with the buffers of [TlsIo]; [plain] is the variable of
    [feed_data] that the methods below it update. *)
Record t := Mk {
  engine : Tls.t;
  state : ConnState;
  send_offset : Z;
  hs_send : option DirectionalRecordKeys;
  hs_recv : option DirectionalRecordKeys;
  app_send : option DirectionalRecordKeys;
  app_recv : option DirectionalRecordKeys;
  send_seq : Z;
  recv_seq : Z;
  hs_send_seq : Z;
  hs_recv_seq : Z;
  peer_record_limit : Z;
  events : list TlsEvent;
  engine_output_pending : bool;
  ccs_sent : bool;
  recv_buf : Buf.t;
  send_buf : Buf.t;
  app_send_buf : Buf.t;
  plain : Z
}.
Global Instance eta_tcp_tls : Eta t := λ c,
  Mk (engine c) (state c) (send_offset c) (hs_send c) (hs_recv c) (app_send c) (app_recv c) (send_seq c)
     (recv_seq c) (hs_send_seq c) (hs_recv_seq c) (peer_record_limit c) (events c) (engine_output_pending c)
     (ccs_sent c) (recv_buf c) (send_buf c) (app_send_buf c) (plain c).

(** ** Calls on a buffer *)
Section Calls.
Context `{Platform}.
Variable BUF : Z.
Variable grant : Z → bool.

Definition buf_do (f : Buf.t → result Buf.t) : M Error Buf.t unit := λ b,
  match f b with Ok b' => (Ok tt, b') | Err e => (Err e, b) | Panic => (Panic, b) end.
(** [let _ = buf.extend_from_slice(data)], also for [push]. *)
Definition extend_ignored (data : list Z) : M Error Buf.t unit := λ b,
  match Buf.extend_from_slice BUF grant data b with
  | Ok b' => (Ok tt, b') | Err _ => (Ok tt, b) | Panic => (Panic, b)
  end.
(** A call on [&mut buf[..]]. *)
Definition on_bytes {A} (f : M Error (list Z) A) : M Error Buf.t A := λ b,
  match Buf.as_slice (E:=Error) b with
  | Ok s =>
      let '(r, s') := f s in
      match Buf.with_mut_slice (E:=Error) (λ _, Ok s') b with Ok b' => (r, b') | _ => (Panic, b) end
  | _ => (Panic, b)
  end.
(** A call on [&mut l[a..b]]. *)
Definition with_range {A} (a b : Z) (f : M Error (list Z) A) : M Error (list Z) A := λ l,
  match slice (E:=Error) l a b with
  | Ok s =>
      let '(r, s') := f s in
      match copy_at (E:=Error) l a b s' with Ok l' => (r, l') | _ => (Panic, l) end
  | _ => (Panic, l)
  end.

(** [TlsIo::queue_send] on the send buffer. *)
Definition queue_send (data : list Z) : M Error Buf.t unit :=
  b ← get;
  l ← lift (Buf.blen b);
  if BUF <? l + len data then throw (BufferTooSmall (l + len data)) else
  _ ← Buf.buf_try_reserve BUF grant (len data);
  extend_ignored data.

(** [TlsIo::drain_recv]. *)
Definition drain_recv (n : Z) : M Error Buf.t unit :=
  _ ← buf_do (Buf.with_mut_slice (λ s, copy_within s n (len s) 0));
  b ← get;
  l ← lift (Buf.blen b);
  l' ← lift (usub l n);
  buf_do (Buf.truncate l').

Definition remove_range (start end_ : Z) : M Error Buf.t unit :=
  b ← get;
  l ← lift (Buf.blen b);
  _ ← buf_do (Buf.with_mut_slice (λ s, copy_within s end_ (len s) start));
  n ← lift (usub l (end_ - start));
  buf_do (Buf.truncate n).

(** [for _ in 0..n { let _ = send_buf.push(0); }]. *)
Fixpoint push_zeros (n : nat) : M Error Buf.t unit :=
  match n with O => mret tt | S n => _ ← extend_ignored [0]; push_zeros n end.

Definition encrypt_into `{Primitives} (data : list Z) (inner_ct : ContentType) (key nonce : list Z) : M Error Buf.t unit :=
  let inner_len := len data + 1 in
  let outer_payload_len := inner_len + Aead.TAG_LEN in
  let total_needed := RECORD_HEADER_LEN + outer_payload_len in
  b ← get;
  l ← lift (Buf.blen b);
  if BUF <? l + total_needed then throw (BufferTooSmall (l + total_needed)) else
  _ ← Buf.buf_try_reserve BUF grant total_needed;
  header ← lift (let '(r, h) := encode_record_header ApplicationData (trunc 16 outer_payload_len) (replicate 5 0) in
                 _ ← r; Ok h);
  _ ← extend_ignored header;
  b ← get;
  enc_start ← lift (Buf.blen b);
  _ ← extend_ignored data;
  _ ← extend_ignored [to_byte inner_ct];
  _ ← push_zeros (Z.to_nat Aead.TAG_LEN);
  ct_len ← on_bytes (with_from enc_start (Aead.seal_in_place key nonce header inner_len));
  buf_do (Buf.truncate (enc_start + ct_len)).

End Calls.

Definition find_inner_content_type (plaintext : list Z) : result (Z * ContentType) :=
  inner_type plaintext (len plaintext).

Definition handshake_msg_end (buf : list Z) (off : Z) : result Z :=
  if len buf <? off + 4 then Ok (len buf) else
  b1 ← idx buf (off + 1); b2 ← idx buf (off + 2); b3 ← idx buf (off + 3);
  Ok (Z.min (off + 4 + Z.lor (Z.lor (Z.shiftl b1 16) (Z.shiftl b2 8)) b3) (len buf)).

Definition local_record_size_limit (BUF : Z) : Z := trunc 16 (Z.min (Z.max (sat_sub BUF 64) 64) 16385).

(** [l.chunks(n)]. *)
Fixpoint chunks {A} (fuel : nat) (n : Z) (l : list A) : list (list A) :=
  match fuel, l with
  | S fuel, _ :: _ => take (Z.to_nat n) l :: chunks fuel n (drop (Z.to_nat n) l)
  | _, _ => []
  end.

(** ** The connection *)
Section Connection.
Context `{Platform} `{Primitives}.
Variable BUF : Z.
Variable grant : Z → bool.

(** Calls on the parts of the state. *)
Definition on_recv {A} (m : M Error Buf.t A) : M Error t A := λ c,
  let '(r, b) := m (recv_buf c) in (r, c <| recv_buf := b |>).
Definition on_send {A} (m : M Error Buf.t A) : M Error t A := λ c,
  let '(r, b) := m (send_buf c) in (r, c <| send_buf := b |>).
Definition on_app_send {A} (m : M Error Buf.t A) : M Error t A := λ c,
  let '(r, b) := m (app_send_buf c) in (r, c <| app_send_buf := b |>).
Definition on_engine {A} (m : M Error Tls.t A) : M Error t A := λ c,
  let '(r, e) := m (engine c) in (r, c <| engine := e |>).
(** [let _ = call]: what it changed stays. *)
Definition ignored (m : M Error t unit) : M Error t unit := λ c,
  match m c with (Panic, c') => (Panic, c') | (_, c') => (Ok tt, c') end.
Definition push_event (e : TlsEvent) : M Error t unit := modify (λ c, c <| events := push_capped 8 (events c) e |>).

Definition new (e : Tls.t) (recv send app : Buf.t) : t := {|
  engine := e;
  state := InHandshake;
  send_offset := 0;
  hs_send := None;
  hs_recv := None;
  app_send := None;
  app_recv := None;
  send_seq := 0;
  recv_seq := 0;
  hs_send_seq := 0;
  hs_recv_seq := 0;
  peer_record_limit := 16385;
  events := [];
  engine_output_pending := true;
  ccs_sent := false;
  recv_buf := recv;
  send_buf := send;
  app_send_buf := app;
  plain := 0
|}.
Definition new_client (config : Tls.TlsConfig) (secret random : list Z) : t :=
  new (Tls.new_tcp_client config secret random) Buf.new Buf.new Buf.new.
Definition new_server (config : Tls.ServerTlsConfig) (secret random : list Z) : t :=
  new (Tls.new_tcp_server config secret random) Buf.new Buf.new Buf.new.

(** *** Keys *)

(** One direction of [install_keys]. *)
Definition record_keys (secret : list Z) (key_len : Z) : result DirectionalRecordKeys :=
  '(key, iv) ← KeySchedule.derive_tls_record_keys secret key_len;
  aead ← Aead.aead key;
  Ok (MkKeys aead iv).

Definition install_keys (keys : DerivedKeys) : M Error t unit :=
  let key_len := CipherSuite.key_len (keys_suite keys) in
  send_secret ← lift (slice (send_secret keys) 0 (secret_len keys));
  recv_secret ← lift (slice (recv_secret keys) 0 (secret_len keys));
  match level keys with
  | Level.Handshake =>
      k ← lift (record_keys send_secret key_len);
      _ ← modify (λ c, c <| hs_send := Some k |>);
      k ← lift (record_keys recv_secret key_len);
      modify (λ c, c <| hs_recv := Some k |> <| hs_send_seq := 0 |> <| hs_recv_seq := 0 |>
                     <| state := HandshakeEncrypted |> <| engine_output_pending := true |>)
  | Level.Application =>
      k ← lift (record_keys send_secret key_len);
      _ ← modify (λ c, c <| app_send := Some k |>);
      k ← lift (record_keys recv_secret key_len);
      modify (λ c, c <| app_recv := Some k |> <| engine_output_pending := true |>)
  | Level.Initial => mret tt
  end.

(** [while let Some(keys) = self.engine.derived_keys()]: taking the keys empties
    the slot, so the second round ends the loop. *)
Fixpoint install_all (fuel : nat) : M Error t unit :=
  keys ← on_engine (λ e, let '(k, e') := Tls.derived_keys e in (Ok k, e'));
  match keys, fuel with
  | None, _ => mret tt
  | Some keys, S fuel => _ ← install_keys keys; install_all fuel
  | Some _, O => lift Panic
  end.

Definition check_keys : M Error t unit :=
  _ ← modify (λ c, match Tls.peer_record_size_limit (engine c) with
                   | Some limit => c <| peer_record_limit := limit |> | None => c end);
  _ ← install_all 1;
  c ← get;
  if Tls.is_complete (engine c) && negb (bool_decide (state c = Active)) then
    _ ← modify (λ c, c <| state := Active |> <| send_seq := 0 |> <| recv_seq := 0 |>);
    _ ← on_engine (Tls.shrink_post_handshake grant);
    _ ← modify (λ c, c <| hs_send := None |> <| hs_recv := None |>);
    push_event HandshakeComplete
  else mret tt.

(** *** Receiving *)

Definition handle_alert_desc (desc : Z) : M Error t unit :=
  if desc =? 0 then _ ← modify (λ c, c <| state := Closing |>); push_event PeerClosed
  else _ ← modify (λ c, c <| state := Closed |>); throw Tls.

(** What the match on the state leaves: an early return, or the two local
    variables [need_check_keys] and [app_data_len]. *)
Inductive outcome : Type := Return | Handled (need_check_keys : bool) (app_data_len : option Z).

Definition recv_slice (a b : Z) : M Error t (list Z) :=
  c ← get; s ← lift (Buf.as_slice (recv_buf c)); lift (slice s a b).
Definition recv_byte (i : Z) : M Error t Z :=
  c ← get; s ← lift (Buf.as_slice (recv_buf c)); lift (idx s i).

(** [self.engine.read_handshake(level, data).map_err(|_| Error::Tls)?]. *)
Definition engine_read (lvl : Level.t) (data : list Z) : M Error t outcome := λ c,
  let '(r, e) := Tls.read_handshake grant lvl data (engine c) in
  (map_err (λ _, Tls) (_ ← r; Ok (Handled true None)), c <| engine := e |>).

(** An alert of [n] bytes at [ps]: the record is removed before it is handled. *)
Definition recv_alert (n ps off total : Z) : M Error t outcome :=
  if n <? 2 then throw Tls else
  desc ← recv_byte (ps + 1);
  _ ← on_recv (remove_range off (off + total));
  _ ← handle_alert_desc desc;
  mret Return.

(** A protected record at [ps], decrypted in place: its data length and type. *)
Definition recv_protected (keys : DirectionalRecordKeys) (seq : Z) (advance : M Error t unit)
    (header_bytes : list Z) (ps payload_len : Z) : M Error t (Z * ContentType) :=
  nonce ← lift (build_nonce (iv keys) seq);
  plain_len ← on_recv (on_bytes (with_range ps (ps + payload_len)
                (Aead.open_in_place (aead_key keys) nonce header_bytes payload_len)));
  _ ← advance;
  text ← recv_slice ps (ps + plain_len);
  lift (find_inner_content_type text).

Definition recv_handshake_plain (ct : ContentType) (ps payload_len off total : Z) : M Error t outcome :=
  match ct with
  | Handshake => data ← recv_slice ps (ps + payload_len); engine_read Level.Initial data
  | ChangeCipherSpec => mret (Handled false None)
  | Alert => recv_alert payload_len ps off total
  | ApplicationData => throw Tls
  end.

Definition recv_handshake_encrypted (ct : ContentType) (header_bytes : list Z) (ps payload_len off total : Z) :
    M Error t outcome :=
  match ct with
  | ApplicationData =>
      c ← get;
      keys ← lift (ok_or Tls (hs_recv c));
      '(data_len, inner_ct) ← recv_protected keys (hs_recv_seq c)
        (n ← lift (uadd 64 (hs_recv_seq c) 1); modify (λ c, c <| hs_recv_seq := n |>)) header_bytes ps payload_len;
      match inner_ct with
      | Handshake => data ← recv_slice ps (ps + data_len); engine_read Level.Handshake data
      | Alert => recv_alert data_len ps off total
      | _ => throw Tls
      end
  | ChangeCipherSpec => mret (Handled false None)
  | Handshake => data ← recv_slice ps (ps + payload_len); engine_read Level.Initial data
  | Alert => throw Tls
  end.

Definition recv_active (ct : ContentType) (header_bytes : list Z) (ps payload_len off total : Z) : M Error t outcome :=
  match ct with
  | ApplicationData =>
      c ← get;
      keys ← lift (ok_or Tls (app_recv c));
      '(data_len, inner_ct) ← recv_protected keys (recv_seq c)
        (n ← lift (uadd 64 (recv_seq c) 1); modify (λ c, c <| recv_seq := n |>)) header_bytes ps payload_len;
      match inner_ct with
      | ApplicationData => mret (Handled false (Some data_len))
      | Alert => recv_alert data_len ps off total
      | Handshake => mret (Handled false None)
      | ChangeCipherSpec => throw Tls
      end
  | ChangeCipherSpec => mret (Handled false None)
  | _ => throw Tls
  end.

(** The match on the state. *)
Definition recv_record (ct : ContentType) (header_bytes : list Z) (ps payload_len off total : Z) : M Error t outcome :=
  c ← get;
  match state c with
  | InHandshake => recv_handshake_plain ct ps payload_len off total
  | HandshakeEncrypted => recv_handshake_encrypted ct header_bytes ps payload_len off total
  | Active => recv_active ct header_bytes ps payload_len off total
  | Closing | Closed => mret (Handled false None)
  end.

(** The plaintext is moved down over the header and the rest of the record
    removed, or the whole record is. *)
Definition finish_record (need_check_keys : bool) (app_data_len : option Z) (ps off total : Z) : M Error t unit :=
  _ ← match app_data_len with
      | Some data_len =>
          _ ← on_recv (buf_do (Buf.with_mut_slice (λ s, copy_within s ps (ps + data_len) off)));
          _ ← on_recv (remove_range (off + data_len) (off + total));
          _ ← modify (λ c, c <| plain := plain c + data_len |>);
          push_event AppData
      | None => on_recv (remove_range off (off + total))
      end;
  if need_check_keys then check_keys else mret tt.

(** One round of the loop: [false] ends it. *)
Definition recv_step : M Error t bool :=
  c ← get;
  let off := plain c in
  l ← lift (Buf.blen (recv_buf c));
  avail ← lift (usub l off);
  if avail <? RECORD_HEADER_LEN then mret false else
  header_bytes ← recv_slice off (off + RECORD_HEADER_LEN);
  hdr ← lift (decode_record_header header_bytes);
  let total := RECORD_HEADER_LEN + length_ hdr in
  if BUF <? total then throw (BufferTooSmall total) else
  if avail <? total then mret false else
  let ps := off + RECORD_HEADER_LEN in
  o ← recv_record (content_type hdr) header_bytes ps (length_ hdr) off total;
  match o with
  | Return => mret false
  | Handled need_check_keys app_data_len =>
      _ ← finish_record need_check_keys app_data_len ps off total; mret true
  end.

(** Every round that goes on removes a record: the bytes received bound them. *)
Fixpoint recv_loop (fuel : nat) : M Error t unit :=
  go ← recv_step;
  match go, fuel with
  | false, _ => mret tt
  | true, S fuel => recv_loop fuel
  | true, O => lift Panic
  end.
Definition process_recv : M Error t unit :=
  c ← get; l ← lift (Buf.blen (recv_buf c)); recv_loop (Z.to_nat l).

Definition feed_revealed (data : list Z) : M Error t unit :=
  c ← get;
  l ← lift (Buf.blen (recv_buf c));
  if BUF <? l + len data then throw (BufferTooSmall (l + len data)) else
  _ ← on_recv (Buf.buf_try_reserve BUF grant (len data));
  _ ← on_recv (extend_ignored BUF grant data);
  process_recv.

Definition set_limit : M Error t unit :=
  modify (λ c, c <| engine := Tls.set_local_record_size_limit (local_record_size_limit BUF) (engine c) |>).

(** The tail is hidden again on every path. *)
Definition hide_rest (result : result unit) : M Error t unit :=
  c ← get;
  l ← lift (Buf.blen (recv_buf c));
  n ← lift (usub l (plain c));
  _ ← on_recv (buf_do (Buf.hide_tail n));
  lift result.
Definition feed_and_hide (data : list Z) : M Error t unit := λ c,
  match feed_revealed data c with (Panic, c') => (Panic, c') | (result, c') => hide_rest result c' end.
Definition feed_data (data : list Z) : M Error t unit :=
  _ ← set_limit;
  c ← get;
  p ← lift (Buf.blen (recv_buf c));
  _ ← modify (λ c, c <| plain := p |> <| recv_buf := (Buf.unhide_tail (recv_buf c)).2 |>);
  feed_and_hide data.

Definition recv_app_data (cap : Z) : M Error t (list Z) :=
  c ← get;
  empty ← lift (Buf.is_empty (recv_buf c));
  if empty : bool then throw WouldBlock else
  l ← lift (Buf.blen (recv_buf c));
  let n := Z.min l cap in
  out ← recv_slice 0 n;
  _ ← on_recv (drain_recv n);
  mret out.

(** *** Sending *)

Definition encrypt_and_send (data : list Z) (inner_ct : ContentType) (use_hs_keys : bool) : M Error t unit :=
  c ← get;
  if use_hs_keys then
    keys ← lift (ok_or Tls (hs_send c));
    nonce ← lift (build_nonce (iv keys) (hs_send_seq c));
    _ ← on_send (encrypt_into BUF grant data inner_ct (aead_key keys) nonce);
    n ← lift (uadd 64 (hs_send_seq c) 1);
    modify (λ c, c <| hs_send_seq := n |>)
  else
    keys ← lift (ok_or Tls (app_send c));
    nonce ← lift (build_nonce (iv keys) (send_seq c));
    _ ← on_send (encrypt_into BUF grant data inner_ct (aead_key keys) nonce);
    n ← lift (uadd 64 (send_seq c) 1);
    modify (λ c, c <| send_seq := n |>).

Definition wrap_plaintext_record (ct : ContentType) (data : list Z) : M Error t unit :=
  header ← lift (let '(r, h) := encode_record_header ct (trunc 16 (len data)) (replicate 5 0) in _ ← r; Ok h);
  _ ← on_send (queue_send BUF grant header);
  on_send (queue_send BUF grant data).

Definition peer_plaintext_cap (c : t) : Z := Z.min (Z.max (sat_sub (peer_record_limit c) 1) 1) 16384.

(** [while end < n]: the whole messages that fit. *)
Fixpoint pack (fuel : nat) (buf : list Z) (cap start end_ : Z) : result Z :=
  if end_ <? len buf then
    match fuel with
    | O => Panic
    | S fuel =>
        msg_end ← handshake_msg_end buf end_;
        n ← usub msg_end start;
        if cap <? n then Ok end_ else pack fuel buf cap start msg_end
    end
  else Ok end_.

Fixpoint send_chunks (cs : list (list Z)) : M Error t unit :=
  match cs with [] => mret tt | c :: cs => _ ← ignored (encrypt_and_send c Handshake true); send_chunks cs end.

(** [while start < n]: the flight in records. *)
Fixpoint send_flight (fuel : nat) (buf : list Z) (cap start : Z) : M Error t unit :=
  if start <? len buf then
    match fuel with
    | O => lift Panic
    | S fuel =>
        end_ ← lift (pack (length buf) buf cap start start);
        if end_ =? start then
          msg_end ← lift (handshake_msg_end buf start);
          msg ← lift (slice buf start msg_end);
          _ ← send_chunks (chunks (length msg) cap msg);
          send_flight fuel buf cap msg_end
        else
          part ← lift (slice buf start end_);
          _ ← ignored (encrypt_and_send part Handshake true);
          send_flight fuel buf cap end_
    end
  else mret tt.

Definition CCS : list Z := [to_byte ChangeCipherSpec; 0x03; 0x03; 0x00; 0x01; 0x01].
Definition send_ccs : M Error t unit :=
  c ← get;
  if ccs_sent c then mret tt else
  _ ← ignored (on_send (queue_send BUF grant CCS));
  modify (λ c, c <| ccs_sent := true |>).

Definition send_engine_output (data : list Z) (lvl : Level.t) : M Error t unit :=
  match lvl with
  | Level.Initial => ignored (wrap_plaintext_record Handshake data)
  | Level.Handshake =>
      _ ← send_ccs;
      c ← get;
      send_flight (length data) data (peer_plaintext_cap c) 0
  | Level.Application => mret tt
  end.

(** The engine has at most two messages to write. *)
Fixpoint engine_loop (fuel : nat) : M Error t unit := λ c,
  match Tls.write_handshake grant 2048 (engine c) with
  | (Ok (data, lvl), e) =>
      (_ ← put (c <| engine := e |>);
       if len data =? 0 then mret tt else
       match fuel with
       | O => lift Panic
       | S fuel => _ ← send_engine_output data lvl; engine_loop fuel
       end) c
  | (Err _, e) => (Ok tt, c <| engine := e |>)
  | (Panic, e) => (Panic, c <| engine := e |>)
  end.

Definition flush_engine_output : M Error t unit :=
  c ← get;
  if negb (engine_output_pending c) then mret tt else
  _ ← engine_loop 3;
  _ ← ignored check_keys;
  modify (λ c, c <| engine_output_pending := false |>).

Definition drain_app_send (n : Z) : M Error t unit := on_app_send (drain_recv n).

(** [encrypt_into(..).is_err()]: the failed call breaks the loop. *)
Definition try_encrypt (data key nonce : list Z) : M Error t bool := λ c,
  match on_send (encrypt_into BUF grant data ApplicationData key nonce) c with
  | (Ok _, c') => (Ok true, c')
  | (Err _, c') => (Ok false, c')
  | (Panic, c') => (Panic, c')
  end.

Fixpoint flush_loop (fuel : nat) (cap : Z) : M Error t unit :=
  c ← get;
  pending ← lift (Buf.as_slice (app_send_buf c));
  if len pending =? 0 then mret tt else
  match fuel with
  | O => lift Panic
  | S fuel =>
      let chunk_len := Z.min (len pending) cap in
      match app_send c with
      | None => mret tt
      | Some keys =>
          nonce ← lift (build_nonce (iv keys) (send_seq c));
          chunk ← lift (slice pending 0 chunk_len);
          sent ← try_encrypt chunk (aead_key keys) nonce;
          if sent : bool then
            n ← lift (uadd 64 (send_seq c) 1);
            _ ← modify (λ c, c <| send_seq := n |>);
            _ ← drain_app_send chunk_len;
            flush_loop fuel cap
          else mret tt
      end
  end.

Definition flush_app_send : M Error t unit :=
  c ← get;
  pending ← lift (Buf.as_slice (app_send_buf c));
  if (len pending =? 0) || negb (bool_decide (state c = Active)) then mret tt else
  flush_loop (length pending) (peer_plaintext_cap c).

(** The bytes stored at the front of the caller's buffer of [cap] bytes. *)
Definition poll_output (cap : Z) : M Error t (option (list Z)) :=
  _ ← set_limit;
  _ ← flush_engine_output;
  _ ← flush_app_send;
  c ← get;
  s ← lift (Buf.as_slice (send_buf c));
  if len s <=? send_offset c then mret None else
  let n := Z.min (len s - send_offset c) cap in
  out ← lift (slice s (send_offset c) (send_offset c + n));
  _ ← modify (λ c, c <| send_offset := send_offset c + n |>);
  _ ← (if len s <=? send_offset c + n
       then modify (λ c, c <| send_buf := Buf.clear (send_buf c) |> <| send_offset := 0 |>) else mret tt);
  mret (Some out).

Definition poll_event (c : t) : option TlsEvent * t :=
  match events c with [] => (None, c) | e :: es => (Some e, c <| events := es |>) end.

Definition send_app_data (data : list Z) : M Error t Z :=
  c ← get;
  if negb (bool_decide (state c = Active)) then throw InvalidState else
  l ← lift (Buf.blen (app_send_buf c));
  if BUF <? l + len data then throw (BufferTooSmall (l + len data)) else
  _ ← on_app_send (Buf.buf_try_reserve BUF grant (len data));
  _ ← on_app_send (extend_ignored BUF grant data);
  mret (len data).

Definition send_alert (lvl desc : Z) : M Error t unit :=
  c ← get;
  if bool_decide (state c = Active) then encrypt_and_send [lvl; desc] Alert false else
  alert ← lift (let '(r, b) := (n ← encode_record_header Alert 2; _ ← store n lvl; _ ← store (n + 1) desc; mret n) (replicate 16 0) in
                n ← r; slice b 0 (n + 2));
  on_send (queue_send BUF grant alert).

Definition is_active (c : t) : bool := bool_decide (state c = Active).
Definition is_closed (c : t) : bool := bool_decide (state c = Closed ∨ state c = Closing).

Definition close : M Error t unit :=
  c ← get;
  if is_closed c then mret tt else
  _ ← send_alert 1 0;
  modify (λ c, c <| state := Closing |>).

End Connection.
End TcpTls.
