(* ===== verification/TcpTlsStream.v ===== *)
(** * Application data over a TLS connection

    What one side hands to [send_app_data] is what the other side reads with
    [recv_app_data], byte for byte and in order, however the records are cut into
    TCP segments and whatever the allocator does. *)
From S2P Require Import Prelude Errors Hoare Varint Cursor Buf TlsParams TlsMessages TlsExtensions Recovery Crypto Certificate TlsHandshake TlsRecord TcpTls.

Import TlsRecord TcpTls.

Section stream.
Context `{Platform} `{PrimitiveLaws}.

(** ** Records as functions *)

Definition keys_ok (k : DirectionalRecordKeys) : Prop :=
  (len (aead_key k) = 16 ∨ len (aead_key k) = 32) ∧ len (iv k) = 12.

(** The protected payload, and the record. *)
Definition protected (key nonce : list Z) (ct : ContentType) (m : list Z) : list Z :=
  (Aead.seal_in_place key nonce (header_wire ApplicationData (len m + 17)) (len m + 1) (m ++ to_byte ct :: replicate 16 0)).2.
Definition record (k : DirectionalRecordKeys) (seq : Z) (ct : ContentType) (m : list Z) : list Z :=
  header_wire ApplicationData (len m + 17) ++ protected (aead_key k) (nonce (iv k) seq) ct m.

Lemma protected_ok key n ct m :
  len key = 16 ∨ len key = 32 → len n = 12 → len m ≤ 2 ^ 14 →
  len (protected key n ct m) = len m + 17 ∧
  Aead.seal_in_place key n (header_wire ApplicationData (len m + 17)) (len m + 1) (m ++ to_byte ct :: replicate 16 0) =
    (Ok (len m + 17), protected key n ct m) ∧
  Aead.open_in_place key n (header_wire ApplicationData (len m + 17)) (len m + 17) (protected key n ct m) =
    (Ok (len m + 1), m ++ to_byte ct :: drop (length m + 1) (protected key n ct m)).
Proof.
  intros Hk Hn Hm. destruct (seal_ok key n (header_wire ApplicationData (len m + 17)) (m ++ [to_byte ct]) (replicate 16 0))
    as (c & Hc & Hs & Ho); [done|done|rewrite length_app; simpl; lia|done|].
  specialize (Ho []). rewrite !app_nil_r in Ho. rewrite length_app in Hc, Hs, Ho. simpl length in Hc, Hs, Ho.
  replace (Z.of_nat (length m + 1)) with (len m + 1) in Hc, Hs, Ho by lia. replace (len m + 1 + 16) with (len m + 17) in Hc, Hs, Ho by lia.
  assert (protected key n ct m = c) as ->.
  { unfold protected. rewrite <- app_assoc in Hs. cbn [app] in Hs. rewrite Hs. cbn [snd]. by rewrite app_nil_r. }
  split; [done|]. split.
  - rewrite <- app_assoc in Hs. cbn [app] in Hs. rewrite Hs. cbn [replicate drop]. by rewrite app_nil_r.
  - rewrite Ho. by rewrite <- app_assoc.
Qed.
Lemma record_len k seq ct m : keys_ok k → len m ≤ 2 ^ 14 → len (record k seq ct m) = len m + 22.
Proof.
  intros [Hk Hi] Hm. unfold record. destruct (build_nonce_ok (iv k) seq Hi) as [_ Hn].
  destruct (protected_ok (aead_key k) (nonce (iv k) seq) ct m Hk Hn Hm) as [Hl _].
  rewrite length_app, Nat2Z.inj_add, len_header_wire_tls, Hl. lia.
Qed.

(** Messages under consecutive sequence numbers. *)
Fixpoint records (k : DirectionalRecordKeys) (seq : Z) (ms : list (list Z)) : list Z :=
  match ms with [] => [] | m :: ms => record k seq ApplicationData m ++ records k (seq + 1) ms end.
Lemma records_app k seq ms ms' : records k seq (ms ++ ms') = records k seq ms ++ records k (seq + len ms) ms'.
Proof.
  revert seq. induction ms as [|m ms IH]; intros seq; cbn [records app].
  - by rewrite Z.add_0_r.
  - rewrite IH, <- app_assoc. do 2 f_equal. f_equal. simpl length. lia.
Qed.

(** ** Calls on the buffers *)

Variable N : Z.
Variable grant : Z → bool.
Hypothesis N_bound : 0 ≤ N ≤ 2 ^ 30.

Lemma usize_room n : n ≤ 2 ^ 30 → N + n < 2 ^ usize_bits.
Proof. intros. destruct usize_bits_ok as [-> | ->]; lia. Qed.

Lemma extend_ok data b :
  Buf.ok N b → Buf.spare b (len data) → len (Buf.vis b) + len data ≤ N →
  ∃ b', extend_ignored N grant data b = (Ok tt, b') ∧ Buf.ok N b' ∧ Buf.vis b' = Buf.vis b ++ data ∧
    ∀ n, Buf.spare b n → Buf.spare b' (n - len data).
Proof.
  intros Hb Hs Hl. destruct (Buf.ok_extend N grant data b Hb Hs Hl) as (b' & He & ?). exists b'. unfold extend_ignored. by rewrite He.
Qed.

Lemma push_zeros_ok n b :
  Buf.ok N b → Buf.spare b (Z.of_nat n) → len (Buf.vis b) + Z.of_nat n ≤ N →
  ∃ b', push_zeros N grant n b = (Ok tt, b') ∧ Buf.ok N b' ∧ Buf.vis b' = Buf.vis b ++ replicate n 0.
Proof.
  revert b. induction n as [|n IH]; intros b Hb Hs Hl; cbn [push_zeros].
  - exists b. by rewrite app_nil_r.
  - destruct (extend_ok [0] b Hb) as (b1 & E1 & Hb1 & V1 & S1); [eapply Buf.spare_le; [exact Hs|simpl; lia]|simpl; lia|].
    destruct (IH b1 Hb1) as (b2 & E2 & Hb2 & V2); [eapply Buf.spare_le; [by apply S1|simpl; lia]|rewrite V1, length_app; simpl; lia|].
    exists b2. erewrite M_step_ok by exact E1. split; [exact E2|]. split; [done|]. by rewrite V2, V1, <- app_assoc.
Qed.

Lemma on_bytes_ok {A} (f : M Error (list Z) A) b r s' :
  Buf.ok N b → f (Buf.vis b) = (r, s') → length s' = length (Buf.vis b) →
  ∃ b', on_bytes f b = (r, b') ∧ Buf.ok N b' ∧ Buf.vis b' = s'.
Proof.
  intros Hb Hf Hl. unfold on_bytes. rewrite (Buf.ok_as_slice N b Hb), Hf.
  destruct (Buf.ok_write (E:=Error) N (λ _, Ok s') b s' Hb eq_refl Hl) as (b' & -> & ? & ? & _). by exists b'.
Qed.
Lemma truncate_ok n b : Buf.ok N b → 0 ≤ n →
  ∃ b', buf_do (Buf.truncate n) b = (Ok tt, b') ∧ Buf.ok N b' ∧ Buf.vis b' = take (Z.to_nat n) (Buf.vis b).
Proof. intros Hb Hn. destruct (Buf.ok_truncate (E:=Error) N n b Hb Hn) as (b' & He & ?). exists b'. unfold buf_do. by rewrite He. Qed.

(** One record is appended, or nothing is. *)
Lemma encrypt_into_ok m ct k seq b :
  Buf.ok N b → keys_ok k → len m ≤ 2 ^ 14 →
  ∃ r b', encrypt_into N grant m ct (aead_key k) (nonce (iv k) seq) b = (r, b') ∧ Buf.ok N b' ∧
    (r = Ok tt ∧ Buf.vis b' = Buf.vis b ++ record k seq ct m ∨
     (∃ e, r = Err e) ∧ Buf.vis b' = Buf.vis b ∧ (N < len (Buf.vis b) + len m + 22 ∨ ∃ n, grant n = false)).
Proof.
  intros Hb [Hk Hi] Hm. destruct (build_nonce_ok (iv k) seq Hi) as [_ Hn].
  destruct (protected_ok (aead_key k) (nonce (iv k) seq) ct m Hk Hn Hm) as (Lp & Hseal & _).
  unfold encrypt_into. erewrite M_step_ok by reflexivity. erewrite M_step_lift by exact (Buf.ok_blen N b Hb).
  unfold RECORD_HEADER_LEN, Aead.TAG_LEN. destruct (Z.ltb_spec N (len (Buf.vis b) + (5 + (len m + 1 + 16)))) as [Hfull|Hroom].
  { do 2 eexists. split; [reflexivity|]. split; [done|]. right. split; [by eexists|]. split; [done|]. left. lia. }
  destruct (Buf.ok_try_reserve N grant (5 + (len m + 1 + 16)) b Hb) as (r0 & b0 & E0 & Hb0 & V0 & [[-> Hs0]| ->]); [lia|apply usize_room; lia| |].
  2: { do 2 eexists. unfold mbind, M_bind. rewrite E0. split; [reflexivity|]. split; [done|]. right. split; [by eexists|]. split; [done|].
       right. eapply (Buf.oom_refused N grant). by rewrite E0. }
  specialize (Hs0 Hroom). erewrite M_step_ok by exact E0.
  replace (trunc 16 (len m + 1 + 16)) with (len m + 17) by (unfold trunc; rewrite Z.mod_small; lia).
  rewrite encode_header_wire by (unfold uint; simpl; lia). cbn [mbind res_bind replicate drop]. rewrite app_nil_r.
  erewrite M_step_lift by reflexivity. set (h := header_wire ApplicationData (len m + 17)) in *.
  assert (len h = 5) as Lh by done.
  destruct (extend_ok h b0 Hb0) as (b1 & E1 & Hb1 & V1 & S1); [eapply Buf.spare_le; [exact Hs0|lia]|rewrite V0; lia|].
  erewrite M_step_ok by exact E1. erewrite M_step_ok by reflexivity. erewrite M_step_lift by exact (Buf.ok_blen N b1 Hb1).
  assert (len (Buf.vis b1) = len (Buf.vis b) + 5) as L1 by (rewrite V1, V0, length_app; lia).
  destruct (extend_ok m b1 Hb1) as (b2 & E2 & Hb2 & V2 & S2); [eapply Buf.spare_le; [apply S1, Hs0|lia]|lia|].
  erewrite M_step_ok by exact E2. assert (len (Buf.vis b2) = len (Buf.vis b) + 5 + len m) as L2 by (rewrite V2, length_app; lia).
  destruct (extend_ok [to_byte ct] b2 Hb2) as (b3 & E3 & Hb3 & V3 & S3); [eapply Buf.spare_le; [apply S2, S1, Hs0|simpl length; lia]|simpl length; lia|].
  erewrite M_step_ok by exact E3.
  assert (len (Buf.vis b3) = len (Buf.vis b) + 6 + len m) as L3 by (rewrite V3, length_app; simpl length; lia).
  destruct (push_zeros_ok 16 b3 Hb3) as (b4 & E4 & Hb4 & V4); [eapply Buf.spare_le; [apply S3, S2, S1, Hs0|simpl length; lia]|lia|].
  change (Z.to_nat 16) with 16%nat. erewrite M_step_ok by exact E4.
  assert (Buf.vis b4 = Buf.vis b1 ++ m ++ to_byte ct :: replicate 16 0) as V4' by (rewrite V4, V3, V2, <- !app_assoc; done).
  destruct (on_bytes_ok (with_from (len (Buf.vis b1)) (Aead.seal_in_place (aead_key k) (nonce (iv k) seq) h (len m + 1))) b4
    (Ok (len m + 17)) (Buf.vis b1 ++ protected (aead_key k) (nonce (iv k) seq) ct m) Hb4) as (b5 & E5 & Hb5 & V5).
  { rewrite V4', with_from_app by done. by rewrite Hseal. }
  { rewrite V4', !length_app. simpl length. lia. }
  erewrite M_step_ok by exact E5. destruct (truncate_ok (len (Buf.vis b1) + (len m + 17)) b5 Hb5) as (b6 & E6 & Hb6 & V6); [lia|].
  exists (Ok tt), b6. split; [exact E6|]. split; [done|]. left. split; [done|].
  rewrite V6, take_ge by (rewrite V5, length_app; lia). rewrite V5, V1, V0, <- app_assoc. done.
Qed.

(** Removing a range. *)
Lemma remove_range_ok x y z b :
  Buf.ok N b → Buf.vis b = x ++ y ++ z →
  ∃ b', remove_range (len x) (len x + len y) b = (Ok tt, b') ∧ Buf.ok N b' ∧ Buf.vis b' = x ++ z.
Proof.
  intros Hb Hv. unfold remove_range. erewrite M_step_ok by reflexivity. erewrite M_step_lift by exact (Buf.ok_blen N b Hb).
  assert (copy_within (E:=Error) (Buf.vis b) (len x + len y) (len (Buf.vis b)) (len x) =
    Ok (x ++ z ++ drop (length z) (y ++ z))) as Hc.
  { unfold copy_within. rewrite Hv, decide_True by (rewrite !length_app; lia). f_equal. rewrite Nat2Z.id, take_app_length. f_equal.
    replace (Z.to_nat (len x + len y)) with (length (x ++ y)) by (rewrite length_app; lia). rewrite app_assoc, drop_app_length.
    rewrite take_ge by (rewrite !length_app; lia). f_equal. rewrite <- app_assoc. rewrite drop_app_ge by (rewrite !length_app; lia).
    f_equal. rewrite !length_app. lia. }
  destruct (Buf.ok_write (E:=Error) N (λ s, copy_within s (len x + len y) (len s) (len x)) b _ Hb Hc) as (b1 & E1 & Hb1 & V1 & _).
  { rewrite Hv, !length_app, length_drop, length_app. lia. }
  erewrite M_step_ok by (unfold buf_do; rewrite E1; reflexivity).
  erewrite M_step_lift by (apply usub_ok; rewrite Hv, !length_app; lia).
  destruct (truncate_ok (len (Buf.vis b) - (len x + len y - len x)) b1 Hb1) as (b2 & E2 & Hb2 & V2); [rewrite Hv, !length_app; lia|].
  exists b2. split; [exact E2|]. split; [done|]. rewrite V2, V1, Hv, (app_assoc x z). apply take_app_length'. rewrite !length_app. lia.
Qed.

Lemma with_range_ok {A} (f : M Error (list Z) A) x y z y' r a b :
  f y = (r, y') → length y' = length y → a = len x → b = len x + len y →
  with_range a b f (x ++ y ++ z) = (r, x ++ y' ++ z).
Proof.
  intros Hf Hl -> ->. unfold with_range. rewrite (slice_middle x y z) by done. rewrite Hf.
  rewrite copy_at_eq by (rewrite ?length_app; lia). rewrite Nat2Z.id, take_app_length. do 3 f_equal.
  rewrite app_assoc. apply drop_app_length'. rewrite length_app. lia.
Qed.

(** ** Receiving *)

Lemma on_recv_eq {A} (m : M Error Buf.t A) c r b :
  m (recv_buf c) = (r, b) → on_recv m c = (r, c <| recv_buf := b |>).
Proof. unfold on_recv. by intros ->. Qed.
Lemma tls_recv_slice_eq x y z a b c :
  Buf.ok N (recv_buf c) → Buf.vis (recv_buf c) = x ++ y ++ z → a = len x → b = len x + len y →
  recv_slice a b c = (Ok y, c).
Proof.
  intros Hb Hv -> ->. unfold recv_slice. erewrite M_step_ok by reflexivity. erewrite M_step_lift by exact (Buf.ok_as_slice N _ Hb).
  rewrite Hv. unfold lift. by rewrite slice_middle.
Qed.

(** Opening the record at [ps] in place. *)
Lemma recv_protected_ok c v m ct rest k seq adv c' ps payload_len :
  Buf.ok N (recv_buf c) → keys_ok k → len m ≤ 2 ^ 14 →
  Buf.vis (recv_buf c) = v ++ record k seq ct m ++ rest → ps = len v + 5 → payload_len = len m + 17 →
  (∀ b, Buf.ok N b → adv (c <| recv_buf := b |>) = (Ok tt, c' <| recv_buf := b |>)) →
  ∃ b junk, recv_protected k seq adv (header_wire ApplicationData (len m + 17)) ps payload_len c =
      (Ok (len m, ct), c' <| recv_buf := b |>) ∧ Buf.ok N b ∧
    Buf.vis b = v ++ header_wire ApplicationData (len m + 17) ++ m ++ junk ++ rest ∧ len junk = 17.
Proof.
  intros Hb [Hk Hi] Hm Hv -> -> Hadv. destruct (build_nonce_ok (iv k) seq Hi) as [Hbn Hn].
  destruct (protected_ok (aead_key k) (nonce (iv k) seq) ct m Hk Hn Hm) as (Lp & _ & Hopen).
  unfold recv_protected. erewrite M_step_lift by exact Hbn. set (h := header_wire ApplicationData (len m + 17)) in *.
  set (pr := protected _ _ _ _) in *. set (junk := drop (length m + 1) pr) in *. assert (len junk = 16) as Lj by (unfold junk; rewrite length_drop; lia).
  assert (len h = 5) as Lh by done.
  assert (Buf.vis (recv_buf c) = (v ++ h) ++ pr ++ rest) as Hv' by (rewrite Hv; unfold record; fold h pr; by rewrite <- !app_assoc).
  destruct (on_bytes_ok (with_range (len v + 5) (len v + 5 + (len m + 17)) (Aead.open_in_place (aead_key k) (nonce (iv k) seq) h (len m + 17)))
    (recv_buf c) (Ok (len m + 1)) ((v ++ h) ++ (m ++ to_byte ct :: junk) ++ rest) Hb) as (b & Eb & Hb' & Vb).
  { rewrite Hv'. apply with_range_ok; [exact Hopen| |rewrite length_app; lia..]. rewrite length_app. simpl length. lia. }
  { rewrite Hv', !length_app. simpl length. lia. }
  erewrite M_step_ok by (by apply on_recv_eq). erewrite M_step_ok by (by apply Hadv).
  erewrite M_step_ok by (apply (tls_recv_slice_eq (v ++ h) (m ++ [to_byte ct]) (junk ++ rest)); [exact Hb'|cbn -[app]; by rewrite Vb, <- !app_assoc|
    rewrite length_app; lia|rewrite !length_app; simpl length; lia]).
  exists b, (to_byte ct :: junk). split; [|split; [done|split; [by rewrite Vb, <- !app_assoc|simpl length; lia]]].
  unfold lift, find_inner_content_type. pose proof (inner_type_ok m ct 0 []) as Hin. cbn [replicate app] in Hin. rewrite Z.add_0_r in Hin.
  rewrite length_app. simpl length. replace (Z.of_nat (length m + 1)) with (len m + 1) by lia. by rewrite Hin.
Qed.

(** The plaintext moves down over its header. *)
Lemma finish_record_ok c v h m junk rest off ps total :
  Buf.ok N (recv_buf c) → Buf.vis (recv_buf c) = v ++ h ++ m ++ junk ++ rest → off = len v → ps = len v + len h →
  total = len h + len m + len junk →
  ∃ b, finish_record grant false (Some (len m)) ps off total c =
      (Ok tt, c <| recv_buf := b |> <| plain := plain c + len m |> <| events := push_capped 8 (events c) AppData |>) ∧
    Buf.ok N b ∧ Buf.vis b = v ++ m ++ rest.
Proof.
  intros Hb Hv -> -> ->. unfold finish_record.
  set (y := drop (length m) (h ++ m ++ junk)). assert (len y = len h + len junk) as Ly by (unfold y; rewrite length_drop, !length_app; lia).
  assert (copy_within (E:=Error) (Buf.vis (recv_buf c)) (len v + len h) (len v + len h + len m) (len v) = Ok ((v ++ m) ++ y ++ rest)) as Hcw.
  { unfold copy_within. rewrite Hv, decide_True by (rewrite !length_app; lia). f_equal. rewrite Nat2Z.id, take_app_length.
    replace (Z.to_nat (len v + len h)) with (length (v ++ h)) by (rewrite length_app; lia). rewrite (app_assoc v h), drop_app_length.
    rewrite take_app_length' by lia. rewrite <- !app_assoc. do 2 f_equal. rewrite drop_app_ge by lia.
    replace (Z.to_nat _ - length v)%nat with (length m) by lia. unfold y. rewrite !app_assoc. rewrite drop_app_le by (rewrite !length_app; lia). done. }
  destruct (Buf.ok_write (E:=Error) N (λ s, copy_within s (len v + len h) (len v + len h + len m) (len v)) (recv_buf c) _ Hb Hcw) as (b1 & E1 & Hb1 & V1 & _).
  { rewrite Hv. unfold y. rewrite !length_app, length_drop, !length_app. lia. }
  destruct (remove_range_ok (v ++ m) y rest b1 Hb1 V1) as (b2 & E2 & Hb2 & V2).
  exists b2. split; [|by rewrite <- app_assoc in V2].
  assert (on_recv (remove_range (len v + len m) (len v + (len h + len m + len junk))) (c <| recv_buf := b1 |>) =
    (Ok tt, c <| recv_buf := b2 |>)) as E2'.
  { erewrite on_recv_eq; [reflexivity|]. cbn [recv_buf update].
    replace (len v + len m) with (len (v ++ m)) by (rewrite length_app; lia).
    replace (len v + (len h + len m + len junk)) with (len (v ++ m) + len y) by (rewrite length_app; lia). exact E2. }
  cbv iota. erewrite M_step_ok.
  2: { erewrite M_step_ok by (apply on_recv_eq; unfold buf_do; rewrite E1; reflexivity). erewrite M_step_ok by exact E2'. reflexivity. }
  reflexivity.
Qed.

(** A connection that receives application data under [k]. *)
Record receiving (k : DirectionalRecordKeys) (c : t) : Prop := {
  receiving_active : state c = Active;
  receiving_keys : app_recv c = Some k;
  receiving_ok : keys_ok k;
  receiving_buf : Buf.ok N (recv_buf c);
  receiving_seq : 0 ≤ recv_seq c
}.

Definition message_fits (m : list Z) : Prop := len m ≤ 2 ^ 14 ∧ len m + 22 ≤ N.

(** What receiving changes. *)
Definition received (c : t) (b : Buf.t) (seq p : Z) (ev : list TlsEvent) : t :=
  c <| recv_buf := b |> <| recv_seq := seq |> <| plain := p |> <| events := ev |>.

Lemma recv_step_record k c v m rest :
  receiving k c → Buf.vis (recv_buf c) = v ++ record k (recv_seq c) ApplicationData m ++ rest → plain c = len v →
  message_fits m → recv_seq c + 1 < 2 ^ 64 →
  ∃ b ev, recv_step N grant c = (Ok true, received c b (recv_seq c + 1) (len v + len m) ev) ∧
    Buf.ok N b ∧ Buf.vis b = v ++ m ++ rest.
Proof.
  intros [Hst Hkeys Hk Hb Hs] Hv Hp [Hm HN] Hseq. set (h := header_wire ApplicationData (len m + 17)). assert (len h = 5) as Lh by done.
  pose proof (record_len k (recv_seq c) ApplicationData m Hk Hm) as Lr. set (pr := protected (aead_key k) (nonce (iv k) (recv_seq c)) ApplicationData m).
  assert (record k (recv_seq c) ApplicationData m = h ++ pr) as Hrec by done.
  unfold recv_step. erewrite M_step_ok by reflexivity. rewrite Hp. erewrite M_step_lift by exact (Buf.ok_blen N _ Hb).
  assert (len (Buf.vis (recv_buf c)) = len v + (len m + 22 + len rest)) as Lv by (rewrite Hv, !length_app; lia).
  erewrite M_step_lift by (apply usub_ok; lia). unfold RECORD_HEADER_LEN. rewrite (proj2 (Z.ltb_ge _ _)) by lia.
  erewrite M_step_ok by (apply (tls_recv_slice_eq v h (pr ++ rest)); [done|rewrite Hv, Hrec; by rewrite <- app_assoc|done..]).
  pose proof (tls_decode_header_wire ApplicationData (len m + 17) []) as Hd. rewrite app_nil_r in Hd. fold h in Hd.
  erewrite M_step_lift by (apply Hd; unfold uint; lia). cbn [length_ content_type].
  rewrite (proj2 (Z.ltb_ge _ _)), (proj2 (Z.ltb_ge _ _)) by lia.
  destruct (recv_protected_ok c v m ApplicationData rest k (recv_seq c) (n ← lift (uadd 64 (recv_seq c) 1); modify (λ c, c <| recv_seq := n |>))
    (c <| recv_seq := recv_seq c + 1 |>) (len v + 5) (len m + 17) Hb Hk Hm Hv eq_refl eq_refl) as (b1 & junk & E1 & Hb1 & V1 & Lj).
  { intros b _. erewrite M_step_lift by (by apply uadd_ok). reflexivity. }
  erewrite M_step_ok.
  2: { unfold recv_record. erewrite M_step_ok by reflexivity. rewrite Hst. unfold recv_active. erewrite M_step_ok by reflexivity.
       rewrite Hkeys. erewrite M_step_lift by reflexivity. erewrite M_step_ok by exact E1. reflexivity. }
  cbv iota. destruct (finish_record_ok (c <| recv_seq := recv_seq c + 1 |> <| recv_buf := b1 |>) v h m junk rest (len v) (len v + 5) (5 + (len m + 17)))
    as (b2 & E2 & Hb2 & V2); [exact Hb1|exact V1|done|lia|lia|].
  exists b2, (push_capped 8 (events c) AppData). split; [|done]. erewrite M_step_ok by exact E2. unfold received. by rewrite <- Hp.
Qed.

(** Short of a record, the loop stops. *)
Lemma recv_step_partial k c v p more m :
  receiving k c → Buf.vis (recv_buf c) = v ++ p → plain c = len v → message_fits m →
  p ++ more = record k (recv_seq c) ApplicationData m → more ≠ [] → recv_step N grant c = (Ok false, c).
Proof.
  intros [Hst Hkeys Hk Hb Hs] Hv Hp [Hm HN] Hpm Hmore. pose proof (record_len k (recv_seq c) ApplicationData m Hk Hm) as Lr.
  assert (len p < len m + 22) as Lp by (rewrite <- Lr, <- Hpm, length_app; destruct more; [done|simpl; lia]).
  unfold recv_step. erewrite M_step_ok by reflexivity. rewrite Hp. erewrite M_step_lift by exact (Buf.ok_blen N _ Hb).
  assert (len (Buf.vis (recv_buf c)) = len v + len p) as Lv by (rewrite Hv, length_app; lia).
  erewrite M_step_lift by (apply usub_ok; lia). unfold RECORD_HEADER_LEN. destruct (Z.ltb_spec (len (Buf.vis (recv_buf c)) - len v) 5); [done|].
  set (h := header_wire ApplicationData (len m + 17)). assert (len h = 5) as Lh by done.
  assert (p = h ++ drop 5 p) as Hph.
  { rewrite <- (take_drop 5 p) at 1. f_equal. rewrite <- (take_app_le p more 5) by lia. rewrite Hpm. unfold record. by apply take_app_length'. }
  erewrite M_step_ok by (apply (tls_recv_slice_eq v h (drop 5 p)); [done|by rewrite Hv, <- Hph|done..]).
  pose proof (tls_decode_header_wire ApplicationData (len m + 17) []) as Hd. rewrite app_nil_r in Hd. fold h in Hd.
  erewrite M_step_lift by (apply Hd; unfold uint; lia). cbn [length_].
  rewrite (proj2 (Z.ltb_ge _ _)) by lia. by rewrite (proj2 (Z.ltb_lt _ _)) by lia.
Qed.

(** The loop opens every whole record that has arrived. *)
Lemma recv_loop_ok k ms fuel c v p more :
  receiving k c → Buf.vis (recv_buf c) = v ++ p → plain c = len v → Forall message_fits ms →
  p ++ more = records k (recv_seq c) ms → recv_seq c + len ms < 2 ^ 64 → (length p ≤ fuel)%nat →
  ∃ ms1 ms2 p' b ev, ms = ms1 ++ ms2 ∧ p' ++ more = records k (recv_seq c + len ms1) ms2 ∧ (more = [] → ms2 = []) ∧
    recv_loop N grant fuel c = (Ok tt, received c b (recv_seq c + len ms1) (len v + len (concat ms1)) ev) ∧
    Buf.ok N b ∧ Buf.vis b = v ++ concat ms1 ++ p'.
Proof.
  revert fuel c v p. induction ms as [|m ms IH]; intros fuel c v p Hr Hv Hp Hms Hpm Hseq Hf.
  - apply app_nil in Hpm as [-> ->]. exists [], [], [], (recv_buf c), (events c). rewrite Z.add_0_r.
    split; [done|]. split; [done|]. split; [done|]. split; [|split; [apply Hr|by rewrite Hv]].
    assert (recv_step N grant c = (Ok false, c)) as Hstep.
    { unfold recv_step. erewrite M_step_ok by reflexivity. erewrite M_step_lift by exact (Buf.ok_blen N _ (receiving_buf _ _ Hr)).
      rewrite Hp, Hv, app_nil_r. erewrite M_step_lift by (apply usub_ok; lia). unfold RECORD_HEADER_LEN. by rewrite (proj2 (Z.ltb_lt _ _)) by lia. }
    destruct fuel; cbn [recv_loop]; erewrite M_step_ok by exact Hstep; unfold received; simpl; rewrite Z.add_0_r, <- Hp; by destruct c.
  - cbn [records] in Hpm. inversion_clear Hms as [|? ? Hm Hms']. pose proof (record_len k (recv_seq c) ApplicationData m (receiving_ok _ _ Hr) (proj1 Hm)) as Lr.
    destruct (decide (len m + 22 ≤ len p)) as [Hfull|Hpart].
    + assert (∃ p1, p = record k (recv_seq c) ApplicationData m ++ p1 ∧ p1 ++ more = records k (recv_seq c + 1) ms) as (p1 & -> & Hp1).
      { exists (drop (length (record k (recv_seq c) ApplicationData m)) p).
        assert (take (length (record k (recv_seq c) ApplicationData m)) p = record k (recv_seq c) ApplicationData m) as Ht.
        { rewrite <- (take_app_le p more) by lia. rewrite Hpm. apply take_app_length. }
        split; [by rewrite <- Ht at 1; rewrite take_drop|]. rewrite <- drop_app_le by lia. rewrite Hpm. apply drop_app_length. }
      destruct (recv_step_record k c v m p1 Hr Hv Hp Hm) as (b & ev & Es & Hb & Vb); [simpl length in Hseq; lia|].
      destruct fuel as [|fuel]; [rewrite length_app in Hf; lia|]. set (c1 := received c b (recv_seq c + 1) (len v + len m) ev) in *.
      destruct (IH fuel c1 (v ++ m) p1) as (ms1 & ms2 & p' & b' & ev' & -> & Hp' & Hend & El & Hb' & Vb').
      * destruct Hr; constructor; [done..|exact Hb|cbn; lia].
      * cbn. by rewrite Vb, app_assoc.
      * cbn. rewrite length_app. lia.
      * done.
      * exact Hp1.
      * cbn. simpl length in Hseq. lia.
      * rewrite length_app in Hf. lia.
      * exists (m :: ms1), ms2, p', b', ev'. split; [done|]. cbn [recv_seq update c1 received] in Hp', El.
        assert (recv_seq c + len (m :: ms1) = recv_seq c + 1 + len ms1) as -> by (simpl length; lia).
        split; [exact Hp'|]. split; [done|]. split; [|split; [done|by rewrite Vb'; cbn [concat]; rewrite <- !app_assoc]].
        cbn [recv_loop]. erewrite M_step_ok by exact Es. cbv iota. rewrite El.
        assert (len v + len (concat (m :: ms1)) = len (v ++ m) + len (concat ms1)) as -> by (cbn [concat]; rewrite !length_app; lia). reflexivity.
    + exists [], (m :: ms), p, (recv_buf c), (events c). rewrite Z.add_0_r. split; [done|]. split; [exact Hpm|].
      assert (∃ more1, p ++ more1 = record k (recv_seq c) ApplicationData m ∧ more1 ≠ []) as (more1 & Hm1 & Hne).
      { exists (drop (length p) (record k (recv_seq c) ApplicationData m)). split.
        - rewrite <- (take_drop (length p) (record k (recv_seq c) ApplicationData m)) at 2. f_equal.
          rewrite <- (take_app_length p more) at 1. rewrite Hpm. apply take_app_le. lia.
        - intros Hnil%(f_equal length). rewrite length_drop in Hnil. change (length (A:=Z) []) with O in Hnil. lia. }
      split. { intros ->. rewrite app_nil_r in Hpm. apply (f_equal length) in Hpm. rewrite length_app in Hpm. lia. }
      split; [|split; [apply Hr|by rewrite Hv]].
      pose proof (recv_step_partial k c v p more1 m Hr Hv Hp Hm Hm1 Hne) as Hstep.
      destruct fuel; cbn [recv_loop]; erewrite M_step_ok by exact Hstep; unfold received; simpl; rewrite Z.add_0_r, <- Hp; by destruct c.
Qed.

Lemma unhide_ok b v p : Buf.Rep N b (Buf.View v p) → Buf.ok N (Buf.unhide_tail b).2 ∧ Buf.vis (Buf.unhide_tail b).2 = v ++ p.
Proof.
  intros (Hh & HN & Hs). apply Buf.Rep_ok. unfold Buf.Rep. cbn in *. rewrite length_app.
  split; [done|]. split; [lia|]. destruct (Buf.storage b) as [w|mem l]; [by rewrite app_nil_r|].
  destruct Hs as (-> & ? & junk & ->). split; [lia|]. split; [done|]. exists junk. by rewrite <- app_assoc.
Qed.
Lemma hide_ok b v p : Buf.ok N b → Buf.vis b = v ++ p →
  ∃ b', buf_do (Buf.hide_tail (len p)) b = (Ok tt, b') ∧ Buf.Rep N b' (Buf.View v p).
Proof.
  intros Hb Hv. exists (b <| Buf.hidden := Buf.hidden b + len p |>). unfold buf_do, Buf.hide_tail.
  rewrite (Buf.ok_blen N b Hb), Hv. cbn [mbind res_bind]. rewrite decide_True by (rewrite length_app; lia). split; [done|].
  unfold Buf.ok in Hb. rewrite Hv in Hb. destruct Hb as (Hh & HN & Hs). cbn in *. unfold Buf.Rep. cbn. rewrite length_app in *.
  split; [lia|]. split; [lia|]. destruct (Buf.storage b) as [w|mem l]; [by rewrite app_nil_r in Hs|].
  destruct Hs as (-> & ? & junk & ->). split; [lia|]. split; [done|]. exists junk. by rewrite <- app_assoc.
Qed.

(** The same with the ciphertext hidden: [v] is readable, [p] a partial record. *)
Record rx (k : DirectionalRecordKeys) (v p : list Z) (c : t) : Prop := {
  rx_active : state c = Active;
  rx_keys : app_recv c = Some k;
  rx_ok : keys_ok k;
  rx_buf : Buf.Rep N (recv_buf c) (Buf.View v p);
  rx_seq : 0 ≤ recv_seq c
}.

(** What [feed_data] may change of an active connection. *)
Definition limited (e : Tls.t) : Tls.t := Tls.set_local_record_size_limit (local_record_size_limit N) e.
Definition fed (c : t) (b : Buf.t) (seq p : Z) (ev : list TlsEvent) : t :=
  received (c <| engine := limited (engine c) |>) b seq p ev.

Lemma hide_rest_ok r c v p :
  Buf.ok N (recv_buf c) → Buf.vis (recv_buf c) = v ++ p → plain c = len v →
  ∃ b, hide_rest r c = (r, c <| recv_buf := b |>) ∧ Buf.Rep N b (Buf.View v p).
Proof.
  intros Hb Hv Hp. unfold hide_rest. erewrite M_step_ok by reflexivity. erewrite M_step_lift by exact (Buf.ok_blen N _ Hb).
  assert (len (Buf.vis (recv_buf c)) = len v + len p) as Hl by (rewrite Hv, length_app; lia).
  erewrite M_step_lift by (apply usub_ok; lia). destruct (hide_ok _ v p Hb Hv) as (b & Eb & Hr). exists b. split; [|done].
  replace (len (Buf.vis (recv_buf c)) - plain c) with (len p) by lia. by erewrite M_step_ok by (apply on_recv_eq; exact Eb).
Qed.

Lemma feed_data_ok k v p d more ms c :
  rx k v p c → Forall message_fits ms → p ++ d ++ more = records k (recv_seq c) ms → recv_seq c + len ms < 2 ^ 64 →
  ∃ r b seq pl ev ms1 ms2 p', feed_data N grant d c = (r, fed c b seq pl ev) ∧ ms = ms1 ++ ms2 ∧ seq = recv_seq c + len ms1 ∧
    Buf.Rep N b (Buf.View (v ++ concat ms1) p') ∧
    (r = Ok tt ∧ p' ++ more = records k seq ms2 ∧ (more = [] → ms2 = []) ∨
     (∃ e, r = Err e) ∧ ms1 = [] ∧ p' = p ∧ (N < len v + len p + len d ∨ ∃ n, grant n = false)).
Proof.
  intros [Hst Hkeys Hk Hrep Hs] Hms Hpm Hseq. unfold feed_data, set_limit. erewrite M_step_ok by reflexivity. erewrite M_step_ok by reflexivity.
  cbn [recv_buf update]. erewrite M_step_lift by exact (Buf.Rep_blen N _ _ Hrep). cbn [Buf.visible]. erewrite M_step_ok by reflexivity.
  destruct (unhide_ok _ _ _ Hrep) as [Hb0 V0]. set (b0 := (Buf.unhide_tail (recv_buf c)).2) in *.
  set (c0 := c <| engine := Tls.set_local_record_size_limit (local_record_size_limit N) (engine c) |> <| plain := len v |> <| recv_buf := b0 |>).
  change (update recv_buf (Buf.unhide_tail _).2 _) with c0.
  assert (∀ r b, Buf.ok N b → Buf.vis b = v ++ p → feed_revealed N grant d c0 = (r, c0 <| recv_buf := b |>) → (∃ e, r = Err e) →
    (N < len v + len p + len d ∨ ∃ n, grant n = false) →
    ∃ r b seq pl ev ms1 ms2 p', feed_and_hide N grant d c0 = (r, fed c b seq pl ev) ∧ ms = ms1 ++ ms2 ∧ seq = recv_seq c + len ms1 ∧
    Buf.Rep N b (Buf.View (v ++ concat ms1) p') ∧ (r = Ok tt ∧ p' ++ more = records k seq ms2 ∧ (more = [] → ms2 = []) ∨
     (∃ e, r = Err e) ∧ ms1 = [] ∧ p' = p ∧ (N < len v + len p + len d ∨ ∃ n, grant n = false))) as Hfail.
  { intros r b Hb Vb Hf [e ->] Hwhy. pose proof (hide_rest_ok (Err e) (c0 <| recv_buf := b |>) v p) as Hh. destruct (Hh Hb Vb eq_refl) as (b' & Eb & Hr).
    exists (Err e), b', (recv_seq c), (len v), (events c), [], ms, p. unfold feed_and_hide. rewrite Hf, Eb. split; [reflexivity|].
    split; [done|]. split; [by rewrite Z.add_0_r|]. split; [by rewrite app_nil_r|]. right. split_and!; [by eexists|done|done|done]. }
  destruct (decide (N < len v + len p + len d)) as [Hfull|Hroom].
  { apply (Hfail (Err (BufferTooSmall (len (v ++ p) + len d))) b0); [done|done| |by eexists|by left].
    unfold feed_revealed. erewrite M_step_ok by reflexivity. erewrite M_step_lift by exact (Buf.ok_blen N _ Hb0). rewrite V0.
    rewrite (proj2 (Z.ltb_lt _ _)) by (rewrite length_app; lia). reflexivity. }
  destruct (Buf.ok_try_reserve N grant (len d) b0 Hb0) as (r1 & b1 & E1 & Hb1 & V1 & Hr1); [lia|apply usize_room; lia|].
  assert (feed_revealed N grant d c0 = (_ ← on_recv (Buf.buf_try_reserve N grant (len d)); _ ← on_recv (extend_ignored N grant d); process_recv N grant) c0) as Hfr.
  { unfold feed_revealed. erewrite M_step_ok by reflexivity. erewrite M_step_lift by exact (Buf.ok_blen N _ Hb0). rewrite V0.
    by rewrite (proj2 (Z.ltb_ge _ _)) by (rewrite length_app; lia). }
  destruct Hr1 as [[-> Hsp]| ->].
  2: { apply (Hfail (Err OutOfMemory) b1); [done|by rewrite V1| |by eexists|right; apply (Buf.oom_refused N grant (len d) b0); by rewrite E1].
       rewrite Hfr. erewrite M_step_err by (apply on_recv_eq; exact E1). reflexivity. }
  destruct (extend_ok d b1 Hb1) as (b2 & E2 & Hb2 & V2 & _); [apply Hsp; rewrite V0, length_app; lia|rewrite V1, V0, length_app; lia|].
  rewrite V1, V0, <- app_assoc in V2. set (c2 := c0 <| recv_buf := b2 |>).
  assert (feed_revealed N grant d c0 = recv_loop N grant (length (v ++ p ++ d)) c2) as Hfr2.
  { rewrite Hfr. erewrite M_step_ok by (apply on_recv_eq; exact E1). erewrite M_step_ok by (apply on_recv_eq; exact E2).
    unfold process_recv. erewrite M_step_ok by reflexivity. erewrite M_step_lift by exact (Buf.ok_blen N _ Hb2). rewrite V2, Nat2Z.id. reflexivity. }
  destruct (recv_loop_ok k ms (length (v ++ p ++ d)) c2 v (p ++ d) more) as (ms1 & ms2 & p' & b3 & ev & Ems & Hp' & Hend & El & Hb3 & V3).
  - constructor; done.
  - exact V2.
  - done.
  - done.
  - by rewrite <- app_assoc.
  - done.
  - rewrite !length_app. lia.
  - destruct (hide_rest_ok (Ok tt) (received c2 b3 (recv_seq c + len ms1) (len v + len (concat ms1)) ev) (v ++ concat ms1) p') as (b4 & E4 & Hr4);
      [exact Hb3|cbn; by rewrite V3, app_assoc|cbn; by rewrite length_app; lia|].
    exists (Ok tt), b4, (recv_seq c + len ms1), (len v + len (concat ms1)), ev, ms1, ms2, p'.
    split; [|split; [done|split; [done|split; [done|by left]]]]. unfold feed_and_hide. rewrite Hfr2, El. exact E4.
Qed.

(** Reading what has been decrypted. *)
Lemma drain_ok n b v p :
  Buf.Rep N b (Buf.View v p) → 0 ≤ n ≤ len v →
  ∃ b', drain_recv n b = (Ok tt, b') ∧ Buf.Rep N b' (Buf.View (drop (Z.to_nat n) v) p).
Proof.
  intros Hr Hn. unfold drain_recv. set (f := λ s : list Z, copy_within (E:=Error) s n (len s) 0).
  destruct (Buf.with_mut_slice_Rep (E:=Error) N f b _ _ Hr (Buf.copy_within_front _ n Hn)) as (b1 & E1 & Hr1); [cbn [Buf.visible]; rewrite length_app, !length_drop; lia|].
  cbn [Buf.visible Buf.tail] in Hr1.
  assert (buf_do (Buf.with_mut_slice f) b = (Ok tt, b1)) as E1' by (unfold buf_do; by rewrite E1).
  erewrite M_step_ok by exact E1'. erewrite M_step_ok by reflexivity.
  erewrite M_step_lift by exact (Buf.Rep_blen N _ _ Hr1). cbn [Buf.visible].
  assert (len (drop (Z.to_nat n) v ++ drop (length v - Z.to_nat n) v) = len v) as Hl by (rewrite length_app, !length_drop; lia).
  rewrite Hl. erewrite M_step_lift by (apply usub_ok; lia).
  destruct (Buf.Rep_truncate (E:=Error) N (len v - n) _ _ Hr1) as (b2 & E2 & Hr2); [lia|]. exists b2. unfold buf_do. rewrite E2. split; [done|].
  cbn [Buf.visible Buf.tail] in Hr2. by rewrite take_app_length' in Hr2 by (rewrite length_drop; lia).
Qed.

Lemma recv_app_data_ok k v p cap c :
  rx k v p c → 0 ≤ cap →
  recv_app_data cap c = (Err WouldBlock, c) ∧ v = [] ∨
  ∃ b, recv_app_data cap c = (Ok (take (Z.to_nat cap) v), c <| recv_buf := b |>) ∧ Buf.Rep N b (Buf.View (drop (Z.to_nat cap) v) p).
Proof.
  intros [Hst Hkeys Hk Hrep Hs] Hcap. pose proof (Buf.Rep_blen (E:=Error) N _ _ Hrep) as Hlen. cbn [Buf.visible] in Hlen.
  unfold recv_app_data. erewrite M_step_ok by reflexivity.
  assert (Buf.is_empty (E:=Error) (recv_buf c) = Ok (len v =? 0)) as He by (unfold Buf.is_empty; by rewrite Hlen).
  erewrite M_step_lift by exact He. destruct (Z.eqb_spec (len v) 0) as [Hz|Hz]; [left; split; [done|by destruct v]|right].
  erewrite M_step_lift by exact Hlen. set (n := Z.min (len v) cap).
  assert (take (Z.to_nat n) v = take (Z.to_nat cap) v ∧ drop (Z.to_nat n) v = drop (Z.to_nat cap) v) as [Ht Hd].
  { unfold n. destruct (Z.min_spec (len v) cap) as [[? ->]|[? ->]]; [|done]. rewrite Nat2Z.id, take_ge, drop_ge by lia. by rewrite take_ge, drop_ge by lia. }
  destruct (drain_ok n (recv_buf c) v p Hrep) as (b & Eb & Hb); [lia|]. exists b. rewrite Hd in Hb. split; [|done].
  erewrite M_step_ok.
  2: { unfold recv_slice. erewrite M_step_ok by reflexivity. erewrite M_step_lift by exact (Buf.Rep_as_slice N _ _ Hrep). cbn [Buf.visible].
       unfold lift. rewrite slice_eq by lia. rewrite Z.sub_0_r, drop_0, Ht. reflexivity. }
  erewrite M_step_ok by (apply on_recv_eq; exact Eb). reflexivity.
Qed.

(** ** Sending *)

(** A connection that sends application data under [k]. *)
Record tx (k : DirectionalRecordKeys) (c : t) : Prop := {
  tx_active : state c = Active;
  tx_keys : app_send c = Some k;
  tx_ok : keys_ok k;
  tx_buf : Buf.ok N (send_buf c);
  tx_app : Buf.ok N (app_send_buf c);
  tx_offset : 0 ≤ send_offset c ≤ len (Buf.vis (send_buf c));
  tx_seq : 0 ≤ send_seq c
}.

Lemma send_app_data_ok k d c :
  tx k c →
  ∃ r b, send_app_data N grant d c = (r, c <| app_send_buf := b |>) ∧ Buf.ok N b ∧
    (r = Ok (len d) ∧ Buf.vis b = Buf.vis (app_send_buf c) ++ d ∨
     (∃ e, r = Err e) ∧ Buf.vis b = Buf.vis (app_send_buf c) ∧
       (N < len (Buf.vis (app_send_buf c)) + len d ∨ ∃ n, grant n = false)).
Proof.
  intros [Hst Hkeys Hk Hb Ha Ho Hs]. unfold send_app_data. erewrite M_step_ok by reflexivity. rewrite bool_decide_eq_true_2 by done. cbn [negb].
  erewrite M_step_lift by exact (Buf.ok_blen N _ Ha).
  destruct (Z.ltb_spec N (len (Buf.vis (app_send_buf c)) + len d)) as [Hfull|Hroom].
  { exists (Err (BufferTooSmall (len (Buf.vis (app_send_buf c)) + len d))), (app_send_buf c). split; [by destruct c|]. split; [done|].
    right. split; [by eexists|]. split; [done|by left]. }
  destruct (Buf.ok_try_reserve N grant (len d) _ Ha) as (r1 & b1 & E1 & Hb1 & V1 & Hr1); [lia|apply usize_room; lia|].
  assert (on_app_send (Buf.buf_try_reserve N grant (len d)) c = (r1, c <| app_send_buf := b1 |>)) as E1' by (unfold on_app_send; by rewrite E1).
  destruct Hr1 as [[-> Hsp]| ->].
  - destruct (extend_ok d b1 Hb1) as (b2 & E2 & Hb2 & V2 & _); [by apply Hsp|rewrite V1; lia|].
    exists (Ok (len d)), b2. split; [|split; [done|left; by rewrite V2, V1]]. erewrite M_step_ok by exact E1'.
    erewrite M_step_ok by (unfold on_app_send; cbn [app_send_buf update]; rewrite E2; reflexivity). reflexivity.
  - exists (Err OutOfMemory), b1. split; [by erewrite M_step_err by exact E1'|]. split; [done|]. right. split; [by eexists|]. split; [done|].
    right. apply (Buf.oom_refused N grant (len d) (app_send_buf c)). by rewrite E1.
Qed.

(** What the flush changes. *)
Definition flushed (c : t) (seq : Z) (b1 b2 : Buf.t) : t := c <| send_seq := seq |> <| send_buf := b1 |> <| app_send_buf := b2 |>.

Lemma ok_drain_app n b : Buf.ok N b → 0 ≤ n ≤ len (Buf.vis b) →
  ∃ b', drain_recv n b = (Ok tt, b') ∧ Buf.ok N b' ∧ Buf.vis b' = drop (Z.to_nat n) (Buf.vis b).
Proof. intros Hb Hn. destruct (drain_ok n b _ [] Hb Hn) as (b' & E & Hr). exists b'. split; [done|]. by apply Buf.Rep_ok. Qed.

Lemma flush_loop_ok k fuel cap c :
  tx k c → 1 ≤ cap ≤ 2 ^ 14 → (length (Buf.vis (app_send_buf c)) ≤ fuel)%nat →
  send_seq c + len (Buf.vis (app_send_buf c)) < 2 ^ 64 →
  ∃ ms b1 b2, flush_loop N grant fuel cap c = (Ok tt, flushed c (send_seq c + len ms) b1 b2) ∧ Buf.ok N b1 ∧ Buf.ok N b2 ∧
    Buf.vis (app_send_buf c) = concat ms ++ Buf.vis b2 ∧ Buf.vis b1 = Buf.vis (send_buf c) ++ records k (send_seq c) ms ∧
    Forall (λ m, 1 ≤ len m ≤ cap) ms ∧
    (Buf.vis b2 = [] ∨ N < len (Buf.vis b1) + cap + 22 ∨ ∃ n, grant n = false).
Proof.
  revert c. induction fuel as [|fuel IH]; intros c Htx Hcap Hf Hseq; destruct (Htx) as [Hst Hkeys Hk Hb Ha Ho Hs].
  all: assert (flushed c (send_seq c) (send_buf c) (app_send_buf c) = c) as Hsame by by destruct c.
  all: cbn [flush_loop]; erewrite M_step_ok by reflexivity; erewrite M_step_lift by exact (Buf.ok_as_slice N _ Ha).
  all: destruct (Z.eqb_spec (len (Buf.vis (app_send_buf c))) 0) as [Hz|Hz]; [|try lia].
  1-2: exists [], (send_buf c), (app_send_buf c); rewrite Z.add_0_r, Hsame, app_nil_r; split_and!; [done..| |by left; destruct (Buf.vis (app_send_buf c))]; constructor.
  rewrite Hkeys. destruct (build_nonce_ok (iv k) (send_seq c) (proj2 Hk)) as [Hbn _]. erewrite M_step_lift by exact Hbn.
  set (l := Buf.vis (app_send_buf c)) in *. set (n := Z.min (len l) cap). assert (1 ≤ n ≤ cap ∧ n ≤ len l) as Hn by lia.
  assert (slice (E:=Error) l 0 n = Ok (take (Z.to_nat n) l)) as Hsl by (rewrite slice_eq by lia; by rewrite Z.sub_0_r, drop_0).
  erewrite M_step_lift by exact Hsl. set (m := take (Z.to_nat n) l). assert (len m = n) as Lm by (unfold m; rewrite length_take; lia).
  destruct (encrypt_into_ok m ApplicationData k (send_seq c) (send_buf c) Hb Hk) as (r & b1 & E1 & Hb1 & Hr); [lia|].
  assert (on_send (encrypt_into N grant m ApplicationData (aead_key k) (nonce (iv k) (send_seq c))) c = (r, c <| send_buf := b1 |>)) as E1'
    by (unfold on_send; by rewrite E1).
  destruct Hr as [[-> V1]|([e ->] & V1 & Hwhy)].
  2: { exists [], b1, (app_send_buf c). rewrite Z.add_0_r, app_nil_r. split; [|split_and!; [done..|constructor|]].
       - erewrite M_step_ok by (unfold try_encrypt; rewrite E1'; reflexivity). by destruct c.
       - right. destruct Hwhy as [Hw|Hw]; [left; rewrite V1; lia|by right]. }
  erewrite M_step_ok by (unfold try_encrypt; rewrite E1'; reflexivity). cbv iota. erewrite M_step_lift by (apply uadd_ok; lia).
  erewrite M_step_ok by reflexivity. destruct (ok_drain_app n (app_send_buf c) Ha) as (b2 & E2 & Hb2 & V2); [fold l; lia|].
  assert (drain_app_send n (c <| send_buf := b1 |> <| send_seq := send_seq c + 1 |>) = (Ok tt, flushed c (send_seq c + 1) b1 b2)) as E2'
    by (unfold drain_app_send, on_app_send; cbn [app_send_buf update]; rewrite E2; reflexivity).
  erewrite M_step_ok by exact E2'. fold l in V2.
  destruct (IH (flushed c (send_seq c + 1) b1 b2)) as (ms & b3 & b4 & E3 & Hb3 & Hb4 & V4 & V3 & Hms & Hend).
  - constructor; try done; cbn; rewrite ?V1, ?length_app; lia.
  - done.
  - cbn. rewrite V2, length_drop. lia.
  - cbn. rewrite V2, length_drop. lia.
  - exists (m :: ms), b3, b4. cbn [app_send_buf send_buf send_seq flushed update] in E3, V4, V3.
    replace (send_seq c + len (m :: ms)) with (send_seq c + 1 + len ms) by (cbn [length]; lia).
    split; [exact E3|]. split; [done|]. split; [done|]. cbn [concat records].
    split; [rewrite <- app_assoc, <- V4, V2; unfold m; by rewrite take_drop|]. split; [by rewrite V3, V1, <- app_assoc|].
    split; [constructor; [lia|done]|done].
Qed.

(** The engine of an active connection has nothing left to say. *)
Record quiet (c : t) : Prop := {
  quiet_active : state c = Active;
  quiet_state : Tls.state (engine c) = Tls.Complete;
  quiet_complete : Tls.is_complete (engine c) = true;
  quiet_buf : Buf.ok Tls.BUF (Tls.pending_write (engine c));
  quiet_empty : Buf.vis (Tls.pending_write (engine c)) = [];
  quiet_keys : Tls.pending_keys (engine c) = None;
  quiet_limit l : Tls.peer_record_size_limit (engine c) = Some l → peer_record_limit c = l
}.

Lemma write_quiet e :
  Tls.state e = Tls.Complete → Buf.ok Tls.BUF (Tls.pending_write e) → Buf.vis (Tls.pending_write e) = [] →
  Tls.write_handshake grant 2048 e = (Ok ([], Level.Initial), e).
Proof.
  intros Hst Hb Hv. unfold Tls.write_handshake. destruct (Tls.role e).
  - unfold Tls.write_client. erewrite M_step_ok by reflexivity. rewrite Hst. erewrite M_step_ok by reflexivity. erewrite M_step_ok by reflexivity.
    erewrite M_step_lift by exact (Buf.ok_blen Tls.BUF _ Hb). by rewrite Hv.
  - unfold Tls.write_server. erewrite M_step_ok by reflexivity. by rewrite Hst.
Qed.

Lemma check_keys_quiet c : quiet c → check_keys grant c = (Ok tt, c).
Proof.
  intros [Ha Hst Hc Hb Hv Hk Hl]. unfold check_keys. erewrite M_step_ok by reflexivity.
  assert (match Tls.peer_record_size_limit (engine c) with Some l => c <| peer_record_limit := l |> | None => c end = c) as ->.
  { destruct (Tls.peer_record_size_limit (engine c)) as [l|]; [|done]. rewrite <- (Hl l eq_refl). by destruct c. }
  assert (on_engine (λ e, let '(k, e') := Tls.derived_keys e in (Ok k, e')) c = (Ok None, c)) as Ht.
  { unfold on_engine, Tls.derived_keys. cbn. rewrite Hk. f_equal. destruct c as [e]. cbn in *. f_equal. destruct e. cbn in *. by subst. }
  assert (install_all 1 c = (Ok tt, c)) as Hi by (cbn [install_all]; by erewrite M_step_ok by exact Ht).
  erewrite M_step_ok by exact Hi. erewrite M_step_ok by reflexivity. rewrite Hc, bool_decide_eq_true_2 by done. done.
Qed.

Lemma flush_engine_quiet c : quiet c → flush_engine_output N grant c = (Ok tt, c <| engine_output_pending := false |>).
Proof.
  intros Hq. pose proof Hq as [Ha Hst Hc Hb Hv Hk Hl]. unfold flush_engine_output. erewrite M_step_ok by reflexivity.
  destruct (engine_output_pending c) eqn:Hp; cbn [negb]; [|destruct c; cbn in *; by subst].
  assert (engine_loop N grant 3 c = (Ok tt, c)) as He.
  { cbn [engine_loop]. rewrite write_quiet by done. unfold put. erewrite M_step_ok by reflexivity. by destruct c. }
  erewrite M_step_ok by exact He. erewrite M_step_ok by (unfold ignored; rewrite (check_keys_quiet c Hq); reflexivity). reflexivity.
Qed.

Lemma cap_range c : 1 ≤ peer_plaintext_cap c ≤ 2 ^ 14.
Proof. unfold peer_plaintext_cap, sat_sub. lia. Qed.

(** What polling changes. *)
Definition polled (c : t) (seq : Z) (b1 b2 : Buf.t) (off : Z) : t :=
  (flushed (c <| engine := limited (engine c) |> <| engine_output_pending := false |>) seq b1 b2) <| send_offset := off |>.

Lemma poll_output_ok k cap c :
  tx k c → quiet c → 0 ≤ cap → send_seq c + len (Buf.vis (app_send_buf c)) < 2 ^ 64 →
  ∃ o ms b1 b2 off, poll_output N grant cap c = (Ok o, polled c (send_seq c + len ms) b1 b2 off) ∧ Buf.ok N b1 ∧ Buf.ok N b2 ∧
    Buf.vis (app_send_buf c) = concat ms ++ Buf.vis b2 ∧ Forall (λ m, 1 ≤ len m ≤ peer_plaintext_cap c) ms ∧
    0 ≤ off ≤ len (Buf.vis b1) ∧
    drop (Z.to_nat (send_offset c)) (Buf.vis (send_buf c)) ++ records k (send_seq c) ms = default [] o ++ drop (Z.to_nat off) (Buf.vis b1).
Proof.
  intros Htx Hq Hcap Hseq. unfold poll_output, set_limit. erewrite M_step_ok by reflexivity.
  assert (quiet (c <| engine := limited (engine c) |>)) as Hq' by (destruct Hq; constructor; done).
  erewrite M_step_ok by exact (flush_engine_quiet _ Hq').
  set (c1 := c <| engine := limited (engine c) |> <| engine_output_pending := false |>). assert (tx k c1) as Htx1 by (destruct Htx; constructor; done).
  assert (∃ ms b1 b2, flush_app_send N grant c1 = (Ok tt, flushed c1 (send_seq c + len ms) b1 b2) ∧ Buf.ok N b1 ∧ Buf.ok N b2 ∧
    Buf.vis (app_send_buf c) = concat ms ++ Buf.vis b2 ∧ Buf.vis b1 = Buf.vis (send_buf c) ++ records k (send_seq c) ms ∧
    Forall (λ m, 1 ≤ len m ≤ peer_plaintext_cap c) ms) as (ms & b1 & b2 & Ef & Hb1 & Hb2 & Va & Vs & Hms).
  { unfold flush_app_send. erewrite M_step_ok by reflexivity. pose proof (tx_app _ _ Htx1) as Ha1.
    rewrite (bool_decide_eq_true_2 _ (tx_active _ _ Htx1)). erewrite M_step_lift by exact (Buf.ok_as_slice N _ Ha1). rewrite orb_false_r.
    destruct (Z.eqb_spec (len (Buf.vis (app_send_buf c1))) 0) as [Hz|Hz].
    - exists [], (send_buf c), (app_send_buf c). rewrite Z.add_0_r, app_nil_r. split; [by destruct c|]. destruct Htx. split_and!; try done.
    - destruct (flush_loop_ok k (length (Buf.vis (app_send_buf c1))) (peer_plaintext_cap c1) c1 Htx1 (cap_range c1) ltac:(lia) Hseq)
        as (ms & b1 & b2 & E & H1 & H2 & H3 & H4 & H5 & _). by exists ms, b1, b2. }
  erewrite M_step_ok by exact Ef. erewrite M_step_ok by reflexivity. cbn [send_buf flushed update].
  erewrite M_step_lift by exact (Buf.ok_as_slice N _ Hb1). cbn [send_offset flushed update c1].
  destruct Htx as [Hst Hkeys Hk Hb Ha Ho Hs]. assert (len (Buf.vis (send_buf c)) ≤ len (Buf.vis b1)) as Hge by (rewrite Vs, length_app; lia).
  assert (drop (Z.to_nat (send_offset c)) (Buf.vis (send_buf c)) ++ records k (send_seq c) ms = drop (Z.to_nat (send_offset c)) (Buf.vis b1)) as Hdrop
    by (rewrite Vs, drop_app_le by lia; done).
  set (so := send_offset c) in *. set (n := Z.min (len (Buf.vis b1) - so) cap).
  destruct (Z.leb_spec (len (Buf.vis b1)) so) as [Hd|Hd].
  { exists None, ms, b1, b2, so. split_and!; try done; try lia. }
  assert (slice (E:=Error) (Buf.vis b1) so (so + n) = Ok (take (Z.to_nat n) (drop (Z.to_nat so) (Buf.vis b1)))) as Hsl.
  { rewrite slice_eq by lia. do 2 f_equal. lia. }
  erewrite M_step_lift by exact Hsl. erewrite M_step_ok by reflexivity. destruct (Z.leb_spec (len (Buf.vis b1)) (so + n)) as [Hall|Hsome].
  - destruct (Buf.ok_clear N b1) as [Hcl Vcl]; [lia|done|]. eexists (Some _), ms, (Buf.clear b1), b2, 0. split; [reflexivity|].
    split_and!; try done; [by rewrite Vcl|]. cbn [default]. rewrite Hdrop, Vcl, drop_nil, app_nil_r. rewrite take_ge; [done|]. rewrite length_drop. lia.
  - eexists (Some _), ms, b1, b2, (so + n). split; [reflexivity|]. split_and!; try done; try lia. cbn [default].
    rewrite Hdrop. rewrite <- (take_drop (Z.to_nat n) (drop (Z.to_nat so) (Buf.vis b1))) at 1. rewrite drop_drop. do 2 f_equal. lia.
Qed.
End stream.
