(* ===== verification/TcpTlsLink.v ===== *)
(** * Two TLS connections joined by TCP

    A link is two active connections and the bytes in flight between them.  Its
    steps are the calls of the application and of the network: data queued, output
    polled, any number of the bytes in flight fed to the other side, plaintext
    read; a call that fails leaves the bytes in flight. *)
From stdpp Require Import relations.
From S2P Require Import Prelude Errors Hoare Varint Cursor Buf TlsParams TlsMessages TlsExtensions Recovery Crypto Certificate TlsHandshake TlsRecord TcpTls TcpTlsStream.

Import TlsRecord TcpTls.

(** The buffer capacity and the allocator of one side. *)
Record side := MkSide { cap : Z; alloc : Z → bool }.
Definition side_ok (A : side) : Prop := 0 ≤ cap A ≤ 2 ^ 30.

(** [sent] has been queued at [here] and [got] read at [there], and back. *)
Record link := Link {
  here : t;
  there : t;
  out : list Z;
  inc : list Z;
  sent : list Z;
  got : list Z;
  sent_back : list Z;
  got_back : list Z
}.
Definition flip (l : link) : link :=
  Link (there l) (here l) (inc l) (out l) (sent_back l) (got_back l) (sent l) (got l).

Section link.
Context `{Platform} `{PrimitiveLaws}.

Inductive act : side → side → link → link → Prop :=
| act_send A B c c' d w i s g sb gb x n :
    send_app_data (cap A) (alloc A) d c = (Ok n, c') →
    act A B (Link c x w i s g sb gb) (Link c' x w i (s ++ d) g sb gb)
| act_send_fails A B c c' d w i s g sb gb x e :
    send_app_data (cap A) (alloc A) d c = (Err e, c') →
    act A B (Link c x w i s g sb gb) (Link c' x w i s g sb gb)
| act_poll A B c c' n o w i s g sb gb x :
    0 ≤ n → send_seq c + cap A < 2 ^ 64 → poll_output (cap A) (alloc A) n c = (Ok o, c') →
    act A B (Link c x w i s g sb gb) (Link c' x (w ++ default [] o) i s g sb gb)
| act_feed A B c c' d w i s g sb gb x :
    feed_data (cap A) (alloc A) d c = (Ok tt, c') →
    act A B (Link c x w (d ++ i) s g sb gb) (Link c' x w i s g sb gb)
| act_feed_fails A B c c' d w i s g sb gb x e :
    feed_data (cap A) (alloc A) d c = (Err e, c') →
    act A B (Link c x w (d ++ i) s g sb gb) (Link c' x w (d ++ i) s g sb gb)
| act_recv A B c c' n o w i s g sb gb x :
    0 ≤ n → recv_app_data n c = (Ok o, c') →
    act A B (Link c x w i s g sb gb) (Link c' x w i s g sb (gb ++ o))
| act_there A B l l' : act B A l l' → act A B (flip l) (flip l').

(** ** One direction *)

(** What is still under way: [ms] sealed and not yet opened. *)
Definition half (A B : side) (snd rcv : t) (wire sent got : list Z) : Prop :=
  ∃ k v p ms, tx (cap A) k snd ∧ rx (cap B) k v p rcv ∧ Forall (message_fits (cap B)) ms ∧
    p ++ wire ++ drop (Z.to_nat (send_offset snd)) (Buf.vis (send_buf snd)) = records k (recv_seq rcv) ms ∧
    (wire ++ drop (Z.to_nat (send_offset snd)) (Buf.vis (send_buf snd)) = [] → ms = []) ∧
    send_seq snd = recv_seq rcv + len ms ∧ send_seq snd < 2 ^ 64 ∧ peer_plaintext_cap snd + 22 ≤ cap B ∧
    sent = got ++ v ++ concat ms ++ Buf.vis (app_send_buf snd).

Lemma count_bound (ms : list (list Z)) n : Forall (λ m, 1 ≤ len m ≤ n) ms → len ms ≤ len (concat ms).
Proof. induction 1 as [|m ms Hm _ IH]; cbn [concat length]; [done|]. rewrite length_app. lia. Qed.

(** The fields of each part of the state. *)
Definition sends (c : t) :=
  (state c, app_send c, send_seq c, send_offset c, send_buf c, app_send_buf c, peer_record_limit c).
Definition receives (c : t) := (state c, app_recv c, recv_seq c, recv_buf c).

Lemma half_frame A B snd snd' rcv rcv' w s g :
  sends snd' = sends snd → receives rcv' = receives rcv → half A B snd rcv w s g → half A B snd' rcv' w s g.
Proof.
  intros [= E1 E2 E3 E4 E5 E6 E7] [= F1 F2 F3 F4] (k & v & p & ms & [] & [] & Hms & Hw & He & Hs & Hs' & Hc & Hd).
  exists k, v, p, ms. unfold peer_plaintext_cap in *. rewrite E3, E4, E5, E6, E7, F3. split; [constructor; congruence|].
  split; [constructor; congruence|]. done.
Qed.

Lemma half_send A B snd snd' rcv w s g d r :
  side_ok A → half A B snd rcv w s g → send_app_data (cap A) (alloc A) d snd = (r, snd') → r ≠ Panic ∧ receives snd' = receives snd ∧
  (quiet snd → quiet snd') ∧ half A B snd' rcv w (if r is Ok _ then s ++ d else s) g.
Proof.
  intros HA (k & v & p & ms & Htx & Hrx & Hms & Hw & He & Hs & Hs' & Hc & Hd) Er.
  destruct (send_app_data_ok (cap A) (alloc A) HA k d snd Htx) as (r' & b & E & Hb & Hcase). rewrite E in Er. injection Er as <- <-.
  split; [by destruct Hcase as [[-> _]|([e ->] & _)]|]. split; [done|]. split; [intros []; constructor; done|].
  exists k, v, p, ms. split; [destruct Htx; constructor; done|]. split; [done|]. split; [done|]. split; [exact Hw|]. split; [exact He|].
  split; [done|]. split; [done|]. split; [done|]. cbn [app_send_buf update].
  destruct Hcase as [[-> ->]|([e ->] & -> & _)]; [|done]. by rewrite Hd, <- !app_assoc.
Qed.

Lemma half_poll A B snd snd' rcv w s g n r :
  side_ok A → half A B snd rcv w s g → quiet snd → 0 ≤ n → send_seq snd + cap A < 2 ^ 64 →
  poll_output (cap A) (alloc A) n snd = (r, snd') →
  ∃ o, r = Ok o ∧ receives snd' = receives snd ∧ quiet snd' ∧ half A B snd' rcv (w ++ default [] o) s g.
Proof.
  intros HA (k & v & p & ms & Htx & Hrx & Hms & Hw & He & Hs & Hs' & Hc & Hd) Hq Hn Hseq Er. pose proof (Buf.ok_bound (cap A) _ (tx_app _ _ _ Htx)) as Lapp.
  destruct (poll_output_ok (cap A) (alloc A) HA k n snd Htx Hq Hn ltac:(lia)) as (o & ms' & b1 & b2 & off & E & Hb1 & Hb2 & Va & Hms' & Hoff & Hout).
  rewrite E in Er. injection Er as <- <-. exists o. split; [done|]. split; [done|]. split; [destruct Hq; constructor; done|].
  pose proof (count_bound _ _ Hms') as Hcount. pose proof (f_equal length Va) as Hl. rewrite length_app in Hl.
  exists k, v, p, (ms ++ ms'). split; [destruct Htx as [? ? ? ? ? ? Hq0]; constructor; try done; cbn [send_seq polled flushed update]; lia|]. split; [done|].
  assert (Forall (message_fits (cap B)) ms') as Hfits.
  { eapply Forall_impl; [exact Hms'|]. intros m [? ?]. pose proof (cap_range snd). split; lia. }
  split; [by apply Forall_app|]. cbn [send_offset send_buf app_send_buf send_seq polled flushed update].
  split. { rewrite records_app, <- Hw, <- Hs, <- !app_assoc. do 2 f_equal. by rewrite <- Hout. }
  split. { intros Hnil. rewrite <- !app_assoc, <- Hout in Hnil. apply app_nil in Hnil as [-> Hnil]. apply app_nil in Hnil as [Hn1 Hn2].
    rewrite He by (by rewrite Hn1). destruct ms' as [|m ms']; [done|]. cbn [records] in Hn2. apply app_nil in Hn2 as [Hn2 _]. done. }
  rewrite length_app, Nat2Z.inj_add. split; [lia|]. split; [lia|]. split; [done|]. rewrite Hd, concat_app, Va, <- !app_assoc. done.
Qed.

Lemma half_feed A B snd rcv rcv' w d s g r :
  side_ok B → half A B snd rcv (d ++ w) s g → feed_data (cap B) (alloc B) d rcv = (r, rcv') →
  r ≠ Panic ∧ sends rcv' = sends rcv ∧ (quiet rcv → quiet rcv') ∧ half A B snd rcv' (if r is Ok _ then w else d ++ w) s g.
Proof.
  intros HB (k & v & p & ms & Htx & Hrx & Hms & Hw & He & Hs & Hs' & Hc & Hd) Er. rewrite <- app_assoc in Hw.
  destruct (feed_data_ok (cap B) (alloc B) HB k v p d _ ms rcv Hrx Hms Hw ltac:(lia))
    as (r' & b & seq & pl & ev & ms1 & ms2 & p' & E & -> & -> & Hb & Hcase). rewrite E in Er. injection Er as <- <-.
  split; [by destruct Hcase as [[-> _]|([e ->] & _)]|]. split; [done|]. split; [intros []; constructor; done|].
  rewrite length_app, Nat2Z.inj_add in Hs. apply Forall_app in Hms as [Hms1 Hms2].
  destruct Hcase as [(-> & Hp' & Hend)|([e ->] & -> & -> & _)].
  - exists k, (v ++ concat ms1), p', ms2. split; [done|]. split; [destruct Hrx as [? ? ? ? Hq0]; constructor; try done; cbn [recv_seq fed received update]; lia|]. split; [done|].
    split; [exact Hp'|]. split; [exact Hend|]. cbn. split; [lia|]. split; [done|]. split; [done|]. by rewrite Hd, concat_app, <- !app_assoc.
  - rewrite app_nil_l in *. exists k, v, p, ms2. rewrite app_nil_r in Hb. split; [done|]. split; [destruct Hrx as [? ? ? ? Hq0]; constructor; try done; cbn [recv_seq fed received update]; lia|]. split; [done|].
    cbn. rewrite Z.add_0_r. split; [by rewrite <- app_assoc|]. split; [exact He|]. simpl in Hs. split; [lia|]. done.
Qed.

Lemma half_recv A B snd rcv rcv' w s g n r :
  half A B snd rcv w s g → 0 ≤ n → recv_app_data n rcv = (r, rcv') →
  r ≠ Panic ∧ sends rcv' = sends rcv ∧ (quiet rcv → quiet rcv') ∧ half A B snd rcv' w s (if r is Ok o then g ++ o else g).
Proof.
  intros (k & v & p & ms & Htx & Hrx & Hms & Hw & He & Hs & Hs' & Hc & Hd) Hn Er.
  destruct (recv_app_data_ok (cap B) k v p n rcv Hrx Hn) as [[E ->]|(b & E & Hb)]; rewrite E in Er; injection Er as <- <-.
  - split; [done|]. split; [done|]. split; [done|]. by exists k, [], p, ms.
  - split; [done|]. split; [done|]. split; [intros []; constructor; done|]. exists k, (drop (Z.to_nat n) v), p, ms.
    split; [done|]. split; [destruct Hrx; constructor; done|]. split; [done|]. split; [exact Hw|]. split; [exact He|]. split; [done|]. split; [done|].
    split; [done|]. rewrite Hd, <- !app_assoc. f_equal. by rewrite (app_assoc (take _ v)), take_drop.
Qed.

(** ** Both directions *)

Definition link_inv (A B : side) (l : link) : Prop :=
  half A B (here l) (there l) (out l) (sent l) (got l) ∧ half B A (there l) (here l) (inc l) (sent_back l) (got_back l) ∧
  quiet (here l) ∧ quiet (there l).
Lemma flip_inv A B l : link_inv A B l → link_inv B A (flip l).
Proof. by intros (? & ? & ? & ?). Qed.

Lemma act_inv A B l l' : act A B l l' → side_ok A → side_ok B → link_inv A B l → link_inv A B l'.
Proof.
  induction 1 as [A B c c' d w i s g sb gb x n E|A B c c' d w i s g sb gb x e E|A B c c' n o w i s g sb gb x Hn Hseq E|
    A B c c' d w i s g sb gb x E|A B c c' d w i s g sb gb x e E|A B c c' n o w i s g sb gb x Hn E|A B l l' _ IH]; intros HA HB HI.
  7: { apply flip_inv, IH; [done|done|]. apply flip_inv in HI. by destruct l. }
  all: destruct HI as (H1 & H2 & Q1 & Q2); cbn in H1, H2, Q1, Q2.
  1-2: destruct (half_send _ _ _ _ _ _ _ _ _ _ HA H1 E) as (_ & Hf & Hq & H1');
    split_and!; [exact H1'|by eapply half_frame; [|exact Hf|exact H2]|by apply Hq|done].
  - destruct (half_poll _ _ _ _ _ _ _ _ _ _ HA H1 Q1 Hn Hseq E) as (o' & [= <-] & Hf & Hq & H1').
    split_and!; [exact H1'|by eapply half_frame; [|exact Hf|exact H2]|done|done].
  - destruct (half_feed _ _ _ _ _ _ _ _ _ _ HA H2 E) as (_ & Hf & Hq & H2').
    split_and!; [by eapply half_frame; [exact Hf| |exact H1]|exact H2'|by apply Hq|done].
  - destruct (half_feed _ _ _ _ _ _ _ _ _ _ HA H2 E) as (_ & Hf & Hq & H2').
    split_and!; [by eapply half_frame; [exact Hf| |exact H1]|exact H2'|by apply Hq|done].
  - destruct (half_recv _ _ _ _ _ _ _ _ _ _ H2 Hn E) as (_ & Hf & Hq & H2').
    split_and!; [by eapply half_frame; [exact Hf| |exact H1]|exact H2'|by apply Hq|done].
Qed.

(** ** A fresh link *)

(** Two connections after their handshake: the sending keys of one are the
    receiving keys of the other, nothing is under way, and no record is larger
    than its receiver's buffer. *)
Record matched (A B : side) (a b : t) : Prop := {
  matched_tx : ∃ k, tx (cap A) k a ∧ rx (cap B) k [] [] b;
  matched_empty : Buf.vis (send_buf a) = [] ∧ Buf.vis (app_send_buf a) = [];
  matched_seq : send_seq a = recv_seq b ∧ send_seq a < 2 ^ 64;
  matched_limit : peer_plaintext_cap a + 22 ≤ cap B;
  matched_quiet : quiet a
}.
Definition fresh (a b : t) : link := Link a b [] [] [] [] [] [].

Lemma matched_half A B a b : matched A B a b → half A B a b [] [] [].
Proof.
  intros [(k & Htx & Hrx) [E1 E2] [Es Hs] Hl Hq]. exists k, [], [], []. rewrite E1, E2, drop_nil. cbn [records concat length app].
  rewrite Z.add_0_r. split_and!; done.
Qed.
Lemma fresh_inv A B a b : matched A B a b → matched B A b a → link_inv A B (fresh a b).
Proof. intros H1 H2. split_and!; [by apply matched_half|by apply matched_half|apply H1|apply H2]. Qed.

(** Nothing of [sent] is left on its way. *)
Definition settled (l : link) : Prop :=
  out l = [] ∧ drop (Z.to_nat (send_offset (here l))) (Buf.vis (send_buf (here l))) = [] ∧
  Buf.vis (app_send_buf (here l)) = [] ∧ Buf.vis (recv_buf (there l)) = [].

Lemma half_prefix A B l :
  half A B (here l) (there l) (out l) (sent l) (got l) → got l `prefix_of` sent l ∧ (settled l → got l = sent l).
Proof.
  intros (k & v & p & ms & Htx & Hrx & Hms & Hw & He & Hs & Hs' & Hc & Hd). split; [by eexists|].
  intros (Ho & Hu & Ha & Hv). rewrite He in Hd by (by rewrite Ho, Hu). rewrite (Buf.Rep_vis _ _ _ (rx_buf _ _ _ _ _ Hrx)) in Hv. cbn in Hv.
  rewrite Hv, Ha in Hd. by rewrite Hd, app_nil_r.
Qed.

Lemma calls_return A B l :
  side_ok A → link_inv A B l →
  (∀ d, (send_app_data (cap A) (alloc A) d (here l)).1 ≠ Panic) ∧
  (∀ n, 0 ≤ n → send_seq (here l) + cap A < 2 ^ 64 → ∃ o, (poll_output (cap A) (alloc A) n (here l)).1 = Ok o) ∧
  (∀ d rest, inc l = d ++ rest → (feed_data (cap A) (alloc A) d (here l)).1 ≠ Panic) ∧
  (∀ n, 0 ≤ n → (recv_app_data n (here l)).1 ≠ Panic).
Proof.
  intros HA (H1 & H2 & Q1 & Q2). split_and!.
  - intros d. destruct (send_app_data _ _ _ _) as [r c'] eqn:E. by apply (half_send _ _ _ _ _ _ _ _ _ _ HA H1 E).
  - intros n Hn Hs. destruct (poll_output _ _ _ _) as [r c'] eqn:E. destruct (half_poll _ _ _ _ _ _ _ _ _ _ HA H1 Q1 Hn Hs E) as (o & -> & _). by eexists.
  - intros d rest Hi. rewrite Hi in H2. destruct (feed_data _ _ _ _) as [r c'] eqn:E. by apply (half_feed _ _ _ _ _ _ _ _ _ _ HA H2 E).
  - intros n Hn. destruct (recv_app_data _ _) as [r c'] eqn:E. by apply (half_recv _ _ _ _ _ _ _ _ _ _ H2 Hn E).
Qed.
End link.

(** C3: What is read is what was sent.  Two connections that have finished their
    handshake, with buffers and allocators of their own, exchange data over TCP:
    however their calls interleave (data queued, output polled in pieces of any
    size, any number of the bytes in flight delivered at a time, plaintext read in
    pieces of any size, calls that fail for want of space or memory), what each
    side has read is a prefix of what the other has queued, and all of it once
    nothing is on its way; and no call panics before 2^64 records are sealed. *)
Theorem tls_stream_integrity `{Platform} `{PrimitiveLaws} A B a b l :
  side_ok A → side_ok B → matched A B a b → matched B A b a → rtc (act A B) (fresh a b) l →
  got l `prefix_of` sent l ∧ got_back l `prefix_of` sent_back l ∧
  (settled l → got l = sent l) ∧ (settled (flip l) → got_back l = sent_back l) ∧
  (∀ d, (send_app_data (cap A) (alloc A) d (here l)).1 ≠ Panic) ∧
  (∀ n, 0 ≤ n → send_seq (here l) + cap A < 2 ^ 64 → ∃ o, (poll_output (cap A) (alloc A) n (here l)).1 = Ok o) ∧
  (∀ d rest, inc l = d ++ rest → (feed_data (cap A) (alloc A) d (here l)).1 ≠ Panic) ∧
  (∀ n, 0 ≤ n → (recv_app_data n (here l)).1 ≠ Panic).
Proof.
  intros HA HB Hab Hba Hrun. assert (link_inv A B l) as HI.
  { pose proof (fresh_inv A B a b Hab Hba) as HI. induction Hrun as [|l1 l2 l3 Hact _ IH]; [done|]. apply IH. by eapply act_inv. }
  destruct (half_prefix A B l (proj1 HI)) as [P1 S1]. destruct (half_prefix B A (flip l) (proj1 (proj2 HI))) as [P2 S2].
  split; [done|]. split; [done|]. split; [done|]. split; [exact S2|]. by apply (calls_return A B).
Qed.

(** Two connections with keys of their own, and an exchange over them. *)
#[local] Existing Instance platform64.
#[local] Existing Instance Toy.toy.
Definition demo_side : side := MkSide 512 (λ _, true).
Definition demo_keys (n : Z) : DirectionalRecordKeys := MkKeys (replicate 16 n) (replicate 12 n).
Definition demo_end (send recv : DirectionalRecordKeys) : t :=
  (new (Tls.new_placeholder <| Tls.state := Tls.Complete |> <| Tls.complete := true |>) Buf.new Buf.new Buf.new)
    <| state := Active |> <| app_send := Some send |> <| app_recv := Some recv |> <| peer_record_limit := 448 |>.
Definition demo_a : t := demo_end (demo_keys 1) (demo_keys 2).
Definition demo_b : t := demo_end (demo_keys 2) (demo_keys 1).

Lemma demo_matched x y : matched demo_side demo_side (demo_end (demo_keys x) (demo_keys y)) (demo_end (demo_keys y) (demo_keys x)).
Proof.
  assert (keys_ok (demo_keys x)) as Hk by (split; [by left|done]). destruct (Buf.ok_new (cap demo_side)) as [Hb _]; [done|].
  constructor.
  - exists (demo_keys x). split; constructor; done.
  - done.
  - done.
  - by vm_compute.
  - constructor; done.
Qed.

Definition demo_a0 : t := Eval vm_compute in (send_app_data 512 (λ _, true) [1; 2; 3] demo_a).2.
Definition demo_a1 := Eval vm_compute in poll_output 512 (λ _, true) 100 demo_a0.
Definition demo_o : list Z := Eval vm_compute in match demo_a1.1 with Ok (Some o) => o | _ => [] end.
Definition demo_b0 : t := Eval vm_compute in (feed_data 512 (λ _, true) demo_o demo_b).2.
Definition demo_b1 : t := Eval vm_compute in (recv_app_data 10 demo_b0).2.
Lemma demo_calls : ∃ a0 a o b0 b,
  send_app_data 512 (λ _, true) [1; 2; 3] demo_a = (Ok 3, a0) ∧ send_seq a0 = 0 ∧
  poll_output 512 (λ _, true) 100 a0 = (Ok (Some o), a) ∧ feed_data 512 (λ _, true) o demo_b = (Ok tt, b0) ∧
  recv_app_data 10 b0 = (Ok [1; 2; 3], b).
Proof. exists demo_a0, demo_a1.2, demo_o, demo_b0, demo_b1. split_and!; vm_compute; reflexivity. Qed.

Lemma tls_stream_integrity_witness :
  ∃ l, rtc (act demo_side demo_side) (fresh demo_a demo_b) l ∧ sent l = [1; 2; 3] ∧ got l = [1; 2; 3] ∧ got l `prefix_of` sent l.
Proof.
  destruct demo_calls as (a0 & a & o & b0 & b & E1 & E5 & E2 & E3 & E4).
  assert (rtc (act demo_side demo_side) (fresh demo_a demo_b) (Link a b [] [] [1; 2; 3] [1; 2; 3] [] [])) as Hrun.
  { eapply rtc_l; [exact (act_send demo_side demo_side demo_a a0 [1; 2; 3] [] [] [] [] [] [] demo_b 3 E1)|].
    eapply rtc_l; [apply (act_poll demo_side demo_side a0 a 100 (Some o)); [done|by rewrite E5|exact E2]|]. cbn [app default].
    pose proof (act_feed demo_side demo_side demo_b b0 o [] [] [] [] [1; 2; 3] [] a E3) as Hf. rewrite app_nil_r in Hf.
    eapply rtc_l; [exact (act_there _ _ _ _ Hf)|].
    eapply rtc_l; [exact (act_there _ _ _ _ (act_recv demo_side demo_side b0 b 10 _ [] [] [] [] [1; 2; 3] [] a ltac:(done) E4))|].
    apply rtc_refl. }
  exists (Link a b [] [] [1; 2; 3] [1; 2; 3] [] []). split; [exact Hrun|]. split; [reflexivity|]. split; [reflexivity|].
  apply (tls_stream_integrity demo_side demo_side demo_a demo_b); [done|done|apply (demo_matched 1 2)|apply (demo_matched 2 1)|exact Hrun].
Defined.
