(* ===== verification/TcpTlsConnect.v ===== *)
(** * The handshake over TCP

    A client and a server connection, each started fresh, exchange the records of
    the handshake and end matched: active on both sides, with each other's keys. *)
From stdpp Require Import strings.
From S2P Require Import Prelude Errors Hoare Varint Cursor Buf TlsParams TlsMessages TlsExtensions Recovery Crypto Certificate TlsHandshake TlsExchange TlsRecord TcpTls TcpTlsStream TcpTlsLink.

Import Messages Extensions TlsRecord TcpTls.
Arguments message_wire : simpl never.

Section connect.
Context `{Platform} `{PrimitiveLaws}.
Variable N : Z.
Variable grant : Z → bool.
Hypothesis N_bound : 4096 ≤ N ≤ 2 ^ 30.
Hypothesis granted : ∀ n, grant n = true.
Local Lemma N_range : 0 ≤ N ≤ 2 ^ 30.
Proof. lia. Qed.

(** ** Output *)

Lemma queue_send_ok d b :
  Buf.ok N b → len (Buf.vis b) + len d ≤ N →
  ∃ b', queue_send N grant d b = (Ok tt, b') ∧ Buf.ok N b' ∧ Buf.vis b' = Buf.vis b ++ d.
Proof.
  intros Hb Hl. unfold queue_send. erewrite M_step_ok by reflexivity. erewrite M_step_lift by exact (Buf.ok_blen N b Hb).
  rewrite (proj2 (Z.ltb_ge _ _)) by lia.
  destruct (Buf.ok_try_reserve N grant (len d) b Hb) as (r1 & b1 & E1 & Hb1 & V1 & Hr1); [lia|apply (usize_room N N_range); lia|].
  destruct Hr1 as [[-> Hsp]| ->].
  - destruct (extend_ok N grant d b1 Hb1) as (b2 & E2 & Hb2 & V2 & _); [by apply Hsp|rewrite V1; lia|].
    exists b2. erewrite M_step_ok by exact E1. split; [exact E2|]. split; [done|]. by rewrite V2, V1.
  - destruct (Buf.oom_refused N grant (len d) b) as [n Hn]; [by rewrite E1|]. by rewrite granted in Hn.
Qed.
Lemma on_send_eq {A} (m : M Error Buf.t A) c r b : m (send_buf c) = (r, b) → on_send m c = (r, c <| send_buf := b |>).
Proof. unfold on_send. by intros ->. Qed.

(** A plaintext handshake record. *)
Definition plain_record (d : list Z) : list Z := header_wire Handshake (len d) ++ d.
Lemma send_plain d c :
  Buf.ok N (send_buf c) → len (Buf.vis (send_buf c)) + len d + 5 ≤ N → len d < 2 ^ 16 →
  ∃ b, send_engine_output N grant d Level.Initial c = (Ok tt, c <| send_buf := b |>) ∧ Buf.ok N b ∧
    Buf.vis b = Buf.vis (send_buf c) ++ plain_record d.
Proof.
  intros Hb Hl Hd. assert (len (header_wire Handshake (len d)) = 5) as Lh by done.
  destruct (queue_send_ok (header_wire Handshake (len d)) _ Hb) as (b1 & E1 & Hb1 & V1); [lia|].
  destruct (queue_send_ok d b1 Hb1) as (b2 & E2 & Hb2 & V2); [rewrite V1, length_app; lia|].
  exists b2. split; [|split; [done|by rewrite V2, V1, <- app_assoc]].
  assert (wrap_plaintext_record N grant Handshake d c = (Ok tt, c <| send_buf := b2 |>)) as Hw.
  { unfold wrap_plaintext_record. replace (trunc 16 (len d)) with (len d) by (unfold trunc; rewrite Z.mod_small; lia).
    rewrite encode_header_wire by (unfold uint; simpl; lia). cbn [mbind res_bind replicate drop]. rewrite app_nil_r. erewrite M_step_lift by reflexivity.
    erewrite M_step_ok by (apply on_send_eq; exact E1). by erewrite on_send_eq by exact E2. }
  cbn [send_engine_output]. unfold ignored. by rewrite Hw.
Qed.

Lemma send_ccs_ok c :
  Buf.ok N (send_buf c) → len (Buf.vis (send_buf c)) + 6 ≤ N → ccs_sent c = false →
  ∃ b, send_ccs N grant c = (Ok tt, c <| send_buf := b |> <| ccs_sent := true |>) ∧ Buf.ok N b ∧ Buf.vis b = Buf.vis (send_buf c) ++ CCS.
Proof.
  intros Hb Hl Hc. destruct (queue_send_ok CCS _ Hb) as (b1 & E1 & Hb1 & V1); [simpl; lia|]. exists b1. split; [|done].
  unfold send_ccs. erewrite M_step_ok by reflexivity. rewrite Hc. erewrite M_step_ok; [reflexivity|]. unfold ignored.
  by erewrite on_send_eq by exact E1.
Qed.

(** The flight goes into one record when it fits. *)
Lemma msg_end_ok pre m post : message_ok m → handshake_msg_end (pre ++ message_wire m ++ post) (len pre) = Ok (len (pre ++ message_wire m)).
Proof.
  intros Hm. pose proof (body_length m Hm) as Lb. pose proof (len_message_wire m) as Lm. unfold handshake_msg_end.
  rewrite (proj2 (Z.ltb_ge _ _)) by (rewrite !length_app; lia).
  set (n := len (body_wire m)) in *. assert (message_wire m = HandshakeType.to_u8 (message_type m) :: be_bytes 3 n ++ body_wire m) as Hw by done.
  pose proof (be_val_be_bytes_id 3 n ltac:(lia)) as Hv. pose proof (bytes_ok_be_bytes 3 n) as Hok.
  cbn [be_bytes] in Hw, Hv, Hok. set (b1 := _ mod 256) in Hw, Hv, Hok. set (b2 := _ mod 256) in Hw, Hv, Hok. set (b3 := _ mod 256) in Hw, Hv, Hok.
  assert (byte_ok b1 ∧ byte_ok b2 ∧ byte_ok b3) as (H1 & H2 & H3) by (rewrite !Forall_cons in Hok; naive_solver).
  assert (∀ i b, 0 ≤ i → [HandshakeType.to_u8 (message_type m); b1; b2; b3] !! Z.to_nat i = Some b →
    idx (E:=Error) (pre ++ message_wire m ++ post) (len pre + i) = Ok b) as Hi.
  { intros i b Hi Hb. rewrite idx_app by done. apply idx_ok; [done|]. rewrite Hw. cbn [app].
    change (?a :: ?b :: ?c :: ?d :: ?l) with ([a; b; c; d] ++ l). by apply lookup_app_l_Some. }
  rewrite (Hi 1 b1), (Hi 2 b2), (Hi 3 b3) by done. cbn [mbind res_bind].
  rewrite header_length_bits, Hv by done. f_equal. rewrite !length_app. lia.
Qed.

Lemma pack_ok cap ms fuel pre :
  Forall message_ok ms → len (pre ++ concat (message_wire <$> ms)) ≤ cap → (length ms ≤ fuel)%nat →
  pack fuel (pre ++ concat (message_wire <$> ms)) cap 0 (len pre) = Ok (len (pre ++ concat (message_wire <$> ms))).
Proof.
  intros Hms. revert fuel pre. induction Hms as [|m ms Hm _ IH]; intros fuel pre Hc Hf.
  - cbn [fmap list_fmap concat]. rewrite app_nil_r. destruct fuel; cbn [pack]; by rewrite Z.ltb_irrefl.
  - cbn [fmap list_fmap concat] in *. pose proof (len_message_wire m). destruct fuel as [|fuel]; [simpl in Hf; lia|]. cbn [pack].
    rewrite (proj2 (Z.ltb_lt _ _)) by (rewrite !length_app; lia). rewrite msg_end_ok by done. cbn [mbind res_bind].
    rewrite usub_ok by lia. cbn [mbind res_bind]. rewrite !length_app in Hc. rewrite (proj2 (Z.ltb_ge _ _)) by (rewrite length_app; lia).
    rewrite (app_assoc pre). apply IH; [rewrite !length_app; lia|simpl in Hf; lia].
Qed.

Lemma encrypt_hs_ok d k c :
  Buf.ok N (send_buf c) → hs_send c = Some k → keys_ok k → len d ≤ 2 ^ 14 → len (Buf.vis (send_buf c)) + len d + 22 ≤ N →
  0 ≤ hs_send_seq c < 2 ^ 63 →
  ∃ b, encrypt_and_send N grant d Handshake true c = (Ok tt, c <| send_buf := b |> <| hs_send_seq := hs_send_seq c + 1 |>) ∧
    Buf.ok N b ∧ Buf.vis b = Buf.vis (send_buf c) ++ record k (hs_send_seq c) Handshake d.
Proof.
  intros Hb Hk Hok Hd Hl Hs. destruct (encrypt_into_ok N grant N_range d Handshake k (hs_send_seq c) _ Hb Hok Hd) as (r & b & E & Hb' & Hr).
  destruct Hr as [[-> V]|(_ & _ & [Hw|[n Hn]])]; [|lia|by rewrite granted in Hn]. exists b. split; [|done].
  unfold encrypt_and_send. erewrite M_step_ok by reflexivity. rewrite Hk. erewrite M_step_lift by reflexivity.
  destruct (build_nonce_ok (iv k) (hs_send_seq c) (proj2 Hok)) as [Hbn _]. erewrite M_step_lift by exact Hbn.
  erewrite M_step_ok by (apply on_send_eq; exact E). by erewrite M_step_lift by (apply uadd_ok; lia).
Qed.

Lemma send_flight_one f d cap c c' :
  pack (length d) d cap 0 0 = Ok (len d) → 0 < len d → encrypt_and_send N grant d Handshake true c = (Ok tt, c') →
  send_flight N grant (S f) d cap 0 c = (Ok tt, c').
Proof.
  intros Hp Hd He. cbn [send_flight]. rewrite (proj2 (Z.ltb_lt _ _)) by lia. erewrite M_step_lift by exact Hp.
  rewrite (proj2 (Z.eqb_neq _ _)) by lia.
  assert (slice (E:=Error) d 0 (len d) = Ok d) as Hs by (rewrite slice_eq by lia; by rewrite Z.sub_0_r, Nat2Z.id, drop_0, take_ge).
  erewrite M_step_lift by exact Hs. erewrite M_step_ok by (unfold ignored; rewrite He; reflexivity).
  destruct f; cbn [send_flight]; by rewrite Z.ltb_irrefl.
Qed.

Lemma send_flight_ok ms k c :
  let d := concat (message_wire <$> ms) in
  Forall message_ok ms → ms ≠ [] → Buf.ok N (send_buf c) → hs_send c = Some k → keys_ok k →
  len d ≤ peer_plaintext_cap c → len (Buf.vis (send_buf c)) + len d + 28 ≤ N → ccs_sent c = false → hs_send_seq c = 0 →
  ∃ b, send_engine_output N grant d Level.Handshake c =
      (Ok tt, c <| send_buf := b |> <| ccs_sent := true |> <| hs_send_seq := 1 |>) ∧ Buf.ok N b ∧
    Buf.vis b = Buf.vis (send_buf c) ++ CCS ++ record k 0 Handshake d.
Proof.
  intros d Hms Hne Hb Hk Hok Hcap Hl Hccs Hseq. pose proof (cap_range c) as Hcr.
  destruct (send_ccs_ok c Hb ltac:(lia) Hccs) as (b1 & E1 & Hb1 & V1). assert (len (Buf.vis b1) = len (Buf.vis (send_buf c)) + 6) as L1 by (rewrite V1, length_app; simpl; lia).
  set (c1 := c <| send_buf := b1 |> <| ccs_sent := true |>) in *.
  destruct (encrypt_hs_ok d k c1 Hb1 Hk Hok) as (b2 & E2 & Hb2 & V2); [lia|cbn [send_buf update c1]; lia|cbn; lia|].
  exists b2. cbn [send_engine_output]. erewrite M_step_ok by exact E1. erewrite M_step_ok by reflexivity.
  change (peer_plaintext_cap c1) with (peer_plaintext_cap c).
  assert (len ms ≤ len d ∧ 0 < len d) as [Lms Ld].
  { unfold d. clear -Hne. split.
    - induction ms as [|m ms IH]; [done|]. cbn [fmap list_fmap concat length]. rewrite length_app. pose proof (len_message_wire m).
      destruct ms; [simpl; lia|]. specialize (IH ltac:(done)). lia.
    - destruct ms as [|m ms]; [done|]. cbn [fmap list_fmap concat]. rewrite length_app. pose proof (len_message_wire m). lia. }
  assert (pack (length d) d (peer_plaintext_cap c) 0 0 = Ok (len d)) as Hp by (apply (pack_ok _ ms (length d) []); [done|exact Hcap|lia]).
  assert (∃ f, length d = S f) as [f Hf] by (exists (length d - 1)%nat; lia). rewrite Hf at 1.
  erewrite send_flight_one; [|exact Hp|done|exact E2]. cbn [hs_send_seq update c1]. rewrite Hseq.
  split; [reflexivity|]. split; [done|]. rewrite V2. cbn [hs_send_seq send_buf update c1]. by rewrite Hseq, V1, <- app_assoc.
Qed.

(** ** Keys *)

Variables ec es : Tls.t.
Hypothesis Hc : client_ready ec.
Hypothesis Hs : server_ready es.
Hypothesis Hcs : compatible ec es.

Definition key_len : Z := CipherSuite.key_len suite.
Definition rk (secret : list Z) : DirectionalRecordKeys :=
  match record_keys secret key_len with Ok k => k | _ => MkKeys [] [] end.
Lemma rk_ok secret : len secret = 32 → record_keys secret key_len = Ok (rk secret) ∧ keys_ok (rk secret).
Proof.
  intros Hl. assert (key_len = 16 ∨ key_len = 32) as Hk by (unfold key_len; destruct suite; simpl; lia).
  unfold rk, record_keys, KeySchedule.derive_tls_record_keys.
  destruct (expand_label_ok secret (bytes "key") [] key_len) as (key & -> & Lk); [done|lia|by vm_compute|done|]. cbn [mbind res_bind].
  destruct (expand_label_ok secret (bytes "iv") [] 12) as (v & -> & Lv); [done|lia|by vm_compute|done|]. cbn [mbind res_bind].
  unfold Aead.aead. rewrite Lk. assert ((key_len =? 16) || (key_len =? 32) = true) as -> by (destruct Hk as [-> | ->]; done).
  split; [done|]. split; cbn; [|done]. by rewrite Lk.
Qed.

Lemma secret48_back s : len s = 32 → slice (E:=Error) (Tls.secret48 s) 0 32 = Ok s.
Proof.
  intros Hl. unfold Tls.secret48. rewrite slice_eq by (rewrite ?length_take, ?length_app, ?length_replicate; lia). f_equal.
  rewrite drop_0. apply take_app_length'. lia.
Qed.

(** What picking up the keys leaves. *)
Definition with_limit (c : t) : t :=
  match Tls.peer_record_size_limit (engine c) with Some l => c <| peer_record_limit := l |> | None => c end.
Definition took (c : t) : t := c <| engine := (engine c) <| Tls.pending_keys := None |> |>.

Lemma install_all_ok c ks c' :
  Tls.pending_keys (engine c) = Some ks → install_keys ks (took c) = (Ok tt, c') → Tls.pending_keys (engine c') = None →
  install_all 1 c = (Ok tt, c').
Proof.
  intros Hp Hi Hn. cbn [install_all].
  erewrite M_step_ok by (unfold on_engine, Tls.derived_keys; cbn; rewrite Hp; reflexivity). cbv iota. erewrite M_step_ok by exact Hi.
  assert (on_engine (λ e, let '(k, e') := Tls.derived_keys e in (Ok k, e')) c' = (Ok None, c')) as Ht.
  { unfold on_engine, Tls.derived_keys. cbn. rewrite Hn. f_equal. destruct c' as [e]. cbn in *. f_equal. destruct e. cbn in *. by subst. }
  by erewrite M_step_ok by exact Ht.
Qed.

Lemma install_handshake snd rcv c :
  len snd = 32 → len rcv = 32 →
  install_keys (keys Level.Handshake snd rcv) c =
  (Ok tt, c <| hs_send := Some (rk snd) |> <| hs_recv := Some (rk rcv) |> <| hs_send_seq := 0 |> <| hs_recv_seq := 0 |>
            <| state := HandshakeEncrypted |> <| engine_output_pending := true |>).
Proof.
  intros L1 L2. unfold install_keys. cbn [send_secret recv_secret secret_len level keys_suite keys].
  erewrite M_step_lift by (by apply secret48_back). erewrite M_step_lift by (by apply secret48_back).
  destruct (rk_ok snd L1) as [E1 _]. destruct (rk_ok rcv L2) as [E2 _].
  erewrite M_step_lift by exact E1. erewrite M_step_ok by reflexivity. by erewrite M_step_lift by exact E2.
Qed.
Lemma install_application snd rcv c :
  len snd = 32 → len rcv = 32 →
  install_keys (keys Level.Application snd rcv) c =
  (Ok tt, c <| app_send := Some (rk snd) |> <| app_recv := Some (rk rcv) |> <| engine_output_pending := true |>).
Proof.
  intros L1 L2. unfold install_keys. cbn [send_secret recv_secret secret_len level keys_suite keys].
  erewrite M_step_lift by (by apply secret48_back). erewrite M_step_lift by (by apply secret48_back).
  destruct (rk_ok snd L1) as [E1 _]. destruct (rk_ok rcv L2) as [E2 _].
  erewrite M_step_lift by exact E1. erewrite M_step_ok by reflexivity. by erewrite M_step_lift by exact E2.
Qed.

(** Shrinking an empty buffer. *)
Lemma shrink_cleared b :
  Buf.ok Tls.BUF b → ∃ b', Buf.shrink_to_fit (E:=Error) grant (Buf.clear b) = Ok b' ∧ Buf.ok Tls.BUF b' ∧ Buf.vis b' = [].
Proof.
  intros Hb. destruct (Buf.ok_clear Tls.BUF b ltac:(done) Hb) as [Hk Hv]. unfold Buf.shrink_to_fit, Buf.vec_shrink_to_fit.
  unfold Buf.clear in *. destruct (Buf.storage b) as [v|mem l]; cbn in *; [|by eexists].
  case_decide; cbn; [by eexists|]. rewrite decide_True by done. cbn. eexists. split; [done|]. by apply Buf.Rep_ok, (Buf.Rep_heap _ [] []); cbn.
Qed.

(** What completing the handshake leaves. *)
Definition done_engine (e e' : Tls.t) : Prop :=
  Tls.state e' = Tls.state e ∧ Tls.is_complete e' = Tls.is_complete e ∧ Tls.pending_keys e' = Tls.pending_keys e ∧
  Tls.peer_record_size_limit e' = Tls.peer_record_size_limit e ∧ Buf.ok Tls.BUF (Tls.pending_write e') ∧ Buf.vis (Tls.pending_write e') = [].
Lemma shrink_ok e :
  Buf.ok Tls.BUF (Tls.pending_write e) → Buf.ok Tls.BUF (Tls.pending_write_hs e) → Buf.ok Tls.BUF (Tls.server_cert_data e) →
  ∃ e', Tls.shrink_post_handshake grant e = (Ok tt, e') ∧ done_engine e e'.
Proof.
  intros H1 H2 H3. destruct (shrink_cleared _ H1) as (b1 & E1 & O1 & V1). destruct (shrink_cleared _ H2) as (b2 & E2 & _).
  destruct (shrink_cleared _ H3) as (b3 & E3 & _). unfold Tls.shrink_post_handshake. erewrite M_step_ok by reflexivity. erewrite M_step_ok by reflexivity.
  erewrite M_step_lift by exact E1. erewrite M_step_ok by reflexivity. erewrite M_step_lift by exact E2. erewrite M_step_ok by reflexivity.
  erewrite M_step_lift by exact E3. eexists. split; [reflexivity|]. by split_and!.
Qed.

(** The connection that starts to carry data. *)
Definition activated (c : t) (e : Tls.t) : t :=
  (push_event HandshakeComplete (c <| state := Active |> <| send_seq := 0 |> <| recv_seq := 0 |> <| engine := e |>
    <| hs_send := None |> <| hs_recv := None |>)).2.
Lemma check_keys_waits c c' :
  install_all 1 (with_limit c) = (Ok tt, c') → Tls.complete (engine c') = false → check_keys grant c = (Ok tt, c').
Proof.
  intros Hi Hn. unfold check_keys. erewrite M_step_ok by reflexivity. erewrite M_step_ok by exact Hi. erewrite M_step_ok by reflexivity.
  unfold Tls.is_complete. by rewrite Hn.
Qed.
Lemma check_keys_done c c' :
  install_all 1 (with_limit c) = (Ok tt, c') → Tls.complete (engine c') = true → state c' ≠ Active →
  Buf.ok Tls.BUF (Tls.pending_write (engine c')) → Buf.ok Tls.BUF (Tls.pending_write_hs (engine c')) → Buf.ok Tls.BUF (Tls.server_cert_data (engine c')) →
  ∃ e, check_keys grant c = (Ok tt, activated c' e) ∧ done_engine (engine c') e.
Proof.
  intros Hi Hd Hst H1 H2 H3. destruct (shrink_ok _ H1 H2 H3) as (e & He & Hde). exists e. split; [|exact Hde].
  unfold check_keys. erewrite M_step_ok by reflexivity. erewrite M_step_ok by exact Hi. erewrite M_step_ok by reflexivity.
  unfold Tls.is_complete. rewrite Hd, bool_decide_eq_false_2 by done. cbn [andb negb]. erewrite M_step_ok by reflexivity.
    set (c1 := c' <| state := Active |> <| send_seq := 0 |> <| recv_seq := 0 |>).
  assert (on_engine (Tls.shrink_post_handshake grant) c1 = (Ok tt, c1 <| engine := e |>)) as Hs1 by (unfold on_engine; change (engine c1) with (engine c'); by rewrite He).
  erewrite M_step_ok by exact Hs1. erewrite M_step_ok by reflexivity. reflexivity.
Qed.
Lemma install_none c : Tls.pending_keys (engine c) = None → install_all 1 c = (Ok tt, c).
Proof.
  intros Hk. assert (on_engine (λ e, let '(k, e') := Tls.derived_keys e in (Ok k, e')) c = (Ok None, c)) as Ht.
  { unfold on_engine, Tls.derived_keys. cbn. rewrite Hk. f_equal. destruct c as [e]. cbn in *. f_equal. destruct e. cbn in *. by subst. }
  cbn [install_all]. by erewrite M_step_ok by exact Ht.
Qed.
Lemma with_limit_engine c : engine (with_limit c) = engine c.
Proof. unfold with_limit. by destruct (Tls.peer_record_size_limit _). Qed.

(** ** Input *)

(** The record at the front of the buffer, with no plaintext before it. *)
Lemma recv_step_at ct body rest c :
  Buf.ok N (recv_buf c) → Buf.vis (recv_buf c) = header_wire ct (len body) ++ body ++ rest → plain c = 0 →
  len body < 2 ^ 16 →
  recv_step N grant c =
  (o ← recv_record grant ct (header_wire ct (len body)) 5 (len body) 0 (5 + len body);
   match o with
   | Return => mret false
   | Handled need_check_keys app_data_len => _ ← finish_record grant need_check_keys app_data_len 5 0 (5 + len body); mret true
   end) c.
Proof.
  intros Hb Hv Hp Hl. assert (len (header_wire ct (len body)) = 5) as Lh by done. pose proof (Buf.ok_bound N _ Hb) as HN.
  assert (len (Buf.vis (recv_buf c)) = 5 + len body + len rest) as Lv by (rewrite Hv, !length_app; lia).
  unfold recv_step. erewrite M_step_ok by reflexivity. rewrite Hp. erewrite M_step_lift by exact (Buf.ok_blen N _ Hb).
  erewrite M_step_lift by (apply usub_ok; lia). unfold RECORD_HEADER_LEN. rewrite (proj2 (Z.ltb_ge _ _)) by lia.
  erewrite M_step_ok by (apply (tls_recv_slice_eq N [] (header_wire ct (len body)) (body ++ rest)); done).
  pose proof (tls_decode_header_wire ct (len body) []) as Hd. rewrite app_nil_r in Hd.
  erewrite M_step_lift by (apply Hd; unfold uint; lia). cbn [length_ content_type].
  by rewrite (proj2 (Z.ltb_ge _ _)), (proj2 (Z.ltb_ge _ _)) by lia.
Qed.
Lemma finish_none chk x rest total ps c :
  Buf.ok N (recv_buf c) → Buf.vis (recv_buf c) = x ++ rest → total = len x →
  ∃ b, finish_record grant chk None ps 0 total c = (if chk then check_keys grant else mret tt) (c <| recv_buf := b |>) ∧
    Buf.ok N b ∧ Buf.vis b = rest.
Proof.
  intros Hb Hv ->. destruct (remove_range_ok N [] x rest (recv_buf c) Hb Hv) as (b & E & Hb' & V). exists b. split; [|done].
  unfold finish_record. erewrite M_step_ok by (apply on_recv_eq; exact E). done.
Qed.

(** A handshake record in the clear. *)
Lemma step_plain d rest e c :
  Buf.ok N (recv_buf c) → Buf.vis (recv_buf c) = plain_record d ++ rest → plain c = 0 → len d < 2 ^ 16 → state c = InHandshake →
  Tls.read_handshake grant Level.Initial d (engine c) = (Ok tt, e) →
  ∃ b, Buf.ok N b ∧ Buf.vis b = rest ∧
    ∀ c', check_keys grant (c <| engine := e |> <| recv_buf := b |>) = (Ok tt, c') → recv_step N grant c = (Ok true, c').
Proof.
  intros Hb Hv Hp Hl Hst He. unfold plain_record in Hv. rewrite <- app_assoc in Hv.
  assert (len (header_wire Handshake (len d)) = 5) as Lh by done.
  destruct (finish_none true (header_wire Handshake (len d) ++ d) rest (5 + len d) 5 (c <| engine := e |>)) as (b & Ef & Hb' & V);
    [exact Hb|by rewrite <- app_assoc|rewrite length_app; lia|].
  exists b. split; [done|]. split; [done|]. intros c' Hk. rewrite (recv_step_at Handshake d rest) by done.
  assert (recv_record grant Handshake (header_wire Handshake (len d)) 5 (len d) 0 (5 + len d) c = (Ok (Handled true None), c <| engine := e |>)) as Hr.
  { unfold recv_record. erewrite M_step_ok by reflexivity. rewrite Hst. unfold recv_handshake_plain.
    erewrite M_step_ok by (apply (tls_recv_slice_eq N (header_wire Handshake (len d)) d rest); [exact Hb|exact Hv|done|lia]).
    unfold engine_read. by rewrite He. }
  erewrite M_step_ok by exact Hr. cbv iota. erewrite M_step_ok by (rewrite Ef; exact Hk). reflexivity.
Qed.

(** A change of cipher spec is dropped. *)
Lemma step_ccs rest c :
  Buf.ok N (recv_buf c) → Buf.vis (recv_buf c) = CCS ++ rest → plain c = 0 → state c = HandshakeEncrypted →
  ∃ b, Buf.ok N b ∧ Buf.vis b = rest ∧ recv_step N grant c = (Ok true, c <| recv_buf := b |>).
Proof.
  intros Hb Hv Hp Hst. destruct (finish_none false CCS rest 6 5 c) as (b & Ef & Hb' & V); [done..|].
  exists b. split; [done|]. split; [done|]. rewrite (recv_step_at ChangeCipherSpec [1] rest) by done.
  assert (recv_record grant ChangeCipherSpec (header_wire ChangeCipherSpec (len [1])) 5 (len [1]) 0 (5 + len [1]) c = (Ok (Handled false None), c)) as Hr.
  { unfold recv_record. erewrite M_step_ok by reflexivity. by rewrite Hst. }
  erewrite M_step_ok by exact Hr. cbv iota. by erewrite M_step_ok by exact Ef.
Qed.

(** A handshake record under the handshake keys. *)
Lemma step_protected k d rest e c :
  Buf.ok N (recv_buf c) → Buf.vis (recv_buf c) = record k (hs_recv_seq c) Handshake d ++ rest → plain c = 0 → len d ≤ 2 ^ 14 →
  state c = HandshakeEncrypted → hs_recv c = Some k → keys_ok k → 0 ≤ hs_recv_seq c < 2 ^ 63 →
  Tls.read_handshake grant Level.Handshake d (engine c) = (Ok tt, e) →
  ∃ b, Buf.ok N b ∧ Buf.vis b = rest ∧
    ∀ c', check_keys grant (c <| hs_recv_seq := hs_recv_seq c + 1 |> <| engine := e |> <| recv_buf := b |>) = (Ok tt, c') →
      recv_step N grant c = (Ok true, c').
Proof.
  intros Hb Hv Hp Hd Hst Hkeys Hk Hseq He. pose proof (record_len k (hs_recv_seq c) Handshake d Hk Hd) as Lr.
  set (pr := protected (aead_key k) (nonce (iv k) (hs_recv_seq c)) Handshake d).
  assert (record k (hs_recv_seq c) Handshake d = header_wire ApplicationData (len d + 17) ++ pr) as Hrec by done.
  assert (len (header_wire ApplicationData (len d + 17)) = 5) as Lh by done.
  assert (len pr = len d + 17) as Lp by (rewrite Hrec, length_app in Lr; lia).
  destruct (recv_protected_ok N c [] d Handshake rest k (hs_recv_seq c)
    (n ← lift (uadd 64 (hs_recv_seq c) 1); modify (λ c, c <| hs_recv_seq := n |>))
    (c <| hs_recv_seq := hs_recv_seq c + 1 |>) 5 (len d + 17) Hb Hk Hd Hv eq_refl eq_refl) as (b1 & junk & E1 & Hb1 & V1 & Lj).
  { intros b _. erewrite M_step_lift by (apply uadd_ok; lia). reflexivity. }
  set (c1 := c <| hs_recv_seq := hs_recv_seq c + 1 |>) in *.
  rewrite app_nil_l in V1.
  destruct (finish_none true (header_wire ApplicationData (len d + 17) ++ d ++ junk) rest (5 + (len d + 17)) 5
    (c1 <| recv_buf := b1 |> <| engine := e |>)) as (b & Ef & Hb' & V);
    [exact Hb1|cbn -[app header_wire]; by rewrite V1, <- !app_assoc|rewrite !length_app; lia|].
  exists b. split; [done|]. split; [done|]. intros c' Hck. pose proof (recv_step_at ApplicationData pr rest c) as Hra. rewrite Lp in Hra.
  rewrite Hra by first [done|lia|rewrite Hv, Hrec; by rewrite <- app_assoc].
  assert (recv_record grant ApplicationData (header_wire ApplicationData (len d + 17)) 5 (len d + 17) 0 (5 + (len d + 17)) c =
    (Ok (Handled true None), c1 <| recv_buf := b1 |> <| engine := e |>)) as Hr.
  { unfold recv_record. erewrite M_step_ok by reflexivity. rewrite Hst. unfold recv_handshake_encrypted. erewrite M_step_ok by reflexivity.
    rewrite Hkeys. erewrite M_step_lift by reflexivity. erewrite M_step_ok by exact E1. cbv iota beta.
    erewrite M_step_ok by (apply (tls_recv_slice_eq N (header_wire ApplicationData (len d + 17)) d (junk ++ rest)); [exact Hb1|exact V1|lia|lia]).
    unfold engine_read. change (engine (c1 <| recv_buf := b1 |>)) with (engine c). by rewrite He. }
  erewrite M_step_ok by exact Hr. cbv iota. erewrite M_step_ok by (rewrite Ef; exact Hck). reflexivity.
Qed.

(** Nothing left. *)
Lemma step_end c : Buf.ok N (recv_buf c) → Buf.vis (recv_buf c) = [] → plain c = 0 → recv_step N grant c = (Ok false, c).
Proof.
  intros Hb Hv Hp. unfold recv_step. erewrite M_step_ok by reflexivity. erewrite M_step_lift by exact (Buf.ok_blen N _ Hb).
  rewrite Hp, Hv. erewrite M_step_lift by reflexivity. done.
Qed.
Lemma loop_step fuel c c' r : recv_step N grant c = (Ok true, c') → recv_loop N grant fuel c' = r → recv_loop N grant (S fuel) c = r.
Proof. intros E <-. cbn [recv_loop]. by erewrite M_step_ok by exact E. Qed.
Lemma loop_end fuel c : Buf.ok N (recv_buf c) → Buf.vis (recv_buf c) = [] → plain c = 0 → recv_loop N grant fuel c = (Ok tt, c).
Proof. intros. destruct fuel; cbn [recv_loop]; by erewrite M_step_ok by (by apply step_end). Qed.

(** ** Calls *)

Lemma feed_ok d c :
  Buf.Rep N (recv_buf c) (Buf.View [] []) → len d ≤ N →
  ∃ b, Buf.ok N b ∧ Buf.vis b = d ∧
    ∀ c', recv_loop N grant (length d) (c <| engine := limited N (engine c) |> <| plain := 0 |> <| recv_buf := b |>) = (Ok tt, c') →
      Buf.ok N (recv_buf c') → Buf.vis (recv_buf c') = [] → plain c' = 0 →
      ∃ b', feed_data N grant d c = (Ok tt, c' <| recv_buf := b' |>) ∧ Buf.Rep N b' (Buf.View [] []).
Proof.
  intros Hr Hd. destruct (unhide_ok N _ _ _ Hr) as [Hb0 V0]. set (b0 := (Buf.unhide_tail (recv_buf c)).2) in *. cbn [app] in V0.
  destruct (Buf.ok_try_reserve N grant (len d) b0 Hb0) as (r1 & b1 & E1 & Hb1 & V1 & Hr1); [lia|apply (usize_room N N_range); lia|].
  destruct Hr1 as [[-> Hsp]| ->].
  2: { destruct (Buf.oom_refused N grant (len d) b0) as [n Hn]; [by rewrite E1|]. by rewrite granted in Hn. }
  rewrite V0 in V1. destruct (extend_ok N grant d b1 Hb1) as (b2 & E2 & Hb2 & V2 & _); [apply Hsp; rewrite V0; simpl; lia|rewrite V1; simpl; lia|].
  rewrite V1 in V2. cbn [app] in V2. exists b2. split; [done|]. split; [done|]. intros c' El Hb' V' Hp.
  destruct (hide_rest_ok N (Ok tt) c' [] [] Hb' V' Hp) as (b3 & E3 & Hr3). exists b3. split; [|exact Hr3].
  unfold feed_data, set_limit. erewrite M_step_ok by reflexivity. erewrite M_step_ok by reflexivity. cbn [recv_buf update].
  erewrite M_step_lift by exact (Buf.Rep_blen N _ _ Hr). erewrite M_step_ok by reflexivity. change (len (Buf.visible (Buf.View [] []))) with 0.
  set (c0 := c <| engine := limited N (engine c) |> <| plain := 0 |> <| recv_buf := b0 |>). unfold feed_and_hide.
  change (feed_revealed N grant d _) with (feed_revealed N grant d c0).
  assert (feed_revealed N grant d c0 = (Ok tt, c')) as ->; [|exact E3].
  unfold feed_revealed. erewrite M_step_ok by reflexivity. erewrite M_step_lift by exact (Buf.ok_blen N _ Hb0). rewrite V0.
  rewrite (proj2 (Z.ltb_ge _ _)) by (simpl; lia). erewrite M_step_ok by (apply on_recv_eq; exact E1).
  erewrite M_step_ok by (apply on_recv_eq; exact E2). unfold process_recv. erewrite M_step_ok by reflexivity.
  erewrite M_step_lift by exact (Buf.ok_blen N _ Hb2). rewrite V2, Nat2Z.id. exact El.
Qed.

Lemma poll_ok cap w c c' :
  flush_engine_output N grant (c <| engine := limited N (engine c) |>) = (Ok tt, c') →
  Buf.ok N (send_buf c') → Buf.vis (send_buf c') = w → Buf.ok N (app_send_buf c') → Buf.vis (app_send_buf c') = [] → send_offset c' = 0 →
  0 < len w ≤ cap →
  ∃ b, poll_output N grant cap c = (Ok (Some w), c' <| send_offset := 0 |> <| send_buf := b |>) ∧ Buf.ok N b ∧ Buf.vis b = [].
Proof.
  intros Hf Hb Hv Ha Va Ho Hw. destruct (Buf.ok_clear N (send_buf c') ltac:(lia) Hb) as [Hcl Vcl].
  exists (Buf.clear (send_buf c')). split; [|done]. unfold poll_output, set_limit. erewrite M_step_ok by reflexivity.
  erewrite M_step_ok by exact Hf.
  assert (flush_app_send N grant c' = (Ok tt, c')) as Hfa.
  { unfold flush_app_send. erewrite M_step_ok by reflexivity. erewrite M_step_lift by exact (Buf.ok_as_slice N _ Ha). by rewrite Va. }
  erewrite M_step_ok by exact Hfa. erewrite M_step_ok by reflexivity. erewrite M_step_lift by exact (Buf.ok_as_slice N _ Hb).
  rewrite Hv, Ho. rewrite (proj2 (Z.leb_gt _ _)) by lia.
  assert (slice (E:=Error) w 0 (0 + Z.min (len w - 0) cap) = Ok w) as Hsl.
  { rewrite slice_eq by lia. rewrite drop_0. f_equal. apply take_ge. lia. }
  erewrite M_step_lift by exact Hsl. erewrite M_step_ok by reflexivity. rewrite (proj2 (Z.leb_le _ _)) by lia.
  by erewrite M_step_ok by reflexivity.
Qed.

Lemma flush_engine_ok c c1 c2 :
  engine_output_pending c = true → engine_loop N grant 3 c = (Ok tt, c1) → check_keys grant c1 = (Ok tt, c2) →
  flush_engine_output N grant c = (Ok tt, c2 <| engine_output_pending := false |>).
Proof.
  intros Hp Hl Hk. unfold flush_engine_output. erewrite M_step_ok by reflexivity. rewrite Hp. cbn [negb]. erewrite M_step_ok by exact Hl.
  erewrite M_step_ok by (unfold ignored; rewrite Hk; reflexivity). reflexivity.
Qed.
Lemma loop_writes f c data lvl e c1 r :
  Tls.write_handshake grant 2048 (engine c) = (Ok (data, lvl), e) → 0 < len data →
  send_engine_output N grant data lvl (c <| engine := e |>) = (Ok tt, c1) → engine_loop N grant f c1 = r →
  engine_loop N grant (S f) c = r.
Proof.
  intros Hw Hd Hsl <-. cbn [engine_loop]. rewrite Hw. erewrite M_step_ok by reflexivity. rewrite (proj2 (Z.eqb_neq _ _)) by lia.
  by erewrite M_step_ok by exact Hsl.
Qed.
Lemma loop_idle f c lvl :
  Tls.write_handshake grant 2048 (engine c) = (Ok ([], lvl), engine c) → engine_loop N grant f c = (Ok tt, c).
Proof.
  intros Hw. assert (c <| engine := engine c |> = c) as He by (by destruct c).
  destruct f; cbn [engine_loop]; rewrite Hw; erewrite M_step_ok by reflexivity; cbn [length Z.of_nat Z.eqb]; by rewrite He.
Qed.

(** An engine with nothing to write. *)
Lemma client_idle e :
  Tls.role e = Tls.Client → Tls.state e ≠ Tls.Start → Buf.ok Tls.BUF (Tls.pending_write e) → Buf.vis (Tls.pending_write e) = [] →
  Tls.write_handshake grant 2048 e = (Ok ([], Level.Initial), e).
Proof.
  intros Hr Hst Hb Hv. unfold Tls.write_handshake. rewrite Hr. unfold Tls.write_client. erewrite M_step_ok by reflexivity.
  assert ((match Tls.state e with Tls.Start => Tls.build_client_hello grant (Tls.client_random e) | _ => mret tt end) e = (Ok tt, e)) as Hsl
    by (by destruct (Tls.state e)).
  erewrite M_step_ok by exact Hsl. erewrite M_step_ok by reflexivity. erewrite M_step_lift by exact (Buf.ok_blen Tls.BUF _ Hb). by rewrite Hv.
Qed.
Lemma server_idle e :
  Tls.role e = Tls.Server → Tls.state e = Tls.WaitClientFinished → Tls.write_handshake grant 2048 e = (Ok ([], Level.Initial), e).
Proof.
  intros Hr Hst. unfold Tls.write_handshake. rewrite Hr. unfold Tls.write_server. erewrite M_step_ok by reflexivity. by rewrite Hst.
Qed.
Lemma limited_same e : Tls.local_record_size_limit e = Some (local_record_size_limit N) → limited N e = e.
Proof. intros Hl. unfold limited, Tls.set_local_record_size_limit. destruct e. cbn in *. by subst. Qed.

(** ** The six calls *)

Hypothesis Hlc : Tls.local_record_size_limit ec = Some (local_record_size_limit N).
Hypothesis Hls : Tls.local_record_size_limit es = Some (local_record_size_limit N).
Hypothesis Hdc : Tls.complete ec = false.
Hypothesis Hds : Tls.complete es = false.
Hypothesis Hkc : Tls.pending_keys ec = None.

(** A connection between two calls, with nothing left in its buffers. *)
Record stage (st : ConnState) (ccs outp : bool) (c : t) : Prop := {
  stage_state : state c = st;
  stage_ccs : ccs_sent c = ccs;
  stage_pending : engine_output_pending c = outp;
  stage_recv : Buf.Rep N (recv_buf c) (Buf.View [] []);
  stage_send : Buf.ok N (send_buf c);
  stage_sent : Buf.vis (send_buf c) = [];
  stage_app : Buf.ok N (app_send_buf c);
  stage_no_app : Buf.vis (app_send_buf c) = [];
  stage_offset : send_offset c = 0
}.

Lemma at_role e0 st tr e : at_state e0 st tr e → Tls.role e = Tls.role e0.
Proof. intros [Hcfg _ _ _ _ _]. by injection Hcfg. Qed.
Lemma at_limit e0 st tr e :
  Tls.local_record_size_limit e0 = Some (local_record_size_limit N) → at_state e0 st tr e → limited N e = e.
Proof. intros Hl [Hcfg _ _ _ _ _]. apply limited_same. injection Hcfg. congruence. Qed.
Lemma sizes : len (message_wire (CH ec)) ≤ 2048 ∧ len (message_wire (SH ec es)) ≤ 512 ∧ 0 < len (flight ec es) ≤ 1973.
Proof.
  split_and!; [eapply CH_ok; eauto|eapply SH_ok; eauto|..]; unfold flight; rewrite !length_app;
  [pose proof (len_message_wire (EE ec es)); lia|].
  destruct (EE_ok ec es Hc Hs) as (_ & ? & _). destruct (CT_ok es Hs) as (_ & _ & ?). pose proof (CV_len ec es Hs).
  destruct (SF_ok ec es) as [_ ?]. lia.
Qed.

Lemma with_limit_cases c : ∃ l, with_limit c = c <| peer_record_limit := l |>.
Proof. unfold with_limit. destruct (Tls.peer_record_size_limit _) as [l|]; [by exists l|]. exists (peer_record_limit c). by destruct c. Qed.

(** The client writes its hello. *)
Lemma client_says_hello cap c :
  stage InHandshake false true c → limited N (engine c) = ec → N ≤ cap →
  ∃ c', poll_output N grant cap c = (Ok (Some (plain_record (message_wire (CH ec)))), c') ∧ stage InHandshake false false c' ∧
    at_state ec Tls.WaitServerHello (message_wire (CH ec)) (engine c') ∧ Tls.key_schedule (engine c') = K0 ∧
    Tls.complete (engine c') = false.
Proof.
  intros [Hst Hccs Hout Hrv Hsd Hvs Hap Hva Hof] He Hcap. destruct sizes as (Lch & _). pose proof (len_message_wire (CH ec)) as Lm.
  destruct (succeeds_run _ _ _ (client_hello_written grant granted ec es Hc Hcs 2048 ltac:(done))) as (r & e1 & E1 & -> & A1 & K1' & D1 & P1 & V1).
  set (c0 := c <| engine := limited N (engine c) |>).
  pose proof (send_plain (message_wire (CH ec)) (c0 <| engine := e1 |>)) as Hsp. change (send_buf (c0 <| engine := e1 |>)) with (send_buf c) in Hsp.
  rewrite Hvs in Hsp. destruct (Hsp Hsd ltac:(cbn [length]; lia) ltac:(lia)) as (b & Es & Hb & V). cbn [app] in V.
  set (c1 := c0 <| engine := e1 |> <| send_buf := b |>) in *. destruct (with_limit_cases c1) as [l Hwl].
  assert (engine_loop N grant 3 c0 = (Ok tt, c1)) as El.
  { eapply loop_writes; [|..|exact Es|].
    - change (engine c0) with (limited N (engine c)). rewrite He. unfold Tls.write_handshake. rewrite (client_ready_role ec Hc). exact E1.
    - lia.
    - apply (loop_idle _ _ Level.Initial). change (engine c1) with e1.
      apply client_idle; [by rewrite (at_role _ _ _ _ A1), (client_ready_role ec Hc)|by rewrite (at_st _ _ _ _ A1)|apply A1|exact V1]. }
  assert (check_keys grant c1 = (Ok tt, c1 <| peer_record_limit := l |>)) as Ek.
  { rewrite <- Hwl. apply check_keys_waits; [apply install_none|]; rewrite with_limit_engine; change (engine c1) with e1; congruence. }
  pose proof (flush_engine_ok c0 c1 _ Hout El Ek) as Ef.
  destruct (poll_ok cap (plain_record (message_wire (CH ec))) c _ Ef Hb V Hap Hva Hof) as (b' & Ep & Hb' & V'); [|].
  - unfold plain_record. rewrite length_app. change (length (header_wire _ _)) with 5%nat. lia.
  - eexists. split; [exact Ep|]. split; [by constructor|]. split_and!; [exact A1|exact K1'|]. change (Tls.complete e1 = false). congruence.
Qed.

(** The server reads it and has its handshake keys. *)
Lemma app_secrets_len : len (cap_ ec es) = 32 ∧ len (sap ec es) = 32.
Proof. split; (apply label_ok; [apply K2_len|vm_compute; done|by rewrite sha256_len]). Qed.

Lemma server_hears_hello c :
  stage InHandshake false true c → limited N (engine c) = es →
  ∃ c', feed_data N grant (plain_record (message_wire (CH ec))) c = (Ok tt, c') ∧ stage HandshakeEncrypted false true c' ∧
    at_state es Tls.SendServerFlightInitial (T4 ec es) (engine c') ∧ keyed ec es (engine c') ∧
    negotiated ec es (engine c') ec (Tls.local_record_size_limit ec) ∧
    Buf.vis (Tls.pending_write (engine c')) = message_wire (SH ec es) ∧ Buf.vis (Tls.pending_write_hs (engine c')) = flight ec es ∧
    Tls.pending_keys (engine c') = None ∧ Tls.complete (engine c') = false ∧
    hs_send c' = Some (rk (shs ec es)) ∧ hs_recv c' = Some (rk (chs ec es)) ∧ hs_send_seq c' = 0 ∧ hs_recv_seq c' = 0 ∧
    peer_record_limit c' = local_record_size_limit N.
Proof.
  intros [Hst Hccs Hout Hrv Hsd Hvs Hap Hva Hof] He. destruct sizes as (Lch & _). destruct (secrets_len ec es) as [L1 L2].
  destruct (succeeds_run _ _ _ (server_hello_read grant granted ec es Hc Hs Hcs)) as ([] & e1 & E1 & A1 & Ky & Ng & V1 & V2 & P1 & D1).
  assert (len (plain_record (message_wire (CH ec))) ≤ 2053) as Lp by (unfold plain_record; rewrite length_app; change (length (header_wire _ _)) with 5%nat; lia).
  assert (len (plain_record (message_wire (CH ec))) ≤ N) as LpN by (clear -Lp N_bound; lia).
  destruct (feed_ok (plain_record (message_wire (CH ec))) c Hrv LpN) as (b & Hb & V & Hfeed).
  set (c0 := c <| engine := limited N (engine c) |> <| plain := 0 |> <| recv_buf := b |>) in *.
  assert (Tls.read_handshake grant Level.Initial (message_wire (CH ec)) (engine c0) = (Ok tt, e1)) as E1'.
  { change (engine c0) with (limited N (engine c)). rewrite He. unfold Tls.read_handshake. by rewrite (server_ready_role es Hs). }
  destruct (step_plain (message_wire (CH ec)) [] e1 c0) as (b1 & Hb1 & Vb1 & Hstep); [exact Hb|by rewrite app_nil_r|done|lia|exact Hst|exact E1'|].
  set (c1 := c0 <| engine := e1 |> <| recv_buf := b1 |>) in *.
  assert (with_limit c1 = c1 <| peer_record_limit := local_record_size_limit N |>) as Hwl.
  { unfold with_limit. change (engine c1) with e1. by rewrite (negotiated_limit _ _ _ _ _ Ng), Hlc. }
  pose proof (install_handshake (shs ec es) (chs ec es) (took (with_limit c1)) L2 L1) as Hi. rewrite Hwl in Hi.
  match type of Hi with _ = (_, ?x) => set (c2 := x) in * end.
  assert (check_keys grant c1 = (Ok tt, c2)) as Ek.
  { apply check_keys_waits; [|change (Tls.complete e1 = false); congruence]. apply install_all_ok with (ks := keys Level.Handshake (shs ec es) (chs ec es)).
    - rewrite with_limit_engine. exact P1.
    - rewrite Hwl. exact Hi.
    - done. }
  destruct (Hfeed c2) as (b' & Ef & Hr').
  - assert (∃ f, length (plain_record (message_wire (CH ec))) = S f) as [f ->] by (eexists; reflexivity).
    eapply loop_step; [exact (Hstep _ Ek)|]. by apply loop_end.
  - exact Hb1.
  - exact Vb1.
  - done.
  - eexists. split; [exact Ef|]. split; [by constructor|]. destruct A1, Ky, Ng. split_and!; try done; try (by constructor).
    change (Tls.complete e1 = false). congruence.
Qed.

(** The server's flight. *)
Lemma flight_messages : Forall message_ok [EE ec es; CT es; CV ec es; SF ec es] ∧
  concat (message_wire <$> [EE ec es; CT es; CV ec es; SF ec es]) = flight ec es.
Proof.
  split; [|unfold flight; cbn [fmap list_fmap concat]; by rewrite app_nil_r].
  destruct (EE_ok ec es Hc Hs) as (? & _). destruct (CT_ok es Hs) as (? & _). destruct (SF_ok ec es) as [? _].
  destruct (CV_ok ec es Hs) as (alg & sig & Ecv & ? & ? & _). repeat constructor; try done; rewrite Ecv; split; [done|lia].
Qed.
Lemma own_limit : 4032 ≤ local_record_size_limit N ≤ 16385 ∧ local_record_size_limit N ≤ Z.max 4032 (N - 64).
Proof. unfold local_record_size_limit, trunc, sat_sub. rewrite Z.mod_small by lia. lia. Qed.
Lemma limit_cap c : peer_record_limit c = local_record_size_limit N → 1973 ≤ peer_plaintext_cap c ∧ peer_plaintext_cap c + 22 ≤ N.
Proof. intros Hl. pose proof own_limit. unfold peer_plaintext_cap, sat_sub. rewrite Hl. lia. Qed.

Lemma server_answers cap c :
  stage HandshakeEncrypted false true c → at_state es Tls.SendServerFlightInitial (T4 ec es) (engine c) → keyed ec es (engine c) →
  negotiated ec es (engine c) ec (Tls.local_record_size_limit ec) →
  Buf.vis (Tls.pending_write (engine c)) = message_wire (SH ec es) → Buf.vis (Tls.pending_write_hs (engine c)) = flight ec es →
  Tls.pending_keys (engine c) = None → Tls.complete (engine c) = false →
  hs_send c = Some (rk (shs ec es)) → hs_recv c = Some (rk (chs ec es)) → hs_send_seq c = 0 → hs_recv_seq c = 0 →
  peer_record_limit c = local_record_size_limit N → N ≤ cap →
  ∃ c', poll_output N grant cap c = (Ok (Some (plain_record (message_wire (SH ec es)) ++ CCS ++ record (rk (shs ec es)) 0 Handshake (flight ec es))), c') ∧
    stage HandshakeEncrypted true false c' ∧ at_state es Tls.WaitClientFinished (T4 ec es) (engine c') ∧ keyed ec es (engine c') ∧
    negotiated ec es (engine c') ec (Tls.local_record_size_limit ec) ∧ hs_recv c' = Some (rk (chs ec es)) ∧ hs_recv_seq c' = 0 ∧
    peer_record_limit c' = local_record_size_limit N.
Proof.
  intros [Hst Hccs Hout Hrv Hsd Hvs Hap Hva Hof] A Ky Ng V1 V2 P D Hk1 Hk2 Hq1 Hq2 Hlim Hcap.
  destruct sizes as (_ & Lsh & Lfl). pose proof (len_message_wire (SH ec es)) as Lm. destruct (secrets_len ec es) as [_ L2].
  destruct (rk_ok _ L2) as [_ Hok]. destruct (limit_cap c Hlim) as [Lcap _].
  destruct (server_writes ec es 2048 (engine c) ltac:(done) A V1 V2) as (e1 & e2 & E1 & E2 & A2 & R1' & P1 & P2 & D2 & Ky2 & Ng2).
  set (c0 := c <| engine := limited N (engine c) |>). assert (engine c0 = engine c) as Ec0 by exact (at_limit _ _ _ _ Hls A).
  pose proof (send_plain (message_wire (SH ec es)) (c0 <| engine := e1 |>)) as Hsp. change (send_buf (c0 <| engine := e1 |>)) with (send_buf c) in Hsp.
  rewrite Hvs in Hsp. destruct (Hsp Hsd ltac:(cbn [length]; lia) ltac:(lia)) as (b & Es & Hb & V). cbn [app] in V.
  set (c1 := c0 <| engine := e1 |> <| send_buf := b |>) in *.
  destruct flight_messages as [Hms Hfl].
  assert (len (plain_record (message_wire (SH ec es))) = 5 + len (message_wire (SH ec es))) as Lp
    by (unfold plain_record; rewrite length_app; change (length (header_wire _ _)) with 5%nat; lia).
  pose proof (send_flight_ok [EE ec es; CT es; CV ec es; SF ec es] (rk (shs ec es)) (c1 <| engine := e2 |>)) as Hsf. rewrite Hfl in Hsf.
  cbv zeta in Hsf. change (send_buf (c1 <| engine := e2 |>)) with b in Hsf. rewrite V in Hsf.
  destruct (Hsf Hms ltac:(done) Hb Hk1 Hok) as (b2 & Ef2 & Hb2 & Vb2).
  { change (peer_plaintext_cap (c1 <| engine := e2 |>)) with (peer_plaintext_cap c). lia. }
  { rewrite Lp. lia. }
  { exact Hccs. }
  { exact Hq1. }
  set (c2 := c1 <| engine := e2 |> <| send_buf := b2 |> <| ccs_sent := true |> <| hs_send_seq := 1 |>).
  assert (Tls.role (engine c) = Tls.Server ∧ Tls.role e1 = Tls.Server ∧ Tls.role e2 = Tls.Server) as (R0 & R1 & R2) 
    by (rewrite R1', (at_role _ _ _ _ A), (at_role _ _ _ _ A2); split_and!; apply (server_ready_role es Hs)).
  assert (engine_loop N grant 3 c0 = (Ok tt, c2)) as El.
  { eapply loop_writes; [|..|exact Es|].
    - rewrite Ec0. unfold Tls.write_handshake. rewrite R0. exact E1.
    - lia.
    - eapply loop_writes; [|..|exact Ef2|].
      + change (engine c1) with e1. unfold Tls.write_handshake. rewrite R1. exact E2.
      + lia.
      + apply (loop_idle _ _ Level.Initial). change (engine c2) with e2. apply server_idle; [done|exact (at_st _ _ _ _ A2)]. }
  assert (check_keys grant c2 = (Ok tt, c2)) as Ek.
  { assert (with_limit c2 = c2) as Hwl.
    { unfold with_limit. change (engine c2) with e2. rewrite (negotiated_limit _ _ _ _ _ (Ng2 _ _ Ng)), Hlc.
      rewrite <- Hlim. by destruct c. }
    apply check_keys_waits; [rewrite Hwl; apply install_none; change (Tls.pending_keys e2 = None); congruence|change (Tls.complete e2 = false); congruence]. }
  pose proof (flush_engine_ok c0 c2 _ Hout El Ek) as Ef. assert (len (flight ec es) ≤ 2 ^ 14) as Lf' by lia.
  pose proof (record_len (rk (shs ec es)) 0 Handshake (flight ec es) Hok Lf') as Lr.
  destruct (poll_ok cap _ c _ Ef Hb2 Vb2 Hap Hva Hof) as (b' & Ep & Hb' & V').
  - rewrite !length_app. change (length CCS) with 6%nat. lia.
  - eexists. split; [exact Ep|]. split; [by constructor|]. split_and!; [exact A2|exact (Ky2 Ky)|exact (Ng2 _ _ Ng)|done..].
Qed.

(** The client reads the flight. *)
Lemma client_hears_flight c :
  stage InHandshake false false c → at_state ec Tls.WaitServerHello (message_wire (CH ec)) (engine c) → Tls.key_schedule (engine c) = K0 →
  Tls.complete (engine c) = false →
  ∃ c', feed_data N grant (plain_record (message_wire (SH ec es)) ++ CCS ++ record (rk (shs ec es)) 0 Handshake (flight ec es)) c = (Ok tt, c') ∧
    stage HandshakeEncrypted false true c' ∧ at_state ec Tls.SendFinished (T4 ec es ++ message_wire (CF ec es)) (engine c') ∧
    negotiated ec es (engine c') es (server_limit ec es) ∧ Tls.pending_keys (engine c') = None ∧
    Tls.pending_level (engine c') = Level.Handshake ∧ Buf.vis (Tls.pending_write (engine c')) = message_wire (CF ec es) ∧
    Tls.complete (engine c') = false ∧ hs_send c' = Some (rk (chs ec es)) ∧ hs_send_seq c' = 0 ∧
    app_send c' = Some (rk (cap_ ec es)) ∧ app_recv c' = Some (rk (sap ec es)) ∧ peer_record_limit c' = local_record_size_limit N.
Proof.
  intros [Hst Hccs Hout Hrv Hsd Hvs Hap Hva Hof] A Hks D. destruct sizes as (_ & Lsh & Lfl). pose proof (len_message_wire (SH ec es)) as Lm.
  destruct (secrets_len ec es) as [L1 L2]. destruct app_secrets_len as [L3 L4]. destruct (rk_ok _ L2) as [_ Hok].
  assert (len (flight ec es) ≤ 2 ^ 14) as Lf' by lia. pose proof (record_len (rk (shs ec es)) 0 Handshake (flight ec es) Hok Lf') as Lr.
  destruct (succeeds_run _ _ _ (client_server_hello grant ec es Hc Hs Hcs (engine c) A Hks)) as ([] & e1 & E1 & A1 & Ky1 & P1 & D1).
  set (R := record (rk (shs ec es)) 0 Handshake (flight ec es)) in *. set (d := plain_record (message_wire (SH ec es)) ++ CCS ++ R).
  assert (len d ≤ N) as Ld.
  { unfold d, plain_record. rewrite !length_app. change (length (header_wire _ _)) with 5%nat. change (length CCS) with 6%nat. lia. }
  destruct (feed_ok d c Hrv Ld) as (b & Hb & V & Hfeed).
  set (c0 := c <| engine := limited N (engine c) |> <| plain := 0 |> <| recv_buf := b |>) in *.
  assert (engine c0 = engine c) as Ec0 by exact (at_limit _ _ _ _ Hlc A).
  assert (Tls.read_handshake grant Level.Initial (message_wire (SH ec es)) (engine c0) = (Ok tt, e1)) as E1'.
  { rewrite Ec0. unfold Tls.read_handshake. by rewrite (at_role _ _ _ _ A), (client_ready_role ec Hc). }
  destruct (step_plain (message_wire (SH ec es)) (CCS ++ R) e1 c0) as (b1 & Hb1 & Vb1 & Hstep); [exact Hb|exact V|done|lia|exact Hst|exact E1'|].
  set (c1 := c0 <| engine := e1 |> <| recv_buf := b1 |>) in *. destruct (with_limit_cases c1) as [l Hwl].
  pose proof (install_handshake (chs ec es) (shs ec es) (took (c1 <| peer_record_limit := l |>)) L1 L2) as Hi.
  match type of Hi with _ = (_, ?x) => set (c2 := x) in * end.
  assert (check_keys grant c1 = (Ok tt, c2)) as Ek.
  { apply check_keys_waits; [|change (Tls.complete e1 = false); congruence]. rewrite Hwl.
    apply install_all_ok with (ks := keys Level.Handshake (chs ec es) (shs ec es)); [exact P1|exact Hi|done]. }
  destruct (step_ccs R c2) as (b2 & Hb2 & Vb2 & Hstep2); [exact Hb1|exact Vb1|done|done|]. set (c3 := c2 <| recv_buf := b2 |>) in *.
  assert (at_state ec Tls.WaitEncryptedExtensions (T1 ec es) (engine c3)) as A3 by (destruct A1; by constructor).
  assert (keyed ec es (engine c3)) as Ky3 by (destruct Ky1; by constructor).
  destruct (succeeds_run _ _ _ (client_flight grant granted ec es Hc Hs Hcs (engine c3) A3 Ky3)) as ([] & e4 & E4 & A4 & Ng4 & P4 & Lv4 & V4 & D4).
  assert (Tls.read_handshake grant Level.Handshake (flight ec es) (engine c3) = (Ok tt, e4)) as E4'.
  { unfold Tls.read_handshake. by rewrite (at_role _ _ _ _ A3), (client_ready_role ec Hc). }
  destruct (step_protected (rk (shs ec es)) (flight ec es) [] e4 c3) as (b4 & Hb4 & Vb4 & Hstep4);
    [exact Hb2|by rewrite app_nil_r|done|exact Lf'|done|done|exact Hok|done|exact E4'|].
  match type of Hstep4 with ∀ _, check_keys _ ?x = _ → _ => set (c4 := x) in * end.
  assert (with_limit c4 = c4 <| peer_record_limit := local_record_size_limit N |>) as Hwl4.
  { unfold with_limit. change (engine c4) with e4. rewrite (negotiated_limit _ _ _ _ _ Ng4). unfold server_limit. by rewrite Hlc, Hls. }
  pose proof (install_application (cap_ ec es) (sap ec es) (took (with_limit c4)) L3 L4) as Hi4. rewrite Hwl4 in Hi4.
  match type of Hi4 with _ = (_, ?x) => set (c5 := x) in * end.
  assert (Tls.complete e4 = false) as D4' by (rewrite D4; change (Tls.complete e1 = false); congruence).
  assert (check_keys grant c4 = (Ok tt, c5)) as Ek4.
  { apply check_keys_waits; [|exact D4']. apply install_all_ok with (ks := keys Level.Application (cap_ ec es) (sap ec es));
      [rewrite with_limit_engine; exact P4|rewrite Hwl4; exact Hi4|done]. }
  destruct (Hfeed c5) as (b' & Ef & Hr').
  - assert (∃ f, length d = S (S (S f))) as [f ->] by (eexists; reflexivity).
    eapply loop_step; [exact (Hstep _ Ek)|]. eapply loop_step; [exact Hstep2|]. eapply loop_step; [exact (Hstep4 _ Ek4)|]. by apply loop_end.
  - exact Hb4.
  - exact Vb4.
  - done.
  - eexists. split; [exact Ef|]. split; [by constructor|]. destruct A4, Ng4. split_and!; try done; by constructor.
Qed.

(** The client's last message, and it is active. *)
Definition active_end (snd rcv : list Z) (c : t) : Prop :=
  app_send c = Some (rk snd) ∧ app_recv c = Some (rk rcv) ∧ send_seq c = 0 ∧ recv_seq c = 0 ∧
  peer_record_limit c = local_record_size_limit N ∧ quiet c.

Lemma client_finishes cap c :
  stage HandshakeEncrypted false true c → at_state ec Tls.SendFinished (T4 ec es ++ message_wire (CF ec es)) (engine c) →
  negotiated ec es (engine c) es (server_limit ec es) → Tls.pending_keys (engine c) = None →
  Tls.pending_level (engine c) = Level.Handshake → Buf.vis (Tls.pending_write (engine c)) = message_wire (CF ec es) →
  hs_send c = Some (rk (chs ec es)) → hs_send_seq c = 0 → app_send c = Some (rk (cap_ ec es)) → app_recv c = Some (rk (sap ec es)) →
  peer_record_limit c = local_record_size_limit N → N ≤ cap →
  ∃ c', poll_output N grant cap c = (Ok (Some (CCS ++ record (rk (chs ec es)) 0 Handshake (message_wire (CF ec es)))), c') ∧
    stage Active true false c' ∧ active_end (cap_ ec es) (sap ec es) c'.
Proof.
  intros [Hst Hccs Hout Hrv Hsd Hvs Hap Hva Hof] A Ng P Lv V Hk Hq Hk1 Hk2 Hlim Hcap. destruct (CF_ok ec es) as [Hcf Lcf].
  destruct (secrets_len ec es) as [L1 _]. destruct (rk_ok _ L1) as [_ Hok]. destruct (limit_cap c Hlim) as [Lcap _].
  destruct (client_writes_finished grant ec es 2048 (engine c) ltac:(done) A Lv V) as (e1 & E1 & A1 & D1 & P1 & V1 & Ng1).
  set (c0 := c <| engine := limited N (engine c) |>). assert (engine c0 = engine c) as Ec0 by exact (at_limit _ _ _ _ Hlc A).
  pose proof (send_flight_ok [CF ec es] (rk (chs ec es)) (c0 <| engine := e1 |>)) as Hsf. cbn [fmap list_fmap concat] in Hsf. rewrite app_nil_r in Hsf.
  cbv zeta in Hsf. change (send_buf (c0 <| engine := e1 |>)) with (send_buf c) in Hsf. rewrite Hvs in Hsf.
  destruct (Hsf ltac:(by repeat constructor) ltac:(done) Hsd Hk Hok) as (b2 & Ef2 & Hb2 & Vb2).
  { change (peer_plaintext_cap (c0 <| engine := e1 |>)) with (peer_plaintext_cap c). lia. }
  { cbn [length]. lia. }
  { exact Hccs. }
  { exact Hq. }
  set (c2 := c0 <| engine := e1 |> <| send_buf := b2 |> <| ccs_sent := true |> <| hs_send_seq := 1 |>).
  assert (Tls.role e1 = Tls.Client) as R1 by (by rewrite (at_role _ _ _ _ A1), (client_ready_role ec Hc)).
  assert (engine_loop N grant 3 c0 = (Ok tt, c2)) as El.
  { eapply loop_writes; [|..|exact Ef2|].
    - rewrite Ec0. unfold Tls.write_handshake. by rewrite (at_role _ _ _ _ A), (client_ready_role ec Hc).
    - lia.
    - apply (loop_idle _ _ Level.Initial). change (engine c2) with e1.
      apply client_idle; [exact R1| |apply A1|exact V1].
      change (Tls.state e1 ≠ Tls.Start). by rewrite (at_st _ _ _ _ A1). }
  pose proof (negotiated_limit _ _ _ _ _ (Ng1 _ _ Ng)) as Hpl. unfold server_limit in Hpl. rewrite Hlc, Hls in Hpl.
  assert (with_limit c2 = c2) as Hwl by (unfold with_limit; change (engine c2) with e1; rewrite Hpl, <- Hlim; by destruct c).
  destruct (check_keys_done c2 c2) as (e & Ek & (S1 & S2 & S3 & S4 & S5 & S6)).
  { rewrite Hwl. apply install_none. change (Tls.pending_keys e1 = None). congruence. }
  { exact D1. }
  { change (state c ≠ Active). by rewrite Hst. }
  { apply A1. }
  { apply A1. }
  { apply A1. }
  pose proof (flush_engine_ok c0 c2 _ Hout El Ek) as Ef.
  destruct (poll_ok cap _ c _ Ef Hb2 Vb2 Hap Hva Hof) as (b' & Ep & Hb' & V').
  - cbn [app]. rewrite length_app. assert (len (message_wire (CF ec es)) ≤ 2 ^ 14) as Lc' by lia.
    pose proof (record_len (rk (chs ec es)) 0 Handshake _ Hok Lc'). change (length CCS) with 6%nat. lia.
  - eexists. split; [exact Ep|]. split; [by constructor|]. unfold active_end. split_and!; try done. change (engine c2) with e1 in *. constructor.
    + done.
    + change (Tls.state e = Tls.Complete). rewrite S1. apply A1.
    + change (Tls.is_complete e = true). by rewrite S2.
    + exact S5.
    + exact S6.
    + change (Tls.pending_keys e = None). rewrite S3. congruence.
    + intros l Hl. change (Tls.peer_record_size_limit e = Some l) in Hl. change (peer_record_limit c = l). rewrite S4, Hpl in Hl. congruence.
Qed.

Lemma server_finishes c :
  stage HandshakeEncrypted true false c → at_state es Tls.WaitClientFinished (T4 ec es) (engine c) → keyed ec es (engine c) →
  negotiated ec es (engine c) ec (Tls.local_record_size_limit ec) → hs_recv c = Some (rk (chs ec es)) → hs_recv_seq c = 0 →
  ∃ c', feed_data N grant (CCS ++ record (rk (chs ec es)) 0 Handshake (message_wire (CF ec es))) c = (Ok tt, c') ∧
    stage Active true true c' ∧ active_end (sap ec es) (cap_ ec es) c'.
Proof.
  intros [Hst Hccs Hout Hrv Hsd Hvs Hap Hva Hof] A Ky Ng Hk Hq. destruct (CF_ok ec es) as [_ Lcf].
  destruct (secrets_len ec es) as [L1 _]. destruct app_secrets_len as [L3 L4]. destruct (rk_ok _ L1) as [_ Hok].
  assert (len (message_wire (CF ec es)) ≤ 2 ^ 14) as Lf' by lia. pose proof (record_len (rk (chs ec es)) 0 Handshake _ Hok Lf') as Lr.
  set (R := record (rk (chs ec es)) 0 Handshake (message_wire (CF ec es))) in *.
  assert (len (CCS ++ R) ≤ N) as Ld by (rewrite length_app; change (length CCS) with 6%nat; lia).
  destruct (feed_ok (CCS ++ R) c Hrv Ld) as (b & Hb & V & Hfeed).
  set (c0 := c <| engine := limited N (engine c) |> <| plain := 0 |> <| recv_buf := b |>) in *.
  assert (engine c0 = engine c) as Ec0 by exact (at_limit _ _ _ _ Hls A).
  destruct (step_ccs R c0) as (b2 & Hb2 & Vb2 & Hstep2); [exact Hb|exact V|done|exact Hst|]. set (c3 := c0 <| recv_buf := b2 |>) in *.
  destruct (succeeds_run _ _ _ (server_finished grant ec es (engine c) A Ky)) as ([] & e4 & E4 & A4 & D4 & P4 & Ng4).
  assert (Tls.read_handshake grant Level.Handshake (message_wire (CF ec es)) (engine c3) = (Ok tt, e4)) as E4'.
  { change (engine c3) with (engine c0). rewrite Ec0. unfold Tls.read_handshake. by rewrite (at_role _ _ _ _ A), (server_ready_role es Hs). }
  destruct (step_protected (rk (chs ec es)) (message_wire (CF ec es)) [] e4 c3) as (b4 & Hb4 & Vb4 & Hstep4);
    [exact Hb2|change (hs_recv_seq c3) with (hs_recv_seq c); by rewrite app_nil_r, Hq|done|exact Lf'|exact Hst|exact Hk|exact Hok|
     change (hs_recv_seq c3) with (hs_recv_seq c); by rewrite Hq|exact E4'|].
  match type of Hstep4 with ∀ _, check_keys _ ?x = _ → _ => set (c4 := x) in * end.
  pose proof (negotiated_limit _ _ _ _ _ (Ng4 _ _ Ng)) as Hpl. rewrite Hlc in Hpl.
  assert (with_limit c4 = c4 <| peer_record_limit := local_record_size_limit N |>) as Hwl4.
  { unfold with_limit. change (engine c4) with e4. by rewrite Hpl. }
  pose proof (install_application (sap ec es) (cap_ ec es) (took (with_limit c4)) L4 L3) as Hi4. rewrite Hwl4 in Hi4.
  match type of Hi4 with _ = (_, ?x) => set (c5 := x) in * end.
  destruct (check_keys_done c4 c5) as (e & Ek & (S1 & S2 & S3 & S4 & S5 & S6)).
  { apply install_all_ok with (ks := keys Level.Application (sap ec es) (cap_ ec es)); [rewrite with_limit_engine; exact P4|rewrite Hwl4; exact Hi4|done]. }
  { exact D4. }
  { change (state c ≠ Active). by rewrite Hst. }
  { apply A4. }
  { apply A4. }
  { apply A4. }
  destruct (Hfeed (activated c5 e)) as (b' & Ef & Hr').
  - assert (∃ f, length (CCS ++ R) = S (S f)) as [f ->] by (eexists; reflexivity).
    eapply loop_step; [exact Hstep2|]. eapply loop_step; [exact (Hstep4 _ Ek)|]. by apply loop_end.
  - exact Hb4.
  - exact Vb4.
  - done.
  - eexists. split; [exact Ef|]. split; [by constructor|]. unfold active_end. split_and!; try done. constructor.
    + done.
    + change (Tls.state e = Tls.Complete). rewrite S1. apply A4.
    + change (Tls.is_complete e = true). rewrite S2. exact D4.
    + exact S5.
    + exact S6.
    + change (Tls.pending_keys e = None). by rewrite S3.
    + intros l Hl. change (Tls.peer_record_size_limit e = Some l) in Hl. change (local_record_size_limit N = l). rewrite S4 in Hl.
      change (Tls.peer_record_size_limit e4 = Some l) in Hl. congruence.
Qed.

(** What both ends are left with. *)
Lemma ends_match ga gb snd rcv a b ccs ccs' o o' :
  len snd = 32 → active_end snd rcv a → active_end rcv snd b → stage Active ccs o a → stage Active ccs' o' b →
  matched (MkSide N ga) (MkSide N gb) a b.
Proof.
  intros Ls (K1 & K2 & S1 & S2 & Hl & Hq) (K1' & K2' & S1' & S2' & Hl' & Hq') Ha Hb. destruct (rk_ok snd Ls) as [_ Hk]. destruct Ha, Hb.
  constructor; cbn [cap].
  - exists (rk snd). split; constructor; try done; try lia.
  - done.
  - rewrite S1, S2'. done.
  - by apply limit_cap.
  - done.
Qed.
End connect.

Lemma limited_ready `{PrimitiveLaws} N e :
  4096 ≤ N ≤ 2 ^ 30 → (client_ready e → client_ready (limited N e)) ∧ (server_ready e → server_ready (limited N e)).
Proof.
  intros HN. pose proof (own_limit N HN) as [Ho _].
  assert (limit_ok (Some (local_record_size_limit N))) by (unfold limit_ok, uint; lia).
  split; intros [[] ? [] ?]; constructor; try done; constructor; done.
Qed.

Lemma new_stage `{Platform} N e : 0 ≤ N → stage N InHandshake false true (TcpTls.new e Buf.new Buf.new Buf.new).
Proof. intros HN. destruct (Buf.ok_new N HN). by constructor. Qed.

(** C4: Two fresh connections connect.  A client and a server made by [new_client]
    and [new_server], with buffers of the same capacity of at least 4096 bytes,
    complete the handshake in three exchanges of [poll_output] and [feed_data]:
    the hello in a plaintext record; the server's hello, a change of cipher spec
    and the encrypted flight; the client's change of cipher spec and Finished.
    Both are then active with each other's keys, no data under way and records no
    larger than the other's buffer: the state in which a link carries data. *)
Theorem tcp_tls_connects `{Platform} `{PrimitiveLaws} N ga gb conf sconf secret secret' random random' :
  4096 ≤ N ≤ 2 ^ 30 → (∀ n, ga n = true) → (∀ n, gb n = true) →
  client_ready (Tls.new_tcp_client conf secret random) → server_ready (Tls.new_tcp_server sconf secret' random') →
  compatible (Tls.new_tcp_client conf secret random) (Tls.new_tcp_server sconf secret' random') →
  ∃ m1 c1 s1 m2 s2 c2 m3 c3 s3,
    poll_output N ga N (new_client conf secret random) = (Ok (Some m1), c1) ∧
    feed_data N gb m1 (new_server sconf secret' random') = (Ok tt, s1) ∧
    poll_output N gb N s1 = (Ok (Some m2), s2) ∧
    feed_data N ga m2 c1 = (Ok tt, c2) ∧
    poll_output N ga N c2 = (Ok (Some m3), c3) ∧
    feed_data N gb m3 s2 = (Ok tt, s3) ∧
    is_active c3 = true ∧ is_active s3 = true ∧
    matched (MkSide N ga) (MkSide N gb) c3 s3 ∧ matched (MkSide N gb) (MkSide N ga) s3 c3.
Proof.
  intros HN Hga Hgb Hc Hs Hcs. set (ec := limited N (Tls.new_tcp_client conf secret random)). set (es := limited N (Tls.new_tcp_server sconf secret' random')).
  assert (client_ready ec) as Hc' by (by apply limited_ready). assert (server_ready es) as Hs' by (by apply limited_ready).
  assert (compatible ec es) as Hcs' by (destruct Hcs; by constructor).
  destruct (client_says_hello N ga HN Hga ec es Hc' Hs' Hcs' eq_refl eq_refl eq_refl N _ (new_stage N _ ltac:(lia)) eq_refl ltac:(lia)) as (c1 & E1 & G1 & A1 & K1 & D1).
  destruct (server_hears_hello N gb HN Hgb ec es Hc' Hs' Hcs' eq_refl eq_refl _ (new_stage N _ ltac:(lia)) eq_refl)
    as (s1 & E2 & G2 & A2 & Ky2 & Ng2 & V2 & V2' & P2 & D2 & H2 & H2' & Q2 & Q2' & L2).
  destruct (server_answers N gb HN Hgb ec es Hc' Hs' Hcs' eq_refl eq_refl N s1 G2 A2 Ky2 Ng2 V2 V2' P2 D2 H2 H2' Q2 Q2' L2 ltac:(lia))
    as (s2 & E3 & G3 & A3 & Ky3 & Ng3 & H3 & Q3 & L3).
  destruct (client_hears_flight N ga HN Hga ec es Hc' Hs' Hcs' eq_refl eq_refl c1 G1 A1 K1 D1)
    as (c2 & E4 & G4 & A4 & Ng4 & P4 & Lv4 & V4 & D4 & H4 & Q4 & S4 & R4 & L4).
  destruct (client_finishes N ga HN Hga ec es Hc' eq_refl eq_refl N c2 G4 A4 Ng4 P4 Lv4 V4 H4 Q4 S4 R4 L4 ltac:(lia)) as (c3 & E5 & G5 & F5).
  destruct (server_finishes N gb HN Hgb ec es Hs' eq_refl eq_refl s2 G3 A3 Ky3 Ng3 H3 Q3) as (s3 & E6 & G6 & F6).
  destruct (app_secrets_len ec es) as [La Lb].
  do 9 eexists. split; [exact E1|]. split; [exact E2|]. split; [exact E3|]. split; [exact E4|]. split; [exact E5|]. split; [exact E6|].
  split; [unfold is_active; apply bool_decide_eq_true_2, G5|]. split; [unfold is_active; apply bool_decide_eq_true_2, G6|].
  split; [eapply ends_match; [exact HN|exact La|exact F5|exact F6|exact G5|exact G6]|eapply ends_match; [exact HN|exact Lb|exact F6|exact F5|exact G6|exact G5]].
Qed.

#[local] Existing Instance platform64.
#[local] Existing Instance Toy.toy.
(** The engines of [demo_ready] over TCP. *)
Definition demo_config : Tls.TlsConfig :=
  {| Tls.config_server_name := bytes "a.example"; Tls.config_alpn := [bytes "h2"; bytes "http/1.1"];
     Tls.config_params := TransportParams.default_params; Tls.config_pinned := [demo_cert] |}.
Definition demo_server_config : Tls.ServerTlsConfig :=
  {| Tls.config_cert_der := demo_cert; Tls.config_private_key := demo_seed; Tls.config_server_alpn := [bytes "h2"];
     Tls.config_server_params := TransportParams.default_params |}.
Lemma demo_tcp_ready :
  let c := Tls.new_tcp_client demo_config (replicate 32 9) (replicate 32 1) in
  let s := Tls.new_tcp_server demo_server_config (replicate 32 7) (replicate 32 2) in
  client_ready c ∧ server_ready s ∧ compatible c s.
Proof.
  intros c s. split_and!.
  - apply new_client_ready; [done|apply TransportParams.wf_default|by vm_compute| |].
    + split; [by vm_compute|]. repeat constructor; by vm_compute.
    + by apply (bool_decide_unpack _).
  - apply new_server_ready; [done|apply TransportParams.wf_default|by vm_compute|].
    split; [done|]. vm_compute. reflexivity.
  - constructor; [by vm_compute|right; right; by vm_compute|right; apply list_elem_of_here|by vm_compute].
Qed.
Lemma tcp_tls_connects_witness :
  ∃ m1 c1 s1, poll_output 4096 (λ _, true) 4096 (new_client demo_config (replicate 32 9) (replicate 32 1)) = (Ok (Some m1), c1) ∧
    feed_data 4096 (λ _, true) m1 (new_server demo_server_config (replicate 32 7) (replicate 32 2)) = (Ok tt, s1).
Proof.
  destruct demo_tcp_ready as (Hc & Hs & Hcs).
  destruct (tcp_tls_connects 4096 (λ _, true) (λ _, true) demo_config demo_server_config (replicate 32 9) (replicate 32 7) (replicate 32 1)
    (replicate 32 2) ltac:(done) (λ _, eq_refl) (λ _, eq_refl) Hc Hs Hcs) as (m1 & c1 & s1 & ? & ? & ? & ? & ? & ? & H1 & H2 & _).
  exists m1, c1, s1. split; [exact H1|exact H2].
Defined.
