(* ===== verification/Qpack.v ===== *)
(** * QPACK header compression: [src/h3/qpack/mod.rs], [src/h3/qpack/static_table.rs]

    The static-only encoder and decoder of RFC 9204.  Integers, Huffman coding
    and the cursors are HPACK's, which QPACK re-exports. *)
From Stdlib Require Import String.
From S2P Require Import Prelude Errors Varint Cursor HpackInteger Huffman Hpack.

Module Qpack.
Import Hpack (LookupResult(..), put_with, put_checked_slice).

(** ** The static table *)

Definition STATIC_TABLE : list (list Z * list Z) := Eval vm_compute in [
  (bytes ":authority", []);
  (bytes ":path", bytes "/");
  (bytes "age", bytes "0");
  (bytes "content-disposition", []);
  (bytes "content-length", bytes "0");
  (bytes "cookie", []);
  (bytes "date", []);
  (bytes "etag", []);
  (bytes "if-modified-since", []);
  (bytes "if-none-match", []);
  (bytes "last-modified", []);
  (bytes "link", []);
  (bytes "location", []);
  (bytes "referer", []);
  (bytes "set-cookie", []);
  (bytes ":method", bytes "CONNECT");
  (bytes ":method", bytes "DELETE");
  (bytes ":method", bytes "GET");
  (bytes ":method", bytes "HEAD");
  (bytes ":method", bytes "OPTIONS");
  (bytes ":method", bytes "POST");
  (bytes ":method", bytes "PUT");
  (bytes ":scheme", bytes "http");
  (bytes ":scheme", bytes "https");
  (bytes ":status", bytes "103");
  (bytes ":status", bytes "200");
  (bytes ":status", bytes "304");
  (bytes ":status", bytes "404");
  (bytes ":status", bytes "503");
  (bytes "accept", bytes "*/*");
  (bytes "accept", bytes "application/dns-message");
  (bytes "accept-encoding", bytes "gzip, deflate, br");
  (bytes "accept-ranges", bytes "bytes");
  (bytes "access-control-allow-headers", bytes "cache-control");
  (bytes "access-control-allow-headers", bytes "content-type");
  (bytes "access-control-allow-origin", bytes "*");
  (bytes "cache-control", bytes "max-age=0");
  (bytes "cache-control", bytes "max-age=2592000");
  (bytes "cache-control", bytes "max-age=604800");
  (bytes "cache-control", bytes "no-cache");
  (bytes "cache-control", bytes "no-store");
  (bytes "cache-control", bytes "public, max-age=31536000");
  (bytes "content-encoding", bytes "br");
  (bytes "content-encoding", bytes "gzip");
  (bytes "content-type", bytes "application/dns-message");
  (bytes "content-type", bytes "application/javascript");
  (bytes "content-type", bytes "application/json");
  (bytes "content-type", bytes "application/x-www-form-urlencoded");
  (bytes "content-type", bytes "image/gif");
  (bytes "content-type", bytes "image/jpeg");
  (bytes "content-type", bytes "image/png");
  (bytes "content-type", bytes "text/css");
  (bytes "content-type", bytes "text/html; charset=utf-8");
  (bytes "content-type", bytes "text/plain");
  (bytes "content-type", bytes "text/plain;charset=utf-8");
  (bytes "range", bytes "bytes=0-");
  (bytes "strict-transport-security", bytes "max-age=31536000");
  (bytes "strict-transport-security", bytes "max-age=31536000; includesubdomains");
  (bytes "strict-transport-security", bytes "max-age=31536000; includesubdomains; preload");
  (bytes "vary", bytes "accept-encoding");
  (bytes "vary", bytes "origin");
  (bytes "x-content-type-options", bytes "nosniff");
  (bytes "x-xss-protection", bytes "1; mode=block");
  (bytes ":status", bytes "100");
  (bytes ":status", bytes "204");
  (bytes ":status", bytes "206");
  (bytes ":status", bytes "302");
  (bytes ":status", bytes "400");
  (bytes ":status", bytes "403");
  (bytes ":status", bytes "421");
  (bytes ":status", bytes "425");
  (bytes ":status", bytes "500");
  (bytes "accept-language", []);
  (bytes "access-control-allow-credentials", bytes "FALSE");
  (bytes "access-control-allow-credentials", bytes "TRUE");
  (bytes "access-control-allow-headers", bytes "*");
  (bytes "access-control-allow-methods", bytes "get");
  (bytes "access-control-allow-methods", bytes "get, post, options");
  (bytes "access-control-allow-methods", bytes "options");
  (bytes "access-control-expose-headers", bytes "content-length");
  (bytes "access-control-request-headers", bytes "content-type");
  (bytes "access-control-request-method", bytes "get");
  (bytes "access-control-request-method", bytes "post");
  (bytes "alt-svc", bytes "clear");
  (bytes "authorization", []);
  (bytes "content-security-policy", bytes "script-src 'none'; object-src 'none'; base-uri 'none'");
  (bytes "early-data", bytes "1");
  (bytes "expect-ct", []);
  (bytes "forwarded", []);
  (bytes "if-range", []);
  (bytes "origin", []);
  (bytes "purpose", bytes "prefetch");
  (bytes "server", []);
  (bytes "timing-allow-origin", bytes "*");
  (bytes "upgrade-insecure-requests", bytes "1");
  (bytes "user-agent", []);
  (bytes "x-forwarded-for", []);
  (bytes "x-frame-options", bytes "deny");
  (bytes "x-frame-options", bytes "sameorigin")].

(** The loop of [lookup] from entry [i] on; indices count from 0. *)
Fixpoint lookup_from (name value : list Z) (entries : list (list Z * list Z)) (i : Z)
    (name_match : option Z) : LookupResult :=
  match entries with
  | [] => match name_match with Some idx => NameMatch idx | None => NotFound end
  | (n, v) :: entries' =>
      if bool_decide (n = name) then
        if bool_decide (v = value) then ExactMatch i
        else lookup_from name value entries' (i + 1)
               (match name_match with None => Some i | Some _ => name_match end)
      else lookup_from name value entries' (i + 1) name_match
  end.
Definition lookup (name value : list Z) : LookupResult := lookup_from name value STATIC_TABLE 0 None.

(** ** Encoder *)

(** [offset += encode_integer(0, p, 0x00, &mut buf[offset..])], its error replaced. *)
Definition put_zero (prefix_bits : Z) : writer unit := λ s,
  let '(r, s') := put_with (Integer.encode_integer 0 prefix_bits 0x00) s in
  (map_err (λ _, BufferTooSmall (s.2 + 1)) r, s').

Definition encode_indexed_static (index : Z) : M Error (list Z) Z :=
  Integer.encode_integer index 6 0xC0.

Definition encode_literal_name_ref (name_index : Z) (value : list Z) : M Error (list Z) Z :=
  from_start (
    _ ← put_with (Integer.encode_integer name_index 4 0x70);
    _ ← put_with (Integer.encode_integer (len value) 7 0x00);
    put_checked_slice value).

Definition encode_literal (name value : list Z) : M Error (list Z) Z :=
  from_start (
    _ ← put_with (Integer.encode_integer (len name) 3 0x20);
    _ ← put_checked_slice name;
    _ ← put_with (Integer.encode_integer (len value) 7 0x00);
    put_checked_slice value).

Fixpoint encode_lines (headers : list (list Z * list Z)) : writer unit :=
  match headers with
  | [] => mret tt
  | (name, value) :: headers' =>
      _ ← (match lookup name value with
           | ExactMatch idx => put_with (encode_indexed_static idx)
           | NameMatch idx => put_with (encode_literal_name_ref idx value)
           | NotFound => put_with (encode_literal name value)
           end);
      encode_lines headers'
  end.

Definition encode_field_section (headers : list (list Z * list Z)) : M Error (list Z) Z :=
  from_start (_ ← put_zero 8; _ ← put_zero 7; encode_lines headers).

(** ** Decoder *)

Definition frame_encoding_error : Error := Transport TransportError.FrameEncodingError.
Definition decompression_failed : Error := Http3 H3Error.QpackDecompressionFailed.

(** [(b >> k) & 1 != 0]. *)
Definition bit (b k : Z) : bool := negb (Z.land (Z.shiftr b k) 1 =? 0).

(** The callback appends to the headers emitted so far. *)
Definition emit (name value : list Z) : M Error (list (list Z * list Z)) unit :=
  modify (λ l, l ++ [(name, value)]).

Section decoder.
Context `{Platform}.

(** [if pos + n > src.len() { return Err } let s = &src[pos..pos + n]; pos += n]. *)
Definition take_bytes (src : list Z) (pos n : Z) : result (list Z * Z) :=
  e ← usize_add pos n;
  if len src <? e then Err frame_encoding_error else
  s ← slice src pos e;
  Ok (s, e).

(** A string decoded into a buffer of [cap] bytes when it is Huffman-coded. *)
Definition huffman_or_raw (huffman : bool) (raw : list Z) (cap : Z) : result (list Z) :=
  if huffman then
    let '(r, out) := Huffman.decode raw (replicate (Z.to_nat cap) 0) in
    n ← map_err (λ _, decompression_failed) r;
    slice out 0 n
  else Ok raw.

(** The value of a literal field line. *)
Definition read_value (src : list Z) (pos : Z) : result (list Z * Z) :=
  if len src <=? pos then Err frame_encoding_error else
  b ← idx src pos;
  sub ← slice_from src pos;
  r ← Integer.decode_integer sub 7;
  raw ← take_bytes src (pos + r.2) (as_usize r.1);
  v ← huffman_or_raw (bit b 7) raw.1 512;
  Ok (v, raw.2).

(** One field line at [pos]: the header it holds and the position after it. *)
Definition decode_line (src : list Z) (pos : Z) : result (list Z * list Z * Z) :=
  first ← idx src pos;
  sub ← slice_from src pos;
  if negb (Z.land first 0x80 =? 0) then
    if negb (bit first 6) then Err decompression_failed else
    r ← Integer.decode_integer sub 6;
    if len STATIC_TABLE <=? as_usize r.1 then Err decompression_failed else
    e ← idx STATIC_TABLE (as_usize r.1);
    Ok (e, pos + r.2)
  else if Z.land first 0xC0 =? 0x40 then
    if negb (bit first 4) then Err decompression_failed else
    r ← Integer.decode_integer sub 4;
    if len STATIC_TABLE <=? as_usize r.1 then Err decompression_failed else
    v ← read_value src (pos + r.2);
    e ← idx STATIC_TABLE (as_usize r.1);
    Ok (e.1, v.1, v.2)
  else if Z.land first 0xE0 =? 0x20 then
    r ← Integer.decode_integer sub 3;
    raw ← take_bytes src (pos + r.2) (as_usize r.1);
    n ← huffman_or_raw (bit first 3) raw.1 256;
    v ← read_value src raw.2;
    Ok (n, v.1, v.2)
  else if Z.land first 0xF0 =? 0x10 then Err decompression_failed
  else if Z.land first 0xF0 =? 0x00 then Err decompression_failed
  else Err frame_encoding_error.

(** Every line takes at least one byte, so [fuel = src.len()] suffices. *)
Fixpoint decode_lines (fuel : nat) (src : list Z) (pos : Z) : M Error (list (list Z * list Z)) Z :=
  if pos <? len src then
    match fuel with
    | O => lift Panic
    | S fuel =>
        l ← lift (decode_line src pos);
        _ ← emit l.1.1 l.1.2;
        decode_lines fuel src l.2
    end
  else mret pos.

Definition decode_field_section (src : list Z) : M Error (list (list Z * list Z)) Z :=
  if len src =? 0 then throw frame_encoding_error else
  ric ← lift (Integer.decode_integer src 8);
  if negb (ric.1 =? 0) then throw decompression_failed else
  if len src <=? ric.2 then throw frame_encoding_error else
  sub ← lift (slice_from src ric.2);
  base ← lift (Integer.decode_integer sub 7);
  decode_lines (length src) src (ric.2 + base.2).

End decoder.

(** ** Lookup *)

(** HPACK's loop, whose indices count from 1. *)
Definition shift (r : LookupResult) : LookupResult :=
  match r with ExactMatch i => ExactMatch (i - 1) | NameMatch i => NameMatch (i - 1) | NotFound => NotFound end.

Lemma lookup_from_shift name value entries i nm :
  lookup_from name value entries i nm =
  shift (Hpack.lookup_loop name value entries i (Z.add 1 <$> nm)).
Proof.
  revert i nm. induction entries as [|[n v] entries IH]; intros i nm; simpl.
  - destruct nm; simpl; [f_equal; lia|done].
  - destruct (bool_decide (n = name)); [|apply IH].
    destruct (bool_decide (v = value)); [simpl; f_equal; lia|].
    rewrite IH. do 2 f_equal. destruct nm; simpl; [done|f_equal; lia].
Qed.

Lemma qpack_lookup_spec name value :
  match lookup name value with
  | ExactMatch i => 0 ≤ i < 99 ∧ STATIC_TABLE !! Z.to_nat i = Some (name, value)
  | NameMatch i => 0 ≤ i < 99 ∧ ∃ v, STATIC_TABLE !! Z.to_nat i = Some (name, v)
  | NotFound => Forall (λ e, e.1 ≠ name) STATIC_TABLE
  end.
Proof.
  pose proof (Hpack.lookup_loop_spec name value [] STATIC_TABLE None ltac:(done)) as Hs.
  unfold lookup. rewrite lookup_from_shift. change (len []) with 0 in Hs. simpl app in Hs.
  change (len STATIC_TABLE) with 99 in Hs. cbn [fmap option_fmap option_map].
  destruct (Hpack.lookup_loop _ _ _ _ _); cbn [shift]; [..|apply Hs].
  all: destruct Hs as [? ?]; by split; [lia|].
Qed.

(** From here on [lookup] is used through its specification only. *)
#[local] Opaque lookup.

(** ** Wire form *)

Definition line_wire (h : list Z * list Z) : list Z :=
  match lookup h.1 h.2 with
  | ExactMatch i => Integer.int_wire 6 0xC0 i
  | NameMatch i => Integer.int_wire 4 0x70 i ++ Hpack.string_wire h.2
  | NotFound => Integer.int_wire 3 0x20 (len h.1) ++ h.1 ++ Hpack.string_wire h.2
  end.
Definition lines_wire (headers : list (list Z * list Z)) : list Z := concat (line_wire <$> headers).
Definition section_wire (headers : list (list Z * list Z)) : list Z := [0; 0] ++ lines_wire headers.

Definition header_ok (h : list Z * list Z) : Prop := Hpack.string_ok h.1 ∧ Hpack.string_ok h.2.

Lemma masks :
  Integer.mask_ok 8 0 ∧ Integer.mask_ok 7 0 ∧ Integer.mask_ok 6 0xC0 ∧ Integer.mask_ok 4 0x70 ∧ Integer.mask_ok 3 0x20.
Proof. unfold Integer.mask_ok. split_and!; (lia || done). Qed.

Lemma lines_wire_cons h hs : lines_wire (h :: hs) = line_wire h ++ lines_wire hs.
Proof. done. Qed.

(** ** Encoding *)

Lemma Writes_put_zero p : Integer.mask_ok p 0 → 1 < p → Writes (put_zero p) [0].
Proof.
  intros Hm Hp.
  assert (Integer.int_wire p 0 0 = [0]) as Hw.
  { unfold Integer.int_wire. rewrite (proj2 (Z.ltb_lt _ _)); [done|].
    assert (2 ^ 1 < 2 ^ p) by (apply Z.pow_lt_mono_r; lia). lia. }
  pose proof (Hpack.Writes_put_integer 0 p 0 Hm ltac:(done)) as H. rewrite Hw in H.
  intros done rest. destruct (H done rest) as [Hok Herr]. unfold put_zero. split; intros Hl.
  - by rewrite Hok.
  - destruct (Herr Hl) as (e & s' & -> & _). do 2 eexists. split; [done|by eexists].
Qed.

Lemma Writes_line n v :
  header_ok (n, v) →
  Writes (match lookup n v with
          | ExactMatch idx => put_with (encode_indexed_static idx)
          | NameMatch idx => put_with (encode_literal_name_ref idx v)
          | NotFound => put_with (encode_literal n v)
          end) (line_wire (n, v)).
Proof.
  intros [Hn Hv]. unfold line_wire. cbn [fst snd] in *. pose proof (qpack_lookup_spec n v) as Hl.
  assert (Writes (_ ← put_with (Integer.encode_integer (len v) 7 0); put_checked_slice v) (Hpack.string_wire v)) as Hval.
  { apply Writes_bind; [|apply Hpack.Writes_checked_slice].
    apply Hpack.Writes_put_integer; [apply masks|by apply Hpack.string_ok_u64]. }
  destruct (lookup n v) as [i|i|].
  - apply Hpack.Writes_put_integer; [apply masks|unfold uint; lia].
  - apply Hpack.Writes_put_with, Writes_bind; [|done].
    apply Hpack.Writes_put_integer; [apply masks|unfold uint; lia].
  - apply Hpack.Writes_put_with, Writes_bind; [|apply Writes_bind; [apply Hpack.Writes_checked_slice|done]].
    apply Hpack.Writes_put_integer; [apply masks|by apply Hpack.string_ok_u64].
Qed.

Lemma Writes_lines hs : Forall header_ok hs → Writes (encode_lines hs) (lines_wire hs).
Proof.
  induction 1 as [|[n v] hs Hh _ IH]; [apply Writes_ret|]. rewrite lines_wire_cons.
  apply Writes_bind; [by apply Writes_line|done].
Qed.

Lemma Writes_section hs :
  Forall header_ok hs → Writes (_ ← put_zero 8; _ ← put_zero 7; encode_lines hs) (section_wire hs).
Proof.
  intros Hh. apply (Writes_bind _ _ [0] ([0] ++ lines_wire hs)); [apply Writes_put_zero; [apply masks|lia]|].
  apply Writes_bind; [apply Writes_put_zero; [apply masks|lia]|by apply Writes_lines].
Qed.

(** ** Decoding an encoded section *)

Section decoding.
Context `{Platform}.

Lemma take_bytes_app pre s post :
  len (pre ++ s ++ post) < 2 ^ usize_bits →
  take_bytes (pre ++ s ++ post) (len pre) (len s) = Ok (s, len (pre ++ s)).
Proof.
  intros Hl. unfold take_bytes. rewrite usize_add_ok by len_lia. cbn [mbind res_bind].
  rewrite (proj2 (Z.ltb_ge _ _)) by len_lia. rewrite slice_middle by done. cbn [mbind res_bind].
  do 2 f_equal. len_lia.
Qed.

(** The bits of a first byte that the decoder looks at. *)
Lemma first_bits b :
  (0 ≤ b < 128 → bit b 7 = false) ∧
  (0xC0 ≤ b < 0x100 → (Z.land b 0x80 =? 0) = false ∧ bit b 6 = true) ∧
  (0x70 ≤ b < 0x80 → (Z.land b 0x80 =? 0) = true ∧ (Z.land b 0xC0 =? 0x40) = true ∧ bit b 4 = true) ∧
  (0x20 ≤ b < 0x28 → (Z.land b 0x80 =? 0) = true ∧ (Z.land b 0xC0 =? 0x40) = false ∧
                     (Z.land b 0xE0 =? 0x20) = true ∧ bit b 3 = false).
Proof.
  split_and!; intros Hb.
  1: pose proof (byte_forall (λ b, (128 <=? b) || Bool.eqb (bit b 7) false)
       ltac:(vm_compute; reflexivity) b ltac:(unfold byte_ok; lia)) as Ht.
  2: pose proof (byte_forall (λ b, (b <? 0xC0) || Bool.eqb (Z.land b 0x80 =? 0) false && Bool.eqb (bit b 6) true)
       ltac:(vm_compute; reflexivity) b ltac:(unfold byte_ok; lia)) as Ht.
  3: pose proof (byte_forall (λ b, (b <? 0x70) || (0x80 <=? b) || Bool.eqb (Z.land b 0x80 =? 0) true &&
       (Bool.eqb (Z.land b 0xC0 =? 0x40) true && Bool.eqb (bit b 4) true))
       ltac:(vm_compute; reflexivity) b ltac:(unfold byte_ok; lia)) as Ht.
  4: pose proof (byte_forall (λ b, (b <? 0x20) || (0x28 <=? b) || Bool.eqb (Z.land b 0x80 =? 0) true &&
       (Bool.eqb (Z.land b 0xC0 =? 0x40) false && (Bool.eqb (Z.land b 0xE0 =? 0x20) true && Bool.eqb (bit b 3) false)))
       ltac:(vm_compute; reflexivity) b ltac:(unfold byte_ok; lia)) as Ht.
  all: cbv beta in Ht; rewrite ?(proj2 (Z.ltb_ge _ _)), ?(proj2 (Z.leb_gt _ _)) in Ht by lia; cbn [orb] in Ht.
  all: rewrite ?andb_true_iff in Ht; rewrite ?eqb_true_iff in Ht; tauto.
Qed.

Lemma read_value_wire pre v post :
  len (pre ++ Hpack.string_wire v ++ post) < 2 ^ usize_bits → Hpack.string_ok v →
  read_value (pre ++ Hpack.string_wire v ++ post) (len pre) = Ok (v, len (pre ++ Hpack.string_wire v)).
Proof.
  intros Hl Hv. unfold read_value, Hpack.string_wire in *. rewrite <- app_assoc in *.
  destruct (Hpack.int_wire_head 7 0 (len v)) as (b & l & Hw & Hb); [apply masks|lia|].
  rewrite (proj2 (Z.leb_gt _ _)) by (rewrite Hw; len_lia). cbn [mbind res_bind].
  rewrite (idx_ok _ _ b); [|lia|rewrite Hw, Nat2Z.id; by apply list_lookup_middle]. cbn [mbind res_bind].
  rewrite slice_from_eq by len_lia. rewrite Nat2Z.id, drop_app_length. cbn [mbind res_bind].
  rewrite Integer.decode_integer_wire by (apply masks || by apply Hpack.string_ok_u64). cbn [mbind res_bind fst snd].
  rewrite as_usize_u31 by (unfold Hpack.string_ok in Hv; lia).
  rewrite <- Nat2Z.inj_add, <- length_app, (app_assoc pre) in *. rewrite take_bytes_app by done.
  cbn [mbind res_bind fst snd]. destruct (first_bits b) as (-> & _); [|lia]. cbn.
  by rewrite <- app_assoc.
Qed.

(** The first byte of a line, and the rest of the section from there. *)
Lemma line_start {A} pre w b l post (k : Z → list Z → result A) :
  w = b :: l →
  (first ← idx (pre ++ w ++ post) (len pre); sub ← slice_from (pre ++ w ++ post) (len pre); k first sub) =
  k b (w ++ post).
Proof.
  intros Hw. rewrite (idx_ok _ _ b); [|lia|rewrite Hw, Nat2Z.id; by apply list_lookup_middle].
  cbn [mbind res_bind]. rewrite slice_from_eq by len_lia. by rewrite Nat2Z.id, drop_app_length.
Qed.

Lemma len_static_table : len STATIC_TABLE = 99.
Proof. vm_compute. reflexivity. Qed.

Lemma decode_indexed_wire pre i e post :
  0 ≤ i < 99 → STATIC_TABLE !! Z.to_nat i = Some e →
  decode_line (pre ++ Integer.int_wire 6 0xC0 i ++ post) (len pre) =
  Ok (e, len (pre ++ Integer.int_wire 6 0xC0 i)).
Proof.
  intros Hi Ht. destruct (Hpack.int_wire_head 6 0xC0 i) as (b & l & Hw & Hb); [apply masks|lia|].
  unfold decode_line. rewrite (line_start _ _ b l) by done.
  destruct (first_bits b) as (_ & Hbits & _). destruct Hbits as [-> ->]; [lia|]. cbn [negb].
  rewrite Integer.decode_integer_wire by (apply masks || unfold uint; lia). cbn [mbind res_bind fst snd].
  rewrite as_usize_u31 by lia. rewrite len_static_table, (proj2 (Z.leb_gt _ _)) by lia.
  rewrite (idx_ok _ _ e) by (lia || done). cbn [mbind res_bind]. do 2 f_equal. rewrite length_app. lia.
Qed.

Lemma decode_name_ref_wire pre i n v v' post :
  len (pre ++ Integer.int_wire 4 0x70 i ++ Hpack.string_wire v ++ post) < 2 ^ usize_bits →
  0 ≤ i < 99 → STATIC_TABLE !! Z.to_nat i = Some (n, v') → Hpack.string_ok v →
  decode_line (pre ++ Integer.int_wire 4 0x70 i ++ Hpack.string_wire v ++ post) (len pre) =
  Ok (n, v, len ((pre ++ Integer.int_wire 4 0x70 i) ++ Hpack.string_wire v)).
Proof.
  intros Hl Hi Ht Hv. destruct (Hpack.int_wire_head 4 0x70 i) as (b & l & Hw & Hb); [apply masks|lia|].
  unfold decode_line. rewrite (line_start _ _ b l) by done.
  destruct (first_bits b) as (_ & _ & Hbits & _). destruct Hbits as (-> & -> & ->); [lia|]. cbn [negb].
  rewrite Integer.decode_integer_wire by (apply masks || unfold uint; lia). cbn [mbind res_bind fst snd].
  rewrite as_usize_u31 by lia. rewrite len_static_table, (proj2 (Z.leb_gt _ _)) by lia.
  rewrite <- Nat2Z.inj_add, <- length_app, (app_assoc pre) in *. rewrite read_value_wire by done.
  cbn [mbind res_bind fst snd]. by rewrite (idx_ok _ _ (n, v')) by (lia || done).
Qed.

Lemma decode_literal_line_wire pre n v post :
  len (pre ++ Integer.int_wire 3 0x20 (len n) ++ n ++ Hpack.string_wire v ++ post) < 2 ^ usize_bits →
  Hpack.string_ok n → Hpack.string_ok v →
  decode_line (pre ++ Integer.int_wire 3 0x20 (len n) ++ n ++ Hpack.string_wire v ++ post) (len pre) =
  Ok (n, v, len (((pre ++ Integer.int_wire 3 0x20 (len n)) ++ n) ++ Hpack.string_wire v)).
Proof.
  intros Hl Hn Hv. destruct (Hpack.int_wire_head 3 0x20 (len n)) as (b & l & Hw & Hb); [apply masks|lia|].
  unfold decode_line. rewrite (line_start _ _ b l) by done.
  destruct (first_bits b) as (_ & _ & _ & Hbits). destruct Hbits as (-> & -> & -> & ->); [lia|]. cbn [negb].
  rewrite Integer.decode_integer_wire by (apply masks || by apply Hpack.string_ok_u64). cbn [mbind res_bind fst snd].
  rewrite as_usize_u31 by (unfold Hpack.string_ok in Hn; lia).
  rewrite <- Nat2Z.inj_add, <- length_app, (app_assoc pre) in *. rewrite take_bytes_app by done.
  cbn [mbind res_bind huffman_or_raw fst snd].
  rewrite (app_assoc (pre ++ _)) in *. by rewrite read_value_wire by done.
Qed.

Lemma decode_line_wire pre h post :
  len (pre ++ line_wire h ++ post) < 2 ^ usize_bits → header_ok h →
  decode_line (pre ++ line_wire h ++ post) (len pre) = Ok (h, len (pre ++ line_wire h)).
Proof.
  destruct h as [n v]. intros Hl [Hn Hv]. unfold line_wire in *. cbn [fst snd] in *.
  pose proof (qpack_lookup_spec n v) as Hlk. destruct (lookup n v) as [i|i|].
  - destruct Hlk as [Hi Ht]. by apply decode_indexed_wire.
  - destruct Hlk as [Hi [v' Ht]]. rewrite <- !app_assoc in *.
    rewrite (decode_name_ref_wire pre i n v v') by done. by rewrite <- app_assoc.
  - rewrite <- !app_assoc in *. rewrite decode_literal_line_wire by done. by rewrite <- !app_assoc.
Qed.

Lemma len_line_wire h : 0 < len (line_wire h).
Proof.
  destruct h as [n v]. unfold line_wire; cbn [fst snd]. pose proof (qpack_lookup_spec n v) as Hl.
  destruct (lookup n v) as [i|i|].
  - destruct (Hpack.int_wire_head 6 0xC0 i) as (b & l & -> & _); [apply masks|lia|]. len_lia.
  - destruct (Hpack.int_wire_head 4 0x70 i) as (b & l & -> & _); [apply masks|lia|]. len_lia.
  - destruct (Hpack.int_wire_head 3 0x20 (len n)) as (b & l & -> & _); [apply masks|lia|]. len_lia.
Qed.

Lemma decode_lines_wire fuel pre hs s :
  len (pre ++ lines_wire hs) < 2 ^ usize_bits → Forall header_ok hs → (length (lines_wire hs) ≤ fuel)%nat →
  decode_lines fuel (pre ++ lines_wire hs) (len pre) s = (Ok (len (pre ++ lines_wire hs)), s ++ hs).
Proof.
  intros Hl Hhs. revert fuel pre s Hl. induction Hhs as [|h hs Hh _ IH]; intros fuel pre s Hl Hf.
  - unfold lines_wire. simpl. rewrite !app_nil_r.
    destruct fuel; cbn [decode_lines]; by rewrite Z.ltb_irrefl.
  - rewrite lines_wire_cons in *. pose proof (len_line_wire h). rewrite length_app in Hf.
    destruct fuel as [|fuel]; [lia|]. cbn [decode_lines]. rewrite (proj2 (Z.ltb_lt _ _)) by len_lia.
    erewrite M_step_lift by (by apply decode_line_wire). cbn [fst snd].
    erewrite M_step_ok by reflexivity. rewrite (app_assoc pre) in *. rewrite IH by (done || lia).
    f_equal. rewrite <- app_assoc. by destruct h.
Qed.

Lemma decode_section_wire hs s :
  len (section_wire hs) < 2 ^ usize_bits → Forall header_ok hs →
  decode_field_section (section_wire hs) s = (Ok (len (section_wire hs)), s ++ hs).
Proof.
  intros Hl Hh. unfold decode_field_section.
  rewrite (proj2 (Z.eqb_neq _ 0)) by (unfold section_wire; len_lia).
  pose proof (Integer.decode_integer_wire 0 8 0 ([0] ++ lines_wire hs) ltac:(apply masks) ltac:(done)) as H8.
  change (Integer.int_wire 8 0 0) with [0] in H8. erewrite M_step_lift by exact H8. cbn [fst snd negb Z.eqb].
  change (len [0]) with 1. rewrite (proj2 (Z.leb_gt _ _)) by (unfold section_wire; len_lia).
  erewrite M_step_lift by (apply slice_from_eq; unfold section_wire; len_lia).
  pose proof (Integer.decode_integer_wire 0 7 0 (lines_wire hs) ltac:(apply masks) ltac:(done)) as H7.
  change (Integer.int_wire 7 0 0) with [0] in H7. erewrite M_step_lift by exact H7. cbn [fst snd].
  apply (decode_lines_wire _ [0; 0] hs s); [done..|]. unfold section_wire. len_lia.
Qed.

(** A value length that makes [pos + value_len] exceed [usize]: with overflow
    checks the sum panics, without it wraps below [pos] and the slice panics. *)
Lemma take_bytes_wraps src pos n :
  0 < pos ≤ len src → pos + n = 2 ^ usize_bits → take_bytes src pos n = Panic.
Proof.
  intros Hp Hn. unfold take_bytes, usize_add. rewrite decide_False by lia.
  destruct overflow_checks; [done|]. cbn [mbind res_bind]. rewrite Hn. unfold trunc.
  rewrite Z.mod_same by (pose proof pow_usize_ge; lia).
  rewrite (proj2 (Z.ltb_ge _ _)) by lia. unfold slice. by rewrite decide_False by lia.
Qed.

Definition wrapping_length : list Z := Integer.int_wire 7 0 (2 ^ 64 - 14).
Definition wrapping_section : list Z := [0; 0; 0x50] ++ wrapping_length.

Lemma wrapping_length_head : wrapping_length !! 0%nat = Some 127.
Proof. vm_compute. reflexivity. Qed.
Lemma decode_wrapping_length : Integer.decode_integer wrapping_length 7 = Ok (2 ^ 64 - 14, 11).
Proof. vm_compute. reflexivity. Qed.
Lemma len_wrapping_section : len wrapping_section = 14.
Proof. vm_compute. reflexivity. Qed.
#[local] Opaque wrapping_length.

Lemma read_value_wraps : read_value wrapping_section 3 = Panic.
Proof.
  unfold read_value, wrapping_section.
  pose proof len_wrapping_section as Hl. unfold wrapping_section in Hl.
  rewrite (proj2 (Z.leb_gt _ _)) by lia. rewrite (idx_ok _ 3 127) by (lia || apply wrapping_length_head).
  cbn [mbind res_bind]. rewrite slice_from_app by done. cbn [mbind res_bind].
  rewrite decode_wrapping_length. cbn [mbind res_bind fst snd].
  rewrite take_bytes_wraps; [done|lia|].
  unfold as_usize, trunc. by destruct usize_bits_ok as [-> | ->].
Qed.

Lemma decode_line_wraps : decode_line wrapping_section 2 = Panic.
Proof.
  unfold decode_line, wrapping_section.
  change ([0; 0; 0x50] ++ wrapping_length) with ([0; 0] ++ [0x50] ++ wrapping_length).
  change 2 with (len [0; 0]). rewrite (line_start _ _ 0x50 []) by done.
  change (Z.land 0x50 0x80 =? 0) with true. change (Z.land 0x50 0xC0 =? 0x40) with true.
  change (bit 0x50 4) with true. cbn [negb].
  pose proof (Integer.decode_integer_wire 0 4 0x50 wrapping_length
    ltac:(unfold Integer.mask_ok; split_and!; (lia || done)) ltac:(done)) as Hd.
  change (Integer.int_wire 4 0x50 0) with [0x50] in Hd. rewrite Hd. cbn [mbind res_bind fst snd]. rewrite as_usize_u31, len_static_table by lia. cbn [Z.leb Z.compare].
  change (len [0; 0] + len [0x50]) with 3.
  change ([0; 0] ++ [0x50] ++ wrapping_length) with wrapping_section. by rewrite read_value_wraps.
Qed.

End decoding.

(** ** Properties *)

(** C39: field sections survive QPACK.  Into a buffer with room the encoder writes
    a section that the decoder reads back as exactly those headers in that
    order, after whatever was emitted before, consuming all of it; into a
    shorter buffer it reports a short buffer. *)
Theorem qpack_roundtrip `{Platform} headers buf emitted :
  Forall header_ok headers → slice_ok buf →
  if decide (len (section_wire headers) ≤ len buf) then
    ∃ n buf', encode_field_section headers buf = (Ok n, buf') ∧
      decode_field_section (take (Z.to_nat n) buf') emitted = (Ok n, emitted ++ headers)
  else ∃ e buf', encode_field_section headers buf = (Err e, buf') ∧ too_small e.
Proof.
  intros Hh Hbuf. pose proof (Writes_section headers Hh) as Hw. destruct (decide _) as [Hl|Hl].
  - do 2 eexists. split; [by apply Puts_start, Hl; apply Writes_Puts|].
    rewrite Nat2Z.id, take_app_length. apply decode_section_wire; [|done].
    apply slice_ok_usize in Hbuf as [_ Hbuf]. lia.
  - destruct (Writes_start _ _ buf Hw) as [_ Herr]. destruct Herr as (e & s' & Hr & He); [lia|].
    unfold encode_field_section, from_start. rewrite Hr. eauto.
Qed.

Lemma qpack_roundtrip_witness :
  let hs := [(bytes ":method", bytes "GET"); (bytes ":path", bytes "/x"); (bytes "x-a", bytes "b")] in
  ∃ n buf', encode_field_section hs (replicate 32 0) = (Ok n, buf') ∧
    decode_field_section (H := platform64) (take (Z.to_nat n) buf') [] = (Ok n, hs).
Proof.
  apply (@qpack_roundtrip platform64
    [(bytes ":method", bytes "GET"); (bytes ":path", bytes "/x"); (bytes "x-a", bytes "b")] (replicate 32 0) []).
  - repeat constructor; unfold header_ok, Hpack.string_ok; simpl; lia.
  - unfold slice_ok. simpl. lia.
Defined.

(** C38: a 14-byte field section panics the QPACK decoder, on 32-bit and 64-bit
    targets, with and without overflow checks.  Its value length makes
    [pos + value_len] equal to [2^usize_bits], so the bound check either
    overflows or passes and the slice that follows is out of range. *)
Theorem qpack_decode_panics `{Platform} emitted :
  (decode_field_section wrapping_section emitted).1 = Panic.
Proof.
  pose proof len_wrapping_section as Hl.
  unfold decode_field_section. rewrite Hl. cbn [Z.eqb].
  pose proof (Integer.decode_integer_wire 0 8 0 ([0; 0x50] ++ wrapping_length) ltac:(apply masks) ltac:(split; lia)) as H8.
  change (Integer.int_wire 8 0 0) with [0] in H8. erewrite M_step_lift by exact H8. cbn [fst snd negb Z.eqb].
  change (len [0]) with 1. cbn [Z.leb Z.compare Pos.compare Pos.compare_cont].
  erewrite M_step_lift by (by apply (slice_from_app [0])).
  pose proof (Integer.decode_integer_wire 0 7 0 ([0x50] ++ wrapping_length) ltac:(apply masks) ltac:(split; lia)) as H7.
  change (Integer.int_wire 7 0 0) with [0] in H7. erewrite M_step_lift by exact H7. cbn [fst snd].
  replace (length wrapping_section) with (S 13) by lia. cbn [decode_lines]. rewrite Hl.
  change (1 + len [0]) with 2. cbn [Z.ltb Z.compare Pos.compare Pos.compare_cont].
  unfold mbind, M_bind, lift. by rewrite decode_line_wraps.
Qed.

End Qpack.
