(* ===== verification/H3Frame.v ===== *)
(** * HTTP/3 frames: [src/h3/frame.rs] and the settings of [src/h3/mod.rs]

    The type-length-value codec of RFC 9114, section 7. *)
From S2P Require Import Prelude Errors Varint Cursor.

Module H3Frame.

(** ** Data *)

Definition H3_FRAME_DATA : Z := 0x00.
Definition H3_FRAME_HEADERS : Z := 0x01.
Definition H3_FRAME_CANCEL_PUSH : Z := 0x03.
Definition H3_FRAME_SETTINGS : Z := 0x04.
Definition H3_FRAME_PUSH_PROMISE : Z := 0x05.
Definition H3_FRAME_GOAWAY : Z := 0x07.
Definition H3_FRAME_MAX_PUSH_ID : Z := 0x0d.

Definition SETTINGS_MAX_FIELD_SECTION_SIZE : Z := 0x06.
Definition SETTINGS_QPACK_MAX_TABLE_CAPACITY : Z := 0x01.
Definition SETTINGS_QPACK_BLOCKED_STREAMS : Z := 0x07.

Record H3Settings := {
  max_field_section_size : option Z;
  qpack_max_table_capacity : option Z;
  qpack_blocked_streams : option Z
}.
#[global] Instance eta_H3Settings : Eta H3Settings := λ s, {|
  max_field_section_size := max_field_section_size s;
  qpack_max_table_capacity := qpack_max_table_capacity s;
  qpack_blocked_streams := qpack_blocked_streams s |}.
Definition default_settings : H3Settings :=
  {| max_field_section_size := None; qpack_max_table_capacity := None; qpack_blocked_streams := None |}.

Record PushPromiseFrame := { push_id : Z; header_block : list Z }.

Inductive t :=
| Data (data : list Z)
| Headers (data : list Z)
| CancelPush (push_id : Z)
| Settings (settings : H3Settings)
| PushPromise (pp : PushPromiseFrame)
| GoAway (stream_id : Z)
| MaxPushId (push_id : Z)
| Unknown (frame_type : Z).

Definition frame_error : Error := Http3 H3Error.FrameError.
Definition settings_error : Error := Http3 H3Error.SettingsError.

(** ** Decoding *)

(** [match id { .. }]: unknown identifiers are ignored. *)
Definition apply_setting (id value : Z) (s : H3Settings) : H3Settings :=
  if id =? SETTINGS_MAX_FIELD_SECTION_SIZE then s <| max_field_section_size := Some value |>
  else if id =? SETTINGS_QPACK_MAX_TABLE_CAPACITY then s <| qpack_max_table_capacity := Some value |>
  else if id =? SETTINGS_QPACK_BLOCKED_STREAMS then s <| qpack_blocked_streams := Some value |>
  else s.

(** Every parameter takes at least two bytes, so [fuel = payload.len()] suffices. *)
Fixpoint settings_loop (fuel : nat) (payload : list Z) (settings : H3Settings) : result H3Settings :=
  if len payload =? 0 then Ok settings else
  match fuel with
  | O => Panic
  | S fuel =>
      id ← map_err (λ _, settings_error) (decode_varint payload);
      payload ← slice_from payload id.2;
      value ← map_err (λ _, settings_error) (decode_varint payload);
      payload ← slice_from payload value.2;
      settings_loop fuel payload (apply_setting id.1 value.1 settings)
  end.
Definition decode_settings (payload : list Z) : result H3Settings :=
  settings_loop (length payload) payload default_settings.

(** A payload that is one varint and nothing else. *)
Definition decode_id (payload : list Z) : result Z :=
  v ← map_err (λ _, frame_error) (decode_varint payload);
  if negb (v.2 =? len payload) then Err frame_error else Ok v.1.

Definition decode_push_promise (payload : list Z) : result t :=
  v ← map_err (λ _, frame_error) (decode_varint payload);
  header_block ← slice_from payload v.2;
  Ok (PushPromise {| push_id := v.1; header_block := header_block |}).

(** The match on the frame type. *)
Definition decode_payload (frame_type : Z) (payload : list Z) : result t :=
  match frame_type with
  | 0x00 => Ok (Data payload)
  | 0x01 => Ok (Headers payload)
  | 0x03 => push_id ← decode_id payload; Ok (CancelPush push_id)
  | 0x04 => settings ← decode_settings payload; Ok (Settings settings)
  | 0x05 => decode_push_promise payload
  | 0x07 => stream_id ← decode_id payload; Ok (GoAway stream_id)
  | 0x0d => push_id ← decode_id payload; Ok (MaxPushId push_id)
  | _ => Ok (Unknown frame_type)
  end.

Definition decode_h3_frame `{Platform} (buf : list Z) : result (t * Z) :=
  ty ← decode_varint buf;
  rest ← slice_from buf ty.2;
  ln ← decode_varint rest;
  let payload_len := as_usize ln.1 in
  let header_len := ty.2 + ln.2 in
  rest ← slice_from buf header_len;
  if len rest <? payload_len then
    needed ← usize_add header_len payload_len; Err (BufferTooSmall needed)
  else
  payload ← slice rest 0 payload_len;
  frame ← decode_payload ty.1 payload;
  Ok (frame, header_len + payload_len).

(** ** Encoding *)

Definition encode_data_frame_header (payload_len : Z) : M Error (list Z) Z :=
  with_room (varint_len H3_FRAME_DATA + varint_len payload_len) (
    _ ← put_varint H3_FRAME_DATA;
    put_varint payload_len).

Definition encode_simple_frame (frame_type : Z) (payload : list Z) : M Error (list Z) Z :=
  with_room (varint_len frame_type + varint_len (len payload) + len payload) (
    _ ← put_varint frame_type;
    _ ← put_varint (len payload);
    put_slice payload).

Definition encode_varint_payload_frame (frame_type value : Z) : M Error (list Z) Z :=
  let payload_size := varint_len value in
  with_room (varint_len frame_type + varint_len payload_size + payload_size) (
    _ ← put_varint frame_type;
    _ ← put_varint payload_size;
    put_varint value).

Definition setting_len (id : Z) (o : option Z) : Z :=
  match o with Some v => varint_len id + varint_len v | None => 0 end.
Definition settings_payload_len (s : H3Settings) : Z :=
  setting_len SETTINGS_MAX_FIELD_SECTION_SIZE (max_field_section_size s) +
  setting_len SETTINGS_QPACK_MAX_TABLE_CAPACITY (qpack_max_table_capacity s) +
  setting_len SETTINGS_QPACK_BLOCKED_STREAMS (qpack_blocked_streams s).

(** [if let Some(v) = .. { encode id; encode v }]. *)
Definition put_setting (id : Z) (o : option Z) : writer unit :=
  match o with Some v => _ ← put_varint id; put_varint v | None => mret tt end.

Definition encode_settings_frame (s : H3Settings) : M Error (list Z) Z :=
  let payload_len := settings_payload_len s in
  with_room (varint_len H3_FRAME_SETTINGS + varint_len payload_len + payload_len) (
    _ ← put_varint H3_FRAME_SETTINGS;
    _ ← put_varint payload_len;
    _ ← put_setting SETTINGS_MAX_FIELD_SECTION_SIZE (max_field_section_size s);
    _ ← put_setting SETTINGS_QPACK_MAX_TABLE_CAPACITY (qpack_max_table_capacity s);
    put_setting SETTINGS_QPACK_BLOCKED_STREAMS (qpack_blocked_streams s)).

Definition encode_push_promise_frame (pp : PushPromiseFrame) : M Error (list Z) Z :=
  let payload_len := varint_len (push_id pp) + len (header_block pp) in
  with_room (varint_len H3_FRAME_PUSH_PROMISE + varint_len payload_len + payload_len) (
    _ ← put_varint H3_FRAME_PUSH_PROMISE;
    _ ← put_varint payload_len;
    _ ← put_varint (push_id pp);
    put_slice (header_block pp)).

Definition encode_h3_frame (frame : t) : M Error (list Z) Z :=
  match frame with
  | Data data => encode_simple_frame H3_FRAME_DATA data
  | Headers data => encode_simple_frame H3_FRAME_HEADERS data
  | CancelPush push_id => encode_varint_payload_frame H3_FRAME_CANCEL_PUSH push_id
  | Settings settings => encode_settings_frame settings
  | PushPromise pp => encode_push_promise_frame pp
  | GoAway stream_id => encode_varint_payload_frame H3_FRAME_GOAWAY stream_id
  | MaxPushId push_id => encode_varint_payload_frame H3_FRAME_MAX_PUSH_ID push_id
  | Unknown _ => mret 0
  end.

(** ** Wire form *)

Definition setting_wire (id : Z) (o : option Z) : list Z :=
  match o with Some v => varint_wire id ++ varint_wire v | None => [] end.
Definition settings_wire (s : H3Settings) : list Z :=
  setting_wire SETTINGS_MAX_FIELD_SECTION_SIZE (max_field_section_size s) ++
  setting_wire SETTINGS_QPACK_MAX_TABLE_CAPACITY (qpack_max_table_capacity s) ++
  setting_wire SETTINGS_QPACK_BLOCKED_STREAMS (qpack_blocked_streams s).

Definition payload_wire (f : t) : list Z :=
  match f with
  | Data data | Headers data => data
  | CancelPush v | GoAway v | MaxPushId v => varint_wire v
  | Settings s => settings_wire s
  | PushPromise pp => varint_wire (push_id pp) ++ header_block pp
  | Unknown _ => []
  end.
Definition frame_type (f : t) : Z :=
  match f with
  | Data _ => 0x00 | Headers _ => 0x01 | CancelPush _ => 0x03 | Settings _ => 0x04 | PushPromise _ => 0x05
  | GoAway _ => 0x07 | MaxPushId _ => 0x0d | Unknown ty => ty
  end.
Definition frame_wire (f : t) : list Z :=
  varint_wire (frame_type f) ++ varint_wire (len (payload_wire f)) ++ payload_wire f.

Definition option_ok (o : option Z) : Prop := match o with Some v => varint_ok v | None => True end.
Definition settings_ok (s : H3Settings) : Prop :=
  option_ok (max_field_section_size s) ∧ option_ok (qpack_max_table_capacity s) ∧ option_ok (qpack_blocked_streams s).
Definition fields_ok (f : t) : Prop :=
  match f with
  | Data data | Headers data => bytes_ok data
  | CancelPush v | GoAway v | MaxPushId v => varint_ok v
  | Settings s => settings_ok s
  | PushPromise pp => varint_ok (push_id pp) ∧ bytes_ok (header_block pp)
  | Unknown _ => False
  end.
Definition frame_ok `{Platform} (f : t) : Prop :=
  fields_ok f ∧ len (payload_wire f) ≤ MAX_VARINT ∧ uint usize_bits (len (payload_wire f)).

(** ** Encoding *)

Lemma Puts_setting id o : varint_ok id → option_ok o → Puts (put_setting id o) (setting_wire id o).
Proof.
  intros Hid Ho. destruct o as [v|]; [|apply Puts_ret]. by apply Puts_bind; apply Puts_varint.
Qed.

Lemma len_setting_wire id o : len (setting_wire id o) = setting_len id o.
Proof. destruct o; [|done]. simpl. rewrite length_app, Nat2Z.inj_add, !len_varint_wire. done. Qed.

Lemma varint_ok_small v : 0 ≤ v < 64 → varint_ok v.
Proof. intros. unfold varint_ok. rewrite MAX_VARINT_eq. lia. Qed.
#[local] Hint Resolve Puts_varint Puts_slice Puts_bind Puts_setting varint_ok_small : cursor.

Lemma settings_payload_len_eq s : settings_payload_len s = len (settings_wire s).
Proof.
  unfold settings_payload_len, settings_wire. rewrite !length_app, !Nat2Z.inj_add, !len_setting_wire. lia.
Qed.

Lemma len_frame_wire f :
  len (frame_wire f) = varint_len (frame_type f) + varint_len (len (payload_wire f)) + len (payload_wire f).
Proof. unfold frame_wire. rewrite !length_app, !Nat2Z.inj_add, !len_varint_wire. lia. Qed.

Lemma h3_encode_frame_wire `{Platform} f buf :
  frame_ok f →
  encode_h3_frame f buf =
  if decide (len (frame_wire f) ≤ len buf)
  then (Ok (len (frame_wire f)), frame_wire f ++ drop (length (frame_wire f)) buf)
  else (Err (BufferTooSmall (len (frame_wire f))), buf).
Proof.
  intros (Hf & Hl & _). pose proof (len_frame_wire f) as Hw.
  assert (varint_ok (len (payload_wire f))) as Hlv by (unfold varint_ok; lia).
  destruct f as [data|data|v|s|pp|v|v|ty]; cbn [payload_wire frame_type fields_ok] in *; [..|done];
    unfold encode_h3_frame.
  3: unfold encode_varint_payload_frame; rewrite <- (len_varint_wire v) in *.
  4: unfold encode_settings_frame; rewrite settings_payload_len_eq; destruct Hf as (? & ? & ?).
  5: unfold encode_push_promise_frame; rewrite length_app, Nat2Z.inj_add, len_varint_wire in *; destruct Hf.
  6,7: unfold encode_varint_payload_frame; rewrite <- (len_varint_wire v) in *.
  all: apply with_room_ok; [|done].
  all: unfold frame_wire; cbn [payload_wire frame_type]; rewrite ?length_app, ?Nat2Z.inj_add, ?len_varint_wire in *.
  all: repeat apply Puts_bind; eauto with cursor lia.
  all: apply Puts_setting; [by apply varint_ok_small|done].
Qed.

(** ** Decoding the wire form *)

Lemma bytes_ok_setting id o : bytes_ok (setting_wire id o).
Proof. destruct o; [|constructor]. apply Forall_app. auto with rust. Qed.
Lemma bytes_ok_payload f : fields_ok f → bytes_ok (payload_wire f).
Proof.
  destruct f as [| | |s|pp| | |]; simpl; intros Hf; auto with rust.
  - repeat (apply Forall_app; split); apply bytes_ok_setting.
  - destruct Hf. apply Forall_app. auto with rust.
Qed.

(** Reading a varint off the front of a payload. *)
Lemma varint_front {A} e v rest (k : Z → list Z → result A) :
  varint_ok v → bytes_ok rest →
  (r ← map_err (λ _, e) (decode_varint (varint_wire v ++ rest));
   p ← slice_from (varint_wire v ++ rest) r.2; k r.1 p) = k v rest.
Proof.
  intros Hv Hr. rewrite decode_varint_wire by done. cbn [map_err mbind res_bind fst snd].
  by rewrite slice_from_app by (by rewrite len_varint_wire).
Qed.

Definition set_option (id : Z) (o : option Z) (s : H3Settings) : H3Settings :=
  match o with Some v => apply_setting id v s | None => s end.

Lemma h3_settings_loop_wire fuel id o rest s :
  varint_ok id → option_ok o → bytes_ok rest → (length (setting_wire id o ++ rest) ≤ fuel)%nat →
  ∃ fuel', (length rest ≤ fuel')%nat ∧
    settings_loop fuel (setting_wire id o ++ rest) s = settings_loop fuel' rest (set_option id o s).
Proof.
  intros Hid Ho Hr Hf. destruct o as [v|]; [|by exists fuel]. simpl setting_wire in *. rewrite <- app_assoc in *.
  pose proof (len_varint_wire id). pose proof (len_varint_wire v). rewrite !length_app in Hf.
  pose proof (varint_len_cases id). destruct fuel as [|fuel]; [lia|]. exists fuel. split; [lia|]. cbn [settings_loop].
  rewrite (proj2 (Z.eqb_neq _ 0)) by (rewrite !length_app; lia).
  rewrite (varint_front _ id (varint_wire v ++ rest) (λ id payload,
    value ← map_err (λ _, settings_error) (decode_varint payload);
    payload ← slice_from payload value.2;
    settings_loop fuel payload (apply_setting id value.1 s)));
    [|done|apply Forall_app; auto with rust].
  by rewrite (varint_front _ v rest (λ value payload, settings_loop fuel payload (apply_setting id value s))).
Qed.

Lemma decode_settings_wire s : settings_ok s → decode_settings (settings_wire s) = Ok s.
Proof.
  intros (H1 & H2 & H3). unfold decode_settings. set (fuel := length _).
  assert (length (settings_wire s) ≤ fuel)%nat as Hf by done. clearbody fuel. unfold settings_wire in *.
  rewrite <- (app_nil_r (setting_wire SETTINGS_QPACK_BLOCKED_STREAMS _)) in *.
  do 3 match goal with |- settings_loop ?fl (setting_wire ?id ?o ++ ?rest) ?st = _ =>
    let Hle := fresh "Hle" in
    destruct (h3_settings_loop_wire fl id o rest st) as (? & Hle & ->);
      [by apply varint_ok_small|done
      |repeat (apply Forall_app; split); auto using bytes_ok_setting, Forall_nil_2|done|] end.
  match goal with |- settings_loop ?fl _ _ = _ => destruct fl end; by destruct s as [[] [] []].
Qed.

Lemma decode_id_wire v : varint_ok v → decode_id (varint_wire v) = Ok v.
Proof.
  intros Hv. unfold decode_id. pose proof (decode_varint_wire v [] Hv ltac:(constructor)) as Hd.
  rewrite app_nil_r in Hd. rewrite Hd. cbn [map_err mbind res_bind fst snd].
  by rewrite len_varint_wire, Z.eqb_refl.
Qed.

Lemma h3_decode_payload_wire f : fields_ok f → decode_payload (frame_type f) (payload_wire f) = Ok f.
Proof.
  destruct f as [data|data|v|s|pp|v|v|ty]; cbn [fields_ok frame_type payload_wire decode_payload]; intros Hf;
    try done; try by rewrite decode_id_wire.
  - by rewrite decode_settings_wire.
  - destruct Hf as [Hp Hb]. unfold decode_push_promise.
    rewrite (varint_front _ _ _ (λ v block, Ok (PushPromise {| push_id := v; header_block := block |}))) by done.
    by destruct pp.
Qed.

(** The two varints in front of a frame. *)
Lemma h3_decode_header_wire `{Platform} ty ln rest :
  varint_ok ty → varint_ok ln → bytes_ok rest →
  decode_h3_frame (varint_wire ty ++ varint_wire ln ++ rest) =
  (let header_len := varint_len ty + varint_len ln in
   if len rest <? as_usize ln then needed ← usize_add header_len (as_usize ln); Err (BufferTooSmall needed)
   else
   payload ← slice rest 0 (as_usize ln);
   frame ← decode_payload ty payload;
   Ok (frame, header_len + as_usize ln)).
Proof.
  intros Ht Hn Hr. unfold decode_h3_frame.
  rewrite decode_varint_wire by (done || apply Forall_app; auto with rust). cbn [mbind res_bind fst snd].
  rewrite slice_from_app by (by rewrite len_varint_wire). cbn [mbind res_bind].
  rewrite decode_varint_wire by done. cbn [mbind res_bind fst snd].
  rewrite app_assoc, slice_from_app; [done|]. by rewrite length_app, Nat2Z.inj_add, !len_varint_wire.
Qed.

Lemma frame_type_ok f : fields_ok f → varint_ok (frame_type f).
Proof. destruct f; intros; [by apply varint_ok_small..|done]. Qed.

Lemma h3_decode_frame_wire `{Platform} f rest :
  frame_ok f → bytes_ok rest → decode_h3_frame (frame_wire f ++ rest) = Ok (f, len (frame_wire f)).
Proof.
  intros (Hf & Hl & Hu) Hr. rewrite len_frame_wire. unfold frame_wire. rewrite <- !app_assoc.
  rewrite h3_decode_header_wire; [|by apply frame_type_ok|unfold varint_ok; lia|].
  2:{ apply Forall_app. auto using bytes_ok_payload. }
  cbv zeta. rewrite as_usize_small by done. rewrite (proj2 (Z.ltb_ge _ _)) by len_lia.
  rewrite (slice_middle [] (payload_wire f) rest) by (simpl; lia). cbn [mbind res_bind].
  by rewrite h3_decode_payload_wire.
Qed.

(** ** Totality *)

Lemma varint_cases payload (e : Error) :
  bytes_ok payload →
  match map_err (λ _ : Error, e) (decode_varint payload) with
  | Ok (v, n) => varint_ok v ∧ varint_len v ≤ n ∧ 1 ≤ n ≤ len payload ∧
      ∃ rest, slice_from (E:=Error) payload n = Ok rest ∧ bytes_ok rest ∧ len rest = len payload - n
  | Err e' => e' = e
  | Panic => False
  end.
Proof.
  intros Hb. pose proof (decode_varint_no_panic payload Hb) as Hn.
  destruct (decode_varint payload) as [[v n]| |] eqn:Hd; simpl; [|done..].
  destruct (decode_varint_inv _ _ _ Hb Hd) as (Hv & Hr & _ & Hl). split_and!; try (unfold varint_ok; lia).
  eexists. rewrite slice_from_eq by lia. split_and!; [done|by apply Forall_drop|len_lia].
Qed.

Lemma settings_ok_apply id v s : varint_ok v → settings_ok s → settings_ok (apply_setting id v s).
Proof.
  intros Hv (? & ? & ?). unfold apply_setting.
  repeat match goal with |- context [if ?b then _ else _] => destruct b end; by split_and!.
Qed.

Lemma settings_loop_total fuel payload s :
  bytes_ok payload → len payload ≤ Z.of_nat fuel → settings_ok s →
  match settings_loop fuel payload s with
  | Ok s' => settings_ok s' | Err e => e = settings_error | Panic => False
  end.
Proof.
  revert payload s. induction fuel as [|fuel IH]; intros payload s Hb Hl Hs; cbn [settings_loop];
    (destruct (Z.eqb_spec (len payload) 0) as [|Hne]; [done|]); [lia|].
  pose proof (varint_cases payload settings_error Hb) as H1.
  destruct (map_err _ _) as [[id n]|e|]; cbn [mbind res_bind fst snd]; [|done..].
  destruct H1 as (_ & _ & Hn & rest & -> & Hb' & Hl'). cbn [mbind res_bind].
  pose proof (varint_cases rest settings_error Hb') as H2.
  destruct (map_err _ (decode_varint rest)) as [[v m]|e|]; cbn [mbind res_bind fst snd]; [|done..].
  destruct H2 as (Hv & _ & Hm & rest' & -> & Hb'' & Hl''). cbn [mbind res_bind].
  apply IH; [done|lia|by apply settings_ok_apply].
Qed.

(** What the payload of a decoded frame can be re-encoded in. *)
Definition decoded_ok (max : Z) (f : t) : Prop :=
  match f with Unknown _ => True | _ => fields_ok f ∧ len (payload_wire f) ≤ Z.max max 48 end.

Lemma len_settings_wire_le s : settings_ok s → len (settings_wire s) ≤ 48.
Proof.
  intros _. rewrite <- settings_payload_len_eq. unfold settings_payload_len, setting_len.
  assert (∀ v, varint_len v ≤ 8) as Hv by (intros v; destruct (varint_len_cases v); lia).
  destruct s as [[a|] [b|] [c|]]; simpl; repeat match goal with |- context [varint_len ?v] =>
    let H := fresh in pose proof (Hv v) as H; generalize dependent (varint_len v); intros end; lia.
Qed.

Lemma decode_id_total payload :
  bytes_ok payload →
  match decode_id payload with
  | Ok v => varint_ok v ∧ len (varint_wire v) ≤ len payload | Err e => e = frame_error | Panic => False
  end.
Proof.
  intros Hb. unfold decode_id. pose proof (varint_cases payload frame_error Hb) as H1.
  destruct (map_err _ _) as [[v n]|e|]; cbn [mbind res_bind fst snd]; [|done..].
  destruct H1 as (Hv & Hvn & Hn & _). destruct (negb _); [done|]. rewrite len_varint_wire. split; [done|lia].
Qed.

Lemma decode_payload_total ty payload :
  bytes_ok payload →
  match decode_payload ty payload with
  | Ok f => decoded_ok (len payload) f | Err e => e = frame_error ∨ e = settings_error | Panic => False
  end.
Proof.
  intros Hb. unfold decode_payload. pose proof (decode_id_total payload Hb) as Hid.
  assert (match decode_settings payload with
          | Ok s => settings_ok s ∧ len (settings_wire s) ≤ 48 | Err e => e = settings_error | Panic => False
          end) as Hset.
  { pose proof (settings_loop_total (length payload) payload default_settings Hb ltac:(lia) ltac:(done)) as Ht.
    unfold decode_settings. destruct (settings_loop _ _ _); [|done..]. auto using len_settings_wire_le. }
  assert (match decode_push_promise payload with
          | Ok f => decoded_ok (len payload) f | Err e => e = frame_error | Panic => False end) as Hpp.
  { unfold decode_push_promise. pose proof (varint_cases payload frame_error Hb) as H1.
    destruct (map_err _ _) as [[v n]|e|]; cbn [mbind res_bind fst snd]; [|done..].
    destruct H1 as (Hv & Hvn & Hn & rest & -> & Hb' & Hl). cbn. split; [done|].
    rewrite length_app, Nat2Z.inj_add, len_varint_wire. lia. }
  destruct ty as [|[[[]|[[]|[]|]|]|[[]|[[]|[]|]|]|]|]; try done; try (cbn; split; [done|lia]).
  all: try (destruct (decode_id payload); simpl in *; [destruct Hid; split; [done|lia]|by left|done]).
  all: try (destruct (decode_settings payload); simpl in *; [destruct Hset; split; [done|lia]|by right|done]).
  all: destruct (decode_push_promise payload); simpl in *; [done|by left|done].
Qed.

(** More input does not change the varints in front of a frame. *)
Lemma decode_varint_more buf more v n rest :
  bytes_ok buf → bytes_ok more → decode_varint buf = Ok (v, n) → slice_from buf n = Ok (E:=Error) rest →
  decode_varint (buf ++ more) = Ok (v, n) ∧ slice_from (buf ++ more) n = Ok (E:=Error) (rest ++ more).
Proof.
  intros Hb Hm Hd Hs. destruct (decode_varint_inv _ _ _ Hb Hd) as (_ & Hn & _).
  split; [by apply decode_varint_app; [apply Forall_app|]|].
  rewrite slice_from_eq in Hs by lia. injection Hs as <-.
  rewrite slice_from_eq by len_lia. by rewrite drop_app_le by lia.
Qed.

Lemma decode_varint_short buf e : bytes_ok buf → decode_varint buf = Err e → too_small e.
Proof.
  intros Hb Hd. destruct buf as [|b l]; [injection Hd as <-; by eexists|].
  rewrite decode_varint_eq in Hd by done. cbn zeta in Hd. case_decide; [|done]. injection Hd as <-. by eexists.
Qed.

Definition h3_outcome `{Platform} (buf more : list Z) : Prop :=
  match decode_h3_frame buf with
  | Ok (f, n) => 2 ≤ n ≤ len buf ∧ decoded_ok (len buf) f ∧ decode_h3_frame (buf ++ more) = Ok (f, n)
  | Err e => too_small e ∨ ((e = frame_error ∨ e = settings_error) ∧ decode_h3_frame (buf ++ more) = Err e)
  | Panic => overflow_checks = true ∧ usize_bits = 32
  end.

Lemma decode_h3_frame_cases `{Platform} buf more : bytes_ok buf → bytes_ok more → h3_outcome buf more.
Proof.
  intros Hb Hm. unfold h3_outcome, decode_h3_frame.
  destruct (decode_varint buf) as [[ty n1]|e|] eqn:H1; cbn [mbind res_bind fst snd];
    [|left; by apply (decode_varint_short buf)|by destruct (decode_varint_no_panic buf Hb)].
  destruct (decode_varint_inv _ _ _ Hb H1) as (Ht & Hn1 & Hn1' & _).
  destruct (decode_varint_more buf more ty n1 (drop (Z.to_nat n1) buf)) as [-> Hsl];
    [done|done|done|apply slice_from_eq; lia|].
  cbn [mbind res_bind fst snd]. rewrite Hsl. rewrite slice_from_eq by lia. cbn [mbind res_bind fst snd].
  set (rest := drop (Z.to_nat n1) buf). assert (bytes_ok rest) as Hbr by by apply Forall_drop.
  destruct (decode_varint rest) as [[ln n2]|e|] eqn:H2; cbn [mbind res_bind fst snd];
    [|left; by apply (decode_varint_short rest)|by destruct (decode_varint_no_panic rest Hbr)].
  destruct (decode_varint_inv _ _ _ Hbr H2) as (Hv & Hn2 & Hn2' & _).
  destruct (decode_varint_more rest more ln n2 (drop (Z.to_nat n2) rest)) as [-> _];
    [done|done|done|apply slice_from_eq; lia|].
  cbn [mbind res_bind fst snd].
  assert (len rest = len buf - n1) as Hlr by (subst rest; len_lia).
  rewrite !slice_from_eq by len_lia. cbn [mbind res_bind fst snd].
  rewrite drop_app_le by lia. set (body := drop (Z.to_nat (n1 + n2)) buf).
  assert (len body = len buf - n1 - n2) as Hlb by (subst body; len_lia).
  assert (bytes_ok body) as Hbb by by apply Forall_drop.
  pose proof (as_usize_range ln) as Hu.
  destruct (Z.ltb_spec (len body) (as_usize ln)).
  - unfold usize_add. destruct (decide _); [left; by eexists|].
    destruct overflow_checks; simpl; [|left; by eexists]. split; [done|].
    destruct usize_bits_ok as [|H64]; [done|]. exfalso. rewrite MAX_VARINT_eq in Hv.
    assert (as_usize ln = ln) by (apply as_usize_small; rewrite H64; split; lia). rewrite H64 in *. lia.
  - rewrite (proj2 (Z.ltb_ge (len (body ++ more)) _)) by len_lia.
    rewrite !slice_eq by len_lia. cbn [mbind res_bind]. rewrite !drop_0, take_app_le by lia.
    set (payload := take _ body). assert (bytes_ok payload) as Hbp by by apply Forall_take.
    pose proof (decode_payload_total ty payload Hbp) as Hp.
    destruct (decode_payload ty payload) as [f|e|]; cbn [mbind res_bind]; [|by right|done].
    split_and!; [lia|lia| |done]. assert (len payload ≤ len buf) by (subst payload; len_lia).
    destruct f; [destruct Hp as [? ?]; split; [done|lia]..|done].
Qed.

(** ** Properties *)

(** HTTP/3 frames survive the wire.  A well-formed frame is written as type,
    length and payload into a buffer with room, and decodes to itself and its
    length whatever follows; a shorter buffer is refused untouched, with the
    size needed. *)
Theorem h3_frame_roundtrip `{Platform} f buf :
  frame_ok f → bytes_ok buf →
  if decide (len (frame_wire f) ≤ len buf) then
    ∃ n buf', encode_h3_frame f buf = (Ok n, buf') ∧ take (Z.to_nat n) buf' = frame_wire f ∧
      decode_h3_frame buf' = Ok (f, n)
  else encode_h3_frame f buf = (Err (BufferTooSmall (len (frame_wire f))), buf).
Proof.
  intros Hf Hb. rewrite h3_encode_frame_wire by done. destruct (decide _); [|done].
  do 2 eexists. split; [done|]. rewrite Nat2Z.id, take_app_length. split; [done|].
  apply h3_decode_frame_wire; [done|by apply Forall_drop].
Qed.

Definition sample_settings : t :=
  Settings {| max_field_section_size := Some 8192; qpack_max_table_capacity := Some 0; qpack_blocked_streams := None |}.

(** HTTP/3 frame decoding is total and stable.  On every byte string it
    returns a frame within the buffer, re-encodable unless of an unknown type,
    or an error; a frame and every error but "buffer too small" stay the
    same however much input follows, so a stream can be parsed as it arrives.
    The only panic is the sum in a too-short frame's error, on a 32-bit target
    with overflow checks. *)
Theorem h3_frame_decode_total `{Platform} buf more :
  bytes_ok buf → bytes_ok more →
  match decode_h3_frame buf with
  | Ok (f, n) => 2 ≤ n ≤ len buf ∧ decoded_ok (len buf) f ∧ decode_h3_frame (buf ++ more) = Ok (f, n)
  | Err e => too_small e ∨ ((e = frame_error ∨ e = settings_error) ∧ decode_h3_frame (buf ++ more) = Err e)
  | Panic => overflow_checks = true ∧ usize_bits = 32
  end.
Proof. apply decode_h3_frame_cases. Qed.

(** On a 32-bit target the length is truncated: a DATA frame that announces 4 GiB
    is taken for an empty one. *)
Example long_payload_truncated :
  decode_h3_frame (H := platform32) ([0x00] ++ varint_wire (2 ^ 32) ++ [1; 2; 3]) = Ok (Data [], 9).
Proof. vm_compute. reflexivity. Qed.

End H3Frame.
