(* ===== verification/Dispatch.v ===== *)
(** * Sequences of frames: [dispatch_frames] of [src/connection/recv.rs]

    A packet payload is a sequence of frames without a count: the receiver decodes
    one, hands it to its handler, and goes on behind it.  [FrameCodec] is what
    such a loop needs from a frame codec; the QUIC and HTTP/3 codecs provide it. *)
From S2P Require Import Prelude Errors Varint Frame H3Frame.

(** ** The interface *)

Class FrameCodec (A : Type) := {
  fc_ok : A → Prop;
  fc_wire : A → list Z;
  fc_decode : list Z → result (A * Z);
  (** Inputs the codec promises not to panic on. *)
  fc_domain : list Z → Prop;
  fc_domain_drop n buf : fc_domain buf → fc_domain (drop n buf);
  (** Decoding inverts the wire form, whatever follows. *)
  fc_decode_wire a rest :
    fc_ok a → bytes_ok rest → fc_decode (fc_wire a ++ rest) = Ok (a, len (fc_wire a));
  fc_wire_bytes a : fc_ok a → bytes_ok (fc_wire a);
  fc_wire_pos a : fc_ok a → 0 < len (fc_wire a);
  (** Decoding is total and makes progress. *)
  fc_decode_total buf :
    bytes_ok buf → fc_domain buf →
    match fc_decode buf with Ok (a, n) => 0 < n ≤ len buf | Err _ => True | Panic => False end
}.

Section codec.
Context {A : Type} `{FrameCodec A}.

(** Every frame takes at least one byte, so [fuel = payload.len()] suffices. *)
Fixpoint frames_loop {ST} (fuel : nat) (handle : A → M Error ST unit) (payload : list Z) (pos : Z)
    : M Error ST unit :=
  if pos <? len payload then
    match fuel with
    | O => lift Panic
    | S fuel =>
        sub ← lift (slice_from payload pos);
        r ← lift (fc_decode sub);
        _ ← handle r.1;
        frames_loop fuel handle payload (pos + r.2)
    end
  else mret tt.

(** ** The reference: parse, then handle *)

Fixpoint parse (fuel : nat) (buf : list Z) : list A * option Error :=
  match buf, fuel with
  | [], _ | _, O => ([], None)
  | _, S fuel =>
      match fc_decode buf with
      | Ok (a, n) => let '(l, e) := parse fuel (drop (Z.to_nat n) buf) in (a :: l, e)
      | Err e => ([], Some e)
      | Panic => ([], None)
      end
  end.

Fixpoint handle_all {ST} (handle : A → M Error ST unit) (l : list A) : M Error ST unit :=
  match l with [] => mret tt | a :: l' => _ ← handle a; handle_all handle l' end.

Definition wires (l : list A) : list Z := concat (fc_wire <$> l).

Definition finish {ST} (e : option Error) : M Error ST unit :=
  match e with Some e => throw e | None => mret tt end.

(** The loop does what parsing first and handling afterwards would do. *)
Lemma frames_loop_parse {ST} fuel fuel' (handle : A → M Error ST unit) pre buf s :
  bytes_ok buf → fc_domain buf → (length buf ≤ fuel)%nat → (length buf ≤ fuel')%nat →
  frames_loop fuel handle (pre ++ buf) (len pre) s =
  (_ ← handle_all handle (parse fuel' buf).1; finish (parse fuel' buf).2) s.
Proof.
  revert fuel' pre buf s. induction fuel as [|fuel IH]; intros fuel' pre buf s Hb Hd Hf Hf'.
  - destruct buf; [|simpl in Hf; lia]. cbn [frames_loop]. rewrite app_nil_r, Z.ltb_irrefl. by destruct fuel'.
  - destruct buf as [|b buf]; [cbn [frames_loop]; rewrite app_nil_r, Z.ltb_irrefl; by destruct fuel'|].
    destruct fuel' as [|fuel']; [simpl in Hf'; lia|]. cbn [frames_loop parse].
    rewrite (proj2 (Z.ltb_lt _ _)) by len_lia.
    erewrite M_step_lift by (by apply slice_from_app).
    pose proof (fc_decode_total (b :: buf) Hb Hd) as Ht.
    destruct (fc_decode (b :: buf)) as [[a n]|e|]; [|done..]. erewrite M_step_lift by reflexivity. cbn [fst snd].
    destruct (parse fuel' (drop (Z.to_nat n) (b :: buf))) as [l e] eqn:Hp. cbn [fst snd handle_all].
    rewrite M_bind_assoc. destruct (handle a s) as [[[]|e'|] s'] eqn:Hh;
      [|by rewrite !(M_step_err _ _ _ _ _ Hh)|by unfold mbind, M_bind; rewrite Hh].
    rewrite !(M_step_ok _ _ _ _ _ Hh).
    rewrite <- (take_drop (Z.to_nat n) (b :: buf)) at 1. rewrite app_assoc.
    replace (len pre + n) with (len (pre ++ take (Z.to_nat n) (b :: buf))) by len_lia.
    rewrite (IH fuel'); [by rewrite Hp|by apply Forall_drop|by apply fc_domain_drop|len_lia..].
Qed.

Lemma parse_wires fuel l :
  Forall fc_ok l → (length (wires l) ≤ fuel)%nat → parse fuel (wires l) = (l, None).
Proof.
  intros Hl. revert fuel. induction Hl as [|a l Ha Hl IH]; intros fuel Hf; [by destruct fuel|].
  change (wires (a :: l)) with (fc_wire a ++ wires l) in *.
  assert (bytes_ok (wires l)) as Hw.
  { clear -Hl. induction Hl; [constructor|]. apply Forall_app. auto using fc_wire_bytes. }
  pose proof (fc_wire_pos a Ha) as Hpos. rewrite length_app in Hf.
  destruct (fc_wire a ++ wires l) as [|b buf] eqn:Hbuf.
  { apply app_nil in Hbuf as [Hnil _]. rewrite Hnil in Hpos. simpl in Hpos. lia. }
  destruct fuel as [|fuel]; [lia|]. cbn [parse]. rewrite <- Hbuf, fc_decode_wire by done.
  rewrite Nat2Z.id, drop_app_length. by rewrite IH by lia.
Qed.

End codec.

(** ** Instances *)

Lemma quic_wire_pos `{Platform} f : Frame.frame_ok f → 0 < len (Frame.frame_wire f).
Proof.
  intros Hf. pose proof (Frame.frame_decode_wire f [] Hf ltac:(constructor)) as Hd.
  destruct (Frame.frame_wire f); [done|simpl; lia].
Qed.

#[export] Program Instance quic_codec `{Platform} : FrameCodec Frame.t := {|
  fc_ok := Frame.frame_ok; fc_wire := Frame.frame_wire; fc_decode := Frame.decode;
  fc_domain buf := len buf < 2 ^ 31 |}.
Next Obligation. intros ? n buf Hd. cbv beta in *. rewrite length_drop. lia. Qed.
Next Obligation. intros. by apply Frame.frame_decode_wire. Qed.
Next Obligation. intros. by apply Frame.bytes_ok_frame_wire. Qed.
Next Obligation. intros. by apply quic_wire_pos. Qed.
Next Obligation.
  intros ? buf Hb Hl. pose proof (Frame.frame_decode_cases buf Hb Hl) as Hc.
  destruct (Frame.decode buf) as [[f n]| |]; [|done..]. lia.
Qed.

(** HTTP/3's decoder may panic on a 32-bit target with overflow checks. *)
#[export] Program Instance h3_codec `{Platform} : FrameCodec H3Frame.t := {|
  fc_ok := H3Frame.frame_ok; fc_wire := H3Frame.frame_wire; fc_decode := H3Frame.decode_h3_frame;
  fc_domain _ := overflow_checks = false ∨ usize_bits = 64 |}.
Next Obligation. done. Qed.
Next Obligation. intros. by apply H3Frame.h3_decode_frame_wire. Qed.
Next Obligation.
  intros ? f (Hf & _). repeat (apply Forall_app; split); auto with rust. by apply H3Frame.bytes_ok_payload.
Qed.
Next Obligation. intros ? f _. rewrite H3Frame.len_frame_wire.
  pose proof (varint_len_cases (H3Frame.frame_type f)). pose proof (varint_len_cases (len (H3Frame.payload_wire f))). lia.
Qed.
Next Obligation.
  intros ? buf Hb Hd. pose proof (H3Frame.decode_h3_frame_cases buf [] Hb ltac:(constructor)) as Hc.
  unfold H3Frame.h3_outcome in Hc. destruct (H3Frame.decode_h3_frame buf) as [[f n]| |]; [lia|done|].
  destruct Hc as [Ho Hu], Hd; congruence.
Qed.

(** ** QUIC packet payloads *)

Module Dispatch.

(** All frames except PADDING and ACK are ack-eliciting. *)
Definition is_ack_eliciting (f : Frame.t) : bool :=
  match f with Frame.Padding | Frame.Ack _ => false | _ => true end.

Section dispatch.
Context `{Platform} {ST : Type}.

(** [Connection::dispatch_frame] at the packet's level and time: the effect of a
    frame on the connection. *)
Variable dispatch_frame : Frame.t → M Error ST unit.

(** The body of the loop: the flag is set before the frame is dispatched. *)
Definition on_frame (f : Frame.t) : M Error (ST * bool) unit := λ s,
  let ack_eliciting := if is_ack_eliciting f then true else s.2 in
  let '(r, st) := dispatch_frame f s.1 in (r, (st, ack_eliciting)).

Definition dispatch_frames (payload : list Z) : M Error ST bool := λ st,
  let '(r, s) := frames_loop (length payload) on_frame payload 0 (st, false) in
  match r with Ok _ => (Ok s.2, s.1) | Err e => (Err e, s.1) | Panic => (Panic, s.1) end.

(** Handling a parsed payload. *)
Definition outcome (fs : list Frame.t) (err : option Error) (st : ST) : result bool * ST :=
  match handle_all dispatch_frame fs st with
  | (Ok _, st') => (match err with Some e => Err e | None => Ok (existsb is_ack_eliciting fs) end, st')
  | (Err e, st') => (Err e, st')
  | (Panic, st') => (Panic, st')
  end.

Lemma handle_all_on_frame l st b :
  let '(r, s) := handle_all on_frame l (st, b) in
  handle_all dispatch_frame l st = (r, s.1) ∧ (r = Ok tt → s.2 = b || existsb is_ack_eliciting l).
Proof.
  revert st b. induction l as [|f l IH]; intros st b; simpl; [by rewrite orb_false_r|].
  unfold mbind, M_bind, on_frame at 1. simpl. destruct (dispatch_frame f st) as [[[]|e|] st']; [|done..].
  specialize (IH st' (if is_ack_eliciting f then true else b)).
  destruct (handle_all on_frame l _) as [r s]. destruct IH as [-> Hs]. split; [done|].
  intros Hr. rewrite (Hs Hr). destruct (is_ack_eliciting f); simpl; [by rewrite orb_true_r|done].
Qed.

Lemma dispatch_frames_parse payload st :
  bytes_ok payload → len payload < 2 ^ 31 →
  dispatch_frames payload st =
  outcome (parse (A := Frame.t) (length payload) payload).1 (parse (A := Frame.t) (length payload) payload).2 st.
Proof.
  intros Hb Hl. unfold dispatch_frames, outcome.
  rewrite (frames_loop_parse (length payload) (length payload) on_frame [] payload (st, false)) by done.
  generalize (parse (A := Frame.t) (length payload) payload) as p. intros [fs err]. cbn [fst snd]. unfold mbind, M_bind.
  pose proof (handle_all_on_frame fs st false) as Hh.
  destruct (handle_all on_frame fs (st, false)) as [[[]|e|] s]; destruct Hh as [-> Hs]; [|done..].
  destruct err; [done|]. simpl. by rewrite (Hs eq_refl).
Qed.

End dispatch.

Lemma parse_quic `{Platform} fuel buf :
  bytes_ok buf → len buf < 2 ^ 31 →
  Forall Frame.frame_ok (parse (A := Frame.t) fuel buf).1 ∧
  ((parse (A := Frame.t) fuel buf).2 = None ∨ (parse (A := Frame.t) fuel buf).2 = Some Frame.frame_encoding_error).
Proof.
  revert buf. induction fuel as [|fuel IH]; intros buf Hb Hl; [destruct buf; by split; [constructor|left]|].
  destruct buf as [|b buf]; [by split; [constructor|left]|]. cbn [parse].
  pose proof (Frame.frame_decode_cases (b :: buf) Hb Hl) as Hc. change fc_decode with Frame.decode.
  destruct (Frame.decode (b :: buf)) as [[f n]|e|]; [|subst e; by split; [constructor|right]|done].
  destruct Hc as [Hf Hn]. specialize (IH (drop (Z.to_nat n) (b :: buf))).
  destruct (parse (A := Frame.t) fuel _) as [l e]. destruct IH as [Hfs He]; [by apply Forall_drop|len_lia|].
  split; [by constructor|done].
Qed.

(** ** Properties *)

(** C32: a packet payload is processed frame by frame, exactly.  Whatever the bytes
    and whatever [dispatch_frame] does, the loop terminates and has the effect
    of dispatching, in order, the well-formed frames some decomposition of the
    payload gives, stopping at the first error of the handler; after the
    last of them it reports whether any frame was ack-eliciting, or a frame
    encoding error where the payload stops being decodable.  For a payload
    made of encoded frames the decomposition is those frames, without error. *)
Theorem dispatch_frames_exact `{Platform} payload :
  bytes_ok payload → len payload < 2 ^ 31 →
  ∃ fs err, Forall Frame.frame_ok fs ∧ (err = None ∨ err = Some Frame.frame_encoding_error) ∧
    (∀ ST (dispatch_frame : Frame.t → M Error ST unit) st,
       dispatch_frames dispatch_frame payload st = outcome dispatch_frame fs err st) ∧
    (∀ gs, Forall Frame.frame_ok gs → payload = concat (Frame.frame_wire <$> gs) → fs = gs ∧ err = None).
Proof.
  intros Hb Hl. destruct (parse_quic (length payload) payload Hb Hl) as [Hfs Herr].
  exists (parse (A := Frame.t) (length payload) payload).1, (parse (A := Frame.t) (length payload) payload).2. split_and!; [done|done| |].
  - intros ST d st. by apply dispatch_frames_parse.
  - intros gs Hgs ->. pose proof (parse_wires (length (wires gs)) gs Hgs ltac:(lia)) as Hp.
    unfold wires in Hp. cbn [fc_wire quic_codec] in Hp. by rewrite Hp.
Qed.

Lemma dispatch_frames_exact_witness :
  ∃ fs err, Forall (Frame.frame_ok (H := platform64)) fs ∧ (err = None ∨ err = Some Frame.frame_encoding_error) ∧
    (∀ ST (dispatch_frame : Frame.t → M Error ST unit) st,
       dispatch_frames (H := platform64) dispatch_frame [0x01; 0x00; 0x1e] st = outcome dispatch_frame fs err st) ∧
    (∀ gs, Forall (Frame.frame_ok (H := platform64)) gs → [0x01; 0x00; 0x1e] = concat (Frame.frame_wire <$> gs) →
       fs = gs ∧ err = None).
Proof.
  apply (@dispatch_frames_exact platform64 [0x01; 0x00; 0x1e]); [repeat constructor; done|simpl; lia].
Defined.

End Dispatch.
