(* ===== verification/QuicPn.v ===== *)
(** * Received packet numbers: [RecvPnTracker] of [src/connection/mod.rs]

    Ranges of the packet numbers received, from which ACK frames are built and by
    which duplicates are recognised.  At most 32 ranges are kept; the lowest is
    given up for a new one, and a floor remembers it. *)
From S2P Require Import Prelude Errors Varint.

Module PnTracker.

Record t := Mk { ranges : list (Z * Z); floor : option Z }.
Global Instance eta_pn_tracker : Eta t := λ s, Mk (ranges s) (floor s).

Definition new : t := Mk [] None.

Definition largest (s : t) : option Z := snd <$> last (ranges s).

(** [self.floor.is_some_and(|f| pn <= f)]. *)
Definition below_floor (s : t) (pn : Z) : bool :=
  match floor s with Some f => pn <=? f | None => false end.

Definition contains (s : t) (pn : Z) : bool :=
  if below_floor s pn then true
  else existsb (λ r, (r.1 <=? pn) && (pn <=? r.2)) (ranges s).

(** [v.remove(i)]. *)
Definition remove_range (i : nat) (l : list (Z * Z)) : result (list (Z * Z)) :=
  if decide (i < length l)%nat then Ok (delete i l) else Panic.

(** [v.rotate_right(1)]. *)
Definition rotate_right {A} (l : list A) : list A :=
  match last l with Some x => x :: take (length l - 1) l | None => [] end.

Definition insert_range (start end_ : Z) (l : list (Z * Z)) : list (Z * Z) :=
  let pos := default (length l) (position (λ r, start <? r.1) l) in
  let l := l ++ [(start, end_)] in
  if (pos <? length l - 1)%nat then take pos l ++ rotate_right (drop pos l) else l.

(** The search over the ranges: [None] if [pn] is already tracked, else the ranges
    it extends at the upper and at the lower end. *)
Fixpoint scan (pn : Z) (i : nat) (l : list (Z * Z)) (merge_left merge_right : option nat)
    : result (option (option nat * option nat)) :=
  match l with
  | [] => Ok (Some (merge_left, merge_right))
  | (start, end_) :: l =>
      if (start <=? pn) && (pn <=? end_) then Ok None else
      up ← uadd 64 end_ 1;
      down ← uadd 64 pn 1;
      scan pn (S i) l (if pn =? up then Some i else merge_left) (if down =? start then Some i else merge_right)
  end.

(** The lowest range is dropped when there are 32. *)
Definition evict (s : t) : result t :=
  if (length (ranges s) <? 32)%nat then Ok s else
  dropped ← idx (ranges s) 0;
  l ← remove_range 0 (ranges s);
  Ok (Mk l (Some (match floor s with Some f => Z.max f dropped.2 | None => dropped.2 end))).

Definition record (pn : Z) (s : t) : result t :=
  if below_floor s pn then Ok s else
  found ← scan pn 0 (ranges s) None None;
  match found with
  | None => Ok s
  | Some (Some li, Some ri) =>
      left ← idx (ranges s) (Z.of_nat li);
      right ← idx (ranges s) (Z.of_nat ri);
      let '(first_rm, second_rm) := if (li <? ri)%nat then (ri, li) else (li, ri) in
      l ← remove_range first_rm (ranges s);
      l ← remove_range second_rm l;
      Ok (s <| ranges := insert_range left.1 right.2 l |>)
  | Some (Some li, None) =>
      r ← idx (ranges s) (Z.of_nat li);
      l ← set_idx (ranges s) (Z.of_nat li) (r.1, pn);
      Ok (s <| ranges := l |>)
  | Some (None, Some ri) =>
      r ← idx (ranges s) (Z.of_nat ri);
      l ← set_idx (ranges s) (Z.of_nat ri) (pn, r.2);
      Ok (s <| ranges := l |>)
  | Some (None, None) =>
      s ← evict s;
      Ok (s <| ranges := insert_range pn pn (ranges s) |>)
  end.


(** ** Canonical ranges *)

(** Ascending, above [lo], separated by at least one number. *)
Inductive asc : Z → list (Z * Z) → Prop :=
| asc_nil lo : asc lo []
| asc_cons lo s e l : lo < s → s ≤ e → asc (e + 1) l → asc lo ((s, e) :: l).

Definition covered (l : list (Z * Z)) (x : Z) : Prop := Exists (λ r, r.1 ≤ x ≤ r.2) l.

Record wf (s : t) : Prop := {
  wf_asc : asc (-1) (ranges s);
  wf_count : (length (ranges s) ≤ 32)%nat;
  wf_bound : Forall (λ r, r.2 ≤ MAX_VARINT) (ranges s)
}.

Lemma asc_weaken lo lo' l : asc lo l → lo' ≤ lo → asc lo' l.
Proof. intros Ha Hl. inversion Ha; subst; constructor; [lia|done..]. Qed.
Lemma asc_app lo l1 l2 :
  asc lo (l1 ++ l2) ↔ asc lo l1 ∧ asc (default lo ((λ r, r.2 + 1) <$> last l1)) l2.
Proof.
  revert lo. induction l1 as [|[s e] l1 IH]; intros lo; cbn [app].
  - split; [intros H; split; [constructor|exact H]|by intros [_ H]].
  - assert (default lo ((λ r, r.2 + 1) <$> last ((s, e) :: l1)) = default (e + 1) ((λ r, r.2 + 1) <$> last l1)) as ->
      by (destruct l1 as [|r l1]; [done|rewrite last_cons_cons; by destruct (last_is_Some (r :: l1)) as [_ [x ->]]]).
    split.
    + intros H. inversion H; subst. apply IH in H6 as [H1 H2]. split; [by constructor|done].
    + intros [H1 H2]. inversion H1; subst. constructor; [done..|]. apply IH. done.
Qed.
Lemma asc_lower lo l : asc lo l → Forall (λ r, lo < r.1 ∧ r.1 ≤ r.2) l.
Proof.
  induction 1 as [|lo s e l Hs He _ IH]; constructor; [done|]. eapply Forall_impl; [exact IH|]. simpl. lia.
Qed.

Lemma contains_spec s x : contains s x = true ↔ below_floor s x = true ∨ covered (ranges s) x.
Proof.
  unfold contains. destruct (below_floor s x); [naive_solver|]. rewrite existsb_exists. unfold covered. rewrite Exists_exists.
  split.
  - intros (r & Hr & Hx). right. exists r. split; [by apply list_elem_of_In|]. lia.
  - intros [?|(r & Hr & Hx)]; [done|]. exists r. split; [by apply list_elem_of_In|]. lia.
Qed.

(** ** The search *)

(** Where a number that is not covered belongs. *)
Lemma split_at lo l x : asc lo l → ¬ covered l x →
  ∃ l1 l2, l = l1 ++ l2 ∧ Forall (λ r, r.2 < x) l1 ∧ Forall (λ r, x < r.1) l2.
Proof.
  intros Ha. induction Ha as [|lo s e l Hs He Ha IH]; intros Hc; [by exists [], []|].
  assert (¬ (s ≤ x ≤ e) ∧ ¬ covered l x) as [Hx Hl] by (split; intros ?; apply Hc; [by left|by right]).
  destruct (decide (e < x)) as [Hlt|Hge].
  - destruct (IH Hl) as (l1 & l2 & -> & H1 & H2). exists ((s, e) :: l1), l2. split; [done|]. split; [by constructor|done].
  - exists [], ((s, e) :: l). split; [done|]. split; [done|]. constructor; [simpl; lia|].
    apply asc_lower in Ha. eapply Forall_impl; [exact Ha|]. simpl. lia.
Qed.

Lemma scan_covered lo l x i ml mr :
  asc lo l → covered l x → 0 ≤ x ≤ MAX_VARINT → Forall (λ r, r.2 ≤ MAX_VARINT) l → scan x i l ml mr = Ok None.
Proof.
  intros Ha Hc Hx. revert i ml mr. induction Ha as [|lo s e l Hs He Ha IH]; intros i ml mr Hb; [by inversion Hc|].
  inversion_clear Hb as [|? ? Hb1 Hb2]. cbn [scan]. destruct (Z.leb_spec s x), (Z.leb_spec x e); cbn [andb]; try done.
  all: assert (covered l x) as Hl by (inversion Hc; subst; [simpl in *; lia|done]); unfold MAX_VARINT in *;
    change (Z.shiftl 1 62 - 1) with (2 ^ 62 - 1) in *; cbn in Hb1; rewrite !uadd_ok by lia; cbn [mbind res_bind]; by apply IH.
Qed.

Lemma scan_after l x i ml :
  Forall (λ r, x < r.1 ∧ r.1 ≤ r.2 ≤ MAX_VARINT) l → 0 ≤ x ≤ MAX_VARINT → asc x l →
  scan x i l ml None = Ok (Some (ml, match l with (s, _) :: _ => if x + 1 =? s then Some i else None | [] => None end)).
Proof.
  intros Hl Hx Ha. unfold MAX_VARINT in *. change (Z.shiftl 1 62 - 1) with (2 ^ 62 - 1) in *.
  assert (∀ l i mr lo, Forall (λ r, x < r.1 ∧ r.1 ≤ r.2 ≤ 2 ^ 62 - 1) l → x + 1 ≤ lo → asc lo l → scan x i l ml mr = Ok (Some (ml, mr))) as Hrest.
  { clear -Hx. induction l as [|[s e] l IH]; intros i mr lo Hl Hlo Ha; [done|]. inversion_clear Hl as [|? ? [H1 H2] Hl'].
    inversion Ha; subst. cbn in H1, H2. cbn [scan].
    rewrite (proj2 (Z.leb_gt _ _)) by lia. cbn [andb]. rewrite !uadd_ok by lia. cbn [mbind res_bind].
    rewrite (proj2 (Z.eqb_neq x _)), (proj2 (Z.eqb_neq _ s)) by lia. apply (IH _ _ (e + 1)); [done|lia|done]. }
  destruct l as [|[s e] l]; [done|]. inversion_clear Hl as [|? ? [H1 H2] Hl']. inversion Ha; subst. cbn in H1, H2. cbn [scan].
  rewrite (proj2 (Z.leb_gt _ _)) by lia. cbn [andb]. rewrite !uadd_ok by lia. cbn [mbind res_bind].
  rewrite (proj2 (Z.eqb_neq x _)) by lia. apply (Hrest _ _ _ (e + 1)); [done|lia|done].
Qed.
Lemma scan_before lo l1 l2 x i :
  asc lo l1 → Forall (λ r, r.2 < x) l1 → -1 ≤ lo → x ≤ MAX_VARINT →
  scan x i (l1 ++ l2) None None =
  scan x (i + length l1) l2 (match last l1 with Some r => if x =? r.2 + 1 then Some (i + length l1 - 1)%nat else None | None => None end) None.
Proof.
  intros Ha Hl Hlo Hx. unfold MAX_VARINT in *. change (Z.shiftl 1 62 - 1) with (2 ^ 62 - 1) in *.
  revert i Hl Hlo. induction Ha as [|lo s e l Hs He Ha IH]; intros i Hl Hlo; [by rewrite Nat.add_0_r|].
  inversion_clear Hl as [|? ? H1 Hl']. cbn in H1. cbn [app scan]. rewrite (proj2 (Z.leb_gt x e)) by lia. rewrite andb_false_r.
  rewrite !uadd_ok by lia. cbn [mbind res_bind].
  assert ((x + 1 =? s) = false) as -> by lia. destruct l as [|[s' e'] l].
  - cbn [app last length snd]. replace (i + 1)%nat with (S i) by lia. by rewrite Nat.sub_succ, Nat.sub_0_r.
  - inversion Ha; subst. inversion_clear Hl' as [|? ? H2 _']. cbn in H2. rewrite (proj2 (Z.eqb_neq x (e + 1))) by lia.
    rewrite IH; [|constructor; [done|]|lia]; [|assumption]. cbn [length]. rewrite last_cons_cons.
    replace (S i + S (length l))%nat with (i + S (S (length l)))%nat by lia. done.
Qed.

(** The search finds the neighbours [x] extends. *)
Lemma scan_split l1 l2 x :
  asc (-1) (l1 ++ l2) → Forall (λ r, r.2 < x) l1 → Forall (λ r, x < r.1) l2 → 0 ≤ x ≤ MAX_VARINT →
  Forall (λ r, r.2 ≤ MAX_VARINT) (l1 ++ l2) →
  scan x 0 (l1 ++ l2) None None = Ok (Some
    (match last l1 with Some r => if x =? r.2 + 1 then Some (length l1 - 1)%nat else None | None => None end,
     match l2 with (s, _) :: _ => if x + 1 =? s then Some (length l1) else None | [] => None end)).
Proof.
  intros Ha H1 H2 Hx Hb. apply asc_app in Ha as [Ha1 Ha2]. apply Forall_app in Hb as [_ Hb2].
  rewrite (scan_before (-1)) by (done || lia). apply scan_after; [|done|].
  - apply asc_lower in Ha2. rewrite Forall_forall in *. intros r Hr. specialize (H2 r Hr). specialize (Ha2 r Hr). specialize (Hb2 r Hr). lia.
  - destruct l2 as [|[s e] l2]; [constructor|]. inversion_clear H2 as [|? ? Hs _]. cbn in Hs. inversion Ha2; subst. constructor; [lia|done..].
Qed.

Lemma insert_range_split l1 l2 s e :
  Forall (λ r, r.1 ≤ s) l1 → Forall (λ r, s < r.1) l2 → insert_range s e (l1 ++ l2) = l1 ++ (s, e) :: l2.
Proof.
  intros H1 H2. unfold insert_range.
  assert (default (length (l1 ++ l2)) (position (λ r, s <? r.1) (l1 ++ l2)) = length l1) as Hpos.
  { induction H1 as [|r l1 Hr _ IH]; cbn [app].
    - destruct l2 as [|r l2]; [done|]. inversion_clear H2 as [|? ? Hs _]. cbn [position]. by rewrite (proj2 (Z.ltb_lt _ _)) by done.
    - cbn [position]. rewrite (proj2 (Z.ltb_ge _ _)) by done. destruct (position _ _); cbn in *; lia. }
  rewrite Hpos, !length_app. cbn [length]. destruct l2 as [|r l2].
  - rewrite (proj2 (Nat.ltb_ge _ _)) by (cbn [length]; lia). by rewrite app_nil_r.
  - rewrite (proj2 (Nat.ltb_lt _ _)) by (cbn [length]; lia). rewrite <- app_assoc, take_app_length, drop_app_length. f_equal.
    unfold rotate_right. rewrite last_snoc, length_app. by rewrite take_app_length' by (cbn [length]; lia).
Qed.

(** What recording adds. *)
Lemma ranges_covered_app l1 l2 x : covered (l1 ++ l2) x ↔ covered l1 x ∨ covered l2 x.
Proof. apply Exists_app. Qed.
Lemma covered_cons s e l x : covered ((s, e) :: l) x ↔ s ≤ x ≤ e ∨ covered l x.
Proof. unfold covered. by rewrite Exists_cons. Qed.
Lemma covered_nil x : covered [] x ↔ False.
Proof. unfold covered. by rewrite Exists_nil. Qed.

(** The ranges with [x] added next to its neighbours. *)
Definition join (l1 : list (Z * Z)) (x : Z) (l2 : list (Z * Z)) : list (Z * Z) :=
  let '(l1', s) := match last l1 with
                   | Some r => if x =? r.2 + 1 then (take (length l1 - 1) l1, r.1) else (l1, x) | None => (l1, x) end in
  let '(e, l2') := match l2 with (s', e') :: l => if x + 1 =? s' then (e', l) else (x, l2) | [] => (x, []) end in
  l1' ++ (s, e) :: l2'.

Lemma join_asc lo l1 x l2 :
  asc lo (l1 ++ l2) → Forall (λ r, r.2 < x) l1 → Forall (λ r, x < r.1) l2 → lo < x → asc lo (join l1 x l2).
Proof.
  intros Ha H1 H2 Hlo. apply asc_app in Ha as [Ha1 Ha2]. unfold join.
  destruct (match last l1 with Some r => _ | None => _ end) as [l1' s] eqn:E1.
  destruct (match l2 with (s', e') :: l => _ | [] => _ end) as [e l2'] eqn:E2.
  assert (asc lo l1' ∧ default lo ((λ r, r.2 + 1) <$> last l1') < s ≤ x) as [Ha1' Hs].
  { destruct (last l1) as [[rs re]|] eqn:Hl; [|simplify_eq; apply last_None in Hl as ->; simpl; split; [constructor|lia]].
    apply last_Some in Hl as [l0 ->]. apply Forall_app in H1 as [_ H1]. inversion_clear H1 as [|? ? Hr _].
    pose proof Ha1 as Ha1'. apply asc_app in Ha1' as [Ha0 Har]. inversion Har; subst. cbn [fst snd] in *.
    destruct (Z.eqb_spec x (re + 1)); simplify_eq.
    - rewrite length_app, Nat.add_sub, take_app_length. split; [done|]. cbn in *. lia.
    - split; [done|]. rewrite last_snoc. cbn in *. lia. }
  assert (x ≤ e ∧ asc (e + 1) l2') as [He Ha2'].
  { destruct l2 as [|[s' e'] l2]; [simplify_eq; split; [lia|constructor]|]. inversion_clear H2 as [|? ? Hx' _]. inversion Ha2; subst. cbn in Hx'.
    destruct (Z.eqb_spec (x + 1) s'); simplify_eq; [split; [lia|done]|]. split; [lia|]. constructor; [lia|done..]. }
  apply asc_app. split; [done|]. constructor; [lia|lia|done].
Qed.
Lemma join_covered lo l1 x l2 y :
  asc lo (l1 ++ l2) → Forall (λ r, r.2 < x) l1 → Forall (λ r, x < r.1) l2 →
  covered (join l1 x l2) y ↔ covered (l1 ++ l2) y ∨ y = x.
Proof.
  intros Ha H1 H2. apply asc_app in Ha as [Ha1 Ha2]. unfold join.
  destruct (match last l1 with Some r => _ | None => _ end) as [l1' s] eqn:E1.
  destruct (match l2 with (s', e') :: l => _ | [] => _ end) as [e l2'] eqn:E2.
  assert ((covered l1' y ∨ s ≤ y < x) ↔ covered l1 y) as Hl1.
  { destruct (last l1) as [[rs re]|] eqn:Hl; [|simplify_eq; apply last_None in Hl as ->; rewrite covered_nil; naive_solver lia].
    apply last_Some in Hl as [l0 ->]. cbn [fst snd] in E1. destruct (Z.eqb_spec x (re + 1)); simplify_eq; [|naive_solver lia].
    rewrite length_app, Nat.add_sub, take_app_length, ranges_covered_app, covered_cons, covered_nil. cbn. naive_solver lia. }
  assert ((covered l2' y ∨ x < y ≤ e) ↔ covered l2 y) as Hl2.
  { destruct l2 as [|[s' e'] l2]; [simplify_eq; rewrite covered_nil; lia|]. inversion Ha2; subst.
    destruct (Z.eqb_spec (x + 1) s'); simplify_eq; rewrite ?covered_cons; naive_solver lia. }
  assert (s ≤ x ≤ e).
  { destruct (last l1) as [[rs re]|] eqn:Hl.
    - apply last_Some in Hl as [l0 ->]. apply asc_app in Ha1 as [_ Har]. inversion Har; subst. cbn [fst snd] in *.
      destruct l2 as [|[s' e'] l2]; [|inversion Ha2; subst]; repeat case_match; simplify_eq; lia.
    - destruct l2 as [|[s' e'] l2]; [|inversion Ha2; subst]; repeat case_match; simplify_eq; lia. }
  rewrite !ranges_covered_app, covered_cons, <- Hl1, <- Hl2. destruct (decide (y = x)); [|destruct (decide (y < x))]; naive_solver lia.
Qed.

(** ** Recording *)

Lemma remove_middle l1 l2 r n : n = length l1 → remove_range n (l1 ++ r :: l2) = Ok (l1 ++ l2).
Proof.
  intros ->. unfold remove_range. rewrite decide_True by (rewrite length_app; cbn [length]; lia). f_equal.
  induction l1 as [|y l1 IH]; [done|]. cbn. by f_equal.
Qed.

(** A number next to a range is added to it. *)
Lemma record_merges l1 x l2 f :
  asc (-1) (l1 ++ l2) → Forall (λ r, r.2 < x) l1 → Forall (λ r, x < r.1) l2 → 0 ≤ x ≤ MAX_VARINT →
  Forall (λ r, r.2 ≤ MAX_VARINT) (l1 ++ l2) → below_floor (Mk (l1 ++ l2) f) x = false →
  (length (join l1 x l2) ≤ length (l1 ++ l2))%nat ∧ record x (Mk (l1 ++ l2) f) = Ok (Mk (join l1 x l2) f) ∨
  length (join l1 x l2) = S (length (l1 ++ l2)) ∧ join l1 x l2 = l1 ++ (x, x) :: l2 ∧
  record x (Mk (l1 ++ l2) f) = (s ← evict (Mk (l1 ++ l2) f); Ok (s <| ranges := insert_range x x (ranges s) |>)).
Proof.
  intros Ha H1 H2 Hx Hb Hf. unfold record. rewrite Hf. cbn [ranges]. rewrite scan_split by done. cbn [mbind res_bind].
  pose proof Ha as Ha'. apply asc_app in Ha' as [Ha1 Ha2]. unfold join.
  destruct (last l1) as [[s1 e1]|] eqn:Hl.
  - apply last_Some in Hl as [l0 ->]. cbn [fst snd]. rewrite length_app, Nat.add_sub, take_app_length.
    destruct (Z.eqb_spec x (e1 + 1)) as [->|Hn1].
    + left. destruct l2 as [|[s2 e2] l2].
      * rewrite app_nil_r. split; [rewrite !length_app; cbn; lia|]. rewrite idx_middle by done. cbn [mbind res_bind].
        by rewrite set_middle.
      * destruct (Z.eqb_spec (e1 + 1 + 1) s2) as [<-|Hn2]; cbn [mbind res_bind].
        -- split; [rewrite !length_app; cbn; lia|].
           rewrite (idx_middle (l0 ++ [(s1, e1)]) l2) by (rewrite length_app; done). rewrite <- app_assoc. cbn [app]. rewrite idx_middle by done. cbn [mbind res_bind].
           rewrite (proj2 (Nat.ltb_lt _ _)) by (cbn [length]; lia).
           change ((s1, e1) :: (e1 + 1 + 1, e2) :: l2) with ([(s1, e1)] ++ (e1 + 1 + 1, e2) :: l2). rewrite (app_assoc l0 [(s1, e1)]).
           rewrite (remove_middle (l0 ++ [(s1, e1)]) l2) by (rewrite length_app; done). cbn [mbind res_bind].
           rewrite <- (app_assoc l0 [(s1, e1)] l2), (remove_middle l0 l2 (s1, e1)) by done. cbn [mbind res_bind fst snd].
           apply asc_app in Ha1 as [Ha0 Har]. inversion Har; subst. inversion Ha2; subst. cbn in *.
           rewrite insert_range_split; [done|..].
           ++ match goal with H : default _ _ < s1 |- _ => rename H into Hd end. clear -Ha0 Hd. induction l0 as [|r l0 IH] using rev_ind; [constructor|]. apply asc_app in Ha0 as [Ha0 Hr].
              rewrite last_snoc in Hd. cbn in Hd. inversion Hr; subst. cbn in *. apply Forall_app. split; [apply IH; [done|]|repeat constructor; simpl; lia].
              lia.
           ++ match goal with H : asc _ l2 |- _ => apply asc_lower in H; eapply Forall_impl; [exact H|] end. simpl. lia.
        -- split; [rewrite !length_app; cbn; lia|]. rewrite <- !app_assoc. cbn [app]. rewrite idx_middle by done. cbn [mbind res_bind].
           by rewrite set_middle.
    + destruct l2 as [|[s2 e2] l2].
      * right. rewrite !length_app. cbn [length]. split; [lia|]. done.
      * destruct (Z.eqb_spec (x + 1) s2) as [<-|Hn2]; cbn [mbind res_bind].
        -- left. split; [rewrite !length_app; cbn; lia|].
           rewrite (idx_middle (l0 ++ [(s1, e1)]) l2) by (rewrite length_app; done). cbn [mbind res_bind].
           by rewrite (set_middle (l0 ++ [(s1, e1)]) l2) by (rewrite length_app; done).
        -- right. rewrite !length_app. cbn [length]. split; [lia|]. done.
  - apply last_None in Hl as ->. cbn [app length]. destruct l2 as [|[s2 e2] l2]; [by right|].
    destruct (Z.eqb_spec (x + 1) s2) as [<-|Hn2]; cbn [mbind res_bind]; [|by right].
    left. split; [done|]. done.
Qed.

Lemma covered_bound lo l : asc lo l → Forall (λ r, r.2 ≤ MAX_VARINT) l ↔ ∀ y, covered l y → y ≤ MAX_VARINT.
Proof.
  intros Ha. unfold covered. split.
  - intros Hb y. rewrite Exists_exists, Forall_forall in *. intros (r & Hr & Hy). specialize (Hb r Hr). lia.
  - intros Hb. apply asc_lower in Ha. rewrite Forall_forall in *. intros r Hr. apply Hb. apply Exists_exists. exists r.
    split; [done|]. specialize (Ha r Hr). lia.
Qed.

(** The new range is placed among those that remain when the lowest is given up. *)
Lemma evict_insert l1 l2 x ds de l :
  l1 ++ l2 = (ds, de) :: l → asc (-1) ((ds, de) :: l) → asc (-1) (l1 ++ (x, x) :: l2) →
  Forall (λ r, r.2 < x) l1 → Forall (λ r, x < r.1) l2 →
  ∃ l1' l2', insert_range x x l = l1' ++ (x, x) :: l2' ∧ l = l1' ++ l2' ∧ asc (-1) (l1' ++ (x, x) :: l2').
Proof.
  intros Hl Ha Haj H1 H2. apply asc_lower in Ha as Hlo. destruct l1 as [|[s1 e1] l1].
  - cbn in Hl. subst l2. exists [], l. split; [apply (insert_range_split [] l); [done|by inversion H2]|]. split; [done|]. cbn.
    inversion_clear Haj as [|? ? ? ? Hs He Hrest]. constructor; [done..|].
    inversion_clear Hrest as [|? ? ? ? Hs' He' Hrest']. apply (asc_weaken (de + 1)); [done|lia].
  - cbn in Hl. injection Hl as -> -> <-. exists l1, l2. split; [|split; [done|inversion Haj; subst; eapply asc_weaken; [eassumption|]]].
    + apply insert_range_split; [|done]. inversion_clear H1 as [|? ? _ H1']. inversion_clear Hlo as [|? ? _ Hlo']. apply Forall_app in Hlo' as [Hlo1 _].
      rewrite Forall_forall in *. intros r Hr. specialize (Hlo1 r Hr). specialize (H1' r Hr). simpl in *. lia.
    + inversion_clear Hlo. simpl in *. lia.
Qed.

(** Recording never fails, keeps the ranges canonical and adds exactly the number,
    but for what the floor covers. *)
Lemma record_ok s x : wf s → 0 ≤ x ≤ MAX_VARINT →
  ∃ s', record x s = Ok s' ∧ wf s' ∧
    (∀ y, contains s' y = true ↔ contains s y = true ∨ y = x ∨ below_floor s' y = true) ∧
    (∀ y, below_floor s y = true → below_floor s' y = true) ∧
    (length (ranges s') ≤ S (length (ranges s)))%nat ∧
    ((length (ranges s) < 32)%nat → floor s' = floor s) ∧
    (∀ y, covered (ranges s') y → covered (ranges s) y ∨ y = x) ∧
    (∀ f, floor s' = Some f → floor s = Some f ∨ covered (ranges s) f).
Proof.
  intros Hw Hx. destruct (contains s x) eqn:Hc.
  - exists s. split; [|split; [done|split; [|split; [done|split; [lia|split; [done|split; by left]]]]]].
    + unfold record. destruct (below_floor s x) eqn:Hf; [done|].
      rewrite (scan_covered (-1)); [done|apply Hw| |done|apply Hw]. apply contains_spec in Hc as [?|?]; [congruence|done].
    + intros y. split; [by left|]. intros [?|[->|?]]; [done..|]. apply contains_spec. by left.
  - assert (below_floor s x = false) as Hf by (destruct (below_floor s x) eqn:E; [|done]; by rewrite (proj2 (contains_spec s x) (or_introl E)) in Hc).
    destruct s as [l f]. destruct Hw as [Ha Hn Hb]. cbn [ranges floor] in *.
    destruct (split_at (-1) l x) as (l1 & l2 & -> & H1 & H2);
      [done|intros Hcv; by rewrite (proj2 (contains_spec (Mk l f) x) (or_intror Hcv)) in Hc|].
    assert (asc (-1) (join l1 x l2)) as Haj by (apply join_asc; (done || lia)).
    pose proof (join_covered (-1) l1 x l2) as Hj.
    assert (Forall (λ r, r.2 ≤ MAX_VARINT) (join l1 x l2)) as Hbj.
    { apply (covered_bound (-1)); [done|]. intros y. rewrite Hj by done. intros [Hy|Hy]; [|lia]. by apply (covered_bound (-1) _ Ha). }
    destruct (record_merges l1 x l2 f) as [[Hlen ->]|(Hlen & Hjeq & ->)]; [done..| |].
    + eexists. split; [reflexivity|]. split; [split; cbn [ranges]; [done|lia|done]|]. cbn [ranges floor].
      split; [|split; [done|split; [lia|split; [done|split; [intros y; by rewrite Hj by done|by left]]]]]. intros y. rewrite !contains_spec. cbn [ranges]. rewrite Hj by done. unfold below_floor. cbn [floor]. naive_solver.
    + rewrite Hjeq in *. unfold evict. cbn [ranges floor]. destruct (Nat.ltb_spec (length (l1 ++ l2)) 32) as [Hlt|Hge]; cbn [mbind res_bind].
      * cbn [ranges]. assert (insert_range x x (l1 ++ l2) = l1 ++ (x, x) :: l2) as ->.
        { apply insert_range_split; [|done]. apply asc_app in Ha as [Ha1 _]. apply asc_lower in Ha1. rewrite Forall_forall in *.
          intros r Hr. specialize (Ha1 r Hr). specialize (H1 r Hr). simpl in *. lia. }
        exists (Mk (l1 ++ (x, x) :: l2) f). split; [done|]. cbn [ranges floor]. split; [split; cbn [ranges]; [done|lia|done]|].
        split; [|split; [done|split; [lia|split; [done|split; [intros y; by rewrite Hj by done|by left]]]]]. intros y. rewrite !contains_spec. cbn [ranges]. rewrite Hj by done. unfold below_floor. cbn [floor]. naive_solver.
      * destruct (l1 ++ l2) as [|[ds de] l] eqn:Hl; [cbn in Hge; lia|].
        destruct (evict_insert l1 l2 x ds de l) as (l1' & l2' & Hins & -> & Ha'); [done..|].
        assert (∀ y, covered (l1' ++ (x, x) :: l2') y ↔ covered (l1' ++ l2') y ∨ y = x) as Hcy
          by (intros y; rewrite !ranges_covered_app, covered_cons; naive_solver lia).
        exists (Mk (l1' ++ (x, x) :: l2') (Some (match f with Some f0 => f0 `max` de | None => de end))). cbn in Hn, Hge. split.
        { pose proof (idx_middle (E:=Error) [] (l1' ++ l2') (ds, de) 0 eq_refl) as Hi. cbn [app] in Hi. rewrite Hi. cbn [mbind res_bind].
          pose proof (remove_middle [] (l1' ++ l2') (ds, de) 0 eq_refl) as Hr. cbn [app] in Hr. rewrite Hr. cbn [mbind res_bind ranges].
          by rewrite Hins. }
        split; [split; cbn [ranges]; [done| |]|].
        -- rewrite length_app in Hn |- *. cbn. lia.
        -- apply (covered_bound (-1)); [done|]. intros y. rewrite Hcy. intros [Hy|Hy]; [|lia].
           apply (covered_bound (-1) _ Ha); [done|]. by right.
        -- unfold below_floor. cbn [floor ranges]. split; [|split; [|split; [rewrite !length_app; cbn [length]; rewrite ?length_app; lia|split; [intros; cbn [length] in *; lia|split]]]].
           ++ intros y. rewrite !contains_spec. unfold below_floor. cbn [floor ranges]. rewrite Hcy, covered_cons.
              assert (ds ≤ y ≤ de → (y <=? match f with Some f0 => f0 `max` de | None => de end) = true) by (destruct f; lia).
              assert (match f with Some f0 => y <=? f0 | None => false end = true → (y <=? match f with Some f0 => f0 `max` de | None => de end) = true) by (destruct f; [lia|done]).
              naive_solver.
           ++ intros y. destruct f; [lia|done].
           ++ intros y. rewrite Hcy, covered_cons. naive_solver.
           ++ intros y [= <-]. assert (covered ((ds, de) :: l1' ++ l2') de) by (apply covered_cons; left; inversion Ha; lia).
              destruct f as [f|]; [|by right]. destruct (Z.max_spec f de) as [[_ ->]|[_ ->]]; [by right|by left].
Qed.

(** The tracker after the packets [pns] have arrived. *)
Fixpoint record_all (pns : list Z) (s : t) : result t :=
  match pns with [] => Ok s | pn :: pns => s ← record pn s; record_all pns s end.

Lemma tracker_new_wf : wf new.
Proof. split; cbn; [constructor|lia|constructor]. Qed.

Lemma record_all_ok pns s : wf s → Forall (λ pn, 0 ≤ pn ≤ MAX_VARINT) pns →
  ∃ s', record_all pns s = Ok s' ∧ wf s' ∧
    (∀ y, contains s' y = true ↔ contains s y = true ∨ y ∈ pns ∨ below_floor s' y = true) ∧
    (∀ y, below_floor s y = true → below_floor s' y = true) ∧
    ((length (ranges s) + length pns ≤ 32)%nat → floor s' = floor s) ∧
    (∀ y, covered (ranges s') y ∨ floor s' = Some y → covered (ranges s) y ∨ floor s = Some y ∨ y ∈ pns).
Proof.
  intros Hw Hp. revert s Hw. induction Hp as [|pn pns Hpn Hp IH]; intros s Hw.
  - exists s. split; [done|]. split; [done|]. split; [|split; [done|split; [done|naive_solver]]]. intros y. split; [by left|].
    intros [?|[Hy|?]]; [done|by apply not_elem_of_nil in Hy|]. apply contains_spec. by left.
  - destruct (record_ok s pn Hw Hpn) as (s1 & Hr & Hw1 & Hc1 & Hm1 & Hl1 & Hf1 & Hcv1 & Hfl1).
    destruct (IH s1 Hw1) as (s2 & Hr2 & Hw2 & Hc2 & Hm2 & Hf2 & Hcv2). exists s2. cbn [record_all]. rewrite Hr. cbn [mbind res_bind].
    split; [done|]. split; [done|]. split; [|split; [|split]].
    + intros y. rewrite Hc2, Hc1, elem_of_cons. specialize (Hm2 y). naive_solver.
    + auto.
    + intros Hlen. cbn [length] in Hlen. rewrite Hf2, Hf1 by lia. done.
    + intros y Hy. specialize (Hcv2 y Hy). specialize (Hcv1 y). specialize (Hfl1 y). rewrite elem_of_cons. naive_solver.
Qed.

(** Whatever packet numbers arrive, in whatever order, recording them never
    panics and keeps at most 32 ascending ranges that neither overlap nor touch;
    every recorded number is recognised as a duplicate from then on, and a number
    that was not recorded is taken for one only at or below the floor, a recorded
    number, which stays unset as long as at most 32 packets were recorded. *)
Theorem pn_duplicates_recognised pns :
  Forall (λ pn, 0 ≤ pn ≤ MAX_VARINT) pns →
  ∃ s, record_all pns new = Ok s ∧ asc (-1) (ranges s) ∧ (length (ranges s) ≤ 32)%nat ∧
    (∀ pn, contains s pn = true ↔ pn ∈ pns ∨ below_floor s pn = true) ∧
    (∀ f, floor s = Some f → f ∈ pns) ∧
    ((length pns ≤ 32)%nat → floor s = None).
Proof.
  intros Hp. destruct (record_all_ok pns new tracker_new_wf Hp) as (s & Hr & Hw & Hc & _ & Hf & Hcv). exists s.
  split; [done|]. split; [apply Hw|]. split; [apply Hw|]. split; [|split; [|intros; apply Hf; cbn; lia]].
  - intros pn. rewrite Hc. cbn. naive_solver.
  - intros f Hfl. destruct (Hcv f (or_intror Hfl)) as [H|[H|H]]; [by apply covered_nil in H|done|done].
Qed.

End PnTracker.
