(* ===== verification/CryptoBuf.v ===== *)
(** * Reassembly of CRYPTO frames: [CryptoReassemblyBuf] of [src/connection/recv.rs]

    The handshake bytes of one encryption level arrive in CRYPTO frames, in any
    order; the buffer keeps those from the delivery frontier on and the ranges of
    them that have arrived, at most 16. *)
From S2P Require Import Prelude Errors Buf.

Module CryptoReassemblyBuf.

Record t := Mk { buf : list Z; delivered : Z; ranges : list (Z * Z) }.
Global Instance eta_reassembly : Eta t := λ b, Mk (buf b) (delivered b) (ranges b).

Definition new (N : nat) : t := Mk (replicate N 0) 0 [].

(** The scan of [merge_range]: [before] are the ranges skipped, so [i] is their
    number; an absorbed range is removed. *)
Fixpoint absorb (new_start new_end : Z) (before rest : list (Z * Z)) : list (Z * Z) * (Z * Z) * list (Z * Z) :=
  match rest with
  | [] => (before, (new_start, new_end), [])
  | (s, e) :: rest' =>
      if new_end <? s then (before, (new_start, new_end), rest)
      else if e <? new_start then absorb new_start new_end (before ++ [(s, e)]) rest'
      else absorb (Z.min new_start s) (Z.max new_end e) before rest'
  end.

Definition merge_range (start end_ : Z) (l : list (Z * Z)) : list (Z * Z) :=
  let '(before, r, after) := absorb start end_ [] l in
  if (length (before ++ after) <? 16)%nat then before ++ r :: after else before ++ after.

Definition contiguous_len (b : t) : Z :=
  match ranges b with (0, end_) :: _ => end_ | _ => 0 end.

Definition contiguous_data (b : t) : result (list Z) := slice (buf b) 0 (contiguous_len b).

(** The ranges after the shift. *)
Fixpoint shift_ranges (n : Z) (l : list (Z * Z)) : list (Z * Z) :=
  match l with
  | [] => []
  | (s, e) :: l =>
      if e <=? n then shift_ranges n l
      else if s <? n then (0, e - n) :: shift_ranges n l
      else (s - n, e - n) :: shift_ranges n l
  end.

Section buffer.
Context `{Platform}.

Definition insert (offset : Z) (data : list Z) : M Error t unit :=
  if len data =? 0 then mret tt else
  b ← get;
  end_ ← lift (uadd 64 offset (len data));
  if end_ <=? delivered b then mret tt else
  data_offset ← (if offset <? delivered b then
                   let skip := as_usize (delivered b - offset) in
                   rest ← lift (slice_from data skip);
                   mret (rest, delivered b)
                 else mret (data, offset));
  let '(data, offset) := data_offset in
  rel ← lift (usub offset (delivered b));
  let rel_start := as_usize rel in
  rel_end ← lift (usize_add rel_start (len data));
  if len (buf b) <? rel_end then throw (Transport TransportError.CryptoBufferExceeded) else
  mem ← lift (copy_at (buf b) rel_start rel_end data);
  modify (λ b, b <| buf := mem |> <| ranges := merge_range rel_start rel_end (ranges b) |>).

Definition advance (n : Z) : M Error t unit :=
  if n =? 0 then mret tt else
  b ← get;
  d ← lift (uadd 64 (delivered b) n);
  _ ← modify (λ b, b <| delivered := d |>);
  mem ← lift (copy_within (buf b) n (len (buf b)) 0);
  tail ← lift (usub (len mem) n);
  mem ← lift (copy_at mem tail (len mem) (replicate (Z.to_nat n) 0));
  modify (λ b, b <| buf := mem |> <| ranges := shift_ranges n (ranges b) |>).

End buffer.

(** ** Ranges *)

Create Rewrite HintDb inside.

(** Ascending, above [lo], with a gap between any two. *)
Inductive sep : Z → list (Z * Z) → Prop :=
| sep_nil lo : sep lo []
| sep_cons lo s e l : lo < s → s < e → sep e l → sep lo ((s, e) :: l).

Definition inside (l : list (Z * Z)) (x : Z) : Prop := Exists (λ r, r.1 ≤ x < r.2) l.

Lemma inside_app l1 l2 x : inside (l1 ++ l2) x ↔ inside l1 x ∨ inside l2 x.
Proof. apply Exists_app. Qed.
Lemma inside_cons s e l x : inside ((s, e) :: l) x ↔ s ≤ x < e ∨ inside l x.
Proof. unfold inside. by rewrite Exists_cons. Qed.
Lemma inside_nil x : inside [] x ↔ False.
Proof. unfold inside. by rewrite Exists_nil. Qed.
#[local] Hint Rewrite inside_app inside_cons inside_nil : inside.

Lemma sep_weaken lo lo' l : sep lo l → lo' ≤ lo → sep lo' l.
Proof. intros Ha Hl. inversion Ha; subst; constructor; [lia|done..]. Qed.
(** Where a list of ranges ends. *)
Definition upper (lo : Z) (l : list (Z * Z)) : Z := default lo (snd <$> last l).

Lemma upper_cons lo s e l : upper lo ((s, e) :: l) = upper e l.
Proof. unfold upper. destruct l as [|r l]; [done|]. rewrite last_cons_cons. by destruct (last_is_Some (r :: l)) as [_ [x ->]]. Qed.
Lemma upper_snoc lo l s e : upper lo (l ++ [(s, e)]) = e.
Proof. unfold upper. by rewrite last_snoc. Qed.
Lemma sep_app lo l1 l2 : sep lo (l1 ++ l2) ↔ sep lo l1 ∧ sep (upper lo l1) l2.
Proof.
  revert lo. induction l1 as [|[s e] l1 IH]; intros lo; cbn [app].
  - split; [intros Hs; split; [constructor|exact Hs]|by intros [_ Hs]].
  - rewrite upper_cons. split.
    + intros Hs. inversion_clear Hs as [|? ? ? ? H1 H2 H3]. apply IH in H3 as [H3 H4]. split; [by constructor|done].
    + intros [H1 H2]. inversion_clear H1. constructor; [done..|]. by apply IH.
Qed.
Lemma sep_above lo l x : sep lo l → inside l x → lo < x.
Proof.
  induction 1 as [|lo s e l H1 H2 _ IH]; rewrite ?inside_nil, ?inside_cons; [done|]. intros [?|Hx]; [lia|]. specialize (IH Hx). lia.
Qed.

(** The scan keeps the order and adds exactly the new range. *)
Lemma absorb_spec lo rest : ∀ before ns ne,
  sep lo before → sep (upper lo before) rest → upper lo before < ns → ns < ne →
  let '(b, (s, e), a) := absorb ns ne before rest in
  sep lo (b ++ (s, e) :: a) ∧
  (∀ x, inside (b ++ (s, e) :: a) x ↔ inside (before ++ rest) x ∨ ns ≤ x < ne) ∧
  (∀ x, inside (b ++ a) x → inside (before ++ rest) x) ∧
  (length (b ++ a) ≤ length (before ++ rest))%nat.
Proof.
  induction rest as [|[s e] rest IH]; intros before ns ne Hb Hr Hlo Hn; cbn [absorb].
  - split; [apply sep_app; split; [done|constructor; [done..|constructor]]|]. split; [|done].
    intros x. autorewrite with inside. naive_solver.
  - inversion_clear Hr as [|? ? ? ? Hs Hse Hr']. destruct (Z.ltb_spec ne s) as [Hlt|Hge].
    + split; [|split; [|done]].
      * apply sep_app. split; [done|]. constructor; [done..|]. by constructor.
      * intros x. autorewrite with inside. naive_solver.
    + destruct (Z.ltb_spec e ns) as [Hlt2|Hge2].
      * specialize (IH (before ++ [(s, e)]) ns ne). rewrite upper_snoc, <- app_assoc in IH. cbn [app] in IH.
        apply IH; [|done..]. apply sep_app. split; [done|]. constructor; [done..|constructor].
      * specialize (IH before (ns `min` s) (ne `max` e)).
        destruct (absorb (ns `min` s) (ne `max` e) before rest) as [[b [s' e']] a].
        destruct IH as (H1 & H2 & H3 & H4); [done|apply (sep_weaken e); [done|lia]|lia|lia|].
        split; [done|]. split; [|split].
        -- intros x. rewrite H2. autorewrite with inside. destruct (decide (ns ≤ x < ne)), (decide (s ≤ x < e)); naive_solver lia.
        -- intros x Hx. apply H3 in Hx. autorewrite with inside in *. naive_solver.
        -- rewrite !length_app in *. cbn [length]. lia.
Qed.

(** Ranges that neither overlap nor adjoin. *)
Definition apart (s e : Z) (r : Z * Z) : bool := (r.2 <? s) || (e <? r.1).
(** A new range is lost when there are 16 already and it touches none of them. *)
Definition crowded (s e : Z) (l : list (Z * Z)) : bool := (16 <=? length l)%nat && forallb (apart s e) l.

Lemma sep_starts lo l r : sep lo l → r ∈ l → lo < r.1.
Proof.
  induction 1 as [|lo s e l H1 H2 _ IH]; intros Hr; [by apply not_elem_of_nil in Hr|].
  apply elem_of_cons in Hr as [->|Hr]; [done|]. specialize (IH Hr). lia.
Qed.
(** The scan removes a range exactly when the new one touches it. *)
Lemma absorb_apart lo rest : ∀ before ns ne, sep lo rest →
  let '(b, _, a) := absorb ns ne before rest in
  if forallb (apart ns ne) rest then b ++ a = before ++ rest else (length (b ++ a) < length (before ++ rest))%nat.
Proof.
  assert (∀ ns ne before rest, let '(b, _, a) := absorb ns ne before rest in (length (b ++ a) ≤ length (before ++ rest))%nat) as Hle.
  { clear. intros ns ne before rest. revert ns ne before. induction rest as [|[s e] rest IH]; intros ns ne before; cbn [absorb]; [done|].
    destruct (ne <? s); [done|]. destruct (e <? ns).
    - specialize (IH ns ne (before ++ [(s, e)])). by rewrite <- app_assoc in IH.
    - specialize (IH (ns `min` s) (ne `max` e) before). destruct (absorb _ _ _ _) as [[b r] a]. rewrite !length_app in *. cbn. lia. }
  induction rest as [|[s e] rest IH] in lo |- *; intros before ns ne Hr; cbn [absorb forallb]; [done|].
  inversion_clear Hr as [|? ? ? ? Hs Hse Hr']. unfold apart at 1. cbn [fst snd]. destruct (Z.ltb_spec ne s) as [Hlt|Hge].
  - rewrite orb_true_r. cbn [andb]. rewrite (proj2 (forallb_forall _ _)); [done|].
    intros r Hin. apply list_elem_of_In, (sep_starts _ _ _ Hr') in Hin. unfold apart. lia.
  - rewrite orb_false_r. destruct (Z.ltb_spec e ns) as [Hlt2|Hge2]; cbn [andb].
    + specialize (IH e (before ++ [(s, e)]) ns ne Hr'). by rewrite <- app_assoc in IH.
    + specialize (Hle (ns `min` s) (ne `max` e) before rest). destruct (absorb _ _ _ _) as [[b r] a]. rewrite !length_app in *. cbn. lia.
Qed.

(** Merging a range: exact unless it is crowded out. *)
Lemma merge_range_spec lo l s e : sep lo l → lo < s → s < e → (length l ≤ 16)%nat →
  sep lo (merge_range s e l) ∧
  (∀ x, inside (merge_range s e l) x ↔ inside l x ∨ crowded s e l = false ∧ s ≤ x < e) ∧
  (length (merge_range s e l) ≤ 16)%nat ∧ (length (merge_range s e l) ≤ S (length l))%nat.
Proof.
  intros Hl Hlo Hs H16. unfold merge_range. pose proof (absorb_spec lo l [] s e) as Ha. pose proof (absorb_apart lo l [] s e Hl) as Hc. cbn [app] in Ha, Hc.
  destruct (absorb s e [] l) as [[b [s' e']] a]. destruct Ha as (H1 & H2 & H3 & H4); [constructor|done..|]. unfold crowded.
  destruct (forallb (apart s e) l); [rewrite Hc|].
  - rewrite andb_true_r. destruct (Nat.ltb_spec (length l) 16) as [Hlt|Hge].
    + rewrite (proj2 (Nat.leb_gt _ _)) by done. split; [done|]. split; [intros x; rewrite H2; naive_solver|]. apply (f_equal length) in Hc. rewrite length_app in *. cbn [length]. lia.
    + rewrite (proj2 (Nat.leb_le _ _)) by done. split; [done|]. split; [naive_solver|]. lia.
  - rewrite andb_false_r. rewrite (proj2 (Nat.ltb_lt _ _)) by lia. split; [done|]. split; [intros x; rewrite H2; naive_solver|]. rewrite length_app in *. cbn [length]. lia.
Qed.

(** Shifting the ranges by [n]. *)
Lemma shift_ranges_spec n lo l : sep lo l → -1 ≤ lo → 0 < n →
  sep (Z.max (-1) (lo - n)) (shift_ranges n l) ∧
  (∀ x, 0 ≤ x → inside (shift_ranges n l) x ↔ inside l (x + n)) ∧
  (length (shift_ranges n l) ≤ length l)%nat.
Proof.
  intros Hl. induction Hl as [|lo s e l H1 H2 Hl IH]; intros Hlo Hn; cbn [shift_ranges].
  - split; [constructor|]. split; [|done]. intros x _. by rewrite !inside_nil.
  - destruct IH as (I1 & I2 & I3); [lia|done|]. destruct (Z.leb_spec e n); [|destruct (Z.ltb_spec s n)].
    + split; [apply (sep_weaken _ _ _ I1); lia|]. split; [|cbn [length]; lia].
      intros x Hx. rewrite inside_cons, I2 by done. naive_solver lia.
    + split; [constructor; [lia|lia|apply (sep_weaken _ _ _ I1); lia]|]. split; [|cbn [length]; lia].
      intros x Hx. rewrite !inside_cons, I2 by done. naive_solver lia.
    + split; [constructor; [lia|lia|apply (sep_weaken _ _ _ I1); lia]|]. split; [|cbn [length]; lia].
      intros x Hx. rewrite !inside_cons, I2 by done. naive_solver lia.
Qed.

(** ** The buffer against the stream *)

(** The buffer of size [N] holds bytes of the stream [stream]. *)
Record holds (stream : list Z) (N : nat) (b : t) : Prop := {
  h_len : length (buf b) = N;
  h_delivered : 0 ≤ delivered b ≤ len stream;
  h_sep : sep (-1) (ranges b);
  h_slots : (length (ranges b) ≤ 16)%nat;
  h_bytes x : inside (ranges b) x →
    x < Z.of_nat N ∧ delivered b + x < len stream ∧ buf b !! Z.to_nat x = stream !! Z.to_nat (delivered b + x)
}.

Lemma new_holds stream N : holds stream N (new N).
Proof.
  split; cbn; [apply length_replicate|lia|constructor|lia|]. intros x Hx. by apply inside_nil in Hx.
Qed.

Section stream.
Context `{Platform} (stream : list Z) (N : nat).
Hypothesis Hstream : len stream < 2 ^ 31.
Hypothesis HN : Z.of_nat N < 2 ^ 31.

Definition segment (offset n : Z) : list Z := take (Z.to_nat n) (drop (Z.to_nat offset) stream).

Lemma segment_len offset n : 0 ≤ offset → 0 ≤ n → offset + n ≤ len stream → len (segment offset n) = n.
Proof. intros. unfold segment. len_lia. Qed.
Lemma segment_drop offset n k : 0 ≤ offset → 0 ≤ k ≤ n → drop (Z.to_nat k) (segment offset n) = segment (offset + k) (n - k).
Proof.
  intros. unfold segment. rewrite skipn_firstn_comm, drop_drop. f_equal; [lia|f_equal; lia].
Qed.
Lemma segment_lookup offset n i : 0 ≤ offset → 0 ≤ i < n → segment offset n !! Z.to_nat i = stream !! Z.to_nat (offset + i).
Proof. intros. unfold segment. rewrite lookup_take_lt, lookup_drop by lia. f_equal. lia. Qed.

(** Storing a segment that starts at or behind the frontier. *)
Lemma store_segment b offset n mem :
  holds stream N b → delivered b ≤ offset → 0 < n → offset + n ≤ len stream → offset - delivered b + n ≤ Z.of_nat N →
  mem = take (Z.to_nat (offset - delivered b)) (buf b) ++ segment offset n ++ drop (Z.to_nat (offset - delivered b + n)) (buf b) →
  holds stream N (Mk mem (delivered b) (merge_range (offset - delivered b) (offset - delivered b + n) (ranges b))).
Proof.
  intros Hh Ho Hn Hs Hf ->. pose proof Hh as [Hl Hd Hse H16 Hb]. set (r := offset - delivered b).
  pose proof (segment_len offset n ltac:(lia) ltac:(lia) Hs) as Hsl.
  destruct (merge_range_spec (-1) (ranges b) r (r + n)) as (M1 & M2 & M3 & M4); [done|lia|lia|done|].
  split; cbn [buf delivered ranges]; [len_lia|done|done|done|].
  intros x Hx. pose proof (sep_above _ _ _ M1 Hx) as Hx0. apply M2 in Hx.
  destruct (decide (r ≤ x < r + n)) as [Hin|Hout].
  - split; [lia|]. split; [lia|]. rewrite lookup_app_r by len_lia. rewrite lookup_app_l by len_lia.
    rewrite length_take_le by len_lia.
    replace (delivered b + x) with (delivered b + r + (x - r)) by lia.
    replace (delivered b + r) with offset by lia. rewrite <- segment_lookup with (n := n) by lia. f_equal. lia.
  - destruct Hx as [Hx|[_ ?]]; [|lia]. destruct (Hb x Hx) as (B1 & B2 & B3). split; [done|]. split; [done|]. rewrite <- B3.
    destruct (decide (x < r)).
    + rewrite lookup_app_l by len_lia. apply lookup_take_lt. lia.
    + rewrite lookup_app_r by len_lia. rewrite lookup_app_r by len_lia. rewrite lookup_drop. f_equal. len_lia.
Qed.

Definition exceeded : Error := Transport TransportError.CryptoBufferExceeded.

(** The buffer has room for a segment, and a place for its range. *)
Definition fits (b : t) (offset n : Z) : bool := offset + n <=? delivered b + Z.of_nat N.
Definition drops (b : t) (offset n : Z) : bool := crowded (Z.max offset (delivered b) - delivered b) (offset + n - delivered b) (ranges b).
Definition inserted (b : t) (offset n : Z) (b' : t) : Prop :=
  holds stream N b' ∧ delivered b' = delivered b ∧
  (∀ x, 0 ≤ x → inside (ranges b') x ↔ inside (ranges b) x ∨ fits b offset n && negb (drops b offset n) = true ∧ offset ≤ delivered b + x < offset + n) ∧
  (length (ranges b') ≤ S (length (ranges b)))%nat.

(** Inserting a segment of the stream. *)
Lemma insert_ok b offset n : holds stream N b → 0 ≤ offset → 0 ≤ n → offset + n ≤ len stream →
  ∃ r b', insert offset (segment offset n) b = (r, b') ∧ r ≠ Panic ∧ inserted b offset n b'.
Proof.
  intros Hh Ho Hn Hs. pose proof Hh as [Hl Hd Hse H16 Hb]. pose proof (segment_len offset n Ho Hn Hs) as Hsl. unfold insert. rewrite Hsl.
  assert (∀ r : result unit, r ≠ Panic → n = 0 ∨ offset + n ≤ delivered b ∨ fits b offset n = false → ∃ r' b', (r, b) = (r', b') ∧ r' ≠ Panic ∧ inserted b offset n b') as Hnop.
  { intros r Hr Hz. exists r, b. split; [done|]. split; [done|]. split; [done|]. split; [done|]. split; [|lia]. intros x Hx. split; [by left|].
    intros [?|[Hf ?]]; [done|]. destruct Hz as [?|[?|Hz]]; [lia..|by rewrite Hz in Hf]. }
  destruct (Z.eqb_spec n 0) as [Hz|Hz]; [apply Hnop; auto|].
  rewrite uadd_ok by lia. erewrite M_step_ok by reflexivity. erewrite M_step_lift by reflexivity.
  destruct (Z.leb_spec (offset + n) (delivered b)); [apply Hnop; auto|].
  set (o := Z.max offset (delivered b)). set (m := offset + n - o).
  assert ((if offset <? delivered b then rest ← lift (slice_from (segment offset n) (as_usize (delivered b - offset))); mret (rest, delivered b)
           else mret (segment offset n, offset)) b = ((Ok (segment o m, o) : result _), b)) as Htrim.
  { unfold o, m. destruct (Z.ltb_spec offset (delivered b)).
    - rewrite Z.max_r by lia. rewrite as_usize_u31 by lia. rewrite slice_from_eq by lia. erewrite M_step_lift by reflexivity.
      rewrite segment_drop by lia. unfold mret, M_ret. do 4 f_equal; lia.
    - rewrite Z.max_l by lia. unfold mret, M_ret. do 4 f_equal; lia. }
  erewrite M_step_ok by exact Htrim. cbv beta iota. rewrite usub_ok by lia. erewrite M_step_lift by reflexivity.
  assert (len (segment o m) = m) as Hsm by (apply segment_len; lia). rewrite Hsm.
  rewrite as_usize_u31 by lia. rewrite usize_add_ok by (pose proof usize_bits_ge; assert (2 ^ 32 ≤ 2 ^ usize_bits) by (apply Z.pow_le_mono_r; lia); lia).
  erewrite M_step_lift by reflexivity. rewrite Hl.
  destruct (Z.ltb_spec (Z.of_nat N) (o - delivered b + m)) as [Hover|Hfit]; [apply Hnop; [done|right; right; unfold fits; lia]|].
  rewrite copy_at_eq by lia. erewrite M_step_lift by reflexivity.
  pose proof (store_segment b o m _ Hh ltac:(lia) ltac:(lia) ltac:(lia) ltac:(lia) eq_refl) as Hst.
  destruct (merge_range_spec (-1) (ranges b) (o - delivered b) (o - delivered b + m)) as (M1 & M2 & M3 & M4); [done|lia|lia|done|].
  eexists _, _. split; [reflexivity|]. split; [done|]. split; [exact Hst|]. cbn. split; [done|]. split; [|done].
  intros x Hx. rewrite M2. unfold fits, drops. fold o. replace (o - delivered b + m) with (offset + n - delivered b) by lia.
  rewrite (proj2 (Z.leb_le _ _)) by lia. cbn [andb]. rewrite negb_true_iff. naive_solver lia.
Qed.

(** What is contiguous. *)
Lemma contiguous_spec b : holds stream N b →
  0 ≤ contiguous_len b ∧ delivered b + contiguous_len b ≤ len stream ∧ contiguous_len b ≤ Z.of_nat N ∧
  contiguous_data b = Ok (segment (delivered b) (contiguous_len b)) ∧
  (∀ x, 0 ≤ x → x < contiguous_len b ↔ ∀ y, 0 ≤ y ≤ x → inside (ranges b) y).
Proof.
  intros [Hl Hd Hse _ Hb].
  assert (0 ≤ contiguous_len b ∧ (∀ x, 0 ≤ x → x < contiguous_len b ↔ ∀ y, 0 ≤ y ≤ x → inside (ranges b) y)) as [Hc Hx].
  { unfold contiguous_len. clear Hb. destruct (ranges b) as [|[s e] l]; inversion Hse as [|? ? ? ? H1 H2 H3]; subst.
    - split; [done|]. intros x Hx. split; [lia|]. intros Hy. specialize (Hy x ltac:(lia)). by apply inside_nil in Hy.
    - assert (match s with 0 => e | _ => 0 end = if s =? 0 then e else 0) as -> by (by destruct s).
      destruct (Z.eqb_spec s 0) as [->|Hs].
      + split; [lia|]. intros x Hx. split.
        * intros Hxe y Hy. apply inside_cons. left. lia.
        * intros Hy. destruct (decide (x < e)); [done|]. specialize (Hy e ltac:(lia)). apply inside_cons in Hy as [?|Hy]; [lia|].
          apply (sep_above e) in Hy; [lia|done].
      + split; [done|]. intros x Hx. split; [lia|]. intros Hy. specialize (Hy 0 ltac:(lia)). apply inside_cons in Hy as [?|Hy]; [lia|].
        apply (sep_above e) in Hy; [lia|done]. }
  assert (∀ x, 0 ≤ x < contiguous_len b → x < Z.of_nat N ∧ delivered b + x < len stream ∧ buf b !! Z.to_nat x = stream !! Z.to_nat (delivered b + x)) as Hin.
  { intros x Hxc. apply Hb. apply (proj1 (Hx x ltac:(lia)) ltac:(lia)). lia. }
  assert (contiguous_len b ≤ Z.of_nat N ∧ delivered b + contiguous_len b ≤ len stream) as [HcN HcS].
  { destruct (decide (contiguous_len b = 0)); [lia|]. specialize (Hin (contiguous_len b - 1) ltac:(lia)). lia. }
  split; [done|]. split; [done|]. split; [done|]. split; [|done].
  unfold contiguous_data. rewrite slice_eq by lia. f_equal. change (Z.to_nat 0) with O. rewrite drop_0, Z.sub_0_r.
  apply list_eq. intros i. destruct (decide (Z.of_nat i < contiguous_len b)) as [Hi|Hi].
  - rewrite lookup_take_lt by lia. pose proof (Hin (Z.of_nat i) ltac:(lia)) as (_ & _ & Hi'). rewrite Nat2Z.id in Hi'. rewrite Hi'.
    rewrite <- segment_lookup with (n := contiguous_len b) by lia. by rewrite Nat2Z.id.
  - rewrite lookup_take_ge by lia. symmetry. apply lookup_ge_None. pose proof (segment_len (delivered b) (contiguous_len b)). lia.
Qed.

(** Delivering contiguous bytes. *)
Lemma advance_ok b n : holds stream N b → 0 ≤ n ≤ contiguous_len b →
  ∃ b', advance n b = (Ok tt, b') ∧ holds stream N b' ∧ delivered b' = delivered b + n ∧
    (∀ x, 0 ≤ x → inside (ranges b') x ↔ inside (ranges b) (x + n)) ∧
    (length (ranges b') ≤ length (ranges b))%nat.
Proof.
  intros Hh Hn. destruct (contiguous_spec b Hh) as (C1 & C2 & C3 & _ & _). pose proof Hh as [Hl Hd Hse H16 Hb]. unfold advance.
  destruct (Z.eqb_spec n 0) as [->|Hz].
  { exists b. split; [done|]. split; [done|]. split; [lia|]. split; [|done]. intros x Hx. by rewrite Z.add_0_r. }
  erewrite M_step_ok by reflexivity. rewrite uadd_ok by lia. erewrite M_step_lift by reflexivity.
  erewrite M_step_ok by reflexivity. rewrite Buf.copy_within_front by lia. erewrite M_step_lift by reflexivity.
  assert (len (drop (Z.to_nat n) (buf b) ++ drop (length (buf b) - Z.to_nat n) (buf b)) = Z.of_nat N) as Hml by len_lia.
  rewrite Hml, usub_ok by lia. erewrite M_step_lift by reflexivity.
  rewrite copy_at_eq by (rewrite ?Hml; len_lia). erewrite M_step_lift by reflexivity.
  destruct (shift_ranges_spec n (-1) (ranges b)) as (S1 & S2 & S3); [done|lia|lia|].
  eexists. split; [reflexivity|]. cbn. split; [split; cbn|split; [done|split; [done|done]]].
  - len_lia.
  - lia.
  - apply (sep_weaken _ _ _ S1). lia.
  - lia.
  - intros x Hx. pose proof (sep_above _ _ _ S1 Hx) as Hx0. apply S2 in Hx; [|lia]. destruct (Hb _ Hx) as (B1 & B2 & B3).
    split; [lia|]. split; [lia|]. rewrite lookup_app_l by len_lia. rewrite lookup_take_lt by lia. rewrite lookup_app_l by len_lia.
    rewrite lookup_drop. replace (delivered b + n + x) with (delivered b + (x + n)) by lia. rewrite <- B3. f_equal. lia.
Qed.

(** ** A level's CRYPTO stream *)

(** Segments of the stream arrive, in any order, overlapping or repeated; the
    handshake takes contiguous bytes. *)
Inductive event := Arrives (offset n : Z) | Taken (n : Z).

Definition event_ok (ev : event) : Prop :=
  match ev with Arrives offset n => 0 ≤ offset ∧ 0 ≤ n ∧ offset + n ≤ len stream | Taken n => 0 ≤ n end.
Definition is_arrival (ev : event) : bool := match ev with Arrives _ _ => true | Taken _ => false end.

(** The buffer, the bytes taken so far, the segments kept and those lost: a segment is
    kept if it fits behind the frontier and is not crowded out. *)
Definition run_state : Type := t * list Z * list (Z * Z) * list (Z * Z).
Definition step (ev : event) (st : run_state) : result run_state :=
  let '(b, out, got, lost) := st in
  match ev with
  | Arrives offset n =>
      let r := (offset, offset + n) in
      let got' := if fits b offset n && negb (drops b offset n) then r :: got else got in
      let lost' := if fits b offset n && drops b offset n then r :: lost else lost in
      match insert offset (segment offset n) b with
      | (Panic, _) => Panic
      | (_, b) => Ok (b, out, got', lost')
      end
  | Taken n =>
      let n := Z.min n (contiguous_len b) in
      d ← contiguous_data b;
      d ← slice d 0 n;
      match advance n b with (Ok _, b) => Ok (b, out ++ d, got, lost) | (Err e, _) => Err e | (Panic, _) => Panic end
  end.
Fixpoint steps (evs : list event) (st : run_state) : result run_state :=
  match evs with [] => Ok st | ev :: evs => st ← step ev st; steps evs st end.

Definition tracks (k : nat) (st : run_state) : Prop :=
  let '(b, out, got, lost) := st in
  holds stream N b ∧ out = segment 0 (delivered b) ∧
  (∀ x, 0 ≤ x → inside (ranges b) x ↔ inside got (delivered b + x)) ∧
  (length (ranges b) ≤ k)%nat ∧ ((k ≤ 16)%nat → lost = []).

Lemma drops_early b offset n : (length (ranges b) < 16)%nat → drops b offset n = false.
Proof. intros Hl. unfold drops, crowded. by rewrite (proj2 (Nat.leb_gt _ _)). Qed.
Lemma step_tracks ev k st : event_ok ev → tracks k st →
  ∃ st', step ev st = Ok st' ∧ tracks (if is_arrival ev then S k else k) st'.
Proof.
  destruct st as [[[b out] got] lost]. intros Hev (Hh & Hout & Hexact & Hlen & Hlost). destruct ev as [offset n|n]; cbn [step is_arrival event_ok] in *.
  - destruct Hev as (Ho & Hn & Hs). destruct (insert_ok b offset n Hh Ho Hn Hs) as (r & b' & -> & Hr & Hh' & Hd & I1 & I2).
    eexists. split; [destruct r; [reflexivity..|done]|]. unfold tracks. rewrite Hd. split; [done|]. split; [done|]. split; [|split; [lia|]].
    + intros x Hx. rewrite (I1 x Hx), (Hexact x Hx). destruct (fits b offset n && negb (drops b offset n)); [rewrite inside_cons|]; naive_solver lia.
    + intros Hk. rewrite drops_early, andb_false_r by lia. apply Hlost. lia.
  - destruct (contiguous_spec b Hh) as (C1 & C2 & C3 & -> & _). cbn [mbind res_bind]. set (m := Z.min n (contiguous_len b)).
    pose proof (segment_len (delivered b) (contiguous_len b) ltac:(pose proof (h_delivered _ _ _ Hh); lia) C1 C2) as Hsl.
    rewrite slice_eq by lia. cbn [mbind res_bind].
    destruct (advance_ok b m Hh) as (b' & -> & Hh' & Hd & A1 & A2); [lia|]. eexists. split; [reflexivity|].
    split; [done|]. rewrite Hd. split; [|split; [|split; [lia|done]]].
    + subst out. unfold segment. change (Z.to_nat 0) with O. rewrite !drop_0, Z.sub_0_r, take_take.
      rewrite (Nat.min_l (Z.to_nat m)) by lia. pose proof (h_delivered _ _ _ Hh). rewrite Z2Nat.inj_add by lia. by rewrite take_take_drop.
    + intros x Hx. rewrite (A1 x Hx), Hexact by lia. by replace (delivered b + (x + m)) with (delivered b + m + x) by lia.
Qed.
Lemma steps_tracks evs : Forall event_ok evs → ∀ k st, tracks k st →
  ∃ st', steps evs st = Ok st' ∧ tracks (k + length (List.filter is_arrival evs)) st'.
Proof.
  induction 1 as [|ev evs Hev Hevs IH]; intros k st Hst; cbn [steps].
  - exists st. cbn. by rewrite Nat.add_0_r.
  - destruct (step_tracks ev k st Hev Hst) as (st1 & -> & Hst1). cbn [mbind res_bind].
    destruct (IH _ _ Hst1) as (st2 & -> & Hst2). exists st2. split; [done|]. cbn [List.filter].
    destruct (is_arrival ev); cbn [length]; [|done]. by replace (k + S (length (List.filter is_arrival evs)))%nat with (S k + length (List.filter is_arrival evs))%nat by lia.
Qed.

(** C15: CRYPTO frames that carry segments of one stream, any number of them, in any
    order, overlapping, repeated and interleaved with deliveries, are reassembled
    exactly.  Nothing panics; the bytes handed over so far are a prefix of the stream and
    the bytes ready continue it; and the bytes ready reach exactly as far as the
    frames kept leave no gap.  A frame is kept unless it ends behind the buffer, or
    there are 16 separate ranges already and it touches none of them; of the first 16
    frames none is lost in this way. *)
Theorem crypto_reassembly_exact evs : Forall event_ok evs →
  ∃ b out got lost ready, steps evs (new N, [], [], []) = Ok (b, out, got, lost) ∧
    out = take (Z.to_nat (delivered b)) stream ∧
    contiguous_data b = Ok ready ∧ out ++ ready = take (length (out ++ ready)) stream ∧
    (∀ x, delivered b ≤ x → x < delivered b + len ready ↔ ∀ y, delivered b ≤ y ≤ x → inside got y) ∧
    ((length (List.filter is_arrival evs) ≤ 16)%nat → lost = []).
Proof.
  intros Hevs. destruct (steps_tracks evs Hevs 0 (new N, [], [], [])) as ([[[b out] got] lost] & Hr & Hh & Hout & Hs & Hk & Hlost).
  { split; [apply new_holds|]. cbn. split; [done|]. split; [intros x _; by rewrite !inside_nil|]. split; [lia|done]. }
  destruct (contiguous_spec b Hh) as (C1 & C2 & C3 & C4 & C5). pose proof (h_delivered _ _ _ Hh) as Hd.
  pose proof (segment_len (delivered b) (contiguous_len b) ltac:(lia) C1 C2) as Hsl.
  exists b, out, got, lost, (segment (delivered b) (contiguous_len b)). split; [done|].
  assert (out = take (Z.to_nat (delivered b)) stream) as Hout' by (rewrite Hout; unfold segment; by rewrite drop_0).
  split; [done|]. split; [done|]. split; [|split; [|done]].
  - rewrite length_app, Hout'. unfold segment. rewrite take_take_drop, !length_take, length_drop.
    f_equal. lia.
  - intros x Hx. rewrite Hsl. specialize (C5 (x - delivered b) ltac:(lia)).
    split.
    + intros Hlt y Hy. replace y with (delivered b + (y - delivered b)) by lia. apply Hs; [lia|]. apply (proj1 C5 ltac:(lia)). lia.
    + intros Hy. enough (x - delivered b < contiguous_len b) by lia. apply C5. intros z Hz. apply Hs; [lia|]. apply Hy. lia.
Qed.

End stream.

Lemma crypto_reassembly_exact_witness :
  let stream := [1; 2; 3; 4; 5] in let evs := [Arrives 3 2; Arrives 0 2; Taken 1; Arrives 1 3] in
  ∃ b out got lost ready, steps (H := platform64) stream 8 evs (new 8, [], [], []) = Ok (b, out, got, lost) ∧
    out = take (Z.to_nat (delivered b)) stream ∧
    contiguous_data b = Ok ready ∧ out ++ ready = take (length (out ++ ready)) stream ∧
    (∀ x, delivered b ≤ x → x < delivered b + len ready ↔ ∀ y, delivered b ≤ y ≤ x → inside got y) ∧
    ((length (List.filter is_arrival evs) ≤ 16)%nat → lost = []).
Proof.
  apply (@crypto_reassembly_exact platform64 [1; 2; 3; 4; 5] 8); [done|done|].
  repeat constructor; vm_compute; congruence.
Defined.
End CryptoReassemblyBuf.
