(* ===== verification/QuicKeys.v ===== *)
(** * Packet protection keys: [src/connection/keys.rs], [DirectionalKeys] of
      [src/crypto/mod.rs] and their derivation in [src/crypto/key_schedule.rs]

    The keys of a QUIC connection by level and direction, and the key update of
    RFC 9001 section 6. *)
From stdpp Require Import strings relations.
From S2P Require Import Prelude Errors Recovery TlsMessages Crypto TlsHandshake.

(** ** Keys of one direction *)
Module DirectionalKeys.
Import KeySchedule.

(** An AEAD and a header protection are their keys. *)
Record t := Mk { aead : list Z; header_protection : list Z; iv : list Z }.

(** XOR of the packet number into the last 8 bytes of the IV. *)
Definition nonce (k : t) (packet_number : Z) : list Z :=
  take 4 (iv k) ++ zip_with Z.lxor (drop 4 (iv k)) (be_bytes 8 packet_number).

Section derive.
Context `{Primitives}.

(** [Aes128GcmProvider::aead], [::header_protection]. *)
Definition aes_aead (key : list Z) : result (list Z) := if len key =? 16 then Ok key else Err Crypto.
Definition aes_header_protection (key : list Z) : result (list Z) := if len key =? 16 then Ok key else Err Crypto.

(** [derive_directional_keys_for] with the two constructors of the provider. *)
Definition derive_directional_keys_for (provider_aead provider_hp : list Z → result (list Z)) (secret : list Z)
    (suite : CipherSuite.t) : result t :=
  ks ← derive_packet_keys secret (CipherSuite.key_len suite) 12 (CipherSuite.hp_key_len suite);
  let '(key_buf, iv, hp_buf) := ks in
  aead ← provider_aead key_buf;
  hp ← provider_hp hp_buf;
  Ok (Mk aead hp iv).

(** For a provider whose AEAD has keys of [KEY_LEN] bytes. *)
Definition derive_directional_keys (KEY_LEN : Z) (provider_aead provider_hp : list Z → result (list Z)) (secret : list Z)
    : result t :=
  suite ← (if KEY_LEN =? 16 then Ok CipherSuite.TlsAes128GcmSha256
           else if KEY_LEN =? 32 then Ok CipherSuite.TlsChacha20Poly1305Sha256 else Err Crypto);
  derive_directional_keys_for provider_aead provider_hp secret suite.

End derive.
End DirectionalKeys.

(** ** Key update state *)
Module KeyUpdateState.

Record t := Mk {
  key_phase : Z;
  send_secret : list Z;
  recv_secret : list Z;
  secret_len : Z;
  send_hp_key : list Z;
  recv_hp_key : list Z;
  hp_key_len : Z;
  key_len : Z;
  prev_recv_key : option DirectionalKeys.t;
  update_confirmed : bool;
  packets_encrypted : Z;
  packets_decrypted : Z
}.
Global Instance eta_key_update : Eta t := λ s,
  Mk (key_phase s) (send_secret s) (recv_secret s) (secret_len s) (send_hp_key s) (recv_hp_key s) (hp_key_len s)
     (key_len s) (prev_recv_key s) (update_confirmed s) (packets_encrypted s) (packets_decrypted s).

Definition new : t :=
  Mk 0 (replicate 48 0) (replicate 48 0) 0 (replicate 32 0) (replicate 32 0) 0 0 None true 0 0.

End KeyUpdateState.

(** ** All keys of a connection *)
Module ConnectionKeys.
Import KeySchedule.

Definition AEAD_CONFIDENTIALITY_LIMIT : Z := 2 ^ 23.

Record t := Mk {
  initial_send : option DirectionalKeys.t;
  initial_recv : option DirectionalKeys.t;
  handshake_send : option DirectionalKeys.t;
  handshake_recv : option DirectionalKeys.t;
  app_send : option DirectionalKeys.t;
  app_recv : option DirectionalKeys.t;
  key_update : KeyUpdateState.t
}.
Global Instance eta_connection_keys : Eta t := λ k,
  Mk (initial_send k) (initial_recv k) (handshake_send k) (handshake_recv k) (app_send k) (app_recv k) (key_update k).

Definition new : t := Mk None None None None None None KeyUpdateState.new.

Definition is_some {A} (o : option A) : bool := match o with Some _ => true | None => false end.

Definition send_keys (level : Level.t) (k : t) : option DirectionalKeys.t :=
  match level with Level.Initial => None | Level.Handshake => handshake_send k | Level.Application => app_send k end.
Definition recv_keys (level : Level.t) (k : t) : option DirectionalKeys.t :=
  match level with Level.Initial => None | Level.Handshake => handshake_recv k | Level.Application => app_recv k end.
Definition has_send_keys (level : Level.t) (k : t) : bool :=
  match level with Level.Initial => is_some (initial_send k) | _ => is_some (send_keys level k) end.
Definition has_recv_keys (level : Level.t) (k : t) : bool :=
  match level with Level.Initial => is_some (initial_recv k) | _ => is_some (recv_keys level k) end.

Definition drop_initial (k : t) : t := k <| initial_send := None |> <| initial_recv := None |>.
Definition drop_handshake (k : t) : t := k <| handshake_send := None |> <| handshake_recv := None |>.

Definition key_phase (k : t) : Z := KeyUpdateState.key_phase (key_update k).
Definition prev_recv_keys (k : t) : option DirectionalKeys.t := KeyUpdateState.prev_recv_key (key_update k).

Definition can_initiate_key_update (k : t) : bool :=
  is_some (app_send k) && is_some (app_recv k) && KeyUpdateState.update_confirmed (key_update k)
  && (0 <? KeyUpdateState.secret_len (key_update k)).
Definition needs_key_update (k : t) : bool :=
  can_initiate_key_update k &&
  ((AEAD_CONFIDENTIALITY_LIMIT <=? KeyUpdateState.packets_encrypted (key_update k))
   || (AEAD_CONFIDENTIALITY_LIMIT <=? KeyUpdateState.packets_decrypted (key_update k))).

(** A change of [self.key_update]. *)
Definition on_update (f : KeyUpdateState.t → KeyUpdateState.t) : M Error t unit :=
  modify (λ k, k <| key_update := f (key_update k) |>).

Section keys.
Context `{Primitives}.

Definition derive_initial (dcid : list Z) (is_client : bool) : M Error t unit :=
  let '(r, (client_secret, server_secret)) := derive_initial_secrets dcid 32 (replicate 32 0, replicate 32 0) in
  _ ← lift r;
  client_keys ← lift (DirectionalKeys.derive_directional_keys 16 DirectionalKeys.aes_aead DirectionalKeys.aes_header_protection client_secret);
  server_keys ← lift (DirectionalKeys.derive_directional_keys 16 DirectionalKeys.aes_aead DirectionalKeys.aes_header_protection server_secret);
  if is_client then
    modify (λ k, k <| initial_send := Some client_keys |> <| initial_recv := Some server_keys |>)
  else
    modify (λ k, k <| initial_send := Some server_keys |> <| initial_recv := Some client_keys |>).

(** [install_derived], with the constructors of [AnySuiteProvider]. *)
Definition install_derived (derived : DerivedKeys) : M Error t unit :=
  let suite := keys_suite derived in
  send_secret ← lift (slice (send_secret derived) 0 (secret_len derived));
  sk ← lift (DirectionalKeys.derive_directional_keys_for Aead.aead HeaderProtection.header_protection send_secret suite);
  recv_secret ← lift (slice (recv_secret derived) 0 (secret_len derived));
  rk ← lift (DirectionalKeys.derive_directional_keys_for Aead.aead HeaderProtection.header_protection recv_secret suite);
  match level derived with
  | Level.Handshake => modify (λ k, k <| handshake_send := Some sk |> <| handshake_recv := Some rk |>)
  | Level.Application =>
      _ ← modify (λ k, k <| app_send := Some sk |> <| app_recv := Some rk |>);
      k ← get;
      s ← lift (copy_at (KeyUpdateState.send_secret (key_update k)) 0 (secret_len derived) send_secret);
      r ← lift (copy_at (KeyUpdateState.recv_secret (key_update k)) 0 (secret_len derived) recv_secret);
      _ ← on_update (λ u, u <| KeyUpdateState.send_secret := s |> <| KeyUpdateState.recv_secret := r |>
                            <| KeyUpdateState.secret_len := secret_len derived |>
                            <| KeyUpdateState.key_len := CipherSuite.key_len suite |>
                            <| KeyUpdateState.key_phase := 0 |> <| KeyUpdateState.update_confirmed := true |>);
      let n := CipherSuite.hp_key_len suite in
      send_hp ← lift (hkdf_expand_label send_secret (bytes "quic hp") [] n);
      send_hp ← lift (copy_at (replicate 32 0) 0 n send_hp);
      recv_hp ← lift (hkdf_expand_label recv_secret (bytes "quic hp") [] n);
      recv_hp ← lift (copy_at (replicate 32 0) 0 n recv_hp);
      on_update (λ u, u <| KeyUpdateState.send_hp_key := send_hp |> <| KeyUpdateState.recv_hp_key := recv_hp |>
                        <| KeyUpdateState.hp_key_len := n |>)
  | Level.Initial => mret tt
  end.

Definition derive_key_update_keys (k : t) (secret hp_key : list Z) : result DirectionalKeys.t :=
  key_buf ← hkdf_expand_label secret (bytes "quic key") [] (KeyUpdateState.key_len (key_update k));
  iv ← hkdf_expand_label secret (bytes "quic iv") [] 12;
  aead ← Aead.aead key_buf;
  hp ← HeaderProtection.header_protection hp_key;
  Ok (DirectionalKeys.Mk aead hp iv).

(** The next secret of a direction. *)
Definition next_secret (k : t) (secret : list Z) : result (list Z) :=
  let secret_len := KeyUpdateState.secret_len (key_update k) in
  current ← slice secret 0 secret_len;
  derive_next_application_secret current secret_len.

(** Installing the next generation: what [perform_key_update] and
    [confirm_peer_key_update] do alike. *)
Definition rotate (new_send_keys new_recv_keys : DirectionalKeys.t) (new_send_secret new_recv_secret : list Z)
    (confirmed : bool) (decrypted : Z) : M Error t unit :=
  k ← get;
  let u := key_update k in
  let secret_len := KeyUpdateState.secret_len u in
  _ ← on_update (λ u, u <| KeyUpdateState.prev_recv_key := app_recv k |>);
  _ ← modify (λ k, k <| app_send := Some new_send_keys |> <| app_recv := Some new_recv_keys |>);
  s ← lift (copy_at (KeyUpdateState.send_secret u) 0 secret_len new_send_secret);
  r ← lift (copy_at (KeyUpdateState.recv_secret u) 0 secret_len new_recv_secret);
  on_update (λ u, u <| KeyUpdateState.send_secret := s |> <| KeyUpdateState.recv_secret := r |>
                    <| KeyUpdateState.key_phase := Z.lxor (KeyUpdateState.key_phase u) 1 |>
                    <| KeyUpdateState.update_confirmed := confirmed |>
                    <| KeyUpdateState.packets_encrypted := 0 |> <| KeyUpdateState.packets_decrypted := decrypted |>).

Definition perform_key_update : M Error t unit :=
  k ← get;
  let u := key_update k in
  if negb (can_initiate_key_update k) then throw (Transport TransportError.KeyUpdateError) else
  new_send_secret ← lift (next_secret k (KeyUpdateState.send_secret u));
  new_recv_secret ← lift (next_secret k (KeyUpdateState.recv_secret u));
  send_hp ← lift (slice (KeyUpdateState.send_hp_key u) 0 (KeyUpdateState.hp_key_len u));
  new_send_keys ← lift (derive_key_update_keys k new_send_secret send_hp);
  recv_hp ← lift (slice (KeyUpdateState.recv_hp_key u) 0 (KeyUpdateState.hp_key_len u));
  new_recv_keys ← lift (derive_key_update_keys k new_recv_secret recv_hp);
  rotate new_send_keys new_recv_keys new_send_secret new_recv_secret false 0.

Definition derive_next_recv_keys (k : t) : result DirectionalKeys.t :=
  let u := key_update k in
  if KeyUpdateState.secret_len u =? 0 then Err Crypto else
  new_recv_secret ← next_secret k (KeyUpdateState.recv_secret u);
  recv_hp ← slice (KeyUpdateState.recv_hp_key u) 0 (KeyUpdateState.hp_key_len u);
  derive_key_update_keys k new_recv_secret recv_hp.

Definition confirm_peer_key_update (new_recv_keys : DirectionalKeys.t) : M Error t unit :=
  k ← get;
  let u := key_update k in
  new_send_secret ← lift (next_secret k (KeyUpdateState.send_secret u));
  new_recv_secret ← lift (next_secret k (KeyUpdateState.recv_secret u));
  send_hp ← lift (slice (KeyUpdateState.send_hp_key u) 0 (KeyUpdateState.hp_key_len u));
  new_send_keys ← lift (derive_key_update_keys k new_send_secret send_hp);
  rotate new_send_keys new_recv_keys new_send_secret new_recv_secret true 1.

(** The choice of keys for a short packet whose key phase bit is [phase]; [opens_with]
    tells whether the AEAD opens it under given keys.  Whether the keys were updated. *)
Definition choose_keys (phase : Z) (opens_with : DirectionalKeys.t → bool) : M Error t bool :=
  k ← get;
  if phase =? key_phase k then
    recv ← lift (ok_or Crypto (recv_keys Level.Application k));
    if opens_with recv then
      d ← lift (uadd 64 (KeyUpdateState.packets_decrypted (key_update k)) 1);
      _ ← on_update (λ u, u <| KeyUpdateState.packets_decrypted := d |> <| KeyUpdateState.update_confirmed := true |>);
      mret false
    else
      match prev_recv_keys k with
      | Some prev => if opens_with prev then mret false else throw Crypto
      | None => throw Crypto
      end
  else
    next ← lift (derive_next_recv_keys k);
    if opens_with next then _ ← confirm_peer_key_update next; mret true else throw Crypto.

End keys.
End ConnectionKeys.

(** ** Generations of application keys *)

Section generations.
Import KeySchedule.
Context `{PrimitiveLaws}.
Import ConnectionKeys.

(** The secret after [g] updates. *)
Definition next_of (s : list Z) : list Z :=
  match derive_next_application_secret s 32 with Ok n => n | _ => s end.
Definition gen (s : list Z) (g : nat) : list Z := Nat.iter g next_of s.

Lemma next_of_ok s : len s = 32 → derive_next_application_secret s 32 = Ok (next_of s) ∧ len (next_of s) = 32.
Proof.
  intros Hs. unfold next_of, derive_next_application_secret.
  destruct (expand_label_ok s (bytes "quic ku") [] 32) as (n & -> & Hn); [done|lia|vm_compute; congruence..|]. done.
Qed.
Lemma gen_len s g : len s = 32 → len (gen s g) = 32.
Proof. intros Hs. induction g as [|g IH]; [done|]. by apply next_of_ok. Qed.

(** [k] are the keys of the secret [s] with the header protection key [hp]. *)
Definition keys_of (suite : CipherSuite.t) (hp s : list Z) (k : DirectionalKeys.t) : Prop :=
  hkdf_expand_label s (bytes "quic key") [] (CipherSuite.key_len suite) = Ok (DirectionalKeys.aead k) ∧
  hkdf_expand_label s (bytes "quic iv") [] 12 = Ok (DirectionalKeys.iv k) ∧
  DirectionalKeys.header_protection k = hp.

Lemma keys_of_unique suite hp s k k' : keys_of suite hp s k → keys_of suite hp s k' → k = k'.
Proof. destruct k as [a h i], k' as [a' h' i']. unfold keys_of. cbn. intros (E1 & E2 & ->) (E3 & E4 & ->). congruence. Qed.

(** The application keys of an endpoint at generation [g]; [S] and [R] are the
    first secrets of the two directions, [hpS] and [hpR] their header protection
    keys. *)
Record at_gen (suite : CipherSuite.t) (S R hpS hpR : list Z) (g : nat) (k : t) : Prop := {
  ag_secret_len : KeyUpdateState.secret_len (key_update k) = 32;
  ag_key_len : KeyUpdateState.key_len (key_update k) = CipherSuite.key_len suite;
  ag_hp_len : KeyUpdateState.hp_key_len (key_update k) = CipherSuite.hp_key_len suite;
  ag_send_secret : KeyUpdateState.send_secret (key_update k) = gen S g ++ replicate 16 0;
  ag_recv_secret : KeyUpdateState.recv_secret (key_update k) = gen R g ++ replicate 16 0;
  ag_send_hp : slice (E:=Error) (KeyUpdateState.send_hp_key (key_update k)) 0 (CipherSuite.hp_key_len suite) = Ok hpS;
  ag_recv_hp : slice (E:=Error) (KeyUpdateState.recv_hp_key (key_update k)) 0 (CipherSuite.hp_key_len suite) = Ok hpR;
  ag_send : ∃ ks, app_send k = Some ks ∧ keys_of suite hpS (gen S g) ks;
  ag_recv : ∃ kr, app_recv k = Some kr ∧ keys_of suite hpR (gen R g) kr;
  ag_phase : key_phase k = Z.of_nat g `mod` 2;
  ag_prev : match g with O => prev_recv_keys k = None | Datatypes.S g' => ∃ kp, prev_recv_keys k = Some kp ∧ keys_of suite hpR (gen R g') kp end
}.

Lemma slice_front {A} (l l' : list A) n : n = len l → slice (E:=Error) (l ++ l') 0 n = Ok l.
Proof. intros ->. rewrite slice_eq by len_lia. by rewrite Z.sub_0_r, Nat2Z.id, drop_0, take_app_length. Qed.
Lemma copy_front {A} (l l' src : list A) n : n = len l → n = len src → copy_at (E:=Error) (l ++ l') 0 n src = Ok (src ++ l').
Proof.
  intros -> Hs. rewrite copy_at_eq by len_lia. change (Z.to_nat 0) with O. by rewrite take_0, Nat2Z.id, drop_app_length.
Qed.

Section endpoint.
Context (suite : CipherSuite.t) (S R hpS hpR : list Z).
Hypothesis HS : len S = 32.
Hypothesis HR : len R = 32.

Lemma suite_lens : (CipherSuite.key_len suite = 16 ∨ CipherSuite.key_len suite = 32) ∧ CipherSuite.hp_key_len suite = CipherSuite.key_len suite.
Proof. destruct suite; cbn; auto. Qed.

Lemma next_secret_ok k s0 g : KeyUpdateState.secret_len (key_update k) = 32 → len s0 = 32 →
  next_secret k (gen s0 g ++ replicate 16 0) = Ok (gen s0 (Datatypes.S g)) ∧ len (gen s0 (Datatypes.S g)) = 32.
Proof.
  intros Hl Hs. unfold next_secret. rewrite Hl. pose proof (gen_len s0 g Hs) as Hg. rewrite slice_front by done. cbn [mbind res_bind].
  by apply next_of_ok.
Qed.

Lemma derive_keys_ok k s hp : len s = 32 → len hp = CipherSuite.hp_key_len suite →
  KeyUpdateState.key_len (key_update k) = CipherSuite.key_len suite →
  ∃ ks, derive_key_update_keys k s hp = Ok ks ∧ keys_of suite hp s ks.
Proof.
  intros Hs Hh Hk. destruct suite_lens as [Hkl Hhl]. unfold derive_key_update_keys. rewrite Hk.
  destruct (expand_label_ok s (bytes "quic key") [] (CipherSuite.key_len suite)) as (kb & Ek & Lk); [done|lia|vm_compute; congruence..|].
  destruct (expand_label_ok s (bytes "quic iv") [] 12) as (iv & Ei & Li); [done|lia|vm_compute; congruence..|].
  rewrite Ek, Ei. cbn [mbind res_bind]. unfold Aead.aead, HeaderProtection.header_protection.
  rewrite !(proj2 (orb_true_iff _ _)) by (rewrite !Z.eqb_eq; lia). cbn [mbind res_bind]. eexists. split; [done|]. done.
Qed.

Lemma derive_next_recv_ok g k : at_gen suite S R hpS hpR g k →
  ∃ kr, derive_next_recv_keys k = Ok kr ∧ keys_of suite hpR (gen R (Datatypes.S g)) kr.
Proof.
  intros []. unfold derive_next_recv_keys. rewrite ag_secret_len0, ag_recv_secret0. cbn [Z.eqb].
  destruct (next_secret_ok k R g ag_secret_len0 HR) as [-> Hl]. cbn [mbind res_bind]. rewrite ag_hp_len0, ag_recv_hp0. cbn [mbind res_bind].
  apply derive_keys_ok; [done| |done]. apply slice_ok_inv in ag_recv_hp0 as (_ & _ & ->). lia.
Qed.

(** Installing the next generation. *)
Lemma rotate_ok g k ks kr confirmed n : at_gen suite S R hpS hpR g k →
  keys_of suite hpS (gen S (Datatypes.S g)) ks → keys_of suite hpR (gen R (Datatypes.S g)) kr →
  ∃ k', rotate ks kr (gen S (Datatypes.S g)) (gen R (Datatypes.S g)) confirmed n k = (Ok tt, k') ∧
    at_gen suite S R hpS hpR (Datatypes.S g) k' ∧ KeyUpdateState.update_confirmed (key_update k') = confirmed.
Proof.
  intros Hat Hks Hkr. destruct Hat. unfold rotate. pose proof (gen_len S g HS) as L1. pose proof (gen_len R g HR) as L2.
  pose proof (gen_len S (Datatypes.S g) HS) as L3. pose proof (gen_len R (Datatypes.S g) HR) as L4.
  erewrite M_step_ok by reflexivity. erewrite M_step_ok by reflexivity. erewrite M_step_ok by reflexivity.
  rewrite ag_secret_len0, ag_send_secret0, ag_recv_secret0. rewrite !copy_front by lia.
  erewrite M_step_lift by reflexivity. erewrite M_step_lift by reflexivity. eexists. split; [reflexivity|]. split; [|done].
  split; cbn; try done.
  - eauto.
  - eauto.
  - change (Z.lxor (key_phase k) 1 = Z.of_nat (Datatypes.S g) `mod` 2). rewrite ag_phase0, Nat2Z.inj_succ.
    destruct (Zmod_even (Z.of_nat g)) as []. rewrite !Zmod_even, Z.even_succ, <- Z.negb_even. by destruct (Z.even (Z.of_nat g)).
Qed.

Lemma perform_key_update_ok g k : at_gen suite S R hpS hpR g k → KeyUpdateState.update_confirmed (key_update k) = true →
  ∃ k', perform_key_update k = (Ok tt, k') ∧ at_gen suite S R hpS hpR (Datatypes.S g) k' ∧
    KeyUpdateState.update_confirmed (key_update k') = false.
Proof.
  intros Hat Hc. pose proof Hat as []. destruct ag_send0 as (ks & Eks & _), ag_recv0 as (kr & Ekr & _).
  unfold perform_key_update. erewrite M_step_ok by reflexivity.
  assert (can_initiate_key_update k = true) as -> by (unfold can_initiate_key_update; by rewrite Eks, Ekr, Hc, ag_secret_len0).
  cbn [negb]. rewrite ag_send_secret0, ag_recv_secret0.
  destruct (next_secret_ok k S g ag_secret_len0 HS) as [-> L1]. erewrite M_step_lift by reflexivity.
  destruct (next_secret_ok k R g ag_secret_len0 HR) as [-> L2]. erewrite M_step_lift by reflexivity.
  rewrite ag_hp_len0, ag_send_hp0, ag_recv_hp0. erewrite M_step_lift by reflexivity.
  destruct (derive_keys_ok k (gen S (Datatypes.S g)) hpS) as (ks' & -> & Hks'); [done|apply slice_ok_inv in ag_send_hp0 as (_ & _ & ->); lia|done|].
  erewrite M_step_lift by reflexivity. erewrite M_step_lift by reflexivity.
  destruct (derive_keys_ok k (gen R (Datatypes.S g)) hpR) as (kr' & -> & Hkr'); [done|apply slice_ok_inv in ag_recv_hp0 as (_ & _ & ->); lia|done|].
  erewrite M_step_lift by reflexivity. by apply rotate_ok.
Qed.

Lemma confirm_ok g k kr : at_gen suite S R hpS hpR g k → keys_of suite hpR (gen R (Datatypes.S g)) kr →
  ∃ k', confirm_peer_key_update kr k = (Ok tt, k') ∧ at_gen suite S R hpS hpR (Datatypes.S g) k' ∧
    KeyUpdateState.update_confirmed (key_update k') = true.
Proof.
  intros Hat Hkr. pose proof Hat as []. unfold confirm_peer_key_update. erewrite M_step_ok by reflexivity.
  rewrite ag_send_secret0, ag_recv_secret0.
  destruct (next_secret_ok k S g ag_secret_len0 HS) as [-> L1]. erewrite M_step_lift by reflexivity.
  destruct (next_secret_ok k R g ag_secret_len0 HR) as [-> L2]. erewrite M_step_lift by reflexivity.
  rewrite ag_hp_len0, ag_send_hp0. erewrite M_step_lift by reflexivity.
  destruct (derive_keys_ok k (gen S (Datatypes.S g)) hpS) as (ks' & -> & Hks'); [done|apply slice_ok_inv in ag_send_hp0 as (_ & _ & ->); lia|done|].
  erewrite M_step_lift by reflexivity. by apply rotate_ok.
Qed.

(** Installing the application secrets starts generation 0. *)
Lemma install_ok k :
  KeyUpdateState.send_secret (key_update k) = replicate 48 0 → KeyUpdateState.recv_secret (key_update k) = replicate 48 0 →
  prev_recv_keys k = None →
  hkdf_expand_label S (bytes "quic hp") [] (CipherSuite.hp_key_len suite) = Ok hpS →
  hkdf_expand_label R (bytes "quic hp") [] (CipherSuite.hp_key_len suite) = Ok hpR →
  ∃ k', install_derived (MkDerivedKeys Level.Application suite (S ++ replicate 16 0) (R ++ replicate 16 0) 32) k = (Ok tt, k') ∧
    at_gen suite S R hpS hpR 0 k' ∧ KeyUpdateState.update_confirmed (key_update k') = true.
Proof.
  intros Zs Zr Zp EhS EhR. destruct suite_lens as [Hkl Hhl].
  assert (∀ s hp, len s = 32 → hkdf_expand_label s (bytes "quic hp") [] (CipherSuite.hp_key_len suite) = Ok hp →
    len hp = CipherSuite.hp_key_len suite ∧ ∃ ks, DirectionalKeys.derive_directional_keys_for Aead.aead HeaderProtection.header_protection s suite = Ok ks ∧ keys_of suite hp s ks) as Hd.
  { intros s hp Hs Ehp.
    destruct (expand_label_ok s (bytes "quic key") [] (CipherSuite.key_len suite)) as (kb & Ek & Lk); [done|lia|vm_compute; congruence..|].
    destruct (expand_label_ok s (bytes "quic iv") [] 12) as (iv & Ei & Li); [done|lia|vm_compute; congruence..|].
    destruct (expand_label_ok s (bytes "quic hp") [] (CipherSuite.hp_key_len suite)) as (hp' & Eh & Lh); [done|lia|vm_compute; congruence..|].
    assert (hp' = hp) as -> by congruence. split; [done|].
    unfold DirectionalKeys.derive_directional_keys_for, derive_packet_keys. rewrite Ek, Ei, Eh. cbn [mbind res_bind].
    unfold Aead.aead, HeaderProtection.header_protection. rewrite !(proj2 (orb_true_iff _ _)) by (rewrite !Z.eqb_eq; lia). cbn [mbind res_bind].
    eexists. split; [done|]. done. }
  destruct (Hd S hpS HS EhS) as (LS & ks & Eks & Hks). destruct (Hd R hpR HR EhR) as (LR & kr & Ekr & Hkr).
  unfold install_derived. cbn [keys_suite send_secret recv_secret secret_len level].
  rewrite !slice_front by done. erewrite M_step_lift by reflexivity. rewrite Eks. erewrite M_step_lift by reflexivity.
  erewrite M_step_lift by reflexivity. rewrite Ekr. erewrite M_step_lift by reflexivity.
  erewrite M_step_ok by reflexivity. erewrite M_step_ok by reflexivity.
  change (replicate 48 0) with (replicate 32 0 ++ replicate 16 0) in Zs, Zr.
  change (key_update (k <| app_send := Some ks |> <| app_recv := Some kr |>)) with (key_update k). rewrite Zs, Zr.
  rewrite !copy_front by (rewrite ?length_replicate; done). do 3 (first [erewrite M_step_lift by reflexivity|erewrite M_step_ok by reflexivity]).
  rewrite EhS, EhR. erewrite M_step_lift by reflexivity.
  assert (∀ hp, len hp = CipherSuite.hp_key_len suite → copy_at (E:=Error) (replicate 32 0) 0 (CipherSuite.hp_key_len suite) hp = Ok (hp ++ drop (Z.to_nat (CipherSuite.hp_key_len suite)) (replicate 32 0))) as Hcp.
  { intros hp Hl. rewrite copy_at_eq by (rewrite ?length_replicate; lia). by change (Z.to_nat 0) with O. }
  rewrite (Hcp hpS) by done. do 2 (erewrite M_step_lift by reflexivity). rewrite (Hcp hpR) by done. erewrite M_step_lift by reflexivity. eexists. split; [reflexivity|]. split; [|done].
  split; cbn -[replicate]; try done; try (by rewrite slice_front by done); eauto.
Qed.
End endpoint.

(** ** Two endpoints *)

(** Keys, ghost generations, confirmation is in the keys; [sent] are the generations
    of the packets each side has sent, any of which may arrive at any time. *)
Record pair := MkPair { pk_a : t; pk_b : t; pg_a : nat; pg_b : nat; sent_a : list nat; sent_b : list nat }.

Definition advanced (r : result bool) : nat := match r with Ok true => 1 | _ => 0 end.

(** An AEAD that opens a packet of generation [g] under the keys of this generation and
    no other, as far as an endpoint of generation [mine] has keys. *)
Definition ideal (suite : CipherSuite.t) (hp s : list Z) (g mine : nat) (opens_with : DirectionalKeys.t → bool) : Prop :=
  ∀ g' k, (g' ≤ Datatypes.S mine)%nat → keys_of suite hp (gen s g') k → opens_with k = true ↔ g' = g.

Lemma choose_ok suite S R hpS hpR g mine o k : len S = 32 → len R = 32 → at_gen suite S R hpS hpR mine k → ideal suite hpR R g mine o →
  ∃ r k', choose_keys (Z.of_nat g `mod` 2) o k = (r, k') ∧ at_gen suite S R hpS hpR (advanced r + mine) k' ∧
    ((r = Err Crypto ∨ r = Panic) ∧ k' = k ∨
     (r = Ok false ∧ g = mine ∨ r = Ok true ∧ g = Datatypes.S mine) ∧ KeyUpdateState.update_confirmed (key_update k') = true).
Proof.
  intros HS HR Hat Hid. unfold choose_keys. erewrite M_step_ok by reflexivity. rewrite (ag_phase _ _ _ _ _ _ _ Hat).
  destruct (Z.eqb_spec (Z.of_nat g `mod` 2) (Z.of_nat mine `mod` 2)) as [Hp|Hp].
  - destruct (ag_recv _ _ _ _ _ _ _ Hat) as (kr & Ekr & Hkr). cbn [recv_keys]. rewrite Ekr. erewrite M_step_lift by reflexivity.
    pose proof (Hid mine kr ltac:(lia) Hkr) as Ho. destruct (o kr).
    + assert (mine = g) as <- by (by apply Ho). destruct (uadd 64 _ 1) as [d|e|] eqn:Hd; [|exfalso; unfold uadd in Hd; by case_match|].
      * erewrite M_step_lift by reflexivity. eexists _, _. split; [reflexivity|]. split; [|right; split; [by left|done]]. destruct Hat. by split.
      * eexists _, _. split; [reflexivity|]. split; [done|]. left. split; [by right|done].
    + assert (∃ r : result bool, match prev_recv_keys k with Some prev => if o prev then mret false else throw Crypto | None => throw Crypto end k = (r, k) ∧ r = Err Crypto) as (r & -> & ->).
      { pose proof (ag_prev _ _ _ _ _ _ _ Hat) as Hpr. destruct mine as [|m]; [rewrite Hpr; by eexists|]. destruct Hpr as (kp & -> & Hkp).
        pose proof (Hid m kp ltac:(lia) Hkp) as Hop. destruct (o kp); [|by eexists]. assert (m = g) as -> by (by apply Hop).
        exfalso. rewrite Nat2Z.inj_succ in Hp. Z.div_mod_to_equations; lia. }
      eexists _, _. split; [reflexivity|]. split; [done|]. left. split; [by left|done].
  - destruct (derive_next_recv_ok suite S R hpS hpR HR mine k Hat) as (kr & -> & Hkr). erewrite M_step_lift by reflexivity.
    pose proof (Hid (Datatypes.S mine) kr ltac:(lia) Hkr) as Ho. destruct (o kr).
    + assert (Datatypes.S mine = g) as <- by (by apply Ho).
      destruct (confirm_ok suite S R hpS hpR HS HR mine k kr Hat Hkr) as (k' & Hc & Hat' & Hcf). erewrite M_step_ok by exact Hc.
      eexists _, _. split; [reflexivity|]. split; [done|]. right. split; [by right|done].
    + eexists _, _. split; [reflexivity|]. split; [done|]. left. split; [by left|done].
Qed.
Lemma perform_inv suite S R hpS hpR g k k' : len S = 32 → len R = 32 → at_gen suite S R hpS hpR g k → perform_key_update k = (Ok tt, k') →
  KeyUpdateState.update_confirmed (key_update k) = true ∧ at_gen suite S R hpS hpR (Datatypes.S g) k' ∧
  KeyUpdateState.update_confirmed (key_update k') = false.
Proof.
  intros HS HR Hat Hp. destruct (KeyUpdateState.update_confirmed (key_update k)) eqn:Hc.
  - destruct (perform_key_update_ok suite S R hpS hpR HS HR g k Hat Hc) as (k2 & E & ? & ?). rewrite E in Hp. by simplify_eq.
  - exfalso. revert Hp. unfold perform_key_update. erewrite M_step_ok by reflexivity. unfold can_initiate_key_update.
    by rewrite Hc, andb_false_r.
Qed.

Section agreement.
Context (suite : CipherSuite.t) (SA SB hpA hpB : list Z).
Hypothesis HSA : len SA = 32.
Hypothesis HSB : len SB = 32.

Inductive pair_step : pair → pair → Prop :=
| A_updates a b ga gb sa sb a' : perform_key_update a = (Ok tt, a') →
    pair_step (MkPair a b ga gb sa sb) (MkPair a' b (Datatypes.S ga) gb sa sb)
| B_updates a b ga gb sa sb b' : perform_key_update b = (Ok tt, b') →
    pair_step (MkPair a b ga gb sa sb) (MkPair a b' ga (Datatypes.S gb) sa sb)
| A_sends a b ga gb sa sb : pair_step (MkPair a b ga gb sa sb) (MkPair a b ga gb (ga :: sa) sb)
| B_sends a b ga gb sa sb : pair_step (MkPair a b ga gb sa sb) (MkPair a b ga gb sa (gb :: sb))
| A_receives a b ga gb sa sb g o r a' : g ∈ sb → ideal suite hpB SB g ga o → choose_keys (Z.of_nat g `mod` 2) o a = (r, a') →
    pair_step (MkPair a b ga gb sa sb) (MkPair a' b (advanced r + ga) gb sa sb)
| B_receives a b ga gb sa sb g o r b' : g ∈ sa → ideal suite hpA SA g gb o → choose_keys (Z.of_nat g `mod` 2) o b = (r, b') →
    pair_step (MkPair a b ga gb sa sb) (MkPair a b' ga (advanced r + gb) sa sb).

Record in_step (p : pair) : Prop := {
  is_a : at_gen suite SA SB hpA hpB (pg_a p) (pk_a p);
  is_b : at_gen suite SB SA hpB hpA (pg_b p) (pk_b p);
  is_ab : (pg_a p ≤ Datatypes.S (pg_b p))%nat;
  is_ba : (pg_b p ≤ Datatypes.S (pg_a p))%nat;
  is_ca : KeyUpdateState.update_confirmed (key_update (pk_a p)) = true → (pg_a p ≤ pg_b p)%nat;
  is_cb : KeyUpdateState.update_confirmed (key_update (pk_b p)) = true → (pg_b p ≤ pg_a p)%nat;
  is_sa : Forall (λ g, (g ≤ pg_a p)%nat) (sent_a p);
  is_sb : Forall (λ g, (g ≤ pg_b p)%nat) (sent_b p)
}.

Lemma pair_step_in_step p q : pair_step p q → in_step p → in_step q.
Proof.
  assert (∀ n m l, (n ≤ m)%nat → Forall (λ g, (g ≤ n)%nat) l → Forall (λ g, (g ≤ m)%nat) l) as Hmono
    by (intros n m l Hle Hl; eapply Forall_impl; [exact Hl|]; simpl; lia).
  destruct 1 as [a b ga gb sa sb a' Hp|a b ga gb sa sb b' Hp| | |a b ga gb sa sb g o r a' Hg Ho Hr|a b ga gb sa sb g o r b' Hg Ho Hr]; intros []; cbn in *.
  - apply (perform_inv suite SA SB hpA hpB ga) in Hp as (Hc & Hat & Hf); [|done..]. specialize (is_ca0 Hc).
    split; cbn; [done|done|lia|lia|by rewrite Hf|intros; lia|by eapply Hmono; [|done]; lia|done].
  - apply (perform_inv suite SB SA hpB hpA gb) in Hp as (Hc & Hat & Hf); [|done..]. specialize (is_cb0 Hc).
    split; cbn; [done|done|lia|lia|intros; lia|by rewrite Hf|done|by eapply Hmono; [|done]; lia].
  - split; cbn; try done. by constructor.
  - split; cbn; try done. by constructor.
  - destruct (choose_ok suite SA SB hpA hpB g ga o a HSA HSB is_a0 Ho) as (r' & a2 & E & Hat & Hcase). rewrite E in Hr. injection Hr as -> ->.
    rewrite Forall_forall in is_sb0. specialize (is_sb0 g Hg) as Hgb.
    destruct Hcase as [([-> | ->] & ->)|[[[-> ->]|[-> ->]] Hcf]]; split; cbn in *; try done; try lia; try (by rewrite Forall_forall).
    all: eapply Hmono; [|done]; lia.
  - destruct (choose_ok suite SB SA hpB hpA g gb o b HSB HSA is_b0 Ho) as (r' & b2 & E & Hat & Hcase). rewrite E in Hr. injection Hr as -> ->.
    rewrite Forall_forall in is_sa0. specialize (is_sa0 g Hg) as Hga.
    destruct Hcase as [([-> | ->] & ->)|[[[-> ->]|[-> ->]] Hcf]]; split; cbn in *; try done; try lia; try (by rewrite Forall_forall).
    all: eapply Hmono; [|done]; lia.
Qed.

(** What becomes of a packet the sender seals now.  A receiver of the sender's generation
    or one behind tries the sender's keys first, and takes the packet if the AEAD opens
    it under them.  A receiver one ahead still holds the sender's keys, but tries those
    of a generation nobody uses yet, and drops the packet. *)
Definition opens (sender receiver : t) (gs gr : nat) : Prop :=
  ∃ ks, app_send sender = Some ks ∧
    ((gr ≤ gs)%nat →
      (if key_phase sender =? key_phase receiver then app_recv receiver = Some ks else derive_next_recv_keys receiver = Ok ks) ∧
      ∀ o, o ks = true → uint 64 (KeyUpdateState.packets_decrypted (key_update receiver) + 1) →
        ∃ r', choose_keys (key_phase sender) o receiver = (Ok (negb (key_phase sender =? key_phase receiver)), r')) ∧
    ((gs < gr)%nat → key_phase sender ≠ key_phase receiver ∧ prev_recv_keys receiver = Some ks ∧
      ∃ next, derive_next_recv_keys receiver = Ok next ∧
        ∀ o, o next = false → choose_keys (key_phase sender) o receiver = (Err Crypto, receiver)).

Lemma at_gen_opens S R hpS hpR gs gr s r : len S = 32 → len R = 32 →
  at_gen suite S R hpS hpR gs s → at_gen suite R S hpR hpS gr r → (gs ≤ Datatypes.S gr)%nat → (gr ≤ Datatypes.S gs)%nat →
  opens s r gs gr.
Proof.
  intros HS HR Hs Hr H1 H2. pose proof (ag_send _ _ _ _ _ _ _ Hs) as (ks & Eks & Hks). exists ks. split; [done|].
  destruct (derive_next_recv_ok suite R S hpR hpS HS gr r Hr) as (kn & Ekn & Hkn).
  assert (∀ g g', (Z.of_nat g `mod` 2 =? Z.of_nat g' `mod` 2) = true ↔ Z.of_nat g `mod` 2 = Z.of_nat g' `mod` 2) as Hpar by (intros; apply Z.eqb_eq).
  unfold choose_keys. rewrite (ag_phase _ _ _ _ _ _ _ Hs). split; intros Hle.
  - assert (gs = gr ∨ gs = Datatypes.S gr) as [->| ->] by lia.
    + pose proof (ag_recv _ _ _ _ _ _ _ Hr) as (kr & Ekr & Hkr). assert (kr = ks) as -> by (by eapply keys_of_unique).
      rewrite (ag_phase _ _ _ _ _ _ _ Hr), Z.eqb_refl. split; [done|]. intros o Ho Hu.
      erewrite M_step_ok by reflexivity. rewrite (ag_phase _ _ _ _ _ _ _ Hr), Z.eqb_refl. cbn [recv_keys]. rewrite Ekr. erewrite M_step_lift by reflexivity.
      rewrite Ho, uadd_ok by (unfold uint in Hu; lia). erewrite M_step_lift by reflexivity. by eexists.
    + assert ((Z.of_nat (Datatypes.S gr) `mod` 2 =? Z.of_nat gr `mod` 2) = false) as Hne by (apply Z.eqb_neq; rewrite Nat2Z.inj_succ; Z.div_mod_to_equations; lia).
      assert (kn = ks) as -> by (by eapply keys_of_unique). rewrite (ag_phase _ _ _ _ _ _ _ Hr), Hne. split; [done|]. intros o Ho Hu.
      erewrite M_step_ok by reflexivity. rewrite (ag_phase _ _ _ _ _ _ _ Hr), Hne, Ekn. erewrite M_step_lift by reflexivity. rewrite Ho.
      destruct (confirm_ok suite R S hpR hpS HR HS gr r ks Hr Hkn) as (k' & Hc & _). erewrite M_step_ok by exact Hc. by eexists.
  - assert (gr = Datatypes.S gs) as -> by lia.
    assert (Z.of_nat gs `mod` 2 ≠ Z.of_nat (Datatypes.S gs) `mod` 2) as Hne by (rewrite Nat2Z.inj_succ; Z.div_mod_to_equations; lia).
    split; [by rewrite (ag_phase _ _ _ _ _ _ _ Hr)|].
    pose proof (ag_prev _ _ _ _ _ _ _ Hr) as (kp & Ekp & Hkp). split; [rewrite Ekp; f_equal; by eapply keys_of_unique|].
    exists kn. split; [done|]. intros o Ho. erewrite M_step_ok by reflexivity. rewrite (ag_phase _ _ _ _ _ _ _ Hr), (proj2 (Z.eqb_neq _ _)) by done.
    rewrite Ekn. erewrite M_step_lift by reflexivity. by rewrite Ho.
Qed.

(** C14: From freshly installed application secrets, under any interleaving of key
    updates by either endpoint, packets sent, and packets lost, delayed, reordered or
    repeated, with an AEAD that opens a packet under the keys it was sealed with and no
    others: the two endpoints stay within one key generation of each other.  A packet
    sealed now is opened by a receiver that has not updated before its sender, which
    follows the update if there was one; a receiver that has updated first drops it:
    it tries the keys after next, although it still holds the right ones. *)
Theorem key_update_lockstep a0 b0 a b p :
  key_update a0 = KeyUpdateState.new → key_update b0 = KeyUpdateState.new →
  hkdf_expand_label SA (bytes "quic hp") [] (CipherSuite.hp_key_len suite) = Ok hpA →
  hkdf_expand_label SB (bytes "quic hp") [] (CipherSuite.hp_key_len suite) = Ok hpB →
  install_derived (MkDerivedKeys Level.Application suite (SA ++ replicate 16 0) (SB ++ replicate 16 0) 32) a0 = (Ok tt, a) →
  install_derived (MkDerivedKeys Level.Application suite (SB ++ replicate 16 0) (SA ++ replicate 16 0) 32) b0 = (Ok tt, b) →
  rtc pair_step (MkPair a b 0 0 [] []) p →
  opens (pk_a p) (pk_b p) (pg_a p) (pg_b p) ∧ opens (pk_b p) (pk_a p) (pg_b p) (pg_a p) ∧
  (pg_a p ≤ Datatypes.S (pg_b p))%nat ∧ (pg_b p ≤ Datatypes.S (pg_a p))%nat.
Proof.
  intros Ha Hb EA EB Hia Hib Hrtc.
  destruct (install_ok suite SA SB hpA hpB HSA HSB a0) as (a' & Ea & Hga & Hca); [by rewrite Ha|by rewrite Ha|unfold prev_recv_keys; by rewrite Ha|done..|].
  destruct (install_ok suite SB SA hpB hpA HSB HSA b0) as (b' & Eb & Hgb & Hcb); [by rewrite Hb|by rewrite Hb|unfold prev_recv_keys; by rewrite Hb|done..|].
  rewrite Ea in Hia. rewrite Eb in Hib. injection Hia as ->. injection Hib as ->.
  assert (in_step p) as [].
  { revert p Hrtc. apply rtc_ind_r; [|intros x y _ Hxy Hx; by eapply pair_step_in_step].
    split; cbn; [done|done|lia|lia|lia|lia|constructor|constructor]. }
  split; [by apply (at_gen_opens SA SB hpA hpB)|]. split; [|done]. by apply (at_gen_opens SB SA hpB hpA).
Qed.
End agreement.
End generations.

(** One endpoint has updated, its peer has not. *)
Module KeyUpdateExample.
Definition secret (r : bool) : list Z := replicate 32 (if r then 1 else 2).
Definition derived (r : bool) : DerivedKeys :=
  MkDerivedKeys Level.Application CipherSuite.TlsAes128GcmSha256 (secret r ++ replicate 16 0) (secret (negb r) ++ replicate 16 0) 32.
Definition hp (r : bool) : list Z :=
  match KeySchedule.hkdf_expand_label (H := Toy.toy) (secret r) (bytes "quic hp") [] 16 with Ok x => x | _ => [] end.
Definition installed_a : ConnectionKeys.t := Eval vm_compute in
  (ConnectionKeys.install_derived (H := Toy.toy) (derived true) ConnectionKeys.new).2.
Definition installed_b : ConnectionKeys.t := Eval vm_compute in
  (ConnectionKeys.install_derived (H := Toy.toy) (derived false) ConnectionKeys.new).2.
Definition installed (r : bool) : ConnectionKeys.t := if r then installed_a else installed_b.
Definition updated : ConnectionKeys.t := Eval vm_compute in
  (ConnectionKeys.perform_key_update (H := Toy.toy) installed_a).2.

Lemma hp_eq r : KeySchedule.hkdf_expand_label (H := Toy.toy) (secret r) (bytes "quic hp") []
  (CipherSuite.hp_key_len CipherSuite.TlsAes128GcmSha256) = Ok (hp r).
Proof. destruct r; vm_compute; reflexivity. Qed.
Lemma installed_eq r : ConnectionKeys.install_derived (H := Toy.toy) (derived r) ConnectionKeys.new = (Ok tt, installed r).
Proof. destruct r; vm_compute; reflexivity. Qed.
Lemma updated_eq : ConnectionKeys.perform_key_update (H := Toy.toy) (installed true) = (Ok tt, updated).
Proof. vm_compute; reflexivity. Qed.
End KeyUpdateExample.

Lemma key_update_lockstep_witness :
  opens (C := Toy.toy) KeyUpdateExample.updated (KeyUpdateExample.installed false) 1 0 ∧
  opens (C := Toy.toy) (KeyUpdateExample.installed false) KeyUpdateExample.updated 0 1 ∧ (1 ≤ 1)%nat ∧ (0 ≤ 2)%nat.
Proof.
  apply (key_update_lockstep (C := Toy.toy) CipherSuite.TlsAes128GcmSha256 (KeyUpdateExample.secret true) (KeyUpdateExample.secret false)
    (KeyUpdateExample.hp true) (KeyUpdateExample.hp false) eq_refl eq_refl ConnectionKeys.new ConnectionKeys.new
    (KeyUpdateExample.installed true) (KeyUpdateExample.installed false)
    (MkPair KeyUpdateExample.updated (KeyUpdateExample.installed false) 1 0 [] [])); [reflexivity|reflexivity|exact (KeyUpdateExample.hp_eq true)|exact (KeyUpdateExample.hp_eq false)
    |exact (KeyUpdateExample.installed_eq true)|exact (KeyUpdateExample.installed_eq false)|].
  apply rtc_once. apply A_updates. exact KeyUpdateExample.updated_eq.
Defined.
