(* ===== verification/QuicPacket.v ===== *)
(** * Packet protection: [encrypt_and_protect] of [src/connection/transmit.rs],
      [decrypt_long_packet] and the protection of short packets of
      [src/connection/recv.rs]

    A packet is sealed with its header and packet number as associated data, then
    the low bits of the first byte and the packet number are masked with a key
    stream taken from the ciphertext. *)
From S2P Require Import Prelude Errors Varint PacketNumber PacketHeader TlsMessages Crypto QuicKeys.

Module Protection.

Section protection.
Context `{Primitives}.

(** [out[..end].split_at_mut(mid)]: a call on the second part, given the first. *)
Definition with_split {A} (mid end_ : Z) (f : list Z → M Error (list Z) A) : M Error (list Z) A := λ out,
  if decide (0 ≤ mid ≤ end_ ∧ end_ ≤ len out) then
    let '(r, area) := f (take (Z.to_nat mid) out) (take (Z.to_nat (end_ - mid)) (drop (Z.to_nat mid) out)) in
    (r, take (Z.to_nat mid) out ++ area ++ drop (Z.to_nat end_) out)
  else (Panic, out).

(** [for i in 0..pn_len { out[pn_offset + i] ^= mask[1 + i]; }], with [n] rounds left. *)
Fixpoint mask_pn (n : nat) (pn_offset i : Z) (mask : list Z) : M Error (list Z) unit :=
  match n with
  | O => mret tt
  | S n =>
      out ← get;
      b ← lift (idx out (pn_offset + i));
      m ← lift (idx mask (1 + i));
      _ ← store (pn_offset + i) (Z.lxor b m);
      mask_pn n pn_offset (i + 1) mask
  end.

(** [out[0] ^= mask[0] & bits]. *)
Definition mask_first (bits : Z) (mask : list Z) : M Error (list Z) unit :=
  out ← get;
  b ← lift (idx out 0);
  m ← lift (idx mask 0);
  store 0 (Z.lxor b (Z.land m bits)).

Definition encrypt_and_protect (pn_offset payload_start padded_frame_len pn pn_len : Z) (is_long : bool)
    (send : DirectionalKeys.t) : M Error (list Z) Z :=
  let total_pkt_len := payload_start + padded_frame_len + 16 in
  out_len ← buf_len;
  if out_len <? total_pkt_len then throw (BufferTooSmall total_pkt_len) else
  let nonce := DirectionalKeys.nonce send pn in
  ct_len ← with_split payload_start total_pkt_len
             (λ aad, Aead.seal_in_place (DirectionalKeys.aead send) nonce aad padded_frame_len);
  let sample_offset := pn_offset + 4 in
  let actual_total := payload_start + ct_len in
  if actual_total <? sample_offset + 16 then throw Crypto else
  out ← get;
  sample ← lift (slice out sample_offset (sample_offset + 16));
  mask ← lift (HeaderProtection.mask (DirectionalKeys.header_protection send) sample);
  _ ← mask_first (if is_long then 0x0f else 0x1f) mask;
  _ ← mask_pn (Z.to_nat pn_len) pn_offset 0 mask;
  mret actual_total.

(** The truncated packet number, read from [pn_len] bytes as a [u32]. *)
Fixpoint read_pn (n : nat) (pos : Z) (acc : Z) (buf : list Z) : result Z :=
  match n with
  | O => Ok acc
  | S n => b ← idx buf pos; read_pn n (pos + 1) (Z.lor (trunc 32 (Z.shiftl acc 8)) b) buf
  end.

(** Removing header protection from the packet of [total_len] bytes in [scratch]:
    the number of packet number bytes and the packet number. *)
Definition unprotect (bits total_len pn_offset largest_pn : Z) (hp : list Z) : M Error (list Z) (Z * Z) :=
  let sample_offset := pn_offset + 4 in
  if total_len <? sample_offset + 16 then throw Crypto else
  scratch ← get;
  sample ← lift (slice scratch sample_offset (sample_offset + 16));
  mask ← lift (HeaderProtection.mask hp sample);
  _ ← mask_first bits mask;
  scratch ← get;
  b ← lift (idx scratch 0);
  let pn_len := Z.land b 0x03 + 1 in
  _ ← mask_pn (Z.to_nat pn_len) pn_offset 0 mask;
  scratch ← get;
  truncated_pn ← lift (read_pn (Z.to_nat pn_len) pn_offset 0 scratch);
  pn ← lift (decode_pn truncated_pn pn_len largest_pn);
  if MAX_VARINT <? pn then throw (Transport TransportError.ProtocolViolation) else mret (pn_len, pn).

(** [scratch[..n].copy_from_slice(&pkt[..n])] after the check that it fits. *)
Definition load_packet (n : Z) (pkt_data : list Z) : M Error (list Z) unit :=
  scratch_len ← buf_len;
  if scratch_len <? n then throw (BufferTooSmall n) else
  src ← lift (slice pkt_data 0 n);
  store_slice 0 n src.

Definition decrypt_long_packet (pkt_data : list Z) (pn_offset payload_length largest_pn : Z) (recv : DirectionalKeys.t)
    : M Error (list Z) (Z * Z * Z) :=
  let total_len := pn_offset + payload_length in
  _ ← load_packet total_len pkt_data;
  r ← unprotect 0x0f total_len pn_offset largest_pn (DirectionalKeys.header_protection recv);
  let '(pn_len, pn) := r in
  let payload_offset := pn_offset + pn_len in
  encrypted_len ← lift (usub payload_length pn_len);
  let nonce := DirectionalKeys.nonce recv pn in
  pt_len ← with_split payload_offset (payload_offset + encrypted_len)
             (λ aad, Aead.open_in_place (DirectionalKeys.aead recv) nonce aad encrypted_len);
  mret (payload_offset, pt_len, pn).

(** Opening the payload of a short packet of [pkt_len] bytes with the keys [recv]. *)
Definition open_short (recv : DirectionalKeys.t) (pn payload_offset pkt_len : Z) : M Error (list Z) Z :=
  with_split payload_offset pkt_len
    (λ aad, Aead.open_in_place (DirectionalKeys.aead recv) (DirectionalKeys.nonce recv pn) aad (pkt_len - payload_offset)).

End protection.

(** ** Masking *)

Lemma mask_pn_ok bs pre post off i mask :
  len pre = off + i → 0 ≤ i → 1 + i + len bs ≤ len mask →
  mask_pn (length bs) off i mask (pre ++ bs ++ post) =
  (Ok tt, pre ++ zip_with Z.lxor bs (drop (Z.to_nat (1 + i)) mask) ++ post).
Proof.
  revert pre i. induction bs as [|b bs IH]; intros pre i Hp Hi Hm; [done|]. cbn [length mask_pn].
  erewrite M_step_ok by reflexivity. rewrite <- Hp. cbn [app].
  rewrite idx_middle by done. erewrite M_step_lift by reflexivity.
  destruct (lookup_lt_is_Some_2 mask (Z.to_nat (1 + i))) as [m Hmi]; [cbn [length] in Hm; lia|].
  rewrite (idx_ok mask (1 + i) m) by (done || lia). erewrite M_step_lift by reflexivity.
  assert (store (E:=Error) (len pre) (Z.lxor b m) (pre ++ b :: bs ++ post) = (Ok tt, (pre ++ [Z.lxor b m]) ++ bs ++ post)) as Hst.
  { unfold store. rewrite set_middle by done. by rewrite <- app_assoc. }
  erewrite M_step_ok by exact Hst. rewrite IH by len_lia. rewrite <- app_assoc. do 2 f_equal.
  rewrite (drop_S _ _ _ Hmi). replace (Z.to_nat (1 + (i + 1))) with (S (Z.to_nat (1 + i))) by lia. done.
Qed.

Lemma idx_head {A} (x : A) l : idx (E:=Error) (x :: l) 0 = Ok x.
Proof. exact (idx_middle [] l x 0 eq_refl). Qed.
Lemma mask_first_ok b l bits m mask : mask_first bits (m :: mask) (b :: l) = (Ok tt, Z.lxor b (Z.land m bits) :: l).
Proof. done. Qed.

Lemma lxor_twice a b : Z.lxor (Z.lxor a b) b = a.
Proof. by rewrite Z.lxor_assoc, Z.lxor_nilpotent, Z.lxor_0_r. Qed.
Lemma zip_lxor_twice bs ms : (length bs ≤ length ms)%nat → zip_with Z.lxor (zip_with Z.lxor bs ms) ms = bs.
Proof.
  revert ms. induction bs as [|b bs IH]; intros [|m ms] Hl; cbn in *; [done..|lia|]. rewrite lxor_twice. f_equal. apply IH. lia.
Qed.

Lemma read_pn_ok bs pre post pos acc :
  len pre = pos → bytes_ok bs → 0 ≤ acc → (acc + 1) * 256 ^ len bs ≤ 2 ^ 32 →
  read_pn (length bs) pos acc (pre ++ bs ++ post) = Ok (acc * 256 ^ len bs + be_val bs).
Proof.
  intros Hp Hb. revert pre pos acc Hp. induction Hb as [|b bs Hb Hbs IH]; intros pre pos acc Hp Ha Hacc.
  - cbn. f_equal. lia.
  - cbn [length read_pn app be_val]. rewrite idx_middle by done.
    cbn [mbind res_bind]. unfold byte_ok in Hb.
    assert (256 ^ len (b :: bs) = 256 * 256 ^ len bs) as Hpow by (cbn [length]; rewrite Nat2Z.inj_succ, Z.pow_succ_r by lia; done).
    rewrite Hpow in *. assert (0 < 256 ^ len bs) by (apply Z.pow_pos_nonneg; lia).
    assert (Z.lor (trunc 32 (Z.shiftl acc 8)) b = acc * 256 + b) as ->.
    { rewrite Z.shiftl_mul_pow2 by lia. change (2 ^ 8) with 256. rewrite trunc_small by (unfold uint; nia).
      apply (lor_disjoint_add _ _ 8); [lia|change (2 ^ 8) with 256; by rewrite Z.mod_mul|done]. }
    change (b :: bs ++ post) with ([b] ++ bs ++ post). rewrite app_assoc. rewrite IH; [f_equal; rewrite Nat2Z.inj_succ, Z.pow_succ_r by lia; ring|rewrite length_app; cbn [length]; lia|lia|nia].
Qed.

(** ** The round trip *)

Lemma with_split_ok {A} (f : list Z → M Error (list Z) A) l1 l2 l3 mid end_ r area :
  mid = len l1 → end_ = len l1 + len l2 → f l1 l2 = (r, area) → with_split mid end_ f (l1 ++ l2 ++ l3) = (r, l1 ++ area ++ l3).
Proof.
  intros -> -> Hf. unfold with_split. rewrite decide_True by len_lia. rewrite Nat2Z.id, take_app_length, drop_app_length.
  replace (Z.to_nat (len l1 + len l2 - len l1)) with (length l2) by lia. rewrite take_app_length, Hf. do 3 f_equal.
  rewrite app_assoc. replace (Z.to_nat (len l1 + len l2)) with (length (l1 ++ l2)) by len_lia. apply drop_app_length.
Qed.

Section roundtrip.
Context `{PrimitiveLaws}.

Definition keys_ok (k : DirectionalKeys.t) : Prop :=
  (len (DirectionalKeys.aead k) = 16 ∨ len (DirectionalKeys.aead k) = 32) ∧
  (len (DirectionalKeys.header_protection k) = 16 ∨ len (DirectionalKeys.header_protection k) = 32) ∧
  len (DirectionalKeys.iv k) = 12.

Lemma nonce_len k pn : keys_ok k → len (DirectionalKeys.nonce k pn) = 12.
Proof.
  intros (_ & _ & Hi). unfold DirectionalKeys.nonce. rewrite length_app, length_zip_with, length_take, length_drop, length_be_bytes. lia.
Qed.
Lemma mask_ok k sample : keys_ok k → len sample = 16 →
  ∃ m mask, HeaderProtection.mask (DirectionalKeys.header_protection k) sample = Ok (m :: mask) ∧ len mask = 4.
Proof.
  intros (_ & Hk & _) Hs. assert (∀ l : list Z, len l = 5 → ∃ m mask, Ok (E:=Error) l = Ok (m :: mask) ∧ len mask = 4) as Hl
    by (intros [|m l] Hl; cbn [length] in Hl; [lia|]; exists m, l; split; [done|lia]).
  unfold HeaderProtection.mask. destruct (Z.eqb_spec (len (DirectionalKeys.header_protection k)) 16).
  - unfold HeaderProtection.aes_mask. rewrite slice_eq by lia. cbn [mbind res_bind].
    pose proof (aes128_len (DirectionalKeys.header_protection k) (take (Z.to_nat (16 - 0)) (drop (Z.to_nat 0) sample))).
    rewrite slice_eq by lia. apply Hl. len_lia.
  - unfold HeaderProtection.chacha_mask. do 16 (destruct sample as [|? sample]; [cbn in Hs; lia|]). destruct sample; [|cbn in Hs; lia].
    cbn [mbind res_bind]. apply Hl. by apply chacha20_len.
Qed.

(** A header whose first byte announces [pn_len] packet number bytes. *)
Record packet_ok (b : Z) (hdr pnb payload : list Z) (pn pn_len : Z) : Prop := {
  po_pn_len : 1 ≤ pn_len ≤ 4;
  po_bits : Z.land b 0x03 = pn_len - 1;
  po_pnb : len pnb = pn_len;
  po_bytes : bytes_ok pnb;
  po_payload : 4 ≤ pn_len + len payload;
  po_size : len payload < 2 ^ 31
}.

(** The sealed packet. *)
Lemma protect_ok b hdr pnb payload rest pn pn_len (is_long : bool) k :
  let bits := if is_long then 0x0f else 0x1f in
  let pn_offset := 1 + len hdr in
  packet_ok b hdr pnb payload pn pn_len → keys_ok k → 16 ≤ len rest →
  ∃ m pnb' c, len pnb' = pn_len ∧ len c = len payload + 16 ∧
    let pkt := Z.lxor b (Z.land m bits) :: hdr ++ pnb' ++ c in
    encrypt_and_protect pn_offset (pn_offset + pn_len) (len payload) pn pn_len is_long k (b :: hdr ++ pnb ++ payload ++ rest) =
      (Ok (len pkt), pkt ++ drop 16 rest) ∧
    (∀ rest' largest, decode_pn (be_val pnb) pn_len largest = Ok pn → pn ≤ MAX_VARINT →
       unprotect bits (len pkt) pn_offset largest (DirectionalKeys.header_protection k) (pkt ++ rest') =
       (Ok (pn_len, pn), b :: hdr ++ pnb ++ c ++ rest')) ∧
    (∀ rest', with_split (pn_offset + pn_len) (len pkt)
       (λ aad, Aead.open_in_place (DirectionalKeys.aead k) (DirectionalKeys.nonce k pn) aad (len c)) (b :: hdr ++ pnb ++ c ++ rest') =
       (Ok (len payload), b :: hdr ++ pnb ++ payload ++ drop (length payload) c ++ rest')).
Proof.
  intros bits pn_offset [Hn Hbits Hpnb Hbytes Hpay Hsize] Hk Hrest.
  pose proof Hk as (Hka & _ & _). pose proof (nonce_len k pn Hk) as Hnon.
  set (aad := b :: hdr ++ pnb). assert (len aad = pn_offset + pn_len) as Haad by (unfold aad; len_lia).
  destruct (seal_ok (DirectionalKeys.aead k) (DirectionalKeys.nonce k pn) aad payload (take 16 rest) Hka Hnon Hsize) as (c & Lc & Hseal & Hopen); [len_lia|].
  assert (∃ skip post, c = skip ++ take 16 (drop (Z.to_nat (4 - pn_len)) c) ++ post ∧ len skip = 4 - pn_len) as (skip & post & Hc & Hskip).
  { exists (take (Z.to_nat (4 - pn_len)) c), (drop 16 (drop (Z.to_nat (4 - pn_len)) c)). rewrite !take_drop. split; [done|len_lia]. }
  set (sample := take 16 (drop (Z.to_nat (4 - pn_len)) c)) in *.
  assert (len sample = 16) as Ls by (unfold sample; len_lia).
  destruct (mask_ok k sample Hk Ls) as (m & mask & Hmask & Lm).
  set (b' := Z.lxor b (Z.land m bits)). set (pnb' := zip_with Z.lxor pnb mask).
  assert (len pnb' = pn_len) as Lp by (unfold pnb'; rewrite length_zip_with; lia).
  exists m, pnb', c. split; [done|]. split; [lia|]. fold b'. cbv zeta.
  assert (len (b' :: hdr ++ pnb' ++ c) = pn_offset + pn_len + (len payload + 16)) as Lpkt by (rewrite <- Lc; len_lia).
  rewrite Lpkt. split; [|split].
  - unfold encrypt_and_protect. erewrite M_step_ok by reflexivity.
    rewrite (proj2 (Z.ltb_ge _ _)) by len_lia.
    assert (b :: hdr ++ pnb ++ payload ++ rest = aad ++ (payload ++ take 16 rest) ++ drop 16 rest) as ->
      by (unfold aad; cbn [app]; by rewrite <- !app_assoc, take_drop).
    erewrite M_step_ok by (apply with_split_ok; [done|len_lia|exact Hseal]).
    rewrite (drop_ge (take 16 rest)) by len_lia. rewrite app_nil_r.
    rewrite (proj2 (Z.ltb_ge _ _)) by lia. erewrite M_step_ok by reflexivity.
    assert (aad ++ c ++ drop 16 rest = (aad ++ skip) ++ sample ++ (post ++ drop 16 rest)) as Hout
      by (rewrite Hc at 1; by rewrite <- !app_assoc).
    rewrite Hout. rewrite slice_middle by len_lia. rewrite <- Hout. erewrite M_step_lift by reflexivity. rewrite Hmask. erewrite M_step_lift by reflexivity.
    unfold aad. cbn [app]. erewrite M_step_ok by apply mask_first_ok. fold bits. fold b'. rewrite <- app_assoc.
    change (b' :: hdr ++ pnb ++ c ++ drop 16 rest) with ((b' :: hdr) ++ pnb ++ c ++ drop 16 rest).
    rewrite <- Hpnb, Nat2Z.id. erewrite M_step_ok by (apply mask_pn_ok; len_lia). cbn [app]. unfold mret, M_ret. f_equal.
    by rewrite <- !app_assoc.
  - intros rest' largest Hdec Hmax. unfold unprotect. rewrite (proj2 (Z.ltb_ge _ _)) by lia. erewrite M_step_ok by reflexivity.
    assert ((b' :: hdr ++ pnb' ++ c) ++ rest' = (b' :: hdr ++ pnb' ++ skip) ++ sample ++ (post ++ rest')) as ->
      by (rewrite Hc at 1; cbn [app]; by rewrite <- !app_assoc).
    rewrite slice_middle by len_lia. erewrite M_step_lift by reflexivity. rewrite Hmask. erewrite M_step_lift by reflexivity.
    cbn [app]. erewrite M_step_ok by apply mask_first_ok. unfold b'. rewrite lxor_twice. erewrite M_step_ok by reflexivity.
    rewrite idx_head. erewrite M_step_lift by reflexivity. rewrite Hbits. replace (pn_len - 1 + 1) with pn_len by lia.
    rewrite <- !app_assoc. change (b :: hdr ++ pnb' ++ ?x) with ((b :: hdr) ++ pnb' ++ x).
    replace (Z.to_nat pn_len) with (length pnb') by lia. erewrite M_step_ok by (apply mask_pn_ok; len_lia).
    change (drop (Z.to_nat (1 + 0)) (m :: mask)) with mask. assert (zip_with Z.lxor pnb' mask = pnb) as -> by (apply zip_lxor_twice; lia).
    erewrite M_step_ok by reflexivity. replace (length pnb') with (length pnb) by lia.
    rewrite read_pn_ok; [|len_lia|done|lia|]. 2: { rewrite Hpnb. assert (pn_len = 1 ∨ pn_len = 2 ∨ pn_len = 3 ∨ pn_len = 4) as [->|[->|[->| ->]]] by lia; done. }
    erewrite M_step_lift by reflexivity. rewrite Z.mul_0_l, Z.add_0_l, Hdec. erewrite M_step_lift by reflexivity.
    rewrite (proj2 (Z.ltb_ge _ _)) by lia. unfold mret, M_ret. f_equal. cbn [app]. do 3 f_equal. rewrite Hc at 1. by rewrite <- !app_assoc.
  - intros rest'. assert (b :: hdr ++ pnb ++ c ++ rest' = aad ++ c ++ rest') as -> by (unfold aad; cbn [app]; by rewrite <- app_assoc).
    erewrite with_split_ok; [|done|lia|rewrite Lc, <- (app_nil_r c) at 1; apply Hopen].
    unfold aad. cbn [app]. rewrite app_nil_r, <- !app_assoc. done.
Qed.

Lemma load_packet_ok pkt tail scratch n : n = len pkt → len pkt ≤ len scratch →
  load_packet n (pkt ++ tail) scratch = (Ok tt, pkt ++ drop (length pkt) scratch).
Proof.
  intros -> Hl. unfold load_packet. erewrite M_step_ok by reflexivity. rewrite (proj2 (Z.ltb_ge _ _)) by done.
  rewrite slice_eq by len_lia. rewrite Z.sub_0_r, Nat2Z.id, drop_0, take_app_length. erewrite M_step_lift by reflexivity.
  unfold store_slice. rewrite copy_at_eq by lia. change (Z.to_nat 0) with O. by rewrite take_0, Nat2Z.id.
Qed.

(** What a receiver does with a packet: [decrypt_long_packet], or the steps of
    [recv_short] when the current keys are the ones to use. *)
Definition open_packet (is_long : bool) (pkt : list Z) (pn_offset payload_length largest_pn : Z) (k : DirectionalKeys.t)
    : M Error (list Z) (Z * Z * Z) :=
  if is_long then decrypt_long_packet pkt pn_offset payload_length largest_pn k else
  _ ← load_packet (len pkt) pkt;
  r ← unprotect 0x1f (len pkt) pn_offset largest_pn (DirectionalKeys.header_protection k);
  pt_len ← open_short k r.2 (pn_offset + r.1) (len pkt);
  mret (pn_offset + r.1, pt_len, r.2).

(** C13: What the receiver gets out of a protected packet is what the sender put in.
    For any header, packet number, payload of at least four bytes with the packet
    number, and keys, sealing a packet and masking its header yields a packet of
    16 bytes more, whose header differs in the low bits of its first byte at most;
    a receiver with the same keys and a packet number history that decodes the number
    finds the number and the payload in its buffer. *)
Theorem packet_protection_roundtrip b hdr pnb payload rest scratch pn pn_len largest (is_long : bool) k :
  let pn_offset := 1 + len hdr in
  packet_ok b hdr pnb payload pn pn_len → keys_ok k → 16 ≤ len rest →
  decode_pn (be_val pnb) pn_len largest = Ok pn → pn ≤ MAX_VARINT →
  pn_offset + pn_len + len payload + 16 ≤ len scratch →
  ∃ m body scratch', let pkt := Z.lxor b (Z.land m (if is_long then 0x0f else 0x1f)) :: hdr ++ body in
    encrypt_and_protect pn_offset (pn_offset + pn_len) (len payload) pn pn_len is_long k (b :: hdr ++ pnb ++ payload ++ rest) =
      (Ok (len pkt), pkt ++ drop 16 rest) ∧
    len pkt = pn_offset + pn_len + len payload + 16 ∧
    open_packet is_long pkt pn_offset (pn_len + len payload + 16) largest k scratch =
      (Ok (pn_offset + pn_len, len payload, pn), scratch') ∧
    slice (E:=Error) scratch' (pn_offset + pn_len) (pn_offset + pn_len + len payload) = Ok payload.
Proof.
  cbv zeta. intros Hp Hk Hr Hdec Hmax Hscr. pose proof Hp as [Hn _ Hpnb _ _ _].
  destruct (protect_ok b hdr pnb payload rest pn pn_len is_long k Hp Hk Hr) as (m & pnb' & c & Lp & Lc & Henc & Hun & Hop).
  cbv zeta in Henc, Hun, Hop.
  set (pkt := Z.lxor b (Z.land m (if is_long then 15 else 31)) :: hdr ++ pnb' ++ c) in *.
  assert (len pkt = (1 + len hdr) + pn_len + len payload + 16) as Lpkt by (unfold pkt; len_lia).
  set (sc := drop (length pkt) scratch).
  exists m, (pnb' ++ c), (b :: hdr ++ pnb ++ payload ++ drop (length payload) c ++ sc). fold pkt.
  split; [done|]. split; [done|]. split.
  - unfold open_packet, decrypt_long_packet. replace ((1 + len hdr) + (pn_len + len payload + 16)) with (len pkt) by lia.
    pose proof (load_packet_ok pkt [] scratch (len pkt) eq_refl ltac:(lia)) as Hld. rewrite app_nil_r in Hld.
    specialize (Hun sc largest Hdec Hmax). specialize (Hop sc). replace (len c) with (len pkt - ((1 + len hdr) + pn_len)) in Hop by lia.
    destruct is_long.
    + erewrite M_step_ok by exact Hld. erewrite M_step_ok by exact Hun. cbv beta iota zeta. rewrite usub_ok by lia. erewrite M_step_lift by reflexivity.
      replace (pn_len + len payload + 16 - pn_len) with (len pkt - ((1 + len hdr) + pn_len)) by lia.
      replace ((1 + len hdr) + pn_len + (len pkt - ((1 + len hdr) + pn_len))) with (len pkt) by lia. by erewrite M_step_ok by exact Hop.
    + erewrite M_step_ok by exact Hld. erewrite M_step_ok by exact Hun. cbn [fst snd]. unfold open_short. by erewrite M_step_ok by exact Hop.
  - assert (b :: hdr ++ pnb ++ payload ++ drop (length payload) c ++ sc = (b :: hdr ++ pnb) ++ payload ++ (drop (length payload) c ++ sc)) as ->
      by (cbn [app]; by rewrite <- app_assoc).
    apply slice_middle; len_lia.
Qed.
End roundtrip.

Lemma packet_protection_roundtrip_witness :
  let k := DirectionalKeys.Mk (replicate 16 7) (replicate 16 9) (replicate 12 1) in
  ∃ m body scratch', let pkt := Z.lxor 0x41 (Z.land m 0x1f) :: [10; 11] ++ body in
    encrypt_and_protect (H := Toy.toy) 3 5 3 300 2 false k (0x41 :: [10; 11] ++ [1; 44] ++ [1; 2; 3] ++ replicate 16 0) =
      (Ok (len pkt), pkt ++ drop 16 (replicate 16 0)) ∧
    len pkt = 24 ∧
    open_packet (C := Toy.toy) false pkt 3 21 290 k (replicate 40 0) = (Ok (5, 3, 300), scratch') ∧
    slice (E:=Error) scratch' 5 8 = Ok [1; 2; 3].
Proof.
  apply (packet_protection_roundtrip (C := Toy.toy) 0x41 [10; 11] [1; 44] [1; 2; 3] (replicate 16 0) (replicate 40 0) 300 2 290 false
    (DirectionalKeys.Mk (replicate 16 7) (replicate 16 9) (replicate 12 1))).
  - split; [lia|done|done|repeat constructor; vm_compute; congruence|cbn; lia|done].
  - split; [by left|split; [by left|done]].
  - done.
  - reflexivity.
  - vm_compute. congruence.
  - vm_compute. congruence.
Defined.
End Protection.
