(* ===== verification/QuicIo.v ===== *)
(** * Stream buffers: [src/connection/io.rs], [StreamSendEntry], [StreamRecvBuf] and
      the receive side of [src/connection/mod.rs]

    The application owns the buffers and passes them to every call.  A receive buffer
    holds the bytes of one stream that have arrived in order and not been read. *)
From S2P Require Import Prelude Errors Buf.

Module QuicIo.

(** The capacities: const parameters of the connection and its buffers. *)
Class Capacities := { MAX_STREAMS : nat; STREAM_BUF : Z; SEND_QUEUE : Z }.

Record StreamSendEntry := MkEntry { e_stream_id : Z; e_offset : Z; e_data : list Z; e_len : Z; e_fin : bool }.
Global Instance eta_entry : Eta StreamSendEntry := λ e,
  MkEntry (e_stream_id e) (e_offset e) (e_data e) (e_len e) (e_fin e).

Record StreamRecvBuf := MkRecv {
  stream_id : Z; data : list Z; blen : Z; read_offset : Z; fin_received : bool; next_offset : Z }.
Global Instance eta_recv_buf : Eta StreamRecvBuf := λ b,
  MkRecv (stream_id b) (data b) (blen b) (read_offset b) (fin_received b) (next_offset b).

(** [QuicStreamIo], and [QuicStreamIoBufs] with its vectors. *)
Record t := Mk { send_queue : list StreamSendEntry; recv_bufs : list (option StreamRecvBuf) }.
Global Instance eta_quic_io : Eta t := λ io, Mk (send_queue io) (recv_bufs io).

Definition new : t := Mk [] [].

Section io.
Context `{Capacities} `{Platform}.

Definition fresh (sid : Z) : StreamRecvBuf := MkRecv sid (replicate (Z.to_nat STREAM_BUF) 0) 0 0 false 0.

Definition holds_stream (sid : Z) (slot : option StreamRecvBuf) : bool :=
  match slot with Some b => stream_id b =? sid | None => false end.
Definition is_free (slot : option StreamRecvBuf) : bool := match slot with Some _ => false | None => true end.

(** The slot of a stream: its own, else a free one, else a new one. *)
Definition target_slot (sid : Z) : M Error t (option nat) :=
  io ← get;
  match position (holds_stream sid) (recv_bufs io) with
  | Some i => mret (Some i)
  | None =>
      match position is_free (recv_bufs io) with
      | Some i => mret (Some i)
      | None =>
          if (length (recv_bufs io) <? MAX_STREAMS)%nat then
            let new_idx := length (recv_bufs io) in
            _ ← modify (λ io, io <| recv_bufs := recv_bufs io ++ [None] |>);
            mret (Some new_idx)
          else mret None
      end
  end.

(** Storing a frame in its buffer. *)
Definition store_into (offset : Z) (bytes : list Z) (fin : bool) (b : StreamRecvBuf) : result StreamRecvBuf :=
  frame_end ← uadd 64 offset (len bytes);
  if next_offset b <? offset then Ok b else
  if frame_end <=? next_offset b then Ok (if fin then b <| fin_received := true |> else b) else
  let skip := as_usize (next_offset b - offset) in
  new_data ← slice_from bytes skip;
  room ← usub STREAM_BUF (blen b);
  let copy_len := Z.min (len new_data) room in
  src ← slice new_data 0 copy_len;
  mem ← copy_at (data b) (blen b) (blen b + copy_len) src;
  next ← uadd 64 (next_offset b) copy_len;
  let b := b <| data := mem |> <| blen := blen b + copy_len |> <| next_offset := next |> in
  Ok (if fin then b <| fin_received := true |> else b).

Definition store_stream_data (sid offset : Z) (bytes : list Z) (fin : bool) : M Error t unit :=
  target_idx ← target_slot sid;
  match target_idx with
  | None => mret tt
  | Some i =>
      io ← get;
      slot ← lift (idx (recv_bufs io) (Z.of_nat i));
      let b := match slot with Some b => b | None => fresh sid end in
      b ← lift (store_into offset bytes fin b);
      modify (λ io, io <| recv_bufs := <[i := Some b]> (recv_bufs io) |>)
  end.

(** Reading from its buffer into [cap] bytes: the bytes, the FIN, and what stays in
    the slot. *)
Definition read_from (cap : Z) (b : StreamRecvBuf) : result (list Z * bool * option StreamRecvBuf) :=
  available ← usub (blen b) (read_offset b);
  if available =? 0 then
    if fin_received b then Ok ([], true, None) else Err WouldBlock
  else
    let copy_len := Z.min available cap in
    out ← slice (data b) (read_offset b) (read_offset b + copy_len);
    let b := b <| read_offset := read_offset b + copy_len |> in
    let fin := fin_received b && (blen b <=? read_offset b) in
    if fin then Ok (out, true, None)
    else if 0 <? read_offset b then
      mem ← copy_within (data b) (read_offset b) (blen b) 0;
      Ok (out, false, Some (b <| data := mem |> <| blen := blen b - read_offset b |> <| read_offset := 0 |>))
    else Ok (out, false, Some b).

(** [stream_recv] behind its check of the connection state. *)
Definition stream_recv (sid cap : Z) : M Error t (list Z * bool) :=
  io ← get;
  match position (holds_stream sid) (recv_bufs io) with
  | None => throw WouldBlock
  | Some i =>
      slot ← lift (idx (recv_bufs io) (Z.of_nat i));
      match slot with
      | None => throw WouldBlock
      | Some b =>
          r ← lift (read_from cap b);
          let '(out, fin, slot) := r in
          _ ← modify (λ io, io <| recv_bufs := <[i := slot]> (recv_bufs io) |>);
          mret (out, fin)
      end
  end.

End io.

(** ** One buffer against its stream *)

Section stream.
Context `{Capacities} `{Platform}.
Hypothesis Hbuf : 0 ≤ STREAM_BUF < 2 ^ 31.

Definition part (stream : list Z) (offset n : Z) : list Z := take (Z.to_nat n) (drop (Z.to_nat offset) stream).

Lemma part_length stream offset n : 0 ≤ offset → 0 ≤ n → offset + n ≤ len stream → len (part stream offset n) = n.
Proof. intros. unfold part. len_lia. Qed.
Lemma part_app stream a m n : 0 ≤ a → 0 ≤ m → 0 ≤ n →
  part stream a m ++ part stream (a + m) n = part stream a (m + n).
Proof.
  intros. unfold part. replace (Z.to_nat (m + n)) with (Z.to_nat m + Z.to_nat n)%nat by lia. rewrite <- take_take_drop, drop_drop.
  do 3 f_equal. lia.
Qed.
Lemma part_take stream a n k : 0 ≤ k ≤ n → take (Z.to_nat k) (part stream a n) = part stream a k.
Proof. intros. unfold part. rewrite take_take. f_equal. lia. Qed.
Lemma part_drop stream a n k : 0 ≤ a → 0 ≤ k ≤ n → drop (Z.to_nat k) (part stream a n) = part stream (a + k) (n - k).
Proof. intros. unfold part. rewrite skipn_firstn_comm, drop_drop. f_equal; [lia|f_equal; lia]. Qed.

(** [n] bytes of [stream] have been read, and the buffer holds the next ones. *)
Record tracks (stream : list Z) (n : Z) (b : StreamRecvBuf) : Prop := {
  t_cap : len (data b) = STREAM_BUF;
  t_read : read_offset b = 0;
  t_blen : 0 ≤ blen b ≤ STREAM_BUF;
  t_n : 0 ≤ n;
  t_next : next_offset b = n + blen b;
  t_inside : next_offset b ≤ len stream;
  t_bytes : take (Z.to_nat (blen b)) (data b) = part stream n (blen b);
  t_fin : len stream ≤ STREAM_BUF → fin_received b = true → next_offset b = len stream
}.

Lemma fresh_tracks stream sid : tracks stream 0 (fresh sid).
Proof. split; cbn; [rewrite length_replicate; lia|done|lia|done|done|lia|done|done]. Qed.

Definition frame_ok (stream : list Z) (offset : Z) (bytes : list Z) (fin : bool) : Prop :=
  0 ≤ offset ∧ offset + len bytes ≤ len stream ∧ bytes = part stream offset (len bytes) ∧
  (fin = true → offset + len bytes = len stream).

Lemma store_into_ok stream n b offset bytes fin : tracks stream n b → frame_ok stream offset bytes fin → len stream < 2 ^ 31 →
  ∃ b', store_into offset bytes fin b = Ok b' ∧ tracks stream n b' ∧ stream_id b' = stream_id b ∧
    (offset ≤ next_offset b → offset + len bytes - next_offset b ≤ STREAM_BUF - blen b →
       next_offset b' = Z.max (next_offset b) (offset + len bytes)).
Proof.
  intros [Hcap Hro Hbl Hn Hnext Hin Hby Hfin] (Ho & Hs & Hseg & Hfn) Hlen. unfold store_into.
  rewrite uadd_ok by lia. cbn [mbind res_bind].
  destruct (Z.ltb_spec (next_offset b) offset) as [Hgap|Hle].
  { exists b. split; [done|]. split; [by split|]. split; [done|lia]. }
  destruct (Z.leb_spec (offset + len bytes) (next_offset b)) as [Hold|Hnew].
  { eexists. split; [reflexivity|]. split; [|split; [by destruct fin|intros; destruct fin; cbn; lia]].
    destruct fin; split; cbn; try done. intros _ _. specialize (Hfn eq_refl). lia. }
  rewrite as_usize_u31 by lia. rewrite slice_from_eq by lia. cbn [mbind res_bind].
  set (k := next_offset b - offset). set (new := drop (Z.to_nat k) bytes). assert (len new = len bytes - k) as Lnew by (unfold new; len_lia).
  rewrite usub_ok by lia. cbn [mbind res_bind]. set (c := Z.min (len new) (STREAM_BUF - blen b)).
  rewrite slice_eq by lia. cbn [mbind res_bind]. change (Z.to_nat 0) with O. rewrite drop_0, Z.sub_0_r.
  assert (take (Z.to_nat c) new = part stream (next_offset b) c) as Hsrc.
  { unfold new. rewrite Hseg, part_drop by lia. rewrite part_take by lia. f_equal. lia. }
  rewrite Hsrc. assert (len (part stream (next_offset b) c) = c) as Lsrc by (apply part_length; lia).
  rewrite copy_at_eq by lia. cbn [mbind res_bind]. rewrite uadd_ok by lia. cbn [mbind res_bind].
  set (b' := b <| data := _ |> <| blen := _ |> <| next_offset := _ |>).
  assert (tracks stream n b') as Htr.
  { split; cbn; [len_lia|done|lia|done|lia|lia| |].
    - rewrite app_assoc, take_app_le by len_lia. rewrite take_ge by len_lia. rewrite Hby, Hnext. apply part_app; lia.
    - intros Hsm Hf. specialize (Hfin Hsm Hf). lia. }
  eexists. split; [reflexivity|]. split; [|split; [by destruct fin|intros; destruct fin; cbn; lia]].
  destruct fin; [|done]. destruct Htr. split; cbn in *; try done. intros Hsm _. specialize (Hfn eq_refl). lia.
Qed.

Lemma read_from_ok stream n b cap : tracks stream n b → 0 ≤ cap →
  read_from cap b = Err WouldBlock ∨
  ∃ out fin slot, read_from cap b = Ok (out, fin, slot) ∧ out = part stream n (len out) ∧ n + len out ≤ len stream ∧
    match slot with
    | Some b' => fin = false ∧ tracks stream (n + len out) b' ∧ stream_id b' = stream_id b
    | None => fin = true ∧ (len stream ≤ STREAM_BUF → n + len out = len stream)
    end.
Proof.
  intros Htr Hc. pose proof Htr as [Hcap Hro Hbl Hn Hnext Hin Hby Hfin]. unfold read_from. rewrite Hro, usub_ok by lia. cbn [mbind res_bind]. rewrite Z.sub_0_r.
  destruct (Z.eqb_spec (blen b) 0) as [Hz|Hnz].
  { destruct (fin_received b) eqn:Hf; [|by left]. right. exists [], true, None. split; [done|]. cbn.
    split; [done|]. split; [lia|]. split; [done|]. intros Hsm. specialize (Hfin Hsm eq_refl). lia. }
  right. set (c := Z.min (blen b) cap). rewrite slice_eq by lia. cbn [mbind res_bind]. change (Z.to_nat 0) with O. rewrite drop_0.
  replace (0 + c - 0) with c by lia.
  assert (take (Z.to_nat c) (data b) = part stream n c) as Hout.
  { rewrite <- (part_take stream n (blen b)) by lia. rewrite <- Hby, take_take. f_equal. lia. }
  rewrite Hout. assert (len (part stream n c) = c) as Lo by (apply part_length; lia).
  cbn [read_offset fin_received blen data update]. change (0 + c) with c.
  match goal with |- context [if ?f && ?g then _ else _] => destruct (f && g) eqn:Hfe end.
  - apply andb_true_iff in Hfe as [Hf Hle]. apply Z.leb_le in Hle. cbn in Hf, Hle. eexists _, true, None. split; [reflexivity|].
    rewrite Lo. split; [done|]. split; [lia|]. split; [done|]. intros Hsm. specialize (Hfin Hsm Hf). lia.
  - destruct (Z.ltb_spec 0 c) as [Hpos|Hz].
    + change (read_offset (b <| read_offset := 0 + c |>)) with c. change (blen (b <| read_offset := 0 + c |>)) with (blen b). change (data (b <| read_offset := 0 + c |>)) with (data b).
      unfold copy_within. rewrite decide_True by lia. cbn [mbind res_bind]. eexists _, false, (Some _). split; [reflexivity|].
      rewrite Lo. split; [done|]. split; [lia|]. split; [done|]. split; [|done]. split; cbn; [len_lia|done|lia|lia|lia|lia| |done].
      change (Z.to_nat 0) with O. rewrite take_0, app_nil_l. rewrite take_app_le by len_lia. rewrite take_take, Nat.min_id.
      rewrite <- part_drop with (n := blen b) by lia. rewrite <- Hby, skipn_firstn_comm. f_equal. lia.
    + eexists _, false, (Some _). split; [reflexivity|]. rewrite Lo. assert (c = 0) as -> by lia. rewrite Z.add_0_r. split; [done|]. split; [lia|]. split; [done|]. split; [|done].
      by split.
Qed.

(** ** The table of buffers *)

Definition find_buf (sid : Z) (l : list (option StreamRecvBuf)) : option StreamRecvBuf :=
  match position (holds_stream sid) l with Some i => mjoin (l !! i) | None => None end.

Lemma position_some {A} (p : A → bool) l i : position p l = Some i → ∃ x, l !! i = Some x ∧ p x = true ∧ ∀ j y, (j < i)%nat → l !! j = Some y → p y = false.
Proof.
  revert i. induction l as [|a l IH]; intros i Hi; [done|]. cbn [position] in Hi. destruct (p a) eqn:Hp.
  - injection Hi as <-. exists a. split; [done|]. split; [done|lia].
  - destruct (position p l) as [k|] eqn:Hk; [|done]. injection Hi as <-. destruct (IH k eq_refl) as (x & H1 & H2 & H3).
    exists x. split; [done|]. split; [done|]. intros [|j] y Hj Hy; [by simplify_eq/=|]. apply (H3 j); [lia|done].
Qed.
Lemma position_intro {A} (p : A → bool) l i x : l !! i = Some x → p x = true → (∀ j y, (j < i)%nat → l !! j = Some y → p y = false) → position p l = Some i.
Proof.
  revert i. induction l as [|a l IH]; intros i Hi Hx Hlt; [done|]. cbn [position]. destruct i as [|i].
  - by simplify_eq/=; rewrite Hx.
  - rewrite (Hlt O a) by (done || lia). rewrite (IH i) by (done || (intros j y Hj; apply (Hlt (S j)); lia)). done.
Qed.
Lemma position_none {A} (p : A → bool) l : position p l = None ↔ ∀ i x, l !! i = Some x → p x = false.
Proof.
  split.
  - intros Hn i x Hi. destruct (p x) eqn:Hx; [|done]. exfalso. revert i Hi. induction l as [|a l IH]; intros i Hi; [done|]. cbn [position] in Hn.
    destruct (p a) eqn:Ha; [done|]. destruct i as [|i]; [by simplify_eq/=; rewrite Hx in Ha|]. apply (IH (ltac:(by destruct (position p l))) i Hi).
  - intros Hl. induction l as [|a l IH]; [done|]. cbn [position]. rewrite (Hl O a) by done. rewrite IH; [done|]. intros i x; apply (Hl (S i)).
Qed.

(** Writing slot [i]: other streams keep their buffers. *)
Lemma find_buf_insert sid sid' l i slot :
  sid' ≠ sid → (∀ x, l !! i = Some x → holds_stream sid' x = false) → holds_stream sid' slot = false → find_buf sid' (<[i := slot]> l) = find_buf sid' l.
Proof.
  intros Hne Hold Hnew. unfold find_buf. destruct (position (holds_stream sid') l) as [j|] eqn:Hp.
  - apply position_some in Hp as (x & Hj & Hx & Hlt). assert (i ≠ j) by (intros ->; specialize (Hold _ Hj); congruence).
    erewrite position_intro; [|by rewrite list_lookup_insert_ne|done|].
    + by rewrite list_lookup_insert_ne.
    + intros k y Hk Hy. destruct (decide (i = k)) as [->|]; [|rewrite list_lookup_insert_ne in Hy by done; by eapply Hlt].
      apply list_lookup_insert_Some in Hy as [(_ & <- & _)|(? & _)]; [done|done].
  - rewrite (proj2 (position_none _ _)); [done|]. intros k y Hy. rewrite position_none in Hp.
    apply list_lookup_insert_Some in Hy as [(_ & <- & _)|(_ & Hy)]; [done|by eapply Hp].
Qed.
Lemma find_buf_own sid l i b : (i < length l)%nat → stream_id b = sid → (∀ j y, (j < i)%nat → l !! j = Some y → holds_stream sid y = false) →
  find_buf sid (<[i := Some b]> l) = Some b.
Proof.
  intros Hi Hb Hlt. unfold find_buf. erewrite (position_intro _ _ i).
  - by rewrite list_lookup_insert_eq.
  - by apply list_lookup_insert_eq.
  - cbn. by apply Z.eqb_eq.
  - intros j y Hj Hy. rewrite list_lookup_insert_ne in Hy by lia. by eapply Hlt.
Qed.
Lemma find_buf_snoc sid l : find_buf sid (l ++ [None]) = find_buf sid l.
Proof.
  unfold find_buf. destruct (position (holds_stream sid) l) as [i|] eqn:Hp.
  - apply position_some in Hp as (x & Hi & Hx & Hlt). pose proof (lookup_lt_Some _ _ _ Hi).
    erewrite (position_intro _ _ i); [|by rewrite lookup_app_l|done|]; [by rewrite lookup_app_l|].
    intros j y Hj Hy. rewrite lookup_app_l in Hy by lia. by eapply Hlt.
  - rewrite (proj2 (position_none _ _)); [done|]. rewrite position_none in Hp. intros i x Hi.
    apply lookup_app_Some in Hi as [Hi|[_ Hi]]; [by eapply Hp|]. by apply list_lookup_singleton_Some in Hi as [_ <-].
Qed.

Lemma elem_of_insert_slot {A} (l : list A) i x y : x ∈ <[i := y]> l → x ∈ l ∨ x = y.
Proof.
  intros Hx. apply list_elem_of_lookup in Hx as [j Hj]. apply list_lookup_insert_Some in Hj as [(_ & -> & _)|(_ & Hj)]; [by right|].
  left. by apply list_elem_of_lookup_2 in Hj.
Qed.
Lemma target_slot_ok sid io : ∃ o io', target_slot sid io = (Ok o, io') ∧
  (∀ sid', find_buf sid' (recv_bufs io') = find_buf sid' (recv_bufs io)) ∧
  (∀ b, Some b ∈ recv_bufs io' → Some b ∈ recv_bufs io) ∧
  match o with
  | Some i => recv_bufs io' !! i = Some (find_buf sid (recv_bufs io)) ∧
              (∀ j y, (j < i)%nat → recv_bufs io' !! j = Some y → holds_stream sid y = false)
  | None => find_buf sid (recv_bufs io) = None
  end.
Proof.
  unfold target_slot. erewrite M_step_ok by reflexivity. destruct io as [q l]. cbn [recv_bufs].
  destruct (position (holds_stream sid) l) as [i|] eqn:Hp.
  { eexists (Some i), _. split; [reflexivity|]. split; [done|]. split; [done|]. unfold find_buf. cbn [recv_bufs]. rewrite Hp.
    apply position_some in Hp as (x & Hi & Hx & Hlt). rewrite Hi. done. }
  assert (find_buf sid l = None) as Hn by (unfold find_buf; by rewrite Hp). rewrite Hn. rewrite position_none in Hp.
  destruct (position is_free l) as [i|] eqn:Hf.
  { eexists (Some i), _. split; [reflexivity|]. split; [done|]. split; [done|]. cbn [recv_bufs]. apply position_some in Hf as (x & Hi & Hx & _).
    split; [by destruct x|]. intros j y _ Hy. by eapply Hp. }
  destruct (Nat.ltb_spec (length l) MAX_STREAMS).
  - eexists (Some _), _. split; [reflexivity|]. cbn. split; [intros; apply find_buf_snoc|].
    split; [intros b Hb; apply elem_of_app in Hb as [Hb|Hb]; [done|by apply list_elem_of_singleton in Hb]|].
    split; [by rewrite lookup_app_r, Nat.sub_diag by lia|]. intros j y Hj Hy. rewrite lookup_app_l in Hy by done. by eapply Hp.
  - by eexists None, _.
Qed.

(** Storing a frame. *)
Lemma store_stream_data_ok io sid offset bytes fin b' :
  let b := match find_buf sid (recv_bufs io) with Some b => b | None => fresh sid end in
  store_into offset bytes fin b = Ok b' → stream_id b' = sid →
  ∃ io', store_stream_data sid offset bytes fin io = (Ok tt, io') ∧
    (∀ sid', sid' ≠ sid → find_buf sid' (recv_bufs io') = find_buf sid' (recv_bufs io)) ∧
    (∀ x, Some x ∈ recv_bufs io' → Some x ∈ recv_bufs io ∨ x = b') ∧
    (find_buf sid (recv_bufs io') = Some b' ∨ find_buf sid (recv_bufs io) = None ∧ find_buf sid (recv_bufs io') = None).
Proof.
  intros b Hst Hid. unfold store_stream_data. destruct (target_slot_ok sid io) as (o & io1 & Ht & Hsame & Hmem & Ho). erewrite M_step_ok by exact Ht.
  destruct o as [i|]; [|eexists; split; [reflexivity|]; split; [auto|]; split; [auto|]; right; by rewrite Hsame].
  destruct Ho as [Hi Hlt]. erewrite M_step_ok by reflexivity. pose proof (lookup_lt_Some _ _ _ Hi) as Hl.
  rewrite (idx_ok _ _ (find_buf sid (recv_bufs io))) by (lia || by rewrite Nat2Z.id). erewrite M_step_lift by reflexivity. fold b. rewrite Hst.
  erewrite M_step_lift by reflexivity. eexists. split; [reflexivity|]. cbn. split; [|split; [|left; by apply find_buf_own]].
  2: { intros x Hx. apply elem_of_insert_slot in Hx as [Hx|Hx]; [left; by apply Hmem|right; congruence]. }
  intros sid' Hne. rewrite <- Hsame. apply (find_buf_insert sid); [done| |cbn; apply Z.eqb_neq; congruence].
  intros x Hx. rewrite Hi in Hx. injection Hx as <-. destruct (find_buf sid (recv_bufs io)) as [b0|] eqn:Hb; [|done].
  unfold find_buf in Hb. destruct (position (holds_stream sid) (recv_bufs io)) as [k|] eqn:Hk; [|done].
  apply position_some in Hk as (x & Hk & Hx & _). rewrite Hk in Hb. cbn in Hb. subst x. cbn in *. apply Z.eqb_neq. apply Z.eqb_eq in Hx. congruence.
Qed.

(** Reading. *)
Lemma stream_recv_ok io sid cap r :
  find_buf sid (recv_bufs io) = Some r → no_panic (read_from cap r) →
  (∀ o f b', read_from cap r = Ok (o, f, Some b') → stream_id b' = stream_id r) →
  ∃ x io', stream_recv sid cap io = (x, io') ∧ no_panic x ∧
    (∀ sid', sid' ≠ sid → find_buf sid' (recv_bufs io') = find_buf sid' (recv_bufs io)) ∧
    (∀ y, Some y ∈ recv_bufs io' → Some y ∈ recv_bufs io ∨ ∃ o f, read_from cap r = Ok (o, f, Some y)) ∧
    match read_from cap r with
    | Ok (out, fin, Some b) => x = Ok (out, fin) ∧ find_buf sid (recv_bufs io') = Some b
    | Ok (out, fin, None) => x = Ok (out, fin)
    | Err e => x = Err e ∧ io' = io
    | Panic => False
    end.
Proof.
  intros Hf Hnp Hid. unfold stream_recv. erewrite M_step_ok by reflexivity. pose proof Hf as Hf'. unfold find_buf in Hf.
  destruct (position (holds_stream sid) (recv_bufs io)) as [i|] eqn:Hp; [|done]. apply position_some in Hp as (x & Hi & Hx & Hlt). rewrite Hi in Hf. cbn in Hf. subst x.
  cbn in Hx. apply Z.eqb_eq in Hx. pose proof (lookup_lt_Some _ _ _ Hi) as Hl.
  rewrite (idx_ok _ _ (Some r)) by (lia || by rewrite Nat2Z.id). erewrite M_step_lift by reflexivity.
  destruct (read_from cap r) as [[[out fin] slot]|e|] eqn:Hr; [| |done].
  - erewrite M_step_lift by exact Hr. cbv beta iota. erewrite M_step_ok by reflexivity. eexists _, _. split; [reflexivity|]. split; [done|]. split; [|split].
    + intros sid' Hne. cbn. apply (find_buf_insert sid); [done| |].
      * intros y Hy. rewrite Hi in Hy. injection Hy as <-. cbn. apply Z.eqb_neq. congruence.
      * destruct slot as [b'|]; [|done]. cbn. apply Z.eqb_neq. rewrite (Hid _ _ _ eq_refl). congruence.
    + intros y Hy. cbn in Hy. apply elem_of_insert_slot in Hy as [Hy| <-]; eauto.
    + destruct slot as [b'|]; [|done]. split; [done|]. cbn. apply find_buf_own; [done|rewrite (Hid _ _ _ eq_refl); congruence|done].
  - erewrite M_step_err by (unfold lift; rewrite Hr; reflexivity). eexists _, _. split; [reflexivity|]. split; [done|]. split; [done|]. split; [by left|done].
Qed.

(** ** Traces *)

(** Frames arrive and the application reads; a read that returns bytes or a FIN is
    logged. *)
Inductive event := Arrives (sid offset : Z) (bytes : list Z) (fin : bool) | Reads (sid cap : Z).

Definition step (ev : event) (st : t * list (Z * list Z * bool)) : result (t * list (Z * list Z * bool)) :=
  let '(io, log) := st in
  match ev with
  | Arrives sid offset bytes fin =>
      match store_stream_data sid offset bytes fin io with
      | (Ok _, io) => Ok (io, log) | (Err e, _) => Err e | (Panic, _) => Panic
      end
  | Reads sid cap =>
      match stream_recv sid cap io with
      | (Ok (out, fin), io) => Ok (io, log ++ [(sid, out, fin)]) | (Err _, io) => Ok (io, log) | (Panic, _) => Panic
      end
  end.
Fixpoint steps (evs : list event) (st : t * list (Z * list Z * bool)) : result (t * list (Z * list Z * bool)) :=
  match evs with [] => Ok st | ev :: evs => st ← step ev st; steps evs st end.

(** What was read of a stream up to its FIN, and whether the FIN was. *)
Fixpoint until_fin (sid : Z) (log : list (Z * list Z * bool)) : list Z * bool :=
  match log with
  | [] => ([], false)
  | (s, out, fin) :: log =>
      if s =? sid then if fin then (out, true) else let '(d, f) := until_fin sid log in (out ++ d, f)
      else until_fin sid log
  end.

Lemma until_fin_snoc sid log s out fin :
  until_fin sid (log ++ [(s, out, fin)]) =
  (let '(d, f) := until_fin sid log in if f then (d, true) else if s =? sid then (d ++ out, fin) else (d, false)).
Proof.
  induction log as [|[[s0 o0] f0] log IH]; cbn [app until_fin].
  - destruct (s =? sid); [|done]. destruct fin; [done|]. by rewrite app_nil_r.
  - destruct (s0 =? sid); [|done]. destruct f0; [done|]. rewrite IH. destruct (until_fin sid log) as [d []]; [done|].
    destruct (s =? sid); [|done]. by rewrite app_assoc.
Qed.

(** The streams the peer sends. *)
Variable sent : Z → list Z.
Hypothesis Hsent : ∀ sid, len (sent sid) < 2 ^ 31.

Definition event_ok (ev : event) : Prop :=
  match ev with Arrives sid offset bytes fin => frame_ok (sent sid) offset bytes fin | Reads _ cap => 0 ≤ cap end.

(** Until its FIN is read, a stream's buffer continues what was read. *)
Record delivered (st : t * list (Z * list Z * bool)) : Prop := {
  d_slots b : Some b ∈ recv_bufs st.1 → ∃ n, tracks (sent (stream_id b)) n b;
  d_streams sid :
    let '(d, f) := until_fin sid st.2 in
    d = part (sent sid) 0 (len d) ∧ len d ≤ len (sent sid) ∧
    (if f then len (sent sid) ≤ STREAM_BUF → len d = len (sent sid)
     else match find_buf sid (recv_bufs st.1) with Some b => tracks (sent sid) (len d) b | None => d = [] end)
}.

Lemma find_buf_slot sid l b : find_buf sid l = Some b → Some b ∈ l ∧ stream_id b = sid.
Proof.
  unfold find_buf. destruct (position (holds_stream sid) l) as [i|] eqn:Hp; [|done]. apply position_some in Hp as (x & Hi & Hx & _).
  rewrite Hi. cbn. intros ->. split; [by apply list_elem_of_lookup_2 in Hi|]. by apply Z.eqb_eq.
Qed.

Lemma arrives_delivered io log sid offset bytes fin : delivered (io, log) → frame_ok (sent sid) offset bytes fin →
  ∃ io', store_stream_data sid offset bytes fin io = (Ok tt, io') ∧ delivered (io', log).
Proof.
  intros Hd Hf. set (b := match find_buf sid (recv_bufs io) with Some b => b | None => fresh sid end).
  assert (stream_id b = sid ∧ ∃ n, tracks (sent sid) n b) as [Hid [n Hn]].
  { unfold b. destruct (find_buf sid (recv_bufs io)) as [b0|] eqn:Hb; [|split; [done|exists 0; apply fresh_tracks]].
    apply find_buf_slot in Hb as [Hb <-]. split; [done|]. by apply (d_slots _ Hd). }
  destruct (store_into_ok (sent sid) n b offset bytes fin Hn Hf (Hsent sid)) as (b' & Hst & Hn' & Hid' & _).
  destruct (store_stream_data_ok io sid offset bytes fin b' Hst) as (io' & Hs & Hother & Hmem & Hown); [congruence|].
  exists io'. split; [done|]. split; cbn.
  - intros x Hx. apply Hmem in Hx as [Hx| ->]; [by apply (d_slots _ Hd)|]. rewrite Hid', Hid. eauto.
  - intros sid'. pose proof (d_streams _ Hd sid') as H1. cbn in H1. destruct (until_fin sid' log) as [d []]; [done|].
    destruct (decide (sid' = sid)) as [->|Hne]; [|by rewrite Hother].
    destruct H1 as (H1 & H2 & H3). split; [done|]. split; [done|].
    destruct Hown as [->|[Hn1 Hn2]]; [|by rewrite Hn2; rewrite Hn1 in H3].
    assert (tracks (sent sid) (len d) b) as Ht.
    { unfold b. destruct (find_buf sid (recv_bufs io)); [done|]. subst d. apply fresh_tracks. }
    destruct (store_into_ok (sent sid) (len d) b offset bytes fin Ht Hf (Hsent sid)) as (b2 & E & Ht2 & _). rewrite Hst in E. by simplify_eq.
Qed.

Lemma reads_delivered io log sid cap : delivered (io, log) → 0 ≤ cap →
  ∃ st', step (Reads sid cap) (io, log) = Ok st' ∧ delivered st'.
Proof.
  intros Hd Hc. cbn [step]. destruct (find_buf sid (recv_bufs io)) as [b|] eqn:Hb.
  - apply find_buf_slot in Hb as Hb'. destruct Hb' as [Hb1 Hid]. destruct (d_slots _ Hd b Hb1) as [n Hn]. rewrite Hid in Hn.
    assert (no_panic (read_from cap b) ∧ ∀ o f b', read_from cap b = Ok (o, f, Some b') → stream_id b' = stream_id b ∧ ∃ n, tracks (sent sid) n b') as [Hnp Hids].
    { destruct (read_from_ok (sent sid) n b cap Hn Hc) as [E|(o & f & slot & E & _ & _ & Hs)]; rewrite E; [done|]. split; [done|].
      intros o' f' b' [= -> -> ->]. destruct Hs as (_ & ? & ?). eauto. }
    destruct (stream_recv_ok io sid cap b Hb Hnp) as (x & io' & Hr & Hx & Hother & Hmem & Hcase); [intros; by eapply Hids|]. rewrite Hr.
    assert (∀ y, Some y ∈ recv_bufs io' → ∃ n, tracks (sent (stream_id y)) n y) as Hslots.
    { intros y Hy. apply Hmem in Hy as [Hy|(o & f & E)]; [by apply (d_slots _ Hd)|]. apply Hids in E as [-> E]. by rewrite Hid. }
    pose proof (d_streams _ Hd sid) as Hs. cbn in Hs. rewrite Hb in Hs.
    destruct (read_from cap b) as [[[out fin] slot]|e|] eqn:Er; [| |done].
    + assert (x = Ok (out, fin)) as -> by (by destruct slot as [?|]; [destruct Hcase|]). eexists. split; [reflexivity|]. split; cbn; [done|].
      intros sid'. rewrite until_fin_snoc. pose proof (d_streams _ Hd sid') as H1. cbn in H1. destruct (until_fin sid' log) as [d f] eqn:Hu.
      destruct f; [done|]. destruct (Z.eqb_spec sid sid') as [->|Hne]; [|by rewrite Hother by congruence].
      rewrite Hu in Hs. destruct Hs as (S1 & S2 & S3).
      destruct (read_from_ok (sent sid') (len d) b cap S3 Hc) as [E|(o & f & sl & E & Ho & Hle & Hsl)]; rewrite E in Er; [done|]. injection Er as -> -> ->.
      rewrite length_app, Nat2Z.inj_add. split; [rewrite S1 at 1; rewrite Ho at 1; apply (part_app (sent sid') 0); lia|]. split; [done|].
      destruct slot as [b'|]; [|by destruct Hsl as [-> ?]]. destruct Hsl as (-> & Ht & _). destruct Hcase as [_ ->]. done.
    + destruct Hcase as [-> ->]. eexists. split; [reflexivity|]. done.
  - assert (stream_recv sid cap io = (Err WouldBlock, io)) as ->; [|by eexists].
    unfold stream_recv. erewrite M_step_ok by reflexivity. unfold find_buf in Hb.
    destruct (position (holds_stream sid) (recv_bufs io)) as [i|] eqn:Hp; [|done]. apply position_some in Hp as (x & Hi & Hx & _).
    rewrite Hi in Hb. cbn in Hb. by subst x.
Qed.

(** Whatever frames arrive, as long as each carries bytes of its stream at their
    offsets, in whatever order, repeated or overlapping, and whatever is read in
    between, nothing panics, and what the application has read of a stream up to its
    FIN is a prefix of what the peer sent on it; for a stream that fits the receive
    buffer it is all of it once the FIN has been read. *)
Theorem quic_stream_prefix evs : Forall event_ok evs →
  ∃ io log, steps evs (new, []) = Ok (io, log) ∧ ∀ sid,
    (until_fin sid log).1 = take (length (until_fin sid log).1) (sent sid) ∧
    (len (sent sid) ≤ STREAM_BUF → (until_fin sid log).2 = true → (until_fin sid log).1 = sent sid).
Proof.
  intros Hevs. assert (∀ st, delivered st → ∃ st', steps evs st = Ok st' ∧ delivered st') as Hall.
  { induction Hevs as [|ev evs Hev _ IH]; intros [io log] Hst; cbn [steps]; [by eexists|].
    assert (∃ st', step ev (io, log) = Ok st' ∧ delivered st') as (st' & -> & Hst').
    { destruct ev as [sid offset bytes fin|sid cap]; [|by apply reads_delivered]. cbn [step].
      destruct (arrives_delivered io log sid offset bytes fin Hst Hev) as (io' & -> & Hd). by eexists. }
    cbn [mbind res_bind]. by apply IH. }
  destruct (Hall (new, [])) as ([io log] & Hr & Hd).
  { split; cbn; [intros b Hb; by apply not_elem_of_nil in Hb|]. intros sid. cbn. split; [done|]. split; [lia|done]. }
  exists io, log. split; [done|]. intros sid. pose proof (d_streams _ Hd sid) as Hs. cbn in Hs. destruct (until_fin sid log) as [d f]. cbn [fst snd].
  destruct Hs as (H1 & H2 & H3). assert (d = take (length d) (sent sid)) as Hd'.
  { rewrite H1 at 1. unfold part. change (Z.to_nat 0) with O. by rewrite drop_0, Nat2Z.id. }
  split; [done|]. intros Hsm ->. specialize (H3 Hsm). rewrite Hd'. apply take_ge. lia.
Qed.
End stream.

End QuicIo.
