(* ===== verification/QuicConn.v ===== *)
(** * The QUIC connection: [src/connection/mod.rs], [handshake_pool.rs]

    The state of a connection, the pool of handshake contexts it shares with others,
    its constructors and the operations of the application.  Receiving is in [QuicRecv],
    sending in [QuicTransmit].  The build is the one with [alloc]. *)
From S2P Require Import Prelude Errors Varint Frame Buf Recovery Congestion Loss AckProcessing StreamMap.
From S2P Require Import FlowControl TlsParams TlsMessages Crypto TlsHandshake QuicKeys QuicPn CryptoBuf QuicIo.

Module Quic.

(** ** Data *)

Inductive ConnectionState : Type := Handshaking | Active | Draining | Closing | Closed.
Global Instance connection_state_eq_dec : EqDecision ConnectionState.
Proof. solve_decision. Defined.

Inductive Event : Type :=
| Connected
| StreamOpened (stream_id : Z)
| StreamReadable (stream_id : Z)
| StreamWritable (stream_id : Z)
| StreamReset (stream_id error_code : Z)
| StopSending (stream_id error_code : Z)
| StreamFinished (stream_id : Z)
| ConnectionClose (error_code : Z) (reason : list Z).

(** [ConnectionId]: 20 bytes and the number of them in use. *)
Record ConnectionId := MkCid { cid_bytes : list Z; cid_len : Z }.

Definition cid_empty : ConnectionId := MkCid (replicate 20 0) 0.
Definition cid_from_slice (data : list Z) : ConnectionId :=
  let copy_len := Z.min (len data) 20 in
  MkCid (take (Z.to_nat copy_len) data ++ drop (Z.to_nat copy_len) (replicate 20 0)) (trunc 8 copy_len).
Definition cid_as_slice (c : ConnectionId) : list Z := take (Z.to_nat (cid_len c)) (cid_bytes c).
(** [generate]: [fill] are the bytes the generator writes. *)
Definition cid_generate (fill : list Z) (n : Z) : result ConnectionId :=
  let actual_len := Z.min n 20 in
  mem ← copy_at (replicate 20 0) 0 actual_len fill;
  Ok (MkCid mem (trunc 8 actual_len)).

(** Arrays indexed by [level_index]. *)
Record levels (A : Type) := MkLevels { at_initial : A; at_handshake : A; at_application : A }.
Global Arguments MkLevels {A}.
Global Arguments at_initial {A}.
Global Arguments at_handshake {A}.
Global Arguments at_application {A}.

Definition all_levels {A} (a : A) : levels A := MkLevels a a a.
(** [a[level_index(level)]] and the assignment to it. *)
Definition at_level {A} (l : levels A) (lvl : Level.t) : A :=
  match lvl with Level.Initial => at_initial l | Level.Handshake => at_handshake l | Level.Application => at_application l end.
Definition set_level {A} (lvl : Level.t) (a : A) (l : levels A) : levels A :=
  match lvl with
  | Level.Initial => MkLevels a (at_handshake l) (at_application l)
  | Level.Handshake => MkLevels (at_initial l) a (at_application l)
  | Level.Application => MkLevels (at_initial l) (at_handshake l) a
  end.

Lemma at_set_level {A} lvl (a : A) l lvl' : at_level (set_level lvl a l) lvl' = if decide (lvl' = lvl) then a else at_level l lvl'.
Proof. by destruct lvl, lvl'. Qed.

(** [HandshakeContext]. *)
Record HandshakeContext := MkContext {
  tls : Tls.t;
  pending_crypto : levels Buf.t;
  crypto_reasm : levels CryptoReassemblyBuf.t;
  crypto_send_offset : levels Z;
  pending_crypto_level : levels Level.t
}.
Global Instance eta_context : Eta HandshakeContext := λ c,
  MkContext (tls c) (pending_crypto c) (crypto_reasm c) (crypto_send_offset c) (pending_crypto_level c).

(** [HandshakePool]: a slot is free when it is [None]. *)
Definition HandshakePool : Type := list (option HandshakeContext).

(** [Connection], without its provider; the tracker of sent packets, the loss detector
    and the congestion controller are the fields of [path]. *)
Record t := Mk {
  state : ConnectionState;
  role : Tls.Role;
  keys : ConnectionKeys.t;
  streams : Stream.StreamMap;
  path : Ack.Path;
  flow_control : FlowControl.FlowController;
  handshake_slot : option Z;
  local_cids : list ConnectionId;
  remote_cid : ConnectionId;
  next_pn : levels Z;
  largest_recv_pn : levels (option Z);
  recv_pn_tracker : levels PnTracker.t;
  ack_eliciting_received : levels bool;
  local_params : TransportParams.t;
  peer_params : option TransportParams.t;
  events : list Event;
  close_frame : option (Z * list Z);
  idle_timeout : option Z;
  last_activity : Z;
  crypto_rewind_pending : bool;
  need_handshake_done : bool;
  pending_path_response : option (list Z);
  anti_amplification_bytes_received : Z;
  anti_amplification_bytes_sent : Z;
  address_validated : bool
}.
Global Instance eta_quic : Eta t := λ c,
  Mk (state c) (role c) (keys c) (streams c) (path c) (flow_control c) (handshake_slot c) (local_cids c) (remote_cid c)
     (next_pn c) (largest_recv_pn c) (recv_pn_tracker c) (ack_eliciting_received c) (local_params c) (peer_params c)
     (events c) (close_frame c) (idle_timeout c) (last_activity c) (crypto_rewind_pending c) (need_handshake_done c)
     (pending_path_response c) (anti_amplification_bytes_received c) (anti_amplification_bytes_sent c) (address_validated c).

(** What a call works on: the connection, the stream buffers, the pool, and the
    buffer it was given ([scratch] or [buf]). *)
Record env := MkEnv { conn : t; io : QuicIo.t; pool : HandshakePool; mem : list Z }.
Global Instance eta_env : Eta env := λ e, MkEnv (conn e) (io e) (pool e) (mem e).

(** The const parameters. *)
Class Params := {
  caps :: QuicIo.Capacities;
  SENT_PER_SPACE : nat;
  MAX_CIDS : nat;
  CRYPTO_BUF : nat
}.
Global Instance stream_config `{Params} : Stream.Config := {| Stream.N := QuicIo.MAX_STREAMS; Stream.alloc := true |}.

(** ** Calls on the parts *)

Definition sub {S T A} (get : S → T) (put : T → S → S) (f : M Error T A) : M Error S A := λ s,
  let '(r, x) := f (get s) in (r, put x s).

Definition on_conn {A} : M Error t A → M Error env A := sub conn (λ c e, e <| conn := c |>).
Definition on_io {A} : M Error QuicIo.t A → M Error env A := sub io (λ q e, e <| io := q |>).
Definition on_mem {A} : M Error (list Z) A → M Error env A := sub mem (λ m e, e <| mem := m |>).

Definition on_keys {A} : M Error ConnectionKeys.t A → M Error t A := sub keys (λ k c, c <| keys := k |>).
Definition on_streams {A} : M Error Stream.StreamMap A → M Error t A := sub streams (λ m c, c <| streams := m |>).
Definition on_path {A} : M Error Ack.Path A → M Error t A := sub path (λ p c, c <| path := p |>).
Definition on_flow {A} : M Error FlowControl.FlowController A → M Error t A := sub flow_control (λ f c, c <| flow_control := f |>).

(** [let _ = ..]: the value or the error is dropped, a panic is not. *)
Definition attempt {S A} (m : M Error S A) : M Error S (option A) := λ s,
  match m s with (Ok a, s) => (Ok (Some a), s) | (Err _, s) => (Ok None, s) | (Panic, s) => (Panic, s) end.

(** ** The pool *)

Section pool.
Context `{Params} `{Primitives}.

Definition new_context : HandshakeContext :=
  MkContext Tls.new_placeholder (all_levels Buf.new) (all_levels (CryptoReassemblyBuf.new CRYPTO_BUF)) (all_levels 0)
    (all_levels Level.Initial).

Definition new_pool (N : nat) : HandshakePool := replicate N None.
Definition slots_in_use (p : HandshakePool) : nat :=
  length (List.filter (λ s, match s with Some _ => true | None => false end) p).

Definition claim : M Error HandshakePool Z :=
  p ← get;
  match position (λ s, match s with None => true | Some _ => false end) p with
  | Some i => _ ← put (<[i := Some new_context]> p); mret (trunc 8 (Z.of_nat i))
  | None => throw HandshakePoolExhausted
  end.
Definition release (slot : Z) (p : HandshakePool) : HandshakePool :=
  if slot <? len p then <[Z.to_nat slot := None]> p else p.

(** A call on [get_mut(slot)], which unwraps the slot. *)
Definition on_slot {A} (slot : Z) (f : M Error HandshakeContext A) : M Error HandshakePool A := λ p,
  match idx (E:=Error) p slot with
  | Ok (Some ctx) => let '(r, ctx) := f ctx in (r, <[Z.to_nat slot := Some ctx]> p)
  | _ => (Panic, p)
  end.
Definition on_ctx {A} (slot : Z) (f : M Error HandshakeContext A) : M Error env A :=
  sub pool (λ p e, e <| pool := p |>) (on_slot slot f).
Definition on_tls {A} : M Error Tls.t A → M Error HandshakeContext A := sub tls (λ x c, c <| tls := x |>).

End pool.

(** ** Helpers *)

Definition push_event (e : Event) (c : t) : t :=
  if len (events c) <? 64 then c <| events := events c ++ [e] |> else c.

Definition amplification_allows `{Platform} (bytes : Z) (c : t) : result bool :=
  if address_validated c then Ok true else
  sent ← usize_add (anti_amplification_bytes_sent c) bytes;
  limit ← umul usize_bits 3 (anti_amplification_bytes_received c);
  Ok (sent <=? limit).

Definition track_received_pn (lvl : Level.t) (pn : Z) : M Error t unit :=
  c ← get;
  r ← lift (PnTracker.record pn (at_level (recv_pn_tracker c) lvl));
  modify (λ c, c <| recv_pn_tracker := set_level lvl r (recv_pn_tracker c) |>).

(** [saturating_add]. *)
Definition sat_add (w a b : Z) : Z := Z.min (2 ^ w - 1) (a + b).

(** The local CID of headers: [local_cids[0]], if there is one. *)
Definition local_scid (c : t) : list Z := match local_cids c with cid :: _ => cid_as_slice cid | [] => [] end.
Definition local_scid_len (c : t) : Z := match local_cids c with cid :: _ => cid_len cid | [] => 0 end.

(** ** Constructors *)

Section construct.
Context `{Params} `{Primitives}.

Definition new_connection (r : Tls.Role) (k : ConnectionKeys.t) (slot : Z) (local_cid remote : ConnectionId)
    (tp : TransportParams.t) (detector : Loss.LossDetector) (cc : Congestion.CongestionController) : t := {|
  state := Handshaking;
  role := r;
  keys := k;
  streams := Stream.StreamMap_new;
  path := {| Ack.sent_tracker := Recovery.new; Ack.loss_detector := detector; Ack.congestion := cc |};
  flow_control := FlowControl.new (TransportParams.initial_max_data tp) (TransportParams.initial_max_streams_bidi tp)
                    (TransportParams.initial_max_streams_uni tp);
  handshake_slot := Some slot;
  local_cids := push_capped MAX_CIDS [] local_cid;
  remote_cid := remote;
  next_pn := all_levels 0;
  largest_recv_pn := all_levels None;
  recv_pn_tracker := all_levels PnTracker.new;
  ack_eliciting_received := all_levels false;
  local_params := tp;
  peer_params := None;
  events := [];
  close_frame := None;
  idle_timeout := None;
  last_activity := 0;
  crypto_rewind_pending := false;
  need_handshake_done := match r with Tls.Client => false | Tls.Server => true end;
  pending_path_response := None;
  anti_amplification_bytes_received := 0;
  anti_amplification_bytes_sent := 0;
  address_validated := match r with Tls.Client => true | Tls.Server => false end
|}.

(** [Connection::client]; the generator fills, in this order, the secret, the random,
    the local CID and the first destination CID. *)
Definition client (server_name : list Z) (alpn : list (list Z)) (tp : TransportParams.t)
    (secret_bytes random cid_bytes dcid_bytes : list Z) : M Error HandshakePool t :=
  slot ← claim;
  local_cid ← lift (cid_generate cid_bytes 8);
  let scid := cid_as_slice local_cid in
  '(c, n) ← lift (Tls.set_cid scid (TransportParams.initial_scid tp));
  let params := tp <| TransportParams.initial_scid := c |> <| TransportParams.initial_scid_len := n |> in
  if 64 <? len server_name then throw Errors.Tls else
  let engine := Tls.new_client {| Tls.config_server_name := server_name; Tls.config_alpn := alpn;
                  Tls.config_params := params; Tls.config_pinned := [] |} secret_bytes random in
  _ ← on_slot slot (modify (λ x, x <| tls := engine |>));
  initial_dcid ← lift (cid_generate dcid_bytes 8);
  let '(r, k) := ConnectionKeys.derive_initial (cid_as_slice initial_dcid) true ConnectionKeys.new in
  _ ← lift r;
  delay ← lift (umul 64 (TransportParams.max_ack_delay tp) 1000);
  cc ← lift (Congestion.new 1200);
  mret (new_connection Tls.Client k slot local_cid initial_dcid tp (Loss.new delay) cc).

Definition server (config : Tls.ServerTlsConfig) (tp : TransportParams.t) (secret_bytes random cid_bytes : list Z)
    : M Error HandshakePool t :=
  slot ← claim;
  let engine := Tls.new_server config secret_bytes random in
  _ ← on_slot slot (modify (λ x, x <| tls := engine |>));
  local_cid ← lift (cid_generate cid_bytes 8);
  delay ← lift (umul 64 (TransportParams.max_ack_delay tp) 1000);
  cc ← lift (Congestion.new 1200);
  mret (new_connection Tls.Server ConnectionKeys.new slot local_cid cid_empty tp (Loss.new delay) cc).

End construct.

(** ** Operations of the application *)

Definition poll_event : M Error t (option Event) :=
  c ← get;
  match events c with
  | [] => mret None
  | e :: l => _ ← modify (λ c, c <| events := l |>); mret (Some e)
  end.

Definition drain_period (c : t) : result Z :=
  d ← Loss.pto_duration (Ack.loss_detector (path c)); umul 64 3 d.

Definition next_timeout (c : t) : result (option Z) :=
  match state c with
  | Closed => Ok None
  | Draining => d ← drain_period c; Ok (Some (sat_add 64 (last_activity c) d))
  | _ =>
      earliest ← Loss.next_timeout (Ack.sent_tracker (path c)) (Ack.loss_detector (path c));
      Ok (match idle_timeout c with
          | Some idle =>
              let idle_deadline := sat_add 64 (last_activity c) idle in
              Some (match earliest with Some e => Z.min e idle_deadline | None => idle_deadline end)
          | None => earliest
          end)
  end.

Definition handle_timeout (now : Z) : M Error t unit :=
  c ← get;
  if bool_decide (state c = Draining) then
    d ← lift (drain_period c);
    if d <=? sat_sub now (last_activity c) then modify (λ c, c <| state := Closed |>) else mret tt
  else
  if match idle_timeout c with Some idle => idle <=? sat_sub now (last_activity c) | None => false end then
    modify (λ c, push_event (ConnectionClose 0 []) (c <| state := Closed |>))
  else
    deadline ← lift (Loss.next_timeout (Ack.sent_tracker (path c)) (Ack.loss_detector (path c)));
    if match deadline with Some d => d <=? now | None => false end then
      _ ← on_path (Ack.on_detector Loss.on_pto);
      match handshake_slot c with
      | Some _ => modify (λ c, c <| crypto_rewind_pending := true |>)
      | None => mret tt
      end
    else mret tt.

Definition is_client (c : t) : bool := bool_decide (role c = Tls.Client).

Definition open_stream `{Params} : M Error t Z :=
  c ← get;
  if negb (bool_decide (state c = Active)) then throw InvalidState else
  stream_id ← on_streams (Stream.open_bidi (is_client c));
  let send_max := TransportParams.initial_max_stream_data_bidi_remote <$> peer_params c in
  _ ← on_streams (modify (Stream.set_stream_windows stream_id send_max
                            (Some (TransportParams.initial_max_stream_data_bidi_local (local_params c)))));
  mret stream_id.

Definition open_uni_stream `{Params} : M Error t Z :=
  c ← get;
  if negb (bool_decide (state c = Active)) then throw InvalidState else
  stream_id ← on_streams (Stream.open_uni (is_client c));
  let send_max := TransportParams.initial_max_stream_data_uni <$> peer_params c in
  _ ← on_streams (modify (Stream.set_stream_windows stream_id send_max None));
  mret stream_id.

Section send.
Context `{Params} `{Platform}.
Import QuicIo(StreamSendEntry, MkEntry, e_stream_id, e_offset, e_data, e_len, e_fin, send_queue, STREAM_BUF, SEND_QUEUE).

Definition is_down (c : t) : bool := match state c with Closed | Draining => true | _ => false end.

(** The tail entry of the queue, when data of the stream may be added to it. *)
Definition coalescible (stream_id : Z) (q : list StreamSendEntry) : option StreamSendEntry :=
  match last q with
  | Some tail => if (e_stream_id tail =? stream_id) && negb (e_fin tail) then Some tail else None
  | None => None
  end.

Definition stream_send_capacity (c : t) (q : QuicIo.t) (stream_id : Z) : result Z :=
  if is_down c then Ok 0 else
  match Stream.get (streams c) stream_id with
  | None => Ok 0
  | Some stream =>
      match Stream.send stream with
      | None => Ok 0
      | Some send =>
          let window := as_usize (sat_sub (Stream.s_max_data send) (Stream.s_offset send)) in
          tail_room ← match coalescible stream_id (send_queue q) with
                      | Some tail => usub STREAM_BUF (e_len tail) | None => Ok 0 end;
          let free_entries := sat_sub SEND_QUEUE (len (send_queue q)) in
          space ← umul usize_bits free_entries STREAM_BUF;
          space ← usize_add tail_room space;
          Ok (Z.min window space)
      end
  end.

(** [self.last_mut()] of a queue that is not empty. *)
Definition set_tail (e : StreamSendEntry) (q : list StreamSendEntry) : list StreamSendEntry :=
  take (length q - 1) q ++ [e].

(** "Coalesce into the tail entry first". *)
Definition fill_tail (tail : StreamSendEntry) (bytes : list Z) (send_len : Z) (fin : bool) : M Error QuicIo.t Z :=
  free ← lift (usub STREAM_BUF (e_len tail));
  let room := Z.min free send_len in
  src ← lift (slice bytes 0 room);
  mem ← lift (copy_at (e_data tail) (e_len tail) (e_len tail + room) src);
  _ ← modify (λ q, q <| send_queue := set_tail (tail <| e_data := mem |> <| e_len := e_len tail + room |>
                                                   <| e_fin := fin && (room =? send_len) |>) (send_queue q) |>);
  mret room.

(** "Spill the rest into fresh entries"; every round but the last writes at least one
    byte. *)
Fixpoint spill (fuel : nat) (stream_id : Z) (bytes : list Z) (send_len : Z) (fin coalesced : bool) (written offset : Z)
    : M Error QuicIo.t unit :=
  if (written <? send_len) || (fin && (written =? 0) && negb coalesced) then
    match fuel with
    | O => lift Panic
    | S fuel =>
        let chunk := Z.min (send_len - written) STREAM_BUF in
        src ← lift (slice bytes written (written + chunk));
        mem ← lift (copy_at (replicate (Z.to_nat STREAM_BUF) 0) 0 chunk src);
        _ ← modify (λ q, q <| send_queue := send_queue q ++
              [MkEntry stream_id offset mem chunk (fin && (written + chunk =? send_len))] |>);
        if chunk =? 0 then mret tt
        else
          offset ← lift (uadd 64 offset chunk);
          spill fuel stream_id bytes send_len fin coalesced (written + chunk) offset
    end
  else mret tt.

Definition stream_send (stream_id : Z) (bytes : list Z) (fin : bool) : M Error env Z :=
  e ← get;
  let c := conn e in
  if is_down c then throw Errors.Closed else
  stream ← lift (ok_or InvalidState (Stream.get (streams c) stream_id));
  send ← lift (ok_or InvalidState (Stream.send stream));
  let offset := Stream.s_offset send in
  cap ← lift (stream_send_capacity c (io e) stream_id);
  let send_len := Z.min (len bytes) cap in
  let fin := fin && (send_len =? len bytes) in
  if (send_len =? 0) && negb fin then mret 0 else
  let tail := coalescible stream_id (send_queue (io e)) in
  let coalesce_tail := match tail with Some _ => true | None => false end in
  if (send_len =? 0) && negb coalesce_tail && (SEND_QUEUE <=? len (send_queue (io e)))
  then throw (BufferTooSmall (SEND_QUEUE + 1)) else
  _ ← on_conn (on_streams (Stream.mark_send stream_id send_len fin));
  written ← match tail with
            | Some tail => on_io (fill_tail tail bytes send_len fin)
            | None => mret 0
            end;
  offset ← lift (uadd 64 offset written);
  _ ← on_io (spill (S (Z.to_nat send_len)) stream_id bytes send_len fin coalesce_tail written offset);
  mret send_len.

Definition stream_recv (stream_id cap : Z) : M Error env (list Z * bool) :=
  e ← get;
  if bool_decide (state (conn e) = Closed) then throw Errors.Closed else
  on_io (QuicIo.stream_recv stream_id cap).

End send.

Definition stream_reset (stream_id error_code : Z) : M Error t unit := on_streams (Stream.mark_reset_sent stream_id).
Definition stream_stop_sending (stream_id error_code : Z) : M Error t unit :=
  on_streams (Stream.handle_stop_sending stream_id).

Definition close (error_code : Z) (reason : list Z) (c : t) : t :=
  match state c with
  | Closed | Draining | Closing => c
  | _ => c <| close_frame := Some (error_code, take 64 reason) |> <| state := Closing |>
  end.

Definition is_closed (c : t) : bool := bool_decide (state c = Closed).
Definition is_established (c : t) : bool := bool_decide (state c = Active).

Definition initiate_key_update `{Primitives} : M Error t unit :=
  c ← get;
  if negb (bool_decide (state c = Active)) then throw InvalidState else on_keys ConnectionKeys.perform_key_update.

Definition key_phase (c : t) : Z := ConnectionKeys.key_phase (keys c).

End Quic.
