(* ===== verification/QuicRecv.v ===== *)
(** * Receiving: [src/connection/recv.rs]

    A datagram is split into packets; each is unprotected and opened, its frames are
    dispatched, and the keys the TLS engine has produced are installed. *)
From S2P Require Import Prelude Errors Varint Frame Buf PacketNumber PacketHeader Recovery Congestion Loss AckProcessing StreamMap FlowControl.
From S2P Require Import TlsParams TlsMessages Crypto TlsHandshake H3Frame Dispatch QuicKeys QuicPn CryptoBuf QuicPacket QuicIo QuicConn.

Module QuicRecv.
Import Quic.
Import Frame(StreamFrame, st_stream_id, st_offset, st_data, st_fin, cr_offset, cr_data, msd_stream_id, msd_max_data,
  ms_bidirectional, ms_max_streams, rs_stream_id, rs_error_code, rs_final_size, ss_stream_id, ss_error_code, cc_error_code,
  Padding, Ping, MaxData, MaxStreamData, MaxStreams, ResetStream, HandshakeDone, PathChallenge, NewToken, NewConnectionId,
  RetireConnectionId, PathResponse, DataBlocked, StreamDataBlocked, StreamsBlocked).

(** [PacketResult]. *)
Record PacketResult := MkPacketResult { ack_eliciting : bool; level : Level.t; pn : Z }.

Section recv.
Context `{Params} `{Platform} `{Primitives}.
(** The allocator behind the buffers of the TLS engine. *)
Variable grant : Z → bool.

Definition conn_of : M Error env t := e ← get; mret (conn e).
Definition update_conn (f : t → t) : M Error env unit := on_conn (modify f).

(** [self.keys.drop_..(); self.sent_tracker.drop_space(..); self.loss_detector.drop_space(..)]. *)
Definition forget_initial : M Error t unit :=
  modify (λ c, c <| keys := ConnectionKeys.drop_initial (keys c) |> <| path := Ack.drop_level Level.Initial (path c) |>).
Definition forget_handshake : M Error t unit :=
  modify (λ c, c <| keys := ConnectionKeys.drop_handshake (keys c) |> <| path := Ack.drop_level Level.Handshake (path c) |>).

(** ** Keys from TLS *)

Definition is_server (c : t) : bool := bool_decide (role c = Tls.Server).

(** The parameters of the peer take effect. *)
Definition apply_peer_params (p : TransportParams.t) (c : t) : t :=
  let fc := FlowControl.handle_max_data (TransportParams.initial_max_data p) (flow_control c) in
  let fc := FlowControl.handle_max_streams true (TransportParams.initial_max_streams_bidi p) fc in
  let fc := FlowControl.handle_max_streams false (TransportParams.initial_max_streams_uni p) fc in
  let l := TransportParams.max_idle_timeout (local_params c) in
  let r := TransportParams.max_idle_timeout p in
  let effective_ms := if l =? 0 then r else if r =? 0 then l else Z.min l r in
  let c := c <| flow_control := fc |> in
  let c := if effective_ms =? 0 then c else c <| idle_timeout := Some (Z.min u64_max (effective_ms * 1000)) |> in
  c <| peer_params := Some p |>.

Definition install_level (lvl : Level.t) : M Error t unit :=
  c ← get;
  match lvl with
  | Level.Handshake => if is_client c then forget_initial else mret tt
  | Level.Application =>
      if is_server c && bool_decide (state c = Handshaking) then
        _ ← modify (λ c, push_event Connected (c <| state := Active |> <| address_validated := true |>));
        forget_handshake
      else mret tt
  | Level.Initial => mret tt
  end.

(** The loop: the engine hands out its pending keys once, so the second round finds
    none. *)
Fixpoint install_keys (fuel : nat) (slot : Z) : M Error env unit :=
  derived ← on_ctx slot (on_tls (λ x, let '(d, x) := Tls.derived_keys x in (Ok d, x)));
  match derived with
  | None => mret tt
  | Some derived =>
      match fuel with
      | O => lift Panic
      | S fuel =>
          let lvl := TlsHandshake.level derived in
          _ ← on_conn (on_keys (ConnectionKeys.install_derived derived));
          _ ← on_conn (install_level lvl);
          params ← on_ctx slot (on_tls (λ x, (Ok (Tls.peer_params x), x)));
          _ ← match params with Some p => update_conn (apply_peer_params p) | None => mret tt end;
          install_keys fuel slot
      end
  end.

(** Whether the slot is not needed any more. *)
Definition can_release (slot : Z) : M Error env bool :=
  c ← conn_of;
  if is_server c then mret (bool_decide (state c = Active))
  else if ConnectionKeys.is_some (ConnectionKeys.app_send (keys c)) && ConnectionKeys.is_some (ConnectionKeys.app_recv (keys c))
  then on_ctx slot (on_tls (λ x, (Ok (Tls.is_complete x), x)))
  else mret false.

Definition maybe_release_handshake_slot : M Error env unit :=
  c ← conn_of;
  match handshake_slot c with
  | None => mret tt
  | Some slot =>
      b ← can_release slot;
      if (b : bool) then modify (λ e, e <| pool := release slot (pool e) |> <| conn := (conn e) <| handshake_slot := None |> |>)
      else mret tt
  end.

Definition check_tls_keys : M Error env unit :=
  c ← conn_of;
  match handshake_slot c with
  | None => mret tt
  | Some slot => _ ← install_keys 1 slot; maybe_release_handshake_slot
  end.

(** ** Frames *)

Definition MAX_CRYPTO_OFFSET : Z := 2 ^ 20.

Definition on_reasm {A} (lvl : Level.t) : M Error CryptoReassemblyBuf.t A → M Error HandshakeContext A :=
  sub (λ x, at_level (crypto_reasm x) lvl) (λ b x, x <| crypto_reasm := set_level lvl b (crypto_reasm x) |>).

(** The length of the TLS message at the front of [hdr]. *)
Definition message_len (hdr : list Z) : result Z :=
  b1 ← idx hdr 1; b2 ← idx hdr 2; b3 ← idx hdr 3;
  Ok (4 + Z.lor (Z.lor (Z.shiftl b1 16) (Z.shiftl b2 8)) b3).

(** A complete TLS message goes to the engine and leaves the reassembly buffer;
    [false] when there is none. *)
Definition deliver_message (lvl : Level.t) : M Error HandshakeContext bool :=
  x ← get;
  let b := at_level (crypto_reasm x) lvl in
  let avail := CryptoReassemblyBuf.contiguous_len b in
  if avail <? 4 then mret false else
  data ← lift (CryptoReassemblyBuf.contiguous_data b);
  msg_len ← lift (message_len data);
  if avail <? msg_len then mret false else
  msg ← lift (slice data 0 msg_len);
  _ ← on_tls (Tls.read_handshake grant lvl msg);
  _ ← on_reasm lvl (CryptoReassemblyBuf.advance msg_len);
  mret true.

(** Every message takes at least four bytes of the buffer. *)
Fixpoint deliver_loop (fuel : nat) (lvl : Level.t) : M Error env unit :=
  c ← conn_of;
  match handshake_slot c with
  | None => mret tt
  | Some slot =>
      more ← on_ctx slot (deliver_message lvl);
      if negb (more : bool) then mret tt else
      match fuel with
      | O => lift Panic
      | S fuel => _ ← check_tls_keys; deliver_loop fuel lvl
      end
  end.

Definition handle_crypto_frame (lvl : Level.t) (offset : Z) (data : list Z) : M Error env unit :=
  c ← conn_of;
  match handshake_slot c with
  | None => mret tt
  | Some slot =>
      if (MAX_CRYPTO_OFFSET <? offset) || (MAX_CRYPTO_OFFSET <? sat_add 64 offset (len data))
      then throw (Transport TransportError.CryptoBufferExceeded) else
      _ ← on_ctx slot (on_reasm lvl (CryptoReassemblyBuf.insert offset data));
      deliver_loop CRYPTO_BUF lvl
  end.

Definition handle_stream_frame (f : StreamFrame) : M Error env unit :=
  c ← conn_of;
  let initial_max := TransportParams.initial_max_stream_data_bidi_remote (local_params c) in
  _ ← on_conn (attempt (on_streams (Stream.get_or_create (st_stream_id f) (is_client c) initial_max)));
  c ← conn_of;
  match Stream.get (streams c) (st_stream_id f) with
  | None => mret tt
  | Some _ =>
      new_bytes ← on_conn (on_streams (Stream.mark_recv (st_stream_id f) (st_offset f) (len (st_data f)) (st_fin f)));
      _ ← on_conn (on_flow (FlowControl.on_recv new_bytes));
      _ ← on_io (QuicIo.store_stream_data (st_stream_id f) (st_offset f) (st_data f) (st_fin f));
      update_conn (push_event (StreamReadable (st_stream_id f)))
  end.

(** A frame about a stream that exists: the error of its handler is ignored. *)
Definition on_known_stream (stream_id : Z) (f : M Error Stream.StreamMap unit) (e : Event) : M Error env unit :=
  c ← conn_of;
  match Stream.get (streams c) stream_id with
  | None => mret tt
  | Some _ => _ ← on_conn (attempt (on_streams f)); update_conn (push_event e)
  end.

Definition handle_handshake_done : M Error env unit :=
  c ← conn_of;
  if negb (is_client c) then mret tt else
  _ ← (if bool_decide (state c = Handshaking)
       then update_conn (λ c, push_event Connected (c <| state := Active |> <| address_validated := true |>)) else mret tt);
  on_conn forget_handshake.

Definition dispatch_frame (lvl : Level.t) (now : Z) (f : Frame.t) : M Error env unit :=
  match f with
  | Padding | Ping => mret tt
  | Frame.Ack ack =>
      c ← conn_of;
      on_conn (on_path (Ack.handle_ack lvl ack now (bool_decide (state c = Active))))
  | Frame.Crypto f => handle_crypto_frame lvl (cr_offset f) (cr_data f)
  | Frame.Stream f => handle_stream_frame f
  | MaxData v => on_conn (on_flow (modify (FlowControl.handle_max_data v)))
  | MaxStreamData f =>
      _ ← on_conn (attempt (on_streams (Stream.handle_max_stream_data (msd_stream_id f) (msd_max_data f)))); mret tt
  | MaxStreams f => on_conn (on_flow (modify (FlowControl.handle_max_streams (ms_bidirectional f) (ms_max_streams f))))
  | ResetStream f =>
      on_known_stream (rs_stream_id f) (Stream.handle_reset (rs_stream_id f) (rs_final_size f))
        (StreamReset (rs_stream_id f) (rs_error_code f))
  | Frame.StopSending f =>
      on_known_stream (ss_stream_id f) (Stream.handle_stop_sending (ss_stream_id f))
        (StopSending (ss_stream_id f) (ss_error_code f))
  | Frame.ConnectionClose f =>
      update_conn (λ c, push_event (ConnectionClose (cc_error_code f) (take 64 (Frame.reason f))) (c <| state := Draining |>))
  | HandshakeDone => handle_handshake_done
  | PathChallenge data => update_conn (λ c, c <| pending_path_response := Some data |>)
  | NewToken _ | NewConnectionId _ | RetireConnectionId _ | PathResponse _
  | DataBlocked _ | StreamDataBlocked _ | StreamsBlocked _ => mret tt
  end.

Definition dispatch_frames (payload : list Z) (lvl : Level.t) (now : Z) : M Error env bool :=
  Dispatch.dispatch_frames (dispatch_frame lvl now) payload.

(** ** Packets *)

(** A packet that has been opened: a duplicate is not dispatched. *)
Definition dispatch_packet (lvl : Level.t) (now payload_offset pt_len n : Z) : M Error env PacketResult :=
  c ← conn_of;
  if PnTracker.contains (at_level (recv_pn_tracker c) lvl) n then mret (MkPacketResult false lvl n) else
  e ← get;
  payload ← lift (slice (mem e) payload_offset (payload_offset + pt_len));
  elicits ← dispatch_frames payload lvl now;
  mret (MkPacketResult elicits lvl n).

Definition largest_pn (lvl : Level.t) (c : t) : Z := default 0 (at_level (largest_recv_pn c) lvl).

(** The keys of the Initial space, from the first Initial packet. *)
Definition learn_initial_keys (dcid : list Z) : M Error env unit :=
  c ← conn_of;
  if ConnectionKeys.has_recv_keys Level.Initial (keys c) then mret tt else
  _ ← on_conn (on_keys (ConnectionKeys.derive_initial dcid (is_client c)));
  if is_server c then
    match handshake_slot c with
    | Some slot => on_ctx slot (on_tls (Tls.set_transport_param_cids dcid (local_scid c)))
    | None => mret tt
    end
  else mret tt.

Definition learn_remote_cid (scid : list Z) (c : t) : t :=
  if len scid =? 0 then c else
  if (cid_len (remote_cid c) =? 0) || (is_client c && bool_decide (state c = Handshaking))
  then c <| remote_cid := cid_from_slice scid |> else c.

Definition recv_initial (pkt_data : list Z) (now : Z) : M Error env PacketResult :=
  r ← lift (Packet.parse_initial_header pkt_data);
  let hdr := r.1 in
  _ ← learn_initial_keys (Packet.ih_dcid hdr);
  _ ← update_conn (learn_remote_cid (Packet.ih_scid hdr));
  c ← conn_of;
  recv ← lift (ok_or Crypto (ConnectionKeys.initial_recv (keys c)));
  '(payload_offset, pt_len, n) ← on_mem (Protection.decrypt_long_packet pkt_data (Packet.ih_pn_offset hdr) (Packet.ih_payload_length hdr)
                                          (largest_pn Level.Initial c) recv);
  dispatch_packet Level.Initial now payload_offset pt_len n.

(** A duplicate returns before the keys of the Initial space are dropped. *)
Definition recv_handshake (pkt_data : list Z) (now : Z) : M Error env PacketResult :=
  r ← lift (Packet.parse_handshake_header pkt_data);
  let hdr := r.1 in
  c ← conn_of;
  recv ← lift (ok_or Crypto (ConnectionKeys.recv_keys Level.Handshake (keys c)));
  '(payload_offset, pt_len, n) ← on_mem (Protection.decrypt_long_packet pkt_data (Packet.hh_pn_offset hdr) (Packet.hh_payload_length hdr)
                                          (largest_pn Level.Handshake c) recv);
  if PnTracker.contains (at_level (recv_pn_tracker c) Level.Handshake) n then mret (MkPacketResult false Level.Handshake n) else
  r ← dispatch_packet Level.Handshake now payload_offset pt_len n;
  c ← conn_of;
  _ ← (if is_server c && ConnectionKeys.has_send_keys Level.Initial (keys c) then on_conn forget_initial else mret tt);
  mret r.

Definition on_update (f : KeyUpdateState.t → KeyUpdateState.t) : M Error env unit :=
  on_conn (on_keys (ConnectionKeys.on_update f)).

(** Opening a short packet whose key phase is ours: with the current keys, else with
    the previous ones. *)
Definition open_current (pkt_data : list Z) (n payload_offset : Z) : M Error env Z :=
  c ← conn_of;
  recv ← lift (ok_or Crypto (ConnectionKeys.recv_keys Level.Application (keys c)));
  r ← on_mem (attempt (Protection.open_short recv n payload_offset (len pkt_data)));
  match r with
  | Some pt_len =>
      d ← lift (uadd 64 (KeyUpdateState.packets_decrypted (ConnectionKeys.key_update (keys c))) 1);
      _ ← on_update (λ u, u <| KeyUpdateState.packets_decrypted := d |> <| KeyUpdateState.update_confirmed := true |>);
      mret pt_len
  | None =>
      src ← lift (slice pkt_data payload_offset (len pkt_data));
      _ ← on_mem (store_slice payload_offset (len pkt_data) src);
      prev ← lift (ok_or Crypto (ConnectionKeys.prev_recv_keys (keys c)));
      on_mem (Protection.open_short prev n payload_offset (len pkt_data))
  end.

(** Opening one whose key phase differs: with the next keys, which then are
    installed. *)
Definition open_next (pkt_data : list Z) (n payload_offset : Z) : M Error env Z :=
  c ← conn_of;
  next ← lift (ConnectionKeys.derive_next_recv_keys (keys c));
  pt_len ← on_mem (Protection.open_short next n payload_offset (len pkt_data));
  _ ← on_conn (on_keys (ConnectionKeys.confirm_peer_key_update next));
  mret pt_len.

Definition recv_short (pkt_data : list Z) (now : Z) : M Error env PacketResult :=
  c ← conn_of;
  r ← lift (Packet.parse_short_header pkt_data (local_scid_len c));
  let pn_offset := r.2 in
  recv ← lift (ok_or Crypto (ConnectionKeys.recv_keys Level.Application (keys c)));
  _ ← on_mem (Protection.load_packet (len pkt_data) pkt_data);
  '(pn_len, n) ← on_mem (Protection.unprotect 0x1f (len pkt_data) pn_offset (largest_pn Level.Application c)
                           (DirectionalKeys.header_protection recv));
  e ← get;
  b ← lift (idx (mem e) 0);
  let received_key_phase := Z.land (Z.shiftr b 2) 1 in
  if PnTracker.contains (at_level (recv_pn_tracker c) Level.Application) n
  then mret (MkPacketResult false Level.Application n) else
  let payload_offset := pn_offset + pn_len in
  pt_len ← (if received_key_phase =? ConnectionKeys.key_phase (keys c)
            then open_current pkt_data n payload_offset else open_next pkt_data n payload_offset);
  e ← get;
  payload ← lift (slice (mem e) payload_offset (payload_offset + pt_len));
  elicits ← dispatch_frames payload Level.Application now;
  mret (MkPacketResult elicits Level.Application n).

(** ** Datagrams *)

(** A packet was processed: it is to be acknowledged. *)
Definition note_received (pr : PacketResult) : M Error t unit :=
  _ ← modify (λ c, if ack_eliciting pr then c <| ack_eliciting_received := set_level (level pr) true (ack_eliciting_received c) |> else c);
  _ ← modify (λ c,
        match at_level (largest_recv_pn c) (level pr) with
        | Some prev => if prev <? pn pr then c <| largest_recv_pn := set_level (level pr) (Some (pn pr)) (largest_recv_pn c) |> else c
        | None => c <| largest_recv_pn := set_level (level pr) (Some (pn pr)) (largest_recv_pn c) |>
        end);
  track_received_pn (level pr) (pn pr).

(** One packet: an error discards it. *)
Definition recv_packet (pkt_data : list Z) (now : Z) : M Error env unit :=
  if len pkt_data =? 0 then mret tt else
  first_byte ← lift (idx pkt_data 0);
  let is_long := negb (Z.land first_byte 0x80 =? 0) in
  let pkt_type := Z.shiftr (Z.land first_byte 0x30) 4 in
  r ← (if is_long then
         if pkt_type =? 0 then attempt (recv_initial pkt_data now)
         else if pkt_type =? 2 then attempt (recv_handshake pkt_data now)
         else mret None
       else attempt (recv_short pkt_data now));
  match r with
  | Some pr => on_conn (note_received pr)
  | None => mret tt
  end.

Fixpoint recv_packets (pkts : list (result (list Z))) (now : Z) : M Error env unit :=
  match pkts with
  | [] => mret tt
  | Ok pkt :: pkts => _ ← recv_packet pkt now; recv_packets pkts now
  | Err _ :: _ => mret tt
  | Panic :: _ => lift Panic
  end.

Definition recv (datagram : list Z) (now : Z) : M Error env unit :=
  c ← conn_of;
  if bool_decide (state c = Closed) then throw Errors.Closed else
  _ ← update_conn (λ c, c <| last_activity := now |>);
  _ ← (if address_validated c then mret tt
       else update_conn (λ c, c <| anti_amplification_bytes_received :=
              sat_add usize_bits (anti_amplification_bytes_received c) (len datagram) |>));
  _ ← recv_packets (Packet.coalesced_all (S (length datagram)) datagram 0) now;
  check_tls_keys.

End recv.
End QuicRecv.
