(* ===== verification/QuicTransmit.v ===== *)
(** * Sending: [src/connection/transmit.rs]

    [poll_transmit] builds the next datagram: a CONNECTION_CLOSE, or the packets of the
    three levels one behind the other. *)
From S2P Require Import Prelude Errors Varint Frame Buf PacketNumber PacketHeader Recovery Congestion Loss AckProcessing StreamMap.
From S2P Require Import FlowControl TlsParams TlsMessages Crypto TlsHandshake QuicKeys QuicPn CryptoBuf QuicPacket QuicIo QuicConn QuicRecv.

Module QuicTransmit.
Import Quic QuicRecv.

Section transmit.
Context `{Params} `{Platform} `{Primitives}.
Variable grant : Z → bool.

(** [None] of the builders, which leaves the effects so far in place. *)
Definition none {A} : M Error env A := throw WouldBlock.

(** A call on the reborrowed [&mut buf[a..]]. *)
Definition from {A} (a : Z) (m : M Error env A) : M Error env A := λ e,
  if decide (0 ≤ a ≤ len (mem e)) then
    let '(r, e') := m (e <| mem := drop (Z.to_nat a) (mem e) |>) in
    (r, e' <| mem := take (Z.to_nat a) (mem e) ++ mem e' |>)
  else (Panic, e).

(** [frame::encode(&f, &mut buf[pos..])] whose error means that it does not fit. *)
Definition try_encode (pos : Z) (f : Frame.t) : M Error env (option Z) := on_mem (attempt (with_from pos (Frame.encode f))).

(** ** Frames *)

(** The gap and length of each further range, written into [range_buf] from the
    highest down; the loop ends when the buffer is full. *)
Fixpoint write_ranges (l : list (Z * Z)) (prev_smallest range_pos : Z) : M Error (list Z) Z :=
  match l with
  | [] => mret range_pos
  | (r_start, r_end) :: l =>
      gap ← lift (usub prev_smallest r_end);
      gap ← lift (usub gap 2);
      ack_range ← lift (usub r_end r_start);
      n ← attempt (with_from range_pos (encode_varint gap));
      match n with
      | None => mret range_pos
      | Some n =>
          let range_pos := range_pos + n in
          n ← attempt (with_from range_pos (encode_varint ack_range));
          match n with
          | None => mret range_pos
          | Some n => write_ranges l r_start (range_pos + n)
          end
      end
  end.

(** The ACK frame of the packets received, [None] when there are none. *)
Definition ack_frame (tracker : PnTracker.t) : result (option Frame.t) :=
  match rev (PnTracker.ranges tracker) with
  | [] => Ok None
  | (highest_start, highest_end) :: lower =>
      first_ack_range ← usub highest_end highest_start;
      let '(r, range_buf) := write_ranges lower highest_start 0 (replicate 256 0) in
      range_pos ← r;
      raw ← slice range_buf 0 range_pos;
      Ok (Some (Frame.Ack {| Frame.largest_ack := highest_end; Frame.ack_delay := 0; Frame.first_ack_range := first_ack_range;
                             Frame.ack_ranges := raw; Frame.ecn := None |}))
  end.

Definition build_ack_frame (lvl : Level.t) (pos : Z) : M Error env (option Z) :=
  c ← conn_of;
  f ← lift (ack_frame (at_level (recv_pn_tracker c) lvl));
  match f with None => mret None | Some f => try_encode pos f end.

(** "ACK frame if needed": the bytes written. *)
Definition ack_if_needed (lvl : Level.t) (pos : Z) : M Error env Z :=
  c ← conn_of;
  if at_level (ack_eliciting_received c) lvl then
    n ← build_ack_frame lvl pos;
    match n with
    | Some n => _ ← update_conn (λ c, c <| ack_eliciting_received := set_level lvl false (ack_eliciting_received c) |>); mret n
    | None => mret 0
    end
  else mret 0.

(** *** CRYPTO *)

(** Output of the TLS engine is staged when everything staged before was sent; a
    stream longer than its buffer fails an assertion of debug builds. *)
Definition stage_crypto (lvl : Level.t) : M Error HandshakeContext unit :=
  x ← get;
  let sent := as_usize (at_level (crypto_send_offset x) lvl) in
  n ← lift (Buf.blen (at_level (pending_crypto x) lvl));
  if negb (sent =? n) then mret tt else
  r ← attempt (on_tls (Tls.write_handshake grant 2048));
  match r with
  | None => mret tt
  | Some (out, tls_level) =>
      if len out =? 0 then mret tt else
      x ← get;
      match Buf.extend_from_slice 2048 grant out (at_level (pending_crypto x) tls_level) with
      | Ok b => modify (λ x, x <| pending_crypto := set_level tls_level b (pending_crypto x) |>
                               <| pending_crypto_level := set_level tls_level tls_level (pending_crypto_level x) |>)
      | Err _ => if overflow_checks then lift Panic
                 else modify (λ x, x <| pending_crypto_level := set_level tls_level tls_level (pending_crypto_level x) |>)
      | Panic => lift Panic
      end
  end.

Definition FRAME_OVERHEAD : Z := 33.

(** Into [&mut buf[pos..]]; the bytes written. *)
Definition write_tls_crypto_data (lvl : Level.t) (pos : Z) : M Error env Z :=
  c ← conn_of;
  match handshake_slot c with
  | None => mret 0
  | Some slot =>
      _ ← on_ctx slot (stage_crypto lvl);
      x ← on_ctx slot get;
      let offset := at_level (crypto_send_offset x) lvl in
      pending ← lift (Buf.as_slice (at_level (pending_crypto x) lvl));
      unsent ← lift (usub (len pending) (as_usize offset));
      if unsent =? 0 then mret 0 else
      e ← get;
      room ← lift (usub (len (mem e)) pos);
      if room <=? FRAME_OVERHEAD then mret 0 else
      let send_len := Z.min (room - FRAME_OVERHEAD) unsent in
      let start := as_usize offset in
      data ← lift (slice pending start (start + send_len));
      n ← try_encode pos (Frame.Crypto {| Frame.cr_offset := offset; Frame.cr_data := data |});
      match n with
      | None => mret 0
      | Some n =>
          o ← lift (uadd 64 offset send_len);
          _ ← on_ctx slot (modify (λ x, x <| crypto_send_offset := set_level lvl o (crypto_send_offset x) |>));
          mret n
      end
  end.

(** *** STREAM *)

(** Frames for the entries of the queue, in order, into [buf[pos..end]]: the bytes
    written and the entries sent. *)
Fixpoint write_entries (q : list QuicIo.StreamSendEntry) (total : Z) : M Error (list Z) (Z * nat) :=
  match q with
  | [] => mret (total, O)
  | entry :: q =>
      l ← buf_len;
      remaining ← lift (usub l total);
      if remaining <? 16 then mret (total, O) else
      data ← lift (slice (QuicIo.e_data entry) 0 (QuicIo.e_len entry));
      n ← attempt (with_from total (Frame.encode (Frame.Stream {|
             Frame.st_stream_id := QuicIo.e_stream_id entry; Frame.st_offset := QuicIo.e_offset entry;
             Frame.st_data := data; Frame.st_fin := QuicIo.e_fin entry |})));
      match n with
      | None => mret (total, O)
      | Some n => r ← write_entries q (total + n); mret (r.1, S r.2)
      end
  end.

(** A call on [&mut buf[pos..end]]. *)
Definition within {A} (pos end_ : Z) (f : M Error (list Z) A) : M Error (list Z) A := λ l,
  if decide (0 ≤ pos ≤ end_ ∧ end_ ≤ len l) then
    let '(r, part) := f (take (Z.to_nat (end_ - pos)) (drop (Z.to_nat pos) l)) in
    (r, take (Z.to_nat pos) l ++ part ++ drop (Z.to_nat end_) l)
  else (Panic, l).

Definition build_stream_frames (pos end_ : Z) : M Error env Z :=
  e ← get;
  r ← on_mem (within pos end_ (write_entries (QuicIo.send_queue (io e)) 0));
  _ ← on_io (modify (λ q, q <| QuicIo.send_queue := drop r.2 (QuicIo.send_queue q) |>));
  mret r.1.

(** ** Packets *)

(** The accounting of a packet that was sealed; the error of a full tracker is
    ignored. *)
Definition record_packet (lvl : Level.t) (n now total : Z) (elicits in_flight : bool) : M Error t unit :=
  next ← lift (uadd 64 n 1);
  _ ← modify (λ c, c <| next_pn := set_level lvl next (next_pn c) |>);
  _ ← attempt (on_path (Ack.on_tracker (Recovery.on_packet_sent SENT_PER_SPACE {|
        Recovery.pn := n; Recovery.level := lvl; Recovery.time_sent := now; Recovery.size := trunc 16 total;
        Recovery.ack_eliciting := elicits; Recovery.in_flight := in_flight |})));
  _ ← (if elicits then on_path (Ack.on_detector (modify (Loss.on_ack_eliciting_sent lvl now))) else mret tt);
  if in_flight then on_path (Ack.on_congestion (Congestion.on_packet_sent total)) else mret tt.

Definition MIN_INITIAL_PACKET_SIZE : Z := 1200.

(** The padding of an Initial packet with [frame_len] bytes of frames, and the length
    of its header, for a header of [base_header] bytes without its Length field. *)
Definition initial_padding (base_header pn_len frame_len : Z) (pad_to_min : bool) : Z * Z :=
  let tag_len := 16 in
  let base_payload_length := pn_len + frame_len + tag_len in
  let length_vi_len := varint_len base_payload_length in
  let header_len := base_header + length_vi_len in
  let total_no_pad := header_len + base_payload_length in
  let padding_needed := if pad_to_min && (total_no_pad <? MIN_INITIAL_PACKET_SIZE)
                        then MIN_INITIAL_PACKET_SIZE - total_no_pad else 0 in
  let new_vi_len := varint_len (pn_len + frame_len + padding_needed + tag_len) in
  if new_vi_len =? length_vi_len then (padding_needed, header_len) else
  let header_len := base_header + new_vi_len in
  let total := header_len + pn_len + frame_len + padding_needed + tag_len in
  (if pad_to_min && (total <? MIN_INITIAL_PACKET_SIZE) then padding_needed + (MIN_INITIAL_PACKET_SIZE - total) else padding_needed,
   header_len).

(** [for i in 0..n { buf[start + i] = 0x00; }]. *)
Definition zero_fill (start n : Z) : M Error (list Z) unit :=
  if n <=? 0 then mret tt else store_slice start (start + n) (replicate (Z.to_nat n) 0).

(** [.ok()?]. *)
Definition ok_some {A} (m : M Error env A) : M Error env A :=
  r ← attempt m; match r with Some a => mret a | None => none end.

Definition next_pn_len (lvl : Level.t) (c : t) : Z := pn_length (at_level (next_pn c) lvl) (largest_pn lvl c).
Definition dcid_len (c : t) : Z := cid_len (remote_cid c).

(** Frames written behind a reserved header move up to it. *)
Definition shift_frames (reserve frame_len payload_start : Z) : M Error (list Z) unit :=
  if payload_start =? reserve then mret tt else
  l ← get;
  l' ← lift (copy_within l reserve (reserve + frame_len) payload_start);
  put l'.

(** Sealing with keys taken from the connection. *)
Definition seal (send : option DirectionalKeys.t) (pn_offset payload_start padded_frame_len n pn_len : Z) (is_long : bool)
    : M Error env Z :=
  match send with
  | None => throw Crypto
  | Some k => on_mem (Protection.encrypt_and_protect pn_offset payload_start padded_frame_len n pn_len is_long k)
  end.

Definition build_initial_packet (now : Z) : M Error env Z :=
  let lvl := Level.Initial in
  e ← get;
  let c := conn e in
  let buf_length := len (mem e) in
  let n := at_level (next_pn c) lvl in
  let largest_acked := largest_pn lvl c in
  let pn_len := next_pn_len lvl c in
  let max_header := 1 + 4 + 1 + dcid_len c + 1 + local_scid_len c + 1 + 8 in
  let reserve := max_header + pn_len in
  if buf_length <? reserve + 32 then none else
  acked ← ack_if_needed lvl reserve;
  crypto_written ← (if MIN_INITIAL_PACKET_SIZE <=? buf_length then write_tls_crypto_data lvl (reserve + acked) else mret 0);
  let frame_len := acked + crypto_written in
  if frame_len =? 0 then none else
  let has_crypto := 0 <? crypto_written in
  let pad_to_min := is_client c || has_crypto in
  let base_header := 1 + 4 + 1 + dcid_len c + 1 + local_scid_len c + varint_len 0 in
  let '(padding_needed, header_len) := initial_padding base_header pn_len frame_len pad_to_min in
  let padded_frame_len := frame_len + padding_needed in
  let payload_length := pn_len + padded_frame_len + 16 in
  if buf_length <? header_len + payload_length then none else
  pn_offset ← ok_some (on_mem (Packet.encode_initial_header (cid_as_slice (remote_cid c)) (local_scid c) [] pn_len payload_length));
  _ ← ok_some (on_mem (with_from pn_offset (encode_pn n largest_acked)));
  let payload_start := pn_offset + pn_len in
  _ ← on_mem (shift_frames reserve frame_len payload_start);
  _ ← on_mem (zero_fill (payload_start + frame_len) padding_needed);
  total ← ok_some (seal (ConnectionKeys.initial_send (keys c)) pn_offset payload_start padded_frame_len n pn_len true);
  _ ← on_conn (record_packet lvl n now total has_crypto (has_crypto || (0 <? padding_needed)));
  mret total.

Definition build_handshake_packet (now : Z) : M Error env Z :=
  let lvl := Level.Handshake in
  e ← get;
  let c := conn e in
  let n := at_level (next_pn c) lvl in
  let largest_acked := largest_pn lvl c in
  let pn_len := next_pn_len lvl c in
  let max_header := 1 + 4 + 1 + dcid_len c + 1 + local_scid_len c + 8 in
  let reserve := max_header + pn_len in
  if len (mem e) <? reserve + 32 then none else
  acked ← ack_if_needed lvl reserve;
  crypto_written ← write_tls_crypto_data lvl (reserve + acked);
  let frame_len := acked + crypto_written in
  if frame_len =? 0 then none else
  let payload_length := pn_len + frame_len + 16 in
  pn_offset ← ok_some (on_mem (Packet.encode_handshake_header (cid_as_slice (remote_cid c)) (local_scid c) pn_len payload_length));
  _ ← ok_some (on_mem (with_from pn_offset (encode_pn n largest_acked)));
  let payload_start := pn_offset + pn_len in
  _ ← on_mem (shift_frames reserve frame_len payload_start);
  total ← ok_some (seal (ConnectionKeys.handshake_send (keys c)) pn_offset payload_start frame_len n pn_len true);
  let elicits := 0 <? crypto_written in
  _ ← on_conn (record_packet lvl n now total elicits elicits);
  mret total.

(** *** 1-RTT *)

(** The control frames of a short packet, one after the other: each returns the bytes
    of frames so far and whether they elicit an ACK. *)
Definition put_handshake_done (payload_start : Z) : M Error env (Z * bool) :=
  c ← conn_of;
  if is_server c && need_handshake_done c then
    n ← try_encode payload_start Frame.HandshakeDone;
    mret (match n with Some n => (n, true) | None => (0, false) end)
  else mret (0, false).

Definition put_path_response (payload_start : Z) (fl : Z * bool) : M Error env (Z * bool) :=
  c ← conn_of;
  match pending_path_response c with
  | None => mret fl
  | Some data =>
      _ ← update_conn (λ c, c <| pending_path_response := None |>);
      n ← try_encode (payload_start + fl.1) (Frame.PathResponse data);
      match n with
      | Some n => mret (fl.1 + n, true)
      | None => _ ← update_conn (λ c, c <| pending_path_response := Some data |>); mret fl
      end
  end.

Definition put_max_data (payload_start : Z) (fl : Z * bool) : M Error env (Z * bool) :=
  c ← conn_of;
  o ← lift (FlowControl.should_send_max_data (flow_control c));
  match o with
  | None => mret fl
  | Some new_max =>
      n ← try_encode (payload_start + fl.1) (Frame.MaxData new_max);
      match n with
      | Some n => _ ← on_conn (on_flow FlowControl.max_data_sent); mret (fl.1 + n, true)
      | None => mret fl
      end
  end.

(** Every frame commits the limit of a stream, so the loop takes at most one round per
    stream. *)
Fixpoint put_max_stream_data (fuel : nat) (payload_start : Z) (fl : Z * bool) : M Error env (Z * bool) :=
  c ← conn_of;
  match Stream.should_send_max_stream_data (streams c) with
  | None => mret fl
  | Some (sid, new_max) =>
      n ← try_encode (payload_start + fl.1) (Frame.MaxStreamData {| Frame.msd_stream_id := sid; Frame.msd_max_data := new_max |});
      match n with
      | None => mret fl
      | Some n =>
          _ ← on_conn (on_streams (modify (Stream.mark_max_stream_data_sent sid)));
          match fuel with
          | O => lift Panic
          | S fuel => put_max_stream_data fuel payload_start (fl.1 + n, true)
          end
      end
  end.

Definition put_stream_frames (payload_start : Z) (fl : Z * bool) : M Error env (Z * bool) :=
  e ← get;
  let buf_avail := sat_sub (len (mem e)) (payload_start + fl.1) in
  let stream_budget := Z.min (as_usize (Congestion.available_window (Ack.congestion (path (conn e))))) buf_avail in
  written ← (if 0 <? stream_budget
             then build_stream_frames (payload_start + fl.1) (payload_start + fl.1 + stream_budget) else mret 0);
  mret (fl.1 + written, fl.2 || (0 <? written)).

(** The padding that leaves enough ciphertext for the header protection sample. *)
Definition sample_padding (pn_len frame_len : Z) : Z :=
  let min_encrypted := sat_sub 20 pn_len in
  if frame_len + 16 <? min_encrypted then min_encrypted - frame_len - 16 else 0.

Definition short_first_byte (c : t) (pn_len : Z) : Z :=
  Z.lor (Z.lor 0x40 (Z.shiftl (Z.land (ConnectionKeys.key_phase (keys c)) 1) 2)) (pn_len - 1).

Definition count_encrypted : M Error t unit :=
  c ← get;
  n ← lift (uadd 64 (KeyUpdateState.packets_encrypted (ConnectionKeys.key_update (keys c))) 1);
  on_keys (ConnectionKeys.on_update (λ u, u <| KeyUpdateState.packets_encrypted := n |>)).

(** All frames of a short packet. *)
Definition short_frames (payload_start : Z) : M Error env (Z * bool * bool) :=
  done ← put_handshake_done payload_start;
  fl ← put_path_response payload_start done;
  acked ← ack_if_needed Level.Application (payload_start + fl.1);
  fl ← put_max_data payload_start (fl.1 + acked, fl.2);
  c ← conn_of;
  fl ← put_max_stream_data (length (Stream.streams (streams c))) payload_start fl;
  fl ← put_stream_frames payload_start fl;
  mret (fl.1, fl.2, done.2).

Definition build_short_packet (now : Z) : M Error env Z :=
  let lvl := Level.Application in
  e ← get;
  let c := conn e in
  let n := at_level (next_pn c) lvl in
  let largest_acked := largest_pn lvl c in
  let pn_len := next_pn_len lvl c in
  let pn_offset := 1 + dcid_len c in
  let payload_start := pn_offset + pn_len in
  if len (mem e) <? payload_start + 32 then none else
  '(frame_len, elicits, sending_handshake_done) ← short_frames payload_start;
  if frame_len =? 0 then none else
  let padding_needed := sample_padding pn_len frame_len in
  let padded_frame_len := frame_len + padding_needed in
  _ ← on_mem (zero_fill (payload_start + frame_len) padding_needed);
  _ ← ok_some (on_mem (Packet.encode_short_header (cid_as_slice (remote_cid c)) (short_first_byte c pn_len)));
  _ ← ok_some (on_mem (with_from pn_offset (encode_pn n largest_acked)));
  total ← ok_some (seal (ConnectionKeys.app_send (keys c)) pn_offset payload_start padded_frame_len n pn_len false);
  _ ← update_conn (λ c, if (sending_handshake_done : bool) then c <| need_handshake_done := false |> else c);
  _ ← on_conn count_encrypted;
  _ ← on_conn (record_packet lvl n now total elicits elicits);
  mret total.

(** *** CONNECTION_CLOSE *)

(** The frames and their padding at [payload_start], then the seal. *)
Definition seal_frames (payload_frames : list Z) (padding_needed pn_offset payload_start n pn_len : Z) (is_long : bool)
    (send : option DirectionalKeys.t) : M Error env Z :=
  let frame_len := len payload_frames in
  let padded_frame_len := frame_len + padding_needed in
  e ← get;
  if len (mem e) <? payload_start + padded_frame_len + 16 then throw (BufferTooSmall (payload_start + padded_frame_len + 16)) else
  _ ← on_mem (store_slice payload_start (payload_start + frame_len) payload_frames);
  _ ← on_mem (zero_fill (payload_start + frame_len) padding_needed);
  seal send pn_offset payload_start padded_frame_len n pn_len is_long.

Definition build_and_encrypt_initial_packet (payload_frames : list Z) (pad_to_min : bool) (now : Z) : M Error env Z :=
  let lvl := Level.Initial in
  c ← conn_of;
  let n := at_level (next_pn c) lvl in
  let largest_acked := largest_pn lvl c in
  let pn_len := next_pn_len lvl c in
  let dcid := cid_as_slice (remote_cid c) in
  let base_header := 1 + 4 + 1 + len dcid + 1 + len (local_scid c) + varint_len 0 + 0 in
  let '(padding_needed, _) := initial_padding base_header pn_len (len payload_frames) pad_to_min in
  let payload_length := pn_len + (len payload_frames + padding_needed) + 16 in
  pn_offset ← on_mem (Packet.encode_initial_header dcid (local_scid c) [] pn_len payload_length);
  pn_written ← on_mem (with_from pn_offset (encode_pn n largest_acked));
  total ← seal_frames payload_frames padding_needed pn_offset (pn_offset + pn_written) n pn_len true (ConnectionKeys.initial_send (keys c));
  _ ← on_conn (record_packet lvl n now total false false);
  mret total.

Definition build_and_encrypt_packet (lvl : Level.t) (payload_frames : list Z) (now : Z) : M Error env Z :=
  c ← conn_of;
  let n := at_level (next_pn c) lvl in
  let largest_acked := largest_pn lvl c in
  let pn_len := next_pn_len lvl c in
  let frame_len := len payload_frames in
  let padding_needed := sample_padding pn_len frame_len in
  let dcid := cid_as_slice (remote_cid c) in
  '(header_len, is_long) ←
    match lvl with
    | Level.Handshake =>
        hl ← on_mem (Packet.encode_handshake_header dcid (local_scid c) pn_len (pn_len + (frame_len + padding_needed + 16)));
        mret (hl, true)
    | Level.Application => hl ← on_mem (Packet.encode_short_header dcid (short_first_byte c pn_len)); mret (hl, false)
    | Level.Initial => throw InvalidState
    end;
  pn_written ← on_mem (with_from header_len (encode_pn n largest_acked));
  total ← seal_frames payload_frames padding_needed header_len (header_len + pn_written) n pn_len is_long
            (ConnectionKeys.send_keys lvl (keys c));
  _ ← (if bool_decide (lvl = Level.Application) then on_conn count_encrypted else mret tt);
  _ ← on_conn (record_packet lvl n now total false false);
  mret total.

(** The highest level there are keys for. *)
Definition close_level (k : ConnectionKeys.t) : option Level.t :=
  if ConnectionKeys.has_send_keys Level.Application k then Some Level.Application
  else if ConnectionKeys.has_send_keys Level.Handshake k then Some Level.Handshake
  else if ConnectionKeys.has_send_keys Level.Initial k then Some Level.Initial
  else None.

Definition transmit_close (error_code : Z) (reason : list Z) (now : Z) : M Error env Z :=
  c ← conn_of;
  match close_level (keys c) with
  | None => none
  | Some lvl =>
      let '(r, frame_buf) := Frame.encode (Frame.ConnectionClose {| Frame.is_application := false; Frame.cc_error_code := error_code;
                               Frame.cc_frame_type := 0; Frame.reason := reason |}) (replicate 128 0) in
      total ← match r with
              | Ok frame_len =>
                  frames ← lift (slice frame_buf 0 frame_len);
                  o ← attempt (if bool_decide (lvl = Level.Initial)
                               then build_and_encrypt_initial_packet frames (is_client c) now
                               else build_and_encrypt_packet lvl frames now);
                  mret (default 0 o)
              | Err _ => mret 0
              | Panic => lift Panic
              end;
      _ ← update_conn (λ c, c <| state := Closed |>);
      if 0 <? total then mret total else none
  end.

(** ** Datagrams *)

(** A packet is built behind what was written, when there are keys for its level. *)
Definition append_packet (lvl : Level.t) (build : M Error env Z) (total_written : Z) : M Error env Z :=
  c ← conn_of;
  if ConnectionKeys.has_send_keys lvl (keys c) then
    n ← attempt (from total_written build);
    mret (total_written + default 0 n)
  else mret total_written.

(** The checks before anything is built. *)
Definition before_transmit : M Error env unit :=
  c ← conn_of;
  if bool_decide (state c = Closed) then none else
  allowed ← lift (amplification_allows 1 c);
  if negb (address_validated c) && negb allowed then none else
  _ ← (if ConnectionKeys.needs_key_update (keys c) then
         r ← attempt (on_conn (on_keys ConnectionKeys.perform_key_update));
         match r with
         | Some _ => mret tt
         | None => _ ← update_conn (λ c, c <| state := Closed |>); none
         end
       else mret tt);
  c ← conn_of;
  if crypto_rewind_pending c then
    _ ← update_conn (λ c, c <| crypto_rewind_pending := false |>);
    match handshake_slot c with
    | Some slot => on_ctx slot (modify (λ x, x <| crypto_send_offset := all_levels 0 |>))
    | None => mret tt
    end
  else mret tt.

(** The packets of all levels, one behind the other. *)
Definition build_datagram (now : Z) : M Error env Z :=
  total ← append_packet Level.Initial (build_initial_packet now) 0;
  total ← append_packet Level.Handshake (build_handshake_packet now) total;
  _ ← maybe_release_handshake_slot;
  append_packet Level.Application (build_short_packet now) total.

(** The length of the datagram at the front of the buffer. *)
Definition transmit (now : Z) : M Error env Z :=
  _ ← before_transmit;
  c ← conn_of;
  match close_frame c with
  | Some (error_code, reason) => transmit_close error_code reason now
  | None =>
      total ← build_datagram now;
      if 0 <? total then
        c ← conn_of;
        allowed ← lift (amplification_allows total c);
        if negb (address_validated c) && negb allowed then none else
        _ ← (if address_validated c then mret tt
             else update_conn (λ c, c <| anti_amplification_bytes_sent := sat_add usize_bits (anti_amplification_bytes_sent c) total |>));
        mret total
      else none
  end.

(** [poll_transmit]: the datagram, if there is one. *)
Definition poll_transmit (now : Z) : M Error env (option (list Z)) :=
  r ← attempt (transmit now);
  match r with
  | Some total => e ← get; data ← lift (slice (mem e) 0 total); mret (Some data)
  | None => mret None
  end.

End transmit.
End QuicTransmit.
