(* ===== verification/QuicDemo.v ===== *)
(** * Two endpoints to run

    A client and a server of the QUIC model over the toy primitives, on which the
    theorems about connections are instantiated. *)
From stdpp Require Import strings.
From S2P Require Import Prelude Errors Recovery Congestion Loss StreamMap FlowControl TlsParams Crypto TlsHandshake.
From S2P Require Import TlsExchange QuicKeys QuicPn QuicIo QuicConn QuicRecv QuicTransmit.

Module QuicDemo.
Import Quic QuicRecv QuicTransmit.

Definition demo_quic : Params := {|
  caps := {| QuicIo.MAX_STREAMS := 4; QuicIo.STREAM_BUF := 64; QuicIo.SEND_QUEUE := 4 |};
  SENT_PER_SPACE := 16; MAX_CIDS := 2; CRYPTO_BUF := Z.to_nat 4096
|}.
#[local] Existing Instance demo_quic.
#[local] Existing Instance platform64.
#[local] Existing Instance Toy.toy.

Definition allocator : Z → bool := λ _, true.
(** What the generators of the two write. *)
Definition noise (seed n : nat) : list Z := (λ i, Z.of_nat (i * 7 + seed) mod 256) <$> seq 0 n.

Definition client_env : env := ltac:(
  let r := eval vm_compute in (client (bytes "a.example") [bytes "h2"] TransportParams.default_params
                                 (noise 9 32) (noise 1 32) (noise 3 8) (noise 4 8) (new_pool 2)) in
  match r with (Ok ?c, ?p) => exact (MkEnv c QuicIo.new p []) end).

Definition server_env : env := ltac:(
  let r := eval vm_compute in (server {| Tls.config_cert_der := demo_cert; Tls.config_private_key := demo_seed;
                                         Tls.config_server_alpn := [bytes "h2"];
                                         Tls.config_server_params := TransportParams.default_params |}
                                 TransportParams.default_params (noise 5 32) (noise 6 32) (noise 7 8) (new_pool 2)) in
  match r with (Ok ?c, ?p) => exact (MkEnv c QuicIo.new p []) end).

(** An Initial packet of the client with a PING. *)
Definition ping_packet : list Z := ltac:(
  let r := eval vm_compute in
    (let '(r, e) := build_and_encrypt_initial_packet (1 :: replicate 10 0) false 5 (client_env <| mem := replicate 100 0 |>) in
     (r, mem e)) in
  match r with (Ok ?n, ?m) => let p := eval vm_compute in (take (Z.to_nat n) m) in exact p end).

(** The client with the handshake behind it and one open stream. *)
Definition stream_env : env := ltac:(
  let m := eval vm_compute in (Stream.set_stream_windows 0 (Some 1000) (Some 1000) (Stream.open_bidi true Stream.StreamMap_new).2) in
  exact (client_env <| conn := (conn client_env) <| state := Active |> <| streams := m |> |>)).

End QuicDemo.
