(* ===== verification/QuicLife.v ===== *)
(** * The life of a QUIC connection

    What no operation of the connection undoes, whatever arrives and however the call
    ends: its role and parameters, the order of its states, the packet numbers it has
    used, the validation of the address and the release of the handshake slot.  And
    the limit on what a server sends to an address that is not validated. *)
From S2P Require Import Prelude Errors Hoare Frame PacketHeader Recovery Congestion Loss AckProcessing StreamMap FlowControl TlsParams.
From S2P Require Import Crypto TlsHandshake Dispatch QuicKeys QuicPn QuicIo QuicConn QuicRecv QuicTransmit QuicDemo.

(** ** Rules of [keeps] for the calls of the connection *)

Section rules.
Context {S : Type} (P : S → S → Prop) `{!PreOrder P}.

Lemma keeps_attempt {A} (m : M Error S A) : keeps P m → keeps P (Quic.attempt m).
Proof. intros Hm s. specialize (Hm s). unfold Quic.attempt. by destruct (m s) as [[]]. Qed.
Lemma keeps_sub {T A} (get : S → T) (put : T → S → S) (m : M Error T A) :
  (∀ s x, P s (put x s)) → keeps P (Quic.sub get put m).
Proof. intros H s. unfold Quic.sub. destruct (m (get s)) as [r x]. apply H. Qed.

(** The frames of a payload, whose handler also keeps track of whether one elicits
    an acknowledgement. *)
Lemma keeps_frames_loop `{Platform} fuel (d : Frame.t → M Error S unit) :
  (∀ f, keeps P (d f)) → ∀ payload pos s, P s.1 (frames_loop fuel (Dispatch.on_frame d) payload pos s).2.1.
Proof.
  intros Hd. induction fuel as [|fuel IH]; intros payload pos s; simpl; case_match; try reflexivity.
  unfold mbind, M_bind, lift. destruct (slice_from payload pos) as [sub|e|]; try reflexivity.
  change (fc_decode (A := Frame.t) sub) with (Frame.decode sub). destruct (Frame.decode sub) as [[f n]|e|]; try reflexivity. unfold Dispatch.on_frame at 1. specialize (Hd f s.1). simpl.
  destruct (d f s.1) as [[[]|e|] s1]; simpl in *; [|done..].
  etrans; [exact Hd|]. apply (IH payload (pos + n) (s1, _)).
Qed.

End rules.

#[export] Hint Resolve keeps_attempt : keeps.
Ltac keep_step ::=
  lazymatch goal with
  | |- keeps _ (_ ≫= _) => apply keeps_bind; [apply _| |intros ?]
  | |- keeps _ (match ?x with _ => _ end) => destruct x eqn:?
  | |- keeps _ (Quic.attempt _) => apply keeps_attempt
  | |- keeps _ _ => solve [eauto with keeps typeclass_instances]
  end.

(** ** What a call leaves alone *)
Module QuicLife.
Import Quic QuicRecv QuicTransmit.

(** The states in the order in which a connection passes them. *)
Definition rank (s : ConnectionState) : nat :=
  match s with Handshaking => 0 | Active => 1 | Closing => 2 | Draining => 3 | Closed => 4 end.

(** The states go forward, and only an operation of its own closes the connection. *)
Definition forward (s s' : ConnectionState) : Prop := s = Closed ∨ (s' ≠ Closed ∧ (rank s ≤ rank s')%nat).

Global Instance forward_preorder : PreOrder forward.
Proof.
  split.
  - intros s. destruct (decide (s = Closed)); [by left|right; split; [done|lia]].
  - intros s1 s2 s3 [|[]] H2; [by left|]. destruct H2 as [|[]]; [done|]. right. split; [done|lia].
Qed.

(** Announcements of the connection that are still possible or not yet seen. *)
Definition connected (l : list Event) : nat := length (List.filter (λ e, match e with Connected => true | _ => false end) l).
Definition announcements (c : t) : nat := (connected (events c) + if decide (state c = Handshaking) then 1 else 0)%nat.

(** The slot of the pool is given back once. *)
Definition slot_kept (o o' : option Z) : Prop := o' = o ∨ o' = None.

(** [R] relates the states. *)
Section steady.
Context (R : ConnectionState → ConnectionState → Prop) `{!PreOrder R}.

Record steady (c c' : t) : Prop := {
  steady_role : role c' = role c;
  steady_params : local_params c' = local_params c;
  steady_cids : local_cids c' = local_cids c;
  steady_pn : next_pn c' = next_pn c;
  steady_received : anti_amplification_bytes_received c' = anti_amplification_bytes_received c;
  steady_sent : anti_amplification_bytes_sent c' = anti_amplification_bytes_sent c;
  steady_close : close_frame c' = close_frame c;
  steady_validated : address_validated c = true → address_validated c' = true;
  steady_state : R (state c) (state c');
  steady_announcements : (announcements c' ≤ announcements c)%nat;
  steady_slot : slot_kept (handshake_slot c) (handshake_slot c')
}.

Global Instance steady_preorder : PreOrder steady.
Proof.
  split.
  - intros c. split; try done; try reflexivity; by left.
  - intros c1 c2 c3 [] []. split; [congruence..|auto|etrans; eassumption|lia|].
    unfold slot_kept in *. intuition congruence.
Qed.

Definition steady_env (e e' : env) : Prop := steady (conn e) (conn e').
Global Instance steady_env_preorder : PreOrder steady_env.
Proof. split; [intros e; unfold steady_env; reflexivity|intros e1 e2 e3 H1 H2; unfold steady_env in *; by etrans]. Qed.

(** A change of fields the relation says nothing about. *)
Lemma steady_same c c' : role c' = role c → local_params c' = local_params c → local_cids c' = local_cids c →
  next_pn c' = next_pn c → anti_amplification_bytes_received c' = anti_amplification_bytes_received c →
  anti_amplification_bytes_sent c' = anti_amplification_bytes_sent c → close_frame c' = close_frame c →
  address_validated c' = address_validated c → state c' = state c → events c' = events c →
  slot_kept (handshake_slot c) (handshake_slot c') → steady c c'.
Proof.
  intros ? ? ? ? ? ? ? Ha Hs He ?. split; try done; [congruence|by rewrite Hs|unfold announcements; by rewrite Hs, He].
Qed.

(** *** Calls on parts *)
Lemma keeps_on_keys {A} (m : M Error ConnectionKeys.t A) : keeps steady (on_keys m).
Proof. apply keeps_sub. intros. by apply steady_same; try left. Qed.
Lemma keeps_on_streams {A} (m : M Error Stream.StreamMap A) : keeps steady (on_streams m).
Proof. apply keeps_sub. intros. by apply steady_same; try left. Qed.
Lemma keeps_on_path {A} (m : M Error Ack.Path A) : keeps steady (on_path m).
Proof. apply keeps_sub. intros. by apply steady_same; try left. Qed.
Lemma keeps_on_flow {A} (m : M Error FlowControl.FlowController A) : keeps steady (on_flow m).
Proof. apply keeps_sub. intros. by apply steady_same; try left. Qed.
Lemma keeps_on_io {A} (m : M Error QuicIo.t A) : keeps steady_env (on_io m).
Proof. apply keeps_sub. intros. unfold steady_env. reflexivity. Qed.
Lemma keeps_on_mem {A} (m : M Error (list Z) A) : keeps steady_env (on_mem m).
Proof. apply keeps_sub. intros. unfold steady_env. reflexivity. Qed.
Lemma keeps_on_ctx {A} slot (m : M Error HandshakeContext A) : keeps steady_env (on_ctx slot m).
Proof. apply keeps_sub. intros. unfold steady_env. reflexivity. Qed.
Lemma keeps_on_conn {A} (m : M Error t A) : keeps steady m → keeps steady_env (on_conn m).
Proof. intros H e. specialize (H (conn e)). unfold on_conn, sub, steady_env. by destruct (m (conn e)). Qed.


End steady.
Ltac same := intros; apply steady_same; try reflexivity; try (by left); try apply _.

Lemma push_event_events e c : events (push_event e c) = events c ∨ events (push_event e c) = events c ++ [e].
Proof. unfold push_event. case_match; auto. Qed.
Lemma connected_snoc l e : connected (l ++ [e]) = (connected l + match e with Connected => 1 | _ => 0 end)%nat.
Proof. unfold connected. rewrite List.filter_app, length_app. by destruct e. Qed.

Lemma push_event_steady R `{!PreOrder R} e c : e ≠ Connected → steady R c (push_event e c).
Proof.
  intros He. unfold push_event. case_match; [|reflexivity].
  split; try done; try reflexivity; try (by left).
  unfold announcements. simpl. rewrite connected_snoc. destruct e; [done|lia..].
Qed.

(** The end of the handshake. *)
Lemma become_active c : state c = Handshaking → steady forward c (push_event Connected (c <| state := Active |> <| address_validated := true |>)).
Proof.
  intros Hs. unfold push_event. case_match; split; try done.
  all: try (right; rewrite Hs; simpl; split; [done|lia]).
  all: try (by left).
  all: unfold announcements; simpl; rewrite ?connected_snoc, Hs; simpl; lia.
Qed.

#[local] Hint Resolve keeps_on_keys keeps_on_streams keeps_on_path keeps_on_flow keeps_on_io keeps_on_mem keeps_on_ctx
  keeps_on_conn : keeps.

(** *** Receiving *)
Section recv.
Context `{Params} `{Platform} `{Primitives} (grant : Z → bool).

Lemma keeps_conn_of : keeps (steady_env forward) conn_of.
Proof. unfold conn_of. keep. Qed.
#[local] Hint Resolve keeps_conn_of : keeps.

Lemma keeps_update_conn f : (∀ c, steady forward c (f c)) → keeps (steady_env forward) (update_conn f).
Proof. intros Hf. apply keeps_on_conn, keeps_modify, Hf. Qed.

Lemma keeps_forget_initial : keeps (steady forward) forget_initial.
Proof. apply keeps_modify. same. Qed.
Lemma keeps_forget_handshake : keeps (steady forward) forget_handshake.
Proof. apply keeps_modify. same. Qed.
#[local] Hint Resolve keeps_forget_initial keeps_forget_handshake : keeps.

Lemma apply_peer_params_steady p c : steady forward c (apply_peer_params p c).
Proof. unfold apply_peer_params. cbv zeta. repeat case_match; same. Qed.

Lemma keeps_look {A} (f : t → M Error env A) :
  (∀ e, steady_env forward e (f (conn e) e).2) → keeps (steady_env forward) (c ← conn_of; f c).
Proof. intros Hf e. apply Hf. Qed.

Lemma keeps_install_level lvl : keeps (steady forward) (install_level lvl).
Proof.
  apply keeps_get_look. intros c. destruct lvl; [reflexivity|..].
  - destruct (is_client c); [apply keeps_forget_initial|reflexivity].
  - destruct (is_server c && bool_decide (state c = Handshaking)) eqn:E; [|reflexivity].
    apply andb_true_iff in E as [_ E]. apply bool_decide_eq_true in E.
    etrans; [apply (become_active c E)|]. apply keeps_forget_handshake.
Qed.
#[local] Hint Resolve keeps_install_level : keeps.

Lemma keeps_install_keys fuel slot : keeps (steady_env forward) (install_keys fuel slot).
Proof.
  induction fuel as [|fuel IH]; simpl; keep. apply keeps_update_conn. apply apply_peer_params_steady.
Qed.
#[local] Hint Resolve keeps_install_keys : keeps.

Lemma keeps_can_release slot : keeps (steady_env forward) (can_release slot).
Proof. unfold can_release. keep. Qed.
#[local] Hint Resolve keeps_can_release : keeps.

Lemma keeps_maybe_release : keeps (steady_env forward) maybe_release_handshake_slot.
Proof.
  unfold maybe_release_handshake_slot. keep. apply keeps_modify. intros e. unfold steady_env. simpl. same. by right.
Qed.
#[local] Hint Resolve keeps_maybe_release : keeps.

Lemma keeps_check_tls_keys : keeps (steady_env forward) check_tls_keys.
Proof. unfold check_tls_keys. keep. Qed.
#[local] Hint Resolve keeps_check_tls_keys : keeps.

Lemma keeps_deliver_loop fuel lvl : keeps (steady_env forward) (deliver_loop grant fuel lvl).
Proof. induction fuel as [|fuel IH]; simpl; keep. Qed.
#[local] Hint Resolve keeps_deliver_loop : keeps.

Lemma keeps_handle_crypto lvl offset data : keeps (steady_env forward) (handle_crypto_frame grant lvl offset data).
Proof. unfold handle_crypto_frame. keep. Qed.
Lemma keeps_push e : e ≠ Connected → keeps (steady_env forward) (update_conn (push_event e)).
Proof. intros He. apply keeps_update_conn. intros c. by apply (push_event_steady forward). Qed.
#[local] Hint Resolve keeps_handle_crypto : keeps.
#[local] Hint Extern 1 (keeps _ (update_conn (push_event _))) => apply keeps_push; done : keeps.

Lemma keeps_handle_stream f : keeps (steady_env forward) (handle_stream_frame f).
Proof. unfold handle_stream_frame. keep. Qed.
Lemma keeps_on_known_stream sid f e : e ≠ Connected → keeps (steady_env forward) (on_known_stream sid f e).
Proof. intros He. pose proof (keeps_push e He). unfold on_known_stream. keep. Qed.
#[local] Hint Resolve keeps_handle_stream : keeps.
#[local] Hint Extern 1 (keeps _ (on_known_stream _ _ _)) => apply keeps_on_known_stream; done : keeps.

Lemma keeps_handshake_done : keeps (steady_env forward) handle_handshake_done.
Proof.
  apply keeps_look. intros e. destruct (negb (is_client (conn e))); [unfold steady_env; reflexivity|].
  destruct (bool_decide (state (conn e) = Handshaking)) eqn:E.
  - apply bool_decide_eq_true in E. unfold steady_env. simpl. etrans; [apply (become_active _ E)|apply keeps_forget_handshake].
  - unfold steady_env. simpl. apply keeps_forget_handshake.
Qed.
#[local] Hint Resolve keeps_handshake_done : keeps.

Lemma drain_steady e c : e ≠ Connected → steady forward c (push_event e (c <| state := Draining |>)).
Proof.
  intros He. etrans; [|by apply (push_event_steady forward)]. split; try done; [| |by left].
  - destruct (decide (state c = Closed)); [by left|right]. split; [done|]. by destruct (state c); simpl; [lia..|].
  - unfold announcements. simpl. case_decide; lia.
Qed.

Lemma keeps_dispatch_frame lvl now f : keeps (steady_env forward) (dispatch_frame grant lvl now f).
Proof.
  unfold dispatch_frame. destruct f; keep; apply keeps_update_conn.
  - same.
  - intros c. by apply drain_steady.
Qed.
#[local] Hint Resolve keeps_dispatch_frame : keeps.


Lemma keeps_frames payload lvl now : keeps (steady_env forward) (dispatch_frames grant payload lvl now).
Proof.
  intros e. unfold dispatch_frames, Dispatch.dispatch_frames.
  pose proof (keeps_frames_loop (steady_env forward) (length payload) _ (keeps_dispatch_frame lvl now) payload 0 (e, false)) as Hk.
  destruct (frames_loop _ _ _ _ _) as [r s]. by destruct r.
Qed.
#[local] Hint Resolve keeps_frames : keeps.

Lemma keeps_dispatch_packet lvl now off n pn : keeps (steady_env forward) (dispatch_packet grant lvl now off n pn).
Proof. unfold dispatch_packet. keep. Qed.
Lemma keeps_learn_keys dcid : keeps (steady_env forward) (learn_initial_keys dcid).
Proof. unfold learn_initial_keys. keep. Qed.
Lemma keeps_learn_cid scid : keeps (steady_env forward) (update_conn (learn_remote_cid scid)).
Proof. apply keeps_update_conn. intros c. unfold learn_remote_cid. repeat case_match; same. Qed.
Lemma keeps_quic_update f : keeps (steady_env forward) (on_update f).
Proof. unfold on_update. keep. Qed.
#[local] Hint Resolve keeps_dispatch_packet keeps_learn_keys keeps_learn_cid keeps_quic_update : keeps.

Lemma keeps_recv_initial pkt now : keeps (steady_env forward) (recv_initial grant pkt now).
Proof. unfold recv_initial. keep. Qed.
Lemma keeps_recv_handshake pkt now : keeps (steady_env forward) (recv_handshake grant pkt now).
Proof. unfold recv_handshake. keep. Qed.
Lemma keeps_open_current pkt n off : keeps (steady_env forward) (open_current pkt n off).
Proof. unfold open_current. keep. Qed.
Lemma keeps_open_next pkt n off : keeps (steady_env forward) (open_next pkt n off).
Proof. unfold open_next. keep. Qed.
#[local] Hint Resolve keeps_recv_initial keeps_recv_handshake keeps_open_current keeps_open_next : keeps.
Lemma keeps_recv_short pkt now : keeps (steady_env forward) (recv_short grant pkt now).
Proof. unfold recv_short. keep. Qed.
#[local] Hint Resolve keeps_recv_short : keeps.

Lemma keeps_note_received pr : keeps (steady forward) (note_received pr).
Proof. unfold note_received, track_received_pn. keep; apply keeps_modify; intros; repeat case_match; same. Qed.
#[local] Hint Resolve keeps_note_received : keeps.
Lemma keeps_recv_packet pkt now : keeps (steady_env forward) (recv_packet grant pkt now).
Proof. unfold recv_packet. keep. Qed.
#[local] Hint Resolve keeps_recv_packet : keeps.
Lemma keeps_recv_packets pkts now : keeps (steady_env forward) (recv_packets grant pkts now).
Proof. induction pkts as [|[] pkts IH]; simpl; keep. Qed.
#[local] Hint Resolve keeps_recv_packets : keeps.

(** [recv] behind its bookkeeping. *)
Definition process (datagram : list Z) (now : Z) : M Error env unit :=
  _ ← recv_packets grant (Packet.coalesced_all (S (length datagram)) datagram 0) now; check_tls_keys.
Lemma keeps_process datagram now : keeps (steady_env forward) (process datagram now).
Proof. unfold process. keep. Qed.

(** The bookkeeping. *)
Definition arrived (datagram : list Z) (now : Z) (c : t) : t :=
  let c := c <| last_activity := now |> in
  if address_validated c then c
  else c <| anti_amplification_bytes_received := sat_add usize_bits (anti_amplification_bytes_received c) (len datagram) |>.

Lemma recv_eq datagram now e : state (conn e) ≠ Closed →
  recv grant datagram now e = process datagram now (e <| conn := arrived datagram now (conn e) |>).
Proof.
  intros Hs. unfold recv, process, arrived, conn_of, update_conn, on_conn, sub, modify, mbind, M_bind, get, mret, M_ret, throw.
  cbn [fst snd]. rewrite bool_decide_eq_false_2 by done. cbn. by destruct (address_validated (conn e)).
Qed.

End recv.

(** *** Sending *)

(** While a datagram is built the connection is closed or stays as it is. *)
Definition only_closes (s s' : ConnectionState) : Prop := s' = s ∨ s' = Closed.
Global Instance only_closes_preorder : PreOrder only_closes.
Proof. split; [by left|]. unfold only_closes. intros s1 s2 s3 H1 H2. naive_solver. Qed.

(** The next packet numbers of all levels. *)
Definition pn_le (l l' : levels Z) : Prop := ∀ lvl, at_level l lvl ≤ at_level l' lvl.
Global Instance pn_le_preorder : PreOrder pn_le.
Proof. split; [intros l lvl; lia|]. intros l1 l2 l3 H1 H2 lvl. specialize (H1 lvl). specialize (H2 lvl). lia. Qed.

(** Packets may be sent in between. *)
Record onward R (c c' : t) : Prop := {
  onward_pn : pn_le (next_pn c) (next_pn c');
  onward_steady : steady R c (c' <| next_pn := next_pn c |>)
}.
Lemma onward_of_steady R `{!PreOrder R} c c' : steady R c c' → onward R c c'.
Proof. intros []. split; [by rewrite steady_pn0|]. by split. Qed.

Global Instance onward_preorder R `{!PreOrder R} : PreOrder (onward R).
Proof.
  split.
  - intros c. apply onward_of_steady; [done|reflexivity].
  - intros c1 c2 c3 [Hp1 H1] [Hp2 H2]. split; [by etrans|].
    destruct H1, H2; simpl in *. split; simpl; [congruence..|auto|etrans; eassumption| |].
    + unfold announcements in *. simpl in *. lia.
    + unfold slot_kept in *. intuition congruence.
Qed.

Definition onward_env R (e e' : env) : Prop := onward R (conn e) (conn e').
Global Instance onward_env_preorder R `{!PreOrder R} : PreOrder (onward_env R).
Proof. split; [intros e; unfold onward_env; reflexivity|intros e1 e2 e3 H1 H2; unfold onward_env in *; by etrans]. Qed.

(** Building the packet [n] of [lvl]. *)
Definition numbering lvl n (c c' : t) : Prop :=
  at_level (next_pn c) lvl ≤ n + 1 → onward only_closes c c' ∧ at_level (next_pn c') lvl ≤ n + 1.
Global Instance numbering_preorder lvl n : PreOrder (numbering lvl n).
Proof.
  split; [intros c Hc; split; [reflexivity|done]|]. intros c1 c2 c3 H1 H2 Hc.
  destruct (H1 Hc) as [Ho1 Hc2], (H2 Hc2) as [Ho2 Hc3]. split; [by etrans|done].
Qed.
Definition numbering_env lvl n (e e' : env) : Prop := numbering lvl n (conn e) (conn e').
Global Instance numbering_env_preorder lvl n : PreOrder (numbering_env lvl n).
Proof. split; [intros e; unfold numbering_env; reflexivity|intros e1 e2 e3 H1 H2; unfold numbering_env in *; by etrans]. Qed.

Lemma keeps_numbering {A} lvl n (m : M Error env A) : keeps (steady_env only_closes) m → keeps (numbering_env lvl n) m.
Proof.
  intros Hm e Hn. specialize (Hm e). split; [by apply onward_of_steady; [apply _|]|].
  by rewrite (steady_pn _ _ _ Hm).
Qed.

Section transmit.
Context `{Params} `{Platform} `{Primitives} (grant : Z → bool).
Abbreviation quiet := (steady_env only_closes).

Lemma quiet_conn_of : keeps quiet conn_of.
Proof. unfold conn_of. keep. Qed.
Lemma quiet_update f : (∀ c, steady only_closes c (f c)) → keeps quiet (update_conn f).
Proof. intros Hf. apply keeps_on_conn, keeps_modify, Hf. Qed.
Lemma quiet_none {A} : keeps quiet (none (A:=A)).
Proof. unfold none. keep. Qed.
Lemma quiet_try_encode pos f : keeps quiet (try_encode pos f).
Proof. unfold try_encode. keep. Qed.
Lemma quiet_ok_some {A} (m : M Error env A) : keeps quiet m → keeps quiet (ok_some m).
Proof. intros. pose proof (@quiet_none A). unfold ok_some. keep. Qed.
#[local] Hint Resolve quiet_conn_of quiet_none quiet_try_encode quiet_ok_some : keeps.
#[local] Hint Extern 2 (keeps _ (update_conn _)) => apply quiet_update; intros; repeat case_match; same; fail : keeps.

Lemma quiet_build_ack lvl pos : keeps quiet (build_ack_frame lvl pos).
Proof. unfold build_ack_frame. keep. Qed.
#[local] Hint Resolve quiet_build_ack : keeps.
Lemma quiet_ack_if_needed lvl pos : keeps quiet (ack_if_needed lvl pos).
Proof. unfold ack_if_needed. keep. Qed.
Lemma quiet_crypto lvl pos : keeps quiet (write_tls_crypto_data grant lvl pos).
Proof. unfold write_tls_crypto_data. keep. Qed.
Lemma quiet_stream_frames pos end_ : keeps quiet (build_stream_frames pos end_).
Proof. unfold build_stream_frames. keep. Qed.
#[local] Hint Resolve quiet_ack_if_needed quiet_crypto quiet_stream_frames : keeps.
Lemma quiet_seal send a b c d e f : keeps quiet (seal send a b c d e f).
Proof. unfold seal. keep. Qed.
#[local] Hint Resolve quiet_seal : keeps.
Lemma quiet_handshake_done ps : keeps quiet (put_handshake_done ps).
Proof. unfold put_handshake_done. keep. Qed.
Lemma quiet_path_response ps fl : keeps quiet (put_path_response ps fl).
Proof. unfold put_path_response. keep. Qed.
Lemma quiet_max_data ps fl : keeps quiet (put_max_data ps fl).
Proof. unfold put_max_data. keep. Qed.
Lemma quiet_max_stream_data fuel ps fl : keeps quiet (put_max_stream_data fuel ps fl).
Proof. revert fl. induction fuel as [|fuel IH]; simpl; keep. Qed.
Lemma quiet_put_stream_frames ps fl : keeps quiet (put_stream_frames ps fl).
Proof. unfold put_stream_frames. keep. Qed.
#[local] Hint Resolve quiet_handshake_done quiet_path_response quiet_max_data quiet_max_stream_data quiet_put_stream_frames : keeps.
Lemma quiet_short_frames ps : keeps quiet (short_frames ps).
Proof. unfold short_frames. keep. Qed.
#[local] Hint Resolve quiet_short_frames : keeps.
Lemma quiet_count_encrypted : keeps (steady only_closes) count_encrypted.
Proof. unfold count_encrypted. keep. Qed.
#[local] Hint Resolve quiet_count_encrypted : keeps.
Lemma quiet_seal_frames fs p a b n k is_long send : keeps quiet (seal_frames fs p a b n k is_long send).
Proof. unfold seal_frames. keep. Qed.
#[local] Hint Resolve quiet_seal_frames : keeps.
#[local] Hint Extern 3 (keeps (numbering_env _ _) _) => apply keeps_numbering; solve [eauto with keeps typeclass_instances] : keeps.

(** The packet [n] was sent. *)
Lemma numbering_steady {A} lvl n (m : M Error t A) : keeps (steady only_closes) m → keeps (numbering lvl n) m.
Proof.
  intros Hm c Hn. specialize (Hm c). split; [by apply onward_of_steady; [apply _|]|]. by rewrite (steady_pn _ _ _ Hm).
Qed.
Lemma numbering_next lvl n next : next = n + 1 →
  keeps (numbering lvl n) (modify (λ c, c <| next_pn := set_level lvl next (next_pn c) |>)).
Proof.
  intros -> c Hn. simpl. rewrite at_set_level. split; [|by case_decide]. split.
  - intros l. simpl. rewrite at_set_level. case_decide; [by subst|done].
  - same.
Qed.
Lemma numbering_record lvl n now total elicits in_flight :
  keeps (numbering_env lvl n) (on_conn (record_packet lvl n now total elicits in_flight)).
Proof.
  assert (keeps (numbering lvl n) (record_packet lvl n now total elicits in_flight)) as Hk.
  { unfold record_packet. intros c. unfold uadd. destruct (decide _) as [|]; [|by cbn].
    cbn [lift]. rewrite (M_step_ok (lift (Ok (n + 1))) _ c (n + 1) c) by done. revert c.
    apply keeps_bind; [apply _|by apply numbering_next|intros ?].
    repeat (apply keeps_bind; [apply _|apply numbering_steady; keep|intros ?]).
    apply numbering_steady. keep. }
  intros e. specialize (Hk (conn e)). unfold on_conn, sub, numbering_env. by destruct (record_packet _ _ _ _ _ _ _).
Qed.
#[local] Hint Resolve numbering_record : keeps.

(** A builder whose packet number is the one it found. *)
Lemma onward_numbering {A} lvl (f : env → M Error env A) :
  (∀ e, keeps (numbering_env lvl (at_level (next_pn (conn e)) lvl)) (f e)) →
  keeps (onward_env only_closes) (e ← get; f e).
Proof. intros Hf. apply keeps_get_look. intros e. apply (Hf e e). lia. Qed.

Lemma onward_initial now : keeps (onward_env only_closes) (build_initial_packet grant now).
Proof. apply (onward_numbering Level.Initial). keep. Qed.
Lemma onward_handshake now : keeps (onward_env only_closes) (build_handshake_packet grant now).
Proof. apply (onward_numbering Level.Handshake). keep. Qed.
Lemma onward_short now : keeps (onward_env only_closes) (build_short_packet now).
Proof. apply (onward_numbering Level.Application). keep. Qed.
#[local] Hint Resolve onward_initial onward_handshake onward_short : keeps.
Lemma onward_look {A} lvl (f : t → M Error env A) :
  (∀ c, keeps (numbering_env lvl (at_level (next_pn c) lvl)) (f c)) →
  keeps (onward_env only_closes) (c ← conn_of; f c).
Proof. intros Hf e. apply (Hf (conn e) e). lia. Qed.
Lemma onward_close_initial fs pad now : keeps (onward_env only_closes) (build_and_encrypt_initial_packet fs pad now).
Proof. apply (onward_look Level.Initial). keep. Qed.
Lemma onward_close_packet lvl fs now : keeps (onward_env only_closes) (build_and_encrypt_packet lvl fs now).
Proof. apply (onward_look lvl). keep. Qed.
#[local] Hint Resolve onward_close_initial onward_close_packet : keeps.

Lemma keeps_onward {A} (m : M Error env A) : keeps quiet m → keeps (onward_env only_closes) m.
Proof. intros Hm e. apply onward_of_steady; [apply _|]. apply Hm. Qed.
#[local] Hint Extern 3 (keeps (onward_env _) _) => apply keeps_onward; solve [eauto with keeps typeclass_instances] : keeps.

Lemma onward_from {A} a (m : M Error env A) : keeps (onward_env only_closes) m → keeps (onward_env only_closes) (from a m).
Proof.
  intros Hm e. unfold from. case_decide; [|reflexivity]. specialize (Hm (e <| mem := drop (Z.to_nat a) (mem e) |>)).
  by destruct (m _).
Qed.
Lemma onward_append lvl m total : keeps (onward_env only_closes) m → keeps (onward_env only_closes) (append_packet lvl m total).
Proof. intros. pose proof (onward_from total m). unfold append_packet. keep. Qed.
Lemma quiet_can_release slot : keeps quiet (can_release slot).
Proof. unfold can_release. keep. Qed.
#[local] Hint Resolve onward_append quiet_can_release : keeps.
Lemma quiet_release : keeps quiet maybe_release_handshake_slot.
Proof.
  unfold maybe_release_handshake_slot. keep. apply keeps_modify. intros e. unfold steady_env. simpl. same. by right.
Qed.
#[local] Hint Resolve quiet_release : keeps.
Lemma onward_datagram now : keeps (onward_env only_closes) (build_datagram grant now).
Proof. unfold build_datagram. keep. Qed.

Lemma close_quiet c : steady only_closes c (c <| state := Closed |>).
Proof. split; try done; [by right| |by left]. unfold announcements. simpl. case_decide; lia. Qed.
Lemma quiet_before : keeps quiet before_transmit.
Proof. unfold before_transmit. keep. apply quiet_update. apply close_quiet. Qed.
Lemma onward_transmit_close code reason now : keeps (onward_env only_closes) (transmit_close code reason now).
Proof.
  unfold transmit_close. keep. apply keeps_onward, quiet_update, close_quiet.
Qed.
#[local] Hint Resolve quiet_before onward_transmit_close onward_datagram : keeps.

(** Accounting for a datagram of [total] bytes. *)
Definition account (total : Z) (c : t) : t :=
  if address_validated c then c
  else c <| anti_amplification_bytes_sent := sat_add usize_bits (anti_amplification_bytes_sent c) total |>.

(** What [transmit] does when it has a datagram. *)
Inductive transmitted (c : t) (total : Z) : t → Prop :=
| transmitted_close c1 : is_Some (close_frame c) → onward only_closes c c1 → state c1 = Closed → transmitted c total c1
| transmitted_packets c1 : close_frame c = None → onward only_closes c c1 → 0 < total →
    (address_validated c1 = true ∨ amplification_allows total c1 = Ok true) → transmitted c total (account total c1).

Lemma transmit_close_closes code reason now e total e' :
  transmit_close code reason now e = (Ok total, e') → state (conn e') = Closed.
Proof.
  unfold transmit_close. intros Ht. apply M_bind_ok in Ht as (c & e1 & _ & Ht).
  destruct (close_level (keys c)) as [lvl|]; [|done]. destruct (Frame.encode _ _) as [r fb].
  apply M_bind_ok in Ht as (n & e2 & _ & Ht). apply M_bind_ok in Ht as (u & e3 & Hu & Ht).
  inversion Hu; subst. destruct (0 <? n); inversion Ht; subst. done.
Qed.

Lemma before_transmit_open e u e' : before_transmit e = (Ok u, e') → state (conn e) ≠ Closed.
Proof.
  intros Hb Hs. unfold before_transmit in Hb. apply M_bind_ok in Hb as (c & e1 & Hc & Hb).
  inversion Hc; subst. rewrite bool_decide_eq_true_2 in Hb by done. done.
Qed.

Lemma transmit_spec now e total e' :
  transmit grant now e = (Ok total, e') → state (conn e) ≠ Closed ∧ transmitted (conn e) total (conn e').
Proof.
  unfold transmit. intros Ht. apply M_bind_ok in Ht as (u & e1 & Hb & Ht).
  pose proof (before_transmit_open _ _ _ Hb) as Ho. pose proof (quiet_before e) as Hq. rewrite Hb in Hq. simpl in Hq.
  apply M_bind_ok in Ht as (c & e2 & Hc & Ht). inversion Hc; subst. split; [done|].
  destruct (close_frame (conn e2)) as [[code reason]|] eqn:Hf; rewrite (steady_close _ _ _ Hq) in Hf.
  - pose proof (onward_transmit_close code reason now e2) as Hk. rewrite Ht in Hk. apply transmit_close_closes in Ht.
    apply transmitted_close; [by eexists| |done]. etrans; [by apply onward_of_steady; [apply _|]|done].
  - apply M_bind_ok in Ht as (n & e3 & Hd & Ht). pose proof (onward_datagram now e2) as Hk. rewrite Hd in Hk. simpl in Hk.
    destruct (0 <? n) eqn:Hn; [|done]. apply Z.ltb_lt in Hn. apply M_bind_ok in Ht as (c & e4 & Hc' & Ht). inversion Hc'; subst.
    apply M_bind_ok in Ht as (allowed & e5 & Ha & Ht). inversion Ha as [[Ha' He]]; subst.
    destruct (negb _ && negb _) eqn:Hb'; [done|]. apply M_bind_ok in Ht as (v & e6 & Hu & Ht). inversion Ht; subst.
    replace (conn e') with (account total (conn e5)); cycle 1.
    { unfold account. destruct (address_validated (conn e5)); inversion Hu; by subst. }
    apply transmitted_packets; [done| |done|].
    + etrans; [by apply onward_of_steady; [apply _|]|done].
    + destruct (address_validated (conn e5)); [by left|right]. rewrite Ha'. by destruct allowed.
Qed.

(** [transmit] in all cases. *)
Lemma transmit_state now e : state (conn e) = Closed → transmit grant now e = (Err WouldBlock, e).
Proof.
  intros Hs. unfold transmit, before_transmit, conn_of, mbind, M_bind, get, mret, M_ret.
  rewrite bool_decide_eq_true_2 by done. done.
Qed.

End transmit.

(** ** All operations *)
Section operations.
Context `{Params} `{Platform} `{Primitives} (grant : Z → bool).

(** What holds of a connection before and after any operation. *)
Record lasting (c c' : t) : Prop := {
  lasting_role : role c' = role c;
  lasting_params : local_params c' = local_params c;
  lasting_cids : local_cids c' = local_cids c;
  lasting_pn : pn_le (next_pn c) (next_pn c');
  lasting_validated : address_validated c = true → address_validated c' = true;
  lasting_state : (rank (state c) ≤ rank (state c'))%nat;
  lasting_announcements : (announcements c' ≤ announcements c)%nat;
  lasting_slot : slot_kept (handshake_slot c) (handshake_slot c')
}.
Global Instance lasting_preorder : PreOrder lasting.
Proof.
  split.
  - intros c. split; try done; by left.
  - intros c1 c2 c3 [] []. split; [congruence..|by etrans|auto|lia|lia|].
    unfold slot_kept in *. intuition congruence.
Qed.

(** Every call but the arrival and the sending of a datagram leaves the byte counts. *)
Record later (c c' : t) : Prop := {
  later_lasting : lasting c c';
  later_received : anti_amplification_bytes_received c' = anti_amplification_bytes_received c;
  later_sent : anti_amplification_bytes_sent c' = anti_amplification_bytes_sent c
}.
Global Instance later_preorder : PreOrder later.
Proof. split; [by intros c|]. intros c1 c2 c3 [] []. split; [by etrans|congruence..]. Qed.
Definition later_env (e e' : env) : Prop := later (conn e) (conn e').
Global Instance later_env_preorder : PreOrder later_env.
Proof. split; [intros e; unfold later_env; reflexivity|intros e1 e2 e3 H3 H4; unfold later_env in *; by etrans]. Qed.

Lemma later_onward R c c' : onward R c c' → (R (state c) (state c') → (rank (state c) ≤ rank (state c'))%nat) → later c c'.
Proof. intros [Hp []] HR. simpl in *. split; [|done..]. split; try done; auto. Qed.
Lemma later_closes c c' : onward only_closes c c' → later c c'.
Proof. intros Hc. apply (later_onward _ _ _ Hc). intros [->| ->]; [done|]. destruct (state c); simpl; lia. Qed.
Lemma later_forward c c' : steady forward c c' → state c ≠ Closed → later c c'.
Proof.
  intros Hc Hs. apply (later_onward forward); [by apply onward_of_steady; [apply _|]|]. by intros [|[]].
Qed.

Lemma keeps_later {A} (m : M Error env A) : keeps (onward_env only_closes) m → keeps later_env m.
Proof. intros Hm e. apply later_closes, Hm. Qed.
Lemma keeps_later_steady {A} (m : M Error env A) : keeps (steady_env only_closes) m → keeps later_env m.
Proof. intros Hm. apply keeps_later. intros e. apply onward_of_steady; [apply _|]. apply Hm. Qed.
Lemma later_on_conn {A} (m : M Error t A) : keeps later m → keeps later_env (on_conn m).
Proof. intros Hm e. specialize (Hm (conn e)). unfold on_conn, sub, later_env. by destruct (m (conn e)). Qed.

Lemma account_lasting total c : lasting c (account total c).
Proof. unfold account. destruct (address_validated c) eqn:Ha; [reflexivity|]. split; try done; by left. Qed.

#[local] Hint Extern 1 (keeps later_env before_transmit) => apply keeps_later_steady, quiet_before : keeps.
#[local] Hint Extern 1 (keeps later_env (transmit_close _ _ _)) => apply keeps_later, onward_transmit_close : keeps.
#[local] Hint Extern 1 (keeps later_env (build_datagram _ _)) => apply keeps_later, onward_datagram : keeps.
#[local] Hint Extern 1 (keeps later_env conn_of) => apply keeps_later_steady, quiet_conn_of : keeps.
#[local] Hint Extern 1 (keeps later_env none) => apply keeps_later_steady, quiet_none : keeps.

(** A call that only counts a datagram it returns. *)
Definition fails {A} (m : M Error env A) : Prop := ∀ e, match m e with (Ok _, _) => True | (_, e') => later_env e e' end.
Lemma fails_keeps {A} (m : M Error env A) : keeps later_env m → fails m.
Proof. intros Hm e. specialize (Hm e). by destruct (m e) as [[]]. Qed.
Lemma fails_bind {A B} (m : M Error env A) (f : A → M Error env B) : keeps later_env m → (∀ a, fails (f a)) → fails (m ≫= f).
Proof.
  intros Hm Hf e. specialize (Hm e). unfold mbind, M_bind. destruct (m e) as [[a|err|] e1]; simpl in Hm; [|done..].
  specialize (Hf a e1). destruct (f a e1) as [[]]; [done|by etrans..].
Qed.

Lemma transmit_fails now : fails (transmit grant now).
Proof.
  unfold transmit. apply fails_bind; [keep|intros _]. apply fails_bind; [keep|intros c].
  destruct (close_frame c) as [[]|]; [apply fails_keeps; keep|]. apply fails_bind; [keep|intros total].
  destruct (0 <? total); [|apply fails_keeps; keep]. apply fails_bind; [keep|intros c']. apply fails_bind; [keep|intros b].
  destruct (_ && _); [apply fails_keeps; keep|]. intros e. by destruct (address_validated c').
Qed.

Lemma later_on_streams {A} (m : M Error Stream.StreamMap A) : keeps later (on_streams m).
Proof. intros c. apply later_closes, onward_of_steady; [apply _|]. apply keeps_on_streams, _. Qed.

Lemma later_closed c : later c (c <| state := Closed |>).
Proof. apply later_closes, onward_of_steady; [apply _|]. apply close_quiet. Qed.

Lemma later_same c c' : steady only_closes c c' → later c c'.
Proof. intros Hc. apply later_closes, onward_of_steady; [apply _|done]. Qed.
Lemma keeps_later_same {A} (m : M Error t A) : keeps (steady only_closes) m → keeps later m.
Proof. intros Hm c. apply later_same, Hm. Qed.

Lemma later_handle_timeout now : keeps later (handle_timeout now).
Proof.
  unfold handle_timeout. keep.
  - apply keeps_modify, later_closed.
  - apply keeps_modify. intros c. etrans; [apply later_closed|]. apply later_same. by apply (push_event_steady only_closes).
  - apply keeps_later_same, keeps_on_path, _.
  - apply keeps_modify. intros c. apply later_same. same.
Qed.
Lemma later_close code reason c : later c (close code reason c).
Proof.
  unfold close. destruct (state c) eqn:Hs; try reflexivity.
  all: split; [|done..]; split; try done; [rewrite Hs; simpl; lia| |by left]; unfold announcements; simpl; rewrite Hs; simpl; lia.
Qed.
Lemma later_open_stream : keeps later open_stream.
Proof. pose proof (@later_on_streams). unfold open_stream. keep. Qed.
Lemma later_open_uni_stream : keeps later open_uni_stream.
Proof. pose proof (@later_on_streams). unfold open_uni_stream. keep. Qed.
Lemma later_on_io {A} (m : M Error QuicIo.t A) : keeps later_env (on_io m).
Proof. apply keeps_later_steady, keeps_on_io, _. Qed.
Lemma later_on_mem {A} (m : M Error (list Z) A) : keeps later_env (on_mem m).
Proof. apply keeps_later_steady, keeps_on_mem, _. Qed.
#[local] Hint Resolve later_on_io later_on_mem later_on_conn later_on_streams later_open_stream later_open_uni_stream
  later_handle_timeout : keeps.
Lemma later_stream_send sid data fin : keeps later_env (stream_send sid data fin).
Proof. unfold stream_send. keep. Qed.
Lemma later_stream_recv sid cap : keeps later_env (stream_recv sid cap).
Proof. unfold stream_recv. keep. Qed.
Lemma later_key_update : keeps later initiate_key_update.
Proof. unfold initiate_key_update. keep. apply keeps_later_same, keeps_on_keys, _. Qed.
#[local] Hint Resolve later_stream_send later_stream_recv later_key_update : keeps.

(** The calls of the application and the network. *)
Inductive op : Type :=
| Recv (datagram scratch : list Z) (now : Z)
| PollTransmit (buf : list Z) (now : Z)
| HandleTimeout (now : Z)
| PollEvent
| OpenStream
| OpenUniStream
| StreamSend (stream_id : Z) (data : list Z) (fin : bool)
| StreamRecv (stream_id cap : Z)
| StreamResetCall (stream_id error_code : Z)
| StreamStopSending (stream_id error_code : Z)
| Close (error_code : Z) (reason : list Z)
| InitiateKeyUpdate.

(** What the caller sees of it; a datagram with whether the connection was closing. *)
Inductive output : Type :=
| Nothing
| Datagram (closing : bool) (data : list Z)
| Reported (e : Event).

Definition quietly {A} (m : M Error env A) : M Error env output := _ ← m; mret Nothing.

Definition call (o : op) : M Error env output :=
  match o with
  | Recv datagram scratch now => quietly (_ ← on_mem (put scratch); recv grant datagram now)
  | PollTransmit buf now =>
      _ ← on_mem (put buf);
      c ← conn_of;
      r ← poll_transmit grant now;
      mret (match r with Some d => Datagram (ConnectionKeys.is_some (close_frame c)) d | None => Nothing end)
  | HandleTimeout now => quietly (on_conn (handle_timeout now))
  | PollEvent => r ← on_conn poll_event; mret (match r with Some e => Reported e | None => Nothing end)
  | OpenStream => quietly (on_conn open_stream)
  | OpenUniStream => quietly (on_conn open_uni_stream)
  | StreamSend sid data fin => quietly (stream_send sid data fin)
  | StreamRecv sid cap => quietly (stream_recv sid cap)
  | StreamResetCall sid code => quietly (on_conn (stream_reset sid code))
  | StreamStopSending sid code => quietly (on_conn (stream_stop_sending sid code))
  | Close code reason => quietly (on_conn (modify (close code reason)))
  | InitiateKeyUpdate => quietly (on_conn initiate_key_update)
  end.

(** A sequence of calls; an error returned to the caller does not end it, a panic
    does. *)
Fixpoint calls (l : list op) (e : env) : list output * env :=
  match l with
  | [] => ([], e)
  | o :: l =>
      match call o e with
      | (Ok out, e) => let '(outs, e) := calls l e in (out :: outs, e)
      | (Err _, e) => calls l e
      | (Panic, e) => ([], e)
      end
  end.

Lemma later_quietly {A} (m : M Error env A) : keeps later_env m → keeps later_env (quietly m).
Proof. intros. unfold quietly. keep. Qed.
#[local] Hint Resolve later_quietly : keeps.

Lemma later_poll_event : keeps later poll_event.
Proof.
  apply keeps_get_look. intros c. destruct (events c) as [|e l] eqn:He; [reflexivity|]. simpl.
  split; [|done..]. split; try done; [|by left]. unfold announcements, connected. simpl. rewrite He. simpl. destruct e; simpl; lia.
Qed.
Lemma later_close_call code reason : keeps later (modify (close code reason)).
Proof. apply keeps_modify, later_close. Qed.
#[local] Hint Resolve later_poll_event later_close_call : keeps.

Lemma later_call o : match o with Recv _ _ _ | PollTransmit _ _ => False | _ => True end → keeps later_env (call o).
Proof. destruct o; intros Ho; try done; unfold call; keep. Qed.

Lemma arrived_lasting d now c : lasting c (arrived d now c).
Proof. unfold arrived. cbn. destruct (address_validated c); split; try done; by left. Qed.
(** The count of received bytes, which saturates. *)
Definition counts (d : list Z) (n n' : Z) : Prop := n' ≤ n + len d ∧ (n < 2 ^ usize_bits → n ≤ n').
Lemma arrived_received d now c :
  counts d (anti_amplification_bytes_received c) (anti_amplification_bytes_received (arrived d now c)).
Proof. unfold counts, arrived, sat_add. cbn. destruct (address_validated c); simpl; lia. Qed.

Lemma quietly_state {A} (m : M Error env A) e : (quietly m e).2 = (m e).2.
Proof. unfold quietly, mbind, M_bind. by destruct (m e) as [[] ?]. Qed.

Lemma recv_closed d now e : state (conn e) = Closed → recv grant d now e = (Err Errors.Closed, e).
Proof.
  intros Hs. unfold recv, conn_of, mbind, M_bind, get, mret, M_ret. by rewrite bool_decide_eq_true_2.
Qed.

(** The three kinds of calls. *)
Lemma recv_call d scratch now e : 
  lasting (conn e) (conn (call (Recv d scratch now) e).2) ∧
  counts d (anti_amplification_bytes_received (conn e)) (anti_amplification_bytes_received (conn (call (Recv d scratch now) e).2)) ∧
  anti_amplification_bytes_sent (conn (call (Recv d scratch now) e).2) = anti_amplification_bytes_sent (conn e).
Proof.
  unfold call. rewrite quietly_state. set (e1 := e <| mem := scratch |>).
  change ((_ ← on_mem (put scratch); recv grant d now) e) with (recv grant d now e1).
  change (conn e) with (conn e1). clearbody e1. destruct (decide (state (conn e1) = Closed)) as [Hs|Hs].
  { rewrite recv_closed by done. simpl. split_and!; [reflexivity|unfold counts; lia|done]. }
  rewrite recv_eq by done. set (e2 := e1 <| conn := _ |>).
  assert (later (conn e2) (conn (process grant d now e2).2)) as [Hl Hr Hn].
  { apply later_forward; [apply keeps_process|]. unfold e2, arrived. cbn. by destruct (address_validated (conn e1)). }
  rewrite Hr, Hn. split_and!; [etrans; [apply arrived_lasting|exact Hl]|apply arrived_received|].
  unfold e2, arrived. cbn. by destruct (address_validated (conn e1)).
Qed.

(** What a datagram says of the state before and after it. *)
Inductive transmit_outcome (c : t) : result output → t → Prop :=
| sent_datagram closing d c' : state c ≠ Closed → transmitted c (len d) c' →
    (closing = true ↔ is_Some (close_frame c)) → transmit_outcome c (Ok (Datagram closing d)) c'
| sent_nothing r c' : later c c' → r = Ok Nothing ∨ r = Panic → transmit_outcome c r c'
| sent_badly c' : lasting c c' → transmit_outcome c Panic c'.

Lemma transmitted_lasting c total c' : transmitted c total c' → lasting c c'.
Proof.
  intros [c1 _ Ho _|c1 _ Ho _ _]; [by apply later_closes|]. etrans; [by apply later_closes|apply account_lasting].
Qed.

Lemma transmit_call buf now e :
  transmit_outcome (conn e) (call (PollTransmit buf now) e).1 (conn (call (PollTransmit buf now) e).2).
Proof.
  unfold call. set (e1 := e <| mem := buf |>). unfold poll_transmit, attempt, conn_of, on_mem, sub, put, get.
  unfold mbind, M_bind, mret, M_ret, lift.
  cbn. fold e1. change (conn e) with (conn e1). clearbody e1. pose proof (transmit_fails now e1) as Hf.
  destruct (transmit grant now e1) as [[total|err|] e2] eqn:Ht; cbn in *; [|(apply sent_nothing; [exact Hf|auto])..].
  apply transmit_spec in Ht as [Ho Ht]. destruct (slice (mem e2) 0 total) as [d|err|] eqn:Hs; cbn.
  - apply slice_ok_inv in Hs as (_ & _ & Hn). apply sent_datagram; [done|by replace (len d) with total by lia|].
    destruct (close_frame (conn e1)); simpl; split; try done; by intros [].
  - unfold slice in Hs. by case_decide.
  - apply sent_badly. by eapply transmitted_lasting.
Qed.

Lemma call_lasting o e : lasting (conn e) (conn (call o e).2).
Proof.
  destruct o; try by (apply later_call).
  - apply recv_call.
  - destruct (transmit_call buf now e) as [closing d c' _ Ht _|r c' Hl _|c' Hl]; [by eapply transmitted_lasting|apply Hl|done].
Qed.

(** The announcements an output shows. *)
Definition announced (out : output) : nat := match out with Reported Connected => 1 | _ => 0 end.
Lemma call_announces o e out e' : call o e = (Ok out, e') →
  (announced out + announcements (conn e') ≤ announcements (conn e))%nat.
Proof.
  intros Hc. pose proof (call_lasting o e) as Hl. rewrite Hc in Hl. pose proof (lasting_announcements _ _ Hl) as Ha.
  assert (announced out = 0%nat ∨ out = Reported Connected) as [->| ->] by (destruct out as [| |[]]; auto); [done|].
  destruct o; unfold call, quietly in Hc; try by (apply M_bind_ok in Hc as (? & ? & _ & Hc); inversion Hc).
  - apply M_bind_ok in Hc as (? & ? & _ & Hc). apply M_bind_ok in Hc as (? & ? & _ & Hc).
    apply M_bind_ok in Hc as ([] & ? & _ & Hc); inversion Hc.
  - apply M_bind_ok in Hc as (r & e1 & Hp & Hc). inversion Hc as [[Hr He]]; subst. destruct r as [ev|]; inversion Hr; subst.
    unfold on_conn, sub, poll_event in Hp. unfold mbind, M_bind, get in Hp. destruct (events (conn e)) as [|ev l] eqn:He; inversion Hp; subst.
    unfold announcements, connected. simpl. rewrite He. simpl. lia.
Qed.


(** A connection that is closed sends nothing. *)
Lemma call_datagram o e closing d e' : call o e = (Ok (Datagram closing d), e') →
  state (conn e) ≠ Closed ∧ transmitted (conn e) (len d) (conn e') ∧ (closing = true → state (conn e') = Closed).
Proof.
  intros Hc. destruct o as [| buf now| | | | | | | | | |];
    try by (unfold call, quietly in Hc; apply M_bind_ok in Hc as (? & ? & _ & Hc); inversion Hc).
  - pose proof (transmit_call buf now e) as Ht. rewrite Hc in Ht.
    inversion Ht as [? ? ? Ho Htr Hi|? ? ? [?|?]|]; subst; try done. split_and!; [done..|].
    intros ->. inversion Htr as [? ? ? Hcl|? Hn]; subst; [done|]. apply proj1 in Hi. rewrite Hn in Hi. by destruct (Hi eq_refl).
  - unfold call in Hc. apply M_bind_ok in Hc as ([r|] & e1 & Hp & Hc); inversion Hc.
Qed.

Definition is_datagram (out : output) : bool := match out with Datagram _ _ => true | _ => false end.
Lemma calls_lasting l : ∀ e, lasting (conn e) (conn (calls l e).2).
Proof.
  induction l as [|o l IH]; intros e; [reflexivity|]. simpl. pose proof (call_lasting o e) as Hl.
  destruct (call o e) as [[out|err|] e1]; simpl in Hl; [|etrans; [exact Hl|apply IH]|done].
  specialize (IH e1). destruct (calls l e1). by etrans.
Qed.
Lemma closed_stays c c' : lasting c c' → state c = Closed → state c' = Closed.
Proof. intros Hl Hs. pose proof (lasting_state _ _ Hl) as Hr. rewrite Hs in Hr. destruct (state c'); simpl in Hr; try done; lia. Qed.
Lemma calls_closed l : ∀ e, state (conn e) = Closed → Forall (λ out, is_datagram out = false) (calls l e).1.
Proof.
  induction l as [|o l IH]; intros e Hs; [done|]. simpl. pose proof (closed_stays _ _ (call_lasting o e) Hs) as Hs1.
  destruct (call o e) as [[out|err|] e1] eqn:Hc; simpl in Hs1; [|by apply IH|done].
  specialize (IH e1 Hs1). destruct (calls l e1) as [outs e2]. constructor; [|done].
  destruct out as [|closing d|]; try done. by apply call_datagram in Hc as [].
Qed.

(** C12: Whatever calls are made, with whatever datagrams, and whatever they return: the
    connection keeps its role, its parameters and its connection IDs, its states only
    go forward from Handshaking to Closed, no packet number is taken back, a validated
    address stays validated and the handshake slot is given back for good; the
    application sees the connection announced at most once; and behind the
    CONNECTION_CLOSE no datagram is sent and the connection stays closed. *)
Theorem quic_lifecycle l e :
  let '(outs, e') := calls l e in
  lasting (conn e) (conn e') ∧
  (list_sum (announced <$> outs) + announcements (conn e') ≤ announcements (conn e))%nat ∧ (announcements (conn e) ≤ connected (events (conn e)) + 1)%nat ∧
  (∀ before d after, outs = before ++ Datagram true d :: after →
     state (conn e') = Closed ∧ Forall (λ out, is_datagram out = false) after).
Proof.
  destruct (calls l e) as [outs e'] eqn:Hc. pose proof (calls_lasting l e) as Hl. rewrite Hc in Hl. simpl in Hl.
  split_and!; [done| |unfold announcements; case_decide; lia|]; clear Hl; revert e outs e' Hc.
  - induction l as [|o l IH]; simpl; intros e outs e' Hc; [by inversion Hc|].
    pose proof (lasting_announcements _ _ (call_lasting o e)) as Ha.
    destruct (call o e) as [[out|err|] e1] eqn:Ho; simpl in Ha; [|specialize (IH e1 _ _ Hc); lia|by inversion Hc; subst].
    destruct (calls l e1) as [outs1 e2] eqn:Hc1. inversion Hc; subst. specialize (IH e1 _ _ Hc1).
    apply call_announces in Ho.
    change (list_sum (announced <$> out :: outs1)) with (announced out + list_sum (announced <$> outs1))%nat. lia.
  - induction l as [|o l IH]; simpl; intros e outs e' Hc before d after Heq; [inversion Hc; subst; by destruct before|].
    destruct (call o e) as [[out|err|] e1] eqn:Ho; [|by eapply IH|inversion Hc; subst; by destruct before].
    destruct (calls l e1) as [outs1 e2] eqn:Hc1. inversion Hc; subst. destruct before as [|out' before]; simplify_eq/=; [|by eapply IH].
    apply call_datagram in Ho as (_ & _ & Hs). specialize (Hs eq_refl).
    pose proof (closed_stays _ _ (calls_lasting l e1) Hs) as Hs'. pose proof (calls_closed l e1 Hs) as Hn. by rewrite Hc1 in Hs', Hn.
Qed.

End operations.

(** ** Amplification *)
Section amplification.
Context `{Params} `{Platform} `{Primitives} (grant : Z → bool).

(** Bytes that arrive in a sequence of calls, and bytes sent by them; the datagram
    with a CONNECTION_CLOSE is not among the ones the limit is applied to. *)
Definition arriving (o : op) : Z := match o with Recv d _ _ => len d | _ => 0 end.
Definition leaving (out : output) : Z := match out with Datagram false d => len d | _ => 0 end.
Definition bytes_in (l : list op) : Z := foldr (λ o n, arriving o + n) 0 l.
Definition bytes_out (outs : list output) : Z := foldr (λ out n, leaving out + n) 0 outs.

(** Datagrams fit in memory. *)
Definition short_datagram (out : output) : Prop := match out with Datagram _ d => len d < 2 ^ 30 | _ => True end.

Lemma arriving_pos o : 0 ≤ arriving o.
Proof. destruct o; simpl; lia. Qed.
Lemma bytes_in_pos l : 0 ≤ bytes_in l.
Proof. induction l as [|o l IH]; simpl; [lia|]. pose proof (arriving_pos o). lia. Qed.

Lemma allows_bound total c : amplification_allows total c = Ok true → address_validated c = false →
  anti_amplification_bytes_sent c ≤ 3 * anti_amplification_bytes_received c →
  anti_amplification_bytes_received c ≤ 2 ^ 30 → total < 2 ^ 30 →
  anti_amplification_bytes_sent c + total ≤ 3 * anti_amplification_bytes_received c.
Proof.
  unfold amplification_allows. intros Ha Hv Hs Hr Ht. rewrite Hv in Ha. pose proof pow_usize_ge as Hp.
  rewrite usize_add_ok in Ha by lia. simpl in Ha. rewrite umul_ok in Ha by lia. simpl in Ha.
  inversion Ha as [Hb]. by apply Z.leb_le in Hb.
Qed.

(** The counters of the connection against the bytes on the wire. *)
Record counted (c : t) (r s : Z) : Prop := {
  counted_received : anti_amplification_bytes_received c ≤ r;
  counted_sent : s ≤ anti_amplification_bytes_sent c;
  counted_limit : anti_amplification_bytes_sent c ≤ 3 * anti_amplification_bytes_received c
}.

Lemma counted_later c c' r s : later c c' → counted c r s → counted c' r s.
Proof. intros [_ Hr Hs] []. split; rewrite ?Hr, ?Hs; done. Qed.

Lemma counted_datagram c d c' r s closing : transmitted c (len d) c' → (closing = true ↔ is_Some (close_frame c)) →
  counted c r s → r ≤ 2 ^ 30 → len d < 2 ^ 30 → address_validated c' = false →
  counted c' r (s + leaving (Datagram closing d)).
Proof.
  intros Ht Hc Hk Hr Hd Hv. inversion Ht as [c1 Hf Ho Hs|c1 Hf Ho Hp Ha]; subst.
  - apply Hc in Hf. subst. simpl. replace (s + 0) with s by lia. by eapply counted_later; [apply later_closes|].
  - destruct closing; [destruct (proj1 Hc eq_refl); congruence|]. apply later_closes in Ho.
    pose proof (counted_later _ _ _ _ Ho Hk) as [Hk1 Hk2 Hk3]. unfold account in *.
    destruct (address_validated c1) eqn:Hv1; [congruence|]. destruct Ha as [|Ha]; [done|].
    pose proof (allows_bound _ _ Ha Hv1 Hk3 ltac:(lia) Hd) as Hb. pose proof pow_usize_ge.
    split; simpl; unfold sat_add; lia.
Qed.

Lemma call_leaving o e out e' : match o with PollTransmit _ _ => False | _ => True end →
  call grant o e = (Ok out, e') → leaving out = 0.
Proof.
  intros Ho Hc. destruct o; try done; unfold call, quietly in Hc; apply M_bind_ok in Hc as (r & e1 & _ & Hc); try by inversion Hc.
  by destruct r; inversion Hc.
Qed.

Lemma call_counted o e out e' r s : call grant o e = (out, e') → counted (conn e) r s → r + arriving o ≤ 2 ^ 30 →
  address_validated (conn e') = false →
  match out with
  | Ok out => short_datagram out → counted (conn e') (r + arriving o) (s + leaving out)
  | Err _ => counted (conn e') (r + arriving o) s
  | Panic => True
  end.
Proof.
  intros Hc Hk Hr Hv. pose proof (arriving_pos o) as Hp. pose proof pow_usize_ge.
  assert (arriving o = 0 → later (conn e) (conn e') → (∀ out', out = Ok out' → leaving out' = 0) →
    match out with Ok out => short_datagram out → counted (conn e') (r + arriving o) (s + leaving out)
                 | Err _ => counted (conn e') (r + arriving o) s | Panic => True end) as Hsame.
  { intros -> Hl Ho. rewrite Z.add_0_r. pose proof (counted_later _ _ _ _ Hl Hk).
    destruct out; [|done..]. rewrite (Ho _ eq_refl), Z.add_0_r. done. }
  assert (match o with Recv _ _ _ | PollTransmit _ _ => False | _ => True end → later (conn e) (conn e')) as Hlater.
  { intros Ho. pose proof (later_call grant o Ho e) as Hl. by rewrite Hc in Hl. }
  assert (match o with PollTransmit _ _ => False | _ => True end → ∀ out', out = Ok out' → leaving out' = 0) as Hleave.
  { intros Ho out' ->. by apply (call_leaving o e out' e'). }
  destruct o as [d scratch now|buf now| | | | | | | | | |]; try by apply Hsame; auto.
  - pose proof (recv_call grant d scratch now e) as (_ & [Hr1 Hr2] & Hs). rewrite Hc in Hr1, Hr2, Hs. simpl in *.
    assert (counted (conn e') (r + len d) s) as Hk'.
    { destruct Hk as [Hk1 Hk2 Hk3]. split; rewrite ?Hs; [lia|lia|]. specialize (Hr2 ltac:(lia)). lia. }
    destruct out as [out'| |]; [|done..]. by rewrite (Hleave I out' eq_refl), Z.add_0_r.
  - pose proof (transmit_call grant buf now e) as Ht. rewrite Hc in Ht. simpl in Ht |- *. simpl in Hr.
    inversion Ht as [closing d c' Ho Htr Hi|r' c' Hl [?|?]|]; subst; [|apply Hsame; [done..|]; intros out' [= <-]; done|done|done].
    rewrite Z.add_0_r. intros Hd. apply (counted_datagram (conn e)); try done. lia.
Qed.

Lemma calls_counted l : ∀ e outs e' r s, calls grant l e = (outs, e') → counted (conn e) r s →
  r + bytes_in l ≤ 2 ^ 30 → Forall short_datagram outs → address_validated (conn e') = false →
  s + bytes_out outs ≤ 3 * (r + bytes_in l).
Proof.
  induction l as [|o l IH]; intros e outs e' r s Hc Hk Hr Hd Hv.
  { inversion Hc; subst. destruct Hk. simpl. lia. }
  pose proof (bytes_in_pos l). pose proof (arriving_pos o).
  pose proof (calls_lasting grant l (call grant o e).2) as Hl. cbn [calls] in Hc.
  change (bytes_in (o :: l)) with (arriving o + bytes_in l) in *.
  pose proof (λ H, call_counted o e _ _ r s (surjective_pairing _) Hk ltac:(lia) H) as Hcall.
  destruct (call grant o e) as [[out|err|] e1]; cbn [fst snd] in *.
  - destruct (calls grant l e1) as [outs1 e2] eqn:Hc1. inversion Hc; subst. inversion Hd; subst.
    assert (address_validated (conn e1) = false) as Hv1.
    { destruct (address_validated (conn e1)) eqn:Hv1; [|done]. apply (lasting_validated _ _ Hl) in Hv1. simpl in Hv1. congruence. }
    change (bytes_out (out :: outs1)) with (leaving out + bytes_out outs1). specialize (IH e1 outs1 e' (r + arriving o) (s + leaving out) Hc1 (Hcall Hv1 ltac:(done)) ltac:(lia) ltac:(done) Hv). lia.
  - assert (address_validated (conn e1) = false) as Hv1.
    { destruct (address_validated (conn e1)) eqn:Hv1; [|done]. apply (lasting_validated _ _ Hl) in Hv1. rewrite Hc in Hv1. simpl in Hv1. congruence. }
    specialize (IH e1 outs e' (r + arriving o) s Hc (Hcall Hv1) ltac:(lia) Hd Hv). lia.
  - inversion Hc; subst. destruct Hk. change (bytes_out []) with 0. lia.
Qed.

(** C5: A server that has not validated the address of its peer sends it at most three
    times the bytes it has received from there, in all datagrams up to its
    CONNECTION_CLOSE, whatever arrives and whatever the application calls. *)
Theorem quic_anti_amplification l e outs e' :
  calls grant l e = (outs, e') →
  anti_amplification_bytes_received (conn e) = 0 → anti_amplification_bytes_sent (conn e) = 0 →
  bytes_in l ≤ 2 ^ 30 → Forall short_datagram outs → address_validated (conn e') = false →
  bytes_out outs ≤ 3 * bytes_in l.
Proof.
  intros Hc Hr Hs Hl Hd Hv. by apply (calls_counted l e outs e' 0 0); [|split; lia|..].
Qed.

End amplification.

(** A client pings, and the server acknowledges. *)
Definition ping_calls : list op := [Recv QuicDemo.ping_packet (replicate 100 0) 5; PollTransmit (replicate 200 0) 6].
Definition ping_result : list output * env :=
  calls (H := QuicDemo.demo_quic) (H0 := platform64) (H1 := Toy.toy) QuicDemo.allocator ping_calls QuicDemo.server_env.
Definition ping_outputs : list output := Eval vm_compute in ping_result.1.
Lemma ping_outputs_eq : ping_result.1 = ping_outputs.
Proof. vm_compute. reflexivity. Qed.
Lemma ping_run : calls (H := QuicDemo.demo_quic) (H0 := platform64) (H1 := Toy.toy) QuicDemo.allocator ping_calls QuicDemo.server_env
  = (ping_outputs, ping_result.2).
Proof. rewrite <- ping_outputs_eq. unfold ping_result. generalize (calls (H := QuicDemo.demo_quic) (H0 := platform64) (H1 := Toy.toy) QuicDemo.allocator ping_calls QuicDemo.server_env). apply surjective_pairing. Qed.
Lemma ping_not_validated : address_validated (conn ping_result.2) = false.
Proof. vm_compute. reflexivity. Qed.

Lemma quic_anti_amplification_witness : 0 < bytes_out ping_outputs ≤ 3 * bytes_in ping_calls.
Proof.
  split; [vm_compute; reflexivity|].
  apply (quic_anti_amplification (H := QuicDemo.demo_quic) (H0 := platform64) (H1 := Toy.toy) QuicDemo.allocator
    ping_calls QuicDemo.server_env ping_outputs ping_result.2).
  - exact ping_run.
  - vm_compute. reflexivity.
  - vm_compute. reflexivity.
  - vm_compute. discriminate.
  - unfold ping_outputs. constructor; [exact I|]. constructor; [vm_compute; reflexivity|constructor].
  - apply ping_not_validated.
Defined.

End QuicLife.
