(* ===== verification/QuicSend.v ===== *)
(** * Sending on a stream, end to end

    What the application hands to [stream_send] is queued without loss or repetition,
    the STREAM frames built from the queue carry it at its offsets, and a peer that
    receives any of these frames, in any order, reads a prefix of it. *)
From S2P Require Import Prelude Errors Varint Frame StreamMap Dispatch QuicIo QuicConn QuicRecv QuicTransmit QuicDemo.

(** ** Calls on the send side of a stream *)
Section with_send.

Lemma position_insert_same {A} (p : A → bool) (l : list A) i x y :
  l !! i = Some x → p y = p x → position p (<[i := y]> l) = position p l.
Proof.
  revert i. induction l as [|z l IH]; intros [|i] Hi Hp; simplify_eq/=; [by rewrite Hp|]. by rewrite (IH i).
Qed.

Lemma get_with_send {A} sid (f : M Error Stream.SendState A) m s sd r sd' :
  Stream.get m sid = Some s → Stream.send s = Some sd → f sd = (r, sd') →
  ∃ m', Stream.with_send sid f m = (r, m') ∧
    Stream.get m' sid = Some (s <| Stream.send := Some sd' |>) ∧
    (∀ sid', sid' ≠ sid → Stream.get m' sid' = Stream.get m sid').
Proof.
  unfold Stream.get, Stream.with_send. destruct (Stream.find_stream m sid) as [i|] eqn:Hi; [|done].
  simpl. intros Hs Hsd Hf. destruct (Stream.streams m !! i) as [o|] eqn:Ho; [|done]. simpl in Hs. subst o. simpl.
  rewrite Hsd, Hf. eexists. split; [reflexivity|].
  assert (∀ sid', Stream.find_stream (m <| Stream.streams := <[i := Some (s <| Stream.send := Some sd' |>)]> (Stream.streams m) |>) sid'
    = Stream.find_stream m sid') as Hfind by (intros sid'; unfold Stream.find_stream; by apply position_insert_same with (Some s)).
  assert (i < length (Stream.streams m))%nat as Hlt by (by apply lookup_lt_Some in Ho).
  split.
  - rewrite Hfind, Hi. simpl. by rewrite list_lookup_insert_eq.
  - intros sid' Hne. rewrite Hfind. destruct (Stream.find_stream m sid') as [j|] eqn:Hj; [|done]. simpl.
    rewrite list_lookup_insert_ne; [done|]. intros ->. apply Stream.find_stream_Some in Hi as (s1 & E1 & <-).
    apply Stream.find_stream_Some in Hj as (s2 & E2 & <-). by simplify_eq.
Qed.

(** A side that takes data. *)
Definition open_side (sd : Stream.SendState) : bool :=
  match Stream.s_state sd with Stream.SendStreamState.Ready | Stream.SendStreamState.Send => true | _ => false end.

Lemma send_data_ok n fin sd : open_side sd = true → Stream.s_offset sd + n ≤ Stream.s_max_data sd →
  Stream.s_offset sd + n < 2 ^ 64 →
  ∃ sd', Stream.send_data n fin sd = (Ok tt, sd') ∧ Stream.s_offset sd' = Stream.s_offset sd + n ∧
    Stream.s_max_data sd' = Stream.s_max_data sd ∧ open_side sd' = negb fin.
Proof.
  unfold open_side, Stream.send_data. intros Ho Hm Hn. erewrite M_step_ok by reflexivity.
  destruct (Stream.s_state sd) eqn:Hs; try done.
  all: rewrite uadd_ok by done; erewrite M_step_lift by reflexivity; rewrite (proj2 (Z.ltb_ge _ _)) by done.
  all: destruct fin; (eexists; split; [reflexivity|]; cbn; rewrite ?Hs; done).
Qed.
Lemma send_data_err n fin sd : open_side sd = false → Stream.send_data n fin sd = (Err Stream.stream_state_error, sd).
Proof.
  unfold open_side, Stream.send_data. intros Ho. erewrite M_step_ok by reflexivity. by destruct (Stream.s_state sd).
Qed.

End with_send.

Module QuicSend.
Import Quic.
Import QuicIo(StreamSendEntry, MkEntry, e_stream_id, e_offset, e_data, e_len, e_fin, send_queue, recv_bufs, STREAM_BUF, SEND_QUEUE,
  part, frame_ok).

Section send.
Context `{Params} `{Platform}.
Hypothesis Hbuf : 0 < STREAM_BUF < 2 ^ 31.

(** ** Entries *)
Definition entry_bytes (en : StreamSendEntry) : list Z := take (Z.to_nat (e_len en)) (e_data en).
Definition entry_ok (en : StreamSendEntry) : Prop := len (e_data en) = STREAM_BUF ∧ 0 ≤ e_len en ≤ STREAM_BUF.
(** The entry carries bytes of [stream] at their offset. *)
Definition carries (stream : list Z) (en : StreamSendEntry) : Prop := frame_ok stream (e_offset en) (entry_bytes en) (e_fin en).
Definition entry_end (en : StreamSendEntry) : Z := e_offset en + e_len en.

Lemma entry_bytes_len en : entry_ok en → len (entry_bytes en) = e_len en.
Proof. intros [Hd Hl]. unfold entry_bytes. len_lia. Qed.

(** A buffer that takes [n] bytes of the stream. *)
Lemma entry_filled stream sid mem k offset n fin done :
  len mem = STREAM_BUF → 0 ≤ k → 0 ≤ n → k + n ≤ STREAM_BUF → 0 ≤ offset → offset + k + n ≤ len stream →
  len done = k → done = part stream offset k → (fin = true → offset + k + n = len stream) →
  let en := MkEntry sid offset (done ++ part stream (offset + k) n ++ drop (Z.to_nat (k + n)) mem) (k + n) fin in
  entry_ok en ∧ carries stream en.
Proof.
  intros Hm Hk Hn Hkn Ho Hs Hd Hp Hf. cbv zeta. assert (len (part stream (offset + k) n) = n) as Lp by (apply QuicIo.part_length; lia).
  set (en := MkEntry _ _ _ _ _). assert (entry_ok en) as Hok by (split; cbn; [len_lia|lia]). split; [done|].
  assert (entry_bytes en = part stream offset (k + n)) as Hb.
  { unfold entry_bytes. cbn. rewrite app_assoc, take_app_le by len_lia. rewrite take_ge by len_lia. rewrite Hp. apply QuicIo.part_app; lia. }
  pose proof (entry_bytes_len en Hok) as Hl. unfold carries, frame_ok. cbn [e_offset e_fin en] in *. change (e_len en) with (k + n) in Hl.
  rewrite Hl. split_and!; [done|lia|done|]. intros ->. specialize (Hf eq_refl). lia.
Qed.

(** ** Fresh entries *)
Section spill.
Context (stream bytes : list Z) (sid base send_len : Z) (fin coalesced : bool).
Hypothesis Hlen : 0 ≤ send_len ≤ len bytes.
Hypothesis Hbase : 0 ≤ base.
Hypothesis Hstream : stream = take (Z.to_nat base) stream ++ take (Z.to_nat send_len) bytes.
Hypothesis Hsize : len stream = base + send_len.
Hypothesis Hmax : len stream < 2 ^ 31.

Lemma new_part a n : 0 ≤ a → 0 ≤ n → a + n ≤ send_len → take (Z.to_nat n) (drop (Z.to_nat a) bytes) = part stream (base + a) n.
Proof.
  intros Ha Hn Hl. unfold part. rewrite Hstream. replace (Z.to_nat (base + a)) with (length (take (Z.to_nat base) stream) + Z.to_nat a)%nat by len_lia.
  rewrite drop_app_add. rewrite skipn_firstn_comm, take_take. f_equal. lia.
Qed.

(** What the loop appends. *)
Record spilled (written : Z) (es : list StreamSendEntry) : Prop := {
  sp_entries : Forall (λ en, e_stream_id en = sid ∧ entry_ok en ∧ carries stream en ∧ (e_fin en = true → fin = true)) es;
  sp_last en : last es = Some en → entry_end en = base + send_len ∧ e_fin en = fin;
  sp_none : es = [] → written = send_len ∧ (fin = true → written = 0 → coalesced = true);
  sp_count : (len es - 1) * STREAM_BUF < send_len - written ∨ es = [] ∨ (written = send_len ∧ length es = 1%nat ∧ fin = true ∧ written = 0 ∧ coalesced = false)
}.

Lemma spill_ok fuel : ∀ written q, 0 ≤ written ≤ send_len → send_len - written < Z.of_nat fuel →
  ∃ es, spill fuel sid bytes send_len fin coalesced written (base + written) q =
    (Ok tt, q <| send_queue := send_queue q ++ es |>) ∧ spilled written es.
Proof.
  induction fuel as [|fuel IH]; intros written q Hw Hf; [lia|]. cbn [spill].
  destruct ((written <? send_len) || (fin && (written =? 0) && negb coalesced)) eqn:Hc; cycle 1.
  { exists []. split; [destruct q; cbn; by rewrite app_nil_r|]. apply orb_false_iff in Hc as [Hc1 Hc2]. apply Z.ltb_ge in Hc1.
    split; [done|done| |auto]. intros _. split; [lia|]. intros -> Hz. rewrite Hz in Hc2. by destruct coalesced. }
  set (chunk := Z.min (send_len - written) STREAM_BUF).
  rewrite slice_eq by lia. erewrite M_step_lift by reflexivity. replace (written + chunk - written) with chunk by lia.
  rewrite new_part by lia. assert (len (part stream (base + written) chunk) = chunk) as Lp by (apply QuicIo.part_length; lia).
  rewrite copy_at_eq by len_lia. erewrite M_step_lift by reflexivity. rewrite take_0, app_nil_l.
  erewrite M_step_ok by reflexivity. cbn beta.
  set (en := MkEntry sid (base + written) _ chunk _).
  destruct (entry_filled stream sid (replicate (Z.to_nat STREAM_BUF) 0) 0 (base + written) chunk (fin && (written + chunk =? send_len)) [])
    as [Hok Hcar]; [len_lia|lia..|done|done| |].
  { intros Hb. apply andb_true_iff in Hb as [_ Hb]. apply Z.eqb_eq in Hb. lia. }
  rewrite !Z.add_0_r, !Z.add_0_l, app_nil_l in Hok, Hcar. fold en in Hok, Hcar.
  assert (e_fin en = true → fin = true) as Hfin by (cbn; by intros [? _]%andb_true_iff).
  destruct (Z.eqb_spec chunk 0) as [Hz|Hnz].
  - assert (written = send_len) as -> by lia. exists [en]. split; [done|]. apply orb_true_iff in Hc as [Hc|Hc]; [apply Z.ltb_lt in Hc; lia|].
    apply andb_true_iff in Hc as [Hc Hco]. apply andb_true_iff in Hc as [-> Hc]. apply Z.eqb_eq in Hc. apply negb_true_iff in Hco.
    split; [by constructor| |done|right; right; done].
    intros en' [= <-]. unfold entry_end. cbn. split; [lia|]. by rewrite (proj2 (Z.eqb_eq _ _)) by lia.
  - rewrite uadd_ok by lia. erewrite M_step_lift by reflexivity. rewrite <- Z.add_assoc.
    destruct (IH (written + chunk) (q <| send_queue := send_queue q ++ [en] |>) ltac:(lia) ltac:(lia)) as (es & Hes & Hsp).
    rewrite Hes. exists (en :: es). cbn. rewrite <- app_assoc. split; [done|]. destruct Hsp as [H1 H2 H3 H4]. split.
    + by constructor.
    + intros en' Hl. destruct es as [|e2 es]; [|by apply H2]. injection Hl as <-. destruct (H3 eq_refl) as [H3' _]. unfold entry_end. cbn.
      split; [lia|]. rewrite (proj2 (Z.eqb_eq _ _)) by lia. apply andb_true_r.
    + done.
    + left. cbn [length]. destruct H4 as [H4|[->|(H4 & Hl & _ & Hw0 & _)]]; [|cbn; lia|lia].
      assert (0 < chunk ∧ (send_len - (written + chunk) > 0 → chunk = STREAM_BUF)) by lia.
      destruct (decide (send_len - (written + chunk) > 0)); [nia|]. destruct es; [cbn in *; lia|]. cbn [length] in *. nia.
Qed.

End spill.


(** ** The queue *)

(** What the application has handed over on each stream, and whether it has finished. *)
Definition accepted : Type := Z → list Z * bool.
Definition accept (acc : accepted) (sid : Z) (bytes : list Z) (fin : bool) : accepted := λ x,
  if decide (x = sid) then ((acc sid).1 ++ bytes, fin) else acc x.

Definition entry_of (acc : accepted) (en : StreamSendEntry) : Prop :=
  varint_ok (e_stream_id en) ∧ entry_ok en ∧ carries (acc (e_stream_id en)).1 en ∧ (e_fin en = true → (acc (e_stream_id en)).2 = true).

(** The streams agree with what was handed over. *)
Definition in_step (acc : accepted) (m : Stream.StreamMap) : Prop := ∀ sid s sd,
  Stream.get m sid = Some s → Stream.send s = Some sd →
  Stream.s_offset sd = len (acc sid).1 ∧ Stream.s_offset sd ≤ Stream.s_max_data sd ∧ ((acc sid).2 = true → open_side sd = false).

Record queued (acc : accepted) (m : Stream.StreamMap) (q : list StreamSendEntry) : Prop := {
  q_entries : Forall (entry_of acc) q;
  q_count : len q ≤ SEND_QUEUE;
  q_last en : last q = Some en → entry_end en = len (acc (e_stream_id en)).1;
  q_streams : in_step acc m
}.

Lemma part_extend (s u : list Z) a n : 0 ≤ a → 0 ≤ n → a + n ≤ len s → part (s ++ u) a n = part s a n.
Proof. intros. unfold part. rewrite drop_app_le by lia. rewrite take_app_le by len_lia. done. Qed.
Lemma frame_ok_extend (s u : list Z) offset bytes fin : frame_ok s offset bytes fin → (fin = true → u = []) → frame_ok (s ++ u) offset bytes fin.
Proof.
  intros (H1 & H2 & H3 & H4) Hu. split_and!; [done|len_lia|rewrite part_extend by lia; done|].
  intros Hf. rewrite (Hu Hf), app_nil_r. auto.
Qed.

(** Entries stay right when the stream goes on. *)
Lemma entry_accept acc sid bytes fin en : entry_of acc en → ((acc sid).2 = true → bytes = [] ∧ fin = true) → entry_of (accept acc sid bytes fin) en.
Proof.
  intros (Hsid & Hok & Hc & Hf) Hfin. unfold entry_of, accept. case_decide as Hd; [|done]. rewrite Hd in *. cbn. split_and!; [done|done| |].
  - apply frame_ok_extend; [done|]. intros Hx. by apply Hfin, Hf.
  - intros Hx. by apply Hfin, Hf.
Qed.

Hypothesis Hqueue : 0 ≤ SEND_QUEUE ∧ (SEND_QUEUE + 1) * STREAM_BUF < 2 ^ 32.

Lemma coalescible_some sid q tail : coalescible sid q = Some tail → last q = Some tail ∧ e_stream_id tail = sid ∧ e_fin tail = false.
Proof.
  unfold coalescible. destruct (last q) as [x|]; [|done]. destruct (_ && _) eqn:E; [|done]. intros [= ->].
  apply andb_true_iff in E as [E1 E2]. apply Z.eqb_eq in E1. by apply negb_true_iff in E2.
Qed.

Definition tail_room (sid : Z) (q : list StreamSendEntry) : Z :=
  match coalescible sid q with Some tail => STREAM_BUF - e_len tail | None => 0 end.
Definition room (sid : Z) (q : list StreamSendEntry) : Z := tail_room sid q + (SEND_QUEUE - len q) * STREAM_BUF.

Lemma capacity_ok acc c q sid s sd : queued acc (streams c) (send_queue q) → is_down c = false →
  Stream.get (streams c) sid = Some s → Stream.send s = Some sd →
  stream_send_capacity c q sid = Ok (Z.min (as_usize (sat_sub (Stream.s_max_data sd) (Stream.s_offset sd))) (room sid (send_queue q))).
Proof.
  intros Hq Hd Hs Hsd. unfold stream_send_capacity. rewrite Hd, Hs, Hsd. pose proof (q_count _ _ _ Hq) as Hn.
  assert (0 ≤ tail_room sid (send_queue q) ≤ STREAM_BUF ∧
    match coalescible sid (send_queue q) with Some tail => usub STREAM_BUF (e_len tail) | None => Ok 0 end
    = Ok (E:=Error) (tail_room sid (send_queue q))) as [Hr ->].
  { unfold tail_room. destruct (coalescible sid (send_queue q)) as [tail|] eqn:Hc; [|split; [lia|done]].
    apply coalescible_some in Hc as (Hl & _ & _). apply last_Some_elem_of in Hl.
    destruct (proj1 (Forall_forall _ _) (q_entries _ _ _ Hq) _ Hl) as (_ & (_ & Hok) & _). rewrite usub_ok by lia. split; [lia|done]. }
  cbn [mbind res_bind]. pose proof pow_usize_ge. unfold sat_sub at 2. rewrite Z.max_r by lia.
  rewrite umul_ok by nia. cbn [mbind res_bind]. rewrite usize_add_ok by nia. done.
Qed.

(** Filling the tail entry. *)
Lemma fill_tail_ok stream sid bytes send_len fin q q0 tail base :
  send_queue q = q0 ++ [tail] → entry_ok tail → entry_end tail = base → e_stream_id tail = sid →
  entry_bytes tail = part stream (e_offset tail) (e_len tail) → 0 ≤ e_offset tail →
  0 ≤ send_len ≤ len bytes → stream = take (Z.to_nat base) stream ++ take (Z.to_nat send_len) bytes → len stream = base + send_len →
  let n := Z.min (STREAM_BUF - e_len tail) send_len in
  ∃ tail', fill_tail tail bytes send_len fin q = (Ok n, q <| send_queue := q0 ++ [tail'] |>) ∧
    e_stream_id tail' = sid ∧ entry_ok tail' ∧ carries stream tail' ∧ entry_end tail' = base + n ∧ e_fin tail' = fin && (n =? send_len).
Proof.
  intros Hq Hok Hend Hsid Hby Ho Hl Hst Hsz n. destruct Hok as [Hd Hle] eqn:Hok'. unfold fill_tail.
  rewrite usub_ok by lia. erewrite M_step_lift by reflexivity. fold n. rewrite slice_eq by lia. erewrite M_step_lift by reflexivity.
  change (Z.to_nat 0) with O. rewrite drop_0, Z.sub_0_r.
  unfold entry_end in Hend.
  assert (take (Z.to_nat n) bytes = part stream (e_offset tail + e_len tail) n) as Hp.
  { replace (e_offset tail + e_len tail) with (base + 0) by lia.
    rewrite <- (new_part stream bytes base send_len Hl ltac:(lia) Hst Hsz 0 n) by lia. by rewrite drop_0. }
  rewrite Hp. assert (len (part stream (e_offset tail + e_len tail) n) = n) as Lp by (apply QuicIo.part_length; lia).
  rewrite copy_at_eq by lia. erewrite M_step_lift by reflexivity. erewrite M_step_ok by reflexivity. cbn beta.
  destruct (entry_filled stream sid (e_data tail) (e_len tail) (e_offset tail) n (fin && (n =? send_len)) (entry_bytes tail))
    as [Hok2 Hcar]; [done|lia..|by apply entry_bytes_len|done| |].
  { intros Hb. apply andb_true_iff in Hb as [_ Hb]. apply Z.eqb_eq in Hb. lia. }
  eexists. split.
  { unfold set_tail. rewrite Hq, length_app, Nat.add_sub, take_app_length. reflexivity. }
  destruct tail as [tsid toff tdata tlen tfin]. cbn in *. subst sid. split_and!; [done|exact Hok2|exact Hcar| |done]. unfold entry_end. cbn. lia.
Qed.

Lemma queued_ext acc acc' m q : (∀ x, acc' x = acc x) → queued acc m q → queued acc' m q.
Proof.
  intros He [H1 H2 H3 H4]. split; [|done| |].
  - eapply Forall_impl; [done|]. intros en Hen. unfold entry_of in *. by rewrite He.
  - intros en Hl. rewrite He. auto.
  - intros sid s sd. rewrite He. apply H4.
Qed.

Lemma mark_send_ok acc m sid s sd b fin : in_step acc m → Stream.get m sid = Some s → Stream.send s = Some sd →
  open_side sd = true → Stream.s_offset sd + len b ≤ Stream.s_max_data sd → len (acc sid).1 + len b < 2 ^ 31 →
  ∃ m', Stream.mark_send sid (len b) fin m = (Ok tt, m') ∧ in_step (accept acc sid b fin) m'.
Proof.
  intros Hin Hs Hsd Ho Hm Hl. destruct (Hin _ _ _ Hs Hsd) as (Hof & _ & _).
  destruct (send_data_ok (len b) fin sd Ho Hm ltac:(lia)) as (sd' & Hsend & Hof' & Hmax' & Ho').
  destruct (get_with_send sid _ m s sd _ _ Hs Hsd Hsend) as (m' & Hr & Hg & Hother). exists m'. split; [done|].
  intros x s1 sd1 Hg1 Hsd1. unfold accept. case_decide as Hx; [subst x|rewrite Hother in Hg1 by done; by eapply Hin].
  rewrite Hg in Hg1. simplify_eq. cbn in Hsd1. simplify_eq. cbn. rewrite Hof', Hmax', Ho'. split_and!; [len_lia|lia|by intros ->].
Qed.

(** The entries after the call. *)
Lemma queue_extended acc sid b fin q0 es : varint_ok sid → Forall (entry_of acc) q0 → (acc sid).2 = false →
  Forall (λ en, e_stream_id en = sid ∧ entry_ok en ∧ carries ((acc sid).1 ++ b) en ∧ (e_fin en = true → fin = true)) es →
  Forall (entry_of (accept acc sid b fin)) (q0 ++ es).
Proof.
  intros Hsid Hq Hf Hes. apply Forall_app. split.
  - eapply Forall_impl; [exact Hq|]. intros en Hen. apply entry_accept; [done|]. by rewrite Hf.
  - eapply Forall_impl; [exact Hes|]. intros en (Hs & Hok & Hc & Hfe). unfold entry_of, accept.
    rewrite Hs, decide_True by done. done.
Qed.

Lemma last_split {A} (l : list A) x : last l = Some x → ∃ l0, l = l0 ++ [x].
Proof. intros Hl. destruct l as [|y l] using rev_ind; [done|]. rewrite last_snoc in Hl. simplify_eq. by exists l. Qed.

Lemma room_pos acc m sid q : queued acc m q → 0 ≤ room sid q.
Proof.
  intros Hq. pose proof (q_count _ _ _ Hq). unfold room, tail_room. destruct (coalescible sid q) as [tail|] eqn:Hc; [|nia].
  apply coalescible_some in Hc as (Hl & _ & _). apply last_Some_elem_of in Hl.
  destruct (proj1 (Forall_forall _ _) (q_entries _ _ _ Hq) _ Hl) as (_ & (_ & Hok) & _). nia.
Qed.

(** Both parts of the queueing. *)
Lemma enqueue_ok acc m sid bytes n fin q : varint_ok sid → queued acc m (send_queue q) → (acc sid).2 = false →
  0 ≤ n ≤ len bytes → len (acc sid).1 + n < 2 ^ 31 → n ≤ room sid (send_queue q) → (n = 0 → fin = true) →
  let tail := coalescible sid (send_queue q) in
  let coalesced := match tail with Some _ => true | None => false end in
  (n = 0 → coalesced = false → len (send_queue q) < SEND_QUEUE) →
  let b := take (Z.to_nat n) bytes in
  ∃ written q1 q2,
    match tail with Some tail => fill_tail tail bytes n fin q | None => (Ok 0, q) end = (Ok written, q1) ∧
    0 ≤ written ≤ n ∧
    spill (S (Z.to_nat n)) sid bytes n fin coalesced written (len (acc sid).1 + written) q1 = (Ok tt, q2) ∧
    Forall (entry_of (accept acc sid b fin)) (send_queue q2) ∧ len (send_queue q2) ≤ SEND_QUEUE ∧
    (∀ en, last (send_queue q2) = Some en → entry_end en = len (accept acc sid b fin (e_stream_id en)).1).
Proof.
  intros Hsid Hq Hnot Hn Hmax Hroom Hz tail coalesced Hspace b. set (S0 := (acc sid).1) in *. set (stream := S0 ++ b).
  assert (len b = n) as Lb by (unfold b; len_lia).
  assert (len stream = len S0 + n) as Lst by (unfold stream; len_lia).
  assert (stream = take (Z.to_nat (len S0)) stream ++ take (Z.to_nat n) bytes) as Hst
    by (unfold stream; rewrite Nat2Z.id, take_app_length; done).
  assert (∀ en, e_stream_id en = sid → entry_end en = len S0 + n → entry_end en = len (accept acc sid b fin (e_stream_id en)).1) as Hend.
  { intros en -> ->. unfold accept. rewrite decide_True by done. cbn. fold S0. len_lia. }
  assert (∀ written q1, 0 ≤ written ≤ n → ∃ es,
    spill (S (Z.to_nat n)) sid bytes n fin coalesced written (len S0 + written) q1 = (Ok tt, q1 <| send_queue := send_queue q1 ++ es |>) ∧
    spilled stream sid (len S0) n fin coalesced written es) as Hspill.
  { intros written q1 Hw. apply spill_ok; try done; lia. }
  pose proof (q_count _ _ _ Hq) as Hcount. unfold room, tail_room in Hroom. fold tail in Hroom.
  destruct tail as [tl|] eqn:Htail.
  - unfold tail in Htail. apply coalescible_some in Htail as (Hl & Hid & Hnf). pose proof Hl as Hl0. apply last_split in Hl as [q0 Hq0].
    pose proof (q_entries _ _ _ Hq) as Hent. rewrite Hq0 in Hent. apply Forall_app in Hent as [Hent0 Hent1]. apply Forall_singleton in Hent1 as (_ & Hok & Hcar & _).
    rewrite Hid in Hcar. fold S0 in Hcar. pose proof (q_last _ _ _ Hq _ Hl0) as Hle. rewrite Hid in Hle. fold S0 in Hle.
    pose proof (frame_ok_extend S0 b _ _ _ Hcar ltac:(congruence)) as (Ho & Hfit & Hpart & _). fold stream in Hpart. rewrite entry_bytes_len in Hpart by done.
    destruct (fill_tail_ok stream sid bytes n fin q q0 tl (len S0) Hq0 Hok Hle Hid Hpart Ho Hn Hst Lst) as (tl' & Hfill & Hid' & Hok' & Hcar' & Hend' & Hfin').
    set (wr := Z.min (STREAM_BUF - e_len tl) n) in *. pose proof Hok as [_ Hlen].
    destruct (Hspill wr (q <| send_queue := q0 ++ [tl'] |>) ltac:(lia)) as (es & Hes & [S1 S2 S3 S4]).
    exists wr, (q <| send_queue := q0 ++ [tl'] |>), (q <| send_queue := (q0 ++ [tl']) ++ es |>). split; [done|]. split; [lia|]. split; [done|]. cbn.
    assert (len (send_queue q) = len q0 + 1) as Lq by (rewrite Hq0; len_lia).
    split; [|split].
    + rewrite <- app_assoc. apply queue_extended; [done..|]. constructor; [|done]. split_and!; [done..|]. rewrite Hfin'. by intros [? _]%andb_true_iff.
    + destruct S4 as [S4|[->|(_ & _ & _ & _ & S4)]]; [|len_lia|done]. destruct es as [|en es]; [len_lia|].
      cbn [length] in *. assert (wr < n) by nia. assert (Z.of_nat (length es) < SEND_QUEUE - len (send_queue q)) by nia. len_lia.
    + intros en Hlast. destruct es as [|en' es _] using rev_ind.
      * rewrite app_nil_r, last_snoc in Hlast. injection Hlast as <-. apply Hend; [done|]. destruct (S3 eq_refl) as [S3' _]. lia.
      * rewrite app_assoc, last_snoc in Hlast. injection Hlast as <-. apply Forall_app in S1 as [_ S1%Forall_inv].
        apply Hend; [apply S1|]. by apply (S2 en'), last_snoc.
  - destruct (Hspill 0 q ltac:(lia)) as (es & Hes & [S1 S2 S3 S4]).
    exists 0, q, (q <| send_queue := send_queue q ++ es |>). split; [done|]. split; [lia|]. split; [done|]. cbn. split; [|split].
    + apply queue_extended; [done|by apply (q_entries _ _ _ Hq)|done|done].
    + destruct S4 as [S4|[->|(S4 & S5 & _ & _ & S6)]]; [|rewrite app_nil_r; done|].
      * destruct es as [|en es]; [rewrite app_nil_r; done|]. cbn [length] in *.
        assert (Z.of_nat (length es) < SEND_QUEUE - len (send_queue q)) by nia. len_lia.
      * rewrite length_app, S5. specialize (Hspace ltac:(lia) eq_refl). lia.
    + intros en Hlast. destruct es as [|en' es _] using rev_ind.
      * destruct (S3 eq_refl) as [S5 S6]. specialize (S6 (Hz ltac:(lia)) eq_refl). done.
      * rewrite app_assoc, last_snoc in Hlast. injection Hlast as <-. apply Forall_app in S1 as [_ S1%Forall_inv].
        apply Hend; [apply S1|]. by apply (S2 en'), last_snoc.
Qed.

(** [stream_send] accepts the prefix of the data there is room for, within the
    window of the stream and the queue, and queues it behind what was accepted
    before: the entries of the queue carry exactly the accepted stream at its offsets,
    the FIN only at its end, and the count it returns is what it accepted.  An error
    leaves the queue as it was; nothing panics. *)
Lemma stream_send_ok acc sid bytes fin e :
  varint_ok sid → queued acc (streams (conn e)) (send_queue (io e)) → len (acc sid).1 + len bytes < 2 ^ 31 →
  ∃ r e', stream_send sid bytes fin e = (r, e') ∧
  match r with
  | Ok n => 0 ≤ n ≤ len bytes ∧ ((acc sid).2 = true → n = 0) ∧
      let fin' := (acc sid).2 || fin && (n =? len bytes) in
      queued (accept acc sid (take (Z.to_nat n) bytes) fin') (streams (conn e')) (send_queue (io e')) ∧
      ∃ s sd, Stream.get (streams (conn e)) sid = Some s ∧ Stream.send s = Some sd ∧
        n = Z.min (len bytes) (Z.min (as_usize (sat_sub (Stream.s_max_data sd) (Stream.s_offset sd))) (room sid (send_queue (io e))))
  | Err _ => queued acc (streams (conn e')) (send_queue (io e')) ∧ send_queue (io e') = send_queue (io e) ∧
      (∀ s sd, Stream.get (streams (conn e)) sid = Some s → Stream.send s = Some sd → is_down (conn e) = false → open_side sd = true →
         Z.min (len bytes) (Z.min (as_usize (sat_sub (Stream.s_max_data sd) (Stream.s_offset sd))) (room sid (send_queue (io e)))) = 0)
  | Panic => False
  end.
Proof.
  intros Hsid Hq Hlen. unfold stream_send. erewrite M_step_ok by reflexivity. set (c := conn e) in *. set (q := io e) in *.
  destruct (is_down c) eqn:Hd; [by do 2 eexists|].
  destruct (Stream.get (streams c) sid) as [s|] eqn:Hs; [|by do 2 eexists]. erewrite M_step_lift by reflexivity.
  destruct (Stream.send s) as [sd|] eqn:Hsd; [|do 2 eexists; split; [reflexivity|]; split_and!; [done..|]; intros; congruence]. erewrite M_step_lift by reflexivity.
  rewrite (capacity_ok acc c q sid s sd Hq Hd Hs Hsd). erewrite M_step_lift by reflexivity.
  destruct (q_streams _ _ _ Hq _ _ _ Hs Hsd) as (Hof & Hmx & Hcl).
  set (w := as_usize _). set (n := Z.min (len bytes) _).
  assert (0 ≤ w ≤ Stream.s_max_data sd - Stream.s_offset sd) as Hw.
  { unfold w, sat_sub. rewrite Z.max_r by lia. pose proof (as_usize_range (Stream.s_max_data sd - Stream.s_offset sd)). split; [lia|].
    unfold as_usize, trunc. apply Z.mod_le; lia. }
  assert (0 ≤ room sid (send_queue q)) as Hroom by (by eapply room_pos).
  assert (0 ≤ n ≤ len bytes) as Hn by lia.
  set (fin' := fin && (n =? len bytes)).
  destruct ((n =? 0) && negb fin') eqn:Hearly.
  { apply andb_true_iff in Hearly as [Hz Hnf]. apply Z.eqb_eq in Hz. apply negb_true_iff in Hnf.
    exists (Ok 0), e. split; [done|]. split; [lia|]. split; [done|]. split; [|by exists s, sd].
    rewrite take_0. cbv zeta. rewrite <- Hz. fold fin'. rewrite Hnf, orb_false_r.
    apply (queued_ext acc); [|done]. intros x. unfold accept. case_decide; [|done]. subst. rewrite app_nil_r. by destruct (acc sid). }
  destruct ((n =? 0) && negb _ && (SEND_QUEUE <=? len (send_queue q))) eqn:Hfull.
  { do 2 eexists. split; [reflexivity|]. split_and!; [done..|]. intros ?? [= <-] ? _ _. simplify_eq.
    apply andb_true_iff in Hfull as [[Hz _]%andb_true_iff _]. by apply Z.eqb_eq in Hz. }
  set (b := take (Z.to_nat n) bytes). assert (len b = n) as Lb by (unfold b; len_lia).
  destruct (open_side sd) eqn:Hopen; cycle 1.
  { destruct (get_with_send sid (Stream.send_data n fin') (streams c) s sd _ _ Hs Hsd (send_data_err n fin' sd Hopen)) as (m' & Hr & Hg & Hother).
    do 2 eexists. split; [unfold mbind, M_bind, on_conn, on_streams, sub; cbn; fold c; unfold Stream.mark_send; rewrite Hr; reflexivity|].
    cbn. split; [|split; [done|]; intros; congruence]. destruct Hq as [H1 H2 H3 H4]. split; [done..|]. intros x s1 sd1 Hg1 Hsd1.
    destruct (decide (x = sid)) as [->|Hx]; [|rewrite Hother in Hg1 by done; by eapply H4].
    rewrite Hg in Hg1. simplify_eq. cbn in Hsd1. simplify_eq. by eapply H4. }
  assert ((acc sid).2 = false) as Hnot by (destruct (acc sid).2; [specialize (Hcl eq_refl); congruence|done]).
  destruct (mark_send_ok acc (streams c) sid s sd b fin' (q_streams _ _ _ Hq) Hs Hsd Hopen ltac:(lia) ltac:(lia)) as (m' & Hr & Hin).
  rewrite Lb in Hr. unfold b in Hin.
  destruct (enqueue_ok acc (streams c) sid bytes n fin' q Hsid Hq Hnot Hn ltac:(lia) ltac:(lia)) as (wr & q1 & q2 & Hf & Hwr & Hsp & Q1 & Q2 & Q3).
  { intros Hz. rewrite Hz in Hearly. destruct fin'; done. }
  { intros Hz Hco. rewrite Hz, Hco in Hfull. cbn in Hfull. by apply Z.leb_gt in Hfull. }
  set (e2 := MkEnv (c <| streams := m' |>) q2 (pool e) (mem e)).
  exists (Ok n), e2. split; [|split; [lia|split; [congruence|split; [|by exists s, sd]]]].
  - erewrite M_step_ok by (unfold on_conn, on_streams, sub; fold c; rewrite Hr; reflexivity).
    assert (∀ e1, io e1 = q → match coalescible sid (send_queue q) with Some tail => on_io (fill_tail tail bytes n fin') | None => mret 0 end e1
      = (Ok wr, e1 <| io := q1 |>)) as Hfill.
    { intros e1 He1. destruct (coalescible sid (send_queue q)).
      - unfold on_io, sub. rewrite He1, Hf. done.
      - injection Hf as <- <-. rewrite <- He1. by destruct e1. }
    erewrite M_step_ok by (apply Hfill; done). rewrite Hof. rewrite uadd_ok by lia. erewrite M_step_lift by reflexivity.
    unfold mbind, M_bind, on_io, sub. cbn -[spill]. rewrite Hsp. done.
  - cbv zeta. rewrite Hnot. cbn [orb]. fold fin'. cbn. split; [done..|]. exact Hin.
Qed.

(** ** What is left after a call that does not end the stream *)

Lemma coalescible_snoc sid q en : e_stream_id en = sid → e_fin en = false → coalescible sid (q ++ [en]) = Some en.
Proof. intros <- Hf. unfold coalescible. by rewrite last_snoc, Z.eqb_refl, Hf. Qed.

Lemma room_snoc sid q en : e_stream_id en = sid → e_fin en = false →
  room sid (q ++ [en]) = (SEND_QUEUE - len q) * STREAM_BUF - e_len en.
Proof. intros Hs Hf. unfold room, tail_room. rewrite coalescible_snoc by done. len_lia. Qed.

Lemma spill_room sid bytes send_len co fuel : ∀ written offset q q',
  spill fuel sid bytes send_len false co written offset q = (Ok tt, q') → 0 ≤ written < send_len → send_len ≤ len bytes →
  room sid (send_queue q') = (SEND_QUEUE - len (send_queue q)) * STREAM_BUF - (send_len - written).
Proof.
  induction fuel as [|fuel IH]; intros written offset q q' Hs Hw Hl; cbn [spill] in Hs.
  all: rewrite (proj2 (Z.ltb_lt _ _)) in Hs by lia; cbn [orb] in Hs.
  { done. }
  set (chunk := Z.min (send_len - written) STREAM_BUF) in Hs. rewrite slice_eq in Hs by lia. erewrite M_step_lift in Hs by reflexivity.
  rewrite copy_at_eq in Hs by len_lia. erewrite M_step_lift in Hs by reflexivity. erewrite M_step_ok in Hs by reflexivity. cbn beta in Hs.
  rewrite (proj2 (Z.eqb_neq chunk 0)) in Hs by lia. destruct (uadd 64 offset chunk) as [off| |]; [|done..].
  erewrite M_step_lift in Hs by reflexivity. destruct (Z.lt_ge_cases (written + chunk) send_len) as [Hlt|Hge].
  - apply IH in Hs; [|lia..]. rewrite Hs. cbn. rewrite length_app, Nat2Z.inj_add. cbn [length]. change (Z.of_nat 1) with 1. nia.
  - assert (written + chunk = send_len) as He by lia. destruct fuel as [|fuel]; cbn [spill] in Hs.
    all: rewrite (proj2 (Z.ltb_ge _ _)) in Hs by lia; cbn [orb andb] in Hs; injection Hs as <-; cbn.
    all: rewrite room_snoc by done; cbn; lia.
Qed.

Lemma fill_tail_room sid bytes send_len tail q wr q1 : coalescible sid (send_queue q) = Some tail → 0 ≤ e_len tail ≤ STREAM_BUF →
  0 ≤ send_len ≤ len bytes → fill_tail tail bytes send_len false q = (Ok wr, q1) →
  wr = Z.min (STREAM_BUF - e_len tail) send_len ∧ len (send_queue q1) = len (send_queue q) ∧
  (wr = send_len → room sid (send_queue q1) = room sid (send_queue q) - send_len).
Proof.
  intros Hc He Hl Hf. pose proof (coalescible_some _ _ _ Hc) as (Hla & Hid & Hfin). apply last_split in Hla as [q0 Hq].
  unfold fill_tail in Hf. rewrite usub_ok in Hf by lia. erewrite M_step_lift in Hf by reflexivity.
  set (n := Z.min _ _) in Hf. rewrite slice_eq in Hf by lia. erewrite M_step_lift in Hf by reflexivity.
  destruct (copy_at _ _ _ _) as [mem'| |]; [|done..]. erewrite M_step_lift in Hf by reflexivity. erewrite M_step_ok in Hf by reflexivity.
  injection Hf as <- <-. split; [done|]. cbn. rewrite Hq. set (en := _ <| e_fin := _ |>).
  assert (set_tail en (q0 ++ [tail]) = q0 ++ [en]) as -> by (unfold set_tail; by rewrite length_app, Nat.add_sub, take_app_length).
  split; [by rewrite !length_app|]. intros Hn. rewrite !room_snoc by done. cbn. lia.
Qed.

(** A call that takes all of its bytes and does not end the stream takes them from the
    window of the stream and from the room of the queue, and the stream stays open. *)
Lemma stream_send_rest acc sid bytes n e e' s sd : queued acc (streams (conn e)) (send_queue (io e)) →
  Stream.get (streams (conn e)) sid = Some s → Stream.send s = Some sd → Stream.s_max_data sd < 2 ^ 64 →
  stream_send sid bytes false e = (Ok n, e') → 0 < n →
  state (conn e') = state (conn e) ∧ room sid (send_queue (io e')) = room sid (send_queue (io e)) - n ∧ open_side sd = true ∧
  ∃ s' sd', Stream.get (streams (conn e')) sid = Some s' ∧ Stream.send s' = Some sd' ∧ open_side sd' = true ∧
    Stream.s_max_data sd' = Stream.s_max_data sd ∧ Stream.s_offset sd' = Stream.s_offset sd + n.
Proof.
  intros Hq Hs Hsd Hmx Hsend Hn. unfold stream_send in Hsend. erewrite M_step_ok in Hsend by reflexivity.
  set (c := conn e) in *. set (q := io e) in *. destruct (is_down c) eqn:Hd; [done|].
  rewrite Hs in Hsend. erewrite M_step_lift in Hsend by reflexivity. rewrite Hsd in Hsend. erewrite M_step_lift in Hsend by reflexivity.
  rewrite (capacity_ok acc c q sid s sd Hq Hd Hs Hsd) in Hsend. erewrite M_step_lift in Hsend by reflexivity.
  destruct (q_streams _ _ _ Hq _ _ _ Hs Hsd) as (Hof & Hmax & _). set (w := as_usize _) in Hsend. set (k := Z.min (len bytes) _) in Hsend.
  cbn [andb negb] in Hsend. rewrite andb_true_r in Hsend. destruct (Z.eqb_spec k 0) as [Hk|Hk]; [injection Hsend as <- <-; lia|]. cbn [andb] in Hsend.
  assert (0 ≤ w ≤ Stream.s_max_data sd - Stream.s_offset sd) as Hw.
  { unfold w, sat_sub. rewrite Z.max_r by lia. pose proof (as_usize_range (Stream.s_max_data sd - Stream.s_offset sd)). split; [lia|].
    unfold as_usize, trunc. apply Z.mod_le; lia. }
  assert (0 ≤ room sid (send_queue q)) as Hroom by (by eapply room_pos).
  destruct (open_side sd) eqn:Hopen; cycle 1.
  { destruct (get_with_send sid (Stream.send_data k false) (streams c) s sd _ _ Hs Hsd (send_data_err k false sd Hopen)) as (m' & Hr & _).
    unfold mbind, M_bind, on_conn, on_streams, sub in Hsend. fold c in Hsend. unfold Stream.mark_send in Hsend. rewrite Hr in Hsend. done. }
  destruct (send_data_ok k false sd Hopen ltac:(lia) ltac:(lia)) as (sd' & Hsent & Hof' & Hmax' & Ho').
  destruct (get_with_send sid _ (streams c) s sd _ _ Hs Hsd Hsent) as (m' & Hr & Hg & _).
  assert (on_conn (on_streams (Stream.mark_send sid k false)) e = (Ok tt, e <| conn := c <| streams := m' |> |>)) as Hmark.
  { unfold on_conn, on_streams, sub. fold c. unfold Stream.mark_send. rewrite Hr. done. }
  erewrite M_step_ok in Hsend by exact Hmark.
  assert (k ≤ room sid (send_queue q)) as Hkr by lia. assert (k ≤ len bytes) as Hkb by lia. clearbody k.
  destruct (match coalescible sid (send_queue q) with Some tail => on_io (fill_tail tail bytes k false) | None => mret 0 end
              (e <| conn := c <| streams := m' |> |>)) as [[wr| |] e1] eqn:Hf; [|unfold mbind, M_bind in Hsend; rewrite Hf in Hsend; done..].
  erewrite M_step_ok in Hsend by exact Hf. destruct (uadd 64 _ wr) as [off| |]; [|done..]. erewrite M_step_lift in Hsend by reflexivity.
  unfold mbind, M_bind, on_io, sub in Hsend. destruct (spill _ _ _ _ _ _ _ _ _) as [[[]| |] q2] eqn:Hsp in Hsend; [|done..]. injection Hsend as <- <-.
  assert (conn e1 = c <| streams := m' |> ∧ 0 ≤ wr ≤ k ∧ (wr = k → room sid (send_queue (io e1)) = room sid (send_queue q) - k) ∧
    (wr ≠ k → room sid (send_queue q) - wr = (SEND_QUEUE - len (send_queue (io e1))) * STREAM_BUF)) as (Hc1 & Hwr & Hr1 & Hr2).
  { destruct (coalescible sid (send_queue q)) as [tail|] eqn:Hco.
    - unfold on_io, sub in Hf. destruct (fill_tail tail bytes k false (io _)) as [r0 q1] eqn:Hfill in Hf. injection Hf as -> <-.
      change (io (e <| conn := c <| streams := m' |> |>)) with q in Hfill.
      assert (0 ≤ e_len tail ≤ STREAM_BUF) as Htl.
      { apply coalescible_some in Hco as (Hla & _). apply last_Some_elem_of in Hla.
        by destruct (proj1 (Forall_forall _ _) (q_entries _ _ _ Hq) _ Hla) as (_ & (_ & ?) & _). }
      destruct (fill_tail_room sid bytes k tail q wr q1 Hco Htl ltac:(lia) Hfill) as (Hwr & Hlq & Hrm). cbn. rewrite Hlq.
      split_and!; [done|lia|lia|exact Hrm|]. intros Hne. unfold room, tail_room. rewrite Hco. lia.
    - injection Hf as <- <-. split_and!; [done|lia|lia|intros; lia|]. intros _.
      unfold room, tail_room. rewrite Hco. change (io (e <| conn := c <| streams := m' |> |>)) with q. lia. }
  cbn. rewrite Hc1. split_and!; [done| |done|].
  - destruct (decide (wr = k)) as [->|Hne].
    + rewrite <- Hr1 by done. cbn [spill] in Hsp. rewrite (proj2 (Z.ltb_ge _ _)) in Hsp by lia. cbn [orb andb] in Hsp. by injection Hsp as <-.
    + apply spill_room in Hsp; [|lia..]. rewrite Hsp. specialize (Hr2 Hne). change (io (e1 <| io := q2 |>)) with q2. lia.
  - do 2 eexists. split; [exact Hg|]. cbn. split; [done|]. rewrite Ho'. done.
Qed.

(** ** STREAM frames *)

(** The frame of an entry. *)
Definition frame_of (en : StreamSendEntry) : Frame.t := Frame.Stream {|
  Frame.st_stream_id := e_stream_id en; Frame.st_offset := e_offset en; Frame.st_data := entry_bytes en; Frame.st_fin := e_fin en |}.
Abbreviation frames_wire fs := (concat (Frame.frame_wire <$> fs)).

Lemma write_entries_ok q : ∀ done rest, Forall (λ en, entry_ok en ∧ Frame.frame_ok (frame_of en)) q →
  ∃ k rest', (k ≤ length q)%nat ∧ let fs := frame_of <$> take k q in
    QuicTransmit.write_entries q (len done) (done ++ rest) = (Ok (len done + len (frames_wire fs), k), done ++ frames_wire fs ++ rest').
Proof.
  induction q as [|en q IH]; intros done rest Hq; cbn [QuicTransmit.write_entries].
  { exists O, rest. split; [done|]. cbn. by rewrite Z.add_0_r. }
  apply Forall_cons in Hq as [[Hok Hf] Hq]. erewrite M_step_ok by reflexivity. rewrite usub_ok by len_lia. erewrite M_step_lift by reflexivity.
  assert (∃ k rest', (k ≤ length (en :: q))%nat ∧ let fs := frame_of <$> take k (en :: q) in
    (Ok (len done, O), done ++ rest) = (Ok (E:=Error) (len done + len (frames_wire fs), k), done ++ frames_wire fs ++ rest')) as Hstop.
  { exists O, rest. split; [cbn; lia|]. cbn. by rewrite Z.add_0_r. }
  destruct (Z.ltb _ 16); [exact Hstop|]. clear Hstop. destruct Hok as [Hd Hl]. rewrite slice_eq by lia. erewrite M_step_lift by reflexivity.
  change (Z.to_nat 0) with O. rewrite drop_0, Z.sub_0_r. fold (entry_bytes en). fold (frame_of en).
  destruct (Frame.frame_encode_refines_wire (frame_of en) rest Hf) as [Hfit Hshort].
  destruct (decide (len (Frame.frame_wire (frame_of en)) ≤ len rest)) as [Hr|Hr].
  - erewrite M_step_ok; cycle 1.
    { unfold attempt. rewrite with_from_app by done. rewrite Hfit by done. reflexivity. }
    cbn beta iota. set (w := Frame.frame_wire (frame_of en)) in *.
    destruct (IH (done ++ w) (drop (length w) rest) Hq) as (k & rest' & Hk & Hw). rewrite length_app, Nat2Z.inj_add, <- app_assoc in Hw.
    exists (S k), rest'. split; [cbn; lia|]. cbv zeta in *. erewrite M_step_ok by exact Hw. cbn [take fmap list_fmap concat].
    fold w. unfold mret, M_ret. cbn [fst snd]. rewrite length_app, Nat2Z.inj_add, Z.add_assoc, <- !app_assoc. done.
  - destruct (Hshort ltac:(lia)) as (err & buf' & He & _). erewrite M_step_ok; cycle 1.
    { unfold attempt. rewrite with_from_app by done. rewrite He. reflexivity. }
    exists O, buf'. split; [cbn; lia|]. cbn. by rewrite Z.add_0_r.
Qed.

Lemma build_stream_frames_ok e pos end_ : Forall (λ en, entry_ok en ∧ Frame.frame_ok (frame_of en)) (send_queue (io e)) →
  0 ≤ pos ≤ end_ → end_ ≤ len (mem e) →
  ∃ k rest', (k ≤ length (send_queue (io e)))%nat ∧ let w := frames_wire (frame_of <$> take k (send_queue (io e))) in
    QuicTransmit.build_stream_frames pos end_ e =
    (Ok (len w), e <| mem := take (Z.to_nat pos) (mem e) ++ (w ++ rest') ++ drop (Z.to_nat end_) (mem e) |>
                   <| io := (io e) <| send_queue := drop k (send_queue (io e)) |> |>).
Proof.
  intros Hq Hp He. destruct (write_entries_ok (send_queue (io e)) [] (take (Z.to_nat (end_ - pos)) (drop (Z.to_nat pos) (mem e))) Hq) as (k & rest' & Hk & Hw).
  exists k, rest'. split; [done|]. cbv zeta in *. unfold QuicTransmit.build_stream_frames. erewrite M_step_ok by reflexivity.
  erewrite M_step_ok; cycle 1.
  { unfold on_mem, sub, QuicTransmit.within. rewrite decide_True by lia. cbn [app length] in Hw. change (Z.of_nat 0) with 0 in Hw. rewrite Hw. reflexivity. }
  cbn beta. erewrite M_step_ok by reflexivity. done.
Qed.

(** ** End to end *)

(** The sender hands data over and fills buffers with STREAM frames; what was accepted
    and the frames that have left are recorded. *)
Inductive send_op := Hand (sid : Z) (bytes : list Z) (fin : bool) | Depart (buf : list Z).
Record sender := MkSender { s_env : env; s_acc : accepted; s_net : list Frame.t }.

Definition send_step (o : send_op) (s : sender) : result sender :=
  match o with
  | Hand sid bytes fin =>
      match stream_send sid bytes fin (s_env s) with
      | (Ok n, e) => Ok (MkSender e (accept (s_acc s) sid (take (Z.to_nat n) bytes) ((s_acc s sid).2 || fin && (n =? len bytes))) (s_net s))
      | (Err _, e) => Ok (MkSender e (s_acc s) (s_net s))
      | (Panic, _) => Panic
      end
  | Depart buf =>
      match QuicTransmit.build_stream_frames 0 (len buf) ((s_env s) <| mem := buf |>) with
      | (Ok n, e) => Ok (MkSender e (s_acc s) (s_net s ++ (parse (A := Frame.t) (Z.to_nat n) (take (Z.to_nat n) (mem e))).1))
      | (Err _, e) => Ok (MkSender e (s_acc s) (s_net s))
      | (Panic, _) => Panic
      end
  end.
Fixpoint send_steps (l : list send_op) (s : sender) : result sender :=
  match l with [] => Ok s | o :: l => s ← send_step o s; send_steps l s end.

(** The bytes handed over on a stream. *)
Definition handed (sid : Z) (l : list send_op) : Z :=
  foldr (λ o n, match o with Hand x bytes _ => (if x =? sid then len bytes else 0) + n | Depart _ => n end) 0 l.
Definition send_op_ok (o : send_op) : Prop :=
  match o with Hand sid bytes _ => varint_ok sid ∧ bytes_ok bytes | Depart buf => len buf < 2 ^ 31 end.

(** A frame that carries accepted bytes. *)
Definition frame_carries (acc : accepted) (f : Frame.t) : Prop :=
  match f with
  | Frame.Stream f => frame_ok (acc (Frame.st_stream_id f)).1 (Frame.st_offset f) (Frame.st_data f) (Frame.st_fin f) ∧
      (Frame.st_fin f = true → (acc (Frame.st_stream_id f)).2 = true)
  | _ => False
  end.

Record sender_ok (s : sender) : Prop := {
  so_queue : queued (s_acc s) (streams (conn (s_env s))) (send_queue (io (s_env s)));
  so_bytes sid : bytes_ok (s_acc s sid).1;
  so_net : Forall (frame_carries (s_acc s)) (s_net s)
}.

Lemma handed_pos sid l : 0 ≤ handed sid l.
Proof. unfold handed. induction l as [|[] l IH]; cbn in *; [lia| |done]. case_match; lia. Qed.

Lemma frame_accept acc sid bytes fin f : frame_carries acc f → ((acc sid).2 = true → bytes = [] ∧ fin = true) →
  frame_carries (accept acc sid bytes fin) f.
Proof.
  destruct f; try done. cbn. intros [Hf Hfin] Hc. unfold accept. case_decide as Hd; [|done]. rewrite Hd in *. cbn. split.
  - apply frame_ok_extend; [done|]. intros Hx. by apply Hc, Hfin.
  - intros Hx. by apply Hc, Hfin.
Qed.

Lemma last_drop {A} k (l : list A) x : last (drop k l) = Some x → last l = Some x.
Proof.
  revert l. induction k as [|k IH]; intros [|y l] Hl; [done..|]. cbn [drop] in Hl. apply IH in Hl. cbn. by destruct l.
Qed.

Lemma entry_frame_ok acc en : entry_of acc en → bytes_ok (acc (e_stream_id en)).1 → len (acc (e_stream_id en)).1 < 2 ^ 31 →
  Frame.frame_ok (frame_of en).
Proof.
  intros (Hsid & Hok & (Ho & Hl & Hp & _) & _) Hb Hlen. pose proof (entry_bytes_len en Hok) as Le. pose proof pow_usize_ge.
  split; [done|]. split; [cbn; unfold varint_ok; change MAX_VARINT with (2 ^ 62 - 1); lia|]. cbn. split_and!.
  - rewrite Hp. apply Forall_take, Forall_drop, Hb.
  - change MAX_VARINT with (2 ^ 62 - 1). lia.
  - unfold uint. lia.
Qed.

Lemma send_step_ok o s : sender_ok s → send_op_ok o → (∀ sid, len (s_acc s sid).1 + handed sid [o] < 2 ^ 31) →
  ∃ s', send_step o s = Ok s' ∧ sender_ok s' ∧ (∀ sid, len (s_acc s' sid).1 ≤ len (s_acc s sid).1 + handed sid [o]).
Proof.
  intros [Hq Hb Hn] Ho Hlim. destruct o as [sid bytes fin|buf].
  - destruct Ho as [Hsid Hby]. pose proof (Hlim sid) as Hl. cbn in Hl. rewrite Z.eqb_refl in Hl.
    destruct (stream_send_ok (s_acc s) sid bytes fin (s_env s) Hsid Hq ltac:(lia)) as (r & e' & Hr & Hres). cbn [send_step]. rewrite Hr.
    destruct r as [n|err|]; [| |done].
    + destruct Hres as (Hn0 & Hz & Hq' & _). cbv zeta in Hq'. set (b := take (Z.to_nat n) bytes) in *. set (fin' := _ || _) in *.
      assert ((s_acc s sid).2 = true → b = [] ∧ fin' = true) as Hclosed.
      { intros Hc. unfold b, fin'. rewrite (Hz Hc), Hc. done. }
      eexists. split; [reflexivity|]. split; [split; cbn|cbn].
      * done.
      * intros x. unfold accept. case_decide; [|done]. cbn. apply Forall_app. split; [apply Hb|]. by apply Forall_take.
      * eapply Forall_impl; [exact Hn|]. intros f Hf. by apply frame_accept.
      * intros x. unfold accept. case_decide as Hx; [subst x|case_match; lia]. cbn. rewrite Z.eqb_refl. unfold b. len_lia.
    + destruct Hres as [Hq' _]. eexists. split; [reflexivity|]. split; [by split|]. intros x. pose proof (handed_pos x [Hand sid bytes fin]). cbn -[handed]. lia.
  - assert (Forall (λ en, entry_ok en ∧ Frame.frame_ok (frame_of en)) (send_queue (io (s_env s)))) as Hent.
    { eapply Forall_impl; [apply (q_entries _ _ _ Hq)|]. intros en Hen. split; [apply Hen|]. eapply entry_frame_ok; [done|apply Hb|].
      specialize (Hlim (e_stream_id en)). cbn in Hlim. lia. }
    destruct (build_stream_frames_ok ((s_env s) <| mem := buf |>) 0 (len buf)) as (k & rest' & Hk & Hbuild); [exact Hent|lia|done|].
    cbv zeta in Hbuild. cbn [send_step]. rewrite Hbuild. cbn [io mem update]. eexists. split; [reflexivity|].
    set (q := send_queue (io (s_env s))) in *. set (fs := frame_of <$> take k q).
    match goal with |- context [parse ?n ?l] => assert (parse (A := Frame.t) n l = (fs, None)) as Hparse end.
    { cbn. change (Z.to_nat 0) with O. rewrite take_0, app_nil_l, !Nat2Z.id, <- app_assoc, take_app_length.
      pose proof (parse_wires (A := Frame.t) (length (wires fs)) fs) as Hp. unfold wires in Hp. cbn [fc_wire quic_codec] in Hp. apply Hp; [|done].
      apply Forall_fmap, Forall_take. eapply Forall_impl; [exact Hent|]. by intros en []. }
    rewrite Hparse. cbn. split; [split; cbn|].
    + destruct Hq as [H1 H2 H3 H4]. split; [by apply Forall_drop| | |done].
      * rewrite length_drop. lia.
      * intros en Hl. apply H3. by apply last_drop in Hl.
    + done.
    + apply Forall_app. split; [done|]. apply Forall_fmap, Forall_take. eapply Forall_impl; [apply (q_entries _ _ _ Hq)|].
      intros en (_ & _ & Hc & Hf). split; [exact Hc|exact Hf].
    + intros x. lia.
Qed.

Lemma send_steps_ok l : ∀ s, sender_ok s → Forall send_op_ok l → (∀ sid, len (s_acc s sid).1 + handed sid l < 2 ^ 31) →
  ∃ s', send_steps l s = Ok s' ∧ sender_ok s' ∧ (∀ sid, len (s_acc s' sid).1 < 2 ^ 31).
Proof.
  induction l as [|o l IH]; intros s Hs Hl Hlim; cbn [send_steps].
  { exists s. split; [done|]. split; [done|]. intros sid. specialize (Hlim sid). cbn in Hlim. lia. }
  apply Forall_cons in Hl as [Ho Hl]. assert (∀ sid, handed sid (o :: l) = handed sid [o] + handed sid l) as Hsum.
  { intros sid. unfold handed. destruct o; cbn; lia. }
  destruct (send_step_ok o s Hs Ho) as (s1 & -> & Hs1 & Hgrow).
  { intros sid. specialize (Hlim sid). rewrite Hsum in Hlim. pose proof (handed_pos sid l). lia. }
  cbn [mbind res_bind]. apply IH; [done|done|]. intros sid. specialize (Hlim sid). rewrite Hsum in Hlim. specialize (Hgrow sid). lia.
Qed.

(** Frames on their way to the receiver: any of those that have left, in any order,
    lost or repeated. *)
Definition from_net (net : list Frame.t) (ev : QuicIo.event) : Prop :=
  match ev with
  | QuicIo.Arrives sid offset bytes fin => Frame.Stream {| Frame.st_stream_id := sid; Frame.st_offset := offset;
      Frame.st_data := bytes; Frame.st_fin := fin |} ∈ net
  | QuicIo.Reads _ cap => 0 ≤ cap
  end.

(** C6: Streams end to end.  A sender hands data over on any streams and fills any
    buffers with STREAM frames in between; none of it panics.  A peer that receives
    any of these frames, as often and in whatever order, and reads whenever it likes,
    reads of every stream a prefix of what the sender's [stream_send] accepted on it,
    each byte once and in order; of a stream that fits its receive buffer it has read
    everything once it reads the FIN. *)
Theorem quic_stream_end_to_end (rcaps : QuicIo.Capacities) l e :
  0 ≤ QuicIo.STREAM_BUF (Capacities := rcaps) < 2 ^ 31 →
  send_queue (io e) = [] →
  (∀ sid s sd, Stream.get (streams (conn e)) sid = Some s → Stream.send s = Some sd → Stream.s_offset sd = 0 ∧ 0 ≤ Stream.s_max_data sd) →
  Forall send_op_ok l → (∀ sid, handed sid l < 2 ^ 31) →
  ∃ s, send_steps l (MkSender e (λ _, ([], false)) []) = Ok s ∧
  ∀ evs, Forall (from_net (s_net s)) evs →
  ∃ rio log, QuicIo.steps (H := rcaps) evs (QuicIo.new, []) = Ok (rio, log) ∧ ∀ sid,
    let got := QuicIo.until_fin sid log in
    got.1 = take (length got.1) (s_acc s sid).1 ∧
    (len (s_acc s sid).1 ≤ QuicIo.STREAM_BUF (Capacities := rcaps) → got.2 = true → got.1 = (s_acc s sid).1).
Proof.
  intros Hrb Hq Hst Hl Hlim. destruct (send_steps_ok l (MkSender e (λ _, ([], false)) [])) as (s & Hs & [_ _ Hnet] & Hsz).
  - split; cbn; [|intros; constructor|done]. rewrite Hq. split; [done|cbn; lia|done|].
    intros sid st sd Hg Hsd. destruct (Hst _ _ _ Hg Hsd). split_and!; [done|lia|done].
  - done.
  - cbn. done.
  - exists s. split; [done|]. intros evs Hevs.
    apply (QuicIo.quic_stream_prefix (H := rcaps) Hrb (λ sid, (s_acc s sid).1)); [done|].
    eapply Forall_impl; [exact Hevs|]. intros [sid offset bytes fin|sid cap] Hev; [|done].
    by destruct (proj1 (Forall_forall _ _) Hnet _ Hev).
Qed.

End send.
(** Two frames, of which the second arrives first and again. *)
Definition demo_ops : list send_op :=
  [Hand 0 [1; 2; 3; 4; 5] false; Depart (replicate 100 0); Hand 0 [6; 7] true; Depart (replicate 100 0)].
Definition demo_events : list QuicIo.event :=
  [QuicIo.Arrives 0 5 [6; 7] true; QuicIo.Arrives 0 0 [1; 2; 3; 4; 5] false; QuicIo.Reads 0 3; QuicIo.Arrives 0 5 [6; 7] true; QuicIo.Reads 0 9].
Definition demo_frames : list Frame.t :=
  [Frame.Stream {| Frame.st_stream_id := 0; Frame.st_offset := 0; Frame.st_data := [1; 2; 3; 4; 5]; Frame.st_fin := false |};
   Frame.Stream {| Frame.st_stream_id := 0; Frame.st_offset := 5; Frame.st_data := [6; 7]; Frame.st_fin := true |}].
Lemma demo_net : match send_steps (H := QuicDemo.demo_quic) (H0 := platform64) demo_ops (MkSender QuicDemo.stream_env (λ _, ([], false)) []) with
  | Ok s => s_net s = demo_frames
  | _ => False end.
Proof. vm_compute. reflexivity. Qed.

Lemma demo_events_from : Forall (from_net demo_frames) demo_events.
Proof.
  unfold demo_events, demo_frames. repeat (apply Forall_cons; split); try apply Forall_nil; cbn [from_net].
  all: first [apply list_elem_of_here | apply list_elem_of_further, list_elem_of_here | lia | idtac].
Qed.
Lemma quic_stream_end_to_end_witness :
  ∃ s rio log, send_steps (H := QuicDemo.demo_quic) (H0 := platform64) demo_ops (MkSender QuicDemo.stream_env (λ _, ([], false)) []) = Ok s ∧
    QuicIo.steps (H := caps (Params := QuicDemo.demo_quic)) (H0 := platform64) demo_events (QuicIo.new, []) = Ok (rio, log) ∧
    (QuicIo.until_fin 0 log).1 = take (length (QuicIo.until_fin 0 log).1) (s_acc s 0).1.
Proof.
  destruct (quic_stream_end_to_end (H := QuicDemo.demo_quic) (H0 := platform64) ltac:(cbn; lia) ltac:(cbn; lia)
    (caps (Params := QuicDemo.demo_quic)) demo_ops QuicDemo.stream_env) as (s & Hs & Hall).
  - cbn. lia.
  - reflexivity.
  - intros sid st sd. unfold Stream.get, Stream.find_stream. cbn. destruct sid as [|p|p]; cbn; [|done..].
    intros [= <-] [= <-]. cbn. lia.
  - repeat constructor; vm_compute; congruence.
  - intros sid. unfold handed, demo_ops. cbn. destruct sid; cbn; lia.
  - pose proof demo_net as Hn. rewrite Hs in Hn. destruct (Hall demo_events) as (rio & log & Hr & Hp).
    + rewrite Hn. apply demo_events_from.
    + exists s, rio, log. split; [exact Hs|]. split; [exact Hr|]. apply (Hp 0).
Defined.

End QuicSend.
