(* ===== verification/H3Connection.v ===== *)
(** * The HTTP/3 connection: [src/h3/connection.rs], [src/h3/client.rs], [src/h3/server.rs]

    Control streams and settings, the translation of QUIC events, the frames of
    request streams, and header and body transmission over [Quic.stream_send].

    The struct owns the QUIC connection and its stream buffers; they are [conn] and
    [io] of the QUIC environment here, next to the handshake pool and the buffer that
    [recv] and [poll_transmit] borrow.  The [alloc] build: the event queue keeps 64
    entries and the table of request streams is a [Vec].  The buffer [scratch] of the
    source is only read where the call has written it, so a call takes its size. *)
From stdpp Require Import strings.
From S2P Require Import Prelude Errors Varint Buf Http H3Frame Qpack StreamMap Crypto QuicIo QuicConn QuicRecv QuicTransmit.

Module H3.

(** ** Data *)

Definition H3_STREAM_TYPE_CONTROL : Z := 0x00.
Definition H3_STREAM_TYPE_QPACK_ENCODER : Z := 0x02.
Definition H3_STREAM_TYPE_QPACK_DECODER : Z := 0x03.

Inductive H3Event : Type :=
| Connected
| Headers (stream_id : Z)
| Data (stream_id : Z)
| GoAway (id : Z)
| Finished (stream_id : Z)
| StreamReset (stream_id error_code : Z)
| ConnectionClose (error_code : Z).
Global Instance h3_event_eq_dec : EqDecision H3Event.
Proof. solve_decision. Defined.

Record RequestStreamState := MkRequest {
  stream_id : Z;
  headers_data : Buf.t;
  headers_received : bool;
  data_buf : Buf.t;
  data_available : bool;
  fin_received : bool
}.
Global Instance eta_request : Eta RequestStreamState := λ r,
  MkRequest (stream_id r) (headers_data r) (headers_received r) (data_buf r) (data_available r) (fin_received r).

Definition new_request (sid : Z) : RequestStreamState := MkRequest sid Buf.new false Buf.new false false.

(** [H3Connection] less the QUIC connection and its buffers.  The QPACK encoder and
    decoder have no state. *)
Record t := Mk {
  local_control_stream : option Z;
  peer_control_stream : option Z;
  local_encoder_stream : option Z;
  local_decoder_stream : option Z;
  peer_encoder_stream : option Z;
  peer_decoder_stream : option Z;
  local_settings : H3Frame.H3Settings;
  peer_settings : option H3Frame.H3Settings;
  settings_sent : bool;
  h3_events : list H3Event;
  request_streams : list RequestStreamState;
  pending_uni_streams : list Z
}.
Global Instance eta_h3 : Eta t := λ c,
  Mk (local_control_stream c) (peer_control_stream c) (local_encoder_stream c) (local_decoder_stream c)
     (peer_encoder_stream c) (peer_decoder_stream c) (local_settings c) (peer_settings c) (settings_sent c)
     (h3_events c) (request_streams c) (pending_uni_streams c).

Record env := MkEnv { h3 : t; quic : Quic.env }.
Global Instance eta_h3_env : Eta env := λ e, MkEnv (h3 e) (quic e).

Definition new (quic : Quic.env) : env :=
  MkEnv (Mk None None None None None None H3Frame.default_settings None false [] [] []) quic.

(** The const parameters. *)
Class Params := { quic_params :: Quic.Params; H3_HDR_BUF : Z; H3_DATA_BUF : Z }.

Definition on_quic {A} : M Error Quic.env A → M Error env A := Quic.sub quic (λ q e, e <| quic := q |>).
Definition update_h3 (f : t → t) : M Error env unit := modify (λ e, e <| h3 := f (h3 e) |>).
Definition h3_of : M Error env t := e ← get; mret (h3 e).

(** [debug_assert!]: checked in the builds that check overflow. *)
Definition debug_assert `{Platform} {E} (b : bool) : res E unit :=
  if overflow_checks && negb b then Panic else Ok tt.

(** An encoder on a local array of [n] zeros: what it wrote. *)
Definition in_array (n : nat) (f : M Error (list Z) Z) : result (list Z) :=
  let '(r, buf) := f (replicate n 0) in n ← r; slice buf 0 n.

(** ** Events *)

Definition push_h3_event (ev : H3Event) (c : t) : t :=
  let l := if 64 <=? len (h3_events c) then tail (h3_events c) else h3_events c in
  c <| h3_events := l ++ [ev] |>.

Definition poll_event : M Error env (option H3Event) :=
  c ← h3_of;
  match h3_events c with
  | [] => mret None
  | ev :: l => _ ← update_h3 (λ c, c <| h3_events := l |>); mret (Some ev)
  end.

(** ** Request streams *)

Definition has_id (sid : Z) (r : RequestStreamState) : bool := stream_id r =? sid.
Definition find_request (sid : Z) (c : t) : option RequestStreamState := List.find (has_id sid) (request_streams c).

(** [iter_mut().find(..)] and an update of what was found. *)
Fixpoint update_first (p : RequestStreamState → bool) (f : RequestStreamState → RequestStreamState)
    (l : list RequestStreamState) : list RequestStreamState :=
  match l with [] => [] | r :: l => if p r then f r :: l else r :: update_first p f l end.
Definition with_request (sid : Z) (f : RequestStreamState → RequestStreamState) (c : t) : t :=
  c <| request_streams := update_first (has_id sid) f (request_streams c) |>.

(** The end of a tracked stream. *)
Definition mark_fin (sid : Z) (c : t) : t :=
  match find_request sid c with
  | Some _ => push_h3_event (Finished sid) (with_request sid (λ r, r <| fin_received := true |>) c)
  | None => c
  end.

Section h3.
Context `{Params} `{Platform}.
Variable grant : Z → bool.

(** ** Setup *)

Definition send_stream_type (sid stream_type : Z) : M Error env unit :=
  bytes ← lift (in_array 8 (encode_varint stream_type));
  _ ← on_quic (Quic.stream_send sid bytes false);
  mret tt.

Definition send_settings (sid : Z) : M Error env unit :=
  c ← h3_of;
  bytes ← lift (in_array 128 (H3Frame.encode_h3_frame (H3Frame.Settings (local_settings c))));
  _ ← on_quic (Quic.stream_send sid bytes false);
  mret tt.

Definition setup_h3_streams : M Error env unit :=
  ctrl_id ← on_quic (Quic.on_conn Quic.open_uni_stream);
  _ ← update_h3 (λ c, c <| local_control_stream := Some ctrl_id |>);
  _ ← send_stream_type ctrl_id H3_STREAM_TYPE_CONTROL;
  _ ← send_settings ctrl_id;
  _ ← update_h3 (λ c, c <| settings_sent := true |>);
  enc_id ← on_quic (Quic.on_conn Quic.open_uni_stream);
  _ ← update_h3 (λ c, c <| local_encoder_stream := Some enc_id |>);
  _ ← send_stream_type enc_id H3_STREAM_TYPE_QPACK_ENCODER;
  dec_id ← on_quic (Quic.on_conn Quic.open_uni_stream);
  _ ← update_h3 (λ c, c <| local_decoder_stream := Some dec_id |>);
  send_stream_type dec_id H3_STREAM_TYPE_QPACK_DECODER.

(** ** Unidirectional streams *)

Definition handle_control_frame (frame : H3Frame.t) (c : t) : t :=
  match frame with
  | H3Frame.Settings settings => push_h3_event Connected (c <| peer_settings := Some settings |>)
  | H3Frame.GoAway id => push_h3_event (GoAway id) c
  | _ => c
  end.

(** The frame loop of both kinds of streams, on what is left of the data: it stops at
    the first frame that does not decode.  Every frame takes two bytes. *)
Fixpoint frames_loop (handle : H3Frame.t → M Error env unit) (fuel : nat) (data : list Z) : M Error env unit :=
  if len data =? 0 then mret tt else
  match fuel with
  | O => lift Panic
  | S fuel =>
      match H3Frame.decode_h3_frame data with
      | Err _ => mret tt
      | Panic => lift Panic
      | Ok (frame, consumed) =>
          _ ← handle frame;
          rest ← lift (slice_from data consumed);
          frames_loop handle fuel rest
      end
  end.

Definition process_control_data (data : list Z) : M Error env unit :=
  frames_loop (λ frame, update_h3 (handle_control_frame frame)) (length data) data.

(** [match stream_recv(..) { Err(WouldBlock) => return Ok(()), .. }]. *)
Definition try_recv (sid cap : Z) : M Error env (option (list Z * bool)) := λ e,
  match on_quic (Quic.stream_recv sid cap) e with
  | (Ok r, e) => (Ok (Some r), e)
  | (Err WouldBlock, e) => (Ok None, e)
  | (Err err, e) => (Err err, e)
  | (Panic, e) => (Panic, e)
  end.

Definition read_control_stream_frames (sid cap : Z) : M Error env unit :=
  r ← try_recv sid cap;
  match r with
  | None => mret tt
  | Some (data, _) => if 0 <? len data then process_control_data data else mret tt
  end.

(** [pending_uni_streams.retain(|&id| id != stream_id)]. *)
Definition settle (sid : Z) (c : t) : t :=
  c <| pending_uni_streams := List.filter (λ id, negb (id =? sid)) (pending_uni_streams c) |>.

Definition is_stream (sid : Z) (o : option Z) : bool := bool_decide (Some sid = o).

Definition handle_uni_stream_data (sid cap : Z) : M Error env unit :=
  c ← h3_of;
  if is_stream sid (peer_control_stream c) || is_stream sid (peer_encoder_stream c) || is_stream sid (peer_decoder_stream c) then
    if is_stream sid (peer_control_stream c) then read_control_stream_frames sid cap else mret tt
  else
  r ← try_recv sid cap;
  match r with
  | None => mret tt
  | Some (data, _) =>
      if len data =? 0 then mret tt else
      ty ← lift (decode_varint data);
      if ty.1 =? H3_STREAM_TYPE_CONTROL then
        _ ← update_h3 (λ c, settle sid (c <| peer_control_stream := Some sid |>));
        remaining ← lift (slice_from data ty.2);
        if len remaining =? 0 then mret tt else process_control_data remaining
      else if ty.1 =? H3_STREAM_TYPE_QPACK_ENCODER then
        update_h3 (λ c, settle sid (c <| peer_encoder_stream := Some sid |>))
      else if ty.1 =? H3_STREAM_TYPE_QPACK_DECODER then
        update_h3 (λ c, settle sid (c <| peer_decoder_stream := Some sid |>))
      else mret tt
  end.

(** ** Request streams *)

(** [let _ = buf.extend_from_slice(data)]. *)
Definition extended (N : Z) (data : list Z) (b : Buf.t) : result Buf.t :=
  match Buf.extend_from_slice N grant data b with Ok b => Ok b | Err _ => Ok b | Panic => Panic end.

Definition handle_request_frame (sid : Z) (frame : H3Frame.t) : M Error env unit :=
  c ← h3_of;
  match frame with
  | H3Frame.Headers hdr_data =>
      _ ← match find_request sid c with
          | Some r =>
              b ← lift (extended H3_HDR_BUF hdr_data (Buf.clear (headers_data r)));
              update_h3 (with_request sid (λ r, r <| headers_data := b |> <| headers_received := true |>))
          | None => mret tt
          end;
      update_h3 (push_h3_event (Headers sid))
  | H3Frame.Data body_data =>
      _ ← match find_request sid c with
          | Some r =>
              b ← lift (extended H3_DATA_BUF body_data (data_buf r));
              update_h3 (with_request sid (λ r, r <| data_buf := b |> <| data_available := true |>))
          | None => mret tt
          end;
      update_h3 (push_h3_event (Data sid))
  | _ => mret tt
  end.

Definition read_request (sid cap : Z) : M Error env unit :=
  r ← try_recv sid cap;
  match r with
  | None => mret tt
  | Some (data, fin) =>
      if (len data =? 0) && fin then update_h3 (mark_fin sid) else
      if len data =? 0 then mret tt else
      _ ← frames_loop (handle_request_frame sid) (length data) data;
      if fin then update_h3 (mark_fin sid) else mret tt
  end.

Definition handle_request_stream_data (sid cap : Z) : M Error env unit :=
  c ← h3_of;
  match find_request sid c with
  | Some _ => read_request sid cap
  | None =>
      if 8 <=? len (request_streams c) then mret tt else
      _ ← update_h3 (λ c, c <| request_streams := request_streams c ++ [new_request sid] |>);
      read_request sid cap
  end.

Definition handle_stream_data (sid cap : Z) : M Error env unit :=
  if Stream.is_unidirectional sid then handle_uni_stream_data sid cap else handle_request_stream_data sid cap.

(** ** QUIC events *)

(** [while let Some(ev) = poll_event() { let _ = quic_events.push(ev) }], into a vector
    of 16; every round takes an event. *)
Fixpoint drain_quic_events (fuel : nat) (acc : list Quic.Event) : M Error Quic.t (list Quic.Event) :=
  ev ← Quic.poll_event;
  match ev with
  | None => mret acc
  | Some ev =>
      match fuel with
      | O => lift Panic
      | S fuel => drain_quic_events fuel (if len acc <? 16 then acc ++ [ev] else acc)
      end
  end.

Definition handle_quic_event (cap : Z) (ev : Quic.Event) : M Error env unit :=
  match ev with
  | Quic.Connected => setup_h3_streams
  | Quic.StreamOpened sid | Quic.StreamReadable sid => handle_stream_data sid cap
  | Quic.StreamFinished sid => update_h3 (mark_fin sid)
  | Quic.StreamReset sid error_code => update_h3 (push_h3_event (StreamReset sid error_code))
  | Quic.ConnectionClose error_code _ => update_h3 (push_h3_event (ConnectionClose error_code))
  | _ => mret tt
  end.

Fixpoint handle_quic_events (cap : Z) (evs : list Quic.Event) : M Error env unit :=
  match evs with
  | [] => mret tt
  | ev :: evs => _ ← handle_quic_event cap ev; handle_quic_events cap evs
  end.

Definition process_quic_events (cap : Z) : M Error env unit :=
  e ← get;
  evs ← on_quic (Quic.on_conn (drain_quic_events (length (Quic.events (Quic.conn (quic e)))) []));
  handle_quic_events cap evs.

(** ** Reading messages *)

(** The fields of a message, in the order they are emitted. *)
Definition recv_headers (sid : Z) : M Error env (list (list Z * list Z)) :=
  c ← h3_of;
  r ← lift (ok_or InvalidState (find_request sid c));
  if negb (headers_received r) then throw WouldBlock else
  section ← lift (Buf.as_slice (headers_data r));
  lift (let '(r, fields) := Qpack.decode_field_section section [] in _ ← r; mret fields).

Definition recv_body (sid cap : Z) : M Error env (list Z * bool) :=
  c ← h3_of;
  r ← lift (ok_or InvalidState (find_request sid c));
  l ← lift (Buf.blen (data_buf r));
  if l =? 0 then
    if fin_received r then mret ([], true) else throw WouldBlock
  else
    let copy_len := Z.min l cap in
    v ← lift (Buf.as_slice (data_buf r));
    out ← lift (slice v 0 copy_len);
    b1 ← lift (Buf.with_mut_slice (λ s, copy_within s copy_len (len s) 0) (data_buf r));
    l1 ← lift (Buf.blen b1);
    l2 ← lift (usub l1 copy_len);
    b2 ← lift (Buf.truncate l2 b1);
    left ← lift (Buf.blen b2);
    _ ← update_h3 (with_request sid (λ r, r <| data_buf := b2 |> <| data_available := negb (left =? 0) |>));
    mret (out, (left =? 0) && fin_received r).

(** ** Writing messages *)

Definition send_headers (sid : Z) (headers : list (list Z * list Z)) (end_stream : bool) : M Error env unit :=
  section ← lift (in_array (Z.to_nat 2048) (Qpack.encode_field_section headers));
  frame ← lift (in_array (Z.to_nat 2048) (H3Frame.encode_h3_frame (H3Frame.Headers section)));
  e ← get;
  capacity ← lift (Quic.stream_send_capacity (Quic.conn (quic e)) (Quic.io (quic e)) sid);
  if capacity <? len frame then throw (BufferTooSmall (len frame)) else
  sent ← on_quic (Quic.stream_send sid frame end_stream);
  lift (debug_assert (sent =? len frame)).

Definition MAX_DATA_HEADER : Z := 5.

Definition send_data (sid : Z) (data : list Z) (end_stream : bool) : M Error env Z :=
  if (len data =? 0) && end_stream then
    _ ← on_quic (Quic.stream_send sid [] true);
    mret 0
  else
  e ← get;
  capacity ← lift (Quic.stream_send_capacity (Quic.conn (quic e)) (Quic.io (quic e)) sid);
  if capacity <=? MAX_DATA_HEADER then mret 0 else
  let chunk := Z.min (len data) (capacity - MAX_DATA_HEADER) in
  header ← lift (in_array (Z.to_nat MAX_DATA_HEADER) (H3Frame.encode_data_frame_header chunk));
  sent ← on_quic (Quic.stream_send sid header false);
  _ ← lift (debug_assert (sent =? len header));
  let fin := end_stream && (chunk =? len data) in
  body ← lift (slice data 0 chunk);
  sent ← on_quic (Quic.stream_send sid body fin);
  _ ← lift (debug_assert (sent =? chunk));
  mret chunk.

End h3.

End H3.
