(* ===== verification/H3Message.v ===== *)
(** * Messages over HTTP/3

    What [send_headers] and [send_data] put on a stream are whole frames, however full
    the send queue is; a peer that reads the stream hands the same fields and the
    same body to its application. *)
From stdpp Require Import strings.
From S2P Require Import Prelude Errors Varint Cursor Buf H3Frame Hpack HpackInteger Qpack Frame StreamMap Dispatch QuicIo QuicConn QuicRecv.
From S2P Require Import QuicTransmit QuicSend QuicDemo H3Connection.

Module H3Message.
Import Quic QuicSend.
Import QuicIo(send_queue, STREAM_BUF, SEND_QUEUE).
#[local] Existing Instance H3.quic_params.

(** ** Local arrays *)

Lemma in_array_ok n f w rest : f (replicate n 0) = (Ok (len w), w ++ rest) → H3.in_array n f = Ok w.
Proof.
  unfold H3.in_array. intros ->. cbn [mbind res_bind]. rewrite slice_eq by len_lia. rewrite drop_0, Z.sub_0_r, Nat2Z.id. by rewrite take_app_length.
Qed.

Definition field_ok (h : list Z * list Z) : Prop := Qpack.header_ok h ∧ bytes_ok h.1 ∧ bytes_ok h.2.

Lemma section_array hs n : Forall field_ok hs → len (Qpack.section_wire hs) ≤ Z.of_nat n →
  H3.in_array n (Qpack.encode_field_section hs) = Ok (Qpack.section_wire hs).
Proof.
  intros Hh Hl. eapply in_array_ok. apply Puts_start; [|by rewrite length_replicate].
  apply Writes_Puts, Qpack.Writes_section. eapply Forall_impl; [done|]. by intros h (? & _).
Qed.

Lemma frame_array `{Platform} f n : H3Frame.frame_ok f → len (H3Frame.frame_wire f) ≤ Z.of_nat n →
  H3.in_array n (H3Frame.encode_h3_frame f) = Ok (H3Frame.frame_wire f).
Proof. intros Hf Hl. eapply in_array_ok. rewrite H3Frame.h3_encode_frame_wire, decide_True by (done || by rewrite length_replicate). done. Qed.

Lemma data_header_array n : 0 ≤ n < 2 ^ 30 →
  H3.in_array 5 (H3Frame.encode_data_frame_header n) = Ok (varint_wire 0 ++ varint_wire n).
Proof.
  intros Hn. assert (varint_ok n) as Hv by (unfold varint_ok; change MAX_VARINT with (2 ^ 62 - 1); lia).
  assert (varint_len n ≤ 4) as Hl by (unfold varint_len; repeat case_match; lia).
  eapply in_array_ok. unfold H3Frame.encode_data_frame_header.
  erewrite with_room_ok; [|apply Puts_bind; apply Puts_varint; [by apply H3Frame.varint_ok_small|done]|].
  - rewrite decide_True; [reflexivity|]. rewrite length_app, Nat2Z.inj_add, !len_varint_wire, length_replicate. change (varint_len H3Frame.H3_FRAME_DATA) with 1. lia.
  - by rewrite length_app, Nat2Z.inj_add, !len_varint_wire.
Qed.

Lemma bytes_ok_section hs : Forall field_ok hs → bytes_ok (Qpack.section_wire hs).
Proof.
  intros Hh. apply Forall_app. split; [repeat constructor; unfold byte_ok; lia|].
  induction Hh as [|h hs (_ & Hn & Hv) _ IH]; [constructor|]. rewrite Qpack.lines_wire_cons. apply Forall_app. split; [|done].
  destruct Qpack.masks as (_ & _ & H6 & H4 & H3). assert (bytes_ok (Hpack.string_wire h.2)) as Hs.
  { unfold Hpack.string_wire. apply Forall_app. split; [|done]. apply Integer.bytes_ok_int_wire; [|lia]. apply Hpack.mask7. }
  unfold Qpack.line_wire. pose proof (Qpack.qpack_lookup_spec h.1 h.2) as Hl. destruct (Qpack.lookup h.1 h.2).
  - apply Integer.bytes_ok_int_wire; [done|lia].
  - apply Forall_app. split; [|done]. apply Integer.bytes_ok_int_wire; [done|lia].
  - apply Forall_app. split; [apply Integer.bytes_ok_int_wire; [done|lia]|]. by apply Forall_app.
Qed.

(** ** Sending frames *)

Section sending.
Context `{HP : H3.Params} `{Platform}.
Hypothesis Hbuf : 0 < STREAM_BUF < 2 ^ 31.
Hypothesis Hqueue : 0 ≤ SEND_QUEUE ∧ (SEND_QUEUE + 1) * STREAM_BUF < 2 ^ 32.

Abbreviation holds acc e := (queued acc (streams (conn (H3.quic e))) (send_queue (io (H3.quic e)))).

(** The limits of the streams are [u64] values. *)
Definition limits_ok (sid : Z) (q : env) : Prop := ∀ s sd,
  Stream.get (streams (conn q)) sid = Some s → Stream.send s = Some sd → Stream.s_max_data sd < 2 ^ 64.
(** The stream takes data. *)
Definition opened (sid : Z) (q : env) : Prop := is_down (conn q) = false ∧ ∃ s sd,
  Stream.get (streams (conn q)) sid = Some s ∧ Stream.send s = Some sd ∧ open_side sd = true.

Lemma is_down_state c c' : state c' = state c → is_down c' = is_down c.
Proof. unfold is_down. by intros ->. Qed.

(** Data within the capacity is taken as a whole, and the capacity goes down by as
    much; a stream that does not take data reports it before anything is queued. *)
Lemma stream_send_exact acc sid bytes fin q cap :
  varint_ok sid → queued acc (streams (conn q)) (send_queue (io q)) → limits_ok sid q →
  stream_send_capacity (conn q) (io q) sid = Ok cap → 0 < len bytes ≤ cap → len (acc sid).1 + len bytes < 2 ^ 31 →
  ∃ r q', stream_send sid bytes fin q = (r, q') ∧
  match r with
  | Ok n => n = len bytes ∧ (acc sid).2 = false ∧ queued (accept acc sid bytes fin) (streams (conn q')) (send_queue (io q')) ∧
      (fin = false → opened sid q' ∧ limits_ok sid q' ∧ stream_send_capacity (conn q') (io q') sid = Ok (cap - len bytes))
  | Err _ => queued acc (streams (conn q')) (send_queue (io q')) ∧ send_queue (io q') = send_queue (io q) ∧ ¬ opened sid q
  | Panic => False
  end.
Proof.
  intros Hsid Hq Hlim Hcap Hlen Hmax.
  assert (is_down (conn q) = false ∧ ∃ s sd, Stream.get (streams (conn q)) sid = Some s ∧ Stream.send s = Some sd) as (Hd & s & sd & Hs & Hsd).
  { unfold stream_send_capacity in Hcap. destruct (is_down (conn q)); [injection Hcap as <-; lia|].
    destruct (Stream.get _ sid) as [s|]; [|injection Hcap as <-; lia]. destruct (Stream.send s) as [sd|] eqn:?; [|injection Hcap as <-; lia]. eauto. }
  rewrite (capacity_ok Hbuf Hqueue acc _ _ sid s sd Hq Hd Hs Hsd) in Hcap. injection Hcap as Hcap.
  destruct (stream_send_ok Hbuf Hqueue acc sid bytes fin q Hsid Hq Hmax) as (r & q' & Hr & Hres). exists r, q'. split; [done|].
  destruct r as [n|err|]; [|destruct Hres as (H1 & H2 & H3); split_and!; [done..|]; intros (_ & s1 & sd1 & Hs1 & Hsd1 & Ho); specialize (H3 _ _ Hs1 Hsd1 Hd Ho); rewrite Hs in Hs1; injection Hs1 as <-; rewrite Hsd in Hsd1; injection Hsd1 as <-; lia|done].
  destruct Hres as (Hn & Hz & Hq' & s1 & sd1 & Hs1 & Hsd1 & Hmin).
  rewrite Hs in Hs1. injection Hs1 as <-. rewrite Hsd in Hsd1. injection Hsd1 as <-. assert (n = len bytes) as -> by lia.
  assert ((acc sid).2 = false) as Hnot by (destruct (acc sid).2; [specialize (Hz eq_refl); lia|done]).
  rewrite Hnot, Z.eqb_refl, andb_true_r, Nat2Z.id, firstn_all in Hq'. cbn [orb] in Hq'. split_and!; [done..|]. intros ->.
  pose proof (Hlim _ _ Hs Hsd) as Hmx.
  destruct (stream_send_rest Hbuf Hqueue acc sid bytes (len bytes) q q' s sd Hq Hs Hsd Hmx Hr ltac:(lia)) as (Hst & Hroom & Hop & s' & sd' & Hs' & Hsd' & Ho' & Hmax' & Hof').
  assert (is_down (conn q') = false) as Hd' by (by rewrite (is_down_state (conn q))).
  split; [split; [done|by exists s', sd']|]. split; [intros ?? Hs2 Hsd2; rewrite Hs' in Hs2; simplify_eq; by rewrite Hmax'|].
  rewrite (capacity_ok Hbuf Hqueue _ _ _ sid s' sd' Hq' Hd' Hs' Hsd'), Hroom, Hmax', Hof'. f_equal.
  destruct (q_streams _ _ _ Hq _ _ _ Hs Hsd) as (Hof & Hm & _). destruct (q_streams _ _ _ Hq' _ _ _ Hs' Hsd') as (Hof2 & Hm' & _).
  unfold sat_sub in *. rewrite Z.max_r in * by lia.
  assert (as_usize (Stream.s_max_data sd - (Stream.s_offset sd + len bytes)) = as_usize (Stream.s_max_data sd - Stream.s_offset sd) - len bytes) as ->; [|lia].
  pose proof (as_usize_range (Stream.s_max_data sd - Stream.s_offset sd)) as Hrange.
  rewrite Z.sub_add_distr. unfold as_usize, trunc in *.
  rewrite <- (Zminus_mod_idemp_l (Stream.s_max_data sd - Stream.s_offset sd)). apply Z.mod_small. lia.
Qed.

Lemma capacity_total acc sid q : queued acc (streams (conn q)) (send_queue (io q)) →
  ∃ cap, stream_send_capacity (conn q) (io q) sid = Ok cap ∧ 0 ≤ cap.
Proof.
  intros Hq. destruct (is_down (conn q)) eqn:Hd; [exists 0; unfold stream_send_capacity; by rewrite Hd|].
  destruct (Stream.get (streams (conn q)) sid) as [s|] eqn:Hs; [|exists 0; unfold stream_send_capacity; by rewrite Hd, Hs].
  destruct (Stream.send s) as [sd|] eqn:Hsd; [|exists 0; unfold stream_send_capacity; by rewrite Hd, Hs, Hsd].
  rewrite (capacity_ok Hbuf Hqueue acc _ _ sid s sd Hq Hd Hs Hsd). eexists. split; [done|].
  pose proof (room_pos Hbuf Hqueue acc _ sid _ Hq). pose proof (as_usize_range (sat_sub (Stream.s_max_data sd) (Stream.s_offset sd))). lia.
Qed.

Lemma on_quic_ok {A} (f : M Error env A) e r q : f (H3.quic e) = (r, q) → H3.on_quic f e = (r, e <| H3.quic := q |>).
Proof. unfold H3.on_quic, sub. by intros ->. Qed.

Lemma debug_assert_true {E} : H3.debug_assert (E:=E) true = Ok tt.
Proof. unfold H3.debug_assert. by rewrite andb_false_r. Qed.

(** A HEADERS frame goes out as a whole or not at all. *)
Lemma send_headers_whole acc sid hs fin e :
  let w := H3Frame.frame_wire (H3Frame.Headers (Qpack.section_wire hs)) in
  varint_ok sid → holds acc e → limits_ok sid (H3.quic e) → Forall field_ok hs → len w ≤ 2048 → len (acc sid).1 + len w < 2 ^ 31 →
  ∃ r e', H3.send_headers sid hs fin e = (r, e') ∧ H3.h3 e' = H3.h3 e ∧
  match r with
  | Ok _ => (acc sid).2 = false ∧ holds (accept acc sid w fin) e' ∧ (fin = false → opened sid (H3.quic e') ∧ limits_ok sid (H3.quic e') ∧
      ∀ cap, stream_send_capacity (conn (H3.quic e)) (io (H3.quic e)) sid = Ok cap →
        stream_send_capacity (conn (H3.quic e')) (io (H3.quic e')) sid = Ok (cap - len w))
  | Err _ => holds acc e' ∧ send_queue (io (H3.quic e')) = send_queue (io (H3.quic e)) ∧
      ¬ (opened sid (H3.quic e) ∧ ∃ cap, stream_send_capacity (conn (H3.quic e)) (io (H3.quic e)) sid = Ok cap ∧ len w ≤ cap)
  | Panic => False
  end.
Proof.
  intros w Hsid Hq Hlim Hhs Hw Hmax. pose proof (H3Frame.len_frame_wire (H3Frame.Headers (Qpack.section_wire hs))) as Lw. fold w in Lw.
  cbn [H3Frame.frame_type H3Frame.payload_wire] in Lw. change (varint_len 1) with 1 in Lw.
  assert (1 ≤ varint_len (len (Qpack.section_wire hs))) as Lv by (unfold varint_len; repeat case_match; lia).
  assert (H3Frame.frame_ok (H3Frame.Headers (Qpack.section_wire hs))) as Hf.
  { split; [by apply bytes_ok_section|]. pose proof pow_usize_ge. unfold uint. cbn [H3Frame.payload_wire]. change MAX_VARINT with (2 ^ 62 - 1). lia. }
  unfold H3.send_headers. rewrite section_array by (done || lia). erewrite M_step_lift by reflexivity.
  rewrite frame_array by (done || lia). fold w. erewrite M_step_lift by reflexivity. erewrite M_step_ok by reflexivity.
  destruct (capacity_total acc sid (H3.quic e) Hq) as (cap & Hcap & _). rewrite Hcap. erewrite M_step_lift by reflexivity.
  destruct (Z.ltb_spec cap (len w)) as [Hlt|Hge].
  { do 2 eexists. split; [reflexivity|]. split; [done|]. split_and!; [done..|]. intros (_ & cap' & [= <-] & ?). lia. }
  destruct (stream_send_exact acc sid w fin (H3.quic e) cap Hsid Hq Hlim Hcap ltac:(lia) Hmax) as (r & q' & Hr & Hres).
  destruct r as [n|err|]; [|do 2 eexists; split; [apply M_step_err, on_quic_ok, Hr|];
    destruct Hres as (? & ? & ?); split; [done|]; cbn; split_and!; [done..|]; by intros [? _]|done].
  destruct Hres as (-> & Hnot & Hq' & Hop). erewrite M_step_ok by (by apply on_quic_ok). rewrite Z.eqb_refl, debug_assert_true.
  do 2 eexists. split; [reflexivity|]. split; [done|]. cbn. split_and!; [done..|]. intros Hf0. destruct (Hop Hf0) as (? & ? & ?).
  split_and!; [done..|]. intros cap' Hc'. by simplify_eq.
Qed.

Lemma data_wire d : H3Frame.frame_wire (H3Frame.Data d) = (varint_wire 0 ++ varint_wire (len d)) ++ d.
Proof. unfold H3Frame.frame_wire. cbn [H3Frame.frame_type H3Frame.payload_wire]. by rewrite app_assoc. Qed.

Lemma accept_twice acc sid a b f1 f2 x : accept (accept acc sid a f1) sid b f2 x = accept acc sid (a ++ b) f2 x.
Proof. unfold accept. case_decide; [|done]. rewrite decide_True by done. cbn. by rewrite app_assoc. Qed.

(** DATA frames are whole, too: the payload that is announced follows. *)
Lemma send_data_whole acc sid data fin e : 
  varint_ok sid → holds acc e → limits_ok sid (H3.quic e) → len data < 2 ^ 30 → len (acc sid).1 + len data + 5 < 2 ^ 31 →
  ∃ r e', H3.send_data sid data fin e = (r, e') ∧ H3.h3 e' = H3.h3 e ∧
  match r with
  | Ok n => 0 ≤ n ≤ len data ∧
      (0 < len data → ∀ cap, stream_send_capacity (conn (H3.quic e)) (io (H3.quic e)) sid = Ok cap → n = Z.min (len data) (Z.max 0 (cap - 5))) ∧
      ∃ w, (w = [] ∧ n = 0 ∨ w = H3Frame.frame_wire (H3Frame.Data (take (Z.to_nat n) data))) ∧
        holds (accept acc sid w ((acc sid).2 || fin && (n =? len data))) e'
  | Err _ => holds acc e' ∧ send_queue (io (H3.quic e')) = send_queue (io (H3.quic e)) ∧ (0 < len data → ¬ opened sid (H3.quic e))
  | Panic => False
  end.
Proof.
  intros Hsid Hq Hlim Hd Hmax. unfold H3.send_data. destruct ((len data =? 0) && fin) eqn:Hend.
  { apply andb_true_iff in Hend as [Hz ->]. apply Z.eqb_eq in Hz.
    destruct (stream_send_ok Hbuf Hqueue acc sid [] true (H3.quic e) Hsid Hq ltac:(cbn; lia)) as (r & q' & Hr & Hres).
    destruct r as [n|err|]; [|do 2 eexists; split; [apply M_step_err, on_quic_ok, Hr|]; destruct Hres as (? & ? & _); cbn; split_and!; [done..|lia]|done].
    erewrite M_step_ok by (by apply on_quic_ok). do 2 eexists. split; [reflexivity|]. split; [done|]. destruct Hres as (Hn & _ & Hq' & _). cbn in Hn.
    assert (n = 0) as -> by lia. split; [lia|]. split; [lia|]. exists []. split; [by left|]. rewrite Hz. exact Hq'. }
  erewrite M_step_ok by reflexivity.
  destruct (capacity_total acc sid (H3.quic e) Hq) as (cap & Hcap & Hcap0). rewrite Hcap. erewrite M_step_lift by reflexivity.
  change H3.MAX_DATA_HEADER with 5. destruct (Z.leb_spec cap 5) as [Hle|Hgt].
  { do 2 eexists. split; [reflexivity|]. split; [done|]. split; [lia|]. split; [intros _ cap' [= <-]; lia|]. exists []. split; [by left|].
    eapply (queued_ext acc); [|exact Hq]. intros x. unfold accept. case_decide as Hx; [|done]. subst x. rewrite app_nil_r.
    assert (fin && (0 =? len data) = false) as -> by (rewrite andb_comm, Z.eqb_sym; done). rewrite orb_false_r. by destruct (acc sid). }
  set (chunk := Z.min (len data) (cap - 5)). rewrite data_header_array by lia. erewrite M_step_lift by reflexivity.
  set (hd := varint_wire 0 ++ varint_wire chunk). assert (len hd = 1 + varint_len chunk ∧ 1 ≤ varint_len chunk ≤ 4) as [Lh Lv].
  { unfold hd. rewrite length_app, Nat2Z.inj_add, !len_varint_wire. split; [done|]. unfold varint_len. repeat case_match; lia. }
  destruct (stream_send_exact acc sid hd false (H3.quic e) cap Hsid Hq Hlim Hcap ltac:(lia) ltac:(lia)) as (r & q1 & Hr & Hres).
  destruct r as [n|err|]; [|do 2 eexists; split; [apply M_step_err, on_quic_ok, Hr|]; destruct Hres as (? & ? & ?); cbn; split_and!; done|done].
  destruct Hres as (-> & Hnot & Hq1 & Hop). destruct (Hop eq_refl) as (Hop1 & Hlim1 & Hcap1). erewrite M_step_ok by (by apply on_quic_ok).
  rewrite Z.eqb_refl, debug_assert_true. erewrite M_step_lift by reflexivity. rewrite slice_eq by lia. erewrite M_step_lift by reflexivity.
  change (Z.to_nat 0) with O. rewrite drop_0, Z.sub_0_r. set (b := take (Z.to_nat chunk) data). assert (len b = chunk) as Lb by (unfold b; len_lia).
  assert (len (accept acc sid hd false sid).1 = len (acc sid).1 + len hd) as La.
  { unfold accept. rewrite decide_True by done. cbn [fst]. by rewrite length_app, Nat2Z.inj_add. }
  assert (∃ q2, stream_send sid b (fin && (chunk =? len data)) q1 = (Ok chunk, q2) ∧
    queued (accept (accept acc sid hd false) sid b (fin && (chunk =? len data))) (streams (conn q2)) (send_queue (io q2))) as (q2 & Hr2 & Hq2).
  { destruct (decide (chunk = 0)) as [Hz|Hz].
    - assert (b = []) as -> by (unfold b; by rewrite Hz).
      assert (fin && (chunk =? len data) = false) as -> by (destruct fin; [|done]; rewrite andb_true_r in Hend; rewrite Hz, Z.eqb_sym; exact Hend).
      destruct (stream_send_ok Hbuf Hqueue _ sid [] false q1 Hsid Hq1 ltac:(change (len []) with 0; lia)) as (r & q2 & Hr2 & Hres).
      destruct r as [n|err|]; [|exfalso|done].
      + destruct Hres as (Hn & _ & Hq2 & _). cbn in Hn. assert (n = 0) as -> by lia. exists q2. rewrite Hz. split; [done|].
        assert ((accept acc sid hd false sid).2 = false) as Hf by (unfold accept; by rewrite decide_True by done). cbv zeta in Hq2. rewrite Hf in Hq2. exact Hq2.
      + destruct Hop1 as (Hd1 & s & sd & Hs & Hsd & Ho). unfold stream_send in Hr2. erewrite M_step_ok in Hr2 by reflexivity.
        rewrite Hd1, Hs in Hr2. erewrite M_step_lift in Hr2 by reflexivity. rewrite Hsd in Hr2. erewrite M_step_lift in Hr2 by reflexivity.
        rewrite Hcap1 in Hr2. erewrite M_step_lift in Hr2 by reflexivity. rewrite Z.min_l in Hr2 by (cbn; lia). done.
    - destruct (stream_send_exact _ sid b (fin && (chunk =? len data)) q1 _ Hsid Hq1 Hlim1 Hcap1 ltac:(lia) ltac:(lia)) as (r & q2 & Hr2 & Hres).
      destruct r as [n|err|]; [|by destruct Hres as (_ & _ & [])|done]. destruct Hres as (-> & _ & Hq2 & _). exists q2. by rewrite Lb in Hr2. }
  erewrite M_step_ok by (by apply on_quic_ok). rewrite Z.eqb_refl, debug_assert_true. erewrite M_step_lift by reflexivity.
  do 2 eexists. split; [reflexivity|]. split; [done|]. split; [lia|]. split; [intros _ cap' [= <-]; lia|].
  eexists. split; [by right|]. rewrite data_wire. fold b. rewrite Lb. fold hd. rewrite Hnot. cbn [orb].
  eapply queued_ext; [|exact Hq2]. intros x. by rewrite accept_twice.
Qed.

End sending.

(** ** Reading frames *)

Section reading.
Context `{HP : H3.Params} `{Platform}.
Variable grant : Z → bool.
Hypothesis Hgrant : ∀ n, grant n = true.

Fixpoint handle_all (handle : H3Frame.t → M Error H3.env unit) (fs : list H3Frame.t) : M Error H3.env unit :=
  match fs with [] => mret tt | f :: fs => _ ← handle f; handle_all handle fs end.

Lemma bytes_ok_frame f : H3Frame.frame_ok f → bytes_ok (H3Frame.frame_wire f).
Proof.
  intros (Hf & Hl & _). unfold H3Frame.frame_wire. apply Forall_app. split; [auto with rust|]. apply Forall_app. split; [auto with rust|].
  by apply H3Frame.bytes_ok_payload.
Qed.

(** The loop takes whole frames one after the other. *)
Lemma frames_loop_wire handle fs : Forall H3Frame.frame_ok fs → ∀ fuel e, (length (concat (H3Frame.frame_wire <$> fs)) ≤ fuel)%nat →
  H3.frames_loop handle fuel (concat (H3Frame.frame_wire <$> fs)) e = handle_all handle fs e.
Proof.
  induction 1 as [|f fs Hf Hfs IH]; intros fuel e Hfuel; [by destruct fuel|]. cbn [fmap list_fmap concat handle_all] in *.
  set (rest := concat (H3Frame.frame_wire <$> fs)) in *. pose proof (H3Frame.len_frame_wire f) as Lf.
  assert (∀ v, 1 ≤ varint_len v) as Hv by (intros v; destruct (varint_len_cases v); lia).
  pose proof (Hv (H3Frame.frame_type f)). pose proof (Hv (len (H3Frame.payload_wire f))).
  destruct fuel as [|fuel]; [rewrite length_app in Hfuel; lia|]. cbn [H3.frames_loop].
  rewrite (proj2 (Z.eqb_neq _ 0)) by len_lia.
  assert (bytes_ok rest) as Hr.
  { unfold rest. clear -Hfs. induction Hfs as [|g fs Hg _ IH]; [constructor|]. cbn. apply Forall_app. split; [by apply bytes_ok_frame|done]. }
  rewrite H3Frame.h3_decode_frame_wire by done.
  unfold mbind, M_bind. destruct (handle f e) as [[[]|err|] e']; [|done..]. unfold lift. rewrite slice_from_app by done.
  apply IH. rewrite length_app in Hfuel. lia.
Qed.

Lemma find_snoc sid l r : List.find (H3.has_id sid) l = None → H3.stream_id r = sid → List.find (H3.has_id sid) (l ++ [r]) = Some r.
Proof.
  intros Hl Hr. induction l as [|x l IH]; cbn in *; [unfold H3.has_id; by rewrite Hr, Z.eqb_refl|]. destruct (H3.has_id sid x); [done|by apply IH].
Qed.
Lemma update_snoc sid f l r : List.find (H3.has_id sid) l = None → H3.stream_id r = sid → H3.update_first (H3.has_id sid) f (l ++ [r]) = l ++ [f r].
Proof.
  intros Hl Hr. induction l as [|x l IH]; cbn in *; [unfold H3.has_id; by rewrite Hr, Z.eqb_refl|]. destruct (H3.has_id sid x); [done|by rewrite IH].
Qed.

Lemma extended_ok N data b : Buf.ok N b → len (Buf.vis b) + len data ≤ N →
  ∃ b', H3.extended grant N data b = Ok b' ∧ Buf.ok N b' ∧ Buf.vis b' = Buf.vis b ++ data.
Proof.
  intros Hb Hl. destruct (Buf.Rep_extend N grant data b _ Hb) as (b' & Hx & Hr); [|cbn; lia|].
  { right. unfold Buf.infallible. destruct (Buf.storage b); done. }
  apply Buf.Rep_ok in Hr as [? ?]. exists b'. unfold H3.extended. rewrite Hx. done.
Qed.

(** A request stream with part of its message. *)
Definition tracked (sid : Z) (c : H3.t) (l : list H3.RequestStreamState) (r : H3.RequestStreamState) (evs : list H3.H3Event) : H3.t :=
  c <| H3.request_streams := l ++ [r] |> <| H3.h3_events := evs |>.

Lemma push_room ev c : len (H3.h3_events c) < 64 → H3.push_h3_event ev c = c <| H3.h3_events := H3.h3_events c ++ [ev] |>.
Proof. intros Hl. unfold H3.push_h3_event. by rewrite (proj2 (Z.leb_gt _ _)) by lia. Qed.

Lemma find_tracked sid c l r evs : List.find (H3.has_id sid) l = None → H3.stream_id r = sid → H3.find_request sid (tracked sid c l r evs) = Some r.
Proof. intros. by apply find_snoc. Qed.
Lemma with_tracked sid c l r evs f : List.find (H3.has_id sid) l = None → H3.stream_id r = sid →
  H3.with_request sid f (tracked sid c l r evs) = tracked sid c l (f r) evs.
Proof. intros. unfold H3.with_request. cbn. by rewrite update_snoc. Qed.
Lemma push_tracked sid c l r evs ev : len evs < 64 → H3.push_h3_event ev (tracked sid c l r evs) = tracked sid c l r (evs ++ [ev]).
Proof. intros Hl. by rewrite push_room by (cbn; lia). Qed.

Lemma headers_tracked sid c l r evs q sect b : List.find (H3.has_id sid) l = None → H3.stream_id r = sid →
  H3.extended grant H3.H3_HDR_BUF sect (Buf.clear (H3.headers_data r)) = Ok b → len evs < 64 →
  H3.handle_request_frame grant sid (H3Frame.Headers sect) (H3.MkEnv (tracked sid c l r evs) q) =
  (Ok tt, H3.MkEnv (tracked sid c l (r <| H3.headers_data := b |> <| H3.headers_received := true |>) (evs ++ [H3.Headers sid])) q).
Proof.
  intros Hl Hr Hx He. unfold H3.handle_request_frame. erewrite M_step_ok by reflexivity. cbn [H3.h3]. rewrite find_tracked by done.
  rewrite Hx. erewrite M_step_ok by (erewrite M_step_lift by reflexivity; unfold H3.update_h3, modify; reflexivity).
  unfold H3.update_h3, modify. cbn. rewrite with_tracked by done. by rewrite push_tracked.
Qed.

Lemma body_tracked sid c l r evs q body b : List.find (H3.has_id sid) l = None → H3.stream_id r = sid →
  H3.extended grant H3.H3_DATA_BUF body (H3.data_buf r) = Ok b → len evs < 64 →
  H3.handle_request_frame grant sid (H3Frame.Data body) (H3.MkEnv (tracked sid c l r evs) q) =
  (Ok tt, H3.MkEnv (tracked sid c l (r <| H3.data_buf := b |> <| H3.data_available := true |>) (evs ++ [H3.Data sid])) q).
Proof.
  intros Hl Hr Hx He. unfold H3.handle_request_frame. erewrite M_step_ok by reflexivity. cbn [H3.h3]. rewrite find_tracked by done.
  rewrite Hx. erewrite M_step_ok by (erewrite M_step_lift by reflexivity; unfold H3.update_h3, modify; reflexivity).
  unfold H3.update_h3, modify. cbn. rewrite with_tracked by done. by rewrite push_tracked.
Qed.

Hypothesis Hsizes : 0 ≤ H3.H3_HDR_BUF ∧ 0 ≤ H3.H3_DATA_BUF.

(** A message that arrives in one read is stored field section and body, and
    announced. *)
Lemma read_message sid cap c q q' sect body :
  let wire := concat (H3Frame.frame_wire <$> [H3Frame.Headers sect; H3Frame.Data body]) in
  H3Frame.frame_ok (H3Frame.Headers sect) → H3Frame.frame_ok (H3Frame.Data body) →
  H3.find_request sid c = None → len (H3.request_streams c) < 8 → len (H3.h3_events c) ≤ 61 →
  len sect ≤ H3.H3_HDR_BUF → len body ≤ H3.H3_DATA_BUF →
  stream_recv sid cap q = (Ok (wire, true), q') →
  ∃ r, H3.handle_request_stream_data grant sid cap (H3.MkEnv c q) =
    (Ok tt, H3.MkEnv (tracked sid c (H3.request_streams c) r (H3.h3_events c ++ [H3.Headers sid; H3.Data sid; H3.Finished sid])) q') ∧
    H3.stream_id r = sid ∧ H3.headers_received r = true ∧ H3.fin_received r = true ∧
    Buf.ok H3.H3_HDR_BUF (H3.headers_data r) ∧ Buf.vis (H3.headers_data r) = sect ∧
    Buf.ok H3.H3_DATA_BUF (H3.data_buf r) ∧ Buf.vis (H3.data_buf r) = body.
Proof.
  intros wire Hf1 Hf2 Hfind Hreq Hev Hs Hb Hrecv. unfold H3.handle_request_stream_data. erewrite M_step_ok by reflexivity. cbn [H3.h3].
  rewrite Hfind. rewrite (proj2 (Z.leb_gt _ _)) by lia. erewrite M_step_ok by reflexivity. cbn beta.
  set (l := H3.request_streams c) in *. set (evs := H3.h3_events c) in *. set (r0 := H3.new_request sid).
  set (e1 := update _ _ _). assert (e1 = H3.MkEnv (tracked sid c l r0 evs) q) as -> by (by destruct c).
  unfold H3.read_request, H3.try_recv, H3.on_quic, sub. unfold mbind at 1, M_bind at 1. cbn [H3.quic]. rewrite Hrecv.
  assert (0 < len wire) as Lw.
  { unfold wire. cbn [fmap list_fmap concat]. pose proof (H3Frame.len_frame_wire (H3Frame.Headers sect)).
    destruct (varint_len_cases (H3Frame.frame_type (H3Frame.Headers sect))); destruct (varint_len_cases (len (H3Frame.payload_wire (H3Frame.Headers sect)))); rewrite length_app; lia. }
  rewrite (proj2 (Z.eqb_neq _ 0)) by lia. cbn [andb].
  assert (Forall H3Frame.frame_ok [H3Frame.Headers sect; H3Frame.Data body]) as Hfs by (repeat constructor; apply Hf1 || apply Hf2).
  destruct Hsizes as [Hh Hd]. destruct (Buf.ok_new H3.H3_HDR_BUF Hh) as [Hnew Hvis]. destruct (Buf.ok_new H3.H3_DATA_BUF Hd) as [Hnew2 Hvis2].
  destruct (Buf.ok_clear H3.H3_HDR_BUF Buf.new Hh Hnew) as [Hcl Hvcl].
  destruct (extended_ok H3.H3_HDR_BUF sect (Buf.clear Buf.new) Hcl) as (b1 & Hx1 & Hok1 & Hv1); [rewrite Hvcl; cbn; lia|].
  destruct (extended_ok H3.H3_DATA_BUF body Buf.new Hnew2) as (b2 & Hx2 & Hok2 & Hv2); [rewrite Hvis2; cbn; lia|].
  set (r1 := r0 <| H3.headers_data := b1 |> <| H3.headers_received := true |>).
  set (r2 := r1 <| H3.data_buf := b2 |> <| H3.data_available := true |>). set (r3 := r2 <| H3.fin_received := true |>).
  assert (H3.frames_loop (H3.handle_request_frame grant sid) (length wire) wire (H3.MkEnv (tracked sid c l r0 evs) q') =
    (Ok tt, H3.MkEnv (tracked sid c l r2 ((evs ++ [H3.Headers sid]) ++ [H3.Data sid])) q')) as Hloop.
  { unfold wire. rewrite frames_loop_wire by (done || lia). cbn [handle_all].
    erewrite M_step_ok by (apply (headers_tracked sid c l r0 evs q' sect b1); [done..|lia]).
    erewrite M_step_ok by (apply (body_tracked sid c l r1 _ q' body b2); [done..|len_lia]). done. }
  erewrite M_step_ok by exact Hloop. unfold H3.update_h3, modify. exists r3. split.
  - cbn. unfold H3.mark_fin. rewrite find_tracked by done. rewrite with_tracked by done. rewrite push_tracked by len_lia.
    rewrite <- !app_assoc. done.
  - cbn. rewrite Hv1, Hv2, Hvcl, Hvis2. done.
Qed.

Lemma recv_headers_ok sid c l r evs q hs : List.find (H3.has_id sid) l = None → H3.stream_id r = sid → H3.headers_received r = true →
  Buf.ok H3.H3_HDR_BUF (H3.headers_data r) → Buf.vis (H3.headers_data r) = Qpack.section_wire hs → Forall field_ok hs →
  len (Qpack.section_wire hs) < 2 ^ 31 →
  let e := H3.MkEnv (tracked sid c l r evs) q in H3.recv_headers sid e = (Ok hs, e).
Proof.
  intros Hl Hsid Hrec Hok Hvis Hhs Hlen. cbv zeta. unfold H3.recv_headers. erewrite M_step_ok by reflexivity. cbn [H3.h3]. rewrite find_tracked by done.
  erewrite M_step_lift by reflexivity. rewrite Hrec. cbn [negb]. rewrite (Buf.ok_as_slice _ _ Hok), Hvis. erewrite M_step_lift by reflexivity.
  rewrite Qpack.decode_section_wire; [done|pose proof pow_usize_ge; lia|]. eapply Forall_impl; [done|]. by intros h (? & _).
Qed.

Lemma recv_body_ok sid c l r evs q cap : List.find (H3.has_id sid) l = None → H3.stream_id r = sid → H3.fin_received r = true →
  Buf.ok H3.H3_DATA_BUF (H3.data_buf r) → 0 < len (Buf.vis (H3.data_buf r)) ≤ cap →
  (H3.recv_body sid cap (H3.MkEnv (tracked sid c l r evs) q)).1 = Ok (Buf.vis (H3.data_buf r), true).
Proof.
  intros Hl Hsid Hfin Hok Hlen. unfold H3.recv_body. erewrite M_step_ok by reflexivity. cbn [H3.h3]. rewrite find_tracked by done.
  erewrite M_step_lift by reflexivity. rewrite (Buf.ok_blen _ _ Hok). erewrite M_step_lift by reflexivity.
  rewrite (proj2 (Z.eqb_neq _ 0)) by lia. rewrite (Buf.ok_as_slice _ _ Hok). erewrite M_step_lift by reflexivity.
  rewrite Z.min_l by lia. rewrite slice_eq by lia. erewrite M_step_lift by reflexivity.
  destruct (Buf.ok_drain _ (E:=Error) (len (Buf.vis (H3.data_buf r))) _ Hok ltac:(lia)) as (b1 & b2 & H1 & H2 & H3 & H4 & H5).
  rewrite H1. erewrite M_step_lift by reflexivity. rewrite H2. erewrite M_step_lift by reflexivity. rewrite usub_ok by lia.
  erewrite M_step_lift by reflexivity. rewrite H3. erewrite M_step_lift by reflexivity. rewrite (Buf.ok_blen _ _ H4), H5.
  erewrite M_step_lift by reflexivity. erewrite M_step_ok by reflexivity.
  rewrite drop_0, Z.sub_0_r, Nat2Z.id, firstn_all, drop_all, Hfin. done.
Qed.

End reading.

(** ** From application to application *)

Lemma steps_app `{QuicIo.Capacities} `{Platform} evs evs' st st1 : QuicIo.steps evs st = Ok st1 → QuicIo.steps (evs ++ evs') st = QuicIo.steps evs' st1.
Proof.
  revert st. induction evs as [|ev evs IH]; intros st; cbn [app QuicIo.steps]; [by intros [= ->]|].
  destruct (QuicIo.step ev st) as [st2| |]; cbn [mbind res_bind]; [apply IH|done..].
Qed.

(** Any of the frames, in any order, lost or repeated. *)
Definition arrival (net : list Frame.t) (ev : QuicIo.event) : Prop :=
  match ev with QuicIo.Arrives _ _ _ _ => from_net net ev | QuicIo.Reads _ _ => False end.

(** The first read of a stream that reaches its end returns all of it. *)
Lemma first_read `{Pq : Quic.Params} (rcaps : QuicIo.Capacities) `{Platform} acc m queue evs q sid cap d q' :
  0 ≤ QuicIo.STREAM_BUF (Capacities := rcaps) < 2 ^ 31 → queued acc m queue → (∀ x, len (acc x).1 < 2 ^ 31) →
  len (acc sid).1 ≤ QuicIo.STREAM_BUF (Capacities := rcaps) → 0 ≤ cap →
  Forall (arrival (frame_of <$> queue)) evs → QuicIo.steps evs (QuicIo.new, []) = Ok (q, []) →
  QuicIo.stream_recv sid cap q = (Ok (d, true), q') → d = (acc sid).1.
Proof.
  intros Hrb Hq Hlen Hfit Hcap Hevs Hsteps Hrecv.
  destruct (QuicIo.quic_stream_prefix (H := rcaps) Hrb (λ x, (acc x).1) Hlen (evs ++ [QuicIo.Reads sid cap])) as (q1 & log & Hs & Hp).
  - apply Forall_app. split; [|by repeat constructor]. eapply Forall_impl; [exact Hevs|]. intros [x offset bytes fin|x n]; [|done].
    cbn. rewrite list_elem_of_fmap. intros (en & [= -> -> -> ->] & Hen).
    destruct (proj1 (Forall_forall _ _) (q_entries _ _ _ Hq) _ Hen) as (_ & _ & Hc & _). exact Hc.
  - rewrite (steps_app _ _ _ _ Hsteps) in Hs. cbn [QuicIo.steps QuicIo.step] in Hs. rewrite Hrecv in Hs. cbn in Hs. injection Hs as <- <-.
    destruct (Hp sid) as [_ Hall]. cbn in Hall. rewrite Z.eqb_refl in Hall. by apply Hall.
Qed.

(** C7: A message over HTTP/3, end to end.  On a fresh stream whose send queue and
    credit have room for it a client sends header fields, in a frame of at most 2048
    bytes, and a non-empty body; both calls accept everything.  The message fits the
    receiver's stream, header and body buffers, and the receiver's allocations are
    granted.  The STREAM frames that carry it may arrive in any order, repeatedly or
    not at all: if the peer's first read of the stream reaches its end, its HTTP/3
    layer announces the fields, the body and the end, [recv_headers] emits exactly the
    fields that were sent, in their order, and [recv_body] returns exactly the body.
    (A message that arrives in two reads is misread, and one that does not fit the
    buffers is cut; neither is claimed here.) *)
Theorem h3_message_delivered (P R : H3.Params) `{Platform} grant sid hs body e capacity :
  let w1 := H3Frame.frame_wire (H3Frame.Headers (Qpack.section_wire hs)) in
  let w2 := H3Frame.frame_wire (H3Frame.Data body) in
  let sender := caps (Params := H3.quic_params (Params := P)) in
  let receiver := caps (Params := H3.quic_params (Params := R)) in
  0 < STREAM_BUF (Capacities := sender) < 2 ^ 31 →
  0 ≤ SEND_QUEUE (Capacities := sender) ∧ (SEND_QUEUE (Capacities := sender) + 1) * STREAM_BUF (Capacities := sender) < 2 ^ 32 →
  len (w1 ++ w2) ≤ STREAM_BUF (Capacities := receiver) < 2 ^ 31 →
  len (Qpack.section_wire hs) ≤ H3.H3_HDR_BUF (Params := R) → len body ≤ H3.H3_DATA_BUF (Params := R) → (∀ n, grant n = true) →
  varint_ok sid → Stream.is_unidirectional sid = false → Forall field_ok hs → bytes_ok body → 0 < len body < 2 ^ 30 → len w1 ≤ 2048 →
  send_queue (io (H3.quic e)) = [] →
  (∀ x s sd, Stream.get (streams (conn (H3.quic e))) x = Some s → Stream.send s = Some sd → Stream.s_offset sd = 0 ∧ 0 ≤ Stream.s_max_data sd < 2 ^ 64) →
  opened sid (H3.quic e) → stream_send_capacity (H := H3.quic_params (Params := P)) (conn (H3.quic e)) (io (H3.quic e)) sid = Ok capacity → len w1 + 5 + len body ≤ capacity →
  ∃ e1 e2, H3.send_headers (H := P) sid hs false e = (Ok tt, e1) ∧ H3.send_data (H := P) sid body true e1 = (Ok (len body), e2) ∧
  ∀ evs c q cap d io', Forall (arrival (frame_of <$> send_queue (io (H3.quic e2)))) evs →
    QuicIo.steps (H := receiver) evs (QuicIo.new, []) = Ok (io q, []) → 0 ≤ cap →
    QuicIo.stream_recv sid cap (io q) = (Ok (d, true), io') → state (conn q) ≠ Closed →
    H3.find_request sid c = None → len (H3.request_streams c) < 8 → len (H3.h3_events c) ≤ 61 →
    ∃ r, H3.handle_stream_data (H := R) grant sid cap (H3.MkEnv c q) = (Ok tt, r) ∧
      H3.h3_events (H3.h3 r) = H3.h3_events c ++ [H3.Headers sid; H3.Data sid; H3.Finished sid] ∧
      H3.recv_headers sid r = (Ok hs, r) ∧ (H3.recv_body sid (len body) r).1 = Ok (body, true).
Proof.
  intros w1 w2 sender receiver Hbuf Hqueue Hfit Hhdr Hdat Hg Hsid Huni Hhs Hbody Hblen Hw1 Hempty Hfresh Hopen Hcap Hroom. subst sender receiver.
  set (acc0 := λ _ : Z, ([] : list Z, false)).
  assert (queued (H := H3.quic_params (Params := P)) acc0 (streams (conn (H3.quic e))) (send_queue (io (H3.quic e)))) as Hq0.
  { rewrite Hempty. split; [done|cbn; lia|done|]. intros x s sd Hs Hsd. destruct (Hfresh _ _ _ Hs Hsd). split_and!; [done|lia|done]. }
  assert (limits_ok sid (H3.quic e)) as Hlim0 by (intros s sd Hs Hsd; destruct (Hfresh _ _ _ Hs Hsd); lia).
  destruct (send_headers_whole (HP := P) Hbuf Hqueue acc0 sid hs false e Hsid Hq0 Hlim0 Hhs Hw1 ltac:(change (0 + len w1 < 2 ^ 31); lia)) as (r1 & e1 & Hr1 & _ & Hres1).
  fold w1 in Hres1. destruct r1 as [[]|err|]; [|destruct Hres1 as (_ & _ & []); split; [done|]; exists capacity; split; [done|lia]|done].
  destruct Hres1 as (_ & Hq1 & Hop1). destruct (Hop1 eq_refl) as (Hopen1 & Hlim1 & Hcap1). specialize (Hcap1 _ Hcap).
  destruct (send_data_whole (HP := P) Hbuf Hqueue (accept acc0 sid w1 false) sid body true e1 Hsid Hq1 Hlim1 ltac:(lia)) as (r2 & e2 & Hr2 & _ & Hres2).
  { unfold accept. rewrite decide_True by done. cbn [fst]. change (len w1 + len body + 5 < 2 ^ 31). lia. }
  destruct r2 as [n|err|]; [|by destruct Hres2 as (_ & _ & []); [lia|]|done].
  destruct Hres2 as (_ & Hn & w & Hw & Hq2). assert (n = len body) as -> by (rewrite (Hn ltac:(lia) _ Hcap1); lia).
  destruct Hw as [[-> ?]|Hw]; [lia|]. rewrite Nat2Z.id, firstn_all in Hw. fold w2 in Hw. subst w. rewrite Z.eqb_refl in Hq2.
  exists e1, e2. split; [done|]. split; [done|]. intros evs c q cap d io' Hevs Hsteps Hcap0 Hrecv Hst Hfind Hreq Hev.
  set (acc2 := accept _ _ _ _) in Hq2. assert (acc2 sid = (w1 ++ w2, true)) as Hacc.
  { unfold acc2, accept. rewrite !decide_True by done. cbn. done. }
  assert (d = (acc2 sid).1) as ->.
  { eapply (first_read (Pq := H3.quic_params (Params := P)) (caps (Params := H3.quic_params (Params := R))) acc2); [lia|exact Hq2| |rewrite Hacc; cbn [fst]; lia|done|exact Hevs|exact Hsteps|exact Hrecv].
    intros x. destruct (decide (x = sid)) as [->|Hne]; [rewrite Hacc; cbn [fst]; lia|]. unfold acc2, accept. by rewrite !decide_False by done. }
  rewrite Hacc in Hrecv. cbn [fst] in Hrecv.
  assert (stream_recv sid cap q = (Ok (w1 ++ w2, true), q <| io := io' |>)) as Hqr.
  { unfold stream_recv. erewrite M_step_ok by reflexivity. rewrite bool_decide_eq_false_2 by done. unfold on_io, sub. by rewrite Hrecv. }
  pose proof pow_usize_ge as Hpow.
  assert (len (Qpack.section_wire hs) ≤ len w1) as Lsect.
  { pose proof (H3Frame.len_frame_wire (H3Frame.Headers (Qpack.section_wire hs))) as L1. fold w1 in L1. cbn [H3Frame.payload_wire] in L1.
    assert (∀ v, 1 ≤ varint_len v) as Hv by (intros v; destruct (varint_len_cases v); lia).
    pose proof (Hv (H3Frame.frame_type (H3Frame.Headers (Qpack.section_wire hs)))). pose proof (Hv (len (Qpack.section_wire hs))).
    lia. }
  assert (H3Frame.frame_ok (H3Frame.Headers (Qpack.section_wire hs)) ∧ H3Frame.frame_ok (H3Frame.Data body)) as [Hf1 Hf2].
  { split; split; [by apply bytes_ok_section| |done|]; unfold uint; cbn [H3Frame.payload_wire]; change MAX_VARINT with (2 ^ 62 - 1); lia. }
  destruct (read_message (HP := R) grant Hg ltac:(lia) sid cap c q (q <| io := io' |>) (Qpack.section_wire hs) body Hf1 Hf2 Hfind Hreq Hev Hhdr Hdat)
    as (r & Hread & Hid & Hhr & Hfin & Hok1 & Hv1 & Hok2 & Hv2).
  { cbn [fmap list_fmap concat]. fold w1 w2. by rewrite app_nil_r. }
  eexists. split; [unfold H3.handle_stream_data; rewrite Huni; exact Hread|]. split; [done|]. split.
  - eapply recv_headers_ok; [done..|]. lia.
  - rewrite <- Hv2 at 2. eapply recv_body_ok; [done..|]. rewrite Hv2. lia.
Qed.

(** A request with a short body, in one STREAM frame that arrives twice. *)
Definition demo_h3 : H3.Params := {| H3.quic_params := QuicDemo.demo_quic; H3.H3_HDR_BUF := 32; H3.H3_DATA_BUF := 32 |}.
Definition demo_fields : list (list Z * list Z) := [(bytes ":method", bytes "POST"); (bytes "x-a", bytes "b")].
Definition demo_body : list Z := bytes "hello".
Definition demo_sender : H3.env := H3.new QuicDemo.stream_env.
Definition demo_stream : list Z := Eval vm_compute in
  H3Frame.frame_wire (H3Frame.Headers (Qpack.section_wire demo_fields)) ++ H3Frame.frame_wire (H3Frame.Data demo_body).
Definition demo_arrivals : list QuicIo.event := [QuicIo.Arrives 0 0 demo_stream true; QuicIo.Arrives 0 0 demo_stream true].
Definition demo_io : QuicIo.t := ltac:(
  let r := eval vm_compute in (QuicIo.steps (H := caps (Params := QuicDemo.demo_quic)) (H0 := platform64) demo_arrivals (QuicIo.new, [])) in
  match r with Ok (?q, _) => exact q end).
Definition demo_receiver : env := QuicDemo.server_env <| io := demo_io |>.

Lemma demo_queue : match H3.send_headers (H := demo_h3) (H0 := platform64) 0 demo_fields false demo_sender with
  | (Ok _, e1) =>
      match H3.send_data (H := demo_h3) (H0 := platform64) 0 demo_body true e1 with
      | (Ok _, e2) => frame_of <$> send_queue (io (H3.quic e2)) =
          [Frame.Stream {| Frame.st_stream_id := 0; Frame.st_offset := 0; Frame.st_data := demo_stream; Frame.st_fin := true |}]
      | _ => False
      end
  | _ => False
  end.
Proof. vm_compute. reflexivity. Qed.
Lemma demo_steps : QuicIo.steps (H := caps (Params := QuicDemo.demo_quic)) (H0 := platform64) demo_arrivals (QuicIo.new, []) = Ok (demo_io, []).
Proof. vm_compute. reflexivity. Qed.
Lemma demo_read : (QuicIo.stream_recv 0 100 demo_io).1 = Ok (demo_stream, true).
Proof. vm_compute. reflexivity. Qed.
Lemma demo_field_ok : Forall field_ok demo_fields.
Proof.
  unfold demo_fields, field_ok, Qpack.header_ok, Hpack.string_ok. repeat constructor; cbn; try lia.
Qed.

Lemma h3_message_delivered_witness : ∃ e1 e2 r,
  H3.send_headers (H := demo_h3) (H0 := platform64) 0 demo_fields false demo_sender = (Ok tt, e1) ∧
  H3.send_data (H := demo_h3) (H0 := platform64) 0 demo_body true e1 = (Ok 5, e2) ∧
  H3.handle_stream_data (H := demo_h3) (H0 := platform64) QuicDemo.allocator 0 100 (H3.MkEnv (H3.h3 demo_sender) demo_receiver) = (Ok tt, r) ∧
  H3.recv_headers (H0 := platform64) 0 r = (Ok demo_fields, r) ∧ (H3.recv_body 0 5 r).1 = Ok (demo_body, true).
Proof.
  destruct (h3_message_delivered demo_h3 demo_h3 (H := platform64) QuicDemo.allocator 0 demo_fields demo_body demo_sender 256) as (e1 & e2 & H1 & H2 & Hall).
  - cbn. lia.
  - cbn. lia.
  - vm_compute. split; congruence.
  - vm_compute. congruence.
  - vm_compute. congruence.
  - done.
  - vm_compute. split; congruence.
  - reflexivity.
  - exact demo_field_ok.
  - repeat constructor; cbn; lia.
  - cbn. lia.
  - vm_compute. congruence.
  - reflexivity.
  - intros x s sd. unfold Stream.get, Stream.find_stream. cbn. destruct x as [|p|p]; cbn; [|done..]. intros [= <-] [= <-]. cbn. lia.
  - split; [reflexivity|]. do 2 eexists. split; [vm_compute; reflexivity|]. split; reflexivity.
  - reflexivity.
  - vm_compute. congruence.
  - pose proof demo_queue as Hq. rewrite H1, H2 in Hq. pose proof demo_read as Hr.
    destruct (QuicIo.stream_recv 0 100 demo_io) as [out io'] eqn:Hio. cbn [fst] in Hr. subst out.
    destruct (Hall demo_arrivals (H3.h3 demo_sender) demo_receiver 100 demo_stream io') as (r & Hd & _ & Hh & Hb).
    + rewrite Hq. unfold demo_arrivals. repeat constructor.
    + exact demo_steps.
    + lia.
    + exact Hio.
    + vm_compute. congruence.
    + reflexivity.
    + cbn. lia.
    + cbn. lia.
    + exists e1, e2, r. split; [exact H1|]. split; [exact H2|]. split; [exact Hd|]. split; [exact Hh|exact Hb].
Defined.

End H3Message.
