(* ===== verification/HttpApi.v ===== *)
(** * Clients, servers and protocol stacks

    [src/http/server_conn.rs], the wrappers [client.rs] and [server.rs] of
    [src/h2], [src/http1] and [src/h3], and the stacks over TLS [src/h2_tls.rs] and
    [src/https1.rs].

    The wrappers of HTTP/1.1 and HTTP/2 own a connection and its buffers, which one
    record of the model holds already, so their state is the connection's.  In a stack
    the TLS connection and the HTTP connection share two buffers: TLS decrypts into
    the receive buffer HTTP parses, and encrypts from the buffer HTTP writes. *)
From stdpp Require Import strings.
From S2P Require Import Prelude Errors Buf Http Crypto TlsHandshake TcpTls H2Stream H2Connection Http1Connection QuicConn QuicRecv QuicTransmit H3Connection.

(** ** The trait of the connections *)
Module HttpServer.

Inductive HttpEvent : Type :=
| Connected
| Headers (stream_id : Z)
| Data (stream_id : Z)
| Finished (stream_id : Z)
| StreamReset (stream_id error_code : Z)
| GoAway (error_code : Z)
| Timeout.

Abbreviation fields := (list (list Z * list Z)).

(** The static slices behind the three buffers of a TLS connection. *)
Record TlsBufKit := MkKit { net_recv : list Z; net_send : list Z; app_send : list Z }.

(** [HttpServerConn]. *)
Class HttpServerConn (S : Type) := {
  poll_event : Z → M Error S (option HttpEvent);
  recv_headers : Z → M Error S fields;
  recv_body : Z → Z → M Error S (list Z * bool);
  send_response : Z → Z → fields → bool → M Error S unit;
  send_body : Z → list Z → bool → M Error S Z;
  send_capacity : Z → S → option Z;
  is_established : S → bool;
  is_closed : S → bool;
  discard_body : Z → Z → M Error S unit;
  set_timeouts : TimeoutConfig → Z → S → S;
  next_timeout : S → result (option Z);
  handle_timeout : Z → M Error S unit;
  tcp_feed_data : list Z → Z → M Error S unit;
  tcp_poll_output : Z → M Error S (option (list Z));
  recv_blocked : S → result bool;
  reclaim_buffers : M Error S (option TlsBufKit)
}.

(** The methods with a default. *)
Definition default_send_capacity `{Platform} {S} (sid : Z) (s : S) : option Z := Some (2 ^ usize_bits - 1).
Definition default_discard_body {S} (sid error_code : Z) : M Error S unit := throw InvalidState.
Definition default_set_timeouts {S} (config : TimeoutConfig) (now : Z) (s : S) : S := s.
Definition default_recv_blocked {S} (s : S) : result bool := Ok false.
Definition default_reclaim_buffers {S} : M Error S (option TlsBufKit) := mret None.

(** Pseudo-headers in front of the caller's fields, in a vector of 20. *)
Definition with_pseudo (pseudo headers : fields) : result fields :=
  if 20 <? len pseudo + len headers then Err TooManyHeaders else Ok (pseudo ++ headers).

Definition option_map_event {S A B} (f : A → B) (m : M Error S (option A)) : M Error S (option B) :=
  ev ← m; mret (f <$> ev).

End HttpServer.
Import HttpServer.

(** ** HTTP/2 *)
Section h2.
Context `{Platform}.
Variable grant : Z → bool.
Variables MAX_STREAMS HDRBUF DATABUF BUF : Z.

Definition h2_client_new : H2.t := H2.new MAX_STREAMS DATABUF H2.Client.
Definition h2_server_new : H2.t := H2.new MAX_STREAMS DATABUF H2.Server.

Definition h2_send_request (method path authority : list Z) (extra_headers : fields) (end_stream : bool) : M Error H2.t Z :=
  headers ← lift (with_pseudo [(bytes ":method", method); (bytes ":path", path); (bytes ":scheme", bytes "https");
                               (bytes ":authority", authority)] extra_headers);
  H2.open_stream grant MAX_STREAMS BUF headers end_stream.

Definition h2_send_response (sid status : Z) (headers : fields) (end_stream : bool) : M Error H2.t unit :=
  if 20 <? 1 + len headers then throw TooManyHeaders else
  status_str ← lift (StatusCode.to_bytes status);
  all_headers ← lift (with_pseudo [(bytes ":status", status_str)] headers);
  H2.send_headers grant MAX_STREAMS BUF sid all_headers end_stream.

Definition map_h2_event (ev : H2.H2Event) : HttpEvent :=
  match ev with
  | H2.Connected => Connected
  | H2.EvHeaders s => Headers s
  | H2.EvData s => Data s
  | H2.Finished s => Finished s
  | H2.StreamReset s code => StreamReset s code
  | H2.EvGoAway _ code => GoAway code
  | H2.Timeout => Timeout
  end.

End h2.

(** ** HTTP/1.1 *)
Section http1.
Context `{Platform}.
Variable grant : Z → bool.
Variables HDRBUF DATABUF BUF : Z.

Definition http1_send_request (method path authority : list Z) (extra_headers : fields) (end_stream : bool) : M Error Http1.t Z :=
  headers ← lift (with_pseudo [(bytes ":method", method); (bytes ":path", path); (bytes ":authority", authority)] extra_headers);
  Http1.open_stream grant BUF headers.

Definition http1_send_response (sid status : Z) (headers : fields) (end_stream : bool) : M Error Http1.t unit :=
  if 20 <? 1 + len headers then throw TooManyHeaders else
  status_str ← lift (StatusCode.to_bytes status);
  all_headers ← lift (with_pseudo [(bytes ":status", status_str)] headers);
  Http1.send_headers grant BUF sid all_headers.

Definition map_http1_event (ev : Http1.Http1Event) : HttpEvent :=
  match ev with
  | Http1.Connected => Connected
  | Http1.Headers s => Headers s
  | Http1.Data s => Data s
  | Http1.Finished s => Finished s
  | Http1.Timeout => Timeout
  end.

End http1.

(** ** HTTP/3 *)
Module H3Api.
Import H3.

Section api.
Context `{H3.Params} `{Platform} `{Primitives}.
Variable grant : Z → bool.

Definition send_request (method path authority : list Z) (headers : fields) (end_stream : bool) : M Error env Z :=
  if 20 <? 4 + len headers then throw TooManyHeaders else
  sid ← on_quic (Quic.on_conn Quic.open_stream);
  all_headers ← lift (with_pseudo [(bytes ":method", method); (bytes ":scheme", bytes "https");
                                   (bytes ":authority", authority); (bytes ":path", path)] headers);
  _ ← send_headers sid all_headers end_stream;
  _ ← update_h3 (λ c, c <| request_streams := request_streams c ++ [new_request sid] |>);
  mret sid.

Definition send_response (sid status : Z) (headers : fields) (end_stream : bool) : M Error env unit :=
  if 20 <? 1 + len headers then throw TooManyHeaders else
  status_str ← lift (StatusCode.to_bytes status);
  all_headers ← lift (with_pseudo [(bytes ":status", status_str)] headers);
  send_headers sid all_headers end_stream.

(** QUIC events first; their errors are dropped. *)
Definition poll_event (cap : Z) : M Error env (option H3Event) :=
  _ ← Quic.attempt (process_quic_events grant cap);
  H3.poll_event.

Definition is_established (e : env) : bool := Quic.is_established (Quic.conn (quic e)).
Definition is_closed (e : env) : bool := Quic.is_closed (Quic.conn (quic e)).
Definition close (error_code : Z) (reason : list Z) : M Error env unit :=
  on_quic (Quic.on_conn (modify (Quic.close error_code reason))).
Definition recv (datagram : list Z) (now : Z) : M Error env unit := on_quic (QuicRecv.recv grant datagram now).
Definition poll_transmit (now : Z) : M Error env (option (list Z)) := on_quic (QuicTransmit.poll_transmit grant now).
Definition next_timeout (e : env) : result (option Z) := Quic.next_timeout (Quic.conn (quic e)).
Definition handle_timeout (now : Z) : M Error env unit := on_quic (Quic.on_conn (Quic.handle_timeout now)).

Definition release_handshake_slot : M Error env unit :=
  e ← get;
  match Quic.handshake_slot (Quic.conn (quic e)) with
  | Some slot => on_quic (modify (λ q, q <| Quic.conn := (Quic.conn q) <| Quic.handshake_slot := None |> |>
                                         <| Quic.pool := Quic.release slot (Quic.pool q) |>))
  | None => mret tt
  end.

Definition map_h3_event (ev : H3Event) : HttpEvent :=
  match ev with
  | H3.Connected => HttpServer.Connected
  | H3.Headers s => HttpServer.Headers s
  | H3.Data s => HttpServer.Data s
  | H3.Finished s => HttpServer.Finished s
  | H3.GoAway _ => HttpServer.GoAway 0
  | H3.StreamReset s code => HttpServer.StreamReset s code
  | H3.ConnectionClose code => HttpServer.GoAway code
  end.

End api.
End H3Api.

(** ** TLS before the protocol is known *)

(** [TlsParts]: a TLS connection and its buffers, which one record holds. *)
Module TlsParts.
Section parts.
Context `{Platform} `{Primitives}.
Variable grant : Z → bool.
Variable BUF : Z.

(** The receive buffer is reserved at once, if the allocator grants it. *)
Definition new_server (config : Tls.ServerTlsConfig) (secret random : list Z) : result TcpTls.t :=
  match Buf.try_reserve BUF grant BUF Buf.new with
  | (Panic, _) => Panic
  | (_, net_recv) => Ok (TcpTls.new (Tls.new_tcp_server config secret random) net_recv Buf.new Buf.new)
  end.

Definition new_server_in (config : Tls.ServerTlsConfig) (secret random : list Z) (kit : TlsBufKit) : result TcpTls.t :=
  r ← Buf.from_static BUF (net_recv kit);
  s ← Buf.from_static BUF (net_send kit);
  a ← Buf.from_static BUF (app_send kit);
  Ok (TcpTls.new (Tls.new_tcp_server config secret random) r s a).

(** The static slices of the three buffers, if all are static. *)
Definition reclaim_buffers : M Error TcpTls.t (option TlsBufKit) := λ c,
  let '(net_recv, r) := Buf.take_static (TcpTls.recv_buf c) in
  let '(net_send, n) := Buf.take_static (TcpTls.send_buf c) in
  let '(app_send, a) := Buf.take_static (TcpTls.app_send_buf c) in
  (Ok (match net_recv, net_send, app_send with
       | Some net_recv, Some net_send, Some app_send => Some (MkKit net_recv net_send app_send)
       | _, _, _ => None
       end),
   c <| TcpTls.recv_buf := r |> <| TcpTls.send_buf := n |> <| TcpTls.app_send_buf := a |>).

Definition alpn (c : TcpTls.t) : option (list Z) := Tls.negotiated_alpn (TcpTls.engine c).

End parts.
End TlsParts.

(** ** Stacks over TLS *)
Module Stack.

(** A protocol over TLS: [net_recv], [net_send] and [app_send] are the buffers of [tls];
    the two that the protocol uses are lent to it for the time of a call. *)
Record t (L : Type) := Mk { tls : TcpTls.t; http : L }.
Arguments Mk {L}. Arguments tls {L}. Arguments http {L}.

Class Buffers (L : Type) := {
  lend : Buf.t → Buf.t → L → L;
  recv_part : L → Buf.t;
  send_part : L → Buf.t
}.
Global Instance h2_buffers : Buffers H2.t := {|
  lend := λ r s c, c <| H2.recv_buf := r |> <| H2.send_buf := s |>; recv_part := H2.recv_buf; send_part := H2.send_buf |}.
Global Instance http1_buffers : Buffers Http1.t := {|
  lend := λ r s c, c <| Http1.recv_buf := r |> <| Http1.send_buf := s |>; recv_part := Http1.recv_buf; send_part := Http1.send_buf |}.

Section stack.
Context {L : Type} `{Buffers L} `{Platform} `{Primitives}.
Variable grant : Z → bool.
Variable BUF : Z.

Definition on_tls {A} (m : M Error TcpTls.t A) : M Error (t L) A := λ s,
  let '(r, c) := m (tls s) in (r, Mk c (http s)).
Definition on_http {A} (m : M Error L A) : M Error (t L) A := λ s,
  let '(r, h) := m (lend (TcpTls.recv_buf (tls s)) (TcpTls.app_send_buf (tls s)) (http s)) in
  (r, Mk ((tls s) <| TcpTls.recv_buf := recv_part h |> <| TcpTls.app_send_buf := send_part h |>) h).

(** [if !self.net_recv.is_empty() { .. }]. *)
Definition when_received (m : M Error (t L) unit) : M Error (t L) unit :=
  s ← get;
  n ← lift (Buf.blen (TcpTls.recv_buf (tls s)));
  if n =? 0 then mret tt else m.

(** TLS first, then the protocol on what was decrypted. *)
Definition feed_then (feed : M Error L unit) (data : list Z) : M Error (t L) unit :=
  _ ← on_tls (TcpTls.feed_data BUF grant data);
  when_received (on_http feed).
Definition feed_noting (note : L → L) (feed : M Error L unit) (data : list Z) : M Error (t L) unit :=
  _ ← on_tls (TcpTls.feed_data BUF grant data);
  _ ← (if len data =? 0 then mret tt else modify (λ s, Mk (tls s) (note (http s))));
  when_received (on_http feed).

(** The calls that TLS has to be up for. *)
Definition when_active {A} (m : M Error (t L) A) : M Error (t L) A :=
  s ← get;
  if negb (TcpTls.is_active (tls s)) then throw InvalidState else m.

(** [body bytes are parked && !net_recv.is_empty()]. *)
Definition blocked (parked : bool) (s : t L) : result bool :=
  if parked then n ← Buf.blen (TcpTls.recv_buf (tls s)); mret (negb (n =? 0)) else Ok false.

Definition reclaim_buffers : M Error (t L) (option TlsBufKit) := on_tls TlsParts.reclaim_buffers.

End stack.
End Stack.

(** HTTP/2 over TLS. *)
Module H2Tls.
Import Stack.

Section h2_tls.
Context `{Platform} `{Primitives}.
Variable grant : Z → bool.
Variables BUF MAX_STREAMS HDRBUF DATABUF : Z.
Abbreviation stack := (Stack.t H2.t).

Definition new_server (config : Tls.ServerTlsConfig) (secret random : list Z) : stack :=
  Mk (TcpTls.new_server config secret random) (h2_server_new MAX_STREAMS DATABUF).
Definition new_client (config : Tls.TlsConfig) (secret random : list Z) : stack :=
  Mk (TcpTls.new_client config secret random) (h2_client_new MAX_STREAMS DATABUF).
(** The TLS connection and its buffers, after the handshake. *)
Definition from_parts (parts : TcpTls.t) : stack := Mk parts (h2_server_new MAX_STREAMS DATABUF).

Definition feed_data (data : list Z) : M Error stack unit :=
  feed_then grant BUF (H2.feed_data grant MAX_STREAMS HDRBUF DATABUF BUF []) data.
Definition feed_data_timed (data : list Z) (now : Z) : M Error stack unit :=
  feed_noting grant BUF (H2.note_recv_activity now) (H2.feed_data_timed grant MAX_STREAMS HDRBUF DATABUF BUF [] now) data.
Definition poll_output (cap : Z) : M Error stack (option (list Z)) :=
  _ ← on_http (H2.generate_output grant BUF);
  on_tls (TcpTls.poll_output BUF grant cap).
Definition poll_event : M Error stack (option H2.H2Event) := on_http H2.poll_event.
Definition is_established (s : stack) : bool := TcpTls.is_active (tls s) && H2.is_established (http s).
Definition is_closed (s : stack) : bool := TcpTls.is_closed (tls s) || H2.is_closed (http s).
Definition send_request (method path authority : list Z) (headers : fields) (end_stream : bool) : M Error stack Z :=
  when_active (on_http (h2_send_request grant MAX_STREAMS BUF method path authority headers end_stream)).
Definition send_response (sid status : Z) (headers : fields) (end_stream : bool) : M Error stack unit :=
  on_http (h2_send_response grant MAX_STREAMS BUF sid status headers end_stream).
Definition send_body (sid : Z) (data : list Z) (end_stream : bool) : M Error stack Z :=
  on_http (H2.send_data grant BUF sid data end_stream).
Definition recv_headers (sid : Z) : M Error stack fields := on_http (H2.recv_headers sid).
Definition recv_body (sid cap : Z) : M Error stack (list Z * bool) := on_http (H2.recv_body grant BUF sid cap).
Definition discard_body (sid error_code : Z) : M Error stack unit := on_http (H2.discard_body grant BUF sid error_code).
Definition set_timeouts (config : TimeoutConfig) (now : Z) (s : stack) : stack := Mk (tls s) (H2.set_timeouts config now (http s)).
Definition next_timeout (s : stack) : option Z := H2.next_timeout (http s).
Definition handle_timeout (now : Z) : M Error stack unit := on_http (H2.handle_timeout grant BUF now).
Definition send_goaway (error_code : Z) : M Error stack unit := on_http (H2.send_goaway grant BUF error_code).
Definition close : M Error stack unit := on_tls (TcpTls.close BUF grant).
Definition recv_blocked (s : stack) : result bool := blocked (H2.has_partial_data (http s)) s.

Definition server_conn : HttpServerConn stack := {|
  HttpServer.poll_event := λ _, option_map_event map_h2_event poll_event;
  HttpServer.recv_headers := recv_headers;
  HttpServer.recv_body := recv_body;
  HttpServer.send_response := send_response;
  HttpServer.send_body := send_body;
  HttpServer.send_capacity := λ sid s, H2.send_capacity sid (http s);
  HttpServer.is_established := is_established;
  HttpServer.is_closed := is_closed;
  HttpServer.discard_body := discard_body;
  HttpServer.set_timeouts := set_timeouts;
  HttpServer.next_timeout := λ s, Ok (next_timeout s);
  HttpServer.handle_timeout := handle_timeout;
  HttpServer.tcp_feed_data := feed_data_timed;
  HttpServer.tcp_poll_output := poll_output;
  HttpServer.recv_blocked := recv_blocked;
  HttpServer.reclaim_buffers := Stack.reclaim_buffers |}.

(** The client cannot respond, and keeps the defaults for [discard_body] and
    [recv_blocked]. *)
Definition client_conn : HttpServerConn stack := {|
  HttpServer.poll_event := λ _, option_map_event map_h2_event poll_event;
  HttpServer.recv_headers := recv_headers;
  HttpServer.recv_body := recv_body;
  HttpServer.send_response := λ _ _ _ _, throw InvalidState;
  HttpServer.send_body := send_body;
  HttpServer.send_capacity := λ sid s, H2.send_capacity sid (http s);
  HttpServer.is_established := is_established;
  HttpServer.is_closed := is_closed;
  HttpServer.discard_body := default_discard_body;
  HttpServer.set_timeouts := set_timeouts;
  HttpServer.next_timeout := λ s, Ok (next_timeout s);
  HttpServer.handle_timeout := handle_timeout;
  HttpServer.tcp_feed_data := feed_data_timed;
  HttpServer.tcp_poll_output := poll_output;
  HttpServer.recv_blocked := default_recv_blocked;
  HttpServer.reclaim_buffers := default_reclaim_buffers |}.

End h2_tls.
End H2Tls.

(** HTTP/1.1 over TLS. *)
Module Https1.
Import Stack.

Section https1.
Context `{Platform} `{Primitives}.
Variable grant : Z → bool.
Variables BUF HDRBUF DATABUF : Z.
Abbreviation stack := (Stack.t Http1.t).

Definition new_server (config : Tls.ServerTlsConfig) (secret random : list Z) : stack :=
  Mk (TcpTls.new_server config secret random) (Http1.new Http1.Server).
Definition new_client (config : Tls.TlsConfig) (secret random : list Z) : stack :=
  Mk (TcpTls.new_client config secret random) (Http1.new Http1.Client).
Definition from_parts (parts : TcpTls.t) : stack := Mk parts (Http1.new Http1.Server).

Definition feed_data (data : list Z) : M Error stack unit :=
  feed_then grant BUF (Http1.feed_data grant HDRBUF DATABUF BUF []) data.
Definition feed_data_timed (data : list Z) (now : Z) : M Error stack unit :=
  feed_noting grant BUF (Http1.note_recv_activity now) (Http1.feed_data_timed grant HDRBUF DATABUF BUF [] now) data.
Definition poll_output (cap : Z) : M Error stack (option (list Z)) := on_tls (TcpTls.poll_output BUF grant cap).
Definition poll_event : M Error stack (option Http1.Http1Event) := on_http Http1.poll_event.
Definition is_established (s : stack) : bool := TcpTls.is_active (tls s).
Definition is_closed (s : stack) : bool := TcpTls.is_closed (tls s) || Http1.is_closed (http s).
Definition send_request (method path authority : list Z) (headers : fields) (end_stream : bool) : M Error stack Z :=
  when_active (on_http (http1_send_request grant BUF method path authority headers end_stream)).
Definition send_response (sid status : Z) (headers : fields) (end_stream : bool) : M Error stack unit :=
  when_active (on_http (http1_send_response grant BUF sid status headers end_stream)).
Definition send_body (sid : Z) (data : list Z) (end_stream : bool) : M Error stack Z :=
  when_active (on_http (Http1.send_data grant BUF sid data)).
Definition recv_headers (sid : Z) : M Error stack fields := on_http (Http1.recv_headers sid).
Definition recv_body (sid cap : Z) : M Error stack (list Z * bool) := on_http (Http1.recv_body sid cap).
Definition set_timeouts (config : TimeoutConfig) (now : Z) (s : stack) : stack := Mk (tls s) (Http1.set_timeouts config now (http s)).
Definition next_timeout (s : stack) : option Z := Http1.next_timeout (http s).
Definition handle_timeout (now : Z) : M Error stack unit := on_http (Http1.handle_timeout now).
Definition close : M Error stack unit := on_tls (TcpTls.close BUF grant).
Definition recv_blocked (s : stack) : result bool := blocked (Http1.body_parked (http s)) s.

Definition server_conn : HttpServerConn stack := {|
  HttpServer.poll_event := λ _, option_map_event map_http1_event poll_event;
  HttpServer.recv_headers := recv_headers;
  HttpServer.recv_body := recv_body;
  HttpServer.send_response := send_response;
  HttpServer.send_body := send_body;
  HttpServer.send_capacity := default_send_capacity;
  HttpServer.is_established := is_established;
  HttpServer.is_closed := is_closed;
  HttpServer.discard_body := default_discard_body;
  HttpServer.set_timeouts := set_timeouts;
  HttpServer.next_timeout := λ s, Ok (next_timeout s);
  HttpServer.handle_timeout := handle_timeout;
  HttpServer.tcp_feed_data := feed_data_timed;
  HttpServer.tcp_poll_output := poll_output;
  HttpServer.recv_blocked := recv_blocked;
  HttpServer.reclaim_buffers := Stack.reclaim_buffers |}.

(** The client cannot respond, and keeps the default for [recv_blocked]. *)
Definition client_conn : HttpServerConn stack := {|
  HttpServer.poll_event := λ _, option_map_event map_http1_event poll_event;
  HttpServer.recv_headers := recv_headers;
  HttpServer.recv_body := recv_body;
  HttpServer.send_response := λ _ _ _ _, throw InvalidState;
  HttpServer.send_body := send_body;
  HttpServer.send_capacity := default_send_capacity;
  HttpServer.is_established := is_established;
  HttpServer.is_closed := is_closed;
  HttpServer.discard_body := default_discard_body;
  HttpServer.set_timeouts := set_timeouts;
  HttpServer.next_timeout := λ s, Ok (next_timeout s);
  HttpServer.handle_timeout := handle_timeout;
  HttpServer.tcp_feed_data := feed_data_timed;
  HttpServer.tcp_poll_output := poll_output;
  HttpServer.recv_blocked := default_recv_blocked;
  HttpServer.reclaim_buffers := default_reclaim_buffers |}.

End https1.
End Https1.

(** HTTP/1.1 in the clear, and HTTP/3, as connections of the trait. *)
Section conns.
Context `{Platform}.
Variable grant : Z → bool.
Variables HDRBUF DATABUF BUF : Z.

Definition http1_recv_blocked (c : Http1.t) : result bool :=
  if Http1.body_parked c then n ← Buf.blen (Http1.recv_buf c); mret (negb (n =? 0)) else Ok false.

Definition http1_server_conn : HttpServerConn Http1.t := {|
  poll_event := λ _, option_map_event map_http1_event Http1.poll_event;
  recv_headers := Http1.recv_headers;
  recv_body := Http1.recv_body;
  send_response := http1_send_response grant BUF;
  send_body := λ sid data _, Http1.send_data grant BUF sid data;
  send_capacity := default_send_capacity;
  is_established := Http1.is_established;
  is_closed := Http1.is_closed;
  discard_body := default_discard_body;
  set_timeouts := Http1.set_timeouts;
  next_timeout := λ c, Ok (Http1.next_timeout c);
  handle_timeout := Http1.handle_timeout;
  tcp_feed_data := Http1.feed_data_timed grant HDRBUF DATABUF BUF;
  tcp_poll_output := Http1.poll_output grant;
  recv_blocked := http1_recv_blocked;
  reclaim_buffers := default_reclaim_buffers |}.

Context `{H3.Params}.

Definition h3_server_conn : HttpServerConn H3.env := {|
  poll_event := λ cap, option_map_event H3Api.map_h3_event (H3Api.poll_event grant cap);
  recv_headers := H3.recv_headers;
  recv_body := H3.recv_body;
  send_response := H3Api.send_response;
  send_body := H3.send_data;
  send_capacity := default_send_capacity;
  is_established := H3Api.is_established;
  is_closed := H3Api.is_closed;
  discard_body := default_discard_body;
  set_timeouts := default_set_timeouts;
  next_timeout := H3Api.next_timeout;
  handle_timeout := H3Api.handle_timeout;
  tcp_feed_data := λ _ _, mret tt;
  tcp_poll_output := λ _, mret None;
  recv_blocked := default_recv_blocked;
  reclaim_buffers := default_reclaim_buffers |}.

(** The client cannot respond. *)
Definition h3_client_conn : HttpServerConn H3.env := {|
  poll_event := λ cap, option_map_event H3Api.map_h3_event (H3Api.poll_event grant cap);
  recv_headers := H3.recv_headers;
  recv_body := H3.recv_body;
  send_response := λ _ _ _ _, throw InvalidState;
  send_body := H3.send_data;
  send_capacity := default_send_capacity;
  is_established := H3Api.is_established;
  is_closed := H3Api.is_closed;
  discard_body := default_discard_body;
  set_timeouts := default_set_timeouts;
  next_timeout := H3Api.next_timeout;
  handle_timeout := H3Api.handle_timeout;
  tcp_feed_data := λ _ _, mret tt;
  tcp_poll_output := λ _, mret None;
  recv_blocked := default_recv_blocked;
  reclaim_buffers := default_reclaim_buffers |}.

End conns.
