(* ===== verification/BufShape.v ===== *)
(** * Where the bytes of a buffer are

    A buffer over a static slice stays over it: no call moves its bytes to the heap or
    changes the size of the slice, so the slice can be taken back when the buffer is
    no longer needed. *)
From S2P Require Import Prelude Errors Hoare Buf.

(** The size of the static slice, if there is one. *)
Definition shape (b : Buf.t) : option Z := match Buf.storage b with Buf.Static mem _ => Some (len mem) | Buf.Heap _ => None end.

Lemma copy_within_len {E} (l : list Z) a b dest l' : copy_within (E:=E) l a b dest = Ok l' → len l' = len l.
Proof.
  unfold copy_within. case_decide as Hd; [|done]. intros [= <-]. rewrite !length_app, !length_take, length_drop, length_drop. lia.
Qed.
Lemma copy_at_same_len {E} (l : list Z) a b src l' : copy_at (E:=E) l a b src = Ok l' → len l' = len l.
Proof.
  unfold copy_at. case_decide; [|done]. intros [= <-]. rewrite !length_app, length_take, length_drop. lia.
Qed.

Section shape.
Context `{Platform} (N : Z) (grant : Z → bool).

Lemma shape_truncate {E} n b b' : Buf.truncate (E:=E) n b = Ok b' → shape b' = shape b.
Proof.
  unfold Buf.truncate, shape. destruct (Buf.blen b) as [vis| |]; [|done..]. cbn. case_decide; [by intros [= <-]|].
  destruct (Buf.storage b) as [v|mem l] eqn:Hs.
  - destruct (if decide _ then _ else _) as [es| |]; [|done..]. by intros [= <-].
  - case_decide; cbn; [|by intros [= <-]]. destruct (copy_within _ _ _ _) as [mem'| |] eqn:Hc; [|done..]. intros [= <-]. cbn. by rewrite (copy_within_len _ _ _ _ _ Hc).
Qed.
Lemma shape_with_mut {E} (f : list Z → res E (list Z)) b b' : Buf.with_mut_slice f b = Ok b' → shape b' = shape b.
Proof.
  unfold Buf.with_mut_slice, shape. destruct (Buf.blen b) as [vis| |]; [|done..]. cbn. destruct (Buf.storage b) as [v|mem l] eqn:Hs.
  - destruct (slice _ _ _) as [s| |]; [|done..]. cbn. destruct (f s) as [s'| |]; [|done..]. cbn. destruct (copy_at _ _ _ _); [|done..]. by intros [= <-].
  - destruct (slice _ _ _) as [s| |]; [|done..]. cbn. destruct (f s) as [s'| |]; [|done..]. cbn. destruct (copy_at _ _ _ _) as [mem'| |] eqn:Hc; [|done..].
    intros [= <-]. cbn. by rewrite (copy_at_same_len _ _ _ _ _ Hc).
Qed.
Lemma shape_try_reserve n b : shape (Buf.try_reserve N grant n b).2 = shape b.
Proof.
  unfold Buf.try_reserve, shape. destruct (Buf.storage b) as [v|mem l] eqn:Hs; [|cbn; by rewrite Hs].
  destruct (usize_add _ _) as [needed| |]; cbn; [|by rewrite Hs..]. case_decide; cbn; [by rewrite Hs|].
  destruct (usub _ _) as [extra| |]; cbn; [|by rewrite Hs..]. destruct (Buf.try_reserve_exact _ _ _) as [[]]; cbn; [done|..].
  all: destruct (usub _ _); cbn; [|by rewrite Hs..]; by destruct (Buf.try_reserve_exact _ _ _).
Qed.
Lemma shape_buf_try_reserve n b : shape (Buf.buf_try_reserve N grant n b).2 = shape b.
Proof. unfold Buf.buf_try_reserve. pose proof (shape_try_reserve n b). by destruct (Buf.try_reserve _ _ _ _). Qed.
Lemma shape_reserve_clamped {E} n b b' : Buf.reserve_clamped N grant (E:=E) n b = Ok b' → shape b' = shape b.
Proof.
  unfold Buf.reserve_clamped, shape. destruct (Buf.storage b) as [v|mem l] eqn:Hs; [|intros [= <-]; by rewrite Hs].
  case_decide; [intros [= <-]; by rewrite Hs|]. destruct (usub _ _); [|done..]. cbn. destruct (Buf.reserve_exact _ _ _); [|done..]. by intros [= <-].
Qed.
Lemma shape_extend data b b' : Buf.extend_from_slice N grant data b = Ok b' → shape b' = shape b.
Proof.
  unfold Buf.extend_from_slice. destruct (Buf.storage b) as [v|mem l] eqn:Hs.
  - case_decide; [done|]. destruct (Buf.reserve_clamped _ _ _ _) as [b1| |] eqn:Hr; [|done..]. cbn. apply shape_reserve_clamped in Hr. rewrite <- Hr.
    destruct (Buf.storage b1) as [v1|mem1 l1] eqn:Hs1; [|by intros [= <-]]. destruct (Buf.vec_extend _ _ _) as [v2| |]; [|done..]. cbn.
    unfold shape. rewrite Hs1. case_decide; [|by intros [= <-]].
    destruct (usub _ _) as [x| |]; [|done..]; cbn. destruct (usub _ _) as [vis| |]; [|done..]; cbn. destruct (slice_from _ _) as [tl| |]; [|done..]; cbn. destruct (rotate_left _ _); [|done..]. by intros [= <-].
  - case_decide; [done|]. destruct (usub _ _) as [vis| |]; [|done..]. cbn. unfold shape. rewrite Hs.
    destruct (if decide _ then _ else _) as [mem1| |] eqn:Hm; [|done..]. cbn. destruct (copy_at _ _ _ _) as [mem2| |] eqn:Hc; [|done..]. intros [= <-]. cbn.
    rewrite (copy_at_same_len _ _ _ _ _ Hc). case_decide; [by rewrite (copy_within_len _ _ _ _ _ Hm)|by injection Hm as <-].
Qed.
Lemma shape_clear b : shape (Buf.clear b) = shape b.
Proof. unfold Buf.clear, shape. by destruct (Buf.storage b). Qed.
Lemma shape_hide {E} n b b' : Buf.hide_tail (E:=E) n b = Ok b' → shape b' = shape b.
Proof. unfold Buf.hide_tail, shape. destruct (Buf.blen b); [|done..]. cbn. case_decide; [|done]. by intros [= <-]. Qed.
Lemma shape_unhide b : shape (Buf.unhide_tail b).2 = shape b.
Proof. done. Qed.
Lemma shape_shrink_to {E} n b b' : Buf.shrink_to grant (E:=E) n b = Ok b' → shape b' = shape b.
Proof.
  unfold Buf.shrink_to, shape. destruct (Buf.storage b) as [v|mem l] eqn:Hs; [|intros [= <-]; by rewrite Hs].
  case_decide; [intros [= <-]; by rewrite Hs|]. case_decide; [by intros [= <-]|].
  destruct (Buf.try_reserve_exact _ _ _) as [[]]; [|intros [= <-]; by rewrite Hs..]. destruct (Buf.vec_extend _ _ _); [|done..]. by intros [= <-].
Qed.

End shape.
