(* ===== verification/HttpIdle.v ===== *)
(** * The idle clock of connections over TCP

    A server reaps a connection that has been idle for too long.  What counts as
    activity is what arrives from the peer: a call that only drives the parser on,
    with no new data, must not move the clock, or a connection whose application
    has stopped reading would never be reaped.  Beside the idle clock runs a deadline
    for the header fields of the first message, which nothing the peer sends moves. *)
From S2P Require Import Prelude Errors Hoare Buf BufShape Http Crypto TlsHandshake TcpTls H2Frame H2Stream H2Connection Http1Connection HttpApi.

(** ** HTTP/2 *)
Module H2Idle.
Import H2.

(** What the timeouts of a connection depend on. *)
Definition timing (c : t) : TimeoutConfig * Z * bool := (timeout_config c, last_activity c, sent_since_tick c).
(** When the header fields must be complete: until they are, counted from the start. *)
Definition headers_due (c : t) : option Z :=
  if headers_phase_complete c then None else sat_add64 (connection_start c) <$> header_timeout_us (timeout_config c).
(** And the buffers it works on stay where they are. *)
Definition seen (c : t) : TimeoutConfig * Z * bool * option Z * option Z := (timing c, shape (recv_buf c), shape (send_buf c)).
Definition timed (c c' : t) : Prop := seen c' = seen c.

Lemma timed_timing c c' : timed c c' → timing c' = timing c.
Proof. unfold timed, seen. congruence. Qed.

Global Instance timed_preorder : PreOrder timed.
Proof. split; [done|]. intros c1 c2 c3 H1 H2. unfold timed in *. congruence. Qed.

Section h2.
Context `{Platform}.
Variable grant : Z → bool.
Variables MAX_STREAMS HDRBUF DATABUF BUF : Z.

Ltac plain := intros c; unfold timed; cbn; repeat case_match; reflexivity.

Lemma timed_modify f : (∀ c, seen (f c) = seen c) → keeps timed (modify f).
Proof. intros Hf. apply keeps_modify. intros c. apply Hf. Qed.
Lemma timed_ok_of {A} (m : M Error t A) : keeps timed m → keeps timed (is_ok_of m).
Proof. intros Hm c. specialize (Hm c). unfold is_ok_of. by destruct (m c) as [[]]. Qed.
Lemma timed_ignore {A} (m : M Error t A) : keeps timed m → keeps timed (ignore m).
Proof. intros Hm. apply keeps_bind; [apply _|by apply timed_ok_of|intros; apply keeps_ret; apply _]. Qed.
Lemma seen_send c b : shape b = shape (send_buf c) → seen (c <| send_buf := b |>) = seen c.
Proof. unfold seen. cbn. by intros ->. Qed.
Lemma seen_recv c b : shape b = shape (recv_buf c) → seen (c <| recv_buf := b |>) = seen c.
Proof. unfold seen. cbn. by intros ->. Qed.
Lemma timed_with_slice {A} a b (f : M Error (list Z) A) : keeps timed (with_send_slice a b f).
Proof.
  intros c. unfold with_send_slice, timed. destruct (Buf.as_slice _) as [v| |]; [|done..]. destruct (slice v a b) as [x| |]; [|done..].
  destruct (f x) as [r x']. destruct (Buf.with_mut_slice _ _) as [b'| |] eqn:Hb; [|done..]. apply seen_send. by eapply shape_with_mut.
Qed.
Lemma timed_reserve n : keeps timed (reserve_send grant BUF n).
Proof. intros c. unfold reserve_send, timed. pose proof (shape_buf_try_reserve BUF grant n (send_buf c)) as Hs. destruct (Buf.buf_try_reserve _ _ _ _). by apply seen_send. Qed.
Lemma timed_extend data : keeps timed (extend_send grant BUF data).
Proof. intros c. unfold extend_send, timed. destruct (Buf.extend_from_slice _ _ _ _) as [b'| |] eqn:Hb; [|done..]. apply seen_send. by eapply shape_extend. Qed.
Lemma timed_hpack block : keeps timed (hpack_decode block).
Proof. intros c. unfold hpack_decode, timed. repeat case_match; done. Qed.

Hint Resolve timed_with_slice timed_reserve timed_extend timed_hpack : keeps.
Hint Extern 1 (keeps timed (modify _)) => (apply timed_modify; intros []; cbn; repeat case_match; reflexivity) : keeps.

Ltac keep_h2 :=
  intros; cbv zeta; repeat first
    [ lazymatch goal with
      | |- keeps _ (is_ok_of _) => apply timed_ok_of
      | |- keeps _ (ignore _) => apply timed_ignore
      end
    | keep_step ].

Lemma timed_queue data : keeps timed (queue_send grant BUF data).
Proof. unfold queue_send, send_len. keep_h2. Qed.
Hint Resolve timed_queue : keeps.
Lemma timed_frame f n : keeps timed (send_frame grant BUF f n).
Proof. unfold send_frame. keep_h2. Qed.
Lemma timed_with_stream sid f : keeps timed (with_stream sid f).
Proof. unfold with_stream. keep_h2. Qed.
Lemma timed_event ev : keeps timed (push_event ev).
Proof. unfold push_event. keep_h2. Qed.
Lemma timed_drain n : keeps timed (drain_recv n).
Proof.
  apply keeps_get_look. intros c. destruct (Buf.with_mut_slice _ _) as [b1| |] eqn:H1; [|reflexivity..]. erewrite M_step_lift by reflexivity.
  destruct (Buf.blen b1) as [l| |]; [|reflexivity..]. erewrite M_step_lift by reflexivity. destruct (usub l n) as [l'| |]; [|reflexivity..]. erewrite M_step_lift by reflexivity.
  destruct (Buf.truncate l' b1) as [b2| |] eqn:H2; [|reflexivity..]. erewrite M_step_lift by reflexivity.
  apply seen_recv. apply shape_with_mut in H1. apply shape_truncate in H2. congruence.
Qed.
Lemma timed_slice a b : keeps timed (recv_slice a b).
Proof. unfold recv_slice. keep_h2. Qed.
Lemma timed_at i : keeps timed (recv_at i).
Proof. unfold recv_at. keep_h2. Qed.
Lemma timed_len : keeps timed recv_len.
Proof. unfold recv_len. keep_h2. Qed.
Lemma timed_ensure sid : keeps timed (ensure_stream MAX_STREAMS sid).
Proof. unfold ensure_stream. keep_h2. Qed.
Hint Resolve timed_frame timed_with_stream timed_event timed_drain timed_slice timed_at timed_len timed_ensure : keeps.

Lemma timed_try f buf : keeps timed (try_queue grant BUF f buf).
Proof. unfold try_queue. keep_h2. Qed.
Hint Resolve timed_try : keeps.
Lemma timed_flush_stream s buf : keeps timed (flush_stream grant BUF s buf).
Proof. unfold flush_stream. keep_h2. Qed.
Hint Resolve timed_flush_stream : keeps.

Lemma timed_flush_streams l : ∀ buf, keeps timed (flush_streams grant BUF l buf).
Proof. induction l as [|s l IH]; intros buf; cbn [flush_streams]; keep_h2. Qed.
Lemma timed_flush_credit buf : keeps timed (flush_conn_credit grant BUF buf).
Proof. unfold flush_conn_credit. keep_h2. Qed.
Hint Resolve timed_flush_streams timed_flush_credit : keeps.
Lemma timed_flush : keeps timed (flush_window_updates grant BUF).
Proof. unfold flush_window_updates. keep_h2. Qed.
Hint Resolve timed_flush : keeps.
Lemma timed_window_update sid n : keeps timed (send_window_update grant BUF sid n).
Proof. unfold send_window_update. keep_h2. Qed.
Lemma timed_settings : keeps timed (send_initial_settings grant BUF).
Proof. unfold send_initial_settings. keep_h2. Qed.
Hint Resolve timed_window_update timed_settings : keeps.
Lemma timed_generate : keeps timed (generate_output grant BUF).
Proof. unfold generate_output. keep_h2. Qed.
Lemma timed_goaway code : keeps timed (send_goaway grant BUF code).
Proof. unfold send_goaway. keep_h2. Qed.
Hint Resolve timed_generate timed_goaway : keeps.

(** Receiving. *)
Lemma timed_deliver pd s n : keeps timed (deliver_chunk grant DATABUF pd s n).
Proof. unfold deliver_chunk. keep_h2. Qed.
Hint Resolve timed_deliver : keeps.
Lemma timed_pump fuel : ∀ pd, keeps timed (pump_loop grant DATABUF BUF fuel pd).
Proof. induction fuel as [|fuel IH]; intros pd; cbn [pump_loop]; keep_h2. Qed.
Lemma timed_padding pd : keeps timed (pump_padding pd).
Proof. unfold pump_padding. keep_h2. Qed.
Lemma timed_finish pd : keeps timed (pump_finish pd).
Proof. unfold pump_finish. keep_h2. Qed.
Hint Resolve timed_pump timed_padding timed_finish : keeps.
Lemma timed_partial : keeps timed (pump_partial_data grant DATABUF BUF).
Proof. unfold pump_partial_data. keep_h2. Qed.
Hint Resolve timed_partial : keeps.
Lemma timed_data flags sid n : keeps timed (recv_data_frame flags sid n).
Proof. unfold recv_data_frame. keep_h2. Qed.
Lemma timed_u32 i : keeps timed (recv_u32 i).
Proof. unfold recv_u32. keep_h2. Qed.
Hint Resolve timed_data timed_u32 : keeps.
Lemma timed_u31 i : keeps timed (recv_u31 i).
Proof. unfold recv_u31. keep_h2. Qed.
Hint Resolve timed_u31 : keeps.
Lemma timed_append sid frag b : keeps timed (append_headers grant HDRBUF sid frag b).
Proof. unfold append_headers. keep_h2. Qed.
Lemma timed_bounds flags n : keeps timed (headers_bounds flags n).
Proof. unfold headers_bounds. keep_h2. Qed.
Hint Resolve timed_append timed_bounds : keeps.
Lemma timed_accept sid a b e1 e2 : keeps timed (accept_headers grant MAX_STREAMS HDRBUF sid a b e1 e2).
Proof. unfold accept_headers. keep_h2. Qed.
Hint Resolve timed_accept : keeps.
Lemma timed_headers flags sid n : keeps timed (recv_headers_frame grant MAX_STREAMS HDRBUF flags sid n).
Proof. unfold recv_headers_frame. keep_h2. Qed.
Lemma timed_become : keeps timed become_active.
Proof. unfold become_active. keep_h2. Qed.
Hint Resolve timed_headers timed_become : keeps.
Lemma timed_settings_frame flags sid n : keeps timed (recv_settings_frame grant BUF flags sid n).
Proof. unfold recv_settings_frame, send_settings_ack. keep_h2. Qed.
Lemma timed_update_frame sid n : keeps timed (recv_window_update_frame sid n).
Proof. unfold recv_window_update_frame. keep_h2. Qed.
Lemma timed_ping flags sid n : keeps timed (recv_ping_frame grant BUF flags sid n).
Proof. unfold recv_ping_frame, send_ping_ack. keep_h2. Qed.
Lemma timed_goaway_frame sid n : keeps timed (recv_goaway_frame sid n).
Proof. unfold recv_goaway_frame. keep_h2. Qed.
Lemma timed_rst sid n : keeps timed (recv_rst_frame grant BUF sid n).
Proof. unfold recv_rst_frame. keep_h2. Qed.
Lemma timed_continuation flags sid n : keeps timed (recv_continuation_frame grant HDRBUF flags sid n).
Proof. unfold recv_continuation_frame. keep_h2. Qed.
Hint Resolve timed_settings_frame timed_update_frame timed_ping timed_goaway_frame timed_rst timed_continuation : keeps.
Lemma timed_recv_frame ty flags sid n : keeps timed (recv_frame grant MAX_STREAMS HDRBUF BUF ty flags sid n).
Proof. unfold recv_frame. keep_h2. Qed.
Hint Resolve timed_recv_frame : keeps.
Lemma timed_one : keeps timed (recv_one grant MAX_STREAMS HDRBUF BUF).
Proof. unfold recv_one. keep_h2. Qed.
Hint Resolve timed_one : keeps.
Lemma timed_step : keeps timed (recv_step grant MAX_STREAMS HDRBUF DATABUF BUF).
Proof. unfold recv_step. keep_h2. Qed.
Hint Resolve timed_step : keeps.
Lemma timed_loop fuel : keeps timed (recv_loop grant MAX_STREAMS HDRBUF DATABUF BUF fuel).
Proof. induction fuel as [|fuel IH]; cbn [recv_loop]; keep_h2. Qed.
Lemma timed_compare n : ∀ i l, keeps timed (compare_preface n i l).
Proof. induction n as [|n IH]; intros i l; cbn [compare_preface]; keep_h2. Qed.
Hint Resolve timed_loop timed_compare : keeps.
Lemma timed_preface : keeps timed validate_client_preface.
Proof. unfold validate_client_preface. keep_h2. Qed.
Lemma timed_frames : keeps timed (recv_frames grant MAX_STREAMS HDRBUF DATABUF BUF).
Proof. unfold recv_frames, sweep. keep_h2. Qed.
Hint Resolve timed_preface timed_frames : keeps.
Lemma timed_feed data : keeps timed (feed_data grant MAX_STREAMS HDRBUF DATABUF BUF data).
Proof.
  unfold feed_data, process_recv. keep_h2.
  - intros c. unfold timed. pose proof (shape_buf_try_reserve BUF grant (len data) (recv_buf c)) as Hs. destruct (Buf.buf_try_reserve _ _ _ _). by apply seen_recv.
  - intros c. unfold timed. destruct (Buf.extend_from_slice _ _ _ _) as [b'| |] eqn:Hb; [|done..]. apply seen_recv. by eapply shape_extend.
Qed.
End h2.
End H2Idle.

(** ** HTTP/1.1 *)
Module Http1Idle.
Import Http1.

Definition timing (c : t) : TimeoutConfig * Z * bool := (timeout_config c, last_activity c, sent_since_tick c).
(** When the header fields must be complete: until they are, counted from the start. *)
Definition headers_due (c : t) : option Z :=
  if headers_phase_complete c then None else sat_add64 (connection_start c) <$> header_timeout_us (timeout_config c).
Definition seen (c : t) : TimeoutConfig * Z * bool * option Z * option Z := (timing c, shape (recv_buf c), shape (send_buf c)).
Definition timed (c c' : t) : Prop := seen c' = seen c.

Lemma clocked_timing c c' : timed c c' → timing c' = timing c.
Proof. unfold timed, seen. congruence. Qed.

Global Instance clocked_preorder : PreOrder timed.
Proof. split; [done|]. intros c1 c2 c3 H1 H2. unfold timed in *. congruence. Qed.

Section http1.
Context `{Platform}.
Variable grant : Z → bool.
Variables HDRBUF DATABUF BUF : Z.

Lemma seen_output c b : shape b = shape (send_buf c) → seen (c <| send_buf := b |>) = seen c.
Proof. unfold seen. cbn. by intros ->. Qed.
Lemma seen_input c b : shape b = shape (recv_buf c) → seen (c <| recv_buf := b |>) = seen c.
Proof. unfold seen. cbn. by intros ->. Qed.
Lemma clocked_modify f : (∀ c, seen (f c) = seen c) → keeps timed (modify f).
Proof. intros Hf. apply keeps_modify. intros c. apply Hf. Qed.
Lemma clocked_is_err {A} (m : M Error t A) : keeps timed m → keeps timed (is_err m).
Proof. intros Hm c. specialize (Hm c). unfold is_err. by destruct (m c) as [[]]. Qed.
Lemma clocked_reserve_data n : keeps timed (reserve_data grant DATABUF n).
Proof. intros c. unfold reserve_data, timed. by case_match. Qed.
Lemma clocked_append_data d : keeps timed (append_data grant DATABUF d).
Proof. intros c. unfold append_data, timed. by case_match. Qed.
Lemma clocked_extend_header d : keeps timed (extend_header grant HDRBUF d).
Proof. intros c. unfold extend_header, timed. by case_match. Qed.

Hint Resolve clocked_reserve_data clocked_append_data clocked_extend_header : keeps.
Hint Extern 1 (keeps timed (modify _)) => (apply clocked_modify; intros []; cbn; repeat case_match; reflexivity) : keeps.

Ltac keep_http1 :=
  intros; cbv zeta; repeat first
    [ lazymatch goal with |- keeps _ (is_err _) => apply clocked_is_err end | keep_step ].

Lemma clocked_len : keeps timed recv_len.
Proof. unfold recv_len. keep_http1. Qed.
Lemma clocked_bytes : keeps timed recv_bytes.
Proof. unfold recv_bytes. keep_http1. Qed.
Lemma clocked_drain n : keeps timed (drain_recv n).
Proof.
  apply keeps_get_look. intros c. destruct (Buf.with_mut_slice _ _) as [b1| |] eqn:H1; [|reflexivity..]. erewrite M_step_lift by reflexivity.
  destruct (Buf.blen b1) as [l| |]; [|reflexivity..]. erewrite M_step_lift by reflexivity. destruct (usub l n) as [l'| |]; [|reflexivity..]. erewrite M_step_lift by reflexivity.
  destruct (Buf.truncate l' b1) as [b2| |] eqn:H2; [|reflexivity..]. erewrite M_step_lift by reflexivity.
  apply seen_input. apply shape_with_mut in H1. apply shape_truncate in H2. congruence.
Qed.
Lemma clocked_event ev : keeps timed (push_event ev).
Proof. unfold push_event. keep_http1. Qed.
Hint Resolve clocked_len clocked_bytes clocked_drain clocked_event : keeps.
Lemma clocked_slice a b : keeps timed (recv_slice a b).
Proof. unfold recv_slice. keep_http1. Qed.
Hint Resolve clocked_slice : keeps.
Lemma clocked_extend_data n : keeps timed (extend_data grant DATABUF n).
Proof. unfold extend_data. keep_http1. Qed.
Lemma clocked_kv name value : keeps timed (store_header_kv grant HDRBUF name value).
Proof. unfold store_header_kv. keep_http1. intros c. unfold timed. by case_match. Qed.
Hint Resolve clocked_extend_data clocked_kv : keeps.
Lemma clocked_store m p : keeps timed (store_header grant HDRBUF m p).
Proof. unfold store_header. keep_http1. Qed.
Hint Resolve clocked_store : keeps.
Lemma clocked_parse fuel : ∀ a e f, keeps timed (parse_headers grant HDRBUF fuel a e f).
Proof. induction fuel as [|fuel IH]; intros a e f; cbn [parse_headers]; keep_http1. Qed.
Lemma clocked_start e : keeps timed (parse_start grant HDRBUF e).
Proof. unfold parse_start. keep_http1. Qed.
Lemma clocked_framing f : keeps timed (set_framing f).
Proof. unfold set_framing. keep_http1. Qed.
Hint Resolve clocked_parse clocked_start clocked_framing : keeps.
Lemma clocked_start_line : keeps timed (try_parse_start_line grant HDRBUF).
Proof. unfold try_parse_start_line. keep_http1. Qed.
Lemma clocked_take n : keeps timed (take_body grant DATABUF n).
Proof. unfold take_body. keep_http1. Qed.
Lemma clocked_finish : keeps timed finish_body.
Proof. unfold finish_body. keep_http1. Qed.
Lemma clocked_crlf : keeps timed at_crlf.
Proof. unfold at_crlf. keep_http1. Qed.
Hint Resolve clocked_start_line clocked_take clocked_finish clocked_crlf : keeps.
Lemma clocked_counted n : keeps timed (process_content_length_body grant DATABUF n).
Proof. unfold process_content_length_body. keep_http1. Qed.
Lemma clocked_chunked : keeps timed (process_chunked_body grant DATABUF).
Proof. unfold process_chunked_body. keep_http1. Qed.
Lemma clocked_until : keeps timed (process_until_close_body grant DATABUF).
Proof. unfold process_until_close_body. keep_http1. Qed.
Lemma clocked_next : keeps timed (next_message grant).
Proof.
  unfold next_message. apply keeps_bind; [apply _|apply keeps_get, _|intros c]. apply keeps_bind; [apply _|apply keeps_lift, _|intros dl].
  case_match; [apply keeps_ret, _|]. apply keeps_bind; [apply _|by apply clocked_modify|intros _]. apply keeps_get_look. intros c1.
  destruct (Buf.shrink_to grant SHRINK_RETAIN (header_buf c1)) as [hb| |]; [|reflexivity..]. erewrite M_step_lift by reflexivity. erewrite M_step_ok by reflexivity.
  destruct (Buf.shrink_to grant SHRINK_RETAIN (data_buf c1)) as [db| |]; [|reflexivity..]. erewrite M_step_lift by reflexivity. erewrite M_step_ok by reflexivity.
  destruct (Buf.shrink_to grant SHRINK_RETAIN (recv_buf c1)) as [rb| |] eqn:Hr; [|reflexivity..]. erewrite M_step_lift by reflexivity. erewrite M_step_ok by reflexivity.
  apply shape_shrink_to in Hr. unfold timed, seen. cbn. by rewrite Hr.
Qed.
Hint Resolve clocked_counted clocked_chunked clocked_until clocked_next : keeps.
Lemma clocked_step : keeps timed (recv_step grant HDRBUF DATABUF).
Proof. unfold recv_step. keep_http1. Qed.
Hint Resolve clocked_step : keeps.
Lemma clocked_loop fuel : keeps timed (recv_loop grant HDRBUF DATABUF fuel).
Proof. induction fuel as [|fuel IH]; cbn [recv_loop]; keep_http1. Qed.
Hint Resolve clocked_loop : keeps.
Lemma clocked_feed data : keeps timed (feed_data grant HDRBUF DATABUF BUF data).
Proof.
  unfold feed_data, process_recv. keep_http1.
  - intros c. unfold timed. pose proof (shape_buf_try_reserve BUF grant (len data) (recv_buf c)) as Hs. destruct (Buf.buf_try_reserve _ _ _ _). by apply seen_input.
  - intros c. unfold timed. destruct (Buf.extend_from_slice _ _ _ _) as [b'| |] eqn:Hb; [|done..]. apply seen_input. by eapply shape_extend.
Qed.

End http1.
End Http1Idle.

(** ** Connections of the trait *)
Module Idle.
Import HttpServer.

Abbreviation timing_of := (TimeoutConfig * Z * bool)%type.

(** A deadline, where there is one, has come. *)
Definition overdue (now : Z) (deadline : option Z) : bool :=
  match deadline with Some d => d <=? now | None => false end.

(** What a server relies on: the clock of a connection moves when something
    arrives from the peer, and only then; and a tick closes a connection that is
    behind its idle deadline or its header deadline, and no other. *)
Class IdleClock {S : Type} (conn : HttpServerConn S) := {
  clock : S → timing_of;
  header_deadline : S → option Z;
  clock_empty now : keeps (λ s s', clock s' = clock s) (tcp_feed_data [] now);
  clock_received data now s s' : data ≠ [] → tcp_feed_data data now s = (Ok tt, s') →
    clock s' = ((clock s).1.1, now, (clock s).2);
  clock_expired now s s' us : idle_timeout_us (clock s).1.1 = Some us → (clock s).2 = false →
    sat_add64 (clock s).1.2 us ≤ now ∨ overdue now (header_deadline s) = true →
    handle_timeout now s = (Ok tt, s') → is_closed s' = true;
  clock_running now s us : idle_timeout_us (clock s).1.1 = Some us → (clock s).2 = false →
    now < sat_add64 (clock s).1.2 us → overdue now (header_deadline s) = false → is_closed (handle_timeout now s).2 = is_closed s
}.

(** The server drives a connection on without new data, as it does while the
    application has not made room. *)
Fixpoint redrive {S : Type} {conn : HttpServerConn S} (times : list Z) (s : S) : S :=
  match times with [] => s | now :: times => redrive times (tcp_feed_data [] now s).2 end.

Lemma redrive_clock {S} (conn : HttpServerConn S) {C : IdleClock conn} times : ∀ s, clock (redrive times s) = clock s.
Proof. induction times as [|now times IH]; intros s; [done|]. cbn. rewrite IH. apply clock_empty. Qed.

(** A connection from which nothing has come for the idle timeout is closed at the
    next tick, however often it is driven on, and so is one whose header fields are
    overdue; one that has received something within the idle timeout, and whose
    header fields are complete or not yet due, is not. *)
Definition reaps_idle {S} (conn : HttpServerConn S) (clock : S → timing_of) (header_deadline : S → option Z) : Prop := ∀ s times us,
  idle_timeout_us (clock s).1.1 = Some us → (clock s).2 = false →
  (∀ now s', sat_add64 (clock s).1.2 us ≤ now ∨ overdue now (header_deadline (redrive times s)) = true →
     handle_timeout now (redrive times s) = (Ok tt, s') → is_closed s' = true) ∧
  (∀ data t s1 now, data ≠ [] → tcp_feed_data data t s = (Ok tt, s1) →
     now < sat_add64 t us → overdue now (header_deadline (redrive times s1)) = false →
     is_closed (handle_timeout now (redrive times s1)).2 = is_closed (redrive times s1)).

Lemma clock_reaps {S} (conn : HttpServerConn S) (C : IdleClock conn) : reaps_idle conn clock header_deadline.
Proof.
  intros s times us Hus Hq. split.
  - intros now s' Hle Ht. eapply clock_expired; [..|exact Ht]; rewrite ?redrive_clock; done.
  - intros data t s1 now Hd Hf Hlt Hh. pose proof (clock_received _ _ _ _ Hd Hf) as Hc.
    eapply clock_running; rewrite ?redrive_clock, ?Hc; done.
Qed.

(** *** Stacks over TLS *)
Section stack.
Context {L : Type} `{Stack.Buffers L} `{Platform} `{Primitives} (grant : Z → bool) (BUF : Z).
Context (tm : L → timing_of).
Hypothesis Hlend : ∀ r s c, tm (Stack.lend r s c) = tm c.

Lemma on_http_timing {A} (m : M Error L A) s : (∀ c, tm (m c).2 = tm c) → tm (Stack.http (Stack.on_http m s).2) = tm (Stack.http s).
Proof. intros Hm. unfold Stack.on_http. destruct (m _) as [r h] eqn:Hr. cbn. specialize (Hm (Stack.lend (TcpTls.recv_buf (Stack.tls s)) (TcpTls.app_send_buf (Stack.tls s)) (Stack.http s))). rewrite Hr, Hlend in Hm. done. Qed.
Lemma on_tls_timing {A} (m : M Error TcpTls.t A) (s : Stack.t L) : tm (Stack.http (Stack.on_tls m s).2) = tm (Stack.http s).
Proof. unfold Stack.on_tls. by destruct (m _). Qed.
Lemma when_received_timing (m : M Error (Stack.t L) unit) s : (∀ s, tm (Stack.http (m s).2) = tm (Stack.http s)) →
  tm (Stack.http (Stack.when_received m s).2) = tm (Stack.http s).
Proof.
  intros Hm. unfold Stack.when_received. erewrite M_step_ok by reflexivity. destruct (Buf.blen _) as [n| |]; [|done..].
  erewrite M_step_lift by reflexivity. case_match; [done|apply Hm].
Qed.

Lemma feed_noting_timing note feed data now (s : Stack.t L) :
  (∀ c, tm (note c) = ((tm c).1.1, now, (tm c).2)) → (∀ c, tm (feed c).2 = tm c) →
  (data = [] → tm (Stack.http (Stack.feed_noting grant BUF note feed data s).2) = tm (Stack.http s)) ∧
  (data ≠ [] → ∀ s', Stack.feed_noting grant BUF note feed data s = (Ok tt, s') →
     tm (Stack.http s') = ((tm (Stack.http s)).1.1, now, (tm (Stack.http s)).2)).
Proof.
  intros Hn Hf. unfold Stack.feed_noting. pose proof (on_tls_timing (TcpTls.feed_data BUF grant data) s) as Ht.
  unfold mbind at 1, M_bind at 1. unfold mbind at 2, M_bind at 2. destruct (Stack.on_tls _ s) as [[[]|err|] s1]; cbn [snd] in Ht; [|done..].
  split.
  - intros ->. cbn [length]. erewrite M_step_ok by reflexivity. rewrite when_received_timing; [done|]. intros s2. by apply on_http_timing.
  - intros Hd s' Hr. rewrite (proj2 (Z.eqb_neq _ 0)) in Hr by (destruct data; [done|cbn; lia]). erewrite M_step_ok in Hr by reflexivity.
    pose proof (when_received_timing (Stack.on_http feed) (Stack.Mk (Stack.tls s1) (note (Stack.http s1)))) as Hw. rewrite Hr in Hw. cbn in Hw.
    rewrite Hw by (intros s2; by apply on_http_timing). rewrite Hn, Ht. done.
Qed.

End stack.

Section instances.
Context `{Platform} `{Primitives} (grant : Z → bool) (BUF MAX_STREAMS HDRBUF DATABUF : Z).

Lemma h2_headers_late now c : negb (H2.headers_phase_complete c) &&
  match header_timeout_us (H2.timeout_config c) with Some hdr_us => sat_add64 (H2.connection_start c) hdr_us <=? now | None => false end =
  overdue now (H2Idle.headers_due c).
Proof. unfold H2Idle.headers_due. destruct (H2.headers_phase_complete c); [done|]. by destruct (header_timeout_us _). Qed.
Lemma h2_expired now c c' us : idle_timeout_us (H2.timeout_config c) = Some us → H2.sent_since_tick c = false →
  sat_add64 (H2.last_activity c) us ≤ now ∨ overdue now (H2Idle.headers_due c) = true → H2.handle_timeout grant BUF now c = (Ok tt, c') → H2.is_closed c' = true.
Proof.
  intros Hus Hq Hle Hr. unfold H2.handle_timeout in Hr. erewrite M_step_ok in Hr by reflexivity.
  case_bool_decide as Hst; [injection Hr as <-; unfold H2.is_closed; by rewrite Hst|].
  erewrite M_step_ok in Hr by reflexivity. rewrite Hq in Hr. erewrite M_step_ok in Hr by reflexivity.
  assert (∀ c1, H2.time_out grant BUF c1 = (Ok tt, c') → H2.is_closed c' = true) as Hto.
  { intros c1. unfold H2.time_out, mbind, M_bind. destruct (H2.ignore _ c1) as [[] c2]; [|done..]. by intros [= <-]. }
  cbv zeta in Hr. cbn in Hr. rewrite Hus in Hr. rewrite h2_headers_late in Hr. destruct (overdue _ _) in Hr, Hle; [by eapply Hto|].
  destruct Hle as [Hle|]; [|done]. rewrite (proj2 (Z.leb_le _ _)) in Hr by lia. by eapply Hto.
Qed.
Lemma h2_running now c us : idle_timeout_us (H2.timeout_config c) = Some us → H2.sent_since_tick c = false →
  now < sat_add64 (H2.last_activity c) us → overdue now (H2Idle.headers_due c) = false →
  H2.is_closed (H2.handle_timeout grant BUF now c).2 = H2.is_closed c.
Proof.
  intros Hus Hq Hlt Hh. unfold H2.handle_timeout. erewrite M_step_ok by reflexivity. case_bool_decide; [done|].
  erewrite M_step_ok by reflexivity. rewrite Hq. erewrite M_step_ok by reflexivity. cbv zeta. cbn. rewrite h2_headers_late, Hh, Hus.
  rewrite (proj2 (Z.leb_gt _ _)) by lia. done.
Qed.

Lemma h2_lend r s c : H2Idle.timing (Stack.lend r s c) = H2Idle.timing c.
Proof. reflexivity. Qed.

Lemma h2_tls_feed data now s :
  (data = [] → H2Idle.timing (Stack.http (H2Tls.feed_data_timed grant BUF MAX_STREAMS HDRBUF DATABUF data now s).2) = H2Idle.timing (Stack.http s)) ∧
  (data ≠ [] → ∀ s', H2Tls.feed_data_timed grant BUF MAX_STREAMS HDRBUF DATABUF data now s = (Ok tt, s') →
     H2Idle.timing (Stack.http s') = ((H2Idle.timing (Stack.http s)).1.1, now, (H2Idle.timing (Stack.http s)).2)).
Proof.
  unfold H2Tls.feed_data_timed. apply (feed_noting_timing grant BUF H2Idle.timing h2_lend); [done|].
  intros c. unfold H2.feed_data_timed. change (len (@nil Z) =? 0) with true. erewrite M_step_ok by reflexivity.
  exact (H2Idle.timed_timing _ _ (H2Idle.timed_feed grant MAX_STREAMS HDRBUF DATABUF BUF [] c)).
Qed.

Global Instance h2_tls_clock : IdleClock (H2Tls.server_conn grant BUF MAX_STREAMS HDRBUF DATABUF).
Proof.
  refine {| clock := λ s, H2Idle.timing (Stack.http s); header_deadline := λ s, H2Idle.headers_due (Stack.http s) |}.
  - intros now s. by apply (h2_tls_feed [] now s).
  - intros data now s s' Hd Hr. by apply (h2_tls_feed data now s).
  - intros now s s' us Hus Hq Hle Hr. cbn in *. unfold H2Tls.handle_timeout, Stack.on_http in Hr. destruct (H2.handle_timeout _ _ _ _) as [r c'] eqn:Ht.
    injection Hr as -> <-. unfold H2Tls.is_closed. cbn. apply orb_true_intro. right. eapply h2_expired; [| | |exact Ht]; done.
  - intros now s us Hus Hq Hlt Hh. cbn in *. unfold H2Tls.handle_timeout, Stack.on_http.
    pose proof (h2_running now (Stack.lend (TcpTls.recv_buf (Stack.tls s)) (TcpTls.app_send_buf (Stack.tls s)) (Stack.http s)) us Hus Hq Hlt Hh) as Hc.
    destruct (H2.handle_timeout _ _ _ _) as [r c']. cbn in *. unfold H2Tls.is_closed. cbn. rewrite Hc. done.
Defined.

(** *** HTTP/1.1 *)
Lemma http1_headers_late now c : negb (Http1.headers_phase_complete c) &&
  match header_timeout_us (Http1.timeout_config c) with Some hdr_us => sat_add64 (Http1.connection_start c) hdr_us <=? now | None => false end =
  overdue now (Http1Idle.headers_due c).
Proof. unfold Http1Idle.headers_due. destruct (Http1.headers_phase_complete c); [done|]. by destruct (header_timeout_us _). Qed.
Lemma http1_expired now c c' us : idle_timeout_us (Http1.timeout_config c) = Some us → Http1.sent_since_tick c = false →
  sat_add64 (Http1.last_activity c) us ≤ now ∨ overdue now (Http1Idle.headers_due c) = true → Http1.handle_timeout now c = (Ok tt, c') → Http1.is_closed c' = true.
Proof.
  intros Hus Hq Hle Hr. unfold Http1.handle_timeout in Hr. erewrite M_step_ok in Hr by reflexivity.
  destruct (Http1.closed c) eqn:Hc; [by injection Hr as <-|].
  erewrite M_step_ok in Hr by reflexivity. rewrite Hq in Hr. erewrite M_step_ok in Hr by reflexivity.
  assert (∀ c1, Http1.time_out c1 = (Ok tt, c') → Http1.is_closed c' = true) as Hto by (by intros c1 [= <-]).
  cbv zeta in Hr. cbn in Hr. rewrite Hus in Hr. rewrite http1_headers_late in Hr. destruct (overdue _ _) in Hr, Hle; [by eapply Hto|].
  destruct Hle as [Hle|]; [|done]. rewrite (proj2 (Z.leb_le _ _)) in Hr by lia. by eapply Hto.
Qed.
Lemma http1_running now c us : idle_timeout_us (Http1.timeout_config c) = Some us → Http1.sent_since_tick c = false →
  now < sat_add64 (Http1.last_activity c) us → overdue now (Http1Idle.headers_due c) = false →
  Http1.is_closed (Http1.handle_timeout now c).2 = Http1.is_closed c.
Proof.
  intros Hus Hq Hlt Hh. unfold Http1.handle_timeout. erewrite M_step_ok by reflexivity. destruct (Http1.closed c); [done|].
  erewrite M_step_ok by reflexivity. rewrite Hq. erewrite M_step_ok by reflexivity. cbv zeta. cbn. rewrite http1_headers_late, Hh, Hus.
  rewrite (proj2 (Z.leb_gt _ _)) by lia. done.
Qed.
Lemma http1_lend r s c : Http1Idle.timing (Stack.lend r s c) = Http1Idle.timing c.
Proof. reflexivity. Qed.

Lemma https1_feed data now s :
  (data = [] → Http1Idle.timing (Stack.http (Https1.feed_data_timed grant BUF HDRBUF DATABUF data now s).2) = Http1Idle.timing (Stack.http s)) ∧
  (data ≠ [] → ∀ s', Https1.feed_data_timed grant BUF HDRBUF DATABUF data now s = (Ok tt, s') →
     Http1Idle.timing (Stack.http s') = ((Http1Idle.timing (Stack.http s)).1.1, now, (Http1Idle.timing (Stack.http s)).2)).
Proof.
  unfold Https1.feed_data_timed. apply (feed_noting_timing grant BUF Http1Idle.timing http1_lend); [done|].
  intros c. unfold Http1.feed_data_timed. change (len (@nil Z) =? 0) with true. erewrite M_step_ok by reflexivity.
  exact (Http1Idle.clocked_timing _ _ (Http1Idle.clocked_feed grant HDRBUF DATABUF BUF [] c)).
Qed.

Global Instance https1_clock : IdleClock (Https1.server_conn grant BUF HDRBUF DATABUF).
Proof.
  refine {| clock := λ s, Http1Idle.timing (Stack.http s); header_deadline := λ s, Http1Idle.headers_due (Stack.http s) |}.
  - intros now s. by apply (https1_feed [] now s).
  - intros data now s s' Hd Hr. by apply (https1_feed data now s).
  - intros now s s' us Hus Hq Hle Hr. cbn in *. unfold Https1.handle_timeout, Stack.on_http in Hr. destruct (Http1.handle_timeout _ _) as [r c'] eqn:Ht.
    injection Hr as -> <-. unfold Https1.is_closed. cbn. apply orb_true_intro. right. eapply http1_expired; [| | |exact Ht]; done.
  - intros now s us Hus Hq Hlt Hh. cbn in *. unfold Https1.handle_timeout, Stack.on_http.
    pose proof (http1_running now (Stack.lend (TcpTls.recv_buf (Stack.tls s)) (TcpTls.app_send_buf (Stack.tls s)) (Stack.http s)) us Hus Hq Hlt Hh) as Hc.
    destruct (Http1.handle_timeout _ _) as [r c']. cbn in *. unfold Https1.is_closed. cbn. rewrite Hc. done.
Defined.

Global Instance http1_clock : IdleClock (http1_server_conn grant HDRBUF DATABUF BUF).
Proof.
  refine {| clock := Http1Idle.timing; header_deadline := Http1Idle.headers_due |}.
  - intros now c. cbn [tcp_feed_data http1_server_conn]. unfold Http1.feed_data_timed. change (len (@nil Z) =? 0) with true.
    erewrite M_step_ok by reflexivity. exact (Http1Idle.clocked_timing _ _ (Http1Idle.clocked_feed grant HDRBUF DATABUF BUF [] c)).
  - intros data now c c' Hd Hr. cbn [tcp_feed_data http1_server_conn] in Hr. unfold Http1.feed_data_timed in Hr.
    rewrite (proj2 (Z.eqb_neq _ 0)) in Hr by (destruct data; [done|cbn; lia]). erewrite M_step_ok in Hr by reflexivity.
    pose proof (Http1Idle.clocked_timing _ _ (Http1Idle.clocked_feed grant HDRBUF DATABUF BUF data (c <| Http1.last_activity := now |>))) as Hf. rewrite Hr in Hf. exact Hf.
  - intros now c c' us Hus Hq Hle Hr. eapply http1_expired; [| | |exact Hr]; done.
  - intros now c us Hus Hq Hlt Hh. by eapply http1_running.
Defined.


End instances.
(** *** A connection with the timeouts a server has by default *)
Section witness.
#[local] Existing Instance platform64.
#[local] Existing Instance Toy.toy.

Definition demo_conn : Http1.t :=
  Http1.set_timeouts {| idle_timeout_us := Some 60000000; header_timeout_us := Some 10000000 |} 0 (Http1.new Http1.Server).
(** The peer has sent the first bytes of a request after one second. *)
Definition demo_fed : Http1.t := (Http1.feed_data_timed (λ _, true) 2048 4096 4096 [71; 69; 84] 1000000 demo_conn).2.


End witness.
End Idle.
