(* ===== verification/AltSvc.v ===== *)
(** * Alt-Svc: [src/discovery/alt_svc.rs]

    The value of the [Alt-Svc] header field, formatted into the caller's buffer. *)
From stdpp Require Import strings.
From S2P Require Import Prelude Errors.

Module AltSvc.

(** ** The formatter *)

Definition MAX_U32_DIGITS : nat := 10.

(** [while val > 0 { tmp[len] = ..; val /= 10; len += 1 }], least significant digit first;
    an eleventh digit would be stored out of [tmp]. *)
Fixpoint digits (room : nat) (val : Z) : result (list Z) :=
  if val =? 0 then Ok [] else
  match room with
  | O => Panic
  | S room => d ← uadd 8 48 (val mod 10); ds ← digits room (val / 10); Ok (d :: ds)
  end.

(** [for i in 0..len { if i >= buf.len() { return i } buf[i] = .. }]. *)
Fixpoint put_digits (ds : list Z) (i : Z) : M Error (list Z) Z :=
  match ds with
  | [] => mret i
  | d :: ds =>
      buf ← get;
      if len buf <=? i then mret i else
      _ ← store i d;
      put_digits ds (i + 1)
  end.

Definition fmt_u32 (val : Z) : M Error (list Z) Z :=
  if val =? 0 then
    buf ← get;
    if len buf =? 0 then mret 0 else
    _ ← store 0 48;
    mret 1
  else
    tmp ← lift (digits MAX_U32_DIGITS val);
    put_digits (rev tmp) 0.

(** A call on [&mut buf[pos..]]. *)
Definition in_rest (pos : Z) (f : M Error (list Z) Z) : M Error (list Z) Z := λ buf,
  if decide (0 ≤ pos ≤ len buf) then
    let '(r, rest) := f (drop (Z.to_nat pos) buf) in (r, take (Z.to_nat pos) buf ++ rest)
  else (Panic, buf).

Definition write_bytes (pos : Z) (src : list Z) : M Error (list Z) Z :=
  let end_ := pos + len src in
  buf ← get;
  if len buf <? end_ then throw (BufferTooSmall end_) else
  buf ← lift (copy_at buf pos end_ src);
  _ ← put buf;
  mret end_.

Fixpoint digit_count (fuel : nat) (n count : Z) : result Z :=
  if n =? 0 then Ok count else
  match fuel with O => Panic | S fuel => digit_count fuel (n / 10) (count + 1) end.
(** A [u32] has at most ten digits. *)
Definition digit_count_u32 (val : Z) : result Z := if val =? 0 then Ok 1 else digit_count 10 val 0.

Definition header_len (port max_age_secs : Z) : result Z :=
  port_digits ← digit_count_u32 port;
  ma_digits ← digit_count_u32 max_age_secs;
  Ok (5 + port_digits + 6 + ma_digits).

Definition header_with_host_len (host : list Z) (port max_age_secs : Z) : result Z :=
  port_digits ← digit_count_u32 port;
  ma_digits ← digit_count_u32 max_age_secs;
  Ok (4 + len host + 1 + port_digits + 6 + ma_digits).

(** The literals, with the quote as a byte. *)
Definition QUOTE : Z := 34.
Definition MAX_AGE : list Z := QUOTE :: bytes "; ma=".

Definition alt_svc_header (port max_age_secs : Z) : M Error (list Z) Z :=
  needed ← lift (header_len port max_age_secs);
  buf ← get;
  if len buf <? needed then throw (BufferTooSmall needed) else
  pos ← write_bytes 0 (bytes "h3=" ++ [QUOTE] ++ bytes ":");
  n ← in_rest pos (fmt_u32 port);
  pos ← write_bytes (pos + n) MAX_AGE;
  n ← in_rest pos (fmt_u32 max_age_secs);
  mret (pos + n).

Definition alt_svc_clear : M Error (list Z) Z :=
  let clear := bytes "clear" in
  buf ← get;
  if len buf <? len clear then throw (BufferTooSmall (len clear)) else
  buf ← lift (copy_at buf 0 (len clear) clear);
  _ ← put buf;
  mret (len clear).

Definition alt_svc_header_with_host (host : list Z) (port max_age_secs : Z) : M Error (list Z) Z :=
  needed ← lift (header_with_host_len host port max_age_secs);
  buf ← get;
  if len buf <? needed then throw (BufferTooSmall needed) else
  pos ← write_bytes 0 (bytes "h3=" ++ [QUOTE]);
  pos ← write_bytes pos host;
  pos ← write_bytes pos (bytes ":");
  n ← in_rest pos (fmt_u32 port);
  pos ← write_bytes (pos + n) MAX_AGE;
  n ← in_rest pos (fmt_u32 max_age_secs);
  mret (pos + n).

(** ** Decimal numbers *)

Definition value (ds : list Z) : Z := foldl (λ n d, 10 * n + (d - 48)) 0 ds.

(** The decimal numeral of [n]: digits without a leading zero. *)
Definition numeral (n : Z) (ds : list Z) : Prop :=
  value ds = n ∧ ds ≠ [] ∧ Forall (λ d, 48 ≤ d ≤ 57) ds ∧ (head ds = Some 48 → ds = [48]).

Lemma value_snoc ds d : value (ds ++ [d]) = 10 * value ds + (d - 48).
Proof. unfold value. by rewrite foldl_app. Qed.

Lemma digits_ok room : ∀ n, 0 < n < 10 ^ Z.of_nat room →
  ∃ ds, digits room n = Ok ds ∧ numeral n (rev ds) ∧ head (rev ds) ≠ Some 48 ∧ ∀ fuel count, (room ≤ fuel)%nat → digit_count fuel n count = Ok (count + len ds).
Proof.
  induction room as [|room IH]; intros n Hn; [cbn in Hn; lia|]. cbn [digits]. rewrite (proj2 (Z.eqb_neq _ 0)) by lia.
  pose proof (Z.mod_pos_bound n 10 ltac:(lia)) as Hm. rewrite uadd_ok by lia. cbn [mbind res_bind].
  assert (n / 10 < 10 ^ Z.of_nat room) as Hd.
  { apply Z.div_lt_upper_bound; [lia|]. rewrite Nat2Z.inj_succ, Z.pow_succ_r in Hn by lia. lia. }
  pose proof (Z.div_mod n 10 ltac:(lia)) as Hdm. pose proof (Z.div_pos n 10 ltac:(lia) ltac:(lia)) as Hdp.
  destruct (Z.eq_dec (n / 10) 0) as [Hz|Hz].
  - rewrite Hz. exists [48 + n mod 10]. split; [destruct room; done|]. cbn. split; [|split].
    + unfold numeral, value. cbn. split_and!; [lia|done|by repeat constructor; lia|]. intros [= ?]. f_equal; lia.
    + intros [= ?]. lia.
    + intros fuel count Hf. destruct fuel as [|fuel]; [lia|]. cbn. rewrite (proj2 (Z.eqb_neq _ 0)) by lia. rewrite Hz. by destruct fuel.
  - destruct (IH (n / 10) ltac:(lia)) as (ds & -> & (Hv & Hne & Hdig & _) & Hh & Hcount). cbn [mbind res_bind].
    exists (48 + n mod 10 :: ds). split; [done|]. cbn [rev]. split; [|split].
    + assert (head (rev ds ++ [48 + n mod 10]) = head (rev ds)) as Hhead by (by destruct (rev ds)).
      unfold numeral. rewrite value_snoc, Hv, Hhead. split_and!; [lia|by destruct (rev ds)| |done]. apply Forall_app. split; [done|]. repeat constructor; lia.
    + by destruct (rev ds).
    + intros fuel count Hf. destruct fuel as [|fuel]; [lia|]. cbn [digit_count]. rewrite (proj2 (Z.eqb_neq n 0)) by lia.
      rewrite Hcount by lia. f_equal. cbn [length]. lia.
Qed.

(** The digits behind a prefix that has been written. *)
Lemma put_digits_ok ds : ∀ done rest, (length ds ≤ length rest)%nat →
  put_digits ds (len done) (done ++ rest) = (Ok (len done + len ds), done ++ ds ++ drop (length ds) rest).
Proof.
  induction ds as [|d ds IH]; intros done rest Hl; cbn [put_digits]; [cbn; by rewrite Z.add_0_r|].
  destruct rest as [|x rest]; [cbn in Hl; lia|]. erewrite M_step_ok by reflexivity. rewrite (proj2 (Z.leb_gt _ _)) by len_lia.
  erewrite M_step_ok by (unfold store; rewrite set_middle by done; reflexivity).
  replace (len done + 1) with (len (done ++ [d])) by len_lia. change (d :: rest) with ([d] ++ rest). rewrite app_assoc.
  rewrite IH by (cbn in Hl; lia). rewrite <- !app_assoc. cbn [app drop length]. f_equal. f_equal. len_lia.
Qed.

Lemma fmt_u32_ok n : 0 ≤ n < 2 ^ 32 → ∃ ds, numeral n ds ∧ digit_count_u32 n = Ok (len ds) ∧
  ∀ buf, len ds ≤ len buf → fmt_u32 n buf = (Ok (len ds), ds ++ drop (length ds) buf).
Proof.
  intros Hn. unfold fmt_u32, digit_count_u32. destruct (Z.eqb_spec n 0) as [->|Hz].
  - exists [48]. split; [unfold numeral; cbn; split_and!; [done|done|by repeat constructor; lia|done]|]. split; [done|].
    intros [|x buf] Hl; [cbn in Hl; lia|]. erewrite M_step_ok by reflexivity. done.
  - destruct (digits_ok MAX_U32_DIGITS n) as (ds & Hds & Hnum & _ & Hcount); [change (10 ^ Z.of_nat MAX_U32_DIGITS) with 10000000000; lia|].
    exists (rev ds). split; [done|]. split; [rewrite Hcount by done; by rewrite length_rev|].
    intros buf Hl. rewrite Hds. erewrite M_step_lift by reflexivity. apply (put_digits_ok (rev ds) [] buf). lia.
Qed.

(** ** Writing *)

Lemma write_bytes_ok src done rest : len src ≤ len rest →
  write_bytes (len done) src (done ++ rest) = (Ok (len (done ++ src)), (done ++ src) ++ drop (length src) rest).
Proof.
  intros Hl. unfold write_bytes. erewrite M_step_ok by reflexivity. rewrite (proj2 (Z.ltb_ge _ _)) by len_lia.
  rewrite copy_at_eq by len_lia. erewrite M_step_lift by reflexivity. erewrite M_step_ok by reflexivity.
  replace (Z.to_nat (len done + len src)) with (length done + length src)%nat by lia. rewrite drop_app_add, Nat2Z.id, take_app_length, app_assoc.
  by rewrite length_app, Nat2Z.inj_add.
Qed.

Lemma in_rest_ok f ds done rest : f rest = (Ok (len ds), ds ++ drop (length ds) rest) →
  in_rest (len done) f (done ++ rest) = (Ok (len ds), (done ++ ds) ++ drop (length ds) rest).
Proof.
  intros Hf. unfold in_rest. rewrite decide_True by len_lia. rewrite Nat2Z.id, drop_app_length, take_app_length, Hf. by rewrite app_assoc.
Qed.

(** The field value a browser reads. *)
Definition field (authority port age : list Z) : list Z := bytes "h3=" ++ [QUOTE] ++ authority ++ bytes ":" ++ port ++ MAX_AGE ++ age.

(** The three formatters write the value of RFC 7838 with the decimal numerals of the
    port and the age, or report the size they need. *)
Theorem alt_svc_exact host port age : 0 ≤ port < 2 ^ 16 → 0 ≤ age < 2 ^ 32 →
  ∃ p a, numeral port p ∧ numeral age a ∧ ∀ buf,
    (alt_svc_header port age buf =
       let w := field [] p a in
       if decide (len w ≤ len buf) then (Ok (len w), w ++ drop (length w) buf) else (Err (BufferTooSmall (len w)), buf)) ∧
    (alt_svc_header_with_host host port age buf =
       let w := field host p a in
       if decide (len w ≤ len buf) then (Ok (len w), w ++ drop (length w) buf) else (Err (BufferTooSmall (len w)), buf)).
Proof.
  intros Hp Ha. destruct (fmt_u32_ok port ltac:(lia)) as (p & Hnp & Hcp & Hfp). destruct (fmt_u32_ok age Ha) as (a & Hna & Hca & Hfa).
  exists p, a. split; [done|]. split; [done|]. intros buf. split.
  - unfold alt_svc_header, header_len. rewrite Hcp, Hca. cbn [mbind res_bind]. erewrite M_step_lift by reflexivity. erewrite M_step_ok by reflexivity.
    cbv zeta. set (w := field [] p a). assert (len w = 5 + len p + 6 + len a) as Lw by (unfold w, field; len_lia). rewrite <- Lw.
    destruct (decide (len w ≤ len buf)) as [Hle|Hgt]; [|by rewrite (proj2 (Z.ltb_lt _ _)) by lia]. rewrite (proj2 (Z.ltb_ge _ _)) by lia.
    set (h := bytes "h3=" ++ [QUOTE] ++ bytes ":"). assert (length h = 5%nat) as Lh by done. assert (length MAX_AGE = 6%nat) as Lm by done.
    erewrite M_step_ok by (apply (write_bytes_ok h [] buf); len_lia).
    erewrite M_step_ok by (apply in_rest_ok, Hfp; len_lia).
    rewrite <- Nat2Z.inj_add, <- length_app. erewrite M_step_ok by (apply write_bytes_ok; len_lia).
    erewrite M_step_ok by (apply in_rest_ok, Hfa; len_lia).
    rewrite <- Nat2Z.inj_add, <- length_app, !drop_drop. assert (((([] ++ h) ++ p) ++ MAX_AGE) ++ a = w) as -> by (unfold w, field, h; by rewrite <- !app_assoc).
    replace (length h + (length p + (length MAX_AGE + length a)))%nat with (length w) by lia. done.
  - unfold alt_svc_header_with_host, header_with_host_len. rewrite Hcp, Hca. cbn [mbind res_bind]. erewrite M_step_lift by reflexivity.
    erewrite M_step_ok by reflexivity. cbv zeta. set (w := field host p a). assert (len w = 4 + len host + 1 + len p + 6 + len a) as Lw by (unfold w, field; len_lia).
    rewrite <- Lw. destruct (decide (len w ≤ len buf)) as [Hle|Hgt]; [|by rewrite (proj2 (Z.ltb_lt _ _)) by lia]. rewrite (proj2 (Z.ltb_ge _ _)) by lia.
    set (h := bytes "h3=" ++ [QUOTE]). assert (length h = 4%nat) as Lh by done. assert (length MAX_AGE = 6%nat) as Lm by done.
    assert (length (bytes ":") = 1%nat) as Lc by done.
    erewrite M_step_ok by (apply (write_bytes_ok h [] buf); len_lia). erewrite M_step_ok by (apply write_bytes_ok; len_lia).
    erewrite M_step_ok by (apply write_bytes_ok; len_lia). erewrite M_step_ok by (apply in_rest_ok, Hfp; len_lia).
    rewrite <- Nat2Z.inj_add, <- length_app. erewrite M_step_ok by (apply write_bytes_ok; len_lia).
    erewrite M_step_ok by (apply in_rest_ok, Hfa; len_lia).
    rewrite <- Nat2Z.inj_add, <- length_app, !drop_drop.
    assert (((((([] ++ h) ++ host) ++ bytes ":") ++ p) ++ MAX_AGE) ++ a = w) as -> by (unfold w, field, h; by rewrite <- !app_assoc).
    replace (length h + (length host + (length (bytes ":") + (length p + (length MAX_AGE + length a)))))%nat with (length w) by lia. done.
Qed.

End AltSvc.
