(* ===== verification/Server.v ===== *)
(** * The connection manager: [src/server/mod.rs]

    One event loop over connections of all protocols: accepting, feeding and polling
    of TCP connections, whose protocol is known when the TLS handshake has negotiated
    it; routing of datagrams to QUIC connections; the queue of events; timeouts; and
    the reclaim of static buffers and handshake slots.

    The build with [h3], [h2], [http1] and [alloc].  A boxed connection is one of the
    three types the manager builds.  The handshake pool, which the caller lends to
    the calls that take it, is kept next to the manager.  What a generator of random
    bytes fills is an argument. *)
From stdpp Require Import strings.
From S2P Require Import Prelude Errors Buf Http Crypto TlsParams TlsHandshake TcpTls H2Connection Http1Connection PacketHeader QuicIo QuicConn QuicRecv QuicTransmit H3Connection HttpApi.
Import HttpServer.

Module Server.

(** ** Loops over the connections

    A call on an element may also work on a state [X] that all elements share. *)
Section loops.
Context {X A B : Type}.

(** [iter_mut().find(p)] and a call on what was found. *)
Fixpoint on_first (p : A → bool) (m : M Error (X * A) B) (x : X) (l : list A) : result (option B) * (X * list A) :=
  match l with
  | [] => (Ok None, (x, []))
  | a :: l =>
      if p a then let '(r, (x, a)) := m (x, a) in (Some <$> r, (x, a :: l))
      else let '(r, (x, l)) := on_first p m x l in (r, (x, a :: l))
  end.

(** A loop that ends at the first element whose call has a result. *)
Fixpoint first_some (m : M Error (X * A) (option B)) (x : X) (l : list A) : result (option B) * (X * list A) :=
  match l with
  | [] => (Ok None, (x, []))
  | a :: l =>
      match m (x, a) with
      | (Ok None, (x, a)) => let '(r, (x, l)) := first_some m x l in (r, (x, a :: l))
      | (r, (x, a)) => (r, (x, a :: l))
      end
  end.

(** A loop over all elements: the results of their calls. *)
Fixpoint on_each (m : M Error (X * A) B) (x : X) (l : list A) : result (list B) * (X * list A) :=
  match l with
  | [] => (Ok [], (x, []))
  | a :: l =>
      match m (x, a) with
      | (Ok b, (x, a)) => let '(r, (x, l)) := on_each m x l in (cons b <$> r, (x, a :: l))
      | (Err e, (x, a)) => (Err e, (x, a :: l))
      | (Panic, (x, a)) => (Panic, (x, a :: l))
      end
  end.

(** [retain_mut]: the elements whose call has a result are removed. *)
Fixpoint retain_mut (m : M Error (X * A) (option B)) (x : X) (l : list A) : result (list B) * (X * list A) :=
  match l with
  | [] => (Ok [], (x, []))
  | a :: l =>
      match m (x, a) with
      | (Ok None, (x, a)) => let '(r, (x, l)) := retain_mut m x l in (r, (x, a :: l))
      | (Ok (Some b), (x, _)) => let '(r, (x, l)) := retain_mut m x l in (cons b <$> r, (x, l))
      | (Err e, (x, a)) => (Err e, (x, a :: l))
      | (Panic, (x, a)) => (Panic, (x, a :: l))
      end
  end.

End loops.

(** A call that shares nothing. *)
Definition alone {A B} (m : M Error A B) : M Error (unit * A) B := λ '(_, a), let '(r, a) := m a in (r, (tt, a)).

(** ** Data *)

Inductive ConnProtocol : Type := PHandshaking | PHttp1 | PH2 | PH3.

Inductive ServerEvent : Type :=
| EvHttp (conn : Z) (event : HttpEvent)
| EvConnected (conn : Z)
| EvClosed (conn : Z).

Inductive CloseReason : Type :=
| HandshakeError (e : Error)
| UnsupportedAlpn
| HttpClosed
| HandshakeTimeout
| PeerEof
| FeedError (e : Error)
| ReadError
| WriteError
| AppClose.

Definition CLOSE_REASONS_KEPT : Z := 8.

(** [Box<dyn HttpServerConn>]. *)
Inductive Http : Type :=
| OverH2 (s : Stack.t H2.t)
| OverHttps1 (s : Stack.t Http1.t)
| Cleartext (c : Http1.t).

Inductive TcpState : Type :=
| Handshaking (parts : TcpTls.t)
| Established (http : Http)
| Closed.

Record TcpConn := MkTcp {
  tcp_id : Z;
  tcp_state : TcpState;
  protocol : ConnProtocol;
  accepted_at : Z;
  recv_reserved : bool
}.
Global Instance eta_tcp_conn : Eta TcpConn := λ c,
  MkTcp (tcp_id c) (tcp_state c) (protocol c) (accepted_at c) (recv_reserved c).

(** [server] is the connection with its QUIC connection and stream buffers; [A] are
    the addresses of peers. *)
Record QuicConn {A : Type} := MkQuic {
  quic_id : Z;
  h3_part : H3.t;
  quic_part : Quic.t;
  io_part : QuicIo.t;
  peer_addr : A;
  local_cids : list Quic.ConnectionId;
  original_dcid : Quic.ConnectionId;
  created_at : Z
}.
Arguments QuicConn A : clear implicits.
Global Instance eta_quic_conn A : Eta (QuicConn A) := λ c,
  MkQuic _ (quic_id c) (h3_part c) (quic_part c) (io_part c) (peer_addr c) (local_cids c) (original_dcid c) (created_at c).

Record ServerConfig := {
  max_tcp_conns : Z;
  max_quic_conns : Z;
  max_events : Z;
  handshake_timeout_us : Z;
  http_timeouts : TimeoutConfig
}.
Definition default_config : ServerConfig := {|
  max_tcp_conns := 4;
  max_quic_conns := 8;
  max_events := 32;
  handshake_timeout_us := 10000000;
  http_timeouts := {| idle_timeout_us := Some 60000000; header_timeout_us := Some 10000000 |}
|}.

Record t {A : Type} := Mk {
  tls_config : Tls.ServerTlsConfig;
  config : ServerConfig;
  tcp_conns : list TcpConn;
  quic_conns : list (QuicConn A);
  events : list ServerEvent;
  next_id : Z;
  free_kits : list TlsBufKit;
  close_reasons : list (Z * CloseReason)
}.
Arguments t A : clear implicits.
Global Instance eta_server A : Eta (t A) := λ m,
  Mk _ (tls_config m) (config m) (tcp_conns m) (quic_conns m) (events m) (next_id m) (free_kits m) (close_reasons m).

Definition new {A} (tls_config : Tls.ServerTlsConfig) (config : ServerConfig) : t A :=
  Mk _ tls_config config [] [] [] 0 [] [].

(** The manager and the pool. *)
Record env {A : Type} := MkEnv { mgr : t A; pool : Quic.HandshakePool }.
Arguments env A : clear implicits.
Global Instance eta_server_env A : Eta (env A) := λ e, MkEnv _ (mgr e) (pool e).

(** ** Connections behind the trait *)
Section connections.
Context `{Platform} `{Primitives}.
Variable grant : Z → bool.
Variable BUF : Z.

Definition h2_conn : HttpServerConn (Stack.t H2.t) := H2Tls.server_conn grant BUF 8 2048 4096.
Definition https1_conn : HttpServerConn (Stack.t Http1.t) := Https1.server_conn grant BUF 2048 4096.
Definition http1_conn : HttpServerConn Http1.t := http1_server_conn grant 2048 4096 BUF.

(** A method of the trait, called through the box. *)
Definition over {S B} (wrap : S → Http) (m : M Error S B) (s : S) : result B * Http :=
  let '(r, s) := m s in (r, wrap s).
Definition call {B} (f : ∀ S, HttpServerConn S → M Error S B) : M Error Http B := λ h,
  match h with
  | OverH2 s => over OverH2 (f _ h2_conn) s
  | OverHttps1 s => over OverHttps1 (f _ https1_conn) s
  | Cleartext c => over Cleartext (f _ http1_conn) c
  end.
Definition ask {B} (f : ∀ S, HttpServerConn S → S → B) (h : Http) : B :=
  match h with
  | OverH2 s => f _ h2_conn s
  | OverHttps1 s => f _ https1_conn s
  | Cleartext c => f _ http1_conn c
  end.

#[local] Instance dyn_conn : HttpServerConn Http := {|
  poll_event := λ cap, call (λ S _, poll_event cap);
  recv_headers := λ sid, call (λ S _, recv_headers sid);
  recv_body := λ sid cap, call (λ S _, recv_body sid cap);
  send_response := λ sid status headers fin, call (λ S _, send_response sid status headers fin);
  send_body := λ sid data fin, call (λ S _, send_body sid data fin);
  send_capacity := λ sid, ask (λ S _, send_capacity sid);
  is_established := ask (λ S _, is_established);
  is_closed := ask (λ S _, is_closed);
  discard_body := λ sid code, call (λ S _, discard_body sid code);
  set_timeouts := λ config now h, (call (λ S _, modify (set_timeouts config now)) h).2;
  next_timeout := ask (λ S _, next_timeout);
  handle_timeout := λ now, call (λ S _, handle_timeout now);
  tcp_feed_data := λ data now, call (λ S _, tcp_feed_data data now);
  tcp_poll_output := λ cap, call (λ S _, tcp_poll_output cap);
  HttpServer.recv_blocked := ask (λ S _, HttpServer.recv_blocked);
  reclaim_buffers := call (λ S _, reclaim_buffers)
|}.

(** ** One TCP connection *)

Definition on_state {B} : M Error TcpState B → M Error TcpConn B := Quic.sub tcp_state (λ s c, c <| tcp_state := s |>).

(** A call on an established connection. *)
Definition on_http {B} (m : M Error Http B) : M Error TcpConn (option B) := λ conn,
  match tcp_state conn with
  | Established http => let '(r, http) := m http in (Some <$> r, conn <| tcp_state := Established http |>)
  | _ => (Ok None, conn)
  end.

Definition reclaim_and_close : M Error TcpState (option TlsBufKit) := λ state,
  match state with
  | Handshaking parts => let '(kit, _) := TlsParts.reclaim_buffers parts in (kit, Closed)
  | Established http => let '(kit, _) := reclaim_buffers http in (kit, Closed)
  | Closed => (Ok None, Closed)
  end.

(** The protocol and its connection, or the buffers of a connection that is not
    served. *)
Definition http_conn_for_alpn (parts : TcpTls.t) : (ConnProtocol * Http) + result (option TlsBufKit) :=
  match TlsParts.alpn parts with
  | Some alpn =>
      if decide (alpn = bytes "h2") then inl (PH2, OverH2 (H2Tls.from_parts 8 4096 parts))
      else if decide (alpn = bytes "http/1.1") then inl (PHttp1, OverHttps1 (Https1.from_parts parts))
      else inr (TlsParts.reclaim_buffers parts).1
  | None => inl (PHttp1, OverHttps1 (Https1.from_parts parts))
  end.

(** What feeding a connection came to, apart from an error of the connection. *)
Inductive Feeding : Type :=
| Fed
| Failed (e : Error) (kit : option TlsBufKit)
| Rejected (kit : option TlsBufKit)
| Upgraded.

(** The handshake is complete. *)
Definition upgrade (timeouts : TimeoutConfig) (now : Z) (parts : TcpTls.t) : M Error TcpConn Feeding := λ conn,
  match http_conn_for_alpn parts with
  | inr kit => (Rejected <$> kit, conn <| tcp_state := Closed |>)
  | inl (proto, http) =>
      let http := set_timeouts timeouts now http in
      let '(r, http) := Quic.attempt (tcp_feed_data [] now) http in
      ((λ _, Upgraded) <$> r, conn <| tcp_state := Established http |> <| protocol := proto |>)
  end.

Definition feed_conn (timeouts : TimeoutConfig) (data : list Z) (now : Z) : M Error TcpConn Feeding := λ conn,
  match tcp_state conn with
  | Handshaking parts =>
      let '(r, parts) := TcpTls.feed_data BUF grant data parts in
      let conn := conn <| tcp_state := Handshaking parts |> in
      match r with
      | Err e => (kit ← on_state reclaim_and_close; mret (Failed e kit)) conn
      | Ok _ => if TcpTls.is_active parts then upgrade timeouts now parts conn else (Ok Fed, conn)
      | Panic => (Panic, conn)
      end
  | Established http =>
      let '(r, http) := tcp_feed_data data now http in ((λ _, Fed) <$> r, conn <| tcp_state := Established http |>)
  | Closed => (Err InvalidState, conn)
  end.

Definition output_conn (cap : Z) : M Error TcpConn (option (list Z)) := λ conn,
  match tcp_state conn with
  | Handshaking parts =>
      let '(r, parts) := TcpTls.poll_output BUF grant cap parts in (r, conn <| tcp_state := Handshaking parts |>)
  | Established http =>
      let '(r, http) := tcp_poll_output cap http in (r, conn <| tcp_state := Established http |>)
  | Closed => (Ok None, conn)
  end.

(** An event of the connection, or its close with the buffers it gave back. *)
Inductive Polled : Type :=
| Event (ev : HttpEvent)
| Reclaimed (kit : option TlsBufKit).

Definition poll_conn (cap : Z) : M Error TcpConn (option (Z * Polled)) :=
  conn ← get;
  r ← on_http (poll_event cap);
  match r with
  | None => mret None
  | Some (Some ev) => mret (Some (tcp_id conn, Event ev))
  | Some None =>
      conn ← get;
      match tcp_state conn with
      | Established http =>
          if is_closed http then kit ← on_state reclaim_and_close; mret (Some (tcp_id conn, Reclaimed kit)) else mret None
      | _ => mret None
      end
  end.

(** [Some] of the buffers when the handshake has timed out.  [handle_timeout] has no
    error to report. *)
Definition tick_conn (timeout now : Z) : M Error TcpConn (option (Z * option TlsBufKit)) :=
  conn ← get;
  match tcp_state conn with
  | Handshaking _ =>
      if sat_add64 (accepted_at conn) timeout <=? now
      then kit ← on_state reclaim_and_close; mret (Some (tcp_id conn, kit))
      else mret None
  | Established _ => _ ← Quic.attempt (on_http (handle_timeout now)); mret None
  | Closed => mret None
  end.

(** [while let Some(ev) = http.poll_event(..)]: every round takes a queued event; HTTP/1.1
    announces itself first. *)
Definition queued (h : Http) : nat :=
  match h with
  | OverH2 s => length (H2.events (Stack.http s))
  | OverHttps1 s => S (length (Http1.events (Stack.http s)))
  | Cleartext c => S (length (Http1.events c))
  end.
Fixpoint drain_events (fuel : nat) : M Error Http (list HttpEvent) :=
  ev ← poll_event 128;
  match ev with
  | None => mret []
  | Some ev =>
      match fuel with
      | O => lift Panic
      | S fuel => l ← drain_events fuel; mret (ev :: l)
      end
  end.

(** The events that were left and the buffers, unless the connection is closed. *)
Definition eof_conn : M Error TcpConn (option (list HttpEvent * option TlsBufKit)) :=
  conn ← get;
  match tcp_state conn with
  | Closed => mret None
  | Handshaking _ => kit ← on_state reclaim_and_close; mret (Some ([], kit))
  | Established http =>
      evs ← on_http (drain_events (queued http));
      kit ← on_state reclaim_and_close;
      mret (Some (default [] evs, kit))
  end.

Definition close_conn : M Error TcpConn (option (option TlsBufKit)) :=
  conn ← get;
  match tcp_state conn with
  | Closed => mret None
  | _ => kit ← on_state reclaim_and_close; mret (Some kit)
  end.

End connections.

(** ** The manager *)
Section manager.
Context {A : Type} `{H3.Params} `{Platform} `{Primitives}.
Variable grant : Z → bool.
Variable BUF : Z.
Implicit Types m : t A.
#[local] Instance dyn : HttpServerConn Http := dyn_conn grant BUF.
#[local] Existing Instances H3.quic_params Quic.caps.

(** *** Parts of the state *)
Definition on_mgr {B} : M Error (t A) B → M Error (env A) B := Quic.sub mgr (λ m e, e <| mgr := m |>).
Definition on_pool {B} : M Error Quic.HandshakePool B → M Error (env A) B := Quic.sub pool (λ p e, e <| pool := p |>).
Definition on_tcp {B} (f : list TcpConn → result B * (unit * list TcpConn)) : M Error (t A) B := λ m,
  let '(r, (_, l)) := f (tcp_conns m) in (r, m <| tcp_conns := l |>).

(** The QUIC connections share the pool and the buffer of the call. *)
Abbreviation shared := (Quic.HandshakePool * list Z)%type.
Definition on_quic {B} (mem : list Z) (f : shared → list (QuicConn A) → result B * (shared * list (QuicConn A))) : M Error (env A) B := λ e,
  let '(r, (x, l)) := f (pool e, mem) (quic_conns (mgr e)) in
  (r, MkEnv _ ((mgr e) <| quic_conns := l |>) x.1).

Definition on_h3 {B} (f : M Error H3.env B) : M Error (shared * QuicConn A) B := λ '((p, mem), q),
  let '(r, e) := f (H3.MkEnv (h3_part q) (Quic.MkEnv (quic_part q) (io_part q) p mem)) in
  (r, ((Quic.pool (H3.quic e), Quic.mem (H3.quic e)),
       q <| h3_part := H3.h3 e |> <| quic_part := Quic.conn (H3.quic e) |> <| io_part := Quic.io (H3.quic e) |>)).

Definition is_tcp (id : Z) (c : TcpConn) : bool := tcp_id c =? id.
Definition is_quic (id : Z) (q : QuicConn A) : bool := quic_id q =? id.
Definition find_tcp (id : Z) (m : t A) : option TcpConn := List.find (is_tcp id) (tcp_conns m).
Definition find_quic (id : Z) (m : t A) : option (QuicConn A) := List.find (is_quic id) (quic_conns m).

(** *** Buffer kits *)
Definition add_tls_buffer_kit (kit : TlsBufKit) (m : t A) : t A := m <| free_kits := free_kits m ++ [kit] |>.
Definition free_tls_buffer_kits (m : t A) : Z := len (free_kits m).
Definition take_tls_buffer_kit (m : t A) : option TlsBufKit * t A :=
  (last (free_kits m), m <| free_kits := removelast (free_kits m) |>).
(** [if let Some(kit) = .. { self.free_kits.push(kit) }]. *)
Definition give_back (kit : option TlsBufKit) (m : t A) : t A :=
  match kit with Some kit => add_tls_buffer_kit kit m | None => m end.

Definition alloc_id : M Error (t A) Z :=
  m ← get;
  next ← lift (uadd 32 (next_id m) 1);
  _ ← modify (λ m, m <| next_id := next |>);
  mret (next_id m).

(** *** Events and close reasons *)
Definition push_server_event (ev : ServerEvent) (m : t A) : t A :=
  let l := if max_events (config m) <=? len (events m) then tail (events m) else events m in
  m <| events := l ++ [ev] |>.

Definition note_close_reason (id : Z) (reason : CloseReason) (m : t A) : t A :=
  if existsb (λ p, p.1 =? id) (close_reasons m) then m else
  let l := if CLOSE_REASONS_KEPT <=? len (close_reasons m) then tail (close_reasons m) else close_reasons m in
  m <| close_reasons := l ++ [(id, reason)] |>.

Definition take_close_reason (id : Z) (m : t A) : option CloseReason * t A :=
  match list_find (λ p, p.1 = id) (close_reasons m) with
  | Some (i, (_, reason)) => (Some reason, m <| close_reasons := delete i (close_reasons m) |>)
  | None => (None, m)
  end.

(** The end of a connection: its buffers, the reason and the event. *)
Definition closed (id : Z) (kit : option TlsBufKit) (reason : CloseReason) (m : t A) : t A :=
  push_server_event (EvClosed id) (note_close_reason id reason (give_back kit m)).

(** *** TCP *)
Definition tls_recv_buffer_reserved (id : Z) (m : t A) : option bool :=
  match find_tcp id m with
  | Some c =>
      if match protocol c with PHttp1 => false | _ => true end || match tcp_state c with Handshaking _ => true | _ => false end
      then Some (recv_reserved c) else None
  | None => None
  end.

Definition pop_kit : M Error (t A) (option TlsBufKit) := λ m, let '(kit, m) := take_tls_buffer_kit m in (Ok kit, m).

Definition accept_tcp (secret random : list Z) (now : Z) : M Error (t A) Z :=
  m ← get;
  if max_tcp_conns (config m) <=? len (tcp_conns m) then throw StreamLimitExhausted else
  id ← alloc_id;
  kit ← pop_kit;
  parts ← lift (match kit with
                | Some kit => TlsParts.new_server_in BUF (tls_config m) secret random kit
                | None => TlsParts.new_server grant BUF (tls_config m) secret random
                end);
  let reserved := BUF <=? Buf.allocated_capacity (TcpTls.recv_buf parts) in
  _ ← modify (λ m, m <| tcp_conns := tcp_conns m ++ [MkTcp id (Handshaking parts) PHandshaking now reserved] |>);
  mret id.

Definition accept_tcp_cleartext (now : Z) : M Error (t A) Z :=
  m ← get;
  if max_tcp_conns (config m) <=? len (tcp_conns m) then throw StreamLimitExhausted else
  id ← alloc_id;
  let http := set_timeouts (http_timeouts (config m)) now (Cleartext (Http1.new Http1.Server)) in
  _ ← modify (λ m, m <| tcp_conns := tcp_conns m ++ [MkTcp id (Established http) PHttp1 now true] |>);
  _ ← modify (push_server_event (EvConnected id));
  mret id.

Definition tcp_feed (id : Z) (data : list Z) (now : Z) : M Error (t A) unit :=
  m ← get;
  r ← on_tcp (on_first (is_tcp id) (alone (feed_conn grant BUF (http_timeouts (config m)) data now)) tt);
  match r with
  | None => throw InvalidState
  | Some Fed => mret tt
  | Some (Failed e kit) => _ ← modify (closed id kit (HandshakeError e)); throw e
  | Some (Rejected kit) => _ ← modify (closed id kit UnsupportedAlpn); throw InvalidState
  | Some Upgraded => modify (push_server_event (EvConnected id))
  end.

Definition conn_recv_blocked (id : Z) (m : t A) : result bool :=
  match find_tcp id m with
  | Some c => match tcp_state c with Established http => recv_blocked http | _ => Ok false end
  | None => Ok false
  end.

(** A call on the TCP connection [id], [None] when there is none. *)
Definition on_conn {B} (id : Z) (f : M Error TcpConn B) : M Error (t A) (option B) :=
  on_tcp (on_first (is_tcp id) (alone f) tt).

Definition tcp_poll_output (id cap : Z) : M Error (t A) (option (list Z)) :=
  r ← on_conn id (output_conn grant BUF cap);
  mret (mjoin r).

Definition tcp_eof (id : Z) : M Error (t A) unit :=
  r ← on_conn id (eof_conn grant BUF);
  match r with
  | Some (Some (drained, kit)) =>
      _ ← modify (give_back kit);
      _ ← modify (λ m, foldl (λ m ev, push_server_event (EvHttp id ev) m) m drained);
      modify (λ m, push_server_event (EvClosed id) (note_close_reason id PeerEof m))
  | _ => mret tt
  end.

Definition handle_tcp_timeouts (now : Z) : M Error (t A) unit :=
  m ← get;
  r ← on_tcp (on_each (alone (tick_conn grant BUF (handshake_timeout_us (config m)) now)) tt);
  let timed_out := omap id r in
  _ ← modify (λ m, m <| free_kits := free_kits m ++ omap snd timed_out |>);
  modify (λ m, foldl (λ m p, push_server_event (EvClosed p.1) (note_close_reason p.1 HandshakeTimeout m)) m timed_out).

(** *** UDP *)
Definition routed (dcid : list Z) (q : QuicConn A) : bool :=
  existsb (λ cid, bool_decide (Quic.cid_as_slice cid = dcid)) (local_cids q)
  || bool_decide (Quic.cid_as_slice (original_dcid q) = dcid).

(** [Some] of the identifier when the connection is removed. *)
Definition reap_conn (timeout now : Z) : M Error (shared * QuicConn A) (option Z) :=
  _ ← Quic.attempt (on_h3 (H3Api.handle_timeout now));
  s ← get;
  let q := s.2 in
  let expired := negb (Quic.is_established (quic_part q)) && (sat_add64 (created_at q) timeout <=? now) in
  if Quic.is_closed (quic_part q) || expired
  then _ ← on_h3 H3Api.release_handshake_slot; mret (Some (quic_id q))
  else mret None.

Definition reap_quic_conns (now : Z) : M Error (env A) unit :=
  e ← get;
  reaped ← on_quic [] (retain_mut (reap_conn (handshake_timeout_us (config (mgr e))) now));
  on_mgr (modify (λ m, foldl (λ m id, push_server_event (EvClosed id) m) m reaped)).

Definition handle_timeouts (now : Z) : M Error (env A) unit :=
  _ ← on_mgr (handle_tcp_timeouts now);
  reap_quic_conns now.

Definition over_quic_limit (m : t A) : bool := max_quic_conns (config m) <=? len (quic_conns m).

(** A connection for a datagram that none of the others expects. *)
Definition accept_quic (data : list Z) (from : A) (now : Z) (dcid : option (list Z)) (secret random cid_bytes : list Z)
    : M Error (env A) unit :=
  id ← on_mgr alloc_id;
  e ← get;
  quic ← on_pool (Quic.server (tls_config (mgr e)) TransportParams.default_params secret random cid_bytes);
  let server := H3.new (Quic.MkEnv quic QuicIo.new [] []) in
  let q := MkQuic _ id (H3.h3 server) quic QuicIo.new from (Quic.local_cids quic)
                  (match dcid with Some dcid => Quic.cid_from_slice dcid | None => Quic.cid_empty end) now in
  e ← get;
  match on_h3 (H3Api.recv grant data now) ((pool e, replicate (Z.to_nat 2048) 0), q) with
  | (Ok _, ((p, _), q)) =>
      put (MkEnv _ ((mgr e) <| quic_conns := quic_conns (mgr e) ++ [q] |>) p)
  | (Err err, s) =>
      let '(_, ((p, _), _)) := on_h3 H3Api.release_handshake_slot s in
      _ ← put (e <| pool := p |>); throw err
  | (Panic, _) => lift Panic
  end.

Definition udp_feed (data : list Z) (from : A) (now : Z) (secret random cid_bytes : list Z) : M Error (env A) unit :=
  dcid ← lift (Packet.decode_dcid data 8);
  r ← match dcid with
      | Some dcid => on_quic (replicate (Z.to_nat 2048) 0) (on_first (routed dcid) (on_h3 (H3Api.recv grant data now)))
      | None => mret None
      end;
  match r with
  | Some _ => mret tt
  | None =>
      e ← get;
      _ ← (if over_quic_limit (mgr e) then reap_quic_conns now else mret tt);
      e ← get;
      if over_quic_limit (mgr e) then throw StreamLimitExhausted else
      accept_quic data from now dcid secret random cid_bytes
  end.

Definition transmit_conn (now : Z) : M Error (shared * QuicConn A) (option (A * list Z)) :=
  tx ← on_h3 (H3Api.poll_transmit grant now);
  s ← get;
  mret ((λ data, (peer_addr s.2, data)) <$> tx).

Definition udp_poll_transmit (buf : list Z) (now : Z) : M Error (env A) (option (A * list Z)) :=
  on_quic buf (first_some (transmit_conn now)).

(** *** HTTP *)
Definition poll_quic (cap : Z) : M Error (shared * QuicConn A) (option ServerEvent) :=
  s ← get;
  ev ← on_h3 (H3Api.poll_event grant cap);
  mret ((λ ev, EvHttp (quic_id s.2) (H3Api.map_h3_event ev)) <$> ev).

Definition pop_event : M Error (t A) (option ServerEvent) :=
  m ← get;
  match events m with
  | [] => mret None
  | ev :: l => _ ← modify (λ m, m <| events := l |>); mret (Some ev)
  end.

Definition is_closed_state (s : TcpState) : bool := match s with Closed => true | _ => false end.

Definition poll_event (cap : Z) : M Error (env A) (option ServerEvent) :=
  ev ← on_mgr pop_event;
  match ev with
  | Some ev => mret (Some ev)
  | None =>
      r ← on_mgr (on_tcp (first_some (alone (poll_conn grant BUF cap)) tt));
      match r with
      | Some (id, Event ev) => mret (Some (EvHttp id ev))
      | Some (id, Reclaimed kit) =>
          _ ← on_mgr (modify (λ m, note_close_reason id HttpClosed (give_back kit m)));
          mret (Some (EvClosed id))
      | None =>
          r ← on_quic [] (first_some (poll_quic cap));
          match r with
          | Some ev => mret (Some ev)
          | None =>
              _ ← on_mgr (modify (λ m, m <| tcp_conns := List.filter (λ c, negb (is_closed_state (tcp_state c))) (tcp_conns m) |>));
              on_mgr pop_event
          end
      end
  end.

(** A method on the connection [id], over TCP or QUIC. *)
Definition forward {B} (id : Z) (tcp : M Error Http B) (quic : M Error H3.env B) : M Error (env A) B :=
  r ← on_mgr (on_conn id (on_http tcp));
  match mjoin r with
  | Some b => mret b
  | None =>
      r ← on_quic [] (on_first (is_quic id) (on_h3 quic));
      lift (ok_or InvalidState r)
  end.

Definition recv_headers (conn sid : Z) : M Error (env A) fields :=
  forward conn (HttpServer.recv_headers sid) (H3.recv_headers sid).
Definition recv_body (conn sid cap : Z) : M Error (env A) (list Z * bool) :=
  forward conn (HttpServer.recv_body sid cap) (H3.recv_body sid cap).
Definition send_response (conn sid status : Z) (headers : fields) (end_stream : bool) : M Error (env A) unit :=
  forward conn (HttpServer.send_response sid status headers end_stream) (H3Api.send_response sid status headers end_stream).
Definition send_body (conn sid : Z) (data : list Z) (end_stream : bool) : M Error (env A) Z :=
  forward conn (HttpServer.send_body sid data end_stream) (H3.send_data sid data end_stream).
Definition discard_body (conn sid error_code : Z) : M Error (t A) unit :=
  r ← on_conn conn (on_http (HttpServer.discard_body sid error_code));
  lift (ok_or InvalidState (mjoin r)).

Definition send_capacity (conn sid : Z) (m : t A) : option Z :=
  match find_tcp conn m with
  | Some c => match tcp_state c with Established http => HttpServer.send_capacity sid http | _ => None end
  | None => match find_quic conn m with Some _ => Some (2 ^ usize_bits - 1) | None => None end
  end.

(** *** Life cycle *)
Definition earliest (e : option Z) (deadline : option Z) : option Z :=
  match deadline with Some d => earlier e d | None => e end.
Definition tcp_deadline (m : t A) (c : TcpConn) : result (option Z) :=
  match tcp_state c with
  | Handshaking _ => Ok (Some (sat_add64 (accepted_at c) (handshake_timeout_us (config m))))
  | Established http => HttpServer.next_timeout http
  | Closed => Ok None
  end.
Definition quic_deadlines (m : t A) (q : QuicConn A) : result (option Z * option Z) :=
  let handshake := if Quic.is_established (quic_part q) then None
                   else Some (sat_add64 (created_at q) (handshake_timeout_us (config m))) in
  d ← Quic.next_timeout (quic_part q);
  Ok (handshake, d).
Fixpoint tcp_timeouts (m : t A) (l : list TcpConn) (e : option Z) : result (option Z) :=
  match l with [] => Ok e | c :: l => d ← tcp_deadline m c; tcp_timeouts m l (earliest e d) end.
Fixpoint quic_timeouts (m : t A) (l : list (QuicConn A)) (e : option Z) : result (option Z) :=
  match l with [] => Ok e | q :: l => d ← quic_deadlines m q; quic_timeouts m l (earliest (earliest e d.1) d.2) end.
Definition next_timeout (m : t A) : result (option Z) :=
  e ← tcp_timeouts m (tcp_conns m) None;
  quic_timeouts m (quic_conns m) e.

Definition close (id : Z) : M Error (env A) unit :=
  r ← on_mgr (on_conn id (close_conn grant BUF));
  match r with
  | Some None => mret tt
  | Some (Some kit) => on_mgr (modify (closed id kit AppClose))
  | None =>
      r ← on_quic [] (on_first (is_quic id) (on_h3 (H3Api.close 0 [])));
      lift (ok_or InvalidState r)
  end.

Definition is_closed (id : Z) (m : t A) : bool :=
  match find_tcp id m with
  | Some c => is_closed_state (tcp_state c)
  | None => match find_quic id m with Some q => Quic.is_closed (quic_part q) | None => true end
  end.

Definition quic_conn_count (m : t A) : Z := len (quic_conns m).
Definition tcp_conn_count (m : t A) : Z := len (tcp_conns m).

Definition conn_protocol (id : Z) (m : t A) : option ConnProtocol :=
  match find_tcp id m with
  | Some c => Some (protocol c)
  | None => match find_quic id m with Some _ => Some PH3 | None => None end
  end.

End manager.

End Server.
