(* ===== verification/ServerLife.v ===== *)
(** * What the manager tells about its connections

    The manager announces to the application when a connection is up, what arrives on
    it, and when it is gone.  Over any sequence of calls the events of a connection
    come in this order, with nothing behind the end; and no connection ends without
    being announced. *)
From stdpp Require Import strings.
From S2P Require Import Prelude Errors Hoare Buf Http Crypto TlsParams TlsHandshake TcpTls H2Connection Http1Connection PacketHeader QuicIo QuicConn QuicDemo H3Connection H3Message HttpApi Server.

Module ServerLife.
Import Server.

(** ** The loops *)
Section loops.
Context {X A B : Type}.
Implicit Types (x : X) (a : A) (l : list A).

Lemma on_first_spec (p : A → bool) (m : M Error (X * A) B) x l : ∀ r x' l', on_first p m x l = (r, (x', l')) →
  (r = Ok None ∧ x' = x ∧ l' = l ∧ Forall (λ a, p a = false) l) ∨
  ∃ l1 a l2 a' r0, l = l1 ++ a :: l2 ∧ l' = l1 ++ a' :: l2 ∧ Forall (λ a, p a = false) l1 ∧ p a = true ∧
    m (x, a) = (r0, (x', a')) ∧ r = Some <$> r0.
Proof.
  induction l as [|a l IH]; intros r x' l'; cbn; [by intros [= <- <- <-]; left|].
  destruct (p a) eqn:Hp.
  - destruct (m (x, a)) as [r0 [x1 a1]] eqn:Hm. intros [= <- <- <-]. right. by exists [], a, l, a1, r0.
  - destruct (on_first p m x l) as [r1 [x1 l1]] eqn:Hl. intros [= <- <- <-].
    destruct (IH _ _ _ eq_refl) as [(-> & -> & -> & Hf)|(k1 & b & k2 & b' & r0 & -> & -> & Hf & Hb & Hm & ->)].
    + left. split_and!; try done. by constructor.
    + right. exists (a :: k1), b, k2, b', r0. split_and!; try done. by constructor.
Qed.

(** A call that had no result. *)
Definition passed (m : M Error (X * A) (option B)) a a' : Prop := ∃ x x', m (x, a) = (Ok None, (x', a')).

Lemma first_some_spec (m : M Error (X * A) (option B)) l : ∀ x r x' l', first_some m x l = (r, (x', l')) →
  (r = Ok None ∧ Forall2 (passed m) l l') ∨
  ∃ l1 a l2 l1' a' x1, l = l1 ++ a :: l2 ∧ l' = l1' ++ a' :: l2 ∧ Forall2 (passed m) l1 l1' ∧ m (x1, a) = (r, (x', a')) ∧ r ≠ Ok None.
Proof.
  induction l as [|a l IH]; intros x r x' l'; cbn; [intros [= <- <- <-]; left; by split|].
  destruct (m (x, a)) as [r0 [x1 a1]] eqn:Hm.
  assert (passed m a a1 ∨ r0 ≠ Ok None) as [Hp|Hr].
  { destruct r0 as [[b|]|e|]; [by right|left|by right..]. by exists x, x1. }
  - assert (r0 = Ok None ∨ r0 ≠ Ok None) as [->|Hr] by (destruct r0 as [[]| |]; auto).
    + destruct (first_some m x1 l) as [r2 [x2 l2]] eqn:Hl. intros [= <- <- <-].
      destruct (IH _ _ _ _ Hl) as [[-> Hf]|(k1 & b & k2 & k1' & b' & y & -> & -> & Hf & Hb & Hn)].
      * left. split; [done|]. by constructor.
      * right. exists (a :: k1), b, k2, (a1 :: k1'), b', y. split_and!; try done. by constructor.
    + intros Hq. right. exists [], a, l, [], a1, x. destruct r0 as [[b|]|e|]; try done; by injection Hq as <- <- <-.
  - intros Hq. right. exists [], a, l, [], a1, x. destruct r0 as [[b|]|e|]; try done; by injection Hq as <- <- <-.
Qed.

(** All calls succeeded, with these results. *)
Definition answered (m : M Error (X * A) B) a (p : A * B) : Prop := ∃ x x', m (x, a) = (Ok p.2, (x', p.1)).

Lemma on_each_spec (m : M Error (X * A) B) (Hm : ∀ x a e s, m (x, a) ≠ (Err e, s)) l : ∀ x r x' l',
  on_each m x l = (r, (x', l')) → r = Panic ∨ ∃ ps, r = Ok (ps.*2) ∧ l' = ps.*1 ∧ Forall2 (answered m) l ps.
Proof.
  induction l as [|a l IH]; intros x r x' l'; cbn; [intros [= <- <- <-]; right; by exists []|].
  destruct (m (x, a)) as [[b|e|] [x1 a1]] eqn:Hb; [|by apply Hm in Hb|intros [= <- <- <-]; by left].
  destruct (on_each m x1 l) as [r2 [x2 l2]] eqn:Hl. intros [= <- <- <-].
  destruct (IH _ _ _ _ Hl) as [->|(ps & -> & -> & Hf)]; [by left|right]. exists ((a1, b) :: ps). split_and!; try done. constructor; [|done]. by exists x, x1.
Qed.

(** The elements that stay and the results of those that go. *)
Inductive retained (m : M Error (X * A) (option B)) : list A → list A → list B → Prop :=
| retained_nil : retained m [] [] []
| retained_stay a a' l l' bs : passed m a a' → retained m l l' bs → retained m (a :: l) (a' :: l') bs
| retained_go a b l l' bs : (∃ x s, m (x, a) = (Ok (Some b), s)) → retained m l l' bs → retained m (a :: l) l' (b :: bs).

Lemma retain_mut_spec (m : M Error (X * A) (option B)) (Hm : ∀ x a e s, m (x, a) ≠ (Err e, s)) l : ∀ x r x' l',
  retain_mut m x l = (r, (x', l')) → r = Panic ∨ ∃ bs, r = Ok bs ∧ retained m l l' bs.
Proof.
  induction l as [|a l IH]; intros x r x' l'; cbn; [intros [= <- <- <-]; right; eexists; split; [done|constructor]|].
  destruct (m (x, a)) as [[[b|]|e|] [x1 a1]] eqn:Hb; [| |by apply Hm in Hb|intros [= <- <- <-]; by left].
  all: destruct (retain_mut m x1 l) as [r2 [x2 l2]] eqn:Hl; intros [= <- <- <-]; destruct (IH _ _ _ _ Hl) as [->|(bs & -> & Hr)]; [by left|right].
  - exists (b :: bs). split; [done|]. constructor; [|done]. by exists x, (x1, a1).
  - exists bs. split; [done|]. constructor; [|done]. by exists x, x1.
Qed.

(** What the calls do not change of an element. *)
Context {C : Type} (g : A → C).
Lemma on_first_keeps (p : A → bool) (m : M Error (X * A) B) x l : (∀ s, g (m s).2.2 = g s.2) → g <$> (on_first p m x l).2.2 = g <$> l.
Proof.
  intros Hm. induction l as [|a l IH]; cbn; [done|]. destruct (p a).
  - specialize (Hm (x, a)). destruct (m (x, a)) as [r [x1 a1]]. cbn in *. by rewrite Hm.
  - destruct (on_first p m x l) as [r [x1 l1]]. cbn in *. by rewrite IH.
Qed.
Lemma first_some_keeps (m : M Error (X * A) (option B)) l : (∀ s, g (m s).2.2 = g s.2) → ∀ x, g <$> (first_some m x l).2.2 = g <$> l.
Proof.
  intros Hm. induction l as [|a l IH]; intros x; cbn; [done|]. specialize (Hm (x, a)).
  destruct (m (x, a)) as [[[b|]|e|] [x1 a1]]; cbn in *; rewrite ?Hm; [done| |done..].
  specialize (IH x1). destruct (first_some m x1 l) as [r [x2 l1]]. cbn in *. by rewrite Hm, IH.
Qed.

End loops.

(** ** The order of events *)

Definition about (ev : ServerEvent) : Z := match ev with EvHttp i _ => i | EvConnected i => i | EvClosed i => i end.
Definition events_of (i : Z) (log : list ServerEvent) : list ServerEvent := filter (λ ev, about ev = i) log.

(** A connection is announced, reports what arrives and ends, in this order; events may
    be missing. *)
Inductive phase : Type := Before | Running | Ended.
Definition after (ph : phase) (ev : ServerEvent) : option phase :=
  match ph, ev with
  | Before, EvConnected _ => Some Running
  | (Before | Running), EvHttp _ _ => Some Running
  | (Before | Running), EvClosed _ => Some Ended
  | _, _ => None
  end.
Fixpoint follows (ph : phase) (l : list ServerEvent) : option phase :=
  match l with [] => Some ph | ev :: l => match after ph ev with Some ph => follows ph l | None => None end end.
Definition ordered (l : list ServerEvent) : Prop := is_Some (follows Before l).
(** The end has not been announced. *)
Definition unended (l : list ServerEvent) : Prop := ∃ ph, follows Before l = Some ph ∧ ph ≠ Ended.

Lemma follows_app ph l1 l2 : follows ph (l1 ++ l2) = (ph' ← follows ph l1; follows ph' l2).
Proof. revert ph. induction l1 as [|ev l1 IH]; intros ph; cbn; [done|]. destruct (after ph ev); cbn; [apply IH|done]. Qed.

Definition rank (ph : phase) : nat := match ph with Before => 0 | Running => 1 | Ended => 2 end.
Lemma follows_mono ph1 ph2 l ph : (rank ph1 ≤ rank ph2)%nat → follows ph2 l = Some ph → ∃ ph', follows ph1 l = Some ph' ∧ (rank ph' ≤ rank ph)%nat.
Proof.
  revert ph1 ph2. induction l as [|ev l IH]; intros ph1 ph2 Hle; cbn; [intros [= <-]; by eexists|].
  destruct (after ph2 ev) as [ph2'|] eqn:H2; [|done]. intros Hl.
  assert (∃ ph1', after ph1 ev = Some ph1' ∧ (rank ph1' ≤ rank ph2')%nat) as (ph1' & -> & Hr); [|by eapply IH].
  destruct ph2, ev; cbn in H2; try done; injection H2 as <-; destruct ph1; cbn in *; try lia; eexists; (split; [done|cbn; lia]).
Qed.
Lemma rank_inj ph1 ph2 : rank ph1 = rank ph2 → ph1 = ph2.
Proof. by destruct ph1, ph2. Qed.
(** Events may be lost. *)
Lemma follows_sublist l1 l2 : sublist l1 l2 → ∀ ph ph2, follows ph l2 = Some ph2 → ∃ ph1, follows ph l1 = Some ph1 ∧ (rank ph1 ≤ rank ph2)%nat.
Proof.
  induction 1 as [|ev l1 l2 _ IH|ev l1 l2 _ IH]; intros ph ph2; cbn; [intros [= <-]; by eexists|..].
  - destruct (after ph ev) as [ph'|]; [apply IH|done].
  - destruct (after ph ev) as [ph'|] eqn:Ha; [|done]. intros Hl. destruct (IH _ _ Hl) as (ph1 & H1 & Hle).
    assert (rank ph ≤ rank ph')%nat as Hr by (destruct ph, ev; cbn in Ha; try done; injection Ha as <-; cbn; lia).
    destruct (follows_mono _ _ _ _ Hr H1) as (ph0 & H0 & Hle0). exists ph0. split; [done|lia].
Qed.
Lemma ordered_sublist l1 l2 : sublist l1 l2 → ordered l2 → ordered l1.
Proof. intros Hs [ph Hp]. destruct (follows_sublist _ _ Hs _ _ Hp) as (ph1 & H1 & _). by exists ph1. Qed.
Lemma unended_sublist l1 l2 : sublist l1 l2 → unended l2 → unended l1.
Proof.
  intros Hs (ph & Hp & Hn). destruct (follows_sublist _ _ Hs _ _ Hp) as (ph1 & H1 & Hle). exists ph1. split; [done|].
  intros ->. apply Hn. destruct ph; cbn in Hle; try lia. done.
Qed.
Lemma unended_ordered l : unended l → ordered l.
Proof. intros (ph & Hp & _). by exists ph. Qed.
Lemma unended_http l i ev : unended l → unended (l ++ [EvHttp i ev]).
Proof. intros (ph & Hp & Hn). exists Running. split; [|done]. rewrite follows_app, Hp. by destruct ph. Qed.
Lemma unended_closed l i : unended l → ordered (l ++ [EvClosed i]).
Proof. intros (ph & Hp & Hn). exists Ended. rewrite follows_app, Hp. by destruct ph. Qed.

Lemma events_of_app i l1 l2 : events_of i (l1 ++ l2) = events_of i l1 ++ events_of i l2.
Proof. apply filter_app. Qed.
Lemma events_of_one i ev : events_of i [ev] = if decide (about ev = i) then [ev] else [].
Proof. unfold events_of. cbn. by case_decide. Qed.
Lemma events_of_sublist i l1 l2 : sublist l1 l2 → sublist (events_of i l1) (events_of i l2).
Proof.
  induction 1 as [|ev l1 l2 _ IH|ev l1 l2 _ IH]; [constructor|..]; unfold events_of in *; rewrite !filter_cons; case_decide; try done.
  - by constructor.
  - by constructor.
Qed.

(** ** What the manager holds *)

(** How far a TCP connection is: in its handshake, established, closed. *)
Definition kind (s : TcpState) : nat := match s with Handshaking _ => 0 | Established _ => 1 | Closed => 2 end.
Definition view (c : TcpConn) : Z * nat := (tcp_id c, kind (tcp_state c)).
Definition set_kind (i : Z) (k : nat) (p : Z * nat) : Z * nat := if decide (p.1 = i) then (i, k) else p.

(** The log of a connection fits its state: [tv] are the TCP connections, [qv] the QUIC
    connections, [n] is the next identifier. *)
Record fits (log : list ServerEvent) (tv : list (Z * nat)) (qv : list Z) (n : Z) : Prop := {
  fits_nodup : NoDup (tv.*1 ++ qv);
  fits_ids : Forall (λ i, 0 ≤ i < n) (tv.*1 ++ qv);
  fits_log : Forall (λ ev, 0 ≤ about ev < n) log;
  fits_next : 0 ≤ n;
  fits_order i : ordered (events_of i log);
  fits_shaking i : (i, 0%nat) ∈ tv → events_of i log = [];
  fits_live i : (i, 1%nat) ∈ tv ∨ i ∈ qv → unended (events_of i log)
}.

Lemma fits_new : fits [] [] [] 0.
Proof.
  split; cbn; [apply NoDup_nil; exact I|constructor|constructor|done|intros i; by exists Before|..].
  - by intros ? ?%elem_of_nil.
  - by intros ? [?%elem_of_nil|?%elem_of_nil].
Qed.

(** Events get lost. *)
Lemma fits_drop log log' tv qv n : sublist log' log → fits log tv qv n → fits log' tv qv n.
Proof.
  intros Hs []. split; try done.
  - rewrite Forall_forall in *. intros ev Hev. apply fits_log0. by eapply elem_of_sublist.
  - intros i. eapply ordered_sublist; [|done]. by apply events_of_sublist.
  - intros i Hi. pose proof (events_of_sublist i _ _ Hs) as H. rewrite (fits_shaking0 i Hi) in H. by apply sublist_nil_r in H.
  - intros i Hi. eapply unended_sublist; [|by apply fits_live0]. by apply events_of_sublist.
Qed.

Lemma events_of_snoc_other i log ev : about ev ≠ i → events_of i (log ++ [ev]) = events_of i log.
Proof. intros H. rewrite events_of_app, events_of_one, decide_False by done. by rewrite app_nil_r. Qed.
Lemma events_of_snoc i log ev : about ev = i → events_of i (log ++ [ev]) = events_of i log ++ [ev].
Proof. intros H. by rewrite events_of_app, events_of_one, decide_True. Qed.

(** A connection is held once. *)
Lemma kind_unique (tv : list (Z * nat)) (qv : list Z) i k k' : NoDup (tv.*1 ++ qv) → (i, k) ∈ tv → (i, k') ∈ tv → k = k'.
Proof.
  intros Hn H1 H2. apply NoDup_app in Hn as (Hn & _ & _). apply list_elem_of_lookup in H1 as [a Ha], H2 as [b Hb].
  assert (a = b) as ->; [|congruence]. apply (NoDup_lookup _ _ _ i Hn); rewrite list_lookup_fmap; [by rewrite Ha|by rewrite Hb].
Qed.
Lemma tcp_not_quic (tv : list (Z * nat)) (qv : list Z) i k : NoDup (tv.*1 ++ qv) → (i, k) ∈ tv → i ∉ qv.
Proof. intros Hn Hi. apply NoDup_app in Hn as (_ & Hn & _). apply Hn. by apply (list_elem_of_fmap_2 fst) in Hi. Qed.
Lemma held_tcp (tv : list (Z * nat)) (qv : list Z) i k : (i, k) ∈ tv → i ∈ tv.*1 ++ qv.
Proof. intros Hi. apply elem_of_app. left. by apply (list_elem_of_fmap_2 fst) in Hi. Qed.

(** Something arrives on a connection. *)
Lemma fits_http log tv qv n i ev : (i, 1%nat) ∈ tv ∨ i ∈ qv → fits log tv qv n → fits (log ++ [EvHttp i ev]) tv qv n.
Proof.
  intros Hi []. pose proof (fits_live0 i Hi) as Hu.
  assert (i ∈ tv.*1 ++ qv) as Hin by (destruct Hi as [Hi|Hi]; [by eapply held_tcp|apply elem_of_app; by right]).
  assert ((i, 0%nat) ∉ tv) as Hk.
  { intros Hkv. destruct Hi as [Hi|Hi]; [by pose proof (kind_unique _ _ _ _ _ fits_nodup0 Hi Hkv)|by eapply tcp_not_quic in Hi]. }
  split; try done.
  - apply Forall_app. split; [done|]. constructor; [|done]. cbn. by apply (proj1 (Forall_forall _ _) fits_ids0).
  - intros j. destruct (decide (i = j)) as [<-|Hj]; [|by rewrite events_of_snoc_other].
    rewrite events_of_snoc by done. by apply unended_ordered, unended_http.
  - intros j Hj. rewrite events_of_snoc_other; [by apply fits_shaking0|]. cbn. by intros ->.
  - intros j Hj. destruct (decide (i = j)) as [<-|Hij]; [|rewrite events_of_snoc_other by done; by apply fits_live0].
    rewrite events_of_snoc by done. by apply unended_http.
Qed.

(** A TCP connection moves on, and this is announced. *)
Lemma set_kind_ids i k (tv : list (Z * nat)) : (set_kind i k <$> tv).*1 = tv.*1.
Proof. rewrite <- list_fmap_compose. apply list_fmap_ext. intros _ [j k'] _. unfold set_kind. cbn. by case_decide. Qed.
Lemma set_kind_in i k (tv : list (Z * nat)) j k' : (j, k') ∈ set_kind i k <$> tv → (j = i ∧ k' = k) ∨ (j ≠ i ∧ (j, k') ∈ tv).
Proof.
  intros ([j1 k1] & Heq & Hin)%list_elem_of_fmap. unfold set_kind in Heq. cbn in Heq. case_decide as Hj; [left|right].
  - by injection Heq as -> ->.
  - by injection Heq as -> ->.
Qed.

Lemma fits_connected log tv qv n i : (i, 0%nat) ∈ tv → fits log tv qv n → fits (log ++ [EvConnected i]) (set_kind i 1 <$> tv) qv n.
Proof.
  intros Hi []. pose proof (fits_shaking0 i Hi) as Hl.
  assert (unended (events_of i (log ++ [EvConnected i]))) as Hu by (rewrite events_of_snoc, Hl by done; by exists Running).
  split; rewrite ?set_kind_ids; try done.
  - apply Forall_app. split; [done|]. constructor; [|done]. apply (proj1 (Forall_forall _ _) fits_ids0). by eapply held_tcp.
  - intros j. destruct (decide (i = j)) as [<-|Hj]; [by apply unended_ordered|by rewrite events_of_snoc_other].
  - intros j [[_ Hk]|[Hj Hin]]%set_kind_in; [done|]. rewrite events_of_snoc_other by (cbn; congruence). by apply fits_shaking0.
  - intros j Hj. destruct (decide (i = j)) as [<-|Hij]; [done|]. rewrite events_of_snoc_other by done. apply fits_live0.
    destruct Hj as [[[Hji _]|[_ Hin]]%set_kind_in|Hj]; [congruence|by left|by right].
Qed.

Lemma fits_closed log tv qv n i k : (i, k) ∈ tv → (k < 2)%nat → fits log tv qv n → fits (log ++ [EvClosed i]) (set_kind i 2 <$> tv) qv n.
Proof.
  intros Hi Hk [].
  assert (unended (events_of i log)) as Hu.
  { destruct k as [|[|k]]; [rewrite (fits_shaking0 i Hi); by exists Before|apply fits_live0; by left|lia]. }
  split; rewrite ?set_kind_ids; try done.
  - apply Forall_app. split; [done|]. constructor; [|done]. apply (proj1 (Forall_forall _ _) fits_ids0). by eapply held_tcp.
  - intros j. destruct (decide (i = j)) as [<-|Hj]; [|by rewrite events_of_snoc_other]. rewrite events_of_snoc by done. by apply unended_closed.
  - intros j [[_ Hk']|[Hj Hin]]%set_kind_in; [done|]. rewrite events_of_snoc_other by (cbn; congruence). by apply fits_shaking0.
  - intros j Hj. assert (i ≠ j) as Hij.
    { intros <-. destruct Hj as [[[_ Hk']|[Hn _]]%set_kind_in|Hj]; [done|done|]. by eapply tcp_not_quic. }
    rewrite events_of_snoc_other by done. apply fits_live0.
    destruct Hj as [[[Hji _]|[_ Hin]]%set_kind_in|Hj]; [congruence|by left|by right].
Qed.

(** A QUIC connection is removed. *)
Lemma fits_reaped log tv qv qv' n i : i ∈ qv → i ∉ qv' → sublist qv' qv → fits log tv qv n → fits (log ++ [EvClosed i]) tv qv' n.
Proof.
  intros Hi Hi' Hs []. pose proof (fits_live0 i (or_intror Hi)) as Hu.
  assert (sublist (tv.*1 ++ qv') (tv.*1 ++ qv)) as Hs' by by apply sublist_app.
  assert (i ∈ tv.*1 ++ qv) as Hin by (apply elem_of_app; by right).
  assert (∀ k, (i, k) ∉ tv) as Hk by (intros k Hk; by eapply tcp_not_quic).
  split; try done.
  - by eapply sublist_NoDup.
  - rewrite Forall_forall in *. intros j Hj. apply fits_ids0. by eapply elem_of_sublist.
  - apply Forall_app. split; [done|]. constructor; [|done]. by apply (proj1 (Forall_forall _ _) fits_ids0).
  - intros j. destruct (decide (i = j)) as [<-|Hj]; [|by rewrite events_of_snoc_other]. rewrite events_of_snoc by done. by apply unended_closed.
  - intros j Hj. rewrite events_of_snoc_other by (cbn; intros <-; by eapply Hk). by apply fits_shaking0.
  - intros j Hj. assert (i ≠ j) as Hij by (intros <-; destruct Hj as [Hj|Hj]; [by eapply Hk|done]).
    rewrite events_of_snoc_other by done. apply fits_live0. destruct Hj as [Hj|Hj]; [by left|right; by eapply elem_of_sublist].
Qed.

(** A connection is forgotten. *)
Lemma fits_forget log tv tv' qv n : sublist tv' tv → fits log tv qv n → fits log tv' qv n.
Proof.
  intros Hs []. assert (sublist (tv'.*1 ++ qv) (tv.*1 ++ qv)) as Hs' by (apply sublist_app; [by apply fmap_sublist|done]).
  split; try done.
  - by eapply sublist_NoDup.
  - rewrite Forall_forall in *. intros j Hj. apply fits_ids0. by eapply elem_of_sublist.
  - intros i Hi. apply fits_shaking0. by eapply elem_of_sublist.
  - intros i Hi. apply fits_live0. destruct Hi as [Hi|Hi]; [left; by eapply elem_of_sublist|by right].
Qed.

(** A connection is accepted under the next identifier. *)
Lemma fits_fresh log tv qv n : fits log tv qv n → events_of n log = [] ∧ n ∉ tv.*1 ++ qv.
Proof.
  intros []. split.
  - clear -fits_log0. induction fits_log0 as [|ev log Hev _ IH]; [done|]. unfold events_of in *. rewrite filter_cons, decide_False by lia. done.
  - intros Hn. apply (proj1 (Forall_forall _ _) fits_ids0) in Hn. lia.
Qed.
Lemma fits_skip log tv qv n : fits log tv qv n → fits log tv qv (n + 1).
Proof. intros []. split; try done; [eapply Forall_impl; [done|]; cbn; lia|eapply Forall_impl; [done|]; cbn; lia|lia]. Qed.
Lemma fits_accept log tv qv n : fits log tv qv n → fits log (tv ++ [(n, 0%nat)]) qv (n + 1).
Proof.
  intros Hf. destruct (fits_fresh _ _ _ _ Hf) as [Hl Hn]. destruct (fits_skip _ _ _ _ Hf). destruct Hf.
  assert ((tv ++ [(n, 0%nat)]).*1 ++ qv ≡ₚ n :: tv.*1 ++ qv) as Hp.
  { rewrite fmap_app. cbn. rewrite <- app_assoc. cbn. by rewrite Permutation_middle. }
  split; try done.
  - rewrite Hp. by constructor.
  - rewrite Hp. constructor; [lia|done].
  - intros i [Hi|Hi]%elem_of_app; [by apply fits_shaking0|]. by apply list_elem_of_singleton in Hi as [= ->].
  - intros i [[Hi|Hi]%elem_of_app|Hi]; [apply fits_live0; by left| |apply fits_live0; by right]. by apply list_elem_of_singleton in Hi.
Qed.
Lemma fits_accept_quic log tv qv n : fits log tv qv n → fits log tv (qv ++ [n]) (n + 1).
Proof.
  intros Hf. destruct (fits_fresh _ _ _ _ Hf) as [Hl Hn]. destruct (fits_skip _ _ _ _ Hf). destruct Hf.
  assert (tv.*1 ++ qv ++ [n] ≡ₚ n :: tv.*1 ++ qv) as Hp by (rewrite app_assoc; by rewrite Permutation_app_comm).
  split; try done.
  - rewrite Hp. by constructor.
  - rewrite Hp. constructor; [lia|done].
  - intros i [Hi|[Hi|Hi]%elem_of_app]; [apply fits_live0; by left|apply fits_live0; by right|].
    apply list_elem_of_singleton in Hi as ->. rewrite Hl. by exists Before.
Qed.

(** ** One connection *)
Section connection.
Context `{Platform} `{Primitives} (grant : Z → bool) (BUF : Z).

(** The connection is still the same, and as far as it was. *)
Abbreviation unmoved := (λ c c' : TcpConn, view c' = view c).

Lemma parts_reclaim_ok parts : ∃ kit, (TlsParts.reclaim_buffers parts).1 = Ok kit.
Proof. unfold TlsParts.reclaim_buffers. repeat destruct (Buf.take_static _). by eexists. Qed.
Lemma reclaim_ok c : ∃ kit, on_state (reclaim_and_close grant BUF) c = (Ok kit, c <| tcp_state := Closed |>).
Proof.
  unfold on_state, Quic.sub, reclaim_and_close. destruct (tcp_state c) as [parts|[s|s|h]|] eqn:Hs; cbn.
  - destruct (parts_reclaim_ok parts) as [kit Hk]. destruct (TlsParts.reclaim_buffers parts). cbn in Hk. subst. by eexists.
  - unfold over. cbn. unfold Stack.reclaim_buffers, Stack.on_tls. destruct (parts_reclaim_ok (Stack.tls s)) as [kit Hk].
    destruct (TlsParts.reclaim_buffers (Stack.tls s)). cbn in Hk. subst. by eexists.
  - unfold over. cbn. unfold Stack.reclaim_buffers, Stack.on_tls. destruct (parts_reclaim_ok (Stack.tls s)) as [kit Hk].
    destruct (TlsParts.reclaim_buffers (Stack.tls s)). cbn in Hk. subst. by eexists.
  - by eexists.
  - by eexists.
Qed.

Lemma on_http_unmoved {B} (m : M Error Http B) c : unmoved c (on_http m c).2.
Proof. unfold on_http, view. destruct (tcp_state c) eqn:Hs; cbn; rewrite ?Hs; try done. by destruct (m http). Qed.

Lemma upgrade_view tm now parts c r c' : upgrade grant BUF tm now parts c = (r, c') → r = Panic ∨
  (∃ kit, r = Ok (Rejected kit) ∧ view c' = (tcp_id c, 2%nat)) ∨ (r = Ok Upgraded ∧ view c' = (tcp_id c, 1%nat)).
Proof.
  unfold upgrade. destruct (http_conn_for_alpn parts) as [[proto http]|kit] eqn:Hh.
  - unfold Quic.attempt. destruct (HttpServer.tcp_feed_data _ _ _) as [[u|e|] http']; intros [= <- <-]; [right; right..|left]; done.
  - assert (∃ k, kit = Ok k) as [k ->].
    { unfold http_conn_for_alpn in Hh. destruct (TlsParts.alpn parts); [|done]. repeat case_decide; try done. injection Hh as <-. apply parts_reclaim_ok. }
    intros [= <- <-]. right. left. by exists k.
Qed.

Lemma feed_view tm data now c r c' : feed_conn grant BUF tm data now c = (r, c') → r = Panic ∨
  ((r = Ok Fed ∨ ∃ e, r = Err e) ∧ unmoved c c') ∨
  (kind (tcp_state c) = 0%nat ∧ ((∃ x, (∃ kit, r = Ok (Failed x kit)) ∧ view c' = (tcp_id c, 2%nat)) ∨
     (∃ kit, r = Ok (Rejected kit) ∧ view c' = (tcp_id c, 2%nat)) ∨ (r = Ok Upgraded ∧ view c' = (tcp_id c, 1%nat)))).
Proof.
  unfold feed_conn. destruct (tcp_state c) as [parts|http|] eqn:Hs.
  - destruct (TcpTls.feed_data _ _ _ _) as [[u|e|] parts']; [|intros Hr|intros [= <- <-]; by left].
    + case_match; [|intros [= <- <-]; right; left; split; [by left|unfold view; cbn; by rewrite Hs]].
      intros Hu%upgrade_view. cbn in Hu. destruct Hu as [|[Hu|Hu]]; [by left|right; right; split; [done|]..]; auto.
    + right. right. split; [done|]. left. exists e.
      destruct (reclaim_ok (c <| tcp_state := Handshaking parts' |>)) as [kit Hk]. rewrite (M_step_ok _ _ _ _ _ Hk) in Hr. injection Hr as <- <-.
      split; [by eexists|done].
  - destruct (HttpServer.tcp_feed_data _ _ _) as [[u|e|] http']; intros [= <- <-]; [right; left..|by left]; (split; [|unfold view; cbn; by rewrite Hs]); [by left|right; by eexists].
  - intros [= <- <-]. right. left. split; [right; by eexists|done].
Qed.

Lemma output_view cap c : unmoved c (output_conn grant BUF cap c).2.
Proof. unfold output_conn, view. destruct (tcp_state c) eqn:Hs; cbn; [| |by rewrite Hs]; case_match; cbn; by rewrite ?Hs. Qed.

Lemma poll_view cap c r c' : poll_conn grant BUF cap c = (r, c') → r = Panic ∨
  ((r = Ok None ∨ ∃ e, r = Err e) ∧ unmoved c c') ∨
  (kind (tcp_state c) = 1%nat ∧ ((∃ ev, r = Ok (Some (tcp_id c, Event ev)) ∧ unmoved c c') ∨
     (∃ kit, r = Ok (Some (tcp_id c, Reclaimed kit)) ∧ view c' = (tcp_id c, 2%nat)))).
Proof.
  unfold poll_conn. erewrite M_step_ok by reflexivity. unfold mbind at 1, M_bind at 1.
  pose proof (on_http_unmoved (HttpServer.poll_event (HttpServerConn := dyn_conn grant BUF) cap) c) as Hu.
  assert (∀ b, (on_http (HttpServer.poll_event (HttpServerConn := dyn_conn grant BUF) cap) c).1 = Ok (Some b) → kind (tcp_state c) = 1%nat) as Hk.
  { intros b. unfold on_http. by destruct (tcp_state c). }
  destruct (on_http _ c) as [[[[ev|]|]|e|] c1]; cbn in Hu, Hk; cbn.
  - intros [= <- <-]. right. right. split; [by eapply Hk|]. left. by eexists.
  - specialize (Hk None eq_refl). assert (kind (tcp_state c1) = 1%nat) as Hk1 by (unfold view in Hu; congruence).
    assert (tcp_id c1 = tcp_id c) as Hid by (unfold view in Hu; congruence).
    erewrite M_step_ok by reflexivity. destruct (tcp_state c1) as [|http|] eqn:Hs1; [done| |done]. destruct (ask _ _ _ http).
    + intros Hr. destruct (reclaim_ok c1) as [kit Hkit]. erewrite M_step_ok in Hr by exact Hkit. injection Hr as <- <-.
      right. right. split; [done|]. right. exists kit. rewrite Hid. split; [done|]. unfold view. cbn. by rewrite Hid.
    + intros [= <- <-]. right. left. split; [by left|done].
  - intros [= <- <-]. right. left. split; [by left|done].
  - intros [= <- <-]. right. left. split; [right; by eexists|done].
  - intros [= <- <-]. by left.
Qed.

Lemma tick_view timeout now c r c' : tick_conn grant BUF timeout now c = (r, c') → r = Panic ∨
  (r = Ok None ∧ unmoved c c') ∨
  (kind (tcp_state c) = 0%nat ∧ ∃ kit, r = Ok (Some (tcp_id c, kit)) ∧ view c' = (tcp_id c, 2%nat)).
Proof.
  unfold tick_conn. erewrite M_step_ok by reflexivity. destruct (tcp_state c) as [parts|http|] eqn:Hs.
  - case_match; [|intros [= <- <-]; right; left; done]. intros Hr. right. right. split; [done|].
    destruct (reclaim_ok c) as [kit Hkit]. erewrite M_step_ok in Hr by exact Hkit. injection Hr as <- <-. by exists kit.
  - pose proof (on_http_unmoved (HttpServer.handle_timeout (HttpServerConn := dyn_conn grant BUF) now) c) as Hu.
    unfold Quic.attempt, mbind, M_bind. destruct (on_http _ c) as [[]]; cbn in *; intros [= <- <-]; [right; left..|left]; done.
  - intros [= <- <-]. right. left. done.
Qed.

Lemma eof_view c r c' : eof_conn grant BUF c = (r, c') → r = Panic ∨
  ((r = Ok None ∨ ∃ e, r = Err e) ∧ unmoved c c') ∨
  ((kind (tcp_state c) < 2)%nat ∧ ∃ p, r = Ok (Some p) ∧ view c' = (tcp_id c, 2%nat) ∧ (kind (tcp_state c) = 0%nat → p.1 = [])).
Proof.
  unfold eof_conn. erewrite M_step_ok by reflexivity. destruct (tcp_state c) as [parts|http|] eqn:Hs.
  - intros Hr. right. right. cbn. split; [lia|]. destruct (reclaim_ok c) as [kit Hkit]. erewrite M_step_ok in Hr by exact Hkit.
    injection Hr as <- <-. eexists. by split.
  - pose proof (on_http_unmoved (drain_events grant BUF (queued http)) c) as Hu. unfold mbind at 1, M_bind at 1.
    destruct (on_http _ c) as [[evs|e|] c1]; cbn in Hu.
    + intros Hr. right. right. split; [cbn; lia|]. destruct (reclaim_ok c1) as [kit Hkit]. erewrite M_step_ok in Hr by exact Hkit.
      injection Hr as <- <-. eexists. split; [done|]. unfold view in *. cbn in *. split; [congruence|done].
    + intros [= <- <-]. right. left. split; [right; by eexists|done].
    + intros [= <- <-]. by left.
  - intros [= <- <-]. right. left. split; [by left|done].
Qed.

Lemma close_view c : (close_conn grant BUF c = (Ok None, c) ∧ kind (tcp_state c) = 2%nat) ∨
  ((kind (tcp_state c) < 2)%nat ∧ ∃ kit, close_conn grant BUF c = (Ok (Some kit), c <| tcp_state := Closed |>)).
Proof.
  unfold close_conn. erewrite !M_step_ok by reflexivity. destruct (reclaim_ok c) as [kit Hkit].
  destruct (tcp_state c) eqn:Hs; cbn [kind]; [right|right|left; by split]; (split; [lia|]; exists kit; by erewrite M_step_ok by exact Hkit).
Qed.

End connection.

(** ** What the manager promises *)

(** An abstract manager: how far each connection is, and the next identifier. *)
Record spec := Spec { tcps : list (Z * nat); quics : list Z; next : Z }.

(** Its moves, with what they announce. *)
Inductive move : spec → list ServerEvent → spec → Prop :=
| move_arrival tv qv n i ev : (i, 1%nat) ∈ tv ∨ i ∈ qv → move (Spec tv qv n) [EvHttp i ev] (Spec tv qv n)
| move_connected t1 t2 qv n i : move (Spec (t1 ++ (i, 0%nat) :: t2) qv n) [EvConnected i] (Spec (t1 ++ (i, 1%nat) :: t2) qv n)
| move_closed t1 t2 qv n i k : (k < 2)%nat → move (Spec (t1 ++ (i, k) :: t2) qv n) [EvClosed i] (Spec (t1 ++ (i, 2%nat) :: t2) qv n)
| move_reaped tv q1 q2 n i : move (Spec tv (q1 ++ i :: q2) n) [EvClosed i] (Spec tv (q1 ++ q2) n)
| move_forget tv qv n : move (Spec tv qv n) [] (Spec (filter (λ p, p.2 ≠ 2%nat) tv) qv n)
| move_skip tv qv n : move (Spec tv qv n) [] (Spec tv qv (n + 1))
| move_accept tv qv n : move (Spec tv qv n) [] (Spec (tv ++ [(n, 0%nat)]) qv (n + 1))
| move_accept_quic tv qv n : move (Spec tv qv n) [] (Spec tv (qv ++ [n]) (n + 1)).

Inductive moves : spec → list ServerEvent → spec → Prop :=
| moves_refl s : moves s [] s
| moves_step s evs s' evs' s'' : move s evs s' → moves s' evs' s'' → moves s (evs ++ evs') s''.

Lemma moves_one s evs s' : move s evs s' → moves s evs s'.
Proof. intros Hm. rewrite <- (app_nil_r evs). eapply moves_step; [done|constructor]. Qed.
Lemma served_trans s evs s' evs' s'' : moves s evs s' → moves s' evs' s'' → moves s (evs ++ evs') s''.
Proof. induction 1 as [|s1 e1 s2 e2 s3 Hm _ IH]; intros H2; [done|]. rewrite <- app_assoc. eapply moves_step; [done|by apply IH]. Qed.

Definition fit (log : list ServerEvent) (s : spec) : Prop := fits log (tcps s) (quics s) (next s).

Lemma set_kind_middle t1 t2 (qv : list Z) i k k' : NoDup ((t1 ++ (i, k) :: t2).*1 ++ qv) → set_kind i k' <$> (t1 ++ (i, k) :: t2) = t1 ++ (i, k') :: t2.
Proof.
  intros Hn. apply NoDup_app in Hn as (Hn & _ & _). rewrite fmap_app in Hn. cbn in Hn. apply NoDup_app in Hn as (_ & Hn1 & Hn2).
  apply NoDup_cons in Hn2 as (Hn2 & _).
  assert (∀ l : list (Z * nat), i ∉ l.*1 → set_kind i k' <$> l = l) as Hid.
  { intros l Hl. rewrite <- (list_fmap_id l) at 2. apply list_fmap_ext. intros j p Hp. unfold set_kind. case_decide as Hj; [|done].
    exfalso. apply Hl. rewrite <- Hj. apply list_elem_of_fmap_2. by eapply list_elem_of_lookup_2. }
  rewrite fmap_app, fmap_cons, !Hid; [unfold set_kind; cbn; by rewrite decide_True|done|].
  intros Hi. apply (Hn1 i Hi). by left.
Qed.

(** Every move keeps the log in order. *)
Lemma move_fit s evs s' log : move s evs s' → fit log s → fit (log ++ evs) s'.
Proof.
  unfold fit. destruct 1; cbn; rewrite ?app_nil_r.
  - by apply fits_http.
  - intros Hf. erewrite <- set_kind_middle by (apply Hf). apply fits_connected; [|done]. apply elem_of_app. right. by left.
  - intros Hf. erewrite <- set_kind_middle by (apply Hf). eapply fits_closed; [|done|done]. apply elem_of_app. right. by left.
  - intros Hf. eapply fits_reaped; [apply elem_of_app; right; by left| |apply sublist_app; [done|by apply sublist_cons]|done].
    pose proof (fits_nodup _ _ _ _ Hf) as Hn. apply NoDup_app in Hn as (_ & _ & Hn). rewrite <- Permutation_middle in Hn. by apply NoDup_cons in Hn as [].
  - apply fits_forget. apply sublist_filter.
  - apply fits_skip.
  - apply fits_accept.
  - apply fits_accept_quic.
Qed.
Lemma moves_fit s evs s' log : moves s evs s' → fit log s → fit (log ++ evs) s'.
Proof. intros Hm. revert log. induction Hm as [s|s1 e1 s2 e2 s3 Hm _ IH]; intros log Hf; [by rewrite app_nil_r|]. rewrite app_assoc. eapply IH, move_fit; eassumption. Qed.

(** No connection goes without being announced. *)
Definition live (i : Z) (s : spec) : Prop := (∃ k, (k < 2)%nat ∧ (i, k) ∈ tcps s) ∨ i ∈ quics s.
Lemma move_announced s evs s' i : move s evs s' → live i s → live i s' ∨ EvClosed i ∈ evs.
Proof.
  unfold live. destruct 1; cbn.
  - auto.
  - intros [(k & Hk & [Hi|[[= -> ->]|Hi]%elem_of_cons]%elem_of_app)|Hi]; [| | |auto]; left; left.
    + exists k. split; [done|]. apply elem_of_app. by left.
    + exists 1%nat. split; [lia|]. apply elem_of_app. right. by left.
    + exists k. split; [done|]. apply elem_of_app. right. by right.
  - intros [(k' & Hk & [Hi|[[= -> ->]|Hi]%elem_of_cons]%elem_of_app)|Hi]; [|right; by left| |auto]; left; left; exists k'; (split; [done|]); apply elem_of_app; [by left|right; by right].
  - intros [Hi|[Hi|[->|Hi]%elem_of_cons]%elem_of_app]; [auto| |right; by left|]; left; right; apply elem_of_app; auto.
  - intros [(k & Hk & Hi)|Hi]; [|auto]. left. left. exists k. split; [done|]. apply list_elem_of_filter. cbn. split; [lia|done].
  - auto.
  - intros [(k & Hk & Hi)|Hi]; [|auto]. left. left. exists k. split; [done|]. apply elem_of_app. by left.
  - intros [Hi|Hi]; [auto|]. left. right. apply elem_of_app. by left.
Qed.
Lemma moves_announced s evs s' i : moves s evs s' → live i s → live i s' ∨ EvClosed i ∈ evs.
Proof.
  induction 1 as [s|s1 e1 s2 e2 s3 Hm _ IH]; intros Hi; [by left|]. rewrite elem_of_app.
  destruct (move_announced _ _ _ _ Hm Hi) as [H2|]; [|auto]. destruct (IH H2); auto.
Qed.

(** ** The queue *)

Definition enqueue (max : Z) (q evs : list ServerEvent) : list ServerEvent :=
  foldl (λ q ev, (if max <=? len q then tail q else q) ++ [ev]) q evs.

Lemma enqueue_app max q l1 l2 : enqueue max q (l1 ++ l2) = enqueue max (enqueue max q l1) l2.
Proof. apply foldl_app. Qed.
Lemma tail_sublist {A} (l : list A) : sublist (tail l) l.
Proof. destruct l; [constructor|]. by apply sublist_cons. Qed.
Lemma enqueue_sublist max evs : ∀ q, sublist (enqueue max q evs) (q ++ evs).
Proof.
  induction evs as [|ev evs IH]; intros q; cbn; [by rewrite app_nil_r|]. etrans; [apply IH|].
  rewrite <- app_assoc. cbn. apply sublist_app; [|done]. case_match; [apply tail_sublist|done].
Qed.
Lemma enqueue_len max q evs : len q ≤ Z.max 1 max → len (enqueue max q evs) ≤ Z.max 1 max.
Proof.
  revert q. induction evs as [|ev evs IH]; intros q Hq; cbn; [done|]. apply IH. rewrite length_app. cbn.
  destruct (Z.leb_spec max (len q)); [|lia]. destruct q; cbn in *; lia.
Qed.
(** The newest events are not lost. *)
Lemma enqueue_suffix max q evs : len evs ≤ Z.max 1 max → ∃ q', enqueue max q evs = q' ++ evs.
Proof.
  induction evs as [|ev evs IH] using rev_ind; intros Hl; [exists q; by rewrite app_nil_r|]. rewrite length_app in Hl. cbn in Hl.
  destruct IH as [q' Hq']; [lia|]. rewrite enqueue_app, Hq'. unfold enqueue. cbn. destruct (Z.leb_spec max (len (q' ++ evs))) as [Hm|]; [|exists q'; by rewrite app_assoc].
  destruct q' as [|x q']; [|exists q'; cbn; by rewrite app_assoc]. exists []. cbn in Hm. destruct evs as [|y evs]; [done|]. cbn in *. lia.
Qed.

(** ** The manager keeps its promise *)
Section manager.
Context {A : Type} `{H3.Params} `{Platform} `{Primitives} (grant : Z → bool) (BUF : Z).
Implicit Types m : t A.

Definition abstract m : spec := Spec (view <$> tcp_conns m) (quic_id <$> quic_conns m) (next_id m).

(** From [m] to [m'] the manager made these moves and queued what they announce. *)
Record acts m (evs : list ServerEvent) m' : Prop := {
  acts_moves : moves (abstract m) evs (abstract m');
  acts_events : events m' = enqueue (max_events (config m)) (events m) evs;
  acts_config : config m' = config m;
  acts_tcp : len (tcp_conns m') ≤ Z.max (len (tcp_conns m)) (max_tcp_conns (config m));
  acts_quic : len (quic_conns m') ≤ Z.max (len (quic_conns m)) (max_quic_conns (config m))
}.
Lemma acts_trans m1 evs1 m2 evs2 m3 : acts m1 evs1 m2 → acts m2 evs2 m3 → acts m1 (evs1 ++ evs2) m3.
Proof. intros [] []. rewrite acts_config0 in *. split; [by eapply served_trans|rewrite enqueue_app; congruence|congruence|lia|lia]. Qed.

(** Nothing of it changes. *)
Record still m m' : Prop := {
  still_abstract : abstract m' = abstract m;
  still_events : events m' = events m;
  still_config : config m' = config m
}.
Global Instance still_preorder : PreOrder still.
Proof. split; [by split|]. intros m1 m2 m3 [] []. split; congruence. Qed.

Lemma same_tcp m m' : tcps (abstract m') = tcps (abstract m) → len (tcp_conns m') = len (tcp_conns m).
Proof. intros Ht. apply (f_equal length) in Ht. cbn in Ht. rewrite !length_fmap in Ht. lia. Qed.
Lemma same_quic m m' : quics (abstract m') = quics (abstract m) → len (quic_conns m') = len (quic_conns m).
Proof. intros Ht. apply (f_equal length) in Ht. cbn in Ht. rewrite !length_fmap in Ht. lia. Qed.
Lemma acts_still m m' : still m m' → acts m [] m'.
Proof.
  intros [Ha He Hc]. pose proof (same_tcp m m' ltac:(by rewrite Ha)). pose proof (same_quic m m' ltac:(by rewrite Ha)).
  split; [rewrite Ha; constructor|done|done|lia|lia].
Qed.

Lemma push_still ev m : abstract (push_server_event ev m) = abstract m ∧ config (push_server_event ev m) = config m ∧
  events (push_server_event ev m) = enqueue (max_events (config m)) (events m) [ev].
Proof. done. Qed.
Lemma give_back_still kit m : still m (give_back kit m).
Proof. destruct kit; by split. Qed.
Lemma note_still i r m : still m (note_close_reason i r m).
Proof. unfold note_close_reason. case_match; by split. Qed.

(** A move is announced. *)
Lemma acts_push m m1 m2 ev : moves (abstract m) [ev] (abstract m1) → events m1 = events m → config m1 = config m →
  len (tcp_conns m1) ≤ Z.max (len (tcp_conns m)) (max_tcp_conns (config m)) → quics (abstract m1) = quics (abstract m) →
  still m1 m2 → acts m [ev] (push_server_event ev m2).
Proof.
  intros Hm He Hc Ht Hq [Ha He' Hc']. pose proof (same_tcp m1 m2 ltac:(by rewrite Ha)). pose proof (same_quic m m2 ltac:(by rewrite Ha)).
  split; [by rewrite (proj1 (push_still _ _)), Ha| |cbn; congruence|cbn; lia|cbn; lia].
  cbn. by rewrite Hc', Hc, He', He.
Qed.

(** *** A call on a TCP connection *)
Lemma is_tcp_id i c : is_tcp i c = true → tcp_id c = i.
Proof. unfold is_tcp. lia. Qed.
Lemma on_conn_spec {B} i (f : M Error TcpConn B) m r m' : on_conn i f m = (r, m') →
  (r = Ok None ∧ m' = m) ∨ ∃ t1 c t2 c' r0, tcp_conns m = t1 ++ c :: t2 ∧ f c = (r0, c') ∧ tcp_id c = i ∧ r = Some <$> r0 ∧
    m' = m <| tcp_conns := t1 ++ c' :: t2 |>.
Proof.
  unfold on_conn, on_tcp. destruct (on_first _ _ _ _) as [r1 [x l]] eqn:Hf. intros [= <- <-].
  apply on_first_spec in Hf as [(-> & -> & -> & _)|(t1 & c & t2 & c' & r0 & Ht & -> & _ & Hc & Hm & ->)]; [left; by destruct m|right].
  unfold alone in Hm. destruct (f c) as [r2 c2] eqn:Hfc. injection Hm as <- <- <-. exists t1, c, t2, c2, r2. split_and!; try done. by apply is_tcp_id.
Qed.
Lemma update_abstract m t1 c t2 c' : tcp_conns m = t1 ++ c :: t2 → abstract (m <| tcp_conns := t1 ++ c' :: t2 |>) =
  Spec ((view <$> t1) ++ view c' :: (view <$> t2)) (quic_id <$> quic_conns m) (next_id m).
Proof. intros _. unfold abstract. cbn. by rewrite fmap_app. Qed.
Lemma found_abstract m t1 c t2 : tcp_conns m = t1 ++ c :: t2 →
  abstract m = Spec ((view <$> t1) ++ view c :: (view <$> t2)) (quic_id <$> quic_conns m) (next_id m).
Proof. intros Ht. unfold abstract. by rewrite Ht, fmap_app. Qed.
Lemma update_still m t1 c t2 c' : tcp_conns m = t1 ++ c :: t2 → view c' = view c → still m (m <| tcp_conns := t1 ++ c' :: t2 |>).
Proof. intros Ht Hv. split; [|done..]. by rewrite (update_abstract _ _ _ _ _ Ht), Hv, (found_abstract _ _ _ _ Ht). Qed.
Lemma update_push m t1 c t2 c' i k k' ev m2 : tcp_conns m = t1 ++ c :: t2 → view c = (i, k) → view c' = (i, k') →
  (∀ t1 t2 qv n, moves (Spec (t1 ++ (i, k) :: t2) qv n) [ev] (Spec (t1 ++ (i, k') :: t2) qv n)) →
  still (m <| tcp_conns := t1 ++ c' :: t2 |>) m2 → acts m [ev] (push_server_event ev m2).
Proof.
  intros Ht Hv Hv' Hm Hs. apply (acts_push m (m <| tcp_conns := t1 ++ c' :: t2 |>)); [|done|done| |done|exact Hs].
  - rewrite (update_abstract _ _ _ _ _ Ht), (found_abstract _ _ _ _ Ht), Hv, Hv'. apply Hm.
  - cbn. rewrite Ht, !length_app. cbn. lia.
Qed.
Lemma on_conn_still {B} i (f : M Error TcpConn B) m : (∀ c, view (f c).2 = view c) → still m (on_conn i f m).2.
Proof.
  intros Hf. destruct (on_conn i f m) as [r m'] eqn:Hr. apply on_conn_spec in Hr as [[_ ->]|(t1 & c & t2 & c' & r0 & Ht & Hc & _ & _ & ->)]; [done|].
  eapply update_still; [done|]. specialize (Hf c). by rewrite Hc in Hf.
Qed.

Lemma closes (i : Z) k t1 t2 qv n : (k < 2)%nat → moves (Spec (t1 ++ (i, k) :: t2) qv n) [EvClosed i] (Spec (t1 ++ (i, 2%nat) :: t2) qv n).
Proof. intros Hk. by apply moves_one, move_closed. Qed.
Lemma acts_closed m t1 c t2 c' kit reason : tcp_conns m = t1 ++ c :: t2 → (kind (tcp_state c) < 2)%nat → view c' = (tcp_id c, 2%nat) →
  acts m [EvClosed (tcp_id c)] (closed (tcp_id c) kit reason (m <| tcp_conns := t1 ++ c' :: t2 |>)).
Proof.
  intros Ht Hk Hv. eapply update_push; [done|reflexivity|exact Hv|intros; by apply closes|].
  etrans; [apply give_back_still|apply note_still].
Qed.

(** Ends are announced last, and there are not more than connections. *)
Definition shaped (n : Z) (evs : list ServerEvent) : Prop := ∃ hs cs, evs = hs ++ cs ∧ (∀ i, EvClosed i ∉ hs) ∧ len cs ≤ n.
Definition size m : Z := len (tcp_conns m) + len (quic_conns m).
Definition acted m m' : Prop := ∃ evs, acts m evs m' ∧ shaped (size m) evs.

Lemma acted_still m m' : still m m' → acted m m'.
Proof. intros Hs. exists []. split; [by apply acts_still|]. exists [], []. split_and!; [done|by intros ? ?%elem_of_nil|unfold size; cbn; lia]. Qed.
Lemma acted_closed m t1 c t2 c' kit reason : tcp_conns m = t1 ++ c :: t2 → (kind (tcp_state c) < 2)%nat → view c' = (tcp_id c, 2%nat) →
  acted m (closed (tcp_id c) kit reason (m <| tcp_conns := t1 ++ c' :: t2 |>)).
Proof.
  intros Ht Hk Hv. eexists. split; [by eapply acts_closed|]. eexists [], [_]. split_and!; [done|by intros ? ?%elem_of_nil|].
  unfold size. rewrite Ht, length_app. cbn. lia.
Qed.
Lemma shaped_open n ev : 0 ≤ n → (∀ i, ev ≠ EvClosed i) → shaped n [ev].
Proof. intros Hn Hev. exists [ev], []. split_and!; [done| |done]. intros i Hi%list_elem_of_singleton. by apply (Hev i). Qed.
Lemma size_nonneg m : 0 ≤ size m.
Proof. unfold size. lia. Qed.

Lemma alloc_id_ok m r m' : alloc_id m = (r, m') → r = Panic ∨ r = Ok (next_id m) ∧ m' = m <| next_id := next_id m + 1 |>.
Proof.
  unfold alloc_id. erewrite M_step_ok by reflexivity. unfold uadd. case_decide; [|intros [= <- <-]; by left].
  erewrite M_step_lift by reflexivity. intros [= <- <-]. by right.
Qed.

Lemma accept_tcp_acted secret random now m r m' : accept_tcp grant BUF secret random now m = (r, m') → r = Panic ∨ acted m m'.
Proof.
  unfold accept_tcp. erewrite M_step_ok by reflexivity. case_match eqn:Hlim; [intros [= <- <-]; right; by apply acted_still|].
  apply Z.leb_gt in Hlim. unfold mbind at 1, M_bind at 1. destruct (alloc_id m) as [ra m1] eqn:Ha.
  apply alloc_id_ok in Ha as [->|[-> ->]]; [intros [= <- <-]; by left|]. erewrite M_step_ok by reflexivity.
  unfold mbind at 1, M_bind at 1, lift. intros Hr. right.
  assert (∀ evs m', abstract m' = abstract m <| next_id := next_id m + 1 |> → events m' = events m → config m' = config m → evs = [] →
    acts m evs m') as Hskip.
  { intros evs m2 Hab Hev Hcf ->. pose proof (same_tcp m m2 ltac:(by rewrite Hab)). pose proof (same_quic m m2 ltac:(by rewrite Hab)).
    split; [rewrite Hab; apply moves_one, move_skip|done|done|lia|lia]. }
  destruct (match _ with Some _ => _ | None => _ end) as [parts|e|] in Hr; injection Hr as <- <-.
  2,3: exists []; (split; [by apply Hskip|]; exists [], []; split_and!; [done|by intros ? ?%elem_of_nil|apply size_nonneg]).
  exists []. split; [|exists [], []; split_and!; [done|by intros ? ?%elem_of_nil|apply size_nonneg]].
  split; [|done|done|cbn; rewrite length_app; cbn; lia|cbn; lia].
  unfold abstract. cbn. rewrite fmap_app. apply moves_one, move_accept.
Qed.

Lemma accept_cleartext_acted now m r m' : accept_tcp_cleartext grant BUF now m = (r, m') → r = Panic ∨ acted m m'.
Proof.
  unfold accept_tcp_cleartext. erewrite M_step_ok by reflexivity. case_match eqn:Hlim; [intros [= <- <-]; right; by apply acted_still|].
  apply Z.leb_gt in Hlim. unfold mbind at 1, M_bind at 1. destruct (alloc_id m) as [ra m1] eqn:Ha.
  apply alloc_id_ok in Ha as [->|[-> ->]]; [intros [= <- <-]; by left|]. cbv zeta. intros [= <- <-]. right.
  eexists. split; [|apply (shaped_open _ (EvConnected (next_id m))); [apply size_nonneg|done]].
  match goal with |- acts _ _ (push_server_event _ ?x) => apply (acts_push m x); [|done|done| |done|reflexivity]; cbn end.
  - unfold abstract. cbn. rewrite fmap_app. eapply (moves_step _ []); [apply move_accept|]. apply moves_one. cbn. apply move_connected.
  - rewrite length_app. cbn. lia.
Qed.

Lemma tcp_feed_acted i data now m r m' : tcp_feed grant BUF i data now m = (r, m') → r = Panic ∨ acted m m'.
Proof.
  unfold tcp_feed. erewrite M_step_ok by reflexivity. fold (on_conn (A:=A) i (feed_conn grant BUF (http_timeouts (config m)) data now)).
  unfold mbind at 1, M_bind at 1. destruct (on_conn i _ m) as [r1 m1] eqn:Hc.
  apply on_conn_spec in Hc as [[-> ->]|(t1 & c & t2 & c' & r0 & Ht & Hf & <- & -> & ->)]; [intros [= <- <-]; right; by apply acted_still|].
  apply feed_view in Hf as [->|[[Hr Hv]|(Hk & Hm)]]; [intros [= <- <-]; by left| |].
  - intros Hr'. assert (m' = m <| tcp_conns := t1 ++ c' :: t2 |>) as ->; [|right; by eapply acted_still, update_still].
    destruct Hr as [->|[e ->]]; by injection Hr' as <- <-.
  - destruct Hm as [(x & (kit & ->) & Hv)|[(kit & -> & Hv)|[-> Hv]]]; intros [= <- <-]; right.
    + apply (acted_closed m t1 c t2 c' kit (HandshakeError x)); [done|lia|done].
    + apply (acted_closed m t1 c t2 c' kit UnsupportedAlpn); [done|lia|done].
    + exists [EvConnected (tcp_id c)]. split; [|apply shaped_open; [apply size_nonneg|done]].
      eapply (update_push m t1 c t2 c' (tcp_id c) 0 1); [done|by rewrite <- Hk|done| |reflexivity]. intros. apply moves_one, move_connected.
Qed.

(** Arrivals that are queued. *)
Lemma drained_moves (i : Z) evs tv qv n : (i, 1%nat) ∈ tv → moves (Spec tv qv n) (EvHttp i <$> evs) (Spec tv qv n).
Proof.
  intros Hi. induction evs as [|ev evs IH]; [constructor|]. rewrite fmap_cons. apply (moves_step _ [EvHttp i ev] (Spec tv qv n) (EvHttp i <$> evs)); [|done].
  apply move_arrival. by left.
Qed.
Lemma push_all_still evs : ∀ m, abstract (foldl (λ m ev, push_server_event ev m) m evs) = abstract m ∧
  config (foldl (λ m ev, push_server_event ev m) m evs) = config m ∧
  events (foldl (λ m ev, push_server_event ev m) m evs) = enqueue (max_events (config m)) (events m) evs.
Proof. induction evs as [|ev evs IH]; intros m; [done|]. cbn. destruct (IH (push_server_event ev m)) as (-> & -> & ->). done. Qed.

Lemma tcp_eof_acted i m r m' : tcp_eof grant BUF i m = (r, m') → r = Panic ∨ acted m m'.
Proof.
  unfold tcp_eof, mbind, M_bind. destruct (on_conn i _ m) as [r1 m1] eqn:Hc.
  apply on_conn_spec in Hc as [[-> ->]|(t1 & c & t2 & c' & r0 & Ht & Hf & <- & -> & ->)]; [intros [= <- <-]; right; by apply acted_still|].
  apply eof_view in Hf as [->|[[Hr Hv]|(Hk & p & -> & Hv & Hp)]]; [intros [= <- <-]; by left| |].
  - intros Hr'. assert (m' = m <| tcp_conns := t1 ++ c' :: t2 |>) as ->; [|right; by eapply acted_still, update_still].
    destruct Hr as [->|[e ->]]; by injection Hr' as <- <-.
  - destruct p as [drained kit]. cbn in Hp. cbn. intros [= <- <-]. right. set (m1 := m <| tcp_conns := t1 ++ c' :: t2 |>).
    rewrite <- (foldl_fmap (λ m ev, push_server_event ev m) _ drained (EvHttp (tcp_id c))).
    pose proof (give_back_still kit m1) as [Ha1 He1 Hc1]. destruct (push_all_still (EvHttp (tcp_id c) <$> drained) (give_back kit m1)) as (Ha2 & Hc2 & He2).
    set (m2 := foldl _ _ _) in *. destruct (note_still (tcp_id c) PeerEof m2) as [Ha3 He3 Hc3].
    exists ((EvHttp (tcp_id c) <$> drained) ++ [EvClosed (tcp_id c)]). split.
    + assert (abstract (note_close_reason (tcp_id c) PeerEof m2) = abstract m1) as Ha by congruence.
      pose proof (same_tcp m1 _ (f_equal tcps Ha)). pose proof (same_quic m1 _ (f_equal quics Ha)).
      split; [|cbn; rewrite enqueue_app, Hc3, He3, Hc2, He2, Hc1, He1; done|cbn; rewrite Hc3, Hc2, Hc1; done| |].
      * rewrite (proj1 (push_still _ _)), Ha. unfold m1. rewrite (update_abstract _ _ _ _ _ Ht), (found_abstract _ _ _ _ Ht), Hv. change (view c) with (tcp_id c, kind (tcp_state c)).
        eapply served_trans; [|by apply closes]. destruct (kind (tcp_state c)) as [|[|k]] eqn:Hkc; [rewrite Hp by done; constructor| |lia].
        apply drained_moves. apply elem_of_app. right. by left.
      * cbn. transitivity (len (tcp_conns m)); [|lia]. rewrite H2. unfold m1. cbn. rewrite Ht, !length_app. cbn. lia.
      * cbn. rewrite H3. unfold m1. cbn. lia.
    + exists (EvHttp (tcp_id c) <$> drained), [EvClosed (tcp_id c)]. split_and!; [done| |].
      * intros j (ev & ? & _)%list_elem_of_fmap. done.
      * unfold size. rewrite Ht, length_app. cbn. lia.
Qed.

(** *** Timeouts *)
Lemma tick_moves timeout now (l : list TcpConn) ps qv n :
  Forall2 (answered (alone (tick_conn grant BUF timeout now))) l ps → ∀ t1,
  moves (Spec (t1 ++ (view <$> l)) qv n) (EvClosed <$> (fst <$> omap id (ps.*2))) (Spec (t1 ++ (view <$> ps.*1)) qv n) ∧
  (length (omap id (ps.*2)) ≤ length l)%nat.
Proof.
  induction 1 as [|c [c' o] l ps (x & x' & Hc) _ IH]; intros t1; [split; [constructor|done]|].
  unfold alone in Hc. destruct (tick_conn _ _ _ _ c) as [r c1] eqn:Ht. injection Hc as -> _ <-. cbn [fst snd] in *.
  destruct (IH (t1 ++ [view c1])) as [Hm Hl]. rewrite <- !app_assoc in Hm. cbn in Hm.
  apply tick_view in Ht as [|[[Ho Hv]|(Hk & kit & Ho & Hv)]]; [done|..]; injection Ho as ->; cbn.
  - split; [|lia]. rewrite Hv in *. exact Hm.
  - split; [|lia]. rewrite Hv in *. change (view c) with (tcp_id c, kind (tcp_state c)).
    apply (moves_step _ [EvClosed (tcp_id c)] (Spec (t1 ++ (tcp_id c, 2%nat) :: (view <$> l)) qv n)); [|exact Hm]. apply move_closed. lia.
Qed.

Lemma note_all_still (l : list (Z * option HttpServer.TlsBufKit)) : ∀ m,
  let m' := foldl (λ m p, push_server_event (EvClosed p.1) (note_close_reason p.1 HandshakeTimeout m)) m l in
  abstract m' = abstract m ∧ config m' = config m ∧ events m' = enqueue (max_events (config m)) (events m) (EvClosed <$> l.*1).
Proof.
  induction l as [|p l IH]; intros m; [done|]. cbn. destruct (IH (push_server_event (EvClosed p.1) (note_close_reason p.1 HandshakeTimeout m))) as (-> & -> & ->).
  destruct (note_still p.1 HandshakeTimeout m) as [Ha He Hc]. cbn. rewrite Hc, He. split_and!; [|done|done]. by rewrite (proj1 (push_still _ _)), Ha.
Qed.

Lemma tcp_timeouts_acts now m r m' : handle_tcp_timeouts grant BUF now m = (r, m') → r = Panic ∨ r = Ok tt ∧
  ∃ ids, acts m (EvClosed <$> ids) m' ∧ len ids ≤ len (tcp_conns m) ∧ len (quic_conns m') = len (quic_conns m).
Proof.
  unfold handle_tcp_timeouts. erewrite M_step_ok by reflexivity. unfold mbind, M_bind, on_tcp. cbv zeta.
  destruct (on_each _ _ _) as [r1 [x l]] eqn:Ho. apply on_each_spec in Ho as [->|(ps & -> & -> & Hps)].
  - intros [= <- <-]. by left.
  - cbn. intros [= <- <-]. right. split; [done|]. exists (fst <$> omap id (ps.*2)).
    destruct (tick_moves _ _ _ _ (quic_id <$> quic_conns m) (next_id m) Hps []) as [Hm Hl].
    match goal with |- acts _ _ (foldl _ ?x _) ∧ _ => set (m1 := x) end.
    destruct (note_all_still (omap id (ps.*2)) m1) as (Ha & Hc & He). pose proof (same_quic m1 _ (f_equal quics Ha)) as Hq.
    split; [|split; [rewrite length_fmap; lia|rewrite Hq; done]].
    split; [rewrite Ha; exact Hm|by rewrite He|by rewrite Hc|..].
    + rewrite (same_tcp m1 _ (f_equal tcps Ha)). unfold m1. cbn. rewrite length_fmap. apply Forall2_length in Hps. lia.
    + rewrite (same_quic m1 _ (f_equal quics Ha)). unfold m1. cbn. lia.
  - intros x0 c e s. unfold alone. destruct (tick_conn _ _ _ _ c) as [r2 c2] eqn:Ht. apply tick_view in Ht. intros [= -> _]. naive_solver.
Qed.

(** *** QUIC connections *)
Lemma on_h3_id {B} (f : M Error H3.env B) (s : (Quic.HandshakePool * list Z) * QuicConn A) : quic_id (on_h3 f s).2.2 = quic_id s.2.
Proof. destruct s as [[p mem] q]. unfold on_h3. by destruct (f _). Qed.

(** Calls on QUIC connections leave the rest alone. *)
Definition resting (e e' : env A) : Prop := still (mgr e) (mgr e').
Global Instance resting_preorder : PreOrder resting.
Proof. split; [intros e; unfold resting; reflexivity|intros e1 e2 e3; unfold resting; apply transitivity]. Qed.

Lemma on_quic_first {B} mem p (f : M Error ((Quic.HandshakePool * list Z) * QuicConn A) B) : (∀ s, quic_id (f s).2.2 = quic_id s.2) →
  keeps resting (on_quic mem (on_first p f)).
Proof.
  intros Hf e. unfold on_quic, resting. pose proof (on_first_keeps quic_id p f (pool e, mem) (quic_conns (mgr e)) Hf) as Hk.
  destruct (on_first _ _ _ _) as [r [x l]]. cbn in *. split; [|done..]. unfold abstract. cbn. by rewrite Hk.
Qed.
Lemma on_quic_some {B} mem (f : M Error ((Quic.HandshakePool * list Z) * QuicConn A) (option B)) : (∀ s, quic_id (f s).2.2 = quic_id s.2) →
  keeps resting (on_quic mem (first_some f)).
Proof.
  intros Hf e. unfold on_quic, resting. pose proof (first_some_keeps quic_id f (quic_conns (mgr e)) Hf (pool e, mem)) as Hk.
  destruct (first_some _ _ _) as [r [x l]]. cbn in *. split; [|done..]. unfold abstract. cbn. by rewrite Hk.
Qed.
Lemma on_mgr_still {B} (f : M Error (t A) B) : keeps still f → keeps resting (on_mgr f).
Proof. intros Hf e. specialize (Hf (mgr e)). unfold on_mgr, Quic.sub, resting. by destruct (f (mgr e)). Qed.

(** Reaping. *)
Lemma release_slot_ok s : ∃ s', H3Api.release_handshake_slot s = (Ok tt, s').
Proof. unfold H3Api.release_handshake_slot. erewrite M_step_ok by reflexivity. destruct (Quic.handshake_slot _); by eexists. Qed.
Lemma reap_view timeout now s r s' : reap_conn (A:=A) timeout now s = (r, s') → r = Panic ∨ (r = Ok None ∧ quic_id s'.2 = quic_id s.2) ∨ r = Ok (Some (quic_id s.2)).
Proof.
  unfold reap_conn, Quic.attempt. unfold mbind at 1, M_bind at 1.
  pose proof (on_h3_id (H3Api.handle_timeout now) s) as Hid.
  assert (∀ s1, quic_id s1.2 = quic_id s.2 → ∀ b, (if b : bool then _ ← on_h3 H3Api.release_handshake_slot; mret (Some (quic_id s1.2)) else mret None) s1 = (r, s') →
    r = Panic ∨ (r = Ok None ∧ quic_id s'.2 = quic_id s.2) ∨ r = Ok (Some (quic_id s.2))) as Hend.
  { intros s1 Hs1 [] Hr; [|injection Hr as <- <-; auto]. destruct s1 as [[p mem] q]. unfold mbind, M_bind, on_h3 in Hr.
    destruct (release_slot_ok (H3.MkEnv (h3_part q) (Quic.MkEnv (quic_part q) (io_part q) p mem))) as [e2 He2]. rewrite He2 in Hr.
    injection Hr as <- <-. cbn in Hs1. right. right. by rewrite Hs1. }
  destruct (on_h3 _ s) as [[u|e|] s1]; cbn in Hid; [| |intros [= <- <-]; by left].
  all: erewrite M_step_ok by reflexivity; intros Hr; eapply Hend; [exact Hid|exact Hr].
Qed.
Lemma reap_moves timeout now (l l' : list (QuicConn A)) ids tv n : retained (reap_conn timeout now) l l' ids → ∀ q1,
  moves (Spec tv (q1 ++ (quic_id <$> l)) n) (EvClosed <$> ids) (Spec tv (q1 ++ (quic_id <$> l')) n) ∧ (length ids ≤ length l)%nat ∧ (length l' ≤ length l)%nat.
Proof.
  induction 1 as [|q q' l l' ids (x & x' & Hq) _ IH|q i l l' ids (x & s & Hq) _ IH]; intros q1; [split; [constructor|done]|..].
  - destruct (IH (q1 ++ [quic_id q])) as [Hm Hl]. rewrite <- !app_assoc in Hm. cbn in *.
    apply reap_view in Hq as [|[[_ Hid]|]]; [done| |done]. cbn in Hid. rewrite Hid. split; [exact Hm|lia].
  - destruct (IH q1) as [Hm Hl]. apply reap_view in Hq as [|[[]|[= ->]]]; [done..|]. cbn. split; [|lia].
    apply (moves_step _ [EvClosed (quic_id q)] (Spec tv (q1 ++ (quic_id <$> l)) n)); [|exact Hm]. apply move_reaped.
Qed.
Lemma reap_quic_acts now e r e' : reap_quic_conns now e = (r, e') → r = Panic ∨ r = Ok tt ∧
  ∃ ids, acts (mgr e) (EvClosed <$> ids) (mgr e') ∧ len ids ≤ len (quic_conns (mgr e)).
Proof.
  unfold reap_quic_conns. erewrite M_step_ok by reflexivity. unfold mbind, M_bind, on_quic.
  destruct (retain_mut _ _ _) as [r1 [x l]] eqn:Hr. apply retain_mut_spec in Hr as [->|(ids & -> & Hr)].
  - intros [= <- <-]. by left.
  - cbn. intros [= <- <-]. right. split; [done|]. exists ids. destruct (reap_moves _ _ _ _ _ (view <$> tcp_conns (mgr e)) (next_id (mgr e)) Hr []) as (Hm & Hl & Hl').
    cbn. rewrite <- (foldl_fmap (λ m ev, push_server_event ev m) _ ids EvClosed).
    match goal with |- acts _ _ (foldl _ ?x _) ∧ _ => set (m1 := x) end.
    destruct (push_all_still (EvClosed <$> ids) m1) as (Ha & Hc & He). split; [|lia].
    split; [rewrite Ha; exact Hm|by rewrite He|by rewrite Hc|..].
    + rewrite (same_tcp m1 _ (f_equal tcps Ha)). unfold m1. cbn. lia.
    + rewrite (same_quic m1 _ (f_equal quics Ha)). unfold m1. cbn. lia.
  - intros x0 q err s Hs. apply reap_view in Hs. naive_solver.
Qed.

Lemma accept_quic_acts data from now dcid secret random cid_bytes e r e' : len (quic_conns (mgr e)) < max_quic_conns (config (mgr e)) →
  accept_quic grant data from now dcid secret random cid_bytes e = (r, e') → r = Panic ∨ acts (mgr e) [] (mgr e').
Proof.
  intros Hlim. unfold accept_quic, on_mgr, Quic.sub. unfold mbind at 1, M_bind at 1. destruct (alloc_id (mgr e)) as [ra m1] eqn:Ha.
  apply alloc_id_ok in Ha as [->|[-> ->]]; [intros [= <- <-]; by left|]. erewrite M_step_ok by reflexivity.
  assert (∀ p, acts (mgr e) [] (mgr (MkEnv A ((mgr e) <| next_id := next_id (mgr e) + 1 |>) p))) as Hskip.
  { intros p. split; [apply moves_one, move_skip|done|done|cbn; lia|cbn; lia]. }
  unfold mbind at 1, M_bind at 1, on_pool, Quic.sub. destruct (Quic.server _ _ _ _ _ _) as [rs p]. cbn [fst snd].
  destruct rs as [quic|err|]; [|intros [= <- <-]; right; apply Hskip|intros [= <- <-]; by left].
  cbv zeta. erewrite M_step_ok by reflexivity. destruct (on_h3 _ _) as [[u|err|] [[p2 mem2] q2]] eqn:Hh.
  - intros [= <- <-]. right. cbn. split; [|done|done|cbn; lia|cbn; rewrite length_app; cbn; lia].
    unfold abstract. cbn. rewrite fmap_app. cbn.
    match type of Hh with on_h3 ?f ?s = _ => pose proof (on_h3_id f s) as Hid end. rewrite Hh in Hid. cbn in Hid. rewrite Hid.
    apply moves_one, move_accept_quic.
  - destruct (on_h3 H3Api.release_handshake_slot _) as [r3 [[p3 mem3] q3]]. intros [= <- <-]. right. apply Hskip.
  - intros [= <- <-]. by left.
Qed.

Lemma shaped_closes n ids : len ids ≤ n → shaped n (EvClosed <$> ids).
Proof. intros Hl. exists [], (EvClosed <$> ids). split_and!; [done|by intros ? ?%elem_of_nil|by rewrite length_fmap]. Qed.

Lemma udp_feed_acted data from now secret random cid_bytes e r e' :
  udp_feed grant data from now secret random cid_bytes e = (r, e') → r = Panic ∨ acted (mgr e) (mgr e').
Proof.
  unfold udp_feed. unfold mbind at 1, M_bind at 1, lift. destruct (Packet.decode_dcid data 8) as [dcid|err|];
    [|intros [= <- <-]; right; by apply acted_still|intros [= <- <-]; by left].
  match goal with |- mbind ?f ?g e = _ → _ => assert (keeps resting g) as Hg end.
  { destruct dcid; [|apply keeps_ret, _]. apply on_quic_first. intros s. apply on_h3_id. }
  specialize (Hg e). match goal with |- mbind ?f ?g e = _ → _ => set (search := g) in * end.
  unfold mbind at 1, M_bind at 1. destruct (search e) as [[[u|]|err|] e1]; cbn in Hg.
  1,3: intros [= <- <-]; right; by apply acted_still.
  2: intros [= <- <-]; by left.
  destruct Hg as [Ha1 He1 Hc1]. erewrite M_step_ok by reflexivity.
  assert (∃ r2 e2, (if over_quic_limit (mgr e1) then reap_quic_conns now else mret tt) e1 = (r2, e2) ∧ (r2 = Panic ∨ r2 = Ok tt ∧
    ∃ ids, acts (mgr e1) (EvClosed <$> ids) (mgr e2) ∧ len ids ≤ len (quic_conns (mgr e1)))) as (r2 & e2 & Hr2 & Hreap).
  { destruct (over_quic_limit (mgr e1)).
    - destruct (reap_quic_conns now e1) as [r2 e2] eqn:Hr. exists r2, e2. split; [done|]. by eapply reap_quic_acts.
    - exists (Ok tt), e1. split; [done|]. right. split; [done|]. exists []. split; [by apply acts_still|cbn; lia]. }
  unfold mbind at 1, M_bind at 1. rewrite Hr2. destruct Hreap as [->|(-> & ids & Hids & Hl)]; [intros [= <- <-]; by left|].
  pose proof (acts_trans _ _ _ _ _ (acts_still _ _ ltac:(by split)) Hids) as Hall. cbn in Hall.
  pose proof (same_quic (mgr e) (mgr e1) ltac:(by rewrite Ha1)) as Hq.
  assert (shaped (size (mgr e)) (EvClosed <$> ids)) as Hsh by (apply shaped_closes; unfold size; lia).
  erewrite M_step_ok by reflexivity. unfold over_quic_limit. destruct (max_quic_conns _ <=? _) eqn:Hlim; [intros [= <- <-]; right; by eexists|].
  apply Z.leb_gt in Hlim. intros Hacc. eapply accept_quic_acts in Hacc; [|done]. destruct Hacc as [->|Hacc]; [by left|right].
  exists (EvClosed <$> ids). split; [|done]. rewrite <- (app_nil_r (EvClosed <$> ids)). by eapply acts_trans.
Qed.

Lemma timeouts_acted now e r e' : handle_timeouts grant BUF now e = (r, e') → r = Panic ∨ acted (mgr e) (mgr e').
Proof.
  unfold handle_timeouts, on_mgr, Quic.sub. unfold mbind at 1, M_bind at 1. destruct (handle_tcp_timeouts grant BUF now (mgr e)) as [r1 m1] eqn:H1'.
  apply tcp_timeouts_acts in H1' as [->|(-> & ids1 & Ha1 & Hl1 & Hq1)]; [intros [= <- <-]; by left|].
  intros Hr. apply reap_quic_acts in Hr as [->|(-> & ids2 & Ha2 & Hl2)]; [by left|right].
  exists ((EvClosed <$> ids1) ++ (EvClosed <$> ids2)). split; [by eapply acts_trans|]. rewrite <- fmap_app. apply shaped_closes.
  rewrite length_app. unfold size. cbn in Hl2. lia.
Qed.
(** *** Calls that forward *)
Lemma on_conn_http_still {B} i (f : M Error Http B) : keeps still (on_conn i (on_http f)).
Proof. intros m. apply on_conn_still. intros c. apply on_http_unmoved. Qed.
Lemma forward_rests {B} i tcp quic : keeps resting (forward (A:=A) (B:=B) i tcp quic).
Proof.
  unfold forward. apply keeps_bind; [apply _|apply on_mgr_still, on_conn_http_still|]. intros r. destruct (mjoin r); [apply keeps_ret, _|].
  apply keeps_bind; [apply _|apply on_quic_first; intros s; apply on_h3_id|]. intros r2. apply keeps_lift, _.
Qed.
Lemma discard_rests i sid code : keeps still (discard_body (A:=A) grant BUF i sid code).
Proof. unfold discard_body. apply keeps_bind; [apply _|apply on_conn_http_still|]. intros r. apply keeps_lift, _. Qed.
Lemma output_rests i cap : keeps still (tcp_poll_output (A:=A) grant BUF i cap).
Proof.
  unfold tcp_poll_output. apply keeps_bind; [apply _| |intros r; apply keeps_ret, _].
  intros m. apply on_conn_still. intros c. apply output_view.
Qed.
Lemma transmit_rests buf now : keeps resting (udp_poll_transmit (A:=A) grant buf now).
Proof.
  apply on_quic_some. intros s. unfold transmit_conn. pose proof (on_h3_id (H3Api.poll_transmit grant now) s) as Hid.
  unfold mbind, M_bind. by destruct (on_h3 _ s) as [[]].
Qed.

Lemma close_acted i e r e' : close grant BUF i e = (r, e') → r = Panic ∨ acted (mgr e) (mgr e').
Proof.
  unfold close, on_mgr, Quic.sub. unfold mbind at 1, M_bind at 1. destruct (on_conn i _ (mgr e)) as [r1 m1] eqn:Hc.
  apply on_conn_spec in Hc as [[-> ->]|(t1 & c & t2 & c' & r0 & Ht & Hf & <- & -> & ->)].
  - intros Hr. right. apply acted_still. cbn in Hr.
    match type of Hr with (mbind ?f ?g) ?s = _ => assert (keeps resting (mbind f g)) as Hk end.
    { apply keeps_bind; [apply _|apply on_quic_first; intros s; apply on_h3_id|]. intros r2. apply keeps_lift, _. }
    match type of Hr with _ ?s = _ => specialize (Hk s) end. rewrite Hr in Hk. unfold resting in Hk. cbn in Hk. by destruct e.
  - destruct (close_view grant BUF c) as [[Hcl Hk]|(Hk & kit & Hcl)]; rewrite Hcl in Hf; injection Hf as <- <-; cbn; intros [= <- <-]; right.
    + by eapply acted_still, update_still.
    + cbn. by eapply acted_closed.
Qed.

(** *** Polling *)
Record polled m (R : list ServerEvent) m' : Prop := {
  polled_config : config m' = config m;
  polled_tcp : len (tcp_conns m') ≤ len (tcp_conns m);
  polled_quic : len (quic_conns m') ≤ len (quic_conns m);
  polled_moves : (events m = R ++ events m' ∧ abstract m' = abstract m) ∨
                 (events m = [] ∧ events m' = [] ∧ moves (abstract m) R (abstract m'))
}.
Definition returned (r : result (option ServerEvent)) : list ServerEvent := match r with Ok (Some ev) => [ev] | _ => [] end.

Lemma polled_still m m' : still m m' → events m = [] → polled m [] m'.
Proof.
  intros [Ha He Hc] Hn. pose proof (same_tcp m m' (f_equal tcps Ha)). pose proof (same_quic m m' (f_equal quics Ha)).
  split; [done|lia|lia|left]. split; [cbn; congruence|done].
Qed.
Lemma polled_moved m R m' : events m = [] → events m' = [] → config m' = config m → moves (abstract m) R (abstract m') →
  len (tcp_conns m') ≤ len (tcp_conns m) → quics (abstract m') = quics (abstract m) → polled m R m'.
Proof. intros He He' Hc Hm Ht Hq. pose proof (same_quic m m' Hq). split; [done|lia|lia|by right]. Qed.
(** The calls before the poll left everything as it was. *)
Lemma still_polled m m1 R m' : still m m1 → polled m1 R m' → polled m R m'.
Proof.
  intros [Ha He Hc] []. pose proof (same_tcp m m1 (f_equal tcps Ha)). pose proof (same_quic m m1 (f_equal quics Ha)).
  split; [congruence|lia|lia|]. rewrite Ha, He in *. done.
Qed.

Lemma poll_tcp_spec cap m r m' : on_tcp (first_some (alone (poll_conn grant BUF cap)) tt) m = (r, m') → r = Panic ∨
  ((r = Ok None ∨ ∃ e, r = Err e) ∧ still m m') ∨
  ∃ t1 i t2 k, abstract m = Spec (t1 ++ (i, 1%nat) :: t2) (quics (abstract m)) (next_id m) ∧
    abstract m' = Spec (t1 ++ (i, k) :: t2) (quics (abstract m)) (next_id m) ∧ events m' = events m ∧ config m' = config m ∧
    ((∃ ev, r = Ok (Some (i, Event ev)) ∧ k = 1%nat) ∨ (∃ kit, r = Ok (Some (i, Reclaimed kit)) ∧ k = 2%nat)).
Proof.
  unfold on_tcp. destruct (first_some _ _ _) as [r1 [x l]] eqn:Hf. intros [= <- <-].
  assert (∀ c c', passed (alone (poll_conn grant BUF cap)) c c' → view c' = view c) as Hpass.
  { intros c c' (x1 & x2 & Hp). unfold alone in Hp. destruct (poll_conn grant BUF cap c) as [r2 c2] eqn:Hc. injection Hp as -> _ <-.
    apply poll_view in Hc. naive_solver. }
  assert (∀ l1 l1', Forall2 (passed (alone (poll_conn grant BUF cap))) l1 l1' → view <$> l1' = view <$> l1) as Hpasses.
  { induction 1; cbn; [done|]. f_equal; [by apply Hpass|done]. }
  apply first_some_spec in Hf as [[-> Hl]|(l1 & c & l2 & l1' & c' & x1 & Ht & -> & Hl & Hc & Hn)].
  - right. left. split; [by left|]. split; [|done..]. unfold abstract. cbn. by rewrite (Hpasses _ _ Hl).
  - unfold alone in Hc. destruct (poll_conn grant BUF cap c) as [r2 c2] eqn:Hp. injection Hc as -> _ ->.
    assert (abstract (m <| tcp_conns := l1' ++ c' :: l2 |>) = Spec ((view <$> l1) ++ view c' :: (view <$> l2)) (quics (abstract m)) (next_id m)) as Ha.
    { unfold abstract. cbn. by rewrite fmap_app, (Hpasses _ _ Hl). }
    apply poll_view in Hp as [->|[[Hr Hv]|(Hk & Hm)]]; [by left| |].
    + right. left. split; [done|]. split; [|done..]. by rewrite Ha, Hv, (found_abstract _ _ _ _ Ht).
    + right. right. exists (view <$> l1), (tcp_id c), (view <$> l2).
      assert (view c = (tcp_id c, 1%nat)) as Hvc by (unfold view; by rewrite Hk).
      destruct Hm as [(ev & -> & Hv)|(kit & -> & Hv)]; [exists 1%nat|exists 2%nat]; (split_and!; [by rewrite (found_abstract _ _ _ _ Ht), Hvc|rewrite Ha; congruence|done|done|]); [left|right]; by eexists.
Qed.

Lemma poll_quic_spec cap e r e' : on_quic [] (first_some (poll_quic grant cap)) e = (r, e') →
  resting e e' ∧ ∀ ev, r = Ok (Some ev) → ∃ i hev, i ∈ quics (abstract (mgr e)) ∧ ev = EvHttp i hev.
Proof.
  intros Hr. assert (∀ s, quic_id (poll_quic (A:=A) grant cap s).2.2 = quic_id s.2) as Hid.
  { intros s. unfold poll_quic. erewrite M_step_ok by reflexivity. pose proof (on_h3_id (H3Api.poll_event grant cap) s) as Hid.
    unfold mbind, M_bind. by destruct (on_h3 _ s) as [[]]. }
  split; [pose proof (on_quic_some [] _ Hid e) as Hk; by rewrite Hr in Hk|]. intros ev ->.
  unfold on_quic in Hr. destruct (first_some _ _ _) as [r1 [x l]] eqn:Hf. injection Hr as -> <-.
  apply first_some_spec in Hf as [[? _]|(l1 & q & l2 & l1' & q' & x1 & Hl & _ & _ & Hq & _)]; [done|].
  unfold poll_quic in Hq. erewrite M_step_ok in Hq by reflexivity. apply M_bind_ok in Hq as ([ev1|] & s1 & _ & Hq); [|done].
  injection Hq as <- _. exists (quic_id q), (H3Api.map_h3_event ev1). split; [|done]. cbn. rewrite Hl, fmap_app. apply elem_of_app. right. by left.
Qed.

Lemma filter_views (l : list TcpConn) : view <$> List.filter (λ c, negb (is_closed_state (tcp_state c))) l = filter (λ p, p.2 ≠ 2%nat) (view <$> l).
Proof.
  induction l as [|c l IH]; [done|]. rewrite fmap_cons, filter_cons. cbn [List.filter].
  case_decide as Hd; unfold view in Hd; cbn in Hd; destruct (tcp_state c) eqn:Hs; cbn [kind is_closed_state negb] in *; try done; try lia;
    by rewrite ?fmap_cons, IH.
Qed.

Lemma pop_event_eq m : pop_event m = match events m with [] => (Ok None, m) | ev :: l => (Ok (Some ev), m <| events := l |>) end.
Proof. unfold pop_event. erewrite M_step_ok by reflexivity. by destruct (events m). Qed.

Lemma poll_polled cap e r e' : poll_event grant BUF cap e = (r, e') → r = Panic ∨ polled (mgr e) (returned r) (mgr e').
Proof.
  destruct e as [m p]. cbn [mgr]. unfold poll_event.
  assert (∀ m p, on_mgr pop_event (MkEnv A m p) = match events m with [] => (Ok None, MkEnv A m p) | ev :: l => (Ok (Some ev), MkEnv A (m <| events := l |>) p) end) as Hpop.
  { intros m0 p0. unfold on_mgr, Quic.sub. cbn [mgr]. rewrite pop_event_eq. by destruct (events m0). }
  destruct (events m) as [|ev q] eqn:He; cycle 1.
  { erewrite M_step_ok by (rewrite Hpop, He; reflexivity). intros [= <- <-]. right. cbn. split; [done|cbn; lia|cbn; lia|]. left. by split. }
  erewrite M_step_ok by (rewrite Hpop, He; reflexivity). unfold mbind at 1, M_bind at 1. unfold on_mgr at 1, Quic.sub at 1. cbn [mgr].
  destruct (on_tcp _ m) as [r1 m1] eqn:Ht.
  apply poll_tcp_spec in Ht as [->|[[Hr Hs]|(t1 & i & t2 & k & Ha & Ha' & He' & Hc' & Hr)]]; [intros [= <- <-]; by left| |].
  - destruct Hr as [->|[err ->]]; [|intros [= <- <-]; right; by apply polled_still].
    unfold mbind at 1, M_bind at 1. destruct (on_quic _ _ _) as [r2 e2] eqn:Hq. apply poll_quic_spec in Hq as [Hrest Hev].
    pose proof (transitivity Hs Hrest) as Hs2. unfold resting in Hrest. cbn in Hs2, Hrest.
    destruct r2 as [[ev|]|err|]; [| |intros [= <- <-]; right; by apply polled_still|intros [= <- <-]; by left].
    + intros [= <- <-]. right. destruct (Hev ev eq_refl) as (i & hev & Hi & ->). destruct Hs2 as [Ha2 He2 Hc2]. apply polled_moved; [done|congruence|done| | |by rewrite Ha2].
      * rewrite Ha2. assert (i ∈ quics (abstract m)) as Hi' by (rewrite <- (still_abstract _ _ Hs); exact Hi). clear -Hi'. apply moves_one. destruct (abstract m) as [tv qv n]. apply move_arrival. by right.
      * rewrite (same_tcp m _ (f_equal tcps Ha2)). lia.
    + erewrite M_step_ok by reflexivity. destruct Hs2 as [Ha2 He2 Hc2]. destruct e2 as [m2 p2]. cbn [mgr] in *.
      unfold on_mgr, Quic.sub. cbn [mgr]. rewrite pop_event_eq. cbn. rewrite He2, He. intros [= <- <-]. right. cbn.
      apply polled_moved; [done|cbn; congruence|done| | |]; cbn.
      * rewrite <- Ha2. unfold abstract at 2. cbn. rewrite filter_views. apply moves_one. unfold abstract. apply move_forget.
      * rewrite <- (same_tcp m m2 (f_equal tcps Ha2)). pose proof (List.filter_length_le (λ c, negb (is_closed_state (tcp_state c))) (tcp_conns m2)). lia.
      * exact (f_equal quics Ha2).
  - assert (len (tcp_conns m1) ≤ len (tcp_conns m)) as Hlen.
    { apply (f_equal tcps), (f_equal length) in Ha. apply (f_equal tcps), (f_equal length) in Ha'. cbn in Ha, Ha'. rewrite length_fmap, length_app in *. cbn in *. lia. }
    destruct Hr as [(ev & -> & ->)|(kit & -> & ->)].
    + intros [= <- <-]. right. cbn. apply polled_moved; [done|cbn; congruence|done| |done|exact (f_equal quics Ha')].
      cbn [mgr]. rewrite Ha', Ha at 1. apply moves_one, move_arrival. left. apply elem_of_app. right. by left.
    + erewrite M_step_ok by reflexivity. intros [= <- <-]. right. cbn.
      pose proof (transitivity (give_back_still kit m1) (note_still i HttpClosed (give_back kit m1))) as [Ha3 He3 Hc3].
      apply polled_moved; [done|congruence|congruence| | |rewrite Ha3; exact (f_equal quics Ha')].
      * rewrite Ha3, Ha', Ha at 1. apply closes. lia.
      * rewrite (same_tcp m1 _ (f_equal tcps Ha3)). done.
Qed.

(** ** All operations *)
Inductive op : Type :=
| AcceptTcp (secret random : list Z) (now : Z)
| AcceptCleartext (now : Z)
| TcpFeed (id : Z) (data : list Z) (now : Z)
| TcpPollOutput (id cap : Z)
| TcpEof (id : Z)
| UdpFeed (data : list Z) (from : A) (now : Z) (secret random cid_bytes : list Z)
| UdpPollTransmit (buf : list Z) (now : Z)
| PollEvent (cap : Z)
| RecvHeaders (id sid : Z)
| RecvBody (id sid cap : Z)
| DiscardBody (id sid code : Z)
| SendResponse (id sid status : Z) (headers : list (list Z * list Z)) (fin : bool)
| SendBody (id sid : Z) (data : list Z) (fin : bool)
| HandleTimeouts (now : Z)
| Close (id : Z)
| AddKit (kit : HttpServer.TlsBufKit)
| TakeKit
| NoteReason (id : Z) (reason : CloseReason)
| TakeReason (id : Z).

(** What a call returns of events. *)
Definition quietly {B} (f : M Error (env A) B) : M Error (env A) (list ServerEvent) := _ ← f; mret [].
Definition step (o : op) : M Error (env A) (list ServerEvent) :=
  match o with
  | AcceptTcp secret random now => quietly (on_mgr (accept_tcp grant BUF secret random now))
  | AcceptCleartext now => quietly (on_mgr (accept_tcp_cleartext grant BUF now))
  | TcpFeed id data now => quietly (on_mgr (tcp_feed grant BUF id data now))
  | TcpPollOutput id cap => quietly (on_mgr (tcp_poll_output grant BUF id cap))
  | TcpEof id => quietly (on_mgr (tcp_eof grant BUF id))
  | UdpFeed data from now secret random cid => quietly (udp_feed grant data from now secret random cid)
  | UdpPollTransmit buf now => quietly (udp_poll_transmit grant buf now)
  | PollEvent cap => ev ← poll_event grant BUF cap; mret (option_list ev)
  | RecvHeaders id sid => quietly (recv_headers grant BUF id sid)
  | RecvBody id sid cap => quietly (recv_body grant BUF id sid cap)
  | DiscardBody id sid code => quietly (on_mgr (discard_body grant BUF id sid code))
  | SendResponse id sid status headers fin => quietly (send_response grant BUF id sid status headers fin)
  | SendBody id sid data fin => quietly (send_body grant BUF id sid data fin)
  | HandleTimeouts now => quietly (handle_timeouts grant BUF now)
  | Close id => quietly (close grant BUF id)
  | AddKit kit => quietly (on_mgr (modify (add_tls_buffer_kit kit)))
  | TakeKit => quietly (on_mgr pop_kit)
  | NoteReason id reason => quietly (on_mgr (modify (note_close_reason id reason)))
  | TakeReason id => quietly (on_mgr (modify (λ m, (take_close_reason id m).2)))
  end.
Definition returns (r : result (list ServerEvent)) : list ServerEvent := match r with Ok l => l | _ => [] end.

(** Calls in a row, errors included; the events that were returned. *)
Fixpoint run (ops : list op) (e : env A) : option (list ServerEvent * env A) :=
  match ops with
  | [] => Some ([], e)
  | o :: ops =>
      match step o e with
      | (Panic, _) => None
      | (r, e) => match run ops e with Some (evs, e) => Some (returns r ++ evs, e) | None => None end
      end
  end.

(** A step of any kind. *)
Definition stepped m (R : list ServerEvent) m' : Prop := (R = [] ∧ acted m m') ∨ polled m R m'.

Lemma quietly_stepped {B} (f : M Error (env A) B) e r e' : (∀ r1 e1, f e = (r1, e1) → r1 = Panic ∨ acted (mgr e) (mgr e1)) →
  quietly f e = (r, e') → r = Panic ∨ stepped (mgr e) (returns r) (mgr e').
Proof.
  intros Hf. unfold quietly, mbind, M_bind. destruct (f e) as [r1 e1] eqn:Hr. destruct (Hf _ _ eq_refl) as [->|Ha]; [intros [= <- <-]; by left|].
  intros Hq. right. left. destruct r1; by injection Hq as <- <-.
Qed.
Lemma quietly_mgr {B} (f : M Error (t A) B) e r e' : (∀ m1 r1 m2, f m1 = (r1, m2) → r1 = Panic ∨ acted m1 m2) →
  quietly (on_mgr f) e = (r, e') → r = Panic ∨ stepped (mgr e) (returns r) (mgr e').
Proof.
  intros Hf. apply quietly_stepped. intros r1 e1. unfold on_mgr, Quic.sub. destruct (f (mgr e)) as [r2 m2] eqn:Hr. intros [= <- <-]. by eapply Hf.
Qed.
Lemma quietly_rests {B} (f : M Error (env A) B) e r e' : keeps resting f → quietly f e = (r, e') → r = Panic ∨ stepped (mgr e) (returns r) (mgr e').
Proof. intros Hf. apply quietly_stepped. intros r1 e1 Hr. right. apply acted_still. specialize (Hf e). by rewrite Hr in Hf. Qed.

Lemma step_stepped o e r e' : step o e = (r, e') → r = Panic ∨ stepped (mgr e) (returns r) (mgr e').
Proof.
  destruct o; cbn [step].
  - apply quietly_mgr. intros m1 r1 m2. apply accept_tcp_acted.
  - apply quietly_mgr. intros m1 r1 m2. apply accept_cleartext_acted.
  - apply quietly_mgr. intros m1 r1 m2. apply tcp_feed_acted.
  - apply quietly_rests, on_mgr_still, output_rests.
  - apply quietly_mgr. intros m1 r1 m2. apply tcp_eof_acted.
  - apply quietly_stepped. intros r1 e1. apply udp_feed_acted.
  - apply quietly_rests, transmit_rests.
  - intros Hr. unfold mbind, M_bind in Hr. destruct (poll_event grant BUF cap e) as [r1 e1] eqn:Hp.
    apply poll_polled in Hp as [->|Hp]; [injection Hr as <- <-; by left|]. right. right. destruct r1 as [[ev|]|err|]; injection Hr as <- <-; exact Hp.
  - apply quietly_rests, forward_rests.
  - apply quietly_rests, forward_rests.
  - apply quietly_rests, on_mgr_still, discard_rests.
  - apply quietly_rests, forward_rests.
  - apply quietly_rests, forward_rests.
  - apply quietly_stepped. intros r1 e1. apply timeouts_acted.
  - apply quietly_stepped. intros r1 e1. apply close_acted.
  - apply quietly_rests, on_mgr_still. intros m. by split.
  - apply quietly_rests, on_mgr_still. intros m. by split.
  - apply quietly_rests, on_mgr_still. intros m. apply note_still.
  - apply quietly_rests, on_mgr_still. intros m. unfold modify, take_close_reason. cbn. destruct (list_find _ _) as [[i [? ?]]|]; by split.
Qed.

(** What holds when the events [D] have been returned. *)
Record good (cfg : ServerConfig) (D : list ServerEvent) m : Prop := {
  good_config : config m = cfg;
  good_fit : fit (D ++ events m) (abstract m);
  good_tcp : len (tcp_conns m) ≤ max_tcp_conns cfg;
  good_quic : len (quic_conns m) ≤ max_quic_conns cfg;
  good_events : len (events m) ≤ Z.max 1 (max_events cfg)
}.
Lemma fit_drop log log' s : sublist log' log → fit log s → fit log' s.
Proof. apply fits_drop. Qed.
Lemma stepped_good cfg D m R m' : stepped m R m' → good cfg D m → good cfg (D ++ R) m'.
Proof.
  intros [[-> (evs & [] & _)]|[]] [<- Hf Ht Hq He].
  - rewrite app_nil_r. split; [done| |lia|lia|].
    + rewrite acts_events0. eapply fit_drop; [|by eapply moves_fit]. rewrite <- app_assoc. apply sublist_app; [done|]. apply enqueue_sublist.
    + rewrite acts_events0. by apply enqueue_len.
  - split; [done| |lia|lia|].
    + destruct polled_moves0 as [[Hev Ha]|(Hev & Hev' & Hm)].
      * rewrite Ha, <- app_assoc, <- Hev. done.
      * rewrite Hev', app_nil_r. rewrite Hev, app_nil_r in Hf. by eapply moves_fit.
    + destruct polled_moves0 as [[Hev _]|(_ & Hev' & _)]; [|rewrite Hev'; cbn; lia]. rewrite Hev, length_app in He. lia.
Qed.
Lemma run_good cfg ops : ∀ e D evs e', run ops e = Some (evs, e') → good cfg D (mgr e) → good cfg (D ++ evs) (mgr e').
Proof.
  induction ops as [|o ops IH]; intros e D evs e'; cbn; [intros [= <- <-]; by rewrite app_nil_r|].
  destruct (step o e) as [r e1] eqn:Hs. apply step_stepped in Hs as [->|Hs]; [done|]. intros Hr Hg. apply (stepped_good _ _ _ _ _ Hs) in Hg.
  assert (∃ evs2, run ops e1 = Some (evs2, e') ∧ evs = returns r ++ evs2) as (evs2 & Hr2 & ->).
  { destruct r; [| |done]; destruct (run ops e1) as [[evs2 e2]|]; try done; injection Hr as <- <-; by eexists. }
  rewrite app_assoc. by eapply IH.
Qed.
Lemma new_good tls cfg : 0 ≤ max_tcp_conns cfg → 0 ≤ max_quic_conns cfg → good cfg [] (new tls cfg : t A).
Proof. intros Ht Hq. split; [done|apply fits_new|done|done|cbn; lia]. Qed.

(** A connection whose end was announced is gone. *)
Lemma ended_gone (D q : list ServerEvent) s i : fit (D ++ q) s → EvClosed i ∈ D → ¬ live i s.
Proof.
  intros Hf Hc Hi. assert (unended (events_of i (D ++ q))) as (ph & Hph & Hn).
  { destruct Hf. destruct Hi as [([|[|k]] & Hk & Hi)|Hi]; [rewrite (fits_shaking0 i Hi); by exists Before|apply fits_live0; by left|lia|apply fits_live0; by right]. }
  apply list_elem_of_split in Hc as (l1 & l2 & ->). rewrite !events_of_app in Hph. change (EvClosed i :: l2) with ([EvClosed i] ++ l2) in Hph.
  rewrite !events_of_app, events_of_one, decide_True in Hph by done. rewrite <- !app_assoc in Hph. rewrite follows_app in Hph.
  destruct (follows Before _) as [ph1|]; [|done]. cbn in Hph. destruct (events_of i l2 ++ events_of i q) as [|ev l].
  - destruct ph1; cbn in Hph; congruence.
  - destruct ph1; cbn in Hph; done.
Qed.

(** A step that a connection does not survive announces its end. *)
Lemma stepped_announced cfg D m R m' i : good cfg D m → max_tcp_conns cfg + max_quic_conns cfg ≤ max_events cfg → stepped m R m' →
  live i (abstract m) → ¬ live i (abstract m') → EvClosed i ∈ R ++ events m'.
Proof.
  intros [<- _ Ht Hq _] Hmax Hs Hi Hi'. apply elem_of_app. destruct Hs as [[-> (evs & [] & hs & cs & -> & Hhs & Hcs)]|[]].
  - right. destruct (moves_announced _ _ _ i acts_moves0 Hi) as [|[Hin|Hin]%elem_of_app]; [done|by apply Hhs in Hin|].
    rewrite acts_events0, enqueue_app. destruct (enqueue_suffix (max_events (config m)) (enqueue (max_events (config m)) (events m) hs) cs) as [q' ->].
    + unfold size in Hcs. lia.
    + apply elem_of_app. by right.
  - destruct polled_moves0 as [[_ Ha]|(_ & _ & Hm)]; [by rewrite Ha in Hi'|]. left. by destruct (moves_announced _ _ _ i Hm Hi).
Qed.

(** C9: The order of what the manager announces.  From a fresh manager, over any calls
    with any data, errors included: the events returned for each connection are its
    announcement, what arrives on it, and its end, in this order, each announcement at
    most once and nothing behind the end; a connection whose end was returned is
    gone; and the numbers of connections and of queued events stay within their
    limits. *)
Theorem server_event_protocol tls cfg p ops evs e : 0 ≤ max_tcp_conns cfg → 0 ≤ max_quic_conns cfg →
  run ops (MkEnv A (new tls cfg) p) = Some (evs, e) →
  (∀ i, ordered (events_of i evs) ∧ (EvClosed i ∈ evs → ¬ live i (abstract (mgr e)))) ∧
  tcp_conn_count (mgr e) ≤ max_tcp_conns cfg ∧ quic_conn_count (mgr e) ≤ max_quic_conns cfg ∧
  len (events (mgr e)) ≤ Z.max 1 (max_events cfg).
Proof.
  intros Ht Hq Hr. apply (run_good cfg _ _ []) in Hr; [|by apply new_good]. destruct Hr as [_ Hf Hlt Hlq Hle]. split; [|done].
  intros i. split; [|by eapply ended_gone].
  destruct Hf. eapply ordered_sublist; [|apply (fits_order0 i)]. apply events_of_sublist. by apply sublist_inserts_r.
Qed.

(** C10: No connection ends in silence.  In any state a manager can reach, a call after
    which a connection is closed or gone that was not before either returns the
    event of its end or leaves it in the queue, where it is not among those that a
    full queue has lost. *)
Theorem server_closes_announced tls cfg p ops evs e o r e' i : 0 ≤ max_tcp_conns cfg → 0 ≤ max_quic_conns cfg →
  max_tcp_conns cfg + max_quic_conns cfg ≤ max_events cfg →
  run ops (MkEnv A (new tls cfg) p) = Some (evs, e) → step o e = (r, e') → r ≠ Panic →
  live i (abstract (mgr e)) → ¬ live i (abstract (mgr e')) → EvClosed i ∈ returns r ++ events (mgr e').
Proof.
  intros Ht Hq Hmax Hr Hs Hp. apply (run_good cfg _ _ []) in Hr; [|by apply new_good]. apply step_stepped in Hs as [|Hs]; [done|].
  by eapply stepped_announced.
Qed.

End manager.

(** ** A server with one connection in the clear *)
Section demo.
#[local] Existing Instance platform64.
#[local] Existing Instance Toy.toy.
#[local] Existing Instance H3Message.demo_h3.

Definition demo_tls : Tls.ServerTlsConfig := {|
  Tls.config_cert_der := []; Tls.config_private_key := []; Tls.config_server_alpn := [];
  Tls.config_server_params := TransportParams.default_params |}.
Definition demo_request : list Z := bytes "GET / HTTP/1.1" ++ [13; 10; 13; 10].
Definition demo_ops : list (op (A:=unit)) :=
  [AcceptCleartext 0; PollEvent 0; TcpFeed 0 demo_request 5; PollEvent 0; PollEvent 0; PollEvent 0; PollEvent 0].
Definition demo_start : env unit := MkEnv unit (new demo_tls default_config) (Quic.new_pool 2).

Definition demo_end : env unit := ltac:(
  let r := eval vm_compute in (run QuicDemo.allocator 4096 demo_ops demo_start) in
  match r with Some (_, ?e) => exact e end).
Definition demo_log : list ServerEvent :=
  [EvConnected 0; EvHttp 0 HttpServer.Connected; EvHttp 0 (HttpServer.Headers 1); EvHttp 0 (HttpServer.Finished 1)].
Lemma server_demo_runs : run QuicDemo.allocator 4096 demo_ops demo_start = Some (demo_log, demo_end).
Proof. vm_compute. reflexivity. Qed.

Lemma server_event_protocol_witness : ordered (events_of 0 demo_log) ∧ tcp_conn_count (mgr demo_end) ≤ 4.
Proof.
  destruct (server_event_protocol (A:=unit) QuicDemo.allocator 4096 demo_tls default_config (Quic.new_pool 2) demo_ops demo_log demo_end) as (Ho & Ht & _).
  - cbn. lia.
  - cbn. lia.
  - exact server_demo_runs.
  - split; [apply (Ho 0)|exact Ht].
Defined.

(** The peer goes. *)
Lemma server_closes_announced_witness : ∃ r e', step QuicDemo.allocator 4096 (TcpEof 0) demo_end = (r, e') ∧ EvClosed 0 ∈ returns r ++ events (mgr e').
Proof.
  eexists _, _. split; [reflexivity|].
  apply (server_closes_announced (A:=unit) QuicDemo.allocator 4096 demo_tls default_config (Quic.new_pool 2) demo_ops demo_log demo_end (TcpEof 0) _ _ 0).
  - cbn. lia.
  - cbn. lia.
  - cbn. lia.
  - exact server_demo_runs.
  - reflexivity.
  - vm_compute. congruence.
  - left. exists 1%nat. split; [lia|]. vm_compute. left.
  - vm_compute. intros [([|[|k]] & Hk & Hi)|Hi].
    + apply list_elem_of_singleton in Hi. congruence.
    + apply list_elem_of_singleton in Hi. congruence.
    + lia.
    + by apply elem_of_nil in Hi.
Defined.

(** A datagram of one byte takes a connection and a handshake slot. *)
Lemma udp_byte_takes_slot : ∃ e, step QuicDemo.allocator 4096 (UdpFeed [65] tt 0 (replicate 32 1) (replicate 32 2) (replicate 8 3)) demo_start = (Ok [], e) ∧
  quic_conn_count (mgr e) = 1 ∧ Quic.slots_in_use (pool e) = 1%nat.
Proof. eexists. split; [vm_compute; reflexivity|]. by vm_compute. Qed.

End demo.

End ServerLife.
