(* ===== verification/ServerKits.v ===== *)
(** * The buffers a server lends

    The manager lends a kit of three static slices to a TLS connection and takes it
    back when the connection ends.  No call of a connection moves its buffers, so that
    the kit a connection was given is the kit it returns, and over any sequence of
    calls no kit is lost and none is made up. *)
From stdpp Require Import strings.
From S2P Require Import Prelude Errors Hoare Buf BufShape Http Crypto TlsParams TlsHandshake TlsRecord TcpTls H2Frame H2Stream H2Connection Http1Connection QuicIo QuicConn QuicDemo H3Connection H3Message HttpApi HttpIdle Server ServerLife.

(** ** The TLS connection *)
Module TlsLent.
Import TcpTls.

Definition kept (b b' : Buf.t) : Prop := shape b' = shape b.
Global Instance kept_preorder : PreOrder kept.
Proof. split; [done|]. intros b1 b2 b3 H1 H2. unfold kept in *. congruence. Qed.

(** The sizes of the three slices. *)
Definition slices (c : t) : option Z * option Z * option Z := (shape (recv_buf c), shape (send_buf c), shape (app_send_buf c)).
Definition lent (c c' : t) : Prop := slices c' = slices c.
Global Instance lent_preorder : PreOrder lent.
Proof. split; [done|]. intros c1 c2 c3 H1 H2. unfold lent in *. congruence. Qed.

Section buffers.
Context `{Platform} `{Primitives} (BUF : Z) (grant : Z → bool).

Lemma kept_buf_do f : (∀ b b', f b = Ok b' → shape b' = shape b) → keeps kept (buf_do f).
Proof. intros Hf b. unfold buf_do, kept. destruct (f b) as [b'| |] eqn:Hb; [|done..]. by apply Hf. Qed.
Lemma kept_extend data : keeps kept (extend_ignored BUF grant data).
Proof. intros b. unfold extend_ignored, kept. destruct (Buf.extend_from_slice _ _ _ _) as [b'| |] eqn:Hb; [|done..]. by eapply shape_extend. Qed.
Lemma kept_reserve n : keeps kept (Buf.buf_try_reserve BUF grant n).
Proof. intros b. apply shape_buf_try_reserve. Qed.
Lemma kept_on_bytes {A} (f : M Error (list Z) A) : keeps kept (on_bytes f).
Proof.
  intros b. unfold on_bytes, kept. destruct (Buf.as_slice b) as [s| |]; [|done..]. destruct (f s) as [r s']. destruct (Buf.with_mut_slice _ b) as [b'| |] eqn:Hb; [|done..].
  by eapply shape_with_mut.
Qed.
Lemma kept_truncate n : keeps kept (buf_do (Buf.truncate n)).
Proof. apply kept_buf_do. intros b b'. apply shape_truncate. Qed.
Lemma kept_with_mut f : keeps kept (buf_do (Buf.with_mut_slice f)).
Proof. apply kept_buf_do. intros b b'. apply shape_with_mut. Qed.
Lemma kept_hide n : keeps kept (buf_do (Buf.hide_tail n)).
Proof. apply kept_buf_do. intros b b'. apply shape_hide. Qed.
Hint Resolve kept_extend kept_reserve kept_on_bytes kept_truncate kept_with_mut kept_hide : keeps.
Lemma kept_queue data : keeps kept (queue_send BUF grant data).
Proof. unfold queue_send. keep. Qed.
Lemma kept_drain n : keeps kept (drain_recv n).
Proof. unfold drain_recv. keep. Qed.
Lemma kept_remove a b : keeps kept (remove_range a b).
Proof. unfold remove_range. keep. Qed.
Lemma kept_zeros n : keeps kept (push_zeros BUF grant n).
Proof. induction n as [|n IH]; cbn [push_zeros]; keep. Qed.
Hint Resolve kept_queue kept_drain kept_remove kept_zeros : keeps.
Lemma kept_encrypt data ct key nonce : keeps kept (encrypt_into BUF grant data ct key nonce).
Proof. unfold encrypt_into. keep. Qed.
Hint Resolve kept_encrypt : keeps.

(** *** Parts of the connection *)
Lemma lent_on_recv {A} (m : M Error Buf.t A) : keeps kept m → keeps lent (on_recv m).
Proof. intros Hm c. specialize (Hm (recv_buf c)). unfold on_recv, lent, slices. destruct (m _). cbn in *. by rewrite Hm. Qed.
Lemma lent_on_send {A} (m : M Error Buf.t A) : keeps kept m → keeps lent (on_send m).
Proof. intros Hm c. specialize (Hm (send_buf c)). unfold on_send, lent, slices. destruct (m _). cbn in *. by rewrite Hm. Qed.
Lemma lent_on_app {A} (m : M Error Buf.t A) : keeps kept m → keeps lent (on_app_send m).
Proof. intros Hm c. specialize (Hm (app_send_buf c)). unfold on_app_send, lent, slices. destruct (m _). cbn in *. by rewrite Hm. Qed.
Lemma lent_on_engine {A} (m : M Error Tls.t A) : keeps lent (on_engine m).
Proof. intros c. unfold on_engine, lent. by destruct (m _). Qed.
Lemma lent_ignored m : keeps lent m → keeps lent (ignored m).
Proof. intros Hm c. specialize (Hm c). unfold ignored. by destruct (m c) as [[]]. Qed.
Lemma lent_modify f : (∀ c, slices (f c) = slices c) → keeps lent (modify f).
Proof. intros Hf c. apply Hf. Qed.
Lemma lent_engine_read lvl data : keeps lent (engine_read grant lvl data).
Proof. intros c. unfold engine_read, lent. by destruct (Tls.read_handshake _ _ _ _). Qed.
Hint Resolve lent_on_engine lent_engine_read lent_ignored : keeps.
Hint Extern 1 (keeps lent (on_recv _)) => apply lent_on_recv; solve [eauto with keeps typeclass_instances] : keeps.
Hint Extern 1 (keeps lent (on_send _)) => apply lent_on_send; solve [eauto with keeps typeclass_instances] : keeps.
Hint Extern 1 (keeps lent (on_app_send _)) => apply lent_on_app; solve [eauto with keeps typeclass_instances] : keeps.
Hint Extern 1 (keeps lent (modify _)) => (apply lent_modify; intros []; cbn; repeat case_match; reflexivity) : keeps.

(** *** Receiving *)
Lemma lent_push e : keeps lent (push_event e).
Proof. unfold push_event. keep. Qed.
Hint Resolve lent_push : keeps.
Lemma lent_install_keys k : keeps lent (install_keys k).
Proof. unfold install_keys. keep. Qed.
Hint Resolve lent_install_keys : keeps.
Lemma lent_install_all fuel : keeps lent (install_all fuel).
Proof. induction fuel as [|fuel IH]; cbn [install_all]; keep. Qed.
Hint Resolve lent_install_all : keeps.
Lemma lent_check_keys : keeps lent (check_keys grant).
Proof. unfold check_keys. keep. Qed.
Lemma lent_alert_desc d : keeps lent (handle_alert_desc d).
Proof. unfold handle_alert_desc. keep. Qed.
Lemma lent_slice a b : keeps lent (recv_slice a b).
Proof. unfold recv_slice. keep. Qed.
Lemma lent_byte i : keeps lent (recv_byte i).
Proof. unfold recv_byte. keep. Qed.
Hint Resolve lent_check_keys lent_alert_desc lent_slice lent_byte : keeps.
Lemma lent_alert n ps off total : keeps lent (recv_alert n ps off total).
Proof. unfold recv_alert. keep. Qed.
Lemma lent_protected keys seq adv h ps n : keeps lent adv → keeps lent (recv_protected keys seq adv h ps n).
Proof. intros Ha. unfold recv_protected. keep. Qed.
Hint Resolve lent_alert : keeps.
Hint Extern 1 (keeps lent (recv_protected _ _ _ _ _ _)) => (apply lent_protected; keep) : keeps.
Lemma lent_plain ct ps n off total : keeps lent (recv_handshake_plain grant ct ps n off total).
Proof. unfold recv_handshake_plain. keep. Qed.
Lemma lent_encrypted ct h ps n off total : keeps lent (recv_handshake_encrypted grant ct h ps n off total).
Proof. unfold recv_handshake_encrypted. keep. Qed.
Lemma lent_active ct h ps n off total : keeps lent (recv_active ct h ps n off total).
Proof. unfold recv_active. keep. Qed.
Hint Resolve lent_plain lent_encrypted lent_active : keeps.
Lemma lent_record ct h ps n off total : keeps lent (recv_record grant ct h ps n off total).
Proof. unfold recv_record. keep. Qed.
Lemma lent_finish b o ps off total : keeps lent (finish_record grant b o ps off total).
Proof. unfold finish_record. keep. Qed.
Hint Resolve lent_record lent_finish : keeps.
Lemma lent_step : keeps lent (recv_step BUF grant).
Proof. unfold recv_step. keep. Qed.
Hint Resolve lent_step : keeps.
Lemma lent_loop fuel : keeps lent (recv_loop BUF grant fuel).
Proof. induction fuel as [|fuel IH]; cbn [recv_loop]; keep. Qed.
Hint Resolve lent_loop : keeps.
Lemma lent_revealed data : keeps lent (feed_revealed BUF grant data).
Proof. unfold feed_revealed, process_recv. keep. Qed.
Lemma lent_hide_rest r : keeps lent (hide_rest r).
Proof. unfold hide_rest. keep. Qed.
Lemma lent_feed_and_hide data : keeps lent (feed_and_hide BUF grant data).
Proof.
  intros c. unfold feed_and_hide. pose proof (lent_revealed data c) as Hr. destruct (feed_revealed _ _ _ _) as [[u|e|] c1]; cbn in Hr; [| |exact Hr].
  all: etrans; [exact Hr|apply lent_hide_rest].
Qed.
Hint Resolve lent_feed_and_hide : keeps.
Lemma lent_feed data : keeps lent (feed_data BUF grant data).
Proof. unfold feed_data, set_limit. keep. Qed.

(** *** Sending *)
Lemma lent_encrypt_send data ct b : keeps lent (encrypt_and_send BUF grant data ct b).
Proof. unfold encrypt_and_send. keep. Qed.
Lemma lent_wrap ct data : keeps lent (wrap_plaintext_record BUF grant ct data).
Proof. unfold wrap_plaintext_record. keep. Qed.
Hint Resolve lent_encrypt_send lent_wrap : keeps.
Lemma lent_chunks cs : keeps lent (send_chunks BUF grant cs).
Proof. induction cs as [|x cs IH]; cbn [send_chunks]; keep. Qed.
Hint Resolve lent_chunks : keeps.
Lemma lent_flight fuel buf cap : ∀ start, keeps lent (send_flight BUF grant fuel buf cap start).
Proof. induction fuel as [|fuel IH]; intros start; cbn [send_flight]; keep. Qed.
Lemma lent_ccs : keeps lent (send_ccs BUF grant).
Proof. unfold send_ccs. keep. Qed.
Hint Resolve lent_flight lent_ccs : keeps.
Lemma lent_engine_output data lvl : keeps lent (send_engine_output BUF grant data lvl).
Proof. unfold send_engine_output. keep. Qed.
Lemma lent_engine_loop fuel : keeps lent (engine_loop BUF grant fuel).
Proof.
  induction fuel as [|fuel IH]; intros c; cbn [engine_loop]; destruct (Tls.write_handshake _ _ _) as [[[data lvl]|e|] en]; try done.
  - erewrite M_step_ok by reflexivity. by case_match.
  - erewrite M_step_ok by reflexivity. case_match; [done|].
    exact (keeps_bind lent (send_engine_output BUF grant data lvl) (λ _, engine_loop BUF grant fuel) (lent_engine_output data lvl) (λ _, IH) _).
Qed.
Hint Resolve lent_engine_loop : keeps.
Lemma lent_flush_engine : keeps lent (flush_engine_output BUF grant).
Proof. unfold flush_engine_output. keep. Qed.
Lemma lent_drain_app n : keeps lent (drain_app_send n).
Proof. unfold drain_app_send. keep. Qed.
Lemma lent_try_encrypt data key nonce : keeps lent (try_encrypt BUF grant data key nonce).
Proof.
  intros c. unfold try_encrypt. pose proof (lent_on_send _ (kept_encrypt data TlsRecord.ApplicationData key nonce) c) as Hs. by destruct (on_send _ c) as [[]].
Qed.
Hint Resolve lent_flush_engine lent_drain_app lent_try_encrypt : keeps.
Lemma lent_flush_loop fuel cap : keeps lent (flush_loop BUF grant fuel cap).
Proof. induction fuel as [|fuel IH]; cbn [flush_loop]; keep. Qed.
Hint Resolve lent_flush_loop : keeps.
Lemma lent_flush : keeps lent (flush_app_send BUF grant).
Proof. unfold flush_app_send. keep. Qed.
Hint Resolve lent_flush : keeps.
Lemma lent_clear : keeps lent (modify (λ c, c <| send_buf := Buf.clear (send_buf c) |> <| send_offset := 0 |>)).
Proof. apply lent_modify. intros c. unfold slices. cbn. by rewrite shape_clear. Qed.
Hint Resolve lent_clear : keeps.
Lemma lent_poll cap : keeps lent (poll_output BUF grant cap).
Proof. unfold poll_output, set_limit. keep. Qed.

End buffers.
End TlsLent.

(** ** HTTP/2 *)
Module H2Lent.
Import H2.

Definition slices (c : t) : option Z * option Z := (shape (recv_buf c), shape (send_buf c)).
Definition placed (c c' : t) : Prop := slices c' = slices c.
Global Instance placed_preorder : PreOrder placed.
Proof. split; [done|]. intros c1 c2 c3 H1 H2. unfold placed in *. congruence. Qed.

Lemma placed_timed {A} (m : M Error t A) : keeps H2Idle.timed m → keeps placed m.
Proof. intros Hm c. specialize (Hm c). unfold H2Idle.timed, H2Idle.seen in Hm. unfold placed, slices. congruence. Qed.
Lemma placed_modify f : (∀ c, slices (f c) = slices c) → keeps placed (modify f).
Proof. intros Hf c. apply Hf. Qed.

Create HintDb timed.
Hint Resolve H2Idle.timed_with_slice H2Idle.timed_reserve H2Idle.timed_extend H2Idle.timed_hpack H2Idle.timed_with_stream H2Idle.timed_event H2Idle.timed_ensure H2Idle.timed_goaway H2Idle.timed_window_update H2Idle.timed_flush H2Idle.timed_ignore H2Idle.timed_feed H2Idle.timed_generate : timed.
Hint Extern 1 (keeps placed (modify _)) => (apply placed_modify; intros []; cbn; repeat case_match; reflexivity) : keeps.
Hint Extern 2 (keeps placed _) => (apply placed_timed; solve [eauto with timed]) : keeps.

Section h2.
Context `{Platform} (grant : Z → bool) (MAX_STREAMS HDRBUF DATABUF BUF : Z).

Lemma placed_len : keeps placed send_len.
Proof. unfold send_len. keep. Qed.
Hint Resolve placed_len : keeps.
Lemma placed_zeros n : keeps placed (push_zeros grant BUF n).
Proof. induction n as [|n IH]; cbn [push_zeros]; keep. Qed.
Lemma placed_fill fuel : keeps placed (fill_zeros grant BUF fuel).
Proof. induction fuel as [|fuel IH]; cbn [fill_zeros]; keep. Qed.
Lemma placed_truncate n : keeps placed (truncate_send n).
Proof.
  apply keeps_get_look. intros c. destruct (Buf.truncate n _) as [b| |] eqn:Hb; [|reflexivity..]. erewrite M_step_lift by reflexivity.
  unfold placed, slices. cbn. by rewrite (shape_truncate _ _ _ Hb).
Qed.
Hint Resolve placed_zeros placed_fill placed_truncate : keeps.
Lemma placed_block headers n : keeps placed (encode_block grant BUF headers n).
Proof. unfold encode_block. keep. Qed.
Hint Resolve placed_block : keeps.
Lemma placed_headers sid headers fin : keeps placed (send_headers grant MAX_STREAMS BUF sid headers fin).
Proof. unfold send_headers. keep. Qed.
Lemma placed_reserve n : keeps placed (reserve_data grant BUF n).
Proof. unfold reserve_data. keep. Qed.
Lemma placed_write sid data fin : keeps placed (write_data grant BUF sid data fin).
Proof. unfold write_data. keep. Qed.
Lemma placed_charge sid n : keeps placed (charge_data sid n).
Proof. unfold charge_data. keep. Qed.
Hint Resolve placed_headers placed_reserve placed_write placed_charge : keeps.
Lemma placed_data sid data fin : keeps placed (send_data grant BUF sid data fin).
Proof. unfold send_data. keep. Qed.
Lemma placed_response sid status headers fin : keeps placed (h2_send_response grant MAX_STREAMS BUF sid status headers fin).
Proof. unfold h2_send_response. keep. Qed.
Lemma placed_event : keeps placed poll_event.
Proof. unfold poll_event. keep. Qed.
Lemma placed_recv_headers sid : keeps placed (recv_headers sid).
Proof. unfold recv_headers. keep. Qed.
Lemma placed_recv_body sid cap : keeps placed (recv_body grant BUF sid cap).
Proof. unfold recv_body. keep. Qed.
Lemma placed_discard sid code : keeps placed (discard_body grant BUF sid code).
Proof. unfold discard_body. keep. Qed.
Lemma placed_time_out : keeps placed (time_out grant BUF).
Proof. unfold time_out. keep. Qed.
Hint Resolve placed_time_out : keeps.
Lemma placed_timeout now : keeps placed (handle_timeout grant BUF now).
Proof. unfold handle_timeout. keep. Qed.
Lemma placed_feed data now : keeps placed (feed_data_timed grant MAX_STREAMS HDRBUF DATABUF BUF data now).
Proof. unfold feed_data_timed. keep. Qed.
Lemma placed_output : keeps placed (generate_output grant BUF).
Proof. keep. Qed.

End h2.
End H2Lent.

(** ** HTTP/1.1 *)
Module Http1Lent.
Import Http1.

Definition slices (c : t) : option Z * option Z := (shape (recv_buf c), shape (send_buf c)).
Definition settled (c c' : t) : Prop := slices c' = slices c.
Global Instance settled_preorder : PreOrder settled.
Proof. split; [done|]. intros c1 c2 c3 H1 H2. unfold settled in *. congruence. Qed.

Lemma settled_modify f : (∀ c, slices (f c) = slices c) → keeps settled (modify f).
Proof. intros Hf c. apply Hf. Qed.
Hint Extern 1 (keeps settled (modify _)) => (apply settled_modify; intros []; cbn; repeat case_match; reflexivity) : keeps.

Section http1.
Context `{Platform} (grant : Z → bool) (HDRBUF DATABUF BUF : Z).

Lemma settled_reserve n : keeps settled (reserve_send grant BUF n).
Proof. intros c. unfold reserve_send, settled, slices. pose proof (shape_buf_try_reserve BUF grant n (send_buf c)) as Hs. destruct (Buf.buf_try_reserve _ _ _ _). cbn in *. by rewrite Hs. Qed.
Lemma settled_extend data : keeps settled (extend_send grant BUF data).
Proof. intros c. unfold extend_send, settled, slices. destruct (Buf.extend_from_slice _ _ _ _) as [b'| |] eqn:Hb; [|done..]. cbn. by rewrite (shape_extend _ _ _ _ _ Hb). Qed.
Hint Resolve settled_reserve settled_extend : keeps.
Lemma settled_queue data : keeps settled (queue_send grant BUF data).
Proof. unfold queue_send. keep. Qed.
Hint Resolve settled_queue : keeps.
Lemma settled_queue_headers headers : keeps settled (queue_headers grant BUF headers).
Proof. induction headers as [|[] headers IH]; cbn [queue_headers]; keep. Qed.
Lemma settled_check sid : keeps settled (check_stream_id sid).
Proof. unfold check_stream_id. keep. Qed.
Hint Resolve settled_queue_headers settled_check : keeps.
Lemma settled_send_headers sid headers : keeps settled (send_headers grant BUF sid headers).
Proof. unfold send_headers, encode_request, encode_response. keep. Qed.
Hint Resolve settled_send_headers : keeps.
Lemma settled_response sid status headers fin : keeps settled (http1_send_response grant BUF sid status headers fin).
Proof. unfold http1_send_response. keep. Qed.
Lemma settled_data sid data : keeps settled (send_data grant BUF sid data).
Proof. unfold send_data. keep. Qed.
Lemma settled_event : keeps settled poll_event.
Proof. unfold poll_event. keep. Qed.
Lemma settled_recv_headers sid : keeps settled (recv_headers sid).
Proof. unfold recv_headers. keep. Qed.
Lemma settled_recv_body sid cap : keeps settled (recv_body sid cap).
Proof. unfold recv_body. keep. Qed.
Lemma settled_timeout now : keeps settled (handle_timeout now).
Proof. unfold handle_timeout, time_out, push_event. keep. Qed.
Lemma settled_feed data now : keeps settled (feed_data_timed grant HDRBUF DATABUF BUF data now).
Proof.
  unfold feed_data_timed. keep. intros c. pose proof (Http1Idle.clocked_feed grant HDRBUF DATABUF BUF data c) as Hf.
  unfold Http1Idle.timed, Http1Idle.seen in Hf. unfold settled, slices. congruence.
Qed.

End http1.
End Http1Lent.

(** ** Connections of the trait *)
Module Kits.
Import HttpServer.

(** A kit by the sizes of its slices; their contents are overwritten by whoever holds
    the kit. *)
Abbreviation sizes := (Z * Z * Z)%type.
Definition kit_size (k : TlsBufKit) : sizes := (len (net_recv k), len (net_send k), len (app_send k)).

(** What a call does not change. *)
Definition same {S C} (g : S → C) (s s' : S) : Prop := g s' = g s.
Global Instance same_preorder {S C} (g : S → C) : PreOrder (same g).
Proof. split; [done|]. intros s1 s2 s3 H1 H2. unfold same in *. congruence. Qed.

(** What the manager relies on: a connection keeps the kit it was given through every
    call, and returns it when asked. *)
Class KitHolder {S : Type} (conn : HttpServerConn S) := {
  kit : S → option sizes;
  kit_poll_event cap : keeps (same kit) (poll_event cap);
  kit_recv_headers sid : keeps (same kit) (recv_headers sid);
  kit_recv_body sid cap : keeps (same kit) (recv_body sid cap);
  kit_send_response sid status headers fin : keeps (same kit) (send_response sid status headers fin);
  kit_send_body sid data fin : keeps (same kit) (send_body sid data fin);
  kit_discard_body sid code : keeps (same kit) (discard_body sid code);
  kit_set_timeouts config now s : same kit s (set_timeouts config now s);
  kit_handle_timeout now : keeps (same kit) (handle_timeout now);
  kit_feed data now : keeps (same kit) (tcp_feed_data data now);
  kit_output cap : keeps (same kit) (tcp_poll_output cap);
  kit_reclaim s : ∃ k s', reclaim_buffers s = (Ok k, s') ∧ kit_size <$> k = kit s
}.

Definition kit_of (c : TcpTls.t) : option sizes :=
  match TlsLent.slices c with (Some r, Some s, Some a) => Some (r, s, a) | _ => None end.
Lemma kit_of_lent c c' : TlsLent.lent c c' → kit_of c' = kit_of c.
Proof. unfold TlsLent.lent, kit_of. by intros ->. Qed.
Lemma keeps_kit {A} (m : M Error TcpTls.t A) : keeps TlsLent.lent m → keeps (same kit_of) m.
Proof. intros Hm c. by apply kit_of_lent. Qed.

Lemma take_static_shape b : (λ mem, len mem) <$> (Buf.take_static b).1 = shape b.
Proof. unfold Buf.take_static, shape. by destruct (Buf.storage b). Qed.
Lemma parts_reclaim c : ∃ k c', TlsParts.reclaim_buffers c = (Ok k, c') ∧ kit_size <$> k = kit_of c.
Proof.
  unfold TlsParts.reclaim_buffers, kit_of, TlsLent.slices. rewrite <- !take_static_shape.
  destruct (Buf.take_static (TcpTls.recv_buf c)) as [r rb], (Buf.take_static (TcpTls.send_buf c)) as [s sb], (Buf.take_static (TcpTls.app_send_buf c)) as [a ab].
  eexists _, _. split; [done|]. by destruct r, s, a.
Qed.

(** *** Stacks *)
Section stack.
Context {L : Type} `{Stack.Buffers L} `{Platform} `{Primitives} (grant : Z → bool) (BUF : Z).
Definition parts_of (h : L) : option Z * option Z := (shape (Stack.recv_part h), shape (Stack.send_part h)).
Hypothesis Hlend : ∀ r s h, parts_of (Stack.lend r s h) = (shape r, shape s).
Definition stack_kit (s : Stack.t L) : option sizes := kit_of (Stack.tls s).

Lemma on_tls_kit {A} (m : M Error TcpTls.t A) : keeps TlsLent.lent m → keeps (same stack_kit) (Stack.on_tls m).
Proof. intros Hm s. specialize (Hm (Stack.tls s)). unfold Stack.on_tls, same, stack_kit. destruct (m _). by apply kit_of_lent. Qed.
Lemma on_http_kit {A} (m : M Error L A) : keeps (same parts_of) m → keeps (same stack_kit) (Stack.on_http m).
Proof.
  intros Hm s. unfold Stack.on_http, same, stack_kit. specialize (Hm (Stack.lend (TcpTls.recv_buf (Stack.tls s)) (TcpTls.app_send_buf (Stack.tls s)) (Stack.http s))).
  destruct (m _) as [r h]. unfold same in Hm. rewrite Hlend in Hm. unfold parts_of in Hm. apply kit_of_lent. unfold TlsLent.lent, TlsLent.slices. cbn in *. congruence.
Qed.
Lemma when_active_kit {A} (m : M Error (Stack.t L) A) : keeps (same stack_kit) m → keeps (same stack_kit) (Stack.when_active m).
Proof. intros Hm. unfold Stack.when_active. keep. Qed.
Lemma feed_noting_kit note feed data : keeps (same parts_of) feed → keeps (same stack_kit) (Stack.feed_noting grant BUF note feed data).
Proof.
  intros Hf. unfold Stack.feed_noting, Stack.when_received. keep; [apply on_tls_kit, TlsLent.lent_feed|by intros s|by apply on_http_kit].
Qed.
Lemma option_map_kit {A B} (f : A → B) (m : M Error (Stack.t L) (option A)) : keeps (same stack_kit) m → keeps (same stack_kit) (option_map_event f m).
Proof. intros Hm. unfold option_map_event. keep. Qed.

End stack.

Section instances.
Context `{Platform} `{Primitives} (grant : Z → bool) (BUF MAX_STREAMS HDRBUF DATABUF : Z).

Lemma h2_lends r s (h : H2.t) : parts_of (Stack.lend r s h) = (shape r, shape s).
Proof. done. Qed.
Lemma http1_lends r s (h : Http1.t) : parts_of (Stack.lend r s h) = (shape r, shape s).
Proof. done. Qed.

Global Instance h2_kits : KitHolder (H2Tls.server_conn grant BUF MAX_STREAMS HDRBUF DATABUF).
Proof.
  refine {| kit := stack_kit |}; cbn [poll_event recv_headers recv_body send_response send_body discard_body set_timeouts handle_timeout tcp_feed_data tcp_poll_output reclaim_buffers H2Tls.server_conn].
  - intros _. apply option_map_kit, (on_http_kit h2_lends), H2Lent.placed_event.
  - intros sid. apply (on_http_kit h2_lends), H2Lent.placed_recv_headers.
  - intros sid cap. apply (on_http_kit h2_lends), H2Lent.placed_recv_body.
  - intros sid status headers fin. apply (on_http_kit h2_lends), H2Lent.placed_response.
  - intros sid data fin. apply (on_http_kit h2_lends), H2Lent.placed_data.
  - intros sid code. apply (on_http_kit h2_lends), H2Lent.placed_discard.
  - done.
  - intros now. apply (on_http_kit h2_lends), H2Lent.placed_timeout.
  - intros data now. apply (feed_noting_kit grant BUF h2_lends), H2Lent.placed_feed.
  - intros cap. apply keeps_bind; [apply _|apply (on_http_kit h2_lends), H2Lent.placed_output|intros _; apply on_tls_kit, TlsLent.lent_poll].
  - intros s. destruct (parts_reclaim (Stack.tls s)) as (k & c' & Hr & Hk). exists k, (Stack.Mk c' (Stack.http s)).
    unfold Stack.reclaim_buffers, Stack.on_tls. by rewrite Hr.
Defined.

Global Instance https1_kits : KitHolder (Https1.server_conn grant BUF HDRBUF DATABUF).
Proof.
  refine {| kit := stack_kit |}; cbn [poll_event recv_headers recv_body send_response send_body discard_body set_timeouts handle_timeout tcp_feed_data tcp_poll_output reclaim_buffers Https1.server_conn].
  - intros _. apply option_map_kit, (on_http_kit http1_lends), Http1Lent.settled_event.
  - intros sid. apply (on_http_kit http1_lends), Http1Lent.settled_recv_headers.
  - intros sid cap. apply (on_http_kit http1_lends), Http1Lent.settled_recv_body.
  - intros sid status headers fin. apply when_active_kit, (on_http_kit http1_lends), Http1Lent.settled_response.
  - intros sid data fin. apply when_active_kit, (on_http_kit http1_lends), Http1Lent.settled_data.
  - by intros sid code s.
  - done.
  - intros now. apply (on_http_kit http1_lends), Http1Lent.settled_timeout.
  - intros data now. apply (feed_noting_kit grant BUF http1_lends), Http1Lent.settled_feed.
  - intros cap. apply on_tls_kit, TlsLent.lent_poll.
  - intros s. destruct (parts_reclaim (Stack.tls s)) as (k & c' & Hr & Hk). exists k, (Stack.Mk c' (Stack.http s)).
    unfold Stack.reclaim_buffers, Stack.on_tls. by rewrite Hr.
Defined.

(** A connection in the clear was given no kit. *)
Global Instance http1_kits : KitHolder (http1_server_conn grant HDRBUF DATABUF BUF).
Proof. refine {| kit := λ _, None |}; try done. intros c. by exists None, c. Defined.

End instances.
End Kits.

(** ** The manager *)
Module ServerKits.
Import Kits Server ServerLife.

Section connection.
Context `{Platform} `{Primitives} (grant : Z → bool) (BUF : Z).

(** The boxed connection, by the type in the box. *)
Definition http_kit (h : Http) : option sizes :=
  match h with OverH2 s => stack_kit s | OverHttps1 s => stack_kit s | Cleartext _ => None end.

Lemma call_kit {B} (f : ∀ S, HttpServer.HttpServerConn S → M Error S B) :
  keeps (same stack_kit) (f _ (h2_conn grant BUF)) → keeps (same stack_kit) (f _ (https1_conn grant BUF)) → keeps (same http_kit) (call grant BUF f).
Proof.
  intros H2 H1 [s|s|c]; unfold call, over, same; [specialize (H2 s)|specialize (H1 s)|by destruct (f _ _ c)].
  all: by destruct (f _ _ s).
Qed.

#[local] Instance dyn : HttpServer.HttpServerConn Http := dyn_conn grant BUF.
#[local] Instance h2k : KitHolder (h2_conn grant BUF) := h2_kits grant BUF 8 2048 4096.
#[local] Instance https1k : KitHolder (https1_conn grant BUF) := https1_kits grant BUF 2048 4096.
Global Instance dyn_kits : KitHolder (dyn_conn grant BUF).
Proof.
  refine {| kit := http_kit |}; cbn [HttpServer.poll_event HttpServer.recv_headers HttpServer.recv_body HttpServer.send_response HttpServer.send_body HttpServer.discard_body HttpServer.set_timeouts HttpServer.handle_timeout HttpServer.tcp_feed_data HttpServer.tcp_poll_output HttpServer.reclaim_buffers dyn_conn].
  - intros cap. apply call_kit; [apply (kit_poll_event (KitHolder:=h2k))|apply (kit_poll_event (KitHolder:=https1k))].
  - intros sid. apply call_kit; [apply (kit_recv_headers (KitHolder:=h2k))|apply (kit_recv_headers (KitHolder:=https1k))].
  - intros sid cap. apply call_kit; [apply (kit_recv_body (KitHolder:=h2k))|apply (kit_recv_body (KitHolder:=https1k))].
  - intros sid status headers fin. apply call_kit; [apply (kit_send_response (KitHolder:=h2k))|apply (kit_send_response (KitHolder:=https1k))].
  - intros sid data fin. apply call_kit; [apply (kit_send_body (KitHolder:=h2k))|apply (kit_send_body (KitHolder:=https1k))].
  - intros sid code. apply call_kit; [apply (kit_discard_body (KitHolder:=h2k))|apply (kit_discard_body (KitHolder:=https1k))].
  - by intros config now [].
  - intros now. apply call_kit; [apply (kit_handle_timeout (KitHolder:=h2k))|apply (kit_handle_timeout (KitHolder:=https1k))].
  - intros data now. apply call_kit; [apply (kit_feed (KitHolder:=h2k))|apply (kit_feed (KitHolder:=https1k))].
  - intros cap. apply call_kit; [apply (kit_output (KitHolder:=h2k))|apply (kit_output (KitHolder:=https1k))].
  - intros [s|s|c]; [destruct (kit_reclaim (KitHolder:=h2k) s) as (k & s' & Hr & Hk)|destruct (kit_reclaim (KitHolder:=https1k) s) as (k & s' & Hr & Hk)|by eexists None, _].
    all: eexists k, _; split; [|exact Hk]; unfold call, over; by rewrite Hr.
Defined.

(** *** One connection *)

(** The kit a connection holds. *)
Definition held (c : TcpConn) : option sizes :=
  match tcp_state c with Handshaking parts => kit_of parts | Established http => http_kit http | Closed => None end.

(** A call on a connection hands out the kit it no longer holds. *)
Definition outs {B} (out : B → option HttpServer.TlsBufKit) (r : result B) : list sizes :=
  match r with Ok b => option_list (kit_size <$> out b) | _ => [] end.
Definition hands {B} (out : B → option HttpServer.TlsBufKit) (m : M Error TcpConn B) : Prop := ∀ c r c',
  m c = (r, c') → r ≠ Panic → option_list (held c) = outs out r ++ option_list (held c').

Lemma hands_same {B} (m : M Error TcpConn B) : keeps (same held) m → hands (λ _, None) m.
Proof. intros Hm c r c' Hr _. specialize (Hm c). rewrite Hr in Hm. unfold same in Hm. cbn in Hm. rewrite Hm. by destruct r. Qed.
Lemma on_http_held {B} (m : M Error Http B) : keeps (same http_kit) m → keeps (same held) (on_http m).
Proof.
  intros Hm c. unfold on_http, same, held. destruct (tcp_state c) as [parts|http|] eqn:Hs; cbn; rewrite ?Hs; [done| |done].
  specialize (Hm http). destruct (m http). cbn. exact Hm.
Qed.

Lemma reclaim_held c : ∃ k, on_state (reclaim_and_close grant BUF) c = (Ok k, c <| tcp_state := Closed |>) ∧ kit_size <$> k = held c.
Proof.
  unfold on_state, Quic.sub, reclaim_and_close, held. destruct (tcp_state c) as [parts|http|].
  - destruct (parts_reclaim parts) as (k & c' & -> & Hk). by exists k.
  - destruct (kit_reclaim (KitHolder:=dyn_kits) http) as (k & h' & Hr & Hk). exists k. rewrite Hr. done.
  - by exists None.
Qed.
Lemma close_hands : hands (λ k, mjoin k) (close_conn grant BUF).
Proof.
  intros c r c' Hr _. unfold close_conn in Hr. erewrite M_step_ok in Hr by reflexivity. destruct (reclaim_held c) as (k & Hk & Hs).
  destruct (tcp_state c) eqn:Ht.
  3: { injection Hr as <- <-. done. }
  all: erewrite M_step_ok in Hr by exact Hk; injection Hr as <- <-; cbn; by rewrite Hs, app_nil_r.
Qed.
Lemma tick_hands timeout now : hands (λ p, p ≫= snd) (tick_conn grant BUF timeout now).
Proof.
  intros c r c' Hr Hp. unfold tick_conn in Hr. erewrite M_step_ok in Hr by reflexivity. destruct (tcp_state c) eqn:Ht.
  - destruct (reclaim_held c) as (k & Hk & Hs). case_match; [|by injection Hr as <- <-].
    erewrite M_step_ok in Hr by exact Hk. injection Hr as <- <-. cbn. by rewrite Hs, app_nil_r.
  - pose proof (on_http_held (HttpServer.handle_timeout now) (kit_handle_timeout (KitHolder:=dyn_kits) now) c) as Hh. unfold Quic.attempt, mbind, M_bind in Hr.
    destruct (on_http _ c) as [[]]; cbn in *; injection Hr as <- <-; cbn; by rewrite Hh.
  - by injection Hr as <- <-.
Qed.

(** The kits that feeding a connection gives back. *)
Definition fed_out (f : Feeding) : option HttpServer.TlsBufKit := match f with Failed _ k | Rejected k => k | _ => None end.

Lemma alpn_kit parts : match http_conn_for_alpn parts with
  | inl (_, http) => http_kit http = kit_of parts
  | inr r => ∃ k, r = Ok k ∧ kit_size <$> k = kit_of parts
  end.
Proof.
  unfold http_conn_for_alpn. destruct (TlsParts.alpn parts); [|done]. repeat case_decide; [done..|].
  destruct (parts_reclaim parts) as (k & c' & -> & Hk). by exists k.
Qed.
Lemma upgrade_hands tm now parts c r c' : held c = kit_of parts → upgrade grant BUF tm now parts c = (r, c') → r ≠ Panic →
  option_list (held c) = outs fed_out r ++ option_list (held c').
Proof.
  intros Hc Hr Hp. rewrite Hc. unfold upgrade in Hr. pose proof (alpn_kit parts) as Ha. destruct (http_conn_for_alpn parts) as [[proto http]|k0].
  - pose proof (kit_set_timeouts (KitHolder:=dyn_kits) tm now http) as Ht.
    pose proof (kit_feed (KitHolder:=dyn_kits) [] now (HttpServer.set_timeouts tm now http)) as Hf. unfold Quic.attempt in Hr.
    destruct (HttpServer.tcp_feed_data _ _ _) as [x h']. assert (http_kit h' = kit_of parts) as Hk by (exact (eq_trans Hf (eq_trans Ht Ha))).
    rewrite <- Hk. by destruct x; injection Hr as <- <-.
  - destruct Ha as (k & -> & Hk). injection Hr as <- <-. cbn. by rewrite Hk, app_nil_r.
Qed.
Lemma feed_hands tm data now : hands fed_out (feed_conn grant BUF tm data now).
Proof.
  intros c r c' Hr Hp. unfold feed_conn in Hr. destruct (tcp_state c) as [parts|http|] eqn:Hs.
  - pose proof (kit_of_lent _ _ (TlsLent.lent_feed BUF grant data parts)) as Hl. destruct (TcpTls.feed_data _ _ _ parts) as [x parts']. cbn in Hl.
    assert (held (c <| tcp_state := Handshaking parts' |>) = held c) as Hh by (unfold held; cbn; by rewrite Hs).
    rewrite <- Hh. destruct x as [u|e|]; [|destruct (reclaim_held (c <| tcp_state := Handshaking parts' |>)) as (k & Hk & Hkit)|by injection Hr as <- <-].
    + destruct (TcpTls.is_active parts'); [eapply upgrade_hands; [reflexivity|exact Hr|exact Hp]|]. by injection Hr as <- <-.
    + erewrite M_step_ok in Hr by exact Hk. injection Hr as <- <-. cbn [outs fed_out]. by rewrite Hkit, app_nil_r.
  - pose proof (kit_feed (KitHolder:=dyn_kits) data now http) as Hf. destruct (HttpServer.tcp_feed_data _ _ _) as [x h']. unfold same in Hf. cbn in Hf.
    unfold held at 1. rewrite Hs, <- Hf. destruct x; injection Hr as <- <-; done.
  - by injection Hr as <- <-.
Qed.
Lemma output_held cap : keeps (same held) (output_conn grant BUF cap).
Proof.
  intros c. unfold output_conn, same, held. destruct (tcp_state c) as [parts|http|] eqn:Hs; cbn [snd]; [| |by rewrite Hs].
  - pose proof (kit_of_lent _ _ (TlsLent.lent_poll BUF grant cap parts)) as Hl. by destruct (TcpTls.poll_output _ _ _ parts).
  - pose proof (kit_output (KitHolder:=dyn_kits) cap http) as Hf. by destruct (HttpServer.tcp_poll_output _ _).
Qed.

Definition polled_out (p : option (Z * Polled)) : option HttpServer.TlsBufKit := match p with Some (_, Reclaimed k) => k | _ => None end.
Lemma poll_hands cap : hands polled_out (poll_conn grant BUF cap).
Proof.
  intros c r c' Hr Hp. unfold poll_conn in Hr. erewrite M_step_ok in Hr by reflexivity.
  pose proof (on_http_held (HttpServer.poll_event cap) (kit_poll_event (KitHolder:=dyn_kits) cap) c) as Hh. unfold mbind at 1, M_bind at 1 in Hr.
  destruct (on_http _ c) as [[[[ev|]|]|e|] c1]; unfold same in Hh; cbn in Hh; rewrite <- Hh; try by injection Hr as <- <-.
  erewrite M_step_ok in Hr by reflexivity. destruct (tcp_state c1) as [|http|] eqn:Hs1; try by injection Hr as <- <-.
  case_match; [|by injection Hr as <- <-]. destruct (reclaim_held c1) as (k & Hk & Hkit). erewrite M_step_ok in Hr by exact Hk. injection Hr as <- <-.
  cbn [outs polled_out]. by rewrite Hkit, app_nil_r.
Qed.
Lemma drain_kit fuel : keeps (same http_kit) (drain_events grant BUF fuel).
Proof.
  induction fuel as [|fuel IH]; cbn [drain_events]; (apply keeps_bind; [apply _|apply (kit_poll_event (KitHolder:=dyn_kits))|intros ev]); keep.
Qed.
Lemma eof_hands : hands (λ p, p ≫= snd) (eof_conn grant BUF).
Proof.
  intros c r c' Hr Hp. unfold eof_conn in Hr. erewrite M_step_ok in Hr by reflexivity. destruct (tcp_state c) as [parts|http|] eqn:Hs.
  - destruct (reclaim_held c) as (k & Hk & Hkit). erewrite M_step_ok in Hr by exact Hk. injection Hr as <- <-. cbn. by rewrite Hkit, app_nil_r.
  - pose proof (on_http_held _ (drain_kit (queued http)) c) as Hh. unfold mbind at 1, M_bind at 1 in Hr.
    destruct (on_http _ c) as [[evs|e|] c1]; unfold same in Hh; cbn in Hh; rewrite <- Hh; [|by injection Hr as <- <-..].
    destruct (reclaim_held c1) as (k & Hk & Hkit). erewrite M_step_ok in Hr by exact Hk. injection Hr as <- <-. cbn. by rewrite Hkit, app_nil_r.
  - by injection Hr as <- <-.
Qed.

End connection.

(** *** The whole manager *)
Section manager.
Context {A : Type} `{H3.Params} `{Platform} `{Primitives} (grant : Z → bool) (BUF : Z).
Implicit Types m : t A.

(** The kits in the pool and those that connections hold. *)
Definition lent_kits m : list sizes := omap held (tcp_conns m).
Definition free m : list sizes := kit_size <$> free_kits m.
Definition assets m : list sizes := free m ++ lent_kits m.

(** The calls that neither gain nor lose a kit. *)
Definition balanced m m' : Prop := assets m' ≡ₚ assets m.
Global Instance balanced_preorder : PreOrder balanced.
Proof. split; [intros m; unfold balanced; done|]. intros m1 m2 m3 Ha Hb. unfold balanced in *. by rewrite Hb. Qed.

Lemma push_assets ev m : assets (push_server_event ev m) = assets m.
Proof. done. Qed.
Lemma note_assets i reason m : assets (note_close_reason i reason m) = assets m.
Proof. unfold note_close_reason. by case_match. Qed.
Lemma give_back_assets k m : assets (give_back k m) ≡ₚ option_list (kit_size <$> k) ++ assets m.
Proof.
  destruct k as [k|]; [|done]. unfold give_back, assets, free, lent_kits. cbn. rewrite fmap_app, <- app_assoc. cbn. by rewrite <- Permutation_middle.
Qed.
Lemma closed_assets i k reason m : assets (closed i k reason m) ≡ₚ option_list (kit_size <$> k) ++ assets m.
Proof. unfold closed. rewrite push_assets, note_assets. apply give_back_assets. Qed.

Lemma lent_app l1 l2 : omap held (l1 ++ l2) = omap held l1 ++ omap held l2.
Proof. induction l1 as [|c l1 IH]; cbn; [done|]. destruct (held c); cbn; by rewrite IH. Qed.
Lemma lent_cons c l : omap held (c :: l) = option_list (held c) ++ omap held l.
Proof. cbn. by destruct (held c). Qed.

(** A call on one connection. *)
Lemma on_conn_assets {B} i out (f : M Error TcpConn B) m r m' : hands out f → on_conn i f m = (r, m') → r ≠ Panic →
  assets m ≡ₚ outs (λ b, b ≫= out) r ++ assets m'.
Proof.
  intros Hf Hr Hp. apply on_conn_spec in Hr as [[-> ->]|(t1 & c & t2 & c' & r0 & Ht & Hc & _ & -> & ->)]; [done|].
  assert (r0 ≠ Panic) as Hp0 by (by destruct r0). apply (Hf _ _ _ Hc) in Hp0. unfold assets, lent_kits. cbn. rewrite Ht, !lent_app, !lent_cons, Hp0.
  assert (outs (λ b, b ≫= out) (Some <$> r0) = outs out r0) as -> by (by destruct r0). unfold free. cbn. solve_Permutation.
Qed.
Lemma on_conn_balanced {B} i (f : M Error TcpConn B) : keeps (same held) f → keeps balanced (on_conn (A:=A) i f).
Proof.
  intros Hf m. unfold on_conn, on_tcp, balanced. destruct (on_first _ _ _ _) as [r [x l]] eqn:Hr. cbn.
  pose proof (on_first_keeps held (is_tcp i) (alone f) tt (tcp_conns m)) as Hk. rewrite Hr in Hk. cbn in Hk.
  unfold assets, free, lent_kits. cbn. assert (held <$> l = held <$> tcp_conns m) as Hl.
  { apply Hk. intros [[] c]. specialize (Hf c). unfold alone. by destruct (f c). }
  assert (∀ l : list TcpConn, omap held l = omap id (held <$> l)) as Ho.
  { clear. intros l. induction l as [|c l IH]; cbn; [done|]. by rewrite IH. }
  by rewrite !Ho, Hl.
Qed.

(** *** TCP *)
Lemma from_static_shape mem b : Buf.from_static (E:=Error) BUF mem = Ok b → shape b = Some (len mem).
Proof. unfold Buf.from_static. case_match; [|done]. by intros [= <-]. Qed.
Lemma parts_in_kit cfg secret random k parts : TlsParts.new_server_in BUF cfg secret random k = Ok parts → kit_of parts = Some (kit_size k).
Proof.
  unfold TlsParts.new_server_in. destruct (Buf.from_static _ (HttpServer.net_recv k)) as [b1| |] eqn:Hb1; [|done..]. cbn.
  destruct (Buf.from_static _ (HttpServer.net_send k)) as [b2| |] eqn:Hb2; [|done..]. cbn. destruct (Buf.from_static _ (HttpServer.app_send k)) as [b3| |] eqn:Hb3; [|done..].
  cbn. intros [= <-]. unfold kit_of, TlsLent.slices. cbn. by rewrite (from_static_shape _ _ Hb1), (from_static_shape _ _ Hb2), (from_static_shape _ _ Hb3).
Qed.
Lemma parts_heap cfg secret random parts : TlsParts.new_server grant BUF cfg secret random = Ok parts → kit_of parts = None.
Proof.
  unfold TlsParts.new_server. pose proof (shape_try_reserve BUF grant BUF Buf.new) as Hs. destruct (Buf.try_reserve _ _ _ _) as [[] b]; intros [= <-].
  all: unfold kit_of, TlsLent.slices; cbn in *; by rewrite Hs.
Qed.
Lemma accept_assets secret random now m r m' : accept_tcp grant BUF secret random now m = (r, m') → r ≠ Panic → balanced m m'.
Proof.
  intros Hr Hp. unfold accept_tcp in Hr. erewrite M_step_ok in Hr by reflexivity. case_match; [by injection Hr as <- <-|].
  unfold mbind at 1, M_bind at 1 in Hr. destruct (alloc_id m) as [r1 m1] eqn:Ha. apply alloc_id_ok in Ha as [->|[-> ->]]; [by injection Hr as <- <-|].
  erewrite M_step_ok in Hr by reflexivity. change (free_kits (m <| next_id := next_id m + 1 |>)) with (free_kits m) in Hr.
  destruct (last (free_kits m)) as [k|] eqn:Hl.
  - destruct (TlsParts.new_server_in _ _ _ _ k) as [parts| |] eqn:Hn; [| |by injection Hr as <- <-].
    + erewrite M_step_lift in Hr by reflexivity. injection Hr as <- <-. apply parts_in_kit in Hn. apply last_Some in Hl as [l Hl]. unfold balanced, assets, lent_kits, free. cbn.
      rewrite lent_app, lent_cons. change (held (MkTcp _ (Handshaking parts) _ _ _)) with (kit_of parts). rewrite Hn, Hl, removelast_last, fmap_app. cbn. solve_Permutation.
    + exfalso. revert Hn. unfold TlsParts.new_server_in, Buf.from_static. by repeat (case_match; cbn).
  - apply last_None in Hl. destruct (TlsParts.new_server _ _ _ _ _) as [parts| |] eqn:Hn; [| |by injection Hr as <- <-].
    + erewrite M_step_lift in Hr by reflexivity. injection Hr as <- <-. apply parts_heap in Hn. unfold balanced, assets, lent_kits, free. cbn.
      rewrite lent_app, lent_cons. change (held (MkTcp _ (Handshaking parts) _ _ _)) with (kit_of parts). rewrite Hn, Hl. cbn. by rewrite app_nil_r.
    + exfalso. revert Hn. unfold TlsParts.new_server. by repeat case_match.
Qed.
Lemma cleartext_assets now m r m' : accept_tcp_cleartext grant BUF now m = (r, m') → r ≠ Panic → balanced m m'.
Proof.
  intros Hr Hp. unfold accept_tcp_cleartext in Hr. erewrite M_step_ok in Hr by reflexivity. case_match; [by injection Hr as <- <-|].
  unfold mbind at 1, M_bind at 1 in Hr. destruct (alloc_id m) as [r1 m1] eqn:Ha. apply alloc_id_ok in Ha as [->|[-> ->]]; [by injection Hr as <- <-|].
  erewrite !M_step_ok in Hr by reflexivity. injection Hr as <- <-. unfold balanced. rewrite push_assets. unfold assets, lent_kits, free. cbn.
  rewrite lent_app. cbn. by rewrite app_nil_r.
Qed.
Lemma feed_assets i data now m r m' : tcp_feed grant BUF i data now m = (r, m') → r ≠ Panic → balanced m m'.
Proof.
  intros Hr Hp. unfold tcp_feed in Hr. erewrite M_step_ok in Hr by reflexivity. fold (on_conn (A:=A) i (feed_conn grant BUF (http_timeouts (config m)) data now)) in Hr.
  unfold mbind at 1, M_bind at 1 in Hr. destruct (on_conn i _ m) as [r1 m1] eqn:Hc.
  assert (r1 ≠ Panic) as Hp1 by (intros ->; by injection Hr as <- <-). apply (on_conn_assets _ _ _ _ _ _ (feed_hands grant BUF _ data now) Hc) in Hp1.
  unfold balanced. rewrite Hp1. destruct r1 as [[[|x k|k|]|]|e|]; [..|by injection Hr as <- <-]; injection Hr as <- <-; cbn [outs mbind option_bind fed_out]; try done.
  all: rewrite closed_assets; done.
Qed.
Lemma eof_assets i m r m' : tcp_eof grant BUF i m = (r, m') → r ≠ Panic → balanced m m'.
Proof.
  intros Hr Hp. unfold tcp_eof in Hr. unfold mbind at 1, M_bind at 1 in Hr. destruct (on_conn i _ m) as [r1 m1] eqn:Hc.
  assert (r1 ≠ Panic) as Hp1 by (intros ->; by injection Hr as <- <-). apply (on_conn_assets _ _ _ _ _ _ (eof_hands grant BUF) Hc) in Hp1.
  unfold balanced. rewrite Hp1. destruct r1 as [[[[evs k]|]|]|e|]; [| | | |by injection Hr as <- <-]; try (injection Hr as <- <-; done).
  erewrite !M_step_ok in Hr by reflexivity. injection Hr as <- <-. rewrite push_assets, note_assets.
  assert (∀ m0, assets (foldl (λ m0 ev, push_server_event (EvHttp i ev) m0) m0 evs) = assets m0) as ->.
  { clear. induction evs as [|ev evs IH]; intros m0; cbn; [done|]. rewrite IH. apply push_assets. }
  by rewrite give_back_assets.
Qed.

Lemma ticks_assets timeout now (l : list TcpConn) ps : Forall2 (answered (alone (tick_conn grant BUF timeout now))) l ps →
  omap held l ≡ₚ (kit_size <$> omap snd (omap id (ps.*2))) ++ omap held (ps.*1).
Proof.
  induction 1 as [|c [c' o] l ps (x & x' & Hc) _ IH]; [done|]. unfold alone in Hc. destruct (tick_conn _ _ _ _ c) as [r1 c1] eqn:Ht. injection Hc as -> _ ->.
  assert (Ok o ≠ @Panic Error _) as Hh by done. apply (tick_hands grant BUF timeout now _ _ _ Ht) in Hh. rewrite lent_cons, Hh, IH. cbn -[held]. destruct o as [[i k]|]; cbn -[held].
  - destruct k; cbn -[held]; destruct (held c'); cbn; solve_Permutation.
  - destruct (held c'); cbn; solve_Permutation.
Qed.
Lemma tick_assets now m r m' : handle_tcp_timeouts grant BUF now m = (r, m') → r ≠ Panic → balanced m m'.
Proof.
  intros Hr Hp. unfold handle_tcp_timeouts in Hr. erewrite M_step_ok in Hr by reflexivity. unfold mbind at 1, M_bind at 1, on_tcp in Hr.
  destruct (on_each _ _ _) as [r1 [x l]] eqn:Ho. apply on_each_spec in Ho as [->|(ps & -> & -> & Hps)].
  - by injection Hr as <- <-.
  - cbv zeta in Hr. erewrite !M_step_ok in Hr by reflexivity. injection Hr as <- <-. unfold balanced.
    assert (∀ (to : list (Z * option HttpServer.TlsBufKit)) m0, assets (foldl (λ m p, push_server_event (EvClosed p.1) (note_close_reason p.1 HandshakeTimeout m)) m0 to) = assets m0) as ->.
    { clear. induction to as [|p to IH]; intros m0; cbn; [done|]. by rewrite IH, push_assets, note_assets. }
    apply ticks_assets in Hps. unfold assets, lent_kits, free. cbn. rewrite Hps, fmap_app. solve_Permutation.
  - intros x0 c e s. unfold alone. destruct (tick_conn _ _ _ _ c) as [r2 c2] eqn:Ht. apply tick_view in Ht. intros [= -> _]. naive_solver.
Qed.

(** *** QUIC connections hold no kits *)
Definition steady (e e' : env A) : Prop := balanced (mgr e) (mgr e').
Global Instance steady_preorder : PreOrder steady.
Proof. split; [intros e; unfold steady; reflexivity|]. intros e1 e2 e3 Ha Hb. unfold steady in *. by etrans. Qed.

Lemma on_quic_steady {B} mem f : keeps steady (on_quic (A:=A) (B:=B) mem f).
Proof. intros e. unfold on_quic, steady, balanced. by destruct (f _ _) as [r [x l]]. Qed.
Lemma on_mgr_steady {B} (f : M Error (t A) B) : keeps balanced f → keeps steady (on_mgr f).
Proof. intros Hf e. specialize (Hf (mgr e)). unfold on_mgr, Quic.sub, steady. by destruct (f (mgr e)). Qed.
Lemma on_pool_steady {B} (f : M Error Quic.HandshakePool B) : keeps steady (on_pool (A:=A) f).
Proof. intros e. unfold on_pool, Quic.sub, steady. by destruct (f (pool e)). Qed.
Lemma modify_balanced (f : t A → t A) : (∀ m, assets (f m) = assets m) → keeps balanced (modify f).
Proof. intros Hf m. unfold balanced. cbn. by rewrite Hf. Qed.
Lemma alloc_balanced : keeps balanced (alloc_id (A:=A)).
Proof. unfold alloc_id. keep; apply modify_balanced; done. Qed.
Hint Resolve on_quic_steady on_mgr_steady on_pool_steady alloc_balanced : keeps.

Lemma reap_steady now : keeps steady (reap_quic_conns (A:=A) now).
Proof.
  unfold reap_quic_conns. keep. apply on_mgr_steady, modify_balanced. intros m. revert m. generalize a0. clear.
  induction a0 as [|i l IH]; intros m; cbn; [done|]. by rewrite IH, push_assets.
Qed.
Hint Resolve reap_steady : keeps.
Lemma accept_quic_steady data from now dcid secret random cid : keeps steady (accept_quic (A:=A) grant data from now dcid secret random cid).
Proof.
  unfold accept_quic. apply keeps_bind; [apply _|keep|intros id]. apply keeps_bind; [apply _|keep|intros e0]. apply keeps_bind; [apply _|keep|intros q0].
  cbv zeta. apply keeps_get_look. intros e. destruct (on_h3 _ _) as [[u|err|] [[p mem] q]]; [unfold steady, balanced; done| |reflexivity].
  destruct (on_h3 H3Api.release_handshake_slot _) as [r [[p1 mem1] q1]]. unfold steady, balanced; done.
Qed.
Hint Resolve accept_quic_steady : keeps.
Lemma udp_steady data from now secret random cid : keeps steady (udp_feed (A:=A) grant data from now secret random cid).
Proof. unfold udp_feed. keep. Qed.
Lemma transmit_steady buf now : keeps steady (udp_poll_transmit (A:=A) grant buf now).
Proof. unfold udp_poll_transmit. keep. Qed.
Lemma forward_steady {B} i (tcp : M Error Http B) quic : keeps (same http_kit) tcp → keeps steady (forward (A:=A) i tcp quic).
Proof. intros Ht. unfold forward. keep. apply on_mgr_steady, on_conn_balanced, on_http_held, Ht. Qed.


(** *** Closing and polling *)
Lemma close_assets i e r e' : close grant BUF i e = (r, e') → r ≠ Panic → steady e e'.
Proof.
  intros Hr Hp. unfold close in Hr. unfold mbind at 1, M_bind at 1, on_mgr at 1, Quic.sub at 1 in Hr. destruct (on_conn i _ (mgr e)) as [r1 m1] eqn:Hc.
  assert (r1 ≠ Panic) as Hp1 by (intros ->; by injection Hr as <- <-). apply (on_conn_assets _ _ _ _ _ _ (close_hands grant BUF) Hc) in Hp1.
  unfold steady, balanced. rewrite Hp1. destruct r1 as [[[k|]|]|err|]; [| | |by injection Hr as <- <-..].
  - injection Hr as <- <-. cbn -[assets]. rewrite closed_assets. by destruct k.
  - by injection Hr as <- <-.
  - set (f := on_quic _ _ ≫= _) in Hr. assert (keeps steady f) as Hf by (unfold f; keep). specialize (Hf (e <| mgr := m1 |>)).
    rewrite Hr in Hf. exact Hf.
Qed.

Lemma first_some_assets cap m r m' : on_tcp (first_some (alone (poll_conn grant BUF cap)) tt) m = (r, m') → r ≠ Panic →
  assets m ≡ₚ outs polled_out r ++ assets m'.
Proof.
  unfold on_tcp. destruct (first_some _ _ _) as [r1 [x l]] eqn:Hf. intros [= <- <-] Hp. unfold assets, lent_kits, free. cbn.
  assert (∀ l1 l1', Forall2 (passed (alone (poll_conn grant BUF cap))) l1 l1' → omap held l1 = omap held l1') as Hpass.
  { clear. induction 1 as [|c c' l l' (x & x' & Hc) _ IH]; [done|]. unfold alone in Hc. destruct (poll_conn _ _ _ c) as [r1 c1] eqn:Ht. injection Hc as -> _ ->.
    assert (Ok None ≠ @Panic Error (option (Z * Polled))) as Hh by done. apply (poll_hands grant BUF cap _ _ _ Ht) in Hh. by rewrite !lent_cons, Hh, IH. }
  apply first_some_spec in Hf as [[-> Hf]|(l1 & c & l2 & l1' & c' & x1 & Hl & -> & Hf & Hm & _)]; [by rewrite (Hpass _ _ Hf)|].
  unfold alone in Hm. destruct (poll_conn _ _ _ c) as [r2 c2] eqn:Ht. injection Hm as -> _ ->.
  apply (poll_hands grant BUF cap _ _ _ Ht) in Hp. rewrite Hl, !lent_app, !lent_cons, Hp, (Hpass _ _ Hf). solve_Permutation.
Qed.
Lemma pop_balanced : keeps balanced (pop_event (A:=A)).
Proof. unfold pop_event. keep. by apply modify_balanced. Qed.
Lemma forget_assets m : assets (m <| tcp_conns := List.filter (λ c, negb (is_closed_state (tcp_state c))) (tcp_conns m) |>) = assets m.
Proof.
  unfold assets, free, lent_kits. cbn. f_equal. induction (tcp_conns m) as [|c l IH]; [done|]. rewrite lent_cons. cbn [List.filter].
  destruct (tcp_state c) eqn:Hs; cbn [is_closed_state negb]; rewrite ?lent_cons, IH; [done..|]. unfold held. by rewrite Hs.
Qed.
Lemma poll_assets cap e r e' : poll_event grant BUF cap e = (r, e') → r ≠ Panic → steady e e'.
Proof.
  intros Hr Hp. unfold poll_event in Hr. pose proof (on_mgr_steady pop_event pop_balanced e) as H0'. unfold mbind at 1, M_bind at 1 in Hr.
  destruct (on_mgr pop_event e) as [[[ev|]|err|] e1]; cbn [snd] in H0'; try (injection Hr as <- <-; exact H0').
  etrans; [exact H0'|]. clear H0'. unfold mbind at 1, M_bind at 1, on_mgr at 1, Quic.sub at 1 in Hr. destruct (on_tcp _ (mgr e1)) as [r1 m1] eqn:Hc.
  assert (r1 ≠ Panic) as Hp1 by (intros ->; by injection Hr as <- <-). apply (first_some_assets _ _ _ _ Hc) in Hp1.
  unfold steady, balanced. rewrite Hp1. destruct r1 as [[[i [ev|k]]|]|err|]; [..|by injection Hr as <- <-].
  - by injection Hr as <- <-.
  - erewrite M_step_ok in Hr by reflexivity. injection Hr as <- <-. cbn -[assets]. by rewrite note_assets, give_back_assets.
  - set (f := on_quic _ _ ≫= _) in Hr. assert (keeps steady f) as Hf.
    { unfold f. keep. all: apply on_mgr_steady; first [apply pop_balanced|apply modify_balanced, forget_assets]. }
    specialize (Hf (e1 <| mgr := m1 |>)). rewrite Hr in Hf. exact Hf.
  - by injection Hr as <- <-.
Qed.


(** *** All operations *)

(** The kits a call brings in and takes out. *)
Definition brings (o : op (A:=A)) : list sizes := match o with AddKit k => [kit_size k] | _ => [] end.
Definition takes (o : op (A:=A)) (e : env A) : list sizes :=
  match o with TakeKit => option_list (kit_size <$> (take_tls_buffer_kit (mgr e)).1) | _ => [] end.
Definition donated (ops : list (op (A:=A))) : list sizes := concat (brings <$> ops).
Fixpoint taken (ops : list (op (A:=A))) (e : env A) : list sizes :=
  match ops with [] => [] | o :: ops => takes o e ++ taken ops (step grant BUF o e).2 end.

Definition accounted (o : op (A:=A)) (e e' : env A) : Prop := brings o ++ assets (mgr e) ≡ₚ takes o e ++ assets (mgr e').

Lemma quietly_assets {B} (f : M Error (env A) B) (P : env A → Prop) e r e' : (∀ r1 e1, f e = (r1, e1) → r1 ≠ Panic → P e1) →
  quietly f e = (r, e') → r ≠ Panic → P e'.
Proof.
  intros Hf. unfold quietly, mbind, M_bind. destruct (f e) as [r1 e1] eqn:Hr. intros Hq Hp.
  destruct r1; injection Hq as <- <-; [by eapply Hf..|done].
Qed.
Lemma quietly_steady {B} (f : M Error (env A) B) e r e' : keeps steady f → quietly f e = (r, e') → steady e e'.
Proof.
  intros Hf. specialize (Hf e). unfold quietly, mbind, M_bind. destruct (f e) as [[]]; intros [= <- <-]; exact Hf.
Qed.
Lemma quietly_mgr_assets {B} (f : M Error (t A) B) e r e' : (∀ r1 m1, f (mgr e) = (r1, m1) → r1 ≠ Panic → balanced (mgr e) m1) →
  quietly (on_mgr f) e = (r, e') → r ≠ Panic → steady e e'.
Proof.
  intros Hf. apply quietly_assets. intros r1 e1. unfold on_mgr, Quic.sub. destruct (f (mgr e)) as [r2 m2] eqn:Hr. intros [= <- <-]. by apply Hf.
Qed.

Lemma add_accounted k e r e' : step grant BUF (AddKit k) e = (r, e') → accounted (AddKit k) e e'.
Proof. intros [= <- <-]. unfold accounted, assets, free, lent_kits. cbn. rewrite fmap_app. cbn. solve_Permutation. Qed.
Lemma take_accounted e r e' : step grant BUF TakeKit e = (r, e') → accounted TakeKit e e'.
Proof.
  intros [= <- <-]. unfold accounted, assets, free, lent_kits. cbn. destruct (last (free_kits (mgr e))) as [k|] eqn:Hl.
  - apply last_Some in Hl as [l ->]. rewrite removelast_last, fmap_app. cbn. solve_Permutation.
  - apply last_None in Hl. by rewrite Hl.
Qed.
Lemma step_accounted o e r e' : step grant BUF o e = (r, e') → r ≠ Panic → accounted o e e'.
Proof.
  intros Hr Hp. destruct o as [| | | | | | | | | | | | | | |k| | |]; try (by eapply add_accounted); try (by eapply take_accounted).
  all: unfold accounted; cbn [brings takes app]; symmetry; change (steady e e'); cbn [step] in Hr.
  - eapply quietly_mgr_assets; [|exact Hr|done]. intros r1 m1. apply accept_assets.
  - eapply quietly_mgr_assets; [|exact Hr|done]. intros r1 m1. apply cleartext_assets.
  - eapply quietly_mgr_assets; [|exact Hr|done]. intros r1 m1. apply feed_assets.
  - eapply quietly_steady; [|exact Hr]. apply on_mgr_steady. unfold tcp_poll_output. keep. apply on_conn_balanced, output_held.
  - eapply quietly_mgr_assets; [|exact Hr|done]. intros r1 m1. apply eof_assets.
  - eapply quietly_steady; [|exact Hr]. apply udp_steady.
  - eapply quietly_steady; [|exact Hr]. apply transmit_steady.
  - unfold mbind, M_bind in Hr. destruct (poll_event grant BUF cap e) as [r1 e1] eqn:Hpe.
    assert (r1 ≠ Panic) as Hp1 by (intros ->; by injection Hr as <- <-). apply (poll_assets _ _ _ _ Hpe) in Hp1. by destruct r1; injection Hr as <- <-.
  - eapply quietly_steady; [|exact Hr]. apply forward_steady, (kit_recv_headers (KitHolder:=dyn_kits grant BUF)).
  - eapply quietly_steady; [|exact Hr]. apply forward_steady, (kit_recv_body (KitHolder:=dyn_kits grant BUF)).
  - eapply quietly_steady; [|exact Hr]. apply on_mgr_steady. unfold discard_body. keep.
    apply on_conn_balanced, on_http_held, (kit_discard_body (KitHolder:=dyn_kits grant BUF)).
  - eapply quietly_steady; [|exact Hr]. apply forward_steady, (kit_send_response (KitHolder:=dyn_kits grant BUF)).
  - eapply quietly_steady; [|exact Hr]. apply forward_steady, (kit_send_body (KitHolder:=dyn_kits grant BUF)).
  - eapply quietly_assets; [|exact Hr|done]. intros r1 e1 Hh Hp1. unfold handle_timeouts in Hh. unfold mbind, M_bind, on_mgr, Quic.sub in Hh.
    destruct (handle_tcp_timeouts _ _ _ (mgr e)) as [r2 m2] eqn:Ht. assert (r2 ≠ Panic) as Hp2 by (intros ->; by injection Hh as <- <-).
    apply (tick_assets _ _ _ _ Ht) in Hp2. etrans; [exact (Hp2 : steady e (e <| mgr := m2 |>))|]. destruct r2; [|by injection Hh as <- <-..].
    pose proof (reap_steady now (e <| mgr := m2 |>)) as Hs. by rewrite Hh in Hs.
  - eapply quietly_assets; [|exact Hr|done]. intros r1 e1. apply close_assets.
  - eapply quietly_steady; [|exact Hr]. apply on_mgr_steady, modify_balanced. intros m. apply note_assets.
  - eapply quietly_steady; [|exact Hr]. apply on_mgr_steady, modify_balanced. intros m. unfold take_close_reason. by repeat case_match.
Qed.

Lemma run_accounted ops : ∀ e evs e', run grant BUF ops e = Some (evs, e') → donated ops ++ assets (mgr e) ≡ₚ taken ops e ++ assets (mgr e').
Proof.
  induction ops as [|o ops IH]; intros e evs e'; cbn [run]; [by intros [= <- <-]|]. destruct (step grant BUF o e) as [r e1] eqn:Hs.
  intros Hr. assert (r ≠ Panic) as Hp by (by intros ->). apply (step_accounted _ _ _ _ Hs) in Hp.
  assert (∃ evs2, run grant BUF ops e1 = Some (evs2, e')) as [evs2 Hr2].
  { destruct r; [| |done]; destruct (run grant BUF ops e1) as [[evs2 e2]|]; try done; injection Hr as <- <-; by eexists. }
  apply IH in Hr2. unfold accounted in Hp. cbn [taken]. rewrite Hs. unfold donated in *. cbn. rewrite <- !app_assoc, <- Hr2.
  rewrite (Permutation_app_swap_app (brings o)), Hp. solve_Permutation.
Qed.

(** C11: The static buffers a server lends to TLS connections are never lost.  From a
    fresh manager, over any calls, errors included, the kits that the caller has
    donated are, by the sizes of their slices and each as often as it was donated,
    those that the caller took back, those in the free pool, and those that live
    connections hold; so that once no connection is live, all of them are in the pool
    or with the caller. *)
Theorem server_kits_conserved tls cfg p ops evs e : run grant BUF ops (MkEnv A (new tls cfg) p) = Some (evs, e) →
  donated ops ≡ₚ taken ops (MkEnv A (new tls cfg) p) ++ (kit_size <$> free_kits (mgr e)) ++ omap held (tcp_conns (mgr e)) ∧
  (Forall (λ c, tcp_state c = Closed) (tcp_conns (mgr e)) →
     free_tls_buffer_kits (mgr e) = len (donated ops) - len (taken ops (MkEnv A (new tls cfg) p))).
Proof.
  intros Hr. apply run_accounted in Hr. cbn in Hr. rewrite app_nil_r in Hr. split; [exact Hr|]. intros Hc.
  assert (lent_kits (mgr e) = []) as Hn.
  { unfold lent_kits. induction Hc as [|c l Hc _ IH]; [done|]. rewrite lent_cons, IH. unfold held. by rewrite Hc. }
  unfold assets in Hr. rewrite Hn, app_nil_r in Hr. apply Permutation_length in Hr. rewrite Hr. unfold free_tls_buffer_kits, free. rewrite length_app, length_fmap. lia.
Qed.

End manager.

(** ** Two kits *)
Section demo.
#[local] Existing Instance platform64.
#[local] Existing Instance Toy.toy.
#[local] Existing Instance H3Message.demo_h3.

Definition kit_demo : HttpServer.TlsBufKit := HttpServer.MkKit (replicate (Z.to_nat 64) 0) (replicate (Z.to_nat 65) 0) (replicate (Z.to_nat 66) 0).
Definition kits_demo_ops : list (op (A:=unit)) :=
  [AddKit kit_demo; AddKit kit_demo; AcceptTcp (replicate 32 1) (replicate 32 2) 0; AcceptTcp (replicate 32 3) (replicate 32 4) 0; TcpEof 0; TakeKit].
Definition kits_demo_end : env unit := ltac:(
  let r := eval vm_compute in (run QuicDemo.allocator 64 kits_demo_ops demo_start) in
  match r with Some (_, ?e) => exact e end).

Lemma server_kits_conserved_witness :
  donated kits_demo_ops ≡ₚ taken QuicDemo.allocator 64 kits_demo_ops demo_start ++ omap held (tcp_conns (mgr kits_demo_end)) ∧
  len (taken QuicDemo.allocator 64 kits_demo_ops demo_start) = 1.
Proof.
  destruct (server_kits_conserved QuicDemo.allocator 64 demo_tls default_config (Quic.new_pool 2) kits_demo_ops [] kits_demo_end) as [Hp _].
  - vm_compute. reflexivity.
  - split; [exact Hp|vm_compute; reflexivity].
Defined.
End demo.

End ServerKits.
